(* ===== verification/_CoqProject ===== *)
-Q . S2P
Prelude.v
Topology.v
Graph.v
UnionFind.v
KPaths.v
KCenters.v
Addressing.v
Fib.v
PyValue.v
PyString.v
PyNum.v
Events.v
Artifacts.v
Decode.v
CommandRunner.v
FakeRunner.v
HostApps.v
StateMonad.v
BridgeArgs.v
BridgeRoot.v
BridgeExternal.v
ExternalRestore.v
CefArgv.v
PyText.v
CcninfoParse.v
Verdict.v
ContentOps.v
NodeConf.v
ComputeClient.v
Scheduler.v
Options.v
Validate.v
ValidateEvents.v
ValidateConfig.v
FailureCycles.v
HostFlap.v
CachePlan.v
CacheSettings.v
ScheduledRuns.v
Topo.v
Provision.v
DaemonLogs.v
NetConfig.v
LinkControl.v
LogParse.v
LogSummary.v
Lifecycle.v
EventBatch.v
MeshRouting.v
Monitor.v
Disaster.v
Dashboard.v
Scenarios.v
Daemons.v
Bootstrap.v
Campaign.v
Autotest.v
Viz.v
Casting.v
Figures.v
ScenarioSpecs.v
