(* ===== verification/Prelude.v ===== *)
(** ReCefore (cefore-emu-sslab): a verification library for the emulator.

    ReCefore runs information-centric networking experiments: a YAML or JSON
    configuration describes a topology, publishers, routes and timed events; the
    program validates it, builds a Mininet network, installs FIB entries, starts
    the Cefore daemons, fires the events and records what became of each content
    operation.  This library translates that program (src/src/ of the repository)
    into executable definitions and proves what its parts promise each other.

    * How the parts interact

    command line + configuration --merge, validate--> options, links, events
                                                        (Bootstrap, Options, Validate...)
      links ----> mesh built in Mininet ----> query model (Topo, Topology)
      mesh + publishers ----> FIB entries                 (Graph, KPaths, Fib, Addressing)
      links ----> node directories, caches, addresses     (Provision, CachePlan, CacheSettings, NetConfig)
      daemons started and stopped around the run          (Lifecycle, EventBatch, Daemons, DaemonLogs)
      phases of an experiment                             (Disaster, Scenarios)
      events ----> heap ----> dispatched actions          (Events, Scheduler, ScheduledRuns)
        content operations ----> commands, records        (ContentOps, CefArgv, Verdict, CcninfoParse)
        compute calls, application restarts               (ComputeClient, HostApps)
      hosts and links that fail and recover               (FailureCycles, HostFlap, LinkControl)
      probes of the daemons, what the dashboard shows     (Monitor, Dashboard)
      commands on hosts and on the machine                (CommandRunner)
      content logs, results ----> rows and tables         (LogParse, LogSummary)
      root namespace and physical interfaces              (BridgeArgs, BridgeRoot, BridgeExternal)
      runs repeated and campaigns of runs                 (Autotest, Campaign, Casting)

    * Files

    Shared
      Prelude        exceptions and outcomes ([res]), loops with exceptions, list,
                     option and integer lemmas, tactics
      PyValue        the values of a configuration and Python's operations on them
      PyString       string operations, decimal numerals and their round trip
      PyNum          int and double arithmetic, rounding to nearest even
      PyText         lines, words, reading numbers from text
      StateMonad     programs with state and exceptions, their Hoare rules
    Topology and routing
      Topology       core/topology.py, TopologyModel
      Graph          core/graph.py: Dijkstra in its two forms
      UnionFind      core/graph.py: UnionFind
      KPaths         core/graph.py: Yen's k shortest paths
      KCenters       core/graph.py: distance maps, farthest-first centres
      Addressing     core/addressing.py
      Fib            core/fib.py: the three routing strategies
      Topo           runtime/topo.py: explicit links and random mesh
      MeshRouting    accepted configuration -> mesh -> routes, composed
    Configuration
      Events         core/events.py: schema, publications, restore events
      Options        core/config/validator.py (OPTION_SPECS), core/config/loader.py
      Validate, ValidateEvents, ValidateConfig
                     core/config/validator.py
      Artifacts      core/artifacts.py, core/paths.py
      Bootstrap      cli/bootstrap.py, cli/args.py, load_config, resolve_run_dir,
                     core/debug.py, core/tee.py
    Running
      Scheduler      runtime/scheduler.py
      ScheduledRuns  accepted configuration -> scheduler thread, composed
      CommandRunner  runtime/command_runner.py, with Decode (the text of captured
                     bytes) and FakeRunner (the recording runner of the tests)
      HostApps       runtime/host_apps.py
      CefArgv        runtime/cef_argv.py
      ComputeClient  runtime/compute_client.py
      CcninfoParse   core/ccninfo_parse.py
      Verdict        core/verdict.py, core/records.py, runtime/result_detect.py,
                     runtime/results_sink.py
      ContentOps     runtime/content_ops.py
      FailureCycles  runtime/failure_manager.py (FlexibleFailureManager), core/flap_state.py
      HostFlap       runtime/failure_manager.py (periodic_host_flap)
      LinkControl    runtime/links.py, runtime/bandwidth.py, core/parsing.py
      Lifecycle      scenarios/base.py, runtime/daemon_fleet.py, runtime/cleanup.py,
                     the recipes of runtime/scenario_setup.py
      EventBatch     runtime/event_batch.py
      Daemons        runtime/cefore.py, runtime/daemon_fleet.py, runtime/debug.py
      Monitor        runtime/monitoring.py
      Dashboard      webui/state.py
      Disaster       scenarios/disaster.py
      Scenarios      scenarios/linear.py, mesh.py, connect.py, config_driven_mesh.py,
                     the fixed topologies of runtime/topo.py
      ScenarioSpecs  the scenarios' constructors and specs, their foreground stage
                     and debug artifacts (scenarios/base.py), runtime/scenario_setup.py
      Viz            runtime/viz.py: the host graph, the printed trees and matrix
    Afterwards
      LogParse       log/schema.py, log/parser.py
      LogSummary     log/summarizer.py
    Measurement tools
      Campaign       tools/workshop/campaign.py
      Autotest       tools/autotest/run.py, analyze.py
      Casting        tools/workshop/topo_fingerprint.py, gen_m5e_config.py
      Figures        tools/workshop/plots.py, report.py: what they compute
    Root namespace
      BridgeArgs, BridgeRoot, BridgeExternal
                     runtime/bridge_args.py, bridge_root.py, bridge_external.py
      ExternalRestore  what bridge_external.py does to the machine's links
    Configuration of the nodes
      NodeConf       runtime/template.py: entries of a configuration file
      CachePlan      core/roles.py, runtime/cache_manager.py, cache_strategy.py,
                     forwarding.py, and the settings part of template.py
      CacheSettings  accepted cache_config -> placement -> csmgrd.conf, composed
      Provision      runtime/template.py: node directories;
                     runtime/scenario_setup.py: build_mesh_scenario
      DaemonLogs     runtime/cefore_conf.py, runtime/daemon_logs.py
      NetConfig      runtime/net_config.py, scenarios/disaster.py (FIB restoration)

    * How the code is represented

    Python integers are Z, floats are [pyfloat] (a dyadic number, an infinity or a
    NaN) with double rounding where the code computes, strings are byte strings,
    configuration data is [pv] (None, bool, int, float, str, list, dict with
    insertion order).  A pure function that may raise returns [res]; code that
    drives other processes is written in the state and exception monad of
    StateMonad over an abstract machine, or, where groups of exceptions are raised,
    in the programs of Lifecycle; methods that interleave with other
    threads are split where they release a lock and become the rules of a step
    relation (HostApps, ContentOps, FailureCycles, HostFlap, Monitor).  Log messages
    and sleeps are left out except where a theorem speaks of them (Daemons,
    Bootstrap).

    * What is a parameter

    Code that is not in the repository is an argument of the definitions that use
    it: the machine that runs commands ([Machine], [ExtMachine], the [tools] of
    ContentOps, the answers in CommandRunner, the [reply] of Lifecycle, EventBatch,
    NetConfig, Disaster, Scenarios, Daemons and Bootstrap), the clock ([clock] of
    Daemons, [ticking]), the parsers and files of Bootstrap, what a file operation may raise ([faults] of Provision,
    [stuck] and [copy_fault] of DaemonLogs), the outcome of a link command, a
    callback or a draw (arguments of the steps of FailureCycles and HostFlap),
    Mininet's network ([net] of LinkControl), [ipaddress] ([IpLib],
    [IpInterface]), [json.loads] ([JsonLib]), [repr] of a float ([FloatRepr]),
    [random] ([Rng], whose documented ranges are [RngLaws]), path resolution
    ([resolve], [realpath]), and Mininet's calls.  What the theorems need of them
    is a named hypothesis - documented behaviour of ip, iptables, sysctl and
    Mininet in [commands_law], [ip_link_law], [runner_law], [mininet_law],
    [tools_law] - and each such theorem has a witness on a concrete
    machine that satisfies it.

    * Groups of theorems

    - Routing: a search terminates and returns a cheapest path (Graph), Yen's
      paths are the cheapest simple ones (KPaths), centres are within twice the
      optimum (KCenters), every strategy lists exactly its routes and following
      them delivers (Fib), addresses are unique exactly within their bounds
      (Addressing), unions decide connectivity (UnionFind).
    - Building: a mesh build raises ValueError or yields a connected mesh whose
      interface numbers are the ports Mininet assigns (Topo); an accepted explicit
      topology always builds and routes (MeshRouting).
    - Configuration: when validation returns, what an accepted event and its
      restore have, who publishes what, the precedence of flags over the
      configuration, and the cases validation lets through (ValidateConfig,
      Options); paths stay in the run directory and names parse back (Artifacts).
    - Timing: the scheduler pops one fixed time-ordered sequence whatever is
      observed, and an undisturbed run handles every occurrence once
      (ScheduledRuns).
    - Start: a scenario is started only with an accepted configuration, a rejected
      one leaves nothing behind, and the script log is closed and the streams
      restored whatever happens (Bootstrap).
    - Processes: a wait ends by its deadline and reports truthfully, no application
      outlives the shutdown or, when the configured logs are different files without
      links among their later lives, truncates another's log (CommandRunner, HostApps);
      waiting for a fleet takes boundedly many polls and names exactly the hosts
      that never answered (Daemons); a handle's log is closed by its first wait
      (CommandRunner), a test's scripted results are handed out once and in order
      (FakeRunner), captured text is decoded back (Decode); a compute call succeeds only on evidence
      (ComputeClient).
    - Content: every operation is accounted for once under every interleaving,
      records are typed and backed by evidence, verdicts are exactly their
      evidence, output parses back (ContentOps, Verdict, CcninfoParse).
    - Logs: what the tools print is read back field by field, and every content log
      becomes one row of the summary, with no column lost (LogParse, LogSummary).
    - Root namespace: attachments and bridges leave the machine as they found it
      once cleanup succeeds, but for NAT rules whose rollback the setup reported as
      failed, and cleanup keeps what failed (ExternalRestore, BridgeRoot).
    - Node configuration: setting an entry and reading it back (NodeConf); a host
      runs in cache mode exactly when it is a cache node (CachePlan), an accepted
      cache_config reaches the files of the cache nodes as written (CacheSettings);
      an interrupted provisioning removes what it made, but for the one directory
      whose removal, copy or stamp was interrupted, and spares what it did not
      create (Provision); the hosts' daemon logs never meet (DaemonLogs); every installed next hop is an address
      that is assigned (NetConfig).
    - Failure injection: the hosts reported down are exact under every
      interleaving, every run of cycles ends, and an undisturbed one ends with
      none reported down, and every host up but those whose last command up was
      refused (FailureCycles, HostFlap).
    - Lifecycle: whatever raises, the stages of the cleanup run in order, each to its
      first operation that raises, and no exception is lost (Lifecycle); a batch stops what it starts (EventBatch).
    - Experiments: the phases of a disaster run follow one another and are gated,
      and the shutdown releases what was started (Disaster); a line delivers to its
      last host (Scenarios), its teardown stops every cache manager it started, and
      a disaster run is set up only with every daemon ready (ScenarioSpecs).
    - Observation: a monitor's records are whole passes and a beginning of one more,
      under every interleaving with its stop (Monitor); the dashboard shows the last
      of every record (Dashboard); the printed trees are breadth-first trees (Viz).
    - Measurement: a campaign resumes after any interruption that cuts no write of
      its journal short, without running a successful job again (Campaign), a summary counts every evaluation record once (Autotest),
      the offline topology is the run's and the roles cast on it have the cache
      coverage they need (Casting), the report's counts are the journal's (Figures).

    * Bounds and fuel

    A [while] loop whose measure is not structural takes fuel computed from its
    input, and [NoFuel] marks running out of it: the heap loops of Graph (one
    unit per edge and node), [bfs_loop] (one per node), [find] (one per element),
    the mesh loops of Topo, the validator's reachability search.  The theorem of
    each says the fuel given suffices.  [NoFuel] inside code that catches
    exceptions is turned into an exception so that the definitions stay total; the
    lemmas named [..._fuel] and [..._total] show that it does not arise.  The loops of
    [run] (Scheduler) and [wait] (CommandRunner) consume an explicit list of
    observations of the clock and the operating system instead; termination says
    how many are consumed.  The threads of FailureCycles have no fuel either: their
    steps decrease [todo_cost], which bounds the length of every run.

    * Not modelled

    The front ends that
    call a library and decide nothing (src/cli/main.py, src/webui/server.py,
    src/log/cli.py, src/log/plotter.py, runtime/external_net.py); the PNG of runtime/viz.py;
    Mininet, of which the repository has only the examples (src/mininet/examples);
    the drawing and the HTML of tools/workshop (plots.py, report.py), of which
    Figures has the numbers; the agent scripts, which are not part of the emulator.
*)

From stdpp Require Export base gmap sets list strings sorting pretty fin_maps.
From Stdlib Require Export ZArith Lia.


(** * Python outcomes *)

(** The exception classes the modelled code raises (or lets escape from the
    built-in containers). *)
Inductive exn_class :=
  | EKeyError | EIndexError | ETypeError | EValueError | ERuntimeError
  | EAssertionError | EAttributeError | EOverflowError | EOSError | ENodeDirError | EOther
  | EKeyboardInterrupt | ESystemExit.

(** An exception: its class and its message ([str(exc)]). *)
Record exn := Exn { exn_cls : exn_class; exn_msg : string }.

(** [isinstance(e, Exception)]: the last two classes are other [BaseException]s. *)
Definition is_exception (e : exn) : bool :=
  match exn_cls e with EKeyboardInterrupt | ESystemExit => false | _ => true end.

#[export] Instance exn_class_eq_dec : EqDecision exn_class.
Proof. solve_decision. Defined.
#[export] Instance exn_eq_dec : EqDecision exn.
Proof. solve_decision. Defined.

(** The outcome of a call: a value, an exception, or [NoFuel] for a bounded
    loop that was cut short.  [NoFuel] is an artefact of the model: every loop
    has a theorem that excludes it. *)
Inductive res (A : Type) :=
  | Ok (a : A)
  | Raise (e : exn)
  | NoFuel.
Arguments Ok {_} _.
Arguments Raise {_} _.
Arguments NoFuel {_}.

#[export] Instance res_ret : MRet res := @Ok.
#[export] Instance res_bind : MBind res := λ A B f m,
  match m with Ok a => f a | Raise e => Raise e | NoFuel => NoFuel end.
#[export] Instance res_fmap : FMap res := λ A B f m,
  match m with Ok a => Ok (f a) | Raise e => Raise e | NoFuel => NoFuel end.
#[export] Instance res_eq_dec `{EqDecision A} : EqDecision (res A).
Proof. solve_decision. Defined.

Definition raise {A} (c : exn_class) (msg : string) : res A := Raise (Exn c msg).

(** [for x in xs: acc = f(acc, x)], stopping at the first exception. *)
Fixpoint foldM {A B} (f : B → A → res B) (b : B) (xs : list A) : res B :=
  match xs with
  | [] => Ok b
  | x :: xs => b' ← f b x; foldM f b' xs
  end.

(** [[f(x) for x in xs]], stopping at the first exception. *)
Fixpoint mapR {A B} (f : A → res B) (xs : list A) : res (list B) :=
  match xs with
  | [] => Ok []
  | x :: xs => y ← f x; ys ← mapR f xs; Ok (y :: ys)
  end.

Lemma res_bind_Ok {A B} (m : res A) (f : A → res B) b :
  m ≫= f = Ok b ↔ ∃ a, m = Ok a ∧ f a = Ok b.
Proof. destruct m; simpl; naive_solver. Qed.

Lemma Ok_inj {A} (a b : A) : Ok a = Ok b → a = b.
Proof. by intros [= ->]. Qed.

Lemma foldM_app {A B} (f : B → A → res B) b xs ys :
  foldM f b (xs ++ ys) = foldM f b xs ≫= λ b', foldM f b' ys.
Proof.
  revert b. induction xs as [|x xs IH]; intros b; [done|]. simpl.
  destruct (f b x); simpl; auto.
Qed.

Lemma mapR_Ok {A B} (f : A → res B) xs ys :
  mapR f xs = Ok ys ↔ Forall2 (λ x y, f x = Ok y) xs ys.
Proof.
  revert ys. induction xs as [|x xs IH]; intros ys; simpl.
  - split; [intros [= <-]; constructor|by inversion 1].
  - split.
    + intros (y & Hy & (ys' & Hys & [= <-])%res_bind_Ok)%res_bind_Ok.
      constructor; [done|]. by apply IH.
    + inversion 1 as [|? y ? ys' Hy Hys]; subst. rewrite Hy. simpl.
      by rewrite (proj2 (IH ys') Hys).
Qed.

Lemma mapR_total {A B} (f : A → res B) xs :
  (∀ x, x ∈ xs → ∃ y, f x = Ok y) → ∃ ys, mapR f xs = Ok ys.
Proof.
  induction xs as [|x xs IH]; intros H; simpl; [by eexists|].
  destruct (H x) as [y ->]; [by left|]. destruct IH as [ys ->]; [by intros; apply H; right|].
  by eexists.
Qed.

(** Invert every monadic bind in the context that is known to succeed. *)
Ltac inv_ok :=
  repeat match goal with
  | H : Ok _ = Ok _ |- _ => injection H as H; try subst
  | H : Raise _ = Ok _ |- _ => discriminate H
  | H : NoFuel = Ok _ |- _ => discriminate H
  | H : raise _ _ = Ok _ |- _ => discriminate H
  | H : (_ ≫= _) = Ok _ |- _ =>
      let x := fresh "x" in let E := fresh "E" in
      apply res_bind_Ok in H as (x & E & H)
  end.

(** * Python sequences *)

(** [l[i]] with Python's negative indices and [IndexError]. *)
Definition py_index {A} (l : list A) (i : Z) : option nat :=
  let n := Z.of_nat (length l) in
  if decide (0 ≤ i < n)%Z then Some (Z.to_nat i)
  else if decide (-n ≤ i < 0)%Z then Some (Z.to_nat (n + i))
  else None.

Definition py_getitem {A} (l : list A) (i : Z) : res A :=
  match py_index l i ≫= λ k, l !! k with
  | Some x => Ok x
  | None => raise EIndexError "list index out of range"
  end.

Definition py_setitem {A} (l : list A) (i : Z) (x : A) : res (list A) :=
  match py_index l i with
  | Some k => Ok (<[k:=x]> l)
  | None => raise EIndexError "list assignment index out of range"
  end.

Lemma py_getitem_Ok {A} (l : list A) i x :
  (0 ≤ i < Z.of_nat (length l))%Z → py_getitem l i = Ok x ↔ l !! Z.to_nat i = Some x.
Proof.
  intros Hi. unfold py_getitem, py_index. rewrite decide_True by done. simpl.
  unfold raise.
  destruct (l !! Z.to_nat i); split; congruence.
Qed.

Lemma py_setitem_Ok {A} (l : list A) i x :
  (0 ≤ i < Z.of_nat (length l))%Z → py_setitem l i x = Ok (<[Z.to_nat i := x]> l).
Proof. intros Hi. unfold py_setitem, py_index. by rewrite decide_True by done. Qed.

Lemma py_getitem_nat {A} (l : list A) (i : nat) x :
  py_getitem l (Z.of_nat i) = Ok x ↔ l !! i = Some x.
Proof.
  destruct (decide (i < length l)) as [Hi|Hi].
  - rewrite py_getitem_Ok by lia. by rewrite Nat2Z.id.
  - unfold py_getitem, py_index. rewrite !decide_False by lia. simpl.
    rewrite lookup_ge_None_2 by lia. done.
Qed.

(** The slice [l[:k]], with a negative [k] counted from the end. *)
Definition py_take {A} (k : Z) (l : list A) : list A :=
  if decide (0 ≤ k)%Z then take (Z.to_nat k) l
  else take (Z.to_nat (Z.of_nat (length l) + k)) l.

(** [range(n)]. *)
Definition range (n : Z) : list Z := seqZ 0 n.

(** [sorted(s)] for a set of integers, and for a list of integers. *)
Definition sorted_list (l : list Z) : list Z := merge_sort Z.le l.
Definition sorted_set (s : gset Z) : list Z := sorted_list (elements s).

Lemma elem_of_range n i : i ∈ range n ↔ (0 ≤ i < n)%Z.
Proof. unfold range. rewrite elem_of_seqZ. lia. Qed.

Lemma NoDup_range n : NoDup (range n).
Proof. apply NoDup_seqZ. Qed.

Lemma elem_of_sorted_list l x : x ∈ sorted_list l ↔ x ∈ l.
Proof. unfold sorted_list. by rewrite (merge_sort_Permutation Z.le l). Qed.

Lemma elem_of_sorted_set s x : x ∈ sorted_set s ↔ x ∈ s.
Proof. unfold sorted_set. by rewrite elem_of_sorted_list, elem_of_elements. Qed.

Lemma NoDup_sorted_set s : NoDup (sorted_set s).
Proof.
  unfold sorted_set, sorted_list. rewrite (merge_sort_Permutation Z.le _).
  apply NoDup_elements.
Qed.

#[export] Instance Zle_total : Total Z.le.
Proof. intros x y. lia. Qed.

Lemma StronglySorted_sorted_list l : StronglySorted Z.le (sorted_list l).
Proof. apply StronglySorted_merge_sort; apply _. Qed.

Lemma sorted_list_Permutation l : sorted_list l ≡ₚ l.
Proof. apply merge_sort_Permutation. Qed.

Lemma length_sorted_set s : length (sorted_set s) = size s.
Proof. unfold sorted_set. by rewrite sorted_list_Permutation. Qed.

Lemma StronglySorted_lookup {A} (R : relation A) (l : list A) i j x y :
  StronglySorted R l → l !! i = Some x → l !! j = Some y → (i < j)%nat → R x y.
Proof.
  intros Hs. revert i j. induction Hs as [|z l Hs IH Hz]; intros i j Hi Hj Hij; [done|].
  destruct j as [|j]; [lia|]. destruct i as [|i]; simpl in *.
  - injection Hi as ->. rewrite Forall_forall in Hz. apply Hz. by eapply list_elem_of_lookup_2.
  - apply (IH i j); [done..|lia].
Qed.

(** An association list without repeated keys is functional. *)
Lemma NoDup_fst_fun {A B} (l : list (A * B)) a b b' :
  NoDup l.*1 → (a, b) ∈ l → (a, b') ∈ l → b = b'.
Proof.
  intros Hnd (i & Hi)%list_elem_of_lookup (j & Hj)%list_elem_of_lookup.
  assert (i = j) as ->; [|congruence].
  apply (NoDup_lookup l.*1 i j a Hnd); by rewrite list_lookup_fmap, ?Hi, ?Hj.
Qed.

Lemma filter_none {A} (P : A → Prop) `{∀ x, Decision (P x)} (l : list A) :
  (∀ x, x ∈ l → ¬ P x) → filter P l = [].
Proof.
  induction l as [|x l IH]; intros Hl; [done|]. rewrite filter_cons_False by (apply Hl; by left).
  apply IH. intros y ?. apply Hl. by right.
Qed.

Lemma NoDup_take {A} n (l : list A) : NoDup l → NoDup (take n l).
Proof. intros H. rewrite <- (take_drop n l), NoDup_app in H. by destruct H. Qed.

(** The first [k] elements of a duplicate-free list sorted by [R] are the ones
    with fewer than [k] elements before them. *)
Lemma elem_of_take_sorted {A} (R : relation A) `{!AntiSymm (=) R} k (l : list A) x :
  StronglySorted R l → NoDup l →
  x ∈ take k l ↔ x ∈ l ∧
    ∀ ys, NoDup ys → (∀ y, y ∈ ys → y ∈ l ∧ y ≠ x ∧ R y x) → (length ys < k)%nat.
Proof.
  intros Hs Hnd. rewrite elem_of_take. split.
  - intros (i & Hi & Hk). split; [by eapply list_elem_of_lookup_2|].
    intros ys Hys Hbefore. assert (Hsub : ys ⊆ take i l).
    { intros y Hy. destruct (Hbefore y Hy) as ((j & Hj)%list_elem_of_lookup & Hne & HR).
      apply elem_of_take. exists j. split; [done|].
      destruct (decide (j < i)) as [|Hge]; [done|]. destruct Hne.
      destruct (decide (i = j)) as [->|]; [congruence|].
      apply (anti_symm R); [done|]. by apply (StronglySorted_lookup R l i j); [..|lia]. }
    apply NoDup_submseteq in Hsub; [|done]. apply submseteq_length in Hsub.
    rewrite length_take in Hsub. lia.
  - intros ((i & Hi)%list_elem_of_lookup & Hk). exists i. split; [done|].
    pose proof (lookup_lt_Some _ _ _ Hi).
    replace i with (length (take i l)) by (rewrite length_take; lia).
    apply Hk; [by apply NoDup_take|].
    intros y (j & Hj & Hji)%elem_of_take. split_and!.
    + by eapply list_elem_of_lookup_2.
    + intros ->. pose proof (NoDup_lookup _ _ _ _ Hnd Hi Hj). lia.
    + by apply (StronglySorted_lookup R l j i).
Qed.

(** [str(i)] for an integer. *)
Definition str_Z (i : Z) : string := pretty i.

#[export] Instance str_Z_inj : Inj (=) (=) str_Z.
Proof. intros x y. apply pretty_Z_inj. Qed.

Declare Scope py_scope.
Delimit Scope py_scope with py.
Notation "s1 +s+ s2" := (String.append s1 s2) (at level 60, right associativity) : py_scope.
Open Scope py_scope.

Lemma string_app_assoc (a b c : string) : (a +s+ b) +s+ c = a +s+ b +s+ c.
Proof.
  induction a as [|x a IH]; [done|].
  change (String x ((a +s+ b) +s+ c) = String x (a +s+ b +s+ c)). by rewrite IH.
Qed.

Create HintDb pydb.
#[export] Hint Rewrite elem_of_range elem_of_sorted_list elem_of_sorted_set
  length_sorted_set : pydb.
#[export] Hint Resolve NoDup_range NoDup_sorted_set StronglySorted_sorted_list : pydb.
