(* ===== verification/Topology.v ===== *)
(** Component: the topology query interface (src/core/topology.py) and the link
    lookups of src/runtime/links.py.  [TopologyModel] normalises the two link
    dict shapes of [mesh_links] once; every consumer (FIB, addressing, link
    control) queries the normalised list. *)
From S2P Require Import Prelude.
Local Open Scope Z_scope.

(** [core.topology.Link]. *)
Record Link := mkLink {
  switch : option string;
  subnet : option Z;
  hosts : list Z;
  host_eth : gmap Z Z;
}.

(** A link dict as found in [mesh_links]: the multi-host shape ("hosts" in raw)
    or the point-to-point one.  Keys read with [.get] are options. *)
Inductive raw_link :=
  | RawMulti (sw : option string) (sn : option Z) (hs : list Z) (eth : option (gmap Z Z))
  | RawP2P (sw : option string) (sn : option Z) (host_a host_b : Z)
           (host_a_eth host_b_eth : option Z).

(** [Link.connects]. *)
Definition connects (l : Link) (host_a host_b : Z) : bool :=
  bool_decide (host_a ∈ hosts l) && bool_decide (host_b ∈ hosts l).

(** [Link.eth_of]: [self.host_eth[host]]. *)
Definition eth_of (l : Link) (host : Z) : res Z :=
  match host_eth l !! host with
  | Some i => Ok i
  | None => raise EKeyError (str_Z host)
  end.

(** [TopologyModel._normalize]. *)
Definition normalize (raw : raw_link) : Link :=
  match raw with
  | RawMulti sw sn hs eth => mkLink sw sn (sorted_list hs) (default ∅ eth)
  | RawP2P sw sn a b ea eb =>
      let eth0 : gmap Z Z := match ea with Some i => {[a := i]} | None => ∅ end in
      let eth1 := match eb with Some i => <[b := i]> eth0 | None => eth0 end in
      mkLink sw sn (sorted_list [a; b]) eth1
  end.

(** [TopologyModel.__init__]: the model is the list of normalised links. *)
Definition TopologyModel (mesh_links : list raw_link) : list Link :=
  normalize <$> mesh_links.

(** The inner double loop of [TopologyModel.edges] on one host list:
    [for idx, a in enumerate(hosts): for b in hosts[idx+1:]]. *)
Fixpoint host_pairs (hs : list Z) : list (Z * Z) :=
  match hs with
  | [] => []
  | a :: rest => (pair a <$> rest) ++ host_pairs rest
  end.

(** [TopologyModel.edges]. *)
Definition edges (links : list Link) : list (Z * Z * Link) :=
  links ≫= λ l, (λ p, (p.1, p.2, l)) <$> host_pairs (hosts l).

(** [TopologyModel.subnet_of_switch]. *)
Definition subnet_of_switch (links : list Link) (sw : string) : option Z :=
  match list_find (λ l, switch l = Some sw) links with
  | Some (_, l) => subnet l
  | None => None
  end.

(** [TopologyModel.links_for_host]. *)
Definition links_for_host (links : list Link) (host : Z) : list Link :=
  filter (λ l, host ∈ hosts l) links.

(** [TopologyModel.find_link]. *)
Definition find_link (links : list Link) (host_a host_b : Z) : option Link :=
  snd <$> list_find (λ l, connects l host_a host_b) links.

(** [TopologyModel.peer_of]. *)
Definition peer_of (links : list Link) (host : Z) : res Z :=
  match list_find (λ o, o ≠ host) (links_for_host links host ≫= hosts) with
  | Some (_, other) => Ok other
  | None => raise ERuntimeError ("publisher h" +s+ str_Z host +s+ " has no links")
  end.

(** Python's [max(highest, *hosts)]: with no host the call has a single
    integer argument and raises [TypeError]. *)
Definition max_star (highest : Z) (hs : list Z) : res Z :=
  match hs with
  | [] => raise ETypeError "'int' object is not iterable"
  | _ => Ok (foldl Z.max highest hs)
  end.

(** [TopologyModel.host_count]. *)
Definition host_count (links : list Link) : res Z :=
  highest ← foldM (λ h l, max_star h (hosts l)) (-1) links;
  Ok (highest + 1).

(** * Lemmas *)

Lemma hosts_normalize_sorted raw : StronglySorted Z.le (hosts (normalize raw)).
Proof. destruct raw; simpl; apply StronglySorted_sorted_list. Qed.

Lemma elem_of_host_pairs hs a b :
  (a, b) ∈ host_pairs hs ↔
  ∃ i j, (i < j)%nat ∧ hs !! i = Some a ∧ hs !! j = Some b.
Proof.
  induction hs as [|x hs IH]; simpl.
  - split; [by intros ?%elem_of_nil|intros (i & j & _ & Hi & _); by destruct i].
  - rewrite elem_of_app, list_elem_of_fmap, IH. split.
    + intros [(y & [= -> ->] & (j & Hj)%list_elem_of_lookup)|(i & j & ? & ? & ?)].
      * exists 0%nat, (S j). split; [lia|done].
      * exists (S i), (S j). split; [lia|done].
    + intros (i & j & Hij & Hi & Hj). destruct j as [|j]; [lia|]. destruct i as [|i].
      * left. simplify_eq/=. exists b. split; [done|].
        by apply list_elem_of_lookup_2 in Hj.
      * right. exists i, j. split; [lia|done].
Qed.

Lemma elem_of_edges links a b l :
  (a, b, l) ∈ edges links ↔ l ∈ links ∧ (a, b) ∈ host_pairs (hosts l).
Proof.
  unfold edges. rewrite list_elem_of_bind. split.
  - intros (l' & ([x y] & [= -> -> ->] & Hp)%list_elem_of_fmap & Hl). done.
  - intros [Hl Hp]. exists l. split; [|done]. apply list_elem_of_fmap. by exists (a, b).
Qed.

Lemma elem_of_TopologyModel mesh l :
  l ∈ TopologyModel mesh → StronglySorted Z.le (hosts l).
Proof.
  unfold TopologyModel. intros (raw & -> & _)%list_elem_of_fmap.
  apply hosts_normalize_sorted.
Qed.

Lemma StronglySorted_lookup_lt hs i j a b :
  StronglySorted Z.le hs → NoDup hs → (i < j)%nat →
  hs !! i = Some a → hs !! j = Some b → a < b.
Proof.
  intros Hs Hnd Hij Hi Hj.
  assert (a ≠ b) by (intros ->; pose proof (NoDup_lookup _ _ _ _ Hnd Hi Hj); lia).
  pose proof (StronglySorted_lookup _ _ _ _ _ _ Hs Hi Hj Hij). lia.
Qed.

Lemma foldl_max_spec hs h :
  h ≤ foldl Z.max h hs ∧ (∀ x, x ∈ hs → x ≤ foldl Z.max h hs) ∧
  (foldl Z.max h hs = h ∨ foldl Z.max h hs ∈ hs).
Proof.
  revert h. induction hs as [|x hs IH]; intros h; simpl.
  - split_and!; [lia|by intros ? ?%elem_of_nil|by left].
  - destruct (IH (h `max` x)) as (H1 & H2 & H3). split_and!; [lia| |].
    + intros y [->|Hy]%elem_of_cons; [lia|auto].
    + destruct H3 as [->|H3]; [|right; by apply elem_of_cons; right].
      rewrite elem_of_cons. lia.
Qed.

Lemma host_count_fold links h r :
  foldM (λ h l, max_star h (hosts l)) h links = Ok r →
  h ≤ r ∧ (∀ l x, l ∈ links → x ∈ hosts l → x ≤ r) ∧
  (r = h ∨ ∃ l, l ∈ links ∧ r ∈ hosts l).
Proof.
  revert h. induction links as [|l links IH]; intros h Hf; simpl in Hf.
  - inv_ok. split_and!; [lia|by intros ?? ?%elem_of_nil|by left].
  - apply res_bind_Ok in Hf as (m & Hm & Hf). apply IH in Hf as (H1 & H2 & H3).
    unfold max_star in Hm. destruct (hosts l) as [|y ys] eqn:E; [done|].
    injection Hm as Hm. change (foldl Z.max h (y :: ys) = m) in Hm.
    rewrite <- E in Hm. clear E.
    destruct (foldl_max_spec (hosts l) h) as (G1 & G2 & G3). rewrite Hm in *.
    split_and!; [lia| |].
    + intros l' x [->|Hl]%elem_of_cons Hx; [specialize (G2 x Hx); lia|eauto].
    + destruct H3 as [->|(l' & ? & ?)].
      * destruct G3 as [->|G3]; [by left|right]. exists l. split; [by left|done].
      * right. exists l'. split; [by right|done].
Qed.

(** * Properties *)

(** The pairs of a link whose hosts are distinct are exactly its ordered pairs. *)
Lemma host_pairs_lt hs a b :
  StronglySorted Z.le hs → NoDup hs →
  (a, b) ∈ host_pairs hs ↔ a < b ∧ a ∈ hs ∧ b ∈ hs.
Proof.
  intros Hs Hnd. rewrite elem_of_host_pairs. split.
  - intros (i & j & Hij & Hi & Hj). split.
    + by eapply StronglySorted_lookup_lt.
    + eauto using list_elem_of_lookup_2.
  - intros (Hab & (i & Hi)%list_elem_of_lookup & (j & Hj)%list_elem_of_lookup).
    exists i, j. split; [|done].
    destruct (decide (i < j)%nat) as [|Hge]; [done|exfalso].
    destruct (decide (i = j)) as [->|Hne]; [rewrite Hi in Hj; simplify_eq; lia|].
    assert (b < a); [|lia]. apply (StronglySorted_lookup_lt hs j i); [done..|lia|done|done].
Qed.

(** [edges] lists, for every link, exactly the pairs [a < b] of
    hosts that share it. *)
Lemma edges_spec mesh a b l :
  (∀ l, l ∈ TopologyModel mesh → NoDup (hosts l)) →
  (a, b, l) ∈ edges (TopologyModel mesh) ↔
  l ∈ TopologyModel mesh ∧ a < b ∧ a ∈ hosts l ∧ b ∈ hosts l.
Proof.
  intros Hnd. rewrite elem_of_edges. split.
  - intros [Hl Hp]. split; [done|]. apply host_pairs_lt in Hp; [done| |by apply Hnd].
    by eapply elem_of_TopologyModel.
  - intros (Hl & Hp). split; [done|].
    apply host_pairs_lt; [by eapply elem_of_TopologyModel|by apply Hnd|done].
Qed.

Lemma find_link_Some links a b l :
  find_link links a b = Some l ↔
  ∃ i, links !! i = Some l ∧ a ∈ hosts l ∧ b ∈ hosts l ∧
    ∀ j l', (j < i)%nat → links !! j = Some l' → ¬ (a ∈ hosts l' ∧ b ∈ hosts l').
Proof.
  assert (Hc : ∀ l, connects l a b ↔ a ∈ hosts l ∧ b ∈ hosts l).
  { intros l'. unfold connects. rewrite andb_True, !bool_decide_spec. done. }
  unfold find_link. rewrite fmap_Some. split.
  - intros ([i l'] & (Hi & Hp & Hb)%list_find_Some & ->). simpl. exists i.
    split; [done|]. apply Hc in Hp as [??]. split_and!; [done..|].
    intros j l'' Hj Hl''. rewrite <- Hc. by eapply Hb.
  - intros (i & Hi & Ha & Hb & Hmin). exists (i, l). split; [|done].
    apply list_find_Some. split_and!; [done|by apply Hc|].
    intros j y Hy Hj. rewrite Hc. by eapply Hmin.
Qed.

Lemma find_link_None links a b :
  find_link links a b = None ↔ ∀ l, l ∈ links → ¬ (a ∈ hosts l ∧ b ∈ hosts l).
Proof.
  unfold find_link. rewrite fmap_None, list_find_None, Forall_forall.
  unfold connects. setoid_rewrite andb_True. setoid_rewrite bool_decide_spec. done.
Qed.

Lemma peer_of_Ok links h p :
  peer_of links h = Ok p → p ≠ h ∧ ∃ l, l ∈ links ∧ h ∈ hosts l ∧ p ∈ hosts l.
Proof.
  unfold peer_of. destruct (list_find _ _) as [[i x]|] eqn:E; intros; inv_ok.
  apply list_find_Some in E as (Hi & Hne & _). split; [done|].
  apply list_elem_of_lookup_2, list_elem_of_bind in Hi as (l & ? & Hl).
  apply list_elem_of_filter in Hl as [??]. eauto.
Qed.

Lemma peer_of_total links h l p :
  l ∈ links → h ∈ hosts l → p ∈ hosts l → p ≠ h → ∃ q, peer_of links h = Ok q.
Proof.
  intros Hl Hh Hp Hne. unfold peer_of.
  destruct (list_find _ _) as [[i x]|] eqn:E; [eauto|exfalso].
  apply list_find_None in E. rewrite Forall_forall in E. apply (E p); [|done].
  apply list_elem_of_bind. exists l. split; [done|]. by apply list_elem_of_filter.
Qed.

Lemma host_count_Ok links n :
  host_count links = Ok n →
  0 ≤ n ∧ (∀ l x, l ∈ links → x ∈ hosts l → x < n) ∧
  (n = 0 ∨ ∃ l, l ∈ links ∧ n - 1 ∈ hosts l).
Proof.
  unfold host_count. intros H. inv_ok. apply host_count_fold in E as (? & H1 & H2).
  split_and!; [lia| |].
  - intros l x' Hl Hx. specialize (H1 l x' Hl Hx). lia.
  - destruct H2 as [->|(l & ? & ?)]; [left; lia|right; exists l].
    replace (x + 1 - 1) with x by lia. done.
Qed.

Lemma host_count_total links :
  (∀ l, l ∈ links → hosts l ≠ []) → ∃ n, host_count links = Ok n.
Proof.
  intros Hne. unfold host_count. generalize (-1).
  induction links as [|l links IH]; intros h; simpl; [by eexists|].
  pose proof (Hne l ltac:(by left)). destruct (hosts l) as [|x xs] eqn:E; [done|].
  simpl. apply IH. intros l' ?. apply Hne. by right.
Qed.
