(* ===== verification/Graph.v ===== *)
(** Component: weighted graph search (src/core/graph.py).

    One loop, [search_loop], is the [while heap:] loop that [shortest_path],
    [dijkstra_all] and the weighted branch of [compute_distances] share; its
    Section variables are the points where the three copies differ (the
    neighbours of a node, the edge filter, the early exit).  The heap is the
    sorted list of its entries: [heapq] pops a minimum of a total order whose
    equal entries are indistinguishable. *)
From S2P Require Import Prelude.
Local Open Scope Z_scope.

(** [graph: Dict mapping node to set of neighbors]. *)
Abbreviation graph := (gmap Z (gset Z)).

(** [weight_fn: (a, b) -> cost], by default [lambda _a, _b: 1]. *)
Definition unit_weight : Z → Z → Z := λ _ _, 1.

(** * The heap of [(dist, node)] entries, in tuple order *)

Definition entry_le (x y : Z * Z) : Prop := x.1 < y.1 ∨ (x.1 = y.1 ∧ x.2 ≤ y.2).

#[export] Instance entry_le_dec : RelDecision entry_le.
Proof. intros x y. unfold entry_le. apply _. Defined.

(** [heapq.heappush] into the sorted entry list. *)
Fixpoint heappush (x : Z * Z) (h : list (Z * Z)) : list (Z * Z) :=
  match h with
  | [] => [x]
  | y :: h' => if decide (entry_le x y) then x :: h else y :: heappush x h'
  end.

(** * The search loop *)

(** The local variables [distances], [parents] and [heap]. *)
Record search := mkSearch {
  distances : gmap Z Z;
  parents : gmap Z (option Z);
  heap : list (Z * Z);
}.

(** [new_dist < distances.get(neighbor, float("inf"))]. *)
Definition lt_inf (d : Z) (o : option Z) : bool :=
  match o with Some d' => bool_decide (d < d') | None => true end.

Section search.
(** [sorted(graph[node])] or [sorted(graph.get(node, []))]. *)
Variable neighbors : Z → res (list Z).
(** The [continue] guards of the neighbour loop. *)
Variable skip : Z → Z → bool.
(** The [break] test on the popped node. *)
Variable stop : Z → bool.
Variable weight_fn : Z → Z → Z.

(** One iteration of [for neighbor in sorted(graph[node])]. *)
Definition relax (node dist : Z) (st : search) (neighbor : Z) : search :=
  if skip node neighbor then st else
  let new_dist := dist + weight_fn node neighbor in
  if lt_inf new_dist (distances st !! neighbor) then
    mkSearch (<[neighbor := new_dist]> (distances st))
             (<[neighbor := Some node]> (parents st))
             (heappush (new_dist, neighbor) (heap st))
  else st.

(** [while heap: ...]; one unit of fuel per pop, and one for the final test. *)
Fixpoint search_loop (fuel : nat) (st : search) : res search :=
  match fuel with
  | O => NoFuel
  | S fuel =>
      match heap st with
      | [] => Ok st
      | (dist, node) :: h =>
          let st := mkSearch (distances st) (parents st) h in
          if stop node then Ok st
          else if decide (distances st !! node = Some dist) then
            ns ← neighbors node;
            search_loop fuel (foldl (relax node dist) st ns)
          else search_loop fuel st
      end
  end.
End search.

(** [distances = {source: 0}; parents = {source: None}; heap = [(0, source)]]. *)
Definition search_init (source : Z) : search :=
  mkSearch {[source := 0]} {[source := None]} [(0, source)].

(** The total degree of the graph, and the fuel of one search: every node is
    expanded at most once, so at most [1 + degree_sum g] entries are pushed. *)
Definition degree_sum (g : graph) : nat := map_fold (λ _ ns acc, size ns + acc)%nat 0%nat g.
Definition search_fuel (g : graph) : nat := S (S (degree_sum g)).

(** [graph[node]] (KeyError when absent) and [graph.get(node, [])], sorted. *)
Definition neighbors_getitem (g : graph) (node : Z) : res (list Z) :=
  match g !! node with
  | Some ns => Ok (sorted_set ns)
  | None => raise EKeyError (str_Z node)
  end.
Definition neighbors_get (g : graph) (node : Z) : res (list Z) :=
  Ok (sorted_set (default ∅ (g !! node))).

(** [while node is not None: path.append(node); node = parents[node]], with the
    path already reversed in the accumulator. *)
Fixpoint trace_parents (fuel : nat) (par : gmap Z (option Z)) (node : option Z)
    (acc : list Z) : res (list Z) :=
  match node with
  | None => Ok acc
  | Some n =>
      match fuel with
      | O => NoFuel
      | S fuel =>
          match par !! n with
          | Some p => trace_parents fuel par p (n :: acc)
          | None => raise EKeyError (str_Z n)
          end
      end
  end.

(** [edge in banned_edges] for [edge = frozenset((node, neighbor))]: the edges
    are undirected, so the pair is kept in increasing order. *)
Definition frozen (a b : Z) : Z * Z := (Z.min a b, Z.max a b).

(** The two [continue] guards of [shortest_path]. *)
Definition banned (target : Z) (banned_edges : gset (Z * Z)) (banned_nodes : gset Z)
    (node neighbor : Z) : bool :=
  bool_decide (frozen node neighbor ∈ banned_edges)
  || (bool_decide (neighbor ∈ banned_nodes) && bool_decide (neighbor ≠ target)).

(** [shortest_path]. *)
Definition shortest_path (g : graph) (source target : Z)
    (banned_edges : gset (Z * Z)) (banned_nodes : gset Z) (weight_fn : Z → Z → Z)
    : res (option (list Z)) :=
  if decide (source = target) then Ok (Some [source]) else
  st ← search_loop (neighbors_getitem g) (banned target banned_edges banned_nodes)
         (λ node, bool_decide (node = target)) weight_fn (search_fuel g)
         (search_init source);
  match parents st !! target with
  | None => Ok None
  | Some _ =>
      path ← trace_parents (S (size (parents st))) (parents st) (Some target) [];
      Ok (Some path)
  end.

(** [dijkstra_all]. *)
Definition dijkstra_all (g : graph) (source : Z) (weight_fn : Z → Z → Z)
    : res (gmap Z Z * gmap Z (option Z)) :=
  st ← search_loop (neighbors_getitem g) (λ _ _, false) (λ _, false) weight_fn
         (search_fuel g) (search_init source);
  Ok (distances st, parents st).

(** [path_cost]. *)
Fixpoint path_cost (path : list Z) (weight_fn : Z → Z → Z) : Z :=
  match path with
  | a :: (b :: _) as rest => weight_fn a b + path_cost rest weight_fn
  | _ => 0
  end.

(** * Paths *)

Section paths.
Variable edge : Z → Z → Prop.

(** Consecutive nodes of a path are joined by an edge. *)
Fixpoint chain (p : list Z) : Prop :=
  match p with
  | a :: (b :: _) as rest => edge a b ∧ chain rest
  | _ => True
  end.

Definition is_path (s t : Z) (p : list Z) : Prop :=
  head p = Some s ∧ last p = Some t ∧ chain p.

Lemma chain_lookup p :
  chain p ↔ ∀ i u v, p !! i = Some u → p !! S i = Some v → edge u v.
Proof.
  induction p as [|a [|b p] IH].
  - split; [by intros _ i|done].
  - split; [by intros _ i u v _ ?|done].
  - change (chain (a :: b :: p)) with (edge a b ∧ chain (b :: p)). rewrite IH. split.
    + intros [Hab Hc] [|i] u v Hu Hv; simplify_eq/=; [done|by eapply Hc].
    + intros Hc. split; [by apply (Hc 0%nat)|]. intros i u v Hu Hv. by apply (Hc (S i)).
Qed.

(** [t] is reachable from [s] by a walk of cost [c]. *)
Inductive walk (w : Z → Z → Z) (s : Z) : Z → Z → Prop :=
  | walk_refl : walk w s s 0
  | walk_step u v c : walk w s u c → edge u v → walk w s v (c + w u v).

Lemma chain_snoc p u v :
  last p = Some u → chain (p ++ [v]) ↔ chain p ∧ edge u v.
Proof.
  induction p as [|a p IH]; [done|]. destruct p as [|b p].
  - intros [= ->]. simpl. tauto.
  - intros Hl. specialize (IH Hl). simpl in *. tauto.
Qed.

Lemma path_cost_snoc w p u v :
  last p = Some u → path_cost (p ++ [v]) w = path_cost p w + w u v.
Proof.
  induction p as [|a p IH]; [done|]. destruct p as [|b p].
  - intros [= ->]. simpl. lia.
  - intros Hl. specialize (IH Hl). simpl in *. lia.
Qed.

Lemma is_path_snoc s u v p :
  is_path s u p → edge u v → is_path s v (p ++ [v]).
Proof.
  intros (Hh & Hl & Hc) He. split_and!.
  - by destruct p.
  - by rewrite last_snoc.
  - by apply (chain_snoc p u v).
Qed.

Lemma path_walk w s p : ∀ t, is_path s t p → walk w s t (path_cost p w).
Proof.
  induction p as [|v p IH] using rev_ind; intros t (Hh & Hl & Hc); [done|].
  rewrite last_snoc in Hl. injection Hl as ->.
  destruct (last p) as [u|] eqn:Hu.
  - destruct (proj1 (chain_snoc p u t Hu) Hc) as [Hc' He].
    rewrite (path_cost_snoc w p u t Hu). apply walk_step; [|done].
    apply IH. split_and!; [by destruct p|done|done].
  - apply last_None in Hu as ->. injection Hh as ->. apply walk_refl.
Qed.

Lemma walk_path w s t c :
  walk w s t c → ∃ p, is_path s t p ∧ path_cost p w = c.
Proof.
  induction 1 as [|u v c Hw (p & Hp & Hc) He].
  - by exists [s].
  - exists (p ++ [v]). split; [by eapply is_path_snoc|].
    rewrite (path_cost_snoc w p u v); [lia|]. apply Hp.
Qed.

(** Cutting a path at a node, which both halves share. *)
Lemma path_cost_split w p i :
  (i < length p)%nat → path_cost p w = path_cost (take (S i) p) w + path_cost (drop i p) w.
Proof.
  revert i. induction p as [|a p IH]; intros [|i] Hi; simpl in Hi; [lia..| |].
  - rewrite drop_0. by destruct p.
  - destruct p as [|b p]; [simpl in Hi; lia|].
    specialize (IH i ltac:(lia)). change (take (S (S i)) (a :: b :: p)) with (a :: b :: take i p).
    change (take (S i) (b :: p)) with (b :: take i p) in IH. simpl drop in *.
    change (path_cost (a :: b :: p) w) with (w a b + path_cost (b :: p) w).
    change (path_cost (a :: b :: take i p) w) with (w a b + path_cost (b :: take i p) w). lia.
Qed.

Lemma is_path_cons_inv s t p :
  is_path s t p → p = [s] ∧ s = t ∨ ∃ v p', p = s :: v :: p' ∧ edge s v ∧ is_path v t (v :: p').
Proof.
  intros (Hh & Hl & Hc). destruct p as [|a [|v p]]; simplify_eq/=; [by left|].
  right. exists v, p. destruct Hc. by split_and!.
Qed.

Lemma walk_nonneg w s t c :
  (∀ u v, edge u v → 0 ≤ w u v) → walk w s t c → 0 ≤ c.
Proof. intros Hw. induction 1 as [|u v c _ IH He]; [lia|]. specialize (Hw u v He). lia. Qed.
End paths.

Lemma walk_mono (E1 E2 : Z → Z → Prop) w s t c :
  (∀ u v, E1 u v → E2 u v) → walk E1 w s t c → walk E2 w s t c.
Proof. intros HE. induction 1; [constructor|]. constructor; auto. Qed.

(** * The heap *)

#[export] Instance entry_le_trans : Transitive entry_le.
Proof. intros x y z. unfold entry_le. lia. Qed.

Lemma elem_of_heappush x y h : y ∈ heappush x h ↔ y = x ∨ y ∈ h.
Proof.
  induction h as [|z h IH]; simpl.
  - by rewrite list_elem_of_singleton, elem_of_nil; naive_solver.
  - case_decide; rewrite !elem_of_cons; [done|]. rewrite IH. naive_solver.
Qed.

Lemma length_heappush x h : length (heappush x h) = S (length h).
Proof. induction h as [|z h IH]; simpl; [done|]. case_decide; simpl; lia. Qed.

Lemma StronglySorted_heappush x h :
  StronglySorted entry_le h → StronglySorted entry_le (heappush x h).
Proof.
  induction 1 as [|z h Hs IH Hz]; simpl; [by repeat constructor|].
  case_decide as Hx.
  - constructor; [by constructor|]. constructor; [done|].
    eapply Forall_impl; [done|]. intros y Hy. by trans z.
  - constructor; [done|]. rewrite Forall_forall in *.
    intros y [->|Hy]%elem_of_heappush; [|by apply Hz].
    unfold entry_le in *. lia.
Qed.

Lemma NoDup_heappush x h : NoDup (heappush x h) ↔ x ∉ h ∧ NoDup h.
Proof.
  induction h as [|z h IH]; simpl.
  - split; [|intros _; apply NoDup_singleton].
    intros _. split; [by apply not_elem_of_nil|constructor].
  - case_decide.
    + by rewrite NoDup_cons.
    + rewrite !NoDup_cons, IH, elem_of_heappush, not_elem_of_cons. naive_solver.
Qed.

Lemma heap_head_min e h y :
  StronglySorted entry_le (e :: h) → y ∈ e :: h → e.1 ≤ y.1.
Proof.
  intros [_ Hf]%StronglySorted_inv [->|Hy]%elem_of_cons; [lia|].
  rewrite Forall_forall in Hf. specialize (Hf y Hy). unfold entry_le in Hf. lia.
Qed.

(** * Degrees *)

Lemma degree_sum_delete g n ns :
  g !! n = Some ns → degree_sum g = (size ns + degree_sum (delete n g))%nat.
Proof.
  intros H. unfold degree_sum.
  rewrite (map_fold_delete_L (λ _ ns acc, size ns + acc)%nat 0%nat n ns g); [done| |done].
  intros. lia.
Qed.

(** The degree still to be spent once the nodes of [F] are expanded. *)
Definition degree_left (g : graph) (F : list Z) : nat := degree_sum (foldr delete g F).

Lemma degree_left_cons g F n ns :
  g !! n = Some ns → n ∉ F → degree_left g F = (size ns + degree_left g (n :: F))%nat.
Proof.
  intros Hn HF. unfold degree_left. simpl. apply degree_sum_delete.
  by rewrite lookup_foldr_delete_not_elem_of.
Qed.

(** * Invariant of the search loop *)

Section correctness.
Context (g : graph) (neighbors : Z → res (list Z)).
Context (skip : Z → Z → bool) (stop : Z → bool) (w : Z → Z → Z) (source : Z).

(** An edge the loop does not skip. *)
Definition live_edge (u v : Z) : Prop :=
  (∃ ns, g !! u = Some ns ∧ v ∈ ns) ∧ skip u v = false.

Hypothesis neighbors_ok :
  ∀ u ns, g !! u = Some ns → neighbors u = Ok (sorted_set ns).
Hypothesis g_closed : ∀ u ns v, g !! u = Some ns → v ∈ ns → is_Some (g !! v).
Hypothesis source_ok : is_Some (g !! source).
Hypothesis w_nonneg : ∀ u v, live_edge u v → 0 ≤ w u v.

(** The invariant: [F] is the list of expanded nodes, last expanded first;
    [C u v] tells that the relaxation of the edge [u -> v] is done. *)
Record inv (F : list Z) (C : Z → Z → Prop) (st : search) : Prop := {
  inv_source : distances st !! source = Some 0;
  inv_sound v d : distances st !! v = Some d → walk live_edge w source v d;
  inv_heap d v : (d, v) ∈ heap st → ∃ d', distances st !! v = Some d' ∧ d' ≤ d;
  inv_sorted : StronglySorted entry_le (heap st);
  inv_open v d : distances st !! v = Some d → v ∉ F → (d, v) ∈ heap st;
  inv_relaxed u v : u ∈ F → live_edge u v → C u v →
    ∃ du dv, distances st !! u = Some du ∧ distances st !! v = Some dv ∧ dv ≤ du + w u v;
  inv_le u du d v : u ∈ F → distances st !! u = Some du → (d, v) ∈ heap st → du ≤ d;
  inv_done u du : u ∈ F → distances st !! u = Some du → (du, u) ∉ heap st;
  inv_NoDup : NoDup (heap st);
  inv_F : NoDup F;
  inv_F_dist u : u ∈ F → is_Some (distances st !! u);
  inv_graph v d : distances st !! v = Some d → is_Some (g !! v);
  inv_par_source : parents st !! source = Some None;
  inv_par v p : v ≠ source → parents st !! v = Some p → ∃ u du,
    p = Some u ∧ u ∈ F ∧ live_edge u v ∧
    distances st !! u = Some du ∧ distances st !! v = Some (du + w u v);
  inv_par_dom v : is_Some (parents st !! v) ↔ is_Some (distances st !! v);
  inv_order v u F1 F2 : parents st !! v = Some (Some u) → F = F1 ++ v :: F2 → u ∈ F2;
}.

Lemma inv_init : inv [] (λ _ _, True) (search_init source).
Proof.
  constructor; simpl.
  - by simplify_map_eq.
  - intros v d [<- <-]%lookup_singleton_Some. constructor.
  - intros d v [= -> ->]%list_elem_of_singleton. exists 0. by simplify_map_eq.
  - repeat constructor.
  - intros v d [<- <-]%lookup_singleton_Some _. by left.
  - by intros u v ?%elem_of_nil.
  - by intros u du d v ?%elem_of_nil.
  - by intros u du ?%elem_of_nil.
  - apply NoDup_singleton.
  - constructor.
  - by intros u ?%elem_of_nil.
  - by intros v d [<- <-]%lookup_singleton_Some.
  - by simplify_map_eq.
  - intros v p ? [? _]%lookup_singleton_Some. congruence.
  - intros v. by rewrite !lookup_singleton_is_Some.
  - intros v u F1 F2 _ H. by destruct F1.
Qed.

Lemma inv_dist_nonneg F C st v d : inv F C st → distances st !! v = Some d → 0 ≤ d.
Proof. intros Hi Hd. eapply walk_nonneg; [apply w_nonneg|by eapply inv_sound]. Qed.

Lemma live_edge_graph u v : live_edge u v → is_Some (g !! v).
Proof. intros [(ns & Hu & Hv) _]. by eapply g_closed. Qed.

(** Relaxing one edge of the node [n] just expanded. *)
Lemma inv_relax F C st n d v :
  inv F C st → n ∈ F → distances st !! n = Some d →
  (∀ u du, u ∈ F → distances st !! u = Some du → du ≤ d) →
  (skip n v = false → live_edge n v) →
  let st' := relax skip w n d st v in
  inv F (λ u x, C u x ∨ (u = n ∧ x = v)) st' ∧
  (∀ u, u ∈ F → distances st' !! u = distances st !! u) ∧
  (length (heap st') ≤ S (length (heap st)))%nat.
Proof.
  intros Hi Hn Hd Hmax He. unfold relax.
  destruct (skip n v) eqn:Hs.
  { split_and!; [|done|lia]. destruct Hi; constructor; eauto.
    intros u x Hu Hux [?|[-> ->]]; [by eauto|]. destruct Hux as [_ ?]. congruence. }
  specialize (He eq_refl).
  pose proof (inv_dist_nonneg F C st n d Hi Hd) as Hd0. pose proof (w_nonneg _ _ He) as Hw.
  destruct (lt_inf _ _) eqn:Hlt; simpl.
  2: { split_and!; [|done|lia]. destruct Hi; constructor; eauto.
    intros u x Hu Hux [?|[-> ->]]; [by eauto|]. unfold lt_inf in Hlt.
    destruct (distances st !! v) as [dv|] eqn:Hv; [|done].
    exists d, dv. split_and!; [done..|]. apply bool_decide_eq_false in Hlt. lia. }
  assert (Hlt' : ∀ dv, distances st !! v = Some dv → d + w n v < dv).
  { intros dv Hv. rewrite Hv in Hlt. by apply bool_decide_eq_true in Hlt. }
  clear Hlt.
  assert (HvF : v ∉ F).
  { intros HvF. destruct (inv_F_dist _ _ _ Hi v HvF) as [dv Hv].
    specialize (Hmax v dv HvF Hv). specialize (Hlt' dv Hv). lia. }
  assert (Hvs : v ≠ source).
  { intros ->. specialize (Hlt' 0 (inv_source _ _ _ Hi)). lia. }
  assert (Hvn : v ≠ n) by congruence.
  assert (HF : ∀ u, u ∈ F → <[v := d + w n v]> (distances st) !! u = distances st !! u).
  { intros u Hu. apply lookup_insert_ne. congruence. }
  split_and!; [|done|by rewrite length_heappush].
  constructor; simpl.
  - rewrite lookup_insert_ne by done. apply Hi.
  - intros x dx. rewrite lookup_insert. case_decide as Hx; [|apply Hi].
    intros [= <-]. subst x. apply walk_step; [by eapply inv_sound|done].
  - intros dx x [[= -> ->]|Hx]%elem_of_heappush.
    + exists (d + w n v). rewrite lookup_insert_eq. split; [done|lia].
    + apply (inv_heap _ _ _ Hi) in Hx as (d' & Hx & ?). rewrite lookup_insert.
      case_decide; [subst; specialize (Hlt' _ Hx)|]; eexists; (split; [done|lia]).
  - apply StronglySorted_heappush, Hi.
  - intros x dx. rewrite lookup_insert, elem_of_heappush.
    case_decide as Hx; [intros [= <-]; subst; by left|]. intros. right. by eapply inv_open.
  - intros u x Hu Hux Hc. rewrite (HF u Hu), lookup_insert.
    case_decide as Hx.
    + subst x. destruct Hc as [Hc|[-> _]].
      * destruct (inv_relaxed _ _ _ Hi u v Hu Hux Hc) as (du & dv & ? & Hv & ?).
        specialize (Hlt' dv Hv). exists du, (d + w n v). split_and!; [done..|lia].
      * exists d, (d + w n v). split_and!; [done..|lia].
    + destruct Hc as [Hc|[-> ->]]; [|done]. by apply (inv_relaxed _ _ _ Hi).
  - intros u du dx x Hu. rewrite (HF u Hu). intros Hdu [[= -> ->]|Hx]%elem_of_heappush.
    + specialize (Hmax u du Hu Hdu). lia.
    + by eapply (inv_le _ _ _ Hi).
  - intros u du Hu. rewrite (HF u Hu). intros Hdu [[= -> ->]|Hx]%elem_of_heappush; [done|].
    by eapply (inv_done _ _ _ Hi).
  - apply NoDup_heappush. split; [|apply Hi]. intros Hx.
    apply (inv_heap _ _ _ Hi) in Hx as (d' & Hx & ?). specialize (Hlt' _ Hx). lia.
  - apply Hi.
  - intros u Hu. rewrite (HF u Hu). by apply (inv_F_dist _ _ _ Hi).
  - intros x dx. rewrite lookup_insert. case_decide as Hx; [|apply Hi].
    intros _. subst x. by eapply live_edge_graph.
  - rewrite lookup_insert_ne by done. apply Hi.
  - intros x p Hxs. rewrite lookup_insert. case_decide as Hx.
    + intros [= <-]. subst x. exists n, d. rewrite (HF n Hn), lookup_insert_eq.
      by split_and!.
    + intros Hp. destruct (inv_par _ _ _ Hi x p Hxs Hp) as (u & du & -> & Hu & ? & ? & ?).
      exists u, du. rewrite (HF u Hu), lookup_insert_ne by done. by split_and!.
  - intros x. rewrite !lookup_insert. case_decide; [|apply Hi].
    split; intros _; by eexists.
  - intros x u F1 F2. rewrite lookup_insert. case_decide as Hx; [|apply Hi].
    intros [= <-] ->. subst x. exfalso. apply HvF. rewrite elem_of_app. right. by left.
Qed.
(** Relaxing the whole neighbour list. *)
Lemma inv_relax_all F ns C st n d :
  inv F C st → n ∈ F → distances st !! n = Some d →
  (∀ u du, u ∈ F → distances st !! u = Some du → du ≤ d) →
  (∀ v, v ∈ ns → skip n v = false → live_edge n v) →
  let st' := foldl (relax skip w n d) st ns in
  inv F (λ u x, C u x ∨ (u = n ∧ x ∈ ns)) st' ∧
  (length (heap st') ≤ length ns + length (heap st))%nat.
Proof.
  revert C st. induction ns as [|v ns IH]; intros C st Hi Hn Hd Hmax He; simpl.
  - split; [|lia]. destruct Hi; constructor; eauto.
    intros u x ?? [?|[_ ?%elem_of_nil]]; [by eauto|done].
  - destruct (inv_relax F C st n d v Hi Hn Hd Hmax) as (Hi' & Hsame & Hlen).
    { intros. apply He; [by left|done]. }
    destruct (IH _ _ Hi' Hn) as [Hi'' Hlen'].
    + by rewrite Hsame.
    + intros u du Hu. rewrite Hsame by done. by apply Hmax.
    + intros v' ??. apply He; [by right|done].
    + split; [|simpl in *; lia]. clear Hsame. destruct Hi''; constructor; eauto.
      intros u x Hu Hux [Hc|[-> [->|Hx]%elem_of_cons]]; eauto 6.
Qed.

(** Popping a live entry [(d, n)]: [n] joins the expanded nodes. *)
Lemma inv_pop F st d n h :
  inv F (λ _ _, True) st → heap st = (d, n) :: h → distances st !! n = Some d →
  inv (n :: F) (λ u _, u ≠ n) (mkSearch (distances st) (parents st) h) ∧ n ∉ F.
Proof.
  intros Hi Hh Hd.
  assert (Hin : (d, n) ∈ heap st) by (rewrite Hh; by left).
  assert (HnF : n ∉ F). { intros HnF. by apply (inv_done _ _ _ Hi n d HnF Hd). }
  assert (Hsub : ∀ e, e ∈ h → e ∈ heap st) by (intros; rewrite Hh; by right).
  split; [|done]. constructor; simpl.
  - apply Hi.
  - apply Hi.
  - intros d' v Hv. apply (inv_heap _ _ _ Hi). by apply Hsub.
  - pose proof (inv_sorted _ _ _ Hi) as Hs. rewrite Hh in Hs.
    by apply StronglySorted_inv in Hs as [? _].
  - intros v dv Hv [Hne HvF]%not_elem_of_cons.
    pose proof (inv_open _ _ _ Hi v dv Hv HvF) as Ho. rewrite Hh in Ho.
    apply elem_of_cons in Ho as [[= _ ->]|?]; done.
  - intros u v [->|Hu]%elem_of_cons Huv Hc; [done|]. by apply (inv_relaxed _ _ _ Hi).
  - intros u du dx x [->|Hu]%elem_of_cons Hdu Hx.
    + simplify_eq. pose proof (inv_sorted _ _ _ Hi) as Hs. rewrite Hh in Hs.
      apply (heap_head_min _ _ (dx, x)) in Hs; [done|by right].
    + eapply (inv_le _ _ _ Hi); eauto.
  - intros u du [->|Hu]%elem_of_cons Hdu Hx.
    + simplify_eq. pose proof (inv_NoDup _ _ _ Hi) as Hnd. rewrite Hh in Hnd.
      by apply NoDup_cons in Hnd as [? _].
    + eapply (inv_done _ _ _ Hi); eauto.
  - pose proof (inv_NoDup _ _ _ Hi) as Hnd. rewrite Hh in Hnd.
    by apply NoDup_cons in Hnd as [_ ?].
  - apply NoDup_cons. split; [done|apply Hi].
  - intros u [->|Hu]%elem_of_cons; [by eexists|by apply (inv_F_dist _ _ _ Hi)].
  - apply Hi.
  - apply Hi.
  - intros v p Hv Hp. destruct (inv_par _ _ _ Hi v p Hv Hp) as (u & du & -> & ? & ?).
    exists u, du. rewrite elem_of_cons. naive_solver.
  - apply Hi.
  - intros v u F1 F2 Hp HF. destruct F1 as [|x F1]; simplify_eq/=.
    + destruct (decide (v = source)) as [->|Hv].
      { pose proof (inv_par_source _ _ _ Hi). congruence. }
      destruct (inv_par _ _ _ Hi v _ Hv Hp) as (u' & du & [= <-] & ? & _). done.
    + by eapply (inv_order _ _ _ Hi).
Qed.

Lemma inv_drop_stale F st d n h :
  inv F (λ _ _, True) st → heap st = (d, n) :: h → distances st !! n ≠ Some d →
  inv F (λ _ _, True) (mkSearch (distances st) (parents st) h).
Proof.
  intros Hi Hh Hd.
  assert (Hsub : ∀ e, e ∈ h → e ∈ heap st) by (intros; rewrite Hh; by right).
  pose proof (inv_sorted _ _ _ Hi) as Hs. pose proof (inv_NoDup _ _ _ Hi) as Hnd.
  rewrite Hh in Hs, Hnd.
  destruct Hi; constructor; simpl; eauto.
  - by apply StronglySorted_inv in Hs as [? _].
  - intros v dv Hv HvF. specialize (inv_open0 v dv Hv HvF). rewrite Hh in inv_open0.
    apply elem_of_cons in inv_open0 as [[= -> ->]|?]; done.
  - intros u du Hu Hdu Hx. by apply (inv_done0 u du Hu Hdu), Hsub.
  - by apply NoDup_cons in Hnd as [_ ?].
Qed.

(** How the loop ends: the heap is empty, or a popped node passed [stop]. *)
Definition finished (F : list Z) (st : search) : Prop :=
  (heap st = [] ∧ inv F (λ _ _, True) st) ∨
  (∃ t d, stop t = true ∧
     inv F (λ _ _, True) (mkSearch (distances st) (parents st) ((d, t) :: heap st))).

(** The loop terminates within its fuel, keeping the invariant. *)
Lemma search_loop_spec fuel F st :
  inv F (λ _ _, True) st →
  (length (heap st) + degree_left g F < fuel)%nat →
  ∃ F' st', search_loop neighbors skip stop w fuel st = Ok st' ∧ finished F' st'.
Proof.
  revert F st. induction fuel as [|fuel IH]; intros F st Hi Hfuel; [lia|]. simpl.
  destruct (heap st) as [|[d n] h] eqn:Hh.
  { exists F, st. split; [done|]. by left. }
  destruct (stop n) eqn:Hstop.
  { exists F, (mkSearch (distances st) (parents st) h). split; [done|].
    right. exists n, d. split; [done|]. simpl. rewrite <- Hh. by destruct st. }
  case_decide as Hd.
  - destruct (inv_pop F st d n h Hi Hh Hd) as [Hi' HnF].
    destruct (inv_graph _ _ _ Hi n d Hd) as [ns Hns].
    rewrite (neighbors_ok n ns Hns). simpl.
    destruct (inv_relax_all (n :: F) (sorted_set ns) _ _ n d Hi') as [Hi'' Hlen].
    + by left.
    + done.
    + intros u du [->|Hu]%elem_of_cons; simpl; intros Hdu; simplify_eq; [lia|].
      eapply (inv_le _ _ _ Hi); [done..|]. rewrite Hh. by left.
    + intros v Hv%elem_of_sorted_set ?. split; [by eexists|done].
    + apply (IH (n :: F)).
      * clear Hlen. destruct Hi''; constructor; eauto.
        intros u v Hu Huv _. apply inv_relaxed0; [done..|].
        destruct (decide (u = n)) as [->|]; [right|by left]. split; [done|].
        destruct Huv as [(ns' & ? & ?) _]. simplify_eq. by apply elem_of_sorted_set.
      * rewrite length_sorted_set in Hlen.
        pose proof (degree_left_cons g F n ns Hns HnF). simpl in *. lia.
  - apply (IH F); [by eapply inv_drop_stale|]. simpl in *. lia.
Qed.

(** A walk is either no shorter than the recorded distance of its end, or no
    shorter than some entry still in the heap. *)
Lemma inv_lower F st v c :
  inv F (λ _ _, True) st → walk live_edge w source v c →
  (∃ d, distances st !! v = Some d ∧ d ≤ c) ∨ (∃ e, e ∈ heap st ∧ e.1 ≤ c).
Proof.
  intros Hi. induction 1 as [|u v c Hw IH He].
  - left. exists 0. split; [apply Hi|lia].
  - pose proof (w_nonneg _ _ He).
    destruct IH as [(du & Hu & ?)|(e & ? & ?)]; [|right; exists e; split; [done|lia]].
    destruct (decide (u ∈ F)) as [HuF|HuF].
    + destruct (inv_relaxed _ _ _ Hi u v HuF He I) as (du' & dv & ? & ? & ?).
      simplify_eq. left. exists dv. split; [done|lia].
    + right. exists (du, u). split; [by eapply inv_open|]. simpl. lia.
Qed.

(** [d] is the cost of a cheapest walk from the source to [v]. *)
Definition is_distance (v d : Z) : Prop :=
  walk live_edge w source v d ∧ ∀ c, walk live_edge w source v c → d ≤ c.

Lemma finished_empty F st :
  inv F (λ _ _, True) st → heap st = [] →
  ∀ v d, distances st !! v = Some d ↔ is_distance v d.
Proof.
  intros Hi Hh v d.
  assert (Hle : ∀ c, walk live_edge w source v c →
                ∃ d, distances st !! v = Some d ∧ d ≤ c).
  { intros c Hc. destruct (inv_lower F st v c Hi Hc) as [?|(e & He & _)]; [done|].
    rewrite Hh in He. by apply elem_of_nil in He. }
  split.
  - intros Hd. split; [by eapply inv_sound|]. intros c Hc.
    destruct (Hle c Hc) as (d' & ? & ?). by simplify_eq.
  - intros [Hw Hmin]. destruct (Hle d Hw) as (d' & Hd' & ?).
    specialize (Hmin d' (inv_sound _ _ _ Hi v d' Hd')). rewrite Hd'. f_equal. lia.
Qed.

Lemma finished_stop F st t d h :
  inv F (λ _ _, True) st → heap st = (d, t) :: h →
  ∃ dt, distances st !! t = Some dt ∧ is_distance t dt.
Proof.
  intros Hi Hh. assert (Hin : (d, t) ∈ heap st) by (rewrite Hh; by left).
  destruct (inv_heap _ _ _ Hi d t Hin) as (dt & Ht & ?). exists dt. split; [done|].
  split; [by eapply inv_sound|]. intros c Hc.
  destruct (inv_lower F st t c Hi Hc) as [(? & ? & ?)|(e & He & ?)]; [by simplify_eq|].
  pose proof (inv_sorted _ _ _ Hi) as Hs. rewrite Hh in Hs, He.
  apply (heap_head_min _ _ e) in Hs; [|done]. simpl in Hs. lia.
Qed.
(** What following [parents] back from [v] yields. *)
Definition traced (st : search) (F : list Z) (v : Z) (p : list Z) : Prop :=
  is_path live_edge source v p ∧ NoDup p ∧ p ⊆ F ∧
  distances st !! v = Some (path_cost p w).

Lemma trace_expanded F C st F2 :
  inv F C st → ∀ F1 v acc fuel, F = F1 ++ F2 → v ∈ F2 → (length F2 ≤ fuel)%nat →
  ∃ p, trace_parents fuel (parents st) (Some v) acc = Ok (p ++ acc) ∧ traced st F2 v p.
Proof.
  intros Hi. induction F2 as [F2 IH] using (induction_ltof1 _ length).
  intros F1 v acc fuel HF Hv Hfuel.
  destruct (list_elem_of_split _ _ Hv) as (A & B & HAB).
  destruct fuel as [|fuel]; [subst F2; rewrite length_app in Hfuel; simpl in Hfuel; lia|].
  pose proof (inv_F _ _ _ Hi) as HndF. rewrite HF, HAB in HndF.
  apply NoDup_app in HndF as (_ & _ & HndF). apply NoDup_app in HndF as (_ & _ & HndF).
  apply NoDup_cons in HndF as [HvB _].
  simpl. destruct (decide (v = source)) as [->|Hvs].
  - rewrite (inv_par_source _ _ _ Hi). exists [source].
    split; [by destruct fuel|]. split_and!; [done|apply NoDup_singleton| |].
    + intros x ->%list_elem_of_singleton. done.
    + apply Hi.
  - assert (is_Some (parents st !! v)) as [q Hq].
    { apply (inv_par_dom _ _ _ Hi), (inv_F_dist _ _ _ Hi). rewrite HF.
      apply elem_of_app. by right. }
    rewrite Hq. destruct (inv_par _ _ _ Hi v q Hvs Hq) as (u & du & -> & Hu & He & Hdu & Hdv).
    assert (HuB : u ∈ B).
    { apply (inv_order _ _ _ Hi v u (F1 ++ A) B Hq). by rewrite HF, HAB, app_assoc. }
    assert (HFB : F = (F1 ++ A ++ [v]) ++ B) by by rewrite HF, HAB, <- !app_assoc.
    assert (HlB : (length B < length F2)%nat) by (rewrite HAB, length_app; simpl; lia).
    destruct (IH B HlB _ u (v :: acc) fuel HFB HuB ltac:(lia)) as (p & Hp & Hpath & Hnd & Hsub & Hc).
    exists (p ++ [v]). rewrite <- app_assoc. split; [done|]. split_and!.
    + by eapply is_path_snoc.
    + apply NoDup_app. split_and!; [done| |apply NoDup_singleton].
      intros x Hx ->%list_elem_of_singleton. by apply HvB, Hsub.
    + intros x [Hx| ->%list_elem_of_singleton]%elem_of_app; [|done].
      rewrite HAB, elem_of_app, elem_of_cons. right. right. by apply Hsub.
    + rewrite (path_cost_snoc w p u v); [|apply Hpath]. simplify_eq. by rewrite Hdv.
Qed.

Lemma trace_spec F C st v :
  inv F C st → is_Some (parents st !! v) →
  ∃ p, trace_parents (S (size (parents st))) (parents st) (Some v) [] = Ok p ∧
       is_path live_edge source v p ∧ NoDup p ∧ distances st !! v = Some (path_cost p w).
Proof.
  intros Hi Hv.
  assert (HF : (length F ≤ size (parents st))%nat).
  { rewrite <- (size_dom (parents st)), <- (size_list_to_set (C:=gset Z) F) by apply Hi.
    apply subseteq_size. intros u Hu%elem_of_list_to_set.
    apply elem_of_dom, (inv_par_dom _ _ _ Hi). by apply (inv_F_dist _ _ _ Hi). }
  destruct (decide (v = source)) as [->|Hvs].
  { exists [source]. simpl. rewrite (inv_par_source _ _ _ Hi).
    split; [by destruct (size _)|]. split_and!; [done|apply NoDup_singleton|apply Hi]. }
  destruct (decide (v ∈ F)) as [HvF|HvF].
  - destruct (trace_expanded F C st F Hi [] v [] (S (size (parents st))) eq_refl HvF ltac:(lia))
      as (p & Hp & ? & ? & _ & ?).
    exists p. by rewrite app_nil_r in Hp.
  - destruct Hv as [q Hq]. destruct (inv_par _ _ _ Hi v q Hvs Hq) as (u & du & -> & Hu & He & Hdu & Hdv).
    destruct (trace_expanded F C st F Hi [] u [v] (size (parents st)) eq_refl Hu HF)
      as (p & Hp & Hpath & Hnd & Hsub & Hc).
    exists (p ++ [v]). split; [|split_and!].
    + cbn [trace_parents]. by rewrite Hq.
    + by eapply is_path_snoc.
    + apply NoDup_app. split_and!; [done| |apply NoDup_singleton].
      intros x Hx ->%list_elem_of_singleton. by apply HvF, Hsub.
    + rewrite (path_cost_snoc w p u v); [|apply Hpath]. simplify_eq. by rewrite Hdv.
Qed.
End correctness.

(** * Properties *)

(** A graph whose neighbour sets only name nodes of the graph. *)
Definition graph_closed (g : graph) : Prop :=
  ∀ u ns v, g !! u = Some ns → v ∈ ns → is_Some (g !! v).

Definition nonneg_weight (w : Z → Z → Z) : Prop := ∀ u v, 0 ≤ w u v.

(** [v] is a neighbour of [u]. *)
Definition adjacent (g : graph) (u v : Z) : Prop := ∃ ns, g !! u = Some ns ∧ v ∈ ns.

Lemma adjacent_alt g u v : adjacent g u v ↔ v ∈ default ∅ (g !! u).
Proof. unfold adjacent. destruct (g !! u); set_solver. Qed.

(** [d] is the cost of a cheapest path from [s] to [t]. *)
Definition shortest_cost (edge : Z → Z → Prop) (w : Z → Z → Z) (s t d : Z) : Prop :=
  (∃ p, is_path edge s t p ∧ path_cost p w = d) ∧
  (∀ p, is_path edge s t p → d ≤ path_cost p w).

Lemma chain_impl (E1 E2 : Z → Z → Prop) p :
  (∀ u v, E1 u v → E2 u v) → chain E1 p → chain E2 p.
Proof.
  intros HE. induction p as [|a [|b p] IH]; simpl; [done..|].
  intros [??]. split; [by apply HE|by apply IH].
Qed.

Lemma is_distance_shortest g skip w s v d :
  is_distance g skip w s v d ↔ shortest_cost (live_edge g skip) w s v d.
Proof.
  unfold is_distance, shortest_cost. split.
  - intros [Hw Hmin]. split; [by apply walk_path|]. intros p Hp. by apply Hmin, path_walk.
  - intros [(p & Hp & <-) Hmin]. split; [by apply path_walk|].
    intros c (q & Hq & <-)%walk_path. by apply Hmin.
Qed.

Lemma search_loop_done g skip stop w source :
  graph_closed g → is_Some (g !! source) → (∀ u v, live_edge g skip u v → 0 ≤ w u v) →
  ∃ F st, search_loop (neighbors_getitem g) skip stop w (search_fuel g) (search_init source) = Ok st ∧
    finished g skip stop w source F st.
Proof.
  intros Hg Hs Hw. eapply (search_loop_spec g _ skip stop w source) with (F := []); [|done..| |].
  - intros u ns Hu. unfold neighbors_getitem. by rewrite Hu.
  - by apply inv_init.
  - unfold search_fuel, degree_left. simpl. lia.
Qed.

(** [dijkstra_all] terminates and computes, for every node, the cost of a
    cheapest path from the source, and nothing for unreachable nodes. *)
Lemma dijkstra_all_spec g source w :
  graph_closed g → is_Some (g !! source) → nonneg_weight w →
  ∃ dist par, dijkstra_all g source w = Ok (dist, par) ∧
    ∀ v d, dist !! v = Some d ↔ shortest_cost (adjacent g) w source v d.
Proof.
  intros Hg Hs Hw.
  destruct (search_loop_done g (λ _ _, false) (λ _, false) w source Hg Hs) as (F & st & Hst & Hf).
  { intros. apply Hw. }
  exists (distances st), (parents st). unfold dijkstra_all. rewrite Hst. split; [done|].
  destruct Hf as [[Hh Hi]|(t & d & [=] & _)]. intros v d.
  rewrite (finished_empty g (λ _ _, false) w source (λ u v _, Hw u v) F st Hi Hh).
  rewrite is_distance_shortest. unfold shortest_cost, is_path.
  assert (HE : ∀ p, chain (live_edge g (λ _ _, false)) p ↔ chain (adjacent g) p).
  { intros p. split; apply chain_impl; unfold live_edge, adjacent; naive_solver. }
  by setoid_rewrite HE.
Qed.

(** A node without a reported distance is unreachable. *)
Lemma dijkstra_all_complete g source w dist par :
  graph_closed g → is_Some (g !! source) → nonneg_weight w →
  dijkstra_all g source w = Ok (dist, par) →
  ∀ v, dist !! v = None → ∀ p, ¬ is_path (adjacent g) source v p.
Proof.
  intros Hg Hs Hw Hd v Hno p Hp%(path_walk _ w).
  destruct (search_loop_done g (λ _ _, false) (λ _, false) w source Hg Hs) as (F & st & Hst & Hf).
  { intros. apply Hw. }
  destruct Hf as [[Hh Hi]|(? & ? & [=] & _)].
  unfold dijkstra_all in Hd. rewrite Hst in Hd. injection Hd as <- <-.
  destruct (inv_lower g (λ _ _, false) w source (λ u v _, Hw u v) F st v (path_cost p w) Hi)
    as [(d & Hd & _)|(e & He & _)].
  - eapply walk_mono; [|exact Hp]. intros. by split.
  - by rewrite Hno in Hd.
  - rewrite Hh in He. by apply elem_of_nil in He.
Qed.

(** The edges [shortest_path] may use: not banned, and not into a banned node
    other than the target. *)
Definition usable (g : graph) (target : Z) (banned_edges : gset (Z * Z))
    (banned_nodes : gset Z) (u v : Z) : Prop :=
  adjacent g u v ∧ frozen u v ∉ banned_edges ∧ (v ∈ banned_nodes → v = target).

Lemma live_edge_usable g target be bn u v :
  live_edge g (banned target be bn) u v ↔ usable g target be bn u v.
Proof.
  unfold live_edge, usable, banned, adjacent.
  rewrite orb_false_iff, andb_false_iff, !bool_decide_eq_false.
  destruct (decide (v = target)); naive_solver.
Qed.

Lemma is_path_usable g target be bn s t p :
  is_path (live_edge g (banned target be bn)) s t p ↔ is_path (usable g target be bn) s t p.
Proof.
  unfold is_path. split; intros (? & ? & Hc); split_and!; try done;
    eapply chain_impl; try exact Hc; intros ??; apply live_edge_usable.
Qed.

Lemma shortest_cost_usable g target be bn w s t d :
  is_distance g (banned target be bn) w s t d ↔ shortest_cost (usable g target be bn) w s t d.
Proof.
  rewrite is_distance_shortest. unfold shortest_cost. by setoid_rewrite is_path_usable.
Qed.

(** What [shortest_path] returns: a cheapest usable path, which is simple, or
    [None] exactly when there is no usable path. *)
Definition shortest_path_result (g : graph) (source target : Z) be bn w
    (r : option (list Z)) : Prop :=
  match r with
  | Some p => is_path (usable g target be bn) source target p ∧ NoDup p ∧
      ∀ q, is_path (usable g target be bn) source target q → path_cost p w ≤ path_cost q w
  | None => ∀ q, ¬ is_path (usable g target be bn) source target q
  end.

Lemma traced_result g source target be bn w F st :
  inv g (banned target be bn) w source F (λ _ _, True) st →
  (∀ c, walk (live_edge g (banned target be bn)) w source target c →
     ∃ d, distances st !! target = Some d ∧ d ≤ c) →
  ∃ r, (match parents st !! target with
        | None => Ok None
        | Some _ => path ← trace_parents (S (size (parents st))) (parents st) (Some target) [];
                    Ok (Some path)
        end) = Ok r ∧ shortest_path_result g source target be bn w r.
Proof.
  intros Hi Hle. destruct (parents st !! target) as [q|] eqn:Hq.
  - destruct (trace_spec g _ w source F _ st target Hi ltac:(by eexists))
      as (p & Hp & Hpath & Hnodup & Hc).
    rewrite Hp. exists (Some p). split; [done|]. split_and!; [by apply is_path_usable|done|].
    intros q' Hq'%is_path_usable%(path_walk _ w). destruct (Hle _ Hq') as (d & ? & ?).
    by simplify_eq.
  - exists None. split; [done|]. intros p Hp%is_path_usable%(path_walk _ w).
    destruct (Hle _ Hp) as (d & Hd & _).
    assert (is_Some (parents st !! target)) as [? ?]; [|congruence].
    apply (inv_par_dom _ _ _ _ _ _ _ Hi). by eexists.
Qed.

(** [shortest_path] terminates without error and returns a cheapest path that
    avoids the banned edges and nodes, or [None] when there is none. *)
Lemma shortest_path_spec g source target be bn w :
  graph_closed g → is_Some (g !! source) → nonneg_weight w →
  ∃ r, shortest_path g source target be bn w = Ok r ∧
    shortest_path_result g source target be bn w r.
Proof.
  intros Hg Hs Hw. unfold shortest_path. case_decide as Hst.
  { subst target. exists (Some [source]). split; [done|]. split_and!; [done|apply NoDup_singleton|].
    intros q Hq%(path_walk _ w). eapply walk_nonneg in Hq; [done|]. intros. apply Hw. }
  destruct (search_loop_done g (banned target be bn) (λ node, bool_decide (node = target)) w source Hg Hs)
    as (F & st & Hst' & Hf); [intros; apply Hw|].
  rewrite Hst'. simpl. destruct Hf as [[Hh Hi]|(t & d & Ht & Hi)].
  - apply (traced_result _ _ _ _ _ _ F); [done|]. intros c Hc.
    destruct (inv_lower g _ w source (λ u v _, Hw u v) F st target c Hi Hc) as [?|(e & He & _)]; [done|].
    rewrite Hh in He. by apply elem_of_nil in He.
  - apply bool_decide_eq_true in Ht as ->.
    destruct (finished_stop g _ w source (λ u v _, Hw u v) F _ target d (heap st) Hi eq_refl)
      as (dt & Hdt & _ & Hmin).
    apply (traced_result _ _ _ _ _ _ F _ Hi). simpl in *. eauto.
Qed.

(** A decision procedure for [graph_closed]. *)
Definition graph_closedb (g : graph) : bool :=
  bool_decide (map_Forall (λ _ ns, set_Forall (λ v, is_Some (g !! v)) ns) g).

Lemma graph_closedb_sound g : graph_closedb g = true → graph_closed g.
Proof.
  unfold graph_closedb. intros H%bool_decide_eq_true u ns v Hu Hv. by apply (H u ns Hu).
Qed.

Lemma unit_weight_nonneg : nonneg_weight unit_weight.
Proof. intros u v. unfold unit_weight. lia. Qed.
#[export] Hint Resolve unit_weight_nonneg : pydb.

(** [dijkstra_all] terminates without error on a closed graph; the distance
    it reports for a node is the cost of a cheapest path from the source, a node
    is left out exactly when no path reaches it, and following [parents] back
    from a reported node spells a loop-free path of that cost. *)
Lemma dijkstra_all_correct g source w :
  graph_closed g → is_Some (g !! source) → nonneg_weight w →
  ∃ dist par, dijkstra_all g source w = Ok (dist, par) ∧
    (∀ v d, dist !! v = Some d ↔ shortest_cost (adjacent g) w source v d) ∧
    (∀ v, dist !! v = None ↔ ∀ p, ¬ is_path (adjacent g) source v p) ∧
    (∀ v d, dist !! v = Some d →
       ∃ p, trace_parents (S (size par)) par (Some v) [] = Ok p ∧
            is_path (adjacent g) source v p ∧ NoDup p ∧ path_cost p w = d).
Proof.
  intros Hg Hs Hw.
  destruct (search_loop_done g (λ _ _, false) (λ _, false) w source Hg Hs) as (F & st & Hst & Hf).
  { intros. apply Hw. }
  destruct (dijkstra_all_spec g source w Hg Hs Hw) as (dist & par & Hd & Hdist).
  exists dist, par. split_and!; [done|done| |].
  - intros v. split.
    + intros Hno. by apply (dijkstra_all_complete g source w dist par Hg Hs Hw Hd).
    + intros Hno. apply eq_None_not_Some. intros [d [(p & Hp & _) _]%Hdist]. by apply (Hno p).
  - intros v d Hv. destruct Hf as [[Hh Hi]|(? & ? & [=] & _)].
    unfold dijkstra_all in Hd. rewrite Hst in Hd. injection Hd as <- <-.
    destruct (trace_spec g (λ _ _, false) w source F _ st v Hi) as (p & Hp & (Hh1 & Hl & Hc) & Hnd & Hcost).
    { apply (inv_par_dom _ _ _ _ _ _ _ Hi). by eexists. }
    exists p. split_and!; [done| |done|by simplify_eq].
    split_and!; [done..|]. eapply chain_impl; [|exact Hc]. by intros ? ? [? _].
Qed.

(** C1: [shortest_path] terminates without error and returns a loop-free path
    that avoids the banned edges and nodes and costs no more than any other such
    path, or [None] exactly when there is none. *)
Theorem shortest_path_correct g source target be bn w :
  graph_closed g → is_Some (g !! source) → nonneg_weight w →
  (∃ p, shortest_path g source target be bn w = Ok (Some p) ∧ NoDup p ∧
     is_path (usable g target be bn) source target p ∧
     shortest_cost (usable g target be bn) w source target (path_cost p w)) ∨
  (shortest_path g source target be bn w = Ok None ∧
     ∀ q, ¬ is_path (usable g target be bn) source target q).
Proof.
  intros Hg Hs Hw. destruct (shortest_path_spec g source target be bn w Hg Hs Hw) as ([p|] & -> & H).
  - left. exists p. destruct H as (? & ? & ?). split_and!; [done..|]. split; eauto.
  - by right.
Qed.

(** A triangle 0-1-2 with the pendant node 3, and an isolated node 4. *)
Definition example_graph : graph :=
  {[0 := {[1; 2]}; 1 := {[0; 2]}; 2 := {[0; 1; 3]}; 3 := {[2]}; 4 := ∅]}.

Example dijkstra_all_correct_ex :
  ∃ dist par, dijkstra_all example_graph 0 unit_weight = Ok (dist, par) ∧
    (∀ v d, dist !! v = Some d ↔ shortest_cost (adjacent example_graph) unit_weight 0 v d) ∧
    (∀ v, dist !! v = None ↔ ∀ p, ¬ is_path (adjacent example_graph) 0 v p) ∧
    (∀ v d, dist !! v = Some d →
       ∃ p, trace_parents (S (size par)) par (Some v) [] = Ok p ∧
            is_path (adjacent example_graph) 0 v p ∧ NoDup p ∧ path_cost p unit_weight = d).
Proof.
  apply (dijkstra_all_correct example_graph 0 unit_weight).
  - apply graph_closedb_sound. vm_compute. reflexivity.
  - by eexists.
  - exact unit_weight_nonneg.
Defined.

Lemma shortest_path_correct_witness :
  (∃ p, shortest_path example_graph 0 3 {[(0, 2)]} ∅ unit_weight = Ok (Some p) ∧ NoDup p ∧
     is_path (usable example_graph 3 {[(0, 2)]} ∅) 0 3 p ∧
     shortest_cost (usable example_graph 3 {[(0, 2)]} ∅) unit_weight 0 3 (path_cost p unit_weight)) ∨
  (shortest_path example_graph 0 3 {[(0, 2)]} ∅ unit_weight = Ok None ∧
     ∀ q, ¬ is_path (usable example_graph 3 {[(0, 2)]} ∅) 0 3 q).
Proof.
  apply (shortest_path_correct example_graph 0 3 {[(0, 2)]} ∅ unit_weight).
  - apply graph_closedb_sound. vm_compute. reflexivity.
  - by eexists.
  - exact unit_weight_nonneg.
Defined.
