(* ===== verification/UnionFind.v ===== *)
(** Component: the union-find structure of src/core/graph.py ([UnionFind]):
    path halving in [find], union by size.  The abstract specification is a
    representative function on [0 .. n-1]; the refinement theorem says that a
    sequence of [union] calls computes the equivalence closure of its pairs. *)
From S2P Require Import Prelude.
Local Open Scope Z_scope.

(** The two attributes of the object. *)
Record UnionFind := mkUF { parent : list Z; size_ : list Z }.

(** [UnionFind(n)]: [list(range(n))] and [[1] * n]. *)
Definition UnionFind_init (n : Z) : UnionFind :=
  mkUF (range n) (replicate (Z.to_nat n) 1).

(** [find]: [while x != parent[x]: parent[x] = parent[parent[x]]; x = parent[x]]. *)
Fixpoint find_loop (fuel : nat) (uf : UnionFind) (x : Z) : res (Z * UnionFind) :=
  match fuel with
  | O => NoFuel
  | S fuel =>
      px ← py_getitem (parent uf) x;
      if decide (x = px) then Ok (x, uf) else
      gp ← py_getitem (parent uf) px;
      parent' ← py_setitem (parent uf) x gp;
      x' ← py_getitem parent' x;
      find_loop fuel (mkUF parent' (size_ uf)) x'
  end.

Definition find (uf : UnionFind) (x : Z) : res (Z * UnionFind) :=
  find_loop (S (length (parent uf))) uf x.

(** [connected]: two finds, the second on the halved structure. *)
Definition connected (uf : UnionFind) (a b : Z) : res (bool * UnionFind) :=
  '(ra, uf) ← find uf a;
  '(rb, uf) ← find uf b;
  Ok (bool_decide (ra = rb), uf).

(** [union]: attach the smaller root under the larger one. *)
Definition union (uf : UnionFind) (a b : Z) : res (bool * UnionFind) :=
  '(ra, uf) ← find uf a;
  '(rb, uf) ← find uf b;
  if decide (ra = rb) then Ok (false, uf) else
  sa ← py_getitem (size_ uf) ra;
  sb ← py_getitem (size_ uf) rb;
  let '(ra, rb) := if decide (sa < sb) then (rb, ra) else (ra, rb) in
  parent' ← py_setitem (parent uf) rb ra;
  sra ← py_getitem (size_ uf) ra;
  srb ← py_getitem (size_ uf) rb;
  size' ← py_setitem (size_ uf) ra (sra + srb);
  Ok (true, mkUF parent' size').

(** A sequence of unions. *)
Definition unions (uf : UnionFind) (pairs : list (Z * Z)) : res UnionFind :=
  foldM (λ uf p, snd <$> union uf p.1 p.2) uf pairs.

(** * The representation invariant *)

Section wf.
Context (n : nat).
Implicit Types (uf : UnionFind) (root : Z → Z).

Definition in_range (x : Z) : Prop := 0 ≤ x < Z.of_nat n.

(** The members of the class represented by [r]. *)
Definition class root (r : Z) : list Z := filter (λ x, root x = r) (range (Z.of_nat n)).

(** [root] is the representative function the forest stands for. *)
Record wf uf root : Prop := {
  wf_parent : length (parent uf) = n;
  wf_size : length (size_ uf) = n;
  wf_root x : in_range x → in_range (root x) ∧ root (root x) = root x;
  wf_step x p : in_range x → parent uf !! Z.to_nat x = Some p →
    in_range p ∧ root p = root x ∧ (p = x → root x = x) ∧
    (p ≠ x → root x ≠ x ∧ ∃ sx sp, size_ uf !! Z.to_nat x = Some sx ∧
                  size_ uf !! Z.to_nat p = Some sp ∧ sx < sp);
  wf_sizes x s : in_range x → size_ uf !! Z.to_nat x = Some s →
    1 ≤ s ≤ Z.of_nat n ∧ (root x = x → s = Z.of_nat (length (class root x)));
}.

Lemma wf_lookup uf root x :
  wf uf root → in_range x →
  ∃ p s, parent uf !! Z.to_nat x = Some p ∧ size_ uf !! Z.to_nat x = Some s.
Proof.
  intros Hwf Hx.
  destruct (lookup_lt_is_Some_2 (parent uf) (Z.to_nat x)) as [p Hp].
  { rewrite (wf_parent _ _ Hwf). unfold in_range in Hx. lia. }
  destruct (lookup_lt_is_Some_2 (size_ uf) (Z.to_nat x)) as [s Hs].
  { rewrite (wf_size _ _ Hwf). unfold in_range in Hx. lia. }
  eauto.
Qed.

Lemma wf_init : wf (UnionFind_init (Z.of_nat n)) id.
Proof.
  assert (Hlen : length (range (Z.of_nat n)) = n).
  { unfold range. rewrite length_seqZ. lia. }
  unfold UnionFind_init. constructor; simpl.
  - done.
  - by rewrite length_replicate, Nat2Z.id.
  - done.
  - intros x p Hx Hp. unfold range in Hp. apply lookup_seqZ in Hp as [-> _].
    unfold in_range in Hx. rewrite Z.add_0_l, Z2Nat.id by lia. done.
  - intros x s Hx Hs. apply lookup_replicate in Hs as [-> _].
    unfold in_range in Hx. split; [lia|]. intros _.
    assert (class id x ≡ₚ [x]) as ->; [|done]. apply NoDup_Permutation.
    + apply NoDup_filter, NoDup_range.
    + apply NoDup_singleton.
    + intros y. unfold class, id. rewrite list_elem_of_filter, elem_of_range, list_elem_of_singleton.
      intuition (subst; auto; lia).
Qed.

(** One iteration of the [find] loop keeps the represented partition. *)
Lemma wf_halve uf root x p gp :
  wf uf root → in_range x →
  parent uf !! Z.to_nat x = Some p → x ≠ p → parent uf !! Z.to_nat p = Some gp →
  wf (mkUF (<[Z.to_nat x := gp]> (parent uf)) (size_ uf)) root.
Proof.
  intros Hwf Hx Hp Hxp Hgp.
  destruct (wf_step _ _ Hwf x p Hx Hp) as (Hpr & Hrp & _ & Hlt).
  destruct Hlt as (Hrx & sx & sp & Hsx & Hsp & Hlt); [congruence|].
  destruct (wf_step _ _ Hwf p gp Hpr Hgp) as (Hgr & Hrgp & Hgroot & Hglt).
  constructor; simpl.
  - rewrite length_insert. apply Hwf.
  - apply Hwf.
  - apply Hwf.
  - intros y q Hy Hq. destruct (decide (y = x)) as [->|Hne].
    + rewrite list_lookup_insert_eq in Hq.
      2: { apply lookup_lt_Some in Hp. done. }
      injection Hq as ->. split_and!; [done|congruence| |].
      * intros ->. destruct Hglt as (_ & ? & ? & ? & ? & ?); [congruence|].
        simplify_eq. lia.
      * intros Hqx. split; [done|]. destruct (decide (q = p)) as [->|Hqp].
        { exists sx, sp. done. }
        destruct (Hglt Hqp) as (_ & sp' & sg & ? & ? & ?). simplify_eq.
        exists sx, sg. split_and!; [done..|lia].
    + rewrite list_lookup_insert_ne in Hq.
      2: { unfold in_range in *. lia. }
      by apply (wf_step _ _ Hwf).
  - apply Hwf.
Qed.

(** [find] terminates within its fuel: the size of the class grows strictly
    along the parent chain and is bounded by [n]. *)
Lemma find_loop_spec fuel uf root x s :
  wf uf root → in_range x → size_ uf !! Z.to_nat x = Some s →
  (n < fuel + Z.to_nat s)%nat →
  ∃ uf', find_loop fuel uf x = Ok (root x, uf') ∧ wf uf' root ∧ size_ uf' = size_ uf.
Proof.
  revert uf x s. induction fuel as [|fuel IH]; intros uf x s Hwf Hx Hs Hfuel.
  { destruct (wf_sizes _ _ Hwf x s Hx Hs). lia. }
  destruct (wf_lookup uf root x Hwf Hx) as (p & s' & Hp & Hs'). simplify_eq.
  pose proof (wf_step _ _ Hwf x p Hx Hp) as (Hpr & Hrp & Hroot & Hlt).
  destruct (wf_lookup uf root p Hwf Hpr) as (gp & sp & Hgp & Hsp).
  assert (Hin : ∀ y, in_range y → 0 ≤ y < Z.of_nat (length (parent uf))).
  { intros y. by rewrite (wf_parent _ _ Hwf). }
  simpl. rewrite (proj2 (py_getitem_Ok _ x p (Hin x Hx)) Hp). simpl. case_decide as Hxp.
  { subst p. exists uf. by rewrite Hroot. }
  rewrite (proj2 (py_getitem_Ok _ p gp (Hin p Hpr)) Hgp). simpl.
  rewrite (py_setitem_Ok _ x gp (Hin x Hx)). simpl.
  pose proof (wf_halve uf root x p gp Hwf Hx Hp Hxp Hgp) as Hwf'.
  assert (Hx' : py_getitem (<[Z.to_nat x := gp]> (parent uf)) x = Ok gp).
  { apply py_getitem_Ok; [rewrite length_insert; auto|].
    apply list_lookup_insert_eq. specialize (Hin x Hx). lia. }
  rewrite Hx'. simpl.
  pose proof (wf_step _ _ Hwf p gp Hpr Hgp) as (Hgr & Hrg & _ & Hglt).
  destruct (wf_lookup uf root gp Hwf Hgr) as (_ & sg & _ & Hsg).
  assert (Hs_lt : s < sg).
  { destruct Hlt as (_ & ? & ? & ? & ? & ?); [congruence|]. simplify_eq.
    destruct (decide (gp = p)) as [->|Hgp']; [simplify_eq; lia|].
    destruct (Hglt Hgp') as (_ & ? & ? & ? & ? & ?). simplify_eq. lia. }
  pose proof (wf_sizes _ _ Hwf x s Hx Hs).
  destruct (IH _ gp sg Hwf' Hgr Hsg ltac:(lia)) as (uf' & Hf & Hwf'' & Hsz).
  exists uf'. rewrite Hf, Hrg, Hrp. done.
Qed.

Lemma find_spec uf root x :
  wf uf root → in_range x →
  ∃ uf', find uf x = Ok (root x, uf') ∧ wf uf' root ∧ size_ uf' = size_ uf.
Proof.
  intros Hwf Hx. destruct (wf_lookup uf root x Hwf Hx) as (_ & s & _ & Hs).
  pose proof (wf_sizes _ _ Hwf x s Hx Hs). unfold find.
  eapply find_loop_spec; [done..|]. rewrite (wf_parent _ _ Hwf). lia.
Qed.

(** The representatives after attaching the root [rb] under the root [ra]. *)
Definition merge root (ra rb x : Z) : Z := if decide (root x = rb) then ra else root x.

Lemma merge_class root ra rb :
  ra ≠ rb → root ra = ra → root rb = rb →
  class (merge root ra rb) ra ≡ₚ class root ra ++ class root rb.
Proof.
  intros Hne Ha Hb. apply NoDup_Permutation.
  - apply NoDup_filter, NoDup_range.
  - apply NoDup_app. split_and!; [apply NoDup_filter, NoDup_range| |apply NoDup_filter, NoDup_range].
    unfold class. intros y. rewrite !list_elem_of_filter. intros [-> _] [? _]. done.
  - intros y. unfold class, merge. rewrite elem_of_app, !list_elem_of_filter.
    case_decide; naive_solver.
Qed.

Lemma merge_class_other root ra rb r :
  r ≠ ra → r ≠ rb → class (merge root ra rb) r = class root r.
Proof.
  intros Ha Hb. unfold class. apply list_filter_iff. intros y. unfold merge.
  case_decide; naive_solver.
Qed.

(** Attaching the smaller root [rb] under [ra] represents the merge. *)
Lemma wf_attach uf root ra rb sa sb :
  wf uf root → in_range ra → in_range rb → ra ≠ rb → root ra = ra → root rb = rb →
  size_ uf !! Z.to_nat ra = Some sa → size_ uf !! Z.to_nat rb = Some sb → sb ≤ sa →
  wf (mkUF (<[Z.to_nat rb := ra]> (parent uf)) (<[Z.to_nat ra := sa + sb]> (size_ uf)))
     (merge root ra rb).
Proof.
  intros Hwf Hra Hrb Hne Hroa Hrob Hsa Hsb Hle.
  pose proof (wf_sizes _ _ Hwf ra sa Hra Hsa) as [Hsa1 Hca].
  pose proof (wf_sizes _ _ Hwf rb sb Hrb Hsb) as [Hsb1 Hcb].
  assert (Hnat : ∀ x y, in_range x → in_range y → x ≠ y → Z.to_nat x ≠ Z.to_nat y).
  { unfold in_range. lia. }
  assert (Hra' : merge root ra rb ra = ra) by (unfold merge; rewrite Hroa; by case_decide).
  assert (Hsum : sa + sb = Z.of_nat (length (class (merge root ra rb) ra))).
  { rewrite (merge_class root ra rb), length_app, Nat2Z.inj_add by done.
    by rewrite Hca, Hcb by done. }
  constructor; simpl.
  - rewrite length_insert. apply Hwf.
  - rewrite length_insert. apply Hwf.
  - intros x Hx. unfold merge. destruct (wf_root _ _ Hwf x Hx) as [? Hrr].
    destruct (decide (root x = rb)).
    + rewrite Hroa, decide_False by done. done.
    + by rewrite Hrr, decide_False by done.
  - intros x p Hx Hp. destruct (decide (x = rb)) as [->|Hxb].
    + rewrite list_lookup_insert_eq in Hp by (rewrite (wf_parent _ _ Hwf); unfold in_range in *; lia).
      injection Hp as <-. rewrite Hra'. unfold merge. rewrite Hrob, decide_True by done.
      split_and!; [done..|]. intros _. split; [done|].
      exists sb, (sa + sb). rewrite list_lookup_insert_ne by (by apply Hnat).
      rewrite list_lookup_insert_eq by (rewrite (wf_size _ _ Hwf); unfold in_range in *; lia).
      split_and!; [done..|lia].
    + rewrite list_lookup_insert_ne in Hp by (by apply Hnat).
      destruct (wf_step _ _ Hwf x p Hx Hp) as (Hpr & Hrp & Heq & Hlt).
      split_and!; [done| | |].
      * unfold merge. by rewrite Hrp.
      * intros ->. unfold merge. rewrite Heq by done. rewrite decide_False; congruence.
      * intros Hpx. destruct (Hlt Hpx) as (Hrx & sx & sp & Hsx & Hsp & Hlt').
        assert (Hxa : x ≠ ra) by congruence.
        split; [unfold merge; case_decide; congruence|].
        exists sx. rewrite list_lookup_insert_ne by (apply Hnat; congruence).
        destruct (decide (p = ra)) as [->|Hpa].
        { simplify_eq. exists (sa + sb).
          rewrite list_lookup_insert_eq by (rewrite (wf_size _ _ Hwf); unfold in_range in *; lia).
          split_and!; [done..|lia]. }
        exists sp. rewrite list_lookup_insert_ne by (apply Hnat; congruence). done.
  - intros x s Hx Hs. destruct (decide (x = ra)) as [->|Hxa].
    + rewrite list_lookup_insert_eq in Hs by (rewrite (wf_size _ _ Hwf); unfold in_range in *; lia).
      injection Hs as <-. split; [|done]. rewrite Hsum. split; [lia|].
      unfold class. pose proof (length_filter (λ x, merge root ra rb x = ra) (range (Z.of_nat n))).
      unfold range in H at 2. rewrite length_seqZ in H. lia.
    + rewrite list_lookup_insert_ne in Hs by (apply Hnat; congruence).
      destruct (wf_sizes _ _ Hwf x s Hx Hs) as [? Hc]. split; [done|].
      unfold merge at 1. case_decide as Hxb; [congruence|]. intros Hroot.
      rewrite merge_class_other; [auto|done|congruence].
Qed.
End wf.

(** * Refinement *)

Section spec.
Context (n : nat).

Lemma size_getitem uf root x :
  wf n uf root → in_range n x →
  ∃ s, py_getitem (size_ uf) x = Ok s ∧ size_ uf !! Z.to_nat x = Some s.
Proof.
  intros Hwf Hx. destruct (wf_lookup n uf root x Hwf Hx) as (_ & s & _ & Hs).
  exists s. split; [|done]. apply py_getitem_Ok; [|done].
  by rewrite (wf_size _ _ _ Hwf).
Qed.

(** Two nodes get the same representative when the classes of [a], [b] merge. *)
Definition joined (root : Z → Z) (a b x y : Z) : Prop :=
  root x = root y ∨ (root x = root a ∧ root y = root b) ∨ (root x = root b ∧ root y = root a).

Lemma merge_joined root ra rb x y :
  ra ≠ rb →
  merge root ra rb x = merge root ra rb y ↔
  root x = root y ∨ (root x = ra ∧ root y = rb) ∨ (root x = rb ∧ root y = ra).
Proof. intros. unfold merge. repeat case_decide; naive_solver. Qed.

(** The writes at the end of [union]. *)
Lemma attach_Ok uf root ra rb sa sb :
  wf n uf root → in_range n ra → in_range n rb →
  py_getitem (size_ uf) ra = Ok sa → py_getitem (size_ uf) rb = Ok sb →
  (parent' ← py_setitem (parent uf) rb ra;
   sra ← py_getitem (size_ uf) ra;
   srb ← py_getitem (size_ uf) rb;
   size' ← py_setitem (size_ uf) ra (sra + srb);
   Ok (true, mkUF parent' size')) =
  Ok (true, mkUF (<[Z.to_nat rb := ra]> (parent uf)) (<[Z.to_nat ra := sa + sb]> (size_ uf))).
Proof.
  intros Hwf Hra Hrb Ha Hb. rewrite py_setitem_Ok by by rewrite (wf_parent _ _ _ Hwf).
  simpl. rewrite Ha. simpl. rewrite Hb. simpl.
  rewrite py_setitem_Ok by by rewrite (wf_size _ _ _ Hwf). done.
Qed.

Lemma union_spec uf root a b :
  wf n uf root → in_range n a → in_range n b →
  ∃ uf' root' r, union uf a b = Ok (r, uf') ∧ wf n uf' root' ∧
    (r = true ↔ root a ≠ root b) ∧
    ∀ x y, root' x = root' y ↔ joined root a b x y.
Proof.
  intros Hwf Ha Hb. unfold union.
  destruct (find_spec n uf root a Hwf Ha) as (uf1 & -> & Hwf1 & _). simpl.
  destruct (find_spec n uf1 root b Hwf1 Hb) as (uf2 & -> & Hwf2 & _). simpl.
  destruct (wf_root _ _ _ Hwf a Ha) as [Hra Hroa].
  destruct (wf_root _ _ _ Hwf b Hb) as [Hrb Hrob].
  case_decide as Hab.
  { exists uf2, root, false. split_and!; [done|done|by rewrite Hab|].
    intros x y. unfold joined. rewrite Hab. intuition congruence. }
  destruct (size_getitem uf2 root (root a) Hwf2 Hra) as (sa & Hsa & Hsa').
  destruct (size_getitem uf2 root (root b) Hwf2 Hrb) as (sb & Hsb & Hsb').
  rewrite Hsa. simpl. rewrite Hsb. simpl. case_decide as Hlt.
  - rewrite (attach_Ok uf2 root (root b) (root a) sb sa) by done.
    eexists _, _, true. split_and!; [done| |done|].
    + apply wf_attach; [done..|congruence|done|done|done|done|lia].
    + intros x y. rewrite merge_joined by congruence. unfold joined. naive_solver.
  - rewrite (attach_Ok uf2 root (root a) (root b) sa sb) by done.
    eexists _, _, true. split_and!; [done| |done|].
    + apply wf_attach; [done..|lia].
    + intros x y. by apply merge_joined.
Qed.

Lemma connected_spec uf root a b :
  wf n uf root → in_range n a → in_range n b →
  ∃ uf', connected uf a b = Ok (bool_decide (root a = root b), uf') ∧ wf n uf' root.
Proof.
  intros Hwf Ha Hb. unfold connected.
  destruct (find_spec n uf root a Hwf Ha) as (uf1 & -> & Hwf1 & _). simpl.
  destruct (find_spec n uf1 root b Hwf1 Hb) as (uf2 & -> & Hwf2 & _). by exists uf2.
Qed.

(** The relation a list of unions is meant to compute. *)
Definition linked (pairs : list (Z * Z)) (x y : Z) : Prop :=
  rtsc (λ x y, (x, y) ∈ pairs) x y.

#[local] Instance linked_equiv pairs : Equivalence (linked pairs).
Proof. apply rtsc_equivalence. Qed.

Lemma linked_mono ps qs x y : ps ⊆ qs → linked ps x y → linked qs x y.
Proof.
  intros Hsub. induction 1 as [x|x z y Hxz _ IH]; [reflexivity|].
  transitivity z; [|done]. destruct Hxz; [by apply rtsc_lr, Hsub|by apply rtsc_rl, Hsub].
Qed.

Lemma linked_snoc pairs a b x y :
  linked (pairs ++ [(a, b)]) x y ↔
  linked pairs x y ∨ (linked pairs x a ∧ linked pairs b y) ∨
  (linked pairs x b ∧ linked pairs a y).
Proof.
  assert (Hmono : ∀ x y, linked pairs x y → linked (pairs ++ [(a, b)]) x y).
  { intros x' y'. apply linked_mono. intros p Hp. apply elem_of_app. by left. }
  assert (Hab : linked (pairs ++ [(a, b)]) a b).
  { apply rtsc_lr. apply elem_of_app. right. by left. }
  split.
  - unfold linked at 1. induction 1 as [x|x z y Hxz _ IH]; [by left|].
    assert (Hstep : linked pairs x z ∨ (x = a ∧ z = b) ∨ (x = b ∧ z = a)).
    { destruct Hxz as [Hxz|Hxz]; apply elem_of_app in Hxz as [Hxz|Hxz].
      - left. by apply rtsc_lr.
      - apply list_elem_of_singleton in Hxz. simplify_eq. tauto.
      - left. by apply rtsc_rl.
      - apply list_elem_of_singleton in Hxz. simplify_eq. tauto. }
    destruct Hstep as [Hs|[[-> ->]|[-> ->]]].
    + destruct IH as [?|[[? ?]|[? ?]]]; [left|right; left|right; right];
        [|split|split]; try done; by transitivity z.
    + destruct IH as [?|[[? ?]|[? ?]]]; [right; left|right; left|left]; done.
    + destruct IH as [?|[[? ?]|[? ?]]]; [right; right|left|right; right]; done.
  - intros [?|[[? ?]|[? ?]]]; [by apply Hmono| |].
    + transitivity a; [by apply Hmono|]. transitivity b; [done|by apply Hmono].
    + transitivity b; [by apply Hmono|]. transitivity a; [by symmetry|by apply Hmono].
Qed.

(** A structure stands for the closure of [pairs]. *)
Definition represents (uf : UnionFind) (pairs : list (Z * Z)) : Prop :=
  ∃ root, wf n uf root ∧ ∀ x y, in_range n x → in_range n y →
    root x = root y ↔ linked pairs x y.

Lemma linked_in_range pairs x y :
  Forall (λ p, in_range n p.1 ∧ in_range n p.2) pairs →
  linked pairs x y → in_range n x → in_range n y.
Proof.
  rewrite Forall_forall. intros Hp. induction 1 as [|x z y [Hs|Hs] _ IH]; [done|..];
    specialize (Hp _ Hs); simpl in Hp; tauto.
Qed.

Lemma represents_init : represents (UnionFind_init (Z.of_nat n)) [].
Proof.
  exists id. split; [apply wf_init|]. intros x y _ _. unfold id. split.
  - by intros ->.
  - induction 1 as [|x z y [[]%elem_of_nil|[]%elem_of_nil] _ _]; done.
Qed.

Lemma represents_union uf pairs a b :
  represents uf pairs → in_range n a → in_range n b →
  ∃ uf' r, union uf a b = Ok (r, uf') ∧ represents uf' (pairs ++ [(a, b)]) ∧
    (r = true ↔ ¬ linked pairs a b).
Proof.
  intros (root & Hwf & Hroot) Ha Hb.
  destruct (union_spec uf root a b Hwf Ha Hb) as (uf' & root' & r & Hu & Hwf' & Hr & Hj).
  exists uf', r. split_and!; [done| |by rewrite Hr, Hroot].
  exists root'. split; [done|]. intros x y Hx Hy.
  rewrite Hj, linked_snoc. unfold joined. rewrite !Hroot by done.
  assert (∀ u v, linked pairs u v ↔ linked pairs v u) as Hsym by (split; intros; by symmetry).
  rewrite (Hsym b y), (Hsym a y). done.
Qed.

Lemma represents_unions uf ps qs :
  represents uf ps → Forall (λ p, in_range n p.1 ∧ in_range n p.2) qs →
  ∃ uf', unions uf qs = Ok uf' ∧ represents uf' (ps ++ qs).
Proof.
  intros Hr Hqs. revert uf ps Hr. induction Hqs as [|[a b] qs [Ha Hb] _ IH]; intros uf ps Hr.
  - exists uf. by rewrite app_nil_r.
  - destruct (represents_union uf ps a b Hr Ha Hb) as (uf1 & r & Hu & Hr1 & _).
    destruct (IH uf1 _ Hr1) as (uf2 & Hu2 & Hr2).
    exists uf2. unfold unions in *. simpl. rewrite Hu. simpl. rewrite Hu2.
    by rewrite <- app_assoc in Hr2.
Qed.
End spec.

(** * Properties *)

(** Refinement. After any sequence of [union] calls on [UnionFind(n)], each
    call having returned, [connected] answers membership in the equivalence
    closure of the united pairs. *)
Lemma unions_connected n pairs a b :
  Forall (λ p, in_range n p.1 ∧ in_range n p.2) pairs → in_range n a → in_range n b →
  ∃ uf r uf', unions (UnionFind_init (Z.of_nat n)) pairs = Ok uf ∧
    connected uf a b = Ok (r, uf') ∧ (r = true ↔ linked pairs a b).
Proof.
  intros Hp Ha Hb.
  destruct (represents_unions n _ _ _ (represents_init n) Hp) as (uf & Hu & root & Hwf & Hr).
  destruct (connected_spec n uf root a b Hwf Ha Hb) as (uf' & Hc & _).
  exists uf, (bool_decide (root a = root b)), uf'. split_and!; [done..|].
  rewrite bool_decide_eq_true. by apply Hr.
Qed.

Example unions_connected_ex :
  ∃ uf r uf', unions (UnionFind_init (Z.of_nat 5)) [(0, 1); (3, 4); (1, 3); (0, 4)] = Ok uf ∧
    connected uf 4 0 = Ok (r, uf') ∧
    (r = true ↔ linked [(0, 1); (3, 4); (1, 3); (0, 4)] 4 0).
Proof.
  apply (unions_connected 5 [(0, 1); (3, 4); (1, 3); (0, 4)] 4 0).
  - repeat constructor; unfold in_range; simpl; lia.
  - unfold in_range. lia.
  - unfold in_range. lia.
Defined.

(** Concrete run: 2 stays alone, 0-1-3-4 are one class. *)
Example union_run :
  (uf ← unions (UnionFind_init 5) [(0, 1); (3, 4); (1, 3); (0, 4)];
   '(a, uf) ← connected uf 4 0; '(b, _) ← connected uf 2 0; Ok (a, b)) = Ok (true, false).
Proof. vm_compute. reflexivity. Qed.
