(* ===== verification/KPaths.v ===== *)
(** Component: Yen's k shortest paths (src/core/graph.py, [k_shortest_paths]).
    The spur computation calls [Graph.shortest_path]; the candidate list is kept
    with its duplicates, as the code keeps it. *)
From S2P Require Import Prelude Graph.
Local Open Scope Z_scope.

(** Python's [<=] on lists of integers. *)
Fixpoint list_le (p q : list Z) : bool :=
  match p, q with
  | [], _ => true
  | _ :: _, [] => false
  | a :: p, b :: q => (a <? b) || ((a =? b) && list_le p q)
  end.

(** The sort key [(path_cost(p, weight_fn), p)], compared as a tuple. *)
Definition key_le (w : Z → Z → Z) (p q : list Z) : Prop :=
  path_cost p w < path_cost q w ∨ (path_cost p w = path_cost q w ∧ list_le p q).

#[export] Instance key_le_dec w : RelDecision (key_le w).
Proof. intros p q. unfold key_le. apply _. Defined.

(** One iteration of [for path in paths: if len(path) > i and path[:i+1] ==
    root_path: banned_edges.add(frozenset((path[i], path[i+1])))]. *)
Definition ban_next_edge (i : nat) (root_path : list Z) (banned_edges : gset (Z * Z))
    (path : list Z) : res (gset (Z * Z)) :=
  if decide ((i < length path)%nat ∧ take (S i) path = root_path) then
    a ← py_getitem path (Z.of_nat i);
    b ← py_getitem path (Z.of_nat (S i));
    Ok ({[frozen a b]} ∪ banned_edges)
  else Ok banned_edges.

Definition spur_banned_edges (paths : list (list Z)) (i : nat) (root_path : list Z)
    : res (gset (Z * Z)) :=
  foldM (ban_next_edge i root_path) ∅ paths.

(** [root_path[:-1]]. *)
Definition drop_last (l : list Z) : list Z := take (pred (length l)) l.

(** The body of [for i in range(len(previous) - 1)]: the candidate, if any. *)
Definition spur_candidate (g : graph) (target : Z) (w : Z → Z → Z)
    (paths : list (list Z)) (previous : list Z) (i : nat) : res (option (list Z)) :=
  spur_node ← py_getitem previous (Z.of_nat i);
  let root_path := take (S i) previous in
  banned_edges ← spur_banned_edges paths i root_path;
  let banned_nodes : gset Z := list_to_set (drop_last root_path) in
  spur_path ← shortest_path g spur_node target banned_edges banned_nodes w;
  match spur_path with
  | None | Some [] => Ok None
  | Some sp => Ok (Some (drop_last root_path ++ sp))
  end.

Definition spur_candidates (g : graph) (target : Z) (w : Z → Z → Z)
    (paths : list (list Z)) (candidates : list (list Z)) (previous : list Z)
    : res (list (list Z)) :=
  foldM (λ cs i,
    c ← spur_candidate g target w paths previous i;
    Ok (match c with Some total_path => cs ++ [total_path] | None => cs end))
    candidates (seq 0 (pred (length previous))).

(** [for _ in range(1, k_paths)]: [rounds] iterations left. *)
Fixpoint yen_rounds (rounds : nat) (g : graph) (target : Z) (w : Z → Z → Z)
    (paths candidates : list (list Z)) : res (list (list Z)) :=
  match rounds with
  | O => Ok paths
  | S rounds =>
      previous ← py_getitem paths (-1);
      candidates ← spur_candidates g target w paths candidates previous;
      match merge_sort (key_le w) candidates with
      | [] => Ok paths
      | next_path :: candidates =>
          let paths := if decide (next_path ∈ paths) then paths else paths ++ [next_path] in
          yen_rounds rounds g target w paths candidates
      end
  end.

(** [k_shortest_paths]. *)
Definition k_shortest_paths (g : graph) (source target k_paths : Z) (w : Z → Z → Z)
    : res (list (list Z)) :=
  first ← shortest_path g source target ∅ ∅ w;
  match first with
  | None | Some [] => Ok []
  | Some first =>
      paths ← yen_rounds (Z.to_nat (k_paths - 1)) g target w [first] [];
      Ok (py_take k_paths paths)
  end.

(** Small runs (a square with a diagonal, and the ladder of the finding). *)
Definition square : graph :=
  {[0 := {[1; 2]}; 1 := {[0; 2; 3]}; 2 := {[0; 1; 3]}; 3 := {[1; 2]}]}.

Example square_k3 :
  k_shortest_paths square 0 3 3 unit_weight = Ok [[0;1;3]; [0;2;3]; [0;1;2;3]].
Proof. vm_compute. reflexivity. Qed.
Example square_k4 :
  k_shortest_paths square 0 3 4 unit_weight = Ok [[0;1;3]; [0;2;3]; [0;1;2;3]; [0;2;1;3]].
Proof. vm_compute. reflexivity. Qed.

(** * Lemmas on prefixes *)

Lemma take_S_eq {A} (p q : list A) i :
  take (S i) p = take (S i) q ↔ take i p = take i q ∧ p !! i = q !! i.
Proof.
  split.
  - intros H. split.
    + assert (Ht : ∀ l : list A, take i l = take i (take (S i) l)).
      { intros l. rewrite take_take. f_equal. lia. }
      by rewrite (Ht p), (Ht q), H.
    + rewrite <- (lookup_take_lt p (S i)), <- (lookup_take_lt q (S i)) by lia. by rewrite H.
  - intros [H Hi]. destruct (p !! i) as [x|] eqn:Hp.
    + by rewrite (take_S_r p i x), (take_S_r q i x), H by done.
    + symmetry in Hi. apply lookup_ge_None in Hp, Hi.
      rewrite !take_ge in H by lia. by rewrite !take_ge by lia.
Qed.

Lemma drop_last_take (p : list Z) i :
  (i < length p)%nat → drop_last (take (S i) p) = take i p.
Proof.
  intros Hi. unfold drop_last. rewrite length_take, take_take. f_equal. lia.
Qed.

Lemma list_le_cons a p b q :
  list_le (a :: p) (b :: q) ↔ a < b ∨ (a = b ∧ list_le p q).
Proof.
  cbn [list_le]. rewrite Is_true_true, orb_true_iff, andb_true_iff, Z.ltb_lt, Z.eqb_eq.
  by rewrite Is_true_true.
Qed.

Lemma frozen_eq a b u v : frozen a b = frozen u v ↔ (a = u ∧ b = v) ∨ (a = v ∧ b = u).
Proof. unfold frozen. split; [intros [= ? ?]; lia|intros [[-> ->]|[-> ->]]; f_equal; lia]. Qed.

Section yen.
Context (g : graph) (w : Z → Z → Z) (source target : Z).
Hypothesis g_closed : graph_closed g.
Hypothesis w_nonneg : nonneg_weight w.

(** The loop-free paths from [source] to [target]. *)
Definition simple (p : list Z) : Prop :=
  is_path (adjacent g) source target p ∧ NoDup p.

Lemma simple_last p i :
  simple p → p !! i = Some target ↔ S i = length p.
Proof.
  intros [(_ & Hl & _) Hnd]. rewrite last_lookup in Hl.
  destruct p as [|x p]; [done|]. simpl in *. split.
  - intros Hi. pose proof (NoDup_lookup _ _ _ _ Hnd Hi Hl). lia.
  - intros [= ->]. done.
Qed.

Lemma simple_prefix_eq p q L : simple p → simple q → take L q = p → p = q.
Proof.
  intros Hp Hq HL. destruct (decide (length q ≤ L)%nat) as [?|Hlt].
  { by rewrite take_ge in HL. }
  assert (Hl : length p = L) by (rewrite <- HL, length_take; lia).
  destruct L as [|L]; [destruct Hp as [(? & ? & ?) ?]; by destruct p|].
  pose proof (proj2 (simple_last p L Hp) (eq_sym Hl)) as Ht.
  rewrite <- HL, lookup_take_lt in Ht by lia. apply (simple_last q L Hq) in Ht. lia.
Qed.

Lemma simple_node p i u : simple p → (0 < i)%nat → p !! i = Some u → is_Some (g !! u).
Proof.
  intros [(_ & _ & Hc) _] Hi Hu. destruct i as [|i]; [lia|].
  destruct (lookup_lt_is_Some_2 p i) as [v Hv]; [apply lookup_lt_Some in Hu; lia|].
  destruct (proj1 (chain_lookup _ p) Hc i v u Hv Hu) as (ns & Hns & Hin). by eapply g_closed.
Qed.

(** [q] follows [root] for [L] nodes and then leaves every path of [paths]
    that also follows [root]. *)
Definition deviates (paths : list (list Z)) (L : nat) (root q : list Z) : Prop :=
  simple q ∧ take L q = root ∧ ∀ p, p ∈ paths → take L p = root → p !! L ≠ q !! L.

Lemma ban_next_edge_spec i root be p :
  (take (S i) p = root → (S i < length p)%nat) →
  ∃ be', ban_next_edge i root be p = Ok be' ∧
    ∀ e, e ∈ be' ↔ e ∈ be ∨ ∃ a b, take (S i) p = root ∧
      p !! i = Some a ∧ p !! S i = Some b ∧ e = frozen a b.
Proof.
  intros Hl. unfold ban_next_edge. case_decide as Hd.
  - destruct Hd as [Hi Hr]. specialize (Hl Hr).
    destruct (lookup_lt_is_Some_2 p i) as [a Ha]; [lia|].
    destruct (lookup_lt_is_Some_2 p (S i)) as [b Hb]; [lia|].
    rewrite (proj2 (py_getitem_nat p i a) Ha). cbn [mbind res_bind].
    rewrite (proj2 (py_getitem_nat p (S i) b) Hb). cbn [mbind res_bind].
    eexists. split; [done|]. intros e. rewrite elem_of_union, elem_of_singleton.
    split; [intros [->|?]; eauto 10|intros [?|(a' & b' & _ & ? & ? & ->)]; simplify_eq; auto].
  - exists be. split; [done|]. intros e. split; [by left|].
    intros [?|(a & b & ? & Ha & _)]; [done|]. exfalso. apply Hd.
    split; [by apply lookup_lt_Some in Ha|done].
Qed.

(** The banned edges leave the spur node along the known paths. *)
Lemma spur_banned_edges_spec paths i root :
  (∀ p, p ∈ paths → take (S i) p = root → (S i < length p)%nat) →
  ∃ be, spur_banned_edges paths i root = Ok be ∧
    ∀ e, e ∈ be ↔ ∃ p a b, p ∈ paths ∧ take (S i) p = root ∧
      p !! i = Some a ∧ p !! S i = Some b ∧ e = frozen a b.
Proof.
  intros Hlen. unfold spur_banned_edges.
  assert (Hgen : ∀ be0, ∃ be, foldM (ban_next_edge i root) be0 paths = Ok be ∧
    ∀ e, e ∈ be ↔ e ∈ be0 ∨ ∃ p a b, p ∈ paths ∧ take (S i) p = root ∧
      p !! i = Some a ∧ p !! S i = Some b ∧ e = frozen a b);
    [|destruct (Hgen ∅) as (be & Hbe & He); exists be; split; [exact Hbe|];
      intros e; rewrite He; split;
      [by intros [[]%not_elem_of_empty|?]|by right]].
  induction paths as [|p paths IH]; intros be0.
  { exists be0. split; [done|]. intros e. split; [by left|].
    intros [?|(? & ? & ? & []%elem_of_nil & _)]; done. }
  destruct (ban_next_edge_spec i root be0 p) as (be1 & Hbe1 & He1); [apply Hlen; by left|].
  destruct (IH (λ p Hp, Hlen p (list_elem_of_further _ _ _ Hp)) be1) as (be & Hbe & He).
  exists be. cbn [foldM]. rewrite Hbe1. split; [done|]. intros e. rewrite He, He1.
  setoid_rewrite elem_of_cons. naive_solver.
Qed.
Lemma is_path_drop (E : Z → Z → Prop) s t p i u :
  is_path E s t p → p !! i = Some u → is_path E u t (drop i p).
Proof.
  intros (_ & Hl & Hc) Hu. pose proof (lookup_lt_Some _ _ _ Hu). split_and!.
  - by rewrite head_lookup, lookup_drop, Nat.add_0_r.
  - rewrite <- Hl, !last_lookup, lookup_drop, length_drop. f_equal. lia.
  - apply chain_lookup. intros j a b. rewrite !lookup_drop. intros Ha Hb.
    eapply (proj1 (chain_lookup _ p) Hc (i + j)%nat); [done|]. by rewrite Nat.add_succ_r in Hb.
Qed.

Section spur.
(** What the spur computation at index [i] of [previous] works with. *)
Context (paths : list (list Z)) (previous : list Z) (i : nat).
Hypothesis paths_simple : ∀ p, p ∈ paths → simple p.
Hypothesis previous_in : previous ∈ paths.
Hypothesis i_lt : (S i < length previous)%nat.
Let root := take (S i) previous.
Let bn : gset Z := list_to_set (take i previous).

Lemma root_proper p : p ∈ paths → take (S i) p = root → (S i < length p)%nat.
Proof.
intros Hp Hr. destruct (decide (S i < length p)%nat) as [|Hge]; [done|].
assert (Hpe : p = root) by (rewrite <- Hr; by rewrite take_ge by lia).
assert (p = previous) as ->; [|done].
eapply (simple_prefix_eq _ _ (S i)); [by apply paths_simple..|]. by rewrite Hpe.
Qed.

Lemma spur_not_target spur : previous !! i = Some spur → spur ≠ target.
Proof.
intros Hs ->. apply (simple_last previous i) in Hs; [lia|by apply paths_simple].
Qed.

Context (spur : Z) (be : gset (Z * Z)).
Hypothesis spur_at : previous !! i = Some spur.
Hypothesis be_spec : ∀ e, e ∈ be ↔ ∃ p a b, p ∈ paths ∧ take (S i) p = root ∧
p !! i = Some a ∧ p !! S i = Some b ∧ e = frozen a b.

Lemma root_lookup p : take (S i) p = root → p !! i = Some spur ∧ take i p = take i previous.
Proof.
unfold root. rewrite take_S_eq. intros [Ht Hi]. by rewrite Hi.
Qed.

(** The tail of a deviating path is one of the paths the spur search ranges over. *)
Lemma deviates_usable q :
deviates paths (S i) root q → is_path (usable g target be bn) spur target (drop i q).
Proof.
intros ((Hq & Hnd) & Hr & Hdev). destruct (root_lookup q Hr) as [Hqi Hqt].
destruct (is_path_drop (adjacent g) source target q i spur Hq Hqi) as (Hh & Hl & Hc).
split_and!; [done..|]. apply chain_lookup. intros j u v Hu Hv.
rewrite lookup_drop in Hu, Hv. rewrite chain_lookup in Hc.
split_and!.
- apply (Hc j); by rewrite lookup_drop.
- intros He. apply be_spec in He as (p & a & b & Hp & Hpr & Ha & Hb & Hf).
  destruct (root_lookup p Hpr) as [Hpi _]. rewrite Hpi in Ha. injection Ha as <-.
  apply frozen_eq in Hf as [[-> ->]|[-> ->]].
  + pose proof (NoDup_lookup _ _ _ _ Hnd Hu Hqi). assert (j = 0%nat) as -> by lia.
    apply (Hdev p Hp Hpr). rewrite Hb, <- Hv. f_equal. lia.
  + pose proof (NoDup_lookup _ _ _ _ Hnd Hv Hqi). lia.
- intros Hbn. exfalso. unfold bn in Hbn. rewrite elem_of_list_to_set, <- Hqt in Hbn.
  apply elem_of_take in Hbn as (k & Hk & Hki).
  pose proof (NoDup_lookup _ _ _ _ Hnd Hk Hv). lia.
Qed.

Lemma drop_usable q sp :
is_path (usable g target be bn) spur target sp → NoDup sp →
q = take i previous ++ sp → deviates paths (S i) root q ∧ drop i q = sp.
Proof.
intros Hsp Hnd ->. assert (Hli : length (take i previous) = i) by (rewrite length_take; lia).
destruct (paths_simple previous previous_in) as [Hprev HndP].
destruct Hsp as (Hh & Hl & Hc). rewrite chain_lookup in Hc.
assert (Htake : take (S i) (take i previous ++ sp) = root).
{ unfold root. rewrite (take_S_r previous i spur spur_at), take_app_ge, Hli by lia.
  replace (S i - i)%nat with 1%nat by lia. destruct sp as [|x sp]; simplify_eq/=. done. }
assert (Hdrop : drop i (take i previous ++ sp) = sp).
{ rewrite drop_app_ge, Hli, Nat.sub_diag by lia. by rewrite drop_0. }
split; [|done]. split_and!; [split; [split_and!|]|done|].
- destruct (decide (i = 0%nat)) as [->|Hi0].
  { simpl. destruct Hprev as (Hs & _ & _). rewrite head_lookup in Hs. congruence. }
  destruct Hprev as (Hs & _ & _). rewrite head_lookup in Hs |- *.
  rewrite lookup_app_l by lia. by rewrite lookup_take_lt by lia.
- by rewrite last_app, Hl.
- apply chain_lookup. intros j u v Hu Hv.
  destruct (decide (S j < S i)%nat) as [Hj|Hj].
  + rewrite <- (lookup_take_lt _ (S i)), Htake in Hu by lia.
    rewrite <- (lookup_take_lt _ (S i)), Htake in Hv by lia.
    unfold root in *. rewrite lookup_take_lt in Hu, Hv by lia.
    destruct Hprev as (_ & _ & Hcp). by eapply (proj1 (chain_lookup _ _) Hcp).
  + rewrite lookup_app_r, Hli in Hu, Hv by lia.
    eapply (Hc (j - i)%nat); [done|]. by rewrite <- Nat.sub_succ_l by lia.
- apply NoDup_app. split_and!; [|intros x Hx Hxs|done].
  + eapply sublist_NoDup; [exact HndP|apply sublist_take].
  + apply elem_of_take in Hx as (k & Hk & Hki).
    apply list_elem_of_lookup in Hxs as [[|j] Hj].
    * rewrite head_lookup in Hh. simplify_eq.
      pose proof (NoDup_lookup _ _ _ _ HndP Hk spur_at). lia.
    * destruct (lookup_lt_is_Some_2 sp j) as [u Hu]; [apply lookup_lt_Some in Hj; lia|].
      destruct (Hc j u x Hu Hj) as (_ & _ & Ht).
      assert (x = target) as ->.
      { apply Ht. unfold bn. apply elem_of_list_to_set. apply elem_of_take. eauto. }
      apply (simple_last previous k) in Hk; [lia|by split].
- intros p Hp Hpr Heq. destruct (root_lookup p Hpr) as [Hpi _].
  pose proof (root_proper p Hp Hpr).
  destruct (lookup_lt_is_Some_2 p (S i)) as [b Hb]; [lia|].
  rewrite Hb in Heq. symmetry in Heq.
  rewrite lookup_app_r, Hli in Heq by lia. replace (S i - i)%nat with 1%nat in Heq by lia.
  rewrite head_lookup in Hh. destruct (Hc 0%nat spur b Hh Heq) as (_ & Hnbe & _).
  apply Hnbe, be_spec. exists p, spur, b. done.
Qed.
End spur.

(** Every path deviating from [paths] after [root] costs at least as much as
    some candidate that does. *)
Definition covered (paths cands : list (list Z)) (L : nat) (root : list Z) : Prop :=
  ∀ q, deviates paths L root q →
    ∃ c, c ∈ cands ∧ deviates paths L root c ∧ path_cost c w ≤ path_cost q w.

Lemma spur_candidate_spec paths previous i :
  (∀ p, p ∈ paths → simple p) → previous ∈ paths → (S i < length previous)%nat →
  let root := take (S i) previous in
  ∃ o, spur_candidate g target w paths previous i = Ok o ∧
    (∀ c, o = Some c → deviates paths (S i) root c) ∧
    (∀ q, deviates paths (S i) root q →
       ∃ c, o = Some c ∧ path_cost c w ≤ path_cost q w).
Proof.
  intros Hs Hprev Hi root.
  destruct (lookup_lt_is_Some_2 previous i) as [spur Hspur]; [lia|].
  destruct (spur_banned_edges_spec paths i root) as (be & Hbe & Hbes).
  { intros p Hp Hr. by apply (root_proper paths previous i). }
  destruct (shortest_path_spec g spur target be (list_to_set (take i previous)) w)
    as (r & Hr & Hres); [done| |done|].
  { destruct (Hs previous Hprev) as [(_ & _ & Hc) _].
    destruct (lookup_lt_is_Some_2 previous (S i)) as [v Hv]; [lia|].
    destruct (proj1 (chain_lookup _ _) Hc i spur v Hspur Hv) as (ns & Hns & _).
    by eexists. }
  unfold spur_candidate. rewrite (proj2 (py_getitem_nat previous i spur) Hspur).
  cbn [mbind res_bind]. fold root. rewrite Hbe. cbn [mbind res_bind].
  unfold root. rewrite drop_last_take by lia. rewrite Hr. cbn [mbind res_bind].
  destruct r as [sp|].
  - destruct Hres as (Hsp & Hnd & Hmin). destruct sp as [|x sp]; [by destruct Hsp|].
    eexists. split; [done|]. split.
    + intros c [= <-]. by eapply drop_usable.
    + intros q Hq. eexists. split; [done|].
      edestruct (drop_usable paths previous i Hs Hprev Hi spur be Hspur Hbes) as [Hc Hdc];
        [exact Hsp|done|done|].
      assert (Hqd : is_path (usable g target be (list_to_set (take i previous))) spur target (drop i q)).
      { by eapply deviates_usable. }
      assert (Hlen : ∀ p, take (S i) p = root → (i < length p)%nat).
      { intros p Hp. apply (f_equal length) in Hp. unfold root in Hp.
        rewrite !length_take in Hp. lia. }
      destruct Hq as (_ & Hqr & _), Hc as (_ & Hcr & _).
      rewrite (path_cost_split w q i), Hqr by auto.
      rewrite (path_cost_split w (_ ++ _) i), Hcr, Hdc by auto.
      fold root. specialize (Hmin _ Hqd). lia.
  - exists None. split; [done|]. split; [done|]. intros q Hq. exfalso.
    eapply Hres, deviates_usable; done.
Qed.

(** One pass over the spur nodes covers every root of [previous]. *)
Lemma spur_candidates_fold paths previous js cands :
  (∀ p, p ∈ paths → simple p) → previous ∈ paths →
  (∀ i, i ∈ js → (S i < length previous)%nat) → (∀ c, c ∈ cands → simple c) →
  ∃ cands', foldM (λ cs i,
      c ← spur_candidate g target w paths previous i;
      Ok (match c with Some total_path => cs ++ [total_path] | None => cs end)) cands js
      = Ok cands' ∧
    cands ⊆ cands' ∧ (∀ c, c ∈ cands' → simple c) ∧
    (∀ i, i ∈ js → covered paths cands' (S i) (take (S i) previous)).
Proof.
  intros Hs Hprev. revert cands. induction js as [|i js IH]; intros cands His Hc.
  { exists cands. split_and!; [done..|by intros ? ?%elem_of_nil]. }
  destruct (spur_candidate_spec paths previous i Hs Hprev) as (o & Ho & Hoc & Hoq).
  { apply His. by left. }
  cbn [foldM]. rewrite Ho. cbn [mbind res_bind].
  destruct (IH (match o with Some total_path => cands ++ [total_path] | None => cands end))
    as (cands' & Hf & Hsub & Hsc & Hcov).
  { intros j Hj. apply His. by right. }
  { intros c. destruct o as [t|]; [|auto]. rewrite elem_of_app, list_elem_of_singleton.
    intros [?| ->]; [by apply Hc|]. by apply (Hoc t). }
  exists cands'. split_and!; [done| |done|].
  - intros c Hin. apply Hsub. destruct o; [|done]. apply elem_of_app. by left.
  - intros j [->|Hj]%elem_of_cons; [|by apply Hcov]. intros q Hq.
    destruct (Hoq q Hq) as (c & -> & ?). exists c. split_and!; [|by apply Hoc|done].
    apply Hsub, elem_of_app. right. by left.
Qed.

(** Every path that js not yet listed costs at least as much as a candidate. *)
Lemma covered_all paths cands q :
  (∀ p, p ∈ paths → simple p) → paths ≠ [] →
  (∀ L p, (0 < L)%nat → p ∈ paths → (L < length p)%nat → covered paths cands L (take L p)) →
  simple q → q ∉ paths → ∃ c, c ∈ cands ∧ path_cost c w ≤ path_cost q w.
Proof.
  intros Hs Hne Hcov Hq Hnq.
  assert (Hstep : ∀ k L, (0 < L)%nat → (length q ≤ L + k)%nat →
    (∃ p, p ∈ paths ∧ take L p = take L q) → ∃ c, c ∈ cands ∧ path_cost c w ≤ path_cost q w).
  { induction k as [|k IH]; intros L HL Hk (p & Hp & Hpq).
    - rewrite (take_ge q) in Hpq by lia. exfalso. apply Hnq.
      by rewrite (simple_prefix_eq q p L Hq (Hs p Hp) Hpq).
    - destruct (decide (Exists (λ p, take (S L) p = take (S L) q) paths)) as [He|He].
      { apply Exists_exists in He as (p' & ? & ?). apply (IH (S L)); [lia..|eauto]. }
      assert (HLp : (L < length p)%nat).
      { destruct (decide (L < length p)%nat); [done|]. exfalso. apply Hnq.
        rewrite (take_ge p) in Hpq by lia. symmetry in Hpq.
        by rewrite <- (simple_prefix_eq p q L (Hs p Hp) Hq Hpq). }
      destruct (Hcov L p HL Hp HLp q) as (c & ? & _ & ?); [|by exists c].
      split_and!; [done|done|]. intros p' Hp' Hpp' Heq. apply He, Exists_exists.
      exists p'. split; [done|]. apply take_S_eq. split; [congruence|done]. }
  destruct paths as [|p0 ps] eqn:Hps; [done|].
  apply (Hstep (length q) 1%nat); [lia..|]. exists p0. split; [by left|].
  destruct (Hs p0 ltac:(by left)) as [(Hh & _) _], Hq as [(Hhq & _) _].
  destruct p0, q; simplify_eq/=. done.
Qed.
Definition cost_le (p q : list Z) : Prop := path_cost p w ≤ path_cost q w.

(** The returned list: distinct loop-free paths by increasing cost, with every
    other loop-free path costing at least as much. *)
Record k_best (paths : list (list Z)) : Prop := {
  kb_simple p : p ∈ paths → simple p;
  kb_NoDup : NoDup paths;
  kb_sorted : StronglySorted cost_le paths;
  kb_best p q : p ∈ paths → simple q → q ∉ paths → cost_le p q;
}.

(** The loop invariant; the prefixes of the last path are covered by the next
    pass over its spur nodes. *)
Record yen_inv (paths cands : list (list Z)) (previous : list Z) : Prop := {
  yi_best : k_best paths;
  yi_last : last paths = Some previous;
  yi_cands c : c ∈ cands → simple c;
  yi_covered L p : (0 < L)%nat → p ∈ paths → (L < length p)%nat →
    take L p ≠ take L previous → covered paths cands L (take L p);
}.

Lemma covered_mono paths cands cands' L root :
  cands ⊆ cands' → covered paths cands L root → covered paths cands' L root.
Proof. intros Hsub Hc q Hq. destruct (Hc q Hq) as (c & ? & ?). exists c. auto. Qed.

(** After the pass, everything is covered. *)
Lemma spur_candidates_spec paths cands previous :
  yen_inv paths cands previous →
  ∃ cands', spur_candidates g target w paths cands previous = Ok cands' ∧
    (∀ c, c ∈ cands' → simple c) ∧
    (∀ L p, (0 < L)%nat → p ∈ paths → (L < length p)%nat → covered paths cands' L (take L p)).
Proof.
  intros [[Hs _ _ _] Hl Hc Hcov].
  assert (Hprev : previous ∈ paths) by by apply last_Some_elem_of.
  destruct (spur_candidates_fold paths previous (seq 0 (pred (length previous))) cands Hs Hprev)
    as (cands' & Hf & Hsub & Hsc & Hcv); [|done|].
  { intros i [_ Hi]%elem_of_seq. lia. }
  exists cands'. split_and!; [exact Hf|done|]. intros L p HL Hp HLp.
  destruct (decide (take L p = take L previous)) as [Heq|Hne].
  - destruct L as [|i]; [lia|]. rewrite Heq. apply Hcv. apply elem_of_seq.
    assert (Hlp : (S i < length previous)%nat); [|lia].
    by apply (root_proper paths p i Hs Hp HLp previous Hprev).
  - eapply covered_mono; [exact Hsub|by apply Hcov].
Qed.

#[local] Instance key_le_trans : Transitive (key_le w).
Proof.
  assert (Ht : ∀ p q r, list_le p q → list_le q r → list_le p r).
  { induction p as [|a p IH]; intros [|b q] [|c r] Hpq Hqr; try done.
    revert Hpq Hqr. rewrite !list_le_cons. intros [?|[-> ?]] [?|[-> ?]]; [left; lia..|].
    right. split; [done|]. by eapply IH. }
  intros p q r [?|[? ?]] [?|[? ?]]; unfold key_le; [left; lia..|].
  right. split; [lia|]. by eapply Ht.
Qed.

#[local] Instance key_le_total : Total (key_le w).
Proof.
  assert (Ht : ∀ p q, list_le p q ∨ list_le q p).
  { induction p as [|a p IH]; intros [|b q]; [by left|by left|by right|].
    rewrite !list_le_cons.
    destruct (Z.lt_trichotomy a b) as [?|[->|?]]; [auto| |auto].
    destruct (IH q); auto. }
  intros p q. unfold key_le. destruct (Ht p q); destruct (Z.lt_trichotomy (path_cost p w) (path_cost q w)); naive_solver lia.
Qed.

(** The popped candidate is a cheapest one. *)
Lemma pop_cheapest cands next rest :
  merge_sort (key_le w) cands = next :: rest →
  next ∈ cands ∧ rest ⊆ cands ∧ (∀ c, c ∈ cands → c = next ∨ c ∈ rest) ∧
  (∀ c, c ∈ cands → cost_le next c).
Proof.
  intros Hm. pose proof (merge_sort_Permutation (key_le w) cands) as Hp. rewrite Hm in Hp.
  assert (Hin : ∀ c, c ∈ cands ↔ c = next ∨ c ∈ rest).
  { intros c. by rewrite <- Hp, elem_of_cons. }
  pose proof (StronglySorted_merge_sort (key_le w) cands) as Hss. rewrite Hm in Hss.
  apply StronglySorted_inv in Hss as [_ Hf]. rewrite Forall_forall in Hf.
  split_and!; [apply Hin; by left|intros c ?; apply Hin; by right|intros c; apply Hin|].
  intros c [->|Hc]%Hin; unfold cost_le; [lia|]. destruct (Hf c Hc) as [?|[? _]]; lia.
Qed.

Lemma StronglySorted_snoc (R : relation (list Z)) l x :
  StronglySorted R l → (∀ y, y ∈ l → R y x) → StronglySorted R (l ++ [x]).
Proof.
  induction 1 as [|y l Hl IH Hy]; intros Hx; simpl; [by repeat constructor|].
  constructor; [apply IH; intros; apply Hx; by right|].
  apply Forall_app. split; [done|]. constructor; [apply Hx; by left|constructor].
Qed.

(** Appending a new cheapest candidate keeps the invariant. *)
Lemma yen_inv_pop paths cands previous next rest :
  yen_inv paths cands previous →
  (∀ c, c ∈ cands → simple c) →
  (∀ L p, (0 < L)%nat → p ∈ paths → (L < length p)%nat → covered paths cands L (take L p)) →
  merge_sort (key_le w) cands = next :: rest →
  ∃ previous', yen_inv (if decide (next ∈ paths) then paths else paths ++ [next]) rest previous'.
Proof.
  intros [Hb Hl _ _] Hc Hcov Hm.
  destruct (pop_cheapest cands next rest Hm) as (Hn & Hsub & Hrest & Hmin).
  case_decide as Hin.
  - exists previous. constructor; [done..|by auto|]. intros L p HL Hp HLp _ q Hq.
    destruct (Hcov L p HL Hp HLp q Hq) as (c & Hcin & Hdev & ?).
    exists c. split_and!; [|done..]. destruct (Hrest c Hcin) as [->|]; [|done].
    destruct Hdev as (_ & Hr & Hdev). by destruct (Hdev next Hin Hr).
  - exists next. destruct Hb as [Hs Hnd Hso Hbest]. constructor; [constructor|..].
    + intros p [?| ->%list_elem_of_singleton]%elem_of_app; auto.
    + apply NoDup_app. split_and!; [done|by intros p ? ->%list_elem_of_singleton|apply NoDup_singleton].
    + apply StronglySorted_snoc; [done|]. intros p Hp. by apply Hbest; auto.
    + intros p q Hp Hq [Hqp Hqn]%not_elem_of_app.
      apply elem_of_app in Hp as [Hp| ->%list_elem_of_singleton]; [by apply Hbest|].
      destruct (covered_all paths cands q) as (c & Hcin & ?); try done.
      { intros ->. done. }
      specialize (Hmin c Hcin). unfold cost_le in *. lia.
    + by rewrite last_snoc.
    + auto.
    + intros L p HL Hp HLp Hne q (Hq & Hqr & Hqd).
      apply elem_of_app in Hp as [Hp| ->%list_elem_of_singleton]; [|done].
      destruct (Hcov L p HL Hp HLp q) as (c & Hcin & (Hcs & Hcr & Hcd) & ?).
      { split_and!; [done..|]. intros p' Hp'. apply Hqd, elem_of_app. by left. }
      exists c. split_and!; [|split_and!; [done..|]|done].
      * destruct (Hrest c Hcin) as [->|]; [congruence|done].
      * intros p' [Hp'| ->%list_elem_of_singleton]%elem_of_app Hr'; [by apply Hcd|congruence].
Qed.

Lemma yen_rounds_spec rounds paths cands previous :
  yen_inv paths cands previous →
  ∃ r, yen_rounds rounds g target w paths cands = Ok r ∧ k_best r ∧ r ≠ [] ∧
    (length r ≤ length paths + rounds)%nat.
Proof.
  revert paths cands previous. induction rounds as [|rounds IH]; intros paths cands previous Hi.
  { exists paths. split_and!; [done|apply Hi| |lia]. intros ->. by destruct Hi. }
  assert (Hlast : py_getitem paths (-1) = Ok previous).
  { pose proof (yi_last _ _ _ Hi) as Hl. rewrite last_lookup in Hl.
    pose proof (lookup_lt_Some _ _ _ Hl). unfold py_getitem, py_index.
    rewrite decide_False, decide_True by lia. simpl.
    replace (Z.to_nat (Z.of_nat (length paths) + -1)) with (pred (length paths)) by lia.
    by rewrite Hl. }
  cbn [yen_rounds]. rewrite Hlast. cbn [mbind res_bind].
  destruct (spur_candidates_spec paths cands previous Hi) as (cands' & -> & Hs & Hcov).
  cbn [mbind res_bind]. destruct (merge_sort (key_le w) cands') as [|next rest] eqn:Hm.
  { exists paths. split_and!; [done|apply Hi| |lia]. intros ->. by destruct Hi. }
  destruct (yen_inv_pop paths cands' previous next rest) as [previous' Hi']; [|done..|].
  { destruct Hi. constructor; auto. }
  destruct (IH _ _ _ Hi') as (r & Hr & Hk & Hne & Hlen).
  exists r. split_and!; [done..|]. case_decide; [lia|]. rewrite length_app in Hlen. simpl in Hlen. lia.
Qed.
End yen.

(** * Properties *)

Lemma usable_all g target u v : usable g target ∅ ∅ u v ↔ adjacent g u v.
Proof. unfold usable. set_solver. Qed.

(** C38: [k_shortest_paths] never fails; it returns at most [k_paths] distinct
    loop-free paths in order of cost, none of the loop-free paths it leaves out
    is cheaper than a returned one, and it returns nothing only when the target
    is unreachable. *)
Theorem k_shortest_paths_spec g source target k w :
  graph_closed g → is_Some (g !! source) → nonneg_weight w →
  ∃ r, k_shortest_paths g source target k w = Ok r ∧
    (length r ≤ Z.to_nat k)%nat ∧
    (1 ≤ k → k_best g w source target r ∧
             (r = [] ↔ ∀ q, ¬ is_path (adjacent g) source target q)).
Proof.
  intros Hg Hs Hw.
  destruct (shortest_path_spec g source target ∅ ∅ w Hg Hs Hw) as (o & Ho & Hres).
  assert (HE : ∀ p, is_path (usable g target ∅ ∅) source target p ↔ is_path (adjacent g) source target p).
  { intros p. unfold is_path. split; intros (? & ? & Hc); split_and!; try done;
      eapply chain_impl; try exact Hc; intros ??; apply usable_all. }
  unfold k_shortest_paths. rewrite Ho. cbn [mbind res_bind].
  destruct o as [first|].
  - destruct Hres as (Hp & Hnd & Hmin). apply HE in Hp.
    destruct first as [|x first]; [by destruct Hp|]. set (p0 := x :: first) in *.
    assert (Hi : yen_inv g w source target [p0] [] p0).
    { constructor; [constructor|done|by intros ? ?%elem_of_nil|].
      - intros p ->%list_elem_of_singleton. by split.
      - apply NoDup_singleton.
      - by repeat constructor.
      - intros p q ->%list_elem_of_singleton [Hq _] _. apply Hmin. by apply HE.
      - intros L p _ ->%list_elem_of_singleton _ ?. done. }
    destruct (yen_rounds_spec g w source target Hg Hw (Z.to_nat (k - 1)) _ _ _ Hi)
      as (r & -> & Hk & Hne & Hlen). cbn [mbind res_bind]. simpl in Hlen.
    eexists. split; [done|]. unfold py_take. destruct (decide (1 ≤ k)) as [Hk1|Hk1].
    + rewrite decide_True, take_ge by lia. split; [lia|]. intros _. split; [done|].
      split; [done|]. intros Hno. by destruct (Hno p0).
    + split; [|lia]. assert (length r ≤ 1)%nat by lia. case_decide; rewrite length_take; lia.
  - exists []. split; [done|]. split; [simpl; lia|]. intros _. split.
    + constructor; [by intros ? ?%elem_of_nil|constructor|constructor|by intros ? ? ?%elem_of_nil].
    + split; [|done]. intros _ q Hq%HE. by apply (Hres q).
Qed.

Lemma k_shortest_paths_spec_witness :
  ∃ r, k_shortest_paths square 0 3 3 unit_weight = Ok r ∧ (length r ≤ Z.to_nat 3)%nat ∧
    (1 ≤ 3 → k_best square unit_weight 0 3 r ∧
             (r = [] ↔ ∀ q, ¬ is_path (adjacent square) 0 3 q)).
Proof.
  apply (k_shortest_paths_spec square 0 3 3 unit_weight).
  - apply graph_closedb_sound. vm_compute. reflexivity.
  - by eexists.
  - exact unit_weight_nonneg.
Defined.

(** A five-node graph with exactly four loop-free paths from 0 to 4. *)
Definition ladder : graph :=
  {[0 := {[1; 3]}; 1 := {[0; 2; 3; 4]}; 2 := {[1; 4]}; 3 := {[0; 1]}; 4 := {[1; 2]}]}.

(** A request for [k] paths can return fewer although more exist. The
    candidate list keeps duplicates, and a round that pops a duplicate is spent
    without adding a path: on [ladder], [k = 4] returns three paths and leaves
    out the loop-free path 0-3-1-2-4. *)
Theorem k_shortest_paths_short :
  k_shortest_paths ladder 0 4 4 unit_weight = Ok [[0; 1; 4]; [0; 1; 2; 4]; [0; 3; 1; 4]] ∧
  simple ladder 0 4 [0; 3; 1; 2; 4].
Proof.
  split; [vm_compute; reflexivity|]. split.
  - split_and!; [done..|]. simpl. split_and!; [..|done];
      apply adjacent_alt; apply (bool_decide_unpack _); vm_compute; exact I.
  - apply (bool_decide_unpack _). vm_compute. exact I.
Qed.
