(* ===== verification/KCenters.v ===== *)
(** Component: distance maps and the greedy k-centers selection of
    src/core/graph.py ([compute_distances], [select_k_centers]).  The cache
    placement calls [select_k_centers]; its specification is the classical
    2-approximation bound of farthest-first traversal. *)
From S2P Require Import Prelude Graph.
Local Open Scope Z_scope.

(** * Breadth-first distances *)

(** The local variables [distances] and [queue]. *)
Record bfs := mkBfs { b_dist : gmap Z Z; b_queue : list Z }.

(** One iteration of [for neighbor in sorted(graph.get(node, []))]. *)
Definition bfs_visit (node : Z) (st : bfs) (neighbor : Z) : res bfs :=
  match b_dist st !! neighbor with
  | Some _ => Ok st
  | None =>
      match b_dist st !! node with
      | Some d => Ok (mkBfs (<[neighbor := d + 1]> (b_dist st)) (b_queue st ++ [neighbor]))
      | None => raise EKeyError (str_Z node)
      end
  end.

(** [while queue: ...]. *)
Fixpoint bfs_loop (fuel : nat) (g : graph) (st : bfs) : res (gmap Z Z) :=
  match fuel with
  | O => NoFuel
  | S fuel =>
      match b_queue st with
      | [] => Ok (b_dist st)
      | node :: queue =>
          ns ← neighbors_get g node;
          st ← foldM (bfs_visit node) (mkBfs (b_dist st) queue) ns;
          bfs_loop fuel g st
      end
  end.

(** [compute_distances]; [None] is [weight_fn=None] (the BFS branch). *)
Definition compute_distances (g : graph) (source : Z) (weight_fn : option (Z → Z → Z))
    : res (gmap Z Z) :=
  match weight_fn with
  | None => bfs_loop (search_fuel g) g (mkBfs {[source := 0]} [source])
  | Some w =>
      st ← search_loop (neighbors_get g) (λ _ _, false) (λ _, false) w
             (search_fuel g) (search_init source);
      Ok (distances st)
  end.

(** * Farthest-first selection *)

(** A distance that may be [float("inf")]. *)
Abbreviation edist := (option Z).

Definition edist_lt (a b : edist) : bool :=
  match a, b with
  | Some x, Some y => x <? y
  | Some _, None => true
  | None, _ => false
  end.

(** [min(a, b)]: the first argument unless the second is smaller. *)
Definition edist_min (a b : edist) : edist := if edist_lt b a then b else a.

(** [min_dist.get(node, float("inf"))]. *)
Definition get_inf (m : gmap Z edist) (node : Z) : edist := default None (m !! node).

(** The key [(min_dist.get(node, inf), -node)] of [a] is below that of [b]. *)
Definition key_lt (m : gmap Z edist) (a b : Z) : bool :=
  edist_lt (get_inf m a) (get_inf m b)
  || (bool_decide (get_inf m a = get_inf m b) && (- a <? - b)).

(** [max(nodes, key=...)]: the first maximal node. *)
Definition max_key (m : gmap Z edist) (first : Z) (rest : list Z) : Z :=
  foldl (λ best n, if key_lt m best n then n else best) first rest.

(** [for node in nodes: min_dist[node] = min(min_dist.get(..), dist_map.get(..))]. *)
Definition update_min_dist (nodes : list Z) (dist_map : gmap Z Z) (m : gmap Z edist)
    : gmap Z edist :=
  foldl (λ m node, <[node := edist_min (get_inf m node) (dist_map !! node)]> m) m nodes.

(** [while len(centers) < k: ...]; a round per node is enough, see
    [center_rounds_spec]. *)
Fixpoint center_rounds (fuel : nat) (g : graph) (k : Z) (w : option (Z → Z → Z))
    (first : Z) (rest : list Z) (centers : list Z) (m : gmap Z edist) : res (list Z) :=
  match fuel with
  | O => NoFuel
  | S fuel =>
      if decide (Z.of_nat (length centers) < k) then
        let farthest := max_key m first rest in
        if decide (farthest ∈ centers) then Ok centers else
        dist_map ← compute_distances g farthest w;
        center_rounds fuel g k w first rest (centers ++ [farthest])
          (update_min_dist (first :: rest) dist_map m)
      else Ok centers
  end.

(** [select_k_centers]. *)
Definition select_k_centers (g : graph) (k : Z) (w : option (Z → Z → Z)) (exclude : gset Z)
    : res (list Z) :=
  match filter (λ n, n ∉ exclude) (sorted_set (dom g)) with
  | [] => Ok []
  | first :: rest =>
      if decide (k ≤ 0) then Ok [] else
      d ← compute_distances g first w;
      center_rounds (S (S (length rest))) g k w first rest [first] (Some <$> d)
  end.

Example select_k_centers_run :
  select_k_centers example_graph 3 None {[0]} = Ok [1; 4; 3].
Proof. vm_compute. reflexivity. Qed.
Example compute_distances_run :
  compute_distances example_graph 3 None = Ok {[0 := 2; 1 := 2; 2 := 1; 3 := 0]}.
Proof. vm_compute. reflexivity. Qed.

(** * Correctness of the breadth-first search *)

Section bfs_correct.
Context (g : graph) (source : Z).

Abbreviation bwalk := (walk (adjacent g) unit_weight source).

(** [F]: the expanded nodes; [m]: the distance of the last one; [C]: the edges
    whose visit is done. *)
Record binv (F : list Z) (m : Z) (C : Z → Z → Prop) (st : bfs) : Prop := {
  bi_source : b_dist st !! source = Some 0;
  bi_sound v d : b_dist st !! v = Some d → bwalk v d;
  bi_queue v : v ∈ b_queue st ↔ is_Some (b_dist st !! v) ∧ v ∉ F;
  bi_NoDup : NoDup (b_queue st);
  bi_F u : u ∈ F → ∃ d, b_dist st !! u = Some d ∧ d ≤ m;
  bi_level v d : v ∈ b_queue st → b_dist st !! v = Some d → m ≤ d ≤ m + 1;
  bi_sorted : StronglySorted (λ a b, ∀ da db, b_dist st !! a = Some da →
                b_dist st !! b = Some db → da ≤ db) (b_queue st);
  bi_closed u v : u ∈ F → adjacent g u v → C u v →
    ∃ du dv, b_dist st !! u = Some du ∧ b_dist st !! v = Some dv ∧ dv ≤ du + 1;
}.

Lemma StronglySorted_snoc_gen {A} (R : relation A) l x :
  StronglySorted R l → (∀ y, y ∈ l → R y x) → StronglySorted R (l ++ [x]).
Proof.
  induction 1 as [|y l Hl IH Hy]; intros Hx; simpl; [by repeat constructor|].
  constructor; [apply IH; intros; apply Hx; by right|].
  apply Forall_app. split; [done|]. constructor; [apply Hx; by left|constructor].
Qed.

Lemma StronglySorted_impl_in {A} (R S : relation A) l :
  (∀ x y, x ∈ l → y ∈ l → R x y → S x y) → StronglySorted R l → StronglySorted S l.
Proof.
  intros H. induction 1 as [|x l Hl IH Hx]; [constructor|]. constructor.
  - apply IH. intros. apply H; [by right..|done].
  - rewrite Forall_forall in *. intros y Hy. apply H; [by left|by right|by apply Hx].
Qed.

Lemma binv_visit F m C st n v :
  binv F m C st → n ∈ F → b_dist st !! n = Some m → adjacent g n v →
  ∃ st', bfs_visit n st v = Ok st' ∧ binv F m (λ a b, C a b ∨ (a = n ∧ b = v)) st' ∧
    b_dist st' !! n = Some m ∧ (length (b_queue st') ≤ S (length (b_queue st)))%nat.
Proof.
  intros Hi Hn Hm Hadj. unfold bfs_visit. destruct (b_dist st !! v) as [dv|] eqn:Hv.
  - exists st. split_and!; [done| |done|lia]. destruct Hi. constructor; eauto.
    intros a b Ha Hab [?|[-> ->]]; [by eauto|]. exists m, dv. split_and!; [done..|].
    destruct (decide (v ∈ F)) as [HvF|HvF].
    + destruct (bi_F0 v HvF) as (d & ? & ?). simplify_eq. lia.
    + assert (m ≤ dv ≤ m + 1); [|lia]. eapply bi_level0; [|done]. apply bi_queue0.
      split; [by eexists|done].
  - rewrite Hm. eexists. split; [done|].
    assert (HvF : v ∉ F). { intros HvF. destruct (bi_F _ _ _ _ Hi v HvF) as (? & ? & _). congruence. }
    assert (Hvq : v ∉ b_queue st). { rewrite (bi_queue _ _ _ _ Hi), Hv. intros [[? ?] _]. done. }
    assert (Hvn : v ≠ n) by congruence.
    split_and!; [|simpl; by rewrite lookup_insert_ne|simpl; rewrite length_app; simpl; lia].
    destruct Hi. constructor; simpl.
    + rewrite lookup_insert_ne; [done|congruence].
    + intros x d. rewrite lookup_insert. case_decide as Hx; [|by auto].
      intros [= <-]. subst x. change 1 with (unit_weight n v). constructor; [by auto|done].
    + intros x. rewrite elem_of_app, list_elem_of_singleton, bi_queue0, lookup_insert.
      case_decide as Hx; [subst x|naive_solver].
      split; [intros _; split; [by eexists|done]|by right].
    + apply NoDup_app. split_and!; [done| |apply NoDup_singleton].
      by intros x Hx ->%list_elem_of_singleton.
    + intros u Hu. rewrite lookup_insert_ne by congruence. by apply bi_F0.
    + intros x d. rewrite elem_of_app, list_elem_of_singleton, lookup_insert.
      case_decide as Hx; [intros _ [= <-]; lia|]. intros [?| ->]; [by apply bi_level0|done].
    + apply StronglySorted_snoc_gen.
      * eapply StronglySorted_impl_in; [|exact bi_sorted0]. intros x y Hx Hy Hxy da db.
        rewrite !lookup_insert_ne by congruence. apply Hxy.
      * intros y Hy da db. rewrite lookup_insert_ne by congruence. rewrite lookup_insert_eq.
        intros Hda [= <-]. apply (bi_level0 y da Hy Hda).
    + intros a b Ha Hab Hc. rewrite lookup_insert_ne by congruence.
      rewrite lookup_insert. case_decide as Hb.
      * subst b. destruct Hc as [Hc|[-> _]]; [|by exists m, (m + 1)].
        destruct (bi_closed0 a v Ha Hab Hc) as (? & ? & _ & ? & _). congruence.
      * destruct Hc as [Hc|[-> ->]]; [by auto|done].
Qed.

Lemma binv_visit_all F m ns C st n :
  binv F m C st → n ∈ F → b_dist st !! n = Some m → (∀ v, v ∈ ns → adjacent g n v) →
  ∃ st', foldM (bfs_visit n) st ns = Ok st' ∧ binv F m (λ a b, C a b ∨ (a = n ∧ b ∈ ns)) st' ∧
    (length (b_queue st') ≤ length ns + length (b_queue st))%nat.
Proof.
  revert C st. induction ns as [|v ns IH]; intros C st Hi Hn Hm Hns.
  - exists st. split_and!; [done| |simpl; lia]. destruct Hi; constructor; eauto.
    intros a b ? ? [?|[_ []%elem_of_nil]]. eauto.
  - destruct (binv_visit F m C st n v Hi Hn Hm) as (st1 & E1 & Hi1 & Hm1 & Hl1).
    { apply Hns. by left. }
    destruct (IH _ st1 Hi1 Hn Hm1) as (st2 & E2 & Hi2 & Hl2). { intros. apply Hns. by right. }
    exists st2. cbn [foldM]. rewrite E1. cbn [mbind res_bind]. split_and!; [done| |simpl in *; lia].
    destruct Hi2; constructor; eauto. intros a b Ha Hab [?|[-> [->|?]%elem_of_cons]]; eauto 6.
Qed.

Lemma binv_pop F m st n q :
  binv F m (λ _ _, True) st → b_queue st = n :: q →
  ∃ d, b_dist st !! n = Some d ∧ n ∉ F ∧ binv (n :: F) d (λ a _, a ≠ n) (mkBfs (b_dist st) q).
Proof.
  intros Hi Hq. destruct (proj1 (bi_queue _ _ _ _ Hi n)) as [[d Hd] HnF].
  { rewrite Hq. by left. }
  assert (Hmd : m ≤ d ≤ m + 1) by (eapply (bi_level _ _ _ _ Hi); [rewrite Hq; by left|done]).
  exists d. split_and!; [done..|]. destruct Hi. rewrite Hq in *.
  apply NoDup_cons in bi_NoDup0 as [Hnq Hndq].
  apply StronglySorted_inv in bi_sorted0 as [Hss Hf]. rewrite Forall_forall in Hf.
  constructor; simpl; try done.
  - intros v. rewrite not_elem_of_cons. split.
    + intros Hv. destruct (proj1 (bi_queue0 v)) as [? ?]; [by right|].
      split_and!; [done|by intros ->|done].
    + intros (Hs & Hne & HvF). pose proof (proj2 (bi_queue0 v) (conj Hs HvF)) as [->|?]%elem_of_cons; done.
  - intros u [->|Hu]%elem_of_cons; [exists d; split; [done|lia]|].
    destruct (bi_F0 u Hu) as (du & ? & ?). exists du. split; [done|lia].
  - intros v dv Hv Hdv. specialize (Hf v Hv d dv Hd Hdv).
    assert (m ≤ dv ≤ m + 1); [|lia]. by eapply bi_level0; [right|].
  - intros a b [->|Ha]%elem_of_cons ? ?; [done|]. by apply bi_closed0.
Qed.

Lemma degree_left_get F n :
  n ∉ F → degree_left g F = (size (default ∅ (g !! n)) + degree_left g (n :: F))%nat.
Proof.
  intros HF. destruct (g !! n) as [ns|] eqn:Hn.
  - by apply degree_left_cons.
  - change (size (default ∅ None)) with (size (∅ : gset Z)). rewrite size_empty.
    unfold degree_left. simpl. rewrite delete_id; [done|].
    by rewrite lookup_foldr_delete_not_elem_of.
Qed.

Lemma bfs_loop_spec fuel F m st :
  binv F m (λ _ _, True) st → (length (b_queue st) + degree_left g F < fuel)%nat →
  ∃ F' m' d, bfs_loop fuel g st = Ok d ∧ binv F' m' (λ _ _, True) (mkBfs d []).
Proof.
  revert F m st. induction fuel as [|fuel IH]; intros F m st Hi Hfuel; [lia|]. cbn [bfs_loop].
  destruct (b_queue st) as [|n q] eqn:Hq.
  { exists F, m, (b_dist st). split; [done|]. rewrite <- Hq. by destruct st. }
  destruct (binv_pop F m st n q Hi Hq) as (d & Hd & HnF & Hi').
  unfold neighbors_get. cbn [mbind res_bind].
  destruct (binv_visit_all (n :: F) d (sorted_set (default ∅ (g !! n))) _ _ n Hi')
    as (st2 & -> & Hi2 & Hl2); [by left|done| |].
  { intros v Hv%elem_of_sorted_set. by apply adjacent_alt. }
  cbn [mbind res_bind]. apply (IH (n :: F) d).
  - clear Hl2. destruct Hi2. constructor; eauto. intros a b Ha Hab _. apply bi_closed0; [done..|].
    destruct (decide (a = n)) as [->|]; [right|by left]. split; [done|].
    apply elem_of_sorted_set. by apply adjacent_alt.
  - rewrite length_sorted_set in Hl2. pose proof (degree_left_get F n HnF). simpl in *. lia.
Qed.

Lemma binv_init : binv [] 0 (λ _ _, True) (mkBfs {[source := 0]} [source]).
Proof.
  constructor; simpl.
  - by simplify_map_eq.
  - intros v d [<- <-]%lookup_singleton_Some. constructor.
  - intros v. rewrite list_elem_of_singleton, lookup_singleton_is_Some. set_solver.
  - apply NoDup_singleton.
  - by intros u ?%elem_of_nil.
  - intros v d ->%list_elem_of_singleton. rewrite lookup_singleton_eq. intros [= <-]. lia.
  - repeat constructor.
  - by intros u v ?%elem_of_nil.
Qed.
End bfs_correct.

(** A search that ended has the distances of all nodes it can reach. *)
Lemma binv_done g source F m d : binv g source F m (λ _ _, True) (mkBfs d []) →
  (∀ v c, walk (adjacent g) unit_weight source v c → ∃ x, d !! v = Some x ∧ x ≤ c) ∧
  ∀ v x, d !! v = Some x ↔ shortest_cost (adjacent g) unit_weight source v x.
Proof.
  intros Hi.
  assert (Hle : ∀ v c, walk (adjacent g) unit_weight source v c → ∃ x, d !! v = Some x ∧ x ≤ c).
  { induction 1 as [|u v c _ (x & Hx & ?) Hadj].
    - exists 0. split; [apply Hi|lia].
    - destruct (bi_closed _ _ _ _ _ _ Hi u v) as (du & dv & Hdu & Hdv & ?); [|done..|].
      + destruct (decide (u ∈ F)) as [|HuF]; [done|].
        assert (Hu : u ∈ @nil Z) by (apply (bi_queue _ _ _ _ _ _ Hi u); split; [by eexists|done]).
        by apply elem_of_nil in Hu.
      + simpl in *. simplify_eq. exists dv. split; [done|]. unfold unit_weight. lia. }
  split; [done|]. intros v x. split.
  - intros Hx. pose proof (bi_sound _ _ _ _ _ _ Hi v x Hx) as Hw. split; [by apply walk_path|].
    intros p Hp%(path_walk _ unit_weight). destruct (Hle v _ Hp) as (? & ? & ?). by simplify_eq.
  - intros [(p & Hp & <-) Hmin]. destruct (Hle v _ (path_walk _ _ _ _ _ Hp)) as (x & Hx & ?).
    destruct (walk_path _ _ _ _ _ (bi_sound _ _ _ _ _ _ Hi v x Hx)) as (q & Hq & Hqc).
    specialize (Hmin q Hq). rewrite Hx. f_equal. lia.
Qed.

Lemma bfs_spec g source :
  ∃ d, compute_distances g source None = Ok d ∧
    (∀ v c, walk (adjacent g) unit_weight source v c → ∃ x, d !! v = Some x ∧ x ≤ c) ∧
    ∀ v x, d !! v = Some x ↔ shortest_cost (adjacent g) unit_weight source v x.
Proof.
  destruct (bfs_loop_spec g source (search_fuel g) [] 0 _ (binv_init g source))
    as (F & m & d & Hd & Hi). { unfold search_fuel, degree_left. simpl. lia. }
  exists d. split; [exact Hd|]. by eapply binv_done.
Qed.

(** * Balls *)

(** [y] is within [r] hops of [x]. *)
Definition within (g : graph) (x y r : Z) : Prop :=
  ∃ c, walk (adjacent g) unit_weight x y c ∧ c ≤ r.

Definition symmetric_graph (g : graph) : Prop := ∀ u v, adjacent g u v → adjacent g v u.

Lemma walk_trans E w x y z a b : walk E w x y a → walk E w y z b → walk E w x z (a + b).
Proof.
  intros Ha. induction 1 as [|u v c _ IH He]; [by rewrite Z.add_0_r|].
  rewrite Z.add_assoc. by constructor.
Qed.

Lemma walk_sym g x y a :
  symmetric_graph g → walk (adjacent g) unit_weight x y a → walk (adjacent g) unit_weight y x a.
Proof.
  intros Hg. induction 1 as [|u v c _ IH He]; [constructor|].
  replace (c + unit_weight u v) with (0 + unit_weight v u + c) by (unfold unit_weight; lia).
  eapply walk_trans; [|exact IH]. constructor; [constructor|by apply Hg].
Qed.

Lemma unit_walk_0 g x y c : walk (adjacent g) unit_weight x y c → c ≤ 0 → x = y.
Proof.
  induction 1 as [|u v c Hw IH He]; [done|]. unfold unit_weight. intros.
  eapply walk_nonneg in Hw; [lia|]. intros. unfold unit_weight. lia.
Qed.

Lemma within_refl g x r : 0 ≤ r → within g x x r.
Proof. exists 0. split; [constructor|done]. Qed.

Lemma within_trans g x y z a b : within g x y a → within g y z b → within g x z (a + b).
Proof.
  intros (c & ? & ?) (d & ? & ?). exists (c + d). split; [by eapply walk_trans|lia].
Qed.

Lemma within_sym g x y r : symmetric_graph g → within g x y r → within g y x r.
Proof. intros Hg (c & ? & ?). exists c. split; [by apply walk_sym|done]. Qed.

Lemma within_nonneg g x y r : within g x y r → 0 ≤ r.
Proof.
  intros (c & Hw & ?). eapply walk_nonneg in Hw; [lia|]. intros. unfold unit_weight. lia.
Qed.

(** An extended distance is at most [r]. *)
Definition e_le (e : edist) (r : Z) : Prop := match e with Some d => d ≤ r | None => False end.

#[export] Instance e_le_dec e r : Decision (e_le e r).
Proof. destruct e; simpl; apply _. Defined.

Lemma e_le_min a b r : e_le (edist_min a b) r ↔ e_le a r ∨ e_le b r.
Proof.
  unfold edist_min, edist_lt. destruct a as [x|], b as [y|]; simpl; try tauto.
  destruct (Z.ltb_spec y x); simpl; lia.
Qed.

Lemma bfs_within g source d :
  compute_distances g source None = Ok d → ∀ v r, within g source v r ↔ e_le (d !! v) r.
Proof.
  destruct (bfs_spec g source) as (d' & Hd' & Hle & Hspec). rewrite Hd'. intros [= <-] v r. split.
  - intros (c & (x & -> & ?)%Hle & ?). simpl. lia.
  - destruct (d' !! v) as [x|] eqn:Hx; simpl; [|done]. intros ?.
    apply Hspec in Hx as [(p & Hp & <-) _]. exists (path_cost p unit_weight).
    split; [by apply path_walk|done].
Qed.

(** * Farthest-first selection *)

Section centers.
Context (g : graph) (first : Z) (rest : list Z).
Hypothesis nodes_NoDup : NoDup (first :: rest).
Abbreviation nodes := (first :: rest).

(** [m] holds, for every node, its distance to the nearest center. *)
Definition nearest (centers : list Z) (m : gmap Z edist) : Prop :=
  ∀ n, n ∈ nodes → ∀ r, (∃ c, c ∈ centers ∧ within g c n r) ↔ e_le (get_inf m n) r.

(** Two centers are at least as far apart as any node is from the centers. *)
Definition spread (centers : list Z) (m : gmap Z edist) : Prop :=
  ∀ i j a b, (i < j)%nat → centers !! i = Some a → centers !! j = Some b →
    ∀ n r, n ∈ nodes → within g a b r → e_le (get_inf m n) r.

Lemma key_lt_spec m a b :
  (key_lt m a b = true → ∀ r, e_le (get_inf m b) r → e_le (get_inf m a) r) ∧
  (key_lt m a b = false → ∀ r, e_le (get_inf m a) r → e_le (get_inf m b) r).
Proof.
  unfold key_lt. split; intros H r.
  - apply orb_true_iff in H as [H|[H _]%andb_true_iff].
    + destruct (get_inf m a), (get_inf m b); simpl in *; try done.
      apply Z.ltb_lt in H. lia.
    + apply bool_decide_eq_true in H. by rewrite H.
  - apply orb_false_iff in H as [H _].
    destruct (get_inf m a), (get_inf m b); simpl in *; try done.
    apply Z.ltb_ge in H. lia.
Qed.

Lemma max_key_spec m :
  max_key m first rest ∈ nodes ∧
  ∀ n r, n ∈ nodes → e_le (get_inf m (max_key m first rest)) r → e_le (get_inf m n) r.
Proof.
  clear nodes_NoDup. revert first. unfold max_key.
  induction rest as [|x xs IH]; intros f; simpl.
  { split; [by left|]. by intros n r ->%list_elem_of_singleton. }
  destruct (key_lt m f x) eqn:Hk.
  - destruct (IH x) as [Hin Hmax]. split; [by right|].
    intros n r [->|Hn]%elem_of_cons He; [|by apply Hmax].
    eapply (proj1 (key_lt_spec m f x) Hk), Hmax; [by left|done].
  - destruct (IH f) as [Hin Hmax]. split.
    + apply elem_of_cons in Hin as [Hin|Hin]; rewrite !elem_of_cons; auto.
    + intros n r [->|[->|Hn]%elem_of_cons]%elem_of_cons He.
      * apply Hmax; [by left|done].
      * eapply (proj2 (key_lt_spec m f x) Hk), Hmax; [by left|done].
      * apply Hmax; [by right|done].
Qed.

Lemma update_min_dist_lookup ns dm m n r :
  NoDup ns → n ∈ ns →
  e_le (get_inf (update_min_dist ns dm m) n) r ↔ e_le (get_inf m n) r ∨ e_le (dm !! n) r.
Proof.
  assert (Hother : ∀ l m, n ∉ l → get_inf (update_min_dist l dm m) n = get_inf m n).
  { induction l as [|x ns' IH]; intros m'; [done|]. intros [Hne Hn]%not_elem_of_cons.
    unfold update_min_dist in *. simpl. rewrite IH by done. unfold get_inf.
    by rewrite lookup_insert_ne. }
  intros Hnd. revert m. induction Hnd as [|x ns' Hx Hnd IH]; intros m' Hn; [by apply elem_of_nil in Hn|].
  change (update_min_dist (x :: ns') dm m') with
    (update_min_dist ns' dm (<[x := edist_min (get_inf m' x) (dm !! x)]> m')).
  apply elem_of_cons in Hn as [->|Hn].
  - rewrite Hother by done. unfold get_inf at 1. rewrite lookup_insert_eq. simpl. apply e_le_min.
  - rewrite IH by done. unfold get_inf. rewrite lookup_insert_ne by congruence. done.
Qed.

(** The loop invariant of the selection. *)
Record cinv (k : Z) (centers : list Z) (m : gmap Z edist) : Prop := {
  ci_nodes c : c ∈ centers → c ∈ nodes;
  ci_NoDup : NoDup centers;
  ci_k : Z.of_nat (length centers) ≤ k;
  ci_nearest : nearest centers m;
  ci_spread : spread centers m;
}.

Lemma cinv_add k centers m f dm :
  cinv k centers m → Z.of_nat (length centers) < k → f = max_key m first rest → f ∉ centers →
  (∀ v r, within g f v r ↔ e_le (dm !! v) r) →
  cinv k (centers ++ [f]) (update_min_dist nodes dm m).
Proof.
  intros [Hn Hnd Hk Hne Hsp] Hlt Hf Hfc Hdm. destruct (max_key_spec m) as [Hfn Hmax].
  rewrite <- Hf in Hfn, Hmax.
  constructor.
  - intros c [?| ->%list_elem_of_singleton]%elem_of_app; auto.
  - apply NoDup_app. split_and!; [done|by intros ? ? ->%list_elem_of_singleton|apply NoDup_singleton].
  - rewrite length_app. simpl. lia.
  - intros n Hnn r. rewrite update_min_dist_lookup by done.
    rewrite <- (Hne n Hnn r), <- Hdm. setoid_rewrite elem_of_app.
    setoid_rewrite list_elem_of_singleton. naive_solver.
  - intros i j a b Hij Ha Hb n r Hnn Hab. rewrite update_min_dist_lookup by done. left.
    apply lookup_snoc_Some in Hb as [[Hj Hb]|[Hj <-]].
    + rewrite lookup_app_l in Ha by lia. by eapply (Hsp i j).
    + rewrite lookup_app_l in Ha by lia. apply Hmax; [done|].
      apply Hne; [done|]. exists a. split; [by apply list_elem_of_lookup_2 in Ha|done].
Qed.

(** The result of the selection: [k] centers, or every node. *)
Definition centers_result (k : Z) (centers : list Z) : Prop :=
  (∃ m, cinv k centers m) ∧
  (Z.of_nat (length centers) = k ∨ ∀ n, n ∈ nodes → n ∈ centers).

Lemma center_rounds_spec k fuel centers m :
  cinv k centers m → (length nodes < fuel + length centers)%nat →
  ∃ r, center_rounds fuel g k None first rest centers m = Ok r ∧ centers_result k r.
Proof.
  revert centers m. induction fuel as [|fuel IH]; intros centers m Hi Hfuel.
  { exfalso. assert (length centers ≤ length nodes)%nat; [|lia].
    apply submseteq_length, NoDup_submseteq; [apply Hi|]. intros c. apply Hi. }
  cbn [center_rounds]. case_decide as Hk.
  2: { exists centers. split; [done|]. split; [by exists m|]. left. pose proof (ci_k _ _ _ Hi). lia. }
  destruct (max_key_spec m) as [Hfn Hmax]. set (f := max_key m first rest) in *.
  case_decide as Hf.
  - exists centers. split; [done|]. split; [by exists m|]. right. intros n Hn.
    destruct (proj2 (ci_nearest _ _ _ Hi n Hn 0)) as (c & Hc & w & Hw & ?).
    { apply Hmax; [done|]. apply (ci_nearest _ _ _ Hi f Hfn). exists f.
      split; [done|]. by apply within_refl. }
    by rewrite <- (unit_walk_0 g c n w Hw).
  - destruct (bfs_spec g f) as (dm & Hdm & _). rewrite Hdm. cbn [mbind res_bind].
    apply IH; [|rewrite length_app; simpl in *; lia].
    apply cinv_add; [done..|]. by apply bfs_within.
Qed.
End centers.

(** * Properties *)

(** The nodes the selection ranges over: [sorted(graph.keys())] minus [exclude]. *)
Definition candidates (g : graph) (exclude : gset Z) : list Z :=
  filter (λ n, n ∉ exclude) (sorted_set (dom g)).

Lemma NoDup_candidates g exclude : NoDup (candidates g exclude).
Proof. apply NoDup_filter, NoDup_sorted_set. Qed.

Lemma elem_of_candidates g exclude n :
  n ∈ candidates g exclude ↔ is_Some (g !! n) ∧ n ∉ exclude.
Proof.
  unfold candidates. rewrite list_elem_of_filter, elem_of_sorted_set, elem_of_dom. tauto.
Qed.

(** The selection returns without error; its centers are distinct candidates, as
    many as asked for unless there are fewer candidates. *)
Lemma select_k_centers_spec g k exclude :
  ∃ r, select_k_centers g k None exclude = Ok r ∧
    (candidates g exclude = [] ∨ k ≤ 0 → r = []) ∧
    (∀ first rest, candidates g exclude = first :: rest → 0 < k →
       centers_result g first rest k r).
Proof.
  unfold select_k_centers. fold (candidates g exclude).
  pose proof (NoDup_candidates g exclude) as Hnd.
  destruct (candidates g exclude) as [|first rest].
  { exists []. split_and!; [done..|by intros ? ?]. }
  case_decide as Hk.
  { exists []. split_and!; [done..|]. intros. lia. }
  destruct (bfs_spec g first) as (d & Hd & _). rewrite Hd. cbn [mbind res_bind].
  destruct (center_rounds_spec g first rest Hnd k (S (S (length rest))) [first] (Some <$> d))
    as (r & Hr & Hres).
  - constructor.
    + intros c ->%list_elem_of_singleton. by left.
    + apply NoDup_singleton.
    + simpl. lia.
    + intros n Hn r. unfold get_inf. rewrite lookup_fmap.
      assert (He : e_le (default None (Some <$> d !! n)) r ↔ e_le (d !! n) r) by by destruct (d !! n).
      rewrite He, <- (bfs_within g first d Hd). setoid_rewrite list_elem_of_singleton. naive_solver.
    + intros i j a b Hij Ha Hb. destruct j as [|j]; [lia|done].
  - simpl. lia.
  - exists r. split_and!; [done|intros [?|?]; [done|lia]|]. by intros ? ? [= <- <-] _.
Qed.

(** Two distinct members of a list are in order one way or the other. *)
Lemma spread_far g first rest k centers m v r :
  symmetric_graph g → cinv g first rest k centers m → v ∈ first :: rest →
  (∀ c, c ∈ centers → ¬ within g c v r) →
  ∀ i j a b, (centers ++ [v]) !! i = Some a → (centers ++ [v]) !! j = Some b → i ≠ j →
    ¬ within g a b r.
Proof.
  intros Hg Hi Hv Hfar.
  assert (Hord : ∀ i j a b, (i < j)%nat → (centers ++ [v]) !! i = Some a →
            (centers ++ [v]) !! j = Some b → ¬ within g a b r).
  { intros i j a b Hij Ha Hb Hab.
    apply lookup_snoc_Some in Hb as [[Hj Hb]|[Hj <-]].
    - rewrite lookup_app_l in Ha by lia.
      pose proof (ci_spread _ _ _ _ _ _ Hi i j a b Hij Ha Hb v r Hv Hab) as He.
      apply (ci_nearest _ _ _ _ _ _ Hi v Hv) in He as (c & Hc & Hcv). by apply (Hfar c).
    - rewrite lookup_app_l in Ha by lia. apply (Hfar a); [|done].
      by apply list_elem_of_lookup_2 in Ha. }
  intros i j a b Ha Hb Hij Hab. destruct (decide (i < j)%nat).
  - by apply (Hord i j a b).
  - apply (Hord j i b a); [lia|done..|]. by apply within_sym.
Qed.

(** Centers and one more node, pairwise more than [2r] apart, do not fit into
    as many balls of radius [r] as there are centers. *)
Lemma far_not_coverable g first rest k centers m S r v :
  symmetric_graph g → cinv g first rest k centers m → v ∈ first :: rest →
  (∀ c, c ∈ centers → ¬ within g c v (2 * r)) →
  (∀ v, v ∈ first :: rest → ∃ s, s ∈ S ∧ within g s v r) →
  (length S ≤ length centers)%nat → False.
Proof.
  intros Hg Hi Hv Hfar Hcov HS. set (l := centers ++ [v]).
  assert (Hall : Forall (λ x, ∃ s, s ∈ S ∧ within g s x r) l).
  { apply Forall_forall. intros x [Hx| ->%list_elem_of_singleton]%elem_of_app; apply Hcov; [|done].
    by apply Hi. }
  apply Forall_exists_Forall2_l in Hall as [ss Hss].
  assert (HndS : NoDup ss).
  { apply NoDup_alt. intros i j s Hsi Hsj. destruct (decide (i = j)) as [|Hij]; [done|].
    destruct (Forall2_lookup_r _ _ _ _ _ Hss Hsi) as (x & Hx & _ & Hsx).
    destruct (Forall2_lookup_r _ _ _ _ _ Hss Hsj) as (y & Hy & _ & Hsy).
    exfalso. apply (spread_far g first rest k centers m v (2 * r) Hg Hi Hv Hfar i j x y Hx Hy Hij).
    replace (2 * r) with (r + r) by lia. apply (within_trans g x s y); [by apply within_sym|done]. }
  assert (Hle : (length ss ≤ length S)%nat).
  { apply submseteq_length, NoDup_submseteq; [done|]. intros s (i & Hsi)%list_elem_of_lookup.
    by destruct (Forall2_lookup_r _ _ _ _ _ Hss Hsi) as (x & _ & ? & _). }
  apply Forall2_length in Hss. unfold l in Hss. rewrite length_app in Hss. simpl in Hss. lia.
Qed.

(** C39: farthest-first selection is a 2-approximation of the k-center problem.
    On an undirected graph [select_k_centers] (with hop distances, as the cache
    placement calls it) returns [min(k, candidates)] distinct non-excluded nodes
    such that, whenever any [k] nodes at all put every candidate within [r] hops,
    the returned centers put every candidate within [2r] hops. *)
Theorem select_k_centers_2approx g k exclude :
  symmetric_graph g → 0 < k →
  ∃ centers, select_k_centers g k None exclude = Ok centers ∧ NoDup centers ∧
    (∀ c, c ∈ centers → c ∈ candidates g exclude) ∧
    Z.of_nat (length centers) = Z.min k (Z.of_nat (length (candidates g exclude))) ∧
    ∀ (S : list Z) r, Z.of_nat (length S) ≤ k →
      (∀ v, v ∈ candidates g exclude → ∃ s, s ∈ S ∧ within g s v r) →
      ∀ v, v ∈ candidates g exclude → ∃ c, c ∈ centers ∧ within g c v (2 * r).
Proof.
  intros Hg Hk. destruct (select_k_centers_spec g k exclude) as (centers & Hsel & Hnil & Hcons).
  exists centers. split; [done|]. pose proof (NoDup_candidates g exclude) as Hndc.
  destruct (candidates g exclude) as [|first rest] eqn:Hcand.
  { rewrite Hnil by auto. simpl. split_and!; [constructor|by intros ? ?%elem_of_nil|lia|].
    by intros ? ? _ _ ? ?%elem_of_nil. }
  destruct (Hcons first rest eq_refl Hk) as [[m Hi] Hfull]. split_and!; [apply Hi|apply Hi| |].
  - assert (Hle : (length centers ≤ length (first :: rest))%nat).
    { apply submseteq_length, NoDup_submseteq; [apply Hi|]. intros c. apply Hi. }
    pose proof (ci_k _ _ _ _ _ _ Hi). destruct Hfull as [?|Hall]; [lia|].
    assert (length (first :: rest) ≤ length centers)%nat; [|lia].
    apply submseteq_length, NoDup_submseteq; [done|]. intros c. apply Hall.
  - intros S r HS Hcov v Hv.
    destruct (decide (e_le (get_inf m v) (2 * r))) as [He|He];
      [by apply (ci_nearest _ _ _ _ _ _ Hi v Hv) in He|exfalso].
    assert (Hfar : ∀ c, c ∈ centers → ¬ within g c v (2 * r)).
    { intros c Hc Hw. apply He. apply (ci_nearest _ _ _ _ _ _ Hi v Hv). eauto. }
    destruct Hfull as [Hlen|Hall].
    + apply (far_not_coverable g first rest k centers m S r v); [done..|lia].
    + destruct (Hcov v Hv) as (s & _ & ?%within_nonneg).
      apply (Hfar v); [by apply Hall|]. apply within_refl. lia.
Qed.

(** A decision procedure for [symmetric_graph]. *)
Definition symmetric_graphb (g : graph) : bool :=
  bool_decide (map_Forall (λ u ns, set_Forall (λ v, u ∈ default ∅ (g !! v)) ns) g).

Lemma symmetric_graphb_sound g : symmetric_graphb g = true → symmetric_graph g.
Proof.
  unfold symmetric_graphb. intros H%bool_decide_eq_true u v (ns & Hu & Hv).
  apply adjacent_alt. by apply (H u ns Hu).
Qed.

Lemma select_k_centers_2approx_witness :
  ∃ centers, select_k_centers example_graph 2 None {[0]} = Ok centers ∧ NoDup centers ∧
    (∀ c, c ∈ centers → c ∈ candidates example_graph {[0]}) ∧
    Z.of_nat (length centers) = Z.min 2 (Z.of_nat (length (candidates example_graph {[0]}))) ∧
    ∀ (S : list Z) r, Z.of_nat (length S) ≤ 2 →
      (∀ v, v ∈ candidates example_graph {[0]} → ∃ s, s ∈ S ∧ within example_graph s v r) →
      ∀ v, v ∈ candidates example_graph {[0]} →
        ∃ c, c ∈ centers ∧ within example_graph c v (2 * r).
Proof.
  apply (select_k_centers_2approx example_graph 2 {[0]}); [|lia].
  apply symmetric_graphb_sound. vm_compute. reflexivity.
Defined.
