(* ===== verification/Addressing.v ===== *)
(** Component: the IPv4 addressing scheme (src/core/addressing.py): one /24 per
    link, third octet the link subnet, fourth octet the host index plus one.
    [AddressingScheme_init] starts from the 32-bit address and prefix length
    that [ipaddress.IPv4Network(cidr, strict=False)] parses out of the string. *)
From S2P Require Import Prelude Topology.
Import (notations) Stdlib.Strings.Ascii.
Local Open Scope Z_scope.

Definition LINK_PREFIXLEN : Z := 24.
Definition MAX_LINK_SUBNET_ID : Z := 255.
Definition MAX_HOST_INDEX : Z := 253.

(** [self._octets]. *)
Record AddressingScheme := mkScheme { oct0 : Z; oct1 : Z; oct2 : Z; oct3 : Z }.

(** The network address of [addr/prefixlen]: the host bits are cleared. *)
Definition network_address (addr prefixlen : Z) : Z :=
  Z.land addr (Z.shiftl (Z.ones prefixlen) (32 - prefixlen)).

(** The four bytes of [net.network_address.packed]. *)
Definition packed (a : Z) : AddressingScheme :=
  mkScheme (Z.land (Z.shiftr a 24) 255) (Z.land (Z.shiftr a 16) 255)
           (Z.land (Z.shiftr a 8) 255) (Z.land a 255).

(** [AddressingScheme.__init__]. *)
Definition AddressingScheme_init (addr prefixlen : Z) : res AddressingScheme :=
  if decide (prefixlen = 16) then Ok (packed (network_address addr prefixlen))
  else raise EValueError "network_cidr must be an IPv4 /16 network".

(** [DEFAULT_NETWORK_CIDR = "192.168.0.0/16"]. *)
Definition default_scheme : AddressingScheme := mkScheme 192 168 0 0.

(** [f"{o0}.{o1}.{o2}.{o3}"]. *)
Definition dotted (o0 o1 o2 o3 : Z) : string :=
  str_Z o0 +s+ "." +s+ str_Z o1 +s+ "." +s+ str_Z o2 +s+ "." +s+ str_Z o3.

(** [AddressingScheme.host_ip]. *)
Definition host_ip (s : AddressingScheme) (subnet_id host_idx : Z) : res string :=
  let o2 := oct2 s + subnet_id in
  let o3 := host_idx + 1 in
  if negb ((0 <=? o2) && (o2 <=? 255)) then
    raise EValueError ("subnet_id " +s+ str_Z subnet_id +s+ " causes 3rd octet "
      +s+ str_Z o2 +s+ " to exceed 255 (base 3rd octet is " +s+ str_Z (oct2 s) +s+ ")")
  else if negb ((1 <=? o3) && (o3 <=? 254)) then
    raise EValueError ("host_idx " +s+ str_Z host_idx +s+ " yields 4th octet "
      +s+ str_Z o3 +s+ " which is outside 1-254")
  else Ok (dotted (oct0 s) (oct1 s) o2 o3).

(** [AddressingScheme.link_network]. *)
Definition link_network (s : AddressingScheme) (subnet_id : Z) : res string :=
  let o2 := oct2 s + subnet_id in
  if negb ((0 <=? o2) && (o2 <=? 255)) then
    raise EValueError ("subnet_id " +s+ str_Z subnet_id +s+ " causes 3rd octet "
      +s+ str_Z o2 +s+ " to exceed 255")
  else Ok (str_Z (oct0 s) +s+ "." +s+ str_Z (oct1 s) +s+ "." +s+ str_Z o2 +s+ ".0/24").

(** [AddressingScheme.root_gateway]. *)
Definition root_gateway (s : AddressingScheme) (subnet_id : Z) : res string :=
  let o2 := oct2 s + subnet_id in
  if negb ((0 <=? o2) && (o2 <=? 255)) then
    raise EValueError ("subnet_id " +s+ str_Z subnet_id +s+ " causes 3rd octet "
      +s+ str_Z o2 +s+ " to exceed 255")
  else Ok (str_Z (oct0 s) +s+ "." +s+ str_Z (oct1 s) +s+ "." +s+ str_Z o2 +s+ ".254/24").

(** The loop of [canonical_host_ip]: the lowest subnet of the host's links. *)
Definition best_step (best : option Z) (l : Link) : option Z :=
  match subnet l with
  | None => best
  | Some s => match best with
              | None => Some s
              | Some b => if decide (s < b) then Some s else best
              end
  end.

Definition best_subnet (links : list Link) (host_idx : Z) : option Z :=
  foldl best_step None (links_for_host links host_idx).

(** [AddressingScheme.canonical_host_ip]. *)
Definition canonical_host_ip (s : AddressingScheme) (host_idx : Z) (mesh_links : list raw_link)
    : res string :=
  match best_subnet (TopologyModel mesh_links) host_idx with
  | None => raise EValueError ("host " +s+ str_Z host_idx +s+ " is not attached to any mesh link")
  | Some b => host_ip s b host_idx
  end.

Example host_ip_run : host_ip default_scheme 3 4 = Ok "192.168.3.5".
Proof. vm_compute. reflexivity. Qed.
Example host_ip_bounds :
  (host_ip default_scheme 256 0 = raise EValueError
    "subnet_id 256 causes 3rd octet 256 to exceed 255 (base 3rd octet is 0)").
Proof. vm_compute. reflexivity. Qed.
Example scheme_run : AddressingScheme_init 0x0A2A1107 16 = Ok (mkScheme 10 42 0 0).
Proof. vm_compute. reflexivity. Qed.

(** * Decimal numerals contain no dot *)

Definition dot_free (s : string) : Prop := "."%char ∉ String.list_ascii_of_string s.

Lemma list_ascii_app s t :
  String.list_ascii_of_string (String.append s t) =
  String.list_ascii_of_string s ++ String.list_ascii_of_string t.
Proof. induction s as [|c s IH]; simpl; [done|by rewrite IH]. Qed.

Lemma pretty_N_char_dot x : pretty_N_char x ≠ "."%char.
Proof. unfold pretty_N_char. by repeat case_match. Qed.

Lemma pretty_N_go_dot x s : dot_free s → dot_free (pretty_N_go x s).
Proof.
  revert s. induction (N.lt_wf_0 x) as [x _ IH]; intros s Hs.
  destruct (decide (x = 0)%N) as [->|Hx]; [by rewrite pretty_N_go_0|].
  rewrite pretty_N_go_step by lia. apply IH; [apply N.div_lt; lia|].
  unfold dot_free in *. simpl. rewrite not_elem_of_cons. split; [|done].
  symmetry. apply pretty_N_char_dot.
Qed.

Lemma str_Z_dot z : dot_free (str_Z z).
Proof.
  assert (HN : ∀ x : N, dot_free (pretty x)).
  { intros x. unfold pretty, pretty_N. case_decide.
    - unfold dot_free. simpl. set_solver.
    - apply pretty_N_go_dot. unfold dot_free. simpl. set_solver. }
  unfold str_Z, pretty, pretty_Z. destruct z as [|p|p].
  - unfold dot_free. simpl. set_solver.
  - apply HN.
  - unfold dot_free. simpl. rewrite not_elem_of_cons. split; [done|]. apply HN.
Qed.

(** A dot-free prefix before a dot is determined. *)
Lemma dot_split_inj s1 s2 t1 t2 :
  dot_free s1 → dot_free s2 →
  s1 +s+ "." +s+ t1 = s2 +s+ "." +s+ t2 → s1 = s2 ∧ t1 = t2.
Proof.
  unfold dot_free. revert s2. induction s1 as [|c s1 IH]; intros [|d s2] H1 H2 Heq; simpl in *.
  - by simplify_eq.
  - simplify_eq. set_solver.
  - simplify_eq. set_solver.
  - apply not_elem_of_cons in H1 as [_ H1], H2 as [_ H2]. simplify_eq.
    destruct (IH s2) as [-> ->]; done.
Qed.

Lemma dotted_inj a b c d a' b' c' d' :
  dotted a b c d = dotted a' b' c' d' → a = a' ∧ b = b' ∧ c = c' ∧ d = d'.
Proof.
  unfold dotted. intros H.
  apply dot_split_inj in H as [Ha H]; [|apply str_Z_dot..].
  apply dot_split_inj in H as [Hb H]; [|apply str_Z_dot..].
  apply dot_split_inj in H as [Hc Hd]; [|apply str_Z_dot..].
  by apply (inj str_Z) in Ha, Hb, Hc, Hd.
Qed.

(** * Lemmas *)

(** [host_ip] returns exactly on the addressable range. *)
Lemma host_ip_Ok s sn h ip :
  host_ip s sn h = Ok ip ↔
  0 ≤ oct2 s + sn ≤ 255 ∧ 0 ≤ h ≤ MAX_HOST_INDEX ∧ ip = dotted (oct0 s) (oct1 s) (oct2 s + sn) (h + 1).
Proof.
  unfold host_ip, raise, MAX_HOST_INDEX.
  destruct (Z.leb_spec 0 (oct2 s + sn)), (Z.leb_spec (oct2 s + sn) 255); simpl;
    try (split; [done|lia]).
  destruct (Z.leb_spec 1 (h + 1)), (Z.leb_spec (h + 1) 254); simpl; try (split; [done|lia]).
  split; [intros [= <-]; split_and!; (done || lia)|by intros (_ & _ & ->)].
Qed.

Lemma host_ip_inj s sn h sn' h' ip :
  host_ip s sn h = Ok ip → host_ip s sn' h' = Ok ip → sn = sn' ∧ h = h'.
Proof.
  rewrite !host_ip_Ok. intros (_ & _ & ->) (_ & _ & (_ & _ & ? & ?)%dotted_inj). lia.
Qed.

(** [r] is the least element of [P], if [P] has any. *)
Definition least (P : Z → Prop) (r : option Z) : Prop :=
  match r with
  | None => ∀ x, ¬ P x
  | Some b => P b ∧ ∀ x, P x → b ≤ x
  end.

Lemma least_iff P Q r : (∀ x, P x ↔ Q x) → least P r → least Q r.
Proof.
  intros H. destruct r as [b|]; simpl.
  - intros [Hb Hmin]. split; [by apply H|]. intros x Hx. by apply Hmin, H.
  - intros Hn x Hx. by apply (Hn x), H.
Qed.

Lemma best_step_least P best l :
  least P best → least (λ x, P x ∨ subnet l = Some x) (best_step best l).
Proof.
  unfold best_step. intros H. destruct (subnet l) as [s|] eqn:Hs.
  - destruct best as [b|]; simpl in *; [destruct H as [Hb Hmin]; case_decide; simpl|].
    + split; [by right|]. intros x [?%Hmin|[= ->]]; lia.
    + split; [by left|]. intros x [?|[= ->]]; [by apply Hmin|lia].
    + split; [by right|]. intros x [?%H|[= ->]]; [done|lia].
  - eapply least_iff; [|exact H]. intros x. split; [by left|by intros [?|?]].
Qed.

Lemma best_subnet_spec links h :
  least (λ x, ∃ l, l ∈ links ∧ h ∈ hosts l ∧ subnet l = Some x) (best_subnet links h).
Proof.
  assert (Hgen : ∀ ls P best, least P best →
    least (λ x, P x ∨ ∃ l, l ∈ ls ∧ subnet l = Some x) (foldl best_step best ls)).
  { induction ls as [|l ls IH]; intros P best H; simpl.
    - eapply least_iff; [|exact H]. intros x. split; [by left|].
      intros [?|(? & []%elem_of_nil & _)]. done.
    - eapply least_iff; [|apply IH, best_step_least, H]. intros x.
      setoid_rewrite elem_of_cons. split.
      + intros [[?|?]|(l' & ? & ?)]; eauto.
      + intros [?|(l' & [->|?] & ?)]; eauto. }
  eapply least_iff; [|apply (Hgen _ (λ _, False)); intros x Hx; exact Hx].
  intros x. unfold links_for_host. setoid_rewrite list_elem_of_filter. naive_solver.
Qed.

Lemma init_oct2 addr p s : AddressingScheme_init addr p = Ok s → oct2 s = 0 ∧ oct3 s = 0.
Proof.
  unfold AddressingScheme_init, raise. case_decide as Hp; [|done]. intros [= <-]. subst p.
  assert (Hbit : ∀ i, 0 ≤ i < 16 → Z.testbit (network_address addr 16) i = false).
  { intros i Hi. unfold network_address. rewrite Z.land_spec, Z.shiftl_spec by lia.
    rewrite (Z.testbit_neg_r (Z.ones 16)) by lia. by rewrite andb_false_r. }
  unfold packed. simpl. split; apply Z.bits_inj'; intros i Hi;
    rewrite Z.land_spec, Z.bits_0, ?Z.shiftr_spec by lia;
    (destruct (decide (i < 8)); [rewrite Hbit by lia; done|]);
    (change 255 with (Z.ones 8); rewrite Z.ones_spec_high by lia; apply andb_false_r).
Qed.

(** * Properties *)

(** C40: the addressing scheme of any /16 base hands out an address exactly for
    subnets 0..255 and hosts 0..253 ([MAX_LINK_SUBNET_ID], [MAX_HOST_INDEX]),
    and never the same address to two (subnet, host) pairs. *)
Theorem host_ip_unique addr prefixlen s :
  AddressingScheme_init addr prefixlen = Ok s →
  (∀ sn h, (∃ ip, host_ip s sn h = Ok ip) ↔
     0 ≤ sn ≤ MAX_LINK_SUBNET_ID ∧ 0 ≤ h ≤ MAX_HOST_INDEX) ∧
  (∀ sn h sn' h' ip, host_ip s sn h = Ok ip → host_ip s sn' h' = Ok ip → sn = sn' ∧ h = h').
Proof.
  intros [H2 _]%init_oct2. split; [|by apply host_ip_inj].
  intros sn h. setoid_rewrite host_ip_Ok. rewrite H2. unfold MAX_LINK_SUBNET_ID.
  split; [intros (? & ? & ? & _); lia|]. intros []. eexists. split_and!; [lia..|done].
Qed.

Lemma host_ip_unique_witness :
  AddressingScheme_init 0xC0A80000 16 = Ok default_scheme ∧
  (∀ sn h, (∃ ip, host_ip default_scheme sn h = Ok ip) ↔
     0 ≤ sn ≤ MAX_LINK_SUBNET_ID ∧ 0 ≤ h ≤ MAX_HOST_INDEX) ∧
  (∀ sn h sn' h' ip, host_ip default_scheme sn h = Ok ip →
     host_ip default_scheme sn' h' = Ok ip → sn = sn' ∧ h = h').
Proof.
  split; [vm_compute; reflexivity|].
  apply (host_ip_unique 0xC0A80000 16 default_scheme). vm_compute. reflexivity.
Defined.

(** The last host index collides with the root-namespace gateway. On every
    link subnet host 253 is given the address [root_gateway] reserves. *)
Theorem gateway_collision s sn :
  0 ≤ oct2 s + sn ≤ 255 →
  ∃ ip, host_ip s sn MAX_HOST_INDEX = Ok ip ∧ root_gateway s sn = Ok (ip +s+ "/24").
Proof.
  intros Hsn. exists (dotted (oct0 s) (oct1 s) (oct2 s + sn) 254). split.
  - apply host_ip_Ok. unfold MAX_HOST_INDEX. split_and!; [lia..|done].
  - unfold root_gateway, dotted.
    rewrite (proj2 (Z.leb_le _ _) (proj1 Hsn)), (proj2 (Z.leb_le _ _) (proj2 Hsn)).
    cbn [negb andb].
    by rewrite !string_app_assoc.
Qed.

Lemma gateway_collision_witness :
  0 ≤ oct2 default_scheme + 7 ≤ 255 ∧
  ∃ ip, host_ip default_scheme 7 MAX_HOST_INDEX = Ok ip ∧
        root_gateway default_scheme 7 = Ok (ip +s+ "/24").
Proof. split; [simpl; lia|]. apply (gateway_collision default_scheme 7). simpl. lia. Defined.

(** The canonical address of a host is its address on its lowest subnet. *)
Lemma canonical_host_ip_spec s h mesh ip :
  canonical_host_ip s h mesh = Ok ip →
  ∃ l b, l ∈ TopologyModel mesh ∧ h ∈ hosts l ∧ subnet l = Some b ∧
    host_ip s b h = Ok ip ∧
    ∀ l' b', l' ∈ TopologyModel mesh → h ∈ hosts l' → subnet l' = Some b' → b ≤ b'.
Proof.
  unfold canonical_host_ip. pose proof (best_subnet_spec (TopologyModel mesh) h) as Hb.
  destruct (best_subnet _ h) as [b|]; intros Hip; [|done].
  destruct Hb as [(l & ? & ? & ?) Hmin]. exists l, b. split_and!; [done..|].
  intros l' b' ? ? ?. apply Hmin. eauto.
Qed.
