(* ===== verification/Fib.v ===== *)
(** Component: FIB computation (src/core/fib.py): the adjacency graph and link
    subnets of a mesh, the default and per-URI route computations, the ECMP
    strategy and the strategy registry.  Python sets are iterated in [elements]
    order; every such iteration is followed by a sort in the code. *)
From S2P Require Import Prelude Topology Graph Addressing.
Local Open Scope Z_scope.

(** [Route]. *)
Record Route := mkRoute {
  source : Z;
  prefix : string;
  next_hop : Z;
  next_hop_ip : string;
}.

#[export] Instance Route_eq_dec : EqDecision Route.
Proof. solve_decision. Defined.

(** [link_subnets]: keyed by the ordered host pair. *)
Abbreviation subnets := (gmap (Z * Z) (option Z)).

(** [graph[a].add(b)]. *)
Definition graph_add (g : graph) (a b : Z) : res graph :=
  match g !! a with
  | Some ns => Ok (<[a := {[b]} ∪ ns]> g)
  | None => raise EKeyError (str_Z a)
  end.

(** One iteration of [for host_a, host_b, link in model.edges()]. *)
Definition add_edge (gs : graph * subnets) (e : Z * Z * Link) : res (graph * subnets) :=
  let '(a, b, l) := e in
  g ← graph_add gs.1 a b;
  g ← graph_add g b a;
  Ok (g, <[(a, b) := subnet l]> gs.2).

(** [build_graph_and_subnets]. *)
Definition build_graph_and_subnets (mesh_links : list raw_link) : res (Z * graph * subnets) :=
  let model := TopologyModel mesh_links in
  host_num ← host_count model;
  let g0 : graph := list_to_map ((λ i, (i, ∅)) <$> range host_num) in
  gs ← foldM add_edge (g0, ∅) (edges model);
  Ok (host_num, gs.1, gs.2).

(** [for src in range(host_num): all_dist.append(dijkstra_all(graph, src)[0])]. *)
Definition all_distances (host_num : Z) (g : graph) : res (list (gmap Z Z)) :=
  mapR (λ src, fst <$> dijkstra_all g src unit_weight) (range host_num).

(** One iteration of [for neighbor in graph[src]]. *)
Definition add_candidate (all_dist : list (gmap Z Z)) (dest : Z) (cs : list (Z * Z))
    (neighbor : Z) : res (list (Z * Z)) :=
  dist ← py_getitem all_dist neighbor;
  Ok (match dist !! dest with
      | None => cs
      | Some dist_to_dest => cs ++ [(1 + dist_to_dest, neighbor)]
      end).

(** The sorted [candidates] of one (src, dest) pair. *)
Definition sorted_candidates (g : graph) (all_dist : list (gmap Z Z)) (src dest : Z)
    : res (list (Z * Z)) :=
  match g !! src with
  | None => raise EKeyError (str_Z src)
  | Some ns =>
      cs ← foldM (add_candidate all_dist dest) [] (elements ns);
      Ok (merge_sort entry_le cs)
  end.

(** [link_subnets[tuple(sorted((src, next_hop)))]] and [scheme.host_ip(..)]. *)
Definition hop_ip (ls : subnets) (scheme : AddressingScheme) (src next_hop : Z) : res string :=
  match ls !! frozen src next_hop with
  | None => raise EKeyError (str_Z src)
  | Some None => raise ETypeError "unsupported operand type(s) for +: 'int' and 'NoneType'"
  | Some (Some sn) => host_ip scheme sn next_hop
  end.

(** [compute_fib]: the routes of one (src, dest) pair. *)
Definition fib_pair (g : graph) (ls : subnets) (scheme : AddressingScheme)
    (all_dist : list (gmap Z Z)) (k_paths src : Z) (routes : list Route) (dest : Z)
    : res (list Route) :=
  if decide (src = dest) then Ok routes else
  let p := "ccnx:/test/example" +s+ str_Z (dest + 1) in
  cs ← sorted_candidates g all_dist src dest;
  foldM (λ routes c,
    ip ← hop_ip ls scheme src c.2;
    Ok (routes ++ [mkRoute src p c.2 ip])) routes (py_take k_paths cs).

(** [compute_fib]. *)
Definition compute_fib (mesh_links : list raw_link) (k_paths : Z)
    (scheme : option AddressingScheme) : res (list Route) :=
  let scheme := default default_scheme scheme in
  '(host_num, g, ls) ← build_graph_and_subnets mesh_links;
  all_dist ← all_distances host_num g;
  foldM (λ routes src,
    foldM (fib_pair g ls scheme all_dist k_paths src) routes (range host_num))
    [] (range host_num).

(** The closure state of [compute_fib_for_uris]: [seen] and [routes]. *)
Abbreviation route_key := (Z * string * string)%type.
Abbreviation fib_state := (gset route_key * list Route)%type.

(** The body of [for next_hop in next_hops]. *)
Definition add_route (ls : subnets) (scheme : AddressingScheme) (src : Z) (uri_prefix : string)
    (st : fib_state) (next_hop : Z) : res fib_state :=
  ip ← hop_ip ls scheme src next_hop;
  let key := (src, uri_prefix, ip) in
  if decide (key ∈ st.1) then Ok st
  else Ok ({[key]} ∪ st.1, st.2 ++ [mkRoute src uri_prefix next_hop ip]).

(** [_add_routes(src, dest, uri_prefix)]. *)
Definition add_routes (g : graph) (ls : subnets) (scheme : AddressingScheme)
    (all_dist : list (gmap Z Z)) (k_paths : Z) (st : fib_state) (req : Z * Z * string)
    : res fib_state :=
  let '(src, dest, uri_prefix) := req in
  cs ← sorted_candidates g all_dist src dest;
  foldM (add_route ls scheme src uri_prefix) st (snd <$> py_take k_paths cs).

(** The calls of [_add_routes], in order: pass 1 and pass 2 of one URI ... *)
Definition uri_requests (host_num : Z) (p : string * Z) : list (Z * Z * string) :=
  let '(uri_prefix, publisher) := p in
  ((λ src, (src, publisher, uri_prefix)) <$> filter (λ src, src ≠ publisher) (range host_num))
  ++ ((λ dest, (publisher, dest, uri_prefix)) <$> filter (λ dest, dest ≠ publisher) (range host_num)).

(** ... and of one static prefix route. *)
Definition prefix_requests (host_num : Z) (p : string * Z) : list (Z * Z * string) :=
  let '(uri_prefix, dest) := p in
  (λ src, (src, dest, uri_prefix)) <$> filter (λ src, src ≠ dest) (range host_num).

(** [compute_fib_for_uris]; dicts are association lists in insertion order. *)
Definition compute_fib_for_uris (mesh_links : list raw_link) (k_paths : Z)
    (uri_publishers : list (string * Z)) (scheme : option AddressingScheme)
    (prefix_routes : option (list (string * Z))) : res (list Route) :=
  let scheme := default default_scheme scheme in
  '(host_num, g, ls) ← build_graph_and_subnets mesh_links;
  all_dist ← all_distances host_num g;
  st ← foldM (add_routes g ls scheme all_dist k_paths) (∅, [])
         ((uri_publishers ≫= uri_requests host_num)
          ++ (default [] prefix_routes ≫= prefix_requests host_num));
  Ok st.2.

(** [for cost, neighbor in candidates: if cost > min_cost: break ...]. *)
Fixpoint take_min (min_cost : Z) (cs : list (Z * Z)) : list Z :=
  match cs with
  | [] => []
  | (cost, neighbor) :: cs => if decide (cost > min_cost) then [] else neighbor :: take_min min_cost cs
  end.

(** [_add_ecmp(src, dest, prefix)]. *)
Definition add_ecmp (g : graph) (ls : subnets) (scheme : AddressingScheme)
    (all_dist : list (gmap Z Z)) (st : fib_state) (req : Z * Z * string) : res fib_state :=
  let '(src, dest, uri_prefix) := req in
  cs ← sorted_candidates g all_dist src dest;
  match cs with
  | [] => Ok st
  | (min_cost, _) :: _ => foldM (add_route ls scheme src uri_prefix) st (take_min min_cost cs)
  end.

(** The calls of [_add_ecmp]: all destinations, then pass 2 of the URIs, then
    the static prefix routes. *)
Definition ecmp_requests (host_num : Z) (uri_publishers prefix_routes : list (string * Z))
    : list (Z * Z * string) :=
  let destinations :=
    if decide (uri_publishers = [] ∧ prefix_routes = []) then
      (λ d, ("ccnx:/test/example" +s+ str_Z (d + 1), d)) <$> range host_num
    else uri_publishers in
  (destinations ≫= prefix_requests host_num)
  ++ (uri_publishers ≫= λ p, (λ dest, (p.2, dest, p.1)) <$> filter (λ dest, dest ≠ p.2) (range host_num))
  ++ (prefix_routes ≫= prefix_requests host_num).

(** [EqualCostMultiPathStrategy.compute_routes]. *)
Definition ecmp_compute_routes (mesh_links : list raw_link)
    (uri_publishers : list (string * Z)) (scheme : option AddressingScheme)
    (prefix_routes : option (list (string * Z))) : res (list Route) :=
  let scheme := default default_scheme scheme in
  '(host_num, g, ls) ← build_graph_and_subnets mesh_links;
  all_dist ← all_distances host_num g;
  st ← foldM (add_ecmp g ls scheme all_dist) (∅, [])
         (ecmp_requests host_num uri_publishers (default [] prefix_routes));
  Ok st.2.

(** The strategy classes and their registry. *)
Inductive RoutingStrategy := DijkstraStrategy | ShortestPathOnlyStrategy | EqualCostMultiPathStrategy.

Definition get_routing_strategy (name : string) : res RoutingStrategy :=
  if decide (name = "dijkstra") then Ok DijkstraStrategy
  else if decide (name = "shortest_path") then Ok ShortestPathOnlyStrategy
  else if decide (name = "ecmp") then Ok EqualCostMultiPathStrategy
  else raise EValueError ("Unknown routing strategy: " +s+ name
         +s+ ". Available: ['dijkstra', 'shortest_path', 'ecmp']").

(** [compute_routes] of the three strategies. *)
Definition compute_routes (strategy : RoutingStrategy) (mesh_links : list raw_link)
    (k_paths : Z) (uri_publishers : option (list (string * Z)))
    (scheme : option AddressingScheme) (prefix_routes : option (list (string * Z)))
    : res (list Route) :=
  let uris := default [] uri_publishers in
  let has_uris := bool_decide (uris ≠ []) || bool_decide (default [] prefix_routes ≠ []) in
  match strategy with
  | DijkstraStrategy =>
      if has_uris then compute_fib_for_uris mesh_links k_paths uris scheme prefix_routes
      else compute_fib mesh_links k_paths scheme
  | ShortestPathOnlyStrategy =>
      if has_uris then compute_fib_for_uris mesh_links 1 uris scheme prefix_routes
      else compute_fib mesh_links 1 scheme
  | EqualCostMultiPathStrategy => ecmp_compute_routes mesh_links uris scheme prefix_routes
  end.

(** A square 0-1-3-2-0, one switch per link. *)
Definition square_mesh : list raw_link :=
  [ RawMulti (Some "s0") (Some 1) [0; 1] None; RawMulti (Some "s1") (Some 2) [1; 3] None;
    RawP2P (Some "s2") (Some 3) 2 3 (Some 0) (Some 1); RawMulti (Some "s3") (Some 4) [2; 0] None ].

Example square_routes :
  compute_routes ShortestPathOnlyStrategy square_mesh 2 (Some [("ccnx:/a", 3)]) None None =
  Ok [ mkRoute 0 "ccnx:/a" 1 "192.168.1.2"; mkRoute 1 "ccnx:/a" 3 "192.168.2.4";
       mkRoute 2 "ccnx:/a" 3 "192.168.3.4"; mkRoute 3 "ccnx:/a" 1 "192.168.2.2";
       mkRoute 3 "ccnx:/a" 2 "192.168.3.3" ].
Proof. vm_compute. reflexivity. Qed.
Example square_ecmp :
  (length <$> compute_routes EqualCostMultiPathStrategy square_mesh 1 (Some [("ccnx:/a", 3)]) None None)
  = Ok 6%nat.
Proof. vm_compute. reflexivity. Qed.

(** * The adjacency graph *)

Lemma graph_add_spec g a b :
  is_Some (g !! a) →
  ∃ g', graph_add g a b = Ok g' ∧ (∀ x, is_Some (g' !! x) ↔ is_Some (g !! x)) ∧
    ∀ x y, adjacent g' x y ↔ adjacent g x y ∨ (x = a ∧ y = b).
Proof.
  intros [ns Hns]. unfold graph_add. rewrite Hns. eexists. split; [done|]. split.
  - intros x. destruct (decide (x = a)) as [->|]; [|by rewrite lookup_insert_ne].
    rewrite lookup_insert_eq, Hns. split; by eexists.
  - intros x y. rewrite !adjacent_alt.
    destruct (decide (x = a)) as [->|]; [|rewrite lookup_insert_ne by done; naive_solver].
    rewrite lookup_insert_eq, Hns. simpl. set_solver.
Qed.

(** What the edge loop has built from [es] so far. *)
Lemma add_edges_spec es g ls :
  (∀ a b l, (a, b, l) ∈ es → is_Some (g !! a) ∧ is_Some (g !! b)) →
  ∃ g' ls', foldM add_edge (g, ls) es = Ok (g', ls') ∧
    (∀ x, is_Some (g' !! x) ↔ is_Some (g !! x)) ∧
    (∀ x y, adjacent g' x y ↔ adjacent g x y ∨ ∃ l, (x, y, l) ∈ es ∨ (y, x, l) ∈ es) ∧
    (∀ p, (∃ l, (p, l) ∈ es) → ∃ l, (p, l) ∈ es ∧ ls' !! p = Some (subnet l)) ∧
    (∀ p, (∀ l, (p, l) ∉ es) → ls' !! p = ls !! p).
Proof.
  revert g ls. induction es as [|[[a b] l] es IH]; intros g ls Hes; simpl.
  { exists g, ls. split_and!; [done..| |by intros ? (? & ?%elem_of_nil)|done].
    intros x y. split; [by left|]. by intros [?|(? & [?%elem_of_nil|?%elem_of_nil])]. }
  destruct (Hes a b l ltac:(by left)) as [Ha Hb].
  destruct (graph_add_spec g a b Ha) as (g1 & -> & D1 & A1). simpl.
  destruct (graph_add_spec g1 b a) as (g2 & -> & D2 & A2); [by apply D1|]. simpl.
  destruct (IH g2 (<[(a, b) := subnet l]> ls)) as (g' & ls' & -> & D & A & S & N).
  { intros x y l' Hin. rewrite !D2, !D1. apply (Hes x y l'). by right. }
  exists g', ls'. split_and!; [done| | | |].
  - intros x. by rewrite D, D2, D1.
  - intros x y. rewrite A, A2, A1. setoid_rewrite elem_of_cons. naive_solver.
  - intros p (l' & Hl'). destruct (decide (p ∈ es.*1)) as [Hin|Hno].
    + apply list_elem_of_fmap in Hin as ([p' l1] & -> & Hin).
      destruct (S p' (ex_intro _ l1 Hin)) as (l'' & ? & ?). exists l''. by rewrite elem_of_cons; auto.
    + exists l. apply elem_of_cons in Hl' as [[= -> ->]|Hl']; last first.
      { destruct Hno. apply list_elem_of_fmap. by exists (p, l'). }
      split; [by left|]. rewrite N; [by rewrite lookup_insert_eq|].
      intros l1 Hl1. apply Hno, list_elem_of_fmap. by exists ((a, b), l1).
  - intros p Hno. setoid_rewrite elem_of_cons in Hno.
    rewrite N by naive_solver. apply lookup_insert_ne. intros <-. naive_solver.
Qed.

(** A mesh the addressing scheme covers: every link has a subnet in range and
    distinct hosts in range. *)
Record wf_link (l : Link) : Prop := {
  wl_hosts : hosts l ≠ [];
  wl_NoDup : NoDup (hosts l);
  wl_range : ∀ h, h ∈ hosts l → 0 ≤ h ≤ MAX_HOST_INDEX;
  wl_subnet : ∃ sn, subnet l = Some sn ∧ 0 ≤ sn ≤ MAX_LINK_SUBNET_ID;
}.

Definition wf_mesh (mesh : list raw_link) : Prop := ∀ l, l ∈ TopologyModel mesh → wf_link l.

Definition wf_linkb (l : Link) : bool :=
  bool_decide (hosts l ≠ []) && bool_decide (NoDup (hosts l)) &&
  forallb (λ h, bool_decide (0 ≤ h ≤ MAX_HOST_INDEX)) (hosts l) &&
  match subnet l with Some sn => bool_decide (0 ≤ sn ≤ MAX_LINK_SUBNET_ID) | None => false end.

Lemma wf_mesh_sound mesh : forallb wf_linkb (TopologyModel mesh) = true → wf_mesh mesh.
Proof.
  rewrite forallb_forall. intros H l Hl%list_elem_of_In. specialize (H l Hl).
  unfold wf_linkb in H. rewrite !andb_true_iff, !bool_decide_eq_true, forallb_forall in H.
  destruct H as [[[H1 H2] H3] H4]. constructor; [done..| |].
  - intros h Hh%list_elem_of_In. by specialize (H3 h Hh); apply bool_decide_eq_true in H3.
  - destruct (subnet l) as [sn|]; [|done]. apply bool_decide_eq_true in H4. eauto.
Qed.

(** Two different hosts share a link. *)
Definition linked (mesh : list raw_link) (a b : Z) : Prop :=
  a ≠ b ∧ ∃ l, l ∈ TopologyModel mesh ∧ a ∈ hosts l ∧ b ∈ hosts l.

#[export] Instance linked_sym mesh : Symmetric (linked mesh).
Proof. intros a b (? & l & ? & ? & ?). split; [done|eauto]. Qed.

(** The link whose subnet the route computations use between two hosts: the
    last one of [mesh_links] that connects them. *)
Definition last_link (mesh : list raw_link) (a b : Z) : option Link :=
  find_link (reverse (TopologyModel mesh)) a b.

Lemma find_link_sym links a b : find_link links a b = find_link links b a.
Proof.
  unfold find_link. f_equal. apply list_find_ext. intros l. unfold connects. naive_solver.
Qed.

Lemma find_link_cons l links a b :
  find_link (l :: links) a b = if connects l a b then Some l else find_link links a b.
Proof.
  unfold find_link. simpl. case_decide as Hc.
  - apply Is_true_true in Hc. by rewrite Hc.
  - apply Is_true_false in Hc. rewrite Hc. by destruct (list_find _ links) as [[]|].
Qed.

(** What [build_graph_and_subnets] promises to the route computations. *)
Record mesh_graph (mesh : list raw_link) (n : Z) (g : graph) (ls : subnets) : Prop := {
  mg_dom : ∀ a, is_Some (g !! a) ↔ 0 ≤ a < n;
  mg_adj : ∀ a b, adjacent g a b ↔ linked mesh a b;
  mg_range : ∀ a b, linked mesh a b → 0 ≤ a < n ∧ 0 ≤ a ≤ MAX_HOST_INDEX;
  mg_subnet : ∀ a b, linked mesh a b → ∃ l sn, last_link mesh a b = Some l ∧
    subnet l = Some sn ∧ 0 ≤ sn ≤ MAX_LINK_SUBNET_ID ∧ ls !! frozen a b = Some (Some sn);
}.

Lemma edges_linked mesh a b :
  wf_mesh mesh →
  (∃ l, (a, b, l) ∈ edges (TopologyModel mesh) ∨ (b, a, l) ∈ edges (TopologyModel mesh)) ↔
  linked mesh a b.
Proof.
  intros Hwf. assert (Hnd : ∀ l, l ∈ TopologyModel mesh → NoDup (hosts l)) by (intros; by apply Hwf).
  split.
  - intros (l & [(? & ? & ? & ?)%edges_spec|(? & ? & ? & ?)%edges_spec]); try done;
      (split; [lia|eauto]).
  - intros (Hne & l & ? & ? & ?). exists l. rewrite !edges_spec by done.
    destruct (decide (a < b)); [left|right]; split_and!; (done || lia).
Qed.

Lemma elem_of_edges_singleton l a b l' :
  StronglySorted Z.le (hosts l) → NoDup (hosts l) →
  (a, b, l') ∈ edges [l] ↔ l' = l ∧ a < b ∧ connects l a b.
Proof.
  intros Hs Hnd. rewrite elem_of_edges, list_elem_of_singleton. unfold connects.
  rewrite andb_True, !bool_decide_spec. split.
  - intros [-> Hp%host_pairs_lt]; done.
  - intros (-> & ? & ? & ?). split; [done|]. by apply host_pairs_lt.
Qed.

(** The subnets recorded by the edge loop. *)
Lemma link_subnets_spec links g ls gs :
  (∀ l, l ∈ links → StronglySorted Z.le (hosts l) ∧ NoDup (hosts l)) →
  (∀ a b l, (a, b, l) ∈ edges links → is_Some (g !! a) ∧ is_Some (g !! b)) →
  foldM add_edge (g, ls) (edges links) = Ok gs →
  ∀ a b, a < b → gs.2 !! (a, b) =
    match find_link (reverse links) a b with Some l => Some (subnet l) | None => ls !! (a, b) end.
Proof.
  intros Hl. revert gs. induction links as [|l links IH] using rev_ind; intros gs Hes Hf a b Hab.
  { simpl in Hf. by simplify_eq. }
  unfold edges in Hf, Hes. rewrite bind_app in Hf, Hes. fold (edges links) in *.
  change (mbind _ [l]) with (edges [l]) in *.
  rewrite foldM_app in Hf. apply res_bind_Ok in Hf as ([g1 ls1] & H1 & H2).
  destruct (add_edges_spec (edges links) g ls) as (? & ? & E & D & _).
  { intros x y l' ?. apply (Hes x y l'). rewrite elem_of_app. by left. }
  assert (g1 = x ∧ ls1 = x0) as [<- <-] by (rewrite E in H1; by simplify_eq). clear E.
  destruct (add_edges_spec (edges [l]) g1 ls1) as (g2 & ls2 & E & _ & _ & S & N).
  { intros x y l' ?. rewrite !D. apply (Hes x y l'). rewrite elem_of_app. by right. }
  rewrite H2 in E. simplify_eq. simpl.
  rewrite reverse_app, reverse_singleton. simpl. rewrite find_link_cons.
  destruct (Hl l) as [Hs Hnd]; [rewrite elem_of_app; right; by left|].
  destruct (connects l a b) eqn:Hc.
  - destruct (S (a, b)) as (l' & Hl' & ->).
    { exists l. apply elem_of_edges_singleton; [done..|]. split_and!; [done..|]. by rewrite Hc. }
    by apply elem_of_edges_singleton in Hl' as (-> & _).
  - rewrite N.
    + refine (IH _ (g1, ls1) _ H1 a b Hab).
      * intros l' ?. apply Hl. rewrite elem_of_app. by left.
      * intros x y l' ?. apply (Hes x y l'). rewrite elem_of_app. by left.
    + intros l' (-> & _ & Hc')%elem_of_edges_singleton; [|done..]. by rewrite Hc in Hc'.
Qed.

Lemma last_link_linked mesh a b :
  linked mesh a b → ∃ l, last_link mesh a b = Some l ∧ l ∈ TopologyModel mesh.
Proof.
  intros (Hne & l & Hl & Ha & Hb). unfold last_link.
  destruct (find_link _ a b) as [l'|] eqn:E.
  - exists l'. split; [done|]. apply find_link_Some in E as (i & Hi & _).
    apply list_elem_of_lookup_2 in Hi. by rewrite elem_of_reverse in Hi.
  - destruct (proj1 (find_link_None _ a b) E l); [by rewrite elem_of_reverse|done].
Qed.

Lemma build_graph_and_subnets_spec mesh :
  wf_mesh mesh →
  ∃ n g ls, host_count (TopologyModel mesh) = Ok n ∧
    build_graph_and_subnets mesh = Ok (n, g, ls) ∧ mesh_graph mesh n g ls.
Proof.
  intros Hwf. unfold build_graph_and_subnets.
  destruct (host_count_total (TopologyModel mesh)) as [n Hn].
  { intros l Hl. by apply Hwf. }
  rewrite Hn. simpl. destruct (host_count_Ok _ _ Hn) as (Hn0 & Hlt & _).
  set (g0 := list_to_map _ : graph).
  assert (Hg0 : ∀ a, g0 !! a = if decide (0 ≤ a < n) then Some ∅ else None).
  { intros a. unfold g0. case_decide as Ha.
    - apply elem_of_list_to_map_1; [|by apply list_elem_of_fmap; exists a; rewrite elem_of_range].
      rewrite <- list_fmap_compose. simpl. rewrite list_fmap_id. apply NoDup_range.
    - apply not_elem_of_list_to_map_1. rewrite <- list_fmap_compose. simpl.
      rewrite list_fmap_id. by rewrite elem_of_range. }
  assert (Hrange : ∀ a b, linked mesh a b → 0 ≤ a < n ∧ 0 ≤ a ≤ MAX_HOST_INDEX).
  { intros a b (_ & l & Hl & Ha & _). pose proof (wl_range _ (Hwf l Hl) a Ha).
    pose proof (Hlt l a Hl Ha). lia. }
  assert (Hes : ∀ a b l, (a, b, l) ∈ edges (TopologyModel mesh) → is_Some (g0 !! a) ∧ is_Some (g0 !! b)).
  { intros a b l Hin. assert (Hab : linked mesh a b) by (apply edges_linked; eauto).
    rewrite !Hg0, !decide_True; [split; by eexists| |]; eapply Hrange; [symmetry|]; exact Hab. }
  destruct (add_edges_spec (edges (TopologyModel mesh)) g0 ∅) as (g & ls & E & D & A & _); [done|].
  exists n, g, ls. split; [done|]. split; [by rewrite E|]. constructor.
  - intros a. rewrite D, Hg0. case_decide; split; try done; by intros [].
  - intros a b. rewrite A, edges_linked by done. split; [|by right].
    intros [(ns & Hns & Hb)|?]; [|done]. rewrite Hg0 in Hns.
    case_decide; simplify_eq. set_solver.
  - exact Hrange.
  - intros a b Hab. destruct (last_link_linked mesh a b Hab) as (l & Hl & Hin).
    destruct (wl_subnet _ (Hwf l Hin)) as (sn & Hsn & ?). exists l, sn. split_and!; [done..|lia|lia|].
    pose proof (link_subnets_spec (TopologyModel mesh) g0 ∅ (g, ls)) as Hls.
    rewrite <- Hsn. unfold frozen. destruct Hab as [Hne _]. unfold last_link in Hl.
    rewrite Hls; [|intros l' Hl'; split; [by eapply elem_of_TopologyModel|by apply Hwf]|done|done|lia].
    destruct (Z.min_spec a b) as [[? ->]|[? ->]], (Z.max_spec a b) as [[? ->]|[? ->]];
      try lia; [by rewrite Hl|by rewrite find_link_sym, Hl].
Qed.

(** * Distances and candidates *)

(** The number of hops on a shortest path between two hosts of the mesh. *)
Definition hop_dist (mesh : list raw_link) (a b d : Z) : Prop :=
  shortest_cost (linked mesh) unit_weight a b d.

(** [nh] is a neighbour of [src] from which [dest] is reached, at total cost [c]. *)
Definition via (mesh : list raw_link) (src dest c nh : Z) : Prop :=
  linked mesh src nh ∧ hop_dist mesh nh dest (c - 1).

(** The address [src] uses for its neighbour [nh]. *)
Definition link_ip (mesh : list raw_link) (scheme : AddressingScheme) (src nh : Z) (ip : string)
    : Prop :=
  ∃ l sn, last_link mesh src nh = Some l ∧ subnet l = Some sn ∧ host_ip scheme sn nh = Ok ip.

Lemma link_ip_inj mesh scheme src nh nh' ip :
  link_ip mesh scheme src nh ip → link_ip mesh scheme src nh' ip → nh = nh'.
Proof.
  intros (l & sn & _ & _ & H) (l' & sn' & _ & _ & H').
  by destruct (host_ip_inj _ _ _ _ _ _ H H').
Qed.

#[export] Instance entry_le_antisymm : AntiSymm (=) entry_le.
Proof. intros [a b] [c d]. unfold entry_le. simpl. intros. f_equal; lia. Qed.

#[export] Instance entry_le_total : Total entry_le.
Proof. intros [a b] [c d]. unfold entry_le. simpl. lia. Qed.

Section routes.
Context (mesh : list raw_link) (n : Z) (g : graph) (ls : subnets) (scheme : AddressingScheme).
Context (Hg : mesh_graph mesh n g ls) (Hscheme : oct2 scheme = 0).

Lemma mesh_graph_closed : graph_closed g.
Proof.
  intros u ns v Hu Hv. apply (mg_dom _ _ _ _ Hg). eapply (mg_range _ _ _ _ Hg).
  symmetry. apply (mg_adj _ _ _ _ Hg). by exists ns.
Qed.

Definition distances_ok (ds : list (gmap Z Z)) : Prop :=
  ∀ a, 0 ≤ a < n → ∃ dist, py_getitem ds a = Ok dist ∧ ∀ b d, dist !! b = Some d ↔ hop_dist mesh a b d.

Lemma hop_dist_adjacent a b d : shortest_cost (adjacent g) unit_weight a b d ↔ hop_dist mesh a b d.
Proof.
  unfold hop_dist, shortest_cost, is_path.
  assert (HE : ∀ p, chain (adjacent g) p ↔ chain (linked mesh) p).
  { intros p. split; apply chain_impl; intros; by apply (mg_adj _ _ _ _ Hg). }
  by setoid_rewrite HE.
Qed.

Lemma dijkstra_distances a :
  0 ≤ a < n → ∃ dist, fst <$> dijkstra_all g a unit_weight = Ok dist ∧
    ∀ b d, dist !! b = Some d ↔ hop_dist mesh a b d.
Proof.
  intros Ha. destruct (dijkstra_all_spec g a unit_weight) as (dist & par & E & Hd).
  - apply mesh_graph_closed.
  - by apply (mg_dom _ _ _ _ Hg).
  - apply unit_weight_nonneg.
  - exists dist. rewrite E. split; [done|]. intros b d. by rewrite Hd, hop_dist_adjacent.
Qed.

(** Connected hosts have a hop distance. *)
Lemma hop_dist_exists a b p : 0 ≤ a < n → is_path (linked mesh) a b p → ∃ d, hop_dist mesh a b d.
Proof.
  intros Ha Hp. destruct (dijkstra_all_spec g a unit_weight) as (dist & par & E & Hd);
    [apply mesh_graph_closed|by apply (mg_dom _ _ _ _ Hg)|apply unit_weight_nonneg|].
  destruct (dist !! b) as [d|] eqn:Eb; [exists d; by apply hop_dist_adjacent, Hd|exfalso].
  apply (dijkstra_all_complete g a unit_weight dist par) with (v := b) (p := p); [..|done|done|].
  - apply mesh_graph_closed.
  - by apply (mg_dom _ _ _ _ Hg).
  - apply unit_weight_nonneg.
  - destruct Hp as (? & ? & Hc). split_and!; [done..|]. eapply chain_impl; [|exact Hc].
    intros u v. apply (mg_adj _ _ _ _ Hg).
Qed.

Lemma all_distances_spec : ∃ ds, all_distances n g = Ok ds ∧ distances_ok ds.
Proof.
  destruct (mapR_total (λ src, fst <$> dijkstra_all g src unit_weight) (range n)) as [ds Hds].
  { intros a Ha%elem_of_range. destruct (dijkstra_distances a Ha) as (d & ? & _). eauto. }
  exists ds. split; [done|]. intros a Ha.
  destruct (dijkstra_distances a Ha) as (dist & E & Hd). exists dist. split; [|done].
  apply mapR_Ok in Hds. pose proof (Forall2_length _ _ _ Hds) as Hlen.
  unfold range in Hlen. rewrite length_seqZ in Hlen.
  apply py_getitem_Ok; [lia|].
  destruct (lookup_lt_is_Some_2 ds (Z.to_nat a)) as [dist' Hd']; [lia|].
  destruct (Forall2_lookup_r _ _ _ _ _ Hds Hd') as (a' & Ha' & E').
  unfold range in Ha'. apply lookup_seqZ in Ha' as [-> _].
  replace (0 + Z.of_nat (Z.to_nat a)) with a in E' by lia. congruence.
Qed.

(** The candidate list of a (source, destination) pair. *)
Definition is_candidates (src dest : Z) (cs : list (Z * Z)) : Prop :=
  NoDup cs ∧ StronglySorted entry_le cs ∧ ∀ c nh, (c, nh) ∈ cs ↔ via mesh src dest c nh.

Lemma add_candidates_spec ds dest ns cs :
  distances_ok ds → (∀ nh, nh ∈ ns → 0 ≤ nh < n) → NoDup ns →
  (∀ nh, nh ∈ ns → nh ∉ cs.*2) → NoDup cs →
  ∃ cs', foldM (add_candidate ds dest) cs ns = Ok cs' ∧ NoDup cs' ∧
    ∀ c nh, (c, nh) ∈ cs' ↔ (c, nh) ∈ cs ∨ (nh ∈ ns ∧ hop_dist mesh nh dest (c - 1)).
Proof.
  intros Hds. revert cs. induction ns as [|x ns IH]; intros cs Hr Hns Hfresh Hcs; simpl.
  { exists cs. split_and!; [done..|]. intros. rewrite elem_of_nil. naive_solver. }
  apply NoDup_cons in Hns as [Hx Hns].
  destruct (Hds x) as (dist & E & Hd); [by apply Hr; left|].
  assert (Hstep : add_candidate ds dest cs x = Ok (match dist !! dest with
      | None => cs | Some d => cs ++ [(1 + d, x)] end)) by (unfold add_candidate; by rewrite E).
  rewrite Hstep. simpl. clear Hstep.
  assert (Hr' : ∀ nh, nh ∈ ns → 0 ≤ nh < n) by (intros; apply Hr; by right).
  destruct (dist !! dest) as [d|] eqn:Ed.
  - destruct (IH (cs ++ [(1 + d, x)])) as (cs' & -> & Hnd & Hin); [done..| | |].
    + intros nh Hnh. rewrite fmap_app, elem_of_app. simpl. rewrite list_elem_of_singleton.
      intros [?| ->]; [|done]. by apply (Hfresh nh); [right|].
    + apply NoDup_app. split_and!; [done| |apply NoDup_singleton].
      intros p Hp ->%list_elem_of_singleton. apply (Hfresh x); [by left|].
      apply list_elem_of_fmap. by exists (1 + d, x).
    + exists cs'. split_and!; [done..|]. intros c nh.
      rewrite Hin, elem_of_app, list_elem_of_singleton, elem_of_cons. split.
      * intros [[?|[= -> ->]]|?]; [by left|right|naive_solver].
        split; [by left|]. apply Hd. rewrite Ed. f_equal. lia.
      * intros [?|[[->|?] Hh]]; [by left; left| |by right].
        left. right. apply Hd in Hh. f_equal. simplify_eq. lia.
  - destruct (IH cs) as (cs' & -> & Hnd & Hin); [done..| |done|].
    { intros nh ?. apply Hfresh. by right. }
    exists cs'. split_and!; [done..|]. intros c nh. rewrite Hin, elem_of_cons.
    split; [naive_solver|]. intros [?|[[->|?] Hh]]; [by left| |by right].
    apply Hd in Hh. congruence.
Qed.

Lemma sorted_candidates_spec ds src dest :
  distances_ok ds → 0 ≤ src < n →
  ∃ cs, sorted_candidates g ds src dest = Ok cs ∧ is_candidates src dest cs.
Proof.
  intros Hds Hsrc. unfold sorted_candidates.
  destruct (proj2 (mg_dom _ _ _ _ Hg src) Hsrc) as [ns Hns]. rewrite Hns.
  assert (Hadj : ∀ nh, nh ∈ elements ns ↔ linked mesh src nh).
  { intros nh. rewrite elem_of_elements, <- (mg_adj _ _ _ _ Hg), adjacent_alt, Hns. done. }
  destruct (add_candidates_spec ds dest (elements ns) []) as (cs & -> & Hnd & Hin).
  - done.
  - intros nh Hnh%Hadj. by eapply (mg_range _ _ _ _ Hg).
  - apply NoDup_elements.
  - intros nh _. apply not_elem_of_nil.
  - constructor.
  - exists (merge_sort entry_le cs). split; [done|]. split_and!.
    + by rewrite (merge_sort_Permutation entry_le cs).
    + apply StronglySorted_merge_sort; apply _.
    + intros c nh. rewrite (merge_sort_Permutation entry_le cs), Hin, Hadj, elem_of_nil.
      unfold via. naive_solver.
Qed.

Lemma hop_ip_spec src nh :
  linked mesh src nh → ∃ ip, hop_ip ls scheme src nh = Ok ip ∧ ∀ ip', link_ip mesh scheme src nh ip' ↔ ip' = ip.
Proof.
  intros Hl. destruct (mg_subnet _ _ _ _ Hg src nh Hl) as (l & sn & Hlast & Hsn & Hr & E).
  unfold MAX_LINK_SUBNET_ID in Hr. unfold hop_ip. rewrite E.
  destruct (mg_range _ _ _ _ Hg nh src) as [_ Hnh]; [by symmetry|].
  eexists. split; [apply host_ip_Ok; split_and!; [lia..|done]|].
  intros ip'. unfold link_ip. setoid_rewrite host_ip_Ok. split.
  - intros (? & ? & ? & ? & _ & _ & ->). by simplify_eq.
  - intros ->. exists l, sn. split_and!; [done..|lia|lia|lia|lia|done].
Qed.

(** * The duplicate filter *)

Definition key_of (r : Route) : route_key := (source r, prefix r, next_hop_ip r).

(** [r] is the entry of [src] for [p] towards its neighbour [nh]. *)
Definition entry_for (src : Z) (p : string) (nh : Z) (r : Route) : Prop :=
  source r = src ∧ prefix r = p ∧ next_hop r = nh ∧ link_ip mesh scheme src nh (next_hop_ip r).

(** [seen] holds the keys of [routes], which are distinct. *)
Record routes_ok (st : fib_state) : Prop := {
  ro_seen : ∀ k, k ∈ st.1 ↔ k ∈ key_of <$> st.2;
  ro_NoDup : NoDup (key_of <$> st.2);
  ro_ip : ∀ r, r ∈ st.2 → link_ip mesh scheme (source r) (next_hop r) (next_hop_ip r);
}.

Lemma add_route_spec src p st nh :
  routes_ok st → linked mesh src nh →
  ∃ st', add_route ls scheme src p st nh = Ok st' ∧ routes_ok st' ∧
    ∀ r, r ∈ st'.2 ↔ r ∈ st.2 ∨ entry_for src p nh r.
Proof.
  intros [Hseen Hnd Hip] Hl. destruct (hop_ip_spec src nh Hl) as (ip & E & Hlip).
  unfold add_route. rewrite E. cbn [mbind res_bind].
  assert (Hlip' : link_ip mesh scheme src nh ip) by by apply Hlip.
  case_decide as Hk.
  - exists st. split_and!; [done|by constructor|]. intros r. split; [by left|].
    intros [?|(Hs & Hp & Hn & Hr)]; [done|]. apply Hseen, list_elem_of_fmap in Hk as ([s q m i] & [= -> -> ->] & Hin).
    specialize (Hip _ Hin). simpl in Hip. destruct r as [s' q' m' i']. simplify_eq/=.
    apply Hlip in Hr as ->. by rewrite (link_ip_inj _ _ _ _ _ _ Hlip' Hip).
  - eexists. split; [done|]. split; [constructor; simpl|intros r; simpl].
    + intros k. rewrite fmap_app, elem_of_app, elem_of_union, elem_of_singleton, Hseen. simpl.
      rewrite list_elem_of_singleton. unfold key_of at 3. simpl. tauto.
    + rewrite fmap_app. apply NoDup_app. split_and!; [done| |apply NoDup_singleton].
      intros k Hin. simpl. rewrite list_elem_of_singleton. intros ->. by apply Hk, Hseen.
    + intros r. rewrite elem_of_app, list_elem_of_singleton. intros [?| ->]; [auto|done].
    + rewrite elem_of_app, list_elem_of_singleton. unfold entry_for.
      split; [intros [?| ->]; [by left|right; by split_and!]|].
      intros [?|(<- & <- & <- & Hr)]; [by left|right]. apply Hlip in Hr as <-. by destruct r.
Qed.

Lemma fold_add_route_spec src p nhs st :
  routes_ok st → (∀ nh, nh ∈ nhs → linked mesh src nh) →
  ∃ st', foldM (add_route ls scheme src p) st nhs = Ok st' ∧ routes_ok st' ∧
    ∀ r, r ∈ st'.2 ↔ r ∈ st.2 ∨ ∃ nh, nh ∈ nhs ∧ entry_for src p nh r.
Proof.
  revert st. induction nhs as [|nh nhs IH]; intros st Hst Hl; cbn [foldM].
  { exists st. split_and!; [done..|]. intros r. setoid_rewrite elem_of_nil. naive_solver. }
  destruct (add_route_spec src p st nh Hst) as (st1 & -> & H1 & Hin1); [apply Hl; by left|].
  cbn [mbind res_bind]. destruct (IH st1 H1) as (st2 & -> & H2 & Hin2); [intros; apply Hl; by right|].
  exists st2. split_and!; [done..|]. intros r. rewrite Hin2, Hin1.
  setoid_rewrite elem_of_cons. naive_solver.
Qed.

(** * The requests *)

Variable sel : list (Z * Z) → list Z.
(** The abstract choice of next hops that [sel] implements. *)
Variable chosen : Z → Z → Z → Prop.

Hypothesis sel_chosen : ∀ src dest cs,
  is_candidates src dest cs → ∀ nh, nh ∈ sel cs ↔ chosen src dest nh.
Hypothesis chosen_linked : ∀ src dest nh, chosen src dest nh → linked mesh src nh.

Definition add_sel (ds : list (gmap Z Z)) (st : fib_state) (req : Z * Z * string) : res fib_state :=
  let '(src, dest, uri_prefix) := req in
  cs ← sorted_candidates g ds src dest;
  foldM (add_route ls scheme src uri_prefix) st (sel cs).

(** The routes a list of requests asks for. *)
Definition requested (reqs : list (Z * Z * string)) (r : Route) : Prop :=
  ∃ dest, (source r, dest, prefix r) ∈ reqs ∧ chosen (source r) dest (next_hop r) ∧
    link_ip mesh scheme (source r) (next_hop r) (next_hop_ip r).

Lemma fold_add_sel_spec ds reqs st :
  distances_ok ds → routes_ok st → (∀ src dest p, (src, dest, p) ∈ reqs → 0 ≤ src < n) →
  ∃ st', foldM (add_sel ds) st reqs = Ok st' ∧ routes_ok st' ∧
    ∀ r, r ∈ st'.2 ↔ r ∈ st.2 ∨ requested reqs r.
Proof.
  intros Hds. revert st. induction reqs as [|[[src dest] p] reqs IH]; intros st Hst Hr; cbn [foldM].
  { exists st. split_and!; [done..|]. intros r. unfold requested. setoid_rewrite elem_of_nil. naive_solver. }
  destruct (sorted_candidates_spec ds src dest Hds) as (cs & E & Hcs); [eapply Hr; by left|].
  destruct (fold_add_route_spec src p (sel cs) st Hst) as (st1 & E1 & H1 & Hin1).
  { intros nh Hnh. eapply chosen_linked, sel_chosen; eauto. }
  assert (Hstep : add_sel ds st (src, dest, p) = Ok st1) by (simpl; rewrite E; done).
  rewrite Hstep. cbn [mbind res_bind].
  destruct (IH st1 H1) as (st2 & -> & H2 & Hin2); [intros; eapply Hr; by right|].
  exists st2. split_and!; [done..|]. intros r. rewrite Hin2, Hin1. unfold requested, entry_for.
  setoid_rewrite (sel_chosen src dest cs Hcs). setoid_rewrite elem_of_cons. split.
  - intros [[?|(nh & ? & <- & <- & <- & ?)]|(d & ? & ? & ?)]; [by left|right; eauto..].
  - intros [?|(d & [[= -> -> ->]|?] & ? & ?)]; [by left; left|left; right|right; eauto].
    eexists. by split_and!.
Qed.
End routes.

(** * The two selections *)

(** [nh] is one of the [k] cheapest next hops towards [dest], ties broken by
    host index: fewer than [k] candidates come before it. *)
Definition k_best (mesh : list raw_link) (k src dest nh : Z) : Prop :=
  ∃ c, via mesh src dest c nh ∧
    ∀ cs, NoDup cs →
      (∀ p, p ∈ cs → via mesh src dest p.1 p.2 ∧ p ≠ (c, nh) ∧ entry_le p (c, nh)) →
      Z.of_nat (length cs) < k.

(** [nh] lies on a cheapest way towards [dest]. *)
Definition cheapest (mesh : list raw_link) (src dest nh : Z) : Prop :=
  ∃ c, via mesh src dest c nh ∧ ∀ c' nh', via mesh src dest c' nh' → c ≤ c'.

Definition k_sel (k : Z) (cs : list (Z * Z)) : list Z := snd <$> py_take k cs.
Definition ecmp_sel (cs : list (Z * Z)) : list Z :=
  match cs with [] => [] | (min_cost, _) :: _ => take_min min_cost cs end.

Lemma k_sel_chosen mesh k src dest cs :
  0 ≤ k → is_candidates mesh src dest cs → ∀ nh, nh ∈ k_sel k cs ↔ k_best mesh k src dest nh.
Proof.
  intros Hk (Hnd & Hs & Hin) nh. unfold k_sel, py_take, k_best.
  rewrite decide_True by done. rewrite list_elem_of_fmap. split.
  - intros ([c nh'] & -> & Ht%(elem_of_take_sorted entry_le)); [|done..]. simpl.
    destruct Ht as [Hc Hcount]. exists c. split; [by apply Hin|]. intros ys Hys Hb.
    specialize (Hcount ys Hys). rewrite <- (Z2Nat.id k) by done. apply inj_lt, Hcount.
    intros [c' m] Hy. destruct (Hb _ Hy) as (? & ? & ?). split; [by apply Hin|done].
  - intros (c & Hv & Hcount). exists (c, nh). split; [done|].
    apply (elem_of_take_sorted entry_le); [done..|]. split; [by apply Hin|].
    intros ys Hys Hb. specialize (Hcount ys Hys). apply Nat2Z.inj_lt. rewrite Z2Nat.id by done.
    apply Hcount. intros [c' m] Hy. destruct (Hb _ Hy) as (? & ? & ?). split; [by apply Hin|done].
Qed.

Lemma elem_of_take_min m cs nh :
  StronglySorted entry_le cs → nh ∈ take_min m cs ↔ ∃ c, (c, nh) ∈ cs ∧ c ≤ m.
Proof.
  induction 1 as [|[c x] cs Hs IH Hx]; simpl.
  - split; [by intros ?%elem_of_nil|by intros (? & ?%elem_of_nil & _)].
  - setoid_rewrite elem_of_cons. rewrite Forall_forall in Hx. case_decide as Hc.
    + split; [by intros ?%elem_of_nil|]. intros (c' & [[= -> ->]|Hc'] & ?); [lia|].
      specialize (Hx _ Hc'). unfold entry_le in Hx. simpl in Hx. lia.
    + rewrite elem_of_cons, IH. split; [|naive_solver].
      intros [->|(c' & ? & ?)]; [exists c|exists c']; (split; [auto|lia]).
Qed.

Lemma ecmp_sel_chosen mesh src dest cs :
  is_candidates mesh src dest cs → ∀ nh, nh ∈ ecmp_sel cs ↔ cheapest mesh src dest nh.
Proof.
  intros (Hnd & Hs & Hin) nh. unfold ecmp_sel, cheapest. destruct cs as [|[m x] cs].
  - split; [by intros ?%elem_of_nil|]. intros (c & Hv%Hin & _). by apply elem_of_nil in Hv.
  - assert (Hmin : ∀ c' nh', via mesh src dest c' nh' → m ≤ c').
    { intros c' nh' Hv%Hin. apply elem_of_cons in Hv as [[= -> ->]|Hv]; [done|].
      apply StronglySorted_inv in Hs as [_ Hx]. rewrite Forall_forall in Hx.
      specialize (Hx _ Hv). unfold entry_le in Hx. simpl in Hx. lia. }
    rewrite elem_of_take_min by done. split.
    + intros (c & Hc%Hin & Hle). exists c. split; [done|]. intros c' nh' Hv. specialize (Hmin _ _ Hv). lia.
    + intros (c & Hc & Hle). exists c. split; [by apply Hin|]. apply (Hle m x), Hin. by left.
Qed.

Lemma add_routes_sel g ls scheme ds k st req :
  add_routes g ls scheme ds k st req = add_sel g ls scheme (k_sel k) ds st req.
Proof. by destruct req as [[src dest] p]. Qed.

Lemma add_ecmp_sel g ls scheme ds st req :
  add_ecmp g ls scheme ds st req = add_sel g ls scheme ecmp_sel ds st req.
Proof.
  destruct req as [[src dest] p]. unfold add_ecmp, add_sel, ecmp_sel.
  destruct (sorted_candidates g ds src dest) as [[|[]]| |]; done.
Qed.

Lemma foldM_ext {A B} (f f' : A → B → res A) a bs :
  (∀ a b, f a b = f' a b) → foldM f a bs = foldM f' a bs.
Proof.
  intros E. revert a. induction bs as [|b bs IH]; intros a; simpl; [done|].
  rewrite E. destruct (f' a b); simpl; auto.
Qed.

(** * The requests of a configuration *)

(** A route from [src] to [dest] is asked for under [p]: every host towards the
    publisher, and the publisher towards every host; static prefixes only get
    the first direction. *)
Inductive asked (n : Z) (uris prefs : list (string * Z)) : Z → Z → string → Prop :=
  | asked_publisher p pub src : (p, pub) ∈ uris → 0 ≤ src < n → src ≠ pub → asked n uris prefs src pub p
  | asked_reflexive p pub dest : (p, pub) ∈ uris → 0 ≤ dest < n → dest ≠ pub → asked n uris prefs pub dest p
  | asked_prefix p dest src : (p, dest) ∈ prefs → 0 ≤ src < n → src ≠ dest → asked n uris prefs src dest p.

Lemma elem_of_prefix_requests n ps src dest p :
  (src, dest, p) ∈ (ps ≫= prefix_requests n) ↔ (p, dest) ∈ ps ∧ 0 ≤ src < n ∧ src ≠ dest.
Proof.
  rewrite list_elem_of_bind. unfold prefix_requests. split.
  - intros ([q d] & Hin & ?). apply list_elem_of_fmap in Hin as (s & [= -> -> ->] & Hs).
    apply list_elem_of_filter in Hs as [? ?%elem_of_range]. done.
  - intros (? & ? & ?). exists (p, dest). split; [|done]. apply list_elem_of_fmap. exists src.
    split; [done|]. apply list_elem_of_filter. by rewrite elem_of_range.
Qed.

Lemma elem_of_reflexive_requests n (ps : list (string * Z)) src dest p :
  (src, dest, p) ∈ (ps ≫= λ q, (λ d, (q.2, d, q.1)) <$> filter (λ d, d ≠ q.2) (range n)) ↔
  (p, src) ∈ ps ∧ 0 ≤ dest < n ∧ dest ≠ src.
Proof.
  rewrite list_elem_of_bind. split.
  - intros ([q d] & Hin & ?). apply list_elem_of_fmap in Hin as (s & [= -> -> ->] & Hs).
    apply list_elem_of_filter in Hs as [? ?%elem_of_range]. done.
  - intros (? & ? & ?). exists (p, src). split; [|done]. apply list_elem_of_fmap. exists dest.
    split; [done|]. apply list_elem_of_filter. by rewrite elem_of_range.
Qed.

Lemma elem_of_uri_requests n uris src dest p :
  (src, dest, p) ∈ (uris ≫= uri_requests n) ↔
  ((p, dest) ∈ uris ∧ 0 ≤ src < n ∧ src ≠ dest) ∨ ((p, src) ∈ uris ∧ 0 ≤ dest < n ∧ dest ≠ src).
Proof.
  rewrite <- elem_of_prefix_requests, <- elem_of_reflexive_requests, !list_elem_of_bind.
  unfold uri_requests, prefix_requests. split.
  - intros ([q d] & Hin & ?). apply elem_of_app in Hin as [?|?]; [left|right]; by exists (q, d).
  - intros [([q d] & ? & ?)|([q d] & ? & ?)]; exists (q, d); rewrite elem_of_app; auto.
Qed.

(** A configuration whose publishers are hosts of the mesh. *)
Definition publishers_ok (n : Z) (uris : list (string * Z)) : Prop :=
  Forall (λ u, 0 ≤ u.2 < n) uris.

(** [r] is a route the configuration asks for, through a next hop [chosen]. *)
Definition route_asked (mesh : list raw_link) (scheme : AddressingScheme) (n : Z)
    (uris prefs : list (string * Z)) (chosen : Z → Z → Z → Prop) (r : Route) : Prop :=
  ∃ dest, asked n uris prefs (source r) dest (prefix r) ∧ chosen (source r) dest (next_hop r) ∧
    link_ip mesh scheme (source r) (next_hop r) (next_hop_ip r).

(** The result of a route computation: exactly the routes asked for, with no
    two entries for the same source, prefix and next-hop address. *)
Definition fib_correct (mesh : list raw_link) (scheme : AddressingScheme) (n : Z)
    (uris prefs : list (string * Z)) (chosen : Z → Z → Z → Prop) (r : res (list Route)) : Prop :=
  ∃ routes, r = Ok routes ∧ NoDup (key_of <$> routes) ∧
    ∀ r, r ∈ routes ↔ route_asked mesh scheme n uris prefs chosen r.

Lemma k_best_linked mesh k src dest nh : k_best mesh k src dest nh → linked mesh src nh.
Proof. by intros (c & [? _] & _). Qed.
Lemma cheapest_linked mesh src dest nh : cheapest mesh src dest nh → linked mesh src nh.
Proof. by intros (c & [? _] & _). Qed.

Lemma routes_ok_init mesh scheme : routes_ok mesh scheme (∅, []).
Proof.
  constructor; simpl.
  - intros k. rewrite elem_of_nil. set_solver.
  - constructor.
  - by intros r ?%elem_of_nil.
Qed.

(** Both route computations, up to their selection of next hops. *)
Lemma fold_requests_correct mesh n g ls scheme ds sel chosen uris prefs reqs :
  mesh_graph mesh n g ls → oct2 scheme = 0 → distances_ok mesh n ds →
  (∀ src dest cs, is_candidates mesh src dest cs → ∀ nh, nh ∈ sel cs ↔ chosen src dest nh) →
  (∀ src dest nh, chosen src dest nh → linked mesh src nh) →
  publishers_ok n uris →
  (∀ src dest p, (src, dest, p) ∈ reqs ↔ asked n uris prefs src dest p) →
  fib_correct mesh scheme n uris prefs chosen
    (st ← foldM (add_sel g ls scheme sel ds) (∅, []) reqs; Ok st.2).
Proof.
  intros Hg Hs Hds Hsel Hl Hpub Hreqs.
  destruct (fold_add_sel_spec mesh n g ls scheme Hg Hs sel chosen Hsel Hl ds reqs (∅, []))
    as (st & -> & [_ Hnd _] & Hin); [done|apply routes_ok_init| |].
  { intros src dest p Hp%Hreqs. unfold publishers_ok in Hpub. rewrite Forall_forall in Hpub.
    destruct Hp; try done. by apply (Hpub (p, pub)). }
  exists st.2. split_and!; [done..|]. intros r. rewrite Hin, elem_of_nil.
  unfold requested, route_asked. setoid_rewrite Hreqs. naive_solver.
Qed.

Lemma asked_uri_requests n uris prefs src dest p :
  (src, dest, p) ∈ (uris ≫= uri_requests n) ++ (prefs ≫= prefix_requests n) ↔
  asked n uris prefs src dest p.
Proof.
  rewrite elem_of_app, elem_of_uri_requests, elem_of_prefix_requests. split.
  - intros [[(? & ? & ?)|(? & ? & ?)]|(? & ? & ?)]; by econstructor.
  - destruct 1; auto.
Qed.

Lemma compute_fib_for_uris_spec mesh k uris scheme prefs n :
  wf_mesh mesh → host_count (TopologyModel mesh) = Ok n → 0 ≤ k →
  oct2 (default default_scheme scheme) = 0 → publishers_ok n uris →
  fib_correct mesh (default default_scheme scheme) n uris (default [] prefs) (k_best mesh k)
    (compute_fib_for_uris mesh k uris scheme prefs).
Proof.
  intros Hwf Hn Hk Hs Hpub. unfold compute_fib_for_uris.
  destruct (build_graph_and_subnets_spec mesh Hwf) as (n' & g & ls & Hn' & -> & Hg).
  assert (n' = n) as -> by congruence. cbn [mbind res_bind].
  destruct (all_distances_spec mesh n g ls Hg) as (ds & -> & Hds). cbn [mbind res_bind].
  erewrite foldM_ext by (intros; apply add_routes_sel).
  apply fold_requests_correct; try done.
  - intros src dest cs Hcs. by apply k_sel_chosen.
  - intros src dest nh. apply k_best_linked.
  - intros src dest p. apply asked_uri_requests.
Qed.

(** The default prefixes: one per host. *)
Definition default_prefixes (n : Z) : list (string * Z) :=
  (λ d, ("ccnx:/test/example" +s+ str_Z (d + 1), d)) <$> range n.

Lemma ecmp_compute_routes_spec mesh uris scheme prefs n :
  wf_mesh mesh → host_count (TopologyModel mesh) = Ok n →
  oct2 (default default_scheme scheme) = 0 → publishers_ok n uris →
  fib_correct mesh (default default_scheme scheme) n uris
    (if decide (uris = [] ∧ default [] prefs = []) then default_prefixes n else default [] prefs)
    (cheapest mesh)
    (ecmp_compute_routes mesh uris scheme prefs).
Proof.
  intros Hwf Hn Hs Hpub. unfold ecmp_compute_routes.
  destruct (build_graph_and_subnets_spec mesh Hwf) as (n' & g & ls & Hn' & -> & Hg).
  assert (n' = n) as -> by congruence. cbn [mbind res_bind].
  destruct (all_distances_spec mesh n g ls Hg) as (ds & -> & Hds). cbn [mbind res_bind].
  erewrite foldM_ext by (intros; apply add_ecmp_sel).
  apply fold_requests_correct; try done.
  - intros src dest cs. apply ecmp_sel_chosen.
  - intros src dest nh. apply cheapest_linked.
  - intros src dest p. unfold ecmp_requests. fold (default_prefixes n).
    rewrite !elem_of_app, elem_of_reflexive_requests, !elem_of_prefix_requests.
    case_decide as Hd; [destruct Hd as [-> ->]|]; rewrite ?elem_of_nil; split.
    + intros [(? & ? & ?)|[(? & ? & ?)|(? & ? & ?)]]; try done. by apply asked_prefix.
    + destruct 1; rewrite ?elem_of_nil in *; tauto.
    + intros [(? & ? & ?)|[(? & ? & ?)|(? & ? & ?)]]; by econstructor.
    + destruct 1; auto.
Qed.

(** * [compute_fib] *)

(** The appending loop of [compute_fib] for one pair. *)
Definition append_route (ls : subnets) (scheme : AddressingScheme) (src : Z) (p : string)
    (routes : list Route) (nh : Z) : res (list Route) :=
  ip ← hop_ip ls scheme src nh; Ok (routes ++ [mkRoute src p nh ip]).

Section default_routes.
Context (mesh : list raw_link) (n : Z) (g : graph) (ls : subnets) (scheme : AddressingScheme).
Context (Hg : mesh_graph mesh n g ls) (Hscheme : oct2 scheme = 0).

(** Without a repeated next hop the duplicate filter never fires. *)
Lemma append_fresh src p nhs st :
  routes_ok mesh scheme st → NoDup nhs → (∀ nh, nh ∈ nhs → linked mesh src nh) →
  (∀ r, r ∈ st.2 → source r = src → prefix r = p → next_hop r ∉ nhs) →
  ∃ st', foldM (add_route ls scheme src p) st nhs = Ok st' ∧
    foldM (append_route ls scheme src p) st.2 nhs = Ok st'.2.
Proof.
  revert st. induction nhs as [|nh nhs IH]; intros st Hst Hnd Hl Hfresh; cbn [foldM]; [eauto|].
  apply NoDup_cons in Hnd as [Hnh Hnd].
  destruct (add_route_spec mesh n g ls scheme Hg Hscheme src p st nh Hst) as (st1 & E1 & H1 & Hin1).
  { apply Hl. by left. }
  assert (Ha : append_route ls scheme src p st.2 nh = Ok st1.2).
  { unfold add_route in E1. unfold append_route.
    destruct (hop_ip_spec mesh n g ls scheme Hg Hscheme src nh) as (ip & E & Hip); [apply Hl; by left|].
    rewrite E in E1 |- *. cbn [mbind res_bind] in *. case_decide as Hk; [|by inv_ok].
    exfalso. apply (ro_seen _ _ _ Hst), list_elem_of_fmap in Hk as ([s q m i] & [= <- <- <-] & Hr).
    apply (Hfresh _ Hr); [done..|]. simpl.
    pose proof (ro_ip _ _ _ Hst _ Hr) as Hi. simpl in Hi.
    rewrite (link_ip_inj _ _ _ _ _ _ Hi (proj2 (Hip ip) eq_refl)). by left. }
  rewrite E1, Ha. cbn [mbind res_bind]. apply IH; [done..| |].
  - intros m ?. apply Hl. by right.
  - intros r Hr Hs Hp Hm. apply Hin1 in Hr as [Hr|(_ & _ & <- & _)]; [|done].
    apply (Hfresh r Hr Hs Hp). by right.
Qed.

Lemma k_sel_NoDup k cs src dest : is_candidates mesh src dest cs → NoDup (k_sel k cs).
Proof.
  intros (Hnd & _ & Hin). assert (H2 : NoDup cs.*2).
  { apply NoDup_fmap_2_strong; [|done]. intros [c x] [c' y] Hx Hy Heq. simpl in Heq. subst y. f_equal.
    apply Hin in Hx as [_ [(p & Hp & Ep) Hmin]], Hy as [_ [(q & Hq & Eq) Hmin']].
    specialize (Hmin q Hq). specialize (Hmin' p Hp). lia. }
  unfold k_sel, py_take. case_decide; rewrite fmap_take; by apply NoDup_take.
Qed.

(** [append_fresh] for a list of requests, each for its own source and prefix. *)
Lemma fold_append_fresh ds k reqs st :
  distances_ok mesh n ds → 0 ≤ k → routes_ok mesh scheme st →
  NoDup ((λ q : Z * Z * string, (q.1.1, q.2)) <$> reqs) →
  (∀ q, q ∈ reqs → 0 ≤ q.1.1 < n) →
  (∀ r q, r ∈ st.2 → q ∈ reqs → (source r, prefix r) ≠ (q.1.1, q.2)) →
  ∃ st', foldM (add_sel g ls scheme (k_sel k) ds) st reqs = Ok st' ∧
    foldM (λ routes q, cs ← sorted_candidates g ds q.1.1 q.1.2;
             foldM (append_route ls scheme q.1.1 q.2) routes (k_sel k cs)) st.2 reqs = Ok st'.2.
Proof.
  intros Hds Hk. revert st.
  induction reqs as [|[[src dest] p] reqs IH]; intros st Hst Hnd Hr Hfresh; cbn [foldM]; [eauto|].
  simpl in Hnd. apply NoDup_cons in Hnd as [Hq Hnd].
  destruct (sorted_candidates_spec mesh n g ls Hg ds src dest Hds) as (cs & Ecs & Hcs).
  { apply (Hr (src, dest, p)). by left. }
  assert (Hl : ∀ nh, nh ∈ k_sel k cs → linked mesh src nh).
  { intros nh Hnh. apply (k_sel_chosen mesh k src dest cs Hk Hcs) in Hnh. by eapply k_best_linked. }
  destruct (append_fresh src p (k_sel k cs) st Hst) as (st1 & E1 & E2); [by eapply k_sel_NoDup|done| |].
  { intros r Hin Hs Hp. exfalso. apply (Hfresh r (src, dest, p) Hin); [by left|]. simpl. by subst. }
  destruct (fold_add_route_spec mesh n g ls scheme Hg Hscheme src p (k_sel k cs) st Hst Hl)
    as (st1' & E1' & H1 & Hin1).
  assert (st1' = st1) as -> by congruence.
  assert (Hstep : add_sel g ls scheme (k_sel k) ds st (src, dest, p) = Ok st1)
    by (simpl; rewrite Ecs; done).
  rewrite Hstep. simpl. rewrite Ecs. simpl. rewrite E2. cbn [mbind res_bind]. apply IH; [done..| |].
  - intros q ?. apply Hr. by right.
  - intros r q Hin Hqin Heq. apply Hin1 in Hin as [Hin|(nh & _ & Hs & Hp & _)].
    + apply (Hfresh r q Hin); [by right|done].
    + apply Hq, list_elem_of_fmap. exists q. split; [|done]. simpl. by rewrite <- Heq, Hs, Hp.
Qed.

(** The pairs of [compute_fib], in loop order. *)
Definition default_requests : list (Z * Z * string) :=
  range n ≫= λ src,
    (λ dest, (src, dest, "ccnx:/test/example" +s+ str_Z (dest + 1))) <$> filter (λ d, src ≠ d) (range n).

Lemma fold_fib_pair ds k src dests routes :
  foldM (fib_pair g ls scheme ds k src) routes dests =
  foldM (λ routes q, cs ← sorted_candidates g ds q.1.1 q.1.2;
             foldM (append_route ls scheme q.1.1 q.2) routes (k_sel k cs)) routes
    ((λ dest, (src, dest, "ccnx:/test/example" +s+ str_Z (dest + 1))) <$> filter (λ d, src ≠ d) dests).
Proof.
  revert routes. induction dests as [|d dests IH]; intros routes; [done|]. cbn [foldM].
  rewrite filter_cons. destruct (decide (src = d)) as [->|Hne].
  - rewrite decide_False by naive_solver.
    assert (E : fib_pair g ls scheme ds k d routes d = Ok routes)
      by (unfold fib_pair; by rewrite decide_True).
    rewrite E. apply IH.
  - rewrite decide_True by done. cbn [fmap list_fmap foldM fst snd].
    set (p := "ccnx:/test/example" +s+ str_Z (d + 1)).
    assert (E : ∀ (cs : list (Z * Z)) rs, foldM (λ routes c, ip ← hop_ip ls scheme src c.2;
          Ok (routes ++ [mkRoute src p c.2 ip])) rs cs
        = foldM (append_route ls scheme src p) rs (snd <$> cs)).
    { intros cs. induction cs as [|c cs IHc]; intros rs; [done|]. cbn [foldM fmap list_fmap].
      unfold append_route at 2. destruct (hop_ip ls scheme src c.2); [apply IHc|done..]. }
    assert (E2 : fib_pair g ls scheme ds k src routes d =
      (cs ← sorted_candidates g ds src d; foldM (append_route ls scheme src p) routes (k_sel k cs))).
    { unfold fib_pair. rewrite decide_False by done.
      destruct (sorted_candidates g ds src d) as [cs| |]; [apply E|done..]. }
    rewrite E2. destruct (sorted_candidates g ds src d) as [cs| |]; cbn [mbind res_bind]; [|done..].
    destruct (foldM _ routes _); [apply IH|done..].
Qed.

Lemma fold_fib_pairs ds k srcs routes :
  foldM (λ routes src, foldM (fib_pair g ls scheme ds k src) routes (range n)) routes srcs =
  foldM (λ routes q, cs ← sorted_candidates g ds q.1.1 q.1.2;
             foldM (append_route ls scheme q.1.1 q.2) routes (k_sel k cs)) routes
    (srcs ≫= λ src,
      (λ dest, (src, dest, "ccnx:/test/example" +s+ str_Z (dest + 1))) <$> filter (λ d, src ≠ d) (range n)).
Proof.
  revert routes. induction srcs as [|s srcs IH]; intros routes; [done|].
  cbn [foldM mbind list_bind]. rewrite foldM_app, fold_fib_pair.
  destruct (foldM _ routes _); cbn [mbind res_bind]; [apply IH|done..].
Qed.

Lemma default_requests_NoDup : NoDup ((λ q : Z * Z * string, (q.1.1, q.2)) <$> default_requests).
Proof.
  unfold default_requests. pose proof (NoDup_range n) as Hnd. revert Hnd.
  generalize (range n) at 1 3 as srcs.
  induction srcs as [|s srcs IH]; intros Hnd; [constructor|].
  apply NoDup_cons in Hnd as [Hs Hnd]. cbn [mbind list_bind]. rewrite fmap_app.
  apply NoDup_app. split_and!; [| |by apply IH].
  - rewrite <- list_fmap_compose. apply NoDup_fmap_2_strong; [|apply NoDup_filter, NoDup_range].
    intros x y _ _ [= Heq]. apply (inj (String.append _)) in Heq. apply (inj str_Z) in Heq. lia.
  - intros [s' p] Hin1 Hin2. apply list_elem_of_fmap in Hin1 as (q & [= -> ->] & Hq).
    apply list_elem_of_fmap in Hq as (d & -> & _). simpl in *.
    apply list_elem_of_fmap in Hin2 as ([[s2 d2] p2] & [= E _] & Hq). simpl in E. subst s2.
    apply list_elem_of_bind in Hq as (s3 & Hq & Hs3).
    apply list_elem_of_fmap in Hq as (d3 & [= <- _ _] & _). done.
Qed.

Lemma elem_of_default_requests src dest p :
  (src, dest, p) ∈ default_requests ↔ asked n [] (default_prefixes n) src dest p.
Proof.
  unfold default_requests. rewrite list_elem_of_bind. split.
  - intros (s & Hin & Hs%elem_of_range). apply list_elem_of_fmap in Hin as (d & [= -> -> ->] & Hd).
    apply list_elem_of_filter in Hd as [Hne Hd]. apply asked_prefix; [|done..].
    apply list_elem_of_fmap. by exists d.
  - destruct 1 as [? ? ? []%elem_of_nil|? ? ? []%elem_of_nil|p dest src Hp Hs Hne].
    apply list_elem_of_fmap in Hp as (d & [= -> ->] & Hd). exists src. rewrite elem_of_range.
    split; [|done]. apply list_elem_of_fmap. exists d. split; [done|]. by apply list_elem_of_filter.
Qed.
End default_routes.

Lemma compute_fib_spec mesh k scheme n :
  wf_mesh mesh → host_count (TopologyModel mesh) = Ok n → 0 ≤ k →
  oct2 (default default_scheme scheme) = 0 →
  fib_correct mesh (default default_scheme scheme) n [] (default_prefixes n) (k_best mesh k)
    (compute_fib mesh k scheme).
Proof.
  intros Hwf Hn Hk Hs. unfold compute_fib.
  destruct (build_graph_and_subnets_spec mesh Hwf) as (n' & g & ls & Hn' & -> & Hg).
  assert (n' = n) as -> by congruence. cbn [mbind res_bind].
  destruct (all_distances_spec mesh n g ls Hg) as (ds & -> & Hds). cbn [mbind res_bind].
  rewrite fold_fib_pairs. fold (default_requests n).
  destruct (fold_append_fresh mesh n g ls (default default_scheme scheme) Hg Hs ds k
              (default_requests n) (∅, [])) as (st & E1 & E2).
  - done.
  - done.
  - apply routes_ok_init.
  - apply default_requests_NoDup.
  - intros [[src d] p] Hq%elem_of_default_requests. by destruct Hq as [? ? ? []%elem_of_nil|? ? ? []%elem_of_nil|].
  - by intros r q []%elem_of_nil.
  - simpl in E2. rewrite E2.
    destruct (fold_requests_correct mesh n g ls (default default_scheme scheme) ds (k_sel k)
      (k_best mesh k) [] (default_prefixes n) (default_requests n)) as (routes & E & Hrest);
      [done..| | | | |].
    + intros src dest cs Hcs. by apply k_sel_chosen.
    + intros src dest nh. apply k_best_linked.
    + constructor.
    + intros src dest p. apply elem_of_default_requests.
    + rewrite E1 in E. simpl in E. inv_ok. by eexists.
Qed.

(** * Properties *)

(** The next hops a strategy stands for. *)
Definition strategy_chosen (strategy : RoutingStrategy) (mesh : list raw_link) (k : Z)
    : Z → Z → Z → Prop :=
  match strategy with
  | DijkstraStrategy => k_best mesh k
  | ShortestPathOnlyStrategy => k_best mesh 1
  | EqualCostMultiPathStrategy => cheapest mesh
  end.

(** The static prefixes of a configuration, the default ones when it names none. *)
Definition effective_prefixes (n : Z) (uris prefs : list (string * Z)) : list (string * Z) :=
  if decide (uris = [] ∧ prefs = []) then default_prefixes n else prefs.

Lemma compute_routes_spec strategy mesh k uris scheme prefs n :
  wf_mesh mesh → host_count (TopologyModel mesh) = Ok n → 0 ≤ k →
  oct2 (default default_scheme scheme) = 0 → publishers_ok n (default [] uris) →
  fib_correct mesh (default default_scheme scheme) n (default [] uris)
    (effective_prefixes n (default [] uris) (default [] prefs)) (strategy_chosen strategy mesh k)
    (compute_routes strategy mesh k uris scheme prefs).
Proof.
  intros Hwf Hn Hk Hs Hpub.
  assert (Hdij : ∀ k', 0 ≤ k' → fib_correct mesh (default default_scheme scheme) n (default [] uris)
    (effective_prefixes n (default [] uris) (default [] prefs)) (k_best mesh k')
    (if bool_decide (default [] uris ≠ []) || bool_decide (default [] prefs ≠ [])
     then compute_fib_for_uris mesh k' (default [] uris) scheme prefs
     else compute_fib mesh k' scheme)).
  { intros k' Hk'. unfold effective_prefixes. case_decide as Hd.
    - destruct Hd as [-> ->]. by apply compute_fib_spec.
    - destruct (bool_decide _ || bool_decide _) eqn:E; [by apply compute_fib_for_uris_spec|].
      rewrite orb_false_iff, !bool_decide_eq_false in E. destruct Hd.
      destruct E. split; by apply dec_stable. }
  destruct strategy; simpl.
  - by apply Hdij.
  - by apply Hdij.
  - by apply ecmp_compute_routes_spec.
Qed.

(** C2: refinement of route computation. On a mesh the addressing scheme covers,
    every strategy terminates without error, lists no entry twice and lists
    exactly the routes the configuration asks for: for each asked (source,
    destination, prefix), the [k] best, the single best or all equally cheap
    next hops, each with the address the next hop has on the last link of the
    mesh between the two. *)
Theorem compute_routes_correct strategy mesh k uris scheme prefs n :
  wf_mesh mesh → host_count (TopologyModel mesh) = Ok n → 0 ≤ k →
  oct2 (default default_scheme scheme) = 0 → publishers_ok n (default [] uris) →
  ∃ routes, compute_routes strategy mesh k uris scheme prefs = Ok routes ∧
    NoDup (key_of <$> routes) ∧
    ∀ r, r ∈ routes ↔
      route_asked mesh (default default_scheme scheme) n (default [] uris)
        (effective_prefixes n (default [] uris) (default [] prefs))
        (strategy_chosen strategy mesh k) r.
Proof. apply compute_routes_spec. Qed.

Lemma compute_routes_correct_witness :
  ∃ routes, compute_routes DijkstraStrategy square_mesh 2 (Some [("ccnx:/a", 3)]) None None = Ok routes ∧
    NoDup (key_of <$> routes) ∧
    ∀ r, r ∈ routes ↔
      route_asked square_mesh default_scheme 4 [("ccnx:/a", 3)]
        (effective_prefixes 4 [("ccnx:/a", 3)] []) (k_best square_mesh 2) r.
Proof.
  apply (compute_routes_correct DijkstraStrategy square_mesh 2 (Some [("ccnx:/a", 3)]) None None 4).
  - apply wf_mesh_sound. vm_compute. reflexivity.
  - vm_compute. reflexivity.
  - lia.
  - reflexivity.
  - repeat constructor; simpl; lia.
Defined.

(** ** Delivery *)

Lemma hop_dist_refl mesh a : hop_dist mesh a a 0.
Proof.
  split; [by exists [a]|]. intros p Hp%(path_walk _ unit_weight).
  eapply walk_nonneg; [|exact Hp]. intros. apply unit_weight_nonneg.
Qed.

Lemma hop_dist_fun mesh a b d d' : hop_dist mesh a b d → hop_dist mesh a b d' → d = d'.
Proof.
  intros [(p & Hp & <-) Hmin] [(q & Hq & <-) Hmin']. specialize (Hmin q Hq). specialize (Hmin' p Hp). lia.
Qed.

Lemma is_path_cons mesh s v t p :
  linked mesh s v → is_path (linked mesh) v t p → is_path (linked mesh) s t (s :: p) ∧
  path_cost (s :: p) unit_weight = 1 + path_cost p unit_weight.
Proof.
  intros He (Hh & Hl & Hc). destruct p as [|x p]; [done|]. injection Hh as ->.
  split; [|simpl; unfold unit_weight; lia]. split_and!; [done|done|]. by split.
Qed.

(** One hop along a shortest path. *)
Lemma hop_dist_step mesh src dest d :
  hop_dist mesh src dest d → src ≠ dest → ∃ nh, via mesh src dest d nh.
Proof.
  intros [(p & Hp & <-) Hmin] Hne.
  destruct (is_path_cons_inv _ _ _ _ Hp) as [[-> ->]|(v & p' & -> & He & Hp')]; [done|].
  exists v. split; [done|]. destruct (is_path_cons mesh src v dest (v :: p') He Hp') as [_ Ec].
  split.
  - exists (v :: p'). split; [done|lia].
  - intros q Hq. destruct (is_path_cons mesh src v dest q He Hq) as [Hq' Ecq].
    specialize (Hmin _ Hq'). lia.
Qed.

Lemma via_dist mesh src dest d c nh : hop_dist mesh src dest d → via mesh src dest c nh → d ≤ c.
Proof.
  intros [_ Hmin] [He [(q & Hq & Ec) _]].
  destruct (is_path_cons mesh src nh dest q He Hq) as [Hq' Ecq]. specialize (Hmin _ Hq'). lia.
Qed.

(** The strategies that only keep cheapest next hops. *)
Definition single_cost (strategy : RoutingStrategy) : Prop :=
  strategy = ShortestPathOnlyStrategy ∨ strategy = EqualCostMultiPathStrategy.

Lemma single_cost_cheapest strategy mesh k src dest nh :
  single_cost strategy → strategy_chosen strategy mesh k src dest nh → cheapest mesh src dest nh.
Proof.
  intros [-> | ->]; simpl; [|done]. intros (c & Hv & Hcount). exists c. split; [done|].
  intros c' nh' Hv'. destruct (decide (c ≤ c')) as [|Hlt]; [done|]. exfalso.
  assert (Z.of_nat (length [(c', nh')]) < 1); [|simpl in *; lia]. apply Hcount; [apply NoDup_singleton|].
  intros p ->%list_elem_of_singleton. unfold entry_le. simpl.
  split_and!; [done|intros ?; simplify_eq; lia|lia].
Qed.

Lemma cheapest_decreases mesh src dest d nh :
  hop_dist mesh src dest d → src ≠ dest → cheapest mesh src dest nh → hop_dist mesh nh dest (d - 1).
Proof.
  intros Hd Hne (c & Hv & Hmin). destruct (hop_dist_step mesh src dest d Hd Hne) as [m Hm].
  specialize (Hmin d m Hm). pose proof (via_dist _ _ _ _ _ _ Hd Hv).
  replace c with d in Hv by lia. apply Hv.
Qed.

(** A host other than the publisher forwards an Interest for [p] over one of its
    entries. *)
Definition forwards (routes : list Route) (p : string) (pub : Z) (h h' : Z) : Prop :=
  h ≠ pub ∧ ∃ r, r ∈ routes ∧ source r = h ∧ prefix r = p ∧ next_hop r = h'.

(** The entries a host other than the publisher has for a published prefix. *)
Lemma asked_published n uris prefs p pub src dest :
  NoDup uris.*1 → (p, pub) ∈ uris → p ∉ prefs.*1 → src ≠ pub →
  asked n uris prefs src dest p ↔ 0 ≤ src < n ∧ dest = pub.
Proof.
  intros Hnd Hin Hp Hne. assert (Huniq : ∀ q, (p, q) ∈ uris → q = pub).
  { intros q Hq. by apply (NoDup_fst_fun uris p q pub). }
  split.
  - intros Ha. inversion Ha as [? ? ? Hq|? ? ? Hq|? ? ? Hq]; subst.
    + split; [done|by apply Huniq].
    + by rewrite (Huniq _ Hq) in Hne.
    + destruct Hp. apply list_elem_of_fmap. by exists (p, dest).
  - intros [? ->]. by apply asked_publisher.
Qed.

Lemma candidates_exist mesh n src dest :
  wf_mesh mesh → host_count (TopologyModel mesh) = Ok n → 0 ≤ src < n →
  ∃ cs, is_candidates mesh src dest cs.
Proof.
  intros Hwf Hn Hsrc.
  destruct (build_graph_and_subnets_spec mesh Hwf) as (n' & g & ls & Hn' & _ & Hg).
  assert (n' = n) as -> by congruence.
  destruct (all_distances_spec mesh n g ls Hg) as (ds & _ & Hds).
  destruct (sorted_candidates_spec mesh n g ls Hg ds src dest Hds Hsrc) as (cs & _ & Hcs). eauto.
Qed.

(** The chosen next hop of a single-cost strategy exists and is one hop closer. *)
Lemma single_cost_progress strategy mesh n k src dest d :
  wf_mesh mesh → host_count (TopologyModel mesh) = Ok n → 0 ≤ src < n → single_cost strategy →
  hop_dist mesh src dest d → src ≠ dest → ∃ nh, strategy_chosen strategy mesh k src dest nh.
Proof.
  intros Hwf Hn Hsrc Hst Hd Hne. destruct (hop_dist_step mesh src dest d Hd Hne) as [m Hm].
  destruct (candidates_exist mesh n src dest Hwf Hn Hsrc) as [cs Hcs].
  pose proof Hcs as (_ & _ & Hin). apply Hin in Hm. destruct cs as [|[c nh] cs].
  { by apply elem_of_nil in Hm. }
  exists nh. destruct Hst as [-> | ->]; simpl.
  - apply (k_sel_chosen mesh 1 src dest ((c, nh) :: cs)); [lia|done|]. by left.
  - apply (ecmp_sel_chosen mesh src dest ((c, nh) :: cs) Hcs). simpl.
    rewrite decide_False by lia. by left.
Qed.

Lemma via_range mesh n src dest c nh :
  wf_mesh mesh → host_count (TopologyModel mesh) = Ok n → via mesh src dest c nh → 0 ≤ src < n ∧ 0 ≤ nh < n.
Proof.
  intros Hwf Hn [Hl _].
  destruct (build_graph_and_subnets_spec mesh Hwf) as (n' & g & ls & Hn' & _ & Hg).
  assert (n' = n) as -> by congruence.
  split; [by eapply (mg_range _ _ _ _ Hg)|]. eapply (mg_range _ _ _ _ Hg). by symmetry.
Qed.

Lemma linked_path mesh a b : rtc (linked mesh) a b → ∃ p, is_path (linked mesh) a b p.
Proof.
  induction 1 as [x|x y z Hxy _ (p & Hp)]; [by exists [x]|].
  exists (x :: p). by destruct (is_path_cons mesh x y z p Hxy Hp).
Qed.

Lemma connected_hop_dist mesh n a b :
  wf_mesh mesh → host_count (TopologyModel mesh) = Ok n → 0 ≤ a < n → rtc (linked mesh) a b →
  ∃ d, hop_dist mesh a b d.
Proof.
  intros Hwf Hn Ha (p & Hp)%linked_path.
  destruct (build_graph_and_subnets_spec mesh Hwf) as (n' & g & ls & Hn' & _ & Hg).
  assert (n' = n) as -> by congruence. by eapply hop_dist_exists.
Qed.

(** Every strategy chooses some next hop towards a reachable destination. *)
Lemma chosen_exists strategy mesh n k src dest d :
  wf_mesh mesh → host_count (TopologyModel mesh) = Ok n → 0 ≤ src < n → 1 ≤ k →
  hop_dist mesh src dest d → src ≠ dest → ∃ nh, strategy_chosen strategy mesh k src dest nh.
Proof.
  intros Hwf Hn Hsrc Hk Hd Hne. destruct (hop_dist_step mesh src dest d Hd Hne) as [m Hm].
  destruct (candidates_exist mesh n src dest Hwf Hn Hsrc) as [cs Hcs].
  pose proof Hcs as (_ & _ & Hin). apply Hin in Hm.
  destruct cs as [|[c nh] cs]; [by apply elem_of_nil in Hm|].
  assert (Hk' : ∀ k', 1 ≤ k' → k_best mesh k' src dest nh).
  { intros k' Hk'. apply (k_sel_chosen mesh k' src dest ((c, nh) :: cs)); [lia|done|].
    unfold k_sel, py_take. rewrite decide_True by lia.
    destruct (Z.to_nat k') as [|j] eqn:Ej; [lia|]. by left. }
  exists nh. destruct strategy; simpl; [by apply Hk'|by apply Hk'|].
  apply (ecmp_sel_chosen mesh src dest ((c, nh) :: cs) Hcs). simpl.
  rewrite decide_False by lia. by left.
Qed.

Lemma chosen_linked strategy mesh k src dest nh :
  strategy_chosen strategy mesh k src dest nh → linked mesh src nh.
Proof. destruct strategy; [apply k_best_linked|apply k_best_linked|apply cheapest_linked]. Qed.

Section delivery.
Context (mesh : list raw_link) (n k : Z) (scheme : AddressingScheme) (strategy : RoutingStrategy).
Context (uris prefs : list (string * Z)) (routes : list Route) (p : string) (pub : Z).
Context (Hwf : wf_mesh mesh) (Hn : host_count (TopologyModel mesh) = Ok n).
Context (Hst : single_cost strategy).
Context (Hnd : NoDup uris.*1) (Hin : (p, pub) ∈ uris) (Hp : p ∉ prefs.*1).
Context (Hroutes : ∀ r, r ∈ routes ↔
  route_asked mesh scheme n uris prefs (strategy_chosen strategy mesh k) r).
Context (Hs : oct2 scheme = 0).

Lemma forwards_decreases h h' d :
  hop_dist mesh h pub d → forwards routes p pub h h' → hop_dist mesh h' pub (d - 1).
Proof.
  intros Hd (Hne & r & Hr & <- & <- & <-).
  apply Hroutes in Hr as (dest & Ha & Hc & _).
  apply (asked_published n uris prefs (prefix r) pub) in Ha as [_ ->]; [|done..].
  eapply cheapest_decreases; [done..|]. by eapply single_cost_cheapest.
Qed.

Lemma forwards_progress h d :
  hop_dist mesh h pub d → h ≠ pub → ∃ h', forwards routes p pub h h'.
Proof.
  intros Hd Hne. destruct (hop_dist_step mesh h pub d Hd Hne) as [m Hm].
  destruct (via_range mesh n h pub d m Hwf Hn Hm) as [Hh _].
  destruct (single_cost_progress strategy mesh n k h pub d) as [nh Hnh]; [done..|].
  destruct (build_graph_and_subnets_spec mesh Hwf) as (n' & g & ls & Hn' & _ & Hg).
  destruct (hop_ip_spec mesh n' g ls scheme Hg Hs h nh) as (ip & _ & Hip).
  { eapply cheapest_linked, single_cost_cheapest; [|exact Hnh]; done. }
  exists nh. split; [done|]. exists (mkRoute h p nh ip). simpl. split_and!; [|done..].
  apply Hroutes. exists pub. simpl. split_and!; [|done|by apply Hip].
  by apply asked_publisher.
Qed.

Lemma hop_dist_zero h : hop_dist mesh h pub 0 → h = pub.
Proof.
  intros Hd. destruct (decide (h = pub)) as [|Hne]; [done|].
  destruct (hop_dist_step mesh h pub 0 Hd Hne) as (m & _ & [(q & Hq & Ec) _]).
  apply (path_walk _ unit_weight) in Hq. eapply walk_nonneg in Hq; [lia|]. intros. apply unit_weight_nonneg.
Qed.

Lemma forwards_nsteps j h x d :
  hop_dist mesh h pub d → nsteps (forwards routes p pub) j h x → hop_dist mesh x pub (d - Z.of_nat j).
Proof.
  intros Hd Hj. revert d Hd. induction Hj as [h|j h h' x Hf _ IH]; intros d Hd.
  - by replace (d - Z.of_nat 0) with d by lia.
  - replace (d - Z.of_nat (S j)) with (d - 1 - Z.of_nat j) by lia.
    apply IH. by eapply forwards_decreases.
Qed.

Lemma forwards_deliver j h :
  hop_dist mesh h pub (Z.of_nat j) → nsteps (forwards routes p pub) j h pub.
Proof.
  revert h. induction j as [|j IH]; intros h Hd.
  - apply hop_dist_zero in Hd as ->. constructor.
  - assert (h ≠ pub) as Hne.
    { intros ->. pose proof (hop_dist_fun _ _ _ _ _ Hd (hop_dist_refl mesh pub)). lia. }
    destruct (forwards_progress h _ Hd Hne) as [h' Hf]. econstructor; [done|].
    apply IH. replace (Z.of_nat j) with (Z.of_nat (S j) - 1) by lia. by eapply forwards_decreases.
Qed.
End delivery.

(** C36: delivery without loops. Under the shortest-path and ECMP strategies, an
    Interest for a published prefix that is at distance [d] from the publisher
    reaches it after exactly [d] hops whichever of the installed entries each
    host uses; after [j] hops it is at distance [d - j], so no run is longer. *)
Theorem routes_deliver strategy mesh k uris scheme n p pub h d :
  wf_mesh mesh → host_count (TopologyModel mesh) = Ok n → 0 ≤ k →
  oct2 (default default_scheme scheme) = 0 → publishers_ok n uris → NoDup uris.*1 →
  single_cost strategy → (p, pub) ∈ uris → hop_dist mesh h pub d →
  ∃ routes, compute_routes strategy mesh k (Some uris) scheme None = Ok routes ∧
    nsteps (forwards routes p pub) (Z.to_nat d) h pub ∧
    ∀ j x, nsteps (forwards routes p pub) j h x →
      Z.of_nat j ≤ d ∧ hop_dist mesh x pub (d - Z.of_nat j) ∧ (x = pub ↔ Z.of_nat j = d).
Proof.
  intros Hwf Hn Hk Hs Hpub Hnd Hst Hin Hd.
  destruct (compute_routes_spec strategy mesh k (Some uris) scheme None n) as (routes & E & _ & Hr);
    [done..|]. simpl in Hr. exists routes. split; [done|].
  unfold effective_prefixes in Hr. rewrite decide_False in Hr
    by (intros [-> _]; by apply elem_of_nil in Hin).
  assert (Hp : p ∉ ([] : list (string * Z)).*1) by apply not_elem_of_nil.
  assert (0 ≤ d).
  { destruct Hd as [(q & Hq & <-) _]. apply (path_walk _ unit_weight) in Hq.
    eapply walk_nonneg in Hq; [done|]. intros. apply unit_weight_nonneg. }
  split.
  - eapply (forwards_deliver mesh n k (default default_scheme scheme) strategy uris []); [done..|].
    by rewrite Z2Nat.id.
  - intros j x Hj.
    pose proof (forwards_nsteps mesh n k (default default_scheme scheme) strategy uris [] routes p pub
      Hst Hnd Hin Hp Hr j h x d Hd Hj) as Hx.
    assert (Z.of_nat j ≤ d).
    { destruct Hx as [(q & Hq & Eq) _]. apply (path_walk _ unit_weight) in Hq.
      eapply walk_nonneg in Hq; [lia|]. intros. apply unit_weight_nonneg. }
    split_and!; [done..|]. split.
    + intros ->. pose proof (hop_dist_fun _ _ _ _ _ Hx (hop_dist_refl mesh pub)). lia.
    + intros <-. apply (hop_dist_zero mesh pub). by rewrite Z.sub_diag in Hx.
Qed.

(** Evaluates a hop distance. *)
Definition hop_distb (mesh : list raw_link) (a b d : Z) : bool :=
  match build_graph_and_subnets mesh with
  | Ok (n, g, _) =>
      match dijkstra_all g a unit_weight with
      | Ok (dist, _) => bool_decide (0 ≤ a < n) && bool_decide (dist !! b = Some d)
      | _ => false
      end
  | _ => false
  end.

Lemma hop_distb_sound mesh a b d : wf_mesh mesh → hop_distb mesh a b d = true → hop_dist mesh a b d.
Proof.
  intros Hwf. unfold hop_distb.
  destruct (build_graph_and_subnets_spec mesh Hwf) as (n & g & ls & _ & -> & Hg).
  destruct (dijkstra_all g a unit_weight) as [[dist par]| |] eqn:E; [|done..].
  rewrite andb_true_iff, !bool_decide_eq_true. intros [Ha Hb].
  destruct (dijkstra_distances mesh n g ls Hg a Ha) as (dist' & E' & Hd). rewrite E in E'.
  simpl in E'. inv_ok. by apply Hd.
Qed.

Lemma routes_deliver_witness :
  hop_dist square_mesh 0 3 2 ∧
  ∃ routes, compute_routes EqualCostMultiPathStrategy square_mesh 1 (Some [("ccnx:/a", 3)]) None None = Ok routes ∧
    nsteps (forwards routes "ccnx:/a" 3) (Z.to_nat 2) 0 3 ∧
    ∀ j x, nsteps (forwards routes "ccnx:/a" 3) j 0 x →
      Z.of_nat j ≤ 2 ∧ hop_dist square_mesh x 3 (2 - Z.of_nat j) ∧ (x = 3 ↔ Z.of_nat j = 2).
Proof.
  assert (Hwf : wf_mesh square_mesh) by (apply wf_mesh_sound; vm_compute; reflexivity).
  assert (Hd : hop_dist square_mesh 0 3 2) by (apply hop_distb_sound; [exact Hwf|vm_compute; reflexivity]).
  split; [exact Hd|].
  apply (routes_deliver EqualCostMultiPathStrategy square_mesh 1 [("ccnx:/a", 3)] None 4 "ccnx:/a" 3 0 2).
  - exact Hwf.
  - vm_compute. reflexivity.
  - lia.
  - reflexivity.
  - repeat constructor; simpl; lia.
  - apply NoDup_singleton.
  - by right.
  - by left.
  - exact Hd.
Defined.
