(* ===== verification/PyValue.v ===== *)
(** The values a JSON or YAML configuration holds, with the Python operations
    the configuration code applies to them: type tests, numeric comparison of
    ints and floats, truthiness, dict lookup and update, [repr] and [str].
    Strings are byte strings; [strip], [lower] and [repr] act on ASCII. *)
From S2P Require Import Prelude.
Local Open Scope Z_scope.

(** A double: NaN, an infinity, or the exact value [m * 2^e]. *)
Inductive pyfloat := FNaN | FInf (neg : bool) | FFin (m e : Z).

(** Configuration values; a dict is its list of items in insertion order. *)
Inductive pv :=
  | PNone
  | PBool (b : bool)
  | PInt (z : Z)
  | PFloat (f : pyfloat)
  | PStr (s : string)
  | PList (l : list pv)
  | PDict (d : list (pv * pv)).

Abbreviation ascii := Ascii.ascii.
Abbreviation pydict := (list (pv * pv)).

(** * Type tests *)

(** [_is_int] and [_is_number]: booleans are excluded. *)
Definition is_int (v : pv) : bool := match v with PInt _ => true | _ => false end.
Definition is_number (v : pv) : bool := match v with PInt _ | PFloat _ => true | _ => false end.
Definition is_bool (v : pv) : bool := match v with PBool _ => true | _ => false end.
Definition is_str (v : pv) : bool := match v with PStr _ => true | _ => false end.
Definition is_list (v : pv) : bool := match v with PList _ => true | _ => false end.
Definition is_dict (v : pv) : bool := match v with PDict _ => true | _ => false end.
Definition is_none (v : pv) : bool := match v with PNone => true | _ => false end.

(** A list or dict cannot be a set element or a dict key. *)
Definition hashable (v : pv) : bool := match v with PList _ | PDict _ => false | _ => true end.

(** * Numbers *)

(** The numeric value of an int, float or bool. *)
Definition as_num (v : pv) : option pyfloat :=
  match v with
  | PBool b => Some (FFin (Z.b2z b) 0)
  | PInt z => Some (FFin z 0)
  | PFloat f => Some f
  | _ => None
  end.

(** Exact comparison, as Python compares ints and floats. *)
Definition float_lt (x y : pyfloat) : bool :=
  match x, y with
  | FNaN, _ | _, FNaN => false
  | FInf n, FInf n' => n && negb n'
  | FInf n, FFin _ _ => n
  | FFin _ _, FInf n => negb n
  | FFin m e, FFin m' e' =>
      let lo := Z.min e e' in Z.shiftl m (e - lo) <? Z.shiftl m' (e' - lo)
  end.

Definition float_eq (x y : pyfloat) : bool :=
  match x, y with
  | FNaN, _ | _, FNaN => false
  | FInf n, FInf n' => eqb n n'
  | FFin m e, FFin m' e' =>
      let lo := Z.min e e' in Z.shiftl m (e - lo) =? Z.shiftl m' (e' - lo)
  | _, _ => false
  end.

Definition float_le (x y : pyfloat) : bool := float_lt x y || float_eq x y.

(** [v < c] for a number [v]; a non-number is never compared by the code. *)
Definition num_lt (v : pv) (c : pyfloat) : bool :=
  match as_num v with Some x => float_lt x c | None => false end.
Definition num_le (v : pv) (c : pyfloat) : bool :=
  match as_num v with Some x => float_le x c | None => false end.

(** The integer constants and [0.001] as doubles. *)
Definition int_f (z : Z) : pyfloat := FFin z 0.
Definition f_0_001 : pyfloat := FFin 1152921504606847 (-60).

(** [math.isfinite(v)]; converting an int of 2^1024 - 2^970 or more to a double
    raises [OverflowError], here [None]. *)
Definition isfinite (v : pv) : option bool :=
  match v with
  | PInt z => if Z.abs z <? 2 ^ 1024 - 2 ^ 970 then Some true else None
  | PFloat (FFin _ _) => Some true
  | PFloat _ => Some false
  | _ => None
  end.

(** * Equality and truth *)

(** [v == s], [v == z] and [v == b] for constants. *)
Definition eq_str (v : pv) (s : string) : bool :=
  match v with PStr t => bool_decide (t = s) | _ => false end.
Definition eq_int (v : pv) (z : Z) : bool :=
  match as_num v with Some x => float_eq x (int_f z) | None => false end.

(** [v in ("a", "b", ...)]. *)
Definition in_strs (v : pv) (l : list string) : bool := existsb (eq_str v) l.

(** Equality of hashable values, as dict keys. *)
Definition key_eq (a b : pv) : bool :=
  match a, b with
  | PNone, PNone => true
  | PStr s, PStr t => bool_decide (s = t)
  | PStr _, _ | _, PStr _ => false
  | _, _ => match as_num a, as_num b with Some x, Some y => float_eq x y | _, _ => false end
  end.

(** [a == b]. *)
Fixpoint pv_eqb (a b : pv) {struct a} : bool :=
  match a, b with
  | PList l, PList l' =>
      (fix go l l' := match l, l' with
        | [], [] => true
        | x :: l, y :: l' => pv_eqb x y && go l l'
        | _, _ => false
        end) l l'
  | PDict d, PDict d' =>
      bool_decide (length d = length d') &&
      forallb (λ kv : pv * pv,
        match List.find (λ kv' : pv * pv, key_eq kv.1 kv'.1) d' with
        | Some kv' => pv_eqb kv.2 kv'.2
        | None => false
        end) d
  | (PList _ | PDict _), _ | _, (PList _ | PDict _) => false
  | _, _ => key_eq a b
  end.

(** [bool(v)]. *)
Definition truthy (v : pv) : bool :=
  match v with
  | PNone => false
  | PBool b => b
  | PInt z => negb (z =? 0)
  | PFloat (FFin m _) => negb (m =? 0)
  | PFloat _ => true
  | PStr s => negb (bool_decide (s = ""))
  | PList l => negb (bool_decide (length l = 0%nat))
  | PDict d => negb (bool_decide (length d = 0%nat))
  end.

(** * Dicts *)

(** [d.get(k)] for a string key, and [k in d]. *)
Fixpoint dget (d : pydict) (k : string) : option pv :=
  match d with
  | [] => None
  | (k', v) :: d => if eq_str k' k then Some v else dget d k
  end.
Definition dhas (d : pydict) (k : string) : bool := bool_decide (is_Some (dget d k)).

(** [d.get(k)] and [d.get(k, default)] as values. *)
Definition get_none (d : pydict) (k : string) : pv := default PNone (dget d k).
Definition get_or (d : pydict) (k : string) (v : pv) : pv := default v (dget d k).

(** [d[k] = v] for any key: in place when the key is present, else at the end. *)
Fixpoint dset (d : pydict) (k v : pv) : pydict :=
  match d with
  | [] => [(k, v)]
  | (k', v') :: d => if key_eq k' k then (k', v) :: d else (k', v') :: dset d k v
  end.

(** [{**d, **d'}] and [d.pop(k, None)]. *)
Definition dmerge (d d' : pydict) : pydict := foldl (λ d kv, dset d kv.1 kv.2) d d'.
Definition dpop (d : pydict) (k : string) : pydict :=
  List.filter (λ kv : pv * pv, negb (eq_str kv.1 k)) d.

(** * Strings *)

(** [str.join]. *)
Fixpoint join (sep : string) (l : list string) : string :=
  match l with
  | [] => ""
  | [s] => s
  | s :: l => s +s+ sep +s+ join sep l
  end.

Definition code (c : ascii) : N := Ascii.N_of_ascii c.

(** ASCII whitespace, as [str.strip] removes it. *)
Definition is_space (c : ascii) : bool :=
  let n := code c in ((9 <=? n) && (n <=? 13) || (28 <=? n) && (n <=? 32))%N.

Fixpoint lstrip (s : string) : string :=
  match s with
  | EmptyString => EmptyString
  | String c s' => if is_space c then lstrip s' else s
  end.
Fixpoint rstrip (s : string) : string :=
  match s with
  | EmptyString => EmptyString
  | String c s' =>
      match rstrip s' with
      | EmptyString => if is_space c then EmptyString else String c EmptyString
      | t => String c t
      end
  end.
Definition strip (s : string) : string := rstrip (lstrip s).

Definition lower_char (c : ascii) : ascii :=
  let n := code c in if ((65 <=? n) && (n <=? 90))%N then Ascii.ascii_of_N (n + 32) else c.
Fixpoint lower (s : string) : string :=
  match s with EmptyString => EmptyString | String c s => String (lower_char c) (lower s) end.

(** Iteration over a value: the items of a list, the keys of a dict, the characters
    of a string. *)
Fixpoint str_chars (s : string) : list pv :=
  match s with EmptyString => [] | String c s => PStr (String c EmptyString) :: str_chars s end.
Definition py_list (v : pv) : res (list pv) :=
  match v with
  | PList l => Ok l
  | PDict d => Ok d.*1
  | PStr s => Ok (str_chars s)
  | _ => raise ETypeError "object is not iterable"
  end.

(** [sub in s] and [s.startswith(p)]. *)
Definition startswith (s p : string) : bool := String.prefix p s.
Fixpoint contains (s sub : string) : bool :=
  startswith s sub || match s with EmptyString => false | String _ s => contains s sub end.

(** [sorted] on strings. *)
Definition str_le (s t : string) : Prop := String.leb s t = true.
#[export] Instance str_le_dec : RelDecision str_le.
Proof. intros s t. unfold str_le. apply _. Defined.
Definition sorted_strs (l : list string) : list string := merge_sort str_le l.

(** * JSON *)

(** [json.loads]: a value or the message of its [ValueError]. *)
Class JsonLib := json_loads : string → pv + string.

(** * repr *)

(** The shortest decimal form of a double, as [repr] prints it. *)
Class FloatRepr := float_repr : pyfloat → string.

Definition hex_digit (n : N) : ascii :=
  Ascii.ascii_of_N (if (n <? 10)%N then 48 + n else 87 + n).
Definition backslash : ascii := Ascii.ascii_of_N 92.
Definition dquote : string := String (Ascii.ascii_of_N 34) EmptyString.

Definition repr_char (quote : string) (c : ascii) : string :=
  let n := code c in
  if bool_decide (String c EmptyString = quote) || (n =? 92)%N then
    String backslash (String c EmptyString)
  else if (n =? 9)%N then String backslash "t"
  else if (n =? 10)%N then String backslash "n"
  else if (n =? 13)%N then String backslash "r"
  else if ((n <? 32) || (n =? 127))%N then
    String backslash (String (Ascii.ascii_of_N 120) (String (hex_digit (n / 16)) (String (hex_digit (n mod 16)) EmptyString)))
  else String c EmptyString.

Fixpoint repr_chars (quote : string) (s : string) : string :=
  match s with
  | EmptyString => EmptyString
  | String c s => repr_char quote c +s+ repr_chars quote s
  end.

(** [repr(s)]: double quotes when the text has a single quote and no double one. *)
Definition repr_str (s : string) : string :=
  let quote := if contains s "'" && negb (contains s dquote) then dquote else "'" in
  quote +s+ repr_chars quote s +s+ quote.

Fixpoint repr `{FloatRepr} (v : pv) : string :=
  match v with
  | PNone => "None"
  | PBool b => if b then "True" else "False"
  | PInt z => str_Z z
  | PFloat f => float_repr f
  | PStr s => repr_str s
  | PList l => "[" +s+ join ", " (repr <$> l) +s+ "]"
  | PDict d => "{" +s+ join ", " ((λ kv, repr kv.1 +s+ ": " +s+ repr kv.2) <$> d) +s+ "}"
  end.

(** [str(v)]. *)
Definition py_str `{FloatRepr} (v : pv) : string :=
  match v with PStr s => s | _ => repr v end.

(** * Induction on values *)

Section pv_ind.
Variable P : pv → Prop.
Hypothesis (HN : P PNone) (HB : ∀ b, P (PBool b)) (HI : ∀ z, P (PInt z)) (HF : ∀ f, P (PFloat f)).
Hypothesis (HS : ∀ s, P (PStr s)).
Hypothesis (HL : ∀ l, Forall P l → P (PList l)).
Hypothesis (HD : ∀ d, Forall (λ kv, P kv.1 ∧ P kv.2) d → P (PDict d)).

Fixpoint pv_ind' (v : pv) : P v :=
  match v with
  | PNone => HN
  | PBool b => HB b
  | PInt z => HI z
  | PFloat f => HF f
  | PStr s => HS s
  | PList l => HL l ((fix go l := match l return Forall P l with
      | [] => Forall_nil_2 _ | v :: l => Forall_cons_2 _ _ _ (pv_ind' v) (go l) end) l)
  | PDict d => HD d ((fix go d := match d return Forall (λ kv, P kv.1 ∧ P kv.2) d with
      | [] => Forall_nil_2 _
      | (k, v) :: d => Forall_cons_2 (λ kv, P kv.1 ∧ P kv.2) (k, v) d (conj (pv_ind' k) (pv_ind' v)) (go d)
      end) d)
  end.
End pv_ind.

(** * Lemmas *)

Lemma eq_str_true v s : eq_str v s = true ↔ v = PStr s.
Proof. destruct v; simpl; rewrite ?bool_decide_eq_true; split; congruence. Qed.

Lemma in_strs_true v l : in_strs v l = true ↔ ∃ s, s ∈ l ∧ v = PStr s.
Proof.
  unfold in_strs. rewrite existsb_exists. setoid_rewrite eq_str_true.
  by setoid_rewrite <- list_elem_of_In.
Qed.

Lemma is_int_true v : is_int v = true ↔ ∃ z, v = PInt z.
Proof. destruct v; simpl; split; try done; try (by intros [? ?]); eauto. Qed.

Lemma is_str_true v : is_str v = true ↔ ∃ s, v = PStr s.
Proof. destruct v; simpl; split; try done; try (by intros [? ?]); eauto. Qed.

Lemma is_number_true v : is_number v = true ↔ (∃ z, v = PInt z) ∨ (∃ f, v = PFloat f).
Proof. destruct v; simpl; naive_solver. Qed.

Lemma dhas_true d k : dhas d k = true ↔ ∃ v, dget d k = Some v.
Proof. unfold dhas. rewrite bool_decide_eq_true. done. Qed.

Lemma dhas_false d k : dhas d k = false ↔ dget d k = None.
Proof. unfold dhas. rewrite bool_decide_eq_false, eq_None_not_Some. done. Qed.

Lemma num_lt_int z c : num_lt (PInt z) (int_f c) = (z <? c).
Proof. unfold num_lt, int_f. simpl. by rewrite !Z.shiftl_0_r. Qed.

Lemma float_eq_int z z' : float_eq (int_f z) (int_f z') = (z =? z').
Proof. unfold float_eq, int_f. by rewrite !Z.shiftl_0_r. Qed.

Lemma key_eq_int z z' : key_eq (PInt z) (PInt z') = (z =? z').
Proof. apply float_eq_int. Qed.

Lemma key_eq_str k s : key_eq k (PStr s) = eq_str k s.
Proof. by destruct k. Qed.

Lemma key_eq_str_l s k : key_eq (PStr s) k = eq_str k s.
Proof. destruct k; simpl; try done. apply bool_decide_ext. done. Qed.

Lemma dget_dset d k v k' :
  dget (dset d (PStr k) v) k' = if bool_decide (k = k') then Some v else dget d k'.
Proof.
  induction d as [|[x y] d IH]; simpl.
  - by case_bool_decide.
  - rewrite key_eq_str. destruct (eq_str x k) eqn:E; simpl.
    + apply eq_str_true in E as ->. simpl. by repeat case_bool_decide.
    + rewrite IH. destruct (eq_str x k') eqn:E'; [|done].
      case_bool_decide; [|done]. subst. congruence.
Qed.

Lemma dget_dpop d k k' : k ≠ k' → dget (dpop d k) k' = dget d k'.
Proof.
  intros Hne. induction d as [|[x y] d IH]; simpl; [done|].
  destruct (eq_str x k) eqn:E; simpl.
  - apply eq_str_true in E as ->. simpl. by rewrite bool_decide_eq_false_2.
  - by rewrite IH.
Qed.

Lemma dget_dpop_same d k : dget (dpop d k) k = None.
Proof. induction d as [|[x y] d IH]; simpl; [done|]. destruct (eq_str x k) eqn:E; simpl; [done|by rewrite E]. Qed.

(** Popping a key forgets what was stored under it. *)
Lemma dpop_dset d k v : dpop (dset d (PStr k) v) k = dpop d k.
Proof.
  induction d as [|[x y] d IH]; simpl.
  - by rewrite bool_decide_eq_true_2.
  - rewrite key_eq_str. destruct (eq_str x k) eqn:E; simpl; rewrite E; simpl; [done|by rewrite IH].
Qed.

Lemma dpop_dset_other d k x v : eq_str x k = false → dpop (dset d x v) k = dset (dpop d k) x v.
Proof.
  intros Hx. induction d as [|[y w] d IH]; simpl.
  - by rewrite Hx.
  - destruct (eq_str y k) eqn:E.
    + apply eq_str_true in E as ->. rewrite key_eq_str_l, Hx. simpl. by rewrite bool_decide_eq_true_2.
    + destruct (key_eq y x) eqn:E'; simpl; rewrite E; simpl; rewrite ?E'; [done|by rewrite IH].
Qed.

Lemma dpop_dmerge d d' k : dpop (dmerge d d') k = dmerge (dpop d k) (dpop d' k).
Proof.
  unfold dmerge. revert d. induction d' as [|[x v] d' IH]; intros d; [done|]. simpl. rewrite IH.
  destruct (eq_str x k) eqn:E; simpl.
  - apply eq_str_true in E as ->. by rewrite dpop_dset.
  - by rewrite dpop_dset_other.
Qed.

Lemma dset_other d k v k' : eq_str k k' = false → dget (dset d k v) k' = dget d k'.
Proof.
  intros Hk. induction d as [|[x y] d IH]; simpl.
  - by rewrite Hk.
  - destruct (key_eq x k) eqn:E; simpl; [|by rewrite IH].
    destruct (eq_str x k') eqn:E'; [|done]. apply eq_str_true in E' as ->.
    rewrite key_eq_str_l in E. congruence.
Qed.

(** The last item of [d'] for a key wins, else [d]'s value. *)
Lemma dget_dmerge d d' k :
  dget (dmerge d d') k = match dget (reverse d') k with Some v => Some v | None => dget d k end.
Proof.
  unfold dmerge. induction d' as [|[x y] d' IH] using rev_ind; [done|].
  rewrite foldl_app, reverse_app, reverse_singleton. simpl.
  destruct (eq_str x k) eqn:E.
  - apply eq_str_true in E as ->. rewrite dget_dset. by rewrite bool_decide_eq_true_2.
  - by rewrite dset_other, IH.
Qed.

Lemma get_none_dget d k v : dget d k = Some v → get_none d k = v.
Proof. unfold get_none. by intros ->. Qed.

Example repr_quotes : repr_str "it's" = dquote +s+ "it's" +s+ dquote.
Proof. reflexivity. Qed.
Example strip_ex : strip "  a b " = "a b".
Proof. reflexivity. Qed.
Example lt_ex : num_lt (PInt 0) f_0_001 = true ∧ num_lt (PFloat (FFin 1 (-9))) f_0_001 = false.
Proof. split; vm_compute; reflexivity. Qed.
