(* ===== verification/PyString.v ===== *)
(** String operations the modules share: replacement, splitting, prefix and
    suffix removal, and decimal numerals with their round trip. *)
From S2P Require Import Prelude PyValue.
Local Open Scope Z_scope.

(** * Definitions *)

(** [s.replace(old, new)] for a non-empty [old]; [skip] characters of a match
    are still to be dropped. *)
Fixpoint replace_go (old new : string) (skip : nat) (s : string) : string :=
  match s with
  | EmptyString => EmptyString
  | String c s' =>
      match skip with
      | S k => replace_go old new k s'
      | O => if startswith s old then new +s+ replace_go old new (pred (String.length old)) s'
             else String c (replace_go old new O s')
      end
  end.
Definition replace (s old new : string) : string := replace_go old new O s.

(** The longest prefix of characters satisfying [p], and the rest. *)
Fixpoint span (p : ascii → bool) (s : string) : string * string :=
  match s with
  | EmptyString => (EmptyString, EmptyString)
  | String c s' => if p c then let '(a, b) := span p s' in (String c a, b) else (EmptyString, s)
  end.

Fixpoint strip_prefix (p s : string) : option string :=
  match p, s with
  | EmptyString, _ => Some s
  | String c p, String d s => if decide (c = d) then strip_prefix p s else None
  | _, _ => None
  end.

Fixpoint strip_suffix (suf s : string) : option string :=
  if decide (s = suf) then Some EmptyString
  else match s with
       | EmptyString => None
       | String c s => String c <$> strip_suffix suf s
       end.

(** [s.split(sep)] for a one-character separator. *)
Fixpoint split (sep : ascii) (s : string) : list string :=
  match s with
  | EmptyString => [EmptyString]
  | String c s =>
      if decide (c = sep) then EmptyString :: split sep s
      else match split sep s with
           | w :: ws => String c w :: ws
           | [] => [String c EmptyString]
           end
  end.

Definition is_digit (c : ascii) : bool := ((48 <=? code c) && (code c <=? 57))%N.
Definition is_lower (c : ascii) : bool := ((97 <=? code c) && (code c <=? 122))%N.
Fixpoint all_chars (p : ascii → bool) (s : string) : bool :=
  match s with EmptyString => true | String c s => p c && all_chars p s end.

(** The number a digit string spells. *)
Fixpoint digits_val (acc : N) (s : string) : N :=
  match s with
  | EmptyString => acc
  | String c s => digits_val (10 * acc + (code c - 48)) s
  end.

(** [int(s)] on a string: surrounding whitespace, an optional sign and digits
    with single underscores between them. *)
Fixpoint int_digits (s : string) (acc : N) (after_digit : bool) : option N :=
  match s with
  | EmptyString => if after_digit then Some acc else None
  | String c s =>
      if is_digit c then int_digits s (10 * acc + (code c - 48)) true
      else if (code c =? 95)%N && after_digit then
        match s with EmptyString => None | _ => int_digits s acc false end
      else None
  end.
Definition int_of_string (s : string) : option Z :=
  match strip s with
  | String c s' =>
      if (code c =? 45)%N then (λ n, - Z.of_N n) <$> int_digits s' 0 false
      else if (code c =? 43)%N then Z.of_N <$> int_digits s' 0 false
      else Z.of_N <$> int_digits (String c s') 0 false
  | EmptyString => None
  end.

(** * Lemmas *)

Lemma string_app_nil_r s : s +s+ "" = s.
Proof. induction s as [|c s IH]; [done|]. change (String c (s +s+ "") = String c s). by rewrite IH. Qed.

Lemma strip_prefix_Some p s t : strip_prefix p s = Some t ↔ s = p +s+ t.
Proof.
  revert s. induction p as [|c p IH]; intros s; simpl.
  - change ("" +s+ t) with t. split; congruence.
  - change (String c p +s+ t) with (String c (p +s+ t)).
    destruct s as [|d s]; [split; congruence|]. case_decide as Hc.
    + rewrite IH. subst. split; congruence.
    + split; congruence.
Qed.

Lemma strip_prefix_app p s : strip_prefix p (p +s+ s) = Some s.
Proof. by apply strip_prefix_Some. Qed.

Lemma string_length_app s t : String.length (s +s+ t) = (String.length s + String.length t)%nat.
Proof.
  induction s as [|c s IH]; [done|]. change (S (String.length (s +s+ t)) = S (String.length s) + String.length t)%nat.
  rewrite IH. done.
Qed.

Lemma strip_suffix_app suf s : strip_suffix suf (s +s+ suf) = Some s.
Proof.
  induction s as [|c s IH].
  - change ("" +s+ suf) with suf. destruct suf; cbn [strip_suffix]; by rewrite decide_True.
  - change (String c s +s+ suf) with (String c (s +s+ suf)). cbn [strip_suffix].
    case_decide as E; [|by rewrite IH]. exfalso.
    apply (f_equal String.length) in E. simpl in E. rewrite string_length_app in E. lia.
Qed.

Lemma strip_suffix_Some suf s t : strip_suffix suf s = Some t → s = t +s+ suf.
Proof.
  revert t. induction s as [|c s IH]; intros t; simpl; case_decide as H.
  - intros [= <-]. by subst.
  - done.
  - intros [= <-]. by subst.
  - intros (u & Hu & ->)%fmap_Some. change (String c u +s+ suf) with (String c (u +s+ suf)).
    by rewrite <- (IH u Hu).
Qed.

Lemma span_app p a c b :
  all_chars p a = true → p c = false → span p (a +s+ String c b) = (a, String c b).
Proof.
  intros Ha Hc. induction a as [|d a IH]; simpl in *.
  - by rewrite Hc.
  - apply andb_true_iff in Ha as [Hd Ha]. change (String d a +s+ String c b) with (String d (a +s+ String c b)).
    simpl. by rewrite Hd, IH.
Qed.

Lemma span_spec p s a b :
  span p s = (a, b) → s = a +s+ b ∧ all_chars p a = true ∧
    match b with EmptyString => True | String c _ => p c = false end.
Proof.
  revert a b. induction s as [|c s IH]; intros a b; simpl.
  - by intros [= <- <-].
  - destruct (p c) eqn:Hc.
    + destruct (span p s) as [a' b'] eqn:E. intros [= <- <-]. destruct (IH a' b' eq_refl) as (-> & Ha & Hb).
      split_and!; [done| |done]. simpl. by rewrite Hc.
    + by intros [= <- <-].
Qed.

Lemma pretty_char_digit x : (x < 10)%N → is_digit (pretty_N_char x) = true ∧ (code (pretty_N_char x) - 48)%N = x.
Proof.
  intros Hx. assert (x = 0 ∨ x = 1 ∨ x = 2 ∨ x = 3 ∨ x = 4 ∨ x = 5 ∨ x = 6 ∨ x = 7 ∨ x = 8 ∨ x = 9)%N
    as Hc by lia.
  by repeat destruct Hc as [->|Hc]; [..|subst x].
Qed.

Lemma pretty_go_spec x s :
  all_chars is_digit s = true →
  all_chars is_digit (pretty_N_go x s) = true ∧ digits_val 0 (pretty_N_go x s) = digits_val x s.
Proof.
  revert s. induction (N.lt_wf_0 x) as [x _ IH]; intros s Hs.
  destruct (decide (x = 0)%N) as [->|Hx]; [by rewrite pretty_N_go_0|].
  rewrite pretty_N_go_step by lia.
  pose proof (N.mod_lt x 10 ltac:(lia)) as Hm.
  destruct (pretty_char_digit (x mod 10) Hm) as [Hd Hv].
  destruct (IH (x / 10)%N) with (s := String (pretty_N_char (x `mod` 10)) s) as [H1 H2].
  - apply N.div_lt; lia.
  - simpl. by rewrite Hd.
  - split; [done|]. rewrite H2. cbn [digits_val]. rewrite Hv. f_equal.
    rewrite N.mul_comm. pose proof (N.div_mod x 10 ltac:(lia)). lia.
Qed.

(** [str] of a non-negative integer is a non-empty digit string that reads back. *)
Lemma str_Z_digits z :
  0 ≤ z → all_chars is_digit (str_Z z) = true ∧ Z.of_N (digits_val 0 (str_Z z)) = z ∧ str_Z z ≠ "".
Proof.
  intros Hz. destruct z as [|p|p]; [done| |lia].
  assert (Hp : str_Z (Z.pos p) = pretty_N_go (Npos p) "") by reflexivity. rewrite Hp.
  destruct (pretty_go_spec (Npos p) "" eq_refl) as [H1 H2].
  split_and!; [done|by rewrite H2|]. intros E. by rewrite E in H2.
Qed.

Lemma digit_cons_str z : 0 ≤ z → ∃ c s, str_Z z = String c s ∧ is_digit c = true.
Proof.
  intros Hz. destruct (str_Z_digits z Hz) as (Ha & _ & Hne). destruct (str_Z z) as [|c s]; [done|].
  exists c, s. split; [done|]. simpl in Ha. by apply andb_true_iff in Ha as [? _].
Qed.

Example replace_ex : replace (replace "ccnx:/a/b" "ccnx:/" "") "/" "_" = "a_b".
Proof. reflexivity. Qed.
Example split_ex : split (Ascii.ascii_of_N 44) "1,,2" = ["1"; ""; "2"].
Proof. reflexivity. Qed.
Example int_ex : int_of_string " -1_2 " = Some (-12) ∧ int_of_string "1__2" = None ∧ int_of_string "" = None.
Proof. done. Qed.
