(* ===== verification/PyNum.v ===== *)
(** Python arithmetic on the numbers a configuration holds: int and float
    addition and subtraction with IEEE 754 double rounding (nearest, ties to
    even), comparison of two numbers, and [round(x, 3)].  A negative zero is not
    distinguished from zero; no comparison can tell them apart. *)
From S2P Require Import Prelude PyValue.
Local Open Scope Z_scope.

(** * Rounding *)

(** The integer nearest to [n / d] for [0 < d], ties to even. *)
Definition round_half_even (n d : Z) : Z :=
  let q := n / d in
  let r := n mod d in
  if 2 * r <? d then q else if d <? 2 * r then q + 1 else if Z.even q then q else q + 1.

(** [2^e] as a quotient of integers. *)
Definition pow_num (e : Z) : Z := 2 ^ Z.max 0 e.
Definition pow_den (e : Z) : Z := 2 ^ Z.max 0 (- e).

(** The exponent of the double nearest to [n / d] for positive [n], [d]: the
    quotient by its power of two has 53 bits, or the double is subnormal. *)
Definition double_exp (n d : Z) : Z :=
  let e := Z.log2 n - Z.log2 d - 53 in
  Z.max (-1074) (if d * pow_num e * 2 ^ 53 <=? n * pow_den e then e + 1 else e).

(** [n / (d * 2^e)] rounded. *)
Definition scaled (n d e : Z) : Z := round_half_even (n * pow_den e) (d * pow_num e).

(** The double nearest to [n / d]; an infinity when it is too large. *)
Definition double_of_ratio (n d : Z) : pyfloat :=
  if n =? 0 then FFin 0 0 else
  let a := Z.abs n in
  let e := double_exp a d in
  let q := scaled a d e in
  if 2 ^ 1024 <=? q * pow_num e then FInf (n <? 0) else FFin (Z.sgn n * q) e.

(** The exact value [m * 2^e], rounded. *)
Definition double_of_dyadic (m e : Z) : pyfloat :=
  double_of_ratio (m * pow_num e) (pow_den e).

(** * Addition *)

Definition float_neg (x : pyfloat) : pyfloat :=
  match x with FNaN => FNaN | FInf n => FInf (negb n) | FFin m e => FFin (- m) e end.

(** The sum of two doubles. *)
Definition float_add (x y : pyfloat) : pyfloat :=
  match x, y with
  | FNaN, _ | _, FNaN => FNaN
  | FInf n, FInf n' => if eqb n n' then FInf n else FNaN
  | FInf n, FFin _ _ | FFin _ _, FInf n => FInf n
  | FFin m e, FFin m' e' =>
      let lo := Z.min e e' in double_of_dyadic (Z.shiftl m (e - lo) + Z.shiftl m' (e' - lo)) lo
  end.

(** [float(z)]. *)
Definition float_of_int (z : Z) : res pyfloat :=
  match double_of_ratio z 1 with
  | FInf _ => raise EOverflowError "int too large to convert to float"
  | f => Ok f
  end.

(** An operand of an arithmetic operation: an exact int (bools count as 0 and 1)
    or a double. *)
Definition num_operand (v : pv) : option (Z + pyfloat) :=
  match v with
  | PBool b => Some (inl (Z.b2z b))
  | PInt z => Some (inl z)
  | PFloat f => Some (inr f)
  | _ => None
  end.
Definition as_double (x : Z + pyfloat) : res pyfloat :=
  match x with inl z => float_of_int z | inr f => Ok f end.

(** [a + b] and [a - b] on numbers; other operands raise [TypeError]. *)
Definition py_arith (neg : bool) (a b : pv) : res pv :=
  match num_operand a, num_operand b with
  | Some (inl x), Some (inl y) => Ok (PInt (if neg then x - y else x + y))
  | Some x, Some y =>
      fx ← as_double x;
      fy ← as_double y;
      Ok (PFloat (float_add fx (if neg then float_neg fy else fy)))
  | _, _ => raise ETypeError "unsupported operand type(s)"
  end.
Definition py_add : pv → pv → res pv := py_arith false.
Definition py_sub : pv → pv → res pv := py_arith true.

(** [a < b] for two numbers; other operands raise [TypeError]. *)
Definition py_lt (a b : pv) : res bool :=
  match as_num a, as_num b with
  | Some x, Some y => Ok (float_lt x y)
  | _, _ => raise ETypeError "'<' not supported"
  end.

(** [round(x, 3)]: the double nearest to the exact value rounded to thousandths. *)
Definition round3 (x : pyfloat) : pyfloat :=
  match x with
  | FFin m e =>
      double_of_ratio (round_half_even (m * pow_num e * 1000) (pow_den e)) 1000
  | _ => x
  end.

Example tenth : double_of_ratio 1 10 = FFin 7205759403792794 (-56).
Proof. vm_compute. reflexivity. Qed.
(** 0.1 + 0.2 = 0.30000000000000004 *)
Example add_tenths :
  float_add (double_of_ratio 1 10) (double_of_ratio 2 10) = double_of_ratio 30000000000000004 100000000000000000.
Proof. vm_compute. reflexivity. Qed.
Example add_int_float : py_add (PInt 5) (PFloat (FFin 5 (-1))) = Ok (PFloat (double_of_ratio 15 2)).
Proof. vm_compute. reflexivity. Qed.
Example round3_ex : round3 (double_of_ratio 12345678 10000000) = double_of_ratio 1235 1000.
Proof. vm_compute. reflexivity. Qed.

(** * Comparison *)

Lemma pow_num_pos e : 0 < pow_num e.
Proof. unfold pow_num. apply Z.pow_pos_nonneg; lia. Qed.
Lemma pow_den_pos e : 0 < pow_den e.
Proof. unfold pow_den. apply Z.pow_pos_nonneg; lia. Qed.

Lemma pow_shift e f : e ≤ f → pow_num f * pow_den e = pow_num e * pow_den f * 2 ^ (f - e).
Proof. intros H. unfold pow_num, pow_den. rewrite <- !Z.pow_add_r by lia. f_equal. lia. Qed.

(** Finite doubles compare as the rationals they denote. *)
Lemma fin_cmp m e m' e' :
  ∃ k, 0 < k ∧ m * pow_num e * pow_den e' = k * Z.shiftl m (e - Z.min e e') ∧
       m' * pow_num e' * pow_den e = k * Z.shiftl m' (e' - Z.min e e').
Proof.
  rewrite !Z.shiftl_mul_pow2 by lia. set (lo := Z.min e e').
  assert (Hpos := pow_num_pos lo). assert (Hd := pow_den_pos e). assert (Hd' := pow_den_pos e').
  assert (H1 := pow_shift lo e ltac:(lia)). assert (H2 := pow_shift lo e' ltac:(lia)).
  assert (Hlo := pow_den_pos lo).
  destruct (Z.le_ge_cases e e') as [H|H].
  - assert (lo = e) as -> by lia. exists (pow_num e * pow_den e'). rewrite Z.sub_diag, Z.pow_0_r.
    split; [nia|]. split; [ring|]. rewrite <- Z.mul_assoc, H2. ring.
  - assert (lo = e') as -> by lia. exists (pow_num e' * pow_den e). rewrite Z.sub_diag, Z.pow_0_r.
    split; [nia|]. split; [|ring]. rewrite <- Z.mul_assoc, H1. ring.
Qed.

Lemma float_lt_fin m e m' e' :
  float_lt (FFin m e) (FFin m' e') = true ↔ m * pow_num e * pow_den e' < m' * pow_num e' * pow_den e.
Proof.
  destruct (fin_cmp m e m' e') as (k & Hk & -> & ->). unfold float_lt. rewrite Z.ltb_lt. nia.
Qed.

Lemma float_eq_fin m e m' e' :
  float_eq (FFin m e) (FFin m' e') = true ↔ m * pow_num e * pow_den e' = m' * pow_num e' * pow_den e.
Proof.
  destruct (fin_cmp m e m' e') as (k & Hk & -> & ->). unfold float_eq. rewrite Z.eqb_eq. nia.
Qed.

Lemma float_le_fin m e m' e' :
  float_le (FFin m e) (FFin m' e') = true ↔ m * pow_num e * pow_den e' ≤ m' * pow_num e' * pow_den e.
Proof. unfold float_le. rewrite orb_true_iff, float_lt_fin, float_eq_fin. lia. Qed.

(** ** The order of the numbers that are not NaN *)

Definition not_nan (x : pyfloat) : Prop := x ≠ FNaN.

Lemma mul_cancel_le a b c : 0 < c → a * c ≤ b * c → a ≤ b.
Proof. nia. Qed.

Lemma float_le_trans x y z : float_le x y = true → float_le y z = true → float_le x z = true.
Proof.
  destruct x as [|[]|m e], y as [|[]|m' e'], z as [|[]|m'' e'']; try done.
  rewrite !float_le_fin. intros H1 H2.
  pose proof (pow_den_pos e). pose proof (pow_den_pos e'). pose proof (pow_den_pos e'').
  apply (mul_cancel_le _ _ (pow_den e')); [done|].
  trans (m' * pow_num e' * pow_den e * pow_den e''); nia.
Qed.

Lemma float_le_refl x : not_nan x → float_le x x = true.
Proof. destruct x as [|[]|m e]; [done..|]. intros _. by apply float_le_fin. Qed.

Lemma float_lt_not_le x y : not_nan x → not_nan y → float_lt x y = true ↔ float_le y x = false.
Proof.
  destruct x as [|[]|m e], y as [|[]|m' e']; try done.
  intros _ _. rewrite float_lt_fin, <- not_true_iff_false, float_le_fin. lia.
Qed.

Lemma float_le_antisym x y : float_le x y = true → float_le y x = true → float_eq x y = true.
Proof.
  destruct x as [|[]|m e], y as [|[]|m' e']; try done.
  rewrite !float_le_fin, float_eq_fin. lia.
Qed.

Lemma float_eq_le x y : float_eq x y = true → float_le x y = true ∧ float_le y x = true.
Proof.
  unfold float_le. destruct x as [|[]|m e], y as [|[]|m' e']; try done.
  rewrite !orb_true_iff, !float_lt_fin, !float_eq_fin. lia.
Qed.

(** * Rounding is monotone *)

(** [m * 2^e] is at most the quotient [n / d]. *)
Definition at_most_ratio (m e n d : Z) : Prop := m * pow_num e * d ≤ n * pow_den e.

Lemma round_half_even_floor n d t : 0 < d → t * d ≤ n → t ≤ round_half_even n d.
Proof.
  intros Hd Ht. assert (t ≤ n / d) by (apply Z.div_le_lower_bound; lia).
  unfold round_half_even. repeat case_match; lia.
Qed.

Lemma round_half_even_ceil n d t : 0 < d → n ≤ t * d → round_half_even n d ≤ t.
Proof.
  intros Hd Ht. unfold round_half_even.
  pose proof (Z.div_mod n d ltac:(lia)) as Hdm. pose proof (Z.mod_pos_bound n d Hd) as Hm.
  assert (n / d ≤ t) by nia.
  assert (n / d = t → n mod d = 0) by nia. repeat case_match; lia.
Qed.

Lemma log2_bounds n : 0 < n → 2 ^ Z.log2 n ≤ n < 2 ^ (Z.log2 n + 1).
Proof. intros Hn. by apply Z.log2_spec. Qed.

Lemma pow_num_den a e : 0 ≤ a → 0 ≤ a + e → 2 ^ a * pow_num e = 2 ^ (a + e) * pow_den e.
Proof. intros. unfold pow_num, pow_den. rewrite <- !Z.pow_add_r by lia. f_equal. lia. Qed.

Lemma pow_step e f : e ≤ f → pow_num e * pow_den f ≤ pow_num f * pow_den e.
Proof.
  intros H. rewrite (pow_shift e f H). pose proof (pow_num_pos e). pose proof (pow_den_pos f).
  assert (0 < 2 ^ (f - e)) by (apply Z.pow_pos_nonneg; lia). nia.
Qed.

Lemma below_mono n d k e f : 0 < d → 0 ≤ k → e ≤ f →
  n * pow_den e < k * (d * pow_num e) → n * pow_den f < k * (d * pow_num f).
Proof.
  intros Hd Hk Hef H. pose proof (pow_step e f Hef). pose proof (pow_den_pos e). pose proof (pow_den_pos f).
  apply (Z.mul_lt_mono_pos_r (pow_den e)); [done|].
  apply Z.lt_le_trans with (k * (d * pow_num e) * pow_den f); [nia|].
  assert (0 ≤ k * d) by nia. nia.
Qed.

(** The exponent is chosen so that a normal quotient has 53 bits. *)
Lemma double_exp_bounds n d : 0 < n → 0 < d →
  let e := double_exp n d in
  -1074 ≤ e ∧ n * pow_den e < 2 ^ 53 * (d * pow_num e) ∧
  (-1074 < e → 2 ^ 52 * (d * pow_num e) ≤ n * pow_den e).
Proof.
  intros Hn Hd. cbv zeta. unfold double_exp.
  pose proof (log2_bounds n Hn) as Hln. pose proof (log2_bounds d Hd) as Hld.
  pose proof (Z.log2_nonneg n) as Hn0. pose proof (Z.log2_nonneg d) as Hd0.
  set (e0 := Z.log2 n - Z.log2 d - 53).
  (* the two raw bounds of the first guess *)
  assert (Hlow : 2 ^ 52 * (d * pow_num e0) ≤ n * pow_den e0).
  { assert (E := pow_num_den (Z.log2 d + 1 + 52) e0 ltac:(lia) ltac:(lia)).
    replace (Z.log2 d + 1 + 52 + e0) with (Z.log2 n) in E by lia. rewrite Z.pow_add_r in E by lia.
    pose proof (pow_num_pos e0). pose proof (pow_den_pos e0). nia. }
  assert (Hup : n * pow_den (e0 + 1) < 2 ^ 53 * (d * pow_num (e0 + 1))).
  { assert (E := pow_num_den (Z.log2 d + 53) (e0 + 1) ltac:(lia) ltac:(lia)).
    replace (Z.log2 d + 53 + (e0 + 1)) with (Z.log2 n + 1) in E by lia. rewrite Z.pow_add_r in E by lia.
    pose proof (pow_num_pos (e0 + 1)). pose proof (pow_den_pos (e0 + 1)). nia. }
  destruct (d * pow_num e0 * 2 ^ 53 <=? n * pow_den e0) eqn:Hs.
  - apply Z.leb_le in Hs. split; [lia|]. split; [by apply (below_mono n d _ (e0 + 1)); [|lia|lia|]|].
    intros He. rewrite Z.max_r by lia.
    assert (E := pow_shift e0 (e0 + 1) ltac:(lia)). replace (e0 + 1 - e0) with 1 in E by lia.
    pose proof (pow_den_pos e0). pose proof (pow_den_pos (e0 + 1)).
    apply (mul_cancel_le _ _ (pow_den e0)); [done|].
    trans (2 ^ 52 * d * (pow_num (e0 + 1) * pow_den e0)); [lia|]. rewrite E. nia.
  - apply Z.leb_gt in Hs. split; [lia|]. split; [apply (below_mono n d _ e0); [done|lia|lia|lia]|].
    intros He. by rewrite Z.max_r by lia.
Qed.


(** A double: an infinity, NaN or a finite value with at most 53 bits above the
    subnormal limit.  (The largest finite doubles are bounded by the rounding
    itself, which gives an infinity beyond them.) *)
Definition is_double (x : pyfloat) : Prop :=
  match x with
  | FFin m e => ∃ m' e', float_eq (FFin m e) (FFin m' e') = true ∧ Z.abs m' ≤ 2 ^ 53 ∧ -1074 ≤ e'
  | _ => True
  end.

Definition nonneg (x : pyfloat) : Prop := float_le (FFin 0 0) x = true.

Lemma nonneg_fin m e : nonneg (FFin m e) ↔ 0 ≤ m.
Proof.
  unfold nonneg. rewrite float_le_fin. pose proof (pow_num_pos e). pose proof (pow_den_pos e).
  change (pow_den 0) with 1. change (pow_num 0) with 1. nia.
Qed.

Lemma nonneg_not_nan x : nonneg x → not_nan x.
Proof. by destruct x. Qed.

Lemma fin_double m e : Z.abs m ≤ 2 ^ 53 → -1074 ≤ e → is_double (FFin m e).
Proof. intros. exists m, e. split; [by apply float_eq_fin|done]. Qed.

Section round.
Variables n d : Z.
Hypothesis n_nonneg : 0 ≤ n.
Hypothesis d_pos : 0 < d.

Lemma double_of_ratio_cases :
  n = 0 ∧ double_of_ratio n d = FFin 0 0 ∨
  0 < n ∧ let e := double_exp n d in let q := scaled n d e in
    0 ≤ q ≤ 2 ^ 53 ∧ (2 ^ 1024 ≤ q * pow_num e ∧ double_of_ratio n d = FInf false ∨
                      double_of_ratio n d = FFin q e).
Proof.
  unfold double_of_ratio. case (Z.eqb_spec n 0) as [->|Hn]; [by left|right]. split; [lia|]. cbv zeta.
  rewrite Z.abs_eq by done. destruct (double_exp_bounds n d ltac:(lia) d_pos) as (_ & Hup & _).
  set (e := double_exp n d) in *. pose proof (pow_num_pos e). pose proof (pow_den_pos e).
  split.
  - unfold scaled. split; [apply round_half_even_floor|apply round_half_even_ceil]; nia.
  - assert (Z.sgn n = 1) as -> by (by apply Z.sgn_pos; lia). rewrite Z.mul_1_l.
    assert (n <? 0 = false) as -> by (apply Z.ltb_ge; lia).
    case_match eqn:Hb; [left|by right]. split; [exact (proj1 (Z.leb_le _ _) Hb)|done].
Qed.

Lemma double_of_ratio_ok : is_double (double_of_ratio n d) ∧ nonneg (double_of_ratio n d).
Proof.
  destruct double_of_ratio_cases as [[_ ->]|(Hn & Hq & [[_ ->]| ->])].
  - split; [by apply fin_double|done].
  - done.
  - destruct (double_exp_bounds n d Hn d_pos) as (He & _).
    split; [apply fin_double; lia|apply nonneg_fin; lia].
Qed.

(** A double below the quotient stays below its rounding. *)
Lemma double_of_ratio_ge m e :
  Z.abs m ≤ 2 ^ 53 → -1074 ≤ e → at_most_ratio m e n d → float_le (FFin m e) (double_of_ratio n d) = true.
Proof.
  intros Hm He Hle. unfold at_most_ratio in Hle.
  destruct double_of_ratio_cases as [[-> ->]|(Hn & Hq & [[_ ->]| ->])]; [|done|].
  { apply float_le_fin. pose proof (pow_den_pos e). change (pow_num 0) with 1. change (pow_den 0) with 1. nia. }
  destruct (double_exp_bounds n d Hn d_pos) as (_ & _ & Hnorm).
  set (E := double_exp n d) in *. apply float_le_fin.
  pose proof (pow_num_pos e). pose proof (pow_den_pos e). pose proof (pow_num_pos E). pose proof (pow_den_pos E).
  destruct (Z.le_gt_cases E e) as [HE|HE].
  - assert (Hshift := pow_shift E e HE). set (k := 2 ^ (e - E)) in *.
    assert (m * k ≤ scaled n d E).
    { apply round_half_even_floor; [nia|]. apply (mul_cancel_le _ _ (pow_den e)); [done|].
      trans (m * (pow_num E * pow_den e * k) * d); [lia|].
      trans (m * pow_num e * d * pow_den E); [|nia]. rewrite <- (Z.mul_assoc m), <- Hshift. nia. }
    nia.
  - assert (Hshift := pow_shift e E ltac:(lia)).
    assert (2 ^ 1 ≤ 2 ^ (E - e)) by (apply Z.pow_le_mono_r; lia).
    assert (Hq' : 2 ^ 52 ≤ scaled n d E).
    { apply round_half_even_floor; [nia|]. by apply Hnorm; lia. }
    clearbody E. generalize (scaled n d E), Hq'. intros q Hqq. set (k := 2 ^ (E - e)) in *.
    assert (2 * (pow_num e * pow_den E) ≤ pow_num E * pow_den e) by nia.
    trans (2 ^ 53 * (pow_num e * pow_den E)); [nia|]. trans (2 ^ 52 * (pow_num E * pow_den e)); [lia|nia].
Qed.
End round.

(** * Sums *)

(** The exact sum of two finite doubles, at their common exponent. *)
Definition exact_sum (m e m' e' : Z) : Z * Z :=
  let lo := Z.min e e' in (Z.shiftl m (e - lo) + Z.shiftl m' (e' - lo), lo).

Lemma exact_sum_ge m e m' e' : 0 ≤ m' →
  let '(s, lo) := exact_sum m e m' e' in m * pow_num e * pow_den lo ≤ s * pow_num lo * pow_den e.
Proof.
  intros Hm'. unfold exact_sum. set (lo := Z.min e e'). rewrite !Z.shiftl_mul_pow2 by lia.
  assert (Hshift := pow_shift lo e ltac:(lia)). set (k := 2 ^ (e - lo)) in *.
  assert (0 < 2 ^ (e' - lo)) by (apply Z.pow_pos_nonneg; lia). set (k' := 2 ^ (e' - lo)) in *.
  pose proof (pow_num_pos lo). pose proof (pow_den_pos e).
  rewrite <- (Z.mul_assoc m), Hshift. assert (0 ≤ m' * k') by nia. nia.
Qed.

Lemma float_eq_sym x y : float_eq x y = true → float_eq y x = true.
Proof.
  destruct x as [|[]|m e], y as [|[]|m' e']; try done. rewrite !float_eq_fin. lia.
Qed.

(** Adding a non-negative double to a non-negative double does not go below it. *)
Lemma float_add_ge x y :
  is_double x → nonneg x → nonneg y →
  is_double (float_add x y) ∧ nonneg (float_add x y) ∧ float_le x (float_add x y) = true.
Proof.
  intros Hx Hx0 Hy0. destruct x as [|[]|m e], y as [|[]|m' e']; try done.
  apply nonneg_fin in Hx0, Hy0. destruct Hx as (mx & ex & Heq & Hm & He).
  pose proof (exact_sum_ge m e m' e' Hy0) as Hs. unfold exact_sum in Hs.
  unfold float_add, double_of_dyadic.
  set (lo := Z.min e e') in *. set (s := Z.shiftl m _ + _) in *.
  assert (Hs0 : 0 ≤ s).
  { pose proof (pow_num_pos e). pose proof (pow_den_pos lo). pose proof (pow_num_pos lo).
    pose proof (pow_den_pos e). assert (0 ≤ m * pow_num e * pow_den lo) by nia.
    assert (0 ≤ s * (pow_num lo * pow_den e)) by lia. assert (0 < pow_num lo * pow_den e) by nia. nia. }
  assert (Hn : 0 ≤ s * pow_num lo) by (pose proof (pow_num_pos lo); nia).
  destruct (double_of_ratio_ok (s * pow_num lo) (pow_den lo) Hn (pow_den_pos lo)) as [Hd H0].
  split; [done|]. split; [done|].
  apply float_eq_le in Heq as Heq'. destruct Heq' as [Hle _].
  eapply float_le_trans; [exact Hle|]. apply double_of_ratio_ge; [done|apply pow_den_pos|done|done|].
  unfold at_most_ratio. apply float_eq_fin in Heq.
  pose proof (pow_den_pos e). pose proof (pow_den_pos ex). pose proof (pow_den_pos lo).
  apply (mul_cancel_le _ _ (pow_den e)); [done|].
  trans (mx * pow_num ex * pow_den e * pow_den lo); [lia|]. rewrite <- Heq.
  trans (m * pow_num e * pow_den lo * pow_den ex); [lia|nia].
Qed.

Lemma float_le_int a b : float_le (FFin a 0) (FFin b 0) = (a <=? b).
Proof.
  unfold float_le, float_lt, float_eq. rewrite !Z.shiftl_0_r.
  destruct (Z.ltb_spec a b), (Z.eqb_spec a b), (Z.leb_spec a b); simpl; lia.
Qed.
