(* ===== verification/Events.v ===== *)
(** Component: the event schema (src/core/events.py): per-type facts, the
    publisher metadata extracted before a run, and the event a repeat restores
    to.  An event is the dict the configuration gives, kept as it is. *)
From S2P Require Import Prelude PyValue.
Local Open Scope Z_scope.

(** [EventSpec]. *)
Record EventSpec := mkEventSpec {
  required_fields : list string;
  is_content : bool;
  is_publication : bool;
  priority : Z;
  publication_uri_field : option string;
}.

(** [EVENT_SCHEMA], in insertion order. *)
Definition EVENT_SCHEMA : list (string * EventSpec) :=
  [ ("link_down",    mkEventSpec ["nodes"] false false 5 None);
    ("link_up",      mkEventSpec ["nodes"] false false 5 None);
    ("fib_add",      mkEventSpec ["host"; "prefix"; "next_hop"] false false 5 None);
    ("fib_del",      mkEventSpec ["host"; "prefix"; "next_hop"] false false 5 None);
    ("fib_enable",   mkEventSpec ["host"; "prefix"; "next_hop"] false false 5 None);
    ("bw_set",       mkEventSpec ["nodes"; "bandwidth"] false false 5 None);
    ("compute_call", mkEventSpec ["host"; "endpoint"] false false 5 (Some "publish_uri"));
    ("put",          mkEventSpec ["host"; "uri"; "file"] true true 1 (Some "uri"));
    ("get",          mkEventSpec ["host"; "uri"] true false 3 None);
    ("pubsub_pub",   mkEventSpec ["host"; "uri"; "file"] true true 2 (Some "uri"));
    ("pubsub_sub",   mkEventSpec ["host"; "uri"] true false 0 None);
    ("ccninfo",      mkEventSpec ["host"; "uri"] true false 5 None);
    ("host_app_restart", mkEventSpec ["host"] false false 5 None) ].

(** [EVENT_SCHEMA.get(t)]. *)
Fixpoint assoc {A} (l : list (string * A)) (k : string) : option A :=
  match l with
  | [] => None
  | (k', v) :: l => if bool_decide (k' = k) then Some v else assoc l k
  end.
Definition event_spec (t : string) : option EventSpec := assoc EVENT_SCHEMA t.

(** [event_types], [content_event_types], [publication_event_types]. *)
Definition event_types : list string := EVENT_SCHEMA.*1.
Definition content_event_types : list string := (filter (λ e, is_content e.2) EVENT_SCHEMA).*1.
Definition publication_event_types : list string :=
  (filter (λ e, is_publication e.2) EVENT_SCHEMA).*1.

(** [event_priorities]. *)
Definition event_priorities : list (string * Z) :=
  (λ e, (e.1, priority e.2)) <$> filter (λ e, priority e.2 ≠ 5) EVENT_SCHEMA.

(** [v in s] for a (frozen)set of strings: an unhashable [v] raises. *)
Definition unhashable {A} (v : pv) : res A :=
  raise ETypeError ("unhashable type: " +s+ match v with PDict _ => "'dict'" | _ => "'list'" end).
Definition in_set (v : pv) (s : list string) : res bool :=
  if hashable v then Ok (in_strs v s) else unhashable v.

(** [ev[k]]. *)
Definition getitem (d : pydict) (k : string) : res pv :=
  match dget d k with Some v => Ok v | None => raise EKeyError (repr_str k) end.

(** [spec.publication_uri_field] of an event whose type is known. *)
Definition uri_field (ev : pydict) : option string :=
  match get_or ev "type" (PStr "") with
  | PStr t => event_spec t ≫= publication_uri_field
  | _ => None
  end.

(** [_counts] of [extract_publications]. *)
Definition counts (include_conditional : bool) (ev : pydict) : res bool :=
  p ← in_set (get_none ev "type") publication_event_types;
  if (p : bool) then Ok true
  else if negb include_conditional then Ok false
  else Ok (match uri_field ev with Some f => truthy (get_none ev f) | None => false end).

(** [[x for x in xs if f(x)]] with a raising test. *)
Fixpoint filterR {A} (f : A → res bool) (xs : list A) : res (list A) :=
  match xs with
  | [] => Ok []
  | x :: xs => b ← f x; ys ← filterR f xs; Ok (if (b : bool) then x :: ys else ys)
  end.

(** One entry of the [publishers_dict] comprehension. *)
Definition add_publisher (d : pydict) (ev : pydict) : res pydict :=
  match uri_field ev with
  | None => raise EKeyError "None"
  | Some f =>
      u ← getitem ev f;
      h ← getitem ev "host";
      if hashable u then Ok (dset d u h) else unhashable u
  end.

(** One element of the [publisher_ids] comprehension. *)
Definition add_publisher_id (ids : list pv) (ev : pydict) : res (list pv) :=
  h ← getitem ev "host";
  if hashable h then Ok (if existsb (λ x, key_eq x h) ids then ids else ids ++ [h])
  else unhashable h.

(** [extract_publications]. *)
Definition extract_publications (events : list pydict) (include_conditional : bool)
    : res (list pydict * pydict * list pv) :=
  publications ← filterR (λ ev, in_set (get_none ev "type") publication_event_types) events;
  counted ← filterR (counts include_conditional) events;
  publishers_dict ← foldM add_publisher [] counted;
  publisher_ids ← foldM add_publisher_id [] counted;
  Ok (publications, publishers_dict, publisher_ids).

(** [build_restore_event]. *)
Definition build_restore_event (event : pydict) : res (option pydict) :=
  match get_none event "repeat" with
  | PDict repeat =>
      match dget repeat "restore", dget repeat "restore_type" with
      | Some (PDict r), _ => Ok (Some (dpop (dmerge event r) "repeat"))
      | Some _, _ => raise ETypeError "object is not a mapping"
      | None, Some t => Ok (Some (dpop (dset event (PStr "type") t) "repeat"))
      | None, None => Ok None
      end
  | _ => Ok None
  end.

(** * Lemmas *)

Lemma event_spec_Some t spec : event_spec t = Some spec → t ∈ event_types.
Proof.
  unfold event_spec, event_types. induction EVENT_SCHEMA as [|[k s] l IH]; simpl; [done|].
  case_bool_decide; [intros _; subst; by left|]. intros. right. by apply IH.
Qed.

Lemma event_spec_total t : t ∈ event_types → ∃ spec, event_spec t = Some spec.
Proof.
  unfold event_spec, event_types. induction EVENT_SCHEMA as [|[k s] l IH]; simpl.
  - by intros ?%elem_of_nil.
  - intros [->|H]%elem_of_cons; [rewrite bool_decide_eq_true_2 by done; eauto|].
    case_bool_decide; eauto.
Qed.

Lemma filterR_Ok {A} (f : A → res bool) (g : A → bool) xs :
  (∀ x, x ∈ xs → f x = Ok (g x)) → filterR f xs = Ok (List.filter g xs).
Proof.
  induction xs as [|x xs IH]; intros H; simpl; [done|].
  rewrite (H x) by (by left). simpl. rewrite IH by (intros; apply H; by right). simpl.
  by destruct (g x).
Qed.

(** The restored event: the declared override, else the original field; the
    [repeat] key is gone only if the override does not carry one. *)
Lemma restore_type_spec event repeat t :
  dget event "repeat" = Some (PDict repeat) → dget repeat "restore" = None →
  dget repeat "restore_type" = Some t →
  ∃ r, build_restore_event event = Ok (Some r) ∧ dget r "type" = Some t ∧
    ∀ k, k ≠ "type" → k ≠ "repeat" → dget r k = dget event k.
Proof.
  intros Hr H1 H2. unfold build_restore_event. rewrite (get_none_dget _ _ _ Hr), H1, H2.
  eexists. split; [done|]. split.
  - rewrite dget_dpop by done. rewrite dget_dset. by rewrite bool_decide_eq_true_2.
  - intros k Hk Hk'. rewrite dget_dpop by done. rewrite dget_dset.
    by rewrite bool_decide_eq_false_2.
Qed.

Lemma restore_spec event repeat ov :
  dget event "repeat" = Some (PDict repeat) → dget repeat "restore" = Some (PDict ov) →
  ∃ r, build_restore_event event = Ok (Some r) ∧
    ∀ k, k ≠ "repeat" →
      dget r k = match dget (reverse ov) k with Some v => Some v | None => dget event k end.
Proof.
  intros Hr H1. unfold build_restore_event. rewrite (get_none_dget _ _ _ Hr), H1.
  eexists. split; [done|]. intros k Hk. rewrite dget_dpop by done. apply dget_dmerge.
Qed.
