(* ===== verification/Artifacts.v ===== *)
(** Component: artifact naming and run paths (src/core/artifacts.py,
    src/core/paths.py).  Content-log names are built and parsed back; run paths
    are confined to the run directory.  The clock string of a timestamped name
    and the file system's path resolution are arguments. *)
From S2P Require Import Prelude PyValue PyString.
Local Open Scope Z_scope.

(** * Content logs *)

(** [ContentLogMeta]. *)
Record ContentLogMeta := mkContentLogMeta {
  command : string;
  phase : string;
  host : Z;
  label : string;
}.

(** [safe_uri_label]. *)
Definition safe_uri_label (uri : string) : string := replace (replace uri "ccnx:/" "") "/" "_".

(** [content_log_name]. *)
Definition content_log_name (cmd phase : string) (host : Z) (uri : string) : string :=
  cmd +s+ "_" +s+ phase +s+ "_h" +s+ str_Z host +s+ "_" +s+ safe_uri_label uri +s+ ".log".

(** The commands of [_CONTENT_LOG_RE], in alternation order. *)
Definition content_commands : list string :=
  ["cefputfile"; "cefgetfile"; "cefpubfile"; "cefsubfile"; "ccninfo"].

Definition newline : ascii := Ascii.ascii_of_N 10.
Definition slash : ascii := Ascii.ascii_of_N 47.
Definition underscore : ascii := Ascii.ascii_of_N 95.

(** [(.+)\.log$]: the label before [.log], with [$] also matching before a final
    newline; [.] does not match a newline. *)
Definition match_label (s : string) : option string :=
  let body := default s (strip_suffix (String newline EmptyString) s) in
  l ← strip_suffix ".log" body;
  if negb (bool_decide (l = "")) && all_chars (λ c, negb (bool_decide (c = newline))) l
  then Some l else None.

(** [([a-z]+)_h(\d+)_(.+)\.log$] after the command and its underscore. *)
Definition match_fields (cmd s : string) : option ContentLogMeta :=
  let '(ph, s) := span is_lower s in
  s ← strip_prefix "_h" s;
  let '(ds, s) := span is_digit s in
  s ← strip_prefix "_" s;
  l ← match_label s;
  if bool_decide (ph = "") || bool_decide (ds = "") then None
  else Some (mkContentLogMeta cmd ph (Z.of_N (digits_val 0 ds)) l).

(** [Path(name).name]: the last component that is neither empty nor [.]. *)
Definition path_name (name : string) : string :=
  default "" (last (filter (λ w, w ≠ "" ∧ w ≠ ".") (split slash name))).

(** [parse_content_log_name]. *)
Definition parse_content_log_name (name : string) : option ContentLogMeta :=
  let base := path_name name in
  foldr (λ cmd rest,
    match strip_prefix (cmd +s+ "_") base with
    | Some s => match match_fields cmd s with Some m => Some m | None => rest end
    | None => rest
    end) None content_commands.

(** [experiment_dir_name]; [seed] is [None] or its [str], [now] the formatted
    clock. *)
Definition experiment_dir_name (num : option Z) (seed : option string) (timestamp : bool)
    (now : string) : string :=
  let seed_label := default "none" seed in
  let dir_name := match num with
    | Some n => "ex" +s+ str_Z n +s+ "_seed" +s+ seed_label
    | None => "seed" +s+ seed_label
    end in
  if timestamp then dir_name +s+ "_" +s+ now else dir_name.

(** [topo_png_default_name]. *)
Definition topo_png_default_name (num : option Z) (seed : option string) (hosts : Z) : string :=
  experiment_dir_name num seed false "" +s+ "_h" +s+ str_Z hosts +s+ ".png".

(** * Run paths *)

(** A path: absolute or not, and its components. *)
Record path := mkPath { absolute : bool; parts : list string }.

#[export] Instance path_eq_dec : EqDecision path.
Proof. solve_decision. Defined.

(** [a / b]: an absolute right operand replaces the left one. *)
Definition path_join (a b : path) : path :=
  if absolute b then b else mkPath (absolute a) (parts a ++ parts b).

(** [p.parents]: every proper prefix, longest first. *)
Definition parents (p : path) : list path :=
  (λ k, mkPath (absolute p) (take k (parts p))) <$> reverse (seq 0 (length (parts p))).

Section run_paths.
(** [Path.resolve], which consults the file system. *)
Variable resolve : path → path.
(** [str(path)], for the message. *)
Variable path_str : path → string.

(** [ensure_within_run_dir]. *)
Definition ensure_within_run_dir (run_dir target : path) : res path :=
  let root := resolve run_dir in
  let resolved := resolve target in
  if bool_decide (resolved ≠ root) && bool_decide (root ∉ parents resolved)
  then raise EValueError ("path escapes run directory: " +s+ path_str target)
  else Ok resolved.

(** [resolve_run_path]; a [None] or empty [raw_path] is [None]. *)
Definition resolve_run_path (run_dir : path) (raw_path default_name : option path) : res path :=
  rel ← match raw_path, default_name with
        | Some rel, _ => Ok rel
        | None, Some d => Ok d
        | None, None => raise EValueError "path is required"
        end;
  let root := resolve run_dir in
  if absolute rel then ensure_within_run_dir root rel
  else ensure_within_run_dir root (path_join root rel).

(** [p] lies in the directory [d] or is [d]. *)
Definition inside (d p : path) : Prop := absolute d = absolute p ∧ parts d `prefix_of` parts p.

Lemma elem_of_parents d p :
  d ∈ parents p ↔ absolute d = absolute p ∧ parts d `prefix_of` parts p ∧ parts d ≠ parts p.
Proof.
  unfold parents. rewrite list_elem_of_fmap. split.
  - intros (k & -> & Hk). rewrite elem_of_reverse, elem_of_seq in Hk. simpl. split_and!; [done| |].
    + exists (drop k (parts p)). by rewrite take_drop.
    + intros E. apply (f_equal length) in E. rewrite length_take in E. lia.
  - intros (Ha & [rest Hr] & Hne). exists (length (parts d)).
    rewrite elem_of_reverse, elem_of_seq. rewrite Hr, take_app_length. split; [by destruct d; simpl in *; f_equal|].
    rewrite length_app. destruct rest; [|simpl; lia]. rewrite app_nil_r in Hr. congruence.
Qed.

Lemma ensure_within_spec run_dir target :
  ensure_within_run_dir run_dir target =
    if decide (inside (resolve run_dir) (resolve target)) then Ok (resolve target)
    else raise EValueError ("path escapes run directory: " +s+ path_str target).
Proof.
  unfold ensure_within_run_dir, inside.
  set (d := resolve run_dir). set (p := resolve target).
  case_decide as Hin; destruct (bool_decide _ && bool_decide _) eqn:E; try done.
  - rewrite andb_true_iff, !bool_decide_eq_true, elem_of_parents in E. destruct E as [Hne Hnp].
    exfalso. destruct Hin as [Ha Hp]. destruct (decide (parts d = parts p)) as [Hd|Hd]; [|naive_solver].
    apply Hne. destruct d, p; simpl in *; congruence.
  - rewrite andb_false_iff, !bool_decide_eq_false, elem_of_parents in E. exfalso. apply Hin.
    destruct E as [E|E]; [apply dec_stable in E as ->; by split; [|exists []; rewrite app_nil_r]|].
    apply dec_stable in E as (? & ? & _). done.
Qed.
End run_paths.

(** * Lemmas on names *)

Lemma all_chars_app p a b : all_chars p (a +s+ b) = all_chars p a && all_chars p b.
Proof.
  induction a as [|c a IH]; [done|]. change (String c a +s+ b) with (String c (a +s+ b)). simpl.
  by rewrite IH, andb_assoc.
Qed.

Lemma all_chars_impl p q s :
  (∀ c, p c = true → q c = true) → all_chars p s = true → all_chars q s = true.
Proof.
  intros H. induction s as [|c s IH]; simpl; [done|]. rewrite !andb_true_iff. naive_solver.
Qed.

Definition not_slash (c : ascii) : bool := negb (bool_decide (c = slash)).

Lemma split_single s : all_chars not_slash s = true → split slash s = [s].
Proof.
  induction s as [|c s IH]; simpl; [done|]. rewrite andb_true_iff. intros [Hc Hs].
  unfold not_slash in Hc. apply negb_true_iff, bool_decide_eq_false in Hc.
  case_decide; [done|]. by rewrite IH.
Qed.

Lemma replace_slash_free s : all_chars not_slash (replace s "/" "_") = true.
Proof.
  unfold replace. induction s as [|c s IH]; [done|]. cbn [replace_go].
  destruct (startswith (String c s) "/") eqn:E.
  - change (all_chars not_slash (String underscore (replace_go "/" "_" 0 s)) = true).
    simpl. by rewrite IH.
  - simpl. rewrite IH, andb_true_r. unfold not_slash.
    apply negb_true_iff, bool_decide_eq_false. intros ->. by destruct s.
Qed.

Lemma label_slash_free uri : all_chars not_slash (safe_uri_label uri) = true.
Proof. apply replace_slash_free. Qed.

Lemma name_slash_free cmd ph h uri :
  all_chars not_slash cmd = true → all_chars is_lower ph = true → 0 ≤ h →
  all_chars not_slash (content_log_name cmd ph h uri) = true.
Proof.
  intros Hc Hp Hh. unfold content_log_name. rewrite !all_chars_app, Hc, label_slash_free.
  rewrite (all_chars_impl is_lower not_slash ph); [|by intros [[] [] [] [] [] [] [] []]|done].
  destruct (str_Z_digits h Hh) as (Hd & _).
  rewrite (all_chars_impl is_digit not_slash (str_Z h)); [done|by intros [[] [] [] [] [] [] [] []]|done].
Qed.

Lemma match_label_spec l :
  l ≠ "" → all_chars (λ c, negb (bool_decide (c = newline))) l = true →
  match_label (l +s+ ".log") = Some l.
Proof.
  intros Hne Hnl. unfold match_label.
  assert (E : strip_suffix (String newline "") (l +s+ ".log") = None).
  { destruct (strip_suffix _ _) as [t|] eqn:E; [|done]. apply strip_suffix_Some in E.
    assert (Hb : all_chars (λ c, negb (bool_decide (c = newline))) (l +s+ ".log") = true)
      by (rewrite all_chars_app, Hnl; done).
    rewrite E, all_chars_app in Hb. apply andb_true_iff in Hb as [_ Hb]. done. }
  rewrite E. cbn [default]. rewrite strip_suffix_app. cbn [mbind option_bind].
  rewrite bool_decide_eq_false_2 by done. by rewrite Hnl.
Qed.

Lemma match_fields_spec cmd ph h l :
  ph ≠ "" → all_chars is_lower ph = true → 0 ≤ h → l ≠ "" →
  all_chars (λ c, negb (bool_decide (c = newline))) l = true →
  match_fields cmd (ph +s+ "_h" +s+ str_Z h +s+ "_" +s+ l +s+ ".log") =
    Some (mkContentLogMeta cmd ph h l).
Proof.
  intros Hpne Hp Hh Hl Hnl. destruct (str_Z_digits h Hh) as (Hd & Hv & Hdne).
  unfold match_fields.
  change ("_h" +s+ str_Z h +s+ "_" +s+ l +s+ ".log")
    with (String underscore ("h" +s+ str_Z h +s+ "_" +s+ l +s+ ".log")).
  rewrite span_app; [|done|done].
  change (String underscore ("h" +s+ str_Z h +s+ "_" +s+ l +s+ ".log"))
    with ("_h" +s+ str_Z h +s+ "_" +s+ l +s+ ".log").
  rewrite strip_prefix_app. cbn [mbind option_bind].
  change ("_" +s+ l +s+ ".log") with (String underscore (l +s+ ".log")).
  rewrite span_app; [|done|done].
  change (String underscore (l +s+ ".log")) with ("_" +s+ l +s+ ".log").
  rewrite strip_prefix_app. cbn [mbind option_bind].
  rewrite match_label_spec by done. cbn [mbind option_bind].
  rewrite !bool_decide_eq_false_2 by done. simpl. by rewrite Hv.
Qed.

(** * Properties *)

(** Round trip of content-log names. A name built from a known command, a
    lower-case phase, a host index and a URI with a non-empty one-line label
    parses back to exactly these fields. *)
Lemma content_log_roundtrip cmd ph h uri :
  cmd ∈ content_commands → ph ≠ "" → all_chars is_lower ph = true → 0 ≤ h →
  safe_uri_label uri ≠ "" →
  all_chars (λ c, negb (bool_decide (c = newline))) (safe_uri_label uri) = true →
  parse_content_log_name (content_log_name cmd ph h uri) =
    Some (mkContentLogMeta cmd ph h (safe_uri_label uri)).
Proof.
  intros Hcmd Hpne Hp Hh Hl Hnl. unfold parse_content_log_name.
  assert (Hslash : all_chars not_slash cmd = true).
  { unfold content_commands in Hcmd. rewrite !elem_of_cons, elem_of_nil in Hcmd.
    destruct_or! Hcmd; by subst. }
  assert (Hbase : path_name (content_log_name cmd ph h uri) = content_log_name cmd ph h uri).
  { unfold path_name. rewrite split_single by by apply name_slash_free.
    assert (content_log_name cmd ph h uri ≠ "" ∧ content_log_name cmd ph h uri ≠ ".") as Hne.
    { unfold content_commands in Hcmd. rewrite !elem_of_cons, elem_of_nil in Hcmd.
      destruct_or! Hcmd; try done; subst; split; discriminate. }
    rewrite filter_cons_True by done. done. }
  rewrite Hbase. unfold content_log_name. pose proof (match_fields_spec cmd ph h _ Hpne Hp Hh Hl Hnl) as Hm.
  unfold content_commands in Hcmd. rewrite !elem_of_cons, elem_of_nil in Hcmd.
  set (rest := ph +s+ _) in *.
  destruct_or! Hcmd; try done; subst cmd; cbn [foldr content_commands];
    rewrite <- string_app_assoc, strip_prefix_app, Hm; reflexivity.
Qed.

Example content_log_roundtrip_ex :
  parse_content_log_name (content_log_name "cefgetfile" "eval" 12 "ccnx:/a/b") =
    Some (mkContentLogMeta "cefgetfile" "eval" 12 "a_b").
Proof.
  apply (content_log_roundtrip "cefgetfile" "eval" 12 "ccnx:/a/b").
  - unfold content_commands. right. by left.
  - done.
  - reflexivity.
  - lia.
  - discriminate.
  - reflexivity.
Defined.

(** Confinement of run paths. For any path resolution, a path
    [resolve_run_path] returns is the resolved run directory or lies below it,
    and it raises exactly when there is no path to resolve or the resolved
    candidate lies outside. *)
Theorem resolve_run_path_confined (resolve : path → path) (path_str : path → string)
    run_dir raw_path default_name :
  let root := resolve (resolve run_dir) in
  match resolve_run_path resolve path_str run_dir raw_path default_name with
  | Ok p => inside root p
  | Raise e => exn_cls e = EValueError ∧
      ∀ rel, (raw_path = Some rel ∨ raw_path = None ∧ default_name = Some rel) →
        ¬ inside root (resolve (path_join (resolve run_dir) rel))
  | NoFuel => False
  end.
Proof.
  unfold resolve_run_path. destruct (match raw_path with Some rel => Ok rel | None => _ end) as [rel|e|] eqn:E.
  - assert (Hrel : (if absolute rel then ensure_within_run_dir resolve path_str (resolve run_dir) rel
        else ensure_within_run_dir resolve path_str (resolve run_dir) (path_join (resolve run_dir) rel))
      = ensure_within_run_dir resolve path_str (resolve run_dir) (path_join (resolve run_dir) rel))
      by (unfold path_join; by destruct (absolute rel)).
    cbn [mbind res_bind]. rewrite Hrel, ensure_within_spec. case_decide as Hin; [done|]. split; [done|].
    intros rel' Hr. destruct raw_path, default_name; naive_solver.
  - destruct raw_path, default_name; inversion E; subst. split; [done|]. naive_solver.
  - by destruct raw_path, default_name.
Qed.
