(* ===== verification/Decode.v ===== *)
(** Component: the text of a captured output (src/runtime/command_runner.py,
    [_decode]): bytes as integers below 256, text as code points, decoded as UTF-8
    with every ill-formed piece replaced. *)
From S2P Require Import Prelude.
Local Open Scope Z_scope.

(** * Decoder *)

Definition REPLACEMENT : Z := 65533.

(** What is missing of a sequence: how many bytes, the bounds of the next one, and
    the bits so far. *)
Record partial := mkPartial { need : nat; lo : Z; hi : Z; acc : Z }.
Definition idle : partial := mkPartial 0 128 191 0.
(** A first byte; the bounds of the second exclude overlong forms, surrogates and
    what is beyond 0x10FFFF. *)
Definition start_byte (b : Z) : list Z * partial :=
  if b <? 128 then ([b], idle)
  else if (194 <=? b) && (b <=? 223) then ([], mkPartial 1 128 191 (b - 192))
  else if (224 <=? b) && (b <=? 239) then ([], mkPartial 2 (if b =? 224 then 160 else 128) (if b =? 237 then 159 else 191) (b - 224))
  else if (240 <=? b) && (b <=? 244) then ([], mkPartial 3 (if b =? 240 then 144 else 128) (if b =? 244 then 143 else 191) (b - 240))
  else ([REPLACEMENT], idle).
(** A sequence that breaks off is one replacement, and the byte that breaks it is
    looked at again. *)
Definition feed (s : partial) (b : Z) : list Z * partial :=
  match need s with
  | O => start_byte b
  | S n =>
      if (lo s <=? b) && (b <=? hi s) then
        let a := acc s * 64 + (b - 128) in
        match n with O => ([a], idle) | _ => ([], mkPartial n 128 191 a) end
      else let '(o, s') := start_byte b in (REPLACEMENT :: o, s')
  end.
Fixpoint decode_from (s : partial) (bs : list Z) : list Z :=
  match bs with
  | [] => match need s with O => [] | _ => [REPLACEMENT] end
  | b :: bs => let '(o, s') := feed s b in o ++ decode_from s' bs
  end.

(** [_decode] of bytes, of a text and of nothing. *)
Inductive data := Bytes (bs : list Z) | Text (t : list Z) | Nothing.
Definition decode (d : data) : list Z := match d with Bytes bs => decode_from idle bs | Text t => t | Nothing => [] end.

(** * Encoder *)

Definition scalar (c : Z) : Prop := 0 ≤ c < 55296 ∨ 57344 ≤ c < 1114112.
Definition encode_char (c : Z) : list Z :=
  if c <? 128 then [c]
  else if c <? 2048 then [192 + c / 64; 128 + c mod 64]
  else if c <? 65536 then [224 + c / 4096; 128 + c / 64 mod 64; 128 + c mod 64]
  else [240 + c / 262144; 128 + c / 4096 mod 64; 128 + c / 64 mod 64; 128 + c mod 64].

(** * Lemmas *)

Ltac decide_bounds :=
  repeat match goal with
  | |- context [?a <? ?b] => first [rewrite (proj2 (Z.ltb_lt a b)) by lia | rewrite (proj2 (Z.ltb_ge a b)) by lia | destruct (Z.ltb_spec a b)]
  | |- context [?a <=? ?b] => first [rewrite (proj2 (Z.leb_le a b)) by lia | rewrite (proj2 (Z.leb_gt a b)) by lia | destruct (Z.leb_spec a b)]
  | |- context [?a =? ?b] => destruct (Z.eqb_spec a b)
  end; cbn [andb].

Definition split64 (c : Z) : Prop := c = (c / 64) * 64 + c mod 64 ∧ 0 ≤ c mod 64 < 64.
Lemma split64_ok c : split64 c.
Proof. split; [pose proof (Z.div_mod c 64); lia|apply Z.mod_pos_bound; lia]. Qed.

#[local] Arguments Z.add : simpl never.
#[local] Arguments Z.sub : simpl never.
#[local] Arguments Z.mul : simpl never.
(** A character is read back whatever follows it. *)
Lemma decode_char c bs : scalar c → decode_from idle (encode_char c ++ bs) = c :: decode_from idle bs.
Proof.
  intros Hc. unfold encode_char.
  assert (c / 4096 = c / 64 / 64 ∧ c / 262144 = c / 64 / 64 / 64) as [E1 E2] by (rewrite !Z.div_div by lia; done). rewrite E1, E2.
  destruct (split64_ok c) as [H1 B1], (split64_ok (c / 64)) as [H2 B2], (split64_ok (c / 64 / 64)) as [H3 B3].
  revert H1 B1 H2 B2 H3 B3. generalize (c mod 64) as x, (c / 64 mod 64) as y, (c / 64 / 64 mod 64) as z. generalize (c / 64 / 64 / 64) as w. clear E1 E2.
  generalize (c / 64 / 64) as v. generalize (c / 64) as u. intros u v w x y z H1 B1 H2 B2 H3 B3. unfold scalar in Hc.
  destruct (Z.ltb_spec c 128); [cbn; unfold start_byte; by decide_bounds|].
  destruct (Z.ltb_spec c 2048); [|destruct (Z.ltb_spec c 65536)]; cbn; unfold start_byte; decide_bounds; cbn; try lia; unfold feed; cbn; decide_bounds; cbn; try lia; do 3 (decide_bounds; cbn; try lia); f_equal; lia.
Qed.

(** Text survives encoding and decoding, also before something that is not text. *)
Lemma decode_encode cs bs : Forall scalar cs → decode (Bytes ((cs ≫= encode_char) ++ bs)) = cs ++ decode (Bytes bs).
Proof.
  induction 1 as [|c cs Hc _ IH]; [done|]. cbn. rewrite <-app_assoc, decode_char by done. f_equal. apply IH.
Qed.

(** What a sequence that is not finished may still become. *)
Definition partial_ok (s : partial) : Prop :=
  match need s with
  | O => True
  | 1%nat => 128 ≤ lo s ∧ hi s ≤ 191 ∧ ∀ b, lo s ≤ b ≤ hi s → scalar (acc s * 64 + (b - 128))
  | 2%nat => 128 ≤ lo s ∧ hi s ≤ 191 ∧ ∀ b c, lo s ≤ b ≤ hi s → 0 ≤ c < 64 → scalar ((acc s * 64 + (b - 128)) * 64 + c)
  | 3%nat => 128 ≤ lo s ∧ hi s ≤ 191 ∧ ∀ b c d, lo s ≤ b ≤ hi s → 0 ≤ c < 64 → 0 ≤ d < 64 → scalar (((acc s * 64 + (b - 128)) * 64 + c) * 64 + d)
  | _ => False
  end.
Lemma start_byte_ok b : 0 ≤ b → Forall scalar (start_byte b).1 ∧ partial_ok (start_byte b).2.
Proof.
  intros Hb. unfold start_byte, partial_ok, scalar. destruct (Z.ltb_spec b 128); [split; [by constructor; [left; lia|]|done]|].
  destruct ((194 <=? b) && (b <=? 223)) eqn:E1; [|destruct ((224 <=? b) && (b <=? 239)) eqn:E2; [|destruct ((240 <=? b) && (b <=? 244)) eqn:E3]]; cbn.
  - split; [done|]. split_and!; lia.
  - split; [done|]. destruct (Z.eqb_spec b 224), (Z.eqb_spec b 237); split_and!; lia.
  - split; [done|]. destruct (Z.eqb_spec b 240), (Z.eqb_spec b 244); split_and!; lia.
  - split; [|done]. constructor; [|done]. unfold REPLACEMENT. lia.
Qed.
Lemma feed_ok s b : 0 ≤ b → partial_ok s → Forall scalar (feed s b).1 ∧ partial_ok (feed s b).2.
Proof.
  intros Hb Hs. unfold feed. destruct (need s) as [|n] eqn:En; [by apply start_byte_ok|].
  destruct ((lo s <=? b) && (b <=? hi s)) eqn:E.
  - unfold partial_ok in Hs. rewrite En in Hs. apply andb_prop in E as [E1%Z.leb_le E2%Z.leb_le].
    destruct n as [|[|[|n]]]; [| | |done]; destruct Hs as (_ & _ & Hs); cbn.
    + split; [constructor; [by apply Hs|done]|done].
    + split; [done|]. split_and!; [lia..|]. intros c Hc. by apply Hs; [|lia].
    + split; [done|]. split_and!; [lia..|]. intros c d Hc Hd. by apply Hs; [|lia|].
  - destruct (start_byte_ok b Hb) as [H1 H2]. destruct (start_byte b) as [o s']. split; [|done]. constructor; [right; unfold REPLACEMENT; lia|done].
Qed.

(** Whatever the bytes, the decoded text has only characters. *)
Lemma decode_scalar bs : Forall (λ b, 0 ≤ b) bs → Forall scalar (decode (Bytes bs)).
Proof.
  cbn. assert (Hok : partial_ok idle) by done. revert Hok. generalize idle as s. induction bs as [|b bs IH]; intros s Hs Hb; cbn.
  - destruct (need s); [done|]. constructor; [right; unfold REPLACEMENT; lia|done].
  - inversion_clear Hb. destruct (feed_ok s b) as [H1 H2]; [done..|]. destruct (feed s b). apply Forall_app. auto.
Qed.

Example decode_broken : decode (Bytes [97; 240; 159; 145; 255; 226; 130; 172; 195]) = [97; REPLACEMENT; REPLACEMENT; 8364; REPLACEMENT].
Proof. reflexivity. Qed.
