(* ===== verification/CommandRunner.v ===== *)
(** Component: the command runner (src/runtime/command_runner.py,
    MininetCommandRunner): the polling wait with its deadline and cancellation,
    the escalation from SIGTERM to SIGKILL, and the log files of a run.  The
    operating system's answers are explicit: what each poll, clock reading and
    timed wait of an iteration returned, and how the process ended.  Times are
    integers in nanoseconds, as the monotonic clock counts them. *)
From S2P Require Import Prelude PyValue.
Local Open Scope Z_scope.

(** * Results *)

(** [CommandResult]; the output of a captured run is the text [communicate]
    returned. *)
Record CommandResult := mkCommandResult {
  returncode : option Z;
  stdout : string;
  stderr : string;
  timed_out : bool;
  cancelled : bool;
  log_path : option string;
}.

(** What the runner does to the process and its log file. *)
Inductive io := IoOpen (p : string) | IoSpawn | IoTerm | IoKill | IoClose (p : string).

(** * Termination of a process *)

(** The answers of the process: whether SIGTERM found it, its exit status if it
    ended within the grace period, and the status it is reaped with after the
    escalation to SIGKILL (which may find it gone). *)
Record ending := mkEnding { k_term : bool; k_grace : option Z; k_kill : bool; k_reap : Z }.

(** [_terminate_proc]: the signals sent and the return code known afterwards;
    a process that cannot be found is not waited for. *)
Definition terminate_proc (k : ending) : list io * option Z :=
  if negb (k_term k) then ([], None)
  else match k_grace k with
       | Some rc => ([IoTerm], Some rc)
       | None => (IoTerm :: (if k_kill k then [IoKill] else []), Some (k_reap k))
       end.

(** * Waiting *)

Definition POLL_INTERVAL : Z := 100000000.

(** One iteration of the loop of [wait]: the status [poll] returns, the state of
    the cancel event, the clock, and the status the timed wait returns unless it
    times out. *)
Record tick := mkTick { t_poll : option Z; t_cancel : bool; t_now : Z; t_wait : option Z }.

(** How long the timed wait of an iteration may take. *)
Definition wait_time (deadline : option Z) (t : tick) : Z :=
  match deadline with Some d => Z.min POLL_INTERVAL (d - t_now t) | None => POLL_INTERVAL end.

Definition expired (deadline : option Z) (t : tick) : bool :=
  match deadline with Some d => d - t_now t <=? 0 | None => false end.

(** The result of a wait: return code, timed out, cancelled. *)
Definition waited := (option Z * bool * bool)%type.

(** The loop of [wait]; [None] when the iterations run out. *)
Fixpoint wait_loop (deadline : option Z) (k : ending) (ticks : list tick) : option (list io * waited) :=
  match ticks with
  | [] => None
  | t :: ticks =>
      match t_poll t with
      | Some rc => Some ([], (Some rc, false, false))
      | None =>
          if t_cancel t then let '(ios, rc) := terminate_proc k in Some (ios, (rc, false, true))
          else if expired deadline t then let '(ios, rc) := terminate_proc k in Some (ios, (rc, true, false))
          else match t_wait t with
               | Some rc => Some ([], (Some rc, false, false))
               | None => wait_loop deadline k ticks
               end
      end
  end.

(** [wait] of a handle with its log file, which is closed in the end. *)
Definition wait (log : option string) (deadline : option Z) (k : ending) (ticks : list tick)
    : option (list io * CommandResult) :=
  '(ios, (rc, t, c)) ← wait_loop deadline k ticks;
  Some (ios ++ (IoClose <$> option_list log), mkCommandResult rc "" "" t c log).

(** * Runs *)

(** The answers to a run: does the log open, does the process spawn, what a first
    [communicate] returns unless it times out, what the second one returns, the
    status then, and the iterations of a wait. *)
Record script := mkScript {
  s_open : option exn;
  s_popen : option exn;
  s_communicate : option (string * string);
  s_drain : string * string;
  s_status : option Z;
  s_ticks : list tick;
  s_ending : ending;
  s_now : Z;
}.

(** Opening the log and spawning the process; a failed spawn closes the log. *)
Definition spawn (log : option string) (s : script) : list io * option exn :=
  match log, s_open s with
  | Some _, Some e => ([], Some e)
  | _, _ =>
      match s_popen s with
      | Some e => ((IoOpen <$> option_list log) ++ (IoClose <$> option_list log), Some e)
      | None => ((IoOpen <$> option_list log) ++ [IoSpawn], None)
      end
  end.

(** [communicate] with a timeout, and again after the process is terminated, which
    reaps a process the termination did not find. *)
Definition communicate (s : script) : list io * (string * string) * option Z * bool :=
  match s_communicate s with
  | Some oe => ([], oe, s_status s, false)
  | None => let '(ios, rc) := terminate_proc (s_ending s) in (ios, s_drain s, match rc with Some _ => rc | None => s_status s end, true)
  end.

(** [_run_separate]; the log is closed whatever [communicate] does.  An empty log
    path is no log. *)
Definition run_separate (log_path : option string) (s : script) : list io * option (CommandResult + exn) :=
  let log := match log_path with Some "" => None | l => l end in
  match spawn log s with
  | (ios, Some e) => (ios, Some (inr e))
  | (ios, None) =>
      let '(ios', (out, err), rc, t) := communicate s in
      (ios ++ ios' ++ (IoClose <$> option_list log),
       Some (inl (mkCommandResult rc (if log then "" else out) err t false log_path)))
  end.

(** [_run_captured]: standard error is merged into standard output. *)
Definition run_captured (s : script) : list io * option (CommandResult + exn) :=
  match spawn None s with
  | (ios, Some e) => (ios, Some (inr e))
  | (ios, None) =>
      let '(ios', (out, _), rc, t) := communicate s in
      (ios ++ ios', Some (inl (mkCommandResult rc out "" t false None)))
  end.

(** [run]; [None] when the iterations of its wait run out. *)
Definition run (log : option string) (timeout : option Z) (cancellable capture capture_stderr : bool) (s : script)
    : list io * option (CommandResult + exn) :=
  if capture_stderr then
    if cancellable then ([], Some (inr (Exn EValueError "capture_stderr does not support cancel_event")))
    else run_separate log s
  else if (if log then false else capture) && negb cancellable then run_captured s
  else match spawn log s with
       | (ios, Some e) => (ios, Some (inr e))
       | (ios, None) =>
           match wait log ((λ t, s_now s + t) <$> timeout) (s_ending s) (s_ticks s) with
           | Some (ios', r) => (ios ++ ios', Some (inl r))
           | None => (ios, None)
           end
       end.

(** * Lemmas *)

(** The clock of a wait: a timed wait that times out took its time. *)
Fixpoint clock_advances (deadline : option Z) (ticks : list tick) : Prop :=
  match ticks with
  | t :: (t' :: _) as ticks' =>
      (t_wait t = None → t_now t + wait_time deadline t ≤ t_now t') ∧ clock_advances deadline ticks'
  | _ => True
  end.

Lemma clock_advances_tail deadline t ticks : clock_advances deadline (t :: ticks) → clock_advances deadline ticks.
Proof. destruct ticks; [done|]. by intros [_ ?]. Qed.

Lemma terminate_proc_spec k :
  let '(ios, rc) := terminate_proc k in
  (k_term k = false ∧ ios = [] ∧ rc = None) ∨
  (k_term k = true ∧ rc = Some (default (k_reap k) (k_grace k)) ∧ (ios = [IoTerm] ∨ ios = [IoTerm; IoKill]) ∧
   (IoKill ∈ ios ↔ k_grace k = None ∧ k_kill k = true)).
Proof.
  unfold terminate_proc. destruct (k_term k); simpl; [|by left].
  destruct (k_grace k) as [rc|]; [|destruct (k_kill k)]; simpl; right; (split; [done|]); (split; [done|]);
    (split; [by auto|]); rewrite ?elem_of_cons, elem_of_nil; by intuition.
Qed.

(** A log is not closed by the signals a wait sends. *)
Lemma close_not_signal log ios :
  ios = [] ∨ ios = [IoTerm] ∨ ios = [IoTerm; IoKill] → (IoClose <$> option_list log) ## ios.
Proof.
  intros Hcase x (p & -> & _)%list_elem_of_fmap.
  by destruct Hcase as [->|[->| ->]]; rewrite ?elem_of_cons, elem_of_nil; intuition.
Qed.

(** How a wait ends at its last iteration. *)
Lemma wait_loop_end deadline k ticks r :
  wait_loop deadline k ticks = Some r →
  ∃ before t after, ticks = before ++ t :: after ∧
    Forall (λ t, t_poll t = None ∧ t_cancel t = false ∧ expired deadline t = false ∧ t_wait t = None) before ∧
    ((∃ rc, (t_poll t = Some rc ∨ t_poll t = None ∧ t_cancel t = false ∧ expired deadline t = false ∧ t_wait t = Some rc) ∧
            r = ([], (Some rc, false, false))) ∨
     (t_poll t = None ∧ t_cancel t = true ∧ r = ((terminate_proc k).1, ((terminate_proc k).2, false, true))) ∨
     (t_poll t = None ∧ t_cancel t = false ∧ expired deadline t = true ∧
      r = ((terminate_proc k).1, ((terminate_proc k).2, true, false)))).
Proof.
  induction ticks as [|t ticks IH]; [done|]. simpl.
  destruct (t_poll t) as [rc|] eqn:Hp; [intros [= <-]; exists [], t, ticks; eauto 10|].
  destruct (t_cancel t) eqn:Hc.
  { destruct (terminate_proc k) as [ios rc]. intros [= <-]. exists [], t, ticks. eauto 10. }
  destruct (expired deadline t) eqn:He.
  { destruct (terminate_proc k) as [ios rc]. intros [= <-]. exists [], t, ticks. eauto 10. }
  destruct (t_wait t) as [rc|] eqn:Hw; [intros [= <-]; exists [], t, ticks; eauto 10|].
  intros Hr. destruct (IH Hr) as (before & t' & after & -> & Hb & Hend).
  exists (t :: before), t', after. split_and!; [done|by constructor|done].
Qed.

(** The number of iterations left before a deadline. *)
Definition polls_left (d now : Z) : nat := Z.to_nat ((d - now + (POLL_INTERVAL - 1)) / POLL_INTERVAL).

Lemma polls_left_step d now now' :
  0 < d - now → now + Z.min POLL_INTERVAL (d - now) ≤ now' → (polls_left d now' < polls_left d now)%nat.
Proof.
  intros Hd Hn. unfold polls_left, POLL_INTERVAL in *.
  assert (H0 : 1 ≤ (d - now + (100000000 - 1)) / 100000000) by (apply Z.div_le_lower_bound; lia).
  destruct (Z.le_gt_cases (d - now') 0) as [Hle|Hgt].
  - assert ((d - now' + (100000000 - 1)) / 100000000 ≤ 0); [|lia].
    apply Z.lt_succ_r, Z.div_lt_upper_bound; lia.
  - assert ((d - now' + (100000000 - 1)) / 100000000 ≤ (d - now + (100000000 - 1)) / 100000000 - 1); [|lia].
    pose proof (Z.div_add (d - now' + (100000000 - 1)) 1 100000000 ltac:(lia)) as Hone.
    pose proof (Z.div_le_mono (d - now' + (100000000 - 1) + 1 * 100000000) (d - now + (100000000 - 1)) 100000000
      ltac:(lia) ltac:(lia)). lia.
Qed.

Lemma wait_loop_returns d k ticks t :
  clock_advances (Some d) (t :: ticks) → (polls_left d (t_now t) ≤ length ticks)%nat →
  wait_loop (Some d) k (t :: ticks) ≠ None.
Proof.
  revert t. induction ticks as [|t' ticks IH]; intros t Hc Hl.
  - simpl in Hl. cbn [wait_loop]. destruct (t_poll t); [done|]. destruct (t_cancel t), (terminate_proc k); [done..|].
    assert (expired (Some d) t = true) as ->; [|done]. unfold expired. apply Z.leb_le.
    destruct (Z.le_gt_cases (d - t_now t) 0); [done|]. exfalso.
    assert (1 ≤ (d - t_now t + (POLL_INTERVAL - 1)) / POLL_INTERVAL); [|unfold polls_left in Hl; lia].
    unfold POLL_INTERVAL. apply Z.div_le_lower_bound; lia.
  - cbn [wait_loop]. destruct (t_poll t); [done|]. destruct (t_cancel t); [by destruct (terminate_proc k)|].
    destruct (expired (Some d) t) eqn:He; [by destruct (terminate_proc k)|].
    destruct (t_wait t) eqn:Hw; [done|]. destruct Hc as [Hstep Hc]. apply IH; [done|].
    specialize (Hstep Hw). unfold expired in He. apply Z.leb_gt in He.
    pose proof (polls_left_step d (t_now t) (t_now t') ltac:(lia) Hstep). simpl in Hl. lia.
Qed.

(** An iteration in which the process was not seen to end, no event was set and
    the deadline had not passed. *)
Definition uneventful (d : Z) (t : tick) : Prop :=
  t_poll t = None ∧ t_cancel t = false ∧ t_now t < d ∧ t_wait t = None.

Lemma expired_lt d t : expired (Some d) t = false ↔ t_now t < d.
Proof. unfold expired. rewrite Z.leb_gt. lia. Qed.
Lemma expired_le d t : expired (Some d) t = true ↔ d ≤ t_now t.
Proof. unfold expired. rewrite Z.leb_le. lia. Qed.

(** C35: a wait with a deadline ends, and says how. If each timed wait takes its
    time, a wait returns after at most one poll more than the poll intervals that
    fit before the deadline, at the first iteration in which something happened.
    If the process was seen to exit there, by the poll or by the timed wait, it is
    reported with the very status seen, and no signal was sent. Otherwise exactly
    one of [cancelled] and [timed_out] is set: [cancelled] if the event was set
    while the process was still running, [timed_out] if it was not and the
    deadline had passed. Then SIGTERM was sent, and SIGKILL only after the grace
    period; the return code is the status the process was reaped with, and is
    missing only when the process could not be found. The log file is closed
    last. *)
Theorem wait_spec log d k t ticks :
  clock_advances (Some d) (t :: ticks) → (polls_left d (t_now t) ≤ length ticks)%nat →
  ∃ ios r before t' after, wait log (Some d) k (t :: ticks) = Some (ios ++ (IoClose <$> option_list log), r) ∧
    log_path r = log ∧ (IoClose <$> option_list log) ## ios ∧
    t :: ticks = before ++ t' :: after ∧ Forall (uneventful d) before ∧
    ((timed_out r = false ∧ cancelled r = false ∧ ios = [] ∧
      ∃ rc, returncode r = Some rc ∧
        (t_poll t' = Some rc ∨ t_poll t' = None ∧ t_cancel t' = false ∧ t_now t' < d ∧ t_wait t' = Some rc)) ∨
     t_poll t' = None ∧
     (timed_out r = false ∧ cancelled r = true ∧ t_cancel t' = true ∨
      timed_out r = true ∧ cancelled r = false ∧ t_cancel t' = false ∧ d ≤ t_now t') ∧
     (k_term k = false ∧ ios = [] ∧ returncode r = None ∨
      k_term k = true ∧ returncode r = Some (default (k_reap k) (k_grace k)) ∧
      (ios = [IoTerm] ∨ ios = [IoTerm; IoKill]) ∧ (IoKill ∈ ios ↔ k_grace k = None ∧ k_kill k = true))).
Proof.
  intros Hc Hl. pose proof (wait_loop_returns d k ticks t Hc Hl) as Hw. unfold wait.
  destruct (wait_loop (Some d) k (t :: ticks)) as [[ios [[rc to] ca]]|] eqn:E; [|done].
  apply wait_loop_end in E as (before & t' & after & Ht & Hb & Hend).
  exists ios, (mkCommandResult rc "" "" to ca log), before, t', after. split; [done|]. split; [done|].
  pose proof (terminate_proc_spec k) as Hk. destruct (terminate_proc k) as [kios krc].
  assert (Hkc : kios = [] ∨ kios = [IoTerm] ∨ kios = [IoTerm; IoKill]) by tauto.
  split; [apply close_not_signal; destruct Hend as [(? & _ & [= -> _ _ _])|[(_ & _ & [= -> _ _ _])|(_ & _ & _ & [= -> _ _ _])]]; auto|].
  split; [done|]. split.
  { eapply Forall_impl; [exact Hb|]. intros x (? & ? & ?%expired_lt & ?). by split_and!. }
  destruct Hend as [(rc' & Hn & [= -> -> -> ->])|[(Hp & Hca & [= -> -> -> ->])|(Hp & Hca & He%expired_le & [= -> -> -> ->])]]; simpl.
  - left. split_and!; [done..|]. exists rc'. split; [done|]. by rewrite expired_lt in Hn.
  - right. auto 10.
  - right. auto 10.
Qed.

(** A process that ignores SIGTERM, waited for 250 ms. *)
Definition slow_ticks : list tick :=
  [mkTick None false 0 None; mkTick None false 100000000 None; mkTick None false 200000000 None;
   mkTick None false 250000000 None].
Lemma wait_spec_witness :
  ∃ ios r, wait (Some "h0.log") (Some 250000000) (mkEnding true None true (-9)) slow_ticks =
    Some (ios ++ [IoClose "h0.log"], r) ∧ log_path r = Some "h0.log".
Proof.
  destruct (wait_spec (Some "h0.log") 250000000 (mkEnding true None true (-9)) (mkTick None false 0 None)
    [mkTick None false 100000000 None; mkTick None false 200000000 None; mkTick None false 250000000 None])
    as (ios & r & before & t' & after & H1 & H2 & _); [by vm_compute|vm_compute; lia|]. eauto.
Defined.

Example slow_result : wait (Some "h0.log") (Some 250000000) (mkEnding true None true (-9)) slow_ticks =
  Some ([IoTerm; IoKill; IoClose "h0.log"], mkCommandResult (Some (-9)) "" "" true false (Some "h0.log")).
Proof. vm_compute. reflexivity. Qed.

(** ** Log files of a run *)

Definition opens (ios : list io) : list string := omap (λ i, match i with IoOpen p => Some p | _ => None end) ios.
Definition closes (ios : list io) : list string := omap (λ i, match i with IoClose p => Some p | _ => None end) ios.

Lemma opens_app a b : opens (a ++ b) = opens a ++ opens b.
Proof. apply omap_app. Qed.
Lemma closes_app a b : closes (a ++ b) = closes a ++ closes b.
Proof. apply omap_app. Qed.

Lemma terminate_files k : opens (terminate_proc k).1 = [] ∧ closes (terminate_proc k).1 = [].
Proof. unfold terminate_proc. destruct (k_term k), (k_grace k), (k_kill k); done. Qed.

Lemma spawn_files log s :
  opens (spawn log s).1 = closes (spawn log s).1 ++ (if (spawn log s).2 then [] else option_list log) ∧
  ((spawn log s).2 = None → closes (spawn log s).1 = []).
Proof. unfold spawn. by destruct log, (s_open s), (s_popen s). Qed.

Lemma communicate_files s ios oe rc t :
  communicate s = (ios, oe, rc, t) → opens ios = [] ∧ closes ios = [].
Proof.
  unfold communicate. destruct (s_communicate s); [by intros [= <- _ _ _]|].
  pose proof (terminate_files (s_ending s)) as Hk. destruct (terminate_proc (s_ending s)). by intros [= <- _ _ _].
Qed.

Lemma wait_loop_files deadline k ticks ios w : wait_loop deadline k ticks = Some (ios, w) → opens ios = [] ∧ closes ios = [].
Proof.
  destruct w as [[rc to] ca]. intros E. apply wait_loop_end in E as (? & ? & ? & _ & _ & Hend).
  destruct Hend as [(? & _ & [= -> _])|[(_ & _ & [= -> _])|(_ & _ & _ & [= -> _])]]; [done|apply terminate_files..].
Qed.

Lemma wait_files log deadline k ticks ios r :
  wait log deadline k ticks = Some (ios, r) → opens ios = [] ∧ closes ios = option_list log.
Proof.
  unfold wait. destruct (wait_loop deadline k ticks) as [[ios' [[rc to] ca]]|] eqn:E; [|done]. intros [= <- _].
  apply wait_loop_files in E as [H1 H2]. rewrite opens_app, closes_app, H1, H2. by destruct log.
Qed.

(** A run does not leak its log file. Whatever the options of a run, and
    whether the command ends, times out, is cancelled or cannot be spawned: when
    the run is over, the log files it closed are exactly those it opened. *)
Lemma run_closes_log log timeout cancellable capture capture_stderr s ios r :
  run log timeout cancellable capture capture_stderr s = (ios, Some r) → opens ios = closes ios.
Proof.
  assert (Hspawn : ∀ l ios0 e, spawn l s = (ios0, Some e) → opens ios0 = closes ios0).
  { intros l ios0 e E. pose proof (spawn_files l s) as [Hs _]. rewrite E in Hs. simpl in Hs. by rewrite app_nil_r in Hs. }
  assert (Hopen : ∀ l ios0, spawn l s = (ios0, None) → opens ios0 = option_list l ∧ closes ios0 = []).
  { intros l ios0 E. pose proof (spawn_files l s) as [Hs Hc]. rewrite E in Hs, Hc. simpl in Hs, Hc.
    specialize (Hc eq_refl). rewrite Hc in Hs. by split. }
  assert (Hclose : ∀ l, opens (IoClose <$> option_list l) = [] ∧ closes (IoClose <$> option_list l) = option_list l) by (by intros []).
  unfold run. destruct capture_stderr.
  - destruct cancellable; [by intros [= <- _]|]. unfold run_separate. set (l := match log with Some "" => None | l => l end).
    destruct (spawn l s) as [ios0 [e|]] eqn:E; [intros [= <- _]; by eapply Hspawn|].
    destruct (communicate s) as [[[ios1 [out err]] rc] t] eqn:Ec. intros [= <- _].
    apply communicate_files in Ec as [H1 H2]. apply Hopen in E as [H3 H4]. destruct (Hclose l) as [H5 H6].
    rewrite !opens_app, !closes_app, H1, H2, H3, H4, H5, H6. simpl. by rewrite app_nil_r.
  - destruct ((if log then false else capture) && negb cancellable).
    + unfold run_captured. destruct (spawn None s) as [ios0 [e|]] eqn:E; [intros [= <- _]; by eapply Hspawn|].
      destruct (communicate s) as [[[ios1 [out err]] rc] t] eqn:Ec. intros [= <- _].
      apply communicate_files in Ec as [H1 H2]. apply Hopen in E as [H3 H4].
      by rewrite !opens_app, !closes_app, H1, H2, H3, H4.
    + destruct (spawn log s) as [ios0 [e|]] eqn:E; [intros [= <- _]; by eapply Hspawn|].
      destruct (wait _ _ _ _) as [[ios1 r1]|] eqn:Ew; [|done]. intros [= <- _].
      apply wait_files in Ew as [H1 H2]. apply Hopen in E as [H3 H4].
      rewrite opens_app, closes_app, H1, H2, H3, H4. by rewrite app_nil_r.
Qed.

(** ** Handles *)

(** [_MininetHandle]: its log file is there until it is closed. *)
Record handle := mkHandle { h_node : string; h_argv : list string; h_log_path : option string; h_log_file : option string }.
Definition close_log (h : handle) : list io * handle :=
  (IoClose <$> option_list (h_log_file h), mkHandle (h_node h) (h_argv h) (h_log_path h) None).

(** [_popen]: where a command runs. *)
Inductive namespace := RootNamespace | HostNamespace (node : string).
Definition ROOT_SENTINEL : string := "root".
Definition popen_in (node : string) : namespace := if (node =? ROOT_SENTINEL)%string then RootNamespace else HostNamespace node.
(** Where [_spawn] sends standard output and standard error. *)
Inductive stream := LogFile (p : string) | Pipe | SameAsStdout | Inherited.
Definition redirections (log : option string) (capture : bool) : stream * stream :=
  match log with
  | Some p => (LogFile p, SameAsStdout)
  | None => if capture then (Pipe, SameAsStdout) else (Inherited, Inherited)
  end.

(** [start]: nothing is captured. *)
Definition start (node : string) (argv : list string) (log : option string) (s : script) : list io * (handle + exn) :=
  match spawn log s with
  | (ios, Some e) => (ios, inr e)
  | (ios, None) => (ios, inl (mkHandle node argv log log))
  end.
(** [wait] on a handle, which may have been waited for before. *)
Definition wait_handle (h : handle) (deadline : option Z) (k : ending) (ticks : list tick) : option (list io * CommandResult * handle) :=
  '(ios, (rc, t, c)) ← wait_loop deadline k ticks;
  let '(ios', h') := close_log h in
  Some (ios ++ ios', mkCommandResult rc "" "" t c (h_log_path h), h').
(** [poll], [terminate] and [kill]; a process that is gone is not an error. *)
Definition poll (status : option Z) (h : handle) : option Z := status.
Definition terminate (found : bool) (h : handle) : list io := if found then [IoTerm] else [].
Definition kill (found : bool) (h : handle) : list io := if found then [IoKill] else [].

(** What is done with a handle once it is started. *)
Inductive use := UsePoll (status : option Z) | UseTerminate (found : bool) | UseKill (found : bool) | UseWait (deadline : option Z) (k : ending) (ticks : list tick).
Definition use_handle (u : use) (h : handle) : option (list io * handle) :=
  match u with
  | UsePoll status => let _ := poll status h in Some ([], h)
  | UseTerminate found => Some (terminate found h, h)
  | UseKill found => Some (kill found h, h)
  | UseWait deadline k ticks => '(ios, _, h') ← wait_handle h deadline k ticks; Some (ios, h')
  end.
Fixpoint use_all (us : list use) (h : handle) : option (list io * handle) :=
  match us with
  | [] => Some ([], h)
  | u :: us => '(ios, h) ← use_handle u h; '(ios', h) ← use_all us h; Some (ios ++ ios', h)
  end.
Definition is_wait (u : use) : bool := match u with UseWait _ _ _ => true | _ => false end.

(** The first wait on a started handle is the wait above. *)
Lemma wait_started node argv log deadline k ticks :
  wait log deadline k ticks = (λ r : list io * CommandResult * handle, r.1) <$> wait_handle (mkHandle node argv log log) deadline k ticks.
Proof. unfold wait, wait_handle, close_log. by destruct (wait_loop deadline k ticks) as [[ios [[rc to] ca]]|]. Qed.

#[local] Arguments opens : simpl never.
#[local] Arguments closes : simpl never.
Lemma use_handle_files u h ios h' : use_handle u h = Some (ios, h') →
  opens ios = [] ∧ closes ios = (if is_wait u then option_list (h_log_file h) else []) ∧
  h_log_file h' = (if is_wait u then None else h_log_file h).
Proof.
  destruct u as [st|f|f|deadline k ticks]; cbn; [by intros [= <- <-]|by destruct f; intros [= <- <-]..|].
  unfold wait_handle. destruct (wait_loop deadline k ticks) as [[ios' [[rc to] ca]]|] eqn:E; [|done]. cbn. intros [= <- <-].
  apply wait_loop_files in E as [H1 H2]. rewrite opens_app, closes_app, H1, H2. by destruct (h_log_file h).
Qed.
(** However a handle is used, its log file is closed at most once: by the first wait,
    and by nothing else. *)
Lemma use_all_files us h ios h' : use_all us h = Some (ios, h') →
  opens ios = [] ∧ closes ios = (if existsb is_wait us then option_list (h_log_file h) else []) ∧
  h_log_file h' = (if existsb is_wait us then None else h_log_file h).
Proof.
  revert h ios. induction us as [|u us IH]; intros h ios; cbn; [by intros [= <- <-]|].
  destruct (use_handle u h) as [[ios1 h1]|] eqn:E1; [|done]. cbn. destruct (use_all us h1) as [[ios2 h2]|] eqn:E2; [|done]. cbn. intros [= <- ->].
  apply use_handle_files in E1 as (O1 & C1 & F1). apply IH in E2 as (O2 & C2 & F2). rewrite opens_app, closes_app, O1, O2, C1, C2, F2, F1.
  destruct (is_wait u); cbn; [|done]. by destruct (existsb is_wait us), (h_log_file h).
Qed.
(** A started command that is waited for does not leak its log. *)
Lemma start_wait_closes node argv log s ios h us ios' h' :
  start node argv log s = (ios, inl h) → use_all us h = Some (ios', h') → existsb is_wait us = true →
  opens (ios ++ ios') = closes (ios ++ ios') ∧ h_log_file h' = None.
Proof.
  unfold start. destruct (spawn_files log s) as [Ho Hc]. destruct (spawn log s) as [ios0 [e|]]; [done|]. cbn in *. intros [= -> <-] Hu Hw.
  apply use_all_files in Hu as (O & C & F). rewrite Hw in C, F. specialize (Hc eq_refl). rewrite Hc in Ho. rewrite opens_app, closes_app, O, C, Ho, Hc. cbn. by rewrite app_nil_r.
Qed.

(** Standard error goes where standard output goes, in every run that does not keep
    them apart. *)
Lemma redirections_joined log capture : (redirections log capture).2 = SameAsStdout ∨ redirections log capture = (Inherited, Inherited).
Proof. destruct log, capture; auto. Qed.
