(* ===== verification/FakeRunner.v ===== *)
(** Component: the recording runner of the tests (src/runtime/command_runner.py,
    FakeCommandRunner): the calls it records, the results it is scripted with, and
    the threads that call it at once.  A method is one step while it holds the lock
    and is split where it releases it. *)
From S2P Require Import Prelude PyValue CommandRunner.
Local Open Scope Z_scope.

(** * State *)

Record call := mkCall { c_node : string; c_argv : list string; c_log : option string; c_cwd : option string; c_timeout : option Z; c_capture : bool; c_capture_stderr : bool; c_cancellable : bool }.
Record fhandle := mkFHandle { h_node : string; h_argv : list string; h_log : option string; h_cwd : option string; terminated : bool; killed : bool; h_result : option CommandResult }.
(** [waits] names the handles by their position in [starts]. *)
Record fake := mkFake { runs : list call; starts : list fhandle; waits : list nat; wait_calls : list (nat * option Z * bool); run_results : list CommandResult; wait_results : list CommandResult }.
Definition FakeCommandRunner : fake := mkFake [] [] [] [] [] [].

Definition set_runs (l : list call) (f : fake) : fake := mkFake l (starts f) (waits f) (wait_calls f) (run_results f) (wait_results f).
Definition set_starts (l : list fhandle) (f : fake) : fake := mkFake (runs f) l (waits f) (wait_calls f) (run_results f) (wait_results f).
Definition set_waits (l : list nat) (cs : list (nat * option Z * bool)) (f : fake) : fake := mkFake (runs f) (starts f) l cs (run_results f) (wait_results f).
Definition set_run_results (l : list CommandResult) (f : fake) : fake := mkFake (runs f) (starts f) (waits f) (wait_calls f) l (wait_results f).
Definition set_wait_results (l : list CommandResult) (f : fake) : fake := mkFake (runs f) (starts f) (waits f) (wait_calls f) (run_results f) l.

(** * Scripting *)

Definition script_run (rc : option Z) (out err : string) (t c : bool) (f : fake) : fake := set_run_results (run_results f ++ [mkCommandResult rc out err t c None]) f.
Definition script_wait (rc : option Z) (out err : string) (t c : bool) (f : fake) : fake := set_wait_results (wait_results f ++ [mkCommandResult rc out err t c None]) f.

(** [_clone], and [CommandResult(0, log_path=...)]. *)
Definition clone (r : CommandResult) (log : option string) : CommandResult := mkCommandResult (returncode r) (stdout r) (stderr r) (timed_out r) (cancelled r) log.
Definition default_result (log : option string) : CommandResult := mkCommandResult (Some 0) "" "" false false log.
Definition answer (r : option CommandResult) (log : option string) : CommandResult := match r with Some r => clone r log | None => default_result log end.

(** * Calls *)

(** [run] without a hook: one locked step. *)
Definition record_run (c : call) (f : fake) : fake := set_runs (runs f ++ [c]) f.
Definition take_run (f : fake) : fake * option CommandResult := (set_run_results (tail (run_results f)) f, head (run_results f)).
Definition run_plain (c : call) (f : fake) : fake * CommandResult :=
  let '(f, r) := take_run (record_run c f) in (f, answer r (c_log c)).
(** [run] after the hook has answered: a scripted result is taken only when it has
    not. *)
Definition run_hooked (hooked : option CommandResult) (c : call) (f : fake) : fake * CommandResult :=
  match hooked with
  | Some r => (f, clone r (c_log c))
  | None => let '(f, r) := take_run f in (f, answer r (c_log c))
  end.

(** [start]; [on_start] may set the result of the handle. *)
Definition start (node : string) (argv : list string) (log cwd : option string) (on_start : option (fhandle → option CommandResult)) (f : fake) : fake * nat :=
  let h := mkFHandle node argv log cwd false false None in
  let h := match on_start with Some hook => mkFHandle node argv log cwd false false (hook h) | None => h end in
  (set_starts (starts f ++ [h]) f, length (starts f)).
(** [wait] of the [i]-th handle. *)
Definition fake_wait (i : nat) (deadline : option Z) (cancellable : bool) (f : fake) : fake * CommandResult :=
  let f := set_waits (waits f ++ [i]) (wait_calls f ++ [(i, deadline, cancellable)]) f in
  let log := starts f !! i ≫= h_log in
  match starts f !! i ≫= h_result with
  | Some r => (f, clone r log)
  | None => (set_wait_results (tail (wait_results f)) f, answer (head (wait_results f)) log)
  end.
Definition fake_poll (i : nat) (f : fake) : option Z := None.
Definition set_terminated (h : fhandle) : fhandle := mkFHandle (h_node h) (h_argv h) (h_log h) (h_cwd h) true (killed h) (h_result h).
Definition set_killed (h : fhandle) : fhandle := mkFHandle (h_node h) (h_argv h) (h_log h) (h_cwd h) (terminated h) true (h_result h).
Definition fake_terminate (i : nat) (f : fake) : fake := set_starts (alter set_terminated i (starts f)) f.
Definition fake_kill (i : nat) (f : fake) : fake := set_starts (alter set_killed i (starts f)) f.

(** * Runs one after another *)

Lemma tail_drop {A} (l : list A) : tail l = drop 1 l.
Proof. by destruct l. Qed.

Definition run_all (cs : list call) (f : fake) : fake * list CommandResult :=
  foldl (λ fr c, let '(f, r) := run_plain c fr.1 in (f, fr.2 ++ [r])) (f, []) cs.

(** Without a hook the calls are recorded and answered in the same order, whatever the
    order the threads come in: the i-th recorded call has the i-th scripted result, and
    calls beyond the script succeed. *)
Lemma runs_in_order cs f : let '(f', rs) := run_all cs f in
  runs f' = runs f ++ cs ∧ run_results f' = drop (length cs) (run_results f) ∧
  rs = imap (λ i c, answer (run_results f !! i) (c_log c)) cs.
Proof.
  induction cs as [|c cs IH] using rev_ind; [cbn; by rewrite app_nil_r, drop_0|]. unfold run_all in *. rewrite foldl_snoc. destruct (foldl _ _ cs) as [f' rs]. destruct IH as (Hr & Hq & Hrs).
  cbn. rewrite Hr, Hq, Hrs. split_and!; [by rewrite app_assoc| |].
  - rewrite length_app. cbn. by rewrite tail_drop, drop_drop.
  - rewrite imap_app. cbn. by rewrite Nat.add_0_r, head_lookup, lookup_drop, Nat.add_0_r.
Qed.

(** * Runs at once, with a hook *)

Section threads.
Context (hook : string → list string → option CommandResult).

(** The runner, the recorded calls whose hook has not answered, the scripted results
    taken so far and the answered calls. *)
Record threads := mkThreads { t_fake : fake; t_pending : list call; t_taken : list CommandResult; t_answered : list (call * CommandResult) }.
Inductive fstep : threads → threads → Prop :=
  | fs_record c s : fstep s (mkThreads (record_run c (t_fake s)) (t_pending s ++ [c]) (t_taken s) (t_answered s))
  | fs_hooked c l1 l2 r s : t_pending s = l1 ++ c :: l2 → hook (c_node c) (c_argv c) = Some r →
      fstep s (mkThreads (run_hooked (Some r) c (t_fake s)).1 (l1 ++ l2) (t_taken s) (t_answered s ++ [(c, (run_hooked (Some r) c (t_fake s)).2)]))
  | fs_scripted c l1 l2 s : t_pending s = l1 ++ c :: l2 → hook (c_node c) (c_argv c) = None →
      fstep s (mkThreads (run_hooked None c (t_fake s)).1 (l1 ++ l2) (t_taken s ++ option_list (head (run_results (t_fake s)))) (t_answered s ++ [(c, (run_hooked None c (t_fake s)).2)])).

(** Every scripted result is taken at most once and in order, none is lost, every call
    is recorded once, and a call the hook answers has that answer. *)
Record finv (f : fake) (s : threads) : Prop := {
  fi_script : t_taken s ++ run_results (t_fake s) = run_results f;
  fi_calls : runs (t_fake s) ≡ₚ runs f ++ (t_answered s).*1 ++ t_pending s;
  fi_hooked c r r' : (c, r) ∈ t_answered s → hook (c_node c) (c_argv c) = Some r' → r = clone r' (c_log c);
}.
Lemma finv_reachable f s : rtc fstep (mkThreads f [] [] []) s → finv f s.
Proof.
  revert s. apply rtc_ind_r; [constructor; cbn; [done|by rewrite app_nil_r|]; by intros c r r' ?%elem_of_nil|]. intros s s' _ Hs IH. destruct IH as [H1 H2 H3]. destruct Hs as [c s|c l1 l2 r s Hp Hh|c l1 l2 s Hp Hh]; constructor; cbn; try done.
  - rewrite H2. by rewrite <-!app_assoc.
  - rewrite H2, Hp, fmap_app. cbn. solve_Permutation.
  - intros c0 r0 r' [Hin|Hin]%elem_of_app; [by apply H3|]. apply list_elem_of_singleton in Hin as [= -> ->]. congruence.
  - rewrite <-H1, <-app_assoc. f_equal. by destruct (run_results (t_fake s)).
  - rewrite H2, Hp, fmap_app. cbn. solve_Permutation.
  - intros c0 r0 r' [Hin|Hin]%elem_of_app; [by apply H3|]. apply list_elem_of_singleton in Hin as [= -> ->]. congruence.
Qed.
End threads.

(** With a hook the answers may come in another order than the records. *)
Example hooked_out_of_order : let c n := mkCall n [] None None None true false false in
  rtc (fstep (λ _ _, None)) (mkThreads (script_run (Some 1) "" "" false false FakeCommandRunner) [] [] [])
    (mkThreads (mkFake [c "a"; c "b"] [] [] [] [] []) [] [mkCommandResult (Some 1) "" "" false false None] [(c "b", mkCommandResult (Some 1) "" "" false false None); (c "a", default_result None)]).
Proof.
  intros c. eapply rtc_l; [apply (fs_record _ (c "a"))|]. eapply rtc_l; [apply (fs_record _ (c "b"))|]. cbn.
  eapply rtc_l; [by apply (fs_scripted _ (c "b") [c "a"] [])|]. cbn. eapply rtc_l; [by apply (fs_scripted _ (c "a") [] [])|]. cbn. apply rtc_refl.
Qed.
