(* ===== verification/HostApps.v ===== *)
(** Component: host applications (src/runtime/host_apps.py): placeholder
    expansion, the log path of each life of a process, and the fleet, whose
    restarts (scheduler thread) interleave with its shutdown (main thread).
    Methods are split where they release the fleet's lock.  The command runner
    is represented by what the fleet relies on: a start gives a fresh handle or
    raises, a wait that returns has reclaimed the process. *)
From S2P Require Import Prelude PyValue PyString Events.
Local Open Scope Z_scope.

(** * Expansion *)

Definition PLACEHOLDER_NAMES : list string := ["node"; "node_dir"; "cefore_conf_dir"; "t0_ms"].

(** The context maps every placeholder to its text. *)
Record placeholders := mkPlaceholders {
  ph_node : string;
  ph_node_dir : string;
  ph_conf_dir : string;
  ph_t0_ms : string;
}.
Definition ctx_value (ctx : placeholders) (name : string) : string :=
  if bool_decide (name = "node") then ph_node ctx
  else if bool_decide (name = "node_dir") then ph_node_dir ctx
  else if bool_decide (name = "cefore_conf_dir") then ph_conf_dir ctx
  else ph_t0_ms ctx.

(** [_expand]: the known placeholders are replaced one after the other. *)
Definition expand (text : string) (ctx : placeholders) : string :=
  foldl (λ text name, replace text ("{" +s+ name +s+ "}") (ctx_value ctx name)) text PLACEHOLDER_NAMES.

(** [_expand] of a configuration value: only a string can be expanded. *)
Definition expand_value (v : pv) (ctx : placeholders) : res string :=
  match v with PStr s => Ok (expand s ctx) | _ => raise EAttributeError "no attribute 'replace'" end.

Section expansion.
Context `{FloatRepr}.

(** [d[k]] for any key. *)
Definition dict_getitem (d : pydict) (k : pv) : res pv :=
  if hashable k then
    match List.find (λ kv : pv * pv, key_eq kv.1 k) d with
    | Some kv => Ok kv.2
    | None => raise EKeyError (repr k)
    end
  else unhashable k.

(** [_env_argv_prefix]. *)
Definition env_argv_prefix (env : list (pv * string)) : list string :=
  "env" :: ((λ kv : pv * string, py_str kv.1 +s+ "=" +s+ kv.2) <$> env).

(** [_resolve_hosts]. *)
Definition resolve_hosts (hosts : pv) (host_count : Z) : res (list pv) :=
  if eq_str hosts "all" then Ok (PInt <$> range host_count) else py_list hosts.

(** [_life_log]. *)
Definition life_log (log : option string) (life : Z) : option string :=
  match log with
  | Some l => if life <=? 1 then Some l else Some (l +s+ ".life" +s+ str_Z life)
  | None => None
  end.

(** What is fixed when a fleet is built. *)
Record fleet_config := mkConfig {
  fc_specs : list pydict;
  fc_host_count : Z;
  fc_node_dirs : pydict;
  fc_conf_dirs : pydict;
  fc_t0_ms : string;
}.

(** [_placeholder_context] for one host. *)
Definition placeholder_context (c : fleet_config) (idx : pv) : res placeholders :=
  node_dir ← dict_getitem (fc_node_dirs c) idx;
  conf_dir ← dict_getitem (fc_conf_dirs c) idx;
  Ok (mkPlaceholders ("h" +s+ py_str idx) (py_str node_dir) (py_str conf_dir) (fc_t0_ms c)).

(** An optional text field of a spec. *)
Definition expand_opt (spec : pydict) (k : string) (ctx : placeholders) : res (option string) :=
  match get_none spec k with
  | PNone => Ok None
  | v => s ← expand_value v ctx; Ok (Some s)
  end.

(** [_expand_launch]: argv, cwd and log. *)
Definition expand_launch (c : fleet_config) (spec : pydict) (idx : pv)
    : res (list string * option string * option string) :=
  ctx ← placeholder_context c idx;
  args ← getitem spec "argv" ≫= py_list;
  argv ← mapR (λ a, expand_value a ctx) args;
  argv ← match get_none spec "env" with
         | PDict env =>
             if truthy (PDict env) then
               env' ← mapR (λ kv : pv * pv, v ← expand_value kv.2 ctx; Ok (kv.1, v)) env;
               Ok (env_argv_prefix env' ++ argv)
             else Ok argv
         | v => if truthy v then raise EAttributeError "no attribute 'items'" else Ok argv
         end;
  cwd ← expand_opt spec "cwd" ctx;
  log ← expand_opt spec "log" ctx;
  Ok (argv, cwd, log).

(** The hosts of a spec, in launch order. *)
Definition spec_hosts (c : fleet_config) (spec : pydict) : res (list pv) :=
  hosts ← getitem spec "hosts";
  resolve_hosts hosts (fc_host_count c).

(** * The fleet *)

(** An entry of [_launches]. *)
Record launch := mkLaunch {
  la_idx : pv;
  la_argv : list string;
  la_cwd : option string;
  la_log : option string;
  la_life : Z;
  la_handle : nat;
}.

(** The mutable state of a [HostAppFleet]. *)
Record fleet := mkFleet {
  fl_config : fleet_config;
  reserved_logs : gset string;
  launches : list launch;
  stopping : bool;
}.

(** The processes the runner started that are not known to be gone, the next
    handle, and the log files opened (and truncated) so far. *)
Record world := mkWorld { alive : gset nat; next : nat; opened : list string }.

(** [CommandRunner.start]: the log is opened before the process is spawned. *)
Inductive start_reply := Started | OpenFailed (e : exn) | SpawnFailed (e : exn).

Definition runner_start (r : start_reply) (log : option string) (w : world) : world * (nat + exn) :=
  let opened' := opened w ++ option_list log in
  match r with
  | Started => (mkWorld ({[next w]} ∪ alive w) (S (next w)) opened', inl (next w))
  | OpenFailed e => (w, inr e)
  | SpawnFailed e => (mkWorld (alive w) (next w) opened', inr e)
  end.

(** [CommandRunner.wait] at an expired deadline. *)
Inductive wait_reply := Reclaimed | WaitFailed (e : exn).

Definition runner_wait (r : wait_reply) (h : nat) (w : world) : world * option exn :=
  match r with
  | Reclaimed => (mkWorld (alive w ∖ {[h]}) (next w) (opened w), None)
  | WaitFailed e => (w, Some e)
  end.

(** [__init__]; [realpath] is [os.path.realpath]. *)
Context (realpath : string → string).

(** The life-1 log of every spec on every host. *)
Definition base_logs (c : fleet_config) : res (list string) :=
  foldM (λ logs spec,
    idxs ← spec_hosts c spec;
    foldM (λ logs idx, '(_, _, log) ← expand_launch c spec idx; Ok (logs ++ option_list log)) logs idxs)
    [] (fc_specs c).

Definition HostAppFleet_init (c : fleet_config) : res fleet :=
  logs ← base_logs c;
  Ok (mkFleet c (list_to_set (realpath <$> logs)) [] false).

Definition set_launches (f : fleet) (l : list launch) : fleet :=
  mkFleet (fl_config f) (reserved_logs f) l (stopping f).

(** The inner loop of [start_all]; the [k]-th start is answered by [starts k]. *)
Fixpoint start_hosts (starts : nat → start_reply) (spec : pydict) (idxs : list pv) (k : nat) (f : fleet) (w : world)
    : fleet * world * (nat + exn) :=
  match idxs with
  | [] => (f, w, inl k)
  | idx :: idxs =>
      match expand_launch (fl_config f) spec idx with
      | Ok (argv, cwd, log) =>
          match runner_start (starts k) log w with
          | (w, inl h) =>
              start_hosts starts spec idxs (S k)
                (set_launches f (launches f ++ [mkLaunch idx argv cwd log 1 h])) w
          | (w, inr e) => (f, w, inr e)
          end
      | Raise e => (f, w, inr e)
      | NoFuel => (f, w, inr (Exn EOther ""))
      end
  end.

Fixpoint start_specs (starts : nat → start_reply) (specs : list pydict) (k : nat) (f : fleet) (w : world)
    : fleet * world * option exn :=
  match specs with
  | [] => (f, w, None)
  | spec :: specs =>
      match spec_hosts (fl_config f) spec with
      | Ok idxs =>
          match start_hosts starts spec idxs k f w with
          | (f, w, inl k) => start_specs starts specs k f w
          | (f, w, inr e) => (f, w, Some e)
          end
      | Raise e => (f, w, Some e)
      | NoFuel => (f, w, Some (Exn EOther ""))
      end
  end.

(** [start_all]: the exception it ends with, if there is one. *)
Definition start_all (starts : nat → start_reply) (f : fleet) (w : world) : fleet * world * option exn :=
  start_specs starts (fc_specs (fl_config f)) 0 f w.

(** [_stop_one_launch]: the failure, if there is one. *)
Definition stop_one_launch (waits : nat → wait_reply) (l : launch) (w : world) : world * option (string * exn) :=
  let '(w, e) := runner_wait (waits (la_handle l)) (la_handle l) w in
  (w, (λ e, ("stop_host_app h" +s+ py_str (la_idx l), e)) <$> e).

(** [stop_all] up to the release of its lock: the launches it will stop. *)
Definition stop_all_begin (f : fleet) : fleet * list launch :=
  (mkFleet (fl_config f) (reserved_logs f) (launches f) true, launches f).

(** [_stop_launches]. *)
Fixpoint stop_launches (waits : nat → wait_reply) (ls : list launch) (w : world) : world * list (string * exn) :=
  match ls with
  | [] => (w, [])
  | l :: ls =>
      let '(w, failure) := stop_one_launch waits l w in
      let '(w, failures) := stop_launches waits ls w in
      (w, option_list failure ++ failures)
  end.

(** How a section of [restart_host] ends: it returned, raised, or goes on to wait
    for [downtime_s] with the launches to start again. *)
Inductive restart_outcome :=
  | RReturn (b : bool)
  | RRaise (e : exn)
  | RWait (mine : list launch).

(** The restart loop of the first section: stop each of [mine], keeping the
    failures and the launches they leave behind. *)
Fixpoint stop_mine (waits : nat → wait_reply) (mine : list launch) (w : world)
    : world * list (string * exn) * list launch :=
  match mine with
  | [] => (w, [], [])
  | l :: mine =>
      let '(w, failure) := stop_one_launch waits l w in
      let '(w, failures, unstopped) := stop_mine waits mine w in
      (w, option_list failure ++ failures, (if failure then [l] else []) ++ unstopped)
  end.

(** The first launch whose next log is reserved. *)
Definition collision (f : fleet) (mine : list launch) : option string :=
  head (omap (λ l, collide ← life_log (la_log l) (la_life l + 1);
                   if bool_decide (realpath collide ∈ reserved_logs f) then Some collide else None) mine).

Definition of_host (idx : pv) (l : launch) : bool := pv_eqb (la_idx l) idx.

(** [restart_host], first acquisition of the lock. *)
Definition restart_begin (waits : nat → wait_reply) (idx : pv) (f : fleet) (w : world)
    : fleet * world * restart_outcome :=
  if stopping f then (f, w, RReturn false) else
  let mine := List.filter (of_host idx) (launches f) in
  match collision f mine with
  | Some collide =>
      (f, w, RRaise (Exn EValueError ("host_apps restart for h" +s+ py_str idx
        +s+ " would write its next life's log to " +s+ repr_str collide
        +s+ ", which collides with another host_apps entry's reserved log path")))
  | None =>
      let rest := List.filter (λ l, negb (of_host idx l)) (launches f) in
      let '(w, failures, unstopped) := stop_mine waits mine w in
      (set_launches f (rest ++ unstopped), w,
       match mine, failures with
       | [], _ => RReturn false
       | _, (_, e) :: _ => RRaise e
       | _, [] => RWait mine
       end)
  end.

(** The start loop of the second section. *)
Fixpoint start_mine (starts : nat → start_reply) (k : nat) (mine : list launch) (f : fleet) (w : world)
    : fleet * world * restart_outcome :=
  match mine with
  | [] => (f, w, RReturn true)
  | l :: mine =>
      let life := la_life l + 1 in
      match runner_start (starts k) (life_log (la_log l) life) w with
      | (w, inl h) =>
          start_mine starts (S k) mine
            (set_launches f (launches f ++ [mkLaunch (la_idx l) (la_argv l) (la_cwd l) (la_log l) life h])) w
      | (w, inr e) => (f, w, RRaise e)
      end
  end.

(** [restart_host] after the wait, which was woken or timed out: the second
    acquisition of the lock. *)
Definition restart_resume (starts : nat → start_reply) (woken : bool) (mine : list launch) (f : fleet) (w : world)
    : fleet * world * restart_outcome :=
  if woken then (f, w, RReturn false)
  else if stopping f then (f, w, RReturn false)
  else start_mine starts 0 mine f w.

(** [build_host_app_fleet]; [abspath] is [os.path.abspath]. *)
Definition build_config (abspath : string → string) (host_count : Z) (specs : list pydict) (t0_ms : pv)
    : fleet_config :=
  let node_dirs := (λ i, (PInt i, PStr (abspath ("h" +s+ str_Z i)))) <$> range host_count in
  mkConfig specs host_count node_dirs node_dirs (py_str t0_ms).

End expansion.

(** * Threads *)

(** The fleet with its threads: restarts waiting for their downtime and shutdown
    sweeps, each with the launches still to stop and the handles that failed. *)
Record system := mkSystem {
  sy_fleet : fleet;
  sy_world : world;
  sy_waiting : list (list launch);
  sy_sweeps : list (list launch * list nat);
}.

Definition handles (ls : list launch) : gset nat := list_to_set (la_handle <$> ls).

Definition empty_world : world := mkWorld ∅ 0 [].

Section system.
Context `{FloatRepr}.
Context (realpath : string → string).

(** One atomic section of one thread, or the exit of a process.  A wait is woken
    only by a shutdown. *)
Inductive step (s : system) : system → Prop :=
  | step_restart waits idx f w out :
      restart_begin realpath waits idx (sy_fleet s) (sy_world s) = (f, w, out) →
      step s (mkSystem f w (sy_waiting s ++ match out with RWait mine => [mine] | _ => [] end) (sy_sweeps s))
  | step_resume starts woken i mine f w out :
      sy_waiting s !! i = Some mine →
      (woken = true → stopping (sy_fleet s) = true) →
      restart_resume starts woken mine (sy_fleet s) (sy_world s) = (f, w, out) →
      step s (mkSystem f w (delete i (sy_waiting s)) (sy_sweeps s))
  | step_shutdown f snapshot :
      stop_all_begin (sy_fleet s) = (f, snapshot) →
      step s (mkSystem f (sy_world s) (sy_waiting s) (sy_sweeps s ++ [(snapshot, [])]))
  | step_sweep i l todo failed waits w failure :
      sy_sweeps s !! i = Some (l :: todo, failed) →
      stop_one_launch waits l (sy_world s) = (w, failure) →
      step s (mkSystem (sy_fleet s) w (sy_waiting s)
        (<[i := (todo, failed ++ (if failure then [la_handle l] else []))]> (sy_sweeps s)))
  | step_exit h :
      step s (mkSystem (sy_fleet s)
        (mkWorld (alive (sy_world s) ∖ {[h]}) (next (sy_world s)) (opened (sy_world s)))
        (sy_waiting s) (sy_sweeps s)).

(** A run: the fleet is built and started (perhaps only in part), then its
    threads take steps. *)
Definition reachable (c : fleet_config) (s : system) : Prop :=
  ∃ f0 starts f w e, HostAppFleet_init realpath c = Ok f0 ∧ start_all starts f0 empty_world = (f, w, e) ∧
    rtc step (mkSystem f w [] []) s.

(** ** Processes *)

(** Every process that may be running is tracked by the fleet. *)
Definition tracked (f : fleet) (w : world) : Prop := alive w ⊆ handles (launches f).

Lemma handles_app l l' : handles (l ++ l') = handles l ∪ handles l'.
Proof. unfold handles. by rewrite fmap_app, list_to_set_app_L. Qed.

Lemma start_tracked r log l f w w' h :
  runner_start r log w = (w', inl h) → la_handle l = h → tracked f w →
  tracked (set_launches f (launches f ++ [l])) w'.
Proof.
  intros Hs <- Ht. destruct r; try done. injection Hs as <- Hn. unfold tracked, set_launches in *. simpl.
  rewrite handles_app, Hn. unfold handles at 2. simpl. set_solver.
Qed.

Lemma start_failed r log w w' e : runner_start r log w = (w', inr e) → alive w' = alive w.
Proof. by destruct r; intros [= <- _]. Qed.

Lemma start_hosts_tracked starts spec idxs k f w f' w' r :
  start_hosts starts spec idxs k f w = (f', w', r) → tracked f w → tracked f' w'.
Proof.
  revert k f w. induction idxs as [|idx idxs IH]; intros k f w; simpl; [by intros [= <- <- _]|].
  destruct (expand_launch _ _ _) as [[[argv cwd] log]|e|]; [|by intros [= <- <- _]..].
  destruct (runner_start (starts k) log w) as [w1 [h|e]] eqn:Hs; intros Hr Ht.
  - apply (IH _ _ _ Hr). by eapply start_tracked.
  - injection Hr as <- <- _. unfold tracked. by rewrite (start_failed _ _ _ _ _ Hs).
Qed.

Lemma start_specs_tracked starts specs k f w f' w' e :
  start_specs starts specs k f w = (f', w', e) → tracked f w → tracked f' w'.
Proof.
  revert k f w. induction specs as [|spec specs IH]; intros k f w; simpl; [by intros [= <- <- _]|].
  destruct (spec_hosts _ _) as [idxs|x|]; [|by intros [= <- <- _]..].
  destruct (start_hosts starts spec idxs k f w) as [[f1 w1] [k'|x]] eqn:Hh; intros Hr Ht;
    apply start_hosts_tracked in Hh; try done; [by apply (IH _ _ _ Hr)|by injection Hr as <- <- _].
Qed.

Lemma start_mine_tracked starts k mine f w f' w' out :
  start_mine starts k mine f w = (f', w', out) → tracked f w → tracked f' w'.
Proof.
  revert k f w. induction mine as [|l mine IH]; intros k f w; simpl; [by intros [= <- <- _]|].
  destruct (runner_start _ _ w) as [w1 [h|e]] eqn:Hs; intros Hr Ht.
  - apply (IH _ _ _ Hr). by eapply start_tracked.
  - injection Hr as <- <- _. unfold tracked. by rewrite (start_failed _ _ _ _ _ Hs).
Qed.

(** A stop touches one process only, which is gone unless the stop failed. *)
Lemma stop_one_spec waits l w w' failure :
  stop_one_launch waits l w = (w', failure) →
  next w' = next w ∧ opened w' = opened w ∧ alive w' ⊆ alive w ∧ (failure = None → la_handle l ∉ alive w').
Proof.
  unfold stop_one_launch, runner_wait. destruct (waits (la_handle l)); intros [= <- <-]; simpl; set_solver.
Qed.

Lemma stop_mine_spec waits mine w w' failures unstopped :
  stop_mine waits mine w = (w', failures, unstopped) →
  next w' = next w ∧ opened w' = opened w ∧ alive w' ⊆ alive w ∧ unstopped `sublist_of` mine ∧
  (failures = [] → unstopped = []) ∧ alive w' ∩ handles mine ⊆ handles unstopped.
Proof.
  revert w w' failures unstopped. induction mine as [|l mine IH]; intros w w' failures unstopped; simpl.
  { intros [= <- <- <-]. split_and!; try done. unfold handles. set_solver. }
  destruct (stop_one_launch waits l w) as [w1 failure] eqn:H1.
  destruct (stop_mine waits mine w1) as [[w2 fs] un] eqn:H2. intros [= <- <- <-].
  apply stop_one_spec in H1 as (Hn & Ho & Ha & Hf). apply IH in H2 as (Hn' & Ho' & Ha' & Hs & Hnil & Hm).
  split_and!; [congruence..|set_solver| | |].
  - destruct failure; simpl; [by apply sublist_skip|by apply sublist_cons].
  - destruct failure; [done|]. simpl. done.
  - change (l :: mine) with ([l] ++ mine). rewrite !handles_app. unfold handles in *. destruct failure; simpl; [set_solver|].
    specialize (Hf eq_refl). set_solver.
Qed.

Lemma filter_split (P : launch → bool) ls h :
  h ∈ handles ls → h ∈ handles (List.filter P ls) ∪ handles (List.filter (λ l, negb (P l)) ls).
Proof.
  unfold handles. induction ls as [|l ls IH]; simpl; [set_solver|]. destruct (P l); simpl; set_solver.
Qed.

Lemma restart_begin_tracked waits idx f w f' w' out :
  restart_begin realpath waits idx f w = (f', w', out) → tracked f w →
  tracked f' w' ∧ next w' = next w ∧ alive w' ⊆ alive w ∧ stopping f' = stopping f ∧
  (stopping f = true → f' = f ∧ w' = w).
Proof.
  unfold restart_begin. destruct (stopping f) eqn:Es; [by intros [= <- <- _]|].
  destruct (collision _ _ _) as [p|]; [by intros [= <- <- _]|].
  destruct (stop_mine waits _ w) as [[w1 fs] un] eqn:Hs. intros [= <- <- _] Ht.
  apply stop_mine_spec in Hs as (Hn & _ & Ha & _ & _ & Hm). split_and!; [|done..].
  unfold tracked, set_launches in *. simpl. rewrite handles_app. intros h Hh.
  destruct (decide (h ∈ handles un)) as [|Hu]; [set_solver|].
  pose proof (filter_split (of_host idx) (launches f) h ltac:(set_solver)). set_solver.
Qed.

Record safe (s : system) : Prop := {
  sf_tracked : tracked (sy_fleet s) (sy_world s);
  sf_sweeps : sy_sweeps s ≠ [] → stopping (sy_fleet s) = true;
  sf_swept : ∀ todo failed, (todo, failed) ∈ sy_sweeps s → alive (sy_world s) ⊆ handles todo ∪ list_to_set failed;
}.

Lemma start_mine_stopping starts k mine f w f' w' out :
  start_mine starts k mine f w = (f', w', out) → stopping f' = stopping f.
Proof.
  revert k f w. induction mine as [|l mine IH]; intros k f w; simpl; [by intros [= <- <- _]|].
  destruct (runner_start _ _ w) as [w1 [h|e]]; [|by intros [= <- <- _]]. intros Hr. apply (IH _ _ _ Hr).
Qed.

(** Once a shutdown has begun nothing is started any more. *)
Lemma step_safe s s' :
  safe s → step s s' →
  safe s' ∧ (stopping (sy_fleet s) = true →
             stopping (sy_fleet s') = true ∧ next (sy_world s') = next (sy_world s) ∧
             alive (sy_world s') ⊆ alive (sy_world s)).
Proof.
  intros [Ht Hs Hw]. destruct 1 as [waits idx f w out Hr|starts woken i mine f w out Hi Hwk Hr|f snap Hb
    |i l todo failed waits w failure Hi Hst|h].
  - apply restart_begin_tracked in Hr as (Ht' & Hn & Ha & Hst & _); [|done]. split; [|simpl; by rewrite Hst].
    split; simpl; [done|by rewrite Hst|]. intros todo failed Hin. specialize (Hw todo failed Hin). set_solver.
  - unfold restart_resume in Hr. destruct woken; [injection Hr as <- <- _; by split|].
    destruct (stopping (sy_fleet s)) eqn:Es; [injection Hr as <- <- _; by split|].
    assert (sy_sweeps s = []) as E by (destruct (sy_sweeps s); [done|by specialize (Hs ltac:(done))]).
    split; [|done]. split; simpl.
    + by eapply start_mine_tracked.
    + by rewrite E.
    + rewrite E. by intros ? ? ?%elem_of_nil.
  - injection Hb as <- <-. split; [|by intros]. split; simpl; [done..|].
    intros todo failed [Hin|[= -> ->]%list_elem_of_singleton]%elem_of_app; [by apply Hw|]. unfold tracked in Ht. set_solver.
  - apply stop_one_spec in Hst as (Hn & _ & Ha & Hf). split; [|by intros]. split; simpl.
    + unfold tracked in *. set_solver.
    + intros _. apply Hs. intros E. by rewrite E in Hi.
    + intros todo' failed' Hin. apply list_elem_of_lookup in Hin as [j Hj].
      apply list_lookup_insert_Some in Hj as [(-> & [= <- <-] & _)|[_ Hj]].
      * assert (Hw' := Hw (l :: todo) failed ltac:(by eapply list_elem_of_lookup_2)).
        change (l :: todo) with ([l] ++ todo) in Hw'. rewrite handles_app in Hw'. unfold handles in Hw' at 1. simpl in Hw'.
        rewrite list_to_set_app_L. destruct failure; simpl; [set_solver|]. specialize (Hf eq_refl). set_solver.
      * specialize (Hw _ _ ltac:(by eapply list_elem_of_lookup_2)). set_solver.
  - split; [|by intros; simpl; split_and!; [done|done|set_solver]]. split; simpl; [unfold tracked in *; simpl; set_solver|done|].
    intros todo failed Hin. specialize (Hw _ _ Hin). set_solver.
Qed.

Lemma steps_safe s s' :
  safe s → rtc step s s' →
  safe s' ∧ (stopping (sy_fleet s) = true → next (sy_world s') = next (sy_world s) ∧
             alive (sy_world s') ⊆ alive (sy_world s)).
Proof.
  intros Hs Hr. induction Hr as [s|s s1 s2 H1 _ IH]; [done|].
  destruct (step_safe _ _ Hs H1) as [Hs1 Hk]. destruct (IH Hs1) as [Hs2 Hk2]. split; [done|].
  intros Hst. destruct (Hk Hst) as (Hst1 & Hn & Ha). destruct (Hk2 Hst1) as [Hn2 Ha2].
  split; [congruence|set_solver].
Qed.

Lemma reachable_safe c s : reachable c s → safe s.
Proof.
  intros (f0 & starts & f & w & e & Hi & Hst & Hr). refine (proj1 (steps_safe _ _ _ Hr)).
  split; simpl; [|done|by intros ? ? ?%elem_of_nil]. eapply start_specs_tracked; [exact Hst|]. unfold tracked, empty_world. set_solver.
Qed.

(** ** Log files *)

(** The path of a life of a log. *)
Definition life_path (base : string) (life : Z) : string :=
  if life <=? 1 then base else base +s+ ".life" +s+ str_Z life.

Lemma life_log_Some base life : life_log (Some base) life = Some (life_path base life).
Proof. unfold life_log, life_path. by destruct (life <=? 1). Qed.

(** The later lives of the given logs are no symbolic links: the file such a life
    writes to lies next to the file of its log and is named after it.  (The log
    itself and the directories above it may be links.) *)
Definition plain_logs (logs : list string) : Prop :=
  ∀ base life, base ∈ logs → 2 ≤ life → realpath (base +s+ ".life" +s+ str_Z life) = realpath base +s+ ".life" +s+ str_Z life.

Lemma digit_suffix_unique x y d e :
  all_chars is_digit d = true → all_chars is_digit e = true →
  x +s+ "e" +s+ d = y +s+ "e" +s+ e → x = y ∧ d = e.
Proof.
  assert (Hno : ∀ s t, all_chars is_digit (s +s+ "e" +s+ t) = false).
  { intros s t. induction s as [|c s IH]; simpl; [done|]. rewrite IH. apply andb_false_r. }
  intros Hd He. revert y. induction x as [|c x IH]; intros [|c' y] E.
  - split; [done|by injection E].
  - assert (d = y +s+ "e" +s+ e) as Hde by (by injection E). rewrite Hde, Hno in Hd. done.
  - assert (e = x +s+ "e" +s+ d) as Hde by (by injection E). rewrite Hde, Hno in He. done.
  - assert (c = c' ∧ x +s+ "e" +s+ d = y +s+ "e" +s+ e) as [-> E'] by (by injection E).
    by destruct (IH _ E') as [-> ->].
Qed.

Lemma life_suffix_unique a b n m :
  0 ≤ n → 0 ≤ m → a +s+ ".life" +s+ str_Z n = b +s+ ".life" +s+ str_Z m → a = b ∧ n = m.
Proof.
  intros Hn Hm E. assert (E' : (a +s+ ".lif") +s+ "e" +s+ str_Z n = (b +s+ ".lif") +s+ "e" +s+ str_Z m)
    by (rewrite !string_app_assoc; exact E).
  apply digit_suffix_unique in E' as [Hab ?]; [|by apply str_Z_digits..].
  split; [|by apply (inj str_Z)]. apply (f_equal (strip_suffix ".lif")) in Hab.
  rewrite !strip_suffix_app in Hab. congruence.
Qed.

(** The files written so far, and the launches that may open another. *)
Record log_inv (logs : list string) (tickets : list launch) (op : list string) : Prop := {
  li_tickets : NoDup (realpath <$> omap la_log tickets);
  li_base : ∀ l b, l ∈ tickets → la_log l = Some b → b ∈ logs ∧ 1 ≤ la_life l;
  li_opened : NoDup (realpath <$> op);
  li_life : ∀ p, p ∈ op → ∃ b n, b ∈ logs ∧ 1 ≤ n ∧ p = life_path b n ∧
    ∀ l b', l ∈ tickets → la_log l = Some b' → realpath b' = realpath b → n ≤ la_life l;
}.

Lemma log_inv_sub logs tickets tickets' op :
  tickets' ⊆+ tickets → log_inv logs tickets op → log_inv logs tickets' op.
Proof.
  intros Hsub [Hn Hb Ho Hl].
  assert (Hin : ∀ l, l ∈ tickets' → l ∈ tickets) by (intros l ?; by eapply elem_of_submseteq).
  apply submseteq_Permutation in Hsub as [k Hk]. split; [|by auto|done|].
  - rewrite Hk, omap_app, fmap_app in Hn. by apply NoDup_app in Hn as [? _].
  - intros p Hp. destruct (Hl p Hp) as (b & n & ? & ? & ? & Hm). exists b, n. eauto 10.
Qed.

Lemma realpath_life logs b n :
  plain_logs logs → b ∈ logs → 2 ≤ n → realpath (life_path b n) = realpath b +s+ ".life" +s+ str_Z n.
Proof. intros Hp Hb Hn. unfold life_path. destruct (Z.leb_spec n 1); [lia|]. by apply Hp. Qed.

Section open.
Variables (logs : list string) (l : launch) (others : list launch) (op : list string) (b : string).
Hypothesis plain : plain_logs logs.
Hypothesis inv : log_inv logs (l :: others) op.
Hypothesis log : la_log l = Some b.
Hypothesis unreserved : realpath (life_path b (la_life l + 1)) ∉ ((λ x, realpath x) <$> logs).

Let p := life_path b (la_life l + 1).

(** The next life of a log is a file nobody has written to. *)
Lemma next_log_new : realpath p ∉ (realpath <$> op).
Proof.
  destruct inv as [_ Hb _ Hl]. destruct (Hb l b ltac:(by left) log) as [Hbl Hlife].
  intros (q & Hq & Hin)%list_elem_of_fmap. destruct (Hl q Hin) as (b' & n & Hb' & Hn & -> & Hm).
  unfold p in Hq. destruct (Z.leb_spec n 1) as [Hn1|Hn2].
  - apply unreserved. rewrite Hq. unfold life_path. destruct (Z.leb_spec n 1); [|lia].
    by apply (list_elem_of_fmap_2 (λ x, realpath x)).
  - rewrite !(realpath_life logs) in Hq by (done || lia). apply life_suffix_unique in Hq as [Hr Heq]; [|lia..].
    specialize (Hm l b ltac:(by left) log ltac:(done)). lia.
Qed.

Lemma others_distinct l' b' : l' ∈ others → la_log l' = Some b' → realpath b' ≠ realpath b.
Proof.
  destruct inv as [Hn _ _ _]. simpl in Hn. rewrite log in Hn. simpl in Hn. apply NoDup_cons in Hn as [Hn _].
  intros Hin Hl' E. apply Hn. rewrite <- E. apply list_elem_of_fmap_2. apply list_elem_of_omap. eauto.
Qed.

Lemma open_log_inv l' : la_log l' = Some b → la_life l' = la_life l + 1 → log_inv logs (l' :: others) (op ++ [p]).
Proof.
  intros Hl' Hlife. pose proof next_log_new as Hnew. pose proof others_distinct as Hdist.
  destruct inv as [Hn Hb Ho Hl]. destruct (Hb l b ltac:(by left) log) as [Hbl Hlf]. split.
  - simpl in Hn |- *. rewrite log in Hn. by rewrite Hl'.
  - intros x y [->|Hx]%elem_of_cons Hy; [|apply (Hb x); [by right|done]].
    rewrite Hl' in Hy. injection Hy as <-. split; [done|lia].
  - rewrite fmap_app. apply NoDup_app. split_and!; [done| |apply NoDup_singleton].
    intros x Hx ->%list_elem_of_singleton. done.
  - intros q [Hq| ->%list_elem_of_singleton]%elem_of_app.
    + destruct (Hl q Hq) as (b' & n & ? & ? & ? & Hm). exists b', n. split_and!; [done..|].
      intros x y [->|Hx]%elem_of_cons Hy E; [|apply (Hm x y); [by right|done..]].
      rewrite Hl' in Hy. injection Hy as <-. specialize (Hm l b ltac:(by left) log E). lia.
    + exists b, (la_life l + 1). split_and!; [done|lia|done|].
      intros x y [->|Hx]%elem_of_cons Hy E; [lia|]. by destruct (Hdist x y Hx Hy).
Qed.
End open.

Definition unreserved (logs : list string) (mine : list launch) : Prop :=
  ∀ l b, l ∈ mine → la_log l = Some b → realpath (life_path b (la_life l + 1)) ∉ ((λ x, realpath x) <$> logs).

(** Opening a log that then fails to spawn uses the life up. *)
Lemma start_next_inv logs l others r w w' res :
  plain_logs logs → log_inv logs (l :: others) (opened w) → unreserved logs [l] →
  runner_start r (life_log (la_log l) (la_life l + 1)) w = (w', res) →
  match res with
  | inl h => log_inv logs (mkLaunch (la_idx l) (la_argv l) (la_cwd l) (la_log l) (la_life l + 1) h :: others) (opened w')
  | inr _ => log_inv logs others (opened w')
  end.
Proof.
  intros Hp Hi Hu Hs.
  assert (Hlater : ∀ h, log_inv logs (mkLaunch (la_idx l) (la_argv l) (la_cwd l) (la_log l) (la_life l + 1) h :: others)
            (opened w ++ option_list (life_log (la_log l) (la_life l + 1)))).
  { intros h. destruct (la_log l) as [b|] eqn:Hl.
    - rewrite life_log_Some. by apply (open_log_inv logs l); [..|by apply Hu; [left|]|simpl|simpl].
    - simpl. rewrite app_nil_r. destruct Hi as [Hn Hb Ho Hm]. split.
      + simpl in Hn |- *. by rewrite Hl in Hn.
      + intros x b [->|Hx]%elem_of_cons; [done|]. apply Hb. by right.
      + done.
      + intros q Hq. destruct (Hm q Hq) as (b & n & ? & ? & ? & Hm'). exists b, n. split_and!; [done..|].
        intros x b' [->|Hx]%elem_of_cons; [done|]. apply Hm'. by right. }
  destruct r as [|e|e]; simpl in Hs; injection Hs as <- <-.
  - apply Hlater.
  - eapply log_inv_sub; [|done]. by apply submseteq_cons.
  - eapply log_inv_sub; [|apply (Hlater 0%nat)]. by apply submseteq_cons.
Qed.

Lemma start_mine_inv starts k mine f w f' w' out logs others :
  plain_logs logs → log_inv logs (launches f ++ mine ++ others) (opened w) → unreserved logs mine →
  start_mine starts k mine f w = (f', w', out) → log_inv logs (launches f' ++ others) (opened w').
Proof.
  intros Hp. revert k f w. induction mine as [|l mine IH]; intros k f w Hi Hu; simpl; [by intros [= <- <- _]|].
  destruct (runner_start _ _ w) as [w1 r] eqn:Hs.
  assert (Hi' : log_inv logs (l :: launches f ++ mine ++ others) (opened w)).
  { eapply log_inv_sub; [|exact Hi]. simpl. by rewrite <- Permutation_middle. }
  apply (start_next_inv _ _ _ _ _ _ _ Hp Hi') in Hs;
    [|intros x b ->%list_elem_of_singleton; apply Hu; by left].
  destruct r as [h|e]; intros Hr.
  - apply (IH _ _ _) in Hr; [done| |intros x b Hx; apply Hu; by right].
    simpl. eapply log_inv_sub; [|exact Hs]. rewrite <- app_assoc. simpl. by rewrite <- Permutation_middle.
  - injection Hr as <- <- _. eapply log_inv_sub; [|exact Hs]. apply submseteq_app; [done|]. by apply submseteq_inserts_l.
Qed.

Lemma collision_None f mine logs :
  reserved_logs f = list_to_set (realpath <$> logs) → collision realpath f mine = None → unreserved logs mine.
Proof.
  unfold collision. intros Hres Hc l b Hl Hb Hin. apply head_None in Hc.
  set (g := λ l : launch, _) in Hc. assert (Hg : g l = Some (life_path b (la_life l + 1))).
  { unfold g. rewrite Hb, life_log_Some. simpl. rewrite bool_decide_eq_true_2; [done|]. rewrite Hres.
    by apply elem_of_list_to_set. }
  assert (life_path b (la_life l + 1) ∈ omap g mine) as Hom by (apply list_elem_of_omap; eauto).
  rewrite Hc in Hom. by apply elem_of_nil in Hom.
Qed.

Lemma filter_negb_Permutation (P : launch → bool) ls :
  List.filter P ls ++ List.filter (λ l, negb (P l)) ls ≡ₚ ls.
Proof.
  induction ls as [|l ls IH]; simpl; [done|]. destruct (P l); simpl; rewrite <- ?Permutation_middle; by rewrite IH.
Qed.

(** What a shutdown, a restart or a sweep may do to the files. *)
Record logs_safe (logs : list string) (s : system) : Prop := {
  lg_reserved : reserved_logs (sy_fleet s) = list_to_set (realpath <$> logs);
  lg_inv : log_inv logs (launches (sy_fleet s) ++ concat (sy_waiting s)) (opened (sy_world s));
  lg_waiting : ∀ mine, mine ∈ sy_waiting s → unreserved logs mine;
}.

Lemma start_mine_reserved starts k mine f w f' w' out :
  start_mine starts k mine f w = (f', w', out) → reserved_logs f' = reserved_logs f.
Proof.
  revert k f w. induction mine as [|l mine IH]; intros k f w; simpl; [by intros [= <- _ _]|].
  destruct (runner_start _ _ w) as [w1 [h|e]]; [|by intros [= <- _ _]]. intros Hr. by rewrite (IH _ _ _ Hr).
Qed.

Lemma concat_delete {A} (l : list (list A)) i x : l !! i = Some x → concat l ≡ₚ x ++ concat (delete i l).
Proof. intros Hi. by rewrite (delete_Permutation l i x Hi) at 1. Qed.

Lemma step_logs logs s s' : plain_logs logs → logs_safe logs s → step s s' → logs_safe logs s'.
Proof.
  intros Hp [Hr Hi Hw]. destruct 1 as [waits idx f w out Hb|starts woken i mine f w out Hwi Hwk Hb|f snap Hb
    |i l todo failed waits w failure Hsi Hst|h].
  - unfold restart_begin in Hb. destruct (stopping (sy_fleet s)); [injection Hb as <- <- <-; split; simpl; by rewrite ?app_nil_r|].
    set (mine := List.filter (of_host idx) (launches (sy_fleet s))) in *.
    destruct (collision realpath (sy_fleet s) mine) as [p|] eqn:Hc;
      [injection Hb as <- <- <-; split; simpl; by rewrite ?app_nil_r|].
    destruct (stop_mine waits mine (sy_world s)) as [[w1 fs] un] eqn:Hs. injection Hb as <- <- <-.
    apply stop_mine_spec in Hs as (_ & Ho & _ & Hsub & Hnil & _).
    assert (Hun : un ⊆+ mine) by (by apply sublist_submseteq).
    assert (Hsplit := filter_negb_Permutation (of_host idx) (launches (sy_fleet s))). fold mine in Hsplit.
    set (rest := List.filter (λ l, negb (of_host idx l)) (launches (sy_fleet s))) in *.
    split; simpl; [done| |].
    + rewrite Ho. eapply log_inv_sub; [|exact Hi]. rewrite concat_app, <- Hsplit.
      destruct mine as [|m mine]; [apply submseteq_nil_r in Hun as ->; simpl; rewrite !app_nil_r; reflexivity|].
      destruct fs as [|[? e] fs]; simpl.
      * rewrite (Hnil eq_refl), !app_nil_r. rewrite (Permutation_app_comm (concat _)), app_assoc.
        by rewrite (Permutation_app_comm rest).
      * rewrite app_nil_r, app_comm_cons. change (m :: mine ++ rest) with ((m :: mine) ++ rest).
        apply submseteq_app; [|done]. rewrite (Permutation_app_comm rest un). by apply submseteq_app.
    + intros x [Hx|Hx]%elem_of_app; [by apply Hw|].
      assert (x = mine) as ->; [|by eapply collision_None].
      destruct mine, fs as [|[]]; try by apply elem_of_nil in Hx. by apply list_elem_of_singleton in Hx.
  - unfold restart_resume in Hb. pose proof (concat_delete _ _ _ Hwi) as Hdel.
    assert (Hskip : log_inv logs (launches (sy_fleet s) ++ concat (delete i (sy_waiting s))) (opened (sy_world s))).
    { eapply log_inv_sub; [|exact Hi]. rewrite Hdel. apply submseteq_app; [done|]. by apply submseteq_inserts_l. }
    assert (Hw' : ∀ m, m ∈ delete i (sy_waiting s) → unreserved logs m).
    { intros m Hm. apply Hw. eapply elem_of_submseteq; [exact Hm|]. apply sublist_submseteq, sublist_delete. }
    destruct woken; [injection Hb as <- <- _; by split|].
    destruct (stopping (sy_fleet s)); [injection Hb as <- <- _; by split|]. split; simpl.
    + by rewrite (start_mine_reserved _ _ _ _ _ _ _ _ Hb).
    + eapply start_mine_inv; [done| | |exact Hb].
      * eapply log_inv_sub; [|exact Hi]. apply submseteq_skips_l, Permutation_submseteq. by rewrite Hdel.
      * apply Hw. by eapply list_elem_of_lookup_2.
    + done.
  - injection Hb as <- <-. by split.
  - apply stop_one_spec in Hst as (_ & Ho & _). split; simpl; [done|by rewrite Ho|done].
  - by split.
Qed.

(** ** The first start *)

(** [start_all] opens the base logs in order; each process that started is
    tracked with its base log. *)
Record started (opened_so_far : list string) (f : fleet) (w : world) : Prop := {
  st_opened : opened w = opened_so_far;
  st_tracked : omap la_log (launches f) = opened_so_far;
  st_life : ∀ l, l ∈ launches f → la_life l = 1;
}.

Definition partly_started (logs : list string) (f : fleet) (w : world) : Prop :=
  ∃ done rest, started done f (mkWorld (alive w) (next w) done) ∧ opened w = done ++ rest ∧ opened w `prefix_of` logs.

Lemma foldM_prefix {A B} (f : list B → A → res (list B)) l0 xs l1 :
  (∀ l x l', f l x = Ok l' → l `prefix_of` l') → foldM f l0 xs = Ok l1 → l0 `prefix_of` l1.
Proof.
  intros Hf. revert l0. induction xs as [|x xs IH]; intros l0; simpl; [by intros [= ->]|].
  intros (l & Hl & H1)%res_bind_Ok. trans l; [by eapply Hf|by apply IH].
Qed.

Definition add_log (c : fleet_config) (spec : pydict) (logs : list string) (idx : pv) : res (list string) :=
  '(_, _, log) ← expand_launch c spec idx; Ok (logs ++ option_list log).

Lemma add_log_prefix c spec l x l' : add_log c spec l x = Ok l' → l `prefix_of` l'.
Proof. unfold add_log. intros ([[? ?] log] & _ & [= <-])%res_bind_Ok. by apply prefix_app_r. Qed.

Lemma start_hosts_logs c starts spec idxs k f w f' w' r l0 l1 :
  fl_config f = c → foldM (add_log c spec) l0 idxs = Ok l1 → started l0 f w →
  start_hosts starts spec idxs k f w = (f', w', r) →
  fl_config f' = c ∧ reserved_logs f' = reserved_logs f ∧
  match r with inl _ => started l1 f' w' | inr _ => partly_started l1 f' w' end.
Proof.
  intros Hc. revert k f w l0 Hc. induction idxs as [|idx idxs IH]; intros k f w l0 Hc Hl Hst; simpl.
  { intros [= <- <- <-]. simpl in Hl. injection Hl as <-. done. }
  simpl in Hl. apply res_bind_Ok in Hl as (l & Ha & Hl).
  assert (Hpre : l `prefix_of` l1) by (eapply foldM_prefix; [|exact Hl]; intros; by eapply add_log_prefix).
  unfold add_log in Ha. rewrite Hc. destruct (expand_launch c spec idx) as [[[argv cwd] log]|e|]; [|done..].
  simpl in Ha. injection Ha as <-. destruct Hst as [Ho Ht Hf].
  destruct (starts k) as [|e|e]; simpl; intros Hr.
  - eapply IH in Hr; [exact Hr|done|exact Hl|].
    split; simpl; [by rewrite Ho|rewrite omap_app, Ht; simpl; by destruct log|].
    intros x [Hx| ->%list_elem_of_singleton]%elem_of_app; [by apply Hf|done].
  - injection Hr as <- <- <-. split_and!; [done..|]. exists l0, []. split_and!; [done|by rewrite app_nil_r|].
    rewrite Ho. trans (l0 ++ option_list log); [by apply prefix_app_r|done].
  - injection Hr as <- <- <-. split_and!; [done..|]. exists l0, (option_list log). split_and!; [done|by simpl; rewrite Ho|].
    simpl. by rewrite Ho.
Qed.

Lemma start_specs_logs c starts specs k f w f' w' e l0 l1 :
  fl_config f = c →
  foldM (λ logs spec, idxs ← spec_hosts c spec; foldM (add_log c spec) logs idxs) l0 specs = Ok l1 → started l0 f w →
  start_specs starts specs k f w = (f', w', e) →
  reserved_logs f' = reserved_logs f ∧ partly_started l1 f' w'.
Proof.
  intros Hc. revert k f w l0 Hc. induction specs as [|spec specs IH]; intros k f w l0 Hc Hl Hst; simpl.
  { intros [= <- <- _]. simpl in Hl. injection Hl as <-. split; [done|]. destruct Hst as [Ho Ht Hf].
    exists l0, []. rewrite app_nil_r, Ho. done. }
  simpl in Hl. apply res_bind_Ok in Hl as (l & Ha & Hl). rewrite Hc.
  apply res_bind_Ok in Ha as (idxs & -> & Ha).
  assert (Hpre : l `prefix_of` l1).
  { eapply foldM_prefix; [|exact Hl]. intros x y z (? & _ & Hz)%res_bind_Ok.
    eapply foldM_prefix; [|exact Hz]. intros; by eapply add_log_prefix. }
  destruct (start_hosts starts spec idxs k f w) as [[f1 w1] [k'|x]] eqn:Hh;
    destruct (start_hosts_logs _ _ _ _ _ _ _ _ _ _ _ _ Hc Ha Hst Hh) as (Hc' & Hres & Hst'); intros Hr.
  - eapply IH in Hr as [Hr ?]; [|done|exact Hl|done]. split; [congruence|done].
  - injection Hr as <- <- _. split; [done|]. destruct Hst' as (d & rest & ? & ? & Hp). exists d, rest.
    split_and!; [done..|]. by trans l.
Qed.

Lemma partly_started_inv logs f w :
  NoDup (realpath <$> logs) → partly_started logs f w → log_inv logs (launches f) (opened w).
Proof.
  intros Hn (d & rest & [_ Ht Hf] & Ho & [k Hpre]). simpl in Ht.
  assert (Hlogs : logs = d ++ rest ++ k) by (rewrite app_assoc, <- Ho; exact Hpre). split.
  - rewrite Ht. rewrite Hlogs, fmap_app in Hn. by apply NoDup_app in Hn as [? _].
  - intros l b Hl Hb. rewrite (Hf l Hl). split; [|done]. rewrite Hlogs. apply elem_of_app. left.
    rewrite <- Ht. apply list_elem_of_omap. eauto.
  - rewrite Hpre, fmap_app in Hn. by apply NoDup_app in Hn as [? _].
  - intros p Hp. exists p, 1. split_and!; [rewrite Hpre; apply elem_of_app; by left|done|done|].
    intros l b Hl _ _. by rewrite (Hf l Hl).
Qed.

Lemma reachable_logs c logs s :
  plain_logs logs → base_logs c = Ok logs → NoDup (realpath <$> logs) → reachable c s → logs_safe logs s.
Proof.
  intros Hp Hb Hn (f0 & starts & f & w & e & Hi & Hst & Hr).
  assert (Hinit : logs_safe logs (mkSystem f w [] [])).
  { unfold HostAppFleet_init in Hi. rewrite Hb in Hi. injection Hi as <-.
    eapply start_specs_logs in Hst as [Hres Hpart]; [|done|exact Hb|by split; [..|by intros ? ?%elem_of_nil]].
    split; simpl; [done|rewrite app_nil_r; by apply partly_started_inv|by intros ? ?%elem_of_nil]. }
  induction Hr as [s|s s1 s2 H1 _ IH]; [done|]. apply IH. by eapply step_logs.
Qed.
End system.

(** * Shutdown and restarts *)

(** C7: no process outlives the shutdown unnoticed. In every state that a fleet,
    any number of concurrent restarts and shutdowns, and exiting processes can
    reach (also when [start_all] failed half way), every process that may be
    running is tracked by the fleet. Once a shutdown has passed its lock, no
    process is started any more, by whichever restart is still pending; and when
    its sweep is done, the only processes that may be running are those whose
    stop it reported as failed. *)
Theorem no_orphans `{FloatRepr} realpath c s :
  reachable realpath c s →
  alive (sy_world s) ⊆ handles (launches (sy_fleet s)) ∧
  (stopping (sy_fleet s) = true → ∀ s', rtc (step realpath) s s' → next (sy_world s') = next (sy_world s)) ∧
  ∀ failed, ([], failed) ∈ sy_sweeps s → alive (sy_world s) ⊆ list_to_set failed.
Proof.
  intros Hr. apply reachable_safe in Hr. pose proof Hr as [Ht _ Hw]. split_and!; [exact Ht| |].
  - intros Hs s' Hs'. by destruct (proj2 (steps_safe realpath _ _ Hr Hs') Hs).
  - intros failed Hin. specialize (Hw _ _ Hin). unfold handles in Hw. simpl in Hw. set_solver.
Qed.


(** Two apps on each of two hosts; one host is restarted twice, the second time
    during the shutdown. *)
Definition demo_repr : FloatRepr := λ _, "1.0".
Definition text_items (l : list (string * pv)) : pydict := (λ kv, (PStr kv.1, kv.2)) <$> l.

Definition demo_specs : list pydict :=
  [ text_items [("hosts", PStr "all"); ("argv", PList [PStr "sync"; PStr "{node_dir}"; PStr "{t0_ms}"]);
                ("log", PStr "{node_dir}.log")];
    text_items [("hosts", PList [PInt 0]); ("argv", PList [PStr "probe"]);
                ("env", PDict (text_items [("NODE", PStr "{node}")])); ("log", PStr "/data/probe.log")] ].

Definition demo_config : fleet_config := build_config (H:=demo_repr) (λ p, "/var/" +s+ p) 2 demo_specs (PInt 17).

Definition all_started : nat → start_reply := λ _, Started.
Definition all_reclaimed : nat → wait_reply := λ _, Reclaimed.

(** [os.path.realpath] where [/var] is a symbolic link to [/data]. *)
Fixpoint drop_chars (n : nat) (s : string) : string :=
  match n, s with S n, String _ s => drop_chars n s | _, _ => s end.
Definition linked_path (p : string) : string := if startswith p "/var/" then "/data/" +s+ drop_chars 5 p else p.

Example demo_launches :
  option_map (λ f, (λ l, (la_argv l, la_log l)) <$> launches (start_all (H:=demo_repr) all_started f empty_world).1.1)
    (match HostAppFleet_init (H:=demo_repr) linked_path demo_config with Ok f => Some f | _ => None end) =
  Some [(["sync"; "/var/h0"; "17"], Some "/var/h0.log"); (["sync"; "/var/h1"; "17"], Some "/var/h1.log");
        (["env"; "NODE=h0"; "probe"], Some "/data/probe.log")].
Proof. vm_compute. reflexivity. Qed.

Definition demo_init : fleet :=
  match HostAppFleet_init (H:=demo_repr) linked_path demo_config with Ok f => f | _ => mkFleet demo_config ∅ [] false end.
Definition demo_started : fleet * world * option exn := start_all (H:=demo_repr) all_started demo_init empty_world.
Definition demo_start : system := mkSystem demo_started.1.1 demo_started.1.2 [] [].

(** The restart of host 0 stops its processes, starts them again and begins a
    second time, when a shutdown comes first and sweeps one process. *)
Definition restart_of (s : system) : system :=
  let '(f, w, out) := restart_begin (H:=demo_repr) linked_path all_reclaimed (PInt 0) (sy_fleet s) (sy_world s) in
  mkSystem f w (sy_waiting s ++ match out with RWait mine => [mine] | _ => [] end) (sy_sweeps s).
Definition resume_of (s : system) (mine : list launch) : system :=
  let '(f, w, _) := restart_resume all_started false mine (sy_fleet s) (sy_world s) in
  mkSystem f w (delete 0%nat (sy_waiting s)) (sy_sweeps s).
Definition shutdown_of (s : system) : system :=
  let '(f, snapshot) := stop_all_begin (sy_fleet s) in
  mkSystem f (sy_world s) (sy_waiting s) (sy_sweeps s ++ [(snapshot, [])]).

Lemma restart_step s : step (H:=demo_repr) linked_path s (restart_of s).
Proof.
  unfold restart_of. destruct (restart_begin _ _ _ _ _) as [[f w] out] eqn:E.
  exact (step_restart (H:=demo_repr) linked_path s all_reclaimed (PInt 0) f w out E).
Qed.
Lemma resume_step s mine rest : sy_waiting s = mine :: rest → step (H:=demo_repr) linked_path s (resume_of s mine).
Proof.
  intros Hw. unfold resume_of. destruct (restart_resume _ _ _ _ _) as [[f w] out] eqn:E.
  eapply (step_resume (H:=demo_repr) linked_path s all_started false 0%nat mine f w out); [by rewrite Hw|done|exact E].
Qed.

Definition demo_restarting : system := restart_of demo_start.
Definition demo_restarted : system := resume_of demo_restarting (default [] (head (sy_waiting demo_restarting))).
Definition demo_end : system := shutdown_of (restart_of demo_restarted).

Lemma demo_reachable : reachable (H:=demo_repr) linked_path demo_config demo_end.
Proof.
  exists demo_init, all_started, demo_started.1.1, demo_started.1.2, demo_started.2.
  split; [vm_compute; reflexivity|]. split; [change (demo_started = (demo_started.1.1, demo_started.1.2, demo_started.2)); by destruct demo_started as [[? ?] ?]|].
  apply rtc_l with demo_restarting; [apply restart_step|].
  apply rtc_l with demo_restarted; [apply (resume_step _ _ []); vm_compute; reflexivity|].
  apply rtc_l with (restart_of demo_restarted); [apply restart_step|].
  apply rtc_once. by apply step_shutdown.
Qed.

Example demo_files : opened (sy_world demo_end) = 
  ["/var/h0.log"; "/var/h1.log"; "/data/probe.log"; "/var/h0.log.life2"; "/data/probe.log.life2"].
Proof. vm_compute. reflexivity. Qed.

Lemma no_orphans_witness : alive (sy_world demo_end) ⊆ handles (launches (sy_fleet demo_end)).
Proof. exact (proj1 (no_orphans (H:=demo_repr) linked_path demo_config demo_end demo_reachable)). Defined.


(** The logs of different specs are not compared when a fleet is built: the second
    process opens the log the first one is writing to, under another name for the
    same file, and truncates it. *)
Definition same_log_specs : list pydict :=
  [ text_items [("hosts", PStr "all"); ("argv", PList [PStr "sync"]); ("log", PStr "{node_dir}.log")];
    text_items [("hosts", PStr "all"); ("argv", PList [PStr "probe"]); ("log", PStr "/data/{node}.log")] ].

Example same_log_truncated :
  match HostAppFleet_init (H:=demo_repr) linked_path
          (build_config (H:=demo_repr) (λ p, "/var/" +s+ p) 1 same_log_specs (PInt 17)) with
  | Ok f =>
      let '(f, w, e) := start_all (H:=demo_repr) all_started f empty_world in
      e = None ∧ linked_path <$> opened w = ["/data/h0.log"; "/data/h0.log"]
  | _ => False
  end.
Proof. vm_compute. by split. Qed.
