(* ===== verification/StateMonad.v ===== *)
(** Programs with state and exceptions: a call maps the state it starts in to the
    state it leaves and either a value or the exception it ends with.  The code
    that drives other processes is written in this monad; what it does to the
    machine is part of the state. *)
From S2P Require Import Prelude.

Definition M (S A : Type) : Type := S → S * (A + exn).

#[export] Instance M_ret {S} : MRet (M S) := λ A a s, (s, inl a).
#[export] Instance M_bind {S} : MBind (M S) := λ A B f m s,
  match m s with (s', inl a) => f a s' | (s', inr e) => (s', inr e) end.

Section monad.
Context {S : Type}.

Definition throw {A} (e : exn) : M S A := λ s, (s, inr e).
Definition fail {A} (c : exn_class) (msg : string) : M S A := throw (Exn c msg).

Definition get {A} (f : S → A) : M S A := λ s, (s, inl (f s)).
Definition modify (f : S → S) : M S () := λ s, (f s, inl ()).

(** A pure call. *)
Definition lift {A} (r : res A) : M S A := λ s,
  match r with Ok a => (s, inl a) | Raise e => (s, inr e) | NoFuel => (s, inr (Exn EOther "")) end.

(** [try: m except <which> as e: h]. *)
Definition try_except {A} (which : exn → bool) (m : M S A) (h : exn → M S A) : M S A := λ s,
  match m s with
  | (s', inr e) => if which e then h e s' else (s', inr e)
  | r => r
  end.

(** [for x in xs: f(x)]. *)
Fixpoint for_each {A} (f : A → M S ()) (xs : list A) : M S () :=
  match xs with
  | [] => mret ()
  | x :: xs => f x ≫= λ _, for_each f xs
  end.

(** * Invariants *)

(** [m] keeps [I], however it ends. *)
Definition keeps {A} (I : S → Prop) (m : M S A) : Prop := ∀ s, I s → I (m s).1.

Lemma keeps_ret {A} I (a : A) : keeps I (mret a).
Proof. by intros s Hs. Qed.
Lemma keeps_throw {A} I e : keeps I (@throw A e).
Proof. by intros s Hs. Qed.
Lemma keeps_get {A} I (f : S → A) : keeps I (get f).
Proof. by intros s Hs. Qed.
Lemma keeps_lift {A} I (r : res A) : keeps I (lift r).
Proof. intros s Hs. unfold lift. by destruct r. Qed.
Lemma keeps_modify I f : (∀ s, I s → I (f s)) → keeps I (modify f).
Proof. intros Hf s Hs. by apply Hf. Qed.

Lemma keeps_bind {A B} I (m : M S A) (f : A → M S B) : keeps I m → (∀ a, keeps I (f a)) → keeps I (m ≫= f).
Proof.
  intros Hm Hf s Hs. unfold mbind, M_bind. specialize (Hm s Hs). destruct (m s) as [s' [a|e]]; [by apply Hf|done].
Qed.

Lemma keeps_for {A} I (f : A → M S ()) xs : (∀ x, x ∈ xs → keeps I (f x)) → keeps I (for_each f xs).
Proof.
  induction xs as [|x xs IH]; intros Hf; [apply keeps_ret|]. simpl.
  apply keeps_bind; [apply Hf; by left|]. intros _. apply IH. intros y Hy. apply Hf. by right.
Qed.

Lemma keeps_try {A} I which (m : M S A) h : keeps I m → (∀ e, keeps I (h e)) → keeps I (try_except which m h).
Proof.
  intros Hm Hh s Hs. unfold try_except. specialize (Hm s Hs). destruct (m s) as [s' [a|e]]; [done|].
  destruct (which e); [by apply Hh|done].
Qed.
End monad.

Create HintDb keeps.
#[export] Hint Resolve keeps_ret keeps_throw keeps_get keeps_lift : keeps.

(** Split a program into its calls, without unfolding them. *)
Ltac keeps :=
  repeat first
    [ solve [eauto with keeps]
    | match goal with
      | |- keeps _ (_ ≫= _) => apply keeps_bind; [|intros ?]
      | |- keeps _ (for_each _ _) => apply keeps_for; intros ? ?
      | |- keeps _ (try_except _ _ _) => apply keeps_try; [|intros ?]
      | |- keeps _ (if ?b then _ else _) => destruct b eqn:?
      | |- keeps _ (match ?x with _ => _ end) => destruct x eqn:?
      | |- keeps _ (let _ := _ in _) => cbv zeta
      end ].
