(* ===== verification/BridgeArgs.v ===== *)
(** Component: arguments of the bridge modules (src/runtime/bridge_args.py): the
    strict check of a static address, the command-line formats of external
    interfaces and bridges, and the reading of a finished command that never
    takes an unfinished run for a success. *)
From S2P Require Import Prelude PyValue PyString CommandRunner.
Local Open Scope Z_scope.

Definition comma : ascii := Ascii.ascii_of_N 44.

(** The [ipaddress.ip_interface] parse: [None] or the error it raises. *)
Class IpInterface := ip_interface_error : string → option string.

(** [validate_static_ip]. *)
Definition validate_static_ip `{IpInterface} (ip_str : string) : res () :=
  if bool_decide (ip_str = "") then
    raise ERuntimeError "static IP must be a non-empty CIDR string (e.g., '10.0.0.2/24')"
  else if negb (contains ip_str "/") then
    raise ERuntimeError ("static IP must be CIDR form, e.g. '10.0.0.2/24'; got '" +s+ ip_str +s+ "'")
  else match ip_interface_error ip_str with
       | Some exc => raise ERuntimeError ("invalid static IP '" +s+ ip_str +s+ "': " +s+ exc)
       | None => Ok ()
       end.

(** [[part.strip() for part in value.split(",")]]. *)
Definition fields_of (value : string) : list string := strip <$> split comma value.

(** An entry of [parse_ext_args]. *)
Record ext_entry := mkExt { x_host : string; x_intf : string; x_ip : string; x_mtu : option Z }.

Definition parse_mtu (m : string) : res (option Z) :=
  if bool_decide (m = "") then Ok None
  else match int_of_string m with
       | Some z => Ok (Some z)
       | None => raise EValueError ("invalid literal for int() with base 10: " +s+ repr_str m)
       end.

Definition parse_ext (value : string) : res ext_entry :=
  let entry host intf ip mtu :=
    if bool_decide (ip = "") then
      raise EValueError ("static IP required for " +s+ host +s+ "," +s+ intf +s+ "; DHCP mode is not supported")
    else m ← mtu; Ok (mkExt host intf ip m) in
  match fields_of value with
  | [host; intf; ip] => entry host intf ip (Ok None)
  | [host; intf; ip; m] => entry host intf ip (parse_mtu m)
  | _ => raise EValueError
      "ext format is host,ifname,ip[,mtu]; static IP is required in CIDR form (DHCP unsupported)"
  end.

(** [parse_ext_args]. *)
Definition parse_ext_args (values : option (list string)) : res (list ext_entry) :=
  mapR parse_ext (default [] values).

(** One entry of [parse_bridge_args]. *)
Definition parse_bridge (value : string) : res pydict :=
  match fields_of value with
  | switch :: root_ip :: local_routes :: rest =>
      Ok ([(PStr "switch", PStr switch); (PStr "root_ip", PStr root_ip); (PStr "local_routes", PStr local_routes)]
          ++ match rest with
             | external :: gateway :: _ => [(PStr "external_routes", PStr external); (PStr "gateway", PStr gateway)]
             | _ => []
             end)
  | _ => raise EValueError "bridge format is switch,root_ip,local_routes[,external_routes,gateway]"
  end.

(** [parse_bridge_args]. *)
Definition parse_bridge_args (values : option (list string)) : res (list pydict) :=
  mapR parse_bridge (default [] values).

Definition newline_text : string := String (Ascii.ascii_of_N 10) EmptyString.

(** [fail_closed_rc]. *)
Definition fail_closed_rc (r : CommandResult) : Z * string :=
  let failed reason :=
    let err := stderr r in
    let err := if negb (bool_decide (err = "")) && negb (String.eqb (String.substring (String.length err - 1) 1 err) newline_text)
               then err +s+ newline_text else err in
    (-1, err +s+ reason) in
  if timed_out r then failed "command timed out"
  else if cancelled r then failed "command cancelled"
  else match returncode r with
       | None => failed "no exit status"
       | Some rc => (rc, stderr r)
       end.

(** A command counts as done only when it ended by itself with status 0. *)
Lemma fail_closed_zero r :
  (fail_closed_rc r).1 = 0 ↔ timed_out r = false ∧ cancelled r = false ∧ returncode r = Some 0.
Proof.
  unfold fail_closed_rc. destruct (timed_out r), (cancelled r), (returncode r) as [rc|]; simpl; try naive_solver lia.
Qed.

Example parse_ext_ex : parse_ext_args (Some ["h3, eth1,10.0.0.2/24,1400"]) = Ok [mkExt "h3" "eth1" "10.0.0.2/24" (Some 1400)].
Proof. vm_compute. reflexivity. Qed.
Example parse_ext_bad : ∃ m, parse_ext_args (Some ["h3,eth1"]) = raise EValueError m.
Proof. eexists. vm_compute. reflexivity. Qed.
