(* ===== verification/BridgeRoot.v ===== *)
(** Component: bridges in the root namespace (src/runtime/bridge_root.py): the
    manager's ledger of cleanup actions, every setup operation that mutates the
    machine, and [cleanup], in the state monad.  The machine (commands, Mininet
    nodes) is a parameter; log messages are left out. *)
From S2P Require Import Prelude PyValue PyString CommandRunner Topology Addressing StateMonad BridgeArgs.
Local Open Scope Z_scope.

Definition ROOT_SENTINEL : string := "root".

(** [CleanupAction]: [execute] runs one command through the runner, its standard
    output redirected to [a_log]. *)
Record action := mkAction {
  a_description : string;
  a_category : string;
  a_mandatory : bool;
  a_node : string;
  a_argv : list string;
  a_log : option string;
}.

(** The state of a [BridgeManager]. *)
Record manager := mkManager {
  root_node : bool;
  root_intf : option string;
  cleanup_actions : list action;
}.

Definition new_manager : manager := mkManager false None [].

(** The machine: running a command with separate standard error, and the Mininet
    calls - creating the root node, [net.get] of a switch (a missing one is
    [false]) and of a host, and attaching the root node to a switch, which gives
    the new interface or, after the link is added, an error. *)
Class Machine (W : Type) := {
  run_command : string → list string → option string → W → W * (CommandResult + exn);
  create_root : W → W * option exn;
  switch_exists : string → W → bool;
  get_host : string → W → res bool;
  add_root_link : string → W → W * (string + exn);
  attach_root_link : string → string → string → W → W * option exn;
}.

Section manager.
Context {W : Type} `{Machine W} `{IpInterface}.

Record state := mkState { mgr : manager; machine : W }.

Definition on_machine {A} (f : W → W * (A + exn)) : M state A := λ s,
  let '(w, r) := f (machine s) in (mkState (mgr s) w, r).
Definition set_mgr (f : manager → manager) : M state () := modify (λ s, mkState (f (mgr s)) (machine s)).

(** [runner.run(node, argv, capture_stderr=True)]. *)
Definition command (node : string) (argv : list string) : M state CommandResult :=
  on_machine (run_command node argv None).

Definition or_raise (f : W → W * option exn) : M state () :=
  on_machine (λ w, let '(w, e) := f w in (w, match e with Some e => inr e | None => inl () end)).

(** [get_or_create_root]. *)
Definition get_or_create_root : M state () :=
  created ← get (λ s, root_node (mgr s));
  if (created : bool) then mret () else
  or_raise create_root ≫= λ _, set_mgr (λ m, mkManager true (root_intf m) (cleanup_actions m)).

Definition append_action (a : action) : M state () :=
  set_mgr (λ m, mkManager (root_node m) (root_intf m) (cleanup_actions m ++ [a])).

(** [_result_to_rc_detail]. *)
Definition result_to_rc_detail (r : CommandResult) : Z * string :=
  let '(rc, detail) := fail_closed_rc r in (rc, strip detail).

(** [action.execute()]. *)
Definition execute (a : action) : M state (Z * string) :=
  r ← on_machine (run_command (a_node a) (a_argv a) (a_log a));
  mret (result_to_rc_detail r).

(** [_apply_reversible]: was the inverse registered? *)
Definition apply_reversible (node : string) (forward_argv inverse_argv : list string)
    (description category : string) : M state bool :=
  r ← command node forward_argv;
  if (result_to_rc_detail r).1 =? 0 then
    append_action (mkAction description category false node inverse_argv None) ≫= λ _, mret true
  else mret false.

(** [connect_to_root_ns]. *)
Definition connect_to_root_ns (switch_name root_ip local_routes : string) : M state bool :=
  found ← get (λ s, switch_exists switch_name (machine s));
  if negb found then mret false else
  lift (validate_static_ip root_ip) ≫= λ _,
  get_or_create_root ≫= λ _,
  intf ← on_machine (add_root_link switch_name);
  set_mgr (λ m, mkManager (root_node m) (Some intf) (cleanup_actions m)) ≫= λ _,
  or_raise (attach_root_link switch_name intf root_ip) ≫= λ _,
  let del_argv := ["ip"; "route"; "del"; local_routes] in
  apply_reversible ROOT_SENTINEL ["ip"; "route"; "add"; local_routes; "dev"; intf] del_argv
    ("remove route: " +s+ join " " del_argv) "route" ≫= λ _,
  mret true.

(** A destination other than the default route. *)
Definition plain_dest (dest : string) : Prop := dest ≠ "default" ∧ dest ≠ "0.0.0.0/0".

(** [add_host_route]. *)
Definition add_host_route (host_name dest_network gateway : string) (dev : option string) : M state () :=
  found ← (λ s, lift (get_host host_name (machine s)) s);
  if negb found then mret () else
  let dev_clause := match dev with Some d => if bool_decide (d = "") then [] else ["dev"; d] | None => [] end in
  let '(add_argv, del_argv) :=
    if bool_decide (dest_network = "default" ∨ dest_network = "0.0.0.0/0") then
      (["ip"; "route"; "replace"; "default"; "via"; gateway] ++ dev_clause, ["ip"; "route"; "del"; "default"])
    else (["ip"; "route"; "add"; dest_network; "via"; gateway] ++ dev_clause,
          ["ip"; "route"; "del"; dest_network]) in
  apply_reversible host_name add_argv del_argv ("remove host route: " +s+ join " " del_argv) "route" ≫= λ _,
  mret ().

Definition RESOLV_CONF : string := "/etc/resolv.conf".
Definition nameserver_line : string := "nameserver 8.8.8.8" +s+ newline_text.

(** [write_host_resolv_conf]. *)
Definition write_host_resolv_conf (host_names : list string) : M state () :=
  match host_names with
  | [] => mret ()
  | first :: _ =>
      captured ← command first ["cat"; RESOLV_CONF];
      if (result_to_rc_detail captured).1 =? 0 then
        append_action (mkAction "restore /etc/resolv.conf" "resolv" true first
                         ["printf"; "%s"; stdout captured] (Some RESOLV_CONF)) ≫= λ _,
        for_each (λ host, on_machine (run_command host ["printf"; nameserver_line] (Some RESOLV_CONF)) ≫= λ _, mret ())
          host_names
      else mret ()
  end.

(** [add_root_route]. *)
Definition add_root_route (dest_network gateway : string) : M state () :=
  get_or_create_root ≫= λ _,
  let del_argv := ["ip"; "route"; "del"; dest_network] in
  apply_reversible ROOT_SENTINEL ["ip"; "route"; "add"; dest_network; "via"; gateway] del_argv
    ("remove root route: " +s+ join " " del_argv) "route" ≫= λ _,
  mret ().

(** [result.returncode == 0]. *)
Definition rc_zero (r : CommandResult) : bool := bool_decide (returncode r = Some 0).
Definition rc_text (r : CommandResult) : string := match returncode r with Some z => str_Z z | None => "None" end.
Definition failed_with (what : string) (r : CommandResult) : string :=
  what +s+ " (rc=" +s+ rc_text r +s+ "): " +s+ strip (stderr r).

(** Reading a boolean sysctl: its value, which must be 0 or 1. *)
Definition read_sysctl (key what : string) (invalid : string → string) : M state string :=
  r ← command ROOT_SENTINEL ["sysctl"; "-n"; key];
  if negb (rc_zero r) then fail ERuntimeError (failed_with ("failed to read " +s+ what) r)
  else let v := strip (stdout r) in
       if bool_decide (v = "0" ∨ v = "1") then mret v
       else fail ERuntimeError (invalid v).

Definition set_argv (key value : string) : list string := ["sysctl"; "-w"; key +s+ "=" +s+ value].
Definition restore_action (category what key value : string) : action :=
  mkAction ("restore " +s+ what +s+ " to " +s+ value) category true ROOT_SENTINEL (set_argv key value) None.

(** [enable_ip_forwarding]. *)
Definition enable_ip_forwarding : M state () :=
  get_or_create_root ≫= λ _,
  prior ← read_sysctl "net.ipv4.ip_forward" "ip_forward" (λ v, "invalid ip_forward value '" +s+ v +s+ "'");
  write ← command ROOT_SENTINEL (set_argv "net.ipv4.ip_forward" "1");
  if negb (rc_zero write) then fail ERuntimeError (failed_with "failed to enable ip_forward" write)
  else append_action (restore_action "sysctl" "ip_forward" "net.ipv4.ip_forward" prior).

(** The word after [dev], if [text.split()] has one. *)
Fixpoint words (word : string) (s : string) : list string :=
  let flush w rest := if bool_decide (w = "") then rest else w :: rest in
  match s with
  | EmptyString => flush word []
  | String c s => if is_space c then flush word (words "" s) else words (word +s+ String c "") s
  end.
Fixpoint after_dev (parts : list string) : option string :=
  match parts with
  | [] => None
  | p :: parts => if bool_decide (p = "dev") then head parts else after_dev parts
  end.

(** The three rules of [enable_nat]. *)
Definition nat_rules (local_routes out_intf root_intf_name : string) : list (list string) :=
  [ ["iptables"; "-t"; "nat"; "-A"; "POSTROUTING"; "-s"; local_routes; "-o"; out_intf; "-j"; "MASQUERADE"];
    ["iptables"; "-A"; "FORWARD"; "-i"; root_intf_name; "-o"; out_intf; "-s"; local_routes; "-j"; "ACCEPT"];
    ["iptables"; "-A"; "FORWARD"; "-i"; out_intf; "-o"; root_intf_name; "-d"; local_routes; "-m"; "state";
     "--state"; "RELATED,ESTABLISHED"; "-j"; "ACCEPT"] ].
Definition to_del (argv : list string) : list string :=
  (λ tok, if bool_decide (tok = "-A") then "-D" else tok) <$> argv.

(** Deleting the owned rules, most recent first; the failures. *)
Fixpoint roll_back_rules (owned : list (list string)) : M state (list string) :=
  match owned with
  | [] => mret []
  | argv :: owned =>
      r ← command ROOT_SENTINEL (to_del argv);
      rest ← roll_back_rules owned;
      mret (if rc_zero r then rest
            else ("(" +s+ repr_str (join " " (to_del argv)) +s+ ", " +s+ rc_text r +s+ ")") :: rest)
  end.

(** Installing the rules; [owned] are those installed so far, the last one first. *)
Fixpoint install_rules (i : Z) (owned rules : list (list string)) : M state () :=
  match rules with
  | [] => mret ()
  | argv :: rules =>
      r ← command ROOT_SENTINEL argv;
      if rc_zero r then install_rules (i + 1) (argv :: owned) rules else
      failures ← roll_back_rules owned;
      fail ERuntimeError
        (failed_with ("NAT rule " +s+ str_Z i +s+ " failed") r
         +s+ match failures with [] => "" | _ => "; rollback failures: [" +s+ join ", " failures +s+ "]" end)
  end.

Definition nat_action (argv : list string) : action :=
  mkAction ("delete NAT rule: " +s+ join " " (to_del argv)) "nat" true ROOT_SENTINEL (to_del argv) None.

(** [enable_nat]. *)
Definition enable_nat (local_routes : string) (out_intf : option string) : M state () :=
  get_or_create_root ≫= λ _,
  out ← match out_intf with
        | Some o => mret (Some o)
        | None => r ← command ROOT_SENTINEL ["ip"; "route"; "show"; "default"];
                  mret (after_dev (words "" (stdout r)))
        end;
  match out with
  | None | Some "" => mret ()
  | Some out =>
      intf ← get (λ s, default "None" (root_intf (mgr s)));
      let rules := nat_rules local_routes out intf in
      install_rules 0 [] rules ≫= λ _,
      for_each (λ argv, append_action (nat_action argv)) rules
  end.

(** [enable_normal_flow]. *)
Definition enable_normal_flow (switch_name : string) : M state () :=
  get_or_create_root ≫= λ _,
  let del_argv := ["ovs-ofctl"; "del-flows"; switch_name; "--strict"; "priority=0"] in
  apply_reversible ROOT_SENTINEL ["ovs-ofctl"; "add-flow"; switch_name; "priority=0,actions=NORMAL"] del_argv
    ("remove OVS flow: " +s+ join " " del_argv) "flow" ≫= λ _,
  mret ().

(** Removing the action that was appended last. *)
Definition drop_last_action : M state () :=
  set_mgr (λ m, mkManager (root_node m) (root_intf m) (take (length (cleanup_actions m) - 1) (cleanup_actions m))).

Definition proxy_key (name : string) : string := "net.ipv4.conf." +s+ name +s+ ".proxy_arp".

Definition invalid_proxy_arp (name v : string) : string :=
  "invalid proxy_arp value '" +s+ v +s+ "' for " +s+ name.

(** [enable_proxy_arp]. *)
Definition enable_proxy_arp : M state () :=
  get_or_create_root ≫= λ _,
  intf ← get (λ s, root_intf (mgr s));
  match intf with
  | None => mret ()
  | Some intf =>
      prior_iface ← read_sysctl (proxy_key intf) ("proxy_arp for " +s+ intf) (invalid_proxy_arp intf);
      prior_all ← read_sysctl (proxy_key "all") "proxy_arp all" (invalid_proxy_arp "all");
      write_iface ← command ROOT_SENTINEL (set_argv (proxy_key intf) "1");
      if negb (rc_zero write_iface) then
        fail ERuntimeError (failed_with ("failed to enable proxy_arp for " +s+ intf) write_iface)
      else
      let iface_restore := restore_action "proxy_arp" ("proxy_arp " +s+ intf) (proxy_key intf) prior_iface in
      append_action iface_restore ≫= λ _,
      write_all ← command ROOT_SENTINEL (set_argv (proxy_key "all") "1");
      if negb (rc_zero write_all) then
        let setup_err := failed_with "failed to enable proxy_arp all" write_all in
        '(rb_rc, rb_detail) ← try_except is_exception (execute iface_restore)
           (λ e, fail ERuntimeError (setup_err +s+ "; iface rollback raised: " +s+ exn_msg e));
        if rb_rc =? 0 then drop_last_action ≫= λ _, fail ERuntimeError setup_err
        else fail ERuntimeError
          (setup_err +s+ "; iface rollback failed (rc=" +s+ str_Z rb_rc +s+ "): " +s+ rb_detail)
      else append_action (restore_action "proxy_arp" "proxy_arp all" (proxy_key "all") prior_all)
  end.

(** * Cleanup *)

(** Executing the actions in the given order: the failures of the mandatory ones
    and the actions to retain. *)
Fixpoint run_actions (actions : list action) : M state (list (string * Z * string) * list action) :=
  match actions with
  | [] => mret ([], [])
  | a :: actions =>
      '(rc, detail) ← try_except is_exception (execute a) (λ e, mret (-1, exn_msg e));
      '(failures, retained) ← run_actions actions;
      mret (if (rc =? 0) || negb (a_mandatory a) then (failures, retained)
            else ((a_description a, rc, detail) :: failures, a :: retained))
  end.

(** The message of [TeardownError]. *)
Definition teardown_message (failures : list (string * Z * string)) : string :=
  "mandatory cleanup failures: "
  +s+ join "; " ((λ f : string * Z * string, f.1.1 +s+ " (rc=" +s+ str_Z f.1.2 +s+ "): " +s+ f.2) <$> failures).

(** [cleanup]. *)
Definition cleanup : M state () :=
  actions ← get (λ s, cleanup_actions (mgr s));
  '(failures, retained) ← run_actions (reverse actions);
  set_mgr (λ m, mkManager (root_node m) (root_intf m) (reverse retained)) ≫= λ _,
  match failures with [] => mret () | _ => fail ERuntimeError (teardown_message failures) end.

(** * Setup of the configured bridges *)

(** A validated entry of [bridges]. *)
Record bridge_config := mkBridge {
  bc_switch : Z + string;
  bc_root_ip : option string;
  bc_local_routes : string;
  bc_hosts : option (list Z);
  bc_external_routes : option string;
  bc_gateway : option string;
  bc_nat : bool;
  bc_nat_out : option string;
  bc_proxy_arp : bool;
  bc_vm_host_network : option string;
}.

(** [if s:] for an optional text. *)
Definition set_text (s : option string) : option string :=
  match s with Some "" => None | s => s end.

(** [extract_gateway_from_ip]. *)
Definition extract_gateway_from_ip (ip : string) : string := default "" (head (split (Ascii.ascii_of_N 47) ip)).

(** [_resolve_root_ip]. *)
Definition resolve_root_ip (switch_name : string) (root_ip : option string) (mesh_links : list raw_link)
    (scheme : AddressingScheme) : res (option string) :=
  match set_text root_ip with
  | Some ip =>
      if negb (bool_decide (ip = "auto")) then Ok (Some ip) else
      if mesh_links then Ok root_ip else
      match subnet_of_switch (TopologyModel mesh_links) switch_name with
      | Some sn => g ← root_gateway scheme sn; Ok (Some g)
      | None => Ok root_ip
      end
  | None =>
      if mesh_links then Ok root_ip else
      match subnet_of_switch (TopologyModel mesh_links) switch_name with
      | Some sn => g ← root_gateway scheme sn; Ok (Some g)
      | None => Ok root_ip
      end
  end.

(** [_find_host_intf]. *)
Definition find_host_intf (mesh_links : list raw_link) (host_idx : Z) (switch_name : string) : option string :=
  '(_, l) ← list_find (λ l, Topology.switch l = Some switch_name ∧ is_Some (host_eth l !! host_idx)) (TopologyModel mesh_links);
  eth ← host_eth l !! host_idx;
  Some ("h" +s+ str_Z host_idx +s+ "-eth" +s+ str_Z eth).

Definition host_routes (mesh_links : list raw_link) (switch_name dest gateway : string) (hosts : list Z) : M state () :=
  for_each (λ h, add_host_route ("h" +s+ str_Z h) dest gateway (find_host_intf mesh_links h switch_name)) hosts.

(** One entry of [setup_bridges]. *)
Definition setup_bridge (host_num : Z) (mesh_links : list raw_link) (scheme : AddressingScheme) (c : bridge_config)
    : M state () :=
  let switch := match bc_switch c with inl i => "s" +s+ str_Z i | inr s => s end in
  root_ip ← lift (resolve_root_ip switch (bc_root_ip c) mesh_links scheme);
  match set_text root_ip with
  | None => mret ()
  | Some root_ip =>
      attached ← connect_to_root_ns switch root_ip (bc_local_routes c);
      if negb attached then mret () else
      enable_normal_flow switch ≫= λ _,
      let gateway := extract_gateway_from_ip root_ip in
      let hosts := default (range host_num) (bc_hosts c) in
      match set_text (bc_external_routes c) with
      | Some ext =>
          match set_text (bc_gateway c) with Some g => add_root_route ext g | None => mret () end ≫= λ _,
          host_routes mesh_links switch ext gateway hosts ≫= λ _,
          write_host_resolv_conf ((λ i, "h" +s+ str_Z i) <$> hosts)
      | None => mret ()
      end ≫= λ _,
      (if bc_nat c then enable_ip_forwarding ≫= λ _, enable_nat (bc_local_routes c) (bc_nat_out c) else mret ()) ≫= λ _,
      (if bc_proxy_arp c then enable_proxy_arp else mret ()) ≫= λ _,
      match set_text (bc_vm_host_network c) with
      | Some vm => host_routes mesh_links switch vm gateway hosts
      | None => mret ()
      end
  end.

(** [setup_bridges]. *)
Definition setup_bridges (host_num : Z) (mesh_links : list raw_link) (scheme : AddressingScheme)
    (configs : list bridge_config) : M state () :=
  for_each (setup_bridge host_num mesh_links scheme) configs.

End manager.

Arguments state _ : clear implicits.

(** * The ledger *)

(** What the commands do to the part of the machine the manager mutates: a
    command fails and leaves it alone, or prints a text and changes it. *)
Section ledger.
Context {W : Type} `{Machine W} `{IpInterface}.
Context {St : Type} (view : W → St) (sem : string → list string → option string → St → option (string * St)).

(** The runner returns (no command fails to spawn), runs without a deadline or
    cancellation, and a status of 0 means the command took effect. *)
Definition runner_law : Prop := ∀ node argv log w w' r,
  run_command node argv log w = (w', r) →
  ∃ res, r = inl res ∧ timed_out res = false ∧ cancelled res = false ∧
    if rc_zero res then ∃ out, sem node argv log (view w) = Some (out, view w') ∧ (log = None → stdout res = out)
    else view w' = view w.

(** Mininet calls do not touch that part, and no interface is named [all]. *)
Record mininet_law : Prop := {
  ml_create : ∀ w, view (create_root w).1 = view w;
  ml_link : ∀ sw w, view (add_root_link sw w).1 = view w;
  ml_attach : ∀ sw intf ip w, view (attach_root_link sw intf ip w).1 = view w;
  ml_name : ∀ sw w intf, (add_root_link sw w).2 = inl intf → intf ≠ "all";
}.

(** Command [g] takes back what [f] did. *)
Definition takes_back (node : string) (f g : list string) : Prop := ∀ σ o σ' o' σ'',
  sem node f None σ = Some (o, σ') → sem node g None σ' = Some (o', σ'') → σ'' = σ.

Definition reads (node : string) (argv : list string) : Prop := ∀ σ o σ',
  sem node argv None σ = Some (o, σ') → σ' = σ.

Definition writes_resolv (σ σ' : St) : Prop := ∃ host o,
  sem host ["printf"; nameserver_line] (Some RESOLV_CONF) σ = Some (o, σ').

(** The documented behaviour of the tools: [ip route add] fails on what exists
    already and is undone by its [del]; [iptables -A] is undone by [-D], if that
    succeeds; reading changes nothing; a sysctl is a cell of its own; and printing a
    file's text into it restores it.  The flow tables are not part of the view:
    [add-flow] replaces a flow that exists, so it cannot be taken back; the switches
    are the experiment's own and go with it. *)
Record tools_law : Prop := {
  tl_route : ∀ node dest rest, plain_dest dest →
    takes_back node (["ip"; "route"; "add"; dest] ++ rest) ["ip"; "route"; "del"; dest];
  tl_add_flow : ∀ sw, reads ROOT_SENTINEL ["ovs-ofctl"; "add-flow"; sw; "priority=0,actions=NORMAL"];
  tl_del_flow : ∀ sw, reads ROOT_SENTINEL ["ovs-ofctl"; "del-flows"; sw; "--strict"; "priority=0"];
  tl_nat : ∀ local out intf rule, rule ∈ nat_rules local out intf → takes_back ROOT_SENTINEL rule (to_del rule);
  tl_default : reads ROOT_SENTINEL ["ip"; "route"; "show"; "default"];
  tl_sysctl : ∀ key, reads ROOT_SENTINEL ["sysctl"; "-n"; key];
  tl_cat : ∀ node, reads node ["cat"; RESOLV_CONF];
  tl_restore : ∀ key σ v o σ' o' σ'',
    sem ROOT_SENTINEL ["sysctl"; "-n"; key] None σ = Some (v, σ) →
    sem ROOT_SENTINEL (set_argv key "1") None σ = Some (o, σ') →
    sem ROOT_SENTINEL (set_argv key (strip v)) None σ' = Some (o', σ'') → σ'' = σ;
  tl_other : ∀ key key' σ v o σ', key ≠ key' →
    sem ROOT_SENTINEL ["sysctl"; "-n"; key'] None σ = Some (v, σ) →
    sem ROOT_SENTINEL (set_argv key "1") None σ = Some (o, σ') →
    sem ROOT_SENTINEL ["sysctl"; "-n"; key'] None σ' = Some (v, σ');
  tl_resolv : ∀ node σ text σ' o σ'',
    sem node ["cat"; RESOLV_CONF] None σ = Some (text, σ) → rtc writes_resolv σ σ' →
    sem node ["printf"; "%s"; text] (Some RESOLV_CONF) σ' = Some (o, σ'') → σ'' = σ;
}.

Context (runner : runner_law) (mininet : mininet_law) (tools : tools_law).

(** The actions take the machine back to [σ0], the last one first. *)
Inductive undoes (σ0 : St) : list action → St → Prop :=
  | undoes_nil : undoes σ0 [] σ0
  | undoes_snoc l a σ1 σ :
      undoes σ0 l σ1 →
      (∀ o σ2, sem (a_node a) (a_argv a) (a_log a) σ = Some (o, σ2) → σ2 = σ1) →
      undoes σ0 (l ++ [a]) σ.

Definition named (m : manager) : Prop := root_intf m ≠ Some "all".

Record ledger (σ0 : St) (s : state W) : Prop := {
  ld_undoes : undoes σ0 (cleanup_actions (mgr s)) (view (machine s));
  ld_named : named (mgr s);
}.

(** Nothing was changed, or one change was made and its inverse registered. *)
Lemma ledger_same σ0 s s' :
  ledger σ0 s → cleanup_actions (mgr s') = cleanup_actions (mgr s) → root_intf (mgr s') = root_intf (mgr s) →
  view (machine s') = view (machine s) → ledger σ0 s'.
Proof. intros [Hu Hn] Ha Hi Hv. split; [by rewrite Ha, Hv|]. unfold named. by rewrite Hi. Qed.

Lemma ledger_snoc σ0 s s' a :
  ledger σ0 s → cleanup_actions (mgr s') = cleanup_actions (mgr s) ++ [a] → root_intf (mgr s') = root_intf (mgr s) →
  (∀ o σ2, sem (a_node a) (a_argv a) (a_log a) (view (machine s')) = Some (o, σ2) → σ2 = view (machine s)) →
  ledger σ0 s'.
Proof.
  intros [Hu Hn] Ha Hi Hback. split; [rewrite Ha; by eapply undoes_snoc|]. unfold named. by rewrite Hi.
Qed.

(** A finished command, as the callers see it. *)
Definition done_command (node : string) (argv : list string) (log : option string) (σ σ' : St) (res : CommandResult) : Prop :=
  (fail_closed_rc res).1 =? 0 = rc_zero res ∧
  if rc_zero res then ∃ out, sem node argv log σ = Some (out, σ') ∧ (log = None → stdout res = out) else σ' = σ.

Lemma rc_zero_closed res : timed_out res = false → cancelled res = false →
  (fail_closed_rc res).1 =? 0 = rc_zero res.
Proof.
  intros Ht Hc. unfold rc_zero. apply eq_bool_prop_intro. rewrite !Is_true_true, Z.eqb_eq, bool_decide_eq_true, fail_closed_zero.
  naive_solver.
Qed.

Lemma run_spec node argv log s :
  ∃ res w', on_machine (run_command node argv log) s = (mkState (mgr s) w', inl res) ∧
    done_command node argv log (view (machine s)) (view w') res.
Proof.
  unfold on_machine. destruct (run_command node argv log (machine s)) as [w' r] eqn:E.
  destruct (runner _ _ _ _ _ _ E) as (res & -> & Ht & Hc & Hres). exists res, w'. split; [done|].
  split; [by apply rc_zero_closed|done].
Qed.

Lemma result_rc res : (result_to_rc_detail res).1 = (fail_closed_rc res).1.
Proof. unfold result_to_rc_detail. by destruct (fail_closed_rc res). Qed.

(** A program that changes neither the actions nor the machine. *)
Definition quiet {A} (m : M (state W) A) : Prop := ∀ s,
  cleanup_actions (mgr (m s).1) = cleanup_actions (mgr s) ∧ root_intf (mgr (m s).1) = root_intf (mgr s) ∧
  view (machine (m s).1) = view (machine s).

Lemma quiet_keeps {A} σ0 (m : M (state W) A) : quiet m → keeps (ledger σ0) m.
Proof. intros Hq s Hs. destruct (Hq s) as (Ha & Hi & Hv). by eapply ledger_same. Qed.

Lemma keeps_root σ0 : keeps (ledger σ0) get_or_create_root.
Proof.
  apply quiet_keeps. intros s.
  cbv beta delta [get_or_create_root get or_raise on_machine set_mgr modify mbind M_bind mret M_ret] iota.
  destruct (root_node (mgr s)); [done|]. pose proof (ml_create mininet (machine s)) as Hv.
  destruct (create_root (machine s)) as [w' [e|]]; simpl; done.
Qed.

Lemma keeps_reversible σ0 node f g desc cat :
  takes_back node f g → keeps (ledger σ0) (apply_reversible node f g desc cat).
Proof.
  intros Hback s Hs. unfold apply_reversible, command. unfold mbind, M_bind at 1.
  destruct (run_spec node f None s) as (res & w' & -> & Hrc & Hres). rewrite result_rc, Hrc.
  destruct (rc_zero res); [|by eapply ledger_same].
  destruct Hres as (out & Hsem & _). eapply ledger_snoc; [exact Hs|reflexivity|done|].
  simpl. intros o σ2. by eapply Hback.
Qed.

Lemma keeps_connect σ0 sw ip routes :
  plain_dest routes → keeps (ledger σ0) (connect_to_root_ns sw ip routes).
Proof.
  intros Hd. unfold connect_to_root_ns. apply keeps_bind; [apply keeps_get|]. intros found.
  destruct (negb found); [apply keeps_ret|]. apply keeps_bind; [apply keeps_lift|]. intros _.
  apply keeps_bind; [apply keeps_root|]. intros _ s Hs.
  unfold mbind at 1, M_bind at 1, on_machine at 1.
  pose proof (ml_link mininet sw (machine s)) as Hv. pose proof (ml_name mininet sw (machine s)) as Hname.
  destruct (add_root_link sw (machine s)) as [w' [intf|e]]; simpl in Hv, Hname; [|by eapply ledger_same].
  revert intf Hname. intros intf Hname.
  refine (keeps_bind (ledger σ0) _ _ _ _ (mkState (mkManager (root_node (mgr s)) (Some intf) (cleanup_actions (mgr s))) w') _).
  - apply quiet_keeps. intros s'. unfold or_raise, on_machine. pose proof (ml_attach mininet sw intf ip (machine s')).
    by destruct (attach_root_link sw intf ip (machine s')) as [w'' [e|]].
  - intros _. apply keeps_bind; [|intros; apply keeps_ret].
    apply keeps_reversible. by apply (tl_route tools _ _ ["dev"; intf]).
  - split; simpl; [rewrite Hv; apply Hs|]. intros [= E]. by apply (Hname intf).
Qed.

Lemma keeps_host_route σ0 host dest gw dev :
  plain_dest dest → keeps (ledger σ0) (add_host_route host dest gw dev).
Proof.
  intros Hd. unfold add_host_route. keeps.
  - apply quiet_keeps. intros s. unfold lift. by destruct (get_host host (machine s)).
  - rewrite bool_decide_eq_false_2 in Heqp by (intros [->| ->]; by destruct Hd). injection Heqp as <- <-.
    apply keeps_reversible. apply (tl_route tools _ _ (["via"; gw] ++ _)). done.
Qed.

Lemma keeps_root_route σ0 dest gw : plain_dest dest → keeps (ledger σ0) (add_root_route dest gw).
Proof.
  intros Hd. unfold add_root_route. keeps; [apply keeps_root|].
  apply keeps_reversible. by apply (tl_route tools _ _ ["via"; gw]).
Qed.

Lemma keeps_flow σ0 sw : keeps (ledger σ0) (enable_normal_flow sw).
Proof.
  unfold enable_normal_flow. keeps; [apply keeps_root|]. apply keeps_reversible. intros σ o σ' o' σ'' Hadd Hdel.
  rewrite (tl_del_flow tools _ _ _ _ Hdel). by eapply (tl_add_flow tools).
Qed.

(** ** Programs that read before they write *)

(** The state after a command, and what was done. *)
Lemma command_bind {A} node argv log (f : CommandResult → M (state W) A) (P : state W → Prop) s :
  (∀ res w', done_command node argv log (view (machine s)) (view w') res → P (f res (mkState (mgr s) w')).1) →
  P ((on_machine (run_command node argv log) ≫= f) s).1.
Proof.
  intros Hf. unfold mbind, M_bind. destruct (run_spec node argv log s) as (res & w' & -> & Hd). by apply Hf.
Qed.

Lemma failed_same node argv log σ σ' res : done_command node argv log σ σ' res → rc_zero res = false → σ' = σ.
Proof. intros [_ Hres] E. by rewrite E in Hres. Qed.

Lemma read_same node argv σ σ' res : reads node argv → done_command node argv None σ σ' res → σ' = σ.
Proof. intros Hr [_ Hres]. destruct (rc_zero res); [|done]. destruct Hres as (out & Hsem & _). by eapply Hr. Qed.

Lemma read_sysctl_spec key what invalid s :
  ∃ s', (read_sysctl key what invalid s).1 = s' ∧ cleanup_actions (mgr s') = cleanup_actions (mgr s) ∧
    mgr s' = mgr s ∧ view (machine s') = view (machine s) ∧
    match (read_sysctl key what invalid s).2 with
    | inl v => ∃ text, v = strip text ∧
        sem ROOT_SENTINEL ["sysctl"; "-n"; key] None (view (machine s)) = Some (text, view (machine s))
    | inr _ => True
    end.
Proof.
  unfold read_sysctl, command. cbv [mbind M_bind].
  destruct (run_spec ROOT_SENTINEL ["sysctl"; "-n"; key] None s) as (res & w' & -> & Hd).
  pose proof (read_same _ _ _ _ _ (tl_sysctl tools key) Hd) as Hv.
  destruct Hd as [_ Hres]. destruct (rc_zero res); cbn [negb].
  - destruct Hres as (out & Hsem & Ho). specialize (Ho eq_refl). subst out. rewrite Hv in Hsem.
    case_bool_decide; eexists; (split; [reflexivity|]); simpl; split_and!; eauto.
  - eexists; (split; [reflexivity|]); simpl; split_and!; eauto.
Qed.

Lemma keeps_forwarding σ0 : keeps (ledger σ0) enable_ip_forwarding.
Proof.
  unfold enable_ip_forwarding. apply keeps_bind; [apply keeps_root|intros _]. intros s Hs. unfold mbind at 1, M_bind at 1.
  destruct (read_sysctl_spec "net.ipv4.ip_forward" "ip_forward" (λ v, "invalid ip_forward value '" +s+ v +s+ "'") s)
    as (s' & E & _ & Hm & Hv & Hr).
  destruct (read_sysctl _ _ _ s) as [s1 [v|e]]; simpl in E, Hr; subst s1.
  2:{ eapply ledger_same; [exact Hs|simpl; by rewrite Hm|simpl; by rewrite Hm|done]. }
  destruct Hr as (text & -> & Hread).
  cbn beta iota. unfold command. apply (command_bind _ _ None). intros res w' Hd. destruct (rc_zero res) eqn:Hz; cbn [negb].
  - destruct Hd as [_ Hres]. rewrite Hz in Hres. destruct Hres as (o & Hsem & _).
    rewrite Hv in Hsem. eapply ledger_snoc; [exact Hs|simpl; by rewrite Hm|simpl; by rewrite Hm|].
    simpl. intros o' σ2 Hset. by eapply (tl_restore tools).
  - eapply ledger_same; [exact Hs|simpl; by rewrite Hm|simpl; by rewrite Hm|]. simpl. by rewrite (failed_same _ _ _ _ _ _ Hd Hz).
Qed.

Lemma keeps_resolv σ0 hosts : keeps (ledger σ0) (write_host_resolv_conf hosts).
Proof.
  unfold write_host_resolv_conf. destruct hosts as [|first rest]; [apply keeps_ret|]. set (hosts := first :: rest).
  intros s Hs. unfold command. apply (command_bind first _ None). intros res w' Hd. rewrite result_rc, (proj1 Hd).
  pose proof (read_same _ _ _ _ _ (tl_cat tools first) Hd) as Hv.
  destruct (rc_zero res) eqn:Hz; [|by eapply ledger_same].
  destruct Hd as [_ Hres]. rewrite Hz in Hres. destruct Hres as (text & Hcat & Ho). specialize (Ho eq_refl).
  rewrite Hv, <- Ho in Hcat.
  unfold mbind at 1, M_bind at 1. unfold append_action, set_mgr, modify. cbn [mgr machine].
  set (a := mkAction "restore /etc/resolv.conf" "resolv" true first ["printf"; "%s"; stdout res] (Some RESOLV_CONF)).
  set (I := λ s' : state W, (cleanup_actions (mgr s') = cleanup_actions (mgr s) ++ [a] ∧
              root_intf (mgr s') = root_intf (mgr s)) ∧ rtc writes_resolv (view (machine s)) (view (machine s'))).
  assert (HI : ∀ s', I s' → ledger σ0 s').
  { intros s' [[Ha Hi] Hw]. eapply ledger_snoc; [exact Hs|exact Ha|exact Hi|].
    intros o σ2. by eapply (tl_resolv tools). }
  apply HI. refine (keeps_for I _ _ _ _ _); [|split; [done|simpl; by rewrite Hv]].
  intros host _ s' [Ha Hw]. apply (command_bind _ _ (Some RESOLV_CONF)). intros res' w'' Hd'. split; [done|]. simpl.
  destruct Hd' as [_ Hres']. destruct (rc_zero res'); [|by rewrite Hres'].
  destruct Hres' as (o & Hsem & _). eapply rtc_r; [exact Hw|]. by exists host, o.
Qed.

(** ** NAT *)

(** What the message of a failed setup says of a rule it could not delete again. *)
Definition failed_deletion (rule : list string) (res : CommandResult) : string :=
  "(" +s+ repr_str (join " " (to_del rule)) +s+ ", " +s+ rc_text res +s+ ")".

(** An installed NAT rule could not be deleted, and the exception says so: it names
    at least one rule, and for each it names the deletion did fail. *)
Definition rollback_failed (e : exn) : Prop := ∃ text failures,
  e = Exn ERuntimeError (text +s+ "; rollback failures: [" +s+ join ", " failures +s+ "]") ∧ failures ≠ [] ∧
  Forall (λ f, ∃ local out intf rule w w' res, rule ∈ nat_rules local out intf ∧
    run_command ROOT_SENTINEL (to_del rule) None w = (w', inl res) ∧ rc_zero res = false ∧ f = failed_deletion rule res) failures.

(** A view that does not show NAT rules. *)
Definition nat_unseen : Prop := ∀ local out intf rule, rule ∈ nat_rules local out intf →
  reads ROOT_SENTINEL rule ∧ reads ROOT_SENTINEL (to_del rule).

Section nat.
Context (local out intf : string).
Let rules := nat_rules local out intf.

(** The rules [owned], the last one first, were added one after the other. *)
Inductive added (σ : St) : list (list string) → St → Prop :=
  | added_nil : added σ [] σ
  | added_cons rule owned σ1 σ2 o :
      added σ owned σ1 → rule ∈ rules → sem ROOT_SENTINEL rule None σ1 = Some (o, σ2) → added σ (rule :: owned) σ2.

Lemma added_unseen σ owned σ' : nat_unseen → added σ owned σ' → σ' = σ.
Proof. intros Hn. induction 1 as [|rule owned σ1 σ2 o _ IH Hin Hsem]; [done|]. rewrite <- IH. by eapply (proj1 (Hn local out intf rule Hin)). Qed.

Lemma added_rules σ owned σ' : added σ owned σ' → Forall (λ r, r ∈ rules) owned.
Proof. induction 1; by constructor. Qed.

(** The rollback of any rules: the failures it reports are real, and it restores
    the rules it was to delete when there are none. *)
Lemma roll_back_spec owned s : Forall (λ r, r ∈ rules) owned →
  ∃ w' fs, roll_back_rules owned s = (mkState (mgr s) w', inl fs) ∧
    Forall (λ f, ∃ local out intf rule w w' res, rule ∈ nat_rules local out intf ∧
      run_command ROOT_SENTINEL (to_del rule) None w = (w', inl res) ∧ rc_zero res = false ∧ f = failed_deletion rule res) fs ∧
    (fs = [] → ∀ σ, added σ owned (view (machine s)) → view w' = σ) ∧
    (nat_unseen → view w' = view (machine s)).
Proof.
  revert s. induction owned as [|rule owned IH]; intros s Hin.
  { exists (machine s), []. split; [by destruct s|]. split; [constructor|]. split; [|done]. intros _ σ Ha. by inversion Ha. }
  apply Forall_cons in Hin as [Hr Hin]. simpl. unfold command, mbind, M_bind.
  destruct (run_spec ROOT_SENTINEL (to_del rule) None s) as (res & w' & Hrun & Hd). rewrite Hrun.
  destruct (IH (mkState (mgr s) w') Hin) as (w2 & fs & -> & Hfs & Hback & Hun). cbn [mgr machine] in Hback, Hun |- *.
  exists w2. destruct (rc_zero res) eqn:Hz.
  - exists fs. split; [done|]. split; [done|]. destruct Hd as [_ Hres]. rewrite Hz in Hres. destruct Hres as (o' & Hsem & _). split.
    + intros Hnil σ Ha. apply (Hback Hnil). inversion Ha as [|? ? σ1 ? o Ha1 _ Hadd]; subst.
      assert (view w' = σ1) as ->; [|done]. by eapply (tl_nat tools local out intf).
    + intros Hu. rewrite (Hun Hu). by eapply (proj2 (Hu local out intf rule Hr)).
  - exists (failed_deletion rule res :: fs). split; [done|]. split; [|split; [done|]].
    + constructor; [|done]. exists local, out, intf, rule, (machine s), w', res. split_and!; try done.
      unfold on_machine in Hrun. destruct (run_command _ _ _ (machine s)) as [w1 r]. by injection Hrun as -> ->.
    + intros Hu. by rewrite (Hun Hu), (failed_same _ _ _ _ _ _ Hd Hz).
Qed.

(** The rules are all installed, or all taken back, or the exception names those
    that are not. *)
Lemma install_added σ i owned todo s :
  added σ owned (view (machine s)) → (∀ r, r ∈ todo → r ∈ rules) →
  ∃ w' r, install_rules i owned todo s = (mkState (mgr s) w', r) ∧
    match r with
    | inl _ => added σ (reverse todo ++ owned) (view w')
    | inr e => view w' = σ ∨ rollback_failed e ∧ (nat_unseen → view w' = σ)
    end.
Proof.
  revert i owned s. induction todo as [|rule todo IH]; intros i owned s Ha Hin; [by exists (machine s), (inl ()); destruct s|].
  simpl. unfold command, mbind at 1, M_bind at 1.
  destruct (run_spec ROOT_SENTINEL rule None s) as (res & w' & Hrun & Hd). rewrite Hrun.
  destruct (rc_zero res) eqn:Hz.
  - destruct Hd as [_ Hres]. rewrite Hz in Hres. destruct Hres as (o & Hsem & _).
    destruct (IH (i + 1) (rule :: owned) (mkState (mgr s) w')) as (w2 & r & -> & Hr).
    + econstructor; [exact Ha|apply Hin; by left|exact Hsem].
    + intros x Hx. apply Hin. by right.
    + exists w2, r. split; [done|]. destruct r; [|done]. by rewrite reverse_cons, <- app_assoc.
  - pose proof (failed_same _ _ _ _ _ _ Hd Hz) as Hv. unfold mbind, M_bind.
    destruct (roll_back_spec owned (mkState (mgr s) w') (added_rules _ _ _ Ha)) as (w2 & fs & -> & Hfs & Hback & Hun).
    cbn [mgr machine] in Hback, Hun. rewrite Hv in Hback, Hun.
    eexists w2, _. split; [reflexivity|]. destruct fs as [|f fs]; [left; by apply Hback|].
    right. split; [by eexists _, (f :: fs)|]. intros Hu. rewrite (Hun Hu). by apply (added_unseen σ owned).
Qed.

Lemma append_actions l (s : state W) :
  for_each (λ argv, append_action (nat_action argv)) l s =
  (mkState (mkManager (root_node (mgr s)) (root_intf (mgr s)) (cleanup_actions (mgr s) ++ (nat_action <$> l))) (machine s), inl ()).
Proof.
  revert s. induction l as [|x l IH]; intros [[] w]; simpl; [by rewrite app_nil_r|].
  unfold mbind, M_bind, append_action, set_mgr, modify. simpl. rewrite IH. simpl. by rewrite <- app_assoc.
Qed.

Lemma added_undoes σ0 σ owned σ' l :
  undoes σ0 l σ → added σ owned σ' → undoes σ0 (l ++ (nat_action <$> reverse owned)) σ'.
Proof.
  intros Hl. induction 1 as [|rule owned σ1 σ2 o Ha IH Hin Hsem]; [by rewrite app_nil_r|].
  rewrite reverse_cons, fmap_app, app_assoc. apply undoes_snoc with σ1; [done|].
  simpl. intros o' σ3 Hdel. by eapply (tl_nat tools local out intf).
Qed.
End nat.

(** How a setup may end: the ledger is kept, or a rule was lost and reported; then
    the ledger is still kept for a view that does not show NAT rules. *)
Definition settles {A} (σ0 : St) (m : M (state W) A) : Prop := ∀ s, ledger σ0 s →
  ledger σ0 (m s).1 ∨ (∃ e, (m s).2 = inr e ∧ rollback_failed e) ∧ (nat_unseen → ledger σ0 (m s).1).

Lemma settles_keeps {A} σ0 (m : M (state W) A) : keeps (ledger σ0) m → settles σ0 m.
Proof. intros Hm s Hs. left. by apply Hm. Qed.

Lemma settles_bind {A B} σ0 (m : M (state W) A) (f : A → M (state W) B) :
  settles σ0 m → (∀ a, settles σ0 (f a)) → settles σ0 (m ≫= f).
Proof.
  intros Hm Hf s Hs. unfold mbind, M_bind. specialize (Hm s Hs). destruct (m s) as [s' [a|e]].
  - destruct Hm as [Hm|[(e & [=] & _) _]]. by apply Hf.
  - destruct Hm as [Hm|[(e' & [= <-] & He) Hu]]; [by left|right]. split; [by exists e|exact Hu].
Qed.

Lemma settles_for {A} σ0 (f : A → M (state W) ()) xs : (∀ x, x ∈ xs → settles σ0 (f x)) → settles σ0 (for_each f xs).
Proof.
  induction xs as [|x xs IH]; intros Hf; [apply settles_keeps, keeps_ret|]. simpl.
  apply settles_bind; [apply Hf; by left|]. intros _. apply IH. intros y Hy. apply Hf. by right.
Qed.

Lemma settles_nat σ0 local out : settles σ0 (enable_nat local out).
Proof.
  unfold enable_nat. apply settles_bind; [apply settles_keeps, keeps_root|intros _].
  apply settles_bind.
  { apply settles_keeps. destruct out; [apply keeps_ret|]. intros s Hs. unfold command. apply (command_bind _ _ None). intros res w' Hd.
    eapply ledger_same; [exact Hs|done..|]. by eapply read_same; [apply (tl_default tools)|]. }
  intros [[|c o]|]; [apply settles_keeps, keeps_ret| |apply settles_keeps, keeps_ret]. set (out' := String c o).
  apply settles_bind; [apply settles_keeps, keeps_get|]. intros intf s Hs. cbv zeta. unfold mbind, M_bind.
  destruct (install_added local out' intf (view (machine s)) 0 [] (nat_rules local out' intf) s)
    as (w' & r & -> & Hr); [constructor|done|].
  destruct r as [[]|e].
  - left. rewrite append_actions. simpl. destruct Hs as [Hu Hn]. split; [|exact Hn].
    pose proof (added_undoes local out' intf σ0 _ _ _ _ Hu Hr) as Hund.
    by rewrite app_nil_r, reverse_involutive in Hund.
  - destruct Hr as [Hv|[He Hv]]; [left; by eapply ledger_same|]. right. split; [by exists e|]. intros Hun.
    eapply ledger_same; [exact Hs|done..|]. by apply Hv.
Qed.

(** ** Proxy ARP *)

Lemma proxy_key_inj a b : proxy_key a = proxy_key b → a = b.
Proof.
  unfold proxy_key. intros E. apply (f_equal (strip_prefix "net.ipv4.conf.")) in E. rewrite !strip_prefix_app in E.
  injection E as E. apply (f_equal (strip_suffix ".proxy_arp")) in E. rewrite !strip_suffix_app in E. congruence.
Qed.

Lemma execute_spec a s :
  ∃ w' rc detail, execute a s = (mkState (mgr s) w', inl (rc, detail)) ∧
    (if rc =? 0 then ∃ o, sem (a_node a) (a_argv a) (a_log a) (view (machine s)) = Some (o, view w')
     else view w' = view (machine s)).
Proof.
  unfold execute, mbind, M_bind. destruct (run_spec (a_node a) (a_argv a) (a_log a) s) as (res & w' & -> & Hrc & Hres).
  destruct (result_to_rc_detail res) as [rc detail] eqn:E. exists w', rc, detail. split; [done|].
  assert (rc = (fail_closed_rc res).1) as -> by (by rewrite <- result_rc, E). rewrite Hrc.
  destruct (rc_zero res); [|done]. destruct Hres as (o & ? & _). eauto.
Qed.

Lemma keeps_proxy_arp σ0 : keeps (ledger σ0) enable_proxy_arp.
Proof.
  unfold enable_proxy_arp. apply keeps_bind; [apply keeps_root|intros _]. intros s Hs.
  unfold mbind at 1, M_bind at 1, get. destruct (root_intf (mgr s)) as [intf|] eqn:Hi; [|done].
  assert (Hname : intf ≠ "all") by (intros ->; by apply (ld_named _ _ Hs)).
  (* the two reads *)
  unfold mbind at 1, M_bind at 1.
  destruct (read_sysctl_spec (proxy_key intf) ("proxy_arp for " +s+ intf) (invalid_proxy_arp intf) s) as (s1 & E1 & _ & Hm1 & Hv1 & Hr1).
  destruct (read_sysctl _ _ _ s) as [s1' [v1|e]]; simpl in E1, Hr1; subst s1';
    [|eapply ledger_same; [exact Hs|simpl; by rewrite Hm1|simpl; by rewrite Hm1|done]].
  destruct Hr1 as (text1 & -> & Hread1). unfold mbind at 1, M_bind at 1.
  destruct (read_sysctl_spec (proxy_key "all") "proxy_arp all" (invalid_proxy_arp "all") s1) as (s2 & E2 & _ & Hm2 & Hv2 & Hr2).
  destruct (read_sysctl _ _ _ s1) as [s2' [v2|e]]; simpl in E2, Hr2; subst s2';
    [|eapply ledger_same; [exact Hs|simpl; by rewrite Hm2, Hm1|simpl; by rewrite Hm2, Hm1|simpl; by rewrite Hv2]].
  destruct Hr2 as (text2 & -> & Hread2). rewrite Hv1 in Hread2.
  (* the interface *)
  cbn beta iota. unfold command. apply (command_bind _ _ None). intros res w' Hd. destruct (rc_zero res) eqn:Hz; cbn [negb].
  2:{ eapply ledger_same; [exact Hs|simpl; by rewrite Hm2, Hm1|simpl; by rewrite Hm2, Hm1|].
      simpl. by rewrite (failed_same _ _ _ _ _ _ Hd Hz), Hv2. }
  destruct Hd as [_ Hres]. rewrite Hz in Hres. destruct Hres as (o & Hset & _). rewrite Hv2, Hv1 in Hset.
  set (a1 := restore_action "proxy_arp" ("proxy_arp " +s+ intf) (proxy_key intf) (strip text1)).
  unfold mbind at 1, M_bind at 1, append_action, set_mgr, modify. cbn [mgr machine].
  rewrite Hm2, Hm1.
  set (m1 := mkManager (root_node (mgr s)) (root_intf (mgr s)) (cleanup_actions (mgr s) ++ [a1])).
  assert (Hl1 : ∀ w, view w = view w' → ledger σ0 (mkState m1 w)).
  { intros w Hw. eapply ledger_snoc; [exact Hs|reflexivity|reflexivity|]. simpl. rewrite Hw. intros o' σ2. by eapply (tl_restore tools). }
  (* all interfaces *)
  apply (command_bind _ _ None). intros res2 w2 Hd2. cbn [mgr machine]. destruct (rc_zero res2) eqn:Hz2; cbn [negb].
  - destruct Hd2 as [_ Hres2]. rewrite Hz2 in Hres2. destruct Hres2 as (o2 & Hset2 & _). simpl in Hset2.
    eapply ledger_snoc; [exact (Hl1 w' eq_refl)|reflexivity|reflexivity|]. simpl. intros o' σ2 Hback.
    eapply (tl_restore tools); [|exact Hset2|exact Hback].
    eapply (tl_other tools); [|exact Hread2|exact Hset]. intros E. by apply proxy_key_inj in E.
  - pose proof (failed_same _ _ _ _ _ _ Hd2 Hz2) as Hv. simpl in Hv.
    unfold mbind at 1, M_bind at 1, try_except.
    destruct (execute_spec a1 (mkState m1 w2)) as (w3 & rc & detail & -> & Hrc). simpl in Hrc.
    destruct (rc =? 0) eqn:Erc.
    + destruct Hrc as (o3 & Hback). rewrite Hv in Hback.
      assert (Hv3 : view w3 = view (machine s)) by exact (tl_restore tools _ _ _ _ _ _ _ Hread1 Hset Hback).
      unfold mbind, M_bind, drop_last_action, set_mgr, modify. simpl.
      eapply ledger_same; [exact Hs| |reflexivity|exact Hv3]. simpl.
      rewrite length_app. simpl. rewrite Nat.add_sub, take_app_length. done.
    + unfold fail, throw. simpl. apply Hl1. by rewrite Hrc.
Qed.

(** ** Setup *)

(** No configured route is a default route: such a route replaces the one that is
    there, and its cleanup deletes it. *)
Definition plain_bridge (c : bridge_config) : Prop :=
  plain_dest (bc_local_routes c) ∧
  (∀ d, bc_external_routes c = Some d → plain_dest d) ∧ (∀ d, bc_vm_host_network c = Some d → plain_dest d).

Lemma set_text_Some s d : set_text s = Some d → s = Some d.
Proof. destruct s as [[|]|]; [done|by intros [= <-]|done]. Qed.

Lemma keeps_host_routes σ0 mesh sw dest gw hosts : plain_dest dest → keeps (ledger σ0) (host_routes mesh sw dest gw hosts).
Proof. intros Hd. apply keeps_for. intros h _. by apply keeps_host_route. Qed.

Lemma settles_setup σ0 host_num mesh scheme configs :
  Forall plain_bridge configs → settles σ0 (setup_bridges host_num mesh scheme configs).
Proof.
  intros Hp. apply settles_for. intros c Hc. rewrite Forall_forall in Hp. destruct (Hp c Hc) as (Hl & He & Hvm).
  unfold setup_bridge. apply settles_bind; [apply settles_keeps, keeps_lift|]. intros root_ip.
  destruct (set_text root_ip) as [ip|]; [|apply settles_keeps, keeps_ret].
  apply settles_bind; [by apply settles_keeps, keeps_connect|]. intros attached.
  destruct (negb attached); [apply settles_keeps, keeps_ret|].
  apply settles_bind; [apply settles_keeps, keeps_flow|intros _]. cbv zeta.
  apply settles_bind; [apply settles_keeps|intros _; apply settles_bind; [|intros _; apply settles_keeps, keeps_bind; [|intros _]]].
  - destruct (set_text (bc_external_routes c)) as [d|] eqn:Hd; [|apply keeps_ret].
    apply set_text_Some, He in Hd. apply keeps_bind; [|intros _; apply keeps_bind; [by apply keeps_host_routes|intros _; apply keeps_resolv]].
    destruct (set_text (bc_gateway c)); [by apply keeps_root_route|apply keeps_ret].
  - destruct (bc_nat c); [|apply settles_keeps, keeps_ret].
    apply settles_bind; [apply settles_keeps, keeps_forwarding|intros _; apply settles_nat].
  - destruct (bc_proxy_arp c); [apply keeps_proxy_arp|apply keeps_ret].
  - destruct (set_text (bc_vm_host_network c)) as [d|] eqn:Hd; [|apply keeps_ret].
    apply set_text_Some, Hvm in Hd. by apply keeps_host_routes.
Qed.

(** ** Undoing *)

(** Executed in this order from [w], every action ends by itself with status 0. *)
Fixpoint all_succeed (actions : list action) (w : W) : Prop :=
  match actions with
  | [] => True
  | a :: actions => ∃ w' res, run_command (a_node a) (a_argv a) (a_log a) w = (w', inl res) ∧
      (fail_closed_rc res).1 = 0 ∧ all_succeed actions w'
  end.

Fixpoint all_succeedb (actions : list action) (w : W) : bool :=
  match actions with
  | [] => true
  | a :: actions =>
      match run_command (a_node a) (a_argv a) (a_log a) w with
      | (w', inl res) => ((fail_closed_rc res).1 =? 0) && all_succeedb actions w'
      | _ => false
      end
  end.

Lemma all_succeed_check actions w : all_succeedb actions w = true → all_succeed actions w.
Proof.
  revert w. induction actions as [|a actions IH]; intros w; [done|]. simpl.
  destruct (run_command _ _ _ w) as [w' [res|]]; [|done]. intros [Hz%Z.eqb_eq Hb]%andb_true_iff.
  exists w', res. eauto.
Qed.

Lemma run_actions_undo σ0 actions s :
  undoes σ0 actions (view (machine s)) → all_succeed (reverse actions) (machine s) →
  ∃ w', run_actions (reverse actions) s = (mkState (mgr s) w', inl ([], [])) ∧ view w' = σ0.
Proof.
  remember (view (machine s)) as σ eqn:Hσ. intros Hu. revert s Hσ. induction Hu as [|l a σ1 σ Hu IH Hback]; intros s Hσ Hall.
  { exists (machine s). by destruct s. }
  rewrite reverse_snoc in Hall |- *. destruct Hall as (w' & res & Hrun & Hrc & Hall).
  destruct (runner _ _ _ _ _ _ Hrun) as (res' & [= <-] & Ht & Hc & Hres).
  pose proof (rc_zero_closed res Ht Hc) as Hz. rewrite Hrc in Hz. simpl in Hz. rewrite <- Hz in Hres.
  destruct Hres as (o & Hsem & _). rewrite <- Hσ in Hsem. pose proof (Hback _ _ Hsem) as Hv.
  destruct (IH (mkState (mgr s) w')) as (w2 & E & Hv2); [by simpl|done|].
  exists w2. split; [|done]. cbn [run_actions]. unfold mbind at 1, M_bind at 1, try_except, execute, on_machine.
  unfold mbind at 1, M_bind at 1. rewrite Hrun. unfold mret at 1, M_ret at 1.
  destruct (result_to_rc_detail res) as [rc d] eqn:Er. assert (rc = 0) as -> by (by rewrite <- Hrc, <- result_rc, Er).
  unfold mbind, M_bind. by rewrite E.
Qed.
End ledger.

(** The cleanup of a ledger whose actions succeed. *)
Lemma cleanup_restores `{Machine W} {St} (view : W → St) sem (σ0 : St) (s : state W) :
  runner_law view sem → ledger view sem σ0 s → all_succeed (reverse (cleanup_actions (mgr s))) (machine s) →
  ∃ s', cleanup s = (s', inl ()) ∧ view (machine s') = σ0 ∧ cleanup_actions (mgr s') = [].
Proof.
  intros Hrun Hl Hall. destruct (run_actions_undo view sem Hrun σ0 _ s (ld_undoes _ _ _ _ Hl) Hall) as (w' & E & Hv).
  unfold cleanup, get. unfold mbind, M_bind. rewrite E. eexists. split; [reflexivity|done].
Qed.


(** * What cleanup retains *)

Section retain.
Context `{Machine W}.

(** The actions in the order they are attempted, each with its failure. *)
Fixpoint attempts (actions : list action) (w : W) : list (action * option (Z * string)) * W :=
  match actions with
  | [] => ([], w)
  | a :: actions =>
      let '(w, r) := run_command (a_node a) (a_argv a) (a_log a) w in
      let failure := match r with
                     | inl res => let '(rc, d) := result_to_rc_detail res in if rc =? 0 then None else Some (rc, d)
                     | inr e => Some (-1, exn_msg e)
                     end in
      let '(rest, w) := attempts actions w in
      ((a, failure) :: rest, w)
  end.

Definition failed_mandatory (x : action * option (Z * string)) : bool :=
  a_mandatory x.1 && match x.2 with Some _ => true | None => false end.

Definition failure_of (x : action * option (Z * string)) : string * Z * string :=
  let d := default (-1, "") x.2 in (a_description x.1, d.1, d.2).

Lemma run_actions_attempts actions s :
  (∀ node argv log w w' e, run_command node argv log w = (w', inr e) → is_exception e = true) →
  let '(tried, w') := attempts actions (machine s) in
  run_actions actions s =
    (mkState (mgr s) w',
     inl (failure_of <$> List.filter failed_mandatory tried, (List.filter failed_mandatory tried).*1)).
Proof.
  intros Hexc. revert s. induction actions as [|a actions IH]; intros s; [by destruct s|].
  cbn [run_actions attempts]. unfold mbind at 1, M_bind at 1, try_except, execute, on_machine.
  unfold mbind at 1, M_bind at 1.
  destruct (run_command (a_node a) (a_argv a) (a_log a) (machine s)) as [w1 [res|e]] eqn:Hrun.
  - unfold mret at 1, M_ret at 1. destruct (result_to_rc_detail res) as [rc d].
    specialize (IH (mkState (mgr s) w1)). simpl in IH. destruct (attempts actions w1) as [rest w2].
    unfold mbind at 1, M_bind at 1. rewrite IH. unfold mret, M_ret. cbn [List.filter].
    replace (failed_mandatory (a, if rc =? 0 then None else Some (rc, d))) with (a_mandatory a && negb (rc =? 0))
      by (unfold failed_mandatory; simpl; by destruct (rc =? 0), (a_mandatory a)).
    by destruct (rc =? 0), (a_mandatory a).
  - rewrite (Hexc _ _ _ _ _ _ Hrun). unfold mret at 1, M_ret at 1.
    specialize (IH (mkState (mgr s) w1)). simpl in IH. destruct (attempts actions w1) as [rest w2].
    unfold mbind at 1, M_bind at 1. rewrite IH. unfold mret, M_ret. cbn [List.filter].
    replace (failed_mandatory (a, Some (-1, exn_msg e))) with (a_mandatory a) by (unfold failed_mandatory; simpl; by destruct (a_mandatory a)).
    by destruct (a_mandatory a).
Qed.
End retain.

(** Cleanup tries everything and keeps what must be tried again. Each call
    attempts every registered action exactly once, the last one first, whatever
    the others do. Afterwards the ledger holds exactly the mandatory actions that
    failed, in their order, so that another call retries them; the call raises
    when there are any, naming each with its status and reason. *)
Lemma cleanup_retains `{Machine W} (s : state W) :
  (∀ node argv log w w' e, run_command node argv log w = (w', inr e) → is_exception e = true) →
  let '(tried, w') := attempts (reverse (cleanup_actions (mgr s))) (machine s) in
  let kept := List.filter failed_mandatory tried in
  tried.*1 = reverse (cleanup_actions (mgr s)) ∧
  cleanup s =
    (mkState (mkManager (root_node (mgr s)) (root_intf (mgr s)) (reverse kept.*1)) w',
     match kept with
     | [] => inl ()
     | _ => inr (Exn ERuntimeError (teardown_message (failure_of <$> kept)))
     end).
Proof.
  intros Hexc. pose proof (run_actions_attempts (reverse (cleanup_actions (mgr s))) s Hexc) as Hrun.
  assert (Hfst : ∀ (l : list action) w, (attempts l w).1.*1 = l).
  { induction l as [|a l IH]; intros w; [done|]. simpl. destruct (run_command _ _ _ w) as [w1 r].
    specialize (IH w1). destruct (attempts l w1) as [rest w2]. simpl. f_equal. exact IH. }
  specialize (Hfst (reverse (cleanup_actions (mgr s))) (machine s)).
  destruct (attempts (reverse (cleanup_actions (mgr s))) (machine s)) as [tried w']. split; [done|].
  unfold cleanup, get. unfold mbind, M_bind. rewrite Hrun. unfold set_mgr, modify. simpl.
  by destruct (List.filter failed_mandatory tried).
Qed.

(** A NAT rule whose rollback fails is forgotten: the call raises, the rule is
    installed, and no cleanup action will try to delete it again. *)
Lemma nat_rule_lost `{Machine W} local c o (s : state W) w1 w2 w3 res1 res2 res3 :
  let out := String c o in
  let intf := default "None" (root_intf (mgr s)) in
  let rule i := nth i (nat_rules local out intf) [] in
  root_node (mgr s) = true →
  run_command ROOT_SENTINEL (rule 0%nat) None (machine s) = (w1, inl res1) → rc_zero res1 = true →
  run_command ROOT_SENTINEL (rule 1%nat) None w1 = (w2, inl res2) → rc_zero res2 = false →
  run_command ROOT_SENTINEL (to_del (rule 0%nat)) None w2 = (w3, inl res3) → rc_zero res3 = false →
  ∃ e, enable_nat local (Some out) s = (mkState (mgr s) w3, inr e).
Proof.
  intros out intf rule Hroot H1 Z1 H2 Z2 H3 Z3. eexists.
  assert (Hr : nat_rules local (String c o) (default "None" (root_intf (mgr s))) = [rule 0; rule 1; rule 2]%nat) by reflexivity.
  clearbody rule. unfold enable_nat, get_or_create_root. cbv [mbind M_bind get mret M_ret]. rewrite Hroot. subst out.
  cbv beta iota. rewrite Hr. cbn [install_rules]. cbv [mbind M_bind command on_machine]. rewrite H1. cbn [machine mgr]. rewrite Z1.
  cbn [machine mgr]. rewrite H2, Z2. cbn [roll_back_rules machine mgr]. cbv [mbind M_bind command on_machine].
  cbn [machine mgr]. rewrite H3. cbv [mret M_ret]. cbn [machine mgr]. rewrite Z3. reflexivity.
Qed.

(** ** A machine for the examples *)

(** Routes of each node, IP forwarding, and the descriptions of the commands that
    are made to fail. *)
Record toy := mkToy { toy_routes : gset (string * string); toy_forward : bool; toy_broken : list (list string) }.

Definition forward_key : string := "net.ipv4.ip_forward".
Definition bit (b : bool) : string := if b then "1" else "0".

Definition toy_sem (node : string) (argv : list string) (log : option string) (σ : gset (string * string) * bool)
    : option (string * (gset (string * string) * bool)) :=
  match argv with
  | "ip" :: "route" :: "add" :: dest :: _ =>
      if bool_decide ((node, dest) ∈ σ.1) then None else Some ("", ({[(node, dest)]} ∪ σ.1, σ.2))
  | ["ip"; "route"; "del"; dest] =>
      if bool_decide ((node, dest) ∈ σ.1) then Some ("", (σ.1 ∖ {[(node, dest)]}, σ.2)) else None
  | ["sysctl"; "-n"; key] => if bool_decide (key = forward_key) then Some (bit σ.2, σ) else None
  | ["sysctl"; "-w"; kv] =>
      if bool_decide (kv = forward_key +s+ "=1") then Some ("", (σ.1, true))
      else if bool_decide (kv = forward_key +s+ "=0") then Some ("", (σ.1, false)) else None
  | _ => None
  end.

Definition toy_view (w : toy) := (toy_routes w, toy_forward w).
Definition toy_run (node : string) (argv : list string) (log : option string) (w : toy) : toy * (CommandResult + exn) :=
  match if bool_decide (argv ∈ toy_broken w) then None else toy_sem node argv log (toy_view w) with
  | Some (out, (r, f)) => (mkToy r f (toy_broken w), inl (mkCommandResult (Some 0) out "" false false log))
  | None => (w, inl (mkCommandResult (Some 2) "" "RTNETLINK answers: File exists" false false log))
  end.

#[local] Instance toy_machine : Machine toy := {|
  run_command := toy_run;
  create_root w := (w, None);
  switch_exists sw w := bool_decide (sw = "s0");
  get_host h w := Ok true;
  add_root_link sw w := (w, inl "root-eth0");
  attach_root_link sw intf ip w := (w, None);
|}.
#[local] Instance toy_ip : IpInterface := λ _, None.

Lemma toy_runner : runner_law toy_view toy_sem.
Proof.
  intros node argv log w w' r. simpl. unfold toy_run.
  destruct (bool_decide (argv ∈ toy_broken w)); [intros [= <- <-]; by eexists|].
  destruct (toy_sem node argv log (toy_view w)) as [[out [rt f]]|] eqn:E; intros [= <- <-]; eexists; split_and!; try done.
  exists out. done.
Qed.

Lemma toy_mininet : mininet_law toy_view.
Proof. split; try done. by intros sw w intf [= <-]. Qed.

Lemma toy_tools : tools_law toy_sem.
Proof.
  assert (Hset : ∀ key v (σ : gset (string * string) * bool) o σ', toy_sem ROOT_SENTINEL (set_argv key v) None σ = Some (o, σ') →
    key +s+ "=" +s+ v = forward_key +s+ "=1" ∧ σ' = (σ.1, true) ∨ key +s+ "=" +s+ v = forward_key +s+ "=0" ∧ σ' = (σ.1, false)).
  { intros key v σ o σ'. unfold toy_sem, set_argv. case_bool_decide; [intros [= _ <-]; by left|].
    case_bool_decide; [intros [= _ <-]; by right|done]. }
  assert (Hfwd : ∀ b, forward_key +s+ "=" +s+ bit b = (if b then forward_key +s+ "=1" else forward_key +s+ "=0")) by (by intros []).
  assert (Hread : ∀ key (σ : gset (string * string) * bool) v σ', toy_sem ROOT_SENTINEL ["sysctl"; "-n"; key] None σ = Some (v, σ') →
    key = forward_key ∧ v = bit σ.2 ∧ σ' = σ).
  { intros key σ v σ'. unfold toy_sem. case_bool_decide; [by intros [= <- <-]|done]. }
  split.
  - intros node dest rest _ [rt f] o σ' o' σ''. change (["ip"; "route"; "add"; dest] ++ rest) with ("ip" :: "route" :: "add" :: dest :: rest).
    unfold toy_sem. simpl. case_bool_decide; [done|]. intros [= _ <-]. simpl. case_bool_decide; [|done].
    intros [= _ <-]. f_equal. set_solver.
  - by intros sw σ o σ'.
  - by intros sw σ o σ'.
  - intros local out intf rule Hin σ o σ' o' σ''. unfold nat_rules in Hin. rewrite !elem_of_cons, elem_of_nil in Hin.
    destruct_or! Hin; try (subst rule; discriminate); done.
  - by intros σ o σ'.
  - intros key σ o σ' E. by apply Hread in E as (_ & _ & ->).
  - by intros node σ o σ'.
  - intros key [rt f] v o σ' o' σ'' (-> & -> & _)%Hread Hw Hb.
    apply Hset in Hw as [[_ ->]|[E _]]; [|vm_compute in E; discriminate].
    assert (strip (bit f) = bit f) as E by (by destruct f). cbn [snd] in Hb. rewrite E in Hb. apply Hset in Hb.
    rewrite Hfwd in Hb. destruct f; destruct Hb as [[E' ->]|[E' ->]]; try reflexivity; vm_compute in E'; discriminate.
  - intros key key' [rt f] v o σ' Hne Hr Hw. apply Hread in Hr as (-> & _ & _). exfalso. apply Hne.
    apply Hset in Hw. assert (Hs : ∀ a b, a +s+ "=" +s+ "1" = b +s+ "=1" → a = b).
    { intros a b E. apply (f_equal (strip_suffix "=1")) in E. change ("=" +s+ "1") with "=1" in E.
      rewrite !strip_suffix_app in E. congruence. }
    destruct Hw as [[E _]|[E _]]; [by apply Hs in E|]. exfalso.
    apply (f_equal (strip_suffix "=1")) in E. change ("=" +s+ "1") with "=1" in E. rewrite strip_suffix_app in E. vm_compute in E. discriminate.
  - by intros node σ text σ' o σ''.
Qed.

(** One bridge with a route to an external network on two hosts; the second host
    has that route already. *)
Definition toy_bridge : bridge_config :=
  mkBridge (inl 0) (Some "10.1.0.254/24") "10.1.0.0/16" None (Some "10.9.0.0/16") (Some "10.2.0.1") true None false None.
Definition toy_start : toy := mkToy {[("h1", "10.9.0.0/16")]} false [].
Definition toy_setup := setup_bridges 2 [] default_scheme [toy_bridge] (mkState new_manager toy_start).

Example toy_actions : a_argv <$> cleanup_actions (mgr toy_setup.1) =
  [["ip"; "route"; "del"; "10.1.0.0/16"]; ["ip"; "route"; "del"; "10.9.0.0/16"];
   ["ip"; "route"; "del"; "10.9.0.0/16"]; set_argv forward_key "0"].
Proof. vm_compute. reflexivity. Qed.

Lemma toy_succeeds : all_succeed (reverse (cleanup_actions (mgr toy_setup.1))) (machine toy_setup.1).
Proof. apply all_succeed_check. vm_compute. reflexivity. Qed.


(** The same cleanup on a machine where the sysctl cannot be written. *)
Definition toy_stuck : state toy :=
  mkState (mgr toy_setup.1) (mkToy (toy_routes (machine toy_setup.1)) true [set_argv forward_key "0"]).
Example cleanup_retains_witness : ∃ w', (cleanup toy_stuck).1 =
  mkState (mkManager true (Some "root-eth0") [restore_action "sysctl" "ip_forward" forward_key "0"]) w'.
Proof.
  pose proof (cleanup_retains toy_stuck) as Hc.
  destruct (attempts (reverse (cleanup_actions (mgr toy_stuck))) (machine toy_stuck)) as [tried w'] eqn:E.
  exists w'. destruct Hc as [_ ->].
  - intros node argv log w w1 e Hrun. destruct (toy_runner _ _ _ _ _ _ Hrun) as (res & Hr & _). discriminate.
  - vm_compute in E. injection E as <- <-. vm_compute. reflexivity.
Defined.
