(* ===== verification/BridgeExternal.v ===== *)
(** Component: attaching a physical interface to a host (src/runtime/
    bridge_external.py): the checks, the sequence of mutations with its rollback,
    the records of outstanding state, and the cleanup, in the state monad.  The
    machine (commands, Mininet hosts) and the JSON parser are parameters; log
    messages are left out. *)
From S2P Require Import Prelude PyValue PyString CommandRunner StateMonad BridgeArgs.
Local Open Scope Z_scope.

Definition ROOT : string := "root".

Class ExtMachine (W : Type) := {
  run_command : string → list string → W → W * (CommandResult + exn);
  get_host : string → W → res bool;
  host_pid : string → W → string;
}.

(** * Records *)

(** A record of [_created_bridges]; [r_flags] are the flags that are [True]. *)
Record record := mkRecord {
  r_bridge : string;
  r_veth_root : string;
  r_veth_host : string;
  r_phy : string;
  r_flags : gset string;
}.

Definition VETH_FLAGS : list string :=
  ["veth_created"; "veth_root_mastered"; "veth_root_up"; "veth_host_ns_moved"; "veth_host_up"; "mtu_set"; "ip_assigned"].
Definition OUTSTANDING_FLAGS : list string :=
  ["bridge_created"; "bridge_up"; "phy_up_changed"; "phy_enslaved"] ++ VETH_FLAGS.

Definition flag (f : string) (r : record) : bool := bool_decide (f ∈ r_flags r).

(** [_record_has_outstanding_state]. *)
Definition outstanding (r : record) : bool := existsb (λ f, flag f r) OUTSTANDING_FLAGS.

Definition set_flags (fs : list string) (r : record) : record :=
  mkRecord (r_bridge r) (r_veth_root r) (r_veth_host r) (r_phy r) (r_flags r ∪ list_to_set fs).
Definition clear_flags (fs : list string) (r : record) : record :=
  mkRecord (r_bridge r) (r_veth_root r) (r_veth_host r) (r_phy r) (r_flags r ∖ list_to_set fs).

(** [_created_bridges], in insertion order. *)
Definition bridges := list (string * record).

Fixpoint find_record (h : string) (bs : bridges) : option record :=
  match bs with [] => None | (h', r) :: bs => if bool_decide (h' = h) then Some r else find_record h bs end.
Definition update_record (h : string) (f : record → record) (bs : bridges) : bridges :=
  (λ hr, if bool_decide (hr.1 = h) then (hr.1, f hr.2) else hr) <$> bs.
Definition pop_record (h : string) (bs : bridges) : bridges := List.filter (λ hr, negb (bool_decide (hr.1 = h))) bs.

Section external.
Context {W : Type} `{ExtMachine W} `{IpInterface} `{JsonLib} `{FloatRepr}.

Record state := mkState { created : bridges; machine : W }.

Definition set_created (f : bridges → bridges) : M state () := modify (λ s, mkState (f (created s)) (machine s)).
Definition runtime_error {A} (msg : string) : M state A := fail ERuntimeError msg.

(** [_run_root_cmd_vec] and [_run_host_cmd_vec]: status, output and error. *)
Definition run_cmd_vec (node : string) (argv : list string) : M state (Z * string * string) := λ s,
  match run_command node argv (machine s) with
  | (w, inl res) => let '(rc, err) := fail_closed_rc res in (mkState (created s) w, inl (rc, stdout res, err))
  | (w, inr e) => (mkState (created s) w, inr e)
  end.

(** * Inspection *)

(** [_inspect_link]: the entry or the error. *)
Definition inspect_link (phy : string) : M state (pydict + string) :=
  let what := "ip link show " +s+ phy in
  '(rc, out, err) ← run_cmd_vec ROOT ["ip"; "-j"; "link"; "show"; "dev"; phy];
  if negb (rc =? 0) then mret (inr (what +s+ " failed (rc=" +s+ str_Z rc +s+ "): " +s+ strip err)) else
  mret match json_loads out with
       | inl (PList (PDict entry :: _)) => inl entry
       | inl (PList (entry :: _)) => inr (what +s+ " returned non-object entry: " +s+ repr entry)
       | inl _ => inr (what +s+ " returned empty result")
       | inr exc => inr (what +s+ " parse error: " +s+ exc)
       end.

(** [_inspect_addresses]: the addresses or the error. *)
Definition inspect_addresses (phy : string) : M state (pv + string) :=
  let what := "ip addr show " +s+ phy in
  '(rc, out, err) ← run_cmd_vec ROOT ["ip"; "-j"; "addr"; "show"; "dev"; phy];
  if negb (rc =? 0) then mret (inr (what +s+ " failed (rc=" +s+ str_Z rc +s+ "): " +s+ strip err)) else
  match json_loads out with
  | inl (PList (PDict entry :: _)) => mret (inl (get_or entry "addr_info" (PList [])))
  | inl (PList (_ :: _)) => fail EAttributeError "no attribute 'get'"
  | inl _ => mret (inl (PList []))
  | inr exc => mret (inr (what +s+ " parse error: " +s+ exc))
  end.

(** The first configured address that is not link-local. *)
Fixpoint configured_address (addrs : list pv) : res (option string) :=
  match addrs with
  | [] => Ok None
  | PDict info :: addrs =>
      let addr := get_or info "local" (PStr "") in
      if negb (truthy addr) then configured_address addrs else
      match addr with
      | PStr a => if startswith a "169.254." then configured_address addrs else Ok (Some a)
      | _ => raise EAttributeError "no attribute 'startswith'"
      end
  | _ :: _ => raise EAttributeError "no attribute 'get'"
  end.

(** [_get_admin_up]. *)
Definition get_admin_up (link_data : pydict) : option bool :=
  match get_none link_data "flags" with
  | PList l => Some (existsb (λ v, eq_str v "UP") l)
  | _ => None
  end.

(** * Rollback *)

(** A [_RollbackAction]: its command, the start of its error, the flags it
    clears. *)
Record undo := mkUndo { u_description : string; u_argv : list string; u_error : string; u_clear : list string }.

Definition undo_del_link (description name : string) (clear : list string) : undo :=
  mkUndo description ["ip"; "link"; "del"; name] ("rollback del " +s+ name) clear.
Definition undo_unmaster (description phy : string) (clear : list string) : undo :=
  mkUndo description ["ip"; "link"; "set"; phy; "nomaster"] ("rollback unmaster " +s+ phy) clear.
Definition undo_set_link (description name link_state : string) (clear : list string) : undo :=
  mkUndo description ["ip"; "link"; "set"; name; link_state] ("rollback set " +s+ name +s+ " " +s+ link_state) clear.

(** [action.run()]. *)
Definition run_undo (u : undo) : M state () :=
  '(rc, _, err) ← run_cmd_vec ROOT (u_argv u);
  if negb (rc =? 0) then runtime_error (u_error u +s+ " failed (rc=" +s+ str_Z rc +s+ "): " +s+ strip err)
  else mret ().

(** [_rollback] of the actions, the one registered last first. *)
Fixpoint rollback (host : string) (undos : list undo) : M state (list (string * string)) :=
  match undos with
  | [] => mret []
  | u :: undos =>
      failure ← try_except is_exception
        (run_undo u ≫= λ _, set_created (update_record host (clear_flags (u_clear u))) ≫= λ _, mret None)
        (λ e, mret (Some (u_description u, exn_msg e)));
      rest ← rollback host undos;
      mret (option_list failure ++ rest)
  end.

(** The message of [ExternalBridgeError]. *)
Definition external_error (setup : option string) (failures : list (string * string)) : string :=
  join "; " (option_list setup ++ ((λ f : string * string, "rollback " +s+ f.1 +s+ ": " +s+ f.2) <$> failures)).

(** Dropping the record when nothing is outstanding. *)
Definition drop_discharged (host : string) : M state () :=
  set_created (λ bs, match find_record host bs with
                     | Some r => if outstanding r then bs else pop_record host bs
                     | None => bs
                     end).

(** [_abort] and the raise after it. *)
Definition abort {A} (host reason : string) (undos : list undo) : M state A :=
  failures ← rollback host undos;
  drop_discharged host ≫= λ _,
  runtime_error (external_error (Some reason) failures).

(** * The mutations *)

(** One mutation: where and what is run, the reason it is aborted with, the flag
    that records it and the rollback it registers. *)
Record mutation := mkMutation {
  m_node : string;
  m_argv : list string;
  m_reason : string;
  m_flags : list string;
  m_undo : option undo;
}.

(** The mutations after the creation of the bridge, in order. *)
Definition mutations (host phy bridge veth_root veth_host pid ip : string) (prior_up : bool) (mtu : option Z)
    : list mutation :=
  let link argv := ["ip"; "link"] ++ argv in
  [mkMutation ROOT (link ["set"; bridge; "up"]) "bridge-up failure" ["bridge_up"] None]
  ++ (if prior_up then [] else
      [mkMutation ROOT (link ["set"; phy; "up"]) "phy-up failure" ["phy_up_changed"]
         (Some (undo_set_link "restore phy DOWN" phy "down" ["phy_up_changed"]))])
  ++ [mkMutation ROOT (link ["set"; phy; "master"; bridge]) "phy-enslave failure" ["phy_enslaved"]
        (Some (undo_unmaster "unmaster phy" phy ["phy_enslaved"]));
      mkMutation ROOT (link ["add"; veth_root; "type"; "veth"; "peer"; "name"; veth_host]) "veth creation failure"
        ["veth_created"] (Some (undo_del_link "delete veth" veth_root VETH_FLAGS));
      mkMutation ROOT (link ["set"; veth_root; "master"; bridge]) "veth-root-master failure" ["veth_root_mastered"] None;
      mkMutation ROOT (link ["set"; veth_root; "up"]) "veth-root-up failure" ["veth_root_up"] None;
      mkMutation ROOT (link ["set"; veth_host; "up"]) "veth-host-up failure" [] None;
      mkMutation ROOT (link ["set"; veth_host; "netns"; pid]) "veth-host-ns-move failure" ["veth_host_ns_moved"] None;
      mkMutation host (link ["set"; veth_host; "up"]) "veth-host-up-in-ns failure" ["veth_host_up"] None]
  ++ match mtu with
     | Some m =>
         if m =? 0 then [] else
         [mkMutation ROOT (link ["set"; bridge; "mtu"; str_Z m]) "bridge-mtu failure" [] None;
          mkMutation ROOT (link ["set"; veth_root; "mtu"; str_Z m]) "veth-root-mtu failure" [] None;
          mkMutation host (link ["set"; veth_host; "mtu"; str_Z m]) "veth-host-mtu failure" ["mtu_set"] None]
     | None => []
     end
  ++ [mkMutation host ["ip"; "addr"; "add"; ip; "dev"; veth_host] "static-ip failure" ["ip_assigned"] None].

(** Running them, with the rollback actions registered so far. *)
Fixpoint run_mutations (host : string) (ms : list mutation) (undos : list undo) : M state () :=
  match ms with
  | [] => mret ()
  | m :: ms =>
      '(rc, _, _) ← run_cmd_vec (m_node m) (m_argv m);
      if negb (rc =? 0) then abort host (m_reason m) undos else
      set_created (update_record host (set_flags (m_flags m))) ≫= λ _,
      run_mutations host ms (option_list (m_undo m) ++ undos)
  end.

(** * Attach *)

Definition bridge_name (host : string) : string := "br-" +s+ host.
Definition veth_root_name (host : string) : string := "veth-" +s+ host +s+ "-root".
Definition veth_host_name (host : string) : string := "veth-" +s+ host.

Definition name_text (n : string) : string := repr_str n +s+ "(" +s+ str_Z (Z.of_nat (String.length n)) +s+ ")".

(** The host another record attaches [phy] to. *)
Definition phy_owner (host phy : string) (bs : bridges) : option string :=
  fst <$> List.find (λ hr, bool_decide (r_phy hr.2 = phy) && negb (bool_decide (hr.1 = host))) bs.

(** The checks on the names and the records. *)
Definition check_names (host phy : string) : M state () :=
  let br := bridge_name host in
  let vr := veth_root_name host in
  let vh := veth_host_name host in
  if bool_decide (15 < String.length br ∨ 15 < String.length vr ∨ 15 < String.length vh)%nat then
    runtime_error ("generated interface names exceed 15-character limit: bridge=" +s+ name_text br
      +s+ ", veth_root=" +s+ name_text vr +s+ ", veth_host=" +s+ name_text vh)
  else
  bs ← get created;
  if bool_decide (host ∈ bs.*1) then
    runtime_error ("active attachment already exists for " +s+ host +s+ "; run cleanup_external_bridges() first")
  else match phy_owner host phy bs with
       | Some owner => runtime_error ("physical interface " +s+ phy +s+ " is already attached via active external bridge for host "
           +s+ owner +s+ "; run cleanup_external_bridges() first")
       | None => mret ()
       end.

(** The checks on the interface: was it up? *)
Definition check_interface (phy : string) : M state bool :=
  inspected ← inspect_link phy;
  match inspected with
  | inr err => runtime_error ("cannot inspect " +s+ phy +s+ ": " +s+ err)
  | inl link_data =>
      let master := if truthy (get_none link_data "master") then get_none link_data "master" else get_none link_data "bridge" in
      if truthy master then
        runtime_error (phy +s+ " already enslaved to " +s+ py_str master +s+ "; cannot reassign to new bridge")
      else
      addresses ← inspect_addresses phy;
      match addresses with
      | inr err => runtime_error ("cannot inspect addresses on " +s+ phy +s+ ": " +s+ err)
      | inl addrs =>
          l ← lift (if truthy addrs then py_list addrs else Ok []);
          found ← lift (configured_address l);
          match found with
          | Some addr => runtime_error (phy +s+ " has configured address " +s+ addr +s+ "; refusing to mutate non-clean interface")
          | None =>
              match get_admin_up link_data with
              | None => runtime_error ("cannot determine administrative state of " +s+ phy +s+ "; flags field missing or invalid")
              | Some up => mret up
              end
          end
      end
  end.

(** [attach_external_via_bridge]. *)
Definition attach_external_via_bridge (host phy : string) (ip : option string) (mtu : option Z) : M state () :=
  match ip with
  | None | Some "" =>
      runtime_error ("static IP required for external bridge attachment of " +s+ host +s+ "; DHCP mode is not supported")
  | Some ip =>
      lift (validate_static_ip ip) ≫= λ _,
      check_names host phy ≫= λ _,
      found ← (λ s, lift (get_host host (machine s)) s);
      if negb found then mret () else
      prior_up ← check_interface phy;
      let br := bridge_name host in
      let vr := veth_root_name host in
      let vh := veth_host_name host in
      set_created (λ bs, bs ++ [(host, mkRecord br vr vh phy ∅)]) ≫= λ _,
      '(rc, _, err) ← run_cmd_vec ROOT ["ip"; "link"; "add"; br; "type"; "bridge"];
      if negb (rc =? 0) then
        set_created (pop_record host) ≫= λ _,
        runtime_error ("bridge creation failed (rc=" +s+ str_Z rc +s+ "): " +s+ strip err)
      else
      set_created (update_record host (set_flags ["bridge_created"])) ≫= λ _,
      pid ← get (λ s, host_pid host (machine s));
      run_mutations host (mutations host phy br vr vh pid ip prior_up mtu)
        [undo_del_link "delete bridge" br ["bridge_created"; "bridge_up"]]
  end.

(** * Cleanup *)

(** One gated step of the cleanup: its flag, command, failure label and the flags
    it clears. *)
Record sweep := mkSweep { s_flag : string; s_argv : list string; s_label : string; s_clear : list string }.

Definition sweeps (r : record) : list sweep :=
  [ mkSweep "veth_created" ["ip"; "link"; "del"; r_veth_root r] ("del " +s+ r_veth_root r) VETH_FLAGS;
    mkSweep "phy_enslaved" ["ip"; "link"; "set"; r_phy r; "nomaster"] ("unmaster " +s+ r_phy r) ["phy_enslaved"];
    mkSweep "phy_up_changed" ["ip"; "link"; "set"; r_phy r; "down"] ("down " +s+ r_phy r) ["phy_up_changed"];
    mkSweep "bridge_up" ["ip"; "link"; "set"; r_bridge r; "down"] ("down " +s+ r_bridge r) ["bridge_up"];
    mkSweep "bridge_created" ["ip"; "link"; "del"; r_bridge r] ("del " +s+ r_bridge r) ["bridge_created"; "bridge_up"] ].

Fixpoint run_sweeps (host : string) (ss : list sweep) : M state (list (string * string)) :=
  match ss with
  | [] => mret []
  | sw :: ss =>
      active ← get (λ s, match find_record host (created s) with Some r => flag (s_flag sw) r | None => false end);
      failure ← (if active : bool then
                   '(rc, _, err) ← run_cmd_vec ROOT (s_argv sw);
                   if negb (rc =? 0) then mret (Some (s_label sw, strip err))
                   else set_created (update_record host (clear_flags (s_clear sw))) ≫= λ _, mret None
                 else mret None);
      rest ← run_sweeps host ss;
      mret (option_list failure ++ rest)
  end.

(** The loop over a snapshot of the records. *)
Fixpoint clean_records (snapshot : bridges) : M state (list (string * string)) :=
  match snapshot with
  | [] => mret []
  | (host, r) :: snapshot =>
      failures ← run_sweeps host (sweeps r);
      drop_discharged host ≫= λ _,
      rest ← clean_records snapshot;
      mret (failures ++ rest)
  end.

(** [cleanup_external_bridges]. *)
Definition cleanup_external_bridges : M state () :=
  snapshot ← get created;
  failures ← clean_records snapshot;
  match failures with [] => mret () | _ => runtime_error (external_error None failures) end.

End external.
Arguments state _ : clear implicits.
