(* ===== verification/ExternalRestore.v ===== *)
(** The attachments of bridge_external.py leave the root namespace as they found
    it: the records always account for every interface that was created or
    changed, however the commands fail, so a cleanup that returns has restored
    all of them. *)
From S2P Require Import Prelude PyValue PyString CommandRunner StateMonad BridgeArgs BridgeExternal.
Local Open Scope Z_scope.

(** * The interfaces of the root namespace *)

(** What the program is accountable for of an interface: administratively up, its
    bridge, and the other end of a veth pair when it is in this namespace. *)
Record link := mkLink { l_up : bool; l_master : option string; l_peer : option string }.
Notation links := (gmap string link).

#[export] Instance link_eq_dec : EqDecision link.
Proof. solve_decision. Defined.

Definition set_up (b : bool) (l : link) : link := mkLink b (l_master l) (l_peer l).
Definition set_master (m : option string) (l : link) : link := mkLink (l_up l) m (l_peer l).

(** Interface [n] disappears: its ports lose their bridge, its peer its peer. *)
Definition unless (n : string) (o : option string) : option string := if bool_decide (o = Some n) then None else o.
Definition forget (n : string) (l : link) : link := mkLink (l_up l) (unless n (l_master l)) (unless n (l_peer l)).
Definition gone (n : string) (σ : links) : links := forget n <$> delete n σ.

(** What [ip link] does when it succeeds, as far as the program uses it; [sem]
    also relates the text printed. *)
Record ip_link_law `{JsonLib} (sem : list string → string → links → links → Prop) : Prop := {
  il_add_bridge : ∀ n o σ σ', sem ["ip"; "link"; "add"; n; "type"; "bridge"] o σ σ' →
    σ !! n = None ∧ ∃ l, l_master l = None ∧ l_peer l = None ∧ σ' = <[n := l]> σ;
  il_add_veth : ∀ n p o σ σ', sem ["ip"; "link"; "add"; n; "type"; "veth"; "peer"; "name"; p] o σ σ' →
    σ !! n = None ∧ σ !! p = None ∧ n ≠ p ∧
    ∃ u v, σ' = <[n := mkLink u None (Some p)]> (<[p := mkLink v None (Some n)]> σ);
  il_up : ∀ n o σ σ', sem ["ip"; "link"; "set"; n; "up"] o σ σ' → ∃ l, σ !! n = Some l ∧ σ' = <[n := set_up true l]> σ;
  il_down : ∀ n o σ σ', sem ["ip"; "link"; "set"; n; "down"] o σ σ' → ∃ l, σ !! n = Some l ∧ σ' = <[n := set_up false l]> σ;
  il_master : ∀ n b o σ σ', sem ["ip"; "link"; "set"; n; "master"; b] o σ σ' →
    ∃ l, σ !! n = Some l ∧ σ' = <[n := set_master (Some b) l]> σ;
  il_nomaster : ∀ n o σ σ', sem ["ip"; "link"; "set"; n; "nomaster"] o σ σ' →
    ∃ l, σ !! n = Some l ∧ σ' = <[n := set_master None l]> σ;
  il_netns : ∀ n pid o σ σ', sem ["ip"; "link"; "set"; n; "netns"; pid] o σ σ' → is_Some (σ !! n) ∧ σ' = gone n σ;
  il_mtu : ∀ n m o σ σ', sem ["ip"; "link"; "set"; n; "mtu"; m] o σ σ' → σ' = σ;
  il_del : ∀ n o σ σ', sem ["ip"; "link"; "del"; n] o σ σ' →
    ∃ l, σ !! n = Some l ∧ σ' = gone n (match l_peer l with Some p => gone p σ | None => σ end);
  il_addr_show : ∀ n o σ σ', sem ["ip"; "-j"; "addr"; "show"; "dev"; n] o σ σ' → σ' = σ;
  il_show : ∀ n o σ σ', sem ["ip"; "-j"; "link"; "show"; "dev"; n] o σ σ' →
    σ' = σ ∧ ∃ l, σ !! n = Some l ∧
    ∀ entry rest, json_loads o = inl (PList (PDict entry :: rest)) →
      (∀ up, get_admin_up entry = Some up → l_up l = up) ∧
      (truthy (get_none entry "master") = false → truthy (get_none entry "bridge") = false → l_master l = None);
}.

(** The commands: a status of 0 in the root namespace means the command took
    effect, anything else that it did not; a host's commands leave the root
    namespace alone. *)
Definition commands_law `{ExtMachine W} (view : W → links) (sem : list string → string → links → links → Prop) : Prop :=
  ∀ node argv w w' r, run_command node argv w = (w', r) →
  match r with
  | inl res => if (fail_closed_rc res).1 =? 0
               then if bool_decide (node = ROOT) then sem argv (stdout res) (view w) (view w') else view w' = view w
               else view w' = view w
  | inr _ => view w' = view w
  end.

(** Every bridge and peer an interface refers to exists. *)
Definition closed (σ : links) : Prop := ∀ n l, σ !! n = Some l →
  (∀ m, l_master l = Some m → is_Some (σ !! m)) ∧ (∀ p, l_peer l = Some p → is_Some (σ !! p)).

(** A host name that does not end in [-root] and is not the root's, and a physical
    interface not named like a generated one. *)
Definition plain_host (h : string) : Prop := strip_suffix "-root" h = None ∧ h ≠ ROOT.
Definition plain_phy (phy : string) : Prop := startswith phy "br-" = false ∧ startswith phy "veth-" = false.

(** ** Names *)

Definition generated (h : string) : list string := [bridge_name h; veth_root_name h; veth_host_name h].

Lemma generated_inj h h' n : plain_host h → plain_host h' → n ∈ generated h → n ∈ generated h' → h = h'.
Proof.
  intros [Hh _] [Hh' _]. unfold generated, bridge_name, veth_root_name, veth_host_name. rewrite !elem_of_cons, elem_of_nil.
  intros H1 H2. destruct_or! H1; destruct_or! H2; try done; subst n; try discriminate H2.
  - by injection H2.
  - apply (f_equal (strip_prefix "veth-")) in H2. rewrite !strip_prefix_app in H2. injection H2 as H2.
    apply (f_equal (strip_suffix "-root")) in H2. rewrite !strip_suffix_app in H2. by injection H2.
  - apply (f_equal (strip_prefix "veth-")) in H2. rewrite !strip_prefix_app in H2. injection H2 as <-.
    by rewrite strip_suffix_app in Hh'.
  - apply (f_equal (strip_prefix "veth-")) in H2. rewrite !strip_prefix_app in H2. injection H2 as ->.
    by rewrite strip_suffix_app in Hh.
  - apply (f_equal (strip_prefix "veth-")) in H2. rewrite !strip_prefix_app in H2. by injection H2.
Qed.

Lemma plain_phy_generated phy h : plain_phy phy → phy ∉ generated h.
Proof.
  intros [Hb Hv]. unfold generated, bridge_name, veth_root_name, veth_host_name. rewrite !elem_of_cons.
  intros Hin. destruct h; destruct Hin as [->|[->|[->|[]%not_elem_of_nil]]]; (discriminate Hb || discriminate Hv).
Qed.

Lemma generated_distinct h : plain_host h →
  bridge_name h ≠ veth_root_name h ∧ bridge_name h ≠ veth_host_name h ∧ veth_root_name h ≠ veth_host_name h.
Proof.
  intros [Hh _]. split_and!; [discriminate..|]. unfold veth_root_name, veth_host_name. intros E.
  apply (f_equal (strip_prefix "veth-")) in E. rewrite !strip_prefix_app in E. injection E as E.
  assert (String.length (h +s+ "-root") = String.length h) as E' by (by rewrite E). rewrite string_length_app in E'. simpl in E'. lia.
Qed.

(** ** Links that disappear *)

Lemma lookup_gone n σ m : gone n σ !! m = if decide (n = m) then None else forget n <$> σ !! m.
Proof. unfold gone. rewrite lookup_fmap. destruct (decide (n = m)) as [->|Hne]; simplify_map_eq; done. Qed.

Lemma unless_other n o : o ≠ Some n → unless n o = o.
Proof. intros Hne. unfold unless. by rewrite bool_decide_eq_false_2. Qed.

Lemma forget_other n l : l_master l ≠ Some n → l_peer l ≠ Some n → forget n l = l.
Proof. intros Hm Hp. unfold forget. rewrite !unless_other by done. by destruct l. Qed.

Lemma unless_cases n o : unless n o = o ∨ unless n o = None.
Proof. unfold unless. case_bool_decide; auto. Qed.

(** ** Flags *)

Lemma flag_set f fs r : flag f (set_flags fs r) = flag f r || bool_decide (f ∈ fs).
Proof.
  unfold flag. apply eq_bool_prop_intro. rewrite orb_True, !bool_decide_spec. simpl. set_solver.
Qed.
Lemma flag_clear f fs r : flag f (clear_flags fs r) = flag f r && negb (bool_decide (f ∈ fs)).
Proof.
  unfold flag. apply eq_bool_prop_intro. rewrite andb_True, negb_True, !bool_decide_spec. simpl. set_solver.
Qed.

(** Evaluate the flags of an updated record. *)
Ltac flags :=
  repeat (rewrite flag_set || rewrite flag_clear);
  repeat match goal with
  | |- context [bool_decide (?f ∈ ?fs)] =>
      let b := eval vm_compute in (bool_decide (f ∈ fs)) in
      change (bool_decide (f ∈ fs)) with b
  end;
  rewrite ?orb_true_r, ?orb_false_r, ?andb_true_r, ?andb_false_r.

(** * What a record accounts for *)

Section accounts.
Context (β : links).

Definition no_veth (r : record) : Prop := Forall (λ f, flag f r = false) VETH_FLAGS.

(** The flags of a record say exactly which of its interfaces are not as they
    were in [β], and how. *)
Record record_ok (σ : links) (h : string) (r : record) : Prop := {
  rk_host : plain_host h;
  rk_phy_name : plain_phy (r_phy r);
  rk_names : r = mkRecord (bridge_name h) (veth_root_name h) (veth_host_name h) (r_phy r) (r_flags r);
  rk_bridge : if flag "bridge_created" r
    then β !! bridge_name h = None ∧ ∃ up, σ !! bridge_name h = Some (mkLink up None None)
    else σ !! bridge_name h = β !! bridge_name h ∧ flag "bridge_up" r = false;
  rk_veth : if flag "veth_created" r
    then β !! veth_root_name h = None ∧ β !! veth_host_name h = None ∧ ∃ u m,
      (m = None ∨ m = Some (bridge_name h)) ∧
      (σ !! veth_root_name h = Some (mkLink u m (Some (veth_host_name h))) ∧
         (∃ v, σ !! veth_host_name h = Some (mkLink v None (Some (veth_root_name h)))) ∨
       σ !! veth_root_name h = Some (mkLink u m None) ∧ σ !! veth_host_name h = None)
    else σ !! veth_root_name h = β !! veth_root_name h ∧ σ !! veth_host_name h = β !! veth_host_name h ∧ no_veth r;
  rk_phy : ∃ up0 p up m, β !! r_phy r = Some (mkLink up0 None p) ∧ σ !! r_phy r = Some (mkLink up m p) ∧
    (if flag "phy_up_changed" r then up0 = false else up = up0) ∧
    (m = None ∨ flag "phy_enslaved" r = true ∧ m = Some (bridge_name h));
}.

Definition tracked (h : string) (r : record) : list string := r_phy r :: generated h.

Record accounts (bs : bridges) (σ : links) : Prop := {
  ac_hosts : NoDup bs.*1;
  ac_phys : NoDup (r_phy <$> bs.*2);
  ac_ok : ∀ h r, (h, r) ∈ bs → record_ok σ h r;
  ac_rest : ∀ n, (∀ h r, (h, r) ∈ bs → n ∉ tracked h r) → σ !! n = β !! n;
}.

Lemma accounts_nil σ : accounts [] σ → σ = β.
Proof. intros Ha. apply map_eq. intros n. apply (ac_rest _ _ Ha). intros h r Hin. by apply elem_of_nil in Hin. Qed.

(** A record without outstanding flags accounts for nothing. *)
Lemma record_discharged σ h r n : record_ok σ h r → outstanding r = false → n ∈ tracked h r → σ !! n = β !! n.
Proof.
  intros Hr Ho. assert (Hf : ∀ f, f ∈ OUTSTANDING_FLAGS → flag f r = false).
  { intros f Hin. apply not_true_iff_false. intros E. apply not_true_iff_false in Ho. apply Ho. unfold outstanding.
    apply existsb_exists. exists f. by rewrite <- list_elem_of_In. }
  assert (Hc : flag "bridge_created" r = false ∧ flag "veth_created" r = false ∧ flag "phy_up_changed" r = false
    ∧ flag "phy_enslaved" r = false) by (split_and!; apply Hf; unfold OUTSTANDING_FLAGS, VETH_FLAGS; set_solver).
  destruct Hc as (Hb & Hv & Hu & He), Hr as [_ _ _ Rb Rv (up0 & p & up & m & Hβ & Hσ & Hup & Hm)].
  rewrite Hb in Rb. rewrite Hv in Rv. rewrite Hu in Hup. rewrite He in Hm. unfold tracked, generated.
  rewrite !elem_of_cons, elem_of_nil. destruct Rb as [Rb _], Rv as (Rr & Rh & _), Hm as [->|[? _]]; [|done]. subst up.
  intros Hn. destruct_or! Hn; subst n; congruence.
Qed.

Lemma tracked_disjoint bs σ h r h' r' n :
  accounts bs σ → (h, r) ∈ bs → (h', r') ∈ bs → n ∈ tracked h r → n ∈ tracked h' r' → h = h'.
Proof.
  intros Ha Hin Hin' Hn Hn'. pose proof (ac_ok _ _ Ha _ _ Hin) as Hr. pose proof (ac_ok _ _ Ha _ _ Hin') as Hr'.
  unfold tracked in Hn, Hn'. rewrite elem_of_cons in Hn, Hn'. destruct Hn as [->|Hn], Hn' as [E|Hn'].
  - apply list_elem_of_lookup in Hin as [i Hi]. apply list_elem_of_lookup in Hin' as [j Hj].
    assert (i = j) as ->; [|congruence]. apply (NoDup_lookup _ i j (r_phy r) (ac_phys _ _ Ha)).
    + by rewrite !list_lookup_fmap, Hi.
    + rewrite !list_lookup_fmap, Hj. simpl. congruence.
  - exfalso. apply (plain_phy_generated (r_phy r) h'); [apply Hr|done].
  - subst n. exfalso. apply (plain_phy_generated (r_phy r') h); [apply Hr'|done].
  - by apply (generated_inj h h' n (rk_host _ _ _ Hr) (rk_host _ _ _ Hr')).
Qed.

(** ** Updating one record *)

Lemma elem_of_update h f bs h' r' :
  (h', r') ∈ update_record h f bs ↔ ∃ r, (h', r) ∈ bs ∧ r' = if bool_decide (h' = h) then f r else r.
Proof.
  unfold update_record. rewrite list_elem_of_fmap. split.
  - intros ([h1 r1] & E & Hin). exists r1. simpl in E. case_bool_decide as D; injection E as -> ->; split; try done; by case_bool_decide.
  - intros (r & Hin & ->). exists (h', r). simpl. by case_bool_decide.
Qed.

Lemma update_hosts h f bs : (update_record h f bs).*1 = bs.*1.
Proof. unfold update_record. rewrite <- list_fmap_compose. apply list_fmap_ext. intros i [h1 r1] _. simpl. by case_bool_decide. Qed.

Lemma update_phys h f bs : (∀ r, r_phy (f r) = r_phy r) → r_phy <$> (update_record h f bs).*2 = r_phy <$> bs.*2.
Proof.
  intros Hf. unfold update_record. rewrite <- !list_fmap_compose. apply list_fmap_ext. intros i [h1 r1] _. simpl. case_bool_decide; simpl; by rewrite ?Hf.
Qed.

Lemma find_record_elem h r bs : NoDup bs.*1 → find_record h bs = Some r ↔ (h, r) ∈ bs.
Proof.
  induction bs as [|[h' r'] bs IH]; simpl; [by rewrite elem_of_nil|].
  intros [Hn Hnd]%NoDup_cons. rewrite elem_of_cons. case_bool_decide as E.
  - subst h'. split; [intros [= ->]; by left|]. intros [[= ->]|Hin]; [done|]. destruct Hn. apply list_elem_of_fmap. by exists (h, r).
  - rewrite (IH Hnd). naive_solver.
Qed.

Lemma accounts_update bs σ σ' h r f :
  accounts bs σ → (h, r) ∈ bs → (∀ r, r_phy (f r) = r_phy r) → record_ok σ' h (f r) →
  (∀ n, n ∉ tracked h r → σ' !! n = σ !! n) → accounts (update_record h f bs) σ'.
Proof.
  intros Ha Hin Hf Hr Hσ. pose proof Ha as [Hh Hp Hok Hrest]. split.
  - by rewrite update_hosts.
  - by rewrite update_phys.
  - intros h' r' (r1 & Hin1 & ->)%elem_of_update. case_bool_decide as E.
    + subst h'. by rewrite (NoDup_fst_fun bs h r1 r Hh Hin1 Hin).
    + assert (Hsame : ∀ n, n ∈ tracked h' r1 → σ' !! n = σ !! n).
      { intros n Hn. apply Hσ. intros Hn'. apply E. by apply (tracked_disjoint bs σ h' r1 h r n). }
      destruct (Hok _ _ Hin1) as [H1 H2 H3 H4 H5 H6].
      split; try done; rewrite !Hsame by (unfold tracked, generated; set_solver); done.
  - intros n Hn. rewrite Hσ.
    + apply Hrest. intros h' r1 Hin1. specialize (Hn h' (if bool_decide (h' = h) then f r1 else r1)).
      assert (tracked h' (if bool_decide (h' = h) then f r1 else r1) = tracked h' r1) as E by (unfold tracked; case_bool_decide; by rewrite ?Hf).
      rewrite E in Hn. apply Hn. apply elem_of_update. by exists r1.
    + specialize (Hn h (f r)). unfold tracked in *. rewrite Hf in Hn. apply Hn. apply elem_of_update. exists r. by rewrite bool_decide_eq_true_2.
Qed.

(** A generated interface that is not in [β] is referred to only from its own
    record. *)
Lemma forget_elsewhere bs σ h r g n l :
  closed β → accounts bs σ → (h, r) ∈ bs → g ∈ generated h → β !! g = None → n ∉ tracked h r →
  σ !! n = Some l → forget g l = l.
Proof.
  intros Hcl Ha Hin Hg Hβ Hn Hl. pose proof (ac_ok _ _ Ha _ _ Hin) as Hr.
  assert (Href : ∀ o, (∀ m, o = Some m → is_Some (β !! m)) → o ≠ Some g).
  { intros o Ho E. apply Ho in E as [x Hx]. congruence. }
  destruct (decide (Exists (λ hr, n ∈ tracked hr.1 hr.2) bs)) as [([h' r'] & Hin' & Hn')%Exists_exists|Hno].
  2:{ assert (β !! n = Some l) as Hb.
      { rewrite <- Hl. symmetry. apply (ac_rest _ _ Ha). intros h' r' Hin' Hn'. apply Hno, Exists_exists. by exists (h', r'). }
      apply Hcl in Hb as [Hm Hp]. by apply forget_other; apply Href. }
  simpl in Hn'. assert (Hne : h' ≠ h).
  { intros ->. by rewrite (NoDup_fst_fun bs h r' r (ac_hosts _ _ Ha) Hin' Hin) in Hn'. }
  pose proof (ac_ok _ _ Ha _ _ Hin') as Hr'.
  assert (Hgen : ∀ x, x ∈ generated h' → Some x ≠ Some g).
  { intros x Hx [= ->]. apply Hne. by apply (generated_inj h' h g (rk_host _ _ _ Hr') (rk_host _ _ _ Hr)). }
  assert (HB : Some (bridge_name h') ≠ Some g) by (apply Hgen; unfold generated; set_solver).
  assert (HR : Some (veth_root_name h') ≠ Some g) by (apply Hgen; unfold generated; set_solver).
  assert (HH : Some (veth_host_name h') ≠ Some g) by (apply Hgen; unfold generated; set_solver).
  assert (Hclosed : ∀ x, β !! x = Some l → forget g l = l).
  { intros x Hx. apply Hcl in Hx as [Hm Hp]. by apply forget_other; apply Href. }
  destruct Hr' as [_ _ _ Rb Rv (up0 & p & up & m & Hβ' & Hσ' & _ & Hm)].
  unfold tracked, generated in Hn'. rewrite !elem_of_cons, elem_of_nil in Hn'. destruct_or! Hn'; subst n.
  - rewrite Hσ' in Hl. injection Hl as <-. apply Hcl in Hβ' as [_ Hp]. apply forget_other; simpl; [|by apply Href].
    destruct Hm as [->|[_ ->]]; done.
  - destruct (flag "bridge_created" r'); destruct Rb as [Rb1 Rb2]; [destruct Rb2 as [up' Rb2]|].
    + rewrite Rb2 in Hl. injection Hl as <-. by apply forget_other.
    + apply (Hclosed (bridge_name h')). congruence.
  - destruct (flag "veth_created" r'); [|destruct Rv as (Rv & _ & _); apply (Hclosed (veth_root_name h')); congruence].
    destruct Rv as (_ & _ & u & m' & Hm' & [[Rv _]|[Rv _]]); rewrite Rv in Hl; injection Hl as <-;
      apply forget_other; simpl; destruct Hm' as [->| ->]; done.
  - destruct (flag "veth_created" r'); [|destruct Rv as (_ & Rv & _); apply (Hclosed (veth_host_name h')); congruence].
    destruct Rv as (_ & _ & u & m' & Hm' & [[_ [v Rv]]|[_ Rv]]); rewrite Rv in Hl; [|done]. injection Hl as <-. by apply forget_other.
Qed.

Lemma gone_elsewhere bs σ h r g n :
  closed β → accounts bs σ → (h, r) ∈ bs → g ∈ generated h → β !! g = None → n ∉ tracked h r →
  gone g σ !! n = σ !! n.
Proof.
  intros Hcl Ha Hin Hg Hβ Hn. rewrite lookup_gone, decide_False by (intros ->; apply Hn; by right).
  destruct (σ !! n) as [l|] eqn:Hl; [|done]. simpl. f_equal. by eapply forget_elsewhere.
Qed.

Lemma forget_closed x l g : closed β → β !! x = Some l → β !! g = None → forget g l = l.
Proof.
  intros Hcl Hx Hg. destruct (Hcl _ _ Hx) as [Hm Hp].
  apply forget_other; intros E; [apply Hm in E as [? ?]|apply Hp in E as [? ?]]; congruence.
Qed.

Lemma forget_same x g : closed β → β !! g = None → forget g <$> β !! x = β !! x.
Proof. intros Hcl Hg. destruct (β !! x) eqn:Hx; [|done]. simpl. f_equal. by eapply forget_closed. Qed.

(** ** The commands *)

Lemma no_veth_set fs r : Forall (λ f, f ∉ fs) VETH_FLAGS → no_veth r → no_veth (set_flags fs r).
Proof.
  intros Hfs Hr. unfold no_veth in *. rewrite Forall_forall in *. intros f Hf. rewrite flag_set, Hr by done.
  by apply bool_decide_eq_false_2, Hfs.
Qed.
Lemma no_veth_clear fs r : no_veth r → no_veth (clear_flags fs r).
Proof. intros Hr. unfold no_veth in *. rewrite Forall_forall in *. intros f Hf. by rewrite flag_clear, Hr. Qed.
Lemma no_veth_cleared r : no_veth (clear_flags VETH_FLAGS r).
Proof.
  apply Forall_forall. intros f Hf. rewrite flag_clear, bool_decide_eq_true_2 by done. apply andb_false_r.
Qed.

Lemma set_names h r fs : r = mkRecord (bridge_name h) (veth_root_name h) (veth_host_name h) (r_phy r) (r_flags r) →
  set_flags fs r = mkRecord (bridge_name h) (veth_root_name h) (veth_host_name h) (r_phy (set_flags fs r)) (r_flags (set_flags fs r)).
Proof. destruct r. simpl. by intros [= -> -> ->]. Qed.
Lemma clear_names h r fs : r = mkRecord (bridge_name h) (veth_root_name h) (veth_host_name h) (r_phy r) (r_flags r) →
  clear_flags fs r = mkRecord (bridge_name h) (veth_root_name h) (veth_host_name h) (r_phy (clear_flags fs r)) (r_flags (clear_flags fs r)).
Proof. destruct r. simpl. by intros [= -> -> ->]. Qed.

(** Once the veth pair exists its other flags record nothing more. *)
Lemma record_ok_flags σ h r fs :
  record_ok σ h r → flag "veth_created" r = true → Forall (λ f, f ∈ VETH_FLAGS) fs → record_ok σ h (set_flags fs r).
Proof.
  intros [H1 H2 H3 H4 H5 H6] Hv Hfs.
  assert (Hother : ∀ x, x ∉ VETH_FLAGS → flag x (set_flags fs r) = flag x r).
  { intros x Hx. rewrite flag_set, bool_decide_eq_false_2, orb_false_r; [done|]. intros Hin. apply Hx. rewrite Forall_forall in Hfs. by apply Hfs. }
  split; [done|done|by apply set_names|..].
  - rewrite !Hother by (unfold VETH_FLAGS; set_solver). done.
  - rewrite flag_set, Hv. by rewrite Hv in H5.
  - rewrite !Hother by (unfold VETH_FLAGS; set_solver). done.
Qed.

Context `{JsonLib} (sem : list string → string → links → links → Prop) (law : ip_link_law sem) (Hclosed : closed β).

(** Command [argv] keeps the accounts when the record of [h] is updated by [f],
    provided the flags [pre] are set. *)
Definition keeps_accounts (h : string) (pre : list string) (argv : list string) (f : record → record) : Prop :=
  ∀ bs σ σ' o r, accounts bs σ → (h, r) ∈ bs → Forall (λ x, flag x r = true) pre → sem argv o σ σ' →
  accounts (update_record h f bs) σ'.

(** The names of a record are distinct. *)
Lemma record_distinct σ h r : record_ok σ h r →
  bridge_name h ≠ veth_root_name h ∧ bridge_name h ≠ veth_host_name h ∧ veth_root_name h ≠ veth_host_name h ∧
  r_phy r ≠ bridge_name h ∧ r_phy r ≠ veth_root_name h ∧ r_phy r ≠ veth_host_name h.
Proof.
  intros Hr. destruct (generated_distinct h) as (? & ? & ?); [apply Hr|].
  assert (Hp := plain_phy_generated (r_phy r) h (rk_phy_name _ _ _ Hr)). unfold generated in Hp. set_solver.
Qed.

(** Start a command's proof: the record's facts, the update, the goals of the new
    record. *)
Ltac command_start Hr :=
  intros bs σ σ' o r Ha Hin Hpre Hsem;
  pose proof (ac_ok _ _ Ha _ _ Hin) as Hr;
  destruct (record_distinct _ _ _ Hr) as (Dbr & Dbh & Drh & Dpb & Dpr & Dph).
Ltac new_record :=
  split; [assumption|assumption|first [apply set_names; assumption|apply clear_names; assumption]|flags..];
  try (change (r_phy (set_flags ?fs ?r)) with (r_phy r)); try (change (r_phy (clear_flags ?fs ?r)) with (r_phy r)).

Lemma account_bridge_add h :
  keeps_accounts h [] ["ip"; "link"; "add"; bridge_name h; "type"; "bridge"] (set_flags ["bridge_created"]).
Proof.
  command_start Hr. destruct (il_add_bridge _ law _ _ _ _ Hsem) as (Hn & [up m p] & Hm & Hp & ->). simpl in Hm, Hp. subst m p.
  apply (accounts_update bs σ _ h r _ Ha Hin); [done|destruct Hr as [H1 H2 H3 H4 H5 H6]; new_record|].
  - rewrite lookup_insert_eq. destruct (flag "bridge_created" r); destruct H4 as [H4 H4']; [destruct H4' as [? ?]; congruence|].
    split; [congruence|by eexists].
  - rewrite !lookup_insert_ne by done. destruct (flag "veth_created" r); [done|]. destruct H5 as (? & ? & ?). split_and!; try done.
    apply no_veth_set; [|done]. repeat constructor; set_solver.
  - by rewrite lookup_insert_ne by done.
  - intros n Hn'. rewrite lookup_insert_ne; [done|]. intros <-. apply Hn'. unfold tracked, generated. set_solver.
Qed.

(** Other interfaces when one of the record's is changed or deleted. *)
Ltac elsewhere := intros ? Hother; unfold tracked, generated in Hother; rewrite !lookup_insert_ne by (intros <-; apply Hother; set_solver); try done.
Ltac not_veth := match goal with
  | H5 : _ ∧ _ ∧ no_veth _ |- _ => destruct H5 as (? & ? & ?); split_and!; try done;
      (apply no_veth_set; [|done]; repeat constructor; set_solver) || by apply no_veth_clear
  end.
(** Use the flags in [pre]. *)
Ltac premises := repeat match goal with H : Forall _ (_ :: _) |- _ => apply Forall_cons in H as [? H] end.

Lemma account_bridge_up h :
  keeps_accounts h ["bridge_created"] ["ip"; "link"; "set"; bridge_name h; "up"] (set_flags ["bridge_up"]).
Proof.
  command_start Hr. premises. destruct (il_up _ law _ _ _ _ Hsem) as (l & Hl & ->).
  apply (accounts_update bs σ _ h r _ Ha Hin); [done|destruct Hr as [H1 H2 H3 H4 H5 H6]; new_record|elsewhere].
  - rewrite lookup_insert_eq. destruct (flag "bridge_created" r); [|done]. destruct H4 as [? [up ?]]. simplify_eq/=.
    split; [done|by eexists].
  - rewrite !lookup_insert_ne by done. destruct (flag "veth_created" r); [done|not_veth].
  - by rewrite lookup_insert_ne by done.
Qed.

Lemma account_bridge_down h :
  keeps_accounts h ["bridge_up"] ["ip"; "link"; "set"; bridge_name h; "down"] (clear_flags ["bridge_up"]).
Proof.
  command_start Hr. premises. destruct (il_down _ law _ _ _ _ Hsem) as (l & Hl & ->).
  apply (accounts_update bs σ _ h r _ Ha Hin); [done|destruct Hr as [H1 H2 H3 H4 H5 H6]; new_record|elsewhere].
  - rewrite lookup_insert_eq. destruct (flag "bridge_created" r); [|destruct H4; congruence]. destruct H4 as [? [up ?]]. simplify_eq/=.
    split; [done|by eexists].
  - rewrite !lookup_insert_ne by done. destruct (flag "veth_created" r); [done|not_veth].
  - by rewrite lookup_insert_ne by done.
Qed.

Lemma account_phy_up h phy :
  (∃ l, β !! phy = Some l ∧ l_up l = false) →
  ∀ bs σ σ' o r, accounts bs σ → (h, r) ∈ bs → r_phy r = phy → sem ["ip"; "link"; "set"; phy; "up"] o σ σ' →
  accounts (update_record h (set_flags ["phy_up_changed"]) bs) σ'.
Proof.
  intros (l0 & Hl0 & Hup) bs σ σ' o r Ha Hin <- Hsem. pose proof (ac_ok _ _ Ha _ _ Hin) as Hr.
  destruct (record_distinct _ _ _ Hr) as (Dbr & Dbh & Drh & Dpb & Dpr & Dph).
  destruct (il_up _ law _ _ _ _ Hsem) as (l & Hl & ->).
  apply (accounts_update bs σ _ h r _ Ha Hin); [done|destruct Hr as [H1 H2 H3 H4 H5 H6]; new_record|elsewhere].
  - by rewrite lookup_insert_ne by done.
  - rewrite !lookup_insert_ne by done. destruct (flag "veth_created" r); [done|not_veth].
  - destruct H6 as (up0 & p & up & m & Hβ & Hσ & _ & Hm). simplify_eq/=. rewrite lookup_insert_eq. by eexists _, _, _, _.
Qed.

Lemma account_phy_down h phy :
  ∀ bs σ σ' o r, accounts bs σ → (h, r) ∈ bs → r_phy r = phy → flag "phy_up_changed" r = true →
  sem ["ip"; "link"; "set"; phy; "down"] o σ σ' →
  accounts (update_record h (clear_flags ["phy_up_changed"]) bs) σ'.
Proof.
  intros bs σ σ' o r Ha Hin <- Hpre Hsem. pose proof (ac_ok _ _ Ha _ _ Hin) as Hr.
  destruct (record_distinct _ _ _ Hr) as (Dbr & Dbh & Drh & Dpb & Dpr & Dph).
  destruct (il_down _ law _ _ _ _ Hsem) as (l & Hl & ->).
  apply (accounts_update bs σ _ h r _ Ha Hin); [done|destruct Hr as [H1 H2 H3 H4 H5 H6]; new_record|elsewhere].
  - by rewrite lookup_insert_ne by done.
  - rewrite !lookup_insert_ne by done. destruct (flag "veth_created" r); [done|not_veth].
  - destruct H6 as (up0 & p & up & m & Hβ & Hσ & Hu & Hm). rewrite Hpre in Hu. simplify_eq/=. rewrite lookup_insert_eq. by eexists _, _, _, _.
Qed.

Lemma account_phy_master h phy :
  ∀ bs σ σ' o r, accounts bs σ → (h, r) ∈ bs → r_phy r = phy → sem ["ip"; "link"; "set"; phy; "master"; bridge_name h] o σ σ' →
  accounts (update_record h (set_flags ["phy_enslaved"]) bs) σ'.
Proof.
  intros bs σ σ' o r Ha Hin <- Hsem. pose proof (ac_ok _ _ Ha _ _ Hin) as Hr.
  destruct (record_distinct _ _ _ Hr) as (Dbr & Dbh & Drh & Dpb & Dpr & Dph).
  destruct (il_master _ law _ _ _ _ _ Hsem) as (l & Hl & ->).
  apply (accounts_update bs σ _ h r _ Ha Hin); [done|destruct Hr as [H1 H2 H3 H4 H5 H6]; new_record|elsewhere].
  - by rewrite lookup_insert_ne by done.
  - rewrite !lookup_insert_ne by done. destruct (flag "veth_created" r); [done|not_veth].
  - destruct H6 as (up0 & p & up & m & Hβ & Hσ & Hu & Hm). simplify_eq/=. rewrite lookup_insert_eq. eexists _, _, _, _.
    split_and!; [done..|by right].
Qed.

Lemma account_phy_nomaster h phy :
  ∀ bs σ σ' o r, accounts bs σ → (h, r) ∈ bs → r_phy r = phy → sem ["ip"; "link"; "set"; phy; "nomaster"] o σ σ' →
  accounts (update_record h (clear_flags ["phy_enslaved"]) bs) σ'.
Proof.
  intros bs σ σ' o r Ha Hin <- Hsem. pose proof (ac_ok _ _ Ha _ _ Hin) as Hr.
  destruct (record_distinct _ _ _ Hr) as (Dbr & Dbh & Drh & Dpb & Dpr & Dph).
  destruct (il_nomaster _ law _ _ _ _ Hsem) as (l & Hl & ->).
  apply (accounts_update bs σ _ h r _ Ha Hin); [done|destruct Hr as [H1 H2 H3 H4 H5 H6]; new_record|elsewhere].
  - by rewrite lookup_insert_ne by done.
  - rewrite !lookup_insert_ne by done. destruct (flag "veth_created" r); [done|not_veth].
  - destruct H6 as (up0 & p & up & m & Hβ & Hσ & Hu & Hm). simplify_eq/=. rewrite lookup_insert_eq. eexists _, _, _, _.
    split_and!; [done..|by left].
Qed.

Lemma account_veth_add h :
  keeps_accounts h [] ["ip"; "link"; "add"; veth_root_name h; "type"; "veth"; "peer"; "name"; veth_host_name h]
    (set_flags ["veth_created"]).
Proof.
  command_start Hr. destruct (il_add_veth _ law _ _ _ _ _ Hsem) as (Hn & Hp & _ & u & v & ->).
  apply (accounts_update bs σ _ h r _ Ha Hin); [done|destruct Hr as [H1 H2 H3 H4 H5 H6]; new_record|elsewhere].
  - by rewrite !lookup_insert_ne by done.
  - rewrite lookup_insert_eq, lookup_insert_ne, lookup_insert_eq by done.
    destruct (flag "veth_created" r); [destruct H5 as (? & ? & u' & m' & _ & [[? _]|[? _]]); congruence|].
    destruct H5 as (? & ? & _). split_and!; [congruence..|]. exists u, None. split; [by left|]. left. split; [done|by eexists].
  - by rewrite !lookup_insert_ne by done.
Qed.

(** A command on the pair, and one that changes nothing tracked. *)
Lemma account_veth_set h fs n argv g :
  Forall (λ f, f ∈ VETH_FLAGS) fs → n = veth_root_name h ∨ n = veth_host_name h ∧ (∀ l, l_master (g l) = l_master l) →
  (∀ l, l_peer (g l) = l_peer l ∧ (l_master (g l) = l_master l ∨ l_master (g l) = Some (bridge_name h))) →
  (∀ o σ σ', sem argv o σ σ' → ∃ l, σ !! n = Some l ∧ σ' = <[n := g l]> σ) →
  keeps_accounts h ["veth_created"] argv (set_flags fs).
Proof.
  intros Hfs Hn Hg Heff. command_start Hr. premises. destruct (Heff _ _ _ Hsem) as (l & Hl & ->).
  assert (Hgen : n ∈ generated h) by (unfold generated; set_solver).
  apply (accounts_update bs σ _ h r _ Ha Hin); [done| |].
  2:{ intros n' Hn'. rewrite lookup_insert_ne; [done|]. intros <-. apply Hn'. by right. }
  apply record_ok_flags; [|done..]. destruct (Hg l) as [Hp Hm]. clear Hg.
  assert (n ≠ r_phy r) by (intros ->; by destruct (plain_phy_generated (r_phy r) h (rk_phy_name _ _ _ Hr))).
  destruct Hr as [K1 K2 K3 K4 K5 K6]. split; try done.
  - assert (n ≠ bridge_name h) by (destruct Hn as [->|[-> _]]; done). by rewrite lookup_insert_ne by done.
  - replace (flag "veth_created" r) with true in *. destruct K5 as (? & ? & u & m & Hmm & K5).
    destruct (g l) as [u' m' p'] eqn:Eg. simpl in *. destruct Hn as [->|[-> Hmas]].
    + rewrite lookup_insert_eq, lookup_insert_ne by done. split_and!; [done..|]. exists u', m'.
      destruct K5 as [[K5 K5']|[K5 K5']]; simplify_eq/=; (split; [destruct Hm as [->| ->]; auto|]); [by left|by right].
    + rewrite lookup_insert_ne, lookup_insert_eq by done. split_and!; [done..|]. exists u, m. split; [done|].
      destruct K5 as [[K5 [v K5']]|[K5 K5']]; [|congruence]. left. split; [done|]. specialize (Hmas l). rewrite Eg in Hmas.
      simplify_eq/=. by eexists.
  - by rewrite lookup_insert_ne by done.
Qed.

Lemma account_same h fs argv :
  Forall (λ f, f ∈ VETH_FLAGS) fs → (∀ o σ σ', sem argv o σ σ' → σ' = σ) → keeps_accounts h ["veth_created"] argv (set_flags fs).
Proof.
  intros Hfs Heff. command_start Hr. premises. rewrite (Heff _ _ _ Hsem).
  apply (accounts_update bs σ _ h r _ Ha Hin); [done|by apply record_ok_flags|done].
Qed.

Lemma account_netns h pid :
  keeps_accounts h ["veth_created"] ["ip"; "link"; "set"; veth_host_name h; "netns"; pid] (set_flags ["veth_host_ns_moved"]).
Proof.
  command_start Hr. premises. destruct (il_netns _ law _ _ _ _ _ Hsem) as ([l Hl] & ->).
  pose proof Hr as [K1 K2 K3 K4 K5 K6]. replace (flag "veth_created" r) with true in K5.
  destruct K5 as (Nr & Nh & u & m & Hm & K5). destruct K5 as [[K5 K5']|[K5 K5']]; [|congruence]. destruct K5' as [v K5'].
  apply (accounts_update bs σ _ h r _ Ha Hin); [done| |].
  2:{ intros n Hn. apply (gone_elsewhere bs σ h r); try done. unfold generated. set_solver. }
  apply record_ok_flags; [|done|repeat constructor; unfold VETH_FLAGS; set_solver]. split; try done.
  - rewrite lookup_gone, decide_False by done. destruct (flag "bridge_created" r).
    + destruct K4 as [? [up ->]]. split; [done|]. by exists up.
    + destruct K4 as [-> ?]. split; [by apply forget_same|done].
  - replace (flag "veth_created" r) with true. split_and!; [done..|]. exists u, (unless (veth_host_name h) m). split.
    { destruct Hm as [->| ->]; [by left|right]. apply unless_other. congruence. }
    right. rewrite !lookup_gone, K5. rewrite decide_False, decide_True by done. simpl. split; [|done].
    unfold forget. simpl. unfold unless at 2. by rewrite bool_decide_eq_true_2.
  - destruct K6 as (up0 & p & up & m' & Hβ & Hσ & Hu & Hm'). rewrite lookup_gone, decide_False by done. rewrite Hσ. simpl.
    exists up0, p, up, m'. split_and!; try done. f_equal. apply forget_other; simpl.
    + destruct Hm' as [->|[_ ->]]; [done|]. congruence.
    + intros ->. destruct (Hclosed _ _ Hβ) as [_ Hp]. destruct (Hp _ eq_refl) as [? ?]. congruence.
Qed.

Lemma account_bridge_del h :
  keeps_accounts h ["bridge_created"] ["ip"; "link"; "del"; bridge_name h] (clear_flags ["bridge_created"; "bridge_up"]).
Proof.
  command_start Hr. premises. destruct (il_del _ law _ _ _ _ Hsem) as (l & Hl & ->).
  destruct Hr as [K1 K2 K3 K4 K5 K6]. replace (flag "bridge_created" r) with true in K4. destruct K4 as [Nb [up K4]].
  rewrite K4 in Hl. injection Hl as <-. simpl.
  apply (accounts_update bs σ _ h r _ Ha Hin); [done|new_record|].
  - rewrite lookup_gone, decide_True by done. done.
  - rewrite !lookup_gone, !(decide_False (P := bridge_name h = _)) by done. destruct (flag "veth_created" r).
    + destruct K5 as (Nr & Nh & u & m & Hm & K5). split_and!; [done..|]. exists u, (unless (bridge_name h) m).
      split; [destruct Hm as [->| ->]; left; [done|]; unfold unless; by rewrite bool_decide_eq_true_2|].
      assert (unless (bridge_name h) (Some (veth_host_name h)) = Some (veth_host_name h)) as E1 by (apply unless_other; congruence).
      assert (unless (bridge_name h) (Some (veth_root_name h)) = Some (veth_root_name h)) as E2 by (apply unless_other; congruence).
      destruct K5 as [[-> [v ->]]|[-> ->]]; [left|right]; (split; [|try by eexists]); cbn [fmap option_fmap option_map]; unfold forget; simpl;
        rewrite ?E1, ?E2; try by eexists.
    + destruct K5 as (-> & -> & ?). split_and!; [by apply forget_same..|by apply no_veth_clear].
  - destruct K6 as (up0 & p & up1 & m & Hβ & Hσ & Hu & Hm). rewrite lookup_gone, decide_False by done. rewrite Hσ. simpl.
    exists up0, p, up1, None. split_and!; try done; [|by left]. f_equal. unfold forget. simpl. f_equal.
    + destruct Hm as [->|[_ ->]]; [done|]. unfold unless. by rewrite bool_decide_eq_true_2.
    + pose proof (forget_closed _ _ _ Hclosed Hβ Nb) as E. unfold forget in E. simpl in E. congruence.
  - intros n Hn. apply (gone_elsewhere bs σ h r); try done. unfold generated. set_solver.
Qed.

(** Deleting a veth pair by its root end. *)
Lemma veth_del_lookup bs σ h r l n :
  accounts bs σ → (h, r) ∈ bs → flag "veth_created" r = true → σ !! veth_root_name h = Some l →
  gone (veth_root_name h) (match l_peer l with Some p => gone p σ | None => σ end) !! n =
    if decide (n = veth_root_name h ∨ n = veth_host_name h) then None else σ !! n.
Proof.
  intros Ha Hin Hv Hl. pose proof (ac_ok _ _ Ha _ _ Hin) as Hr. destruct (record_distinct _ _ _ Hr) as (Dbr & Dbh & Drh & Dpb & Dpr & Dph).
  destruct Hr as [K1 K2 K3 K4 K5 K6]. rewrite Hv in K5. destruct K5 as (Nr & Nh & u & m & Hm & K5).
  destruct (decide _) as [Hn|Hn].
  - rewrite lookup_gone. destruct (decide _) as [|Hne]; [done|]. destruct Hn as [->| ->]; [done|].
    destruct K5 as [[K5 _]|[K5 K5']]; rewrite K5 in Hl; injection Hl as <-; simpl.
    + by rewrite lookup_gone, decide_True by done.
    + by rewrite K5'.
  - assert (Hf : ∀ g x, g = veth_root_name h ∨ g = veth_host_name h → σ !! n = Some x → forget g x = x).
    { intros g x Hg Hx. assert (β !! g = None) as Ng by (by destruct Hg as [->| ->]).
      assert (Hbg : bridge_name h ≠ g) by (by destruct Hg as [->| ->]).
      destruct (decide (n ∈ tracked h r)) as [Hin'|Hout].
      - unfold tracked, generated in Hin'. rewrite !elem_of_cons, elem_of_nil in Hin'. destruct_or! Hin'; subst n; try (by destruct Hn; auto).
        + destruct K6 as (up0 & p & up1 & m' & Hβ & Hσ & Hu & Hm'). rewrite Hσ in Hx. injection Hx as <-.
          pose proof (forget_closed _ _ _ Hclosed Hβ Ng) as E. unfold forget in *. simpl in *. f_equal; [|congruence].
          destruct Hm' as [->|[_ ->]]; [done|]. apply unless_other. congruence.
        + destruct (flag "bridge_created" r); destruct K4 as [K4 K4']; [destruct K4' as [up K4']|].
          * rewrite K4' in Hx. by injection Hx as <-.
          * apply (forget_closed (bridge_name h)); [done|congruence|done].
      - apply (forget_elsewhere bs σ h r g n); try done. unfold generated. set_solver. }
    assert (Hg : ∀ g τ, g = veth_root_name h ∨ g = veth_host_name h → τ !! n = σ !! n → gone g τ !! n = σ !! n).
    { intros g τ Hg E. rewrite lookup_gone, decide_False by naive_solver. rewrite E. destruct (σ !! n) as [x|] eqn:Hx; [|done].
      simpl. f_equal. by apply Hf. }
    apply Hg; [by left|]. destruct K5 as [[K5 _]|[K5 _]]; rewrite K5 in Hl; injection Hl as <-; simpl; [|done]. apply Hg; [by right|done].
Qed.

Lemma account_veth_del h :
  keeps_accounts h ["veth_created"] ["ip"; "link"; "del"; veth_root_name h] (clear_flags VETH_FLAGS).
Proof.
  command_start Hr. premises. destruct (il_del _ law _ _ _ _ Hsem) as (l & Hl & ->).
  assert (Hlk := λ n, veth_del_lookup bs σ h r l n Ha Hin ltac:(done) Hl).
  apply (accounts_update bs σ _ h r _ Ha Hin); [done| |].
  2:{ intros n Hn. rewrite Hlk, decide_False; [done|]. unfold tracked, generated in Hn. set_solver. }
  pose proof Hr as [K1 K2 K3 K4 K5 K6]. replace (flag "veth_created" r) with true in K5. destruct K5 as (Nr & Nh & _).
  new_record; rewrite !Hlk.
  - by rewrite decide_False by naive_solver.
  - rewrite !decide_True by auto. split_and!; [done..|]. apply no_veth_cleared.
  - by rewrite decide_False by naive_solver.
Qed.
End accounts.

(** * The operations keep the accounts *)

Section operations.
Context {W : Type} `{ExtMachine W} `{IpInterface} `{JsonLib} `{FloatRepr}.
Context (view : W → links) (sem : list string → string → links → links → Prop).
Context (commands : commands_law view sem) (law : ip_link_law sem).
Context (β : links) (Hclosed : closed β).

Definition accounted (s : state W) : Prop := accounts β (created s) (view (machine s)).

(** What a finished command did. *)
Definition effect (node : string) (argv : list string) (rc : Z) (out : string) (σ σ' : links) : Prop :=
  if rc =? 0 then if bool_decide (node = ROOT) then sem argv out σ σ' else σ' = σ else σ' = σ.

Lemma run_cmd_spec node argv (s : state W) : ∃ w' r, run_cmd_vec node argv s = (mkState (created s) w', r) ∧
  match r with
  | inl (rc, out, _) => effect node argv rc out (view (machine s)) (view w')
  | inr _ => view w' = view (machine s)
  end.
Proof.
  unfold run_cmd_vec. destruct (run_command node argv (machine s)) as [w' [res|e]] eqn:E; apply commands in E.
  - destruct (fail_closed_rc res) as [rc err]. simpl in E. eexists _, _. split; [reflexivity|]. exact E.
  - eexists _, _. split; [reflexivity|]. exact E.
Qed.

(** ** Discharging a record *)

Lemma elem_of_pop h h' r bs : (h', r) ∈ pop_record h bs ↔ (h', r) ∈ bs ∧ h' ≠ h.
Proof.
  unfold pop_record. rewrite !list_elem_of_In, filter_In. simpl. rewrite negb_true_iff, bool_decide_eq_false. done.
Qed.

Lemma pop_sublist h bs : pop_record h bs `sublist_of` bs.
Proof. unfold pop_record. induction bs as [|hr bs IH]; simpl; [constructor|]. destruct (negb _); by constructor. Qed.

Lemma accounts_pop bs σ h r : accounts β bs σ → (h, r) ∈ bs → outstanding r = false → accounts β (pop_record h bs) σ.
Proof.
  intros Ha Hin Ho. pose proof Ha as [Hh Hp Hok Hrest]. split.
  - eapply sublist_NoDup; [exact Hh|]. apply fmap_sublist, pop_sublist.
  - eapply sublist_NoDup; [exact Hp|]. apply fmap_sublist, fmap_sublist, pop_sublist.
  - intros h' r' [Hin' _]%elem_of_pop. by apply Hok.
  - intros n Hn. destruct (decide (n ∈ tracked h r)) as [Ht|Ht]; [by eapply record_discharged; [apply Hok| |]|].
    apply Hrest. intros h' r' Hin' Hn'. destruct (decide (h' = h)) as [->|Hne].
    + by rewrite (NoDup_fst_fun bs h r' r Hh Hin' Hin) in Hn'.
    + apply (Hn h' r'); [|done]. by apply elem_of_pop.
Qed.

Lemma drop_spec h (s : state W) : accounted s →
  ∃ bs, drop_discharged h s = (mkState bs (machine s), inl ()) ∧ accounts β bs (view (machine s)) ∧
    bs = match find_record h (created s) with
         | Some r => if outstanding r then created s else pop_record h (created s)
         | None => created s
         end.
Proof.
  intros Hs. eexists. split; [reflexivity|]. split; [|reflexivity].
  destruct (find_record h (created s)) as [r|] eqn:E; [|done]. apply find_record_elem in E; [|apply Hs].
  destruct (outstanding r) eqn:Ho; [done|]. by eapply accounts_pop.
Qed.

(** ** Rollback *)

(** Command [argv] takes back what flag [fl] stands for. *)
Definition clears (h phy : string) (argv : list string) (fl : string) (cl : list string) : Prop :=
  ∀ bs σ σ' o r, accounts β bs σ → (h, r) ∈ bs → r_phy r = phy → flag fl r = true → sem argv o σ σ' →
  accounts β (update_record h (clear_flags cl) bs) σ'.

Lemma keeps_clears h phy argv fl cl : keeps_accounts β sem h [fl] argv (clear_flags cl) → clears h phy argv fl cl.
Proof. intros Hk bs σ σ' o r Ha Hin _ Hf Hsem. by eapply Hk; [..|constructor|]. Qed.

Lemma clears_bridge h phy : clears h phy ["ip"; "link"; "del"; bridge_name h] "bridge_created" ["bridge_created"; "bridge_up"].
Proof. apply keeps_clears. by eapply account_bridge_del. Qed.
Lemma clears_bridge_up h phy : clears h phy ["ip"; "link"; "set"; bridge_name h; "down"] "bridge_up" ["bridge_up"].
Proof. apply keeps_clears. by eapply account_bridge_down. Qed.
Lemma clears_veth h phy : clears h phy ["ip"; "link"; "del"; veth_root_name h] "veth_created" VETH_FLAGS.
Proof. apply keeps_clears. by eapply account_veth_del. Qed.
Lemma clears_phy_up h phy : clears h phy ["ip"; "link"; "set"; phy; "down"] "phy_up_changed" ["phy_up_changed"].
Proof. intros bs σ σ' o r Ha Hin Hp Hf Hsem. by eapply account_phy_down. Qed.
Lemma clears_phy_master h phy : clears h phy ["ip"; "link"; "set"; phy; "nomaster"] "phy_enslaved" ["phy_enslaved"].
Proof. intros bs σ σ' o r Ha Hin Hp Hf Hsem. by eapply account_phy_nomaster. Qed.

(** The registered rollbacks: each stands for a flag that is set, and clears no
    flag of the ones after it. *)
Inductive undos_ok (h phy : string) : list undo → list string → Prop :=
  | undos_nil : undos_ok h phy [] []
  | undos_cons u fl us fls :
      clears h phy (u_argv u) fl (u_clear u) → Forall (λ f, f ∉ u_clear u) fls →
      undos_ok h phy us fls → undos_ok h phy (u :: us) (fl :: fls).

Lemma elem_of_updated h f bs r : (h, r) ∈ bs → (h, f r) ∈ update_record h f bs.
Proof. intros Hin. apply elem_of_update. exists r. by rewrite bool_decide_eq_true_2. Qed.

Lemma rollback_accounted h phy us fls (s : state W) r :
  undos_ok h phy us fls → accounted s → (h, r) ∈ created s → r_phy r = phy → Forall (λ f, flag f r = true) fls →
  accounted (rollback h us s).1.
Proof.
  intros Hus. revert s r. induction Hus as [|u fl us fls Hu Hcl Hus IH]; intros s r Hs Hin Hphy Hf; [done|].
  apply Forall_cons in Hf as [Hfl Hf]. cbn [rollback]. unfold mbind at 1, M_bind at 1, try_except at 1.
  unfold run_undo. unfold mbind at 1, M_bind at 1. unfold mbind at 1, M_bind at 1.
  destruct (run_cmd_spec ROOT (u_argv u) s) as (w' & [[[rc out] err]|e] & -> & Heff).
  - unfold effect in Heff. rewrite bool_decide_eq_true_2 in Heff by done. destruct (rc =? 0); simpl.
    + unfold set_created, modify. simpl.
      assert (Hs' : accounted (mkState (update_record h (clear_flags (u_clear u)) (created s)) w')) by (by eapply Hu).
      specialize (IH _ (clear_flags (u_clear u) r) Hs').
      unfold mbind, M_bind. destruct (rollback h us _) as [s2 [rest|e]] eqn:E; simpl in *; apply IH; try done; try by apply elem_of_updated.
      all: rewrite Forall_forall in *; intros f Hin'; rewrite flag_clear, Hf by done; simpl; apply negb_true_iff, bool_decide_eq_false_2; by apply Hcl.
    + assert (Hs' : accounted (mkState (created s) w')) by (unfold accounted; simpl; by rewrite Heff).
      specialize (IH _ r Hs'). unfold mbind, M_bind. destruct (rollback h us _) as [s2 [rest|e]] eqn:E; simpl in *; by apply IH.
  - assert (Hs' : accounted (mkState (created s) w')) by (unfold accounted; simpl; by rewrite Heff).
    destruct (is_exception e); [|done]. specialize (IH _ r Hs'). simpl. unfold mbind, M_bind.
    destruct (rollback h us _) as [s2 [rest|e']] eqn:E; simpl in *; by apply IH.
Qed.

Lemma abort_accounted {A} h phy us fls reason (s : state W) r :
  undos_ok h phy us fls → accounted s → (h, r) ∈ created s → r_phy r = phy → Forall (λ f, flag f r = true) fls →
  accounted (abort (A := A) h reason us s).1.
Proof.
  intros. unfold abort. unfold mbind at 1, M_bind at 1.
  assert (Hr : accounted (rollback h us s).1) by (by eapply rollback_accounted).
  destruct (rollback h us s) as [s1 [fs|e]]; [|done]. simpl in Hr. unfold mbind, M_bind.
  destruct (drop_spec h s1 Hr) as (bs & -> & Hbs & _). done.
Qed.

(** ** The mutations *)

(** A mutation is accounted for once the flags [pre] are set. *)
Definition mutation_ok (h phy : string) (pre : list string) (m : mutation) : Prop :=
  ∀ bs σ σ' o r, accounts β bs σ → (h, r) ∈ bs → r_phy r = phy → Forall (λ f, flag f r = true) pre →
  (if bool_decide (m_node m = ROOT) then sem (m_argv m) o σ σ' else σ' = σ) →
  accounts β (update_record h (set_flags (m_flags m)) bs) σ'.

(** A sequence of mutations, after the flags [pre] are set and the rollbacks [us]
    registered. *)
Inductive mutations_ok (h phy : string) : list string → list undo → list mutation → Prop :=
  | mutations_nil pre us : mutations_ok h phy pre us []
  | mutations_cons pre us m ms :
      mutation_ok h phy pre m →
      (∃ fls, undos_ok h phy us fls ∧ Forall (λ f, f ∈ pre) fls) →
      mutations_ok h phy (m_flags m ++ pre) (option_list (m_undo m) ++ us) ms →
      mutations_ok h phy pre us (m :: ms).

Lemma run_mutations_accounted h phy pre us ms (s : state W) r :
  mutations_ok h phy pre us ms → accounted s → (h, r) ∈ created s → r_phy r = phy → Forall (λ f, flag f r = true) pre →
  accounted (run_mutations h ms us s).1.
Proof.
  intros Hms. revert s r. induction Hms as [|pre us m ms Hm (fls & Hus & Hfls) Hms IH]; intros s r Hs Hin Hphy Hf; [done|].
  cbn [run_mutations]. unfold mbind at 1, M_bind at 1.
  destruct (run_cmd_spec (m_node m) (m_argv m) s) as (w' & [[[rc out] err]|e] & -> & Heff).
  2:{ unfold accounted. simpl. by rewrite Heff. }
  unfold effect in Heff. destruct (rc =? 0); simpl.
  - unfold mbind, M_bind, set_created, modify. simpl. apply (IH _ (set_flags (m_flags m) r)); [|by apply elem_of_updated|done|].
    + by eapply Hm.
    + apply Forall_app. split; apply Forall_forall; intros f Hin'; rewrite flag_set.
      * rewrite (bool_decide_eq_true_2 (f ∈ _)) by done. apply orb_true_r.
      * rewrite Forall_forall in Hf. by rewrite Hf.
  - apply (abort_accounted h phy us fls _ _ r); [done|unfold accounted; simpl; by rewrite Heff|done|done|].
    rewrite Forall_forall in *. intros f Hin'. by apply Hf, Hfls.
Qed.

Lemma mutation_root h phy pre argv reason fs u :
  keeps_accounts β sem h pre argv (set_flags fs) → mutation_ok h phy pre (mkMutation ROOT argv reason fs u).
Proof. intros Hk bs σ σ' o r Ha Hin _ Hpre. rewrite bool_decide_eq_true_2 by done. simpl. intros Hsem. by eapply Hk. Qed.

(** More flags may be set. *)
Lemma mutation_pre h phy pre pre' m : Forall (λ f, f ∈ pre) pre' → mutation_ok h phy pre' m → mutation_ok h phy pre m.
Proof.
  intros Hsub Hm bs σ σ' o r Ha Hin Hp Hf. apply (Hm bs σ σ' o r); [done..|]. rewrite Forall_forall in *. intros f Hin'. by apply Hf, Hsub.
Qed.

Lemma mutation_host h phy argv reason fs u :
  h ≠ ROOT → Forall (λ f, f ∈ VETH_FLAGS) fs → mutation_ok h phy ["veth_created"] (mkMutation h argv reason fs u).
Proof.
  intros Hh Hfs bs σ σ' o r Ha Hin _ Hpre Hs. simpl in Hs. rewrite bool_decide_eq_false_2 in Hs by done. subst σ'.
  apply Forall_cons in Hpre as [Hpre _]. simpl. apply (accounts_update β bs σ _ h r); [done..| |done]. apply record_ok_flags; [|exact Hpre|exact Hfs]. by apply (ac_ok _ _ _ Ha).
Qed.

Lemma mutation_bridge_up h phy reason u :
  mutation_ok h phy ["bridge_created"] (mkMutation ROOT ["ip"; "link"; "set"; bridge_name h; "up"] reason ["bridge_up"] u).
Proof. apply mutation_root. by eapply account_bridge_up. Qed.
Lemma mutation_phy_up h phy reason u : (∃ l, β !! phy = Some l ∧ l_up l = false) →
  mutation_ok h phy [] (mkMutation ROOT ["ip"; "link"; "set"; phy; "up"] reason ["phy_up_changed"] u).
Proof. intros Hl bs σ σ' o r Ha Hin Hp _. rewrite bool_decide_eq_true_2 by done. intros Hsem. by eapply account_phy_up. Qed.
Lemma mutation_phy_master h phy reason u :
  mutation_ok h phy [] (mkMutation ROOT ["ip"; "link"; "set"; phy; "master"; bridge_name h] reason ["phy_enslaved"] u).
Proof. intros bs σ σ' o r Ha Hin Hp _. rewrite bool_decide_eq_true_2 by done. intros Hsem. by eapply account_phy_master. Qed.
Lemma mutation_veth_add h phy reason u :
  mutation_ok h phy [] (mkMutation ROOT ["ip"; "link"; "add"; veth_root_name h; "type"; "veth"; "peer"; "name"; veth_host_name h]
    reason ["veth_created"] u).
Proof. apply mutation_root. by eapply account_veth_add. Qed.
Lemma mutation_veth_master h phy reason u :
  mutation_ok h phy ["veth_created"] (mkMutation ROOT ["ip"; "link"; "set"; veth_root_name h; "master"; bridge_name h]
    reason ["veth_root_mastered"] u).
Proof.
  apply mutation_root. eapply (account_veth_set β sem law Hclosed h _ (veth_root_name h) _ (set_master (Some (bridge_name h)))).
  - repeat constructor; unfold VETH_FLAGS; set_solver.
  - by left.
  - intros l. split; [done|by right].
  - intros o σ σ' Hs. by eapply il_master.
Qed.
Lemma mutation_veth_up h phy n reason fs u :
  n ∈ [veth_root_name h; veth_host_name h] → Forall (λ f, f ∈ VETH_FLAGS) fs →
  mutation_ok h phy ["veth_created"] (mkMutation ROOT ["ip"; "link"; "set"; n; "up"] reason fs u).
Proof.
  intros Hn Hfs. apply mutation_root. eapply (account_veth_set β sem law Hclosed h _ n _ (set_up true)); [done|..].
  - rewrite !elem_of_cons, elem_of_nil in Hn. naive_solver.
  - intros l. split; [done|by left].
  - intros o σ σ' Hs. by eapply il_up.
Qed.
Lemma mutation_netns h phy pid reason u :
  mutation_ok h phy ["veth_created"] (mkMutation ROOT ["ip"; "link"; "set"; veth_host_name h; "netns"; pid] reason ["veth_host_ns_moved"] u).
Proof. apply mutation_root. by eapply account_netns. Qed.
Lemma mutation_mtu h phy n m reason u :
  mutation_ok h phy ["veth_created"] (mkMutation ROOT ["ip"; "link"; "set"; n; "mtu"; m] reason [] u).
Proof. apply mutation_root. apply (account_same β sem law Hclosed); [constructor|]. intros o σ σ' Hs. by eapply il_mtu. Qed.

(** The goals about concrete flags. *)
Ltac decided := apply (bool_decide_eq_true_1 _); vm_compute; reflexivity.
Ltac undo_goals :=
  repeat (apply undos_cons; [first [apply clears_bridge|apply clears_veth|apply clears_phy_up|apply clears_phy_master]|decided|]);
  apply undos_nil.
(** One mutation by its lemma, with the flags its rollbacks stand for. *)
Ltac mutation_by lemma fls :=
  apply mutations_cons; [eapply mutation_pre; [|apply lemma; first [done|decided|by left|by right; left]]; decided|exists fls; split; [undo_goals|decided]|]; simpl.
(** The same, whether or not the interface had to be brought up before. *)
Ltac mutation_with lemma fls :=
  mutation_by lemma fls ||
  (let fls := eval cbn in (removelast fls ++ ["phy_up_changed"; "bridge_created"]) in mutation_by lemma fls).

Lemma mutations_accounted h phy pid ip prior_up mtu :
  h ≠ ROOT → (prior_up = false → ∃ l, β !! phy = Some l ∧ l_up l = false) →
  mutations_ok h phy ["bridge_created"] [undo_del_link "delete bridge" (bridge_name h) ["bridge_created"; "bridge_up"]]
    (mutations h phy (bridge_name h) (veth_root_name h) (veth_host_name h) pid ip prior_up mtu).
Proof.
  intros Hh Hup. unfold mutations. cbn [app].
  mutation_by mutation_bridge_up ["bridge_created"].
  assert (Htail : ∀ pre us fls, undos_ok h phy us fls → Forall (λ f, f ∈ pre) fls → "veth_created" ∈ pre →
    mutations_ok h phy pre us (match mtu with
     | Some m => if m =? 0 then [] else
         [mkMutation ROOT ["ip"; "link"; "set"; bridge_name h; "mtu"; str_Z m] "bridge-mtu failure" [] None;
          mkMutation ROOT ["ip"; "link"; "set"; veth_root_name h; "mtu"; str_Z m] "veth-root-mtu failure" [] None;
          mkMutation h ["ip"; "link"; "set"; veth_host_name h; "mtu"; str_Z m] "veth-host-mtu failure" ["mtu_set"] None]
     | None => []
     end ++ [mkMutation h ["ip"; "addr"; "add"; ip; "dev"; veth_host_name h] "static-ip failure" ["ip_assigned"] None])).
  { intros pre us fls Hus Hfls Hv.
    assert (Hlast : ∀ pre, Forall (λ f, f ∈ pre) fls → "veth_created" ∈ pre → mutations_ok h phy pre us
      [mkMutation h ["ip"; "addr"; "add"; ip; "dev"; veth_host_name h] "static-ip failure" ["ip_assigned"] None]).
    { intros pre' Hfls' Hv'. apply mutations_cons; [|by exists fls|apply mutations_nil].
      eapply mutation_pre; [|by apply mutation_host; [|decided]]. by constructor. }
    destruct mtu as [m|]; [destruct (m =? 0)|]; try by apply Hlast. cbn [app].
    do 2 (apply mutations_cons; [eapply mutation_pre; [|apply mutation_mtu]; by constructor|by exists fls|simpl]).
    apply mutations_cons; [eapply mutation_pre; [|by apply mutation_host; [|decided]]; by constructor|by exists fls|simpl].
    apply Hlast; [|by right]. eapply Forall_impl; [done|]. intros f Hf. by right. }
  destruct prior_up; cbn [app]; [|mutation_by (mutation_phy_up h phy "phy-up failure"
    (Some (undo_set_link "restore phy DOWN" phy "down" ["phy_up_changed"])) (Hup eq_refl)) ["bridge_created"]].
  all: mutation_with mutation_phy_master ["bridge_created"].
  all: mutation_with mutation_veth_add ["phy_enslaved"; "bridge_created"].
  all: mutation_with mutation_veth_master ["veth_created"; "phy_enslaved"; "bridge_created"].
  all: do 2 mutation_with mutation_veth_up ["veth_created"; "phy_enslaved"; "bridge_created"].
  all: mutation_with mutation_netns ["veth_created"; "phy_enslaved"; "bridge_created"].
  all: mutation_with mutation_host ["veth_created"; "phy_enslaved"; "bridge_created"].
  - apply (Htail _ _ ["veth_created"; "phy_enslaved"; "bridge_created"]); [undo_goals|decided|set_solver].
  - apply (Htail _ _ ["veth_created"; "phy_enslaved"; "phy_up_changed"; "bridge_created"]); [undo_goals|decided|set_solver].
Qed.

(** ** Attach *)

(** The checks leave everything as it is. *)
Definition quiet {A} (m : M (state W) A) : Prop := ∀ s,
  created (m s).1 = created s ∧ view (machine (m s).1) = view (machine s).

Lemma quiet_accounted {A} (m : M (state W) A) s : quiet m → accounted s → accounted (m s).1.
Proof. intros Hm Hs. destruct (Hm s) as [Hc Hv]. unfold accounted. by rewrite Hc, Hv. Qed.

Lemma quiet_fail {A} c msg : quiet (fail (A := A) c msg).
Proof. done. Qed.
Lemma quiet_ret {A} (a : A) : quiet (mret a).
Proof. done. Qed.
Lemma quiet_lift {A} (r : res A) : quiet (lift r).
Proof. intros s. unfold lift. by destruct r. Qed.
Lemma quiet_bind {A B} (m : M (state W) A) (f : A → M (state W) B) : quiet m → (∀ a, quiet (f a)) → quiet (m ≫= f).
Proof.
  intros Hm Hf s. unfold mbind, M_bind. specialize (Hm s). destruct (m s) as [s' [a|e]]; [|done]. simpl in Hm.
  destruct (Hf a s') as [-> ->]. done.
Qed.

Lemma quiet_names h phy : quiet (check_names h phy).
Proof.
  unfold check_names. case_bool_decide; [apply quiet_fail|]. apply quiet_bind; [done|]. intros bs.
  case_bool_decide; [apply quiet_fail|]. destruct (phy_owner h phy bs); [apply quiet_fail|apply quiet_ret].
Qed.

Lemma quiet_run argv : (∀ o σ σ', sem argv o σ σ' → σ' = σ) → quiet (run_cmd_vec ROOT argv).
Proof.
  intros Hr s. destruct (run_cmd_spec ROOT argv s) as (w' & [[[rc out] err]|e] & -> & Heff); [|done]. split; [done|]. simpl.
  unfold effect in Heff. rewrite bool_decide_eq_true_2 in Heff by done. destruct (rc =? 0); [by eapply Hr|done].
Qed.

Lemma quiet_addresses phy : quiet (inspect_addresses phy).
Proof.
  apply quiet_bind; [apply quiet_run; intros o σ σ' Hs; by eapply il_addr_show|]. intros [[rc out] err].
  destruct (negb _); [done|]. destruct (json_loads out) as [[| | | | |[|[] ?]|]|]; done.
Qed.

Lemma quiet_link phy : quiet (inspect_link phy).
Proof.
  apply quiet_bind; [apply quiet_run; intros o σ σ' Hs; by apply (il_show _ law) in Hs as [-> _]|]. intros [[rc out] err].
  by destruct (negb _).
Qed.

Lemma quiet_interface phy : quiet (check_interface phy).
Proof.
  apply quiet_bind; [apply quiet_link|]. intros [entry|err]; [|apply quiet_fail].
  cbv zeta. match goal with |- quiet (if ?b then _ else _) => destruct b end; [apply quiet_fail|].
  apply quiet_bind; [apply quiet_addresses|]. intros [addrs|err]; [|apply quiet_fail].
  apply quiet_bind; [apply quiet_lift|]. intros al. apply quiet_bind; [apply quiet_lift|]. intros [a|]; [apply quiet_fail|].
  destruct (get_admin_up entry); [apply quiet_ret|apply quiet_fail].
Qed.

Lemma check_names_ok h phy (s s' : state W) : check_names h phy s = (s', inl ()) →
  s' = s ∧ h ∉ (created s).*1 ∧ (∀ h' r, (h', r) ∈ created s → r_phy r ≠ phy).
Proof.
  unfold check_names. case_bool_decide; [done|]. unfold mbind, M_bind, get. simpl.
  case_bool_decide as Hh; [done|]. destruct (phy_owner h phy (created s)) eqn:E; [done|]. intros [= <-]. split_and!; [done..|].
  intros h' r Hin Hp. unfold phy_owner in E. apply fmap_None in E.
  pose proof (find_none _ _ E (h', r) ltac:(by apply list_elem_of_In)) as Hf. simpl in Hf.
  rewrite bool_decide_eq_true_2 in Hf by done. apply negb_false_iff, bool_decide_eq_true in Hf. subst h'.
  apply Hh, list_elem_of_fmap. by exists (h, r).
Qed.

(** A check that passes read the interface's state. *)
Lemma inspect_link_ok phy (s s' : state W) entry : inspect_link phy s = (s', inl (inl entry)) →
  created s' = created s ∧ view (machine s') = view (machine s) ∧ ∃ l, view (machine s) !! phy = Some l ∧
    (∀ up, get_admin_up entry = Some up → l_up l = up) ∧
    (truthy (get_none entry "master") = false → truthy (get_none entry "bridge") = false → l_master l = None).
Proof.
  unfold inspect_link. unfold mbind, M_bind.
  destruct (run_cmd_spec ROOT ["ip"; "-j"; "link"; "show"; "dev"; phy] s) as (w' & [[[rc out] err]|e] & -> & Heff); [|done].
  unfold effect in Heff. rewrite bool_decide_eq_true_2 in Heff by done. destruct (rc =? 0); simpl; [|done].
  destruct (il_show _ law _ _ _ _ Heff) as (Hv & l & Hl & Hjson).
  destruct (json_loads out) as [[| | | | |[|[| | | | | |d] rest]|]|] eqn:Ej; try done. intros [= <- <-].
  split_and!; [done..|]. exists l. split; [done|]. by apply (Hjson d rest).
Qed.

Lemma check_interface_ok phy (s s' : state W) up : check_interface phy s = (s', inl up) →
  created s' = created s ∧ view (machine s') = view (machine s) ∧
  ∃ p, view (machine s) !! phy = Some (mkLink up None p).
Proof.
  unfold check_interface, runtime_error. intros E. unfold mbind at 1, M_bind at 1 in E.
  destruct (inspect_link phy s) as [s0 [[entry|err]|e]] eqn:Ei; [|done..].
  destruct (inspect_link_ok _ _ _ _ Ei) as (Hc & Hv & l & Hl & Hup & Hmaster).
  destruct (truthy (get_none entry "master")) eqn:Tm; [by rewrite Tm in E|].
  destruct (truthy (get_none entry "bridge")) eqn:Tb; [done|].
  unfold mbind at 1, M_bind at 1 in E. pose proof (quiet_addresses phy s0) as Hq.
  destruct (inspect_addresses phy _) as [s1 [[addrs|err']|e]]; [|done..]. simpl in Hq. destruct Hq as [Hc1 Hv1].
  assert (Hend : s' = s1 ∧ get_admin_up entry = Some up).
  { unfold mbind, M_bind, lift in E. destruct (if truthy addrs then _ else _) as [al|e|]; [|done..].
    destruct (configured_address al) as [[a|]|e|]; [done| |done..]. destruct (get_admin_up entry) as [u|]; [|done].
    by injection E as <- <-. }
  destruct Hend as [-> Hu]. rewrite Hc1, Hv1, Hc, Hv. split_and!; [done..|]. exists (l_peer l). rewrite Hl. f_equal.
  apply Hup in Hu. specialize (Hmaster eq_refl eq_refl). destruct l. by simplify_eq/=.
Qed.

(** A fresh record accounts for nothing. *)
Lemma accounts_push bs σ h phy up p :
  accounts β bs σ → plain_host h → plain_phy phy → h ∉ bs.*1 → (∀ h' r, (h', r) ∈ bs → r_phy r ≠ phy) →
  σ !! phy = Some (mkLink up None p) →
  accounts β (bs ++ [(h, mkRecord (bridge_name h) (veth_root_name h) (veth_host_name h) phy ∅)]) σ.
Proof.
  intros Ha Hh Hp Hnew Hphy Hl. pose proof Ha as [A1 A2 A3 A4]. set (r0 := mkRecord _ _ _ _ _).
  assert (Hsame : ∀ n, n ∈ tracked h r0 → σ !! n = β !! n).
  { intros n Hn. apply A4. intros h' r' Hin' Hn'. pose proof (A3 _ _ Hin') as Hr'. unfold tracked in Hn, Hn'.
    rewrite elem_of_cons in Hn, Hn'. destruct Hn as [->|Hn], Hn' as [E|Hn'].
    - simpl in E. by apply (Hphy h' r').
    - by apply (plain_phy_generated phy h').
    - subst n. apply (plain_phy_generated (r_phy r') h); [apply Hr'|done].
    - apply Hnew. rewrite (generated_inj h h' n Hh (rk_host _ _ _ _ Hr') Hn Hn'). apply list_elem_of_fmap. by exists (h', r'). }
  assert (Hnone : ∀ f, flag f r0 = false) by (intros f; apply bool_decide_eq_false_2; simpl; set_solver).
  split.
  - rewrite fmap_app. apply NoDup_app. split_and!; [done| |apply NoDup_singleton]. intros x Hx. simpl. rewrite list_elem_of_singleton. by intros ->.
  - rewrite !fmap_app. apply NoDup_app. split_and!; [done| |apply NoDup_singleton]. intros x Hx. simpl. rewrite list_elem_of_singleton. intros ->.
    apply list_elem_of_fmap in Hx as (r' & E & Hx). apply list_elem_of_fmap in Hx as ([h' r2] & -> & Hx). by apply (Hphy h' r2).
  - intros h' r' [Hin|Hin]%elem_of_app; [by apply A3|]. apply list_elem_of_singleton in Hin. injection Hin as -> ->.
    split; rewrite ?Hnone; try done.
    + split; [|done]. apply Hsame. unfold tracked, generated. set_solver.
    + split_and!; [apply Hsame; unfold tracked, generated; set_solver..|]. apply Forall_forall. intros f _. apply Hnone.
    + exists up, p, up, None. change (r_phy r0) with phy. rewrite <- (Hsame phy) by (by left). split_and!; try done. by left.
  - intros n Hn. apply A4. intros h' r' Hin. apply Hn. apply elem_of_app. by left.
Qed.

Lemma attach_accounted h phy ip mtu (s : state W) :
  plain_host h → plain_phy phy → accounted s → accounted (attach_external_via_bridge h phy ip mtu s).1.
Proof.
  intros Hh Hp Hs. unfold attach_external_via_bridge.
  assert (Hfail : ∀ msg, accounted (runtime_error (A := ()) msg s).1) by done.
  destruct ip as [ip|]; [|apply Hfail]. destruct ip as [|c ip]; [apply Hfail|]. clear Hfail. set (addr := String c ip).
  unfold mbind at 1, M_bind at 1. unfold lift at 1. destruct (validate_static_ip addr); [|done..].
  unfold mbind at 1, M_bind at 1. destruct (check_names h phy s) as [s0 [u|e]] eqn:En.
  2:{ pose proof (quiet_accounted _ _ (quiet_names h phy) Hs) as Hq. by rewrite En in Hq. }
  destruct u. apply check_names_ok in En as (-> & Hnew & Hphy).
  unfold mbind at 1, M_bind at 1. unfold lift at 1. destruct (get_host h (machine s)) as [found|e|]; [|done..].
  destruct found; [|done]. cbn [negb]. unfold mbind at 1, M_bind at 1.
  destruct (check_interface phy s) as [s1 [up|e]] eqn:Ei.
  2:{ pose proof (quiet_accounted _ _ (quiet_interface phy) Hs) as Hq. by rewrite Ei in Hq. }
  destruct (check_interface_ok _ _ _ _ Ei) as (Hc & Hv & p & Hl).
  unfold mbind at 1, M_bind at 1. change (set_created ?f s1) with (mkState (f (created s1)) (machine s1), inl () : () + exn). cbv zeta beta iota.
  set (r0 := mkRecord _ _ _ _ _). assert (Ha : accounts β (created s1 ++ [(h, r0)]) (view (machine s1))).
  { rewrite Hc, Hv. by eapply accounts_push. }
  assert (Hin : (h, r0) ∈ created s1 ++ [(h, r0)]) by (apply elem_of_app; right; by left).
  unfold mbind at 1, M_bind at 1.
  destruct (run_cmd_spec ROOT ["ip"; "link"; "add"; bridge_name h; "type"; "bridge"] (mkState (created s1 ++ [(h, r0)]) (machine s1)))
    as (w' & [[[rc out] err]|e] & -> & Heff); simpl in Heff.
  2:{ unfold accounted. simpl. by rewrite Heff. }
  unfold effect in Heff. rewrite bool_decide_eq_true_2 in Heff by done. destruct (rc =? 0); cbn [negb].
  - unfold set_created, modify. unfold mbind, M_bind, get. cbn [created machine].
    apply (run_mutations_accounted h phy ["bridge_created"] _ _ _ (set_flags ["bridge_created"] r0)).
    + apply mutations_accounted; [apply Hh|]. intros ->. exists (mkLink false None p). split; [|done]. rewrite <- Hl. symmetry.
      apply (ac_rest _ _ _ Hs). intros h' r' Hin'. unfold tracked. rewrite elem_of_cons. intros [->|Hg]; [by eapply Hphy|].
      by apply (plain_phy_generated phy h').
    + eapply account_bridge_add; [done..|constructor|exact Heff].
    + by apply elem_of_updated.
    + done.
    + constructor; [|constructor]. rewrite flag_set. apply orb_true_r.
  - unfold set_created, modify. unfold mbind, M_bind. cbn [created machine fst snd]. unfold accounted. simpl. rewrite Heff.
    by eapply accounts_pop.
Qed.

(** ** Cleanup *)

(** The records of [bs'] are those of [bs], with fewer flags. *)
Definition shrinks (bs bs' : bridges) : Prop :=
  bs'.*1 ⊆ bs.*1 ∧ ∀ h r', (h, r') ∈ bs' → ∃ r, (h, r) ∈ bs ∧ r_phy r = r_phy r' ∧ r_flags r' ⊆ r_flags r.

Lemma shrinks_refl bs : shrinks bs bs.
Proof. split; [done|]. intros h r Hin. by exists r. Qed.
Lemma shrinks_trans bs1 bs2 bs3 : shrinks bs1 bs2 → shrinks bs2 bs3 → shrinks bs1 bs3.
Proof.
  intros [H12 K12] [H23 K23]. split; [by etrans|]. intros h r3 (r2 & Hin2 & E2 & F2)%K23.
  destruct (K12 h r2 Hin2) as (r1 & ? & ? & ?). exists r1. split_and!; [done|congruence|by etrans].
Qed.
Lemma shrinks_clear h cl bs : shrinks bs (update_record h (clear_flags cl) bs).
Proof.
  split; [by rewrite update_hosts|]. intros h' r' (r & Hin & ->)%elem_of_update. exists r. case_bool_decide; [|done].
  split_and!; [done..|]. simpl. set_solver.
Qed.
Lemma shrinks_pop h bs : shrinks bs (pop_record h bs).
Proof.
  split; [|by intros h' r' [Hin _]%elem_of_pop; exists r'].
  intros x ([h' r'] & -> & [Hin _]%elem_of_pop)%list_elem_of_fmap. apply list_elem_of_fmap. by exists (h', r').
Qed.

Lemma flag_shrinks f r r' : r_flags r' ⊆ r_flags r → flag f r = false → flag f r' = false.
Proof. unfold flag. rewrite !bool_decide_eq_false. set_solver. Qed.

Definition sweep_ok (h phy : string) (sw : sweep) : Prop :=
  clears h phy (s_argv sw) (s_flag sw) (s_clear sw) ∧ s_flag sw ∈ s_clear sw.

Lemma run_sweeps_spec h phy ss (s s' : state W) out :
  Forall (sweep_ok h phy) ss → accounted s → (∀ r, (h, r) ∈ created s → r_phy r = phy) →
  run_sweeps h ss s = (s', out) →
  accounted s' ∧ shrinks (created s) (created s') ∧
  (out = inl [] → ∀ sw r, sw ∈ ss → (h, r) ∈ created s' → flag (s_flag sw) r = false).
Proof.
  intros Hss. revert s s' out. induction Hss as [|sw ss [Hsw Hown] Hss IH]; intros s s' out Hs Hphy.
  - intros [= <- <-]. split_and!; [done|apply shrinks_refl|]. intros _ sw r Hin. by apply elem_of_nil in Hin.
  - cbn [run_sweeps]. unfold get. unfold mbind at 1, M_bind at 1.
    assert (Hstep : ∃ s1 o, (if match find_record h (created s) with Some r => flag (s_flag sw) r | None => false end then
        '(rc, _, err) ← run_cmd_vec ROOT (s_argv sw);
        if negb (rc =? 0) then mret (Some (s_label sw, strip err))
        else set_created (update_record h (clear_flags (s_clear sw))) ≫= λ _, mret None
      else mret None) s = (s1, o) ∧ accounted s1 ∧ shrinks (created s) (created s1) ∧
      (o = inl None → ∀ r, (h, r) ∈ created s1 → flag (s_flag sw) r = false)).
    { destruct (find_record h (created s)) as [r|] eqn:Ef.
      2:{ eexists _, _. split_and!; [done..|apply shrinks_refl|]. intros _ r Hin. apply find_record_elem in Hin; [congruence|apply Hs]. }
      apply find_record_elem in Ef; [|apply Hs]. destruct (flag (s_flag sw) r) eqn:Hf.
      2:{ eexists _, _. split_and!; [done..|apply shrinks_refl|]. intros _ r' Hin. by rewrite (NoDup_fst_fun _ h r' r (ac_hosts _ _ _ Hs) Hin Ef). }
      unfold mbind at 1, M_bind at 1. destruct (run_cmd_spec ROOT (s_argv sw) s) as (w' & [[[rc o] err]|e] & -> & Heff).
      2:{ eexists _, _. split_and!; [done|unfold accounted; simpl; by rewrite Heff|apply shrinks_refl|done]. }
      unfold effect in Heff. rewrite bool_decide_eq_true_2 in Heff by done. destruct (rc =? 0); simpl.
      - eexists _, _. split_and!; [done|by eapply Hsw; [..|by apply Hphy| |]|apply shrinks_clear|]. simpl.
        intros _ r' (r1 & _ & ->)%elem_of_update. rewrite bool_decide_eq_true_2, flag_clear, bool_decide_eq_true_2 by done. apply andb_false_r.
      - eexists _, _. split_and!; [done|unfold accounted; simpl; by rewrite Heff|apply shrinks_refl|done]. }
    destruct Hstep as (s1 & o & E1 & Hs1 & Hsh & Hnone). unfold mbind at 1, M_bind at 1. rewrite E1. clear E1.
    destruct o as [failure|e].
    2:{ intros [= <- <-]. split_and!; done. }
    unfold mbind, M_bind. destruct (run_sweeps h ss s1) as [s2 o2] eqn:E2.
    destruct (IH s1 s2 o2 Hs1) with (2 := E2) as (Hs2 & Hsh2 & Hflags).
    { intros r (r1 & Hin1 & <- & _)%Hsh. by apply Hphy. }
    assert (shrinks (created s) (created s2)) by (by eapply shrinks_trans).
    destruct o2 as [rest|e]; intros [= <- <-]; (split_and!; [done..|]); [|done].
    intros [= Hnil] sw' r. apply app_eq_nil in Hnil as [Hf ->]. destruct failure; [done|].
    rewrite elem_of_cons. intros [->|Hin] Hr; [|by eapply Hflags].
    apply Hsh2 in Hr as (r1 & Hr1 & _ & Hsub). eapply flag_shrinks; [done|]. by apply Hnone.
Qed.

Lemma sweeps_ok h r : r = mkRecord (bridge_name h) (veth_root_name h) (veth_host_name h) (r_phy r) (r_flags r) →
  Forall (sweep_ok h (r_phy r)) (sweeps r).
Proof.
  intros ->. unfold sweeps. cbn [r_veth_root r_phy r_bridge]. repeat apply Forall_cons_2; [..|apply Forall_nil_2]; (split; [|decided]).
  - apply clears_veth.
  - apply clears_phy_master.
  - apply clears_phy_up.
  - apply clears_bridge_up.
  - apply clears_bridge.
Qed.

(** When no sweep is left to do, nothing is outstanding. *)
Lemma swept σ h r r0 : record_ok β σ h r → (∀ sw, sw ∈ sweeps r0 → flag (s_flag sw) r = false) → outstanding r = false.
Proof.
  intros Hr Hsw.
  assert (Hmain : Forall (λ f, flag f r = false) ["veth_created"; "phy_enslaved"; "phy_up_changed"; "bridge_up"; "bridge_created"]).
  { change (Forall (λ f, flag f r = false) (s_flag <$> sweeps r0)). apply Forall_fmap, Forall_forall. done. }
  destruct Hr as [_ _ _ _ Rv _]. rewrite Forall_forall in Hmain. rewrite (Hmain "veth_created") in Rv by (by left).
  destruct Rv as (_ & _ & Hno). unfold no_veth in Hno. rewrite Forall_forall in Hno.
  unfold outstanding. apply not_true_iff_false. intros (f & Hf & E)%existsb_exists. apply list_elem_of_In in Hf.
  unfold OUTSTANDING_FLAGS in Hf. apply elem_of_app in Hf as [Hf|Hf]; [|rewrite Hno in E; done].
  rewrite Hmain in E; [done|]. set_solver.
Qed.

Lemma clean_records_spec snapshot (s s' : state W) out :
  accounted s →
  (∀ h r0, (h, r0) ∈ snapshot → r0 = mkRecord (bridge_name h) (veth_root_name h) (veth_host_name h) (r_phy r0) (r_flags r0)
     ∧ ∀ r, (h, r) ∈ created s → r_phy r = r_phy r0) →
  clean_records snapshot s = (s', out) →
  accounted s' ∧ shrinks (created s) (created s') ∧ (out = inl [] → ∀ h, h ∈ (created s').*1 → h ∉ snapshot.*1).
Proof.
  revert s s' out. induction snapshot as [|[h r0] snapshot IH]; intros s s' out Hs Hsnap.
  - intros [= <- <-]. split_and!; [done|apply shrinks_refl|]. intros _ h _. apply not_elem_of_nil.
  - cbn [clean_records]. unfold mbind at 1, M_bind at 1. destruct (Hsnap h r0) as [Hname Hphy]; [by left|].
    destruct (run_sweeps h (sweeps r0) s) as [s1 o1] eqn:E1.
    destruct (run_sweeps_spec h (r_phy r0) _ _ _ _ (sweeps_ok h r0 Hname) Hs Hphy E1) as (Hs1 & Hsh1 & Hf1).
    destruct o1 as [failures|e]; [|by intros [= <- <-]].
    unfold mbind at 1, M_bind at 1. destruct (drop_spec h s1 Hs1) as (bs & -> & Hbs & Edef).
    assert (Hsh : shrinks (created s1) bs).
    { subst bs. destruct (find_record h (created s1)) as [r|]; [destruct (outstanding r)|]; auto using shrinks_refl, shrinks_pop. }
    unfold mbind, M_bind. destruct (clean_records snapshot (mkState bs (machine s1))) as [s2 o2] eqn:E2.
    destruct (IH (mkState bs (machine s1)) s2 o2 Hbs) with (2 := E2) as (Hs2 & Hsh2 & Hf2).
    { intros h' r1 Hin. destruct (Hsnap h' r1) as [Hn Hp]; [by right|]. split; [done|]. intros r Hr. simpl in Hr.
      apply Hsh in Hr as (r2 & Hr & <- & _). apply Hsh1 in Hr as (r3 & Hr & <- & _). by apply Hp. }
    simpl in Hsh2. assert (shrinks (created s) (created s2)) by (eauto using shrinks_trans).
    destruct o2 as [rest|e]; intros [= <- <-]; (split_and!; [done..|]); [|done].
    intros [= Hnil] h' Hh'. apply app_eq_nil in Hnil as [-> ->]. simpl. apply not_elem_of_cons. split; [|by apply Hf2].
    intros ->. apply Hsh2 in Hh'. assert (Hno : h ∉ bs.*1); [|done]. subst bs.
    destruct (find_record h (created s1)) as [r|] eqn:Efind.
    + apply find_record_elem in Efind; [|apply Hs1].
      rewrite (swept (view (machine s1)) h r r0); [|by apply (ac_ok _ _ _ Hs1)|intros sw Hsw; by apply Hf1].
      intros ([h1 r1] & E & Hin)%list_elem_of_fmap. simpl in E. subst h1. by apply elem_of_pop in Hin as [_ ?].
    + intros ([h1 r1] & E & Hin)%list_elem_of_fmap. simpl in E. subst h1. apply find_record_elem in Hin; [congruence|apply Hs1].
Qed.

Lemma cleanup_spec (s s' : state W) out :
  accounted s → cleanup_external_bridges s = (s', out) → accounted s' ∧ (out = inl () → created s' = []).
Proof.
  intros Hs. unfold cleanup_external_bridges, get. unfold mbind at 1, M_bind at 1. unfold mbind, M_bind.
  destruct (clean_records (created s) s) as [s1 o] eqn:E.
  destruct (clean_records_spec (created s) s s1 o Hs) with (2 := E) as (Hs1 & Hsh & Hf).
  { intros h r0 Hin. split; [by apply (ac_ok _ _ _ Hs _ _ Hin)|]. intros r Hr. by rewrite (NoDup_fst_fun _ h r r0 (ac_hosts _ _ _ Hs) Hr Hin). }
  destruct o as [[|f fs]|e]; intros [= <- <-]; (split; [done|]); [|done..]. intros _.
  destruct (created s1) as [|[h r] bs] eqn:Ec; [done|]. exfalso. apply (Hf eq_refl h); [by left|].
  apply Hsh. by left.
Qed.

(** ** Sessions *)

(** A program's use of the module: calls whose exceptions it may catch. *)
Inductive ext_call :=
  | Attach (host phy : string) (ip : option string) (mtu : option Z)
  | Cleanup.

Definition run_call (c : ext_call) : M (state W) () :=
  match c with
  | Attach host phy ip mtu => attach_external_via_bridge host phy ip mtu
  | Cleanup => cleanup_external_bridges
  end.

Definition run_calls (cs : list ext_call) (s : state W) : state W := foldl (λ s c, (run_call c s).1) s cs.

Definition plain_call (c : ext_call) : Prop :=
  match c with Attach host phy _ _ => plain_host host ∧ plain_phy phy | Cleanup => True end.

Lemma calls_accounted cs (s : state W) : Forall plain_call cs → accounted s → accounted (run_calls cs s).
Proof.
  intros Hcs. revert s. induction Hcs as [|c cs Hc Hcs IH]; intros s Hs; [done|]. apply IH. destruct c as [h phy ip mtu|].
  - destruct Hc. by apply attach_accounted.
  - simpl. destruct (cleanup_external_bridges s) as [s' o] eqn:E. by destruct (cleanup_spec s s' o Hs E).
Qed.
End operations.

(** C9: attaching external interfaces is transactional. Let a program attach and
    clean up in any order, with any command failing or raising on the way, and
    the exceptions caught or not. Whenever the records are empty - after a failed
    attach whose rollback succeeded, say - every interface of the root namespace
    is as it was found: no bridge and no veth pair is left, and the physical
    interfaces have their administrative state and no bridge again. And whenever
    a cleanup returns, the records are empty: what could not be taken back stays
    recorded until it is. *)
Theorem external_restored `{ExtMachine W} `{IpInterface} `{JsonLib} `{FloatRepr} (view : W → links) sem cs w s :
  commands_law view sem → ip_link_law sem → closed (view w) → Forall plain_call cs →
  s = run_calls cs (mkState [] w) →
  (created s = [] → view (machine s) = view w) ∧
  ∀ s', cleanup_external_bridges s = (s', inl ()) → created s' = [] ∧ view (machine s') = view w.
Proof.
  intros Hcmd Hlaw Hcl Hcs ->.
  assert (Hinit : accounted view (view w) (mkState [] w)).
  { split; [constructor..| |done]. intros h r Hin. by apply elem_of_nil in Hin. }
  pose proof (calls_accounted view sem Hcmd Hlaw (view w) Hcl cs _ Hcs Hinit) as Hs.
  assert (Hnil : ∀ s, accounted view (view w) s → created s = [] → view (machine s) = view w).
  { intros s' Ha E. apply accounts_nil. unfold accounted in Ha. by rewrite E in Ha. }
  split; [by apply Hnil|]. intros s' E.
  destruct (cleanup_spec view sem Hcmd Hlaw (view w) Hcl _ _ _ Hs E) as [Hs' Hc]. split; [by apply Hc|]. apply Hnil; auto.
Qed.

(** ** A machine for the examples *)

(** The interfaces, and the commands that fail the next time they are run. *)
Record toy := mkToy { toy_links : links; toy_failing : list (list string) }.

Definition on_link (n : string) (σ : links) (f : link → link) : option (string * links) :=
  l ← σ !! n; Some ("", <[n := f l]> σ).

Definition toy_show (l : link) : string :=
  match l_master l with Some _ => "slave" | None => if l_up l then "up" else "down" end.

Definition toy_eval (argv : list string) (σ : links) : option (string * links) :=
  match argv with
  | [_; _; _; n] => l ← σ !! n; Some ("", gone n (match l_peer l with Some p => gone p σ | None => σ end))
  | [_; _; _; n; x] =>
      on_link n σ (if bool_decide (x = "up") then set_up true else if bool_decide (x = "down") then set_up false else set_master None)
  | [_; a; b; n; d; e] =>
      if bool_decide (a = "-j") then
        if bool_decide (b = "link") then l ← σ !! e; Some (toy_show l, σ) else Some ("", σ)
      else if bool_decide (b = "add") then
        match σ !! n with Some _ => None | None => Some ("", <[n := mkLink false None None]> σ) end
      else if bool_decide (d = "master") then on_link n σ (set_master (Some e))
      else if bool_decide (d = "netns") then match σ !! n with Some _ => Some ("", gone n σ) | None => None end
      else Some ("", σ)
  | [_; _; _; n; _; _; _; _; p] =>
      match σ !! n, σ !! p with
      | None, None => if bool_decide (n = p) then None
                      else Some ("", <[n := mkLink false None (Some p)]> (<[p := mkLink false None (Some n)]> σ))
      | _, _ => None
      end
  | _ => None
  end.

Definition toy_run (node : string) (argv : list string) (w : toy) : toy * (CommandResult + exn) :=
  let ok out w := (w, inl (mkCommandResult (Some 0) out "" false false None)) in
  if bool_decide (argv ∈ toy_failing w) then
    (mkToy (toy_links w) (List.filter (λ a, negb (bool_decide (a = argv))) (toy_failing w)),
     inl (mkCommandResult (Some 2) "" "RTNETLINK answers: Device or resource busy" false false None))
  else if bool_decide (node = ROOT) then
    match toy_eval argv (toy_links w) with
    | Some (out, σ) => ok out (mkToy σ (toy_failing w))
    | None => (w, inl (mkCommandResult (Some 1) "" "Cannot find device" false false None))
    end
  else ok "" w.

#[local] Instance toy_machine : ExtMachine toy := {|
  run_command := toy_run;
  get_host _ _ := Ok true;
  host_pid _ _ := "4242";
|}.
#[local] Instance toy_ip : IpInterface := λ _, None.
#[local] Instance toy_repr : FloatRepr := λ _, "".
#[local] Instance toy_json : JsonLib := λ o,
  let flags l := PList [PDict [(PStr "flags", PList l)]] in
  if bool_decide (o = "up") then inl (flags [PStr "BROADCAST"; PStr "UP"])
  else if bool_decide (o = "down") then inl (flags [PStr "BROADCAST"])
  else if bool_decide (o = "slave") then inl (PList [PDict [(PStr "master", PStr "br0")]])
  else inl (PList []).

Definition toy_sem (argv : list string) (out : string) (σ σ' : links) : Prop := toy_eval argv σ = Some (out, σ').

Lemma toy_law : ip_link_law toy_sem.
Proof.
  assert (Hon : ∀ n σ f o σ', on_link n σ f = Some (o, σ') → ∃ l, σ !! n = Some l ∧ σ' = <[n := f l]> σ).
  { intros n σ f o σ' E. unfold on_link in E. apply bind_Some in E as (l & Hl & E). injection E as _ <-. by exists l. }
  split; unfold toy_sem; intros *.
  - intros E. cbn in E. destruct (σ !! n) eqn:Hn; [done|]. injection E as _ <-. split; [done|]. by exists (mkLink false None None).
  - intros E. cbn in E. destruct (σ !! n) eqn:Hn, (σ !! p) eqn:Hp; try done. case_bool_decide; [done|]. injection E as _ <-.
    split_and!; [done..|]. by exists false, false.
  - apply Hon.
  - apply Hon.
  - apply Hon.
  - apply Hon.
  - intros E. cbn in E. destruct (σ !! n) eqn:Hn; [|done]. injection E as _ <-. by split.
  - intros E. cbn in E. by injection E as _ <-.
  - intros E. cbn in E. apply bind_Some in E as (l & Hl & E). injection E as _ <-. by exists l.
  - intros E. cbn in E. by injection E as _ <-.
  - intros E. cbn in E. apply bind_Some in E as (l & Hl & E). injection E as <- <-. split; [done|]. exists l. split; [done|].
    intros entry rest. unfold json_loads, toy_json, toy_show. destruct l as [[] [m|] p]; cbn; intros [= <- <-]; split; try done;
      cbn; by intros ? [= <-].
Qed.

Lemma toy_commands : commands_law toy_links toy_sem.
Proof.
  intros node argv w w' r. cbn [run_command toy_machine]. unfold toy_run. case_bool_decide as Hf; [by intros [= <- <-]|].
  case_bool_decide as Hr; [|by intros [= <- <-]].
  destruct (toy_eval argv (toy_links w)) as [[out σ]|] eqn:E; intros [= <- <-]; done.
Qed.

(** The host's address cannot be set, and the rollback cannot delete the bridge at
    first. *)
Definition toy_start : toy :=
  mkToy {["eth1" := mkLink false None None]}
    [["ip"; "addr"; "add"; "10.0.0.2/24"; "dev"; "veth-h1"]; ["ip"; "link"; "del"; "br-h1"]].
Definition toy_calls : list ext_call := [Attach "h1" "eth1" (Some "10.0.0.2/24") (Some 1400)].
Definition toy_after : state toy := run_calls toy_calls (mkState [] toy_start).

Lemma toy_closed : closed (toy_links toy_start).
Proof. intros n l. simpl. intros [<- <-]%lookup_singleton_Some. by split. Qed.
Lemma toy_plain : Forall plain_call toy_calls.
Proof. apply Forall_cons_2; [|apply Forall_nil_2]. by split; split. Qed.

Example toy_outstanding :
  (λ hr, (hr.1, elements (r_flags hr.2))) <$> created toy_after = [("h1", ["bridge_created"; "bridge_up"])].
Proof. vm_compute. reflexivity. Qed.

Lemma external_restored_witness :
  ∃ s', cleanup_external_bridges toy_after = (s', inl ()) ∧ created s' = [] ∧ toy_links (machine s') = toy_links toy_start.
Proof.
  eexists. split; [vm_compute; reflexivity|].
  apply (proj2 (external_restored toy_links toy_sem toy_calls toy_start toy_after toy_commands toy_law
    toy_closed toy_plain eq_refl)).
  vm_compute. reflexivity.
Defined.
