(* ===== verification/CefArgv.v ===== *)
(** Component: argument vectors of the Cefore tools (src/runtime/cef_argv.py).
    Option values are configuration values, printed with [str]; [None] leaves an
    option out. *)
From S2P Require Import Prelude PyValue PyString.
Local Open Scope Z_scope.

Section argv.
Context `{FloatRepr}.

(** [_build_argv]. *)
Definition opt_argv (fv : string * pv) : list string :=
  if is_none fv.2 then [] else [fv.1; py_str fv.2].
Definition build_argv (command : string) (head : list string) (opts : list (string * pv))
    (node_name : string) : list string :=
  command :: head ++ (opts ≫= opt_argv) ++ ["-d"; "./" +s+ node_name].

(** The options of [cefputfile], as keyword arguments. *)
Definition build_cefputfile_argv (uri file_path node_name : string)
    (rate block_size expiry cache_time valid_algo port_num : pv) : list string :=
  build_argv "cefputfile" [uri; "-f"; file_path]
    [("-r", rate); ("-b", block_size); ("-e", expiry); ("-t", cache_time); ("-v", valid_algo); ("-p", port_num)]
    node_name.

Definition build_cefgetfile_argv (uri output_path node_name : string)
    (owner_only chunk pipeline valid_algo port_num sg : pv) : list string :=
  build_argv "cefgetfile" ([uri; "-f"; output_path] ++ if truthy owner_only then ["-o"] else [])
    [("-m", chunk); ("-s", pipeline); ("-v", valid_algo); ("-p", port_num);
     ("-z", if truthy sg then PStr "sg" else PNone)]
    node_name.

Definition build_cefsubfile_argv (uri node_name : string)
    (output_path pipeline ri_valid_algo td_valid_algo port_num : pv) : list string :=
  build_argv "cefsubfile" [uri]
    [("-f", output_path); ("-s", pipeline); ("-v_RI", ri_valid_algo); ("-v_TD", td_valid_algo); ("-p", port_num)]
    node_name.

Definition build_ccninfo_argv (uri node_name : string)
    (cache_info owner_only hop_count skip_hop valid_algo port_num : pv) : list string :=
  build_argv "ccninfo"
    (uri :: (if truthy cache_info then ["-c"] else []) ++ (if truthy owner_only then ["-o"] else []))
    [("-r", hop_count); ("-s", skip_hop); ("-v", valid_algo); ("-p", port_num)]
    node_name.

Definition build_cefpubfile_argv (uri file_path node_name : string)
    (rate block_size expiry cache_time lifetime retry_limit target ti_valid_algo rd_valid_algo port_num : pv)
    : list string :=
  build_argv "cefpubfile" [uri; "-f"; file_path]
    [("-r", rate); ("-b", block_size); ("-e", expiry); ("-t", cache_time); ("-l", lifetime);
     ("-m", retry_limit); ("-z", target); ("-v_TI", ti_valid_algo); ("-v_RD", rd_valid_algo); ("-p", port_num)]
    node_name.

End argv.
