(* ===== verification/PyText.v ===== *)
(** Reading text: lines, partition, the first word, and [float] of a string. *)
From S2P Require Import Prelude PyValue PyString PyNum.
Local Open Scope Z_scope.

(** * Lines *)

(** The ASCII characters [str.splitlines] breaks at. *)
Definition is_break (c : ascii) : bool :=
  let n := code c in ((10 <=? n) && (n <=? 13) || (28 <=? n) && (n <=? 30))%N.

Definition carriage_return : ascii := Ascii.ascii_of_N 13.
Definition line_feed : ascii := Ascii.ascii_of_N 10.

(** [s.splitlines()]; a carriage return and a line feed are one break. *)
Fixpoint splitlines (s : string) : list string :=
  match s with
  | EmptyString => []
  | String c s1 =>
      if is_break c then
        EmptyString :: match s1 with
                       | String d s2 => if bool_decide (c = carriage_return) && bool_decide (d = line_feed)
                                        then splitlines s2 else splitlines s1
                       | EmptyString => []
                       end
      else match s1 with
           | EmptyString => [String c EmptyString]
           | String d _ => if is_break d then String c EmptyString :: tail (splitlines s1)
                           else match splitlines s1 with
                                | l :: ls => String c l :: ls
                                | [] => [String c EmptyString]
                                end
           end
  end.

(** [s.partition(sep)] for a character: what is before the first one and, if there
    is one, what is after it. *)
Fixpoint partition (sep : ascii) (s : string) : string * option string :=
  match s with
  | EmptyString => (EmptyString, None)
  | String c s => if decide (c = sep) then (EmptyString, Some s)
                  else let '(a, b) := partition sep s in (String c a, b)
  end.

Definition not_space (c : ascii) : bool := negb (is_space c).

(** [s.split(None, 1)] when it has two parts. *)
Definition split_word (s : string) : option (string * string) :=
  let '(w, rest) := span not_space (lstrip s) in
  match w, lstrip rest with
  | EmptyString, _ | _, EmptyString => None
  | w, rest => Some (w, rest)
  end.

(** [s.isascii() and s.isdigit()]. *)
Definition is_digits (s : string) : bool := negb (bool_decide (s = "")) && all_chars is_digit s.

(** [int(s)] of digits: CPython refuses more than 4300 of them. *)
Definition int_of_digits (s : string) : option Z :=
  if (4300 <? String.length s)%nat then None else Some (Z.of_N (digits_val 0 s)).

(** * Floats *)

(** Digits with single underscores between them: the number they continue, how
    many there are, and the rest. *)
Fixpoint digit_run (s : string) (acc : N) (n : nat) : N * nat * string :=
  match s with
  | EmptyString => (acc, n, EmptyString)
  | String c s' =>
      if is_digit c then digit_run s' (10 * acc + (code c - 48)) (S n)
      else match n, s' with
           | S _, String d _ => if (code c =? 95)%N && is_digit d then digit_run s' acc n else (acc, n, s)
           | _, _ => (acc, n, s)
           end
  end.

(** An optional sign: is it a minus? *)
Definition sign (s : string) : bool * string :=
  match s with
  | String c s' => if (code c =? 45)%N then (true, s') else if (code c =? 43)%N then (false, s') else (false, s)
  | EmptyString => (false, s)
  end.

(** The exponent part. *)
Definition exponent (s : string) : option Z :=
  match s with
  | EmptyString => Some 0
  | String c s =>
      if ((code c =? 101) || (code c =? 69))%N then
        let '(neg, s) := sign s in
        match digit_run s 0 0 with
        | (e, S _, EmptyString) => Some (if neg then - Z.of_N e else Z.of_N e)
        | _ => None
        end
      else None
  end.

(** The double nearest to [m * 10^e]. *)
Definition double_of_decimal (m e : Z) : pyfloat :=
  if 0 <=? e then double_of_ratio (m * 10 ^ e) 1 else double_of_ratio m (10 ^ (- e)).

(** [float(s)]; [None] is its [ValueError]. *)
Definition float_of_string (s : string) : option pyfloat :=
  let '(neg, s) := sign (strip s) in
  if bool_decide (lower s ∈ ["inf"; "infinity"]) then Some (FInf neg)
  else if bool_decide (lower s = "nan") then Some FNaN
  else
    let '(m, ni, s) := digit_run s 0 0 in
    let '(m, nf, s) := match s with
                       | String c s' => if (code c =? 46)%N then digit_run s' m 0 else (m, O, s)
                       | EmptyString => (m, O, s)
                       end in
    match (ni + nf)%nat, exponent s with
    | S _, Some e => let x := double_of_decimal (Z.of_N m) (e - Z.of_nat nf) in Some (if neg then float_neg x else x)
    | _, _ => None
    end.

(** [math.isfinite(x)] of a float. *)
Definition is_finite (x : pyfloat) : bool := match x with FFin _ _ => true | _ => false end.

(** [int(v)] and [float(v)] of a value. *)
Definition bad_number {A} (f : string) (v : pv) : res A :=
  match v with
  | PStr s => raise EValueError ("could not convert string to " +s+ f +s+ ": " +s+ repr_str s)
  | _ => raise ETypeError (f +s+ "() argument must be a string or a real number")
  end.
Definition py_int (v : pv) : res Z :=
  match v with
  | PInt z => Ok z
  | PBool b => Ok (Z.b2z b)
  | PFloat (FFin m e) => Ok (Z.quot (m * pow_num e) (pow_den e))
  | PFloat FNaN => raise EValueError "cannot convert float NaN to integer"
  | PFloat (FInf _) => raise EOverflowError "cannot convert float infinity to integer"
  | PStr s => match int_of_string s with Some z => Ok z | None => bad_number "int" v end
  | _ => bad_number "int" v
  end.
Definition py_float (v : pv) : res pyfloat :=
  match v with
  | PInt z => float_of_int z
  | PBool b => float_of_int (Z.b2z b)
  | PFloat f => Ok f
  | PStr s => match float_of_string s with Some f => Ok f | None => bad_number "float" v end
  | _ => bad_number "float" v
  end.

Example float_ex : float_eq (FFin 101 (-3)) <$> float_of_string " 12.625 " = Some true.
Proof. vm_compute. reflexivity. Qed.
Example float_exp_ex : float_eq (FFin (-1) 0) <$> float_of_string "-1_0e-1" = Some true.
Proof. vm_compute. reflexivity. Qed.
Example float_bad_ex : float_of_string <$> ["1__0"; "1."; ".5"; "."; "0x1"; "1e"; "nan"] =
  [None; Some (FFin 4503599627370496 (-52)); Some (FFin 4503599627370496 (-53)); None; None; None; Some FNaN].
Proof. vm_compute. reflexivity. Qed.
Example splitlines_ex : splitlines ("a" +s+ String carriage_return (String line_feed ("b" +s+ String line_feed (String line_feed "c")))) = ["a"; "b"; ""; "c"].
Proof. vm_compute. reflexivity. Qed.

(** * Lemmas *)

Definition no_breaks (s : string) : bool := all_chars (λ c, negb (is_break c)) s.

(** The lines of a text that ends every line with a line feed. *)
Fixpoint unlines (ls : list string) : string :=
  match ls with [] => "" | l :: ls => l +s+ String line_feed (unlines ls) end.

Lemma splitlines_feed s : splitlines (String line_feed s) = "" :: splitlines s.
Proof. destruct s; reflexivity. Qed.

Lemma splitlines_line l s : no_breaks l = true → splitlines (l +s+ String line_feed s) = l :: splitlines s.
Proof.
  induction l as [|c l IH]; intros Hl; [apply splitlines_feed|]. unfold no_breaks in Hl. simpl in Hl. apply andb_true_iff in Hl as [Hc Hl].
  specialize (IH Hl). apply negb_true_iff in Hc. change (String c l +s+ String line_feed s) with (String c (l +s+ String line_feed s)).
  cbn [splitlines]. rewrite Hc. destruct l as [|d l].
  - change ("" +s+ String line_feed s) with (String line_feed s). change (is_break line_feed) with true. cbv iota beta.
    by rewrite splitlines_feed.
  - change (String d l +s+ String line_feed s) with (String d (l +s+ String line_feed s)) in *. simpl in Hl. apply andb_true_iff in Hl as [Hd _]. apply negb_true_iff in Hd. by rewrite Hd, IH.
Qed.

Lemma splitlines_unlines ls : Forall (λ l, no_breaks l = true) ls → splitlines (unlines ls) = ls.
Proof. induction 1 as [|l ls Hl Hls IH]; [done|]. cbn [unlines]. by rewrite splitlines_line, IH. Qed.

Lemma partition_app sep a b : all_chars (λ c, negb (bool_decide (c = sep))) a = true → partition sep (a +s+ String sep b) = (a, Some b).
Proof.
  induction a as [|c a IH]; simpl; [by rewrite decide_True by done|]. intros [Hc Ha]%andb_true_iff.
  apply negb_true_iff, bool_decide_eq_false in Hc. rewrite decide_False by done. by rewrite IH.
Qed.

Lemma lstrip_nonspace c s : is_space c = false → lstrip (String c s) = String c s.
Proof. intros Hc. simpl. by rewrite Hc. Qed.

(** A text without surrounding spaces is kept by [strip], also when spaces are put
    around it. *)
Definition trimmed (s : string) : Prop := strip s = s ∧ s ≠ "".

Lemma rstrip_lstrip s : trimmed s → lstrip s = s ∧ rstrip s = s.
Proof.
  intros [Hs Hne]. assert (Hlen : ∀ t, (String.length (lstrip t) <= String.length t)%nat).
  { induction t as [|c t IH]; simpl; [lia|]. destruct (is_space c); simpl; lia. }
  assert (Hrlen : ∀ t, (String.length (rstrip t) <= String.length t)%nat).
  { induction t as [|c t IH]; simpl; [lia|]. destruct (rstrip t) as [|d r]; [destruct (is_space c); simpl; lia|]. simpl in *. lia. }
  destruct s as [|c s]; [done|]. destruct (is_space c) eqn:Hc.
  - exfalso. apply (f_equal String.length) in Hs. unfold strip in Hs. simpl in Hs. rewrite Hc in Hs.
    specialize (Hrlen (lstrip s)). specialize (Hlen s). lia.
  - unfold strip in Hs. rewrite lstrip_nonspace in Hs by done. by rewrite lstrip_nonspace.
Qed.

Lemma strip_space_l c s : is_space c = true → strip (String c s) = strip s.
Proof. intros Hc. unfold strip. simpl. by rewrite Hc. Qed.

Lemma rstrip_app_space s c : is_space c = true → rstrip (s +s+ String c "") = rstrip s.
Proof. intros Hc. induction s as [|d s IH]; simpl; [by rewrite Hc|]. by rewrite IH. Qed.

Lemma rstrip_trimmed_app a s : trimmed s → rstrip (a +s+ s) = a +s+ s.
Proof.
  intros Hs. destruct (rstrip_lstrip s Hs) as [_ Hr]. destruct Hs as [_ Hne].
  induction a as [|c a IH]; [done|]. change (String c a +s+ s) with (String c (a +s+ s)). simpl. rewrite IH.
  destruct (a +s+ s) eqn:E; [|done]. destruct a; [by destruct s|done].
Qed.

Lemma trimmed_app a c b : is_space c = false → trimmed b → trimmed (String c (a +s+ b)).
Proof.
  intros Hc Hb. split; [|done]. unfold strip. rewrite lstrip_nonspace by done.
  apply (rstrip_trimmed_app (String c a) b Hb).
Qed.

Lemma all_chars_append p a b : all_chars p (a +s+ b) = all_chars p a && all_chars p b.
Proof.
  induction a as [|c a IH]; [done|]. change (String c a +s+ b) with (String c (a +s+ b)). simpl. by rewrite IH, andb_assoc.
Qed.

Lemma no_breaks_app a b : no_breaks (a +s+ b) = no_breaks a && no_breaks b.
Proof. apply all_chars_append. Qed.

Lemma digit_not_space c : is_digit c = true → is_space c = false.
Proof. unfold is_digit, is_space. cbn zeta. intros Hd. repeat (rewrite ?andb_true_iff, ?orb_true_iff, ?N.leb_le in Hd). destruct Hd. apply orb_false_iff. rewrite !andb_false_iff, !N.leb_gt. lia. Qed.
Lemma strip_nonspace s : all_chars not_space s = true → strip s = s.
Proof.
  assert (Hr : ∀ t, all_chars not_space t = true → rstrip t = t).
  { induction t as [|c t IH]; [done|]. simpl. intros [Hc Ht]%andb_true_iff. rewrite (IH Ht). unfold not_space in Hc.
    apply negb_true_iff in Hc. destruct t; [by rewrite Hc|done]. }
  intros Hs. unfold strip. destruct s as [|c s]; [done|]. assert (Hc := Hs). simpl in Hc. apply andb_true_iff in Hc as [Hc _].
  unfold not_space in Hc. apply negb_true_iff in Hc. rewrite lstrip_nonspace by done. by apply Hr.
Qed.

Lemma all_chars_weaken (p q : ascii → bool) s : (∀ c, p c = true → q c = true) → all_chars p s = true → all_chars q s = true.
Proof. intros Hpq. induction s as [|c s IH]; [done|]. simpl. intros [Hc Hs]%andb_true_iff. by rewrite (Hpq c Hc), IH. Qed.

Lemma digit_nonspace c : is_digit c = true → not_space c = true.
Proof. intros Hc. unfold not_space. by rewrite digit_not_space. Qed.

Lemma digit_no_break c : is_digit c = true → negb (is_break c) = true.
Proof.
  intros Hd%digit_not_space. apply negb_true_iff. unfold is_space, is_break in *. cbn zeta in *.
  rewrite orb_false_iff, !andb_false_iff, !N.leb_gt in *. lia.
Qed.

Lemma str_Z_plain z : 0 ≤ z → trimmed (str_Z z) ∧ no_breaks (str_Z z) = true.
Proof.
  intros Hi. destruct (str_Z_digits z Hi) as (Hd & _ & Hne). split; [split; [|done]|].
  - apply strip_nonspace. by apply (all_chars_weaken is_digit); [apply digit_nonspace|].
  - unfold no_breaks. by apply (all_chars_weaken is_digit); [apply digit_no_break|].
Qed.

(** A numeral is read back. *)
Lemma int_digits_run s acc b : all_chars is_digit s = true → s ≠ "" ∨ b = true → int_digits s acc b = Some (digits_val acc s).
Proof.
  revert acc b. induction s as [|c s IH]; intros acc b Hs Hb; [by destruct Hb as [?| ->]|]. simpl in *. apply andb_prop in Hs as [-> Hs].
  apply IH; [done|by right].
Qed.

Lemma int_of_str z : 0 ≤ z → int_of_string (str_Z z) = Some z.
Proof.
  intros Hz. destruct (str_Z_digits z Hz) as (Hd & Hv & Hne). unfold int_of_string.
  rewrite strip_nonspace by (by apply (all_chars_weaken _ _ _ digit_nonspace)). destruct (digit_cons_str z Hz) as (c & s & E & Hc). rewrite E in *.
  assert (Hn : (48 ≤ code c ∧ code c ≤ 57)%N) by (unfold is_digit in Hc; apply andb_prop in Hc as [H1%N.leb_le H2%N.leb_le]; done).
  destruct (N.eqb_spec (code c) 45); [lia|]. destruct (N.eqb_spec (code c) 43); [lia|].
  rewrite int_digits_run by auto. cbn [fmap option_fmap option_map]. by rewrite Hv.
Qed.
