(* ===== verification/CcninfoParse.v ===== *)
(** Component: parsing the output of [ccninfo] (src/core/ccninfo_parse.py), and
    that it reads back every reply written in the grammar it documents. *)
From S2P Require Import Prelude PyValue PyString PyNum PyText.
Local Open Scope Z_scope.

Definition ROUTE_HEADER_PREFIX : string := "route information:".
Definition CACHE_HEADER_PREFIX : string := "cache information:".
Definition RESPONSE_LINE_PREFIX : string := "response from ".

Definition colon : ascii := Ascii.ascii_of_N 58.
Definition comma : ascii := Ascii.ascii_of_N 44.

Record CcninfoHop := mkHop { hop_index : Z; hop_node : string; delay_ms : option pyfloat }.

Record CcninfoReply := mkReply {
  reply_received : bool;
  responder : option string;
  result : option string;
  rtt_ms : option pyfloat;
  route : list CcninfoHop;
  cache_lines : list string;
}.

(** [float(s)] when it is a finite number. *)
Definition finite_float (s : string) : option pyfloat :=
  f ← float_of_string s; if is_finite f then Some f else None.

(** [_parse_ms_value]. *)
Definition parse_ms_value (text : string) : option pyfloat :=
  number ← strip_suffix "ms" (strip text); finite_float (strip number).

(** [_try_parse_route_line]. *)
Definition try_parse_route_line (line : string) : option CcninfoHop :=
  '(idx_str, remainder) ← split_word (strip line);
  if negb (is_digits idx_str) then None else
  match partition colon remainder with
  | (_, None) => None
  | (node, Some rest) =>
      let node := strip node in
      if bool_decide (node = "") then None else
      index ← int_of_digits idx_str;
      Some (mkHop index node (parse_ms_value rest))
  end.

(** [_split_response_rest]. *)
Definition or_none (s : string) : option string := if bool_decide (s = "") then None else Some s.
Definition split_response_rest (rest : string) : option string * option pyfloat :=
  let '(result_part, time_part) := partition comma rest in
  (or_none (strip result_part),
   number ← strip_prefix "time=" (strip (default "" time_part)) ≫= strip_suffix "ms";
   finite_float (strip number)).

(** [_try_parse_response_line]. *)
Definition try_parse_response_line (line : string) : option (string * option string * option pyfloat) :=
  remainder ← strip_prefix RESPONSE_LINE_PREFIX line;
  match partition colon remainder with
  | (_, None) => None
  | (responder, Some rest) =>
      let responder := strip responder in
      if bool_decide (responder = "") then None else
      let '(result, rtt_ms) := split_response_rest (strip rest) in Some (responder, result, rtt_ms)
  end.

(** * The lines *)

Inductive mode := MDefault | MRoute | MCache.

(** The loop's variables. *)
Record parse_state := mkParse { p_mode : mode; p_reply : CcninfoReply }.

Definition blank (line : string) : bool := bool_decide (strip line = "").

(** One iteration. *)
Definition parse_line (s : parse_state) (line : string) : parse_state :=
  let r := p_reply s in
  match p_mode s with
  | MRoute =>
      if blank line then mkParse MDefault r else
      match try_parse_route_line line with
      | Some hop => mkParse MRoute (mkReply (reply_received r) (responder r) (result r) (rtt_ms r) (route r ++ [hop]) (cache_lines r))
      | None => s
      end
  | MCache =>
      if blank line then mkParse MDefault r else
      mkParse MCache (mkReply (reply_received r) (responder r) (result r) (rtt_ms r) (route r) (cache_lines r ++ [line]))
  | MDefault =>
      if blank line then s
      else if startswith line ROUTE_HEADER_PREFIX then mkParse MRoute r
      else if startswith line CACHE_HEADER_PREFIX then mkParse MCache r
      else match try_parse_response_line line with
           | Some (who, res, rtt) => mkParse MDefault (mkReply true (Some who) res rtt (route r) (cache_lines r))
           | None => s
           end
  end.

Definition no_reply : CcninfoReply := mkReply false None None None [] [].

(** [parse_ccninfo]. *)
Definition parse_ccninfo (text : string) : CcninfoReply :=
  p_reply (foldl parse_line (mkParse MDefault no_reply) (splitlines text)).

(** * The grammar *)

(** A block of output: lines the parser has no use for, a response, the hops of a
    route and the lines of a cache. *)
Inductive block :=
  | Noise (lines : list string)
  | Response (who res time : string)
  | Route (tail : string) (hops : list (Z * string * string))
  | Cache (tail : string) (lines : list string).

Definition render_hop (h : Z * string * string) : string :=
  let '(index, node, ms) := h in " " +s+ str_Z index +s+ " " +s+ node +s+ ": " +s+ ms +s+ " ms".

Definition render (b : block) : list string :=
  match b with
  | Noise lines => lines
  | Response who res time => [RESPONSE_LINE_PREFIX +s+ who +s+ ": " +s+ res +s+ ", time=" +s+ time +s+ " ms"]
  | Route tail hops => [ROUTE_HEADER_PREFIX +s+ tail] ++ (render_hop <$> hops) ++ [""]
  | Cache tail lines => [CACHE_HEADER_PREFIX +s+ tail] ++ lines ++ [""]
  end.

(** What a block says; an unreadable number is unknown. *)
Definition hop_of (h : Z * string * string) : CcninfoHop :=
  let '(index, node, ms) := h in mkHop index node (finite_float ms).
Definition apply_block (r : CcninfoReply) (b : block) : CcninfoReply :=
  match b with
  | Noise _ => r
  | Response who res time => mkReply true (Some who) (Some res) (finite_float time) (route r) (cache_lines r)
  | Route _ hops => mkReply (reply_received r) (responder r) (result r) (rtt_ms r) (route r ++ (hop_of <$> hops)) (cache_lines r)
  | Cache _ lines => mkReply (reply_received r) (responder r) (result r) (rtt_ms r) (route r) (cache_lines r ++ lines)
  end.

(** A field without a separator or surrounding spaces. *)
Definition without (c : ascii) (s : string) : bool := all_chars (λ d, negb (bool_decide (d = c))) s.
Definition field (s : string) : Prop := trimmed s ∧ no_breaks s = true.

Definition noise_line (l : string) : Prop :=
  no_breaks l = true ∧ startswith l ROUTE_HEADER_PREFIX = false ∧ startswith l CACHE_HEADER_PREFIX = false ∧
  strip_prefix RESPONSE_LINE_PREFIX l = None.

Definition hop_ok (h : Z * string * string) : Prop :=
  let '(index, node, ms) := h in
  0 ≤ index ∧ (String.length (str_Z index) <= 4300)%nat ∧ field node ∧ without colon node = true ∧ field ms.

Definition block_ok (b : block) : Prop :=
  match b with
  | Noise lines => Forall noise_line lines
  | Response who res time =>
      field who ∧ without colon who = true ∧ field res ∧ without comma res = true ∧ field time
  | Route tail hops => no_breaks tail = true ∧ Forall hop_ok hops
  | Cache tail lines => no_breaks tail = true ∧ Forall (λ l, no_breaks l = true ∧ blank l = false) lines
  end.

(** ** Lines *)

Lemma startswith_app p s : startswith (p +s+ s) p = true.
Proof.
  unfold startswith. induction p as [|c p IH]; [by destruct s|]. change (String c p +s+ s) with (String c (p +s+ s)). simpl.
  by destruct (Ascii.ascii_dec c c).
Qed.

Lemma field_head s : field s → ∃ c t, s = String c t ∧ is_space c = false.
Proof.
  intros [Ht _]. destruct (rstrip_lstrip s Ht) as [Hl _]. destruct Ht as [_ Hne]. destruct s as [|c t]; [done|]. exists c, t. split; [done|].
  destruct (is_space c) eqn:Hc; [|done]. exfalso. simpl in Hl. rewrite Hc in Hl.
  assert (Hlen : ∀ u, (String.length (lstrip u) <= String.length u)%nat).
  { induction u as [|d u IH]; simpl; [lia|]. destruct (is_space d); simpl; lia. }
  specialize (Hlen t). rewrite Hl in Hlen. simpl in Hlen. lia.
Qed.

(** [s] ends with a text without trailing spaces. *)
Definition ends_trimmed (s : string) : Prop := ∃ x b, s = x +s+ b ∧ trimmed b.

Lemma strip_ends a y : field a → ends_trimmed y → strip (a +s+ y) = a +s+ y.
Proof.
  intros Ha (x & b & -> & Hb). destruct (field_head a Ha) as (c & t & -> & Hc).
  change (String c t +s+ x +s+ b) with (String c (t +s+ x +s+ b)). rewrite <- string_app_assoc. by apply trimmed_app.
Qed.

Lemma ends_trimmed_app a y : ends_trimmed y → ends_trimmed (a +s+ y).
Proof. intros (x & b & -> & Hb). exists (a +s+ x), b. by rewrite string_app_assoc. Qed.
Lemma ends_trimmed_self s : trimmed s → ends_trimmed s.
Proof. intros Hs. by exists "", s. Qed.

Lemma strip_after a : field a → strip (a +s+ " ") = a.
Proof.
  intros Ha. destruct (field_head a Ha) as (c & t & E & Hc). destruct Ha as [Ht _]. destruct (rstrip_lstrip a Ht) as [_ Hr].
  unfold strip. rewrite E at 1. change (String c t +s+ " ") with (String c (t +s+ " ")). rewrite lstrip_nonspace by done.
  change (String c (t +s+ " ")) with (String c t +s+ String (Ascii.ascii_of_N 32) ""). rewrite rstrip_app_space by done. by rewrite <- E.
Qed.

Lemma trimmed_ms : trimmed "ms".
Proof. by split. Qed.

Lemma field_strip a : field a → strip a = a.
Proof. by intros [[? _] _]. Qed.

Lemma field_not_empty a : field a → a ≠ "".
Proof. by intros [[_ ?] _]. Qed.

Lemma ends_ms : ends_trimmed " ms".
Proof. by exists " ", "ms". Qed.

(** A value followed by its unit. *)
Lemma parse_ms_unit ms : field ms → parse_ms_value (" " +s+ ms +s+ " ms") = finite_float ms.
Proof.
  intros Hf. unfold parse_ms_value. change (" " +s+ ms +s+ " ms") with (String (Ascii.ascii_of_N 32) (ms +s+ " ms")).
  rewrite strip_space_l, strip_ends by (done || apply ends_ms). change (ms +s+ " ms") with (ms +s+ " " +s+ "ms").
  rewrite <- string_app_assoc, strip_suffix_app. simpl. by rewrite strip_after.
Qed.

Lemma field_index index : 0 ≤ index → field (str_Z index).
Proof. apply str_Z_plain. Qed.

Lemma partition_colon node rest : without colon node = true → partition colon (node +s+ ": " +s+ rest) = (node, Some (" " +s+ rest)).
Proof. intros Hn. change (": " +s+ rest) with (String colon (" " +s+ rest)). by apply partition_app. Qed.

Lemma route_line h : hop_ok h → try_parse_route_line (render_hop h) = Some (hop_of h).
Proof.
  destruct h as [[index node] ms]. intros (Hi & Hlen & Hn & Hcol & Hms). unfold try_parse_route_line, render_hop.
  destruct (str_Z_digits index Hi) as (Hd & Hval & Hne). destruct (digit_cons_str index Hi) as (c & t & Ei & Hc).
  destruct (field_head node Hn) as (cn & tn & En & Hcn).
  assert (Hend : ends_trimmed (" " +s+ node +s+ ": " +s+ ms +s+ " ms")) by (repeat apply ends_trimmed_app; apply ends_ms).
  change (" " +s+ str_Z index +s+ ?x) with (String (Ascii.ascii_of_N 32) (str_Z index +s+ x)).
  rewrite strip_space_l, strip_ends by (done || by apply field_index).
  assert (split_word (str_Z index +s+ " " +s+ node +s+ ": " +s+ ms +s+ " ms") = Some (str_Z index, node +s+ ": " +s+ ms +s+ " ms")) as ->.
  { unfold split_word. rewrite Ei at 1. change (String c t +s+ ?x) with (String c (t +s+ x)). rewrite lstrip_nonspace by (by apply digit_not_space).
    change (String c (t +s+ ?x)) with (String c t +s+ x). rewrite <- Ei.
    change (" " +s+ node +s+ ": " +s+ ms +s+ " ms") with (String (Ascii.ascii_of_N 32) (node +s+ ": " +s+ ms +s+ " ms")).
    rewrite span_app by (done || by apply (all_chars_weaken is_digit); [apply digit_nonspace|]). rewrite Ei at 1.
    cbn [lstrip]. change (is_space (Ascii.ascii_of_N 32)) with true. cbv iota. rewrite En.
    change (String cn tn +s+ ?x) with (String cn (tn +s+ x)). rewrite lstrip_nonspace by done. by rewrite Ei. }
  simpl. unfold is_digits. rewrite bool_decide_eq_false_2, Hd, partition_colon, (field_strip node) by done. simpl.
  rewrite bool_decide_eq_false_2 by (by apply field_not_empty). unfold int_of_digits.
  assert ((4300 <? String.length (str_Z index))%nat = false) as -> by (apply Nat.ltb_ge; done). simpl. by rewrite Hval, parse_ms_unit.
Qed.

Lemma blank_head c s : is_space c = false → blank (String c s) = false.
Proof.
  intros Hc. apply bool_decide_eq_false_2. unfold strip. rewrite lstrip_nonspace by done. simpl. rewrite Hc. by destruct (rstrip s).
Qed.

Lemma blank_hop h : hop_ok h → blank (render_hop h) = false.
Proof.
  destruct h as [[index node] ms]. intros (Hi & _). unfold render_hop, blank.
  destruct (digit_cons_str index Hi) as (c & t & -> & Hc).
  change (" " +s+ String c t +s+ ?x) with (String (Ascii.ascii_of_N 32) (String c t +s+ x)). rewrite strip_space_l by done.
  change (String c t +s+ ?x) with (String c (t +s+ x)). apply (blank_head c). by apply digit_not_space.
Qed.

Lemma field_time : field "time=".
Proof. by split. Qed.

Lemma response_line who res time : block_ok (Response who res time) →
  try_parse_response_line (RESPONSE_LINE_PREFIX +s+ who +s+ ": " +s+ res +s+ ", time=" +s+ time +s+ " ms")
    = Some (who, Some res, finite_float time).
Proof.
  intros (Hw & Hcol & Hr & Hcom & Ht). unfold try_parse_response_line. rewrite strip_prefix_app. simpl.
  rewrite partition_colon, (field_strip who), bool_decide_eq_false_2 by (done || by apply field_not_empty).
  assert (Hend : ends_trimmed (", time=" +s+ time +s+ " ms")) by (repeat apply ends_trimmed_app; apply ends_ms).
  change (" " +s+ res +s+ ?x) with (String (Ascii.ascii_of_N 32) (res +s+ x)). rewrite strip_space_l, strip_ends by done.
  unfold split_response_rest. change (", time=" +s+ time +s+ " ms") with (String comma (" " +s+ "time=" +s+ time +s+ " ms")).
  rewrite partition_app by done. rewrite (field_strip res) by done. unfold or_none. rewrite bool_decide_eq_false_2 by (by apply field_not_empty).
  change (default "" (Some ?x)) with x.
  change (strip (" " +s+ "time=" +s+ ?x)) with (strip (String (Ascii.ascii_of_N 32) ("time=" +s+ x))). rewrite strip_space_l by done.
  rewrite (strip_ends "time=" (time +s+ " ms")) by (apply field_time || apply ends_trimmed_app, ends_ms).
  rewrite strip_prefix_app. change (time +s+ " ms") with (time +s+ " " +s+ "ms"). rewrite <- string_app_assoc. simpl.
  rewrite strip_suffix_app. simpl. by rewrite strip_after.
Qed.

(** ** Blocks *)

Lemma render_lines b : block_ok b → Forall (λ l, no_breaks l = true) (render b).
Proof.
  destruct b as [lines|who res time|tail hops|tail lines]; simpl.
  - intros Hl. eapply Forall_impl; [done|]. by intros l [Hl' _].
  - intros ([_ Hw] & _ & [_ Hr] & _ & [_ Ht]). constructor; [|constructor]. by rewrite !no_breaks_app, Hw, Hr, Ht.
  - intros [Ht Hh]. constructor; [by rewrite no_breaks_app, Ht|]. apply Forall_app. split; [|by constructor].
    apply Forall_fmap. eapply Forall_impl; [done|]. intros [[index node] ms] (Hi & _ & [_ Hn] & _ & [_ Hm]). simpl.
    rewrite !no_breaks_app. by rewrite Hn, Hm, (proj2 (field_index index Hi)).
  - intros [Ht Hl]. constructor; [by rewrite no_breaks_app, Ht|]. apply Forall_app. split; [|by constructor].
    eapply Forall_impl; [done|]. by intros l [? _].
Qed.

Lemma parse_hops hops r : Forall hop_ok hops →
  foldl parse_line (mkParse MRoute r) (render_hop <$> hops) =
    mkParse MRoute (mkReply (reply_received r) (responder r) (result r) (rtt_ms r) (route r ++ (hop_of <$> hops)) (cache_lines r)).
Proof.
  intros Hh. revert r. induction Hh as [|h hops Hh Hhs IH]; intros r; simpl; [destruct r; simpl; by rewrite app_nil_r|].
  unfold parse_line at 2. simpl. rewrite blank_hop, route_line, IH by done. simpl. by rewrite <- app_assoc.
Qed.

Lemma parse_cache lines r : Forall (λ l, no_breaks l = true ∧ blank l = false) lines →
  foldl parse_line (mkParse MCache r) lines =
    mkParse MCache (mkReply (reply_received r) (responder r) (result r) (rtt_ms r) (route r) (cache_lines r ++ lines)).
Proof.
  intros Hl. revert r. induction Hl as [|l lines [_ Hb] Hl IH]; intros r; simpl; [destruct r; simpl; by rewrite app_nil_r|].
  unfold parse_line at 2. simpl. rewrite Hb, IH. simpl. by rewrite <- app_assoc.
Qed.

Lemma parse_block b r : block_ok b → foldl parse_line (mkParse MDefault r) (render b) = mkParse MDefault (apply_block r b).
Proof.
  destruct b as [lines|who res time|tail hops|tail lines]; intros Hb.
  - simpl in *. induction Hb as [|l lines (_ & Hr & Hc & Hp) Hl IH]; [done|]. simpl. unfold parse_line at 2. simpl.
    rewrite Hr, Hc. unfold try_parse_response_line. rewrite Hp. simpl. by destruct (blank l).
  - cbn [render foldl]. unfold parse_line. cbn [p_mode p_reply].
    assert (Hhead : ∀ x, blank (RESPONSE_LINE_PREFIX +s+ x) = false ∧ startswith (RESPONSE_LINE_PREFIX +s+ x) ROUTE_HEADER_PREFIX = false
      ∧ startswith (RESPONSE_LINE_PREFIX +s+ x) CACHE_HEADER_PREFIX = false).
    { intros x. split_and!; [by apply blank_head|reflexivity..]. }
    destruct (Hhead (who +s+ ": " +s+ res +s+ ", time=" +s+ time +s+ " ms")) as (-> & -> & ->). by rewrite response_line.
  - destruct Hb as [Ht Hh]. cbn [render]. rewrite !foldl_app. cbn [foldl].
    assert (parse_line (mkParse MDefault r) (ROUTE_HEADER_PREFIX +s+ tail) = mkParse MRoute r) as ->.
    { unfold parse_line. cbn [p_mode p_reply]. rewrite startswith_app. assert (blank (ROUTE_HEADER_PREFIX +s+ tail) = false) as -> by (by apply blank_head). done. }
    rewrite parse_hops by done. reflexivity.
  - destruct Hb as [Ht Hh]. cbn [render]. rewrite !foldl_app. cbn [foldl].
    assert (parse_line (mkParse MDefault r) (CACHE_HEADER_PREFIX +s+ tail) = mkParse MCache r) as ->.
    { unfold parse_line. cbn [p_mode p_reply]. rewrite startswith_app. assert (blank (CACHE_HEADER_PREFIX +s+ tail) = false) as -> by (by apply blank_head).
      assert (startswith (CACHE_HEADER_PREFIX +s+ tail) ROUTE_HEADER_PREFIX = false) as -> by reflexivity. done. }
    rewrite parse_cache by done. reflexivity.
Qed.

(** C14: the parser reads every output of the documented grammar. Write any
    sequence of blocks - lines it has no use for, responses, routes and cache
    listings with any header tail - and [parse_ccninfo] returns exactly what they
    say: the last response, every hop in order with its index and node, and every
    cache line verbatim; a delay or round-trip time that is not a finite number is
    unknown and disturbs nothing else. *)
Theorem parse_ccninfo_grammar blocks : Forall block_ok blocks →
  parse_ccninfo (unlines (blocks ≫= render)) = foldl apply_block no_reply blocks.
Proof.
  intros Hb. unfold parse_ccninfo. rewrite splitlines_unlines.
  - assert (Hfold : ∀ r, foldl parse_line (mkParse MDefault r) (blocks ≫= render) = mkParse MDefault (foldl apply_block r blocks)).
    { induction Hb as [|b blocks Hb Hbs IH]; intros r; [done|]. rewrite bind_cons, foldl_app, parse_block by done. apply IH. }
    by rewrite Hfold.
  - induction Hb as [|b blocks Hb Hbs IH]; [constructor|]. rewrite bind_cons. apply Forall_app. split; [by apply render_lines|done].
Qed.

(** A reply with two hops, one of an unreadable delay, between a request header
    and a trailer. *)
Definition sample : list block :=
  [ Noise ["ccninfo to ccnx:/a with HopLimit=32"; ""];
    Response "h1" "SUCCESS" "1.5";
    Noise [""];
    Route "" [(1, "h2", "0.5"); (2, "192.168.1.2", "nan")];
    Cache " prefix size cobs" ["ccnx:/a 1024 1"];
    Noise ["EXIT=0"] ].

Lemma parse_ccninfo_grammar_witness :
  hop_node <$> route (parse_ccninfo (unlines (sample ≫= render))) = ["h2"; "192.168.1.2"] ∧
  responder (parse_ccninfo (unlines (sample ≫= render))) = Some "h1".
Proof.
  rewrite (parse_ccninfo_grammar sample); [split; vm_compute; reflexivity|].
  repeat apply Forall_cons_2; [..|apply Forall_nil_2]; repeat split; try (vm_compute; (reflexivity || discriminate || lia));
    repeat constructor; vm_compute; (reflexivity || discriminate || lia).
Defined.
