(* ===== verification/Verdict.v ===== *)
(** Component: judging content operations (src/core/verdict.py), the evidence the
    runtime collects for it (src/runtime/result_detect.py) and the records it
    becomes (src/core/records.py, src/runtime/results_sink.py).  Files are given by
    what was read from them: a text, or whether an output is non-empty; the
    timestamp of a record is an argument. *)
From S2P Require Import Prelude PyValue PyString PyNum CommandRunner CcninfoParse.
Local Open Scope Z_scope.

Definition COMPLETED_MARKER : string := "Completed to get all the chunks.".
Definition PUB_DELIVERED_MARKER : string := "Receive Trigger Data, finish application.".
Definition FAILURE_PATTERNS : list string := ["Could not receive anything"; "Received frame ... NG"].

Definition COMMAND_OP_TYPES : list (string * string) :=
  [("cefputfile", "put"); ("cefgetfile", "get"); ("cefpubfile", "pub"); ("cefsubfile", "sub")].

(** * Verdicts *)

(** A factor is [Some true], [Some false] or unknown. *)
Record Verdict := mkVerdict {
  op_type : pv;
  success : option bool;
  has_completed_log : option bool;
  has_output_file : option bool;
  exit_code : option Z;
  artifact_path : option string;
}.

Definition exit_ok (code : option Z) : bool := bool_decide (code = Some 0).

(** [from_runtime_get], [from_runtime_put], [from_runtime_sub] and
    [from_runtime_pub]. *)
Definition from_runtime_get (exit_code : option Z) (log_text : string) (output_nonempty : bool) : Verdict :=
  let has_completed := contains log_text COMPLETED_MARKER in
  mkVerdict (PStr "get") (Some (exit_ok exit_code && has_completed && output_nonempty)) (Some has_completed)
    (Some output_nonempty) exit_code None.
Definition from_runtime_put (exit_code : option Z) : Verdict :=
  mkVerdict (PStr "put") (Some (exit_ok exit_code)) None None exit_code None.
Definition from_runtime_sub (returncode : option Z) (timed_out cancelled output_nonempty : bool)
    (artifact_path : option string) : Verdict :=
  let delivered_ok := exit_ok returncode || timed_out || cancelled in
  mkVerdict (PStr "sub") (Some (output_nonempty && delivered_ok)) None (Some output_nonempty) returncode artifact_path.
Definition from_runtime_pub (exit_code : option Z) (timed_out : bool) : Verdict :=
  mkVerdict (PStr "pub") (Some (exit_ok exit_code && negb timed_out)) None None exit_code None.

Fixpoint lookup_command (l : list (string * string)) (command : string) : string :=
  match l with
  | [] => command
  | (c, op) :: l => if bool_decide (c = command) then op else lookup_command l command
  end.

(** [from_log]. *)
Definition from_log (command text : string) (fields_present : option bool) : Verdict :=
  let op := lookup_command COMMAND_OP_TYPES command in
  let has_completed := if bool_decide (op = "get") then Some (contains text COMPLETED_MARKER) else None in
  let success :=
    if bool_decide (strip text = "") then Some false
    else if existsb (contains text) FAILURE_PATTERNS then Some false
    else if bool_decide (op = "get") then has_completed
    else if bool_decide (op = "put") then fields_present
    else if bool_decide (op = "pub") then if contains text PUB_DELIVERED_MARKER then Some true else None
    else None in
  mkVerdict (PStr op) success has_completed None None None.

Definition factor (record : pydict) (key : string) : option bool :=
  match get_none record key with PBool b => Some b | _ => None end.

(** [from_record]; [True] and [False] are integers. *)
Definition from_record (record : pydict) : Verdict :=
  mkVerdict (if truthy (get_none record "op_type") then get_none record "op_type" else PStr "get")
    (factor record "success") (factor record "has_completed_log") (factor record "has_output_file")
    (match get_none record "exit_code" with PInt z => Some z | PBool b => Some (Z.b2z b) | _ => None end) None.

(** [failure_reasons]. *)
Definition failure_reasons (v : Verdict) : list (string * bool) :=
  [("exit_code_nonzero", match exit_code v with Some c => negb (c =? 0) | None => false end);
   ("missing_completed_log", bool_decide (has_completed_log v = Some false));
   ("missing_output_file", bool_decide (has_output_file v = Some false))].

(** * ccninfo *)

Record CcninfoVerdict := mkCcninfo {
  c_success : bool;
  c_reply_received : bool;
  responder_matched : option bool;
  route_matched : option bool;
  c_exit_code : option Z;
  c_timed_out : bool;
  c_cancelled : bool;
  c_responder : option string;
  route_nodes : list string;
}.

(** The hops from the position on: those after the first that equals [token]. *)
Fixpoint scan (token : string) (observed : list string) : option (list string) :=
  match observed with
  | [] => None
  | hop :: observed => if bool_decide (token = hop) then Some observed else scan token observed
  end.

(** [_route_is_ordered_subsequence]. *)
Fixpoint route_is_ordered_subsequence (expected observed : list string) : bool :=
  match expected with
  | [] => true
  | token :: expected =>
      match scan token observed with
      | None => false
      | Some rest => route_is_ordered_subsequence expected rest
      end
  end.

(** [from_runtime_ccninfo]. *)
Definition from_runtime_ccninfo (exit_code : option Z) (timed_out cancelled reply_received : bool) (responder : option string)
    (route_nodes : list string) (expected_responder : option string) (expected_route : option (list string))
    : CcninfoVerdict :=
  let responder_matched := (λ e, bool_decide (responder = Some e)) <$> expected_responder in
  let route_matched := (λ e, route_is_ordered_subsequence e route_nodes) <$> expected_route in
  let success := exit_ok exit_code && negb timed_out && negb cancelled && reply_received
                 && negb (bool_decide (responder_matched = Some false)) && negb (bool_decide (route_matched = Some false)) in
  mkCcninfo success reply_received responder_matched route_matched exit_code timed_out cancelled responder route_nodes.

(** [ccninfo_failure_reasons]: the reasons present. *)
Definition ccninfo_failure_reasons (v : CcninfoVerdict) : list string :=
  (match c_exit_code v with Some c => if c =? 0 then [] else ["exit_code_nonzero"] | None => [] end)
  ++ (if c_timed_out v then ["timed_out"] else [])
  ++ (if c_cancelled v then ["cancelled"] else [])
  ++ (if c_reply_received v then [] else ["no_reply"])
  ++ (if bool_decide (responder_matched v = Some false) then ["responder_mismatch"] else [])
  ++ (if bool_decide (route_matched v = Some false) then ["route_mismatch"] else []).

(** * Evidence *)

(** [detect_get_success]: the log's text when it exists, and the size of the
    output when it exists. *)
Definition detect_get_success (log : option string) (out_size : option Z) (exit_code : option Z) : Verdict :=
  from_runtime_get exit_code (default "" log) (match out_size with Some n => 0 <? n | None => false end).
Definition detect_put_success : option Z → Verdict := from_runtime_put.
Definition detect_pub_success : option Z → bool → Verdict := from_runtime_pub.

(** The artifacts of a directory, with their sizes, that are not empty, in order
    of name. *)
Definition non_empty_artifacts (artifacts : list (string * Z)) : list string :=
  sorted_strs (fst <$> List.filter (λ a : string * Z, 0 <? a.2) artifacts).

(** [detect_sub_success]. *)
Definition detect_sub_success (r : CommandResult) (artifacts : list (string * Z)) : Verdict :=
  let non_empty := non_empty_artifacts artifacts in
  from_runtime_sub (returncode r) (timed_out r) (cancelled r) (match non_empty with [] => false | _ => true end) (head non_empty).

(** [detect_ccninfo_success]: [log] is the text of the log file, if it was read. *)
Definition detect_ccninfo_success (log : option string) (r : CommandResult)
    (expected_responder : option string) (expected_route : option (list string)) : CcninfoVerdict * CcninfoReply :=
  let reply := parse_ccninfo (default "" log) in
  (from_runtime_ccninfo (returncode r) (timed_out r) (cancelled r) (CcninfoParse.reply_received reply) (CcninfoParse.responder reply)
     (hop_node <$> route reply) expected_responder expected_route, reply).

(** * Records *)

Definition opt {A} (f : A → pv) (o : option A) : pv := match o with Some a => f a | None => PNone end.

(** [record_content]: the dict of a [ContentRecord]. *)
Definition content_record (op ts phase : string) (v : Verdict) (host : Z) (uri : string) (out_file : option string)
    (log_file : string) (exit_code : option Z) (down_hosts : list Z) (publisher_host : pv) : pydict :=
  [(PStr "op_type", PStr op); (PStr "ts", PStr ts); (PStr "phase", PStr phase); (PStr "host", PInt host); (PStr "uri", PStr uri);
   (PStr "out_file", opt PStr out_file); (PStr "log_file", PStr log_file); (PStr "exit_code", opt PInt exit_code);
   (PStr "down_hosts", PList (PInt <$> down_hosts)); (PStr "publisher_host", publisher_host);
   (PStr "publisher_down", PBool (negb (is_none publisher_host) && existsb (λ h, pv_eqb publisher_host (PInt h)) down_hosts));
   (PStr "success", opt PBool (success v)); (PStr "has_completed_log", opt PBool (has_completed_log v));
   (PStr "has_output_file", opt PBool (has_output_file v))].

Definition hop_dict (h : CcninfoHop) : pv :=
  PDict [(PStr "index", PInt (hop_index h)); (PStr "node", PStr (hop_node h)); (PStr "delay_ms", opt PFloat (delay_ms h))].

(** [record_ccninfo]: the dict of a [CcninfoRecord]. *)
Definition ccninfo_record (ts phase : string) (v : CcninfoVerdict) (reply : CcninfoReply) (host : Z) (uri log_file : string)
    (down_hosts : list Z) (expected_responder : option string) (expected_route : option (list string)) : pydict :=
  [(PStr "op_type", PStr "ccninfo"); (PStr "ts", PStr ts); (PStr "phase", PStr phase); (PStr "host", PInt host);
   (PStr "uri", PStr uri); (PStr "log_file", PStr log_file); (PStr "down_hosts", PList (PInt <$> down_hosts));
   (PStr "exit_code", opt PInt (c_exit_code v)); (PStr "timed_out", PBool (c_timed_out v)); (PStr "cancelled", PBool (c_cancelled v));
   (PStr "success", PBool (c_success v)); (PStr "reply_received", PBool (c_reply_received v));
   (PStr "responder", opt PStr (c_responder v)); (PStr "result", opt PStr (result reply)); (PStr "rtt_ms", opt PFloat (rtt_ms reply));
   (PStr "route", PList (hop_dict <$> route reply)); (PStr "cache_lines", PList (PStr <$> cache_lines reply));
   (PStr "expected_responder", opt PStr expected_responder);
   (PStr "expected_route", opt (λ l, PList (PStr <$> l)) expected_route);
   (PStr "responder_matched", opt PBool (responder_matched v)); (PStr "route_matched", opt PBool (route_matched v))].

Definition when_some (key : string) (v : option pv) : pydict := match v with Some v => [(PStr key, v)] | None => [] end.

(** [record_event]: the dict of an [EventRecord]; a field that is [None] is left
    out. *)
Definition event_dict (event_type ts : string) (success : bool) (error : option string) (scheduled_at actual_at : option pv)
    (event : option pydict) (host : option Z) (outcome : option string) (detail : option pydict) : pydict :=
  [(PStr "op_type", PStr "event"); (PStr "event_type", PStr event_type); (PStr "ts", PStr ts)]
  ++ when_some "scheduled_at" scheduled_at ++ when_some "actual_at" actual_at ++ when_some "host" (PInt <$> host)
  ++ [(PStr "success", PBool success); (PStr "error", opt PStr error)]
  ++ when_some "outcome" (PStr <$> outcome) ++ when_some "detail" (PDict <$> detail) ++ when_some "event" (PDict <$> event).

(** * Matching routes *)

Lemma scan_Some token observed rest : scan token observed = Some rest →
  ∃ before, observed = before ++ token :: rest ∧ token ∉ before.
Proof.
  revert rest. induction observed as [|hop observed IH]; intros rest; [done|]. simpl. case_bool_decide as E.
  - intros [= <-]. subst hop. exists []. split; [done|]. apply not_elem_of_nil.
  - intros (before & -> & Hb)%IH. exists (hop :: before). split; [done|]. by apply not_elem_of_cons.
Qed.

Lemma scan_None token observed : scan token observed = None → token ∉ observed.
Proof.
  induction observed as [|hop observed IH]; [intros _; apply not_elem_of_nil|]. simpl. case_bool_decide; [done|].
  intros Hn%IH. by apply not_elem_of_cons.
Qed.

Lemma sublist_after (token : string) expected before rest :
  token ∉ before → token :: expected `sublist_of` before ++ token :: rest → expected `sublist_of` rest.
Proof.
  intros Hb. induction before as [|x before IH]; simpl.
  - intros Hs. apply sublist_cons_l in Hs as (k1 & k2 & E & Hs). destruct k1 as [|y k1]; simpl in E; [by injection E as ->|]. injection E as <- ->.
    etrans; [done|]. apply sublist_inserts_l. by apply sublist_cons.
  - apply not_elem_of_cons in Hb as [Hx Hb]. intros Hs. apply IH; [done|].
    inversion Hs; subst; [done|]. done.
Qed.

Lemma route_subsequence_sublist expected observed :
  route_is_ordered_subsequence expected observed = true ↔ expected `sublist_of` observed.
Proof.
  revert observed. induction expected as [|token expected IH]; intros observed; simpl.
  { split; [intros _; apply sublist_nil_l|done]. }
  destruct (scan token observed) as [rest|] eqn:E.
  - apply scan_Some in E as (before & -> & Hb). rewrite IH. split.
    + intros Hs. apply sublist_inserts_l. by apply sublist_skip.
    + by apply sublist_after.
  - apply scan_None in E. split; [done|]. intros Hs. exfalso. apply E. apply (elem_of_sublist _ _ _ ltac:(by left) Hs).
Qed.

(** What a successful ccninfo run has shown. *)
Lemma ccninfo_success_iff exit_code timed_out cancelled reply_received responder nodes expected_responder expected_route :
  c_success (from_runtime_ccninfo exit_code timed_out cancelled reply_received responder nodes expected_responder expected_route) = true ↔
    exit_code = Some 0 ∧ timed_out = false ∧ cancelled = false ∧ reply_received = true ∧
    (∀ e, expected_responder = Some e → responder = Some e) ∧
    (∀ e, expected_route = Some e → e `sublist_of` nodes).
Proof.
  unfold from_runtime_ccninfo, exit_ok. simpl.
  assert (Hresp : negb (bool_decide ((λ e, bool_decide (responder = Some e)) <$> expected_responder = Some false)) = true ↔
    ∀ e, expected_responder = Some e → responder = Some e).
  { destruct expected_responder as [e|]; simpl; [|naive_solver].
    destruct (decide (responder = Some e)) as [E|E]; [rewrite (bool_decide_eq_true_2 (responder = Some e)) by done|
      rewrite (bool_decide_eq_false_2 (responder = Some e)) by done]; naive_solver. }
  assert (Hroute : negb (bool_decide ((λ e, route_is_ordered_subsequence e nodes) <$> expected_route = Some false)) = true ↔
    ∀ e, expected_route = Some e → e `sublist_of` nodes).
  { destruct expected_route as [e|]; simpl; [|naive_solver]. pose proof (route_subsequence_sublist e nodes) as Hs.
    destruct (route_is_ordered_subsequence e nodes); naive_solver. }
  rewrite !andb_true_iff, Hresp, Hroute, !negb_true_iff, bool_decide_eq_true. naive_solver.
Qed.

(** C13: the greedy route check decides the subsequence relation, and a ccninfo
    verdict is exactly the conjunction of its evidence. A run succeeds when it
    exited with 0, was neither timed out nor cancelled, got a reply, and met every
    expectation that was stated: the responder is the expected one and the
    expected hops occur in the reported route in order, each by its exact name.
    The failure reasons of a verdict are empty exactly for the successful runs,
    apart from those without an exit status. *)
Theorem ccninfo_verdict_correct exit_code timed_out cancelled reply_received responder nodes expected_responder expected_route :
  let v := from_runtime_ccninfo exit_code timed_out cancelled reply_received responder nodes expected_responder expected_route in
  (∀ expected observed, route_is_ordered_subsequence expected observed = true ↔ expected `sublist_of` observed) ∧
  (c_success v = true ↔
    exit_code = Some 0 ∧ timed_out = false ∧ cancelled = false ∧ reply_received = true ∧
    (∀ e, expected_responder = Some e → responder = Some e) ∧
    (∀ e, expected_route = Some e → e `sublist_of` nodes)) ∧
  (c_success v = true ↔ ccninfo_failure_reasons v = [] ∧ exit_code ≠ None).
Proof.
  intros v. split; [apply route_subsequence_sublist|]. split; [apply ccninfo_success_iff|].
  subst v. unfold from_runtime_ccninfo, ccninfo_failure_reasons, exit_ok. simpl.
  destruct exit_code as [c|]; [|simpl; naive_solver]. destruct (Z.eqb_spec c 0) as [->|Hc].
  - rewrite (bool_decide_eq_true_2 (Some 0 = Some 0)) by done.
    destruct timed_out, cancelled, reply_received, (bool_decide (_ <$> expected_responder = Some false)),
      (bool_decide (_ <$> expected_route = Some false)); simpl; naive_solver.
  - rewrite (bool_decide_eq_false_2 (Some c = Some 0)) by congruence. simpl. naive_solver.
Qed.
