(* ===== verification/ContentOps.v ===== *)
(** Component: the content operation runner (src/runtime/content_ops.py): its
    handlers, and its threads - the submitting scheduler, the worker and the
    caller of [wait_all] and [stop] - as interleaved steps on the shared state.
    What the tools and the file system answer is an argument of each step. *)
From S2P Require Import Prelude PyValue PyString PyNum PyText Events Artifacts CommandRunner CefArgv CcninfoParse Verdict.
Local Open Scope Z_scope.

(** An operation: its type and its event. *)
Definition op := (string * pydict)%type.

(** [__init__]: what does not change. *)
Record config := mkConfig {
  phase : string;
  run_dir : string;
  uri_publishers : pydict;
  startup_grace : bool;
  pub_lifetime_by_uri : pydict;
  cwd : string;
}.

(** What a step sees: commands run, started and waited for, files read, the
    hosts that are down, the clocks, and whether a subscriber of the sink raises. *)
Record tools := mkTools {
  t_run : string → list string → string → res CommandResult;
  t_start : string → list string → string → res nat;
  t_wait : nat → pyfloat → res CommandResult;
  t_read : string → option string;
  t_size : string → option Z;
  t_artifacts : string → list (string * Z);
  t_mkdir : option exn;
  t_down : list Z;
  t_ts : string;
  t_now : pyfloat;
  t_notify : option exn;
}.

(** A pending subscriber, with the operation it belongs to. *)
Record entry := mkEntry {
  e_op : nat;
  e_event : pydict;
  e_handle : nat;
  e_dir : string;
  e_log : string;
  e_down : list Z;
  e_deadline : pyfloat;
}.

Section handlers.
Context `{FloatRepr} (c : config).

Definition op_host (ev : pydict) : res Z := v ← getitem ev "host"; py_int v.
Definition op_uri (ev : pydict) : res string :=
  v ← getitem ev "uri"; match v with PStr s => Ok s | _ => raise EAttributeError "no attribute 'replace'" end.

Definition node_name (host : Z) : string := "h" +s+ str_Z host.
Definition in_run_dir (name : string) : string := run_dir c +s+ "/" +s+ name.
(** [_log_path]. *)
Definition log_path (cmd : string) (host : Z) (uri : string) : string := in_run_dir (content_log_name cmd (phase c) host uri).

(** [event.get("publisher_host") or self._uri_publishers.get(uri)]. *)
Definition publisher_of (ev : pydict) (uri : string) : pv :=
  if truthy (get_none ev "publisher_host") then get_none ev "publisher_host" else get_none (uri_publishers c) uri.

Definition infile (ev : pydict) : string := py_str (get_or ev "file" (PStr "./sample-putfile")).

(** [_do_put]: the record. *)
Definition do_put (t : tools) (ev : pydict) : res pydict :=
  host ← op_host ev;
  uri ← op_uri ev;
  let log := log_path "cefputfile" host uri in
  r ← t_run t (node_name host)
        (build_cefputfile_argv uri (infile ev) (node_name host) (get_none ev "rate") (get_none ev "block_size")
           (get_or ev "expiry" (PInt 3000)) (get_or ev "cache_time" (PInt 3000)) (get_none ev "valid_algo") (get_none ev "port_num")) log;
  Ok (content_record "put" (t_ts t) (phase c) (detect_put_success (returncode r)) host uri None log (returncode r) (t_down t) (PInt host)).

(** [_do_get]. *)
Definition do_get (t : tools) (ev : pydict) : res pydict :=
  host ← op_host ev;
  uri ← op_uri ev;
  let out := in_run_dir (phase c +s+ "_recvfile_h" +s+ str_Z host +s+ "_" +s+ safe_uri_label uri) in
  let log := log_path "cefgetfile" host uri in
  r ← t_run t (node_name host)
        (build_cefgetfile_argv uri out (node_name host) (get_or ev "owner_only" (PBool false)) (get_none ev "chunk")
           (get_none ev "pipeline") (get_none ev "valid_algo") (get_none ev "port_num") (get_none ev "sg")) log;
  Ok (content_record "get" (t_ts t) (phase c) (detect_get_success (t_read t log) (t_size t out) (returncode r)) host uri (Some out) log
        (returncode r) (t_down t) (publisher_of ev uri)).

(** [d.get(k, {}) or {}], whose fields are read next. *)
Definition options (ev : pydict) (key : string) : res pydict :=
  let v := get_or ev key (PDict []) in
  match if truthy v then v else PDict [] with
  | PDict d => Ok d
  | _ => raise EAttributeError "no attribute 'get'"
  end.

Definition five : pyfloat := FFin 5 0.
Definition thirty : pyfloat := FFin 30 0.
Definition float_max (x y : pyfloat) : pyfloat := if float_lt x y then y else x.

(** How long a subscriber is waited for. *)
Definition sub_wait_sec (uri : string) (sub_opts : pydict) : res pyfloat :=
  if negb (is_none (get_none sub_opts "wait")) then py_float (get_none sub_opts "wait")
  else match dget (pub_lifetime_by_uri c) uri with
       | Some v => f ← py_float v; Ok (float_add f five)
       | None => Ok thirty
       end.

(** [_do_pubsub_sub] up to the append of the entry. *)
Definition do_sub (t : tools) (i : nat) (ev : pydict) : res entry :=
  host ← op_host ev;
  uri ← op_uri ev;
  sub_opts ← options ev "sub_opts";
  wait_sec ← sub_wait_sec uri sub_opts;
  let dir := in_run_dir (phase c +s+ "_recvdir_h" +s+ str_Z host +s+ "_" +s+ safe_uri_label uri) in
  match t_mkdir t with
  | Some e => Raise e
  | None =>
      let log := log_path "cefsubfile" host uri in
      handle ← t_start t (node_name host)
                 (build_cefsubfile_argv uri (node_name host) (PStr dir) (get_none sub_opts "pipeline") (get_none sub_opts "ri_valid_algo")
                    (get_none sub_opts "td_valid_algo") (get_none sub_opts "port_num")) log;
      Ok (mkEntry i ev handle dir log (t_down t) (float_add (t_now t) wait_sec))
  end.

(** [record_sub_result]: the record. *)
Definition record_sub_result (t : tools) (item : entry) (r : CommandResult) : res pydict :=
  host ← op_host (e_event item);
  uri ← op_uri (e_event item);
  let v := detect_sub_success r (t_artifacts t (e_dir item)) in
  Ok (content_record "sub" (t_ts t) (phase c) v host uri (Some (default (e_dir item) (artifact_path v))) (e_log item) (returncode r)
        (e_down item) (publisher_of (e_event item) uri)).

(** Waiting for a subscriber and recording it. *)
Definition collect_sub (t : tools) (item : entry) : res pydict :=
  r ← t_wait t (e_handle item) (e_deadline item); record_sub_result t item r.

(** The fields [_do_pubsub_pub] reads before its grace period. *)
Definition pub_fields (ev : pydict) : res (Z * string * pydict) :=
  host ← op_host ev; uri ← op_uri ev; pub_opts ← options ev "pub_opts"; Ok (host, uri, pub_opts).

(** How long the publisher may run. *)
Definition pub_deadline (t : tools) (entries : list entry) (pub_opts : pydict) : res pyfloat :=
  let remaining := match entries with
                   | [] => thirty
                   | e :: es => float_max (FFin 0 0) (float_add (foldl (λ d x, float_max d (e_deadline x)) (e_deadline e) es) (float_neg (t_now t)))
                   end in
  lifetime ← py_float (get_or pub_opts "lifetime" (PInt 3));
  Ok (float_add (float_max remaining lifetime) five).

(** [_do_pubsub_pub] from there to the record of the publisher. *)
Definition do_pub (t : tools) (ev : pydict) (entries : list entry) : res pydict :=
  '(host, uri, pub_opts) ← pub_fields ev;
  deadline ← pub_deadline t entries pub_opts;
  let log := log_path "cefpubfile" host uri in
  let opt k := get_none pub_opts k in
  handle ← t_start t (node_name host)
             (build_cefpubfile_argv uri (infile ev) (node_name host) (opt "rate") (opt "block_size") (opt "expiry") (opt "cache_time")
                (opt "lifetime") (opt "retry_limit") (opt "target") (opt "ti_valid_algo") (opt "rd_valid_algo") (opt "port_num")) log;
  r ← t_wait t handle (float_add (t_now t) deadline);
  let stopped := timed_out r || cancelled r in
  Ok (content_record "pub" (t_ts t) (phase c) (detect_pub_success (returncode r) stopped) host uri None log (returncode r) (t_down t) (PInt host)).

(** [_do_ccninfo]; the expectations are strings in a validated event. *)
Definition text_of (v : pv) : option string := match v with PNone => None | v => Some (py_str v) end.
Definition text_list (v : pv) : res (option (list string)) :=
  if is_none v then Ok None else (λ l : list pv, Some (py_str <$> l)) <$> py_list v.
Definition do_ccninfo (t : tools) (ev : pydict) : res pydict :=
  host ← op_host ev;
  uri ← op_uri ev;
  let log := log_path "ccninfo" host uri in
  let expected_responder := text_of (get_none ev "expected_responder") in
  expected_route ← text_list (get_none ev "expected_route");
  let env_dir := cwd c +s+ "/" +s+ node_name host +s+ "/.cefore_env" in
  let ran := t_run t (node_name host)
               (["env"; "CEFORE_DIR=" +s+ env_dir]
                ++ build_ccninfo_argv uri (node_name host) (get_or ev "cache_info" (PBool false)) (get_or ev "owner_only" (PBool false))
                     (get_none ev "hop_count") (get_none ev "skip_hop") (get_none ev "valid_algo") PNone) log in
  judged ← match ran with
           | Ok r => Ok (detect_ccninfo_success (t_read t log) r expected_responder expected_route)
           | Raise e =>
               if is_exception e
               then Ok (from_runtime_ccninfo None false false false None [] expected_responder expected_route, no_reply)
               else Raise e
           | NoFuel => NoFuel
           end;
  Ok (ccninfo_record (t_ts t) (phase c) (fst judged) (snd judged) host uri log (t_down t) expected_responder expected_route).

End handlers.

(** * Shared state *)

(** The worker's position: between the operations it takes from the queue. *)
Inductive worker :=
  | Idle
  | Taken (i : nat) (o : op)
  | Running (i : nat) (o : op)
  | Started (e : entry)
  | Granted (i : nat) (ev : pydict) (uri : string)
  | Publishing (i : nat) (ev : pydict) (entries : list entry)
  | Collecting (entries : list entry)
  | Ended.

(** The caller's position in [wait_all] ([false]) and [stop] ([true]). *)
Inductive caller :=
  | Outside
  | WaitAll
  | Discarding (stopping : bool)
  | Putting
  | Joining
  | Taking (stopping : bool)
  | Leftovers (stopping : bool) (entries : list entry).

(** Operations are numbered as they are submitted.  The fields from [ops] on are not
    in the program; they account for what became of each operation: the discarded
    and the failed ones, whether a [stop] found the worker ended, how many had been
    submitted when a [stop] put its sentinel for the first time, and whether the
    worker died of an exception that is no [Exception]. *)
Record runner := mkRunner {
  queue : list (option (nat * op));
  unfinished : Z;
  pending : list (string * list entry);
  cancel : bool;
  at_work : worker;
  at_call : caller;
  sink : list (nat * pydict);
  ops : list op;
  dropped : list nat;
  failed : list nat;
  clean : bool;
  sentinel_after : option nat;
  crashed : bool;
}.

Definition new_runner : runner := mkRunner [] 0 [] false Idle Outside [] [] [] [] false None false.

Definition set_worker (w : worker) (s : runner) : runner :=
  mkRunner (queue s) (unfinished s) (pending s) (cancel s) w (at_call s) (sink s) (ops s) (dropped s) (failed s) (clean s) (sentinel_after s) (crashed s).
Definition set_caller (k : caller) (s : runner) : runner :=
  mkRunner (queue s) (unfinished s) (pending s) (cancel s) (at_work s) k (sink s) (ops s) (dropped s) (failed s) (clean s) (sentinel_after s) (crashed s).
Definition set_queue (q : list (option (nat * op))) (n : Z) (s : runner) : runner :=
  mkRunner q n (pending s) (cancel s) (at_work s) (at_call s) (sink s) (ops s) (dropped s) (failed s) (clean s) (sentinel_after s) (crashed s).
Definition set_pending (p : list (string * list entry)) (s : runner) : runner :=
  mkRunner (queue s) (unfinished s) p (cancel s) (at_work s) (at_call s) (sink s) (ops s) (dropped s) (failed s) (clean s) (sentinel_after s) (crashed s).
Definition set_cancel (s : runner) : runner :=
  mkRunner (queue s) (unfinished s) (pending s) true (at_work s) (at_call s) (sink s) (ops s) (dropped s) (failed s) (clean s) (sentinel_after s) (crashed s).
Definition set_clean (b : bool) (s : runner) : runner :=
  mkRunner (queue s) (unfinished s) (pending s) (cancel s) (at_work s) (at_call s) (sink s) (ops s) (dropped s) (failed s) b (sentinel_after s) (crashed s).
(** The sink's [_append]. *)
Definition emit (i : nat) (r : pydict) (s : runner) : runner :=
  mkRunner (queue s) (unfinished s) (pending s) (cancel s) (at_work s) (at_call s) (sink s ++ [(i, r)]) (ops s) (dropped s) (failed s) (clean s) (sentinel_after s) (crashed s).
Definition drop (ids : list nat) (s : runner) : runner :=
  mkRunner (queue s) (unfinished s) (pending s) (cancel s) (at_work s) (at_call s) (sink s) (ops s) (dropped s ++ ids) (failed s) (clean s) (sentinel_after s) (crashed s).
Definition fail (ids : list nat) (s : runner) : runner :=
  mkRunner (queue s) (unfinished s) (pending s) (cancel s) (at_work s) (at_call s) (sink s) (ops s) (dropped s) (failed s ++ ids) (clean s) (sentinel_after s) (crashed s).

Definition set_sentinel (s : runner) : runner :=
  mkRunner (queue s) (unfinished s) (pending s) (cancel s) (at_work s) (at_call s) (sink s) (ops s) (dropped s) (failed s) (clean s)
    (Some (default (length (ops s)) (sentinel_after s))) (crashed s).
Definition set_crashed (s : runner) : runner :=
  mkRunner (queue s) (unfinished s) (pending s) (cancel s) (at_work s) (at_call s) (sink s) (ops s) (dropped s) (failed s) (clean s)
    (sentinel_after s) true.

(** [submit]. *)
Definition submit (o : op) (s : runner) : runner :=
  mkRunner (queue s ++ [Some (length (ops s), o)]) (unfinished s + 1) (pending s) (cancel s) (at_work s) (at_call s) (sink s)
    (ops s ++ [o]) (dropped s) (failed s) (clean s) (sentinel_after s) (crashed s).

(** The lists of pending subscribers, per URI. *)
Fixpoint add_pending (uri : string) (e : entry) (p : list (string * list entry)) : list (string * list entry) :=
  match p with
  | [] => [(uri, [e])]
  | (u, es) :: p => if bool_decide (u = uri) then (u, es ++ [e]) :: p else (u, es) :: add_pending uri e p
  end.
Fixpoint pop_pending (uri : string) (p : list (string * list entry)) : list entry * list (string * list entry) :=
  match p with
  | [] => ([], [])
  | (u, es) :: p => if bool_decide (u = uri) then (es, p) else let '(found, p) := pop_pending uri p in (found, (u, es) :: p)
  end.
Definition all_pending (p : list (string * list entry)) : list entry := p ≫= snd.

(** [task_done], and back to the queue; an exception that is no [Exception] ends
    the thread. *)
Definition finish (s : runner) : runner := set_worker Idle (set_queue (queue s) (unfinished s - 1) s).
Definition finish_raised (e : exn) (ids : list nat) (s : runner) : runner :=
  fail ids (if is_exception e then finish s else set_crashed (set_worker Ended (finish s))).

Section threads.
Context `{FloatRepr} (c : config).

(** A record handed to the sink; afterwards a subscriber of it may raise. *)
Definition deliver (t : tools) (i : nat) (r : pydict) (next : runner → runner) (raised : exn → runner → runner) (s : runner) : runner :=
  match t_notify t with None => next (emit i r s) | Some e => raised e (emit i r s) end.

Definition with_result {A} (m : res A) (next : A → runner → runner) (raised : exn → runner → runner) (s : runner) : runner :=
  match m with Ok a => next a s | Raise e => raised e s | NoFuel => raised (Exn EOther "") s end.

Definition entry_ids (es : list entry) : list nat := e_op <$> es.

(** [_dispatch] up to the handler's first step on shared state. *)
Definition dispatch (t : tools) (i : nat) (o : op) (s : runner) : runner :=
  let '(ty, ev) := o in
  let single m := with_result m (λ r, deliver t i r finish (λ e, finish_raised e [])) (λ e, finish_raised e [i]) s in
  if bool_decide (ty = "put") then single (do_put c t ev)
  else if bool_decide (ty = "get") then single (do_get c t ev)
  else if bool_decide (ty = "ccninfo") then single (do_ccninfo c t ev)
  else if bool_decide (ty = "pubsub_sub") then
    with_result (do_sub c t i ev) (λ e, set_worker (Started e)) (λ e, finish_raised e [i]) s
  else if bool_decide (ty = "pubsub_pub") then
    with_result (pub_fields ev)
      (λ f s, if startup_grace c && cancel s then drop [i] (finish s) else set_worker (Granted i ev f.1.2) s)
      (λ e, finish_raised e [i]) s
  else drop [i] (finish s).

(** The append of a started subscriber. *)
Definition append_sub (e : entry) (s : runner) : runner :=
  with_result (op_uri (e_event e)) (λ uri s, set_pending (add_pending uri e (pending s)) (finish s))
    (λ x, finish_raised x [e_op e]) s.

(** After the grace period the subscribers waiting for the URI are taken. *)
Definition take_subs (i : nat) (ev : pydict) (uri : string) (s : runner) : runner :=
  let '(es, p) := pop_pending uri (pending s) in set_pending p (set_worker (Publishing i ev es) s).

(** The publisher is run and recorded; then its subscribers are collected. *)
Definition publish (t : tools) (i : nat) (ev : pydict) (es : list entry) (s : runner) : runner :=
  with_result (do_pub c t ev es)
    (λ r, deliver t i r (set_worker (Collecting es)) (λ e, finish_raised e (entry_ids es)))
    (λ e, finish_raised e (i :: entry_ids es)) s.

(** One subscriber is waited for and recorded. *)
Definition collect (t : tools) (item : entry) (next : runner → runner) (raised : exn → list nat → runner → runner) (rest : list entry)
    (s : runner) : runner :=
  with_result (collect_sub c t item)
    (λ r, deliver t (e_op item) r next (λ e, raised e (entry_ids rest)))
    (λ e, raised e (e_op item :: entry_ids rest)) s.

(** The steps of the three threads. *)
Inductive step (s : runner) : runner → Prop :=
  | step_submit o : step s (submit o s)
  | step_get i o q :
      at_work s = Idle → queue s = Some (i, o) :: q → step s (set_worker (Taken i o) (set_queue q (unfinished s) s))
  | step_get_none q :
      at_work s = Idle → queue s = None :: q → step s (set_worker Ended (set_queue q (unfinished s - 1) s))
  | step_check i o :
      at_work s = Taken i o → step s (if cancel s then drop [i] (finish s) else set_worker (Running i o) s)
  | step_dispatch t i o : at_work s = Running i o → step s (dispatch t i o s)
  | step_append e : at_work s = Started e → step s (append_sub e s)
  | step_take_subs i ev uri : at_work s = Granted i ev uri → step s (take_subs i ev uri s)
  | step_publish t i ev es : at_work s = Publishing i ev es → step s (publish t i ev es s)
  | step_collect t e es :
      at_work s = Collecting (e :: es) → step s (collect t e (set_worker (Collecting es)) finish_raised es s)
  | step_collected : at_work s = Collecting [] → step s (finish s)
  | step_wait_all : at_call s = Outside → step s (set_caller WaitAll s)
  | step_drained : at_call s = WaitAll → unfinished s = 0 → step s (set_caller (Taking false) s)
  | step_expired : at_call s = WaitAll → unfinished s ≠ 0 → step s (set_caller (Discarding false) (set_cancel s))
  | step_stop : at_call s = Outside → step s (set_caller (Discarding true) (set_cancel s))
  | step_discard b i o q :
      at_call s = Discarding b → queue s = Some (i, o) :: q → step s (drop [i] (set_queue q (unfinished s - 1) s))
  | step_discard_none b q :
      at_call s = Discarding b → queue s = None :: q →
      step s (set_caller (if b then Putting else Taking false) (set_queue q (unfinished s - 1) s))
  | step_discarded b :
      at_call s = Discarding b → queue s = [] → step s (set_caller (if b then Putting else Taking false) s)
  | step_put : at_call s = Putting → 
      step s (set_sentinel (set_caller Joining (set_queue (queue s ++ [None]) (unfinished s + 1) s)))
  | step_join (timed_out : bool) :
      at_call s = Joining → (timed_out = false → at_work s = Ended) → step s (set_caller (Taking true) s)
  | step_take b :
      at_call s = Taking b →
      step s (set_clean (clean s || b && match at_work s with Ended => true | _ => false end)
                (set_caller (Leftovers b (all_pending (pending s))) (set_pending [] s)))
  | step_leftover t b e es :
      at_call s = Leftovers b (e :: es) →
      step s (collect t e (set_caller (Leftovers b es)) (λ _ ids s, set_caller Outside (fail ids s)) es s)
  | step_return b : at_call s = Leftovers b [] → step s (set_caller Outside s).

Definition reachable (s : runner) : Prop := rtc step new_runner s.
End threads.

(** * Typed records *)

(** A record has the given keys in order, each with a value of its type. *)
Fixpoint has_schema (schema : list (string * (pv → bool))) (r : pydict) : bool :=
  match schema, r with
  | [], [] => true
  | (k, ty) :: schema, (PStr k', v) :: r => bool_decide (k' = k) && ty v && has_schema schema r
  | _, _ => false
  end.

Definition or_null (ty : pv → bool) (v : pv) : bool := is_none v || ty v.
Definition list_of (ty : pv → bool) (v : pv) : bool := match v with PList l => forallb ty l | _ => false end.
Definition is_float (v : pv) : bool := match v with PFloat _ => true | _ => false end.

Definition content_schema : list (string * (pv → bool)) :=
  [("op_type", is_str); ("ts", is_str); ("phase", is_str); ("host", is_int); ("uri", is_str); ("out_file", or_null is_str);
   ("log_file", is_str); ("exit_code", or_null is_int); ("down_hosts", list_of is_int); ("publisher_host", or_null is_int);
   ("publisher_down", is_bool); ("success", is_bool); ("has_completed_log", or_null is_bool); ("has_output_file", or_null is_bool)].

Definition hop_schema : list (string * (pv → bool)) := [("index", is_int); ("node", is_str); ("delay_ms", or_null is_float)].
Definition is_hop (v : pv) : bool := match v with PDict d => has_schema hop_schema d | _ => false end.
Definition ccninfo_schema : list (string * (pv → bool)) :=
  [("op_type", is_str); ("ts", is_str); ("phase", is_str); ("host", is_int); ("uri", is_str); ("log_file", is_str);
   ("down_hosts", list_of is_int); ("exit_code", or_null is_int); ("timed_out", is_bool); ("cancelled", is_bool); ("success", is_bool);
   ("reply_received", is_bool); ("responder", or_null is_str); ("result", or_null is_str); ("rtt_ms", or_null is_float);
   ("route", list_of is_hop); ("cache_lines", list_of is_str); ("expected_responder", or_null is_str);
   ("expected_route", or_null (list_of is_str)); ("responder_matched", or_null is_bool); ("route_matched", or_null is_bool)].

(** The type an operation is recorded under, with the schema of its record. *)
Definition recorded_as (ty : string) : option (string * list (string * (pv → bool))) :=
  if bool_decide (ty = "put") then Some ("put", content_schema)
  else if bool_decide (ty = "get") then Some ("get", content_schema)
  else if bool_decide (ty = "pubsub_sub") then Some ("sub", content_schema)
  else if bool_decide (ty = "pubsub_pub") then Some ("pub", content_schema)
  else if bool_decide (ty = "ccninfo") then Some ("ccninfo", ccninfo_schema)
  else None.

(** What a successful ccninfo record shows: the exit status, that the run was not
    cut short, the reply, and that the stated expectations were met. *)
Definition hop_name (hop : pv) : pv := match hop with PDict d => get_none d "node" | _ => PNone end.
Definition ccninfo_evidence (r : pydict) : Prop :=
  dget r "exit_code" = Some (PInt 0) ∧ dget r "timed_out" = Some (PBool false) ∧ dget r "cancelled" = Some (PBool false) ∧
  dget r "reply_received" = Some (PBool true) ∧
  (∀ e, dget r "expected_responder" = Some (PStr e) →
     dget r "responder" = Some (PStr e) ∧ dget r "responder_matched" = Some (PBool true)) ∧
  (∀ l, dget r "expected_route" = Some (PList l) → dget r "route_matched" = Some (PBool true) ∧
     ∃ hops, dget r "route" = Some (PList hops) ∧ l `sublist_of` (hop_name <$> hops)).

(** The evidence in a successful record of a kind. *)
Definition evidence (ty : string) (r : pydict) : Prop :=
  if bool_decide (ty = "ccninfo") then ccninfo_evidence r
  else if bool_decide (ty = "sub") then dget r "has_output_file" = Some (PBool true)
  else dget r "exit_code" = Some (PInt 0) ∧
       (ty = "get" → dget r "has_completed_log" = Some (PBool true) ∧ dget r "has_output_file" = Some (PBool true)).

(** The publishers a configuration and an event name are hosts. *)
Definition publishers_typed (c : config) : Prop := ∀ uri, or_null is_int (get_none (uri_publishers c) uri) = true.
Definition publisher_typed (ev : pydict) : bool :=
  negb (truthy (get_none ev "publisher_host")) || is_int (get_none ev "publisher_host").

(** What a record says of the publisher or of the expectations of its event. *)
Definition names_context `{FloatRepr} (c : config) (ty : string) (host : Z) (uri : string) (ev r : pydict) : Prop :=
  if bool_decide (ty = "ccninfo") then
    dget r "expected_responder" = Some (opt PStr (text_of (get_none ev "expected_responder"))) ∧
    ∃ route, text_list (get_none ev "expected_route") = Ok route ∧
      dget r "expected_route" = Some (opt (λ l, PList (PStr <$> l)) route)
  else dget r "publisher_host" = Some (if (ty =? "put")%string || (ty =? "pub")%string then PInt host else publisher_of c ev uri).

(** The record of an operation. *)
Definition describes `{FloatRepr} (c : config) (o : op) (r : pydict) : Prop := ∃ ty schema host uri,
  recorded_as o.1 = Some (ty, schema) ∧ r.*1 = PStr <$> schema.*1 ∧
  (publishers_typed c → publisher_typed o.2 = true → has_schema schema r = true) ∧
  op_host o.2 = Ok host ∧ op_uri o.2 = Ok uri ∧
  dget r "op_type" = Some (PStr ty) ∧ dget r "host" = Some (PInt host) ∧ dget r "uri" = Some (PStr uri) ∧
  names_context c ty host uri o.2 r ∧ (dget r "success" = Some (PBool true) → evidence ty r).

Lemma forallb_fmap {A} (f : A → pv) (ty : pv → bool) (l : list A) : (∀ a, ty (f a) = true) → forallb ty (f <$> l) = true.
Proof. intros Hf. induction l as [|a l IH]; [done|]. simpl. by rewrite Hf. Qed.

Lemma or_null_opt {A} (f : A → pv) (ty : pv → bool) (o : option A) : (∀ a, ty (f a) = true) → or_null ty (opt f o) = true.
Proof. intros Hf. destruct o as [a|]; [|done]. unfold or_null. simpl. rewrite Hf. apply orb_true_r. Qed.

Lemma content_typed op ts ph v host uri out log code down publisher b :
  success v = Some b → or_null is_int publisher = true →
  has_schema content_schema (content_record op ts ph v host uri out log code down publisher) = true.
Proof.
  intros Hs Hp. unfold content_record, content_schema. rewrite Hs. cbn [has_schema]. rewrite !bool_decide_eq_true_2 by done.
  rewrite !or_null_opt by done. cbn [list_of]. rewrite forallb_fmap by done. by rewrite Hp.
Qed.

Lemma publisher_of_typed `{FloatRepr} c ev uri :
  publishers_typed c → publisher_typed ev = true → or_null is_int (publisher_of c ev uri) = true.
Proof.
  intros Hc He. unfold publisher_of. unfold publisher_typed in He. destruct (truthy _); [|apply Hc].
  simpl in He. unfold or_null. by rewrite He, orb_true_r.
Qed.

Lemma ccninfo_typed ts ph v reply host uri log down er ert :
  has_schema ccninfo_schema (ccninfo_record ts ph v reply host uri log down er ert) = true.
Proof.
  unfold ccninfo_record, ccninfo_schema. cbn [has_schema]. rewrite !bool_decide_eq_true_2 by done. cbn [list_of].
  assert (Hhop : ∀ h, is_hop (hop_dict h) = true).
  { intros h. unfold hop_dict, is_hop, hop_schema. cbn [has_schema]. rewrite !bool_decide_eq_true_2 by done. by rewrite or_null_opt. }
  assert (Hlist : ∀ l : list string, list_of is_str (PList (PStr <$> l)) = true) by (intros l; by apply forallb_fmap).
  by rewrite !or_null_opt, !forallb_fmap.
Qed.

Lemma content_fields op ts ph v host uri out log code down publisher :
  let r := content_record op ts ph v host uri out log code down publisher in
  dget r "op_type" = Some (PStr op) ∧ dget r "host" = Some (PInt host) ∧ dget r "uri" = Some (PStr uri) ∧
  dget r "success" = Some (opt PBool (success v)) ∧ dget r "exit_code" = Some (opt PInt code) ∧
  dget r "has_completed_log" = Some (opt PBool (has_completed_log v)) ∧ dget r "has_output_file" = Some (opt PBool (has_output_file v)).
Proof. cbv zeta. repeat split. Qed.

Section records.
Context `{FloatRepr} (c : config).

Lemma describes_content o op ts ph v host uri out log code down publisher b :
  recorded_as o.1 = Some (op, content_schema) → op ≠ "ccninfo" → op_host o.2 = Ok host → op_uri o.2 = Ok uri → success v = Some b →
  publisher = (if (op =? "put")%string || (op =? "pub")%string then PInt host else publisher_of c o.2 uri) →
  (b = true → if bool_decide (op = "sub") then has_output_file v = Some true
              else code = Some 0 ∧ (op = "get" → has_completed_log v = Some true ∧ has_output_file v = Some true)) →
  describes c o (content_record op ts ph v host uri out log code down publisher).
Proof.
  intros Ho Hne Hh Hu Hs Hpub Hb. pose proof (content_fields op ts ph v host uri out log code down publisher) as (F1 & F2 & F3 & F4 & F5 & F6 & F7).
  exists op, content_schema, host, uri. split_and!; try done.
  - intros Hc He. eapply content_typed; [done|]. rewrite Hpub. destruct (_ || _); [done|]. by apply publisher_of_typed.
  - unfold names_context. rewrite (bool_decide_eq_false_2 (op = "ccninfo")) by done. by rewrite <- Hpub.
  - rewrite F4, Hs. intros [= ->]. specialize (Hb eq_refl). unfold evidence. rewrite (bool_decide_eq_false_2 (op = "ccninfo")) by done.
    rewrite F5, F6, F7. destruct (bool_decide (op = "sub")); [by rewrite Hb|]. destruct Hb as [-> Hget]. split; [done|].
    intros Hop. by destruct (Hget Hop) as [-> ->].
Qed.

Lemma put_describes t ev r : do_put c t ev = Ok r → describes c ("put", ev) r.
Proof.
  unfold do_put. intros Hr. inv_ok. eapply describes_content; try done. simpl. unfold exit_ok. by intros ->%bool_decide_eq_true.
Qed.

Lemma get_describes t ev r : do_get c t ev = Ok r → describes c ("get", ev) r.
Proof.
  unfold do_get. intros Hr. inv_ok. eapply describes_content; try done. simpl. unfold exit_ok.
  intros [[->%bool_decide_eq_true Hl]%andb_true_iff Ho]%andb_true_iff. rewrite Hl, Ho. done.
Qed.

Lemma pub_describes t ev es r : do_pub c t ev es = Ok r → describes c ("pubsub_pub", ev) r.
Proof.
  unfold do_pub. intros (f & Hf & Hr)%res_bind_Ok. unfold pub_fields in Hf. inv_ok.
  eapply describes_content; try done. simpl. unfold exit_ok. intros [->%bool_decide_eq_true _]%andb_true_iff. done.
Qed.

Lemma sub_describes t e r : collect_sub c t e = Ok r → describes c ("pubsub_sub", e_event e) r.
Proof.
  unfold collect_sub, record_sub_result. intros Hr. inv_ok. eapply describes_content; try done. simpl.
  intros [Ho _]%andb_true_iff. by rewrite Ho.
Qed.

Lemma hop_names (hops : list CcninfoHop) : hop_name <$> (hop_dict <$> hops) = PStr <$> (hop_node <$> hops).
Proof. rewrite <- !list_fmap_compose. by apply list_fmap_ext. Qed.

(** A successful verdict on a reply is evident in the record of both. *)
Lemma ccninfo_evident ts ph code timed_out cancelled reply host uri log down responder route :
  let v := from_runtime_ccninfo code timed_out cancelled (CcninfoParse.reply_received reply) (CcninfoParse.responder reply)
             (hop_node <$> CcninfoParse.route reply) responder route in
  c_success v = true → ccninfo_evidence (ccninfo_record ts ph v reply host uri log down responder route).
Proof.
  intros v Hv. unfold v in Hv. apply ccninfo_success_iff in Hv as (-> & -> & -> & Hrep & Hresp & Hroute).
  unfold ccninfo_evidence. split_and!; try done; [by cbn; rewrite Hrep|..].
  - intros e He. change (Some (opt PStr responder) = Some (PStr e)) in He. destruct responder as [e'|]; [|done].
    injection He as ->. specialize (Hresp e eq_refl).
    split; [change (Some (opt PStr (CcninfoParse.responder reply)) = Some (PStr e)); by rewrite Hresp|].
    change (Some (PBool (bool_decide (CcninfoParse.responder reply = Some e))) = Some (PBool true)). by rewrite bool_decide_eq_true_2.
  - intros l Hl. change (Some (opt (λ l, PList (PStr <$> l)) route) = Some (PList l)) in Hl. destruct route as [l'|]; [|done].
    injection Hl as <-. specialize (Hroute l' eq_refl). split.
    + change (Some (PBool (route_is_ordered_subsequence l' (hop_node <$> CcninfoParse.route reply))) = Some (PBool true)).
      by apply route_subsequence_sublist in Hroute as ->.
    + exists (hop_dict <$> CcninfoParse.route reply). split; [done|]. rewrite hop_names. by apply fmap_sublist.
Qed.

Lemma ccninfo_describes t ev r : do_ccninfo c t ev = Ok r → describes c ("ccninfo", ev) r.
Proof.
  unfold do_ccninfo. intros Hr. apply res_bind_Ok in Hr as (host & Hh & Hr). apply res_bind_Ok in Hr as (uri & Hu & Hr).
  apply res_bind_Ok in Hr as (route & Hroute & Hr). apply res_bind_Ok in Hr as ([v reply] & Hj & Hr). injection Hr as <-.
  exists "ccninfo", ccninfo_schema, host, uri. split_and!; try done.
  - intros _ _. apply ccninfo_typed.
  - split; [done|]. by exists route.
  - intros Hs. change (Some (PBool (c_success v)) = Some (PBool true)) in Hs. injection Hs as Hs. change (evidence "ccninfo") with ccninfo_evidence.
    destruct (t_run _ _ _ _) as [x|e|]; [|destruct (is_exception e)|]; try done; injection Hj as <- <-; [|done].
    by apply ccninfo_evident.
Qed.
End records.

(** * What becomes of each operation *)

Definition queue_ids (q : list (option (nat * op))) : list nat := omap (λ x, fst <$> x) q.
Definition worker_ids (w : worker) : list nat :=
  match w with
  | Idle | Ended => []
  | Taken i _ | Running i _ | Granted i _ _ => [i]
  | Started e => [e_op e]
  | Publishing i _ es => i :: entry_ids es
  | Collecting es => entry_ids es
  end.
Definition caller_ids (k : caller) : list nat := match k with Leftovers _ es => entry_ids es | _ => [] end.
Definition busy (w : worker) : Z := match w with Idle | Ended => 0 | _ => 1 end.

(** Where the submitted operations are. *)
Definition places (s : runner) : list nat :=
  queue_ids (queue s) ++ worker_ids (at_work s) ++ entry_ids (all_pending (pending s)) ++ caller_ids (at_call s)
  ++ (sink s).*1 ++ dropped s ++ failed s.

Definition occ (l : list nat) (i : nat) : nat := count_occ Nat.eq_dec l i.

Lemma occ_app l l' i : occ (l ++ l') i = (occ l i + occ l' i)%nat.
Proof. apply count_occ_app. Qed.
Lemma occ_cons x l i : occ (x :: l) i = ((if decide (x = i) then 1 else 0) + occ l i)%nat.
Proof. unfold occ. simpl. destruct (Nat.eq_dec x i), (decide (x = i)); done. Qed.
Lemma occ_nil i : occ [] i = 0%nat.
Proof. done. Qed.

Record counted (s : runner) : Prop := {
  ct_places : ∀ i, occ (places s) i = if (i <? length (ops s))%nat then 1%nat else 0%nat;
  ct_unfinished : unfinished s = Z.of_nat (length (queue s)) + busy (at_work s);
  ct_clean : clean s = true → at_work s = Ended ∧ pending s = [];
}.

Lemma occ_add_pending uri e p i :
  occ (entry_ids (all_pending (add_pending uri e p))) i = (occ [e_op e] i + occ (entry_ids (all_pending p)) i)%nat.
Proof.
  induction p as [|[u es] p IH]; [done|]. simpl. case_bool_decide; unfold all_pending, entry_ids in *; rewrite ?bind_cons; simpl;
    rewrite ?fmap_app, ?occ_app, ?IH; simpl; lia.
Qed.

Lemma occ_pop_pending uri p es p' i : pop_pending uri p = (es, p') →
  occ (entry_ids (all_pending p)) i = (occ (entry_ids es) i + occ (entry_ids (all_pending p')) i)%nat.
Proof.
  unfold all_pending, entry_ids. revert es p'. induction p as [|[u l] p IH]; intros es p'; [by intros [= <- <-]|].
  rewrite bind_cons, fmap_app, occ_app. cbn [pop_pending snd]. case_bool_decide; [by intros [= <- <-]|].
  destruct (pop_pending uri p) as [found q]. intros [= <- <-]. rewrite bind_cons, fmap_app, occ_app, (IH found q eq_refl).
  cbn [snd]. lia.
Qed.

Lemma queue_ids_app q q' : queue_ids (q ++ q') = queue_ids q ++ queue_ids q'.
Proof. unfold queue_ids. by rewrite omap_app. Qed.

Lemma queue_ids_cons x q : queue_ids (x :: q) = (match x with Some io => [io.1] | None => [] end) ++ queue_ids q.
Proof. by destruct x. Qed.

Lemma queue_ids_nil : queue_ids [] = [].
Proof. done. Qed.
Lemma entry_ids_cons e es : entry_ids (e :: es) = e_op e :: entry_ids es.
Proof. done. Qed.

#[local] Arguments occ : simpl never.
#[local] Arguments entry_ids : simpl never.
#[local] Arguments queue_ids : simpl never.

(** Count the operations in every place. *)
Ltac count :=
  unfold places, finish_raised, finish in *;
  repeat match goal with |- context [is_exception ?e] => destruct (is_exception e) end;
  cbn [set_worker set_caller set_queue set_pending set_cancel set_clean set_sentinel set_crashed emit drop fail
       queue unfinished pending cancel at_work at_call sink ops dropped failed clean sentinel_after crashed worker_ids caller_ids busy] in *;
  rewrite ?entry_ids_cons, ?queue_ids_nil, ?queue_ids_app, ?queue_ids_cons, ?length_app, ?fmap_app in *;
  cbn [fmap list_fmap length fst] in *;
  rewrite ?occ_app, ?occ_cons, ?occ_nil in *; try lia.

Section counting.
Context `{FloatRepr} (c : config).

Lemma counted_submit o s : counted s → counted (submit o s).
Proof.
  intros [Hp Hu Hc]. unfold submit. split; [|count|done].
  intros i. specialize (Hp i). count.
  destruct (Nat.ltb_spec i (length (ops s))), (Nat.ltb_spec i (length (ops s) + 1)), (decide (length (ops s) = i)); lia.
Qed.

(** The worker ends its operation, having moved its subscribers elsewhere. *)
Ltac count_goals := split; [intros j; match goal with H : ∀ i, occ _ i = (if _ then _ else _) |- _ => specialize (H j) end; count|count|].

Lemma counted_dispatch t i o s : at_work s = Running i o → counted s → counted (dispatch c t i o s).
Proof.
  intros Hw [Hp Hu Hc]. unfold places in Hp. rewrite Hw in Hp, Hu. destruct o as [ty ev]. unfold dispatch.
  assert (Hcl : clean s = false) by (destruct (clean s); [destruct (Hc eq_refl); congruence|done]).
  assert (Hsingle : ∀ m : res pydict,
    counted (with_result m (λ r, deliver t i r finish (λ e, finish_raised e [])) (λ e, finish_raised e [i]) s)).
  { intros [r|e|]; simpl; [unfold deliver; destruct (t_notify t) as [e|]|..]; unfold finish_raised;
      try destruct (is_exception _); (count_goals; simpl; rewrite ?Hcl; done). }

  repeat case_bool_decide; try apply Hsingle.
  - destruct (do_sub c t i ev) as [e|e|] eqn:Ed; simpl; [|unfold finish_raised; try destruct (is_exception _); (count_goals; simpl; rewrite ?Hcl; done)..].
    assert (e_op e = i) as <-.
    { unfold do_sub in Ed. inv_ok. destruct (t_mkdir t); [done|]. inv_ok. done. }
    count_goals. simpl. by rewrite Hcl.
  - destruct (pub_fields ev) as [[[host uri] opts]|e|]; simpl; [|unfold finish_raised; try destruct (is_exception _); (count_goals; simpl; rewrite ?Hcl; done)..].
    destruct (startup_grace c && cancel s); (count_goals; simpl; by rewrite Hcl).
  - count_goals. simpl. by rewrite Hcl.
Qed.

Lemma counted_append e s : at_work s = Started e → counted s → counted (append_sub e s).
Proof.
  intros Hw [Hp Hu Hc]. unfold places in Hp. rewrite Hw in Hp, Hu.
  assert (Hcl : clean s = false) by (destruct (clean s); [destruct (Hc eq_refl); congruence|done]).
  unfold append_sub. destruct (op_uri (e_event e)) as [uri|x|]; simpl; unfold finish_raised; try destruct (is_exception _);
    (count_goals; [..|simpl; rewrite ?Hcl; done]).
  pose proof (occ_add_pending uri e (pending s) j) as Ha. rewrite occ_cons, occ_nil in Ha. lia.
Qed.

Lemma counted_take i ev uri s : at_work s = Granted i ev uri → counted s → counted (take_subs i ev uri s).
Proof.
  intros Hw [Hp Hu Hc]. unfold places in Hp. rewrite Hw in Hp, Hu.
  assert (Hcl : clean s = false) by (destruct (clean s); [destruct (Hc eq_refl); congruence|done]).
  unfold take_subs. destruct (pop_pending uri (pending s)) as [es p] eqn:Ep.
  pose proof (λ j, occ_pop_pending _ _ _ _ j Ep) as Hpop. count_goals; [|simpl; by rewrite Hcl]. specialize (Hpop j). lia.
Qed.

Lemma counted_publish t i ev es s : at_work s = Publishing i ev es → counted s → counted (publish c t i ev es s).
Proof.
  intros Hw [Hp Hu Hc]. unfold places in Hp. rewrite Hw in Hp, Hu.
  assert (Hcl : clean s = false) by (destruct (clean s); [destruct (Hc eq_refl); congruence|done]).
  unfold publish. destruct (do_pub c t ev es) as [r|e|]; simpl; [unfold deliver; destruct (t_notify t) as [e|]|..];
    unfold finish_raised; try destruct (is_exception _); (count_goals; simpl; rewrite ?Hcl; done).
Qed.

Lemma counted_collect t e es s : at_work s = Collecting (e :: es) → counted s →
  counted (collect c t e (set_worker (Collecting es)) finish_raised es s).
Proof.
  intros Hw [Hp Hu Hc]. unfold places in Hp. rewrite Hw in Hp, Hu.
  assert (Hcl : clean s = false) by (destruct (clean s); [destruct (Hc eq_refl); congruence|done]).
  unfold collect. destruct (collect_sub c t e) as [r|x|]; simpl; [unfold deliver; destruct (t_notify t) as [x|]|..];
    unfold finish_raised; try destruct (is_exception _); (count_goals; simpl; rewrite ?Hcl; done).
Qed.

Lemma counted_leftover t b e es s : at_call s = Leftovers b (e :: es) → counted s →
  counted (collect c t e (set_caller (Leftovers b es)) (λ _ ids s, set_caller Outside (fail ids s)) es s).
Proof.
  intros Hk [Hp Hu Hc]. unfold places in Hp. rewrite Hk in Hp.
  unfold collect. destruct (collect_sub c t e) as [r|x|]; simpl; [unfold deliver; destruct (t_notify t) as [x|]|..];
    (count_goals; simpl; done).
Qed.

Lemma step_counted s s' : step c s s' → counted s → counted s'.
Proof.
  destruct 1 as [o|i o q Hw Hq|q Hw Hq|i o Hw|t i o Hw|e Hw|i ev uri Hw|t i ev es Hw|t e es Hw|Hw|Hk|Hk Hz|Hk Hz|Hk|b i o q Hk Hq|b q Hk Hq|b Hk Hq|Hk|to Hk Hj|b Hk|t b e es Hk|b Hk];
    [apply counted_submit| | | |by apply counted_dispatch|by apply counted_append|by apply counted_take|by apply counted_publish|by apply counted_collect|..|by apply counted_leftover|].
  all: intros [Hp Hu Hc]; unfold places in Hp.
  all: try (assert (Hcl : at_work s ≠ Ended → clean s = false) by (intros Hne; destruct (clean s); [destruct (Hc eq_refl); congruence|done])).
  all: try rewrite Hw in Hp, Hu; try rewrite Hk in Hp; try rewrite Hq in Hp, Hu.
  - count_goals. simpl. rewrite Hcl by congruence. done.
  - count_goals. simpl. rewrite Hcl by congruence. done.
  - destruct (cancel s); (count_goals; simpl; rewrite Hcl by congruence; done).
  - count_goals. simpl. rewrite Hcl by congruence. done.
  - count_goals. exact Hc.
  - count_goals. exact Hc.
  - count_goals. exact Hc.
  - count_goals. exact Hc.
  - count_goals; [|exact Hc]. rewrite Hk, occ_nil. lia.
  - destruct b; (count_goals; exact Hc).
  - destruct b; (count_goals; try exact Hc; rewrite Hq; count).
  - count_goals. exact Hc.
  - count_goals. exact Hc.
  - count_goals. simpl. destruct (at_work s), (clean s) eqn:Ec; simpl; rewrite ?andb_false_r; try done;
      intros _; by destruct (Hc eq_refl).
  - count_goals. exact Hc.
Qed.
End counting.

(** ** Whose record it is *)

Definition entry_ok (os : list op) (e : entry) : Prop := os !! e_op e = Some ("pubsub_sub", e_event e).
Definition work_ok (os : list op) (w : worker) : Prop :=
  match w with
  | Idle | Ended => True
  | Taken i o | Running i o => os !! i = Some o
  | Started e => entry_ok os e
  | Granted i ev _ => os !! i = Some ("pubsub_pub", ev)
  | Publishing i ev es => os !! i = Some ("pubsub_pub", ev) ∧ Forall (entry_ok os) es
  | Collecting es => Forall (entry_ok os) es
  end.
Definition call_ok (os : list op) (k : caller) : Prop := match k with Leftovers _ es => Forall (entry_ok os) es | _ => True end.

Section consistency.
Context `{FloatRepr} (c : config).

Record consistent (s : runner) : Prop := {
  cs_queue : ∀ i o, Some (i, o) ∈ queue s → ops s !! i = Some o;
  cs_work : work_ok (ops s) (at_work s);
  cs_pending : Forall (entry_ok (ops s)) (all_pending (pending s));
  cs_call : call_ok (ops s) (at_call s);
  cs_sink : ∀ i r, (i, r) ∈ sink s → ∃ o, ops s !! i = Some o ∧ describes c o r;
}.

Lemma consistent_worker w s : work_ok (ops s) w → consistent s → consistent (set_worker w s).
Proof. intros Hw []. by split. Qed.
Lemma consistent_caller k s : call_ok (ops s) k → consistent s → consistent (set_caller k s).
Proof. intros Hk []. by split. Qed.
Lemma consistent_queue q n s : (∀ x, x ∈ q → x ∈ queue s ∨ x = None) → consistent s → consistent (set_queue q n s).
Proof. intros Hq [H1 H2 H3 H4 H5]. split; try done. simpl. intros i o [Hin|?]%Hq; [by apply H1|done]. Qed.
Lemma consistent_pending p s : Forall (entry_ok (ops s)) (all_pending p) → consistent s → consistent (set_pending p s).
Proof. intros Hp []. by split. Qed.
Lemma consistent_cancel s : consistent s → consistent (set_cancel s).
Proof. intros []. by split. Qed.
Lemma consistent_clean b s : consistent s → consistent (set_clean b s).
Proof. intros []. by split. Qed.
Lemma consistent_sentinel s : consistent s → consistent (set_sentinel s).
Proof. intros []. by split. Qed.
Lemma consistent_crashed s : consistent s → consistent (set_crashed s).
Proof. intros []. by split. Qed.
Lemma consistent_drop l s : consistent s → consistent (drop l s).
Proof. intros []. by split. Qed.
Lemma consistent_fail l s : consistent s → consistent (fail l s).
Proof. intros []. by split. Qed.
Lemma consistent_emit i r o s : ops s !! i = Some o → describes c o r → consistent s → consistent (emit i r s).
Proof.
  intros Ho Hr [H1 H2 H3 H4 H5]. split; try done. simpl. intros j q [Hin|[= -> ->]%list_elem_of_singleton]%elem_of_app; [by apply H5|by exists o].
Qed.
Lemma consistent_finish s : consistent s → consistent (finish s).
Proof. intros Hs. apply consistent_worker; [done|]. apply consistent_queue; [by left|done]. Qed.
Lemma consistent_raised e l s : consistent s → consistent (finish_raised e l s).
Proof.
  intros Hs. apply consistent_fail. destruct (is_exception e); [by apply consistent_finish|].
  apply consistent_crashed, consistent_worker; [done|]. by apply consistent_finish.
Qed.

#[local] Hint Resolve consistent_worker consistent_caller consistent_pending consistent_cancel consistent_clean consistent_drop
  consistent_fail consistent_finish consistent_raised : consistent.

Lemma consistent_submit o s : consistent s → consistent (submit o s).
Proof.
  intros [H1 H2 H3 H4 H5].
  assert (Hm : ∀ i x, ops s !! i = Some x → (ops s ++ [o]) !! i = Some x) by (intros i x; apply lookup_app_l_Some).
  assert (Hf : ∀ es, Forall (entry_ok (ops s)) es → Forall (entry_ok (ops s ++ [o])) es).
  { intros es Hes. eapply Forall_impl; [exact Hes|]. intros e. apply Hm. }
  split; simpl.
  - intros i x [Hin|[= -> ->]%list_elem_of_singleton]%elem_of_app; [by apply Hm, H1|]. by apply list_lookup_middle.
  - destruct (at_work s); simpl in *; try done; try (by apply Hm); try (by apply Hf). destruct H2. split; [by apply Hm|by apply Hf].
  - by apply Hf.
  - destruct (at_call s); try done. by apply Hf.
  - intros i r Hin. destruct (H5 i r Hin) as (x & Hx & Hd). exists x. split; [by apply Hm|done].
Qed.

Lemma pending_add_ok os uri e p : entry_ok os e → Forall (entry_ok os) (all_pending p) → Forall (entry_ok os) (all_pending (add_pending uri e p)).
Proof.
  intros He. unfold all_pending. induction p as [|[u es] p IH]; [by repeat constructor|]. rewrite bind_cons. intros [Hes Hp]%Forall_app.
  cbn [add_pending]. case_bool_decide; rewrite bind_cons; apply Forall_app; (split; [|by auto]); [|done]. apply Forall_app. split; [done|by constructor].
Qed.

Lemma pending_pop_ok os uri p es p' : pop_pending uri p = (es, p') → Forall (entry_ok os) (all_pending p) →
  Forall (entry_ok os) es ∧ Forall (entry_ok os) (all_pending p').
Proof.
  unfold all_pending. revert es p'. induction p as [|[u l] p IH]; intros es p'; [by intros [= <- <-]|]. rewrite bind_cons. cbn [pop_pending].
  intros E [Hl Hp]%Forall_app. case_bool_decide; [by injection E as <- <-|]. destruct (pop_pending uri p) as [found q]. injection E as <- <-.
  destruct (IH found q eq_refl Hp). rewrite bind_cons. split; [done|]. by apply Forall_app.
Qed.


Lemma consistent_deliver t i r o next raised s :
  ops s !! i = Some o → describes c o r → consistent s →
  (∀ s', ops s' = ops s → consistent s' → consistent (next s')) → (∀ e s', consistent s' → consistent (raised e s')) →
  consistent (deliver t i r next raised s).
Proof.
  intros Ho Hr Hs Hn Hx. assert (consistent (emit i r s)) by (by eapply consistent_emit). unfold deliver.
  destruct (t_notify t); [by apply Hx|by apply Hn].
Qed.

Lemma consistent_result {A} (m : res A) next raised s :
  consistent s → (∀ a, m = Ok a → consistent (next a s)) → (∀ e s', consistent s' → consistent (raised e s')) →
  consistent (with_result m next raised s).
Proof. intros Hs Hn Hx. destruct m; simpl; auto. Qed.

Lemma consistent_dispatch t i o s : ops s !! i = Some o → consistent s → consistent (dispatch c t i o s).
Proof.
  intros Ho Hs. destruct o as [ty ev]. unfold dispatch.
  assert (Hsingle : ∀ m : res pydict, (∀ r, m = Ok r → describes c (ty, ev) r) →
    consistent (with_result m (λ r, deliver t i r finish (λ e, finish_raised e [])) (λ e, finish_raised e [i]) s)).
  { intros m Hm. apply consistent_result; [done| |auto with consistent]. intros r Hr.
    eapply consistent_deliver; eauto with consistent. }
  case_bool_decide as E; [subst ty; apply Hsingle; intros r; apply put_describes|]. clear E.
  case_bool_decide as E; [subst ty; apply Hsingle; intros r; apply get_describes|]. clear E.
  case_bool_decide as E; [subst ty; apply Hsingle; intros r; apply ccninfo_describes|]. clear E.
  case_bool_decide as E; [subst ty|clear E; case_bool_decide as E; [subst ty|auto with consistent]].
  - apply consistent_result; [done| |auto with consistent]. intros e He. apply consistent_worker; [|done]. simpl. unfold entry_ok.
    unfold do_sub in He. inv_ok. destruct (t_mkdir t); [done|]. inv_ok. done.
  - apply consistent_result; [done| |auto with consistent]. intros [[host uri] opts] _.
    destruct (startup_grace c && cancel s); [auto with consistent|]. by apply consistent_worker.
Qed.

Lemma step_consistent s s' : step c s s' → consistent s → consistent s'.
Proof.
  destruct 1 as [o|i o q Hw Hq|q Hw Hq|i o Hw|t i o Hw|e Hw|i ev uri Hw|t i ev es Hw|t e es Hw|Hw|Hk|Hk Hz|Hk Hz|Hk|b i o q Hk Hq|b q Hk Hq|b Hk Hq|Hk|to Hk Hj|b Hk|t b e es Hk|b Hk];
    intros Hs; pose proof (cs_work s Hs) as Hwork; pose proof (cs_call s Hs) as Hcall; try rewrite Hw in Hwork; try rewrite Hk in Hcall;
    simpl in Hwork, Hcall.
  - by apply consistent_submit.
  - apply consistent_worker; [|apply consistent_queue; [|done]].
    + simpl. apply (cs_queue s Hs). rewrite Hq. by left.
    + intros x Hx. left. rewrite Hq. by right.
  - apply consistent_worker; [done|]. apply consistent_queue; [|done]. intros x Hx. left. rewrite Hq. by right.
  - destruct (cancel s); [auto with consistent|]. by apply consistent_worker.
  - by apply consistent_dispatch.
  - unfold append_sub. apply consistent_result; [done| |auto with consistent]. intros uri _.
    apply consistent_pending; [|by apply consistent_finish]. apply pending_add_ok; [done|]. apply Hs.
  - unfold take_subs. destruct (pop_pending _ (pending s)) as [es p] eqn:Ep.
    destruct (pending_pop_ok _ _ _ _ _ Ep (cs_pending s Hs)). apply consistent_pending; [done|]. by apply consistent_worker.
  - destruct Hwork as [Ho Hes]. unfold publish. apply consistent_result; [done| |auto with consistent]. intros r Hr.
    eapply consistent_deliver; [done|by eapply pub_describes|done| |auto with consistent].
    intros s' Hops Hs'. apply consistent_worker; [|done]. simpl. by rewrite Hops.
  - apply Forall_cons in Hwork as [He Hes]. unfold collect. apply consistent_result; [done| |auto with consistent]. intros r Hr.
    eapply consistent_deliver; [done|by eapply sub_describes|done| |auto with consistent].
    intros s' Hops Hs'. apply consistent_worker; [|done]. simpl. by rewrite Hops.
  - by apply consistent_finish.
  - by apply consistent_caller.
  - by apply consistent_caller.
  - apply consistent_caller; [done|]. by apply consistent_cancel.
  - apply consistent_caller; [done|]. by apply consistent_cancel.
  - apply consistent_drop, consistent_queue; [|done]. intros x Hx. left. rewrite Hq. by right.
  - apply consistent_caller; [by destruct b|]. apply consistent_queue; [|done]. intros x Hx. left. rewrite Hq. by right.
  - apply consistent_caller; [by destruct b|done].
  - apply consistent_sentinel, consistent_caller; [done|]. apply consistent_queue; [|done].
    intros x [Hx|Hx%list_elem_of_singleton]%elem_of_app; auto.
  - by apply consistent_caller.
  - apply consistent_clean, consistent_caller; [apply Hs|]. apply consistent_pending; [constructor|done].
  - apply Forall_cons in Hcall as [He Hes]. unfold collect. apply consistent_result; [done| |].
    + intros r Hr. eapply consistent_deliver; [done|by eapply sub_describes|done| |].
      * intros s' Hops Hs'. apply consistent_caller; [|done]. simpl. by rewrite Hops.
      * intros x s' Hs'. apply consistent_caller; [done|]. by apply consistent_fail.
    + intros x s' Hs'. apply consistent_caller; [done|]. by apply consistent_fail.
  - by apply consistent_caller.
Qed.

Lemma reachable_accounted s : reachable c s → counted s ∧ consistent s.
Proof.
  assert (Hinit : counted new_runner ∧ consistent new_runner).
  { split; split; try done; simpl; try constructor; try (intros i x Hin; by apply elem_of_nil in Hin). }
  unfold reachable. intros Hr. remember new_runner as s0 eqn:E. clear E.
  induction Hr as [s|s s1 s2 Hs _ IH]; [done|]. apply IH. destruct Hinit. split; [by eapply step_counted|by eapply step_consistent].
Qed.
End consistency.

(** ** What a sentinel leaves behind *)

(** Behind a sentinel, and behind a worker that read one, there are only operations
    that were submitted after the first sentinel was put. *)
Record sentinel_inv (s : runner) : Prop := {
  si_none : sentinel_after s = None → None ∉ queue s;
  si_after : ∀ n, sentinel_after s = Some n → (n ≤ length (ops s))%nat ∧
    ∀ q1 q2, queue s = q1 ++ None :: q2 → Forall (λ i, (n ≤ i)%nat) (queue_ids q2);
  si_ended : at_work s = Ended → crashed s = false →
    ∃ n, sentinel_after s = Some n ∧ Forall (λ i, (n ≤ i)%nat) (queue_ids (queue s));
}.

(** A step that leaves the queue alone and ends the worker only by a crash. *)
Definition keeps_queue (s s' : runner) : Prop :=
  queue s' = queue s ∧ ops s' = ops s ∧ sentinel_after s' = sentinel_after s ∧
  (at_work s' = Ended → crashed s' = false → at_work s = Ended ∧ crashed s = false).

Lemma sentinel_keeps s s' : keeps_queue s s' → sentinel_inv s → sentinel_inv s'.
Proof.
  intros (Hq & Ho & Hn & He) [H1 H2 H3]. split; rewrite ?Hq, ?Ho, ?Hn; [done..|]. intros Hw Hc. by destruct (He Hw Hc); apply H3.
Qed.

(** The head of the queue is taken. *)
Lemma sentinel_pop x q n s : queue s = x :: q → sentinel_inv s → sentinel_inv (set_queue q n s).
Proof.
  intros Hq [H1 H2 H3]. split; cbn [set_queue sentinel_after queue ops at_work crashed].
  - intros Hn Hin. apply (H1 Hn). rewrite Hq. by right.
  - intros m Hm. destruct (H2 m Hm) as [Hle Hall]. split; [done|]. intros q1 q2 ->. apply (Hall (x :: q1)). by rewrite Hq.
  - intros Hw Hc. destruct (H3 Hw Hc) as (m & Hm & Hall). exists m. split; [done|]. rewrite Hq, queue_ids_cons in Hall.
    by apply Forall_app in Hall as [_ ?].
Qed.

Lemma sentinel_submit o s : sentinel_inv s → sentinel_inv (submit o s).
Proof.
  intros [H1 H2 H3]. split; cbn [submit sentinel_after queue ops at_work crashed].
  - intros Hn [Hin|[=]%list_elem_of_singleton]%elem_of_app. by apply (H1 Hn).
  - intros m Hm. destruct (H2 m Hm) as [Hle Hall]. split; [rewrite length_app; lia|]. intros q1 q2 E.
    destruct q2 as [|x q2 _] using rev_ind; [constructor|]. rewrite app_comm_cons, app_assoc in E. apply app_inj_tail in E as [E <-].
    rewrite queue_ids_app. apply Forall_app. split; [by eapply Hall|]. by repeat constructor.
  - intros Hw Hc. destruct (H3 Hw Hc) as (m & Hm & Hall). exists m. split; [done|]. rewrite queue_ids_app. apply Forall_app.
    split; [done|]. destruct (H2 m Hm) as [Hle _]. by repeat constructor.
Qed.

Lemma sentinel_put n s : sentinel_inv s →
  sentinel_inv (set_sentinel (set_caller Joining (set_queue (queue s ++ [None]) n s))).
Proof.
  intros [H1 H2 H3]. split; cbn [set_sentinel set_caller set_queue sentinel_after queue ops at_work crashed]; [done|..].
  - intros m [= <-]. split.
    { destruct (sentinel_after s) as [m|]; [|done]. simpl. by apply H2. }
    intros q1 q2 E. destruct q2 as [|x q2 _] using rev_ind; [constructor|].
    rewrite app_comm_cons, app_assoc in E. apply app_inj_tail in E as [E <-].
    destruct (sentinel_after s) as [m|] eqn:Em.
    + destruct (H2 m eq_refl) as [_ Hall]. rewrite queue_ids_app. apply Forall_app. split; [by eapply Hall|constructor].
    + exfalso. apply (H1 eq_refl). rewrite E. apply elem_of_app. right. by left.
  - intros Hw Hc. destruct (H3 Hw Hc) as (m & Hm & Hall). rewrite Hm. exists m. split; [done|]. rewrite queue_ids_app.
    apply Forall_app. split; [done|constructor].
Qed.

Lemma keeps_raised e ids s s0 : queue s = queue s0 → ops s = ops s0 → sentinel_after s = sentinel_after s0 →
  keeps_queue s0 (finish_raised e ids s).
Proof.
  intros Hq Ho Hn. unfold keeps_queue, finish_raised, finish. destruct (is_exception e);
    cbn [fail set_crashed set_worker set_queue queue ops sentinel_after at_work crashed]; by rewrite Hq, Ho, Hn.
Qed.

(** A step of the worker that goes on or ends by an exception. *)
Ltac keeps := match goal with
  | |- keeps_queue _ (finish_raised _ _ _) => by apply keeps_raised
  | |- _ => unfold keeps_queue, finish;
      cbn [set_worker set_caller set_queue set_pending set_cancel set_clean set_crashed emit drop fail
           queue ops sentinel_after at_work crashed]; by split_and!
  end.

Lemma keeps_deliver t i r next raised s :
  keeps_queue s (next (emit i r s)) → (∀ e, keeps_queue s (raised e (emit i r s))) → keeps_queue s (deliver t i r next raised s).
Proof. intros Hn Hr. unfold deliver. destruct (t_notify t); auto. Qed.

Lemma keeps_result {A} (m : res A) next raised s :
  (∀ a, keeps_queue s (next a s)) → (∀ e, keeps_queue s (raised e s)) → keeps_queue s (with_result m next raised s).
Proof. intros Hn Hr. destruct m; simpl; auto. Qed.

Section closing.
Context `{FloatRepr} (c : config).

Lemma keeps_dispatch t i o s : keeps_queue s (dispatch c t i o s).
Proof.
  destruct o as [ty ev]. unfold dispatch.
  assert (Hsingle : ∀ m : res pydict,
    keeps_queue s (with_result m (λ r, deliver t i r finish (λ e, finish_raised e [])) (λ e, finish_raised e [i]) s)).
  { intros m. apply keeps_result; [intros r; apply keeps_deliver; [|intros e]|intros e]; keeps. }
  repeat case_bool_decide; try apply Hsingle; [..|keeps].
  - apply keeps_result; intros ?; keeps.
  - apply keeps_result; [intros [[host uri] opts]; destruct (startup_grace c && cancel s)|intros e]; keeps.
Qed.

Lemma step_sentinel s s' : step c s s' → sentinel_inv s → sentinel_inv s'.
Proof.
  destruct 1 as [o|i o q Hw Hq|q Hw Hq|i o Hw|t i o Hw|e Hw|i ev uri Hw|t i ev es Hw|t e es Hw|Hw|Hk|Hk Hz|Hk Hz|Hk|b i o q Hk Hq|b q Hk Hq|b Hk Hq|Hk|to Hk Hj|b Hk|t b e es Hk|b Hk];
    intros Hs.
  - by apply sentinel_submit.
  - apply (sentinel_keeps (set_queue q (unfinished s) s)); [keeps|by eapply sentinel_pop].
  - pose proof (sentinel_pop _ _ (unfinished s - 1) _ Hq Hs) as [H1 H2 _]. split; [exact H1|exact H2|]. intros _ _.
    destruct Hs as [H3 H4 _]. destruct (sentinel_after s) as [n|] eqn:Hn; [|exfalso; apply (H3 eq_refl); rewrite Hq; by left].
    exists n. split; [done|]. exact (proj2 (H4 n eq_refl) [] q Hq).
  - apply (sentinel_keeps s); [|done]. destruct (cancel s); keeps.
  - apply (sentinel_keeps s); [apply keeps_dispatch|done].
  - apply (sentinel_keeps s); [|done]. unfold append_sub. apply keeps_result; intros ?; keeps.
  - apply (sentinel_keeps s); [|done]. unfold take_subs. destruct (pop_pending uri (pending s)) as [es p]. keeps.
  - apply (sentinel_keeps s); [|done]. unfold publish. apply keeps_result; [intros r; apply keeps_deliver; [|intros e]|intros e]; keeps.
  - apply (sentinel_keeps s); [|done]. unfold collect. apply keeps_result; [intros r; apply keeps_deliver; [|intros x]|intros x]; keeps.
  - apply (sentinel_keeps s); [|done]. keeps.
  - apply (sentinel_keeps s); [|done]. keeps.
  - apply (sentinel_keeps s); [|done]. keeps.
  - apply (sentinel_keeps s); [|done]. keeps.
  - apply (sentinel_keeps s); [|done]. keeps.
  - apply (sentinel_keeps (set_queue q (unfinished s - 1) s)); [keeps|by eapply sentinel_pop].
  - apply (sentinel_keeps (set_queue q (unfinished s - 1) s)); [destruct b; keeps|by eapply sentinel_pop].
  - apply (sentinel_keeps s); [|done]. destruct b; keeps.
  - by apply sentinel_put.
  - apply (sentinel_keeps s); [|done]. keeps.
  - apply (sentinel_keeps s); [|done]. keeps.
  - apply (sentinel_keeps s); [|done]. unfold collect. apply keeps_result; [intros r; apply keeps_deliver; [|intros x]|intros x]; keeps.
  - apply (sentinel_keeps s); [|done]. keeps.
Qed.

Lemma reachable_sentinel s : reachable c s → sentinel_inv s.
Proof.
  assert (Hinit : sentinel_inv new_runner) by (split; simpl; [by intros _ ?%elem_of_nil|done|done]).
  unfold reachable. intros Hr. remember new_runner as s0 eqn:E. clear E.
  induction Hr as [s|s s1 s2 Hs _ IH]; [done|]. apply IH. by eapply step_sentinel.
Qed.

(** Each submitted operation is in one place. *)
Lemma counted_places s : counted s → places s ≡ₚ seq 0 (length (ops s)).
Proof.
  intros [Hp _ _]. apply (Permutation_count_occ Nat.eq_dec). intros i. change (count_occ Nat.eq_dec ?l i) with (occ l i). rewrite Hp. unfold occ.
  pose proof (proj1 (NoDup_count_occ Nat.eq_dec (seq 0 (length (ops s)))) ltac:(apply NoDup_ListNoDup, NoDup_seq) i) as Hle.
  destruct (Nat.ltb_spec i (length (ops s))) as [Hi|Hi].
  - assert (In i (seq 0 (length (ops s)))) as Hin by (apply in_seq; lia). apply (count_occ_In Nat.eq_dec) in Hin. lia.
  - symmetry. apply count_occ_not_In. rewrite in_seq. lia.
Qed.
End closing.

(** The operations below a bound that are not in the queue. *)
Lemma filter_seq n m : (n ≤ m)%nat → filter (λ i, (i < n)%nat) (seq 0 m) = seq 0 n.
Proof.
  intros Hle. replace m with (n + (m - n))%nat by lia. rewrite seq_app, filter_app.
  assert (Hall : ∀ l, Forall (λ i, (i < n)%nat) l → filter (λ i, (i < n)%nat) l = l)
    by (induction 1; [done|]; by rewrite filter_cons_True, IHForall).
  rewrite Hall by (apply Forall_forall; intros i Hi%elem_of_seq; lia).
  rewrite (filter_none _ (seq _ _)) by (intros i Hi%elem_of_seq; lia). apply app_nil_r.
Qed.

(** C11: every operation is accounted for, exactly once. Whatever the tools answer
    and however submissions, the worker, [wait_all] and [stop] interleave, each
    submitted operation is in exactly one place: the queue, the worker's hands,
    the pending subscribers, the caller's hands, the sink with its record, or
    given up. The queue's count of unfinished tasks is exact, so [wait_all] sees
    zero only when nothing is queued or being worked on. When [stop] has returned
    after the worker ended, no subscriber is pending and the worker holds nothing;
    and unless the worker died of an exception that is no [Exception], every
    operation that was submitted before a [stop] first put its sentinel has been
    recorded, discarded, or failed with a logged exception, exactly once: only
    operations submitted later can still be in the queue. *)
Theorem ops_accounted `{FloatRepr} c s : reachable c s →
  places s ≡ₚ seq 0 (length (ops s)) ∧
  unfinished s = Z.of_nat (length (queue s)) + busy (at_work s) ∧
  (unfinished s = 0 → queue s = [] ∧ (at_work s = Idle ∨ at_work s = Ended)) ∧
  (clean s = true → at_call s = Outside →
    pending s = [] ∧ queue_ids (queue s) ++ (sink s).*1 ++ dropped s ++ failed s ≡ₚ seq 0 (length (ops s)) ∧
    (crashed s = false → ∃ n, sentinel_after s = Some n ∧ (n ≤ length (ops s))%nat ∧
      Forall (λ i, (n ≤ i)%nat) (queue_ids (queue s)) ∧
      filter (λ i, (i < n)%nat) ((sink s).*1 ++ dropped s ++ failed s) ≡ₚ seq 0 n)).
Proof.
  intros Hr. destruct (reachable_accounted c s Hr) as [Hct _]. pose proof (counted_places s Hct) as Hperm.
  pose proof (reachable_sentinel c s Hr) as [_ Hafter Hended]. destruct Hct as [_ Hu Hc].
  split_and!; [done|done| |].
  - intros Hz. destruct (queue s), (at_work s); simpl in Hu; try lia; auto.
  - intros Hcl Hout. destruct (Hc Hcl) as [Hw Hpend].
    assert (Hall : queue_ids (queue s) ++ (sink s).*1 ++ dropped s ++ failed s ≡ₚ seq 0 (length (ops s)))
      by (rewrite <- Hperm; unfold places; by rewrite Hw, Hpend, Hout).
    split_and!; [done|done|]. intros Hcr. destruct (Hended Hw Hcr) as (n & Hn & Hq). destruct (Hafter n Hn) as [Hle _].
    exists n. split_and!; [done..|]. rewrite <- (filter_seq n (length (ops s))), <- Hall, (filter_app _ (queue_ids _)) by done.
    rewrite (filter_none _ (queue_ids (queue s))); [done|].
    rewrite Forall_forall in Hq. intros i Hi. specialize (Hq i Hi). simpl in Hq. lia.
Qed.

(** C12: every record says what happened, with the declared types. A record in the
    sink belongs to one submitted operation: it has exactly the frozen keys of its
    kind in order, and names the kind, the host and the URI of its event, and the
    publisher (the operation's own host for a put or a publication, otherwise that
    of the event or of the URI) or the expectations. A success it reports is backed
    by evidence in the same record: an exit status of 0 for a put and a
    publication, also the completion line and a non-empty file for a get, received
    content for a subscription; and for a ccninfo an exit status of 0, neither a
    timeout nor a cancellation, a reply, the expected responder as the responder,
    and the expected route as a subsequence of the reported one, where these are
    expected. Every value has the type its record declares, a publisher host being
    an integer or null, if the publishers of the configuration are integers and so
    is the event's own [publisher_host], where it has one: nothing validates the
    latter (see [publisher_name_recorded]). *)
Theorem records_typed `{FloatRepr} c s i r : reachable c s → (i, r) ∈ sink s →
  ∃ o, ops s !! i = Some o ∧ describes c o r.
Proof. intros Hr Hin. destruct (reachable_accounted c s Hr) as [_ Hs]. by apply (cs_sink c s Hs). Qed.

(** A publisher that cannot be run takes the subscribers waiting for it with it:
    they were already taken off the pending list, and are neither waited for nor
    recorded. *)
Lemma subscribers_lost `{FloatRepr} c t i ev es s e :
  at_work s = Publishing i ev es → do_pub c t ev es = Raise e →
  step c s (finish_raised e (i :: entry_ids es) s).
Proof. intros Hw Hp. pose proof (step_publish c s t i ev es Hw) as Hs. unfold publish in Hs. by rewrite Hp in Hs. Qed.

(** ** A run *)

Definition demo_config : config := mkConfig "event" "/run" [] false [] "/".
Definition demo_tools : tools :=
  mkTools (λ _ _ _, raise EOSError "no such command") (λ _ _ _, Ok 7%nat)
    (λ h _, Ok (mkCommandResult (Some 0) "" "" false false None)) (λ _, None) (λ _, None) (λ _, [("RNP0x1.out", 12)]) None [2] "now" (FFin 0 0) None.
Definition demo_sub : op := ("pubsub_sub", [(PStr "host", PInt 1); (PStr "uri", PStr "ccnx:/a")]).
Definition demo_pub : op := ("pubsub_pub", [(PStr "host", PInt 0); (PStr "uri", PStr "ccnx:/a"); (PStr "file", PStr "f")]).
Definition demo_get : op := ("get", [(PStr "host", PInt 2); (PStr "uri", PStr "ccnx:/a")]).

#[local] Instance demo_repr : FloatRepr := λ _, "".

(** One step, with the state it leads to evaluated. *)
Tactic Notation "take_step" uconstr(rule) :=
  eapply rtc_l; [eapply rule; reflexivity|];
  match goal with |- rtc _ ?s _ => let s' := eval vm_compute in s in change s with s' end.

(** A subscriber and its publisher succeed, a get fails to run, and one operation
    is discarded by [stop]. *)
Lemma demo_run : ∃ s, reachable demo_config s ∧ clean s = true ∧ at_call s = Outside ∧
  (sink s).*1 = [1; 0]%nat ∧ dropped s = [3]%nat ∧ failed s = [2]%nat ∧ queue s = [] ∧
  ops s = [demo_sub; demo_pub; demo_get; demo_get].
Proof.
  eexists. split.
  - unfold reachable. eapply rtc_l; [apply (step_submit _ _ demo_sub)|]. eapply rtc_l; [apply (step_submit _ _ demo_pub)|].
    eapply rtc_l; [apply (step_submit _ _ demo_get)|]. eapply rtc_l; [apply (step_submit _ _ demo_get)|].
    take_step step_get. take_step step_check. take_step (step_dispatch _ _ demo_tools). take_step step_append.
    take_step step_get. take_step step_check. take_step (step_dispatch _ _ demo_tools). take_step step_take_subs.
    take_step (step_publish _ _ demo_tools).
    take_step (step_collect _ _ demo_tools). take_step step_collected.
    take_step step_get. take_step step_check. take_step (step_dispatch _ _ demo_tools).
    take_step step_stop. take_step step_discard. take_step step_discarded. take_step step_put. take_step step_get_none.
    eapply rtc_l; [apply (step_join _ _ false); [reflexivity|done]|]. take_step step_take. take_step step_return. apply rtc_refl.
  - repeat split.
Qed.

Lemma ops_accounted_witness : ∃ s, (sink s).*1 = [1; 0]%nat ∧ (sink s).*1 ++ dropped s ++ failed s ≡ₚ seq 0 4.
Proof.
  destruct demo_run as (s & Hr & Hc & Ho & Hs & _ & _ & Hq & Hops). exists s. split; [exact Hs|].
  destruct (ops_accounted demo_config s Hr) as (_ & _ & _ & Hend). destruct (Hend Hc Ho) as (_ & Hperm & _).
  rewrite Hq, Hops in Hperm. exact Hperm.
Defined.

Lemma records_typed_witness : ∃ s i r o, (i, r) ∈ sink s ∧ ops s !! i = Some o ∧ has_schema content_schema r = true.
Proof.
  destruct demo_run as (s & Hr & _ & _ & Hs & _ & _ & _ & Hops). destruct (sink s) as [|[i r] l] eqn:E; [discriminate Hs|].
  injection Hs as Hi _. assert (Hin : (i, r) ∈ sink s) by (rewrite E; left).
  destruct (records_typed demo_config s i r Hr Hin) as (o & Ho & ty & schema & host & uri & Hty & _ & Hschema & _).
  exists s, i, r, o. split; [exact Hin|]. split; [exact Ho|]. rewrite Hi, Hops in Ho. injection Ho as <-.
  injection Hty as _ <-. apply Hschema; [done|reflexivity].
Defined.

(** A [publisher_host] that is a name is recorded as it is, although records declare
    an integer; and one that is 0 is taken for none. *)
Example publisher_name_recorded :
  match do_get demo_config (mkTools (λ _ _ _, Ok (mkCommandResult (Some 0) "" "" false false None)) (λ _ _ _, Ok 7%nat)
          (λ h _, Ok (mkCommandResult (Some 0) "" "" false false None)) (λ _, None) (λ _, None) (λ _, []) None [] "now" (FFin 0 0) None)
          [(PStr "host", PInt 2); (PStr "uri", PStr "ccnx:/a"); (PStr "publisher_host", PStr "h1")] with
  | Ok r => dget r "publisher_host" = Some (PStr "h1")
  | _ => False
  end.
Proof. vm_compute. reflexivity. Qed.

Example publisher_zero_ignored :
  publisher_of demo_config [(PStr "uri", PStr "ccnx:/a"); (PStr "publisher_host", PInt 0)] "ccnx:/a" = PNone.
Proof. reflexivity. Qed.
