(* ===== verification/NodeConf.v ===== *)
(** Component: the configuration files of the Cefore daemons (src/runtime/
    template.py): reading and setting a KEY=VALUE entry, the rewriting of the
    socket id and the node name.  A file is its text as Python reads it, with
    line ends already translated to line feeds. *)
From S2P Require Import Prelude PyValue PyString PyNum PyText.
Local Open Scope Z_scope.

Definition hash : ascii := Ascii.ascii_of_N 35.
Definition equals : ascii := Ascii.ascii_of_N 61.

(** The pattern [^\s*KEY\s*=] at the head of a line: what follows the sign. *)
Definition after_key (key line : string) : option string :=
  rest ← strip_prefix key (lstrip line);
  match lstrip rest with
  | String c v => if bool_decide (c = equals) then Some v else None
  | EmptyString => None
  end.

(** The optional [#] of [^\s*#?\s*KEY\s*=.*$]; a key starts with no [#]. *)
Definition uncomment (line : string) : string :=
  match lstrip line with
  | String c rest => if bool_decide (c = hash) then rest else line
  | EmptyString => line
  end.
Definition keyed (key line : string) : bool := bool_decide (is_Some (after_key key (uncomment line))).

(** The first line that matches. *)
Fixpoint first_value (key : string) (lines : list string) : option string :=
  match lines with
  | [] => None
  | l :: lines => match after_key key l with Some v => Some (strip v) | None => first_value key lines end
  end.

(** [_read_config_value] on the text of an existing file. *)
Definition read_config_value (key text : string) : option string := first_value key (splitlines text).

(** The loop of [_set_config_value]. *)
Definition entry_line (key value : string) : string := key +s+ "=" +s+ value.
Fixpoint replace_lines (key value : string) (replaced : bool) (lines : list string) : list string :=
  match lines with
  | [] => if replaced then [] else [entry_line key value]
  | l :: lines =>
      if keyed key l
      then (if replaced then [] else [entry_line key value]) ++ replace_lines key value true lines
      else l :: replace_lines key value replaced lines
  end.

Definition newline : string := String line_feed "".

(** [_set_config_value] on the text of an existing file. *)
Definition set_config_value (key value text : string) : string :=
  join newline (replace_lines key value false (splitlines text)) +s+ newline.

(** [readlines]: lines with their line feeds. *)
Fixpoint readlines (s : string) : list string :=
  match s with
  | EmptyString => []
  | String c s =>
      if bool_decide (c = line_feed) then newline :: readlines s
      else match readlines s with
           | [] => [String c ""]
           | l :: ls => String c l :: ls
           end
  end.

Definition concat_lines (ls : list string) : string := foldr String.append "" ls.

(** [line[: len(line) - len(line.lstrip())]]. *)
Definition leading (line : string) : string := fst (span is_space line).

(** The loop [update_local_sock_id] and [update_node_name] share: every line whose
    text starts with the label, commented out or not, becomes the new entry after
    its own indentation; when there is none the entry is appended. *)
Definition relabel (label entry text : string) : string :=
  let matches line := startswith (lstrip line) label || startswith (lstrip line) ("#" +s+ label) in
  let lines := readlines text in
  concat_lines (((λ line, if matches line then leading line +s+ entry +s+ newline else line) <$> lines)
                ++ (if existsb matches lines then [] else [entry +s+ newline])).

(** [update_local_sock_id], for one file. *)
Definition update_local_sock_id (idx : Z) (text : string) : string :=
  relabel "LOCAL_SOCK_ID=" ("LOCAL_SOCK_ID=" +s+ str_Z idx) text.

(** [update_node_name]. *)
Definition update_node_name (base_uri : string) (idx : Z) (text : string) : string :=
  relabel "NODE_NAME=" ("#NODE_NAME=" +s+ dquote +s+ base_uri +s+ str_Z idx +s+ dquote) text.

Definition demo_conf : string :=
  unlines ["# node"; "  #CS_MODE = 1"; "CS_MODE=0"; "CACHE_TYPE=memory # comment"; "LOCAL_SOCK_ID=7"].
Example set_ex : set_config_value "CS_MODE" "2" demo_conf =
  unlines ["# node"; "CS_MODE=2"; "CACHE_TYPE=memory # comment"; "LOCAL_SOCK_ID=7"].
Proof. vm_compute. reflexivity. Qed.
Example sock_ex : update_local_sock_id 3 demo_conf =
  unlines ["# node"; "  #CS_MODE = 1"; "CS_MODE=0"; "CACHE_TYPE=memory # comment"; "LOCAL_SOCK_ID=3"].
Proof. vm_compute. reflexivity. Qed.
(** A file whose last line is not ended: the appended entry is glued to it. *)
Example sock_glued : update_local_sock_id 3 "CS_MODE=0" = "CS_MODE=0LOCAL_SOCK_ID=3" +s+ newline.
Proof. vm_compute. reflexivity. Qed.

(** * Keys *)

Definition word_char (c : ascii) : bool :=
  let n := code c in ((65 <=? n) && (n <=? 90) || (48 <=? n) && (n <=? 57) || (n =? 95))%N.
(** The keys of the daemons: capitals, digits and underscores. *)
Definition key_ok (key : string) : Prop := key ≠ "" ∧ all_chars word_char key = true.

Lemma word_char_plain c : word_char c = true → is_space c = false ∧ c ≠ equals ∧ c ≠ hash ∧ is_break c = false.
Proof.
  unfold word_char. cbn zeta. intros Hw.
  assert (Hn : (code c = 95 ∨ (65 ≤ code c ∧ code c ≤ 90) ∨ (48 ≤ code c ∧ code c ≤ 57))%N).
  { rewrite !orb_true_iff, !andb_true_iff, !N.leb_le, N.eqb_eq in Hw. lia. }
  split_and!.
  - unfold is_space. cbn zeta. apply orb_false_iff. rewrite !andb_false_iff, !N.leb_gt. lia.
  - intros ->. change (code equals) with 61%N in Hn. lia.
  - intros ->. change (code hash) with 35%N in Hn. lia.
  - unfold is_break. cbn zeta. rewrite orb_false_iff, !andb_false_iff, !N.leb_gt. lia.
Qed.

Lemma key_head key : key_ok key → ∃ c t, key = String c t ∧ word_char c = true.
Proof. intros [Hne Hk]. destruct key as [|c t]; [done|]. simpl in Hk. apply andb_true_iff in Hk as [Hc _]. by exists c, t. Qed.

Lemma lstrip_key key s : key_ok key → lstrip (key +s+ s) = key +s+ s.
Proof.
  intros (c & t & -> & Hc)%key_head. change (String c t +s+ s) with (String c (t +s+ s)). apply lstrip_nonspace.
  by apply word_char_plain.
Qed.

Lemma after_key_entry key value : key_ok key → after_key key (entry_line key value) = Some value.
Proof. intros Hk. unfold after_key, entry_line. rewrite lstrip_key, strip_prefix_app by done. reflexivity. Qed.

Lemma uncomment_key key s : key_ok key → uncomment (key +s+ s) = key +s+ s.
Proof.
  intros Hk. unfold uncomment. rewrite lstrip_key by done. destruct (key_head key Hk) as (c & t & -> & Hc).
  change (String c t +s+ s) with (String c (t +s+ s)). simpl. rewrite bool_decide_eq_false_2; [done|]. by apply word_char_plain.
Qed.

Lemma keyed_entry key value : key_ok key → keyed key (entry_line key value) = true.
Proof.
  intros Hk. apply bool_decide_eq_true_2. assert (uncomment (entry_line key value) = entry_line key value) as -> by (by apply uncomment_key).
  rewrite after_key_entry by done. by eexists.
Qed.

(** The key of a line is its longest run of key characters. *)
Lemma after_key_head key line v : after_key key line = Some v → ∃ c t, lstrip line = key +s+ String c t ∧ word_char c = false.
Proof.
  unfold after_key. intros (rest & Hr & Hv)%bind_Some. apply strip_prefix_Some in Hr. rewrite Hr.
  destruct rest as [|c t]; [done|]. exists c, t. split; [done|]. destruct (word_char c) eqn:Hc; [|done].
  destruct (word_char_plain c Hc) as (Hsp & Heq & _). rewrite lstrip_nonspace in Hv by done. by rewrite bool_decide_eq_false_2 in Hv.
Qed.

Lemma word_run k k' c t c' t' :
  all_chars word_char k = true → all_chars word_char k' = true → word_char c = false → word_char c' = false →
  k +s+ String c t = k' +s+ String c' t' → k = k'.
Proof.
  revert k'. induction k as [|d k IH]; intros [|d' k'] Hk Hk' Hc Hc' E; [done|..].
  - simpl in Hk'. injection E as -> _. apply andb_true_iff in Hk' as [? _]. congruence.
  - simpl in Hk. injection E as <- _. apply andb_true_iff in Hk as [? _]. congruence.
  - simpl in Hk, Hk'. apply andb_true_iff in Hk as [_ Hk]. apply andb_true_iff in Hk' as [_ Hk'].
    injection E as -> E. f_equal. by apply IH.
Qed.

Lemma same_key key key' line : key_ok key → key_ok key' →
  is_Some (after_key key line) → is_Some (after_key key' line) → key = key'.
Proof.
  intros [_ Hk] [_ Hk'] [v Hv] [v' Hv']. apply after_key_head in Hv as (c & t & E & Hc). apply after_key_head in Hv' as (c' & t' & E' & Hc').
  rewrite E in E'. by apply (word_run key key' c t c' t').
Qed.

(** A line that gives a value to one key is not rewritten for another. *)
Lemma keyed_other key key' line : key_ok key → key_ok key' → key ≠ key' → keyed key line = true → after_key key' line = None.
Proof.
  intros Hk Hk' Hne Hkey. apply bool_decide_eq_true in Hkey. destruct (after_key key' line) as [v|] eqn:E; [|done].
  exfalso. apply Hne. apply (same_key key key' line); [done|done| |by eexists].
  assert (uncomment line = line) as <-; [|done]. unfold uncomment. destruct (after_key_head _ _ _ E) as (c & t & El & _). rewrite El.
  destruct (key_head key' Hk') as (d & k & -> & Hd). change (String d k +s+ ?x) with (String d (k +s+ x)). simpl.
  rewrite bool_decide_eq_false_2; [done|]. by apply word_char_plain.
Qed.

Lemma entry_other key key' value : key_ok key → key_ok key' → key ≠ key' → after_key key' (entry_line key value) = None.
Proof. intros Hk Hk' Hne. apply (keyed_other key); [done..|]. by apply keyed_entry. Qed.

(** * Lines *)

Lemma first_value_replace key value lines : key_ok key →
  first_value key (replace_lines key value false lines) = Some (strip value) .
Proof.
  intros Hk. induction lines as [|l lines IH]; simpl; [by rewrite after_key_entry|].
  destruct (keyed key l) eqn:El; simpl; [by rewrite after_key_entry|].
  destruct (after_key key l) as [v|] eqn:Ea; [|done]. exfalso.
  assert (keyed key l = true); [|congruence]. apply bool_decide_eq_true_2.
  assert (uncomment l = l) as ->; [|by eexists]. unfold uncomment. destruct (after_key_head _ _ _ Ea) as (c & t & E & _). rewrite E.
  destruct (key_head key Hk) as (d & k & -> & Hd). change (String d k +s+ ?x) with (String d (k +s+ x)). simpl.
  rewrite bool_decide_eq_false_2; [done|]. by apply word_char_plain.
Qed.

Lemma first_value_other key key' value replaced lines : key_ok key → key_ok key' → key ≠ key' →
  first_value key' (replace_lines key value replaced lines) = first_value key' lines.
Proof.
  intros Hk Hk' Hne. revert replaced. induction lines as [|l lines IH]; intros replaced; simpl.
  - destruct replaced; [done|]. simpl. by rewrite entry_other.
  - destruct (keyed key l) eqn:El; simpl; [|by rewrite IH].
    rewrite (keyed_other key key' l) by done. destruct replaced; simpl; [by rewrite IH|]. by rewrite entry_other, IH.
Qed.

Lemma replace_none key value lines : Forall (λ l, keyed key l = false) lines → replace_lines key value true lines = lines.
Proof. induction 1 as [|l lines Hl _ IH]; [done|]. simpl. by rewrite Hl, IH. Qed.

Lemma replaced_rest key value lines : Forall (λ l, keyed key l = false) (replace_lines key value true lines).
Proof. induction lines as [|l lines IH]; simpl; [done|]. destruct (keyed key l) eqn:E; [done|]. by constructor. Qed.

Lemma replace_twice key v v' lines : key_ok key →
  replace_lines key v' false (replace_lines key v false lines) = replace_lines key v' false lines.
Proof.
  intros Hk. assert (Ht : ∀ lines, replace_lines key v' true (replace_lines key v true lines) = replace_lines key v' true lines).
  { intros ls. rewrite replace_none by apply replaced_rest.
    induction ls as [|l ls IH]; simpl; [done|]. destruct (keyed key l); [done|]. by f_equal. }
  induction lines as [|l lines IH]; simpl; [by rewrite keyed_entry|].
  destruct (keyed key l) eqn:El; simpl; [rewrite keyed_entry by done; by rewrite Ht|]. by rewrite El, IH.
Qed.

Lemma replace_nonempty key value lines : replace_lines key value false lines ≠ [].
Proof. destruct lines as [|l lines]; simpl; [done|]. by destruct (keyed key l). Qed.

Lemma replace_others key value replaced lines : key_ok key →
  List.filter (λ l, negb (keyed key l)) (replace_lines key value replaced lines) = List.filter (λ l, negb (keyed key l)) lines.
Proof.
  intros Hk. revert replaced. induction lines as [|l lines IH]; intros replaced; simpl.
  - destruct replaced; [done|]. simpl. by rewrite keyed_entry.
  - destruct (keyed key l) eqn:El; [|by simpl; rewrite El, IH]. simpl. destruct replaced; simpl; [by rewrite IH|].
    rewrite keyed_entry by done. simpl. by rewrite IH.
Qed.

Lemma filter_keyed_none key lines : Forall (λ l, keyed key l = false) lines → List.filter (keyed key) lines = [].
Proof. induction 1 as [|l lines Hl _ IH]; [done|]. simpl. by rewrite Hl. Qed.

Lemma replace_once key value lines : key_ok key → List.filter (keyed key) (replace_lines key value false lines) = [entry_line key value].
Proof.
  intros Hk. induction lines as [|l lines IH]; simpl; [by rewrite keyed_entry|]. destruct (keyed key l) eqn:El; simpl.
  - rewrite keyed_entry by done. by rewrite (filter_keyed_none _ _ (replaced_rest key value lines)).
  - by rewrite El.
Qed.

Lemma splitlines_no_breaks s : Forall (λ l, no_breaks l = true) (splitlines s).
Proof.
  assert (H : ∀ n s, (String.length s <= n)%nat → Forall (λ l, no_breaks l = true) (splitlines s)); [|by apply (H (String.length s))].
  clear s. induction n as [|n IH]; intros [|c s] Hlen; simpl in Hlen; [constructor|lia|constructor|].
  assert (Hs : Forall (λ l, no_breaks l = true) (splitlines s)) by (apply IH; lia).
  cbn [splitlines]. destruct (is_break c) eqn:Hc.
  - constructor; [done|]. destruct s as [|d s2]; [constructor|]. destruct (_ && _); [|done]. apply IH. simpl in Hlen. lia.
  - assert (H1 : ∀ l, no_breaks l = true → no_breaks (String c l) = true) by (intros l Hl; unfold no_breaks in *; simpl; by rewrite Hc).
    destruct s as [|d s2]; [by constructor; [apply H1|]|]. destruct (is_break d).
    + constructor; [by apply H1|]. destruct (splitlines (String d s2)); [done|]. by inversion Hs.
    + destruct (splitlines (String d s2)) as [|l ls]; [by constructor; [apply H1|]|]. inversion Hs; subst. constructor; [by apply H1|done].
Qed.

Lemma join_unlines ls : ls ≠ [] → join newline ls +s+ newline = unlines ls.
Proof.
  induction ls as [|l ls IH]; [done|]. intros _. destruct ls as [|l2 ls].
  - simpl. done.
  - change (join newline (l :: l2 :: ls)) with (l +s+ newline +s+ join newline (l2 :: ls)). rewrite !string_app_assoc, IH by done. done.
Qed.

Lemma key_no_breaks key : key_ok key → no_breaks key = true.
Proof.
  intros [_ Hk]. unfold no_breaks. revert Hk. generalize key as s. induction s as [|c s IH]; [done|]. simpl.
  intros [Hc Hs]%andb_true_iff. rewrite IH by done. destruct (word_char_plain c Hc) as (_ & _ & _ & ->). done.
Qed.

Lemma replace_no_breaks key value replaced lines : key_ok key → no_breaks value = true →
  Forall (λ l, no_breaks l = true) lines → Forall (λ l, no_breaks l = true) (replace_lines key value replaced lines).
Proof.
  intros Hk Hv Hl. assert (He : no_breaks (entry_line key value) = true) by (unfold entry_line; by rewrite !no_breaks_app, key_no_breaks, Hv).
  revert replaced. induction Hl as [|l lines Hl _ IH]; intros replaced; simpl; [destruct replaced; by repeat constructor|].
  destruct (keyed key l); [|by constructor]. apply Forall_app. split; [destruct replaced; by repeat constructor|done].
Qed.

(** The lines of the rewritten file. *)
Lemma set_config_lines key value text : key_ok key → no_breaks value = true →
  splitlines (set_config_value key value text) = replace_lines key value false (splitlines text).
Proof.
  intros Hk Hv. unfold set_config_value. rewrite join_unlines by apply replace_nonempty. apply splitlines_unlines.
  apply replace_no_breaks; [done..|]. apply splitlines_no_breaks.
Qed.

Lemma read_set key value text : key_ok key → no_breaks value = true →
  read_config_value key (set_config_value key value text) = Some (strip value).
Proof. intros Hk Hv. unfold read_config_value. rewrite set_config_lines by done. by apply first_value_replace. Qed.

Lemma read_set_other key key' value text : key_ok key → key_ok key' → no_breaks value = true → key ≠ key' →
  read_config_value key' (set_config_value key value text) = read_config_value key' text.
Proof. intros Hk Hk' Hv Hne. unfold read_config_value. rewrite set_config_lines by done. by apply first_value_other. Qed.

(** C15: setting an entry and reading it back. After [_set_config_value] the file
    holds exactly one line for the key, commented out or not, [_read_config_value]
    finds the value on it, every other key reads as before, every other line is
    kept in its place, and a later setting leaves no trace of this one. *)
Theorem set_config_value_correct key value text : key_ok key → no_breaks value = true →
  let text' := set_config_value key value text in
  read_config_value key text' = Some (strip value) ∧
  (∀ key', key_ok key' → key' ≠ key → read_config_value key' text' = read_config_value key' text) ∧
  List.filter (keyed key) (splitlines text') = [entry_line key value] ∧
  List.filter (λ l, negb (keyed key l)) (splitlines text') = List.filter (λ l, negb (keyed key l)) (splitlines text) ∧
  (∀ value', no_breaks value' = true → set_config_value key value' text' = set_config_value key value' text).
Proof.
  intros Hk Hv text'. unfold text'. split_and!.
  - by apply read_set.
  - intros key' Hk' Hne. by apply read_set_other.
  - rewrite set_config_lines by done. by apply replace_once.
  - rewrite set_config_lines by done. by apply replace_others.
  - intros value' Hv'. unfold set_config_value at 1. rewrite set_config_lines by done. by rewrite replace_twice.
Qed.

Lemma set_config_value_correct_witness :
  read_config_value "CS_MODE" (set_config_value "CS_MODE" "2" demo_conf) = Some "2" ∧
  read_config_value "LOCAL_SOCK_ID" (set_config_value "CS_MODE" "2" demo_conf) = Some "7".
Proof.
  assert (Hk : key_ok "CS_MODE") by (split; [discriminate|reflexivity]).
  destruct (set_config_value_correct "CS_MODE" "2" demo_conf Hk eq_refl) as (Hr & Ho & _). split; [exact Hr|].
  rewrite Ho; [vm_compute; reflexivity|split; [discriminate|reflexivity]|discriminate].
Defined.
