(* ===== verification/ComputeClient.v ===== *)
(** Component: compute calls (src/runtime/compute_client.py) and the event
    outcome the scheduler derives from them (src/runtime/scheduler.py,
    [_handle_compute_call]).  The command runner, the file system and path
    resolution are parameters. *)
From S2P Require Import Prelude PyValue PyString PyNum Artifacts CommandRunner CefArgv.
Local Open Scope Z_scope.

(** [ComputeResult]. *)
Record ComputeResult := mkCompute {
  ok : bool;
  http_status : option Z;
  curl_exit : option Z;
  publish_ok : option bool;
  output_file : option path;
  body : string;
  env_failure : bool;
}.

Definition ENV_FAILURE_EXITS : list Z := [5; 6; 7; 28].
Definition RUNNER_TIMEOUT_MARGIN : Z := 5.
Definition PUBLISH_TIMEOUT_DEFAULT : Z := 120.

Definition newline_str : string := String newline "".

(** [stdout.rpartition("\n")] when there is a newline: the text before the last
    one and the text after it. *)
Fixpoint rpartition (s : string) : option (string * string) :=
  match s with
  | EmptyString => None
  | String c s' =>
      match rpartition s' with
      | Some (a, b) => Some (String c a, b)
      | None => if bool_decide (c = newline) then Some ("", s') else None
      end
  end.

(** [_split_status]. *)
Definition split_status (out : string) : string * option Z :=
  let '(b, status_line) := default ("", out) (rpartition out) in
  match int_of_string status_line with
  | Some n => (b, Some n)
  | None => (out, None)
  end.

(** The keyword arguments of [compute_call]. *)
Record ComputeArgs := mkArgs {
  a_endpoint : pv;
  a_method : pv;
  a_payload : pv;
  a_headers : pv;
  a_output_file : pv;
  a_publish_uri : pv;
  a_pub_opts : pv;
  a_timeout : pv;
  a_publish_timeout : pv;
}.

(** A command handed to the runner: node, argv and timeout. *)
Record command := mkCommand { c_node : string; c_argv : list string; c_timeout : pv }.

(** [(v or {})] as a dict. *)
Definition or_empty (v : pv) : res pydict :=
  if truthy v then match v with PDict d => Ok d | _ => raise EAttributeError "no attribute 'items'" end
  else Ok [].

Section compute.
Context `{FloatRepr}.
(** The command runner, [Path.exists], and the parameters of path resolution. *)
Variable run : command → CommandResult.
Variable exists_ : path → bool.
Variable resolve : path → path.
Variable path_str : path → string.
Variable to_path : string → path.

(** The curl argument vector, up to the output file. *)
Definition curl_head (a : ComputeArgs) : res (list string) :=
  headers ← or_empty (a_headers a);
  Ok (["curl"; "-s"; "-S"; "--max-time"; py_str (a_timeout a)]
      ++ (if eq_str (a_method a) "POST" then
            ["-X"; "POST"] ++ (if truthy (a_payload a) then ["-d"; py_str (a_payload a)] else [])
          else [])
      ++ (headers ≫= λ kv, ["-H"; py_str kv.1 +s+ ": " +s+ py_str kv.2])).

Definition compute_out_path (run_dir : option path) (a : ComputeArgs) : res (option path) :=
  match run_dir with
  | Some dir =>
      if truthy (a_output_file a) then
        p ← resolve_run_path resolve path_str dir (Some (to_path (py_str (a_output_file a)))) None;
        Ok (Some p)
      else Ok None
  | None => Ok None
  end.

(** Was the request answered with a 2xx status by a curl that ended by itself? *)
Definition http_ok (r : CommandResult) : bool :=
  negb (timed_out r || cancelled r) && bool_decide (returncode r = Some 0)
  && match (split_status (stdout r)).2 with Some s => (200 <=? s) && (s <? 300) | None => false end.

Definition env_failed (r : CommandResult) : bool :=
  (timed_out r || cancelled r)
  || match returncode r with Some n => bool_decide (n ∈ ENV_FAILURE_EXITS) | None => false end.

Definition publish_command (host_name : string) (out : path) (a : ComputeArgs) : res command :=
  opts ← or_empty (a_pub_opts a);
  Ok (mkCommand host_name
        (build_cefputfile_argv (py_str (a_publish_uri a)) (path_str out) host_name
           (get_none opts "rate") (get_none opts "block_size") (get_or opts "expiry" (PInt 3000))
           (get_or opts "cache_time" (PInt 3000)) (get_none opts "valid_algo") (get_none opts "port_num"))
        (if truthy (a_publish_timeout a) then a_publish_timeout a else PInt PUBLISH_TIMEOUT_DEFAULT)).

(** The publish stage: its outcome and the command it ran, if any. *)
Definition publish (host_name : string) (out : option path) (a : ComputeArgs) (http : bool)
    : res (option bool * list command) :=
  if http && truthy (a_publish_uri a) then
    match out with
    | Some p =>
        if exists_ p then
          c ← publish_command host_name p a;
          let r := run c in
          Ok (Some (bool_decide (returncode r = Some 0) && negb (timed_out r) && negb (cancelled r)), [c])
        else Ok (Some false, [])
    | None => Ok (Some false, [])
    end
  else Ok (None, []).

(** [compute_call]; the result comes with the commands run, in order. *)
Definition compute_call (host_idx : pv) (run_dir : option path) (a : ComputeArgs)
    : res (ComputeResult * list command) :=
  let host_name := "h" +s+ py_str host_idx in
  head ← curl_head a;
  out ← compute_out_path run_dir a;
  deadline ← py_add (a_timeout a) (PInt RUNNER_TIMEOUT_MARGIN);
  let curl := mkCommand host_name
    (head ++ match out with Some p => ["-o"; path_str p] | None => [] end
     ++ ["-w"; newline_str +s+ "%{http_code}"; py_str (a_endpoint a)]) deadline in
  let r := run curl in
  let '(b, status) := split_status (stdout r) in
  '(pub, cs) ← publish host_name out a (http_ok r);
  Ok (mkCompute (http_ok r && match pub with Some false => false | _ => true end)
        status (returncode r) pub out b (env_failed r),
      curl :: cs).

(** * The event outcome *)

(** [EventOutcome]. *)
Record EventOutcome := mkOutcome {
  eo_success : bool;
  eo_outcome : string;
  eo_detail : pydict;
  eo_error : option string;
}.

Definition pv_of_Z (z : option Z) : pv := match z with Some z => PInt z | None => PNone end.
Definition pv_of_bool (b : option bool) : pv := match b with Some b => PBool b | None => PNone end.

(** The mapping of [_handle_compute_call] from the result to the outcome. *)
Definition compute_outcome (r : ComputeResult) : EventOutcome :=
  let detail := [(PStr "http_status", pv_of_Z (http_status r)); (PStr "curl_exit", pv_of_Z (curl_exit r));
                 (PStr "publish_ok", pv_of_bool (publish_ok r));
                 (PStr "output_file", match output_file r with Some p => PStr (path_str p) | None => PNone end)] in
  if env_failure r then
    mkOutcome false "skipped-no-result" (detail ++ [(PStr "reason", PStr "no-external-connectivity")])
      (Some "endpoint unreachable")
  else if negb (ok r) then mkOutcome false "not-ok" detail (Some "compute call failed")
  else mkOutcome true "ok" detail None.

End compute.

(** * Lemmas *)

Lemma http_ok_spec r :
  http_ok r = true ↔ timed_out r = false ∧ cancelled r = false ∧ returncode r = Some 0 ∧
    ∃ s, (split_status (stdout r)).2 = Some s ∧ 200 ≤ s < 300.
Proof.
  unfold http_ok. rewrite !andb_true_iff, negb_true_iff, orb_false_iff, bool_decide_eq_true.
  destruct (split_status (stdout r)).2 as [s|]; [rewrite andb_true_iff, Z.leb_le, Z.ltb_lt|]; naive_solver.
Qed.

(** An unreachable endpoint is never a success. *)
Lemma env_failed_not_ok r : env_failed r = true → http_ok r = false.
Proof.
  intros He. apply not_true_iff_false. rewrite http_ok_spec. intros (Ht & Hc & Hr & _).
  unfold env_failed in He. rewrite Ht, Hc, Hr in He. vm_compute in He. done.
Qed.

(** A curl run that ended by itself with exit status 0 printed its status after
    the last newline. *)
Lemma rpartition_spec s a b : rpartition s = Some (a, b) → s = a +s+ newline_str +s+ b.
Proof.
  revert a b. induction s as [|c s IH]; intros a b; simpl; [done|].
  destruct (rpartition s) as [[a' b']|] eqn:E.
  - intros [= <- <-]. change (String c a' +s+ newline_str +s+ b') with (String c (a' +s+ newline_str +s+ b')).
    f_equal. by apply IH.
  - case_bool_decide; [|done]. intros [= <- <-]. by subst.
Qed.

Section compute_spec.
Context `{FloatRepr}.
Variable run : command → CommandResult.
Variable exists_ : path → bool.
Variable path_str : path → string.

(** The runner said the command succeeded. *)
Definition clean (c : command) : Prop :=
  returncode (run c) = Some 0 ∧ timed_out (run c) = false ∧ cancelled (run c) = false.

Lemma publish_spec host out a http o cs :
  publish run exists_ path_str host out a http = Ok (o, cs) →
  if http && truthy (a_publish_uri a)
  then (∃ p c, out = Some p ∧ exists_ p = true ∧ cs = [c] ∧ (o = Some true ↔ clean c) ∧ o ≠ None) ∨
       (cs = [] ∧ o = Some false)
  else o = None ∧ cs = [].
Proof.
  unfold publish. destruct (http && truthy (a_publish_uri a)); [|by intros [= <- <-]].
  destruct out as [p|]; [|intros [= <- <-]; by right].
  destruct (exists_ p) eqn:Ex; [|intros [= <- <-]; by right].
  intros (c & _ & [= <- <-])%res_bind_Ok. left. exists p, c. split_and!; [done..| |done].
  unfold clean. trans (bool_decide (returncode (run c) = Some 0) && negb (timed_out (run c))
    && negb (cancelled (run c)) = true); [split; congruence|].
  rewrite !andb_true_iff, bool_decide_eq_true, !negb_true_iff. tauto.
Qed.
End compute_spec.

(** A compute call succeeds only strictly. A call that returns ran curl
    first and at most one more command. It is [ok] exactly when curl ended by
    itself with exit status 0 and a 2xx status and, if a publication was asked
    for, the publishing command ran and ended by itself with exit status 0.
    Nothing is published after any other answer. The event outcome is [ok] for
    these calls, [skipped-no-result] exactly when curl was interrupted or its
    exit code says the endpoint could not be reached, and [not-ok] otherwise. *)
Lemma compute_call_strict `{FloatRepr} run exists_ resolve path_str to_path host_idx run_dir a r cs :
  compute_call run exists_ resolve path_str to_path host_idx run_dir a = Ok (r, cs) →
  ∃ curl rest, cs = curl :: rest ∧ (length rest ≤ 1)%nat ∧
    (rest ≠ [] → http_ok (run curl) = true ∧ truthy (a_publish_uri a) = true) ∧
    (ok r = true ↔ http_ok (run curl) = true ∧
       (truthy (a_publish_uri a) = true → ∃ c, rest = [c] ∧ clean run c)) ∧
    (eo_success (compute_outcome path_str r) = true ↔ ok r = true) ∧
    (eo_outcome (compute_outcome path_str r) = "skipped-no-result" ↔ env_failed (run curl) = true) ∧
    (eo_outcome (compute_outcome path_str r) = "ok" ↔ ok r = true).
Proof.
  unfold compute_call. intros (head & _ & (out & _ & (d & _ & Hc)%res_bind_Ok)%res_bind_Ok)%res_bind_Ok.
  set (curl := mkCommand _ _ d) in Hc. destruct (split_status (stdout (run curl))) as [b st] eqn:Es.
  apply res_bind_Ok in Hc as ([pub cs'] & Hp & [= <- <-]).
  exists curl, cs'. apply publish_spec in Hp.
  pose proof (env_failed_not_ok (run curl)) as He.
  unfold compute_outcome. cbn [ok env_failure].
  destruct (http_ok (run curl)) eqn:Eh; cbn [andb] in Hp.
  - assert (env_failed (run curl) = false) as -> by (apply not_true_iff_false; intros E; by specialize (He E)).
    destruct (truthy (a_publish_uri a)) eqn:Et.
    + destruct Hp as [(p & c & _ & _ & -> & Hcl & Hne)|[-> ->]].
      * destruct pub as [[]|]; [..|done]; simpl; naive_solver.
      * simpl. naive_solver.
    + destruct Hp as [-> ->]. simpl. naive_solver lia.
  - destruct Hp as [-> ->]. simpl. destruct (env_failed (run curl)); simpl; naive_solver lia.
Qed.

(** A request answered 200 whose result is published. *)
Definition sample_run (c : command) : CommandResult := mkCommandResult (Some 0) (newline_str +s+ "200") "" false false None.
Definition sample_args : ComputeArgs :=
  mkArgs (PStr "http://10.0.0.9/infer") (PStr "POST") (PStr "{}") PNone (PStr "out.json") (PStr "ccnx:/r") PNone
    (PInt 30) PNone.
Definition sample_path (s : string) : path := mkPath false [s].
Definition sample_str (p : path) : string := join "/" (parts p).
Definition sample_call :=
  compute_call (H:=λ _, "1.0") sample_run (λ _, true) (λ p, p) sample_str sample_path (PInt 2)
    (Some (mkPath true ["run"])) sample_args.

Example compute_call_strict_witness :
  ∃ r curl c, sample_call = Ok (r, [curl; c]) ∧ (ok r = true ↔ http_ok (sample_run curl) = true ∧
    (truthy (a_publish_uri sample_args) = true → ∃ c', [c] = [c'] ∧ clean sample_run c')).
Proof.
  destruct sample_call as [[r cs]|e|] eqn:E; [|vm_compute in E; discriminate..].
  pose proof (compute_call_strict (H:=λ _, "1.0") _ _ _ _ _ _ _ _ _ _ E) as (curl & rest & -> & _ & _ & Hok & _).
  assert (∃ c, rest = [c]) as [c ->] by (vm_compute in E; injection E as <- <- <-; by eexists).
  exists r, curl, c. done.
Defined.
