(* ===== verification/Scheduler.v ===== *)
(** Component: the event scheduler (src/runtime/scheduler.py): the event heap,
    repeats and restores, the dispatch of an event to the operation it stands
    for, and the loop of the scheduler thread.  Log messages are left out.  What
    the loop observes - the clock, the stop event, the reply of an operation - is
    an explicit list of observations, one per iteration. *)
From S2P Require Import Prelude PyValue PyNum Events ComputeClient.
Local Open Scope Z_scope.

(** * The heap *)

(** A heap entry [(at_sec, priority, seq, event)]. *)
Record entry := mkEntry { e_at : pv; e_prio : Z; e_seq : Z; e_event : pydict }.

(** [a < b] on the numbers of two entries. *)
Definition at_lt (a b : pv) : bool :=
  match as_num a, as_num b with Some x, Some y => float_lt x y | _, _ => false end.
Definition at_eq (a b : pv) : bool :=
  match as_num a, as_num b with Some x, Some y => float_eq x y | _, _ => false end.

(** Tuple comparison; the sequence numbers differ, so the events are not compared. *)
Definition entry_lt (a b : entry) : bool :=
  if at_eq (e_at a) (e_at b) then
    (e_prio a <? e_prio b) || ((e_prio a =? e_prio b) && (e_seq a <? e_seq b))
  else at_lt (e_at a) (e_at b).

(** The state of an [EventScheduler]: its heap, as the list of entries in the
    order they are popped, and the next sequence number. *)
Record sched := mkSched { heap : list entry; seq : Z }.

(** [heapq.heappush]. *)
Fixpoint heappush (e : entry) (h : list entry) : list entry :=
  match h with
  | [] => [e]
  | x :: h' => if entry_lt e x then e :: h else x :: heappush e h'
  end.

(** [_EVENT_PRIORITY.get(event.get("type", ""), 5)]. *)
Definition event_priority (event : pydict) : res Z :=
  match get_or event "type" (PStr "") with
  | PStr t => Ok (default 5 (assoc event_priorities t))
  | v => if hashable v then Ok 5 else unhashable v
  end.

(** [_push_event].  The times of a validated configuration are numbers; another
    value is rejected here, where Python would fail at its first comparison. *)
Definition push_event (st : sched) (at_sec : pv) (event : pydict) : res sched :=
  match as_num at_sec with
  | None => raise ETypeError "'<' not supported"
  | Some _ =>
      priority ← event_priority event;
      Ok (mkSched (heappush (mkEntry at_sec priority (seq st) event) (heap st)) (seq st + 1))
  end.

(** The constructor's loop. *)
Definition EventScheduler_init (events : list pydict) : res sched :=
  foldM (λ st event, at_sec ← getitem event "at"; push_event st at_sec event) (mkSched [] 0) events.

(** * Repeats *)

Definition py_le (a b : pv) : res bool :=
  match as_num a, as_num b with
  | Some x, Some y => Ok (float_le x y)
  | _, _ => raise ETypeError "'<=' not supported"
  end.

(** The restore half of [_handle_repeat]. *)
Definition push_restore (st : sched) (event : pydict) (duration scheduled_at : pv) : res sched :=
  if is_none duration then Ok st else
  positive ← py_lt (PInt 0) duration;
  if (positive : bool) then
    restore_at ← py_add scheduled_at duration;
    restored ← build_restore_event event;
    match restored with
    | Some r => push_event st restore_at r
    | None => Ok st
    end
  else Ok st.

(** The repeat of the next occurrence, if there is one. *)
Definition next_repeat (repeat : pydict) : res (option pydict) :=
  let count := get_none repeat "count" in
  if is_none count then Ok (Some repeat) else
  remaining ← py_sub count (PInt 1);
  over ← py_le remaining (PInt 0);
  Ok (if (over : bool) then None else Some (dset repeat (PStr "count") remaining)).

(** [_handle_repeat]. *)
Definition handle_repeat (st : sched) (event : pydict) (scheduled_at : pv) : res sched :=
  let repeat := get_none event "repeat" in
  if negb (truthy repeat) then Ok st else
  match repeat with
  | PDict repeat =>
      let interval := get_or repeat "interval" (PInt 0) in
      st ← push_restore st event (get_none repeat "duration") scheduled_at;
      positive ← py_lt (PInt 0) interval;
      if (positive : bool) then
        next ← next_repeat repeat;
        match next with
        | None => Ok st
        | Some new_repeat =>
            next_at ← py_add scheduled_at interval;
            push_event st next_at (dset event (PStr "repeat") (PDict new_repeat))
        end
      else Ok st
  | _ => raise EAttributeError "no attribute 'get'"
  end.

(** * Dispatch *)

(** The operations the handlers call. *)
Inductive call :=
  | LinkDown (a b : pv)
  | LinkUp (a b : pv)
  | CefrouteAdd (host prefix protocol next_hop : pv)
  | CefrouteDel (host prefix protocol next_hop : pv)
  | CefrouteEnable (host prefix protocol next_hop : pv)
  | SetSwitchBandwidth (a b bandwidth : pv)
  | ComputeCall (host : pv) (a : ComputeArgs)
  | Submit (op_type : string) (ev : pydict)
  | RestartHost (host downtime_s : pv).

(** What an operation returns: nothing, a bool, a command result (its return
    code), or the outcome derived from a compute call. *)
Inductive retval :=
  | RNone
  | RBool (b : bool)
  | RResult (returncode : option Z)
  | ROutcome (o : EventOutcome).

(** What became of a call: it returned, raised an [Exception] with a message, or
    raised another [BaseException]. *)
Inductive reply := Returned (v : retval) | Raised (msg : string) | Fatal.

(** The collaborators a scheduler was given. *)
Record context := mkContext { content_runner : bool; host_app_fleet : bool; sink : bool }.

(** [v[i]] for a list or a dict. *)
Definition item (v : pv) (i : Z) : res pv :=
  match v with
  | PList l => py_getitem l i
  | PDict d =>
      match List.find (λ kv : pv * pv, key_eq kv.1 (PInt i)) d with
      | Some kv => Ok kv.2
      | None => raise EKeyError (str_Z i)
      end
  | _ => raise ETypeError "object is not subscriptable"
  end.

(** The two nodes of an event. *)
Definition event_nodes (ev : pydict) : res (pv * pv) :=
  nodes ← getitem ev "nodes";
  a ← item nodes 0;
  b ← item nodes 1;
  Ok (a, b).

(** The arguments of a route operation. *)
Definition event_route (ev : pydict) : res (pv * pv * pv * pv) :=
  host ← getitem ev "host";
  prefix ← getitem ev "prefix";
  next_hop ← getitem ev "next_hop";
  Ok (host, prefix, get_none ev "protocol", next_hop).

(** The arguments [_handle_compute_call] reads. *)
Definition event_compute (ev : pydict) : res (pv * ComputeArgs) :=
  host ← getitem ev "host";
  endpoint ← getitem ev "endpoint";
  Ok (host, mkArgs endpoint (get_or ev "method" (PStr "GET")) (get_none ev "payload") (get_none ev "headers")
              (get_none ev "output_file") (get_none ev "publish_uri") (get_none ev "pub_opts")
              (get_or ev "timeout" (PInt 30)) (get_none ev "publish_timeout")).

(** The types of [_EVENT_HANDLERS]. *)
Definition handler_types : list string :=
  ["link_down"; "link_up"; "fib_add"; "fib_del"; "fib_enable"; "bw_set"; "compute_call"; "put"; "get";
   "pubsub_sub"; "pubsub_pub"; "ccninfo"; "host_app_restart"].

(** What a handler does first: call an operation or return at once. *)
Inductive action := Call (c : call) | Return (v : retval).

(** [_EVENT_HANDLERS[event_type]] up to its call. *)
Definition handler_action (ctx : context) (event_type : string) (ev : pydict) : res action :=
  if bool_decide (event_type = "link_down") then '(a, b) ← event_nodes ev; Ok (Call (LinkDown a b))
  else if bool_decide (event_type = "link_up") then '(a, b) ← event_nodes ev; Ok (Call (LinkUp a b))
  else if bool_decide (event_type = "fib_add") then
    '(h, p, proto, nh) ← event_route ev; Ok (Call (CefrouteAdd h p proto nh))
  else if bool_decide (event_type = "fib_del") then
    '(h, p, proto, nh) ← event_route ev; Ok (Call (CefrouteDel h p proto nh))
  else if bool_decide (event_type = "fib_enable") then
    '(h, p, proto, nh) ← event_route ev; Ok (Call (CefrouteEnable h p proto nh))
  else if bool_decide (event_type = "bw_set") then
    '(a, b) ← event_nodes ev; bw ← getitem ev "bandwidth"; Ok (Call (SetSwitchBandwidth a b bw))
  else if bool_decide (event_type = "compute_call") then
    '(h, a) ← event_compute ev; Ok (Call (ComputeCall h a))
  else if bool_decide (event_type = "host_app_restart") then
    if host_app_fleet ctx then
      host ← getitem ev "host"; Ok (Call (RestartHost host (get_or ev "downtime_s" (PInt 0))))
    else Ok (Return (RBool false))
  else if content_runner ctx then Ok (Call (Submit event_type ev)) else Ok (Return RNone).

(** The verdict variables of the loop: success, error, outcome, detail. *)
Record firing := mkFiring {
  f_success : bool;
  f_error : option string;
  f_outcome : option string;
  f_detail : option pydict;
}.

(** The interpretation of a returned value; [fib_add] compares a return code. *)
Definition judge (event_type : string) (v : retval) : firing :=
  let v := match v with
           | RResult rc => if bool_decide (event_type = "fib_add") then RBool (bool_decide (rc = Some 0)) else v
           | _ => v
           end in
  match v with
  | ROutcome o => mkFiring (eo_success o) (eo_error o) (Some (eo_outcome o)) (Some (eo_detail o))
  | RBool false => mkFiring false (Some "handler reported failure") None None
  | _ => mkFiring true None None None
  end.

(** * The loop *)

(** [EventRecord] as [_record_event_outcome] fills it. *)
Record event_record := mkRecord {
  r_type : string;
  r_firing : firing;
  r_scheduled_at : pv;
  r_actual_at : pyfloat;
  r_event : pydict;
}.

(** What one iteration observes: the stop event at the loop head, the time
    elapsed before the wait, whether the wait was woken by a stop, the time the
    handler is called, and the reply of the operation. *)
Record observation := mkObs {
  ob_stopped : bool;
  ob_elapsed : pyfloat;
  ob_woken : bool;
  ob_fire : pyfloat;
  ob_reply : reply;
}.

(** A popped entry: its type was unknown, its handler ended the loop, or it was
    handled and perhaps recorded. *)
Inductive popped :=
  | Skipped (e : entry)
  | Died (e : entry)
  | Fired (e : entry) (f : firing) (r : option event_record).

Definition entry_of (p : popped) : entry :=
  match p with Skipped e | Died e | Fired e _ _ => e end.

(** How the thread ended: the heap is empty, it was told to stop, a handler
    raised a fatal exception, an exception escaped, or the observations end. *)
Inductive status := Finished | Stopped | Aborted | Crashed (e : exn) | Running.

Definition TIMEOUT_MAX : Z := 9223372036.

(** [if delay > 0: if self._stop_event.wait(timeout=delay): break]; a timeout
    above [threading.TIMEOUT_MAX] raises. *)
Definition wait_until (at_sec : pv) (o : observation) : res bool :=
  delay ← py_sub at_sec (PFloat (ob_elapsed o));
  positive ← py_lt (PInt 0) delay;
  if (positive : bool) then
    long ← py_lt (PInt TIMEOUT_MAX) delay;
    if (long : bool) then raise EOverflowError "timeout value is too large" else Ok (ob_woken o)
  else Ok false.

(** The handler call of an event whose type is known: [None] for a fatal
    exception. *)
Definition call_handler (ctx : context) (event_type : string) (ev : pydict) (o : observation) : option firing :=
  match handler_action ctx event_type ev with
  | Ok (Return v) => Some (judge event_type v)
  | Ok (Call _) =>
      match ob_reply o with
      | Returned v => Some (judge event_type v)
      | Raised msg => Some (mkFiring false (Some msg) None None)
      | Fatal => None
      end
  | Raise e => Some (mkFiring false (Some (exn_msg e)) None None)
  | NoFuel => None
  end.

(** [_record_event_outcome]. *)
Definition record_outcome (ctx : context) (event_type : string) (e : entry) (o : observation) (f : firing)
    : option event_record :=
  if negb (sink ctx) || bool_decide (event_type ∈ content_event_types) then None
  else Some (mkRecord event_type f (e_at e) (round3 (ob_fire o)) (dpop (e_event e) "repeat")).

(** The type an event is dispatched on, when it has a handler. *)
Definition known_type (ev : pydict) : option string :=
  match get_none ev "type" with
  | PStr t => if bool_decide (t ∈ handler_types) then Some t else None
  | _ => None
  end.

(** [_run], over the observations of its iterations. *)
Fixpoint run (ctx : context) (obs : list observation) (st : sched) : list popped * status :=
  match heap st with
  | [] => ([], Finished)
  | e :: h =>
      match obs with
      | [] => ([], Running)
      | o :: obs =>
          if ob_stopped o then ([], Stopped) else
          match wait_until (e_at e) o with
          | Raise x => ([], Crashed x)
          | NoFuel => ([], Running)
          | Ok true => ([], Stopped)
          | Ok false =>
              let st := mkSched h (seq st) in
              match known_type (e_event e) with
              | None => let '(tr, s) := run ctx obs st in (Skipped e :: tr, s)
              | Some t =>
                  match call_handler ctx t (e_event e) o with
                  | None => ([Died e], Aborted)
                  | Some f =>
                      let p := Fired e f (record_outcome ctx t e o f) in
                      match handle_repeat st (e_event e) (e_at e) with
                      | Ok st => let '(tr, s) := run ctx obs st in (p :: tr, s)
                      | Raise x => ([p], Crashed x)
                      | NoFuel => ([p], Running)
                      end
                  end
              end
          end
      end
  end.

(** * The schedule *)

(** What popping the next entry leaves behind, whatever is observed. *)
Definition after_pop (st : sched) (e : entry) : res sched :=
  match known_type (e_event e) with
  | None => Ok st
  | Some _ => handle_repeat st (e_event e) (e_at e)
  end.

(** The next [n] entries the heap yields when nothing stops the thread. *)
Fixpoint pops (n : nat) (st : sched) : list entry :=
  match n, heap st with
  | S n, e :: h => e :: match after_pop (mkSched h (seq st)) e with Ok st => pops n st | _ => [] end
  | _, _ => []
  end.

Lemma run_pops ctx obs st : ∃ n, entry_of <$> (run ctx obs st).1 = pops n st.
Proof.
  revert st. induction obs as [|o obs IH]; intros [[|e h] sq]; simpl; try (by exists 0%nat).
  destruct (ob_stopped o); [by exists 0%nat|].
  destruct (wait_until (e_at e) o) as [[]|x|]; try (by exists 0%nat).
  unfold pops. fold pops.
  destruct (known_type (e_event e)) as [t|] eqn:Ht.
  2:{ destruct (IH (mkSched h sq)) as [n Hn]. destruct (run ctx obs (mkSched h sq)) as [tr s].
      exists (S n). simpl. f_equal. unfold after_pop. rewrite Ht. exact Hn. }
  destruct (call_handler ctx t (e_event e) o) as [f|]; [|by exists 1%nat; simpl; destruct (after_pop _ _)].
  destruct (handle_repeat (mkSched h sq) (e_event e) (e_at e)) as [st'|x|] eqn:Hr.
  - destruct (IH st') as [n Hn]. destruct (run ctx obs st') as [tr s].
    exists (S n). simpl. f_equal. unfold after_pop. rewrite Ht, Hr. exact Hn.
  - exists 1%nat. simpl. unfold after_pop. by rewrite Ht, Hr.
  - exists 1%nat. simpl. unfold after_pop. by rewrite Ht, Hr.
Qed.

(** * Times *)

(** A time a configuration gives: an int of at most 53 bits or a double, not
    negative and not NaN. *)
Definition time_ok (v : pv) : Prop :=
  match v with
  | PInt z => 0 ≤ z ≤ 2 ^ 53
  | PFloat x => is_double x ∧ nonneg x
  | _ => False
  end.

(** A time on the heap: sums of ints may grow past 53 bits. *)
Definition clock_ok (v : pv) : Prop :=
  match v with
  | PInt z => 0 ≤ z
  | PFloat x => is_double x ∧ nonneg x
  | _ => False
  end.

(** [a <= b] for two times. *)
Definition at_le (a b : pv) : Prop :=
  match as_num a, as_num b with Some x, Some y => float_le x y = true | _, _ => False end.

Lemma time_clock v : time_ok v → clock_ok v.
Proof. destruct v; simpl; lia || done. Qed.

Lemma clock_num v : clock_ok v → ∃ x, as_num v = Some x ∧ not_nan x ∧ nonneg x.
Proof.
  destruct v; simpl; try done.
  - intros. exists (FFin z 0). split_and!; [done..|by apply nonneg_fin].
  - intros [_ Hn]. exists f. split_and!; [done| |done]. by apply nonneg_not_nan.
Qed.

Lemma at_le_refl a : clock_ok a → at_le a a.
Proof. intros (x & Hx & Hn & _)%clock_num. unfold at_le. rewrite Hx. by apply float_le_refl. Qed.

Lemma at_le_trans a b c : at_le a b → at_le b c → at_le a c.
Proof.
  unfold at_le. destruct (as_num a), (as_num b), (as_num c); try done. apply float_le_trans.
Qed.

Lemma at_cases a b : clock_ok a → clock_ok b →
  at_le a b ∧ (at_eq a b = true ∨ at_eq a b = false ∧ at_lt a b = true) ∨
  at_le b a ∧ at_eq a b = false ∧ at_lt a b = false.
Proof.
  intros (x & Hx & Hxn & _)%clock_num (y & Hy & Hyn & _)%clock_num. unfold at_le, at_eq, at_lt. rewrite Hx, Hy.
  destruct (float_eq x y) eqn:He; [left; split; [exact (proj1 (float_eq_le _ _ He))|by left]|].
  destruct (float_lt x y) eqn:Hl; [left; split; [unfold float_le; by rewrite Hl|by right]|].
  right. split; [|done]. destruct (float_le y x) eqn:Hle; [done|].
  apply float_lt_not_le in Hle; [congruence|done..].
Qed.

(** [float(z)] of a small int is not below it. *)
Lemma float_of_int_ge z x : 0 ≤ z ≤ 2 ^ 53 → float_of_int z = Ok x →
  is_double x ∧ nonneg x ∧ float_le (FFin z 0) x = true.
Proof.
  intros Hz. unfold float_of_int. intros H.
  pose proof (double_of_ratio_ok z 1 ltac:(lia) ltac:(lia)) as [Hd Hn].
  assert (Hge : float_le (FFin z 0) (double_of_ratio z 1) = true).
  { apply double_of_ratio_ge; [lia|lia|lia|lia|]. unfold at_most_ratio.
    change (pow_num 0) with 1. change (pow_den 0) with 1. lia. }
  destruct (double_of_ratio z 1); simplify_eq; done.
Qed.

Lemma float_of_int_nonneg z x : 0 ≤ z → float_of_int z = Ok x → is_double x ∧ nonneg x.
Proof.
  intros Hz. unfold float_of_int. intros H.
  pose proof (double_of_ratio_ok z 1 ltac:(lia) ltac:(lia)). destruct (double_of_ratio z 1); by simplify_eq.
Qed.

(** A delay added to a time below 2^53 gives a time that is not before it. *)
Lemma py_add_time a b c :
  clock_ok a → (∀ z, a = PInt z → z ≤ 2 ^ 53) → clock_ok b → py_add a b = Ok c → clock_ok c ∧ at_le a c.
Proof.
  intros Ha Hz Hb. unfold py_add, py_arith.
  destruct a as [| |z|x| | |], b as [| |z'|y| | |]; try done; cbn [num_operand as_double mbind res_bind].
  - intros [= <-]. simpl in *. split; [lia|]. unfold at_le. simpl. apply float_le_fin.
    change (pow_num 0) with 1. change (pow_den 0) with 1. lia.
  - intros (fx & Hfx & [= <-])%res_bind_Ok. simpl in *.
    destruct (float_of_int_ge z fx) as (Hd & Hn & Hge); [by specialize (Hz z eq_refl)|done|].
    destruct (float_add_ge fx y Hd Hn) as (? & ? & Hle); [apply Hb|].
    split; [done|]. by eapply float_le_trans.
  - intros (fy & Hfy & [= <-])%res_bind_Ok. simpl in *.
    destruct (float_of_int_nonneg z' fy Hb Hfy) as [_ Hn], Ha as [Hd H0].
    by destruct (float_add_ge x fy Hd H0 Hn) as (? & ? & ?).
  - intros [= <-]. simpl in *.
    destruct Ha as [Hd H0], Hb as [_ Hn]. by destruct (float_add_ge x y Hd H0 Hn) as (? & ? & ?).
Qed.

(** * Events that can be scheduled *)

(** The shape validation leaves a repeat, with times that are not NaN. *)
Record repeat_ok (rep : pydict) : Prop := {
  ro_interval : ∀ v, dget rep "interval" = Some v → time_ok v;
  ro_duration : ∀ v, dget rep "duration" = Some v → time_ok v;
  ro_count : ∀ v, dget rep "count" = Some v → v = PNone ∨ ∃ c, v = PInt c ∧ 1 ≤ c;
}.

(** An event the thread can handle again and again: its type has a handler, its
    repeat is well formed and so is the event it restores. *)
Record good_event (ev : pydict) : Prop := {
  ge_type : ∃ t, dget ev "type" = Some (PStr t) ∧ t ∈ handler_types;
  ge_repeat : get_none ev "repeat" = PNone ∨ ∃ rep, get_none ev "repeat" = PDict rep ∧ repeat_ok rep;
  ge_restore : ∃ o, build_restore_event ev = Ok o ∧
    ∀ r, o = Some r → ∃ t, dget r "type" = Some (PStr t) ∧ t ∈ handler_types;
}.

Lemma good_known ev : good_event ev → ∃ t, known_type ev = Some t ∧ get_none ev "type" = PStr t.
Proof.
  intros [(t & Ht & Hin) _ _]. exists t. unfold known_type. rewrite (get_none_dget _ _ _ Ht).
  by rewrite bool_decide_eq_true_2.
Qed.

(** The restored event has no repeat of its own. *)
Lemma restored_no_repeat ev r : build_restore_event ev = Ok (Some r) → dget r "repeat" = None.
Proof.
  unfold build_restore_event. destruct (get_none ev "repeat"); try done.
  destruct (dget d "restore") as [[]|], (dget d "restore_type"); try done; intros [= <-]; apply dget_dpop_same.
Qed.

Lemma no_repeat_restores ev : dget ev "repeat" = None → build_restore_event ev = Ok None.
Proof. intros H. unfold build_restore_event, get_none. by rewrite H. Qed.

Lemma good_restored ev r : good_event ev → build_restore_event ev = Ok (Some r) → good_event r.
Proof.
  intros [_ _ (o & Ho & Hr)] Hb. rewrite Ho in Hb. apply Ok_inj in Hb as ->.
  pose proof (restored_no_repeat ev r Ho) as Hn. split; [by apply Hr| |].
  - left. unfold get_none. by rewrite Hn.
  - exists None. split; [by apply no_repeat_restores|done].
Qed.

(** Replacing the count of a repeat changes neither the type nor the restored
    event. *)
Lemma restore_dset ev rep rep' :
  get_none ev "repeat" = PDict rep → dget rep' "restore" = dget rep "restore" →
  dget rep' "restore_type" = dget rep "restore_type" →
  build_restore_event (dset ev (PStr "repeat") (PDict rep')) = build_restore_event ev.
Proof.
  intros Hr H1 H2. unfold build_restore_event. rewrite Hr.
  assert (get_none (dset ev (PStr "repeat") (PDict rep')) "repeat" = PDict rep') as ->.
  { unfold get_none. by rewrite dget_dset, bool_decide_eq_true_2. }
  rewrite H1, H2. destruct (dget rep "restore") as [[]|], (dget rep "restore_type"); try done;
    by rewrite ?dpop_dmerge, ?(dpop_dset_other _ _ (PStr "type")) by done; rewrite ?dpop_dset.
Qed.

Lemma good_next ev rep rep' :
  good_event ev → get_none ev "repeat" = PDict rep → repeat_ok rep' →
  dget rep' "restore" = dget rep "restore" → dget rep' "restore_type" = dget rep "restore_type" →
  good_event (dset ev (PStr "repeat") (PDict rep')).
Proof.
  intros [(t & Ht & Hin) _ Hres] Hr Hok H1 H2. split.
  - exists t. by rewrite dget_dset, bool_decide_eq_false_2.
  - right. exists rep'. split; [|done]. unfold get_none. by rewrite dget_dset, bool_decide_eq_true_2.
  - by rewrite (restore_dset ev rep rep').
Qed.

(** * What one event puts on the heap *)

Definition occurrence := (pv * pydict)%type.

Definition restore_pushes (ev rep : pydict) (a : pv) : res (list occurrence) :=
  match dget rep "duration" with
  | Some d =>
      if at_lt (PInt 0) d then
        t ← py_add a d;
        Ok (match build_restore_event ev with Ok (Some r) => [(t, r)] | _ => [] end)
      else Ok []
  | None => Ok []
  end.

Definition next_pushes (ev rep : pydict) (a : pv) : res (list occurrence) :=
  let interval := get_or rep "interval" (PInt 0) in
  let again rep' := t ← py_add a interval; Ok [(t, dset ev (PStr "repeat") (PDict rep'))] in
  if at_lt (PInt 0) interval then
    match get_none rep "count" with
    | PInt c => if c <=? 1 then Ok [] else again (dset rep (PStr "count") (PInt (c - 1)))
    | _ => again rep
    end
  else Ok [].

Definition pushes (ev : pydict) (a : pv) : res (list occurrence) :=
  match get_none ev "repeat" with
  | PDict rep => l ← restore_pushes ev rep a; l' ← next_pushes ev rep a; Ok (l ++ l')
  | _ => Ok []
  end.

Definition push_all (st : sched) (l : list occurrence) : res sched :=
  foldM (λ st p, push_event st p.1 p.2) st l.

Lemma push_event_ok st a ev :
  clock_ok a → good_event ev →
  ∃ prio, push_event st a ev = Ok (mkSched (heappush (mkEntry a prio (seq st) ev) (heap st)) (seq st + 1)).
Proof.
  intros (x & Hx & _)%clock_num [(t & Ht & _) _ _]. unfold push_event, event_priority. rewrite Hx.
  unfold get_or. rewrite Ht. simpl. eauto.
Qed.

Lemma py_lt_times a b : clock_ok a → clock_ok b → py_lt a b = Ok (at_lt a b).
Proof.
  intros (x & Hx & _)%clock_num (y & Hy & _)%clock_num. unfold py_lt, at_lt. by rewrite Hx, Hy.
Qed.

Lemma handle_repeat_pushes st ev a :
  good_event ev → clock_ok a → (∀ z, a = PInt z → z ≤ 2 ^ 53) →
  handle_repeat st ev a = (l ← pushes ev a; push_all st l).
Proof.
  intros Hg Ha Hz. unfold handle_repeat, pushes.
  destruct (ge_repeat _ Hg) as [->|(rep & Hrep & Hok)]; [done|]. rewrite Hrep.
  destruct rep as [|kv rep']; [done|]. set (rep := kv :: rep') in *. cbn [truthy].
  rewrite bool_decide_eq_false_2 by done. cbn [negb]. cbv zeta.
  assert (Hr : push_restore st ev (get_none rep "duration") a = (l ← restore_pushes ev rep a; push_all st l)).
  { unfold push_restore, restore_pushes, get_none. destruct (dget rep "duration") as [d|] eqn:Hd; [|done].
    pose proof (time_clock _ (ro_duration _ Hok d Hd)) as Hdc. cbn [from_option id].
    assert (is_none d = false) as -> by (by destruct d). rewrite py_lt_times by done. cbn [mbind res_bind].
    destruct (at_lt (PInt 0) d); [|done]. destruct (py_add a d) as [t|e|] eqn:Ht; [|done..]. cbn [mbind res_bind].
    destruct (ge_restore _ Hg) as (o & Ho & _). rewrite Ho. cbn [mbind res_bind].
    destruct o as [r|]; [|done]. unfold push_all. cbn [foldM]. simpl.
    by destruct (push_event st t r). }
  rewrite Hr. clear Hr.
  assert (Hl : ∀ l, restore_pushes ev rep a = Ok l → ∃ st', push_all st l = Ok st').
  { intros l. unfold restore_pushes. destruct (dget rep "duration") as [d|] eqn:Hd; [|intros [= <-]; by eexists].
    destruct (at_lt (PInt 0) d); [|intros [= <-]; by eexists]. intros (t & Ht & [= <-])%res_bind_Ok.
    destruct (build_restore_event ev) as [[r|]| |] eqn:Hb; try (by eexists).
    destruct (py_add_time a d t) as [Htc _]; [done..|by apply time_clock, (ro_duration _ Hok)|done|].
    destruct (push_event_ok st t r Htc) as [prio E]; [by eapply good_restored|].
    eexists. unfold push_all. cbn [foldM]. simpl. by rewrite E. }
  destruct (restore_pushes ev rep a) as [l|e|] eqn:El; [|done..]. cbn [mbind res_bind].
  destruct (Hl l eq_refl) as [st' Hst']. rewrite Hst'. cbn [mbind res_bind].
  unfold next_pushes. set (interval := get_or rep "interval" (PInt 0)).
  assert (Hic : clock_ok interval).
  { unfold interval, get_or. destruct (dget rep "interval") as [v|] eqn:Hv; [|done].
    by apply time_clock, (ro_interval _ Hok). }
  rewrite py_lt_times by done. cbn [mbind res_bind].
  assert (Hend : push_all st (l ++ []) = Ok st') by (by rewrite app_nil_r).
  destruct (at_lt (PInt 0) interval); [|by cbn [mbind res_bind]].
  assert (Hpush : ∀ r t, py_add a interval = Ok t →
            push_all st (l ++ [(t, dset ev (PStr "repeat") (PDict r))])
            = push_event st' t (dset ev (PStr "repeat") (PDict r))).
  { intros r t _. unfold push_all in *. rewrite foldM_app, Hst'. cbn [mbind res_bind foldM]. simpl.
    by destruct (push_event st' t _). }
  unfold next_repeat, get_none. destruct (dget rep "count") as [v|] eqn:Hc; cbn [from_option id].
  - destruct (ro_count _ Hok v Hc) as [->|(c & -> & Hc1)]; cbn [is_none].
    + destruct (py_add a interval) as [t|e|] eqn:Ht; [|done..]. cbn [mbind res_bind]. by rewrite Hpush.
    + change (py_sub (PInt c) (PInt 1)) with (Ok (PInt (c - 1)) : res pv). cbn [mbind res_bind].
      change (py_le (PInt (c - 1)) (PInt 0)) with (Ok (float_le (FFin (c - 1) 0) (FFin 0 0)) : res bool).
      cbn [mbind res_bind].
      assert (float_le (FFin (c - 1) 0) (FFin 0 0) = (c <=? 1)) as ->.
      { rewrite float_le_int. destruct (Z.leb_spec (c - 1) 0), (Z.leb_spec c 1); lia. }
      destruct (c <=? 1); [by cbn [mbind res_bind]|].
      destruct (py_add a interval) as [t|e|] eqn:Ht; [|done..]. cbn [mbind res_bind]. by rewrite Hpush.
  - destruct (py_add a interval) as [t|e|] eqn:Ht; [|done..]. cbn [mbind res_bind]. by rewrite Hpush.
Qed.

(** Every push is good and not before the event that caused it. *)
Lemma pushes_ok ev a l :
  good_event ev → clock_ok a → (∀ z, a = PInt z → z ≤ 2 ^ 53) → pushes ev a = Ok l →
  ∀ t r, (t, r) ∈ l → clock_ok t ∧ at_le a t ∧ good_event r.
Proof.
  intros Hg Ha Hz. unfold pushes. destruct (ge_repeat _ Hg) as [->|(rep & Hrep & Hok)].
  { intros [= <-] t r []%elem_of_nil. }
  rewrite Hrep. intros (l1 & H1 & (l2 & H2 & [= <-])%res_bind_Ok)%res_bind_Ok t r [Hin|Hin]%elem_of_app.
  - unfold restore_pushes in H1. destruct (dget rep "duration") as [d|] eqn:Hd; [|by simplify_eq; apply elem_of_nil in Hin].
    destruct (at_lt (PInt 0) d); [|by simplify_eq; apply elem_of_nil in Hin].
    apply res_bind_Ok in H1 as (t' & Ht & [= <-]).
    destruct (build_restore_event ev) as [[r'|]| |] eqn:Hb; try by apply elem_of_nil in Hin.
    apply list_elem_of_singleton in Hin. simplify_eq.
    destruct (py_add_time a d t') as [? ?]; [done..|by apply time_clock, (ro_duration _ Hok)|done|].
    split_and!; [done..|by eapply good_restored].
  - unfold next_pushes in H2. destruct (at_lt (PInt 0) _); [|by simplify_eq; apply elem_of_nil in Hin].
    assert (Hagain : ∀ rep', repeat_ok rep' → dget rep' "restore" = dget rep "restore" →
              dget rep' "restore_type" = dget rep "restore_type" →
              (t0 ← py_add a (get_or rep "interval" (PInt 0)); Ok [(t0, dset ev (PStr "repeat") (PDict rep'))]) = Ok l2 →
              clock_ok t ∧ at_le a t ∧ good_event r).
    { intros rep' Hok' E1 E2 (t' & Ht & [= <-])%res_bind_Ok. apply list_elem_of_singleton in Hin. simplify_eq.
      destruct (py_add_time a (get_or rep "interval" (PInt 0)) t') as [? ?]; [done..| |done|].
      { unfold get_or. destruct (dget rep "interval") as [v|] eqn:Hv; [|done]. by apply time_clock, (ro_interval _ Hok). }
      split_and!; [done..|by eapply good_next]. }
    destruct (get_none rep "count") as [| |c| | | |] eqn:Hc; try (by apply (Hagain rep)).
    destruct (c <=? 1) eqn:Hc1; [by simplify_eq; apply elem_of_nil in Hin|].
    apply (Hagain (dset rep (PStr "count") (PInt (c - 1)))); [|by rewrite dget_dset, bool_decide_eq_false_2..|done].
    destruct Hok as [Hi Hd Hcc]. apply Z.leb_gt in Hc1.
    split; intros v; rewrite dget_dset; case_bool_decide; try done; [by apply Hi|by apply Hd|].
    intros [= <-]. right. exists (c - 1). split; [done|lia].
Qed.

(** * The heap invariant *)

Definition entry_ok (e : entry) : Prop := clock_ok (e_at e) ∧ good_event (e_event e).

Record sched_ok (st : sched) : Prop := {
  so_sorted : StronglySorted (λ a b, at_le (e_at a) (e_at b)) (heap st);
  so_entries : Forall entry_ok (heap st);
}.

Lemma heappush_perm e h : heappush e h ≡ₚ e :: h.
Proof.
  induction h as [|x h IH]; simpl; [done|]. destruct (entry_lt e x); [done|]. rewrite IH. constructor.
Qed.

Lemma entry_lt_at a b : clock_ok (e_at a) → clock_ok (e_at b) →
  if entry_lt a b then at_le (e_at a) (e_at b) else at_le (e_at b) (e_at a).
Proof.
  intros Ha Hb. unfold entry_lt.
  destruct (at_cases _ _ Ha Hb) as [[Hle [He|[He Hl]]]|(Hle & He & Hl)]; rewrite ?He, ?Hl; try done.
  assert (at_le (e_at b) (e_at a)).
  { apply clock_num in Ha as (x & Hx & _), Hb as (y & Hy & _). unfold at_le, at_eq in *. rewrite Hx, Hy in *.
    by apply float_eq_le in He as [_ ?]. }
  by destruct (_ || _).
Qed.

Lemma heappush_ok e st s :
  entry_ok e → sched_ok st → sched_ok (mkSched (heappush e (heap st)) s).
Proof.
  intros He [Hs Hf]. split; simpl.
  2:{ rewrite heappush_perm. by constructor. }
  induction Hs as [|x h Hs IH Hx]; simpl; [repeat constructor|].
  apply Forall_cons in Hf as [Hxo Hf]. pose proof (entry_lt_at e x (proj1 He) (proj1 Hxo)) as Hlt.
  destruct (entry_lt e x).
  - constructor; [by constructor|]. constructor; [done|].
    eapply Forall_impl; [exact Hx|]. intros y Hy. by eapply at_le_trans.
  - constructor; [by apply IH|]. rewrite heappush_perm. by constructor.
Qed.

(** The occurrences on the heap. *)
Definition occurrences_of (h : list entry) : list occurrence := (λ e, (e_at e, e_event e)) <$> h.

Lemma push_all_ok l st :
  sched_ok st → (∀ t r, (t, r) ∈ l → clock_ok t ∧ good_event r) →
  ∃ st', push_all st l = Ok st' ∧ sched_ok st' ∧ occurrences_of (heap st') ≡ₚ l ++ occurrences_of (heap st).
Proof.
  revert st. induction l as [|[t r] l IH]; intros st Hst Hl; [by exists st|].
  destruct (Hl t r) as [Ht Hr]; [by left|]. destruct (push_event_ok st t r Ht Hr) as [prio E].
  set (e := mkEntry t prio (seq st) r) in *.
  destruct (IH (mkSched (heappush e (heap st)) (seq st + 1))) as (st' & E' & Hok & Hp).
  { by apply heappush_ok. }
  { intros t' r' ?. apply Hl. by right. }
  exists st'. unfold push_all. cbn [foldM]. simpl. rewrite E. cbn [mbind res_bind]. split_and!; [done..|].
  rewrite Hp. unfold occurrences_of. simpl heap. rewrite heappush_perm, fmap_cons. simpl.
  by rewrite <- Permutation_middle.
Qed.

Lemma after_pop_ok st e :
  sched_ok st → entry_ok e → (∀ z, e_at e = PInt z → z ≤ 2 ^ 53) →
  match after_pop st e with
  | Ok st' => ∃ l, pushes (e_event e) (e_at e) = Ok l ∧ sched_ok st' ∧
      occurrences_of (heap st') ≡ₚ l ++ occurrences_of (heap st)
  | Raise x => pushes (e_event e) (e_at e) = Raise x
  | NoFuel => pushes (e_event e) (e_at e) = NoFuel
  end.
Proof.
  intros Hst [Ha Hg] Hz. unfold after_pop. destruct (good_known _ Hg) as (t & -> & _).
  rewrite handle_repeat_pushes by done. destruct (pushes (e_event e) (e_at e)) as [l|x|] eqn:Hl; [|done..].
  cbn [mbind res_bind].
  destruct (push_all_ok l st Hst) as (st' & -> & ? & ?); [|eauto].
  intros t' r Hin. destruct (pushes_ok _ _ _ Hg Ha Hz Hl t' r Hin) as (? & _ & ?). done.
Qed.

Lemma pops_ge n st lo :
  sched_ok st → (∀ e, e ∈ heap st → at_le lo (e_at e)) →
  (∀ e z, e ∈ pops n st → e_at e = PInt z → z ≤ 2 ^ 53) →
  (∀ e, e ∈ pops n st → at_le lo (e_at e)) ∧ StronglySorted (λ a b, at_le (e_at a) (e_at b)) (pops n st).
Proof.
  revert st lo. induction n as [|n IH]; intros [h sq] lo Hst Hlo Hz.
  { split; [by intros e ?%elem_of_nil|constructor]. }
  destruct h as [|e h]; [split; [by intros e ?%elem_of_nil|constructor]|].
  simpl in Hz |- *. destruct Hst as [Hs Hf]. simpl in Hs, Hf, Hlo.
  apply StronglySorted_inv in Hs as [Hs He]. apply Forall_cons in Hf as [Heo Hf].
  assert (Hst' : sched_ok (mkSched h sq)) by done.
  assert (Hze : ∀ z, e_at e = PInt z → z ≤ 2 ^ 53) by (intros z; apply Hz; by left).
  pose proof (after_pop_ok _ e Hst' Heo Hze) as Hp.
  assert (Hloe : at_le lo (e_at e)) by (apply Hlo; by left).
  destruct (after_pop (mkSched h sq) e) as [st'|x|].
  2, 3: split; [by intros y ->%list_elem_of_singleton|by repeat constructor].
  destruct Hp as (l & Hl & Hok & Hperm).
  destruct (IH st' (e_at e)) as [Hge Hsort].
  - done.
  - intros y Hy. assert (Hin : (e_at y, e_event y) ∈ occurrences_of (heap st')) by (by apply (list_elem_of_fmap_2 (λ e, (e_at e, e_event e)))).
    rewrite Hperm, elem_of_app in Hin. destruct Hin as [Hin|Hin].
    + by destruct (pushes_ok _ _ _ (proj2 Heo) (proj1 Heo) Hze Hl _ _ Hin) as (_ & ? & _).
    + apply list_elem_of_fmap in Hin as (x & [= -> _] & Hx). rewrite Forall_forall in He. by apply He.
  - intros y z Hy. apply Hz. by right.
  - split.
    + intros y [->|Hy]%elem_of_cons; [done|]. eapply at_le_trans; [done|by apply Hge].
    + constructor; [done|]. by apply Forall_forall.
Qed.

(** * Every occurrence of an event *)

(** The exact-or-rounded sum of two times that can be added. *)
Definition tick (a b : pv) : pv := match py_add a b with Ok c => c | _ => a end.

Definition interval_of (rep : pydict) : pv := get_or rep "interval" (PInt 0).

(** How often an event fires by itself: once without an interval, [count] times
    with one. *)
Definition repeats (ev : pydict) : nat :=
  match get_none ev "repeat" with
  | PDict rep =>
      if at_lt (PInt 0) (interval_of rep) then
        match get_none rep "count" with PInt c => Z.to_nat c | _ => 0 end
      else 1
  | _ => 1
  end.

(** The event does not repeat for ever. *)
Definition finite (ev : pydict) : Prop :=
  match get_none ev "repeat" with
  | PDict rep => at_lt (PInt 0) (interval_of rep) = true → ∃ c, get_none rep "count" = PInt c
  | _ => True
  end.

(** The time of the [k]-th occurrence of an event first due at [a]. *)
Definition cadence (ev : pydict) (a : pv) (k : nat) : pv :=
  match get_none ev "repeat" with
  | PDict rep => Nat.iter k (λ t, tick t (interval_of rep)) a
  | _ => a
  end.

(** What an occurrence at [t] restores, and when: a positive [duration] later. *)
Definition restores_at (ev : pydict) (t : pv) : list occurrence :=
  match get_none ev "repeat" with
  | PDict rep =>
      match dget rep "duration", build_restore_event ev with
      | Some d, Ok (Some r) => if at_lt (PInt 0) d then [(tick t d, r)] else []
      | _, _ => []
      end
  | _ => []
  end.

(** Everything an event due at [a] makes fire, without the [repeat] keys. *)
Definition occurrences (ev : pydict) (a : pv) : list occurrence :=
  List.seq 0 (repeats ev) ≫= λ k,
    (cadence ev a k, dpop ev "repeat") :: restores_at ev (cadence ev a k).

Lemma dpop_absent d k : dget d k = None → dpop d k = d.
Proof.
  induction d as [|[x y] d IH]; simpl; [done|]. destruct (eq_str x k); [done|]. simpl. intros. by rewrite IH.
Qed.

Lemma get_none_absent d k : dget d k = None → get_none d k = PNone.
Proof. unfold get_none. by intros ->. Qed.

(** An event without a repeat fires once. *)
Lemma occurrences_once ev a : dget ev "repeat" = None → occurrences ev a = [(a, ev)].
Proof.
  intros H. unfold occurrences, repeats, cadence, restores_at. rewrite (get_none_absent _ _ H). simpl.
  by rewrite (dpop_absent ev "repeat").
Qed.

Lemma iter_shift {A} (f : A → A) n x : Nat.iter n f (f x) = Nat.iter (S n) f x.
Proof. induction n as [|n IH]; [done|]. simpl. by rewrite IH. Qed.

Lemma bind_seq_S {A} (f : nat → list A) n : List.seq 0 (S n) ≫= f = f 0%nat ++ (List.seq 0 n ≫= λ k, f (S k)).
Proof.
  change (f 0%nat ++ (List.seq 1 n ≫= f) = f 0%nat ++ (List.seq 0 n ≫= λ k, f (S k))). f_equal.
  rewrite <- List.seq_shift. induction (List.seq 0 n) as [|x l IH]; [done|]. cbn [List.map]. by rewrite !bind_cons, IH.
Qed.

Lemma tick_Ok a b c : py_add a b = Ok c → tick a b = c.
Proof. unfold tick. by intros ->. Qed.

Section next.
Variables (ev rep rep' : pydict).
Hypothesis ev_repeat : get_none ev "repeat" = PDict rep.
Hypothesis same : ∀ k, k ≠ "count" → dget rep' k = dget rep k.

Let next := dset ev (PStr "repeat") (PDict rep').

Lemma next_repeat_dict : get_none next "repeat" = PDict rep'.
Proof. unfold get_none, next. by rewrite dget_dset, bool_decide_eq_true_2. Qed.

Lemma next_strip : dpop next "repeat" = dpop ev "repeat".
Proof. apply dpop_dset. Qed.

Lemma next_interval : interval_of rep' = interval_of rep.
Proof. unfold interval_of, get_or. by rewrite same. Qed.

Lemma next_restores t : restores_at next t = restores_at ev t.
Proof.
  unfold restores_at. rewrite next_repeat_dict, ev_repeat, same by done. unfold next.
  by rewrite (restore_dset ev rep rep') by (done || by apply same).
Qed.

Lemma next_cadence a t k : py_add a (interval_of rep) = Ok t → cadence next t k = cadence ev a (S k).
Proof.
  intros Ht. unfold cadence. rewrite next_repeat_dict, ev_repeat, next_interval, <- iter_shift.
  by rewrite (tick_Ok _ _ _ Ht).
Qed.
End next.

Lemma good_finite_count ev rep :
  good_event ev → finite ev → get_none ev "repeat" = PDict rep → at_lt (PInt 0) (interval_of rep) = true →
  ∃ c, get_none rep "count" = PInt c ∧ 1 ≤ c.
Proof.
  intros Hg Hf Hrep Hi. unfold finite in Hf. rewrite Hrep in Hf. destruct (Hf Hi) as [c Hc].
  exists c. split; [done|]. destruct (ge_repeat _ Hg) as [E|(rep2 & E & Hok)]; [congruence|].
  assert (rep2 = rep) as -> by congruence. unfold get_none in Hc.
  destruct (dget rep "count") as [v|] eqn:Hv; [|done]. simpl in Hc. subst v.
  by destruct (ro_count _ Hok _ Hv) as [?|(c' & [= ->] & ?)].
Qed.

(** One occurrence of an event leaves the rest on the heap. *)
Lemma occurrences_step ev a l :
  good_event ev → finite ev → pushes ev a = Ok l →
  occurrences ev a ≡ₚ (a, dpop ev "repeat") :: (l ≫= λ p, occurrences p.2 p.1) ∧
  ∀ t r, (t, r) ∈ l → finite r.
Proof.
  intros Hg Hf. unfold pushes. destruct (ge_repeat _ Hg) as [E|(rep & Hrep & Hok)].
  { rewrite E. intros [= <-]. split; [|by intros ? ? ?%elem_of_nil].
    unfold occurrences, repeats, cadence, restores_at. by rewrite E. }
  rewrite Hrep. intros (l1 & H1 & (l2 & H2 & [= <-])%res_bind_Ok)%res_bind_Ok.
  rewrite bind_app.
  assert (Hl1 : (l1 ≫= λ p, occurrences p.2 p.1) = restores_at ev a ∧ ∀ t r, (t, r) ∈ l1 → finite r).
  { unfold restore_pushes in H1. unfold restores_at. rewrite Hrep.
    destruct (dget rep "duration") as [d|]; [|simplify_eq; split; [done|by intros ? ? ?%elem_of_nil]].
    destruct (at_lt (PInt 0) d); [|simplify_eq; destruct (build_restore_event ev) as [[r|]| |]; split; try done; by intros ? ? ?%elem_of_nil].
    apply res_bind_Ok in H1 as (t & Ht & [= <-]).
    destruct (build_restore_event ev) as [[r|]| |] eqn:Hb; try (split; [done|by intros ? ? ?%elem_of_nil]).
    pose proof (restored_no_repeat _ _ Hb) as Hn.
    split; [simpl; by rewrite occurrences_once, (tick_Ok _ _ _ Ht)|].
    intros t' r' [= -> ->]%list_elem_of_singleton. unfold finite. by rewrite (get_none_absent _ _ Hn). }
  destruct Hl1 as [-> Hfin1].
  assert (Hone : repeats ev = 1%nat → l2 = [] →
    occurrences ev a ≡ₚ (a, dpop ev "repeat") :: restores_at ev a ++ (l2 ≫= λ p, occurrences p.2 p.1)).
  { intros E ->. unfold occurrences. rewrite E. simpl.
    assert (cadence ev a 0 = a) as -> by (unfold cadence; by destruct (get_none ev "repeat")). done. }
  unfold next_pushes in H2. fold (interval_of rep) in H2.
  destruct (at_lt (PInt 0) (interval_of rep)) eqn:Hi.
  2:{ injection H2 as <-. split; [apply Hone; [|done]; unfold repeats; by rewrite Hrep, Hi|].
      intros t r [?|[]%elem_of_nil]%elem_of_app. by eapply Hfin1. }
  destruct (good_finite_count ev rep Hg Hf Hrep Hi) as (c & Hc & Hc1). rewrite Hc in H2.
  assert (Hreps : repeats ev = Z.to_nat c) by (unfold repeats; by rewrite Hrep, Hi, Hc).
  destruct (Z.leb_spec c 1) as [Hle|Hgt].
  { injection H2 as <-. split; [apply Hone; [lia|done]|].
    intros t r [?|[]%elem_of_nil]%elem_of_app. by eapply Hfin1. }
  apply res_bind_Ok in H2 as (t & Ht & [= <-]).
  set (rep' := dset rep (PStr "count") (PInt (c - 1))) in *.
  assert (Hsame : ∀ k, k ≠ "count" → dget rep' k = dget rep k).
  { intros k Hk. unfold rep'. by rewrite dget_dset, bool_decide_eq_false_2. }
  assert (Hc' : get_none rep' "count" = PInt (c - 1)).
  { unfold rep', get_none. by rewrite dget_dset, bool_decide_eq_true_2. }
  split.
  - cbn [mbind list_bind]. rewrite app_nil_r. cbn [fst snd]. unfold occurrences at 1. rewrite Hreps.
    replace (Z.to_nat c) with (S (Z.to_nat (c - 1))) by lia. rewrite bind_seq_S. simpl app.
    assert (cadence ev a 0 = a) as -> by (unfold cadence; by destruct (get_none ev "repeat")).
    assert (Hr' : repeats (dset ev (PStr "repeat") (PDict rep')) = Z.to_nat (c - 1)).
    { unfold repeats. rewrite next_repeat_dict, (next_interval rep rep'), Hi, Hc' by done. done. }
    unfold occurrences. rewrite Hr', next_strip.
    constructor. apply Permutation_app_head. apply reflexive_eq. apply list_bind_ext; [|done].
    intros k. rewrite (next_cadence ev rep rep' Hrep Hsame a t k Ht).
    by rewrite (next_restores ev rep rep' Hrep Hsame).
  - intros t' r' [?|[= -> ->]%list_elem_of_singleton]%elem_of_app; [by eapply Hfin1|].
    unfold finite. rewrite next_repeat_dict. intros _. eauto.
Qed.

(** * Runs *)

(** An event a scheduler can be given: it is good and due at a time. *)
Definition ready (ev : pydict) : Prop :=
  good_event ev ∧ ∃ a, dget ev "at" = Some a ∧ time_ok a.

Definition due (ev : pydict) : pv := get_none ev "at".

Lemma init_ok events :
  Forall ready events →
  ∃ st, EventScheduler_init events = Ok st ∧ sched_ok st ∧
    occurrences_of (heap st) ≡ₚ (λ ev, (due ev, ev)) <$> events.
Proof.
  intros Hall. unfold EventScheduler_init.
  assert (Hgen : ∀ st, sched_ok st → ∃ st',
    foldM (λ st event, at_sec ← getitem event "at"; push_event st at_sec event) st events = Ok st' ∧
    sched_ok st' ∧ occurrences_of (heap st') ≡ₚ ((λ ev, (due ev, ev)) <$> events) ++ occurrences_of (heap st)).
  { induction Hall as [|ev events (Hg & a & Ha & Hta) Hall IH]; intros st Hst; [by exists st|].
    apply time_clock in Hta. destruct (push_event_ok st a ev Hta Hg) as [prio E].
    destruct (IH (mkSched (heappush (mkEntry a prio (seq st) ev) (heap st)) (seq st + 1)))
      as (st' & E' & Hok & Hp); [by apply heappush_ok|].
    exists st'. cbn [foldM]. assert (getitem ev "at" = Ok a) as -> by (unfold getitem; by rewrite Ha).
    cbn [mbind res_bind]. rewrite E. cbn [mbind res_bind].
    split_and!; [done..|]. rewrite Hp. unfold occurrences_of. simpl heap. rewrite heappush_perm, !fmap_cons. simpl.
    unfold due at 2. rewrite (get_none_dget _ _ _ Ha). by rewrite <- Permutation_middle. }
  destruct (Hgen (mkSched [] 0)) as (st & E & Hok & Hp); [repeat constructor|].
  exists st. rewrite app_nil_r in Hp. done.
Qed.

(** An iteration that is neither told to stop nor ended by a fatal exception. *)
Definition quiet (o : observation) : Prop :=
  ob_stopped o = false ∧ ob_woken o = false ∧ ob_reply o ≠ Fatal.

(** A thread that ends early ends with an overflow: a time too large for a
    float, or a wait too long for a thread. *)
Lemma float_of_int_raise z e : float_of_int z = Raise e → exn_cls e = EOverflowError.
Proof. unfold float_of_int. destruct (double_of_ratio z 1); intros [= <-]. done. Qed.

Lemma py_arith_raise neg a b : clock_ok a → clock_ok b ∨ (∃ x, b = PFloat x) →
  (∃ c, py_arith neg a b = Ok c ∧ is_number c = true) ∨
  ∃ e, py_arith neg a b = Raise e ∧ exn_cls e = EOverflowError.
Proof.
  assert (Hint : ∀ z, (∃ x, float_of_int z = Ok x) ∨ ∃ e, float_of_int z = Raise e ∧ exn_cls e = EOverflowError).
  { intros z. destruct (float_of_int z) as [x|e|] eqn:E; [by left; eexists|right; eexists; split; [done|by eapply float_of_int_raise]|].
    unfold float_of_int in E. by destruct (double_of_ratio z 1). }
  intros Ha Hb. unfold py_arith.
  destruct a as [| |z|x| | |]; try done; destruct b as [| |z'|y| | |]; try (by destruct Hb as [?|[? ?]]);
    cbn [num_operand as_double mbind res_bind].
  - left. by eexists.
  - destruct (Hint z) as [[x ->]|(e & -> & ?)]; cbn [mbind res_bind]; [left|right]; by eexists.
  - destruct (Hint z') as [[y ->]|(e & -> & ?)]; cbn [mbind res_bind]; [left|right]; by eexists.
  - left. by eexists.
Qed.

Lemma wait_until_raise a o : clock_ok a →
  (∃ b, wait_until a o = Ok b ∧ (b = true → ob_woken o = true)) ∨
  ∃ e, wait_until a o = Raise e ∧ exn_cls e = EOverflowError.
Proof.
  intros Ha. unfold wait_until, py_sub.
  destruct (py_arith_raise true a (PFloat (ob_elapsed o)) Ha ltac:(eauto)) as [(c & -> & Hc)|(e & -> & He)];
    cbn [mbind res_bind]; [|right; by eexists].
  unfold py_lt. destruct c as [| |z|x| | |]; try done; cbn [as_num mbind res_bind];
    destruct (float_lt _ _); cbn [mbind res_bind]; try (left; by eexists);
    destruct (float_lt _ _); cbn [mbind res_bind]; [right|left|right|left]; by eexists.
Qed.

Lemma pushes_raise ev a x :
  good_event ev → clock_ok a → pushes ev a = Raise x → exn_cls x = EOverflowError.
Proof.
  intros Hg Ha. unfold pushes. destruct (ge_repeat _ Hg) as [->|(rep & -> & Hok)]; [done|].
  assert (Hadd : ∀ b e, clock_ok b → py_add a b = Raise e → exn_cls e = EOverflowError).
  { intros b e Hb. unfold py_add. destruct (py_arith_raise false a b Ha ltac:(eauto)) as [(c & -> & _)|(e' & -> & ?)]; [done|].
    by intros [= <-]. }
  assert (Hi : clock_ok (get_or rep "interval" (PInt 0))).
  { unfold get_or. destruct (dget rep "interval") as [v|] eqn:Hv; [|done]. by apply time_clock, (ro_interval _ Hok). }
  destruct (restore_pushes ev rep a) as [l|e|] eqn:E1; cbn [mbind res_bind]; [| |done].
  - destruct (next_pushes ev rep a) as [l'|e|] eqn:E2; cbn [mbind res_bind]; [done| |done]. intros [= <-].
    unfold next_pushes in E2. destruct (at_lt _ _); [|done].
    destruct (py_add a (get_or rep "interval" (PInt 0))) as [t|e'|] eqn:Et; cbn [mbind res_bind] in E2;
      [|apply (Hadd _ _ Hi) in Et; destruct (get_none rep "count"); try destruct (_ <=? _); simplify_eq; done|];
      destruct (get_none rep "count"); try destruct (_ <=? _); done.
  - intros [= <-]. unfold restore_pushes in E1. destruct (dget rep "duration") as [d|] eqn:Hd; [|done].
    destruct (at_lt _ _); [|done]. destruct (py_add a d) as [t|e'|] eqn:Et; cbn [mbind res_bind] in E1; [done| |done].
    injection E1 as <-. eapply Hadd; [|done]. by apply time_clock, (ro_duration _ Hok).
Qed.

Lemma pushes_fuel ev a : good_event ev → clock_ok a → pushes ev a ≠ NoFuel.
Proof.
  intros Hg Ha. unfold pushes. destruct (ge_repeat _ Hg) as [->|(rep & -> & Hok)]; [done|].
  assert (Hadd : ∀ b, py_add a b ≠ NoFuel).
  { intros b. unfold py_add, py_arith, as_double, float_of_int.
    destruct (num_operand a) as [[|]|], (num_operand b) as [[|]|]; cbn [mbind res_bind]; try done;
      repeat (destruct (double_of_ratio _ _); cbn [mbind res_bind]; try done). }
  unfold restore_pushes, next_pushes.
  destruct (dget rep "duration") as [d|]; [destruct (at_lt (PInt 0) d); [specialize (Hadd d) as Hd; destruct (py_add a d)|]|];
    cbn [mbind res_bind]; try done.
  all: destruct (at_lt _ _); cbn [mbind res_bind]; try done.
  all: specialize (Hadd (get_or rep "interval" (PInt 0))); destruct (py_add a _);
    destruct (get_none rep "count"); try destruct (_ <=? _); done.
Qed.

(** The total of what the heap will make fire. *)
Definition remaining (st : sched) : list occurrence :=
  occurrences_of (heap st) ≫= λ p, occurrences p.2 p.1.

Definition fired_occurrence (p : popped) : occurrence :=
  (e_at (entry_of p), dpop (e_event (entry_of p)) "repeat").

Definition is_fired (p : popped) : Prop := ∃ e f r, p = Fired e f r.

Lemma repeats_pos ev a : good_event ev → finite ev →
  ∃ l, occurrences ev a = (a, dpop ev "repeat") :: l.
Proof.
  intros Hg Hf. unfold occurrences. assert (Hr : (1 ≤ repeats ev)%nat).
  { unfold repeats. destruct (get_none ev "repeat") as [| | | | | |rep] eqn:Hrep; try lia.
    destruct (at_lt (PInt 0) (interval_of rep)) eqn:Hi; [|lia].
    destruct (good_finite_count ev rep Hg Hf Hrep Hi) as (c & -> & ?). lia. }
  destruct (repeats ev) as [|n]; [lia|]. rewrite bind_seq_S. simpl.
  assert (cadence ev a 0 = a) as -> by (unfold cadence; by destruct (get_none ev "repeat")). eauto.
Qed.

(** Reading an event never runs out of anything. *)
Lemma getitem_fuel d k : getitem d k ≠ NoFuel.
Proof. unfold getitem. by destruct (dget d k). Qed.

Lemma item_fuel v i : item v i ≠ NoFuel.
Proof.
  unfold item. destruct v; try done; [|by destruct (List.find _ _)].
  unfold py_getitem. repeat case_match; done.
Qed.

Lemma bind_fuel {A B} (m : res A) (f : A → res B) : m ≠ NoFuel → (∀ a, f a ≠ NoFuel) → m ≫= f ≠ NoFuel.
Proof. destruct m; simpl; auto; done. Qed.

Lemma handler_action_fuel ctx t ev : handler_action ctx t ev ≠ NoFuel.
Proof.
  unfold handler_action, event_nodes, event_route, event_compute.
  repeat first [done | apply getitem_fuel | apply item_fuel | apply bind_fuel; [|intros ?] | case_match].
Qed.

Lemma run_all ctx obs st :
  sched_ok st → Forall (λ e, finite (e_event e)) (heap st) → Forall quiet obs →
  (∀ z ev, (PInt z, ev) ∈ remaining st → z ≤ 2 ^ 53) →
  Forall is_fired (run ctx obs st).1 ∧
  match run ctx obs st with
  | (tr, Finished) => fired_occurrence <$> tr ≡ₚ remaining st
  | (tr, Running) => (length obs < length (remaining st))%nat
  | (_, Crashed x) => exn_cls x = EOverflowError
  | _ => False
  end.
Proof.
  revert obs. intros obs. revert st. induction obs as [|o obs IH]; intros [h sq] Hst Hf Hq Hz.
  { destruct h as [|e h]; [cbn [run heap fst]; split; [by constructor|done]|]. cbn [run heap fst]. split; [by constructor|].
    destruct Hst as [_ Hst]. apply Forall_cons in Hst as [[_ Hg] _]. apply Forall_cons in Hf as [Hf _].
    unfold remaining, occurrences_of. simpl heap. rewrite fmap_cons, bind_cons, length_app. simpl.
    destruct (repeats_pos _ (e_at e) Hg Hf) as [l ->]. simpl. lia. }
  destruct h as [|e h]; [cbn [run heap fst]; split; [by constructor|done]|].
  pose proof Hst as [Hs Hall]. simpl in Hs, Hall, Hf. apply StronglySorted_inv in Hs as [Hs _].
  apply Forall_cons in Hall as [[Ha Hg] Hall]. apply Forall_cons in Hf as [Hfe Hf].
  apply Forall_cons in Hq as [(Hstop & Hwoke & Hrep) Hq].
  assert (Hrem : remaining (mkSched (e :: h) sq) = occurrences (e_event e) (e_at e) ++ remaining (mkSched h sq)).
  { unfold remaining, occurrences_of. simpl heap. by rewrite fmap_cons, bind_cons. }
  destruct (repeats_pos _ (e_at e) Hg Hfe) as [lo Hlo].
  assert (Hze : ∀ z, e_at e = PInt z → z ≤ 2 ^ 53).
  { intros z Ez. apply (Hz z (dpop (e_event e) "repeat")). rewrite Hrem, Hlo, Ez. by left. }
  cbn [run heap]. rewrite Hstop.
  destruct (wait_until_raise (e_at e) o Ha) as [(b & -> & Hb)|(x & -> & Hx)]; [|by split].
  destruct b; [by rewrite Hb in Hwoke|]. cbn [Scheduler.seq].
  destruct (good_known _ Hg) as (t & Ht & _). rewrite Ht.
  assert (Hcall : ∃ f, call_handler ctx t (e_event e) o = Some f).
  { unfold call_handler. destruct (handler_action ctx t (e_event e)) as [[c|v]|x|] eqn:Eh; [|eauto..|].
    - destruct (ob_reply o); [eauto..|done].
    - by destruct (handler_action_fuel ctx t (e_event e)). }
  destruct Hcall as [f ->].
  pose proof (after_pop_ok (mkSched h sq) e ltac:(by split) (conj Ha Hg) Hze) as Hp.
  unfold after_pop in Hp. rewrite Ht in Hp.
  destruct (handle_repeat (mkSched h sq) (e_event e) (e_at e)) as [st'|x|].
  - destruct Hp as (l & Hl & Hok & Hperm).
    destruct (occurrences_step _ _ _ Hg Hfe Hl) as [Hocc Hfin].
    assert (Hrem' : remaining (mkSched (e :: h) sq) ≡ₚ (e_at e, dpop (e_event e) "repeat") :: remaining st').
    { rewrite Hrem, Hocc. simpl. constructor. unfold remaining at 2. rewrite Hperm, bind_app. done. }
    destruct (IH st' Hok) as [Hfired Hres].
    + apply Forall_forall. intros y Hy.
      assert (Hin : (e_at y, e_event y) ∈ occurrences_of (heap st')) by (by apply (list_elem_of_fmap_2 (λ e, (e_at e, e_event e)))).
      rewrite Hperm, elem_of_app in Hin. destruct Hin as [Hin|Hin]; [by eapply Hfin|].
      apply list_elem_of_fmap in Hin as (x & [= _ ->] & Hx). rewrite Forall_forall in Hf. by apply Hf.
    + done.
    + intros z ev Hin. apply (Hz z ev). rewrite Hrem'. by right.
    + destruct (run ctx obs st') as [tr s]. cbn beta iota delta [fst] in Hfired, Hres |- *.
      split; [constructor; [by eexists _, _, _|done]|].
      destruct s; try done.
      * rewrite fmap_cons, Hrem', <- Hres. done.
      * rewrite (Permutation_length Hrem'). simpl. lia.
  - split; [repeat constructor; by eexists _, _, _|]. by eapply pushes_raise.
  - by destruct (pushes_fuel _ _ Hg Ha Hp).
Qed.
