(* ===== verification/Options.v ===== *)
(** Component: the option table (src/core/config/validator.py, [OPTION_SPECS]),
    the flat-key checks driven by it, and the merge of configuration values into
    parsed arguments (src/core/config/loader.py).  The argparse presentation
    fields of a spec (flag, help, metavar, action, block, cli_order) have no
    effect on validation or merging and are left out. *)
From S2P Require Import Prelude PyValue PyString.
Local Open Scope Z_scope.

Inductive option_kind := KBool | KStr | KInt | KNumber | KEnum | KStructured.

#[export] Instance option_kind_eq_dec : EqDecision option_kind.
Proof. solve_decision. Defined.

(** [OptionSpec]. *)
Record OptionSpec := mkOption {
  o_key : string;
  o_kind : option_kind;
  o_default : pv;
  o_minimum : option Z;
  o_nullable : bool;
  o_message : option string;
  o_choices : list string;
  o_config_allowed : bool;
  o_cli_allowed : bool;
  o_special_config_merge : bool;
}.

(** [OPTION_SPECS], in insertion order: topology keys, output keys, workload
    keys, structured and remaining keys. *)
Definition topology_specs : list OptionSpec :=
  [ mkOption "hosts" KInt (PInt 5) (Some 3) false None [] true true false;
    mkOption "switches" KInt (PInt 10) (Some 2) false None [] true true false;
    mkOption "seed" KInt (PNone) None true None [] true true false;
    mkOption "topo_png" KStr (PNone) None true None [] true true false;
    mkOption "topo_layout" KEnum (PStr "spring") None false None ["spring"; "kamada_kawai"; "circular"] true true false;
    mkOption "k" KInt (PInt 2) (Some 1) false None [] true true false;
    mkOption "host_degree_min" KInt (PInt 1) (Some 1) false None [] true true false;
    mkOption "host_degree_max" KInt (PInt 2) None false None [] true true false;
    mkOption "node_per_switch" KInt (PInt 2) (Some 0) false None [] true true false;
    mkOption "switch_use_all" KBool (PBool false) None false None [] true true false ].

Definition output_specs : list OptionSpec :=
  [ mkOption "num" KInt (PNone) (Some 1) true None [] true true false;
    mkOption "output_dir" KStr (PStr "logs") None false None [] true true false;
    mkOption "results_json" KStr (PStr "") None true None [] true true false;
    mkOption "timestamp" KBool (PBool false) None false None [] true true false;
    mkOption "no_cli" KBool (PBool false) None false None [] true true false;
    mkOption "no_script_log" KBool (PBool false) None false None [] true true false;
    mkOption "duration" KInt (PInt 0) (Some 0) false None [] true true false ].

Definition workload_specs : list OptionSpec :=
  [ mkOption "cache_default_rct_ms" KInt (PNone) (Some 1000) true None [] true true false;
    mkOption "publisher_host" KInt (PNone) None true None [] true true false;
    mkOption "pubsub_sub_startup_grace" KNumber (PFloat (FFin 1 0)) (Some 0) false (Some "pubsub_sub_startup_grace must be a non-negative number") [] true true false;
    mkOption "warmup_get_interval" KNumber (PInt 0) (Some 0) false (Some "warmup_get_interval must be a non-negative number") [] true true false;
    mkOption "warmup_only_cache_nodes" KBool (PBool true) None false None [] true true false;
    mkOption "down_interval" KInt (PInt 0) (Some 0) false None [] true true false;
    mkOption "down_duration" KInt (PInt 0) (Some 0) false None [] true true false;
    mkOption "down_exclude" KStr (PStr "") None false None [] true true false;
    mkOption "down_count" KInt (PInt 5) (Some 0) false None [] true true false;
    mkOption "down_stagger" KInt (PInt 2) (Some 0) false None [] true true false;
    mkOption "cache_count" KInt (PInt 0) (Some 0) false None [] true true false ].

Definition structured_specs : list OptionSpec :=
  [ mkOption "bw" KStructured (PList []) None false None [] true true false;
    mkOption "ext" KStructured (PList []) None false None [] true true false;
    mkOption "bridge" KStructured (PList []) None false None [] false true false;
    mkOption "bridges" KStructured (PList []) None false None [] true false false;
    mkOption "failure_scenarios" KStructured (PNone) None false None [] true false false;
    mkOption "links" KStructured (PNone) None false None [] true false false;
    mkOption "prefix_routes" KStructured (PNone) None false None [] true false false;
    mkOption "events" KStructured (PNone) None false None [] true false false;
    mkOption "monitoring" KStructured (PNone) None false None [] true false false;
    mkOption "routing" KStructured (PNone) None false None [] true false false;
    mkOption "addressing" KStructured (PNone) None false None [] true false false;
    mkOption "cache_config" KStructured (PNone) None false None [] true false true;
    mkOption "forwarding_config" KStructured (PDict [(PStr "default", PStr "flooding")]) None false None [] true false true;
    mkOption "cefnetd_timeout" KNumber (PNone) None false None [] true false false;
    mkOption "warmup_gets" KStructured (PNone) None false None [] true false false;
    mkOption "host_apps" KStructured (PNone) None false None [] true false false;
    mkOption "webui_port" KInt (PNone) (Some 1) true (Some "webui_port must be a positive integer or null") [] true true false;
    mkOption "script_log" KStr (PNone) None true (Some "script_log must be a string") [] true true false;
    mkOption "debug" KStructured (PBool false) None false None [] true true true;
    mkOption "debug_artifact" KEnum (PList []) None false None ["node_dirs"; "fib_dump"] false true false;
    mkOption "config" KStr (PStr "") None false None [] false true false ].

Definition OPTION_SPECS : list OptionSpec :=
  topology_specs ++ output_specs ++ workload_specs ++ structured_specs.

(** [OPTION_SPECS[key].default]. *)
Definition option_default (key : string) : pv :=
  match list_find (λ s, o_key s = key) OPTION_SPECS with
  | Some (_, s) => o_default s
  | None => PNone
  end.

(** [_Spec]. *)
Record Spec := mkSpec {
  key : string;
  kind : option_kind;
  nullable : bool;
  minimum : option Z;
  message : option string;
  choices : list string;
}.

Definition spec_of (s : OptionSpec) : Spec :=
  mkSpec (o_key s) (o_kind s) (o_nullable s) (o_minimum s) (o_message s) (o_choices s).

(** The filter shared by [_FLAT_SPECS] and [scalar_option_keys]. *)
Definition is_scalar (s : OptionSpec) : bool :=
  o_config_allowed s && negb (bool_decide (o_kind s = KStructured))
  && negb (bool_decide (o_key s = "debug")) && negb (bool_decide (o_key s = "cefnetd_timeout")).

(** [_FLAT_SPECS]. *)
Definition FLAT_SPECS : list Spec :=
  (spec_of <$> List.filter is_scalar OPTION_SPECS)
  ++ (spec_of <$> List.filter (λ s, bool_decide (o_key s = "bw") || bool_decide (o_key s = "ext")) OPTION_SPECS).

(** [_flat_key_error]. *)
Definition flat_key_error (s : Spec) : string :=
  match message s with
  | Some m => m
  | None =>
      let suffix := if nullable s then " or null" else "" in
      match kind s with
      | KBool => key s +s+ " must be a boolean"
      | KStr => if nullable s then key s +s+ " must be a string or null" else key s +s+ " must be a string"
      | KInt =>
          match minimum s with
          | Some m => key s +s+ " must be an integer >= " +s+ str_Z m +s+ suffix
          | None => key s +s+ " must be an integer" +s+ suffix
          end
      | KNumber =>
          match minimum s with
          | Some m => key s +s+ " must be a number >= " +s+ str_Z m +s+ suffix
          | None => key s +s+ " must be a number" +s+ suffix
          end
      | KEnum => key s +s+ " must be one of: " +s+ join ", " (choices s)
      | KStructured => key s +s+ " must be a list"
      end
  end.

(** [spec.minimum is not None and value < spec.minimum]. *)
Definition below (s : Spec) (v : pv) : bool :=
  match minimum s with Some m => num_lt v (int_f m) | None => false end.

(** The test of one flat key: does its value earn the message? *)
Definition flat_bad (s : Spec) (v : pv) : bool :=
  match kind s with
  | KBool => negb (is_bool v)
  | KStr => negb (is_str v)
  | KInt => negb (is_int v) || below s v
  | KNumber => negb (is_number v) || below s v
  | KEnum => negb (in_strs v (choices s))
  | KStructured => match v with PList l => negb (forallb is_str l) | _ => true end
  end.

(** [if cond: errors.append(msg)]. *)
Definition when (b : bool) (msg : string) : list string := if b then [msg] else [].

(** [_validate_flat_keys]. *)
Definition validate_flat_keys (config : pydict) : list string :=
  FLAT_SPECS ≫= λ s,
    match dget config (key s) with
    | None => []
    | Some v => if nullable s && is_none v then [] else when (flat_bad s v) (flat_key_error s)
    end.

(** [config_option_keys], [nullable_option_keys], [scalar_option_keys],
    [structured_option_keys]. *)
Definition config_option_keys : list string :=
  o_key <$> List.filter (λ s, o_config_allowed s && negb (o_special_config_merge s)) OPTION_SPECS.
Definition nullable_option_keys : list string :=
  o_key <$> List.filter (λ s, o_config_allowed s && o_nullable s) OPTION_SPECS.
Definition scalar_option_keys : list string :=
  (o_key <$> List.filter is_scalar OPTION_SPECS) ++ ["cefnetd_timeout"].
Definition structured_option_keys : list string :=
  o_key <$> List.filter (λ s, o_config_allowed s && bool_decide (o_kind s = KStructured)
                              && negb (o_special_config_merge s)) OPTION_SPECS.

(** * Merging (loader.py) *)

(** The argparse namespace: attribute name to value. *)
Abbreviation namespace := (gmap string pv).

Definition getattr_none (args : namespace) (k : string) : pv := default PNone (args !! k).

(** One iteration of the first loop of [merge_cli_and_config]. *)
Definition merge_key (config : pydict) (defaults : namespace) (args : namespace) (k : string)
    : namespace :=
  match dget config k with
  | None => args
  | Some v =>
      if negb (pv_eqb (getattr_none args k) (getattr_none defaults k)) then args
      else if is_none v && bool_decide (k ∈ nullable_option_keys) then args
      else <[k := v]> args
  end.

(** One iteration of the second loop. *)
Definition merge_special (config : pydict) (args : namespace) (s : OptionSpec) : namespace :=
  if negb (o_special_config_merge s) || bool_decide (o_key s = "debug") then args
  else match dget config (o_key s) with
       | Some v => <[o_key s := v]> args
       | None => if is_none (o_default s) then args else <[o_key s := o_default s]> args
       end.

(** [if isinstance(args.k, str) and args.k: args.k = [args.k]]. *)
Definition wrap_str (k : string) (args : namespace) : res namespace :=
  match args !! k with
  | None => raise EAttributeError ("'Namespace' object has no attribute '" +s+ k +s+ "'")
  | Some (PStr s) => Ok (if bool_decide (s = "") then args else <[k := PList [PStr s]]> args)
  | Some _ => Ok args
  end.

(** [merge_cli_and_config]; [defaults] is [vars(parser.parse_args([]))]. *)
Definition merge_cli_and_config (args : namespace) (config : pydict) (defaults : namespace)
    : res namespace :=
  let args := foldl (merge_key config defaults) args config_option_keys in
  let args := foldl (merge_special config) args OPTION_SPECS in
  args ← wrap_str "bw" args;
  wrap_str "ext" args.

(** The config-like dict [validate_merged_args] validates. *)
Definition merged_config (args : namespace) : pydict :=
  foldl (λ c k, match args !! k with Some v => dset c (PStr k) v | None => c end) []
    (scalar_option_keys ++ structured_option_keys).

(** ** Warnings on the raw configuration *)

Definition LEGACY_CONTENT_KEYS : list string := ["puts"; "gets"; "auto"].

(** The keys [warn_ignored_legacy_content_keys] names: [sorted(LEGACY & set(config))]. *)
Definition legacy_keys_present (config : pydict) : list string :=
  sorted_strs (List.filter (λ k, dhas config k) LEGACY_CONTENT_KEYS).
Definition warn_ignored_legacy_content_keys (config : pydict) : bool * list string :=
  match legacy_keys_present config with
  | [] => (false, [])
  | present => (true, ["[warning] config keys ignored: " +s+ join ", " present
                       +s+ ". Use events for content operations."])
  end.

Definition MONITOR_INTERVAL_RUNTIME_DEFAULT : Z := 5.

Definition num_ge (v : pv) (c : pyfloat) : bool :=
  match as_num v with Some x => float_le c x | None => false end.

(** [warn_ccninfo_monitor_interval]; the interval of the printed warning is kept
    as a value. *)
Definition warn_ccninfo_monitor_interval (config : pydict) : option pv :=
  match get_none config "monitoring" with
  | PDict monitoring =>
      match get_none monitoring "targets" with
      | PList targets =>
          if existsb (λ t, match t with PDict t => eq_str (get_none t "type") "ccninfo" | _ => false end) targets then
            let interval := get_none monitoring "interval" in
            let interval := if is_number interval then interval else PInt MONITOR_INTERVAL_RUNTIME_DEFAULT in
            if num_ge interval (int_f MONITOR_INTERVAL_RUNTIME_DEFAULT) then None else Some interval
          else None
      | _ => None
      end
  | _ => None
  end.

(** * Merge precedence *)

(** Command-line values that differ from the parser's default. *)
Definition explicit (args defaults : namespace) (k : string) : bool :=
  negb (pv_eqb (getattr_none args k) (getattr_none defaults k)).

(** What the configuration sets an option to, if it sets it. *)
Definition config_value (config : pydict) (k : string) : option pv :=
  match dget config k with
  | Some v => if is_none v && bool_decide (k ∈ nullable_option_keys) then None else Some v
  | None => None
  end.

(** The options the configuration always decides: they have no command-line flag. *)
Definition special_keys : list string := ["cache_config"; "forwarding_config"].

Lemma merge_key_lookup config defaults args k k' :
  merge_key config defaults args k !! k' =
  if bool_decide (k = k') && negb (explicit args defaults k)
  then match config_value config k with Some v => Some v | None => args !! k' end
  else args !! k'.
Proof.
  unfold merge_key, explicit, config_value. destruct (dget config k) as [v|]; [|by destruct (_ && _)].
  destruct (pv_eqb (getattr_none args k) (getattr_none defaults k)); cbn [negb];
    [rewrite andb_true_r|by rewrite andb_false_r].
  destruct (is_none v && bool_decide (k ∈ nullable_option_keys)); [by case_bool_decide|].
  case_bool_decide as Hk; [subst; apply lookup_insert_eq|by apply lookup_insert_ne].
Qed.

Lemma merge_keys_lookup config defaults keys args k :
  NoDup keys →
  foldl (merge_key config defaults) args keys !! k =
  if bool_decide (k ∈ keys) && negb (explicit args defaults k)
  then match config_value config k with Some v => Some v | None => args !! k end
  else args !! k.
Proof.
  intros Hnd. revert args. induction Hnd as [|x keys Hx Hnd IH]; intros args; cbn [foldl]; [done|].
  rewrite IH, merge_key_lookup. destruct (decide (x = k)) as [->|Hne].
  - rewrite (bool_decide_eq_false_2 (k ∈ keys)) by done. cbn [andb].
    rewrite !bool_decide_eq_true_2 by (done || by left). done.
  - rewrite (bool_decide_eq_false_2 (x = k)) by done. cbn [andb].
    rewrite (bool_decide_ext (k ∈ x :: keys) (k ∈ keys)) by (rewrite elem_of_cons; naive_solver).
    assert (explicit (merge_key config defaults args x) defaults k = explicit args defaults k) as ->; [|done].
    unfold explicit, getattr_none. by rewrite merge_key_lookup, (bool_decide_eq_false_2 (x = k)).
Qed.

Lemma merge_specials config args :
  foldl (merge_special config) args OPTION_SPECS =
  merge_special config
    (merge_special config args (mkOption "cache_config" KStructured (PNone) None false None [] true false true))
    (mkOption "forwarding_config" KStructured (PDict [(PStr "default", PStr "flooding")]) None false None []
       true false true).
Proof. reflexivity. Qed.

Lemma wrap_str_spec k args v :
  args !! k = Some v →
  ∃ args', wrap_str k args = Ok args' ∧ ∀ k', args' !! k' =
    if bool_decide (k' = k) && is_str v && truthy v then Some (PList [v]) else args !! k'.
Proof.
  intros Hv. unfold wrap_str. rewrite Hv.
  destruct v as [| | | |s| |]; cbn [is_str];
    try (eexists; split; [done|]; intros k'; by rewrite andb_false_r).
  eexists. split; [done|]. intros k'. rewrite andb_true_r. cbn [truthy].
  destruct (decide (s = "")) as [->|Hs]; [by rewrite andb_false_r|].
  rewrite (bool_decide_eq_false_2 (s = "")) by done. cbn [negb]. rewrite andb_true_r.
  case_bool_decide as Hk; [subst; apply lookup_insert_eq|by apply lookup_insert_ne].
Qed.

(** The precedence rule: what an option is after the merge, before wrapping. *)
Definition chosen_value (args : namespace) (config : pydict) (defaults : namespace) (k : string)
    : option pv :=
  if bool_decide (k = "cache_config") then
    match dget config k with Some v => Some v | None => args !! k end
  else if bool_decide (k = "forwarding_config") then
    Some (default (PDict [(PStr "default", PStr "flooding")]) (dget config k))
  else if bool_decide (k ∈ config_option_keys) && negb (explicit args defaults k) then
    match config_value config k with Some v => Some v | None => args !! k end
  else args !! k.

(** A non-empty string given for [bw] or [ext] stands for a one-element list. *)
Definition wrapped (k : string) (v : option pv) : option pv :=
  match v with
  | Some v =>
      if bool_decide (k ∈ ["bw"; "ext"]) && is_str v && truthy v then Some (PList [v]) else Some v
  | None => None
  end.

Lemma merge_lookup args config defaults k :
  foldl (merge_special config) (foldl (merge_key config defaults) args config_option_keys) OPTION_SPECS !! k
  = chosen_value args config defaults k.
Proof.
  rewrite merge_specials. unfold merge_special. cbn [o_special_config_merge o_key o_default negb orb is_none].
  rewrite !bool_decide_eq_false_2 by done. cbn iota.
  set (args1 := foldl _ _ _).
  assert (H1 : args1 !! k = if bool_decide (k ∈ config_option_keys) && negb (explicit args defaults k)
            then match config_value config k with Some v => Some v | None => args !! k end
            else args !! k).
  { apply merge_keys_lookup. apply (bool_decide_eq_true_1 _). vm_compute. reflexivity. }
  unfold chosen_value. destruct (decide (k = "forwarding_config")) as [->|Hf].
  { rewrite (bool_decide_eq_false_2 (_ = "cache_config")), bool_decide_eq_true_2 by done.
    destruct (dget config "forwarding_config"); simpl; by rewrite lookup_insert_eq. }
  rewrite (bool_decide_eq_false_2 (k = "forwarding_config")) by done.
  trans (match dget config "cache_config" with Some v => <["cache_config":=v]> args1 | None => args1 end !! k).
  { destruct (dget config "forwarding_config"); by rewrite lookup_insert_ne. }
  destruct (decide (k = "cache_config")) as [->|Hc].
  - rewrite bool_decide_eq_true_2 by done. rewrite (bool_decide_eq_false_2 (_ ∈ _)) in H1.
    + destruct (dget config "cache_config"); [apply lookup_insert_eq|done].
    + apply (bool_decide_eq_false_1 _). vm_compute. reflexivity.
  - rewrite bool_decide_eq_false_2 by done. destruct (dget config "cache_config"); [|done].
    by rewrite lookup_insert_ne.
Qed.

(** Configuration values never override explicit command-line flags. Merging
    succeeds on any namespace that has the [bw] and [ext] attributes, and the
    merged value of every option is: the command-line value, when it differs from
    the parser's default; otherwise the configuration's value, where [null] for a
    nullable option counts as absent; for the two flag-less special options, the
    configuration's value or else the table's default. A non-empty string given
    for [bw] or [ext] becomes a one-element list; nothing else changes. *)
Lemma merge_precedence args config defaults :
  is_Some (args !! "bw") → is_Some (args !! "ext") →
  ∃ merged, merge_cli_and_config args config defaults = Ok merged ∧
    ∀ k, merged !! k = wrapped k (chosen_value args config defaults k).
Proof.
  intros Hbw Hext. unfold merge_cli_and_config.
  pose proof (merge_lookup args config defaults) as H2.
  set (args2 := foldl (merge_special config) _ _) in *. clearbody args2. cbn zeta.
  assert (Hsome : ∀ k, k ∈ ["bw"; "ext"] → is_Some (args2 !! k)).
  { intros k Hk. rewrite H2. unfold chosen_value.
    rewrite !bool_decide_eq_false_2 by (by intros ->; apply (bool_decide_eq_true_2 _) in Hk; vm_compute in Hk).
    assert (is_Some (args !! k)) by (apply elem_of_cons in Hk as [-> | ->%list_elem_of_singleton]; done).
    destruct (_ && _); [|done]. by destruct (config_value config k). }
  destruct (Hsome "bw" ltac:(by left)) as [vb Hb].
  destruct (wrap_str_spec "bw" args2 vb Hb) as (args3 & -> & H3). cbn [mbind res_bind].
  destruct (Hsome "ext" ltac:(by right; left)) as [ve He].
  destruct (wrap_str_spec "ext" args3 ve) as (args4 & -> & H4); [by rewrite H3|].
  exists args4. split; [done|]. intros k. rewrite H4, H3, <- H2. unfold wrapped.
  destruct (decide (k = "ext")) as [->|]; [|destruct (decide (k = "bw")) as [->|]].
  - by rewrite He.
  - by rewrite Hb.
  - rewrite !bool_decide_eq_false_2 by set_solver. simpl. by destruct (args2 !! k).
Qed.

(** A flag given on the command line, a configured one and a special option. *)
Definition sample_defaults : namespace :=
  <["hosts" := PInt 5]> (<["k" := PInt 2]> (<["bw" := PList []]> (<["ext" := PList []]> ∅))).
Definition sample_config : pydict :=
  [(PStr "hosts", PInt 7); (PStr "k", PInt 3); (PStr "bw", PStr "0,1,10")].

Example merge_precedence_witness :
  ∃ merged, merge_cli_and_config (<["hosts" := PInt 9]> sample_defaults) sample_config sample_defaults
    = Ok merged ∧
    merged !! "hosts" = Some (PInt 9) ∧ merged !! "k" = Some (PInt 3) ∧
    merged !! "bw" = Some (PList [PStr "0,1,10"]) ∧
    merged !! "forwarding_config" = Some (PDict [(PStr "default", PStr "flooding")]).
Proof.
  destruct (merge_precedence (<["hosts" := PInt 9]> sample_defaults) sample_config sample_defaults)
    as (merged & Hm & Hk); [by eexists..|].
  exists merged. split; [done|]. rewrite !Hk. vm_compute. done.
Defined.
