(* ===== verification/Validate.v ===== *)
(** Component: the option and block validators (src/core/config/validator.py,
    src/core/protocols.py).  Each definition returns the messages its function
    appends, in order; the ones that can raise return [res].  IP address parsing
    and the decimal form of doubles belong to the standard library and are
    arguments. *)
From S2P Require Import Prelude PyValue PyString Topology Graph Addressing Fib Artifacts Events Options.
Local Open Scope Z_scope.

(** [ipaddress.ip_interface] accepts the text; [ip_network(.., strict=False)]
    yields a prefix length or raises [ValueError]. *)
Class IpLib := {
  ip_interface_ok : string → bool;
  ip_network_prefixlen : string → option Z;
}.

(** [for idx, x in enumerate(l)], collecting messages. *)
Definition for_idx {A} (f : Z → A → list string) (l : list A) : list string :=
  mjoin (imap (λ i x, f (Z.of_nat i) x) l).

(** [if k in d: ... d[k] ...]. *)
Definition opt (d : pydict) (k : string) (f : pv → list string) : list string :=
  match dget d k with Some v => f v | None => [] end.

Definition idx_prefix (name : string) (i : Z) : string := name +s+ "[" +s+ str_Z i +s+ "]".

(** * Options shared by events *)

Definition VALID_ALGOS : list string := ["crc32c"; "rsa-sha256"].

(** The minimum of a number option, with its printed form. *)
Inductive bound := BInt (z : Z) | BMilli.
Definition bound_f (b : bound) : pyfloat := match b with BInt z => int_f z | BMilli => f_0_001 end.
Definition bound_str (b : bound) : string := match b with BInt z => str_Z z | BMilli => "0.001" end.

(** [_validate_number_option]. *)
Definition validate_number_option (prefix : string) (options : pydict) (field : string)
    (integer : bool) (minimum : bound) : list string :=
  opt options field (λ value,
    let valid := if integer then is_int value else is_number value in
    when (negb valid || num_lt value (bound_f minimum))
      (prefix +s+ "." +s+ field +s+ " must be a " +s+ (if integer then "integer" else "number")
       +s+ " >= " +s+ bound_str minimum)).

(** [_validate_algo_option]. *)
Definition validate_algo_option (prefix : string) (options : pydict) (field : string) : list string :=
  opt options field (λ v,
    when (negb (in_strs v VALID_ALGOS))
      (prefix +s+ "." +s+ field +s+ " must be one of: " +s+ join ", " VALID_ALGOS)).

(** A field that must satisfy a test when present. *)
Definition check (d : pydict) (k : string) (ok : pv → bool) (msg : string) : list string :=
  opt d k (λ v, when (negb (ok v)) msg).

Definition int_ge (m : Z) (v : pv) : bool := is_int v && negb (num_lt v (int_f m)).

(** [isinstance(v, list) and all(_is_int(i) for i in v)]. *)
Definition int_list (v : pv) : bool := match v with PList l => forallb is_int l | _ => false end.
Definition str_list (v : pv) : bool := match v with PList l => forallb is_str l | _ => false end.
(** A dict of string keys to string values. *)
Definition str_dict (v : pv) : bool :=
  match v with PDict d => forallb (λ kv, is_str kv.1 && is_str kv.2) d | _ => false end.

(** * Cache and forwarding configuration *)

Definition cache_algos : list string := ["LRU"; "LFU"; "FIFO"; "None"].
Definition cache_types : list string := ["memory"; "filesystem"].

(** The capacity, default_rct_ms, algorithm and type checks of a block. *)
Definition validate_cache_fields (prefix : string) (d : pydict) : list string :=
  check d "capacity" (int_ge 0) (prefix +s+ ".capacity must be an integer >= 0")
  ++ check d "default_rct_ms" (int_ge 1000) (prefix +s+ ".default_rct_ms must be an integer >= 1000")
  ++ check d "algorithm" (λ v, in_strs v cache_algos)
       (prefix +s+ ".algorithm must be one of: " +s+ join ", " cache_algos)
  ++ check d "type" (λ v, in_strs v cache_types)
       (prefix +s+ ".type must be one of: " +s+ join ", " cache_types).

Definition validate_cache_node (i : Z) (entry : pv) : list string :=
  let prefix := idx_prefix "cache_config.nodes" i in
  match entry with
  | PDict d =>
      let ids := match get_or d "id" (PList []) with PInt z => PList [PInt z] | v => v end in
      when (negb (int_list ids)) (prefix +s+ ".id must be an integer or list of integers")
      ++ validate_cache_fields prefix d
  | _ => [prefix +s+ " must be a dict"]
  end.

Definition cache_strategies : list string := ["k_centers"; "manual"; "degree_based"; "random"].

(** [_validate_cache_config]. *)
Definition validate_cache_config (config : pydict) : list string :=
  opt config "cache_config" (λ cc,
    match cc with
    | PDict cc =>
        when (negb (in_strs (get_or cc "strategy" (PStr "k_centers")) cache_strategies))
          ("cache_config.strategy must be one of: " +s+ join ", " cache_strategies)
        ++ match get_or cc "default" (PDict []) with
           | PDict d =>
               check d "count" (int_ge 0) "cache_config.default.count must be an integer >= 0"
               ++ validate_cache_fields "cache_config.default" d
           | _ => ["cache_config.default must be a dict"]
           end
        ++ match get_or cc "nodes" (PList []) with
           | PList nodes => for_idx validate_cache_node nodes
           | _ => ["cache_config.nodes must be a list"]
           end
    | _ => ["cache_config must be a dict"]
    end).

Definition FORWARDING_STRATEGY_CHOICES : list string := ["default"; "flooding"; "shortest_path"].

Definition validate_forwarding_node (i : Z) (entry : pv) : list string :=
  let prefix := idx_prefix "forwarding_config.nodes" i in
  match entry with
  | PDict d =>
      when (negb (int_list (get_or d "id" (PList [])))) (prefix +s+ ".id must be a list of integers")
      ++ match dget d "strategy" with
         | None => [prefix +s+ ".strategy is required"]
         | Some s => when (negb (in_strs s FORWARDING_STRATEGY_CHOICES))
             (prefix +s+ ".strategy must be one of: " +s+ join ", " FORWARDING_STRATEGY_CHOICES)
         end
  | _ => [prefix +s+ " must be a dict"]
  end.

(** [_validate_forwarding_config]. *)
Definition validate_forwarding_config (config : pydict) : list string :=
  opt config "forwarding_config" (λ fc,
    match fc with
    | PDict [] => ["forwarding_config must not be empty"]
    | PDict fc =>
        check fc "default" (λ v, in_strs v FORWARDING_STRATEGY_CHOICES)
          ("forwarding_config.default must be one of: " +s+ join ", " FORWARDING_STRATEGY_CHOICES)
        ++ match get_or fc "nodes" (PList []) with
           | PList nodes => for_idx validate_forwarding_node nodes
           | _ => ["forwarding_config.nodes must be a list"]
           end
    | _ => ["forwarding_config must be a dict"]
    end).

(** * Failure scenarios *)

(** A field checked only when present and not null. *)
Definition check_some (d : pydict) (k : string) (ok : pv → bool) (msg : string) : list string :=
  opt d k (λ v, when (negb (is_none v) && negb (ok v)) msg).

(** [_validate_flap_descriptor]. *)
Definition validate_flap_descriptor (prefix : string) (d : pydict)
    (allow_target allow_publishers : bool) : list string :=
  (["interval"; "duration"] ≫= λ f,
     opt d f (λ v, when (is_none v) (prefix +s+ "." +s+ f +s+ " must not be null")))
  ++ (["interval"; "duration"; "count"; "stagger"] ≫= λ f,
     opt d f (λ v,
       if is_none v then []
       else if negb (is_int v) then [prefix +s+ "." +s+ f +s+ " must be an integer"]
       else when (num_lt v (int_f 0)) (prefix +s+ "." +s+ f +s+ " must be an integer >= 0")))
  ++ check_some d "exclude" int_list (prefix +s+ ".exclude must be a list of integers")
  ++ (if allow_target then check_some d "target" int_list (prefix +s+ ".target must be a list of integers")
      else [])
  ++ (if allow_publishers then check_some d "allow_publishers" is_bool
        (prefix +s+ ".allow_publishers must be a boolean") else []).

Definition failure_strategies : list string := ["simple"; "cyclic"; "random"; "manual"].

(** [_validate_failure_scenarios]; an unknown [strategy] of any type is printed
    with [str]. *)
Definition validate_failure_scenarios `{FloatRepr} (config : pydict) : list string :=
  opt config "failure_scenarios" (λ fs,
    match fs with
    | PDict fs =>
        let strategy := get_or fs "strategy" (PStr "simple") in
        when (negb (in_strs strategy failure_strategies))
          "failure_scenarios.strategy must be one of: simple, cyclic, random, manual"
        ++ if eq_str strategy "simple" then
             match get_none fs "simple" with
             | PNone => ["failure_scenarios with strategy 'simple' requires 'simple' block"]
             | PDict simple => validate_flap_descriptor "failure_scenarios.simple" simple false false
             | _ => ["failure_scenarios.simple must be a dict"]
             end
           else
             match get_none fs "cycles" with
             | PNone => ["failure_scenarios with strategy '" +s+ py_str strategy +s+ "' requires 'cycles' list"]
             | PList [] => ["failure_scenarios with strategy '" +s+ py_str strategy +s+ "' requires at least one cycle"]
             | PList cycles => for_idx (λ i cycle,
                 match cycle with
                 | PDict c => validate_flap_descriptor (idx_prefix "failure_scenarios.cycles" i) c true true
                 | _ => [idx_prefix "failure_scenarios.cycles" i +s+ " must be a dict"]
                 end) cycles
             | _ => ["failure_scenarios.cycles must be a list"]
             end
    | _ => ["failure_scenarios must be a dict"]
    end).

(** * Bridges *)

(** [config.get(k)] when it is an int. *)
Definition get_int (d : pydict) (k : string) : option Z :=
  match dget d k with Some (PInt z) => Some z | _ => None end.

(** The [switch] checks of one bridge. *)
Definition validate_bridge_switch (config : pydict) (prefix : string) (bridge : pydict) : list string :=
  match dget bridge "switch" with
  | None => [prefix +s+ " missing required field 'switch'"]
  | Some (PInt sw) =>
      if sw <? 0 then [prefix +s+ ".switch must be a non-negative integer"] else
      match dget config "links" with
      | Some (PList links) =>
          when (Z.of_nat (length links) <=? sw)
            (prefix +s+ ".switch is out-of-range: " +s+ str_Z sw +s+ " (links creates "
             +s+ str_Z (Z.of_nat (length links)) +s+ " switches)")
      | _ =>
          match get_int config "switches" with
          | Some n => when (n <=? sw)
              (prefix +s+ ".switch is out-of-range: " +s+ str_Z sw +s+ " (switches: " +s+ str_Z n +s+ ")")
          | None => []
          end
      end
  | Some _ => [prefix +s+ ".switch must be a non-negative integer"]
  end.

(** The [root_ip] checks of one bridge. *)
Definition validate_bridge_root_ip `{IpLib} (prefix : string) (bridge : pydict) : list string :=
  match dget bridge "root_ip" with
  | None => [prefix +s+ " missing required field 'root_ip'"]
  | Some (PStr ip) =>
      if bool_decide (ip = "auto") then []
      else if negb (contains ip "/") then
        [prefix +s+ ".root_ip must be CIDR form (e.g. '10.0.0.1/24') or 'auto'; got " +s+ repr_str ip]
      else when (negb (ip_interface_ok ip))
             (prefix +s+ ".root_ip is not a valid CIDR address: " +s+ repr_str ip)
  | Some _ => [prefix +s+ ".root_ip must be a string"]
  end.

Definition validate_bridge `{IpLib} (config : pydict) (i : Z) (entry : pv) : list string :=
  let prefix := idx_prefix "bridges" i in
  match entry with
  | PDict bridge =>
      validate_bridge_switch config prefix bridge
      ++ validate_bridge_root_ip prefix bridge
      ++ match dget bridge "local_routes" with
         | None => [prefix +s+ " missing required field 'local_routes'"]
         | Some v => when (negb (is_str v)) (prefix +s+ ".local_routes must be a string (e.g. '192.168.0.0/16')")
         end
      ++ check bridge "nat" is_bool (prefix +s+ ".nat must be a boolean")
      ++ check bridge "nat_out" is_str (prefix +s+ ".nat_out must be a string")
  | _ => [prefix +s+ " must be a dict"]
  end.

(** [_validate_bridges]. *)
Definition validate_bridges `{IpLib} (config : pydict) : list string :=
  opt config "bridges" (λ v,
    match v with
    | PList bridges => for_idx (validate_bridge config) bridges
    | _ => ["bridges must be a list"]
    end).

(** * Explicit links *)

(** [_MESH_RANDOMIZATION_KEYS]. *)
Definition MESH_RANDOMIZATION_KEYS : list string :=
  ["switches"; "node_per_switch"; "host_degree_min"; "host_degree_max"; "switch_use_all"].

(** The range check of one host index of a link. *)
Definition link_host_error (host_count : option Z) (prefix : string) (n : Z) : option string :=
  if match host_count with Some hc => (n <? 0) || (hc <=? n) | None => false end then
    Some (prefix +s+ " contains out-of-range host index " +s+ str_Z n)
  else if MAX_HOST_INDEX <? n then
    Some (prefix +s+ " contains host index " +s+ str_Z n
          +s+ " which exceeds the addressing scheme's maximum host index (" +s+ str_Z MAX_HOST_INDEX +s+ ")")
  else None.

(** One entry of [links]: its messages and, when it passes, its pair. *)
Definition validate_link (host_count : option Z) (i : Z) (entry : pv)
    : list string * option (Z * Z) :=
  let prefix := idx_prefix "links" i in
  match entry with
  | PList [PInt a; PInt b] =>
      if a =? b then ([prefix +s+ " connects host " +s+ str_Z a +s+ " to itself"], None)
      else
        match link_host_error host_count prefix a, link_host_error host_count prefix b with
        | None, None => ([], Some (a, b))
        | ea, eb => (option_list ea ++ option_list eb, None)
        end
  | _ => ([prefix +s+ " must be a list of 2 host indices"], None)
  end.

(** The duplicate-link messages of [valid_pairs], with [seen_pairs]. *)
Fixpoint duplicate_links (seen : gset (Z * Z)) (pairs : list (Z * Z)) : list string :=
  match pairs with
  | [] => []
  | (a, b) :: pairs =>
      let pair := frozen a b in
      if decide (pair ∈ seen) then
        ("links contains duplicate link [" +s+ str_Z pair.1 +s+ ", " +s+ str_Z pair.2 +s+ "]")
        :: duplicate_links seen pairs
      else duplicate_links ({[pair]} ∪ seen) pairs
  end.

(** The graph of the connectivity check. *)
Definition links_graph (host_count : Z) (pairs : list (Z * Z)) : res graph :=
  foldM (λ g p, g ← graph_add g p.1 p.2; graph_add g p.2 p.1)
    (list_to_map ((λ i, (i, ∅)) <$> range host_count)) pairs.

(** One neighbour of the node just popped. *)
Definition visit (st : gset Z * list Z) (neighbor : Z) : gset Z * list Z :=
  if decide (neighbor ∈ st.1) then st else ({[neighbor]} ∪ st.1, neighbor :: st.2).

(** [while stack: ...]; the top of the stack is the head of the list. *)
Fixpoint reach_loop (fuel : nat) (g : graph) (visited : gset Z) (stack : list Z) : res (gset Z) :=
  match stack with
  | [] => Ok visited
  | node :: stack =>
      match fuel with
      | O => NoFuel
      | S fuel =>
          match g !! node with
          | None => raise EKeyError (str_Z node)
          | Some ns =>
              let '(visited, stack) := foldl visit (visited, stack) (elements ns) in
              reach_loop fuel g visited stack
          end
      end
  end.

(** Every host is pushed at most once. *)
Definition links_connected (host_count : Z) (pairs : list (Z * Z)) : res bool :=
  g ← links_graph host_count pairs;
  visited ← reach_loop (S (Z.to_nat host_count)) g {[0]} [0];
  Ok (bool_decide (Z.of_nat (size visited) = host_count)).

(** [_validate_links]. *)
Definition validate_links (config : pydict) : res (list string) :=
  match dget config "links" with
  | None => Ok []
  | Some (PList links) =>
      let host_count := get_int config "hosts" in
      let entries := imap (λ i e, validate_link host_count (Z.of_nat i) e) links in
      let valid_pairs := omap snd entries in
      let errors :=
        when (MAX_LINK_SUBNET_ID <? Z.of_nat (length links))
          ("links must contain at most " +s+ str_Z MAX_LINK_SUBNET_ID +s+ " entries (got "
           +s+ str_Z (Z.of_nat (length links)) +s+ "); each link uses one addressing subnet and the scheme has "
           +s+ str_Z MAX_LINK_SUBNET_ID +s+ " available")
        ++ (entries ≫= fst)
        ++ duplicate_links ∅ valid_pairs
        ++ (MESH_RANDOMIZATION_KEYS ≫= λ key, opt config key (λ v,
              when (negb (pv_eqb v (option_default key)))
                ("links cannot be combined with a non-default " +s+ key
                 +s+ " (mesh-randomization options have no effect once links is set)"))) in
      match host_count with
      | Some hc =>
          if bool_decide (length valid_pairs = length links) && (0 <? hc) then
            c ← links_connected hc valid_pairs;
            Ok (errors ++ when (negb c) "links must connect all hosts into a single connected component")
          else Ok errors
      | None => Ok errors
      end
  | Some _ => Ok ["links must be a list"]
  end.

(** * Prefix routes *)

Definition validate_prefix_route `{FloatRepr} (host_count : option Z) (kv : pv * pv) : list string :=
  let '(prefix, host_idx) := kv in
  when (match prefix with
        | PStr s => negb (startswith s "ccnx:/") || bool_decide (s = "ccnx:/")
        | _ => true
        end)
    ("prefix_routes key " +s+ repr prefix +s+ " must be a non-empty ccnx:/ URI string")
  ++ match host_idx with
     | PInt n =>
         if match host_count with Some hc => (n <? 0) || (hc <=? n) | None => false end then
           ["prefix_routes[" +s+ repr prefix +s+ "] contains out-of-range host index " +s+ str_Z n]
         else when (MAX_HOST_INDEX <? n)
           ("prefix_routes[" +s+ repr prefix +s+ "] contains host index " +s+ str_Z n
            +s+ " which exceeds the addressing scheme's maximum host index (" +s+ str_Z MAX_HOST_INDEX +s+ ")")
     | _ => ["prefix_routes[" +s+ repr prefix +s+ "] must be an integer host index"]
     end.

(** [_validate_prefix_routes]. *)
Definition validate_prefix_routes `{FloatRepr} (config : pydict) : list string :=
  opt config "prefix_routes" (λ v,
    match v with
    | PDict routes => routes ≫= validate_prefix_route (get_int config "hosts")
    | _ => ["prefix_routes must be a mapping of ccnx:/ prefix to host index"]
    end).

(** * Host applications *)

(** [_HOST_APP_KEYS], sorted as the message prints them. *)
Definition HOST_APP_KEYS : list string := ["argv"; "cwd"; "env"; "hosts"; "log"].

(** [sorted(str(k) for k in set(d) - allowed)]. *)
Definition unknown_keys `{FloatRepr} (d : pydict) (allowed : list string) : list string :=
  sorted_strs (py_str <$> List.filter (λ k, negb (in_strs k allowed)) d.*1).

(** [_POSIX_ENV_KEY.fullmatch]. *)
Definition is_alpha_ (c : ascii) : bool :=
  let n := code c in ((65 <=? n) && (n <=? 90) || (97 <=? n) && (n <=? 122) || (n =? 95))%N.
Definition posix_env_key (s : string) : bool :=
  match s with
  | EmptyString => false
  | String c s => is_alpha_ c && all_chars (λ c, is_alpha_ c || is_digit c) s
  end.

(** The [hosts] selector: its messages and whether it names several hosts. *)
Definition validate_app_hosts (host_count : option Z) (prefix : string) (entry : pydict)
    : list string * bool :=
  match dget entry "hosts" with
  | None => ([prefix +s+ " missing required field 'hosts'"], false)
  | Some hosts =>
      if eq_str hosts "all" then ([], true) else
      match hosts with
      | PList l =>
          if forallb is_int l then
            (match host_count with
             | Some hc => l ≫= λ h, when (num_lt h (int_f 0) || negb (num_lt h (int_f hc)))
                 (prefix +s+ ".hosts contains out-of-range host index "
                  +s+ match h with PInt z => str_Z z | _ => "" end)
             | None => []
             end, bool_decide (1 < length l)%nat)
          else ([prefix +s+ ".hosts must be 'all' or a list of integers"], false)
      | _ => ([prefix +s+ ".hosts must be 'all' or a list of integers"], false)
      end
  end.

Definition validate_app_env (prefix : string) (entry : pydict) : list string :=
  opt entry "env" (λ env,
    match env with
    | PDict d =>
        if str_dict env then
          let bad := sorted_strs (List.filter (λ k, negb (posix_env_key k))
                       (omap (λ k, match k with PStr s => Some s | _ => None end) d.*1)) in
          when (negb (bool_decide (bad = [])))
            (prefix +s+ ".env has invalid keys: " +s+ join ", " bad
             +s+ " (keys must match [A-Za-z_][A-Za-z0-9_]*)")
        else [prefix +s+ ".env must be a dict of string keys to string values"]
    | _ => [prefix +s+ ".env must be a dict of string keys to string values"]
    end).

(** One entry of [host_apps]. *)
Definition validate_host_app `{FloatRepr} (host_count : option Z) (i : Z) (entry : pv) : list string :=
  let prefix := idx_prefix "host_apps" i in
  match entry with
  | PDict entry =>
      let unknown := unknown_keys entry HOST_APP_KEYS in
      let '(host_errors, multi_host) := validate_app_hosts host_count prefix entry in
      when (negb (bool_decide (unknown = [])))
        (prefix +s+ " has unsupported keys: " +s+ join ", " unknown
         +s+ " (allowed: " +s+ join ", " HOST_APP_KEYS +s+ ")")
      ++ host_errors
      ++ match dget entry "argv" with
         | None => [prefix +s+ " missing required field 'argv'"]
         | Some argv => when (negb (str_list argv && truthy argv))
             (prefix +s+ ".argv must be a non-empty list of strings")
         end
      ++ check entry "cwd" is_str (prefix +s+ ".cwd must be a string")
      ++ opt entry "log" (λ log,
           match log with
           | PStr s => when (multi_host && negb (contains s "{node}" || contains s "{node_dir}"
                                                 || contains s "{cefore_conf_dir}"))
               (prefix +s+ ".log must contain one of {node}, {node_dir}, {cefore_conf_dir} when hosts is 'all' or more than one host")
           | _ => [prefix +s+ ".log must be a string"]
           end)
      ++ validate_app_env prefix entry
  | _ => [prefix +s+ " must be a dict"]
  end.

(** [_validate_host_apps]. *)
Definition validate_host_apps `{FloatRepr} (config : pydict) : list string :=
  opt config "host_apps" (λ v,
    match v with
    | PList apps => for_idx (validate_host_app (get_int config "hosts")) apps
    | _ => ["host_apps must be a list"]
    end).

(** [_host_apps_covers_host]. *)
Definition host_apps_covers_host (host_apps : pv) (host_idx : Z) : bool :=
  match host_apps with
  | PList apps => existsb (λ entry,
      match entry with
      | PDict d =>
          match get_none d "hosts" with
          | PStr s => bool_decide (s = "all")
          | PList l => existsb (λ x, eq_int x host_idx) l
          | _ => false
          end
      | _ => false
      end) apps
  | _ => false
  end.

(** * Empty message lists *)

Lemma when_nil b m : when b m = [] ↔ b = false.
Proof. by destruct b. Qed.

Lemma opt_nil d k f : opt d k f = [] ↔ ∀ v, dget d k = Some v → f v = [].
Proof. unfold opt. destruct (dget d k); naive_solver. Qed.

Lemma check_nil d k ok m : check d k ok m = [] ↔ ∀ v, dget d k = Some v → ok v = true.
Proof.
  unfold check. rewrite opt_nil. setoid_rewrite when_nil. setoid_rewrite negb_false_iff. done.
Qed.

Lemma bind_nil {A} (f : A → list string) l : (l ≫= f) = [] ↔ ∀ x, x ∈ l → f x = [].
Proof.
  induction l as [|x l IH]; cbn [mbind list_bind].
  - split; [by intros _ ? ?%elem_of_nil|done].
  - rewrite app_nil. setoid_rewrite elem_of_cons. unfold mbind in IH. rewrite IH. naive_solver.
Qed.

Lemma concat_nil (l : list (list string)) : List.concat l = [] ↔ ∀ x, x ∈ l → x = [].
Proof.
  induction l as [|x l IH]; simpl; [split; [by intros _ ? ?%elem_of_nil|done]|].
  rewrite app_nil, IH. setoid_rewrite elem_of_cons. naive_solver.
Qed.

Lemma for_idx_nil {A} (f : Z → A → list string) l :
  for_idx f l = [] ↔ ∀ i x, l !! i = Some x → f (Z.of_nat i) x = [].
Proof.
  unfold for_idx. rewrite join_nil, Forall_forall. split.
  - intros H i x Hx. apply H, list_elem_of_lookup. exists i. by rewrite list_lookup_imap, Hx.
  - intros H y (i & Hi)%list_elem_of_lookup. rewrite list_lookup_imap in Hi.
    apply fmap_Some in Hi as (x & Hx & ->). by apply H.
Qed.

(** * The connectivity check *)

(** The hosts of a pair of [links]. *)
Definition paired (pairs : list (Z * Z)) (a b : Z) : Prop := (a, b) ∈ pairs ∨ (b, a) ∈ pairs.

Definition in_hosts (hc h : Z) : Prop := 0 ≤ h < hc.

Lemma foldl_visit ns V S V' S' :
  foldl visit (V, S) ns = (V', S') →
  (∀ x, x ∈ V' ↔ x ∈ V ∨ x ∈ ns) ∧ (∀ x, x ∈ S' → x ∈ S ∨ x ∈ ns) ∧
  (∀ x, x ∈ V' → x ∈ V ∨ x ∈ S') ∧ (∀ x, x ∈ S → x ∈ S') ∧
  (size V' + length S = size V + length S')%nat.
Proof.
  revert V S. induction ns as [|n ns IH]; intros V S; simpl.
  { intros [= <- <-]. split_and!; try done; try lia; try by intros; left.
    intros x. rewrite elem_of_nil. tauto. }
  unfold visit at 2. simpl. destruct (decide (n ∈ V)) as [Hn|Hn]; intros H.
  - apply IH in H as (H1 & H2 & H3 & H4 & H5). split_and!; [| |done..].
    + intros x. rewrite H1, elem_of_cons. split; [tauto|]. intros [?|[->|?]]; auto.
    + intros x Hx. apply H2 in Hx as [?|?]; [by left|right; by right].
  - apply IH in H as (H1 & H2 & H3 & H4 & H5). split_and!.
    + intros x. rewrite H1, elem_of_union, elem_of_singleton, elem_of_cons. tauto.
    + intros x Hx. rewrite elem_of_cons. apply H2 in Hx as [[->|?]%elem_of_cons|?]; auto.
    + intros x Hx. apply H3 in Hx as [[->%elem_of_singleton|?]%elem_of_union|?]; auto.
      right. apply H4. by left.
    + intros x Hx. apply H4. by right.
    + rewrite size_union, size_singleton in H5 by set_solver. simpl in H5. lia.
Qed.

Section reach.
Context (g : graph) (hc : Z).
Hypothesis g_dom : ∀ x, is_Some (g !! x) ↔ in_hosts hc x.
Hypothesis g_closed : ∀ x y, adjacent g x y → in_hosts hc y.

Record reach_inv (V : gset Z) (stack : list Z) : Prop := {
  rv_start : 0 ∈ V;
  rv_sound : ∀ x, x ∈ V → rtc (adjacent g) 0 x;
  rv_range : ∀ x, x ∈ V → in_hosts hc x;
  rv_stack : ∀ x, x ∈ stack → x ∈ V;
  rv_done : ∀ x y, x ∈ V → adjacent g x y → x ∈ stack ∨ y ∈ V;
}.

Lemma reach_loop_spec fuel V stack :
  reach_inv V stack → (Z.to_nat hc + length stack < fuel + size V)%nat →
  ∃ V', reach_loop fuel g V stack = Ok V' ∧ reach_inv V' [].
Proof.
  assert (Hsize : ∀ W : gset Z, (∀ x, x ∈ W → in_hosts hc x) → (size W ≤ Z.to_nat hc)%nat).
  { intros W HW. assert (Hsub : W ⊆ list_to_set (range hc)).
    { intros x Hx. rewrite elem_of_list_to_set, elem_of_range. by apply HW. }
    apply subseteq_size in Hsub. rewrite size_list_to_set in Hsub by apply NoDup_range.
    unfold range in Hsub. by rewrite length_seqZ in Hsub. }
  revert V stack. induction fuel as [|fuel IH]; intros V stack [H1 H2 H3 H4 H5] Hfuel.
  { pose proof (Hsize V H3). lia. }
  destruct stack as [|node stack]; [exists V; split; [done|by constructor]|]. cbn [reach_loop].
  assert (Hnode : node ∈ V) by (apply H4; by left).
  destruct (proj2 (g_dom node) (H3 _ Hnode)) as [ns Hns]. rewrite Hns.
  destruct (foldl visit (V, stack) (elements ns)) as [V' S'] eqn:E.
  apply foldl_visit in E as (G1 & G2 & G3 & G4 & G5).
  assert (Hadj : ∀ y, y ∈ elements ns ↔ adjacent g node y).
  { intros y. rewrite elem_of_elements, adjacent_alt, Hns. done. }
  apply IH; [constructor|].
  - apply G1. by left.
  - intros x [?|Hx%Hadj]%G1; [by apply H2|]. eapply rtc_r; [by apply H2|done].
  - intros x [?|Hx%Hadj]%G1; [by apply H3|by eapply g_closed].
  - intros x [?|?]%G2; apply G1; [left; apply H4; by right|by right].
  - intros x y Hx Hxy. destruct (G3 x Hx) as [HxV|?]; [|by left].
    destruct (decide (x = node)) as [->|Hne]; [right; apply G1; right; by apply Hadj|].
    destruct (H5 x y HxV Hxy) as [[?|?]%elem_of_cons|?]; [done|left; by apply G4|right; apply G1; by left].
  - simpl in Hfuel. lia.
Qed.

Lemma reach_closed V x : reach_inv V [] → rtc (adjacent g) 0 x → x ∈ V.
Proof.
  intros [H1 _ _ _ H5] Hx. revert x Hx. apply (rtc_ind_r (λ x, x ∈ V)); [done|].
  intros x y _ Hxy Hx. destruct (H5 x y Hx Hxy) as [?%elem_of_nil|?]; done.
Qed.

Lemma reach_all V :
  0 ≤ hc → reach_inv V [] →
  Z.of_nat (size V) = hc ↔ ∀ h, in_hosts hc h → rtc (adjacent g) 0 h.
Proof.
  intros Hhc Hi. set (R := list_to_set (range hc) : gset Z).
  assert (HR : ∀ x, x ∈ R ↔ in_hosts hc x) by (intros x; unfold R; rewrite elem_of_list_to_set; apply elem_of_range).
  assert (HRsize : size R = Z.to_nat hc).
  { unfold R. rewrite size_list_to_set by apply NoDup_range. unfold range. apply length_seqZ. }
  assert (Hsub : V ⊆ R) by (intros x Hx; apply HR; by eapply rv_range).
  split.
  - intros Hs h Hh. assert (V = R) as HVR by (apply set_subseteq_size_eq; [done|lia]).
    eapply rv_sound; [done|]. rewrite HVR. by apply HR.
  - intros Hall. assert (V = R) as ->; [|lia].
    apply set_eq. intros x. split; [apply Hsub|]. intros Hx%HR. apply (reach_closed V x Hi). by apply Hall.
Qed.
End reach.

Lemma links_graph_spec hc pairs :
  (∀ a b, (a, b) ∈ pairs → in_hosts hc a ∧ in_hosts hc b) →
  ∃ g, links_graph hc pairs = Ok g ∧ (∀ x, is_Some (g !! x) ↔ in_hosts hc x) ∧
    ∀ x y, adjacent g x y ↔ paired pairs x y.
Proof.
  intros Hp. unfold links_graph. set (g0 := list_to_map _ : graph).
  assert (Hg0 : ∀ a, g0 !! a = if decide (in_hosts hc a) then Some ∅ else None).
  { intros a. unfold g0, in_hosts. case_decide as Ha.
    - apply elem_of_list_to_map_1; [|by apply list_elem_of_fmap; exists a; rewrite elem_of_range].
      rewrite <- list_fmap_compose. simpl. rewrite list_fmap_id. apply NoDup_range.
    - apply not_elem_of_list_to_map_1. rewrite <- list_fmap_compose. simpl.
      rewrite list_fmap_id. by rewrite elem_of_range. }
  assert (Hgen : ∀ ps g, (∀ a b, (a, b) ∈ ps → is_Some (g !! a) ∧ is_Some (g !! b)) →
    ∃ g', foldM (λ g p, g ← graph_add g p.1 p.2; graph_add g p.2 p.1) g ps = Ok g' ∧
      (∀ x, is_Some (g' !! x) ↔ is_Some (g !! x)) ∧
      ∀ x y, adjacent g' x y ↔ adjacent g x y ∨ paired ps x y).
  { induction ps as [|[a b] ps IH]; intros g Hps; cbn [foldM].
    { exists g. split_and!; [done..|]. intros. unfold paired. rewrite !elem_of_nil. tauto. }
    destruct (Hps a b ltac:(by left)) as [Ha Hb].
    destruct (graph_add_spec g a b Ha) as (g1 & E1 & D1 & A1).
    destruct (graph_add_spec g1 b a) as (g2 & E2 & D2 & A2); [by apply D1|].
    simpl. rewrite E1. simpl. rewrite E2. simpl.
    destruct (IH g2) as (g' & -> & D & A).
    { intros x y Hxy. rewrite !D2, !D1. apply Hps. by right. }
    exists g'. split_and!; [done| |].
    - intros x. by rewrite D, D2, D1.
    - intros x y. rewrite A, A2, A1. unfold paired. rewrite !elem_of_cons. naive_solver. }
  destruct (Hgen pairs g0) as (g & -> & D & A).
  { intros a b Hab. destruct (Hp a b Hab). rewrite !Hg0, !decide_True by done. split; by eexists. }
  exists g. split_and!; [done| |].
  - intros x. rewrite D, Hg0. case_decide; split; try done; try by intros [].
  - intros x y. rewrite A. split; [|by right]. intros [(ns & Hns & Hy)|?]; [|done].
    rewrite Hg0 in Hns. case_decide; simplify_eq. set_solver.
Qed.

(** The check answers whether every host is reachable from host 0. *)
Lemma links_connected_spec hc pairs :
  0 < hc → (∀ a b, (a, b) ∈ pairs → in_hosts hc a ∧ in_hosts hc b) →
  ∃ c, links_connected hc pairs = Ok c ∧
    (c = true ↔ ∀ h, in_hosts hc h → rtc (paired pairs) 0 h).
Proof.
  intros Hhc Hp. unfold links_connected.
  destruct (links_graph_spec hc pairs Hp) as (g & -> & Hdom & Hadj). cbn [mbind res_bind].
  assert (Hclosed : ∀ x y, adjacent g x y → in_hosts hc y).
  { intros x y [Hxy|Hxy]%Hadj; by apply Hp in Hxy as []. }
  destruct (reach_loop_spec g hc Hdom Hclosed (S (Z.to_nat hc)) {[0]} [0]) as (V & -> & Hi).
  - constructor.
    + set_solver.
    + by intros x ->%elem_of_singleton.
    + intros x ->%elem_of_singleton. unfold in_hosts. lia.
    + set_solver.
    + intros x y ->%elem_of_singleton _. left. by left.
  - rewrite size_singleton. simpl. lia.
  - cbn [mbind res_bind]. eexists. split; [done|]. rewrite bool_decide_eq_true, (reach_all g hc V) by (done || lia).
    split; intros H h Hh; (eapply rtc_subrel; [|by apply H]); intros; by apply Hadj.
Qed.

(** * Accepted links *)

Lemma link_host_error_None hc p n :
  link_host_error hc p n = None ↔ (∀ c, hc = Some c → in_hosts c n) ∧ n ≤ MAX_HOST_INDEX.
Proof.
  unfold link_host_error, in_hosts. destruct hc as [c|].
  - destruct ((n <? 0) || (c <=? n)) eqn:E; [split; [done|]|].
    + intros [H _]. specialize (H c eq_refl). lia.
    + destruct (MAX_HOST_INDEX <? n) eqn:E2; split; try done; try lia.
      intros _. split; [intros ? [= <-]; lia|lia].
  - destruct (MAX_HOST_INDEX <? n) eqn:E2; split; try done; try lia. intros _. split; [done|lia].
Qed.

Lemma validate_link_cases hc i e :
  (∃ a b, validate_link hc i e = ([], Some (a, b)) ∧ e = PList [PInt a; PInt b] ∧ a ≠ b ∧
     link_host_error hc (idx_prefix "links" i) a = None ∧ link_host_error hc (idx_prefix "links" i) b = None) ∨
  (∃ m ms, validate_link hc i e = (m :: ms, None)).
Proof.
  unfold validate_link.
  destruct e as [| | | | |[|[| |a| | | |] [|[| |b| | | |] [|]]]|]; try (right; by eexists _, _).
  destruct (a =? b) eqn:E; [right; by eexists _, _|].
  destruct (link_host_error hc _ a) eqn:Ea, (link_host_error hc _ b) eqn:Eb; try (right; by eexists _, _).
  left. exists a, b. split_and!; try done. lia.
Qed.

Lemma duplicate_links_nil seen pairs :
  duplicate_links seen pairs = [] ↔
  NoDup ((λ p, frozen p.1 p.2) <$> pairs) ∧ ∀ p, p ∈ pairs → frozen p.1 p.2 ∉ seen.
Proof.
  revert seen. induction pairs as [|[a b] pairs IH]; intros seen; simpl.
  - split; [|done]. intros _. split; [constructor|by intros ? ?%elem_of_nil].
  - case_decide as Hin.
    + split; [done|]. intros [_ H]. destruct (H (a, b)); [by left|done].
    + rewrite IH, NoDup_cons. setoid_rewrite elem_of_cons. split.
      * intros [Hnd H]. split_and!; [|done|].
        -- intros (q & Hq & Hqin)%list_elem_of_fmap. apply (H q Hqin). simpl in Hq. rewrite Hq. set_solver.
        -- intros p [->|Hp]; [done|]. specialize (H p Hp). set_solver.
      * intros [[Hno Hnd] H]. split; [done|]. intros p Hp Hps.
        apply elem_of_union in Hps as [Hps%elem_of_singleton|Hps]; [|by apply (H p); [right|]].
        apply Hno, list_elem_of_fmap. exists p. by rewrite <- Hps.
Qed.

(** An accepted list of links over [hc] hosts. *)
Record links_ok (hc : option Z) (pairs : list (Z * Z)) : Prop := {
  lo_len : Z.of_nat (length pairs) ≤ MAX_LINK_SUBNET_ID;
  lo_pair : ∀ a b, (a, b) ∈ pairs → a ≠ b ∧ a ≤ MAX_HOST_INDEX ∧ b ≤ MAX_HOST_INDEX ∧
    ∀ c, hc = Some c → in_hosts c a ∧ in_hosts c b;
  lo_NoDup : NoDup ((λ p, frozen p.1 p.2) <$> pairs);
  lo_conn : ∀ c, hc = Some c → 0 < c → ∀ h, in_hosts c h → rtc (paired pairs) 0 h;
}.

(** The pairs as the configuration writes them. *)
Definition pair_entry (p : Z * Z) : pv := PList [PInt p.1; PInt p.2].

Lemma valid_entries hc links :
  (imap (λ i e, validate_link hc (Z.of_nat i) e) links ≫= fst) = [] →
  ∃ pairs, omap snd (imap (λ i e, validate_link hc (Z.of_nat i) e) links) = pairs ∧
    links = pair_entry <$> pairs ∧
    ∀ a b, (a, b) ∈ pairs → a ≠ b ∧ a ≤ MAX_HOST_INDEX ∧ b ≤ MAX_HOST_INDEX ∧
      ∀ c, hc = Some c → in_hosts c a ∧ in_hosts c b.
Proof.
  intros H. eexists. split; [reflexivity|].
  assert (Hgen : ∀ k ls, (imap (λ i e, validate_link hc (Z.of_nat (k + i)) e) ls ≫= fst) = [] →
    ls = pair_entry <$> omap snd (imap (λ i e, validate_link hc (Z.of_nat (k + i)) e) ls) ∧
    ∀ a b, (a, b) ∈ omap snd (imap (λ i e, validate_link hc (Z.of_nat (k + i)) e) ls) →
      a ≠ b ∧ a ≤ MAX_HOST_INDEX ∧ b ≤ MAX_HOST_INDEX ∧ ∀ c, hc = Some c → in_hosts c a ∧ in_hosts c b).
  { intros k ls. revert k. induction ls as [|e ls IH]; intros k Hl.
    { split; [done|]. by intros a b ?%elem_of_nil. }
    rewrite imap_cons in Hl |- *. cbn [mbind list_bind] in Hl. apply app_nil in Hl as [He Hl].
    assert (Eimap : ∀ ls, imap ((λ i e, validate_link hc (Z.of_nat (k + i)) e) ∘ S) ls =
      imap (λ i e, validate_link hc (Z.of_nat (S k + i)) e) ls).
    { intros ls'. apply imap_ext. intros i x _. simpl. do 2 f_equal. lia. }
    rewrite Eimap in Hl |- *. destruct (IH (S k) Hl) as [IH1 IH2].
    destruct (validate_link_cases hc (Z.of_nat (k + 0)) e) as [(a & b & E & -> & Hne & Ea & Eb)|(m & ms & E)];
      [|by rewrite E in He].
    rewrite E. cbn [omap list_omap snd]. split; [cbn [fmap list_fmap]; by rewrite <- IH1|].
    intros x y [[= -> ->]|Hxy]%elem_of_cons; [|by apply IH2].
    apply link_host_error_None in Ea as [Ea1 Ea2], Eb as [Eb1 Eb2]. split_and!; auto. }
  exact (Hgen 0%nat links H).
Qed.

Lemma validate_links_total config : ∃ msgs, validate_links config = Ok msgs.
Proof.
  unfold validate_links. destruct (dget config "links") as [[| | | | |links|]|]; eauto.
  destruct (get_int config "hosts") as [hc|]; [|eauto].
  destruct (bool_decide _ && (0 <? hc)) eqn:E; [|eauto].
  apply andb_true_iff in E as [_ Hhc%Z.ltb_lt].
  set (pairs := omap snd _). destruct (links_connected_spec hc pairs Hhc) as (c & -> & _); [|eauto].
  intros a b Hab. unfold pairs in Hab. apply list_elem_of_omap in Hab as ([ms o] & Hin & Ho).
  simpl in Ho. subst o. apply list_elem_of_lookup in Hin as (i & Hi). rewrite list_lookup_imap in Hi.
  apply fmap_Some in Hi as (e & He & Hv).
  destruct (validate_link_cases (Some hc) (Z.of_nat i) e) as [(x & y & E & _ & _ & Ea & Eb)|(m & ms' & E)];
    rewrite E in Hv; [|done]. simplify_eq.
  apply link_host_error_None in Ea as [Ea _], Eb as [Eb _]. auto.
Qed.

(** Accepted links are a list of distinct pairs of distinct hosts, all in range,
    few enough for the addressing scheme, connecting every declared host. *)
Lemma validate_links_accepted config links :
  validate_links config = Ok [] → dget config "links" = Some (PList links) →
  ∃ pairs, links = pair_entry <$> pairs ∧ links_ok (get_int config "hosts") pairs.
Proof.
  unfold validate_links. intros Hv Hl. rewrite Hl in Hv.
  set (hc := get_int config "hosts") in *. set (entries := imap _ links) in *.
  assert (Herr : ∃ rest, (when (MAX_LINK_SUBNET_ID <? Z.of_nat (length links)) rest ++ (entries ≫= fst)
      ++ duplicate_links ∅ (omap snd entries)) = [] ∧
      (∀ c, hc = Some c → 0 < c → length (omap snd entries) = length links →
         links_connected c (omap snd entries) = Ok true)).
  { destruct hc as [c|].
    - destruct (bool_decide _ && (0 <? c)) eqn:E.
      + apply res_bind_Ok in Hv as (b & Hb & Hv). apply Ok_inj, app_nil in Hv as [Hv Hb'].
        destruct b; [|done]. apply app_nil in Hv as [H1 Hv]. apply app_nil in Hv as [H2 Hv].
        apply app_nil in Hv as [H3 _]. eexists. rewrite H1, H2, H3. split; [done|]. by intros ? [= <-].
      + apply Ok_inj in Hv. apply app_nil in Hv as [H1 Hv]. apply app_nil in Hv as [H2 Hv].
        apply app_nil in Hv as [H3 _]. eexists. rewrite H1, H2, H3. split; [done|].
        intros ? [= <-] Hc Hlen. rewrite bool_decide_eq_true_2 in E by done. simpl in E. lia.
    - apply Ok_inj in Hv. apply app_nil in Hv as [H1 Hv]. apply app_nil in Hv as [H2 Hv].
      apply app_nil in Hv as [H3 _]. eexists. rewrite H1, H2, H3. done. }
  destruct Herr as (rest & Herr & Hconn).
  apply app_nil in Herr as [Hlen Herr]. apply app_nil in Herr as [Hent Hdup].
  apply when_nil, Z.ltb_ge in Hlen.
  destruct (valid_entries hc links Hent) as (pairs & Hp & -> & Hpairs).
  unfold entries in Hdup, Hconn. rewrite Hp in Hdup, Hconn. rewrite length_fmap in Hlen, Hconn.
  exists pairs. split; [done|]. constructor.
  - done.
  - done.
  - by apply duplicate_links_nil in Hdup as [? _].
  - intros c Hc Hc0. destruct (links_connected_spec c pairs Hc0) as (b & Hb & Hiff).
    { intros a b Hab. by apply Hpairs. }
    rewrite (Hconn c Hc Hc0 eq_refl) in Hb. apply Hiff. congruence.
Qed.
