(* ===== verification/ValidateEvents.v ===== *)
(** Component: the event validators (src/core/config/validator.py): the rules of
    each event type, the restored event, and the [events] list. *)
From S2P Require Import Prelude PyValue PyString Artifacts Events Options Validate.
Local Open Scope Z_scope.

(** * Option blocks *)

Definition num (prefix : string) (d : pydict) (integer : bool) (m : bound) (fields : list string)
    : list string :=
  fields ≫= λ f, validate_number_option prefix d f integer m.

(** [_validate_put_options]. *)
Definition validate_put_options (prefix : string) (event : pydict) : list string :=
  num prefix event false BMilli ["rate"]
  ++ num prefix event false (BInt 1) ["expiry"; "cache_time"]
  ++ num prefix event true (BInt 60) ["block_size"]
  ++ num prefix event true (BInt 1) ["port_num"]
  ++ validate_algo_option prefix event "valid_algo".

(** [_validate_get_options]. *)
Definition validate_get_options (prefix : string) (event : pydict) : list string :=
  check event "owner_only" is_bool (prefix +s+ ".owner_only must be a boolean")
  ++ num prefix event true (BInt 1) ["chunk"; "pipeline"; "port_num"]
  ++ check event "sg" is_bool (prefix +s+ ".sg must be a boolean (true to send Long Life Interest)")
  ++ validate_algo_option prefix event "valid_algo".

(** [_PUTFILE_OPTION_KEYS], sorted. *)
Definition PUTFILE_OPTION_KEYS : list string :=
  ["block_size"; "cache_time"; "expiry"; "port_num"; "rate"; "valid_algo"].

(** [_validate_putfile_options]. *)
Definition validate_putfile_options `{FloatRepr} (prefix : string) (event : pydict) : list string :=
  opt event "pub_opts" (λ options,
    match options with
    | PDict options =>
        let option_prefix := prefix +s+ ".pub_opts" in
        let unknown := unknown_keys options PUTFILE_OPTION_KEYS in
        when (negb (bool_decide (unknown = [])))
          (option_prefix +s+ " has unsupported keys: " +s+ join ", " unknown
           +s+ " (allowed: " +s+ join ", " PUTFILE_OPTION_KEYS +s+ ")")
        ++ validate_put_options option_prefix options
    | _ => [prefix +s+ ".pub_opts must be a dict"]
    end).

(** [_validate_pubsub_options]. *)
Definition validate_pubsub_options (prefix : string) (event : pydict) (is_pub : bool) : list string :=
  let options_key := if is_pub then "pub_opts" else "sub_opts" in
  let v := get_none event options_key in
  match (if truthy v then v else PDict []) with
  | PDict options =>
      let p := prefix +s+ "." +s+ options_key in
      if is_pub then
        num p options false BMilli ["rate"]
        ++ num p options false (BInt 1) ["expiry"; "cache_time"]
        ++ num p options false (BInt 0) ["lifetime"]
        ++ num p options true (BInt 1) ["block_size"; "port_num"]
        ++ num p options true (BInt 0) ["retry_limit"]
        ++ check options "target" (λ v, in_strs v ["trg"; "ref"; "both"])
             (p +s+ ".target must be one of: trg, ref, both")
        ++ (["ti_valid_algo"; "rd_valid_algo"] ≫= validate_algo_option p options)
      else
        num p options false (BInt 0) ["wait"]
        ++ num p options true (BInt 1) ["pipeline"; "port_num"]
        ++ (["ri_valid_algo"; "td_valid_algo"] ≫= validate_algo_option p options)
  | _ => [prefix +s+ "." +s+ options_key +s+ " must be a dict"]
  end.

(** [lo <= v <= hi] for an int. *)
Definition int_between (lo hi : Z) (v : pv) : bool :=
  match v with PInt z => (lo <=? z) && (z <=? hi) | _ => false end.

(** [_validate_ccninfo_options]. *)
Definition validate_ccninfo_options (prefix : string) (options : pydict) : list string :=
  check options "cache_info" is_bool (prefix +s+ ".cache_info must be a boolean")
  ++ check options "owner_only" is_bool (prefix +s+ ".owner_only must be a boolean")
  ++ check options "hop_count" (int_between 1 255) (prefix +s+ ".hop_count must be an integer 1..255")
  ++ check options "skip_hop" (int_between 1 15) (prefix +s+ ".skip_hop must be an integer 1..15")
  ++ match dget options "hop_count", dget options "skip_hop" with
     | Some (PInt h), Some (PInt s) => when (h <=? s) (prefix +s+ ".skip_hop must be less than hop_count")
     | _, _ => []
     end
  ++ validate_algo_option prefix options "valid_algo"
  ++ when (dhas options "port_num")
       (prefix +s+ ".port_num is not supported for ccninfo (Cefore 0.12.0 parse-order bug: -p is parsed after cef_client_init, so socket identity always comes from the provisioned .cefore_env mirror)").

(** * Rules shared by the event types *)

(** [_EventCheckContext]. *)
Record EventCheckContext := mkCtx {
  host_count : pv;
  no_cli : pv;
  results_json : pv;
  host_apps : pv;
}.

(** [_validate_required_fields], with the fields of the event's schema entry. *)
Definition validate_required_fields (event : pydict) (prefix : string) (fields : list string)
    : list string :=
  fields ≫= λ f, when (negb (dhas event f)) (prefix +s+ " missing required field '" +s+ f +s+ "'").

Definition schema_fields (t : string) : list string :=
  match event_spec t with Some s => required_fields s | None => [] end.

(** [_validate_host_integer]. *)
Definition validate_host_integer (event : pydict) (prefix : string) : list string :=
  check event "host" is_int (prefix +s+ ".host must be an integer").

(** [_validate_host_range]. *)
Definition validate_host_range (event : pydict) (prefix : string) (host_count : pv) : list string :=
  match dget event "host", host_count with
  | Some (PInt h), PInt hc =>
      when ((h <? 0) || (hc <=? h)) (prefix +s+ ".host is out of range (0.." +s+ str_Z (hc - 1) +s+ ")")
  | _, _ => []
  end.

(** The node checks shared by link and bandwidth events. *)
Definition validate_nodes (event : pydict) (prefix : string) (ctx : EventCheckContext) : list string :=
  match get_none event "nodes" with
  | PList [a; b] =>
      if is_int a && is_int b then
        match host_count ctx with
        | PInt hc => [a; b] ≫= λ n,
            when (num_lt n (int_f 0) || negb (num_lt n (int_f hc)))
              (prefix +s+ ".nodes contains out-of-range host index "
               +s+ match n with PInt z => str_Z z | _ => "" end)
        | _ => []
        end
      else [prefix +s+ ".nodes must be a list of 2 host indices"]
  | _ => [prefix +s+ ".nodes must be a list of 2 elements"]
  end.

(** [_validate_link_event]. *)
Definition validate_link_event (event : pydict) (prefix : string) (ctx : EventCheckContext) : list string :=
  validate_nodes event prefix ctx.

(** [_validate_bw_set_event]. *)
Definition validate_bw_set_event (event : pydict) (prefix : string) (ctx : EventCheckContext) : list string :=
  validate_nodes event prefix ctx
  ++ match dget event "bandwidth" with
     | None => [prefix +s+ " missing required field 'bandwidth'"]
     | Some v => when (negb (is_number v) || num_lt v (int_f 0))
         (prefix +s+ ".bandwidth must be a non-negative number")
     end.

(** [_validate_repeat_allowlist]. *)
Definition validate_repeat_allowlist `{FloatRepr} (event : pydict) (prefix etype : string) : list string :=
  match get_none event "repeat" with
  | PDict repeat =>
      let extra := unknown_keys repeat ["interval"; "count"] in
      when (negb (bool_decide (extra = [])))
        (prefix +s+ ".repeat for " +s+ etype +s+ " allows only interval/count; got: " +s+ join ", " extra)
  | _ => []
  end.

(** A positive number. *)
Definition positive (v : pv) : bool := is_number v && negb (num_le v (int_f 0)).

(** * One validator per event type *)

(** [_validate_compute_call_event]. *)
Definition validate_compute_call_event `{FloatRepr} (event : pydict) (prefix : string) : list string :=
  validate_required_fields event prefix (schema_fields "compute_call")
  ++ validate_host_integer event prefix
  ++ check event "endpoint" is_str (prefix +s+ ".endpoint must be a string")
  ++ check event "method" (λ v, in_strs v ["GET"; "POST"]) (prefix +s+ ".method must be 'GET' or 'POST'")
  ++ check event "timeout" positive (prefix +s+ ".timeout must be a positive number")
  ++ (["payload"; "output_file"; "publish_uri"] ≫= λ f,
        check event f is_str (prefix +s+ "." +s+ f +s+ " must be a string"))
  ++ check event "headers" str_dict (prefix +s+ ".headers must be a dict of string keys to string values")
  ++ when (truthy (get_none event "publish_uri") && negb (truthy (get_none event "output_file")))
       (prefix +s+ ".publish_uri requires output_file to be set")
  ++ validate_repeat_allowlist event prefix "compute_call"
  ++ check event "publish_timeout" positive (prefix +s+ ".publish_timeout must be a positive number")
  ++ validate_putfile_options prefix event.

(** [normalize_route_protocol] (protocols.py). *)
Definition VALID_ROUTE_PROTOCOLS : list string := ["udp"].
Definition normalize_route_protocol (protocol : pv) : res string :=
  match protocol with
  | PNone => Ok "udp"
  | PStr s =>
      let normalized := lower (strip s) in
      if bool_decide (normalized ∈ VALID_ROUTE_PROTOCOLS) then Ok normalized
      else raise EValueError ("protocol must be one of: " +s+ join ", " VALID_ROUTE_PROTOCOLS)
  | _ => raise ETypeError "protocol must be a string"
  end.

(** [_validate_fib_event]; both exceptions of the normalization are caught. *)
Definition validate_fib_event (event : pydict) (prefix etype : string) : list string :=
  validate_required_fields event prefix (schema_fields etype)
  ++ opt event "protocol" (λ v,
       match normalize_route_protocol v with
       | Ok _ => []
       | _ => [prefix +s+ ".protocol must be one of: " +s+ join ", " VALID_ROUTE_PROTOCOLS]
       end)
  ++ validate_host_integer event prefix.

(** [_validate_publication_event]. *)
Definition validate_publication_event `{FloatRepr} (event : pydict) (prefix etype : string)
    (ctx : EventCheckContext) : list string :=
  validate_required_fields event prefix (schema_fields etype)
  ++ validate_host_integer event prefix
  ++ check event "uri" is_str (prefix +s+ ".uri must be a string")
  ++ check event "file" is_str (prefix +s+ ".file must be a string")
  ++ (if bool_decide (etype = "put") then
        validate_put_options prefix event
        ++ when (truthy (get_none event "repeat")
                 && match no_cli ctx with PBool true => true | _ => false end
                 && truthy (results_json ctx))
             (prefix +s+ ".repeat is not supported for autotest put events")
      else validate_pubsub_options prefix event true)
  ++ validate_repeat_allowlist event prefix etype.

(** [_validate_ccninfo_event]. *)
Definition nonblank (v : pv) : bool :=
  match v with PStr s => negb (bool_decide (strip s = "")) | _ => false end.
Definition validate_ccninfo_event `{FloatRepr} (event : pydict) (prefix : string) : list string :=
  validate_required_fields event prefix (schema_fields "ccninfo")
  ++ validate_host_integer event prefix
  ++ when (dhas event "timeout")
       (prefix +s+ ".timeout is not a supported ccninfo event option (ccninfo self-terminates via CCNINFO_REPLY_TIMEOUT)")
  ++ opt event "uri" (λ v,
       match v with
       | PStr uri => when (bool_decide (safe_uri_label uri = ""))
           (prefix +s+ ".uri must not resolve to an empty log label (e.g. bare 'ccnx:/' root)")
       | _ => [prefix +s+ ".uri must be a string"]
       end)
  ++ validate_ccninfo_options prefix event
  ++ check event "expected_responder" nonblank (prefix +s+ ".expected_responder must be a non-empty string")
  ++ check event "expected_route"
       (λ v, match v with PList l => truthy v && forallb nonblank l | _ => false end)
       (prefix +s+ ".expected_route must be a non-empty list of non-empty strings")
  ++ validate_repeat_allowlist event prefix "ccninfo".

(** [_validate_get_event]. *)
Definition validate_get_event `{FloatRepr} (event : pydict) (prefix etype : string) : list string :=
  validate_required_fields event prefix (schema_fields etype)
  ++ validate_host_integer event prefix
  ++ check event "uri" is_str (prefix +s+ ".uri must be a string")
  ++ (if bool_decide (etype = "get") then validate_get_options prefix event
      else validate_pubsub_options prefix event false)
  ++ validate_repeat_allowlist event prefix etype.

(** [_is_number(v) and math.isfinite(v)], with [OverflowError] caught. *)
Definition finite_number (v : pv) : bool := is_number v && default false (isfinite v).

(** [_validate_host_app_restart_event]. *)
Definition validate_host_app_restart_event (event : pydict) (prefix : string)
    (ctx : EventCheckContext) : list string :=
  validate_required_fields event prefix (schema_fields "host_app_restart")
  ++ validate_host_integer event prefix
  ++ opt event "downtime_s" (λ v,
       if finite_number v then validate_number_option prefix event "downtime_s" false (BInt 0)
       else [prefix +s+ ".downtime_s must be a finite number"])
  ++ match dget event "host" with
     | Some (PInt h) => when (negb (host_apps_covers_host (host_apps ctx) h))
         (prefix +s+ ".host has no host_apps entry covering it (host_app_restart requires a host_apps: entry whose hosts includes this host)")
     | _ => []
     end.

(** [_EVENT_VALIDATORS[etype]]. *)
Definition validate_typed_event `{FloatRepr} (etype : string) (event : pydict) (prefix : string)
    (ctx : EventCheckContext) : list string :=
  if in_strs (PStr etype) ["link_down"; "link_up"] then validate_link_event event prefix ctx
  else if in_strs (PStr etype) ["fib_add"; "fib_del"; "fib_enable"] then validate_fib_event event prefix etype
  else if bool_decide (etype = "bw_set") then validate_bw_set_event event prefix ctx
  else if bool_decide (etype = "compute_call") then validate_compute_call_event event prefix
  else if in_strs (PStr etype) ["put"; "pubsub_pub"] then validate_publication_event event prefix etype ctx
  else if in_strs (PStr etype) ["get"; "pubsub_sub"] then validate_get_event event prefix etype
  else if bool_decide (etype = "ccninfo") then validate_ccninfo_event event prefix
  else validate_host_app_restart_event event prefix ctx.

(** [_REPEAT_ALLOWLIST_EVENT_TYPES]. *)
Definition REPEAT_ALLOWLIST_EVENT_TYPES : list string := content_event_types ++ ["compute_call"].

(** [_validate_restore_event]. *)
Definition validate_restore_event `{FloatRepr} (event : pydict) (idx : Z) (ctx : EventCheckContext)
    : res (list string) :=
  match get_none event "repeat" with
  | PDict repeat =>
      if match dget repeat "restore" with Some v => negb (is_dict v) | None => false end then Ok []
      else if match dget repeat "restore_type" with Some v => negb (in_strs v event_types) | None => false end
      then Ok []
      else
        restored ← build_restore_event event;
        match restored with
        | None => Ok []
        | Some restored =>
            let prefix := idx_prefix "events" idx +s+ ".repeat.restore" in
            let restored_type := get_none restored "type" in
            match restored_type with
            | PStr t =>
                if negb (in_strs restored_type event_types) then
                  Ok [prefix +s+ ".type must be one of: " +s+ join ", " event_types]
                else if in_strs restored_type REPEAT_ALLOWLIST_EVENT_TYPES then
                  Ok [prefix +s+ ".type must not be a content event type or compute_call"]
                else Ok (validate_typed_event t restored prefix ctx
                         ++ validate_host_range restored prefix (host_count ctx))
            | _ => Ok [prefix +s+ ".type must be one of: " +s+ join ", " event_types]
            end
        end
  | _ => Ok []
  end.

(** The [repeat] checks of [_validate_events]: the messages and whether both
    restore forms are present. *)
Definition validate_repeat (event : pydict) (p : string) : res (list string * bool) :=
  match dget event "repeat" with
  | None => Ok ([], false)
  | Some (PDict rep) =>
      let errors :=
        check rep "interval" positive (p +s+ ".repeat.interval must be a positive number")
        ++ check rep "duration" (λ v, is_number v && negb (num_lt v (int_f 0)))
             (p +s+ ".repeat.duration must be a non-negative number")
        ++ check_some rep "count" (int_ge 1) (p +s+ ".repeat.count must be a positive integer or null")
        ++ check rep "restore" is_dict (p +s+ ".repeat.restore must be a dict")
        ++ check rep "restore_type" (λ v, in_strs v event_types)
             (p +s+ ".repeat.restore_type must be a valid event type") in
      listed ← in_set (get_none event "type") REPEAT_ALLOWLIST_EVENT_TYPES;
      let ambiguous := negb listed && dhas rep "restore" && dhas rep "restore_type" in
      Ok (errors ++ when ambiguous (p +s+ ".repeat.restore and repeat.restore_type are mutually exclusive"),
          ambiguous)
  | Some _ => Ok ([p +s+ ".repeat must be a dict"], false)
  end.

(** The [at] and [type] checks of [_validate_events]. *)
Definition validate_envelope `{FloatRepr} (event : pydict) (p : string) (ctx : EventCheckContext)
    : list string :=
  match dget event "at" with
  | None => [p +s+ " missing required field 'at'"]
  | Some v => when (negb (is_number v) || num_lt v (int_f 0)) (p +s+ ".at must be a non-negative number")
  end
  ++ match dget event "type" with
     | None => [p +s+ " missing required field 'type'"]
     | Some (PStr t) =>
         if negb (in_strs (PStr t) event_types) then
           [p +s+ ".type must be one of: " +s+ join ", " event_types]
         else validate_typed_event t event p ctx ++ validate_host_range event p (host_count ctx)
     | Some _ => [p +s+ ".type must be one of: " +s+ join ", " event_types]
     end.

(** The body of the loop of [_validate_events]. *)
Definition validate_event `{FloatRepr} (ctx : EventCheckContext) (idx : Z) (entry : pv)
    : res (list string) :=
  let p := idx_prefix "events" idx in
  match entry with
  | PDict event =>
      let errors := validate_envelope event p ctx in
      '(repeat_errors, ambiguous_restore) ← validate_repeat event p;
      restore_errors ←
        (if (ambiguous_restore : bool) then Ok []
         else listed ← in_set (get_none event "type") REPEAT_ALLOWLIST_EVENT_TYPES;
              if (listed : bool) then Ok [] else validate_restore_event event idx ctx);
      Ok (errors ++ repeat_errors ++ restore_errors)
  | _ => Ok [p +s+ " must be a dict"]
  end.

(** [_validate_events]. *)
Definition event_context (config : pydict) : EventCheckContext :=
  mkCtx (get_none config "hosts") (get_none config "no_cli")
        (get_none config "results_json") (get_none config "host_apps").
Definition validate_events `{FloatRepr} (config : pydict) : res (list string) :=
  match dget config "events" with
  | None => Ok []
  | Some (PList events) =>
      msgs ← mapR (λ ie, validate_event (event_context config) (Z.of_nat ie.1) ie.2)
               (imap pair events);
      Ok (List.concat msgs)
  | Some _ => Ok ["events must be a list"]
  end.

(** * What the event checks guarantee *)

(** [v] is a host index of the configuration, when it declares its hosts. *)
Definition host_in (hosts : pv) (v : pv) : Prop :=
  ∃ h, v = PInt h ∧ ∀ n, hosts = PInt n → 0 ≤ h < n.

(** The fields a handler reads without a default are there and well-typed. *)
Record handler_ready (hosts : pv) (t : string) (ev : pydict) : Prop := {
  hr_type : t ∈ event_types;
  hr_fields : ∀ f, f ∈ schema_fields t → is_Some (dget ev f);
  hr_host : ∀ v, "host" ∈ schema_fields t → dget ev "host" = Some v → host_in hosts v;
  hr_nodes : "nodes" ∈ schema_fields t →
    ∃ a b, dget ev "nodes" = Some (PList [a; b]) ∧ host_in hosts a ∧ host_in hosts b;
  hr_uri : ∀ v, "uri" ∈ schema_fields t → dget ev "uri" = Some v → is_str v = true;
  hr_publish : ∀ v, t = "compute_call" → dget ev "publish_uri" = Some v → is_str v = true;
}.

Lemma required_fields_nil ev p fields :
  validate_required_fields ev p fields = [] ↔ ∀ f, f ∈ fields → is_Some (dget ev f).
Proof.
  unfold validate_required_fields. rewrite bind_nil. setoid_rewrite when_nil.
  setoid_rewrite negb_false_iff. setoid_rewrite dhas_true. done.
Qed.

Lemma num_lt_range z n : num_lt (PInt z) (int_f 0) || negb (num_lt (PInt z) (int_f n)) = false ↔ 0 ≤ z < n.
Proof. rewrite !num_lt_int, orb_false_iff, negb_false_iff. rewrite Z.ltb_ge, Z.ltb_lt. lia. Qed.

Lemma validate_nodes_nil ev p ctx :
  validate_nodes ev p ctx = [] →
  ∃ a b, dget ev "nodes" = Some (PList [a; b]) ∧ host_in (host_count ctx) a ∧ host_in (host_count ctx) b.
Proof.
  unfold validate_nodes, get_none. destruct (dget ev "nodes") as [[| | | | |[|a [|b [|]]]|]|]; try done.
  cbn [from_option id]. destruct (is_int a && is_int b) eqn:E; [|done].
  apply andb_true_iff in E as [(x & ->)%is_int_true (y & ->)%is_int_true].
  intros H. exists (PInt x), (PInt y). split; [done|]. unfold host_in.
  destruct (host_count ctx) as [| |hc| | | |] eqn:Ec;
    try (by split; eexists; split).
  rewrite bind_nil in H. setoid_rewrite when_nil in H.
  split; eexists; (split; [done|]); intros n [= <-]; apply num_lt_range, H; set_solver.
Qed.

Lemma host_range_nil ev p hosts v :
  validate_host_integer ev p = [] → validate_host_range ev p hosts = [] →
  dget ev "host" = Some v → host_in hosts v.
Proof.
  unfold validate_host_integer, validate_host_range. rewrite check_nil.
  intros Hi Hr Hv. rewrite Hv in Hr. destruct (proj1 (is_int_true v) (Hi v Hv)) as [h ->].
  exists h. split; [done|]. intros n ->. apply when_nil in Hr.
  rewrite orb_false_iff, Z.ltb_ge, Z.leb_gt in Hr. lia.
Qed.

Lemma check_str ev k p v : check ev k is_str p = [] → dget ev k = Some v → is_str v = true.
Proof. rewrite check_nil. auto. Qed.

(** Splits every empty concatenation in the context. *)
Ltac split_nil :=
  repeat match goal with
  | H : _ ++ _ = [] |- _ => apply app_nil in H as [? ?]
  end.

(** Decides membership in the schema of a concrete type. *)
Ltac no_field :=
  intros; exfalso;
  match goal with H : ?x ∈ schema_fields ?t |- _ =>
    revert H; apply (bool_decide_unpack (x ∉ schema_fields t)); vm_compute; exact I end.
Ltac known_type := apply (bool_decide_unpack _); vm_compute; exact I.

(** Types whose checks are the required fields and the host. *)
Lemma ready_host hosts t ev p :
  t ∈ event_types → "nodes" ∉ schema_fields t →
  validate_required_fields ev p (schema_fields t) = [] →
  validate_host_integer ev p = [] → validate_host_range ev p hosts = [] →
  (∀ v, "uri" ∈ schema_fields t → dget ev "uri" = Some v → is_str v = true) →
  (∀ v, t = "compute_call" → dget ev "publish_uri" = Some v → is_str v = true) →
  handler_ready hosts t ev.
Proof.
  intros Ht Hn Hf Hh Hr Hu Hp.
  pose proof (proj1 (required_fields_nil ev p (schema_fields t)) Hf). constructor; try done.
  intros v _. by apply (host_range_nil ev p).
Qed.

(** Link and bandwidth events. *)
Lemma ready_nodes t ev p ctx :
  t ∈ event_types → "host" ∉ schema_fields t → "uri" ∉ schema_fields t → t ≠ "compute_call" →
  (∀ f, f ∈ schema_fields t → f = "nodes" ∨ is_Some (dget ev f)) →
  validate_nodes ev p ctx = [] → handler_ready (host_count ctx) t ev.
Proof.
  intros Ht Hh Hu Hc Hf (a & b & Hab & Ha & Hb)%validate_nodes_nil.
  constructor; try done.
  - intros f Hf'. destruct (Hf f Hf') as [->|]; [by eexists|done].
  - intros _. eauto.
Qed.

Lemma publication_ready `{FloatRepr} t ev p ctx :
  t = "put" ∨ t = "pubsub_pub" → validate_publication_event ev p t ctx = [] →
  validate_host_range ev p (host_count ctx) = [] → handler_ready (host_count ctx) t ev.
Proof.
  unfold validate_publication_event. intros Ht Hv Hr.
  apply app_nil in Hv as [Hf Hv]. apply app_nil in Hv as [Hh Hv]. apply app_nil in Hv as [Hu _].
  eapply ready_host; [..|exact Hf|exact Hh|exact Hr| |].
  - destruct Ht as [-> | ->]; known_type.
  - destruct Ht as [-> | ->]; known_type.
  - intros v _. by apply (check_str _ _ _ _ Hu).
  - intros v ->. by destruct Ht.
Qed.

Lemma get_ready `{FloatRepr} t ev p ctx :
  t = "get" ∨ t = "pubsub_sub" → validate_get_event ev p t = [] →
  validate_host_range ev p (host_count ctx) = [] → handler_ready (host_count ctx) t ev.
Proof.
  unfold validate_get_event. intros Ht Hv Hr.
  apply app_nil in Hv as [Hf Hv]. apply app_nil in Hv as [Hh Hv]. apply app_nil in Hv as [Hu _].
  eapply ready_host; [..|exact Hf|exact Hh|exact Hr| |].
  - destruct Ht as [-> | ->]; known_type.
  - destruct Ht as [-> | ->]; known_type.
  - intros v _. by apply (check_str _ _ _ _ Hu).
  - intros v ->. by destruct Ht.
Qed.

Lemma ccninfo_ready `{FloatRepr} ev p ctx :
  validate_ccninfo_event ev p = [] → validate_host_range ev p (host_count ctx) = [] →
  handler_ready (host_count ctx) "ccninfo" ev.
Proof.
  unfold validate_ccninfo_event. intros Hv Hr.
  apply app_nil in Hv as [Hf Hv]. apply app_nil in Hv as [Hh Hv].
  apply app_nil in Hv as [_ Hv]. apply app_nil in Hv as [Hu _].
  eapply ready_host; [known_type|known_type|exact Hf|exact Hh|exact Hr| |done].
  intros v _ Hv'. rewrite opt_nil in Hu. specialize (Hu v Hv'). by destruct v.
Qed.

Lemma compute_call_ready `{FloatRepr} ev p ctx :
  validate_compute_call_event ev p = [] → validate_host_range ev p (host_count ctx) = [] →
  handler_ready (host_count ctx) "compute_call" ev.
Proof.
  unfold validate_compute_call_event. intros Hv Hr.
  apply app_nil in Hv as [Hf Hv]. apply app_nil in Hv as [Hh Hv].
  do 3 (apply app_nil in Hv as [_ Hv]). apply app_nil in Hv as [Hs _].
  eapply ready_host; [known_type|known_type|exact Hf|exact Hh|exact Hr|no_field|].
  intros v _. rewrite bind_nil in Hs. apply (check_str _ _ _ _ (Hs "publish_uri" ltac:(set_solver))).
Qed.

Lemma fib_ready t ev p ctx :
  t = "fib_add" ∨ t = "fib_del" ∨ t = "fib_enable" → validate_fib_event ev p t = [] →
  validate_host_range ev p (host_count ctx) = [] → handler_ready (host_count ctx) t ev.
Proof.
  unfold validate_fib_event. intros Ht Hv Hr.
  apply app_nil in Hv as [Hf Hv]. apply app_nil in Hv as [_ Hh].
  eapply ready_host; [..|exact Hf|exact Hh|exact Hr| |].
  - destruct_or! Ht; subst; known_type.
  - destruct_or! Ht; subst; known_type.
  - destruct_or! Ht; subst; no_field.
  - intros v ->. by destruct_or! Ht.
Qed.

Lemma restart_ready ev p ctx :
  validate_host_app_restart_event ev p ctx = [] → validate_host_range ev p (host_count ctx) = [] →
  handler_ready (host_count ctx) "host_app_restart" ev.
Proof.
  unfold validate_host_app_restart_event. intros Hv Hr.
  apply app_nil in Hv as [Hf Hv]. apply app_nil in Hv as [Hh _].
  eapply ready_host; [known_type|known_type|exact Hf|exact Hh|exact Hr|no_field|done].
Qed.

Lemma bw_set_ready ev p ctx :
  validate_bw_set_event ev p ctx = [] → handler_ready (host_count ctx) "bw_set" ev.
Proof.
  unfold validate_bw_set_event. intros [Hn Hb]%app_nil.
  apply (ready_nodes _ _ p); [known_type..|done| |done].
  intros f Hf. change (schema_fields "bw_set") with ["nodes"; "bandwidth"] in Hf.
  apply elem_of_cons in Hf as [->|Hf]; [by left|right]. apply list_elem_of_singleton in Hf as ->.
  destruct (dget ev "bandwidth"); [by eexists|done].
Qed.

Lemma typed_event_ready `{FloatRepr} t ev p ctx :
  t ∈ event_types → validate_typed_event t ev p ctx = [] →
  validate_host_range ev p (host_count ctx) = [] → handler_ready (host_count ctx) t ev.
Proof.
  intros Ht. unfold event_types in Ht. cbn [EVENT_SCHEMA fmap list_fmap fst] in Ht.
  rewrite !elem_of_cons, elem_of_nil in Ht.
  destruct_or! Ht; try done; subst t; intros Hv Hr.
  1, 2: apply (ready_nodes _ _ p ctx); [known_type..|done| |exact Hv];
    intros f Hf; left; by apply list_elem_of_singleton in Hf.
  1, 2, 3: by apply (fib_ready _ ev p ctx); [tauto|exact Hv|].
  - by apply (bw_set_ready ev p ctx).
  - by apply (compute_call_ready ev p ctx).
  - by apply (publication_ready _ ev p ctx); [tauto|exact Hv|].
  - by apply (get_ready _ ev p ctx); [tauto|exact Hv|].
  - by apply (publication_ready _ ev p ctx); [tauto|exact Hv|].
  - by apply (get_ready _ ev p ctx); [tauto|exact Hv|].
  - by apply (ccninfo_ready ev p ctx).
  - by apply (restart_ready ev p ctx).
Qed.

(** * Accepted events *)

(** The event a repeat restores to is as ready as a configured one, and is
    neither a content operation nor a compute call. *)
Definition restore_ready (hosts : pv) (ev : pydict) : Prop :=
  ∃ o, build_restore_event ev = Ok o ∧
    ∀ r, o = Some r → ∃ t, dget r "type" = Some (PStr t) ∧
      t ∉ REPEAT_ALLOWLIST_EVENT_TYPES ∧ handler_ready hosts t r.

(** The values the repeat of an accepted event holds. *)
Record repeat_shape (rep : pydict) : Prop := {
  rs_interval : ∀ v, dget rep "interval" = Some v → is_number v = true ∧ num_le v (int_f 0) = false;
  rs_duration : ∀ v, dget rep "duration" = Some v → is_number v = true ∧ num_lt v (int_f 0) = false;
  rs_count : ∀ v, dget rep "count" = Some v → v = PNone ∨ ∃ c, v = PInt c ∧ 1 ≤ c;
}.

Lemma validate_repeat_nil ev p b :
  validate_repeat ev p = Ok ([], b) → ∀ v, dget ev "repeat" = Some v → ∃ rep, v = PDict rep ∧ repeat_shape rep.
Proof.
  unfold validate_repeat. intros Hv v Hr. rewrite Hr in Hv. destruct v as [| | | | | |rep]; try done.
  exists rep. split; [done|]. apply res_bind_Ok in Hv as (l & _ & Hv).
  apply Ok_inj, pair_equal_spec in Hv as [Hm _]. apply app_nil in Hm as [Hm _].
  apply app_nil in Hm as [Hi Hm]. apply app_nil in Hm as [Hd Hm]. apply app_nil in Hm as [Hc _].
  rewrite check_nil in Hi, Hd. split; intros w Hw.
  - specialize (Hi w Hw). apply andb_true_iff in Hi as [? ?%negb_true_iff]. done.
  - specialize (Hd w Hw). apply andb_true_iff in Hd as [? ?%negb_true_iff]. done.
  - unfold check_some in Hc. rewrite opt_nil in Hc. specialize (Hc w Hw).
    destruct w as [| |c| | | |]; try done; [by left|]. right. exists c. split; [done|].
    simpl in Hc. rewrite when_nil in Hc. apply negb_false_iff, andb_true_iff in Hc as [_ Hc%negb_true_iff].
    rewrite num_lt_int in Hc. lia.
Qed.

(** An accepted event: a time, a known type whose handler finds its fields, and
    either a repeat that restores nothing or a ready restoration. *)
Record event_accepted (hosts : pv) (ev : pydict) : Prop := {
  ea_at : ∃ v, dget ev "at" = Some v ∧ is_number v = true ∧ num_lt v (int_f 0) = false;
  ea_ready : ∃ t, dget ev "type" = Some (PStr t) ∧ handler_ready hosts t ev;
  ea_restore : restore_ready hosts ev;
  ea_repeat : ∀ v, dget ev "repeat" = Some v → ∃ rep, v = PDict rep ∧ repeat_shape rep;
}.

Lemma in_set_str t l : in_set (PStr t) l = Ok (in_strs (PStr t) l).
Proof. done. Qed.

Lemma in_strs_PStr t l : in_strs (PStr t) l = true ↔ t ∈ l.
Proof. rewrite in_strs_true. naive_solver. Qed.

Lemma unknown_keys_nil `{FloatRepr} d allowed k :
  unknown_keys d allowed = [] → dhas d k = true → k ∈ allowed.
Proof.
  unfold unknown_keys. intros Hu [v Hv]%dhas_true.
  assert (Hf : List.filter (λ k, negb (in_strs k allowed)) d.*1 = []).
  { apply (f_equal length) in Hu. unfold sorted_strs in Hu. rewrite merge_sort_Permutation, length_fmap in Hu.
    by destruct (List.filter _ _). }
  apply in_strs_PStr. destruct (in_strs (PStr k) allowed) eqn:E; [done|exfalso].
  assert (Hin : PStr k ∈ List.filter (λ k, negb (in_strs k allowed)) d.*1).
  { apply list_elem_of_In, filter_In. rewrite E. split; [|done]. apply list_elem_of_In.
    clear -Hv. induction d as [|[x y] d IH]; simpl in *; [done|].
    destruct (eq_str x k) eqn:E; [apply eq_str_true in E as ->; by left|right; by apply IH]. }
  rewrite Hf in Hin. by apply elem_of_nil in Hin.
Qed.

(** The allowlisted types carry no restore form. *)
Lemma allowlisted_no_restore `{FloatRepr} ev p t :
  validate_repeat_allowlist ev p t = [] → build_restore_event ev = Ok None.
Proof.
  unfold validate_repeat_allowlist, build_restore_event.
  destruct (get_none ev "repeat") as [| | | | | |rep]; try done.
  rewrite when_nil, negb_false_iff, bool_decide_eq_true. intros Hu.
  assert (Hno : ∀ k, k ∉ ["interval"; "count"] → dget rep k = None).
  { intros k Hk. destruct (dget rep k) as [v|] eqn:E; [|done]. destruct Hk.
    apply (unknown_keys_nil rep _ k Hu), dhas_true. eauto. }
  rewrite (Hno "restore"), (Hno "restore_type"); [done|known_type..].
Qed.

Lemma typed_allowlist `{FloatRepr} t ev p ctx :
  t ∈ REPEAT_ALLOWLIST_EVENT_TYPES → validate_typed_event t ev p ctx = [] →
  validate_repeat_allowlist ev p t = [].
Proof.
  intros Ht. assert (Hcase : t = "put" ∨ t = "get" ∨ t = "pubsub_pub" ∨ t = "pubsub_sub" ∨
    t = "ccninfo" ∨ t = "compute_call").
  { change (t ∈ ["put"; "get"; "pubsub_pub"; "pubsub_sub"; "ccninfo"; "compute_call"]) in Ht.
    rewrite !elem_of_cons, elem_of_nil in Ht. tauto. }
  destruct_or! Hcase; subst t; intros Hv.
  - change (validate_publication_event ev p "put" ctx = []) in Hv.
    do 5 (apply app_nil in Hv as [_ Hv]). exact Hv.
  - change (validate_get_event ev p "get" = []) in Hv.
    do 4 (apply app_nil in Hv as [_ Hv]). exact Hv.
  - change (validate_publication_event ev p "pubsub_pub" ctx = []) in Hv.
    do 5 (apply app_nil in Hv as [_ Hv]). exact Hv.
  - change (validate_get_event ev p "pubsub_sub" = []) in Hv.
    do 4 (apply app_nil in Hv as [_ Hv]). exact Hv.
  - change (validate_ccninfo_event ev p = []) in Hv.
    do 7 (apply app_nil in Hv as [_ Hv]). exact Hv.
  - change (validate_compute_call_event ev p = []) in Hv.
    do 8 (apply app_nil in Hv as [_ Hv]). by apply app_nil in Hv as [Hv _].
Qed.

Lemma restore_event_ready `{FloatRepr} ev i ctx p rep_errs :
  validate_repeat ev p = Ok (rep_errs, false) → rep_errs = [] →
  validate_restore_event ev i ctx = Ok [] → restore_ready (host_count ctx) ev.
Proof.
  intros Hrep -> Hres. unfold validate_restore_event in Hres. unfold restore_ready.
  destruct (get_none ev "repeat") as [| | | | | |rep] eqn:Er;
    try (exists None; unfold build_restore_event; by rewrite Er).
  assert (Hev : dget ev "repeat" = Some (PDict rep))
    by (unfold get_none in Er; destruct (dget ev "repeat"); simpl in Er; congruence).
  unfold validate_repeat in Hrep. rewrite Hev in Hrep. apply res_bind_Ok in Hrep as (listed & _ & Hrep).
  apply Ok_inj, pair_equal_spec in Hrep as [Hrep Hamb]. apply app_nil in Hrep as [Hrep _].
  do 3 (apply app_nil in Hrep as [_ Hrep]). apply app_nil in Hrep as [Hd Ht].
  rewrite check_nil in Hd, Ht.
  assert (E1 : (match dget rep "restore" with Some v => negb (is_dict v) | None => false end) = false)
    by (destruct (dget rep "restore") as [v|] eqn:E; [by rewrite (Hd v)|done]).
  assert (E2 : (match dget rep "restore_type" with Some v => negb (in_strs v event_types) | None => false end) = false)
    by (destruct (dget rep "restore_type") as [v|] eqn:E; [by rewrite (Ht v)|done]).
  rewrite E1, E2 in Hres. clear E1 E2.
  apply res_bind_Ok in Hres as (o & Ho & Hres). exists o. split; [done|].
  intros r ->. destruct (get_none r "type") as [| | | |t| |] eqn:Et; try done.
  exists t. split; [unfold get_none in Et; destruct (dget r "type"); simpl in Et; congruence|].
  destruct (in_strs (PStr t) event_types) eqn:E1; [|done]. cbn [negb] in Hres.
  destruct (in_strs (PStr t) REPEAT_ALLOWLIST_EVENT_TYPES) eqn:E2; [done|].
  apply in_strs_PStr in E1. split; [rewrite <- in_strs_PStr; congruence|].
  apply Ok_inj, app_nil in Hres as [Hv Hr]. by eapply typed_event_ready.
Qed.

Lemma positive_number_nil v m : when (negb (is_number v) || num_lt v (int_f 0)) m = [] →
  is_number v = true ∧ num_lt v (int_f 0) = false.
Proof. by rewrite when_nil, orb_false_iff, negb_false_iff. Qed.

Lemma ready_restores_nothing hosts ev : build_restore_event ev = Ok None → restore_ready hosts ev.
Proof. intros E. exists None. split; [done|]. by intros r [=]. Qed.

Lemma validate_event_accepted `{FloatRepr} ctx i e :
  validate_event ctx i e = Ok [] → ∃ ev, e = PDict ev ∧ event_accepted (host_count ctx) ev.
Proof.
  unfold validate_event. destruct e as [| | | | | |ev]; try done. intros Hv. exists ev. split; [done|].
  apply res_bind_Ok in Hv as ([rep_errs ambiguous] & Hrep & Hv).
  apply res_bind_Ok in Hv as (restore_errs & Hres & Hv). apply Ok_inj in Hv.
  apply app_nil in Hv as [Henv Hv]. apply app_nil in Hv as [-> ->].
  unfold validate_envelope in Henv. apply app_nil in Henv as [Hat Htype].
  destruct (dget ev "at") as [at_|] eqn:Ea; [|done].
  destruct (dget ev "type") as [[| | | |t| |]|] eqn:Et; try done.
  destruct (in_strs (PStr t) event_types) eqn:Ek; [|done]. cbn [negb] in Htype.
  apply in_strs_PStr in Ek. apply app_nil in Htype as [Htyped Hrange].
  constructor.
  - exists at_. split; [done|]. by apply positive_number_nil in Hat.
  - exists t. split; [done|]. by eapply typed_event_ready.
  - destruct ambiguous.
    { unfold validate_repeat in Hrep. destruct (dget ev "repeat") as [[| | | | | |rep]|]; try done.
      apply res_bind_Ok in Hrep as (l & _ & Hrep). apply Ok_inj, pair_equal_spec in Hrep as [Hm Ha].
      apply app_nil in Hm as [_ Hm]. rewrite Ha in Hm. done. }
    rewrite (get_none_dget _ _ _ Et), in_set_str in Hres. cbn [mbind res_bind] in Hres.
    destruct (in_strs (PStr t) REPEAT_ALLOWLIST_EVENT_TYPES) eqn:El.
    + apply in_strs_PStr in El. apply (ready_restores_nothing _ ev).
      eapply allowlisted_no_restore, typed_allowlist; [exact El|exact Htyped].
    + by eapply restore_event_ready.
  - by eapply validate_repeat_nil.
Qed.

Lemma validate_events_accepted `{FloatRepr} config events :
  validate_events config = Ok [] → dget config "events" = Some (PList events) →
  ∀ e, e ∈ events → ∃ ev, e = PDict ev ∧ event_accepted (get_none config "hosts") ev.
Proof.
  unfold validate_events. intros Hv He. rewrite He in Hv.
  apply res_bind_Ok in Hv as (msgs & Hm%mapR_Ok & Hc%Ok_inj).
  intros e (i & Hi)%list_elem_of_lookup.
  assert (Hp : imap pair events !! i = Some (i, e)) by (by rewrite list_lookup_imap, Hi).
  destruct (Forall2_lookup_l _ _ _ _ _ Hm Hp) as (m & Hmi & E).
  assert (m = []) as ->; [|by apply (validate_event_accepted (event_context config) (Z.of_nat i))].
  apply (proj1 (concat_nil msgs) Hc). by eapply list_elem_of_lookup_2.
Qed.

(** ** Totality *)

(** An event whose type the set lookups accept. *)
Definition hashable_type (e : pv) : bool :=
  match e with PDict ev => hashable (get_none ev "type") | _ => true end.

Lemma restore_total `{FloatRepr} ev i ctx : ∃ msgs, validate_restore_event ev i ctx = Ok msgs.
Proof.
  unfold validate_restore_event, build_restore_event.
  destruct (get_none ev "repeat") as [| | | | | |rep]; eauto.
  destruct (dget rep "restore") as [[| | | | | |r]|] eqn:E1; cbn [is_dict negb]; eauto;
  destruct (dget rep "restore_type") as [v|] eqn:E2; try destruct (negb (in_strs v event_types)); eauto;
  cbn [mbind res_bind]; eauto;
  match goal with |- context [get_none ?r "type"] => destruct (get_none r "type") end; eauto;
  destruct (negb (in_strs _ event_types)); eauto; destruct (in_strs _ REPEAT_ALLOWLIST_EVENT_TYPES); eauto.
Qed.

Lemma validate_event_total `{FloatRepr} ctx i e :
  (∃ msgs, validate_event ctx i e = Ok msgs) ↔ hashable_type e = true.
Proof.
  unfold validate_event, hashable_type. destruct e as [| | | | | |ev]; try (by split; eauto).
  unfold validate_repeat, in_set. destruct (hashable (get_none ev "type")) eqn:Eh.
  - split; [done|intros _]. destruct (restore_total ev i ctx) as [m Em].
    destruct (dget ev "repeat") as [[| | | | | |rep]|]; cbn [mbind res_bind];
      try (destruct (in_strs _ _); cbn [mbind res_bind]; rewrite ?Em; eexists; reflexivity).
    destruct (negb _ && _ && _); cbn [mbind res_bind]; [eexists; reflexivity|].
    destruct (in_strs _ _); cbn [mbind res_bind]; rewrite ?Em; eexists; reflexivity.
  - split; [|done]. intros [msgs Hm]. unfold unhashable, raise in Hm.
    by destruct (dget ev "repeat") as [[| | | | | |rep]|].
Qed.

(** The events whose type is hashable are exactly the ones that do not raise. *)
Lemma validate_events_total `{FloatRepr} config :
  (∃ msgs, validate_events config = Ok msgs) ↔
  match dget config "events" with
  | Some (PList events) => Forall (λ e, hashable_type e = true) events
  | _ => True
  end.
Proof.
  unfold validate_events. destruct (dget config "events") as [[| | | | |events|]|]; try (by split; eauto).
  split.
  - intros (m & (msgs & Hm%mapR_Ok & _)%res_bind_Ok). apply Forall_lookup. intros i e Hi.
    assert (Hp : imap pair events !! i = Some (i, e)) by (by rewrite list_lookup_imap, Hi).
    destruct (Forall2_lookup_l _ _ _ _ _ Hm Hp) as (m' & _ & E).
    apply (validate_event_total (event_context config) (Z.of_nat i) e). eauto.
  - intros Hall. destruct (mapR_total (λ ie : nat * pv, validate_event (event_context config) (Z.of_nat ie.1) ie.2)
      (imap pair events)) as [msgs E].
    + intros [i e] (j & Hj)%list_elem_of_lookup. rewrite list_lookup_imap in Hj.
      apply fmap_Some in Hj as (e' & Hj & [= -> ->]). apply validate_event_total.
      rewrite Forall_forall in Hall. apply Hall. by eapply list_elem_of_lookup_2.
    + rewrite E. eauto.
Qed.
