(* ===== verification/ValidateConfig.v ===== *)
(** Component: whole-configuration validation (src/core/config/validator.py,
    [validate_config], [validate_merged_args]), with the warm-up, monitoring,
    addressing, routing and debug blocks, and the properties an accepted
    configuration has. *)
From S2P Require Import Prelude PyValue PyString Topology Graph Addressing Fib Artifacts Events Options Validate ValidateEvents.
Local Open Scope Z_scope.

(** The [host_degree_max] check. *)
Definition validate_host_degree (config : pydict) : list string :=
  match dget config "host_degree_max" with
  | Some (PInt m) =>
      when (m <? match get_or config "host_degree_min" (PInt 1) with PInt z => z | _ => 1 end)
        "host_degree_max must be >= host_degree_min"
  | _ => []
  end.

(** The [warmup_gets] checks. *)
Definition validate_warmup_get (idx : Z) (entry : pv) : list string :=
  let p := idx_prefix "warmup_gets" idx in
  match entry with
  | PDict d =>
      when (negb (is_int (get_none d "host"))) (p +s+ ".host must be an integer")
      ++ when (negb (is_str (get_none d "uri"))) (p +s+ ".uri must be a string")
  | _ => [p +s+ " must be a dict"]
  end.
Definition validate_warmup_gets (config : pydict) : list string :=
  opt config "warmup_gets" (λ v,
    match v with
    | PList wg => for_idx validate_warmup_get wg
    | _ => ["warmup_gets must be a list"]
    end).

(** A positive finite number. *)
Definition positive_finite (v : pv) : bool := finite_number v && negb (num_le v (int_f 0)).

Definition valid_monitor_types : list string := ["cefstatus"; "csmgrstatus"; "ccninfo"].

(** The [hosts] selector of a monitor target. *)
Definition validate_target_hosts (host_count : pv) (p : string) (target : pydict) : list string :=
  opt target "hosts" (λ v,
    if in_strs v ["all"; "cache"] then []
    else match v with
         | PList l =>
             if forallb is_int l then
               match host_count with
               | PInt hc => l ≫= λ h, when (num_lt h (int_f 0) || negb (num_lt h (int_f hc)))
                   (p +s+ ".hosts contains out-of-range host index "
                    +s+ match h with PInt z => str_Z z | _ => "" end)
               | _ => []
               end
             else [p +s+ ".hosts must be 'all', 'cache', or a list of integers"]
         | _ => [p +s+ ".hosts must be 'all', 'cache', or a list of integers"]
         end).

(** The checks of a ccninfo target. *)
Definition validate_ccninfo_target (p : string) (target : pydict) : list string :=
  match dget target "uri" with
  | None => [p +s+ " missing required field 'uri'"]
  | Some (PStr s) => when (bool_decide (strip s = "")) (p +s+ ".uri must be a non-empty/non-whitespace string")
  | Some _ => [p +s+ ".uri must be a string"]
  end
  ++ validate_ccninfo_options p target
  ++ when (dhas target "expected_responder")
       (p +s+ ".expected_responder is not supported on monitor targets (assert options are event-only)")
  ++ when (dhas target "expected_route")
       (p +s+ ".expected_route is not supported on monitor targets (assert options are event-only)").

(** One monitor target. *)
Definition validate_target (host_count : pv) (idx : Z) (entry : pv) : list string :=
  let p := idx_prefix "monitoring.targets" idx in
  match entry with
  | PDict target =>
      match dget target "type" with
      | None => [p +s+ " missing required field 'type'"]
      | Some v => when (negb (in_strs v valid_monitor_types))
          (p +s+ ".type must be one of: " +s+ join ", " valid_monitor_types)
      end
      ++ check target "target_host" (λ v, is_str v && truthy v)
           (p +s+ ".target_host must be a non-empty string")
      ++ when (dhas target "command_timeout")
           (p +s+ ".command_timeout is a monitoring-level key, not a per-target key")
      ++ validate_target_hosts host_count p target
      ++ (if eq_str (get_none target "type") "ccninfo" then validate_ccninfo_target p target else [])
  | _ => [p +s+ " must be a dict"]
  end.

(** The [monitoring] block. *)
Definition validate_monitoring (config : pydict) : list string :=
  opt config "monitoring" (λ v,
    match v with
    | PDict mon =>
        check mon "interval" positive_finite "monitoring.interval must be a positive finite number"
        ++ check mon "command_timeout" positive_finite
             "monitoring.command_timeout must be a positive finite number"
        ++ match get_or mon "targets" (PList []) with
           | PList targets => for_idx (validate_target (get_none config "hosts")) targets
           | _ => ["monitoring.targets must be a list"]
           end
    | _ => ["monitoring must be a dict"]
    end).

(** The [addressing] block. *)
Definition validate_addressing `{IpLib} (config : pydict) : list string :=
  opt config "addressing" (λ v,
    match v with
    | PDict addr => opt addr "network_cidr" (λ val,
        match val with
        | PStr s =>
            match ip_network_prefixlen s with
            | Some p => when (negb (p =? 16))
                ("addressing.network_cidr must be an IPv4 /16 network (got /" +s+ str_Z p +s+ ")")
            | None => ["addressing.network_cidr must be a valid CIDR (got " +s+ repr_str s +s+ ")"]
            end
        | _ => ["addressing.network_cidr must be a string"]
        end)
    | _ => ["addressing must be a dict"]
    end).

(** The [routing] block. *)
Definition validate_routing (config : pydict) : list string :=
  opt config "routing" (λ v,
    match v with
    | PDict routing =>
        when (negb (in_strs (get_or routing "strategy" (PStr "dijkstra")) ["dijkstra"; "shortest_path"; "ecmp"]))
          "routing.strategy must be one of ('dijkstra', 'shortest_path', 'ecmp')"
        ++ check routing "k" (int_ge 1) "routing.k must be a positive integer"
    | _ => ["routing must be a dict"]
    end).

(** The [debug] block; an artifact is looked up in a set. *)
Definition validate_artifact `{FloatRepr} (art : pv) : res (list string) :=
  known ← in_set art ["node_dirs"; "fib_dump"];
  Ok (when (negb known) ("debug.artifacts contains unknown artifact: " +s+ repr art)).
Definition validate_debug `{FloatRepr} (config : pydict) : res (list string) :=
  match dget config "debug" with
  | None | Some (PBool _) => Ok []
  | Some (PDict debug) =>
      msgs ← (match get_or debug "artifacts" (PList []) with
              | PList arts => lists ← mapR validate_artifact arts; Ok (List.concat lists)
              | _ => Ok ["debug.artifacts must be a list"]
              end);
      Ok (msgs ++ check debug "output_subdir" is_str "debug.output_subdir must be a string")
  | Some _ => Ok ["debug must be a boolean or dict"]
  end.

(** [validate_config]. *)
Definition validate_config `{FloatRepr} `{IpLib} (config : pydict) : res (list string) :=
  link_errors ← validate_links config;
  event_errors ← validate_events config;
  debug_errors ← validate_debug config;
  Ok (validate_flat_keys config
      ++ validate_host_degree config
      ++ when (dhas config "legacy_layout") "legacy_layout has been removed; use output_dir and num instead"
      ++ check config "cefnetd_timeout" positive "cefnetd_timeout must be a positive number"
      ++ validate_cache_config config
      ++ validate_forwarding_config config
      ++ validate_failure_scenarios config
      ++ validate_bridges config
      ++ link_errors
      ++ validate_prefix_routes config
      ++ validate_warmup_gets config
      ++ event_errors
      ++ validate_monitoring config
      ++ validate_host_apps config
      ++ validate_addressing config
      ++ validate_routing config
      ++ debug_errors).

(** [validate_merged_args]. *)
Definition validate_merged_args `{FloatRepr} `{IpLib} (args : namespace) : res (list string) :=
  validate_config (merged_config args).

(** * Accepted configurations *)

Section accepted.
Context `{FloatRepr} `{IpLib}.

(** The blocks of an accepted configuration all pass. *)
Lemma accepted_blocks config :
  validate_config config = Ok [] →
  validate_flat_keys config = [] ∧ validate_links config = Ok [] ∧ validate_events config = Ok [] ∧
  validate_prefix_routes config = [] ∧ validate_addressing config = [] ∧ validate_routing config = [].
Proof.
  unfold validate_config. intros (lerr & Hl & Hv)%res_bind_Ok.
  apply res_bind_Ok in Hv as (eerr & He & Hv). apply res_bind_Ok in Hv as (derr & Hd & Hv%Ok_inj).
  apply app_nil in Hv as [H1 Hv]. do 7 (apply app_nil in Hv as [_ Hv]).
  apply app_nil in Hv as [-> Hv]. apply app_nil in Hv as [H10 Hv]. apply app_nil in Hv as [_ Hv].
  apply app_nil in Hv as [-> Hv]. do 2 (apply app_nil in Hv as [_ Hv]).
  apply app_nil in Hv as [H15 Hv]. apply app_nil in Hv as [H16 _]. done.
Qed.

(** A present flat key of an accepted configuration passes its test. *)
Lemma accepted_flat config s v :
  validate_flat_keys config = [] → s ∈ FLAT_SPECS → dget config (key s) = Some v →
  nullable s && is_none v = true ∨ flat_bad s v = false.
Proof.
  unfold validate_flat_keys. rewrite bind_nil. intros Hf Hs Hv. specialize (Hf s Hs). rewrite Hv in Hf.
  destruct (nullable s && is_none v); [by left|right]. by apply when_nil in Hf.
Qed.

Lemma accepted_hosts config v :
  validate_flat_keys config = [] → dget config "hosts" = Some v → ∃ n, v = PInt n ∧ 3 ≤ n.
Proof.
  intros Hf Hv. destruct (accepted_flat config (mkSpec "hosts" KInt false (Some 3) None []) v Hf) as [Hs|Hs].
  - unfold FLAT_SPECS. rewrite elem_of_app. left. by left.
  - done.
  - done.
  - unfold flat_bad, below in Hs. simpl in Hs. apply orb_false_iff in Hs as [Hi Hlt].
    apply negb_false_iff, is_int_true in Hi as [n ->]. exists n. split; [done|].
    change (num_lt (PInt n) (int_f 3) = false) in Hlt. rewrite num_lt_int in Hlt. lia.
Qed.

(** ** Raising *)

(** The artifacts [validate_debug] looks up. *)
Definition debug_artifacts (config : pydict) : list pv :=
  match dget config "debug" with
  | Some (PDict d) => match get_or d "artifacts" (PList []) with PList l => l | _ => [] end
  | _ => []
  end.
Definition config_events (config : pydict) : list pv :=
  match dget config "events" with Some (PList l) => l | _ => [] end.

Lemma validate_debug_total config :
  (∃ msgs, validate_debug config = Ok msgs) ↔ Forall (λ a, hashable a = true) (debug_artifacts config).
Proof.
  unfold validate_debug, debug_artifacts.
  destruct (dget config "debug") as [[| | | | | |d]|]; try (by split; eauto).
  destruct (get_or d "artifacts" (PList [])) as [| | | | |arts|]; try (by split; cbn; eauto).
  assert (Hart : ∀ a, (∃ m, validate_artifact a = Ok m) ↔ hashable a = true).
  { intros a. unfold validate_artifact, in_set, unhashable, raise. destruct (hashable a); simpl.
    - split; eauto.
    - split; [by intros [m [=]]|done]. }
  split.
  - intros (m & (l & (ls & Hl%mapR_Ok & _)%res_bind_Ok & _)%res_bind_Ok). apply Forall_lookup. intros i a Ha.
    destruct (Forall2_lookup_l _ _ _ _ _ Hl Ha) as (y & _ & E). apply Hart. eauto.
  - intros Hall. destruct (mapR_total validate_artifact arts) as [ls E].
    { intros a Ha. apply Hart. rewrite Forall_forall in Hall. by apply Hall. }
    rewrite E. simpl. eauto.
Qed.

Lemma validate_events_hashable config :
  (∃ msgs, validate_events config = Ok msgs) ↔ Forall (λ e, hashable_type e = true) (config_events config).
Proof.
  rewrite validate_events_total. unfold config_events.
  destruct (dget config "events") as [[| | | | |l|]|]; try (by split); done.
Qed.

End accepted.

(** When validation raises. [validate_config] returns its list of messages
    exactly when no event type and no debug artifact is a list or dict; any such
    value is looked up in a set and ends validation with [TypeError], although
    the event validator is documented never to raise on configuration data. *)
Lemma validate_config_returns `{FloatRepr} `{IpLib} config :
  (∃ msgs, validate_config config = Ok msgs) ↔
  Forall (λ e, hashable_type e = true) (config_events config) ∧
  Forall (λ a, hashable a = true) (debug_artifacts config).
Proof.
  rewrite <- validate_events_hashable, <- validate_debug_total. unfold validate_config.
  destruct (validate_links_total config) as [lm ->]. cbn [mbind res_bind]. split.
  - intros (m & (em & He & (dm & Hd & _)%res_bind_Ok)%res_bind_Ok). eauto.
  - intros [[em ->] [dm ->]]. cbn [mbind res_bind]. eauto.
Qed.

(** C37: an accepted event can be handled. Every event of a configuration that
    validates without messages has a non-negative time, a known type and the
    fields its handler reads (hosts and nodes in range); if its repeat restores
    an event, that event is ready as well and is neither a content operation
    nor a compute call. *)
Theorem accepted_events_ready `{FloatRepr} `{IpLib} config events :
  validate_config config = Ok [] → dget config "events" = Some (PList events) →
  ∀ e, e ∈ events → ∃ ev, e = PDict ev ∧ event_accepted (get_none config "hosts") ev.
Proof.
  intros Hv He. apply accepted_blocks in Hv as (_ & _ & Hev & _).
  by apply validate_events_accepted.
Qed.

(** ** Instances and a small configuration for the examples *)

Definition plain_repr : FloatRepr := λ _, "1.0".
Definition any_cidr : IpLib := {| ip_interface_ok _ := true; ip_network_prefixlen _ := Some 16 |}.

Definition items (l : list (string * pv)) : pydict := (λ kv, (PStr kv.1, kv.2)) <$> l.

(** Three hosts in a line; a link that fails and comes back, a publisher and a
    consumer. *)
Definition line_events : list pv :=
  [ PDict (items [("at", PInt 5); ("type", PStr "link_down"); ("nodes", PList [PInt 0; PInt 1]);
                  ("repeat", PDict (items [("interval", PInt 10); ("duration", PInt 3);
                                           ("restore_type", PStr "link_up")]))]);
    PDict (items [("at", PInt 0); ("type", PStr "put"); ("host", PInt 2); ("uri", PStr "ccnx:/a");
                  ("file", PStr "f")]);
    PDict (items [("at", PInt 1); ("type", PStr "get"); ("host", PInt 0); ("uri", PStr "ccnx:/a")]) ].

Definition line_config : pydict :=
  items [("hosts", PInt 3); ("links", PList [PList [PInt 0; PInt 1]; PList [PInt 2; PInt 1]]);
         ("events", PList line_events)].

Lemma accepted_events_ready_witness :
  Forall (λ e, ∃ ev, e = PDict ev ∧ event_accepted (PInt 3) ev) line_events.
Proof.
  apply Forall_forall.
  apply (accepted_events_ready (H:=plain_repr) (H0:=any_cidr) line_config line_events);
    vm_compute; reflexivity.
Defined.

(** ** Non-finite times *)

Definition inf_config : pydict :=
  items [("events", PList [PDict (items [("at", PFloat (FInf false)); ("type", PStr "fib_add");
           ("host", PInt 0); ("prefix", PStr "ccnx:/a"); ("next_hop", PInt 1);
           ("repeat", PDict (items [("interval", PFloat FNaN)]))])])].

(** Non-finite times are accepted. An event at infinity whose repeat interval
    is NaN validates without messages, although the monitoring interval and the
    restart downtime are required to be finite for the waits they drive. *)
Theorem nonfinite_times_accepted `{FloatRepr} `{IpLib} : validate_config inf_config = Ok [].
Proof. vm_compute. reflexivity. Qed.

(** * Publications *)

(** [ev] publishes under [u] from [h] when it runs: an unconditional publication,
    or a conditional one whose field is set. *)
Definition publishes (ev : pydict) (u h : pv) : Prop :=
  ∃ t spec f, dget ev "type" = Some (PStr t) ∧ event_spec t = Some spec ∧
    publication_uri_field spec = Some f ∧ dget ev f = Some u ∧ dget ev "host" = Some h ∧
    (is_publication spec = true ∨ truthy u = true).

(** What an accepted event publishes, if anything. *)
Lemma accepted_publication hosts ev :
  event_accepted hosts ev →
  (∃ f s h, uri_field ev = Some f ∧ dget ev f = Some (PStr s) ∧ dget ev "host" = Some (PInt h) ∧
     counts true ev = Ok true ∧ ∀ u x, publishes ev u x ↔ u = PStr s ∧ x = PInt h) ∨
  (counts true ev = Ok false ∧ ∀ u x, ¬ publishes ev u x).
Proof.
  intros [_ (t & Ht & Hr) _].
  assert (Huf : uri_field ev = event_spec t ≫= publication_uri_field)
    by (unfold uri_field, get_or; by rewrite Ht).
  assert (Hc : counts true ev = Ok (in_strs (PStr t) publication_event_types ||
      match uri_field ev with Some f => truthy (get_none ev f) | None => false end)).
  { unfold counts. rewrite (get_none_dget _ _ _ Ht), in_set_str. cbn [mbind res_bind].
    by destruct (in_strs (PStr t) publication_event_types). }
  destruct (event_spec_total t (hr_type _ _ _ Hr)) as [spec Hspec].
  destruct (publication_uri_field spec) as [f|] eqn:Hf.
  2:{ right. rewrite Huf, Hspec in Hc. simpl in Hc. rewrite Hf in Hc. split.
      - rewrite Hc, orb_false_r. f_equal. destruct (in_strs (PStr t) publication_event_types) eqn:E; [|done].
        apply in_strs_PStr in E. change (t ∈ ["put"; "pubsub_pub"]) in E. rewrite !elem_of_cons, elem_of_nil in E.
        destruct_or! E; try done; subst t; vm_compute in Hspec; by simplify_eq.
      - intros u x (t' & spec' & f' & Ht' & Hs' & Hf' & _). congruence. }
  assert (Huf' : uri_field ev = Some f) by (rewrite Huf, Hspec; done).
  rewrite Huf' in Hc.
  assert (Hpub : ∀ u x, publishes ev u x ↔ dget ev f = Some u ∧ dget ev "host" = Some x ∧
      (is_publication spec = true ∨ truthy u = true)).
  { intros u x. unfold publishes. split.
    - intros (t' & spec' & f' & Ht' & Hs' & Hf' & ? & ? & ?). simplify_eq. done.
    - intros (? & ? & ?). exists t, spec, f. done. }
  assert (Hcase : (t = "put" ∨ t = "pubsub_pub") ∧ f = "uri" ∧ is_publication spec = true ∨
                  t = "compute_call" ∧ f = "publish_uri" ∧ is_publication spec = false).
  { pose proof (hr_type _ _ _ Hr) as Hty. unfold event_types in Hty. cbn [EVENT_SCHEMA fmap list_fmap fst] in Hty.
    rewrite !elem_of_cons, elem_of_nil in Hty.
    destruct_or! Hty; try done; subst t; vm_compute in Hspec; simplify_eq; simpl in Hf; simplify_eq; auto. }
  assert (Hhost : ∃ h, dget ev "host" = Some (PInt h)).
  { assert (Hin : "host" ∈ schema_fields t) by (destruct Hcase as [[[-> | ->] _]|[-> _]]; known_type).
    destruct (hr_fields _ _ _ Hr "host" Hin) as [v Hv].
    destruct (hr_host _ _ _ Hr v Hin Hv) as (h & -> & _). eauto. }
  destruct Hhost as [h Hh].
  destruct Hcase as [(Hput & -> & Hispub)|(-> & -> & Hispub)].
  - left. assert (Hin : "uri" ∈ schema_fields t) by (destruct Hput as [-> | ->]; known_type).
    destruct (hr_fields _ _ _ Hr "uri" Hin) as [v Hv].
    destruct (proj1 (is_str_true v) (hr_uri _ _ _ Hr v Hin Hv)) as [s ->].
    exists "uri", s, h. split_and!; [done..| |].
    + rewrite Hc. destruct Hput as [-> | ->]; done.
    + intros u x. rewrite Hpub, Hv, Hh, Hispub. naive_solver.
  - change (in_strs (PStr "compute_call") publication_event_types) with false in Hc. simpl in Hc.
    destruct (dget ev "publish_uri") as [v|] eqn:Hv.
    + destruct (proj1 (is_str_true v) (hr_publish _ _ _ Hr v eq_refl Hv)) as [s ->].
      rewrite (get_none_dget _ _ _ Hv) in Hc. destruct (truthy (PStr s)) eqn:Es.
      * left. exists "publish_uri", s, h. split_and!; [done..|].
        intros u x. rewrite Hpub, Hh, Hispub. naive_solver.
      * right. split; [done|]. intros u x. rewrite Hpub, Hispub. intros (? & _ & [?|?]); simplify_eq; congruence.
    + right. unfold get_none in Hc. rewrite Hv in Hc. split; [done|]. intros u x. rewrite Hpub. naive_solver.
Qed.

(** The last event of a list that publishes [s]. *)
Definition last_publisher (evs : list pydict) (s : string) (h : pv) : Prop :=
  ∃ pre ev post, evs = pre ++ ev :: post ∧ publishes ev (PStr s) h ∧
    ∀ ev' x, ev' ∈ post → ¬ publishes ev' (PStr s) x.

Lemma fold_publishers hosts counted d :
  (∀ ev, ev ∈ counted → event_accepted hosts ev ∧ counts true ev = Ok true) →
  ∃ d', foldM add_publisher d counted = Ok d' ∧
    ∀ s, (∃ h, last_publisher counted s h ∧ dget d' s = Some h) ∨
         ((∀ ev h, ev ∈ counted → ¬ publishes ev (PStr s) h) ∧ dget d' s = dget d s).
Proof.
  revert d. induction counted as [|ev counted IH]; intros d Hc; cbn [foldM].
  { exists d. split; [done|]. intros s. right. split; [by intros ? ? ?%elem_of_nil|done]. }
  destruct (Hc ev ltac:(by left)) as [Hacc Hcount].
  destruct (accepted_publication hosts ev Hacc) as [(f & s0 & h0 & Hf & Hu & Hh & _ & Hpub)|[Hno _]]; [|congruence].
  assert (Hstep : add_publisher d ev = Ok (dset d (PStr s0) (PInt h0))).
  { unfold add_publisher, getitem. by rewrite Hf, Hu, Hh. }
  rewrite Hstep. cbn [mbind res_bind].
  destruct (IH (dset d (PStr s0) (PInt h0))) as (d' & -> & Hd'); [by intros; apply Hc; right|].
  exists d'. split; [done|]. intros s.
  destruct (Hd' s) as [(h & (pre & ev' & post & -> & Hp & Hlast) & Hg)|[Hnone Hg]].
  - left. exists h. split; [|done]. exists (ev :: pre), ev', post. done.
  - rewrite dget_dset in Hg. case_bool_decide as Hs.
    + subst s0. left. exists (PInt h0). split; [|done]. exists [], ev, counted. split_and!; [done|by apply Hpub|].
      intros ev' x Hin. by apply Hnone.
    + right. split; [|done]. intros ev' h [->|Hin]%elem_of_cons; [|by apply Hnone].
      rewrite Hpub. naive_solver.
Qed.

Lemma fold_publisher_ids hosts counted ids :
  (∀ ev, ev ∈ counted → event_accepted hosts ev ∧ counts true ev = Ok true) →
  ∃ ids', foldM add_publisher_id ids counted = Ok ids' ∧
    (∀ x, x ∈ ids → x ∈ ids') ∧ ∀ ev u x, ev ∈ counted → publishes ev u x → existsb (λ y, key_eq y x) ids' = true.
Proof.
  revert ids. induction counted as [|ev counted IH]; intros ids Hc; cbn [foldM].
  { exists ids. split_and!; [done..|]. by intros ? ? ? ?%elem_of_nil. }
  destruct (Hc ev ltac:(by left)) as [Hacc Hcount].
  destruct (accepted_publication hosts ev Hacc) as [(f & s0 & h0 & Hf & Hu & Hh & _ & Hpub)|[Hno _]]; [|congruence].
  set (ids1 := if existsb (λ x, key_eq x (PInt h0)) ids then ids else ids ++ [PInt h0]).
  assert (Hstep : add_publisher_id ids ev = Ok ids1) by (unfold add_publisher_id, getitem; by rewrite Hh).
  rewrite Hstep. cbn [mbind res_bind].
  destruct (IH ids1) as (ids' & -> & Hsub & Hin'); [by intros; apply Hc; right|].
  assert (Hsub1 : ∀ x, x ∈ ids → x ∈ ids1).
  { intros x Hx. unfold ids1. destruct (existsb _ ids); [done|]. rewrite elem_of_app. by left. }
  exists ids'. split_and!; [done|auto|]. intros ev' u x [->|Hin]%elem_of_cons Hp; [|by eapply Hin'].
  apply Hpub in Hp as [_ ->]. apply existsb_exists.
  assert (Hex : existsb (λ y, key_eq y (PInt h0)) ids1 = true).
  { unfold ids1. destruct (existsb (λ x, key_eq x (PInt h0)) ids) eqn:E; [done|].
    rewrite existsb_app. cbn [existsb]. rewrite key_eq_int, Z.eqb_refl. apply orb_true_r. }
  apply existsb_exists in Hex as (y & Hy & Hk). exists y. split; [|done].
  apply list_elem_of_In, Hsub. by apply list_elem_of_In.
Qed.

Lemma last_publisher_cons ev evs s h :
  last_publisher (ev :: evs) s h ↔
  last_publisher evs s h ∨ (publishes ev (PStr s) h ∧ ∀ ev' x, ev' ∈ evs → ¬ publishes ev' (PStr s) x).
Proof.
  split.
  - intros ([|e pre] & ev' & post & [= -> ->] & Hp & Hlast); [by right|left; by exists pre, ev', post].
  - intros [(pre & ev' & post & -> & ? & ?)|[? ?]]; [by exists (ev :: pre), ev', post|by exists [], ev, evs].
Qed.

Lemma last_publisher_filter g evs s h :
  (∀ ev, ev ∈ evs → g ev = false → ∀ u x, ¬ publishes ev u x) →
  last_publisher (List.filter g evs) s h ↔ last_publisher evs s h.
Proof.
  induction evs as [|ev evs IH]; intros Hno; [done|].
  assert (IH' := IH ltac:(intros e He; apply Hno; by right)). simpl.
  assert (Hin : (∀ ev' x, ev' ∈ List.filter g evs → ¬ publishes ev' (PStr s) x) ↔
                (∀ ev' x, ev' ∈ evs → ¬ publishes ev' (PStr s) x)).
  { split; intros Hx ev' x He.
    - destruct (g ev') eqn:Eg; [|apply (Hno ev'); [by right|done]].
      apply Hx, list_elem_of_In, filter_In. split; [by apply list_elem_of_In|done].
    - apply Hx. apply list_elem_of_In, filter_In in He as [He _]. by apply list_elem_of_In. }
  destruct (g ev) eqn:Eg; rewrite !last_publisher_cons, IH', ?Hin; [done|].
  split; [by left|]. intros [?|[Hp _]]; [done|]. by destruct (Hno ev ltac:(by left) Eg _ _ Hp).
Qed.

Lemma last_publisher_elem evs s h :
  last_publisher evs s h → ∃ ev, ev ∈ evs ∧ publishes ev (PStr s) h.
Proof. intros (pre & ev & post & -> & Hp & _). exists ev. split; [set_solver|done]. Qed.

(** The host of the last publisher is unique. *)
Lemma last_publisher_unique hosts evs s h h' :
  (∀ ev, ev ∈ evs → event_accepted hosts ev) →
  last_publisher evs s h → last_publisher evs s h' → h = h'.
Proof.
  intros Hacc. induction evs as [|ev evs IH].
  - intros (ev & []%elem_of_nil & _)%last_publisher_elem.
  - assert (IH' := IH ltac:(intros; apply Hacc; by right)).
    intros [H1|[H1 N1]]%last_publisher_cons [H2|[H2 N2]]%last_publisher_cons; [by apply IH'| | |].
    + apply last_publisher_elem in H1 as (e & He & Hp). by destruct (N2 e h).
    + apply last_publisher_elem in H2 as (e & He & Hp). by destruct (N1 e h').
    + destruct (accepted_publication hosts ev) as [(f & s' & x & _ & _ & _ & _ & Hpub)|[_ Hno]].
      * apply Hacc. by left.
      * apply Hpub in H1 as [_ ->], H2 as [_ ->]. done.
      * by destruct (Hno _ _ H1).
Qed.

(** The counted events are those that publish. *)
Definition counted (ev : pydict) : bool :=
  match counts true ev with Ok b => b | _ => false end.

Lemma counts_counted hosts ev :
  event_accepted hosts ev →
  counts true ev = Ok (counted ev) ∧ (counted ev = false → ∀ u x, ¬ publishes ev u x).
Proof.
  intros Hacc. unfold counted.
  destruct (accepted_publication hosts ev Hacc) as [(f & s & h & _ & _ & _ & -> & _)|[-> Hno]]; done.
Qed.

(** A restored event publishes nothing. *)
Lemma restored_publishes_nothing hosts ev r u h :
  event_accepted hosts ev → build_restore_event ev = Ok (Some r) → ¬ publishes r u h.
Proof.
  intros [_ _ (o & Ho & Hres)] Hr (t & spec & f & Ht & Hs & Hf & _). rewrite Hr in Ho.
  apply Ok_inj in Ho as <-. destruct (Hres r eq_refl) as (t' & Ht' & Hn & _). simplify_eq.
  apply Hn. pose proof (event_spec_Some _ _ Hs) as Hty. unfold event_types in Hty.
  cbn [EVENT_SCHEMA fmap list_fmap fst] in Hty. rewrite !elem_of_cons, elem_of_nil in Hty.
  destruct_or! Hty; try done; subst t; vm_compute in Hs; simplify_eq; simpl in Hf; try done;
    apply in_strs_PStr; vm_compute; reflexivity.
Qed.

(** The extraction over accepted events. *)
Lemma extract_publications_spec hosts evs :
  (∀ ev, ev ∈ evs → event_accepted hosts ev) →
  ∃ publications publishers ids, extract_publications evs true = Ok (publications, publishers, ids) ∧
    (∀ s h, dget publishers s = Some h ↔ last_publisher evs s h) ∧
    (∀ ev u h, ev ∈ evs → publishes ev u h →
       ∃ s, u = PStr s ∧ is_Some (dget publishers s) ∧ existsb (λ y, key_eq y h) ids = true).
Proof.
  intros Hacc. unfold extract_publications.
  rewrite (filterR_Ok (λ ev, in_set (get_none ev "type") publication_event_types)
             (λ ev, in_strs (get_none ev "type") publication_event_types)).
  2:{ intros ev Hev. destruct (ea_ready _ _ (Hacc ev Hev)) as (t & Ht & _).
      by rewrite (get_none_dget _ _ _ Ht). }
  cbn [mbind res_bind]. rewrite (filterR_Ok (counts true) counted).
  2:{ intros ev Hev. by apply (counts_counted hosts), Hacc. }
  cbn [mbind res_bind].
  assert (Hin : ∀ ev, ev ∈ List.filter counted evs ↔ ev ∈ evs ∧ counted ev = true).
  { intros ev. by rewrite !list_elem_of_In, filter_In. }
  assert (Hc : ∀ ev, ev ∈ List.filter counted evs → event_accepted hosts ev ∧ counts true ev = Ok true).
  { intros ev [He Ec]%Hin. split; [by apply Hacc|]. destruct (counts_counted hosts ev (Hacc ev He)) as [-> _]. by rewrite Ec. }
  destruct (fold_publishers hosts _ [] Hc) as (d & -> & Hd).
  cbn [mbind res_bind]. destruct (fold_publisher_ids hosts _ [] Hc) as (ids & -> & _ & Hids).
  cbn [mbind res_bind].
  assert (Hpc : ∀ ev u h, ev ∈ evs → publishes ev u h → ev ∈ List.filter counted evs).
  { intros ev u h He Hp. apply Hin. split; [done|]. destruct (counted ev) eqn:E; [done|].
    by destruct (proj2 (counts_counted hosts ev (Hacc ev He)) E u h). }
  assert (Hlast : ∀ s h, last_publisher (List.filter counted evs) s h ↔ last_publisher evs s h).
  { intros s h. apply last_publisher_filter. intros ev He. by apply (counts_counted hosts), Hacc. }
  exists (List.filter (λ ev, in_strs (get_none ev "type") publication_event_types) evs), d, ids.
  split_and!; [done| |].
  - intros s h. rewrite <- Hlast. destruct (Hd s) as [(h' & Hl & ->)|[Hno ->]].
    + split; [congruence|]. intros Hl'. f_equal. eapply (last_publisher_unique hosts); [|done..].
      intros ev He. by apply Hc.
    + split; [done|]. intros (ev & He & Hp)%last_publisher_elem. by destruct (Hno ev h).
  - intros ev u h He Hp. pose proof (Hpc ev u h He Hp) as Hf.
    destruct (Hc ev Hf) as [Ha Hcount].
    destruct (accepted_publication hosts ev Ha) as [(f & s & x & _ & _ & _ & _ & Hpub)|[? _]]; [|congruence].
    exists s. assert (u = PStr s) as -> by (by apply Hpub in Hp as [-> _]).
    split_and!; [done| |by eapply Hids]. destruct (Hd s) as [(h' & _ & ->)|[Hno _]]; [eauto|].
    by destruct (Hno ev h).
Qed.

(** The publishers a run needs are known before it starts. For the events of
    an accepted configuration the extraction succeeds; the publisher recorded
    for a URI is the host of the last event publishing it; every event that
    publishes (a conditional compute call included) has its URI and its host
    recorded; and no event a repeat restores publishes anything, so nothing is
    published at run time that the extraction did not see. *)
Lemma accepted_publishers_known `{FloatRepr} `{IpLib} config events :
  validate_config config = Ok [] → dget config "events" = Some (PList events) →
  ∃ evs publications publishers ids, events = PDict <$> evs ∧
    extract_publications evs true = Ok (publications, publishers, ids) ∧
    (∀ s h, dget publishers s = Some h ↔ last_publisher evs s h) ∧
    (∀ ev u h, ev ∈ evs → publishes ev u h →
       ∃ s, u = PStr s ∧ is_Some (dget publishers s) ∧ existsb (λ y, key_eq y h) ids = true) ∧
    (∀ ev r u h, ev ∈ evs → build_restore_event ev = Ok (Some r) → ¬ publishes r u h).
Proof.
  intros Hv He. apply accepted_blocks in Hv as (_ & _ & Hev & _).
  pose proof (validate_events_accepted config events Hev He) as Hacc.
  assert (Hdicts : ∃ evs, events = PDict <$> evs ∧
            ∀ ev, ev ∈ evs → event_accepted (get_none config "hosts") ev).
  { clear Hev He. induction events as [|e events IH]; [exists []; split; [done|by intros ? ?%elem_of_nil]|].
    destruct (Hacc e ltac:(by left)) as (ev & -> & Ha).
    destruct IH as (evs & -> & Hall); [intros; apply Hacc; by right|].
    exists (ev :: evs). split; [done|]. by intros ev' [->|?]%elem_of_cons; auto. }
  destruct Hdicts as (evs & -> & Hall).
  destruct (extract_publications_spec _ evs Hall) as (ps & d & ids & ? & ? & ?).
  exists evs, ps, d, ids. split_and!; [done..|]. intros ev r u h Hin Hr.
  eapply restored_publishes_nothing; [by apply Hall|done].
Qed.

Example accepted_publishers_known_witness :
  ∃ evs publications publishers ids, line_events = PDict <$> evs ∧
    extract_publications evs true = Ok (publications, publishers, ids) ∧
    (∀ s h, dget publishers s = Some h ↔ last_publisher evs s h) ∧
    (∀ ev u h, ev ∈ evs → publishes ev u h →
       ∃ s, u = PStr s ∧ is_Some (dget publishers s) ∧ existsb (λ y, key_eq y h) ids = true) ∧
    (∀ ev r u h, ev ∈ evs → build_restore_event ev = Ok (Some r) → ¬ publishes r u h).
Proof.
  apply (accepted_publishers_known (H:=plain_repr) (H0:=any_cidr) line_config line_events);
    vm_compute; reflexivity.
Defined.
