(* ===== verification/FailureCycles.v ===== *)
(** Component: failure injection in cycles (src/runtime/failure_manager.py,
    FlexibleFailureManager) and the shared view of the hosts that are down
    (src/core/flap_state.py).  The worker thread and the timers that bring hosts
    back are steps between their lock sections and calls, in any interleaving
    and with a stop at any moment. *)
From S2P Require Import Prelude PyValue Options Validate.
Local Open Scope Z_scope.

(** * FlapState *)

Record FlapState := mkFlap { down_hosts : list Z; last_down_host : option Z }.
Definition FlapState_init : FlapState := mkFlap [] None.
Definition flap_update (down : gset Z) (last_down : option Z) (f : FlapState) : FlapState :=
  mkFlap (sorted_set down) (match last_down with Some h => Some h | None => last_down_host f end).
Definition flap_get (f : FlapState) (key : string) (default_ : pv) : pv :=
  if bool_decide (key = "down_hosts") then PList (PInt <$> down_hosts f)
  else if bool_decide (key = "last_down_host") then match last_down_host f with Some h => PInt h | None => PNone end
  else default_.

(** * Link commands and their outcomes *)

(** How [set_node_links_state] ends: it returns, raises AssertionError or OSError,
    or raises anything else. *)
Inductive attempt := Returned | Refused (msg : string) | Crashed.

(** How the callback of a host that is up again ends: it returns, raises an
    Exception, or raises another BaseException. *)
Inductive callback := CbReturned | CbRaised (msg : string) | CbCrashed.

(** The calls made on the links of a host, newest last. *)
Inductive call := LinksDown (host : Z) (a : attempt) | LinksUp (host : Z) (a : attempt) (cb : callback).

(** [success] and [error] of a record; [None]: the exception leaves the thread. *)
Definition down_result (a : attempt) : option (bool * option string) :=
  match a with Returned => Some (true, None) | Refused msg => Some (false, Some msg) | Crashed => None end.
Definition up_result (on_host_up : bool) (a : attempt) (cb : callback) : option (bool * option string) :=
  match a with
  | Returned =>
      if on_host_up then
        match cb with
        | CbReturned => Some (true, None)
        | CbRaised msg => Some (false, Some ("host-up callback failed: " +s+ msg))
        | CbCrashed => None
        end
      else Some (true, None)
  | Refused msg => Some (false, Some msg)
  | Crashed => None
  end.

(** [_record_flap]. *)
Record flap_record := mkRecord { event_type : string; success : bool; error : option string; host : Z }.
Definition record_flap (sink : bool) (event_type : string) (h : Z) (r : bool * option string) (l : list flap_record) : list flap_record :=
  if sink then l ++ [mkRecord event_type r.1 r.2 h] else l.

(** * The configuration *)

(** Readings are [None] where the value is of a type that validation refuses. *)
Definition as_int (v : pv) : option Z := match v with PInt z => Some z | _ => None end.
Definition as_ints (v : pv) : option (list Z) := match v with PList l => mapM as_int l | _ => None end.
Definition int_field (d : pydict) (k : string) (default_ : Z) : option Z :=
  match dget d k with None => Some default_ | Some v => as_int v end.
Definition int_or_null (d : pydict) (k : string) (default_ : Z) : option Z :=
  match dget d k with None | Some PNone => Some default_ | Some v => as_int v end.
Definition exclude_field (d : pydict) : option (list Z) :=
  match dget d "exclude" with None | Some PNone => Some [] | Some v => as_ints v end.
Definition target_field (d : pydict) : option (option (list Z)) :=
  match dget d "target" with None | Some PNone => Some None | Some v => Some <$> as_ints v end.
Definition allow_field (d : pydict) : option bool :=
  match dget d "allow_publishers" with None | Some PNone => Some false | Some (PBool b) => Some b | Some _ => None end.

Record cycle := mkCycle {
  interval : Z; duration : Z; count : Z; stagger : Z;
  exclude_list : list Z; target_list : option (list Z); allow_publishers : bool;
}.
Definition read_times (d : pydict) (target : option (list Z)) (allow : bool) : option cycle :=
  interval ← int_field d "interval" 30; duration ← int_field d "duration" 10;
  count ← int_or_null d "count" 2; stagger ← int_or_null d "stagger" 0;
  exclude ← exclude_field d;
  Some (mkCycle interval duration count stagger exclude target allow).
Definition read_cycle (d : pydict) : option cycle :=
  target ← target_field d; allow ← allow_field d; read_times d target allow.
(** The parameters do not start a flap. *)
Definition invalid (c : cycle) : bool := (interval c <=? 0) || (duration c <=? 0).

Inductive strategy := Cyclic | Random | Manual.
Definition strategy_of (v : pv) : option strategy :=
  if eq_str v "cyclic" then Some Cyclic else if eq_str v "random" then Some Random
  else if eq_str v "manual" then Some Manual else None.

(** What [FlexibleFailureManager.start] starts. *)
Inductive started := NoFlapping | SimpleMode (c : cycle) | CycleMode (s : strategy) (cycles : list cycle).

Definition start_simple (d : pydict) : option started :=
  match get_none d "simple" with
  | PNone | PDict [] => Some NoFlapping
  | PDict simple => c ← read_times simple None false; Some (if invalid c then NoFlapping else SimpleMode c)
  | _ => None
  end.
Definition start_cycles (s : strategy) (d : pydict) : option started :=
  match get_or d "cycles" (PList []) with
  | PList [] | PNone => Some NoFlapping
  | PList l => cycles ← mapM (λ v, match v with PDict c => read_cycle c | _ => None end) l; Some (CycleMode s cycles)
  | _ => None
  end.
Definition manager_start (d : pydict) : option started :=
  let strategy := get_or d "strategy" (PStr "simple") in
  if eq_str strategy "simple" then start_simple d
  else match strategy_of strategy with Some s => start_cycles s d | None => Some NoFlapping end.

(** * The worker and the timers of cycle mode *)

Section cycle_mode.
Context (mode : strategy) (cycles : list cycle) (host_count : Z) (has_rng : bool) (publisher_ids : gset Z)
  (on_host_up sink : bool).

(** [exclude_set]. *)
Definition excluded (c : cycle) : gset Z :=
  list_to_set (exclude_list c) ∪ (if allow_publishers c then ∅ else publisher_ids).

(** [rng.sample(available, k)] answers [k] distinct elements. *)
Definition sample_of (available : list Z) (k : Z) (draw : list Z) : Prop :=
  Z.of_nat (length draw) = k ∧ NoDup draw ∧ Forall (λ h, h ∈ available) draw.
#[export] Instance sample_of_dec available k draw : Decision (sample_of available k draw) := _.

(** The victims of a cycle: none available, [rng.sample] refuses its argument, or a
    choice. [draw] is the answer of [rng.sample]; the outer [None]: not an answer
    it gives. *)
Inductive victims := NoHosts | SampleRaises | Chosen (l : list Z).
Definition choose (c : cycle) (down : gset Z) (draw : list Z) : option victims :=
  let usable h := bool_decide (h ∉ excluded c ∧ h ∉ down) in
  match target_list c, mode with
  | Some targets, Manual => Some (Chosen (List.filter usable targets))
  | _, _ =>
      match List.filter usable (range host_count) with
      | [] => Some NoHosts
      | (_ :: _) as available =>
          let k := Z.min (count c) (Z.of_nat (length available)) in
          match mode with
          | Random =>
              if has_rng then
                if k <? 0 then Some SampleRaises
                else if decide (sample_of available k draw) then Some (Chosen draw) else None
              else Some (Chosen (py_take k available))
          | _ => Some (Chosen (py_take k available))
          end
      end
  end.

(** Where the worker is: at the head of the loop, waiting for the interval,
    going over its victims (those it already took down are [mine]), calling for
    one of them, registering its timer, starting it, or gone. *)
Inductive worker_pos :=
  | WCycles (todo : list (Z * cycle))
  | WInterval (i : Z) (c : cycle) (todo : list (Z * cycle))
  | WVictims (i : Z) (c : cycle) (chosen : list Z) (mine : gset Z) (todo : list (Z * cycle))
  | WLinks (i : Z) (c : cycle) (h : Z) (chosen : list Z) (mine : gset Z) (todo : list (Z * cycle))
  | WRegister (i : Z) (mine : gset Z) (todo : list (Z * cycle))
  | WStart (t : nat) (i : Z) (mine : gset Z) (todo : list (Z * cycle))
  | WGone.

(** A started timer of cycle [i]: waiting for its time, or in the loop of [do_up]
    with the hosts still to bring up. *)
Inductive timer_pos := TWaiting (i : Z) (down_set : gset Z) | TLoop (i : Z) (down_set : gset Z) (rest : list Z).

Record state := mkState {
  stopped : bool;
  shared_down : gset Z;
  cycle_timers : gmap Z nat;
  flap : FlapState;
  worker : worker_pos;
  timers : gmap nat timer_pos;
  next_timer : nat;
  calls : list call;
  records : list flap_record;
}.

Definition set_worker (w : worker_pos) (s : state) : state :=
  mkState (stopped s) (shared_down s) (cycle_timers s) (flap s) w (timers s) (next_timer s) (calls s) (records s).
Definition set_timers (m : gmap nat timer_pos) (s : state) : state :=
  mkState (stopped s) (shared_down s) (cycle_timers s) (flap s) (worker s) m (next_timer s) (calls s) (records s).
Definition set_registry (m : gmap Z nat) (n : nat) (s : state) : state :=
  mkState (stopped s) (shared_down s) m (flap s) (worker s) (timers s) n (calls s) (records s).
Definition set_down (d : gset Z) (last : option Z) (s : state) : state :=
  mkState (stopped s) d (cycle_timers s) (flap_update d last (flap s)) (worker s) (timers s) (next_timer s) (calls s) (records s).
Definition add_call (c : call) (s : state) : state :=
  mkState (stopped s) (shared_down s) (cycle_timers s) (flap s) (worker s) (timers s) (next_timer s) (calls s ++ [c]) (records s).
Definition add_record (event_type : string) (h : Z) (r : bool * option string) (s : state) : state :=
  mkState (stopped s) (shared_down s) (cycle_timers s) (flap s) (worker s) (timers s) (next_timer s) (calls s)
    (record_flap sink event_type h r (records s)).
Definition set_stopped (s : state) : state :=
  mkState true (shared_down s) (cycle_timers s) (flap s) (worker s) (timers s) (next_timer s) (calls s) (records s).

(** The state in which [_start_cycle_mode] starts the worker. *)
Definition start_state : state := mkState false ∅ ∅ FlapState_init (WCycles (imap (λ i c, (Z.of_nat i, c)) cycles)) ∅ 0 [] [].

(** A step of the worker; [draw] answers [rng.sample], [a] the link command. *)
Definition worker_step (draw : list Z) (a : attempt) (s : state) : option state :=
  match worker s with
  | WCycles [] => Some (set_worker WGone s)
  | WCycles ((i, c) :: todo) =>
      Some (set_worker (if stopped s then WGone else if invalid c then WCycles todo else WInterval i c todo) s)
  | WInterval i c todo =>
      if stopped s then Some (set_worker WGone s)
      else
        match choose c (shared_down s) draw with
        | None => None
        | Some NoHosts => Some (set_worker (WCycles todo) s)
        | Some SampleRaises => Some (set_worker WGone s)
        | Some (Chosen chosen) => Some (set_worker (WVictims i c chosen ∅ todo) s)
        end
  | WVictims i c [] mine todo => Some (set_worker (if decide (mine = ∅) then WCycles todo else WRegister i mine todo) s)
  | WVictims i c (h :: chosen) mine todo =>
      if stopped s then Some (set_worker WGone s)
      else if decide (h ∈ shared_down s) then Some (set_worker (WVictims i c chosen mine todo) s)
      else Some (set_worker (WLinks i c h chosen ({[h]} ∪ mine) todo) (set_down ({[h]} ∪ shared_down s) (Some h) s))
  | WLinks i c h chosen mine todo =>
      let s := add_call (LinksDown h a) s in
      match down_result a with
      | Some r => Some (set_worker (WVictims i c chosen mine todo) (add_record "host_down" h r s))
      | None => Some (set_worker WGone s)
      end
  | WRegister i mine todo =>
      let t := next_timer s in
      Some (set_worker (WStart t i mine todo) (set_registry (<[i := t]> (cycle_timers s)) (S t) s))
  | WStart t i mine todo => Some (set_worker (WCycles todo) (set_timers (<[t := TWaiting i mine]> (timers s)) s))
  | WGone => None
  end.

(** A step of timer [t]; [order] is the order in which the set is iterated over. *)
Definition timer_step (t : nat) (order : list Z) (a : attempt) (cb : callback) (s : state) : option state :=
  match timers s !! t with
  | None => None
  | Some (TWaiting i down_set) =>
      if stopped s then Some (set_timers (delete t (timers s)) s)
      else if decide (cycle_timers s !! i = Some t) then
        if decide (elements down_set ≡ₚ order) then
          Some (set_timers (<[t := TLoop i down_set order]> (timers s)) (set_registry (delete i (cycle_timers s)) (next_timer s) s))
        else None
      else Some (set_timers (delete t (timers s)) s)
  | Some (TLoop i down_set (h :: rest)) =>
      let s := add_call (LinksUp h a cb) s in
      match up_result on_host_up a cb with
      | Some r => Some (set_timers (<[t := TLoop i down_set rest]> (timers s)) (add_record "host_up" h r s))
      | None => Some (set_timers (delete t (timers s)) s)
      end
  | Some (TLoop i down_set []) =>
      Some (set_timers (delete t (timers s)) (set_down (shared_down s ∖ down_set) None s))
  end.

Inductive action := AStop | AWorker (draw : list Z) (a : attempt) | ATimer (t : nat) (order : list Z) (a : attempt) (cb : callback).
Definition act (x : action) (s : state) : option state :=
  match x with
  | AStop => Some (set_stopped s)
  | AWorker draw a => worker_step draw a s
  | ATimer t order a cb => timer_step t order a cb s
  end.
Definition step (s s' : state) : Prop := ∃ x, act x s = Some s'.
Definition reachable (s : state) : Prop := rtc step start_state s.
End cycle_mode.

(** * Holders

    Every host that is down is held by the worker or by one timer; [rest] of a
    holder are its hosts whose last link command was [down]. *)

Notation holders := (option nat → gset Z * gset Z).
Definition upd (H : holders) (k : option nat) (v : gset Z * gset Z) : holders := λ k', if decide (k' = k) then v else H k'.

(** [shared] is the set of down hosts and [d] those whose last command was down. *)
Record tidy (shared d : gset Z) (H : holders) : Prop := {
  tidy_held k : (H k).1 ⊆ shared;
  tidy_rest k : (H k).2 ≡ d ∩ (H k).1;
  tidy_disjoint k k' : k ≠ k' → (H k).1 ## (H k').1;
  tidy_down : d ⊆ shared;
}.
Definition covered (shared : gset Z) (H : holders) : Prop := ∀ h, h ∈ shared → ∃ k, h ∈ (H k).1.

Lemma upd_eq H k v : upd H k v k = v.
Proof. unfold upd. by rewrite decide_True. Qed.
Lemma upd_ne H k v k' : k' ≠ k → upd H k v k' = H k'.
Proof. intros. unfold upd. by rewrite decide_False. Qed.

Lemma tidy_ext shared d H H' : (∀ k, H' k = H k) → tidy shared d H → tidy shared d H'.
Proof. intros E [? ? ? ?]. split; intros; rewrite ?E in *; auto. Qed.
Lemma covered_ext shared H H' : (∀ k, H' k = H k) → covered shared H → covered shared H'.
Proof. intros E Hc h Hh. destruct (Hc h Hh) as [k Hk]. exists k. by rewrite E. Qed.

(** What holds of every holder, after a change of one of them. *)
Ltac at_holder k0 k := unfold upd; destruct (decide (k = k0)) as [->|?].

Lemma tidy_upd shared d H k v shared' d' : tidy shared d H →
  v.1 ⊆ shared' → v.2 ≡ d' ∩ v.1 → (∀ k', k' ≠ k → v.1 ## (H k').1) → d' ⊆ shared' →
  (∀ h, h ∉ (H k).1 → h ∉ v.1 → (h ∈ shared → h ∈ shared') ∧ (h ∈ d' ↔ h ∈ d)) → tidy shared' d' (upd H k v).
Proof.
  intros [Hh Hr Hd Hs] Hv Hv2 Hdv Hds Hrest. split; [| | |done].
  - intros k'. at_holder k k'; [done|]. intros h Hin. apply Hrest; [..|by apply (Hh k')].
    + intros Hk. by apply (Hd k' k ltac:(done) h).
    + intros Hk. by apply (Hdv k' ltac:(done) h).
  - intros k'. at_holder k k'; [done|]. rewrite Hr. intros h. rewrite !elem_of_intersection.
    split; intros [Hin Hk']; (split; [|done]); apply Hrest in Hin || apply Hrest; try done; intros Hk;
      first [by apply (Hd k' k ltac:(done) h) | by apply (Hdv k' ltac:(done) h)].
  - intros k1 k2. at_holder k k1; at_holder k k2; intros Hne; [done|by apply Hdv|symmetry; by apply Hdv|by apply Hd].
Qed.

(** The holder is gone. *)
Lemma tidy_drop shared d H k : tidy shared d H → tidy shared d (upd H k (∅, ∅)).
Proof. intros Ht. apply (tidy_upd shared d); [done|set_solver..|apply Ht|done]. Qed.

(** A host that is up is taken. *)
Lemma tidy_take shared d H k h : tidy shared d H → h ∉ shared → tidy ({[h]} ∪ shared) d (upd H k ({[h]} ∪ (H k).1, (H k).2)).
Proof.
  intros Ht Hh. pose proof (tidy_held _ _ _ Ht) as Hs. pose proof (tidy_down _ _ _ Ht) as Hd.
  apply (tidy_upd shared d); [done| | | | |]; simpl.
  - specialize (Hs k). set_solver.
  - rewrite (tidy_rest _ _ _ Ht). set_solver.
  - intros k' Hk'. pose proof (tidy_disjoint _ _ _ Ht k k' ltac:(done)). specialize (Hs k'). set_solver.
  - set_solver.
  - set_solver.
Qed.

(** Its links are set down, and up. *)
Lemma tidy_set_down shared d H k h : tidy shared d H → h ∈ (H k).1 → h ∉ d →
  tidy shared ({[h]} ∪ d) (upd H k ((H k).1, {[h]} ∪ (H k).2)).
Proof.
  intros Ht Hh Hd. pose proof (tidy_held _ _ _ Ht k) as Hs. apply (tidy_upd shared d); [done| | | | |]; simpl.
  - done.
  - rewrite (tidy_rest _ _ _ Ht). set_solver.
  - intros k' Hk'. by apply (tidy_disjoint _ _ _ Ht).
  - pose proof (tidy_down _ _ _ Ht). set_solver.
  - set_solver.
Qed.
Lemma tidy_set_up shared d H k h : tidy shared d H → h ∈ (H k).2 → tidy shared (d ∖ {[h]}) (upd H k ((H k).1, (H k).2 ∖ {[h]})).
Proof.
  intros Ht Hh. pose proof (tidy_held _ _ _ Ht k) as Hs. pose proof (tidy_rest _ _ _ Ht k) as Hr.
  apply (tidy_upd shared d); [done| | | | |]; simpl.
  - done.
  - rewrite Hr. set_solver.
  - intros k' Hk'. by apply (tidy_disjoint _ _ _ Ht).
  - pose proof (tidy_down _ _ _ Ht). set_solver.
  - set_solver.
Qed.

(** All its hosts are up again. *)
Lemma tidy_release shared d H k : tidy shared d H → (H k).2 = ∅ → tidy (shared ∖ (H k).1) d (upd H k (∅, ∅)).
Proof.
  intros Ht Hh. pose proof (tidy_rest _ _ _ Ht k) as Hr. pose proof (tidy_down _ _ _ Ht) as Hd.
  apply (tidy_upd shared d); [done| | | | |]; simpl; set_solver.
Qed.

(** Its hosts pass to a holder without any. *)
Lemma tidy_pass shared d H k k' : tidy shared d H → k ≠ k' → tidy shared d (upd (upd H k (∅, ∅)) k' (H k)).
Proof.
  intros Ht Hne. pose proof (tidy_drop _ _ _ k Ht) as Ht'. apply (tidy_upd shared d); [done|apply Ht|apply Ht| |apply Ht|done].
  intros k2 Hk2. at_holder k k2; [set_solver|by apply (tidy_disjoint _ _ _ Ht)].
Qed.

Lemma covered_upd shared H k v shared' : covered shared H →
  (∀ h, h ∈ shared' → h ∈ v.1 ∨ h ∈ shared ∧ h ∉ (H k).1) → covered shared' (upd H k v).
Proof.
  intros Hc Hs h Hh. destruct (Hs h Hh) as [Hv|[Hin Hk]]; [exists k; by rewrite upd_eq|].
  destruct (Hc h Hin) as [k' Hk']. exists k'. by rewrite upd_ne by (intros ->; done).
Qed.

(** * The invariant *)

(** The hosts whose last link command, whatever its outcome, was [down]; [None] when
    the commands for some host do not alternate. *)
Definition issue (down : option (gset Z)) (c : call) : option (gset Z) :=
  match down, c with
  | Some d, LinksDown h _ => if decide (h ∈ d) then None else Some ({[h]} ∪ d)
  | Some d, LinksUp h _ _ => if decide (h ∈ d) then Some (d ∖ {[h]}) else None
  | None, _ => None
  end.
Definition commanded_down (l : list call) : option (gset Z) := foldl issue (Some ∅) l.

(** The hosts whose links may be down, by the outcomes: a command to take a host down
    may have set some links before it was refused, and only a command to bring it up
    that returned has set them all up. *)
Definition outcome (down : gset Z) (c : call) : gset Z :=
  match c with
  | LinksDown h _ => {[h]} ∪ down
  | LinksUp h Returned _ => down ∖ {[h]}
  | LinksUp _ _ _ => down
  end.
Definition links_down (l : list call) : gset Z := foldl outcome ∅ l.

(** The last command for host [h]. *)
Definition call_host (c : call) : Z := match c with LinksDown h _ | LinksUp h _ _ => h end.
Definition last_call (h : Z) (l : list call) : option call :=
  foldl (λ o c, if decide (call_host c = h) then Some c else o) None l.
Definition returned (a : attempt) : bool := match a with Returned => true | _ => false end.

(** An exception left a thread. *)
Definition breaks (on_host_up : bool) (c : call) : bool :=
  match match c with LinksDown _ a => down_result a | LinksUp _ a cb => up_result on_host_up a cb end with Some _ => false | None => true end.

Definition worker_hold (w : worker_pos) : gset Z * gset Z :=
  match w with
  | WVictims _ _ _ mine _ | WRegister _ mine _ | WStart _ _ mine _ => (mine, mine)
  | WLinks _ _ h _ mine _ => (mine, mine ∖ {[h]})
  | _ => (∅, ∅)
  end.
Definition timer_hold (x : timer_pos) : gset Z * gset Z :=
  match x with TWaiting _ d => (d, d) | TLoop _ d rest => (d, list_to_set rest) end.
Definition hold (w : worker_pos) (tm : gmap nat timer_pos) : holders := λ k,
  match k with None => worker_hold w | Some t => from_option timer_hold (∅, ∅) (tm !! t) end.

(** The cycles the worker may still register a timer for. *)
Definition pending (w : worker_pos) : list Z :=
  match w with
  | WCycles todo => todo.*1
  | WInterval i _ todo | WVictims i _ _ _ todo | WLinks i _ _ _ _ todo | WRegister i _ todo | WStart _ i _ todo => i :: todo.*1
  | WGone => []
  end.
Definition timer_cycle (x : timer_pos) : Z := match x with TWaiting i _ | TLoop i _ _ => i end.

Record numbered (w : worker_pos) (tm : gmap nat timer_pos) (reg : gmap Z nat) (n : nat) : Prop := {
  num_pending : NoDup (pending w);
  num_timer t x : tm !! t = Some x → timer_cycle x ∉ pending w ∧ (t < n)%nat;
  num_waiting t i d : tm !! t = Some (TWaiting i d) → reg !! i = Some t;
  num_start t i mine todo : w = WStart t i mine todo → tm !! t = None ∧ (t < n)%nat ∧ reg !! i = Some t;
  num_loop t i d rest : tm !! t = Some (TLoop i d rest) → NoDup rest;
}.
Notation numbered_state s := (numbered (worker s) (timers s) (cycle_timers s) (next_timer s)).

Record accounted (on_host_up stop : bool) (shared : gset Z) (l : list call) (H : holders) : Prop := {
  acc_tidy : ∃ d, commanded_down l = Some d ∧ tidy shared d H;
  acc_cover : stop = false → forallb (λ c, negb (breaks on_host_up c)) l = true → covered shared H;
}.
Notation accounted_state up s := (accounted up (stopped s) (shared_down s) (calls s) (hold (worker s) (timers s))).

Lemma commanded_down_snoc l c : commanded_down (l ++ [c]) = issue (commanded_down l) c.
Proof. unfold commanded_down. by rewrite foldl_app. Qed.

(** When the commands alternate, the last one for a host decides about its links. *)
Lemma last_call_links h l d : commanded_down l = Some d →
  match last_call h l with
  | None => h ∉ d ∧ h ∉ links_down l
  | Some (LinksDown _ _) => h ∈ d ∧ h ∈ links_down l
  | Some (LinksUp _ a _) => h ∉ d ∧ (h ∈ links_down l ↔ returned a = false)
  end.
Proof.
  revert d. induction l as [|c l IH] using rev_ind; intros d; [intros [= <-]; simpl; set_solver|].
  rewrite commanded_down_snoc. unfold last_call, links_down. rewrite !foldl_app. simpl.
  fold (last_call h l) (links_down l). destruct (commanded_down l) as [d'|]; [|by destruct c]. specialize (IH d' eq_refl).
  destruct c as [h' a|h' a cb]; simpl; case_decide as Hd; try done; intros [= <-]; (case_decide as Hh; [subst h'|]).
  - set_solver.
  - destruct (last_call h l) as [[]|]; set_solver.
  - destruct a; simpl; destruct (last_call h l) as [[]|]; set_solver.
  - destruct a; simpl; destruct (last_call h l) as [[]|]; set_solver.
Qed.

Section cycle_lemmas.
Context (mode : strategy) (cycles : list cycle) (host_count : Z) (has_rng : bool) (publisher_ids : gset Z)
  (on_host_up sink : bool).
Notation act := (act mode host_count has_rng publisher_ids on_host_up sink).

Lemma numbered_del w tm reg n t : numbered w tm reg n → numbered w (delete t tm) reg n.
Proof.
  intros [Hp Ht Hw Hst Hl]. split; [done| | | |]; intros *; rewrite ?lookup_delete_Some; [naive_solver..| |naive_solver].
  intros E. destruct (Hst _ _ _ _ E) as (? & ? & ?). by rewrite lookup_delete_None; auto.
Qed.

Lemma numbered_next w tm reg n t i d order rest :
  numbered w tm reg n → tm !! t = Some (TLoop i d order) → NoDup rest → numbered w (<[t:=TLoop i d rest]> tm) reg n.
Proof.
  intros [Hp Ht Hw Hst Hl] Et Hr. destruct (Ht t _ Et) as [Hi Hlt]. split; [done| | | |]; intros *.
  - rewrite lookup_insert_Some. intros [[<- <-]|[Hne Hx]]; [done|by apply Ht].
  - rewrite lookup_insert_Some. intros [[_ [=]]|[Hne Hx]]. by apply (Hw _ _ d0).
  - intros E. destruct (Hst _ _ _ _ E) as (? & ? & ?). by rewrite lookup_insert_ne by congruence.
  - rewrite lookup_insert_Some. intros [[_ [= _ _ <-]]|[_ Hx]]; [done|by eapply Hl].
Qed.

Lemma numbered_fire w tm reg n t i d order :
  numbered w tm reg n → tm !! t = Some (TWaiting i d) → NoDup order → numbered w (<[t:=TLoop i d order]> tm) (delete i reg) n.
Proof.
  intros [Hp Ht Hw Hst Hl] Et Hr. destruct (Ht t _ Et) as [Hi Hlt]. split; [done| | | |]; intros *.
  - rewrite lookup_insert_Some. intros [[<- <-]|[Hne Hx]]; [done|by apply Ht].
  - rewrite lookup_insert_Some. intros [[_ [=]]|[Hne Hx]]. rewrite lookup_delete_ne; [by eapply Hw|].
    intros <-. apply Hw in Et, Hx. congruence.
  - intros E. destruct (Hst _ _ _ _ E) as (Hn & Hlt' & Hc). split_and!; [|done|].
    + by rewrite lookup_insert_ne by congruence.
    + rewrite lookup_delete_ne; [done|]. intros ->. rewrite E in Hi. apply Hi. simpl. by left.
  - rewrite lookup_insert_Some. intros [[_ [= _ _ <-]]|[_ Hx]]; [done|by eapply Hl].
Qed.

Lemma numbered_timer t order a cb s s' : numbered_state s → act (ATimer t order a cb) s = Some s' → numbered_state s'.
Proof.
  intros Hn Hs. unfold act, timer_step in Hs. destruct (timers s !! t) as [[i d|i d [|h rest]]|] eqn:Et; [..|done].
  - destruct (stopped s); [injection Hs as <-; by apply numbered_del|]. rewrite decide_True in Hs by (by eapply num_waiting).
    destruct (decide _) as [Ho|]; [|done]. injection Hs as <-. apply numbered_fire; [done..|]. rewrite <- Ho. apply NoDup_elements.
  - injection Hs as <-. by apply numbered_del.
  - simpl in Hs. destruct (up_result on_host_up a cb); injection Hs as <-; [|by apply numbered_del].
    eapply numbered_next; [done..|]. eapply NoDup_cons_1_2. by eapply num_loop.
Qed.

(** Moves of the worker that keep the pending cycles, or forget some of them. *)
Lemma numbered_move w w' tm reg n : numbered w tm reg n → sublist (pending w') (pending w) →
  (∀ t i mine todo, w' ≠ WStart t i mine todo) → numbered w' tm reg n.
Proof.
  intros [Hp Ht Hw Hst Hl] Hsub Hne. split; [by eapply sublist_NoDup| |done| |done].
  - intros t x Hx. destruct (Ht t x Hx) as [Hi ?]. split; [|done]. intros Hin. apply Hi. by eapply elem_of_submseteq, sublist_submseteq.
  - intros t i mine todo ->. by destruct (Hne t i mine todo).
Qed.

Lemma numbered_register i mine todo tm reg n : numbered (WRegister i mine todo) tm reg n →
  numbered (WStart n i mine todo) tm (<[i:=n]> reg) (S n).
Proof.
  intros [Hp Ht Hw Hst Hl]. split; [done| | | |done].
  - intros t x Hx. destruct (Ht t x Hx). split; [done|lia].
  - intros t i' d Hx. destruct (Ht t _ Hx) as [Hi _]. rewrite lookup_insert_ne; [by eapply Hw|]. intros ->. apply Hi. by left.
  - intros t i' mine' todo' [= <- <- <- <-]. split_and!; [|lia|by rewrite lookup_insert_eq].
    destruct (tm !! n) eqn:E; [|done]. destruct (Ht _ _ E). lia.
Qed.

Lemma numbered_start t i mine todo tm reg n : numbered (WStart t i mine todo) tm reg n →
  numbered (WCycles todo) (<[t:=TWaiting i mine]> tm) reg n.
Proof.
  intros [Hp Ht Hw Hst Hl]. destruct (Hst t i mine todo eq_refl) as (Hnone & Hlt & Hreg). simpl in *.
  apply NoDup_cons in Hp as [Hi Hp]. split; [done| | | |]; intros *.
  - rewrite lookup_insert_Some. intros [[<- <-]|[Hne Hx]]; [done|]. destruct (Ht _ _ Hx) as [Hc ?].
    split; [|done]. intros Hin. apply Hc. by right.
  - rewrite lookup_insert_Some. intros [[<- [= <- <-]]|[Hne Hx]]; [done|]. by eapply Hw.
  - done.
  - rewrite lookup_insert_Some. intros [[_ [=]]|[Hne Hx]]. by eapply Hl.
Qed.

Lemma numbered_worker draw a s s' : numbered_state s → act (AWorker draw a) s = Some s' → numbered_state s'.
Proof.
  intros Hn Hs. unfold act, worker_step in Hs.
  destruct (worker s) as [[|[i c] todo]|i c todo|i c [|h chosen] mine todo|i c h chosen mine todo|i mine todo|t i mine todo|] eqn:Ew; [| | | | | | | |done].
  - injection Hs as <-. by apply (numbered_move (WCycles [])).
  - injection Hs as <-. simpl. destruct (stopped s); [|destruct (invalid c)]; apply (numbered_move (WCycles ((i, c) :: todo))); simpl; try done.
    + apply sublist_nil_l.
    + by apply sublist_cons.
  - destruct (stopped s); [injection Hs as <-; by eapply numbered_move; [|apply sublist_nil_l|]|].
    destruct (choose _ _ _ _ _ _ _) as [[| |l]|]; [injection Hs as <-..|done];
      eapply numbered_move; try done; simpl; [by apply sublist_cons|apply sublist_nil_l].
  - injection Hs as <-. simpl. case_decide; eapply numbered_move; try done; simpl. by apply sublist_cons.
  - destruct (stopped s); [injection Hs as <-; by eapply numbered_move; [|apply sublist_nil_l|]|].
    case_decide; injection Hs as <-; by eapply numbered_move.
  - simpl in Hs. destruct (down_result a); injection Hs as <-; [by eapply numbered_move|by eapply numbered_move; [|apply sublist_nil_l|]].
  - injection Hs as <-. by apply numbered_register.
  - injection Hs as <-. by apply numbered_start.
Qed.

(** ** Every host that is down is accounted for *)

Lemma hold_worker w w' tm k : hold w' tm k = upd (hold w tm) None (worker_hold w') k.
Proof. unfold upd, hold. by destruct k. Qed.
Lemma hold_set w tm t x k : hold w (<[t:=x]> tm) k = upd (hold w tm) (Some t) (timer_hold x) k.
Proof.
  unfold upd, hold. destruct k as [t'|]; [|done]. destruct (decide (Some t' = Some t)) as [[= ->]|Hne].
  - by rewrite lookup_insert_eq.
  - by rewrite lookup_insert_ne by congruence.
Qed.
Lemma hold_del w tm t k : hold w (delete t tm) k = upd (hold w tm) (Some t) (∅, ∅) k.
Proof.
  unfold upd, hold. destruct k as [t'|]; [|done]. destruct (decide (Some t' = Some t)) as [[= ->]|Hne].
  - by rewrite lookup_delete_eq.
  - by rewrite lookup_delete_ne by congruence.
Qed.

Lemma unbroken_snoc l c :
  forallb (λ c, negb (breaks on_host_up c)) (l ++ [c]) = true ↔ forallb (λ c, negb (breaks on_host_up c)) l = true ∧ breaks on_host_up c = false.
Proof. rewrite forallb_app, andb_true_iff. unfold forallb at 2. rewrite andb_true_r, negb_true_iff. done. Qed.

Section accounting.
Context (stop : bool) (shared : gset Z) (l : list call) (H : holders).
Notation acc := (accounted on_host_up).

Lemma acc_ext H' : acc stop shared l H → (∀ k, H' k = H k) → acc stop shared l H'.
Proof.
  intros [(d & Ed & Ht) Hc] E. split.
  - exists d. split; [done|by eapply tidy_ext].
  - intros ? ?. eapply covered_ext; [done|auto].
Qed.

Lemma acc_stop : acc stop shared l H → acc true shared l H.
Proof. intros [Hd Hc]. by split. Qed.

Lemma acc_drop k : acc true shared l H → acc true shared l (upd H k (∅, ∅)).
Proof. intros [(d & Ed & Ht) Hc]. split; [|done]. exists d. split; [done|by apply tidy_drop]. Qed.

(** A holder without hosts goes. *)
Lemma acc_drop_empty k : acc stop shared l H → (H k).1 = ∅ → acc stop shared l (upd H k (∅, ∅)).
Proof.
  intros [(d & Ed & Ht) Hc] Hk. split.
  - exists d. split; [done|by apply tidy_drop].
  - intros ? ?. eapply covered_upd; [auto|]. intros h Hh. right. rewrite Hk. set_solver.
Qed.

Lemma acc_take k h : acc stop shared l H → h ∉ shared →
  acc stop ({[h]} ∪ shared) l (upd H k ({[h]} ∪ (H k).1, (H k).2)).
Proof.
  intros [(d & Ed & Ht) Hc] Hh. split.
  - exists d. split; [done|by apply tidy_take].
  - intros ? ?. eapply covered_upd; [auto|]. simpl. intros x Hx. destruct (decide (x ∈ (H k).1)); set_solver.
Qed.

Lemma acc_down k h a : acc stop shared l H → h ∈ (H k).1 → h ∉ (H k).2 →
  acc stop shared (l ++ [LinksDown h a]) (upd H k (if down_result a then ((H k).1, {[h]} ∪ (H k).2) else (∅, ∅))).
Proof.
  intros [(d & Ed & Ht) Hc] Hh Hr.
  assert (Hd : h ∉ d) by (rewrite (tidy_rest _ _ _ Ht k) in Hr; set_solver).
  split.
  - exists ({[h]} ∪ d). rewrite commanded_down_snoc, Ed. simpl. rewrite decide_False by done. split; [done|].
    pose proof (tidy_set_down _ _ _ _ _ Ht Hh Hd) as Ht'. destruct (down_result a); [done|].
    apply (tidy_ext _ _ (upd (upd H k ((H k).1, {[h]} ∪ (H k).2)) k (∅, ∅))); [|by apply tidy_drop].
    intros k'. unfold upd. by destruct (decide (k' = k)).
  - rewrite unbroken_snoc. intros ? [Hl Hb]. unfold breaks in Hb. destruct (down_result a); [|done].
    eapply covered_upd; [auto|]. simpl. intros x Hx. destruct (decide (x ∈ (H k).1)); auto.
Qed.

Lemma acc_up k h a cb : acc stop shared l H → h ∈ (H k).2 →
  acc stop shared (l ++ [LinksUp h a cb]) (upd H k (if up_result on_host_up a cb then ((H k).1, (H k).2 ∖ {[h]}) else (∅, ∅))).
Proof.
  intros [(d & Ed & Ht) Hc] Hh.
  assert (Hd : h ∈ d) by (rewrite (tidy_rest _ _ _ Ht k) in Hh; set_solver).
  split.
  - exists (d ∖ {[h]}). rewrite commanded_down_snoc, Ed. simpl. rewrite decide_True by done. split; [done|].
    pose proof (tidy_set_up _ _ _ _ _ Ht Hh) as Ht'. destruct (up_result on_host_up a cb); [done|].
    apply (tidy_ext _ _ (upd (upd H k ((H k).1, (H k).2 ∖ {[h]})) k (∅, ∅))); [|by apply tidy_drop].
    intros k'. unfold upd. by destruct (decide (k' = k)).
  - rewrite unbroken_snoc. intros ? [Hl Hb]. unfold breaks in Hb. destruct (up_result on_host_up a cb); [|done].
    eapply covered_upd; [auto|]. simpl. intros x Hx. destruct (decide (x ∈ (H k).1)); auto.
Qed.

Lemma acc_release k : acc stop shared l H → (H k).2 = ∅ →
  acc stop (shared ∖ (H k).1) l (upd H k (∅, ∅)).
Proof.
  intros [(d & Ed & Ht) Hc] Hk. split.
  - exists d. split; [done|by apply tidy_release].
  - intros ? ?. eapply covered_upd; [auto|]. set_solver.
Qed.

Lemma acc_pass k k' : acc stop shared l H → k ≠ k' → (H k').1 = ∅ → acc stop shared l (upd (upd H k (∅, ∅)) k' (H k)).
Proof.
  intros [(d & Ed & Ht) Hc] Hne Hk'. split.
  - exists d. split; [done|by apply tidy_pass].
  - intros ? ? h Hh. destruct (Hc ltac:(done) ltac:(done) h Hh) as [k2 Hk2]. destruct (decide (k2 = k)) as [->|?].
    + exists k'. by rewrite upd_eq.
    + exists k2. rewrite upd_ne, upd_ne; [done..|]. intros ->. set_solver.
Qed.
End accounting.

Lemma hold_at w tm t x : tm !! t = Some x → hold w tm (Some t) = timer_hold x.
Proof. intros E. simpl. by rewrite E. Qed.

Lemma accounted_timer t order a cb s s' : numbered_state s → accounted_state on_host_up s →
  act (ATimer t order a cb) s = Some s' → accounted_state on_host_up s'.
Proof.
  intros Hn Ha Hs. unfold act, timer_step in Hs. destruct (timers s !! t) as [[i d|i d [|h rest]]|] eqn:Et; [..|done].
  all: assert (Hh := hold_at (worker s) (timers s) t _ Et).
  - destruct (stopped s) eqn:Est; [injection Hs as <-; simpl; rewrite Est|].
    { eapply acc_ext; [by apply acc_drop|]. intros k. apply hold_del. }
    rewrite decide_True in Hs by (by eapply num_waiting). destruct (decide _) as [Ho|]; [|done]. injection Hs as <-. simpl. rewrite Est.
    eapply acc_ext; [exact Ha|]. intros k. rewrite hold_set. unfold upd. destruct (decide (k = Some t)) as [->|]; [|done]. rewrite Hh.
    simpl. f_equal. apply set_eq. intros x. by rewrite elem_of_list_to_set, <- Ho, elem_of_elements.
  - injection Hs as <-. simpl. pose proof (acc_release _ _ _ _ (Some t) Ha) as Hr. rewrite Hh in Hr. simpl in Hr.
    eapply acc_ext; [by apply Hr|]. intros k. apply hold_del.
  - pose proof (acc_up _ _ _ _ (Some t) h a cb Ha) as Hr. rewrite Hh in Hr. simpl in Hr. specialize (Hr ltac:(set_solver)).
    assert (Hnd : NoDup (h :: rest)) by (by eapply num_loop). apply NoDup_cons in Hnd as [Hnot _].
    simpl in Hs. destruct (up_result on_host_up a cb); injection Hs as <-; simpl; (eapply acc_ext; [exact Hr|]); intros k.
    + rewrite hold_set. unfold upd. case_decide; [|done]. simpl. f_equal. set_solver.
    + apply hold_del.
Qed.

(** The worker moves and holds the same hosts. *)
Lemma accounted_move s w : accounted_state on_host_up s → worker_hold w = worker_hold (worker s) → accounted_state on_host_up (set_worker w s).
Proof. intros Ha Hw. eapply acc_ext; [exact Ha|]. intros k. rewrite (hold_worker (worker s)). unfold upd. case_decide; [by subst k|done]. Qed.

(** The worker is gone: it held nothing, or is stopped. *)
Lemma accounted_gone s w : accounted_state on_host_up s → stopped s = true → worker_hold w = (∅, ∅) → accounted_state on_host_up (set_worker w s).
Proof.
  intros Ha Hst Hw. simpl. rewrite Hst in *. eapply acc_ext; [exact (acc_drop _ _ _ None Ha)|].
  intros k. by rewrite (hold_worker (worker s)), Hw.
Qed.

Definition worker_wf (w : worker_pos) : Prop := match w with WLinks _ _ h _ mine _ => h ∈ mine | _ => True end.

Lemma accounted_worker draw a s s' : numbered_state s → worker_wf (worker s) → accounted_state on_host_up s →
  act (AWorker draw a) s = Some s' → accounted_state on_host_up s' ∧ worker_wf (worker s').
Proof.
  intros Hn Hwf Ha Hs. unfold act, worker_step in Hs.
  assert (Hh : hold (worker s) (timers s) None = worker_hold (worker s)) by done.
  destruct (worker s) as [[|[i c] todo]|i c todo|i c [|h chosen] mine todo|i c h chosen mine todo|i mine todo|t i mine todo|] eqn:Ew;
    rewrite <- Ew in Ha; [| | | | | | | |done].
  - injection Hs as <-. split; [|done]. apply accounted_move; [done|by rewrite Ew].
  - injection Hs as <-. split; [|by repeat case_match]. apply accounted_move; [done|]. rewrite Ew. simpl. destruct (stopped s); [done|]. by destruct (invalid c).
  - destruct (stopped s) eqn:Est in Hs; [injection Hs as <-; split; [|done]; apply accounted_move; [exact Ha|by rewrite Ew]|].
    destruct (choose _ _ _ _ _ _ _) as [[| |l]|]; [injection Hs as <-..|done]; (split; [|done]; apply accounted_move; [exact Ha|by rewrite Ew]).
  - injection Hs as <-. split; [|by case_decide]. apply accounted_move; [done|]. rewrite Ew. simpl. case_decide; [by subst mine|done].
  - destruct (stopped s) eqn:Est in Hs; [injection Hs as <-; split; [|done]; by apply accounted_gone|].
    case_decide as Hd; injection Hs as <-; [split; [|done]; apply accounted_move; [exact Ha|by rewrite Ew]|]. split; [|simpl; set_solver].
    assert (Hm : h ∉ mine).
    { destruct Ha as [(d & _ & Ht) _]. pose proof (tidy_held _ _ _ Ht None) as Hm. rewrite Ew in Hm. simpl in Hm. set_solver. }
    simpl. eapply acc_ext; [by apply (acc_take _ _ _ _ None h Ha)|]. intros k. rewrite (hold_worker (worker s)).
    unfold upd. case_decide; [|done]. rewrite Ew. simpl. f_equal. set_solver.
  - simpl in Hwf. pose proof (acc_down _ _ _ _ None h a Ha) as Hr. rewrite Ew in Hr. simpl in Hr.
    specialize (Hr Hwf ltac:(set_solver)). simpl in Hs.
    destruct (down_result a); injection Hs as <-; (split; [|done]); simpl; (eapply acc_ext; [exact Hr|]); intros k;
      rewrite (hold_worker (WLinks i c h chosen mine todo)); unfold upd; (case_decide; [|done]); simpl; [|done].
    f_equal. apply set_eq. intros x. destruct (decide (x = h)); set_solver.
  - injection Hs as <-. split; [|done]. eapply acc_ext; [exact Ha|]. intros k. rewrite Ew. simpl. by destruct k.
  - injection Hs as <-. split; [|done]. rewrite <- Ew in Hn. destruct (num_start _ _ _ _ Hn t i mine todo Ew) as (Hnone & _ & _).
    simpl. pose proof (acc_pass _ _ _ _ None (Some t) Ha ltac:(done)) as Hp. simpl in Hp. rewrite Hnone in Hp. specialize (Hp eq_refl).
    eapply acc_ext; [exact Hp|]. intros k. rewrite (hold_worker (worker s)). unfold upd at 1. rewrite hold_set, Ew.
    unfold upd. simpl. repeat case_decide; try done; congruence.
Qed.

(** * Reachable states *)

Definition healthy (s : state) : Prop := numbered_state s ∧ worker_wf (worker s) ∧ accounted_state on_host_up s ∧
  down_hosts (flap s) = sorted_set (shared_down s).

Lemma reported_act x s s' : act x s = Some s' → down_hosts (flap s) = sorted_set (shared_down s) → down_hosts (flap s') = sorted_set (shared_down s').
Proof.
  destruct x as [|draw a|t order a cb]; [by intros [= <-]|..]; unfold act, worker_step, timer_step; cbv zeta; intros Hs Hf;
    by repeat (case_match; simplify_eq/=).
Qed.

Lemma healthy_act x s s' : healthy s → act x s = Some s' → healthy s'.
Proof.
  intros (Hn & Hwf & Ha & Hf) Hs. pose proof (reported_act _ _ _ Hs Hf) as Hf'. destruct x as [|draw a|t order a cb].
  - injection Hs as <-. split_and!; [done..| |done]. simpl. by eapply acc_stop.
  - pose proof (numbered_worker _ _ _ _ Hn Hs). by destruct (accounted_worker _ _ _ _ Hn Hwf Ha Hs).
  - pose proof (numbered_timer _ _ _ _ _ _ Hn Hs). pose proof (accounted_timer _ _ _ _ _ _ Hn Ha Hs). split_and!; [done| |done..].
    unfold act, timer_step in Hs. assert (worker s' = worker s) as ->; [|done]. by repeat (case_match; simplify_eq/=).
Qed.

Lemma healthy_start : healthy (start_state cycles).
Proof.
  split_and!; [|done| |done].
  - split; simpl; try done. rewrite fmap_imap. unfold compose. simpl. clear.
    assert (Hl : ∀ k (l : list cycle), NoDup (imap (λ i _, Z.of_nat (k + i)) l)); [|exact (Hl 0%nat cycles)].
    intros k l. revert k. induction l as [|c l IH]; intros k; simpl; [constructor|]. apply NoDup_cons. split.
    + intros (i & x & E & _)%elem_of_lookup_imap_1. unfold compose in E. lia.
    + eapply eq_ind; [apply (IH (S k))|]. apply imap_ext. intros i x _. simpl. f_equal. lia.
  - split.
    + assert (Hk : ∀ k, hold (worker (start_state cycles)) ∅ k = (∅, ∅)) by (intros [?|]; done).
      exists ∅. split; [done|]. split; intros; simpl timers; rewrite ?Hk; simpl; set_solver.
    + intros _ _ h Hh. set_solver.
Qed.

Lemma reachable_healthy s : reachable mode cycles host_count has_rng publisher_ids on_host_up sink s → healthy s.
Proof.
  unfold reachable. generalize healthy_start. generalize (start_state cycles). intros s0 H0 Hr.
  induction Hr as [|s0 s1 s2 [x Hx] _ IH]; [done|]. apply IH. by eapply healthy_act.
Qed.

(** * Who is taken down *)

(** Cycle [c] may take host [h] down. *)
Definition allowed (c : cycle) (h : Z) : Prop :=
  invalid c = false ∧ h ∉ exclude_list c ∧ (allow_publishers c = false → h ∉ publisher_ids) ∧
  match target_list c, mode with Some l, Manual => h ∈ l | _, _ => 0 ≤ h < host_count end.

Lemma elem_of_py_take {A} k (l : list A) x : x ∈ py_take k l → x ∈ l.
Proof. unfold py_take. case_decide; intros Hx; (eapply elem_of_submseteq; [done|]); apply sublist_submseteq, sublist_take. Qed.

Lemma length_py_take {A} k (l : list A) : (length (py_take k l) ≤ length l)%nat.
Proof. unfold py_take. case_decide; rewrite length_take; lia. Qed.

Lemma elem_of_list_filter (p : Z → bool) l x : x ∈ List.filter p l ↔ x ∈ l ∧ p x = true.
Proof. by rewrite !list_elem_of_In, filter_In. Qed.

Definition usable (c : cycle) (down : gset Z) (h : Z) : bool := bool_decide (h ∉ excluded publisher_ids c ∧ h ∉ down).

Lemma choose_cases c down draw l : choose mode host_count has_rng publisher_ids c down draw = Some (Chosen l) →
  (∃ targets, mode = Manual ∧ target_list c = Some targets ∧ l = List.filter (usable c down) targets) ∨
  ((mode ≠ Manual ∨ target_list c = None) ∧ (∀ h, h ∈ l → h ∈ List.filter (usable c down) (range host_count)) ∧
   (length l ≤ length (List.filter (usable c down) (range host_count)))%nat).
Proof.
  unfold choose. change (λ h, bool_decide (h ∉ excluded publisher_ids c ∧ h ∉ down)) with (usable c down).
  set (available := List.filter (usable c down) (range host_count)). intros Hch.
  assert (Htake : ∀ k, (∀ h, h ∈ py_take k available → h ∈ available) ∧ (length (py_take k available) ≤ length available)%nat).
  { intros k. split; [intros h; apply elem_of_py_take|apply length_py_take]. }
  assert (Hdraw : ∀ k, sample_of available k draw → k ≤ Z.of_nat (length available) →
    (∀ h, h ∈ draw → h ∈ available) ∧ (length draw ≤ length available)%nat).
  { intros k (Hk & _ & Hs) Hle. rewrite Forall_forall in Hs. split; [done|lia]. }
  destruct (target_list c) as [targets|]; destruct mode; try (injection Hch as <-; left; by eexists);
    right; (split; [by auto|]); destruct available as [|x rest] eqn:Ea; try discriminate Hch; rewrite <- Ea in *;
    try (injection Hch as <-; apply Htake).
  all: destruct has_rng; [|injection Hch as <-; apply Htake]; case_match; [discriminate Hch|].
  all: case_decide as Hs; [|discriminate Hch]; injection Hch as <-; apply (Hdraw _ Hs); lia.
Qed.

Lemma choose_allowed c down draw l : invalid c = false →
  choose mode host_count has_rng publisher_ids c down draw = Some (Chosen l) → ∀ h, h ∈ l → allowed c h.
Proof.
  intros Hc Hch h Hh.
  assert (Hf : ∀ targets, h ∈ List.filter (usable c down) targets →
    h ∈ targets ∧ h ∉ exclude_list c ∧ (allow_publishers c = false → h ∉ publisher_ids)).
  { intros targets [Hin Hd]%elem_of_list_filter. apply bool_decide_eq_true in Hd as [He _]. unfold excluded in He.
    apply not_elem_of_union in He as [He Hp]. rewrite elem_of_list_to_set in He. split_and!; [done..|].
    intros Ha. by rewrite Ha in Hp. }
  unfold allowed. apply choose_cases in Hch as [(targets & -> & -> & ->)|(Hm & Hl & _)].
  - by destruct (Hf _ Hh) as (? & ? & ?).
  - destruct (Hf _ (Hl h Hh)) as (Hr%elem_of_range & ? & ?). split_and!; [done..|].
    by destruct (target_list c), mode; destruct Hm.
Qed.

Definition worker_allowed (w : worker_pos) : Prop :=
  match w with
  | WCycles todo | WRegister _ _ todo | WStart _ _ _ todo => ∀ ic, ic ∈ todo → ic.2 ∈ cycles
  | WInterval _ c todo => c ∈ cycles ∧ invalid c = false ∧ ∀ ic, ic ∈ todo → ic.2 ∈ cycles
  | WVictims _ c chosen _ todo => c ∈ cycles ∧ (∀ h, h ∈ chosen → allowed c h) ∧ ∀ ic, ic ∈ todo → ic.2 ∈ cycles
  | WLinks _ c h chosen _ todo => c ∈ cycles ∧ (∀ h', h' ∈ h :: chosen → allowed c h') ∧ ∀ ic, ic ∈ todo → ic.2 ∈ cycles
  | WGone => True
  end.
Definition lawful (s : state) : Prop :=
  worker_allowed (worker s) ∧ ∀ h a, LinksDown h a ∈ calls s → ∃ c, c ∈ cycles ∧ allowed c h.

Lemma lawful_worker draw a s s' : lawful s → act (AWorker draw a) s = Some s' → lawful s'.
Proof.
  intros [Hw Hc] Hs. unfold act, worker_step in Hs.
  destruct (worker s) as [[|[i c] todo]|i c todo|i c [|h chosen] mine todo|i c h chosen mine todo|i mine todo|t i mine todo|] eqn:Ew;
    [| | | | | | | |done]; simpl in Hw.
  - by injection Hs as <-.
  - injection Hs as <-. split; [|done]. simpl. assert (Hic : c ∈ cycles) by (apply (Hw (i, c)); by left).
    assert (Ht : ∀ ic, ic ∈ todo → ic.2 ∈ cycles) by (intros ic ?; apply Hw; by right).
    destruct (stopped s); [done|]. by destruct (invalid c) eqn:?.
  - destruct Hw as (Hic & Hv & Ht). destruct (stopped s); [by injection Hs as <-|].
    destruct (choose _ _ _ _ _ _ _) as [[| |l]|] eqn:Ech; [injection Hs as <-..|done]; split; try done. simpl. split_and!; [done| |done].
    intros h Hh. by eapply choose_allowed.
  - injection Hs as <-. split; [|done]. destruct Hw as (_ & _ & Ht). simpl. by case_decide.
  - destruct Hw as (Hic & Hl & Ht). destruct (stopped s); [by injection Hs as <-|]. case_decide; injection Hs as <-; (split; [|done]); split_and!; try done.
    intros h' ?. apply Hl. by right.
  - destruct Hw as (Hic & Hl & Ht). simpl in Hs.
    assert (Hc' : ∀ h' a', LinksDown h' a' ∈ calls s ++ [LinksDown h a] → ∃ c, c ∈ cycles ∧ allowed c h').
    { intros h' a' [?|[= -> ->]%list_elem_of_singleton]%elem_of_app; [by eapply Hc|]. exists c. split; [done|]. apply Hl. by left. }
    destruct (down_result a); injection Hs as <-; (split; [|done]); [|done]. split_and!; [done| |done]. intros h' ?. apply Hl. by right.
  - by injection Hs as <-.
  - by injection Hs as <-.
Qed.

Lemma lawful_timer t order a cb s s' : lawful s → act (ATimer t order a cb) s = Some s' → lawful s'.
Proof.
  intros [Hw Hc] Hs. unfold act, timer_step in Hs. destruct (timers s !! t) as [[i d|i d [|h rest]]|] eqn:Et; [..|done].
  - destruct (stopped s); [by injection Hs as <-|]. repeat case_decide; try done; by injection Hs as <-.
  - by injection Hs as <-.
  - simpl in Hs. destruct (up_result on_host_up a cb); injection Hs as <-; (split; [done|]);
      intros h' a' [?|[=]%list_elem_of_singleton]%elem_of_app; by eapply Hc.
Qed.

Lemma reachable_lawful s : reachable mode cycles host_count has_rng publisher_ids on_host_up sink s → lawful s.
Proof.
  assert (H0 : lawful (start_state cycles)).
  { split; [|intros ? ? []%elem_of_nil]. intros ic (i & c & -> & Hic)%elem_of_lookup_imap_1. simpl. by eapply list_elem_of_lookup_2. }
  unfold reachable. revert H0. generalize (start_state cycles). intros s0 H0 Hr.
  induction Hr as [|s0 s1 s2 [x Hx] _ IH]; [done|]. apply IH. destruct x as [|draw a|t order a cb].
  - injection Hx as <-. exact H0.
  - by eapply lawful_worker.
  - by eapply lawful_timer.
Qed.

(** C22: the bookkeeping of failure injection in cycles, whatever order the worker,
    the timers and a stop run in. The reported down hosts are exactly the shared
    ones; for each host the link commands issued alternate between down and up, and
    one whose last command was down is reported; no host is held by two threads;
    and every host taken down is allowed by a configured cycle: not excluded, no
    publisher unless the cycle allows it, a target in manual mode and a host of the
    experiment otherwise. Under two conditions, that the run has not been stopped
    and that no exception has left the worker or a timer, every reported host is
    held by the worker or by a timer; without them hosts can stay down with nobody
    to bring them up ([stray_target_strands]). *)
Theorem cycle_hosts_accounted s : reachable mode cycles host_count has_rng publisher_ids on_host_up sink s →
  let held k h := h ∈ (hold (worker s) (timers s) k).1 in
  down_hosts (flap s) = sorted_set (shared_down s) ∧
  (∃ d, commanded_down (calls s) = Some d ∧ d ⊆ shared_down s) ∧
  (∀ h k k', held k h → held k' h → k = k') ∧
  (stopped s = false → forallb (λ c, negb (breaks on_host_up c)) (calls s) = true →
     ∀ h, h ∈ shared_down s ↔ ∃ k, held k h) ∧
  (∀ h a, LinksDown h a ∈ calls s → ∃ c, c ∈ cycles ∧ allowed c h).
Proof.
  intros Hr held. pose proof (reachable_lawful s Hr) as [_ Hl].
  destruct (reachable_healthy s Hr) as (_ & _ & [(d & Ed & Ht) Hc] & Hf). split_and!; [done| | | |done].
  - exists d. split; [done|by apply (tidy_down _ _ _ Ht)].
  - intros h k k' Hk Hk'. destruct (decide (k = k')) as [|Hne]; [done|]. by destruct (tidy_disjoint _ _ _ Ht k k' Hne h).
  - intros Hst Hb h. split; [by apply Hc|]. intros [k Hk]. by apply (tidy_held _ _ _ Ht k).
Qed.

(** * Every run ends *)

(** A bound on the victims of a cycle, and on the steps that are left. *)
Definition width (c : cycle) : nat := Nat.max (Z.to_nat host_count) (length (default [] (target_list c))).
Definition todo_cost (todo : list (Z * cycle)) : nat := 1 + sum_list ((λ ic, 3 * width ic.2 + 8)%nat <$> todo).
Definition worker_cost (w : worker_pos) : nat :=
  match w with
  | WCycles todo => todo_cost todo
  | WInterval _ c todo => todo_cost todo + 3 * width c + 7
  | WVictims _ _ chosen mine todo => todo_cost todo + 3 * length chosen + size mine + 6
  | WLinks _ _ _ chosen mine todo => todo_cost todo + 3 * length chosen + size mine + 7
  | WRegister _ mine todo => todo_cost todo + size mine + 5
  | WStart _ _ mine todo => todo_cost todo + size mine + 4
  | WGone => 0
  end.
Definition timer_cost (x : timer_pos) : nat := match x with TWaiting _ d => size d + 2 | TLoop _ _ rest => length rest + 1 end.
Definition timers_cost (tm : gmap nat timer_pos) : nat := map_fold (λ _ x n, timer_cost x + n)%nat 0%nat tm.
Definition cost (s : state) : nat := worker_cost (worker s) + timers_cost (timers s).

Lemma timers_cost_insert tm t x : tm !! t = None → timers_cost (<[t:=x]> tm) = (timer_cost x + timers_cost tm)%nat.
Proof. intros Ht. unfold timers_cost. apply (map_fold_insert_L (λ _ x n, timer_cost x + n)%nat); [intros; lia|done]. Qed.
Lemma timers_cost_delete tm t x : tm !! t = Some x → timers_cost tm = (timer_cost x + timers_cost (delete t tm))%nat.
Proof. intros Ht. rewrite <- (insert_delete_id tm t x) at 1 by done. apply timers_cost_insert, lookup_delete_eq. Qed.
Lemma timers_cost_update tm t x y : tm !! t = Some x → (timers_cost (<[t:=y]> tm) + timer_cost x = timers_cost tm + timer_cost y)%nat.
Proof.
  intros Ht. rewrite (timers_cost_delete tm t x Ht), <- insert_delete_eq, timers_cost_insert by apply lookup_delete_eq. lia.
Qed.

Lemma length_filter_bool (p : Z → bool) l : (length (List.filter p l) ≤ length l)%nat.
Proof. induction l as [|x l IH]; simpl; [lia|]. destruct (p x); simpl; lia. Qed.

Lemma choose_width c down draw l : choose mode host_count has_rng publisher_ids c down draw = Some (Chosen l) → (length l ≤ width c)%nat.
Proof.
  unfold width. intros [(targets & _ & -> & ->)|(_ & _ & Hl)]%choose_cases; simpl.
  - pose proof (length_filter_bool (usable c down) targets). lia.
  - pose proof (length_filter_bool (usable c down) (range host_count)) as Hav. unfold range in Hav at 2. rewrite length_seqZ in Hav. lia.
Qed.

Lemma size_insert_le h (m : gset Z) : (size ({[h]} ∪ m) ≤ S (size m))%nat.
Proof. rewrite size_union_alt, size_singleton. pose proof (subseteq_size (m ∖ {[h]}) m ltac:(set_solver)). lia. Qed.

Lemma todo_cost_cons i c todo : todo_cost ((i, c) :: todo) = (todo_cost todo + 3 * width c + 8)%nat.
Proof. unfold todo_cost. rewrite fmap_cons. simpl. lia. Qed.

Lemma worker_cost_step draw a s s' : numbered_state s → act (AWorker draw a) s = Some s' → (cost s' < cost s)%nat.
Proof.
  intros Hn Hs. unfold act, worker_step in Hs. unfold cost.
  destruct (worker s) as [[|[i c] todo]|i c todo|i c [|h chosen] mine todo|i c h chosen mine todo|i mine todo|t i mine todo|] eqn:Ew;
    [| | | | | | | |done].
  - injection Hs as <-. simpl. lia.
  - injection Hs as <-. change (worker_cost (WCycles ((i, c) :: todo))) with (todo_cost ((i, c) :: todo)). rewrite todo_cost_cons.
    cbn [worker timers set_worker]. destruct (stopped s); [|destruct (invalid c)]; cbn [worker_cost]; lia.
  - destruct (stopped s); [injection Hs as <-; simpl; lia|].
    destruct (choose _ _ _ _ _ _ _) as [[| |l]|] eqn:Ech; [injection Hs as <-..|done]; cbn [worker timers set_worker worker_cost]; try lia.
    pose proof (choose_width _ _ _ _ Ech). pose proof (size_empty (C := gset Z)). lia.
  - injection Hs as <-. simpl. case_decide; simpl; lia.
  - destruct (stopped s); [injection Hs as <-; simpl; lia|]. case_decide; injection Hs as <-; simpl; [lia|].
    pose proof (size_insert_le h mine). lia.
  - simpl in Hs. destruct (down_result a); injection Hs as <-; simpl; lia.
  - injection Hs as <-. simpl. lia.
  - injection Hs as <-. simpl. destruct (num_start _ _ _ _ Hn t i mine todo eq_refl) as (Hnone & _ & _).
    rewrite timers_cost_insert by done. simpl. lia.
Qed.

Lemma timer_cost_step t order a cb s s' : act (ATimer t order a cb) s = Some s' → (cost s' < cost s)%nat.
Proof.
  intros Hs. unfold act, timer_step in Hs. unfold cost. destruct (timers s !! t) as [x|] eqn:Et; [|done].
  pose proof (timers_cost_delete _ _ _ Et) as Hdel. pose proof (λ y, timers_cost_update _ _ _ y Et) as Hup.
  destruct x as [i d|i d [|h rest]]; simpl in *.
  - destruct (stopped s); [injection Hs as <-; simpl; lia|]. case_decide; [|injection Hs as <-; simpl; lia].
    case_decide as Ho; [|done]. injection Hs as <-. simpl. specialize (Hup (TLoop i d order)). simpl in Hup.
    apply Permutation_length in Ho. change (length (elements d)) with (size d) in Ho. lia.
  - injection Hs as <-. simpl. lia.
  - destruct (up_result on_host_up a cb); injection Hs as <-; simpl; [|lia]. specialize (Hup (TLoop i d rest)). simpl in Hup. lia.
Qed.

(** A run: the actions one after the other. *)
Fixpoint run (l : list action) (s : state) : option state :=
  match l with [] => Some s | x :: l => s' ← act x s; run l s' end.

Lemma run_reachable l s s' : run l s = Some s' → rtc (step mode host_count has_rng publisher_ids on_host_up sink) s s'.
Proof.
  revert s. induction l as [|x l IH]; intros s; simpl; [by intros [= ->]|].
  intros (s1 & Hx & Hr)%bind_Some. eapply rtc_l; [by exists x|auto].
Qed.

Definition is_stop (x : action) : bool := match x with AStop => true | _ => false end.

Lemma run_cost l s s' : healthy s → run l s = Some s' → (length (List.filter (λ x, negb (is_stop x)) l) + cost s' ≤ cost s)%nat.
Proof.
  revert s. induction l as [|x l IH]; intros s Hh; simpl; [intros [= ->]; lia|].
  intros (s1 & Hx & Hr)%bind_Some. specialize (IH s1 (healthy_act _ _ _ Hh Hx) Hr).
  destruct x as [|draw a|t order a cb]; simpl.
  - injection Hx as <-. exact IH.
  - pose proof (worker_cost_step _ _ _ _ (proj1 Hh) Hx). lia.
  - pose proof (timer_cost_step _ _ _ _ _ _ Hx). lia.
Qed.

Lemma run_not_stopped l s s' : forallb (λ x, negb (is_stop x)) l = true → run l s = Some s' → stopped s' = stopped s.
Proof.
  revert s. induction l as [|x l IH]; intros s; simpl; [by intros _ [= ->]|].
  intros [Hx Hl]%andb_prop (s1 & Ha & Hr)%bind_Some. rewrite (IH s1 Hl Hr). clear -Hx Ha.
  destruct x as [|draw a|t order a cb]; [done|..]; unfold act, worker_step, timer_step in Ha; cbv zeta in Ha;
    by repeat (case_match; simplify_eq/=).
Qed.

(** A thread that is there can take its next step. *)
Lemma sample_take (l : list Z) k : NoDup l → (k <? 0) = false → k ≤ Z.of_nat (length l) → sample_of l k (take (Z.to_nat k) l).
Proof.
  intros Hnd Hk%Z.ltb_ge Hl. split_and!.
  - rewrite length_take. lia.
  - by apply NoDup_take.
  - rewrite Forall_forall. intros h Hh. by apply elem_of_take in Hh as (i & Hi%list_elem_of_lookup_2 & _).
Qed.

Lemma choose_answers c down : ∃ draw, is_Some (choose mode host_count has_rng publisher_ids c down draw).
Proof.
  unfold choose. set (available := List.filter _ (range host_count)).
  assert (Hnd : NoDup available) by (apply NoDup_ListNoDup, List.NoDup_filter, NoDup_ListNoDup, NoDup_range).
  clearbody available. exists (take (Z.to_nat (Z.min (count c) (Z.of_nat (length available)))) available).
  destruct (target_list c), mode, available, has_rng; try by eexists.
  all: match goal with |- context [?x <? 0] => destruct (x <? 0) eqn:Ek end; [by eexists|].
  all: rewrite decide_True by (apply sample_take; [done..|lia]); by eexists.
Qed.

Lemma worker_idle s : (∀ draw a, act (AWorker draw a) s = None) → worker s = WGone.
Proof.
  intros Hw. destruct (choose_answers (match worker s with WInterval _ c _ => c | _ => mkCycle 0 0 0 0 [] None false end) (shared_down s)) as [draw [v Hv]].
  specialize (Hw draw Returned). unfold act, worker_step in Hw.
  destruct (worker s) as [[|[i c] todo]|i c todo|i c [|h chosen] mine todo|i c h chosen mine todo|i mine todo|t i mine todo|];
    simpl in *; rewrite ?Hv in Hw; repeat case_match; done.
Qed.

Lemma timer_enabled s t : is_Some (timers s !! t) → ∃ order, is_Some (act (ATimer t order Returned CbReturned) s).
Proof.
  intros [x Hx]. unfold act, timer_step. rewrite Hx. destruct x as [i d|i d [|h rest]].
  - exists (elements d). rewrite (decide_True (P := elements d ≡ₚ elements d)) by done. destruct (stopped s); [|case_decide]; by eexists.
  - exists []. by eexists.
  - exists []. simpl. destruct on_host_up; by eexists.
Qed.

Lemma cost_start : cost (start_state cycles) = todo_cost (imap (λ i c, (Z.of_nat i, c)) cycles).
Proof. unfold cost, timers_cost. cbn [worker timers start_state worker_cost]. rewrite map_fold_empty. lia. Qed.

(** When every host was commanded up last, the outcomes of these commands decide. *)
Lemma all_up_links h l : commanded_down l = Some ∅ →
  h ∈ links_down l ↔ ∃ h' a cb, last_call h l = Some (LinksUp h' a cb) ∧ returned a = false.
Proof.
  intros Hl%(last_call_links h). destruct (last_call h l) as [[h' a|h' a cb]|]; [set_solver| |].
  - destruct Hl as [_ ->]. split; [by eauto|]. by intros (? & ? & ? & [= -> -> ->] & ?).
  - split; [set_solver|]. by intros (? & ? & ? & ? & ?).
Qed.
Lemma last_call_in h l c : last_call h l = Some c → c ∈ l.
Proof.
  unfold last_call. induction l as [|c' l IH] using rev_ind; [done|]. rewrite foldl_app. simpl.
  case_decide; rewrite elem_of_app; [intros [= ->]; right; by left|auto].
Qed.
Lemma all_up_returned l : commanded_down l = Some ∅ → (∀ h a cb, LinksUp h a cb ∈ l → returned a = true) → links_down l = ∅.
Proof.
  intros Hl Ha. apply set_eq. intros h. split; [|set_solver]. rewrite all_up_links by done.
  intros (h' & a & cb & E%last_call_in & Hr). by rewrite (Ha _ _ _ E) in Hr.
Qed.

(** C23: failure injection in cycles ends. Any run of its threads takes at most the
    stated number of steps, whatever the commands answer and whenever it is stopped.
    When it is not stopped, no exception leaves a thread and no thread has a step
    left, then no host is reported down, every host that was commanded down was
    commanded up after that, and the hosts whose links may still be down are exactly
    those whose last command up was refused; so every host is up when no command up
    was refused. *)
Theorem cycles_recover l s : run l (start_state cycles) = Some s →
  (length (List.filter (λ x, negb (is_stop x)) l) ≤ todo_cost (imap (λ i c, (Z.of_nat i, c)) cycles))%nat ∧
  (forallb (λ x, negb (is_stop x)) l = true → forallb (λ c, negb (breaks on_host_up c)) (calls s) = true →
   (∀ x, is_stop x = false → act x s = None) →
   shared_down s = ∅ ∧ down_hosts (flap s) = [] ∧ commanded_down (calls s) = Some ∅ ∧
   (∀ h, h ∈ links_down (calls s) ↔ ∃ h' a cb, last_call h (calls s) = Some (LinksUp h' a cb) ∧ returned a = false) ∧
   ((∀ h a cb, LinksUp h a cb ∈ calls s → returned a = true) → links_down (calls s) = ∅)).
Proof.
  intros Hr. pose proof (run_cost _ _ _ healthy_start Hr) as Hc. split; [rewrite cost_start in Hc; lia|].
  intros Hns Hb Hq. assert (Hw : worker s = WGone).
  { apply worker_idle. intros draw a. by apply Hq. }
  assert (Ht : timers s = ∅).
  { apply map_empty. intros t. destruct (timers s !! t) eqn:E; [|done].
    destruct (timer_enabled s t) as (order & [s' Hs']); [by rewrite E|]. by rewrite Hq in Hs'. }
  destruct (reachable_healthy s (run_reachable _ _ _ Hr)) as (_ & _ & [(d & Ed & Htidy) Hcov] & Hf).
  assert (Hempty : shared_down s = ∅).
  { apply set_eq. intros h. split; [|set_solver]. intros Hh.
    destruct (Hcov ltac:(by rewrite (run_not_stopped _ _ _ Hns Hr)) Hb h Hh) as [k Hk]. rewrite Hw, Ht in Hk. destruct k; set_solver. }
  assert (Hcmd : commanded_down (calls s) = Some ∅) by (rewrite Ed; f_equal; pose proof (tidy_down _ _ _ Htidy); set_solver).
  split_and!; [done|by rewrite Hf, Hempty|done|intros h; by apply all_up_links|by apply all_up_returned].
Qed.
End cycle_lemmas.

(** * An accepted configuration can be read *)

Lemma as_ints_ok v : int_list v = true → is_Some (as_ints v).
Proof.
  destruct v as [| | | | |l|]; try done. simpl. intros Hl. apply mapM_is_Some. apply Forall_forall. intros v Hv.
  rewrite List.forallb_forall in Hl. specialize (Hl v ltac:(by apply list_elem_of_In)). destruct v; try done. by eexists.
Qed.

Lemma in_list_bind {A} (f : A → list string) l x : (l ≫= f) = [] → x ∈ l → f x = [].
Proof. rewrite bind_nil. auto. Qed.

Lemma accepted_times prefix d target allow ta aa : validate_flap_descriptor prefix d ta aa = [] →
  ∃ c, read_times d target allow = Some c ∧ 0 ≤ count c ∧ target_list c = target ∧ allow_publishers c = allow.
Proof.
  unfold validate_flap_descriptor. rewrite !app_nil. intros (Hnull & Hnum & Hex & _).
  assert (Hf : ∀ k v, k ∈ ["interval"; "duration"; "count"; "stagger"] → dget d k = Some v → is_none v = false → ∃ z, v = PInt z ∧ 0 ≤ z).
  { intros k v Hk Hv Hn. pose proof (in_list_bind _ _ k Hnum Hk) as Hc. rewrite opt_nil in Hc. specialize (Hc v Hv). simpl in Hc.
    rewrite Hn in Hc. destruct (is_int v) eqn:Ei; [|done]. destruct v; try done. exists z. split; [done|].
    apply when_nil in Hc. rewrite num_lt_int, Z.ltb_ge in Hc. done. }
  assert (Hint : ∀ k z, k ∈ ["interval"; "duration"] → is_Some (int_field d k z)).
  { intros k z Hk. unfold int_field. destruct (dget d k) as [v|] eqn:Ev; [|by eexists].
    pose proof (in_list_bind _ _ k Hnull Hk) as Hc. rewrite opt_nil in Hc. specialize (Hc v Ev). apply when_nil in Hc.
    destruct (Hf k v ltac:(set_solver) Ev Hc) as (z' & -> & _). by eexists. }
  assert (Hopt : ∀ k z, k ∈ ["count"; "stagger"] → 0 ≤ z → ∃ z', int_or_null d k z = Some z' ∧ 0 ≤ z').
  { intros k z Hk Hz. unfold int_or_null. destruct (dget d k) as [v|] eqn:Ev; [|by exists z].
    destruct (is_none v) eqn:En; [destruct v; try done; by exists z|].
    destruct (Hf k v ltac:(set_solver) Ev En) as (z' & -> & ?). by exists z'. }
  unfold read_times. destruct (Hint "interval" 30 ltac:(set_solver)) as [i ->]. destruct (Hint "duration" 10 ltac:(set_solver)) as [du ->].
  destruct (Hopt "count" 2 ltac:(set_solver) ltac:(done)) as (co & -> & Hco). destruct (Hopt "stagger" 0 ltac:(set_solver) ltac:(done)) as (sg & -> & _).
  assert (is_Some (exclude_field d)) as [ex ->].
  { unfold exclude_field. unfold check_some in Hex. rewrite opt_nil in Hex. destruct (dget d "exclude") as [v|]; [|by eexists].
    specialize (Hex v eq_refl). apply when_nil in Hex. destruct (is_none v) eqn:En; [destruct v; try done; by eexists|].
    simpl in Hex. apply negb_false_iff, as_ints_ok in Hex. by destruct v. }
  simpl. by eexists.
Qed.

Lemma accepted_cycle prefix d : validate_flap_descriptor prefix d true true = [] → ∃ c, read_cycle d = Some c ∧ 0 ≤ count c.
Proof.
  intros Hd. unfold read_cycle. pose proof Hd as Hd'. unfold validate_flap_descriptor in Hd'. rewrite !app_nil in Hd'.
  destruct Hd' as (_ & _ & _ & Ht & Ha). unfold check_some in Ht, Ha. rewrite opt_nil in Ht, Ha.
  assert (is_Some (target_field d)) as [target ->].
  { unfold target_field. destruct (dget d "target") as [v|]; [|by eexists]. specialize (Ht v eq_refl). apply when_nil in Ht.
    destruct (is_none v) eqn:En; [destruct v; try done; by eexists|]. simpl in Ht. apply negb_false_iff, as_ints_ok in Ht.
    destruct Ht as [l Hl]. destruct v; try done; rewrite Hl; by eexists. }
  assert (is_Some (allow_field d)) as [allow ->].
  { unfold allow_field. destruct (dget d "allow_publishers") as [v|]; [|by eexists]. specialize (Ha v eq_refl). apply when_nil in Ha.
    destruct v; try done; by eexists. }
  simpl. destruct (accepted_times _ _ target allow _ _ Hd) as (c & -> & Hc & _). by exists c.
Qed.

(** Whatever the validator accepts, [start] reads without error: nothing, the
    simple mode, or cycles whose counts [rng.sample] can draw. *)
Lemma accepted_start `{FloatRepr} config fs : validate_failure_scenarios config = [] → dget config "failure_scenarios" = Some (PDict fs) →
  ∃ st, manager_start fs = Some st ∧
    match st with
    | NoFlapping => eq_str (get_or fs "strategy" (PStr "simple")) "simple" = true
    | SimpleMode c => invalid c = false ∧ 0 ≤ count c
    | CycleMode s cycles => strategy_of (get_or fs "strategy" (PStr "simple")) = Some s ∧ cycles ≠ [] ∧ Forall (λ c, 0 ≤ count c) cycles
    end.
Proof.
  unfold validate_failure_scenarios. rewrite opt_nil. intros Hv Hfs. specialize (Hv _ Hfs). cbv beta iota zeta in Hv.
  apply app_nil in Hv as [Hst Hv]. apply when_nil, negb_false_iff, in_strs_true in Hst as (st & Hin & Hst).
  unfold manager_start. destruct (eq_str _ "simple") eqn:Es.
  - unfold start_simple. destruct (get_none fs "simple") as [| | | | | |simple]; try done. destruct simple as [|kv simple]; [by eexists|].
    destruct (accepted_times _ _ None false _ _ Hv) as (c & -> & Hc & _). simpl. destruct (invalid c) eqn:Ei; by eexists.
  - assert (Hs : ∃ s, strategy_of (get_or fs "strategy" (PStr "simple")) = Some s).
    { rewrite Hst in Es |- *. unfold failure_strategies in Hin.
      repeat (apply elem_of_cons in Hin as [-> |Hin]; [try done; by eexists|]). by apply elem_of_nil in Hin. }
    destruct Hs as [s Hs]. rewrite Hs. unfold start_cycles.
    assert (Hg : get_or fs "cycles" (PList []) = match dget fs "cycles" with Some v => v | None => PList [] end) by done.
    unfold get_none in Hv. rewrite Hg. destruct (dget fs "cycles") as [v|]; [|done]. simpl in Hv.
    destruct v as [| | | | |l|]; try done. destruct l as [|v l]; [done|]. rewrite for_idx_nil in Hv.
    set (read := λ v, match v with PDict c => read_cycle c | _ => None end).
    assert (Hr : ∀ l, (∀ v, v ∈ l → ∃ c, read v = Some c ∧ 0 ≤ count c) → ∃ cs, mapM read l = Some cs ∧ length cs = length l ∧ Forall (λ c, 0 ≤ count c) cs).
    { clear. induction l as [|v l IH]; intros Hl; [by exists []|]. destruct (Hl v ltac:(by left)) as (c & Hc & Hn).
      destruct IH as (cs & Hcs & Hlen & Hall); [intros; apply Hl; by right|]. exists (c :: cs). simpl. rewrite Hc. simpl. rewrite Hcs. simpl.
      split_and!; [done|by rewrite Hlen|by constructor]. }
    destruct (Hr (v :: l)) as (cs & Hcs & Hlen & Hall).
    { intros x (i & Hi)%list_elem_of_lookup. specialize (Hv i x Hi). destruct x; try done. simpl. by eapply accepted_cycle. }
    rewrite Hcs. simpl. eexists. split; [done|]. split_and!; [done| |done]. by destruct cs.
Qed.

(** * Examples *)

Definition demo_cycles : list cycle := [mkCycle 5 1 1 0 [] (Some [1; 0]) false].
Notation demo_run := (run Manual 3 true {[0]} true true).
Notation demo_reachable := (reachable Manual demo_cycles 3 true {[0]} true true).
Definition worker_steps (n : nat) : list action := repeat (AWorker [] Returned) n.
Definition demo_actions_with (up : attempt) : list action :=
  worker_steps 8 ++ [ATimer 0 [1] Returned CbReturned; ATimer 0 [] up CbReturned; ATimer 0 [] Returned CbReturned].
Notation demo_actions := (demo_actions_with (Refused "busy")).

(** Host 0 publishes and is left out; host 1 is taken down, and its timer waits. *)
Lemma cycle_hosts_accounted_witness : ∃ s, demo_reachable s ∧ down_hosts (flap s) = [1] ∧ ∃ k, 1 ∈ (hold (worker s) (timers s) k).1.
Proof.
  assert (Hr : match demo_run (worker_steps 8) (start_state demo_cycles) with
    Some s => down_hosts (flap s) = [1] ∧ stopped s = false ∧ forallb (λ c, negb (breaks true c)) (calls s) = true | None => False end)
    by (vm_compute; done).
  destruct (demo_run (worker_steps 8) (start_state demo_cycles)) as [s|] eqn:E; [|done]. exists s. destruct Hr as (Hd & Hst & Hb).
  assert (Hs : demo_reachable s) by exact (run_reachable _ _ _ _ _ _ _ _ _ E). split; [exact Hs|]. split; [exact Hd|].
  destruct (cycle_hosts_accounted Manual demo_cycles 3 true {[0]} true true s Hs) as (Hf & _ & _ & Hc & _).
  apply (Hc Hst Hb 1). apply elem_of_sorted_set. rewrite <- Hf, Hd. by left.
Defined.

(** Bringing the host up is refused: it is reported up all the same, and its links
    may be down. *)
Example refused_up_stays_down : match demo_run demo_actions (start_state demo_cycles) with
  Some s => down_hosts (flap s) = [] ∧ elements (links_down (calls s)) = [1] | None => False end.
Proof. vm_compute. done. Qed.

(** Here it returns, and every host is up. *)
Lemma cycles_recover_witness : ∃ s, demo_run (demo_actions_with Returned) (start_state demo_cycles) = Some s ∧
  shared_down s = ∅ ∧ links_down (calls s) = ∅.
Proof.
  assert (Hr : match demo_run (demo_actions_with Returned) (start_state demo_cycles) with
    Some s => match worker s with WGone => True | _ => False end ∧ map_to_list (timers s) = [] ∧
      forallb (λ c, negb (breaks true c)) (calls s) = true ∧ calls s = [LinksDown 1 Returned; LinksUp 1 Returned CbReturned]
    | None => False end) by (vm_compute; done).
  destruct (demo_run (demo_actions_with Returned) (start_state demo_cycles)) as [s|] eqn:E; [|done]. exists s. destruct Hr as (Hw & Ht & Hb & Hcs).
  destruct (cycles_recover Manual demo_cycles 3 true {[0]} true true (demo_actions_with Returned) s E) as [_ Hrec].
  destruct (Hrec eq_refl Hb) as (Hd & _ & _ & _ & Hup).
  2: { split_and!; [done..|]. apply Hup. intros h a cb. rewrite Hcs. rewrite !elem_of_cons. by intros [[=]|[[= -> -> ->]|[]%elem_of_nil]]. }
  intros [|draw a|t order a cb] Hx; [done|..]; unfold act, worker_step, timer_step.
  - by destruct (worker s).
  - apply map_to_list_empty_iff in Ht. by rewrite Ht, lookup_empty.
Defined.

(** A target that is no host of the experiment passes validation; [net.get] raises
    KeyError for it, the worker dies, and the host it took down before stays down
    for good: nothing holds it, and the cycle after is never run. *)
Definition stray_config : pydict :=
  [(PStr "failure_scenarios", PDict
    [(PStr "strategy", PStr "manual");
     (PStr "cycles", PList [PDict [(PStr "target", PList [PInt 1; PInt 99])]; PDict [(PStr "target", PList [PInt 2])]])])].
Example stray_target_strands `{FloatRepr} : validate_failure_scenarios stray_config = [] ∧
  match get_none stray_config "failure_scenarios" with
  | PDict fs =>
      match manager_start fs with
      | Some (CycleMode mode cycles) =>
          match run mode 3 true ∅ true true (worker_steps 5 ++ [AWorker [] Crashed]) (start_state cycles) with
          | Some s => match worker s with WGone => True | _ => False end ∧ map_to_list (timers s) = [] ∧ down_hosts (flap s) = [1; 99] ∧ stopped s = false
          | None => False
          end
      | _ => False
      end
  | _ => False
  end.
Proof. vm_compute. done. Qed.
