(* ===== verification/HostFlap.v ===== *)
(** Component: periodic host flapping (src/runtime/failure_manager.py,
    periodic_host_flap): the worker that takes hosts down and a timer per host
    that brings it back, over a set they share without a lock. *)
From S2P Require Import Prelude FailureCycles.
Local Open Scope Z_scope.

Section flapping.
Context (host_num down_count : Z) (exclude : gset Z) (has_rng on_host_up sink : bool).

Definition host_ids : list Z := List.filter (λ h, bool_decide (h ∉ exclude)) (range host_num).

(** [chosen] without a generator: the next [count] of the available hosts, round
    and round. *)
Definition rotate (position : Z) (available : list Z) (count : Z) : list Z :=
  omap (λ offset, available !! Z.to_nat ((position + offset) `mod` Z.of_nat (length available))) (range count).

(** The victims of a round and the next position; [draw] answers [rng.sample], and
    the outer [None] is an answer it does not give. *)
Definition choose_round (active : gset Z) (position : Z) (draw : list Z) : option (victims * Z) :=
  match List.filter (λ h, bool_decide (h ∉ active)) host_ids with
  | [] => Some (NoHosts, position)
  | (_ :: _) as available =>
      let count := Z.min down_count (Z.of_nat (length available)) in
      if has_rng then
        if count <? 0 then Some (SampleRaises, position)
        else if decide (sample_of available count draw) then Some (Chosen draw, position) else None
      else Some (Chosen (rotate position available count), position + count)
  end.

(** Where the worker is: at the head of the loop, waiting, going over its victims,
    about to report one, to set its links down, to start its timer, or gone. *)
Inductive flap_worker :=
  | FHead
  | FWait
  | FVictims (chosen : list Z)
  | FReport (h : Z) (chosen : list Z)
  | FLinks (h : Z) (chosen : list Z)
  | FTimer (h : Z) (chosen : list Z)
  | FGone.

(** A timer: waiting, about to discard its host, about to report. *)
Inductive flap_timer := UWaiting (h : Z) | UDiscard (h : Z) | UReport.

Record flapping := mkFlapping {
  f_stopped : bool;
  active_down : gset Z;
  position : Z;
  f_flap : FlapState;
  f_worker : flap_worker;
  f_timers : gmap nat flap_timer;
  f_next : nat;
  f_calls : list call;
  f_records : list flap_record;
}.

Definition put_worker (w : flap_worker) (s : flapping) : flapping :=
  mkFlapping (f_stopped s) (active_down s) (position s) (f_flap s) w (f_timers s) (f_next s) (f_calls s) (f_records s).
Definition put_timers (m : gmap nat flap_timer) (s : flapping) : flapping :=
  mkFlapping (f_stopped s) (active_down s) (position s) (f_flap s) (f_worker s) m (f_next s) (f_calls s) (f_records s).
Definition put_active (d : gset Z) (s : flapping) : flapping :=
  mkFlapping (f_stopped s) d (position s) (f_flap s) (f_worker s) (f_timers s) (f_next s) (f_calls s) (f_records s).
Definition put_position (p : Z) (s : flapping) : flapping :=
  mkFlapping (f_stopped s) (active_down s) p (f_flap s) (f_worker s) (f_timers s) (f_next s) (f_calls s) (f_records s).
Definition put_stopped (s : flapping) : flapping :=
  mkFlapping true (active_down s) (position s) (f_flap s) (f_worker s) (f_timers s) (f_next s) (f_calls s) (f_records s).
(** [update_state]. *)
Definition update_state (last_down : option Z) (s : flapping) : flapping :=
  mkFlapping (f_stopped s) (active_down s) (position s) (flap_update (active_down s) last_down (f_flap s)) (f_worker s) (f_timers s)
    (f_next s) (f_calls s) (f_records s).
Definition start_timer (h : Z) (s : flapping) : flapping :=
  mkFlapping (f_stopped s) (active_down s) (position s) (f_flap s) (f_worker s) (<[f_next s := UWaiting h]> (f_timers s)) (S (f_next s))
    (f_calls s) (f_records s).
(** A command on the links of a host and, when its outcome is caught, its record. *)
Definition link_call (c : call) (event_type : string) (h : Z) (r : option (bool * option string)) (s : flapping) : flapping :=
  mkFlapping (f_stopped s) (active_down s) (position s) (f_flap s) (f_worker s) (f_timers s) (f_next s) (f_calls s ++ [c])
    (match r with Some r => record_flap sink event_type h r (f_records s) | None => f_records s end).

(** No thread is started without hosts to take down. *)
Definition start_flapping : flapping :=
  mkFlapping false ∅ 0 FlapState_init (match host_ids with [] => FGone | _ => FHead end) ∅ 0 [] [].

(** A step of [worker]. *)
Definition flap_worker_step (draw : list Z) (a : attempt) (s : flapping) : option flapping :=
  match f_worker s with
  | FHead =>
      if f_stopped s then Some (put_worker FGone s)
      else
        match choose_round (active_down s) (position s) draw with
        | None => None
        | Some (NoHosts, _) => Some (put_worker FWait s)
        | Some (SampleRaises, _) => Some (put_worker FGone s)
        | Some (Chosen chosen, p) => Some (put_worker (FVictims chosen) (put_position p s))
        end
  | FWait => Some (put_worker FHead s)
  | FVictims [] => Some (put_worker FWait s)
  | FVictims (h :: chosen) =>
      if f_stopped s then Some (put_worker FGone s)
      else Some (put_worker (FReport h chosen) (put_active ({[h]} ∪ active_down s) s))
  | FReport h chosen => Some (put_worker (FLinks h chosen) (update_state (Some h) s))
  | FLinks h chosen =>
      let s := link_call (LinksDown h a) "host_down" h (down_result a) s in
      Some (put_worker (if down_result a then FTimer h chosen else FGone) s)
  | FTimer h chosen => Some (put_worker (FVictims chosen) (start_timer h s))
  | FGone => None
  end.

(** A step of [do_up]. *)
Definition flap_timer_step (t : nat) (a : attempt) (cb : callback) (s : flapping) : option flapping :=
  match f_timers s !! t with
  | None => None
  | Some (UWaiting h) =>
      if f_stopped s then Some (put_timers (delete t (f_timers s)) s)
      else
        let s := link_call (LinksUp h a cb) "host_up" h (up_result on_host_up a cb) s in
        Some (put_timers (if up_result on_host_up a cb then <[t := UDiscard h]> (f_timers s) else delete t (f_timers s)) s)
  | Some (UDiscard h) => Some (put_timers (<[t := UReport]> (f_timers s)) (put_active (active_down s ∖ {[h]}) s))
  | Some UReport => Some (put_timers (delete t (f_timers s)) (update_state None s))
  end.

Inductive flap_action := FStop | FWorker (draw : list Z) (a : attempt) | FTimerStep (t : nat) (a : attempt) (cb : callback).
Definition flap_act (x : flap_action) (s : flapping) : option flapping :=
  match x with
  | FStop => Some (put_stopped s)
  | FWorker draw a => flap_worker_step draw a s
  | FTimerStep t a cb => flap_timer_step t a cb s
  end.
Definition flap_step (s s' : flapping) : Prop := ∃ x, flap_act x s = Some s'.
Definition flap_reachable (s : flapping) : Prop := rtc flap_step start_flapping s.
End flapping.

(** * Lists of victims *)

Lemma NoDup_omap {A B} (f : A → option B) l : NoDup l → (∀ x y z, x ∈ l → y ∈ l → f x = Some z → f y = Some z → x = y) → NoDup (omap f l).
Proof.
  induction l as [|x l IH]; intros Hnd Hinj; [constructor|]. apply NoDup_cons in Hnd as [Hx Hnd]. simpl.
  assert (IHl : NoDup (omap f l)) by (apply IH; [done|]; intros ? ? ? ? ?; apply Hinj; by right).
  destruct (f x) as [z|] eqn:Ez; [|done]. apply NoDup_cons. split; [|done]. intros (y & Hy & Ey)%list_elem_of_omap.
  apply Hx. by rewrite (Hinj x y z ltac:(by left) ltac:(by right) Ez Ey).
Qed.

Lemma rotate_NoDup p l n : NoDup l → n ≤ Z.of_nat (length l) → NoDup (rotate p l n).
Proof.
  intros Hnd Hn. apply NoDup_omap; [apply NoDup_range|]. intros x y z Hx%elem_of_range Hy%elem_of_range Ex Ey.
  set (m := Z.of_nat (length l)) in *.
  pose proof (NoDup_lookup _ _ _ _ Hnd Ex Ey) as E. pose proof (Z.mod_pos_bound (p + x) m ltac:(lia)). pose proof (Z.mod_pos_bound (p + y) m ltac:(lia)).
  assert (Hm : (p + x) `mod` m = (p + y) `mod` m) by lia.
  pose proof (Z.div_mod (p + x) m ltac:(lia)). pose proof (Z.div_mod (p + y) m ltac:(lia)).
  assert (Hq : (p + x) `div` m = (p + y) `div` m); [|nia]. clear E Ex Ey. nia.
Qed.

Lemma elem_of_rotate p l n h : h ∈ rotate p l n → h ∈ l.
Proof. intros (o & _ & Ho)%list_elem_of_omap. by eapply list_elem_of_lookup_2. Qed.

Section flap_lemmas.
Context (host_num down_count : Z) (exclude : gset Z) (has_rng on_host_up sink : bool).
Notation flap_act := (flap_act host_num down_count exclude has_rng on_host_up sink).
Notation host_ids := (host_ids host_num exclude).

Lemma elem_of_host_ids h : h ∈ host_ids ↔ 0 ≤ h < host_num ∧ h ∉ exclude.
Proof. unfold HostFlap.host_ids. rewrite elem_of_list_filter, elem_of_range, bool_decide_eq_true. done. Qed.

(** The victims of a round are distinct hosts that are up. *)
Definition fresh_victims (active : gset Z) (l : list Z) : Prop := NoDup l ∧ ∀ h, h ∈ l → h ∈ host_ids ∧ h ∉ active.

Lemma choose_round_fresh active p draw l p' : choose_round host_num down_count exclude has_rng active p draw = Some (Chosen l, p') →
  fresh_victims active l.
Proof.
  unfold choose_round. set (available := List.filter _ host_ids). intros Hch.
  assert (Hnd : NoDup available) by (unfold available, HostFlap.host_ids; apply NoDup_ListNoDup, List.NoDup_filter, List.NoDup_filter, NoDup_ListNoDup, NoDup_range).
  assert (Hin : ∀ h, h ∈ available → h ∈ host_ids ∧ h ∉ active).
  { intros h [Hh Ha]%elem_of_list_filter. by rewrite bool_decide_eq_true in Ha. }
  clearbody available. destruct available as [|x rest] eqn:Ea; [done|]. rewrite <- Ea in *. destruct has_rng.
  - case_match; [done|]. case_decide as Hs; [|done]. injection Hch as <- _. destruct Hs as (_ & Hnd' & Hl).
    rewrite Forall_forall in Hl. split; [done|]. auto.
  - injection Hch as <- _. split; [apply rotate_NoDup; [done|lia]|]. intros h Hh%elem_of_rotate. auto.
Qed.

(** * The invariant *)

Definition flap_worker_hold (w : flap_worker) : gset Z * gset Z :=
  match w with FReport h _ | FLinks h _ => ({[h]}, ∅) | FTimer h _ => ({[h]}, {[h]}) | _ => (∅, ∅) end.
Definition flap_timer_hold (x : flap_timer) : gset Z * gset Z :=
  match x with UWaiting h => ({[h]}, {[h]}) | UDiscard h => ({[h]}, ∅) | UReport => (∅, ∅) end.
Definition flap_hold (w : flap_worker) (tm : gmap nat flap_timer) : holders := λ k,
  match k with None => flap_worker_hold w | Some t => from_option flap_timer_hold (∅, ∅) (tm !! t) end.

Definition worker_fresh (active : gset Z) (w : flap_worker) : Prop :=
  match w with
  | FVictims l => fresh_victims active l
  | FReport h l | FLinks h l | FTimer h l => h ∈ host_ids ∧ fresh_victims active l
  | _ => True
  end.

(** A thread has changed the set and not reported it yet. *)
Definition report_pending (s : flapping) : Prop :=
  match f_worker s with FReport _ _ => True | _ => False end ∨ ∃ t, f_timers s !! t = Some UReport.

Record flap_inv (s : flapping) : Prop := {
  fi_accounted : accounted on_host_up (f_stopped s) (active_down s) (f_calls s) (flap_hold (f_worker s) (f_timers s));
  fi_fresh : worker_fresh (active_down s) (f_worker s);
  fi_timers t : (f_next s ≤ t)%nat → f_timers s !! t = None;
  fi_reported : down_hosts (f_flap s) = sorted_set (active_down s) ∨ report_pending s;
  fi_allowed h a : LinksDown h a ∈ f_calls s → h ∈ host_ids;
}.

Lemma flap_hold_worker w w' tm k : flap_hold w' tm k = upd (flap_hold w tm) None (flap_worker_hold w') k.
Proof. unfold upd, flap_hold. by destruct k. Qed.
Lemma flap_hold_set w tm t x k : flap_hold w (<[t:=x]> tm) k = upd (flap_hold w tm) (Some t) (flap_timer_hold x) k.
Proof.
  unfold upd, flap_hold. destruct k as [t'|]; [|done]. destruct (decide (Some t' = Some t)) as [[= ->]|Hne].
  - by rewrite lookup_insert_eq.
  - by rewrite lookup_insert_ne by congruence.
Qed.
Lemma flap_hold_del w tm t k : flap_hold w (delete t tm) k = upd (flap_hold w tm) (Some t) (∅, ∅) k.
Proof.
  unfold upd, flap_hold. destruct k as [t'|]; [|done]. destruct (decide (Some t' = Some t)) as [[= ->]|Hne].
  - by rewrite lookup_delete_eq.
  - by rewrite lookup_delete_ne by congruence.
Qed.
Lemma flap_hold_at w tm t x : tm !! t = Some x → flap_hold w tm (Some t) = flap_timer_hold x.
Proof. intros E. simpl. by rewrite E. Qed.

Lemma fresh_shrinks active active' w : active' ⊆ active → worker_fresh active w → worker_fresh active' w.
Proof.
  intros Hs. assert (Hl : ∀ l, fresh_victims active l → fresh_victims active' l).
  { intros l [Hnd Hl]. split; [done|]. intros h Hh. destruct (Hl h Hh). split; [done|set_solver]. }
  destruct w; simpl; naive_solver.
Qed.

(** The worker moves and holds the same hosts. *)
Lemma flap_inv_move s w : flap_inv s → flap_worker_hold w = flap_worker_hold (f_worker s) → worker_fresh (active_down s) w →
  match f_worker s with FReport _ _ => False | _ => True end → flap_inv (put_worker w s).
Proof.
  intros [Ha Hf Ht Hr Hc] Hw Hfr Hnr. split; [|done|done| |done].
  - simpl. eapply acc_ext; [exact Ha|]. intros k. rewrite (flap_hold_worker (f_worker s)). unfold upd. case_decide; [by subst k|done].
  - destruct Hr as [Hr|[Hr|Hr]]; [by left|by destruct (f_worker s)|by right; right].
Qed.

Lemma sub_calls l c h a : (∀ h a, LinksDown h a ∈ l → h ∈ host_ids) → (∀ h' a', c = LinksDown h' a' → h' ∈ host_ids) →
  LinksDown h a ∈ l ++ [c] → h ∈ host_ids.
Proof. intros Hl Hc [?|E%list_elem_of_singleton]%elem_of_app; eauto. Qed.

Lemma flap_inv_worker draw a s s' : flap_inv s → flap_act (FWorker draw a) s = Some s' → flap_inv s'.
Proof.
  intros Hi Hs. unfold flap_act, flap_worker_step in Hs. pose proof Hi as [Ha Hf Ht Hr Hc].
  destruct (f_worker s) as [| |[|h chosen]|h chosen|h chosen|h chosen|] eqn:Ew; [| | | | | | |done]; simpl in Hf.
  - assert (Hmove : ∀ s1 w, s1 = put_position (position s1) s → flap_worker_hold w = (∅, ∅) → worker_fresh (active_down s) w → flap_inv (put_worker w s1)).
    { intros s1 w -> Hw Hfr. apply flap_inv_move; simpl; rewrite ?Ew; try done. split; simpl; by rewrite ?Ew. }
    assert (Hid : s = put_position (position s) s) by by destruct s.
    destruct (f_stopped s) eqn:Est in Hs; [injection Hs as <-; by apply Hmove|].
    destruct (choose_round _ _ _ _ _ _ _) as [[[| |l] p]|] eqn:Ech; [injection Hs as <-; by apply Hmove..| |done].
    injection Hs as <-. apply Hmove; try done. simpl. by eapply choose_round_fresh.
  - injection Hs as <-. apply flap_inv_move; rewrite ?Ew; done.
  - injection Hs as <-. apply flap_inv_move; rewrite ?Ew; done.
  - destruct (f_stopped s) eqn:Est in Hs; [injection Hs as <-; apply flap_inv_move; rewrite ?Ew; done|]. injection Hs as <-.
    destruct Hf as [Hnd Hf]. apply NoDup_cons in Hnd as [Hnot Hnd]. destruct (Hf h ltac:(by left)) as [Hid Hup]. split; simpl.
    + eapply acc_ext; [by apply (acc_take _ _ _ _ _ None h Ha)|]. intros k. rewrite (flap_hold_worker (FVictims (h :: chosen))).
      unfold upd. case_decide; [|done]. simpl. f_equal. set_solver.
    + split; [done|]. split; [done|]. intros h' Hh'. destruct (Hf h' ltac:(by right)). split; [done|]. intros [->%elem_of_singleton|?]%elem_of_union; done.
    + done.
    + right. by left.
    + done.
  - injection Hs as <-. split; simpl; [|done|done|by left|done].
    eapply acc_ext; [exact Ha|]. intros k. rewrite (flap_hold_worker (FReport h chosen)). unfold upd. case_decide; [by subst k|done].
  - pose proof (acc_down _ _ _ _ _ None h a Ha) as Hd. simpl in Hd. specialize (Hd ltac:(set_solver) ltac:(set_solver)).
    simpl in Hs. injection Hs as <-. destruct Hf as [Hid Hf]. split; simpl.
    + eapply acc_ext; [exact Hd|]. intros k. rewrite (flap_hold_worker (FLinks h chosen)). unfold upd. case_decide; [|done].
      destruct (down_result a); simpl; [|done]. f_equal. set_solver.
    + by destruct (down_result a).
    + done.
    + destruct Hr as [?|[Hr|Hr]]; [by left|by rewrite Ew in Hr|by right; right].
    + intros h' a'. apply sub_calls; [exact Hc|]. by intros ? ? [= -> ->].
  - injection Hs as <-. destruct Hf as [Hid Hf]. assert (Hnone : f_timers s !! f_next s = None) by (by apply Ht). split; simpl.
    + pose proof (acc_pass _ _ _ _ _ None (Some (f_next s)) Ha ltac:(done)) as Hp. simpl in Hp. rewrite Hnone in Hp. specialize (Hp eq_refl).
      eapply acc_ext; [exact Hp|]. intros k. rewrite (flap_hold_worker (FTimer h chosen)). unfold upd at 1. rewrite flap_hold_set.
      unfold upd. simpl. repeat case_decide; try done; congruence.
    + done.
    + intros t Hle. rewrite lookup_insert_ne by lia. apply Ht. lia.
    + destruct Hr as [?|[Hr|[t Hr]]]; [by left|by rewrite Ew in Hr|]. right. right. exists t. simpl. rewrite lookup_insert_ne by congruence. done.
    + done.
Qed.

Lemma flap_inv_timer t a cb s s' : flap_inv s → flap_act (FTimerStep t a cb) s = Some s' → flap_inv s'.
Proof.
  intros Hi Hs. unfold flap_act, flap_timer_step in Hs. pose proof Hi as [Ha Hf Ht Hr Hc].
  destruct (f_timers s !! t) as [x|] eqn:Et; [|done]. pose proof (flap_hold_at (f_worker s) _ _ _ Et) as Hh.
  assert (Hlt : ∀ m : gmap nat flap_timer, (∀ t', t' ≠ t → m !! t' = f_timers s !! t') → ∀ t', (f_next s ≤ t')%nat → m !! t' = None).
  { intros m Hm t' Hle. rewrite Hm; [by apply Ht|]. intros ->. rewrite Ht in Et by done. done. }
  assert (Hpend : ∀ s1, x ≠ UReport → f_worker s1 = f_worker s → (∀ t', t' ≠ t → f_timers s1 !! t' = f_timers s !! t') → report_pending s → report_pending s1).
  { intros s1 Hx E1 E2 [Hr'|[t' Hr']]; [left; by rewrite E1|right; exists t'; rewrite E2; [done|]]. intros ->. congruence. }
  assert (Hset : ∀ (y : flap_timer) t', t' ≠ t → (<[t:=y]> (f_timers s) : gmap nat flap_timer) !! t' = f_timers s !! t') by (intros; by rewrite lookup_insert_ne).
  assert (Hdel : ∀ t', t' ≠ t → (delete t (f_timers s) : gmap nat flap_timer) !! t' = f_timers s !! t') by (intros; by rewrite lookup_delete_ne).
  destruct x as [h|h|].
  - destruct (f_stopped s) eqn:Est in Hs; injection Hs as <-; split; simpl; try done.
    + rewrite Est in *. eapply acc_ext; [exact (acc_drop _ _ _ _ (Some t) Ha)|]. intros k. apply flap_hold_del.
    + by apply Hlt.
    + destruct Hr as [?|Hr]; [by left|]. right. by apply Hpend.
    + pose proof (acc_up _ _ _ _ _ (Some t) h a cb Ha) as Hu. rewrite Hh in Hu. simpl in Hu. specialize (Hu ltac:(set_solver)).
      eapply acc_ext; [exact Hu|]. intros k. destruct (up_result on_host_up a cb); [|apply flap_hold_del].
      rewrite flap_hold_set. unfold upd. case_decide; [|done]. simpl. f_equal. set_solver.
    + apply Hlt. intros t' ?. destruct (up_result on_host_up a cb); auto.
    + destruct Hr as [?|Hr]; [by left|]. right. apply Hpend; simpl; [done..| |done]. intros t' ?. destruct (up_result on_host_up a cb); auto.
    + intros h' a'. apply sub_calls; [exact Hc|]. done.
  - injection Hs as <-. split; simpl; [| |by apply Hlt; auto| |done].
    + pose proof (acc_release _ _ _ _ _ (Some t) Ha) as Hrel. rewrite Hh in Hrel. simpl in Hrel.
      eapply acc_ext; [by apply Hrel|]. intros k. apply flap_hold_set.
    + eapply fresh_shrinks; [|done]. set_solver.
    + right. right. exists t. simpl. by rewrite lookup_insert_eq.
  - injection Hs as <-. split; simpl; [|done|by apply Hlt|by left|done].
    eapply acc_ext; [exact Ha|]. intros k. rewrite flap_hold_del. unfold upd. destruct (decide (k = Some t)) as [->|]; [by rewrite Hh|done].
Qed.

Lemma flap_inv_start : flap_inv (start_flapping host_num exclude).
Proof.
  assert (Hw : flap_worker_hold (f_worker (start_flapping host_num exclude)) = (∅, ∅)) by (simpl; by destruct host_ids).
  split; simpl; [|by destruct host_ids|done|by left|by intros ? ? []%elem_of_nil]. split.
  - assert (Hk : ∀ k, flap_hold (f_worker (start_flapping host_num exclude)) ∅ k = (∅, ∅)) by (intros [?|]; done).
    exists ∅. split; [done|]. split; intros; simpl f_worker in Hk; rewrite ?Hk; simpl; set_solver.
  - intros _ _ h Hh. set_solver.
Qed.

(** C24: the bookkeeping of periodic flapping, whatever order the worker, the timers
    and a stop run in. Unless a thread is between changing the set and reporting it,
    the reported hosts are exactly those in the set; for each host the link commands
    issued alternate between down and up, and one whose last command was down is in
    the set; no host is held by two threads; and only hosts of the experiment that
    are not excluded are taken down. Under two conditions, that the run has not been
    stopped and that no exception has left the worker or a timer, every host of the
    set is held by the worker or by its timer. *)
Theorem flapping_accounted s : flap_reachable host_num down_count exclude has_rng on_host_up sink s →
  let held k h := h ∈ (flap_hold (f_worker s) (f_timers s) k).1 in
  (down_hosts (f_flap s) = sorted_set (active_down s) ∨ report_pending s) ∧
  (∃ d, commanded_down (f_calls s) = Some d ∧ d ⊆ active_down s) ∧
  (∀ h k k', held k h → held k' h → k = k') ∧
  (f_stopped s = false → forallb (λ c, negb (breaks on_host_up c)) (f_calls s) = true →
     ∀ h, h ∈ active_down s ↔ ∃ k, held k h) ∧
  (∀ h a, LinksDown h a ∈ f_calls s → 0 ≤ h < host_num ∧ h ∉ exclude).
Proof.
  intros Hr held. assert (Hi : flap_inv s).
  { unfold flap_reachable in Hr. revert Hr. generalize flap_inv_start. generalize (start_flapping host_num exclude). intros s0 H0 Hr.
    induction Hr as [|s0 s1 s2 [x Hx] _ IH]; [done|]. apply IH. destruct x as [|draw a|t a cb].
    - injection Hx as <-. destruct H0. split; simpl; try done. by eapply acc_stop.
    - by eapply flap_inv_worker.
    - by eapply flap_inv_timer. }
  destruct Hi as [[(d & Ed & Ht) Hc] _ _ Hrep Hal]. split_and!; [done| | | |].
  - exists d. split; [done|by apply (tidy_down _ _ _ Ht)].
  - intros h k k' Hk Hk'. destruct (decide (k = k')) as [|Hne]; [done|]. by destruct (tidy_disjoint _ _ _ Ht k k' Hne h).
  - intros Hst Hb h. split; [by apply Hc|]. intros [k Hk]. by apply (tidy_held _ _ _ Ht k).
  - intros h a Hin. apply elem_of_host_ids. by eapply Hal.
Qed.
End flap_lemmas.

(** * Example *)

(** Host 1 of three is taken down twice, since it comes up in between. *)
Definition demo_flap_actions : list flap_action :=
  repeat (FWorker [] Returned) 6 ++ [FTimerStep 0 Returned CbReturned; FTimerStep 0 Returned CbReturned; FTimerStep 0 Returned CbReturned]
  ++ repeat (FWorker [] Returned) 5.
Notation demo_act := (flap_act 3 1 {[0; 2]} false true true).
Definition demo_flap : option flapping := foldl (λ s x, s ≫= demo_act x) (Some (start_flapping 3 {[0; 2]})) demo_flap_actions.
Lemma flapping_accounted_witness : ∃ s, demo_flap = Some s ∧ f_calls s = [LinksDown 1 Returned; LinksUp 1 Returned CbReturned; LinksDown 1 Returned] ∧
  ∃ k, 1 ∈ (flap_hold (f_worker s) (f_timers s) k).1.
Proof.
  assert (Hall : ∀ l s0 s, foldl (λ s x, s ≫= demo_act x) (Some s0) l = Some s → rtc (flap_step 3 1 {[0; 2]} false true true) s0 s).
  { induction l as [|x l IH]; intros s0 s; simpl; [by intros [= ->]|]. destruct (demo_act x s0) as [s1|] eqn:Ex.
    - intros Hl. eapply rtc_l; [by exists x|by apply IH].
    - intros Hl. exfalso. clear -Hl. induction l as [|y l IH]; simpl in Hl; [done|auto]. }
  assert (Hr : match demo_flap with Some s => f_calls s = [LinksDown 1 Returned; LinksUp 1 Returned CbReturned; LinksDown 1 Returned] ∧
    f_stopped s = false ∧ forallb (λ c, negb (breaks true c)) (f_calls s) = true ∧ elements (active_down s) = [1] | None => False end) by (vm_compute; done).
  destruct demo_flap as [s|] eqn:E; [|done]. destruct Hr as (Hcalls & Hst & Hb & Hd). exists s. split; [reflexivity|]. split; [exact Hcalls|].
  destruct (flapping_accounted 3 1 {[0; 2]} false true true s (Hall _ _ _ E)) as (_ & _ & _ & Hc & _).
  apply (Hc Hst Hb 1). apply elem_of_elements. rewrite Hd. by left.
Defined.
