(* ===== verification/CachePlan.v ===== *)
(** Component: which hosts cache and how their daemons are configured
    (src/core/roles.py, src/runtime/cache_manager.py, cache_strategy.py,
    forwarding.py, and the settings part of template.py).  The configuration
    files of the hosts are a map from host and file name to text. *)
From S2P Require Import Prelude PyValue PyString PyNum PyText Graph KCenters Options Validate NodeConf.
Local Open Scope Z_scope.

(** * Files *)

Notation files := (gmap (Z * string) string).

(** [_set_config_value] and [_read_config_value] on a path; a missing file is left
    alone. *)
Definition set_in (idx : Z) (name key value : string) (fs : files) : files :=
  match fs !! (idx, name) with
  | None => fs
  | Some text => <[(idx, name) := set_config_value key value text]> fs
  end.
Definition read_in (idx : Z) (name key : string) (fs : files) : option string :=
  fs !! (idx, name) ≫= read_config_value key.

(** * Roles *)

Record NodeRole := mkRole { r_name : string; r_template : string; cs_mode : Z; runs_csmgrd : bool }.
Definition CONSUMER : NodeRole := mkRole "consumer" "h0" 0 false.
Definition ROUTER : NodeRole := mkRole "router" "h1" 2 true.
Definition PUBLISHER : NodeRole := mkRole "publisher" "h2" 1 false.

(** [random.Random.choice]. *)
Class Choice := { chooser : Type; choice : ∀ {A}, A → list A → chooser → A * chooser }.
(** It returns an element of the list, which is given by its head and tail. *)
Class ChoiceLaw `{Choice} : Prop := choice_in : ∀ A (x : A) l r, (choice x l r).1 ∈ x :: l.

Section roles.
Context `{Choice}.

(** [assign_roles]: one iteration, and the loop. *)
Definition assign_role (host_num : Z) (publishers : gset Z) (idx : Z) (r : chooser) : NodeRole * chooser :=
  if bool_decide (idx ∈ publishers) then (PUBLISHER, r)
  else if idx =? 0 then (CONSUMER, r)
  else if (host_num =? 2) && (idx =? 1) then (PUBLISHER, r)
  else if idx =? 1 then (ROUTER, r)
  else if idx =? 2 then (PUBLISHER, r)
  else if idx mod 2 =? 1 then (ROUTER, r)
  else if idx =? host_num - 1 then (PUBLISHER, r)
  else choice CONSUMER [PUBLISHER] r.

Fixpoint assign_loop (host_num : Z) (publishers : gset Z) (idxs : list Z) (r : chooser) : list (Z * NodeRole) * chooser :=
  match idxs with
  | [] => ([], r)
  | idx :: idxs =>
      let '(role, r) := assign_role host_num publishers idx r in
      let '(roles, r) := assign_loop host_num publishers idxs r in ((idx, role) :: roles, r)
  end.
Definition assign_roles (host_num : Z) (r : chooser) (publishers : gset Z) : list (Z * NodeRole) * chooser :=
  assign_loop host_num publishers (range host_num) r.

(** [assign_random_cs_modes]. *)
Fixpoint cs_modes_loop (publishers : gset Z) (idxs : list Z) (r : chooser) : list (Z * Z) :=
  match idxs with
  | [] => []
  | idx :: idxs =>
      let '(mode, r) := if bool_decide (idx ∈ publishers) then choice 1 [2] r else choice 0 [1; 2] r in
      (idx, mode) :: cs_modes_loop publishers idxs r
  end.
Definition assign_random_cs_modes (host_ids : list Z) (publisher_ids : gset Z) (r : chooser) : list (Z * Z) :=
  cs_modes_loop publisher_ids (sorted_list host_ids) r.
End roles.

(** [apply_cs_modes]. *)
Definition apply_cs_modes (modes : list (Z * Z)) (fs : files) : files :=
  foldl (λ fs im, set_in im.1 "cefnetd.conf" "CS_MODE" (str_Z im.2) fs) fs modes.

(** * Settings *)

Section settings.
Context `{FloatRepr}.

(** The optional arguments of [apply_cache_node_settings]; [None] leaves a value
    alone. *)
Record cache_settings := mkSettings { s_rct : pv; s_capacity : pv; s_algorithm : pv; s_type : pv }.

Definition set_some (idx : Z) (key : string) (v : pv) (fs : files) : files :=
  if is_none v then fs else set_in idx "csmgrd.conf" key (py_str v) fs.

(** Its first loop: a cache node. *)
Definition apply_cache_node (host_num : Z) (s : cache_settings) (fs : files) (idx : Z) : files :=
  if (idx <? 0) || (host_num <=? idx) then fs else
  let fs := set_in idx "cefnetd.conf" "CS_MODE" "2" fs in
  let fs := set_some idx "CACHE_DEFAULT_RCT" (s_rct s) fs in
  let fs := set_some idx "CACHE_CAPACITY" (s_capacity s) fs in
  let fs := set_some idx "CACHE_ALGORITHM" (s_algorithm s) fs in
  set_some idx "CACHE_TYPE" (s_type s) fs.

(** Its second loop: a host that is not one. *)
Definition apply_other_node (cache_nodes publishers : gset Z) (fs : files) (idx : Z) : files :=
  if bool_decide (idx ∈ cache_nodes) then fs
  else if bool_decide (idx ∈ publishers) then set_in idx "cefnetd.conf" "CS_MODE" "1" fs
  else if bool_decide (read_in idx "cefnetd.conf" "CS_MODE" fs = Some "2") then set_in idx "cefnetd.conf" "CS_MODE" "0" fs
  else fs.

(** [apply_cache_node_settings]. *)
Definition apply_cache_node_settings (host_num : Z) (cache_nodes : gset Z) (s : cache_settings) (publishers : gset Z)
    (fs : files) : files :=
  foldl (apply_other_node cache_nodes publishers)
    (foldl (apply_cache_node host_num s) fs (sorted_set cache_nodes)) (range host_num).

(** * The configured manager *)

Definition _ALGORITHM_LIB_NAMES : list (string * string) :=
  [("LRU", "libcsmgrd_lru"); ("LFU", "libcsmgrd_lfu"); ("FIFO", "libcsmgrd_fifo"); ("None", "None")].

Fixpoint lib_name (names : list (string * string)) (v : pv) : pv :=
  match names with
  | [] => v
  | (k, lib) :: names => if eq_str v k then PStr lib else lib_name names v
  end.

(** [_normalize_cache_algorithm]; a list or dict is no key. *)
Definition normalize_cache_algorithm (v : pv) : res pv :=
  if negb (hashable v) then raise ETypeError "unhashable type" else Ok (lib_name _ALGORITHM_LIB_NAMES v).

(** [v.get(k, default)] of a value that should be a dict. *)
Definition attr_get (v : pv) (k : string) (default : pv) : res pv :=
  match v with PDict d => Ok (get_or d k default) | _ => raise EAttributeError "no attribute 'get'" end.

Record CacheConfigManager := mkManager {
  m_strategy : pv;
  default_config : pv;
  node_overrides : gmap Z pydict;
  m_graph : graph;
  m_host_count : Z;
  m_publisher_ids : gset Z;
}.

(** [_parse_node_overrides]. *)
Definition override_ids (entry : pydict) : res (list pv) :=
  let ids := get_or entry "id" (PList []) in
  match ids with PInt _ | PBool _ => Ok [ids] | _ => py_list ids end.
Definition add_override (settings : pydict) (overrides : gmap Z pydict) (node_id : pv) : res (gmap Z pydict) :=
  i ← py_int node_id; Ok (<[i := settings]> overrides).
Definition parse_entry (overrides : gmap Z pydict) (entry : pv) : res (gmap Z pydict) :=
  match entry with
  | PDict d => ids ← override_ids d; foldM (add_override (dpop d "id")) overrides ids
  | _ => raise EAttributeError "no attribute 'get'"
  end.
Definition parse_node_overrides (nodes : pv) : res (gmap Z pydict) :=
  entries ← py_list (if truthy nodes then nodes else PList []);
  foldM parse_entry ∅ entries.

(** [CacheConfigManager.__init__]. *)
Definition CacheConfigManager_init (cache_config : pydict) (host_count : Z) (g : graph) (publisher_ids : gset Z)
    : res CacheConfigManager :=
  overrides ← parse_node_overrides (get_or cache_config "nodes" (PList []));
  Ok (mkManager (get_or cache_config "strategy" (PStr "k_centers")) (get_or cache_config "default" (PDict []))
        overrides g host_count publisher_ids).

(** The count; in an accepted configuration it is an integer. *)
Definition count_of (m : CacheConfigManager) : res Z :=
  v ← attr_get (default_config m) "count" (PInt 0);
  match v with PInt z => Ok z | PBool b => Ok (Z.b2z b) | _ => raise ETypeError "count" end.

(** The three selections. *)
Definition select_manual (m : CacheConfigManager) (exclude : gset Z) : list Z :=
  filter (λ idx, idx ∉ exclude) (sorted_set (dom (node_overrides m))).

Definition degree (g : graph) (n : Z) : Z := Z.of_nat (size (default ∅ (g !! n))).
(** The order of the key [(-degree[n], n)]. *)
Definition by_degree (g : graph) (a b : Z) : Prop := degree g b < degree g a ∨ (degree g a = degree g b ∧ a ≤ b).
#[export] Instance by_degree_dec g : RelDecision (by_degree g).
Proof. intros a b. unfold by_degree. apply _. Defined.
Definition select_degree_based (m : CacheConfigManager) (exclude : gset Z) : res (list Z) :=
  count ← count_of m;
  Ok (py_take count (merge_sort (by_degree (m_graph m)) (filter (λ n, n ∉ exclude) (elements (dom (m_graph m)))))).

(** [select_cache_nodes]. *)
Definition select_cache_nodes (m : CacheConfigManager) (exclude : gset Z) : res (list Z) :=
  if negb (hashable (m_strategy m)) then raise ETypeError "unhashable type"
  else if eq_str (m_strategy m) "k_centers" then count ← count_of m; select_k_centers (m_graph m) count None exclude
  else if eq_str (m_strategy m) "manual" then Ok (select_manual m exclude)
  else if eq_str (m_strategy m) "degree_based" then select_degree_based m exclude
  else raise EValueError ("Unknown cache strategy: " +s+ py_str (m_strategy m)
         +s+ ". Available: ['k_centers', 'manual', 'degree_based']").

(** [apply_configs]. *)
Definition _FIELD_MAP : list (string * string) :=
  [("default_rct_ms", "CACHE_DEFAULT_RCT"); ("capacity", "CACHE_CAPACITY"); ("algorithm", "CACHE_ALGORITHM"); ("type", "CACHE_TYPE")].

Definition apply_field (idx : Z) (overrides : pydict) (fs : files) (fk : string * string) : res files :=
  match dget overrides fk.1 with
  | None => Ok fs
  | Some v => value ← if bool_decide (fk.1 = "algorithm") then normalize_cache_algorithm v else Ok v;
              Ok (set_in idx "csmgrd.conf" fk.2 (py_str value) fs)
  end.
Definition apply_overrides (m : CacheConfigManager) (fs : files) (idx : Z) : res files :=
  match node_overrides m !! idx with
  | None => Ok fs
  | Some overrides => foldM (apply_field idx overrides) fs _FIELD_MAP
  end.

Definition default_settings (m : CacheConfigManager) : res cache_settings :=
  rct ← attr_get (default_config m) "default_rct_ms" PNone;
  capacity ← attr_get (default_config m) "capacity" PNone;
  algorithm ← attr_get (default_config m) "algorithm" PNone;
  algorithm ← normalize_cache_algorithm algorithm;
  type ← attr_get (default_config m) "type" PNone;
  Ok (mkSettings rct capacity algorithm type).

Definition apply_configs (m : CacheConfigManager) (cache_nodes : gset Z) (fs : files) : res files :=
  s ← default_settings m;
  foldM (apply_overrides m) (apply_cache_node_settings (m_host_count m) cache_nodes s (m_publisher_ids m) fs) (sorted_set cache_nodes).

(** * Placement *)

(** [CachePlacement.__init__]; the manager is built when the configuration is not
    empty. *)
Record CachePlacement := mkPlacement {
  host_count : Z;
  host_graph : graph;
  publisher_ids : gset Z;
  cache_count : Z;
  down_count : Z;
  p_exclude : gset Z;
  cache_default_rct_ms : pv;
  manager : option CacheConfigManager;
}.
Definition CachePlacement_init (host_count : Z) (host_graph : graph) (publisher_ids : gset Z) (cache_config : pydict)
    (cache_count down_count : Z) (exclude_publishers : bool) (cache_default_rct_ms : pv) : res CachePlacement :=
  m ← match cache_config with
      | [] => Ok None
      | _ => Some <$> CacheConfigManager_init cache_config host_count host_graph publisher_ids
      end;
  Ok (mkPlacement host_count host_graph publisher_ids cache_count down_count
        (if exclude_publishers then publisher_ids else ∅) cache_default_rct_ms m).

(** [decide]. *)
Definition decide_nodes (p : CachePlacement) : res (list Z) :=
  nodes ← match manager p with
          | Some m => select_cache_nodes m (p_exclude p)
          | None => select_k_centers (host_graph p) (if 0 <? cache_count p then cache_count p else down_count p + 1) None (p_exclude p)
          end;
  Ok match nodes with [] => if 0 <? host_count p then [host_count p - 1] else [] | _ => nodes end.

(** [place]. *)
Definition place_nodes (p : CachePlacement) (fs : files) : res (gset Z * files) :=
  nodes ← decide_nodes p;
  let cache_node_set := list_to_set nodes in
  fs ← match manager p with
       | Some m => apply_configs m cache_node_set fs
       | None => Ok (apply_cache_node_settings (host_count p) cache_node_set
                       (mkSettings (cache_default_rct_ms p) PNone PNone PNone) (publisher_ids p) fs)
       end;
  Ok (cache_node_set, fs).

(** ** Strategies *)

(** The strategies a scenario picks from, with their fields. *)
Inductive CacheStrategy :=
  | KCentersStrategy (cache_config : pydict) (cache_count down_count : Z) (exclude_publishers : bool) (cache_default_rct_ms : pv)
  | RandomCSModeStrategy
  | RolesCacheStrategy (roles : list (Z * NodeRole)).

Record CacheContext := mkContext { c_host_count : Z; c_host_graph : graph; c_publisher_ids : gset Z }.

Fixpoint role_of (roles : list (Z * NodeRole)) (idx : Z) : option NodeRole :=
  match roles with
  | [] => None
  | (i, role) :: roles => if i =? idx then Some role else role_of roles idx
  end.
Definition role_caches (roles : list (Z * NodeRole)) (idx : Z) : bool :=
  match role_of roles idx with Some role => runs_csmgrd role | None => false end.

(** [place] of each; [r] is the generator seeded for the random one. *)
Definition place `{Choice} (strategy : CacheStrategy) (r : chooser) (ctx : CacheContext) (fs : files) : res (gset Z * files) :=
  match strategy with
  | KCentersStrategy cache_config cache_count down_count exclude_publishers rct =>
      p ← CachePlacement_init (c_host_count ctx) (c_host_graph ctx) (c_publisher_ids ctx) cache_config cache_count down_count
            exclude_publishers rct;
      place_nodes p fs
  | RandomCSModeStrategy =>
      let modes := assign_random_cs_modes (range (c_host_count ctx)) (c_publisher_ids ctx) r in
      Ok (list_to_set (fst <$> List.filter (λ im : Z * Z, im.2 =? 2) modes), apply_cs_modes modes fs)
  | RolesCacheStrategy roles =>
      Ok (list_to_set (List.filter (role_caches roles) (range (c_host_count ctx))), fs)
  end.

(** * Forwarding *)

(** [resolve_forwarding_config]: the default and the node entries, if any. *)
Definition resolve_forwarding_config (config : option pydict) : pv * pv :=
  match config with
  | None => (PStr "flooding", PList [])
  | Some d => (get_or d "default" (PStr "flooding"), let nodes := get_or d "nodes" (PList []) in if truthy nodes then nodes else PList [])
  end.

(** [_parse_node_overrides]. *)
Definition forwarding_entry (overrides : gmap Z pv) (entry : pv) : res (gmap Z pv) :=
  match entry with
  | PDict d =>
      let strategy := get_none d "strategy" in
      if is_none strategy then Ok overrides else
      ids ← py_list (get_or d "id" (PList []));
      foldM (λ o node_id, i ← py_int node_id; Ok (<[i := strategy]> o)) overrides ids
  | _ => raise EAttributeError "no attribute 'get'"
  end.
Definition forwarding_overrides (nodes : pv) : res (gmap Z pv) :=
  entries ← py_list nodes; foldM forwarding_entry ∅ entries.

(** [apply_configs] of a [ForwardingConfigManager]. *)
Definition strategy_for (overrides : gmap Z pv) (default_strategy : pv) (idx : Z) : pv := default default_strategy (overrides !! idx).
Definition apply_forwarding (config : option pydict) (host_count : Z) (fs : files) : res files :=
  let '(default_strategy, nodes) := resolve_forwarding_config config in
  overrides ← forwarding_overrides nodes;
  Ok (foldl (λ fs idx, set_in idx "cefnetd.conf" "FORWARDING_STRATEGY" (py_str (strategy_for overrides default_strategy idx)) fs)
        fs (range host_count)).
End settings.

(** * What the steps change *)

Lemma lookup_set_in i n k v fs p :
  set_in i n k v fs !! p = if decide (p = (i, n)) then set_config_value k v <$> fs !! p else fs !! p.
Proof.
  unfold set_in. destruct (fs !! (i, n)) as [text|] eqn:E; case_decide as Hp.
  - subst p. by rewrite lookup_insert_eq, E.
  - by rewrite lookup_insert_ne.
  - subst p. by rewrite E.
  - done.
Qed.

Lemma read_in_set i n k v fs : key_ok k → no_breaks v = true → is_Some (fs !! (i, n)) →
  read_in i n k (set_in i n k v fs) = Some (strip v).
Proof.
  intros Hk Hv [text Ht]. unfold read_in. rewrite lookup_set_in, decide_True, Ht by done. simpl. by apply read_set.
Qed.

Lemma read_in_set_key i n k k' v fs : key_ok k → key_ok k' → no_breaks v = true → k ≠ k' →
  read_in i n k' (set_in i n k v fs) = read_in i n k' fs.
Proof.
  intros Hk Hk' Hv Hne. unfold read_in. rewrite lookup_set_in, decide_True by done.
  destruct (fs !! (i, n)) as [text|]; [|done]. simpl. by apply read_set_other.
Qed.

Lemma read_in_set_file i n n' k k' v fs : n ≠ n' → read_in i n' k' (set_in i n k v fs) = read_in i n' k' fs.
Proof. intros Hne. unfold read_in. rewrite lookup_set_in, decide_False; [done|]. congruence. Qed.

Lemma set_in_exists i n k v fs p : is_Some (set_in i n k v fs !! p) ↔ is_Some (fs !! p).
Proof. rewrite lookup_set_in. case_decide; [|done]. by rewrite fmap_is_Some. Qed.

(** Two maps give a host the same files. *)
Definition same_host (i : Z) (fs fs' : files) : Prop := ∀ n, fs !! (i, n) = fs' !! (i, n).

#[export] Instance same_host_equiv i : Equivalence (same_host i).
Proof. split; [by intros fs n|by intros fs fs' Hs n|intros a b c Hab Hbc n; by rewrite Hab]. Qed.

Lemma same_host_set_other i j n k v fs : j ≠ i → same_host i (set_in j n k v fs) fs.
Proof. intros Hne m. rewrite lookup_set_in, decide_False; [done|congruence]. Qed.

Lemma same_host_set i n k v fs fs' : same_host i fs fs' → same_host i (set_in i n k v fs) (set_in i n k v fs').
Proof. intros Hs m. by rewrite !lookup_set_in, (Hs m). Qed.

Lemma same_host_read i n k fs fs' : same_host i fs fs' → read_in i n k fs = read_in i n k fs'.
Proof. intros Hs. unfold read_in. by rewrite Hs. Qed.

(** A step of a loop over hosts touches its own host only, and depends on it only. *)
Definition host_step {A} (host : A → Z) (f : files → A → files) : Prop :=
  (∀ a i fs, host a ≠ i → same_host i (f fs a) fs) ∧
  (∀ a fs fs', same_host (host a) fs fs' → same_host (host a) (f fs a) (f fs' a)).

Lemma foldl_other {A} (host : A → Z) f l i fs : host_step host f → i ∉ (host <$> l) → same_host i (foldl f fs l) fs.
Proof.
  intros [Ho _]. revert fs. induction l as [|a l IH]; intros fs Hi; [done|]. simpl in *.
  apply not_elem_of_cons in Hi as [Hne Hi]. rewrite IH by done. by apply Ho.
Qed.

Lemma foldl_host {A} (host : A → Z) f l a fs : host_step host f → NoDup (host <$> l) → a ∈ l →
  same_host (host a) (foldl f fs l) (f fs a).
Proof.
  intros Hf. revert fs. induction l as [|b l IH]; intros fs Hnd Ha; [by apply elem_of_nil in Ha|]. simpl in *.
  apply NoDup_cons in Hnd as [Hb Hnd]. apply elem_of_cons in Ha as [->|Ha]; [by apply (foldl_other host)|].
  rewrite IH by done. apply Hf. apply Hf. intros E. apply Hb. rewrite E. by apply list_elem_of_fmap_2.
Qed.

Lemma host_step_set {A} (host : A → Z) (n : string) (k v : A → string) :
  host_step host (λ fs a, set_in (host a) n (k a) (v a) fs).
Proof. split; [intros; by apply same_host_set_other|intros; by apply same_host_set]. Qed.

Lemma host_step_comp {A} (host : A → Z) f g : host_step host f → host_step host g → host_step host (λ fs a, g (f fs a) a).
Proof.
  intros [Hf Hf'] [Hg Hg']. split.
  - intros a i fs Hne. by rewrite Hg, Hf by done.
  - intros a fs fs' Hs. by apply Hg', Hf'.
Qed.

Lemma host_step_id {A} (host : A → Z) : host_step host (λ fs _, fs).
Proof. by split. Qed.

Lemma host_step_if {A} (host : A → Z) (b : A → bool) f g : host_step host f → host_step host g →
  host_step host (λ fs a, if b a then f fs a else g fs a).
Proof. intros [Hf Hf'] [Hg Hg']. split; intros a; destruct (b a); auto. Qed.

Section steps.
Context `{FloatRepr}.

Lemma host_step_some {A} (host : A → Z) (k : string) (v : pv) : host_step host (λ fs a, set_some (host a) k v fs).
Proof. unfold set_some. destruct (is_none v); [apply (host_step_id host)|apply (host_step_set host "csmgrd.conf" (λ _, k) (λ _, py_str v))]. Qed.

Lemma host_step_cache host_num s : host_step id (apply_cache_node host_num s).
Proof.
  unfold apply_cache_node. cbv zeta.
  apply (host_step_if id (λ a, (a <? 0) || (host_num <=? a)) (λ fs _, fs)); [apply (host_step_id id)|].
  apply (host_step_comp id _ (λ fs a, set_some (id a) "CACHE_TYPE" (s_type s) fs)); [|apply (host_step_some id)].
  apply (host_step_comp id _ (λ fs a, set_some (id a) "CACHE_ALGORITHM" (s_algorithm s) fs)); [|apply (host_step_some id)].
  apply (host_step_comp id _ (λ fs a, set_some (id a) "CACHE_CAPACITY" (s_capacity s) fs)); [|apply (host_step_some id)].
  apply (host_step_comp id _ (λ fs a, set_some (id a) "CACHE_DEFAULT_RCT" (s_rct s) fs)); [|apply (host_step_some id)].
  apply (host_step_set id "cefnetd.conf" (λ _, "CS_MODE") (λ _, "2")).
Qed.

Lemma host_step_other cache_nodes publishers : host_step id (apply_other_node cache_nodes publishers).
Proof.
  unfold apply_other_node. split.
  - intros a i fs Hne. repeat case_bool_decide; try done; by apply same_host_set_other.
  - intros a fs fs' Hs. rewrite (same_host_read _ _ _ _ _ Hs). repeat case_bool_decide; try done; by apply same_host_set.
Qed.

(** The files of a host after [apply_cache_node_settings]. *)
Lemma settings_cache host_num caches s pubs fs i : i ∈ caches →
  same_host i (apply_cache_node_settings host_num caches s pubs fs) (apply_cache_node host_num s fs i).
Proof.
  intros Hi. unfold apply_cache_node_settings.
  assert (Hc : same_host i (foldl (apply_cache_node host_num s) fs (sorted_set caches)) (apply_cache_node host_num s fs i)).
  { apply (foldl_host id); [apply host_step_cache| |by apply elem_of_sorted_set]. rewrite list_fmap_id. apply NoDup_sorted_set. }
  destruct (decide (i ∈ range host_num)) as [Hr|Hr].
  - rewrite (foldl_host id _ _ i); [|apply host_step_other|rewrite list_fmap_id; apply NoDup_range|done].
    unfold apply_other_node. by rewrite bool_decide_eq_true_2.
  - rewrite (foldl_other id); [done|apply host_step_other|by rewrite list_fmap_id].
Qed.

Lemma settings_other host_num caches s pubs fs i : i ∉ caches → 0 ≤ i < host_num →
  same_host i (apply_cache_node_settings host_num caches s pubs fs) (apply_other_node caches pubs fs i).
Proof.
  intros Hi Hr. unfold apply_cache_node_settings.
  rewrite (foldl_host id _ _ i); [|apply host_step_other|rewrite list_fmap_id; apply NoDup_range|by apply elem_of_range].
  apply (host_step_other caches pubs). apply (foldl_other id); [apply host_step_cache|]. rewrite list_fmap_id. by rewrite elem_of_sorted_set.
Qed.
End steps.

(** * Which mode a host runs in *)

Notation CS_MODE := "CS_MODE".
Lemma key_cs_mode : key_ok CS_MODE.
Proof. by split. Qed.
Lemma key_rct : key_ok "CACHE_DEFAULT_RCT".
Proof. by split. Qed.
Lemma key_capacity : key_ok "CACHE_CAPACITY".
Proof. by split. Qed.
Lemma key_algorithm : key_ok "CACHE_ALGORITHM".
Proof. by split. Qed.
Lemma key_type : key_ok "CACHE_TYPE".
Proof. by split. Qed.
#[local] Hint Resolve key_cs_mode key_rct key_capacity key_algorithm key_type : conf.

Section modes.
Context `{FloatRepr}.

(** What a placement must do to the cefnetd.conf of a host. *)
Record mode_set (pubs caches : gset Z) (fs fs' : files) (i : Z) : Prop := {
  ms_cache : read_in i "cefnetd.conf" CS_MODE fs' = Some "2" ↔ i ∈ caches;
  ms_publisher : i ∈ pubs → read_in i "cefnetd.conf" CS_MODE fs' ∈ [Some "1"; Some "2"];
  ms_rest : ∀ key, key_ok key → key ≠ CS_MODE → read_in i "cefnetd.conf" key fs' = read_in i "cefnetd.conf" key fs;
}.

Lemma mode_set_same pubs caches fs fs1 fs2 i : same_host i fs1 fs2 → mode_set pubs caches fs fs2 i → mode_set pubs caches fs fs1 i.
Proof. intros Hs [H1 H2 H3]. split; intros; rewrite (same_host_read _ _ _ _ _ Hs); auto. Qed.

Lemma read_set_some i k v fs k' : read_in i "cefnetd.conf" k' (set_some i k v fs) = read_in i "cefnetd.conf" k' fs.
Proof. unfold set_some. destruct (is_none v); [done|]. by apply read_in_set_file. Qed.

(** Writing a mode. *)
Lemma read_mode i m fs key : no_breaks m = true → is_Some (fs !! (i, "cefnetd.conf")) → key_ok key →
  read_in i "cefnetd.conf" key (set_in i "cefnetd.conf" CS_MODE m fs)
    = if decide (key = CS_MODE) then Some (strip m) else read_in i "cefnetd.conf" key fs.
Proof.
  intros Hm Hf Hk. case_decide as E; [subst key; by apply read_in_set; auto with conf|]. apply read_in_set_key; auto with conf.
Qed.

Lemma mode_set_intro pubs caches fs fs' i m :
  (∀ key, key_ok key → read_in i "cefnetd.conf" key fs' = if decide (key = CS_MODE) then Some m else read_in i "cefnetd.conf" key fs) →
  (m = "2" ↔ i ∈ caches) → (i ∈ pubs → m = "1" ∨ m = "2") → mode_set pubs caches fs fs' i.
Proof.
  intros Hr Hc Hp. pose proof (Hr CS_MODE key_cs_mode) as Hm. rewrite decide_True in Hm by done. split.
  - rewrite Hm, <- Hc. split; congruence.
  - intros Hi. rewrite Hm. destruct (Hp Hi) as [-> | ->]; set_solver.
  - intros key Hk Hne. rewrite Hr, decide_False by done. done.
Qed.

Lemma settings_modes host_num caches s pubs fs i :
  0 ≤ i < host_num → is_Some (fs !! (i, "cefnetd.conf")) →
  mode_set pubs caches fs (apply_cache_node_settings host_num caches s pubs fs) i.
Proof.
  intros Hi Hf. destruct (decide (i ∈ caches)) as [Hc|Hc].
  - eapply mode_set_same; [by apply settings_cache|]. apply (mode_set_intro _ _ _ _ _ "2"); [|tauto|by right].
    intros key Hk. unfold apply_cache_node. rewrite (proj2 (Z.ltb_ge i 0)), (proj2 (Z.leb_gt host_num i)) by lia. cbn [orb]. cbv zeta.
    rewrite !read_set_some. by apply read_mode.
  - eapply mode_set_same; [by apply settings_other|]. unfold apply_other_node. rewrite bool_decide_eq_false_2 by done.
    case_bool_decide as Hp.
    { apply (mode_set_intro _ _ _ _ _ "1"); [|split; [discriminate|done]|by left]. intros key Hk. by apply read_mode. }
    case_bool_decide as Hm.
    { apply (mode_set_intro _ _ _ _ _ "0"); [|split; [discriminate|done]|done]. intros key Hk. by apply read_mode. }
    split; [tauto|done|done].
Qed.

(** The per-node overrides write into csmgrd.conf. *)
Lemma foldM_keeps {A B} (P : B → Prop) (f : B → A → res B) l b b' :
  (∀ b a b', P b → f b a = Ok b' → P b') → P b → foldM f b l = Ok b' → P b'.
Proof.
  intros Hf. revert b. induction l as [|a l IH]; intros b Hb; simpl; [by intros [= <-]|].
  intros (b1 & H1 & H2)%res_bind_Ok. eauto.
Qed.

Lemma overrides_modes m caches fs fs' i key : foldM (apply_overrides m) fs caches = Ok fs' →
  read_in i "cefnetd.conf" key fs' = read_in i "cefnetd.conf" key fs.
Proof.
  apply (foldM_keeps (λ fs', read_in i "cefnetd.conf" key fs' = read_in i "cefnetd.conf" key fs)); [|done].
  intros fs1 j fs2 <-. unfold apply_overrides. destruct (node_overrides m !! j) as [o|]; [|by intros [= <-]].
  apply (foldM_keeps (λ fs', read_in i "cefnetd.conf" key fs' = read_in i "cefnetd.conf" key fs1)); [|done].
  intros fs3 [f k] fs4 <-. unfold apply_field. simpl. destruct (dget o f); [|by intros [= <-]].
  intros (v & _ & [= <-])%res_bind_Ok. unfold read_in. rewrite lookup_set_in, decide_False; [done|congruence].
Qed.

Lemma place_nodes_modes p fs caches fs' i :
  (∀ m, manager p = Some m → m_host_count m = host_count p ∧ m_publisher_ids m = publisher_ids p) →
  place_nodes p fs = Ok (caches, fs') → 0 ≤ i < host_count p → is_Some (fs !! (i, "cefnetd.conf")) →
  mode_set (publisher_ids p) caches fs fs' i.
Proof.
  intros Hm Hp Hi Hf. unfold place_nodes in Hp. apply res_bind_Ok in Hp as (nodes & _ & Hp). apply res_bind_Ok in Hp as (fs1 & Hp & E).
  injection E as <- <-. destruct (manager p) as [m|]; [|injection Hp as <-; by apply settings_modes].
  destruct (Hm m eq_refl) as [Hn Hpub]. unfold apply_configs in Hp. apply res_bind_Ok in Hp as (s & _ & Hp).
  rewrite <- Hn in Hi. rewrite <- Hpub. destruct (settings_modes (m_host_count m) (list_to_set nodes) s (m_publisher_ids m) fs i Hi Hf) as [H1 H2 H3].
  split; intros; rewrite (overrides_modes _ _ _ _ _ _ Hp); auto.
Qed.
End modes.

(** ** Random modes *)

Section random.
Context `{ChoiceLaw}.

Lemma cs_modes_hosts pubs idxs r : fst <$> cs_modes_loop pubs idxs r = idxs.
Proof.
  revert r. induction idxs as [|i idxs IH]; intros r; [done|]. simpl.
  destruct (if bool_decide (i ∈ pubs) then _ else _) as [mode r']. simpl. by rewrite IH.
Qed.

Lemma cs_modes_range pubs idxs r i mode : (i, mode) ∈ cs_modes_loop pubs idxs r →
  (mode = 1 ∨ mode = 2) ∨ (mode = 0 ∧ i ∉ pubs).
Proof.
  revert r. induction idxs as [|j idxs IH]; intros r; [by intros ?%elem_of_nil|]. simpl.
  case_bool_decide as Hj.
  - pose proof (choice_in _ 1 [2] r) as Hc. destruct (choice 1 [2] r) as [m r']. simpl in *.
    intros [E|Hin]%elem_of_cons; [injection E as -> ->; set_solver|by eapply IH].
  - pose proof (choice_in _ 0 [1; 2] r) as Hc. destruct (choice 0 [1; 2] r) as [m r']. simpl in *.
    intros [E|Hin]%elem_of_cons; [|by eapply IH]. injection E as -> ->.
    apply elem_of_cons in Hc as [->|Hc]; [by right|]. left. set_solver.
Qed.

Lemma str_mode m : (m = 0 ∨ m = 1 ∨ m = 2) →
  no_breaks (str_Z m) = true ∧ strip (str_Z m) = str_Z m ∧ (str_Z m = "2" ↔ m = 2) ∧ (str_Z m = "1" ↔ m = 1).
Proof. intros [-> | [-> | ->]]; (split_and!; [done|done|split; done..]). Qed.

Lemma random_modes host_num pubs r fs i :
  let modes := assign_random_cs_modes (range host_num) pubs r in
  0 ≤ i < host_num → is_Some (fs !! (i, "cefnetd.conf")) →
  mode_set pubs (list_to_set (fst <$> List.filter (λ im : Z * Z, im.2 =? 2) modes)) fs (apply_cs_modes modes fs) i.
Proof.
  intros modes Hi Hf. assert (Hnd : NoDup (fst <$> modes)).
  { unfold modes, assign_random_cs_modes. rewrite cs_modes_hosts, sorted_list_Permutation. apply NoDup_range. }
  assert (Hin : i ∈ fst <$> modes).
  { unfold modes, assign_random_cs_modes. by rewrite cs_modes_hosts, elem_of_sorted_list, elem_of_range. }
  apply list_elem_of_fmap in Hin as ([i' m] & -> & Him). simpl in *.
  destruct (str_mode m) as (Hb & Hs & H2 & H1).
  { destruct (cs_modes_range _ _ _ _ _ Him) as [[-> | ->]|[-> _]]; auto. }
  eapply mode_set_same; [apply (foldl_host fst _ _ (i', m)); [apply host_step_set|done..]|]. simpl.
  apply (mode_set_intro _ _ _ _ _ (str_Z m)).
  - intros key Hk. rewrite read_mode by done. by rewrite Hs.
  - rewrite H2, elem_of_list_to_set, list_elem_of_fmap. split.
    + intros ->. exists (i', 2). split; [done|]. apply list_elem_of_In, filter_In. split; [by apply list_elem_of_In|done].
    + intros ([j m'] & Ej & [Hj ?%Z.eqb_eq]%list_elem_of_In%filter_In). simpl in *. subst j m'.
      apply list_elem_of_In in Hj. by apply (NoDup_fst_fun modes i' m 2).
  - intros Hp. rewrite H1, H2. destruct (cs_modes_range _ _ _ _ _ Him) as [?|[_ ?]]; [done|contradiction].
Qed.
End random.

(** ** Roles *)

Section role_modes.
Context `{ChoiceLaw}.

Lemma assign_hosts host_num pubs idxs r : fst <$> (assign_loop host_num pubs idxs r).1 = idxs.
Proof.
  revert r. induction idxs as [|i idxs IH]; intros r; [done|]. simpl. destruct (assign_role host_num pubs i r) as [role r'].
  specialize (IH r'). destruct (assign_loop host_num pubs idxs r') as [roles r'']. simpl in *. by f_equal.
Qed.

Lemma assign_role_cases host_num pubs i r : let role := (assign_role host_num pubs i r).1 in
  role ∈ [CONSUMER; PUBLISHER; ROUTER] ∧ (i ∈ pubs → role = PUBLISHER).
Proof.
  unfold assign_role. cbv zeta. case_bool_decide as Hi; [split; [set_solver|done]|]. split; [|done].
  repeat case_match; simpl; try set_solver. pose proof (choice_in _ CONSUMER [PUBLISHER] r) as Hc. set_solver.
Qed.

Lemma assign_roles_cases host_num pubs idxs r i role : (i, role) ∈ (assign_loop host_num pubs idxs r).1 →
  role ∈ [CONSUMER; PUBLISHER; ROUTER] ∧ (i ∈ pubs → role = PUBLISHER).
Proof.
  revert r. induction idxs as [|j idxs IH]; intros r; [by intros ?%elem_of_nil|]. simpl.
  pose proof (assign_role_cases host_num pubs j r) as Hc. destruct (assign_role host_num pubs j r) as [role' r']. simpl in Hc.
  specialize (IH r'). destruct (assign_loop host_num pubs idxs r') as [roles r'']. simpl in *.
  intros [E|Hin]%elem_of_cons; [injection E as -> ->; done|by apply IH].
Qed.

Lemma role_of_in roles i role : NoDup (fst <$> roles) → (i, role) ∈ roles → role_of roles i = Some role.
Proof.
  induction roles as [|[j r] roles IH]; intros Hnd Hin; [by apply elem_of_nil in Hin|]. simpl in *.
  apply NoDup_cons in Hnd as [Hj Hnd]. apply elem_of_cons in Hin as [E|Hin].
  - injection E as -> ->. by rewrite Z.eqb_refl.
  - destruct (Z.eqb_spec j i) as [->|_]; [|by apply IH]. destruct Hj. by apply (list_elem_of_fmap_2 fst _ (i, role)).
Qed.
End role_modes.

(** The node directories are provisioned from the templates of the roles, whose
    cefnetd.conf has the mode of the role. *)
Definition strategy_ready `{Choice} (strategy : CacheStrategy) (ctx : CacheContext) (fs : files) : Prop :=
  match strategy with
  | RolesCacheStrategy roles =>
      (∃ r, roles = (assign_roles (c_host_count ctx) r (c_publisher_ids ctx)).1) ∧
      ∀ i role, (i, role) ∈ roles → read_in i "cefnetd.conf" CS_MODE fs = Some (str_Z (cs_mode role))
  | _ => True
  end.

Lemma roles_modes `{FloatRepr} `{ChoiceLaw} roles ctx fs i :
  strategy_ready (RolesCacheStrategy roles) ctx fs → 0 ≤ i < c_host_count ctx →
  mode_set (c_publisher_ids ctx) (list_to_set (List.filter (role_caches roles) (range (c_host_count ctx)))) fs fs i.
Proof.
  intros [[r Er] Hmodes] Hi.
  assert (Hhosts : fst <$> roles = range (c_host_count ctx)) by (rewrite Er; apply assign_hosts).
  assert (Hnd : NoDup (fst <$> roles)) by (rewrite Hhosts; apply NoDup_range).
  assert (Hin : i ∈ fst <$> roles) by (rewrite Hhosts; by apply elem_of_range).
  apply list_elem_of_fmap in Hin as ([i' role] & -> & Hin). simpl in *.
  assert (Hcase : role ∈ [CONSUMER; PUBLISHER; ROUTER] ∧ (i' ∈ c_publisher_ids ctx → role = PUBLISHER)).
  { rewrite Er in Hin. by eapply assign_roles_cases. }
  destruct Hcase as [Hcase Hpub].
  assert (Hcaches : role_caches roles i' = runs_csmgrd role) by (unfold role_caches; by rewrite (role_of_in _ _ role)).
  apply (mode_set_intro _ _ _ _ _ (str_Z (cs_mode role))).
  - intros key _. case_decide as E; [subst key; by apply Hmodes|done].
  - rewrite elem_of_list_to_set, list_elem_of_In, filter_In, <- list_elem_of_In, elem_of_range, Hcaches.
    apply elem_of_cons in Hcase as [->|[->|[->|?%elem_of_nil]%elem_of_cons]%elem_of_cons]; [..|done]; simpl;
      (split; [discriminate|intros [_ ?]; discriminate]) || (split; [done|done]).
  - intros Hp. rewrite (Hpub Hp). by left.
Qed.

(** C16: cefnetd and csmgrd agree on who caches. After the placement of any
    strategy - configured, legacy k-centers, random or by roles - every host with
    a cefnetd.conf runs in mode 2, in which cefnetd waits for csmgrd, exactly when
    it is one of the cache nodes, on which the fleet starts csmgrd; a publisher
    keeps a content store (mode 1 or 2); and no other entry of a cefnetd.conf
    changes. *)
Theorem modes_match_caches `{FloatRepr} `{ChoiceLaw} strategy r ctx fs caches fs' i :
  strategy_ready strategy ctx fs → place strategy r ctx fs = Ok (caches, fs') →
  0 ≤ i < c_host_count ctx → is_Some (fs !! (i, "cefnetd.conf")) →
  (read_in i "cefnetd.conf" CS_MODE fs' = Some "2" ↔ i ∈ caches) ∧
  (i ∈ c_publisher_ids ctx → read_in i "cefnetd.conf" CS_MODE fs' ∈ [Some "1"; Some "2"]) ∧
  (∀ key, key_ok key → key ≠ CS_MODE → read_in i "cefnetd.conf" key fs' = read_in i "cefnetd.conf" key fs).
Proof.
  intros Hready Hp Hi Hf. assert (Hm : mode_set (c_publisher_ids ctx) caches fs fs' i); [|by destruct Hm].
  destruct strategy as [cc count down excl rct| |roles]; simpl in Hp.
  - apply res_bind_Ok in Hp as (p & Ep & Hp). unfold CachePlacement_init in Ep. apply res_bind_Ok in Ep as (m & Em & E).
    injection E as <-. apply (place_nodes_modes _ _ _ _ i) in Hp; [done| |done..]. simpl. intros m' ->.
    destruct cc as [|kv cc]; [by injection Em|]. unfold CacheConfigManager_init in Em.
    destruct (parse_node_overrides _) as [o|e|]; simpl in Em; try discriminate Em. by injection Em as <-.
  - injection Hp as <- <-. by apply random_modes.
  - injection Hp as <- <-. by apply roles_modes.
Qed.

(** * A placement *)

#[local] Instance demo_repr : FloatRepr := λ _, "".
#[local] Instance demo_choice : Choice := {| chooser := unit; choice := λ A x l r, (x, r) |}.
#[local] Instance demo_choice_law : ChoiceLaw.
Proof. intros A x l r. by left. Qed.

Definition demo_rng : chooser := tt.
Definition demo_cache : pydict :=
  [(PStr "strategy", PStr "manual"); (PStr "default", PDict [(PStr "capacity", PInt 1000); (PStr "algorithm", PStr "LRU")]);
   (PStr "nodes", PList [PDict [(PStr "id", PInt 1); (PStr "capacity", PInt 5)]])].
Definition demo_strategy : CacheStrategy := KCentersStrategy demo_cache 0 0 true PNone.
Definition demo_ctx : CacheContext := mkContext 3 ∅ {[2]}.
Definition demo_files : files :=
  list_to_map (range 3 ≫= λ i, [((i, "cefnetd.conf"), unlines ["CS_MODE=2"; "PORT_NUM=9896"]);
                                 ((i, "csmgrd.conf"), unlines ["#CACHE_CAPACITY=819200"; "CACHE_TYPE=memory"])]).

Lemma demo_places : match place demo_strategy demo_rng demo_ctx demo_files with
  | Ok (caches, fs') => read_in 1 "cefnetd.conf" CS_MODE fs' = Some "2" ∧ read_in 1 "csmgrd.conf" "CACHE_CAPACITY" fs' = Some "5"
  | _ => False
  end.
Proof. vm_compute. split; reflexivity. Qed.

Lemma modes_match_caches_witness : ∃ caches fs', place demo_strategy demo_rng demo_ctx demo_files = Ok (caches, fs') ∧
  1 ∈ caches ∧ read_in 1 "cefnetd.conf" "PORT_NUM" fs' = Some "9896".
Proof.
  pose proof demo_places as Hp. destruct (place demo_strategy demo_rng demo_ctx demo_files) as [[caches fs']|e|] eqn:E; [|done..].
  exists caches, fs'. split; [done|].
  assert (Hi : 0 ≤ 1 < c_host_count demo_ctx) by (split; [discriminate|reflexivity]).
  assert (Hf : is_Some (demo_files !! (1, "cefnetd.conf"))) by (eexists; vm_compute; reflexivity).
  destruct (modes_match_caches demo_strategy demo_rng demo_ctx demo_files caches fs' 1 I E Hi Hf) as (H1 & _ & H2).
  split; [apply H1, Hp|]. rewrite H2; [vm_compute; reflexivity|split; [discriminate|reflexivity]|discriminate].
Defined.

(** The validator lets a cache node through that is no host: the manual strategy
    selects it, and the fleet is then asked to start csmgrd on a host that does not
    exist. *)
Definition stray_cache : pydict :=
  [(PStr "strategy", PStr "manual"); (PStr "nodes", PList [PDict [(PStr "id", PInt 99)]])].
Example stray_cache_node :
  validate_cache_config [(PStr "hosts", PInt 3); (PStr "cache_config", PDict stray_cache)] = [] ∧
  (p ← CachePlacement_init 3 ∅ ∅ stray_cache 0 0 true PNone; decide_nodes p) = Ok [99].
Proof. vm_compute. split; reflexivity. Qed.
