(* ===== verification/CacheSettings.v ===== *)
(** Component: the cache settings of an accepted configuration
    (src/runtime/cache_manager.py, apply_configs): the default block and the
    per-node overrides as they end up in the csmgrd.conf of each host. *)
From S2P Require Import Prelude PyValue PyString PyNum PyText Graph KCenters Options Validate NodeConf CachePlan.
Local Open Scope Z_scope.

(** * An accepted configuration is applied *)

Section accepted.
Context `{FloatRepr}.

Definition set_opt (i : Z) (key : string) (v : option string) (fs : files) : files :=
  match v with None => fs | Some v => set_in i "csmgrd.conf" key v fs end.
Definition set_fields (i : Z) (vals : string → option string) (l : list (string * string)) (fs : files) : files :=
  foldl (λ fs fk, set_opt i fk.2 (vals fk.1) fs) fs l.

Lemma set_fields_exists i vals l fs p : is_Some (set_fields i vals l fs !! p) ↔ is_Some (fs !! p).
Proof.
  revert fs. induction l as [|[f k] l IH]; intros fs; [done|]. unfold set_fields in *. cbn [foldl fst snd]. rewrite IH.
  unfold set_opt. destruct (vals f); [apply set_in_exists|done].
Qed.

Lemma read_set_fields i vals l fs f k :
  NoDup (snd <$> l) → (∀ f k, (f, k) ∈ l → key_ok k ∧ ∀ v, vals f = Some v → no_breaks v = true) →
  is_Some (fs !! (i, "csmgrd.conf")) → (f, k) ∈ l →
  read_in i "csmgrd.conf" k (set_fields i vals l fs)
    = match vals f with Some v => Some (strip v) | None => read_in i "csmgrd.conf" k fs end.
Proof.
  intros Hnd Hok Hf Hin. assert (Hk : key_ok k) by (by eapply Hok).
  assert (Hout : ∀ l fs, (∀ f k, (f, k) ∈ l → key_ok k ∧ ∀ v, vals f = Some v → no_breaks v = true) → k ∉ (snd <$> l) →
    read_in i "csmgrd.conf" k (set_fields i vals l fs) = read_in i "csmgrd.conf" k fs).
  { clear -Hk. induction l as [|[f k'] l IH]; intros fs Hok Hnot; [done|]. unfold set_fields in *. simpl in *.
    apply not_elem_of_cons in Hnot as [Hne Hnot]. rewrite IH; [|intros; by apply Hok; right|done].
    destruct (Hok f k' ltac:(by left)) as [Hk' Hv]. unfold set_opt. destruct (vals f) as [v|]; [|done].
    apply read_in_set_key; auto. }
  revert fs Hf. induction l as [|[f' k'] l IH]; intros fs Hf; [by apply elem_of_nil in Hin|].
  simpl in Hnd. apply NoDup_cons in Hnd as [Hnot Hnd]. unfold set_fields. cbn [foldl fst snd].
  change (foldl _ ?x l) with (set_fields i vals l x). apply elem_of_cons in Hin as [E|Hin].
  - injection E as <- <-. rewrite Hout; [|intros; by apply Hok; right|done]. unfold set_opt.
    destruct (vals f) as [v|] eqn:Ev; [|done]. apply read_in_set; [done| |done]. by eapply Hok; [left|].
  - rewrite IH; [|done|intros; by apply Hok; right|done|].
    + destruct (vals f); [done|]. destruct (Hok f' k' ltac:(by left)) as [Hk' Hv]. unfold set_opt. destruct (vals f') as [v|]; [|done].
      apply read_in_set_key; auto. intros ->. apply Hnot. by apply (list_elem_of_fmap_2 snd _ (f, k)).
    + unfold set_opt. destruct (vals f'); [by rewrite set_in_exists|done].
Qed.

(** What a value of a field is written as. *)
Definition printed (field : string) (v : pv) : string :=
  py_str (if bool_decide (field = "algorithm") then lib_name _ALGORITHM_LIB_NAMES v else v).
Definition field_value (d : pydict) (field : string) : option string := printed field <$> dget d field.

(** A value the validator accepts. *)
Definition field_ok (field : string) (v : pv) : Prop :=
  hashable v = true ∧ is_none v = false ∧ no_breaks (printed field v) = true ∧ strip (printed field v) = printed field v.

Lemma in_strs_ok field v l : in_strs v l = true →
  (∀ s, s ∈ l → field_ok field (PStr s)) → field_ok field v.
Proof. intros (s & Hs & ->)%in_strs_true Hl. by apply Hl. Qed.

Lemma cache_fields_ok prefix d f k v : validate_cache_fields prefix d = [] → (f, k) ∈ _FIELD_MAP → dget d f = Some v → field_ok f v.
Proof.
  unfold validate_cache_fields. rewrite !app_nil, !check_nil. intros (Hcap & Hrct & Halg & Hty) Hin Hv.
  assert (Hint : ∀ m, f ≠ "algorithm" → 0 ≤ m → int_ge m v = true → field_ok f v).
  { intros m Hf Hm. unfold int_ge. rewrite andb_true_iff, is_int_true, negb_true_iff. intros [[z ->] Hz].
    rewrite num_lt_int, Z.ltb_ge in Hz. unfold field_ok, printed. rewrite bool_decide_eq_false_2 by done.
    destruct (str_Z_plain z ltac:(lia)) as [[Hs _] Hb]. done. }
  unfold _FIELD_MAP in Hin. repeat (apply elem_of_cons in Hin as [E|Hin]; [injection E as -> ->|]); [..|by apply elem_of_nil in Hin].
  - by apply (Hint 1000); auto.
  - by apply (Hint 0); auto.
  - apply (in_strs_ok _ _ cache_algos); [by apply Halg|]. intros s Hs.
    repeat (apply elem_of_cons in Hs as [-> |Hs]; [by vm_compute|]). by apply elem_of_nil in Hs.
  - apply (in_strs_ok _ _ cache_types); [by apply Hty|]. intros s Hs.
    repeat (apply elem_of_cons in Hs as [-> |Hs]; [by vm_compute|]). by apply elem_of_nil in Hs.
Qed.

Definition fields_ok (d : pydict) : Prop := ∀ f k v, (f, k) ∈ _FIELD_MAP → dget d f = Some v → field_ok f v.

Lemma fields_vals d f k : fields_ok d → (f, k) ∈ _FIELD_MAP → key_ok k ∧ ∀ v, field_value d f = Some v → no_breaks v = true.
Proof.
  intros Hd Hin. split.
  - unfold _FIELD_MAP in Hin. repeat (apply elem_of_cons in Hin as [E|Hin]; [injection E as -> ->; by split|]). by apply elem_of_nil in Hin.
  - intros v (w & Hw & ->)%fmap_Some. by destruct (Hd f k w Hin Hw) as (_ & _ & ? & _).
Qed.

Lemma field_value_strip d f k v : fields_ok d → (f, k) ∈ _FIELD_MAP → field_value d f = Some v → strip v = v.
Proof. intros Hd Hin (w & Hw & ->)%fmap_Some. by destruct (Hd f k w Hin Hw) as (_ & _ & _ & ?). Qed.

Lemma normalize_ok v : hashable v = true → normalize_cache_algorithm v = Ok (lib_name _ALGORITHM_LIB_NAMES v).
Proof. intros Hv. unfold normalize_cache_algorithm. by rewrite Hv. Qed.

(** The overrides of a host. *)
Lemma apply_fields_ok i d fs : fields_ok d → foldM (apply_field i d) fs _FIELD_MAP = Ok (set_fields i (field_value d) _FIELD_MAP fs).
Proof.
  intros Hd. unfold set_fields. assert (Hl : ∀ l fs, (∀ fk, fk ∈ l → fk ∈ _FIELD_MAP) →
    foldM (apply_field i d) fs l = Ok (foldl (λ fs fk, set_opt i fk.2 (field_value d fk.1) fs) fs l)); [|by apply Hl].
  induction l as [|[f k] l IH]; intros fs1 Hl; [done|]. cbn [foldM foldl fst snd].
  assert (apply_field i d fs1 (f, k) = Ok (set_opt i k (field_value d f) fs1)) as ->.
  { unfold apply_field, field_value. simpl. destruct (dget d f) as [v|] eqn:E; [|done].
    destruct (Hd f k v (Hl _ ltac:(by left)) E) as (Hh & _). unfold printed, set_opt. simpl.
    case_bool_decide; [by rewrite normalize_ok|done]. }
  simpl. apply IH. intros fk ?. apply Hl. by right.
Qed.

Definition override (overrides : gmap Z pydict) (fs : files) (i : Z) : files :=
  match overrides !! i with None => fs | Some d => set_fields i (field_value d) _FIELD_MAP fs end.

Lemma apply_overrides_ok m l fs : (∀ i d, node_overrides m !! i = Some d → fields_ok d) →
  foldM (apply_overrides m) fs l = Ok (foldl (override (node_overrides m)) fs l).
Proof.
  intros Hd. revert fs. induction l as [|i l IH]; intros fs; [done|]. simpl.
  assert (apply_overrides m fs i = Ok (override (node_overrides m) fs i)) as ->; [|simpl; apply IH].
  unfold apply_overrides, override. destruct (node_overrides m !! i) as [d|] eqn:E; [|done]. apply apply_fields_ok. by eapply Hd.
Qed.

Lemma host_step_override overrides : host_step id (override overrides).
Proof.
  assert (Ho : ∀ i j vals l fs, i ≠ j → same_host j (set_fields i vals l fs) fs).
  { intros i j vals l. induction l as [|[f k] l IH]; intros fs Hne; [done|]. unfold set_fields in *. cbn [foldl fst snd].
    rewrite IH by done. unfold set_opt. destruct (vals f); [by apply same_host_set_other|done]. }
  assert (Hs : ∀ i vals l fs fs', same_host i fs fs' → same_host i (set_fields i vals l fs) (set_fields i vals l fs')).
  { intros i vals l. induction l as [|[f k] l IH]; intros fs fs' Hs; [done|]. unfold set_fields in *. cbn [foldl fst snd].
    apply IH. unfold set_opt. destruct (vals f); [by apply same_host_set|done]. }
  split; unfold override, id; intros a; [intros i fs Hne|intros fs fs' Hss]; destruct (overrides !! a); auto. done.
Qed.
End accepted.

Section accepted_config.
Context `{FloatRepr}.

(** The hosts an entry of [nodes] names, and the entry that counts for a host. *)
Definition entry_ids (d : pydict) : list Z :=
  match override_ids d with
  | Ok ids => omap (λ v, match v with PInt z => Some z | _ => None end) ids
  | _ => []
  end.
Definition names_host (i : Z) (entry : pv) : option pydict :=
  match entry with PDict d => if decide (i ∈ entry_ids d) then Some d else None | _ => None end.
Definition entry_for (nodes : list pv) (i : Z) : option pydict := last (omap (names_host i) nodes).

(** The value of a field that counts for a cache node: its last entry's, or the
    default's. *)
Definition setting_of (default_block : pydict) (nodes : list pv) (i : Z) (field : string) : option pv :=
  match entry_for nodes i ≫= λ d, dget d field with Some v => Some v | None => dget default_block field end.

Definition entry_ok (entry : pv) : Prop := ∃ d, entry = PDict d ∧ fields_ok d ∧
  ∃ ids, override_ids d = Ok ids ∧ Forall (λ v, is_int v = true) ids.

Lemma add_overrides_ok d ids o : Forall (λ v, is_int v = true) ids →
  ∃ o', foldM (add_override d) o ids = Ok o' ∧
    ∀ i, o' !! i = if decide (i ∈ omap (λ v, match v with PInt z => Some z | _ => None end) ids) then Some d else o !! i.
Proof.
  intros Hids. revert o. induction Hids as [|v ids Hv _ IH]; intros o; [by exists o|].
  apply is_int_true in Hv as [z ->]. destruct (IH (<[z := d]> o)) as (o' & Ho & Hl). exists o'. split; [done|].
  intros i. rewrite Hl. change (omap (λ v, match v with PInt z => Some z | _ => None end) (PInt z :: ids)) with (z :: omap (λ v, match v with PInt z => Some z | _ => None end) ids).
  destruct (decide (i ∈ omap _ ids)) as [Hi|Hi].
  { rewrite decide_True; [done|]. apply elem_of_cons. by right. }
  destruct (decide (i = z)) as [->|Hne].
  { rewrite lookup_insert_eq, decide_True; [done|]. apply elem_of_cons. by left. }
  rewrite lookup_insert_ne by done. rewrite decide_False; [done|]. by intros [?|?]%elem_of_cons.
Qed.

Lemma last_cons_default {A} (x : A) l : last (x :: l) = Some (default x (last l)).
Proof. destruct (last l) as [y|] eqn:E; rewrite last_cons, E; done. Qed.

Lemma parse_entries_ok nodes o : Forall entry_ok nodes →
  ∃ o', foldM parse_entry o nodes = Ok o' ∧
    ∀ i, o' !! i = match entry_for nodes i with Some d => Some (dpop d "id") | None => o !! i end.
Proof.
  intros Hn. revert o. induction Hn as [|entry nodes (d & -> & _ & ids & Hids & Hint) _ IH]; intros o; [by exists o|].
  simpl. rewrite Hids. simpl. destruct (add_overrides_ok (dpop d "id") ids o Hint) as (o1 & -> & Hl1). simpl.
  destruct (IH o1) as (o' & -> & Hl). exists o'. split; [done|]. intros i. rewrite Hl, Hl1. unfold entry_for. simpl.
  assert (Hids' : entry_ids d = omap (λ v, match v with PInt z => Some z | _ => None end) ids) by (unfold entry_ids; by rewrite Hids).
  rewrite <- Hids'. destruct (decide (i ∈ entry_ids d)) as [Hi|Hi]; simpl; [|done].
  rewrite last_cons_default. destruct (last _); done.
Qed.

(** ** What the validator's acceptance means *)

Lemma validated_entry j entry : validate_cache_node j entry = [] → entry_ok entry.
Proof.
  unfold validate_cache_node. destruct entry as [| | | | | |d]; try done. cbv zeta.
  rewrite app_nil, when_nil, negb_false_iff. intros [Hids Hfields]. exists d. split; [done|].
  split; [intros f k v; by eapply cache_fields_ok|]. unfold override_ids.
  destruct (get_or d "id" (PList [])) as [| |z| | |l|]; try done; simpl in Hids; eexists; (split; [reflexivity|]).
  - by repeat constructor.
  - apply Forall_forall. intros v Hv. rewrite forallb_forall in Hids. by apply Hids, list_elem_of_In.
Qed.

Record cache_block_ok (cc : pydict) (default_block : pydict) (nodes : list pv) : Prop := {
  cb_strategy : in_strs (get_or cc "strategy" (PStr "k_centers")) cache_strategies = true;
  cb_default : get_or cc "default" (PDict []) = PDict default_block;
  cb_count : ∀ v, dget default_block "count" = Some v → ∃ z, v = PInt z ∧ 0 ≤ z;
  cb_fields : fields_ok default_block;
  cb_nodes : get_or cc "nodes" (PList []) = PList nodes;
  cb_entries : Forall entry_ok nodes;
}.

Lemma validated_block config cc : validate_cache_config config = [] → dget config "cache_config" = Some (PDict cc) →
  ∃ default_block nodes, cache_block_ok cc default_block nodes.
Proof.
  unfold validate_cache_config. rewrite opt_nil. intros Hv Hcc. specialize (Hv _ Hcc). simpl in Hv.
  rewrite !app_nil, when_nil, negb_false_iff in Hv. destruct Hv as (Hs & Hd & Hn).
  destruct (get_or cc "default" (PDict [])) as [| | | | | |d] eqn:Ed; try done.
  destruct (get_or cc "nodes" (PList [])) as [| | | | |nodes|] eqn:En; try done.
  apply app_nil in Hd as [Hc Hf]. rewrite check_nil in Hc. exists d, nodes. split; try done.
  - intros v Hv'. specialize (Hc v Hv'). unfold int_ge in Hc. rewrite andb_true_iff, is_int_true, negb_true_iff in Hc.
    destruct Hc as [[z ->] Hz]. exists z. split; [done|]. by rewrite num_lt_int, Z.ltb_ge in Hz.
  - intros f k v. by eapply cache_fields_ok.
  - rewrite for_idx_nil in Hn. apply Forall_forall. intros e (j & Hj)%list_elem_of_lookup. eapply validated_entry. by apply Hn.
Qed.

Lemma manager_init cc default_block nodes n g pubs : cache_block_ok cc default_block nodes →
  ∃ m, CacheConfigManager_init cc n g pubs = Ok m ∧ m_host_count m = n ∧ m_publisher_ids m = pubs ∧
    m_graph m = g ∧ m_strategy m = get_or cc "strategy" (PStr "k_centers") ∧ default_config m = PDict default_block ∧
    ∀ i, node_overrides m !! i = (λ d, dpop d "id") <$> entry_for nodes i.
Proof.
  intros [_ Hd _ _ Hn He]. unfold CacheConfigManager_init, parse_node_overrides. rewrite Hn, Hd.
  assert (py_list (if truthy (PList nodes) then PList nodes else PList []) = Ok nodes) as -> by (by destruct nodes).
  simpl. destruct (parse_entries_ok nodes ∅ He) as (o & -> & Hl). simpl. eexists. split; [done|]. split_and!; done.
Qed.

Lemma entry_for_ok nodes i d : Forall entry_ok nodes → entry_for nodes i = Some d → fields_ok d.
Proof.
  intros He Hl. unfold entry_for in Hl. apply last_Some_elem_of, list_elem_of_omap in Hl as (e & Hin & Hd).
  rewrite Forall_forall in He. destruct (He e Hin) as (d' & -> & Hf & _). simpl in Hd. case_decide; by simplify_eq.
Qed.

(** ** Selection *)

Lemma count_ok cc default_block nodes m : cache_block_ok cc default_block nodes → default_config m = PDict default_block →
  ∃ z, count_of m = Ok z.
Proof.
  intros Hb Hd. unfold count_of. rewrite Hd. simpl. unfold get_or. destruct (dget default_block "count") as [v|] eqn:E; simpl; [|by eexists].
  destruct (cb_count _ _ _ Hb v E) as (z & -> & _). by eexists.
Qed.

Lemma select_ok cc default_block nodes m exclude : cache_block_ok cc default_block nodes →
  m_strategy m = get_or cc "strategy" (PStr "k_centers") → default_config m = PDict default_block →
  m_strategy m ≠ PStr "random" → ∃ l, select_cache_nodes m exclude = Ok l.
Proof.
  intros Hb Hs Hd Hr. pose proof (cb_strategy _ _ _ Hb) as Hin. rewrite <- Hs in Hin. apply in_strs_true in Hin as (s & Hin & E).
  destruct (count_ok _ _ _ m Hb Hd) as [z Hz]. unfold select_cache_nodes, select_degree_based. rewrite E, Hz. simpl.
  unfold cache_strategies in Hin. repeat (apply elem_of_cons in Hin as [-> |Hin]); [..|by apply elem_of_nil in Hin]; simpl; try congruence; try by eexists.
  - destruct (select_k_centers_spec (m_graph m) z exclude) as (l & Hl & _). by exists l.
Qed.
End accepted_config.

Section applied.
Context `{FloatRepr}.

Lemma lib_name_none names v : is_none (lib_name names v) = is_none v.
Proof. induction names as [|[k lib] names IH]; [done|]. simpl. destruct (eq_str v k) eqn:E; [|done]. by apply eq_str_true in E as ->. Qed.

#[local] Arguments lib_name : simpl never.
#[local] Arguments set_fields : simpl never.
#[local] Arguments field_value : simpl never.

Definition block_settings (d : pydict) : cache_settings :=
  mkSettings (get_none d "default_rct_ms") (get_none d "capacity") (lib_name _ALGORITHM_LIB_NAMES (get_none d "algorithm")) (get_none d "type").

Lemma default_settings_ok m d : fields_ok d → default_config m = PDict d → default_settings m = Ok (block_settings d).
Proof.
  intros Hd Hm. unfold default_settings. rewrite Hm. simpl. rewrite normalize_ok; [done|]. unfold get_or.
  destruct (dget d "algorithm") as [v|] eqn:E; [|done]. simpl. eapply (Hd "algorithm" "CACHE_ALGORITHM"); [|done]. unfold _FIELD_MAP. set_solver.
Qed.

Lemma set_some_opt i f k v d fs : fields_ok d → (f, k) ∈ _FIELD_MAP →
  v = (if bool_decide (f = "algorithm") then lib_name _ALGORITHM_LIB_NAMES (get_none d f) else get_none d f) →
  set_some i k v fs = set_opt i k (field_value d f) fs.
Proof.
  intros Hd Hin ->. unfold set_some, set_opt, field_value, printed, get_none. destruct (dget d f) as [v|] eqn:E; simpl.
  - destruct (Hd f k v Hin E) as (_ & Hnone & _). case_bool_decide; [by rewrite lib_name_none, Hnone|by rewrite Hnone].
  - by case_bool_decide.
Qed.

(** A cache node gets its mode and the default block. *)
Lemma cache_node_fields n d fs i : fields_ok d → 0 ≤ i < n →
  apply_cache_node n (block_settings d) fs i = set_fields i (field_value d) _FIELD_MAP (set_in i "cefnetd.conf" CS_MODE "2" fs).
Proof.
  intros Hd Hi. unfold apply_cache_node. rewrite (proj2 (Z.ltb_ge i 0)), (proj2 (Z.leb_gt n i)) by lia. cbn [orb]. cbv zeta.
  unfold set_fields, _FIELD_MAP. cbn [foldl fst snd].
  rewrite (set_some_opt i "default_rct_ms" "CACHE_DEFAULT_RCT" _ d), (set_some_opt i "capacity" "CACHE_CAPACITY" _ d),
    (set_some_opt i "algorithm" "CACHE_ALGORITHM" _ d), (set_some_opt i "type" "CACHE_TYPE" _ d); try done; unfold _FIELD_MAP; set_solver.
Qed.

Lemma field_map_NoDup : NoDup (snd <$> _FIELD_MAP).
Proof. compute_done. Qed.

Lemma read_fields i d fs f k : fields_ok d → is_Some (fs !! (i, "csmgrd.conf")) → (f, k) ∈ _FIELD_MAP →
  read_in i "csmgrd.conf" k (set_fields i (field_value d) _FIELD_MAP fs)
    = match field_value d f with Some v => Some v | None => read_in i "csmgrd.conf" k fs end.
Proof.
  intros Hd Hf Hin. rewrite (read_set_fields _ _ _ _ f); [|apply field_map_NoDup|intros; by apply fields_vals|done|done].
  destruct (field_value d f) as [v|] eqn:E; [|done]. f_equal. by eapply field_value_strip.
Qed.

Lemma dpop_fields d : fields_ok d → fields_ok (dpop d "id") ∧ ∀ f k, (f, k) ∈ _FIELD_MAP → field_value (dpop d "id") f = field_value d f.
Proof.
  intros Hd. assert (Hid : ∀ k, ("id", k) ∉ _FIELD_MAP) by (intros k; unfold _FIELD_MAP; set_solver).
  assert (Hg : ∀ f k, (f, k) ∈ _FIELD_MAP → dget (dpop d "id") f = dget d f).
  { intros f k Hin. apply dget_dpop. intros <-. by apply (Hid k). }
  split; [intros f k v Hin; rewrite (Hg f k Hin); exact (Hd f k v Hin)|]. intros f k Hin. unfold field_value. by rewrite (Hg f k).
Qed.

Lemma place_accepted m block nodes excl sel cache_count down_count rct g fs :
  fields_ok block → Forall entry_ok nodes → default_config m = PDict block →
  (∀ i, node_overrides m !! i = (λ d, dpop d "id") <$> entry_for nodes i) → select_cache_nodes m excl = Ok sel →
  ∃ caches fs', place_nodes (mkPlacement (m_host_count m) g (m_publisher_ids m) cache_count down_count excl rct (Some m)) fs = Ok (caches, fs') ∧
    (0 < m_host_count m → caches ≠ ∅) ∧
    ∀ i f k, 0 ≤ i < m_host_count m → is_Some (fs !! (i, "csmgrd.conf")) → (f, k) ∈ _FIELD_MAP →
      read_in i "csmgrd.conf" k fs' =
        match (if decide (i ∈ caches) then printed f <$> setting_of block nodes i f else None) with
        | Some v => Some v
        | None => read_in i "csmgrd.conf" k fs
        end.
Proof.
  intros Hblock Hnodes Hd Ho Hsel.
  assert (Hover : ∀ i d, node_overrides m !! i = Some d → fields_ok d).
  { intros i d. rewrite Ho. intros (d' & Hl & ->)%fmap_Some. by apply dpop_fields, (entry_for_ok nodes i). }
  unfold place_nodes, decide_nodes, apply_configs. simpl. rewrite Hsel. simpl. rewrite (default_settings_ok m block) by done. simpl.
  rewrite apply_overrides_ok by done. simpl. eexists _, _. split; [reflexivity|].
  set (caches := list_to_set _). split.
  { intros Hn. unfold caches. destruct sel as [|x sel]; [rewrite (proj2 (Z.ltb_lt 0 _)) by done|]; simpl; set_solver. }
  intros i f k Hi Hf Hin. set (fs1 := apply_cache_node_settings _ _ _ _ _). destruct (decide (i ∈ caches)) as [Hc|Hc].
  - rewrite (same_host_read i _ _ _ _ (foldl_host id _ (sorted_set caches) i fs1 (host_step_override _)
      ltac:(rewrite list_fmap_id; apply NoDup_sorted_set) (proj2 (elem_of_sorted_set _ _) Hc))).
    assert (Hh : same_host i (override (node_overrides m) fs1 i) (override (node_overrides m)
        (set_fields i (field_value block) _FIELD_MAP (set_in i "cefnetd.conf" CS_MODE "2" fs)) i)).
    { apply (host_step_override (node_overrides m)). rewrite <- (cache_node_fields (m_host_count m)) by done. by apply settings_cache. }
    rewrite (same_host_read i _ _ _ _ Hh). unfold override. rewrite Ho.
    assert (He : is_Some (set_fields i (field_value block) _FIELD_MAP (set_in i "cefnetd.conf" CS_MODE "2" fs) !! (i, "csmgrd.conf"))).
    { by rewrite set_fields_exists, set_in_exists. }
    assert (Hdef : read_in i "csmgrd.conf" k (set_fields i (field_value block) _FIELD_MAP (set_in i "cefnetd.conf" CS_MODE "2" fs))
      = match field_value block f with Some v => Some v | None => read_in i "csmgrd.conf" k fs end).
    { rewrite (read_fields i block _ f k); [|done|by rewrite set_in_exists|done]. by rewrite read_in_set_file. }
    unfold setting_of. destruct (entry_for nodes i) as [d|] eqn:Ee; simpl; [|rewrite Hdef; unfold field_value; by destruct (dget block f)].
    destruct (dpop_fields d (entry_for_ok nodes i d Hnodes Ee)) as [Hok Hval].
    rewrite (read_fields i _ _ f k), (Hval f k), Hdef by done. unfold field_value. destruct (dget d f); simpl; [done|]. by destruct (dget block f).
  - rewrite (same_host_read i _ _ _ _ (foldl_other id _ (sorted_set caches) i fs1 (host_step_override _)
      ltac:(by rewrite list_fmap_id, elem_of_sorted_set))).
    unfold fs1. rewrite (same_host_read i _ _ _ _ (settings_other _ _ _ _ fs i Hc Hi)). unfold apply_other_node.
    repeat case_bool_decide; try done; by apply read_in_set_file.
Qed.
End applied.

(** C17: an accepted cache_config is applied to the cache nodes. When the validator
    accepts a configuration with a non-empty cache block whose strategy is not
    [random] (which is another strategy object and draws modes instead), the
    placement returns; there is a cache node whenever there are hosts; and
    afterwards the csmgrd.conf of every host that has one reads, for each of the
    four settings: on a cache node the value of the last entry of nodes that names
    the host, else that of the default block, else what the file said before; on
    any other host what the file said before, also when an entry of nodes names it
    (see [entry_of_no_cache]). *)
Theorem accepted_cache_config `{FloatRepr} `{Choice} config cc cache_count down_count excl rct r ctx fs :
  validate_cache_config config = [] → dget config "cache_config" = Some (PDict cc) → cc ≠ [] →
  get_or cc "strategy" (PStr "k_centers") ≠ PStr "random" →
  ∃ caches fs' default_block nodes,
    place (KCentersStrategy cc cache_count down_count excl rct) r ctx fs = Ok (caches, fs') ∧
    get_or cc "default" (PDict []) = PDict default_block ∧ get_or cc "nodes" (PList []) = PList nodes ∧
    (0 < c_host_count ctx → caches ≠ ∅) ∧
    ∀ i f k, 0 ≤ i < c_host_count ctx → is_Some (fs !! (i, "csmgrd.conf")) → (f, k) ∈ _FIELD_MAP →
      read_in i "csmgrd.conf" k fs' =
        match (if decide (i ∈ caches) then printed f <$> setting_of default_block nodes i f else None) with
        | Some v => Some v
        | None => read_in i "csmgrd.conf" k fs
        end.
Proof.
  intros Hv Hcc Hne Hrandom. destruct (validated_block config cc Hv Hcc) as (block & nodes & Hb).
  destruct (manager_init cc block nodes (c_host_count ctx) (c_host_graph ctx) (c_publisher_ids ctx) Hb)
    as (m & Hm & Hn & Hpubs & _ & Hs & Hd & Ho).
  destruct (select_ok cc block nodes m (if excl then c_publisher_ids ctx else ∅) Hb Hs Hd ltac:(by rewrite Hs)) as [sel Hsel].
  pose proof (place_accepted m block nodes (if excl then c_publisher_ids ctx else ∅) sel cache_count down_count rct
    (c_host_graph ctx) fs (cb_fields _ _ _ Hb) (cb_entries _ _ _ Hb) Hd Ho Hsel) as (caches & fs' & Hp & Hnil & Hread).
  rewrite Hn, Hpubs in *. exists caches, fs', block, nodes. split_and!; [|apply Hb|apply Hb|done|done].
  unfold place, CachePlacement_init. destruct cc; [done|]. rewrite Hm. exact Hp.
Qed.

#[local] Existing Instance demo_repr.
#[local] Existing Instance demo_choice.

Lemma accepted_cache_config_witness : ∃ caches fs', place demo_strategy demo_rng demo_ctx demo_files = Ok (caches, fs') ∧ caches ≠ ∅.
Proof.
  destruct (accepted_cache_config [(PStr "cache_config", PDict demo_cache)] demo_cache 0 0 true PNone demo_rng demo_ctx demo_files)
    as (caches & fs' & _ & _ & Hp & _ & _ & Hne & _); [vm_compute; reflexivity|reflexivity|discriminate|discriminate|].
  exists caches, fs'. split; [exact Hp|]. apply Hne. reflexivity.
Defined.

(** An entry of nodes for a host that is not chosen as a cache has no effect. *)
Definition elsewhere_cache : pydict :=
  [(PStr "strategy", PStr "k_centers"); (PStr "nodes", PList [PDict [(PStr "id", PInt 1); (PStr "capacity", PInt 5)]])].

Example entry_of_no_cache :
  validate_cache_config [(PStr "cache_config", PDict elsewhere_cache)] = [] ∧
  match place (KCentersStrategy elsewhere_cache 1 0 true PNone) demo_rng demo_ctx demo_files with
  | Ok (caches, fs') =>
      bool_decide (1 ∉ caches ∧ read_in 1 "csmgrd.conf" "CACHE_CAPACITY" fs' = read_in 1 "csmgrd.conf" "CACHE_CAPACITY" demo_files)
  | _ => false
  end = true.
Proof. split; vm_compute; reflexivity. Qed.
