(* ===== verification/ScheduledRuns.v ===== *)
(** Composition: the event scheduler run on the events of a configuration that
    validates without messages.  What validation guarantees of an event is what
    the scheduler needs, so the theorems start from [validate_config] alone; the
    one further assumption is that the times are numbers a clock can add without
    losing the order (ints of at most 53 bits, doubles that are not NaN), which
    validation does not check. *)
From S2P Require Import Prelude PyValue PyNum Events Validate ValidateEvents ValidateConfig ComputeClient Scheduler.
Local Open Scope Z_scope.

(** * From accepted events to good events *)

(** A time whose sums keep the order of the clock. *)
Definition representable (v : pv) : Prop :=
  match v with PInt z => z ≤ 2 ^ 53 | PFloat x => is_double x ∧ not_nan x | _ => True end.

(** The times of an event. *)
Definition timed (ev : pydict) : Prop :=
  representable (due ev) ∧
  ∀ rep, get_none ev "repeat" = PDict rep →
    representable (get_none rep "interval") ∧ representable (get_none rep "duration").

Lemma accepted_time v :
  is_number v = true → num_lt v (int_f 0) = false → representable v → time_ok v.
Proof.
  intros [[z ->]|[x ->]]%is_number_true Hlt; simpl.
  - rewrite num_lt_int in Hlt. lia.
  - intros [Hd Hn]. split; [done|]. unfold num_lt in Hlt. simpl in Hlt. unfold nonneg.
    destruct (float_le (FFin 0 0) x) eqn:E; [done|]. apply float_lt_not_le in E; [|done..].
    unfold int_f in Hlt. congruence.
Qed.

Lemma num_le_lt v c : num_le v c = false → num_lt v c = false.
Proof. unfold num_le, num_lt, float_le. destruct (as_num v); [|done]. by intros [? _]%orb_false_iff. Qed.

Lemma accepted_repeat_ok rep :
  repeat_shape rep → representable (get_none rep "interval") → representable (get_none rep "duration") →
  repeat_ok rep.
Proof.
  intros [Hi Hd Hc] Ri Rd. split; [| |done]; intros v Hv.
  - destruct (Hi v Hv) as [? ?]. rewrite (get_none_dget _ _ _ Hv) in Ri. by apply accepted_time, Ri; [|apply num_le_lt].
  - destruct (Hd v Hv) as [? ?]. rewrite (get_none_dget _ _ _ Hv) in Rd. by apply accepted_time.
Qed.

(** Every type of the schema has a handler. *)
Lemma known_handler t : t ∈ event_types → t ∈ handler_types.
Proof.
  unfold event_types. cbn [EVENT_SCHEMA fmap list_fmap fst]. unfold handler_types.
  rewrite !elem_of_cons, !elem_of_nil. tauto.
Qed.

Lemma accepted_ready hosts ev : event_accepted hosts ev → timed ev → ready ev.
Proof.
  intros [(a & Ha & Hnum & Hlt) (t & Ht & Hr) (o & Ho & Hres) Hrep] [Tat Trep].
  unfold due in Tat. rewrite (get_none_dget _ _ _ Ha) in Tat.
  split; [|exists a; split; [done|by apply accepted_time]]. split.
  - exists t. split; [done|]. by apply known_handler, (hr_type _ _ _ Hr).
  - destruct (dget ev "repeat") as [v|] eqn:Hv; [right|left; by apply get_none_absent].
    destruct (Hrep v eq_refl) as (rep & -> & Hshape). exists rep.
    rewrite (get_none_dget _ _ _ Hv). split; [done|].
    destruct (Trep rep) as [? ?]; [by apply get_none_dget|]. by apply accepted_repeat_ok.
  - exists o. split; [done|]. intros r Hor. destruct (Hres r Hor) as (t' & Ht' & _ & Hr').
    exists t'. split; [done|]. by apply known_handler, (hr_type _ _ _ Hr').
Qed.

Section accepted.
Context `{FloatRepr} `{IpLib}.

Lemma accepted_events config evs :
  validate_config config = Ok [] → dget config "events" = Some (PList (PDict <$> evs)) →
  Forall (event_accepted (get_none config "hosts")) evs.
Proof.
  intros (_ & _ & Hev & _)%accepted_blocks He. apply Forall_forall. intros ev Hin.
  destruct (validate_events_accepted _ _ Hev He (PDict ev)) as (ev' & [= <-] & ?); [|done].
  by apply list_elem_of_fmap_2.
Qed.

Lemma accepted_all_ready config evs :
  validate_config config = Ok [] → dget config "events" = Some (PList (PDict <$> evs)) →
  Forall timed evs → Forall ready evs.
Proof.
  intros Hv He Ht. pose proof (accepted_events _ _ Hv He) as Ha.
  eapply Forall_impl; [exact (proj2 (Forall_and _ _) (conj Ha Ht))|]. intros ev [? ?]. by eapply accepted_ready.
Qed.
End accepted.

(** * The order of the initial heap *)

(** The entry of the [i]-th configured event. *)
Definition initial_entry (i : nat) (ev : pydict) : entry :=
  mkEntry (due ev) (match event_priority ev with Ok p => p | _ => 0 end) (Z.of_nat i) ev.

Lemma entry_lt_spec a b :
  clock_ok (e_at a) → clock_ok (e_at b) →
  entry_lt a b = true ↔ at_le (e_at a) (e_at b) ∧
    (at_le (e_at b) (e_at a) → e_prio a < e_prio b ∨ e_prio a = e_prio b ∧ e_seq a < e_seq b).
Proof.
  intros (x & Hx & Hxn & _)%clock_num (y & Hy & Hyn & _)%clock_num.
  unfold entry_lt, at_le, at_eq, at_lt. rewrite Hx, Hy.
  destruct (float_eq x y) eqn:He.
  - apply float_eq_le in He as [H1 H2]. rewrite orb_true_iff, andb_true_iff, !Z.ltb_lt, Z.eqb_eq. tauto.
  - rewrite float_lt_not_le by done. split.
    + intros Hle. split; [|congruence]. unfold float_le.
      assert (float_lt x y = true) as -> by (by apply float_lt_not_le). done.
    + intros [Hle Hk]. destruct (float_le y x) eqn:Hyx; [|done].
      by rewrite (float_le_antisym _ _ Hle Hyx) in He.
Qed.

Lemma entry_lt_trans a b c :
  clock_ok (e_at a) → clock_ok (e_at b) → clock_ok (e_at c) →
  entry_lt a b = true → entry_lt b c = true → entry_lt a c = true.
Proof.
  intros Ha Hb Hc. rewrite !entry_lt_spec by done. intros [Hab Kab] [Hbc Kbc].
  split; [by eapply at_le_trans|]. intros Hca.
  assert (at_le (e_at b) (e_at a)) as Hba by (by eapply at_le_trans).
  assert (at_le (e_at c) (e_at b)) as Hcb by (by eapply at_le_trans).
  specialize (Kab Hba). specialize (Kbc Hcb). lia.
Qed.

Lemma entry_lt_total a b :
  clock_ok (e_at a) → clock_ok (e_at b) → e_seq a ≠ e_seq b →
  entry_lt a b = false → entry_lt b a = true.
Proof.
  intros Ha Hb Hseq Hlt. apply entry_lt_spec; [done..|].
  assert (Hn : ¬ entry_lt a b = true) by (by rewrite Hlt). rewrite entry_lt_spec in Hn by done.
  destruct (at_cases _ _ Ha Hb) as [[Hle [He|[He Hl]]]|(Hle & He & Hl)].
  - apply clock_num in Ha as (x & Hx & _), Hb as (y & Hy & _). unfold at_le, at_eq in *. rewrite Hx, Hy in *.
    apply float_eq_le in He as [? ?]. split; [done|]. intros _.
    destruct (Z.lt_trichotomy (e_prio a) (e_prio b)) as [|[|]]; [tauto| |tauto].
    destruct (Z.lt_trichotomy (e_seq a) (e_seq b)) as [|[|]]; [tauto|done|]. right. lia.
  - unfold entry_lt in Hlt. rewrite He in Hlt. congruence.
  - split; [done|]. intros Hab. exfalso.
    apply clock_num in Ha as (x & Hx & _), Hb as (y & Hy & _). unfold at_le, at_eq in *. rewrite Hx, Hy in *.
    by rewrite (float_le_antisym _ _ Hab Hle) in He.
Qed.

(** A heap in strict order stays in strict order under a push with a new number. *)
Definition ordered (h : list entry) : Prop := StronglySorted (λ a b, entry_lt a b = true) h.

Lemma heappush_ordered e h :
  entry_ok e → Forall entry_ok h → (∀ x, x ∈ h → e_seq x ≠ e_seq e) → ordered h → ordered (heappush e h).
Proof.
  intros He Hall Hseq Hs. induction Hs as [|x h Hs IH Hx]; simpl; [repeat constructor|].
  apply Forall_cons in Hall as [Hxo Hall]. destruct (entry_lt e x) eqn:Hlt.
  - constructor; [by constructor|]. constructor; [done|].
    rewrite Forall_forall in Hx, Hall |- *. intros y Hy.
    apply (entry_lt_trans e x y); [apply He|apply Hxo|by apply Hall|done|by apply Hx].
  - constructor; [apply IH; [done|intros y Hy; apply Hseq; by right]|].
    rewrite heappush_perm. constructor; [|done].
    apply entry_lt_total; [apply He|apply Hxo| |done]. intros E. by apply (Hseq x); [left|].
Qed.

(** The constructor sorts the events by time, then priority, then position. *)
Lemma init_ordered events :
  Forall ready events →
  ∃ st, EventScheduler_init events = Ok st ∧ ordered (heap st) ∧ heap st ≡ₚ imap initial_entry events.
Proof.
  intros Hall. unfold EventScheduler_init.
  assert (Hgen : ∀ done st, sched_ok st → ordered (heap st) → heap st ≡ₚ imap initial_entry done →
    seq st = Z.of_nat (length done) → ∃ st',
    foldM (λ st event, at_sec ← getitem event "at"; push_event st at_sec event) st events = Ok st' ∧
    ordered (heap st') ∧ heap st' ≡ₚ imap initial_entry (done ++ events)).
  { induction Hall as [|ev events (Hg & a & Ha & Hta) Hall IH]; intros pre st Hst Hord Hp Hseq.
    { exists st. by rewrite app_nil_r. }
    apply time_clock in Hta. destruct (push_event_ok st a ev Hta Hg) as [prio E].
    assert (Hprio : event_priority ev = Ok prio).
    { unfold push_event in E. apply clock_num in Hta as (x & Hx & _). rewrite Hx in E.
      apply res_bind_Ok in E as (p & Hpe & E). rewrite Hpe. injection E as E.
      assert (Hin : mkEntry a p (seq st) ev ∈ heappush (mkEntry a prio (seq st) ev) (heap st)).
      { rewrite <- E, heappush_perm. by left. }
      rewrite heappush_perm in Hin. apply elem_of_cons in Hin as [[= ->]|Hin]; [done|].
      rewrite Hp in Hin. apply elem_of_lookup_imap in Hin as (i & ev' & Heq & Hi%lookup_lt_Some).
      injection Heq as _ _ Hs _. lia. }
    assert (Hent : mkEntry a prio (seq st) ev = initial_entry (length pre) ev).
    { unfold initial_entry, due. by rewrite (get_none_dget _ _ _ Ha), Hprio, Hseq. }
    rewrite Hent in E.
    destruct (IH (pre ++ [ev]) (mkSched (heappush (initial_entry (length pre) ev) (heap st)) (seq st + 1)))
      as (st' & E' & ? & Hp').
    - apply heappush_ok; [|done]. rewrite <- Hent. by split.
    - apply heappush_ordered; [rewrite <- Hent; by split|apply Hst| |done].
      intros x Hx. rewrite Hp in Hx. apply elem_of_lookup_imap in Hx as (i & ev' & -> & Hi%lookup_lt_Some).
      simpl. lia.
    - simpl. rewrite heappush_perm, Hp, imap_app. simpl. rewrite Nat.add_0_r. by rewrite Permutation_cons_append.
    - simpl. rewrite length_app. simpl. lia.
    - exists st'. cbn [foldM]. assert (getitem ev "at" = Ok a) as -> by (unfold getitem; by rewrite Ha).
      cbn [mbind res_bind]. rewrite E. cbn [mbind res_bind]. split_and!; [done..|].
      by rewrite Hp', <- app_assoc. }
  destruct (Hgen [] (mkSched [] 0)) as (st & E & Ho & Hp); [by repeat constructor..|].
  by exists st.
Qed.

(** * Handlers find their fields *)

(** An event that can be dispatched, and so can the event its repeat restores. *)
Record serviceable (hosts : pv) (ev : pydict) : Prop := {
  sv_ready : ∃ t, dget ev "type" = Some (PStr t) ∧ handler_ready hosts t ev;
  sv_restore : restore_ready hosts ev;
}.

(** A push is the restored event or the event itself with another repeat. *)
Lemma pushes_form ev a l t r :
  pushes ev a = Ok l → (t, r) ∈ l →
  build_restore_event ev = Ok (Some r) ∨
  ∃ rep rep', get_none ev "repeat" = PDict rep ∧ r = dset ev (PStr "repeat") (PDict rep') ∧
    ∀ k, k ≠ "count" → dget rep' k = dget rep k.
Proof.
  unfold pushes. destruct (get_none ev "repeat") as [| | | | | |rep] eqn:Hrep;
    try (by intros [= <-] ?%elem_of_nil).
  intros (l1 & H1 & (l2 & H2 & [= <-])%res_bind_Ok)%res_bind_Ok [Hin|Hin]%elem_of_app.
  - left. unfold restore_pushes in H1. destruct (dget rep "duration") as [d|];
      [destruct (at_lt (PInt 0) d)|]; try (simplify_eq; by apply elem_of_nil in Hin).
    apply res_bind_Ok in H1 as (t' & _ & [= <-]).
    destruct (build_restore_event ev) as [[r'|]| |]; try by apply elem_of_nil in Hin.
    apply list_elem_of_singleton in Hin. by simplify_eq.
  - right. unfold next_pushes in H2. destruct (at_lt _ _); [|simplify_eq; by apply elem_of_nil in Hin].
    assert (Hagain : ∀ rep', (∀ k, k ≠ "count" → dget rep' k = dget rep k) →
      (t0 ← py_add a (get_or rep "interval" (PInt 0)); Ok [(t0, dset ev (PStr "repeat") (PDict rep'))]) = Ok l2 →
      ∃ rep0 rep', PDict rep = PDict rep0 ∧ r = dset ev (PStr "repeat") (PDict rep') ∧
        ∀ k, k ≠ "count" → dget rep' k = dget rep0 k).
    { intros rep' Hsame (t' & _ & [= <-])%res_bind_Ok. apply list_elem_of_singleton in Hin. simplify_eq. eauto. }
    destruct (get_none rep "count") as [| |c| | | |]; try (by apply (Hagain rep)).
    destruct (c <=? 1); [simplify_eq; by apply elem_of_nil in Hin|].
    apply (Hagain (dset rep (PStr "count") (PInt (c - 1)))); [|done].
    intros k Hk. by rewrite dget_dset, bool_decide_eq_false_2.
Qed.

Lemma ready_fields hosts t ev ev' :
  (∀ k, k ≠ "repeat" → dget ev' k = dget ev k) → "repeat" ∉ schema_fields t →
  handler_ready hosts t ev → handler_ready hosts t ev'.
Proof.
  intros Hk Hno [Ht Hf Hh Hn Hu Hp]. split; [done|..].
  - intros f Hin. rewrite Hk by congruence. by apply Hf.
  - intros v Hin. rewrite Hk by done. by apply Hh.
  - intros Hin. rewrite Hk by done. by apply Hn.
  - intros v Hin. rewrite Hk by done. by apply Hu.
  - intros v Hin. rewrite Hk by done. by apply Hp.
Qed.

Lemma no_repeat_field t : t ∈ event_types → "repeat" ∉ schema_fields t.
Proof.
  unfold event_types. cbn [EVENT_SCHEMA fmap list_fmap fst]. rewrite !elem_of_cons, elem_of_nil.
  intros Ht. destruct_or! Ht; try done; subst t; known_type.
Qed.

Lemma serviceable_push hosts ev a l t r :
  serviceable hosts ev → pushes ev a = Ok l → (t, r) ∈ l → serviceable hosts r.
Proof.
  intros [(ty & Hty & Hr) Hres] Hl Hin. destruct (pushes_form ev a l t r Hl Hin) as [Hb|(rep & rep' & Hrep & -> & Hsame)].
  - destruct Hres as (o & Ho & Hro). rewrite Hb in Ho. injection Ho as <-.
    destruct (Hro r eq_refl) as (t' & Ht' & _ & Hready). split; [eauto|].
    by apply ready_restores_nothing, no_repeat_restores, (restored_no_repeat ev).
  - split.
    + exists ty. rewrite dget_dset, bool_decide_eq_false_2 by done. split; [done|].
      eapply ready_fields; [|apply no_repeat_field, (hr_type _ _ _ Hr)|exact Hr].
      intros k Hk. by rewrite dget_dset, bool_decide_eq_false_2.
    + unfold restore_ready. by rewrite (restore_dset ev rep rep') by (done || by apply Hsame).
Qed.

Lemma pops_inv (P : pydict → Prop) n st :
  (∀ ev a l t r, P ev → pushes ev a = Ok l → (t, r) ∈ l → P r) →
  sched_ok st → (∀ e, e ∈ heap st → P (e_event e)) →
  (∀ e z, e ∈ pops n st → e_at e = PInt z → z ≤ 2 ^ 53) →
  ∀ e, e ∈ pops n st → P (e_event e).
Proof.
  intros HP. revert st. induction n as [|n IH]; intros [h sq] Hst Hh Hz e; [by intros ?%elem_of_nil|].
  destruct h as [|e0 h]; [by intros ?%elem_of_nil|]. simpl in Hz, Hh |- *.
  pose proof Hst as [Hs Hf]. simpl in Hs, Hf. apply StronglySorted_inv in Hs as [Hs _].
  apply Forall_cons in Hf as [Heo Hf].
  assert (Hze : ∀ z, e_at e0 = PInt z → z ≤ 2 ^ 53) by (intros z; apply Hz; by left).
  pose proof (after_pop_ok (mkSched h sq) e0 ltac:(by split) Heo Hze) as Hp.
  destruct (after_pop (mkSched h sq) e0) as [st'|x|].
  2, 3: intros ->%list_elem_of_singleton; apply Hh; by left.
  destruct Hp as (l & Hl & Hok & Hperm).
  intros [->|Hin]%elem_of_cons; [apply Hh; by left|]. revert e Hin. apply IH; [done|..].
  - intros y Hy. assert (Hin : (e_at y, e_event y) ∈ occurrences_of (heap st')) by (by apply (list_elem_of_fmap_2 (λ e, (e_at e, e_event e)))).
    rewrite Hperm, elem_of_app in Hin. destruct Hin as [Hin|Hin].
    + eapply HP; [|exact Hl|exact Hin]. apply Hh. by left.
    + apply list_elem_of_fmap in Hin as (x & [= _ ->] & Hx). apply Hh. by right.
  - intros y z Hy. apply Hz. by right.
Qed.

Lemma field_getitem hosts t ev f :
  handler_ready hosts t ev → f ∈ schema_fields t → ∃ v, getitem ev f = Ok v.
Proof. intros Hr Hf. destruct (hr_fields _ _ _ Hr f Hf) as [v Hv]. exists v. unfold getitem. by rewrite Hv. Qed.

Lemma nodes_found hosts t ev :
  handler_ready hosts t ev → "nodes" ∈ schema_fields t → ∃ a b, event_nodes ev = Ok (a, b).
Proof.
  intros Hr Hn. destruct (hr_nodes _ _ _ Hr Hn) as (a & b & Hnodes & _). exists a, b.
  unfold event_nodes, getitem. by rewrite Hnodes.
Qed.

Ltac field f :=
  let v := fresh "v" in let E := fresh "E" in
  match goal with H : handler_ready _ _ _ |- _ =>
    destruct (field_getitem _ _ _ f H) as [v E]; [known_type|]; rewrite E; cbn [mbind res_bind] end.
Ltac nodes :=
  match goal with H : handler_ready _ _ _ |- _ =>
    destruct (nodes_found _ _ _ H) as (? & ? & ->); [known_type|]; cbn [mbind res_bind] end.

Lemma dispatch_ok ctx hosts t ev :
  handler_ready hosts t ev → ∃ act, handler_action ctx t ev = Ok act.
Proof.
  intros Hr. pose proof (hr_type _ _ _ Hr) as Ht. unfold event_types in Ht.
  cbn [EVENT_SCHEMA fmap list_fmap fst] in Ht. rewrite !elem_of_cons, elem_of_nil in Ht.
  destruct_or! Ht; try done; subst t; unfold handler_action;
    rewrite ?bool_decide_eq_true_2 by done; rewrite ?bool_decide_eq_false_2 by done.
  1, 2: nodes; eauto.
  1, 2, 3: unfold event_route; field "host"; field "prefix"; field "next_hop"; eauto.
  - nodes. field "bandwidth". eauto.
  - unfold event_compute. field "host". field "endpoint". eauto.
  - destruct (content_runner ctx); eauto.
  - destruct (content_runner ctx); eauto.
  - destruct (content_runner ctx); eauto.
  - destruct (content_runner ctx); eauto.
  - destruct (content_runner ctx); eauto.
  - destruct (host_app_fleet ctx); [|eauto]. field "host". eauto.
Qed.

Lemma accepted_serviceable hosts ev : event_accepted hosts ev → serviceable hosts ev.
Proof. intros [_ (t & Ht & Hr) Hres _]. split; [eauto|done]. Qed.

(** * The runs of an accepted configuration *)

(** A sequence of popped entries whose int times a double represents exactly. *)
Definition small_times (l : list entry) : Prop := ∀ e z, e ∈ l → e_at e = PInt z → z ≤ 2 ^ 53.

Definition in_time_order : list entry → Prop := StronglySorted (λ a b, at_le (e_at a) (e_at b)).

(** C5: events fire in the order the configuration means. For a configuration
    that validates, the constructor returns the heap of its events sorted by
    time, then by the priority of the type, then by position. Whatever the thread
    observes (delays, replies, failures, a stop), what it pops is an initial
    segment of one fixed sequence, which no observation reorders; while int times
    stay below 2^53 that sequence, repeats and restores included, is in time
    order, and the handler of each popped event finds every field it reads. *)
Theorem fires_in_order `{FloatRepr} `{IpLib} config evs :
  validate_config config = Ok [] → dget config "events" = Some (PList (PDict <$> evs)) → Forall timed evs →
  ∃ st, EventScheduler_init evs = Ok st ∧
    ordered (heap st) ∧ heap st ≡ₚ imap initial_entry evs ∧
    (∀ ctx obs, ∃ n, entry_of <$> (run ctx obs st).1 = pops n st) ∧
    ∀ n, small_times (pops n st) →
      in_time_order (pops n st) ∧
      ∀ ctx e, e ∈ pops n st →
        ∃ t act, dget (e_event e) "type" = Some (PStr t) ∧ handler_action ctx t (e_event e) = Ok act.
Proof.
  intros Hv He Ht. pose proof (accepted_all_ready _ _ Hv He Ht) as Hready.
  pose proof (accepted_events _ _ Hv He) as Hacc.
  destruct (init_ordered _ Hready) as (st & E & Hord & Hp). destruct (init_ok _ Hready) as (st' & E' & Hok & Hocc).
  rewrite E in E'. injection E' as <-. exists st. split_and!; [done..| |].
  { intros ctx obs. apply run_pops. }
  intros n Hz. split.
  - destruct (heap st) as [|e h] eqn:Eh; [destruct n; simpl; rewrite ?Eh; constructor|].
    apply (pops_ge n st (e_at e)); [done| |done]. rewrite Eh. destruct Hok as [Hs Hf]. rewrite Eh in Hs, Hf.
    apply StronglySorted_inv in Hs as [_ Hs]. apply Forall_cons in Hf as [[He' _] _].
    rewrite Forall_forall in Hs. intros x [->|Hx]%elem_of_cons; [by apply at_le_refl|by apply Hs].
  - intros ctx e Hin.
    assert (Hsv : serviceable (get_none config "hosts") (e_event e)).
    { apply (pops_inv (serviceable (get_none config "hosts")) n st); [by intros; eapply serviceable_push|done| |done|done].
      intros y Hy. assert (Hin' : (e_at y, e_event y) ∈ occurrences_of (heap st)) by (by apply (list_elem_of_fmap_2 (λ e, (e_at e, e_event e)))).
      rewrite Hocc in Hin'. apply list_elem_of_fmap in Hin' as (ev & [= _ ->] & Hev).
      rewrite Forall_forall in Hacc. by apply accepted_serviceable, Hacc. }
    destruct Hsv as [(t & Ht' & Hr) _]. destruct (dispatch_ok ctx _ _ _ Hr) as [act Hact]. eauto.
Qed.

(** The occurrences the events of a configuration make fire. *)
Definition schedule (evs : list pydict) : list occurrence := evs ≫= λ ev, occurrences ev (due ev).

(** The int times of a schedule a double represents exactly. *)
Definition small_schedule (l : list occurrence) : Prop := ∀ z ev, (PInt z, ev) ∈ l → z ≤ 2 ^ 53.

(** C6: the scheduler fires everything and then ends. Take a configuration that
    validates and whose repeats are bounded by a count, and a thread that is not
    told to stop and meets no fatal exception. If it is given as many iterations
    as there are occurrences (each event once, or [count] times [interval] apart,
    every occurrence followed by its restore [duration] later), it ends; what it
    handled is a permutation of exactly those occurrences, each handled once,
    whether or not the operations failed. The only other end is an overflow: a
    time too large for a double or a wait too long for a thread. *)
Theorem fires_everything `{FloatRepr} `{IpLib} config evs ctx obs :
  validate_config config = Ok [] → dget config "events" = Some (PList (PDict <$> evs)) →
  Forall timed evs → Forall finite evs → Forall quiet obs → small_schedule (schedule evs) →
  (length (schedule evs) ≤ length obs)%nat →
  ∃ st tr s, EventScheduler_init evs = Ok st ∧ run ctx obs st = (tr, s) ∧ Forall is_fired tr ∧
    (s = Finished ∧ fired_occurrence <$> tr ≡ₚ schedule evs ∨ ∃ x, s = Crashed x ∧ exn_cls x = EOverflowError).
Proof.
  intros Hv He Ht Hfin Hq Hz Hlen. pose proof (accepted_all_ready _ _ Hv He Ht) as Hready.
  destruct (init_ok _ Hready) as (st & E & Hok & Hocc).
  assert (Hrem : remaining st ≡ₚ schedule evs).
  { unfold remaining, schedule. rewrite Hocc. apply reflexive_eq. clear.
    induction evs as [|ev evs IH]; [done|]. rewrite fmap_cons, !bind_cons. by rewrite IH. }
  destruct (run_all ctx obs st) as [Hfired Hres]; [done| |done| |].
  - apply Forall_forall. intros y Hy.
    assert (Hin : (e_at y, e_event y) ∈ occurrences_of (heap st)) by (by apply (list_elem_of_fmap_2 (λ e, (e_at e, e_event e)))).
    rewrite Hocc in Hin. apply list_elem_of_fmap in Hin as (ev & [= _ ->] & Hev).
    rewrite Forall_forall in Hfin. by apply Hfin.
  - intros z ev. rewrite Hrem. apply Hz.
  - destruct (run ctx obs st) as [tr s] eqn:Erun. exists st, tr, s. split_and!; [done..|].
    destruct s; try done; [left; by rewrite <- Hrem|right; eauto|].
    rewrite (Permutation_length Hrem) in Hres. lia.
Qed.

(** Both bounds on concrete lists. *)
Definition small (v : pv) : bool := match v with PInt z => z <=? 2 ^ 53 | _ => true end.

Lemma small_forallb (l : list pv) : forallb small l = true → ∀ z, PInt z ∈ l → z ≤ 2 ^ 53.
Proof. rewrite forallb_forall. intros Hl z Hz%list_elem_of_In. apply Z.leb_le. exact (Hl _ Hz). Qed.

Lemma small_times_check l : forallb small (e_at <$> l) = true → small_times l.
Proof.
  intros Hl e z Hin Hz. apply (small_forallb _ Hl). rewrite <- Hz. by apply list_elem_of_fmap_2.
Qed.

Lemma small_schedule_check l : forallb small l.*1 = true → small_schedule l.
Proof.
  intros Hl z ev Hin. apply (small_forallb _ Hl). by apply (list_elem_of_fmap_2 fst _ (PInt z, ev)).
Qed.

(** ** A configuration that exercises both *)

(** A link that fails twice for three seconds, ten seconds apart, and a publisher
    and a consumer due at the same time. *)
Definition flap_events : list pydict :=
  [ items [("at", PInt 5); ("type", PStr "link_down"); ("nodes", PList [PInt 0; PInt 1]);
           ("repeat", PDict (items [("interval", PInt 10); ("count", PInt 2); ("duration", PInt 3);
                                    ("restore_type", PStr "link_up")]))];
    items [("at", PFloat (FFin 3 (-1))); ("type", PStr "get"); ("host", PInt 0); ("uri", PStr "ccnx:/a")];
    items [("at", PFloat (FFin 3 (-1))); ("type", PStr "put"); ("host", PInt 2); ("uri", PStr "ccnx:/a");
           ("file", PStr "f")] ].

Definition flap_config : pydict :=
  items [("hosts", PInt 3); ("links", PList [PList [PInt 0; PInt 1]; PList [PInt 2; PInt 1]]);
         ("events", PList (PDict <$> flap_events))].

(** The types and times in the order they are popped. *)
Definition popped_types (st : res sched) : list (pv * pv) :=
  match st with Ok st => (λ e, (get_none (e_event e) "type", e_at e)) <$> pops 10 st | _ => [] end.

Example flap_pops : popped_types (EventScheduler_init flap_events) =
  [(PStr "put", PFloat (FFin 3 (-1))); (PStr "get", PFloat (FFin 3 (-1))); (PStr "link_down", PInt 5);
   (PStr "link_up", PInt 8); (PStr "link_down", PInt 15); (PStr "link_up", PInt 18)].
Proof. vm_compute. reflexivity. Qed.

Lemma flap_timed : Forall timed flap_events.
Proof.
  assert (Hone : is_double (FFin 3 (-1))) by (apply fin_double; lia).
  repeat apply Forall_cons_2; [..|apply Forall_nil_2].
  - split; [vm_compute; discriminate|]. intros rep [= <-]. split; vm_compute; discriminate.
  - split; [split; [exact Hone|discriminate]|]. by intros rep [=].
  - split; [split; [exact Hone|discriminate]|]. by intros rep [=].
Qed.

Definition quiet_obs : observation := mkObs false (FFin 0 0) false (FFin 0 0) (Returned RNone).

Lemma fires_in_order_witness :
  ∃ st, EventScheduler_init flap_events = Ok st ∧ in_time_order (pops 10 st).
Proof.
  destruct (fires_in_order (H:=plain_repr) (H0:=any_cidr) flap_config flap_events ltac:(vm_compute; reflexivity)
    ltac:(vm_compute; reflexivity) flap_timed) as (st & E & _ & _ & _ & Hn).
  exists st. split; [exact E|]. apply (Hn 10%nat).
  apply small_times_check. vm_compute in E. injection E as <-. vm_compute. reflexivity.
Defined.

Lemma fires_everything_witness :
  ∃ st tr s, EventScheduler_init flap_events = Ok st ∧ run (mkContext true false true) (replicate 6 quiet_obs) st = (tr, s) ∧
    (s = Finished ∧ fired_occurrence <$> tr ≡ₚ schedule flap_events ∨ ∃ x, s = Crashed x ∧ exn_cls x = EOverflowError).
Proof.
  destruct (fires_everything (H:=plain_repr) (H0:=any_cidr) flap_config flap_events (mkContext true false true)
    (replicate 6 quiet_obs) ltac:(vm_compute; reflexivity) ltac:(vm_compute; reflexivity) flap_timed)
    as (st & tr & s & H1 & H2 & _ & H3).
  - repeat apply Forall_cons_2; [intros _; by exists 2|exact I|exact I|apply Forall_nil_2].
  - apply Forall_replicate. split_and!; done.
  - apply small_schedule_check. vm_compute. reflexivity.
  - vm_compute. lia.
  - eauto 10.
Defined.
