(* ===== verification/Topo.v ===== *)
(** Component: topology construction (src/runtime/topo.py): the explicit-links
    and the random-mesh builds.  Mininet's [addHost], [addSwitch] and [addLink]
    are calls into the library; the [addLink] calls are kept in a log because
    the interface index of a host is the number of its earlier calls.  The
    random generator is an argument. *)
From S2P Require Import Prelude Topology.
Local Open Scope Z_scope.

(** * Emitting the links *)

Definition switch_name (i : Z) : string := "s" +s+ str_Z i.

(** [host_ports], the interface map of the link being built, and the [addLink]
    calls (host, switch) so far. *)
Record ports := mkPorts {
  host_ports : list Z;
  link_eth : gmap Z Z;
  add_links : list (Z * string);
}.

(** [host_eth[h] = host_ports[h]; host_ports[h] += 1; self.addLink(..)]. *)
Definition attach (name : string) (st : ports) (h : Z) : res ports :=
  p ← py_getitem (host_ports st) h;
  hp ← py_setitem (host_ports st) h (p + 1);
  Ok (mkPorts hp (<[h := p]> (link_eth st)) (add_links st ++ [(h, name)])).

(** One switch of the final loop of both builds; [idx] is its position. *)
Definition emit_link (idx : Z) (hosts : list Z) (st : list raw_link * ports)
    : res (list raw_link * ports) :=
  let '(links, ps) := st in
  ps ← foldM (attach (switch_name idx)) (mkPorts (host_ports ps) ∅ (add_links ps)) hosts;
  Ok (links ++ [RawMulti (Some (switch_name idx)) (Some (idx + 1)) hosts (Some (link_eth ps))], ps).

Definition emit_links (hosts : Z) (switches : list (list Z)) : res (list raw_link * ports) :=
  foldM (λ st ih, emit_link (Z.of_nat ih.1) ih.2 st)
    ([], mkPorts (replicate (Z.to_nat hosts) 0) ∅ []) (imap pair switches).

(** * Explicit links *)

(** [ExplicitLinksTopo.build]; the result is [mesh_links] with the call log. *)
Definition ExplicitLinksTopo_build (hosts : Z) (links : list (list Z))
    : res (list raw_link * list (Z * string)) :=
  st ← emit_links hosts (sorted_list <$> links);
  Ok (st.1, add_links st.2).

(** * The random mesh *)

(** The methods of [random.Random] the build uses; [random] gives the numerator
    over 2^53. *)
Class Rng := {
  rng : Type;
  randint : Z → Z → rng → Z * rng;
  shuffle : list Z → rng → list Z * rng;
  random : rng → Z * rng;
}.

Section mesh.
Context `{Rng}.

(** [[rng.randint(lo, hi) for _ in range(n)]]. *)
Fixpoint draw_degrees (n : nat) (lo hi : Z) (r : rng) : list Z * rng :=
  match n with
  | O => ([], r)
  | S n => let '(d, r) := randint lo hi r in
           let '(ds, r) := draw_degrees n lo hi r in (d :: ds, r)
  end.

(** [degrees[h]] for an index in range. *)
Definition deg (degrees : list Z) (h : Z) : Z := degrees !!! Z.to_nat h.
Definition dec (degrees : list Z) (h : Z) : list Z := <[Z.to_nat h := deg degrees h - 1]> degrees.

(** [sorted(l, key=lambda h: degrees[h], reverse=True)], which is stable. *)
Definition deg_ge (degrees : list Z) (a b : Z) : Prop := deg degrees b ≤ deg degrees a.
#[export] Instance deg_ge_dec degrees : RelDecision (deg_ge degrees).
Proof. intros a b. unfold deg_ge. apply _. Defined.
Definition by_degree (degrees : list Z) (l : list Z) : list Z := merge_sort (deg_ge degrees) l.

(** The state of the tree loop: degrees left, the hosts of every switch in
    creation order, and the hosts connected so far. *)
Record tree := mkTree {
  degrees : list Z;
  switch_hosts : list (gset Z);
  connected : list Z;
}.

(** The first switch with room that already has the partner. *)
Definition choose_switch (capacity partner : Z) (sws : list (gset Z)) : option nat :=
  fst <$> list_find (λ hs : gset Z, Z.of_nat (size hs) + 2 ≤ capacity ∧ partner ∈ hs) sws.

Definition budget_message (initial_total hosts : Z) : string :=
  "failed to build spanning tree: degree budget exhausted (initial_total=" +s+ str_Z initial_total
  +s+ ", needed>=" +s+ str_Z (2 * (hosts - 1))
  +s+ "). Increase --host-degree-min/--host-degree-max or reduce --hosts".

(** One iteration of [for host in remaining]; [msg] is the budget message. *)
Definition tree_step (capacity : Z) (msg : string) (t : tree) (host : Z) : res tree :=
  let candidates := by_degree (degrees t) (connected t) in
  match list_find (λ c, 0 < deg (degrees t) c ∧ 0 < deg (degrees t) host) candidates with
  | None => raise EValueError msg
  | Some (_, partner) =>
      let sws := match choose_switch capacity partner (switch_hosts t) with
        | Some i => <[i := {[host; partner]} ∪ (switch_hosts t !!! i)]> (switch_hosts t)
        | None => switch_hosts t ++ [{[host; partner]}]
        end in
      Ok (mkTree (dec (dec (degrees t) host) partner) sws (connected t ++ [host]))
  end.

(** The [for] loop that fills one extra switch: hosts taken, degrees, room. *)
Fixpoint fill_switch (hosts : list Z) (degrees : list Z) (cap : Z) (sw : gset Z)
    : gset Z * list Z :=
  match hosts with
  | [] => (sw, degrees)
  | h :: hosts =>
      let '(sw, degrees, cap) :=
        if decide (0 < deg degrees h ∧ 0 < cap) then ({[h]} ∪ sw, dec degrees h, cap - 1)
        else (sw, degrees, cap) in
      if cap =? 0 then (sw, degrees) else fill_switch hosts degrees cap sw
  end.

(** [while hosts_with_deg: ...]. *)
Fixpoint spend_degrees (fuel : nat) (capacity : Z) (with_deg degrees : list Z)
    (sws : list (gset Z)) (r : rng) : res (list (gset Z) * rng) :=
  match with_deg with
  | [] => Ok (sws, r)
  | _ =>
      match fuel with
      | O => NoFuel
      | S fuel =>
          let '(with_deg, r) := shuffle with_deg r in
          let '(sw, degrees) := fill_switch with_deg degrees capacity ∅ in
          spend_degrees fuel capacity (filter (λ h, 0 < deg degrees h) with_deg) degrees
            (sws ++ [sw]) r
      end
  end.

(** ** [switch_use_all] *)

(** A heap entry [[deg, tie, host]], compared lexicographically. *)
Abbreviation entry := (Z * Z * Z)%type.
Definition entry3_le (a b : entry) : Prop :=
  a.1.1 < b.1.1 ∨ (a.1.1 = b.1.1 ∧ (a.1.2 < b.1.2 ∨ (a.1.2 = b.1.2 ∧ a.2 ≤ b.2))).
#[export] Instance entry3_le_dec : RelDecision entry3_le.
Proof. intros a b. unfold entry3_le. apply _. Defined.

(** [current_deg]. *)
Definition count_switches (sws : list (gset Z)) (h : Z) : Z :=
  Z.of_nat (length (filter (λ hs : gset Z, h ∈ hs) sws)).

Fixpoint with_ties (l : list (Z * Z)) (r : rng) : list entry * rng :=
  match l with
  | [] => ([], r)
  | (d, h) :: l => let '(t, r) := random r in
                   let '(es, r) := with_ties l r in ((d, t, h) :: es, r)
  end.

(** One extra switch: pop while there is room ([used_hosts] never repeats a
    host), then push every popped entry back, its degree raised when used.  The
    heap is its sorted list of entries. *)
Fixpoint pop_entries (fuel : nat) (cap : Z) (heap : list entry) (used : gset Z)
    : list (Z * Z * bool) * list entry :=
  match fuel, heap with
  | S fuel, (d, _, h) :: heap' =>
      if cap <=? 0 then ([], heap)
      else if decide (h ∈ used) then
        let '(ps, rest) := pop_entries fuel cap heap' used in ((d, h, false) :: ps, rest)
      else
        let '(ps, rest) := pop_entries fuel (cap - 1) heap' ({[h]} ∪ used) in ((d, h, true) :: ps, rest)
  | _, _ => ([], heap)
  end.

Definition extra_switch (capacity hosts : Z) (heap : list entry) (r : rng)
    : gset Z * list entry * rng :=
  let '(popped, rest) := pop_entries (length heap) (Z.min capacity hosts) heap ∅ in
  let sw : gset Z := list_to_set (omap (λ p : Z * Z * bool, if p.2 then Some p.1.2 else None) popped) in
  let '(back, r) := with_ties ((λ p : Z * Z * bool, (if (p.2 : bool) then p.1.1 + 1 else p.1.1, p.1.2)) <$> popped) r in
  (sw, merge_sort entry3_le (rest ++ back), r).

Fixpoint extra_loop (n : nat) (capacity hosts : Z) (heap : list entry)
    (sws : list (gset Z)) (r : rng) : list (gset Z) :=
  match n, heap with
  | S n, _ :: _ =>
      let '(sw, heap, r) := extra_switch capacity hosts heap r in
      extra_loop n capacity hosts heap (sws ++ [sw]) r
  | _, _ => sws
  end.

Definition extra_switches (capacity hosts swhich_num : Z) (sws : list (gset Z)) (r : rng)
    : list (gset Z) :=
  let extra := swhich_num - Z.of_nat (length sws) in
  let '(heap, r) := with_ties ((λ h, (count_switches sws h, h)) <$> range hosts) r in
  extra_loop (Z.to_nat extra) capacity hosts (merge_sort entry3_le heap) sws r.

(** [MeshTopo.build], up to the switch membership. *)
Definition mesh_switches (hosts swhich_num node_per_switch host_degree_min host_degree_max : Z)
    (switch_use_all : bool) (r : rng) : res (list (gset Z)) :=
  if (host_degree_min <? 1) || (host_degree_max <? host_degree_min) then
    raise EValueError "host_degree_min/max must satisfy 1 <= min <= max"
  else if node_per_switch =? 1 then
    raise EValueError "switch capacity must be >=2 to connect hosts"
  else
    let capacity := if 0 <? node_per_switch then node_per_switch else hosts in
    let '(degs, r) := draw_degrees (Z.to_nat hosts) host_degree_min host_degree_max r in
    if existsb (λ d, d <? 1) degs then raise EValueError "all hosts must have degree >=1" else
    let '(order, r) := shuffle (range hosts) r in
    match by_degree degs order with
    | [] => raise EIndexError "list index out of range"
    | first :: remaining =>
        t ← foldM (tree_step capacity (budget_message (foldr Z.add 0 degs) hosts)) (mkTree degs [] [first]) remaining;
        let with_deg := filter (λ h, 0 < deg (degrees t) h) (range hosts) in
        '(sws, r) ← spend_degrees (S (Z.to_nat (foldr Z.add 0 degs))) capacity with_deg (degrees t)
                      (switch_hosts t) r;
        let n := Z.of_nat (length sws) in
        if negb (swhich_num =? 0) && (swhich_num <? n) then
          raise EValueError ("switch count " +s+ str_Z n +s+ " exceeds limit " +s+ str_Z swhich_num
            +s+ " (increase switch capacity or host degree range)")
        else if switch_use_all && negb (swhich_num =? 0) && (n <? swhich_num) then
          Ok (extra_switches capacity hosts swhich_num sws r)
        else Ok sws
    end.

(** [MeshTopo.build]. *)
Definition MeshTopo_build (hosts swhich_num node_per_switch host_degree_min host_degree_max : Z)
    (switch_use_all : bool) (r : rng) : res (list raw_link * list (Z * string)) :=
  sws ← mesh_switches hosts swhich_num node_per_switch host_degree_min host_degree_max switch_use_all r;
  st ← emit_links hosts (sorted_set <$> sws);
  Ok (st.1, add_links st.2).
End mesh.

(** * Interface numbering *)

(** The port Mininet gives the next [addLink] of host [h]. *)
Definition port_count (log : list (Z * string)) (h : Z) : Z :=
  Z.of_nat (length (filter (λ c, c.1 = h) log)).

Lemma port_count_app log log' h : port_count (log ++ log') h = port_count log h + port_count log' h.
Proof. unfold port_count. rewrite filter_app, length_app. lia. Qed.

Lemma port_count_single h x name : port_count [(x, name)] h = if decide (x = h) then 1 else 0.
Proof.
  unfold port_count. case_decide; [by rewrite filter_cons_True|by rewrite filter_cons_False].
Qed.

Section ports.
Variable hosts : Z.

(** [host_ports] counts the calls made so far. *)
Record ports_ok (ps : ports) : Prop := {
  po_len : length (host_ports ps) = Z.to_nat hosts;
  po_val : ∀ h, 0 ≤ h < hosts → host_ports ps !! Z.to_nat h = Some (port_count (add_links ps) h);
}.

Lemma attach_spec name ps h :
  ports_ok ps → 0 ≤ h < hosts →
  ∃ hp, attach name ps h = Ok (mkPorts hp (<[h := port_count (add_links ps) h]> (link_eth ps))
                                 (add_links ps ++ [(h, name)])) ∧
    ports_ok (mkPorts hp (<[h := port_count (add_links ps) h]> (link_eth ps)) (add_links ps ++ [(h, name)])).
Proof.
  intros [Hlen Hval] Hh. unfold attach.
  rewrite (proj2 (py_getitem_Ok (host_ports ps) h _ ltac:(lia)) (Hval h Hh)). cbn [mbind res_bind].
  rewrite py_setitem_Ok by lia. cbn [mbind res_bind]. eexists. split; [done|]. constructor; simpl.
  - by rewrite length_insert.
  - intros x Hx. rewrite port_count_app, port_count_single.
    destruct (decide (h = x)) as [->|Hne].
    + rewrite list_lookup_insert_eq by lia. done.
    + rewrite list_lookup_insert_ne by lia. rewrite Z.add_0_r. by apply Hval.
Qed.

Lemma attach_all name hs ps :
  ports_ok ps → (∀ h, h ∈ hs → 0 ≤ h < hosts) → NoDup hs →
  ∃ ps', foldM (attach name) ps hs = Ok ps' ∧ ports_ok ps' ∧
    add_links ps' = add_links ps ++ ((λ h, (h, name)) <$> hs) ∧
    ∀ h, link_eth ps' !! h = if decide (h ∈ hs) then Some (port_count (add_links ps) h) else link_eth ps !! h.
Proof.
  revert ps. induction hs as [|x hs IH]; intros ps Hps Hr Hnd; cbn [foldM].
  { exists ps. split_and!; [done..|by rewrite app_nil_r|]. intros h. rewrite decide_False; [done|]. apply not_elem_of_nil. }
  apply NoDup_cons in Hnd as [Hx Hnd].
  destruct (attach_spec name ps x Hps) as (hp & -> & Hok); [apply Hr; by left|]. cbn [mbind res_bind].
  destruct (IH _ Hok) as (ps' & -> & Hok' & Hlog & Heth); [intros; apply Hr; by right|done|].
  exists ps'. split_and!; [done..| |].
  - rewrite Hlog. simpl. by rewrite <- app_assoc.
  - intros h. rewrite Heth. simpl. rewrite port_count_app, port_count_single.
    destruct (decide (x = h)) as [->|Hne].
    + rewrite decide_False by done. rewrite decide_True by by left. by rewrite lookup_insert_eq.
    + rewrite lookup_insert_ne, Z.add_0_r by done.
      destruct (decide (h ∈ hs)); [rewrite decide_True by (by right); done|].
      rewrite decide_False; [done|]. by intros [|]%elem_of_cons.
Qed.

(** A link whose interface map gives each of its hosts the port of its call. *)
Definition link_numbered (log : list (Z * string)) (i : Z) (hs : list Z) (l : raw_link) : Prop :=
  ∃ eth, l = RawMulti (Some (switch_name i)) (Some (i + 1)) hs (Some eth) ∧
    (∀ h, is_Some (eth !! h) ↔ h ∈ hs) ∧
    ∀ h k, eth !! h = Some k → ∃ pre post, log = pre ++ (h, switch_name i) :: post ∧ k = port_count pre h.

Lemma link_numbered_mono log log' i hs l : link_numbered log i hs l → link_numbered (log ++ log') i hs l.
Proof.
  intros (eth & -> & Hd & He). exists eth. split_and!; [done..|]. intros h k Hk.
  destruct (He h k Hk) as (pre & post & -> & ->). exists pre, (post ++ log'). by rewrite <- app_assoc.
Qed.

Lemma emit_link_spec i hs links ps :
  ports_ok ps → (∀ h, h ∈ hs → 0 ≤ h < hosts) → NoDup hs →
  ∃ l ps', emit_link i hs (links, ps) = Ok (links ++ [l], ps') ∧ ports_ok ps' ∧
    add_links ps' = add_links ps ++ ((λ h, (h, switch_name i)) <$> hs) ∧
    link_numbered (add_links ps') i hs l.
Proof.
  intros Hps Hr Hnd. unfold emit_link.
  destruct (attach_all (switch_name i) hs (mkPorts (host_ports ps) ∅ (add_links ps)))
    as (ps' & -> & Hok & Hlog & Heth); [by destruct Hps; constructor|done..|]. cbn [mbind res_bind].
  simpl in Hlog, Heth. eexists _, ps'. split_and!; [done..|]. exists (link_eth ps'). split_and!; [done| |].
  - intros h. rewrite Heth, lookup_empty. case_decide; split; (done || eauto).
  - intros h k. rewrite Heth, lookup_empty. case_decide as Hh; [|done]. intros [= <-].
    apply list_elem_of_split in Hh as (l1 & l2 & ->). rewrite Hlog.
    exists (add_links ps ++ ((λ h, (h, switch_name i)) <$> l1)), ((λ h, (h, switch_name i)) <$> l2).
    split; [by rewrite fmap_app, <- app_assoc|]. rewrite port_count_app.
    assert (port_count ((λ h, (h, switch_name i)) <$> l1) h = 0); [|lia].
    apply NoDup_app in Hnd as (_ & Hno & _). unfold port_count.
    assert (E : filter (λ c, c.1 = h) ((λ h, (h, switch_name i)) <$> l1) = []); [|by rewrite E].
    apply filter_none. intros c (y & -> & Hy)%list_elem_of_fmap. simpl. intros ->.
    apply (Hno h Hy). by left.
Qed.
End ports.

(** Both builds: every switch becomes one link, in order, numbered and with its
    own subnet. *)
Lemma emit_links_spec hosts sws :
  (∀ hs, hs ∈ sws → NoDup hs ∧ ∀ h, h ∈ hs → 0 ≤ h < hosts) →
  ∃ links ps, emit_links hosts sws = Ok (links, ps) ∧ length links = length sws ∧
    ∀ i hs, sws !! i = Some hs → ∃ l, links !! i = Some l ∧ link_numbered (add_links ps) (Z.of_nat i) hs l.
Proof.
  intros Hsws. unfold emit_links.
  assert (H : ∀ done todo links ps, (∀ hs, hs ∈ todo → NoDup hs ∧ ∀ h, h ∈ hs → 0 ≤ h < hosts) →
    ports_ok hosts ps → length links = length done →
    (∀ i hs, done !! i = Some hs → ∃ l, links !! i = Some l ∧ link_numbered (add_links ps) (Z.of_nat i) hs l) →
    ∃ links' ps', foldM (λ st ih, emit_link (Z.of_nat ih.1) ih.2 st) (links, ps)
        (imap (λ i hs, ((length done + i)%nat, hs)) todo) = Ok (links', ps') ∧
      length links' = length (done ++ todo) ∧
      ∀ i hs, (done ++ todo) !! i = Some hs → ∃ l, links' !! i = Some l ∧ link_numbered (add_links ps') (Z.of_nat i) hs l).
  { intros done todo. revert done. induction todo as [|hs todo IH]; intros done links ps Ht Hps Hlen Hd.
    - exists links, ps. by rewrite app_nil_r.
    - cbn [imap foldM fst snd]. rewrite Nat.add_0_r.
      destruct (Ht hs) as [Hnd Hr]; [by left|].
      destruct (emit_link_spec hosts (Z.of_nat (length done)) hs links ps Hps Hr Hnd)
        as (l & ps' & -> & Hps' & Hlog & Hl). cbn [mbind res_bind].
      destruct (IH (done ++ [hs]) (links ++ [l]) ps') as (links' & ps2 & E & Hlen' & Hd').
      + intros hs' ?. apply Ht. by right.
      + done.
      + rewrite !length_app. simpl. lia.
      + intros i hs' Hi. destruct (decide (i < length done)%nat) as [Hlt|Hge].
        * rewrite lookup_app_l in Hi by done. destruct (Hd i hs' Hi) as (l' & Hl' & Hn).
          exists l'. rewrite lookup_app_l by lia. split; [done|]. rewrite Hlog. by apply link_numbered_mono.
        * rewrite lookup_app_r in Hi by lia. destruct (i - length done)%nat as [|k] eqn:Ek; [|by destruct k].
          injection Hi as <-. exists l. rewrite lookup_app_r, Hlen, Ek by lia.
          replace i with (length done) by lia. done.
      + rewrite <- app_assoc in Hlen', Hd'. simpl in Hlen', Hd'. exists links', ps2.
        split_and!; [|done..]. rewrite <- E. f_equal. rewrite length_app. apply imap_ext.
        intros j x _. simpl. f_equal. lia. }
  destruct (H [] sws [] (mkPorts (replicate (Z.to_nat hosts) 0) ∅ [])) as (links & ps & E & Hlen & Hd).
  - done.
  - constructor; simpl; [by rewrite length_replicate|]. intros h Hh. apply lookup_replicate. split; [done|lia].
  - done.
  - by intros [|i] hs ?.
  - exists links, ps. split_and!; [|done..]. rewrite <- E. f_equal.
Qed.

(** * The random mesh is connected *)

(** What the build relies on: [randint] stays in its range and [shuffle]
    permutes. *)
Class RngLaws `{Rng} : Prop := {
  randint_range lo hi r : lo ≤ hi → lo ≤ (randint lo hi r).1 ≤ hi;
  shuffle_perm l r : (shuffle l r).1 ≡ₚ l;
}.

(** Two hosts sit on a common switch. *)
Definition share (sws : list (gset Z)) (a b : Z) : Prop := ∃ sw, sw ∈ sws ∧ a ∈ sw ∧ b ∈ sw.

(** Every switch of the first list is contained in one of the second. *)
Definition grows (sws sws' : list (gset Z)) : Prop := ∀ sw, sw ∈ sws → ∃ sw', sw' ∈ sws' ∧ sw ⊆ sw'.

Lemma share_grows sws sws' a b : grows sws sws' → share sws a b → share sws' a b.
Proof. intros Hg (sw & Hsw & Ha & Hb). destruct (Hg sw Hsw) as (sw' & ? & ?). exists sw'. set_solver. Qed.

Lemma rtc_share_grows sws sws' a b : grows sws sws' → rtc (share sws) a b → rtc (share sws') a b.
Proof. intros Hg. apply rtc_subrel. intros x y. by apply share_grows. Qed.

Lemma grows_app sws sws' : grows sws (sws ++ sws').
Proof. intros sw ?. exists sw. split; [|done]. rewrite elem_of_app. by left. Qed.

Lemma grows_refl sws : grows sws sws.
Proof. intros sw ?. by exists sw. Qed.

#[export] Instance share_sym sws : Symmetric (share sws).
Proof. intros a b (sw & ? & ? & ?). exists sw. auto. Qed.

(** The sizes and members every switch list of the build keeps. *)
Definition switches_ok (hosts capacity : Z) (sws : list (gset Z)) : Prop :=
  ∀ sw, sw ∈ sws → Z.of_nat (size sw) ≤ capacity ∧ ∀ h, h ∈ sw → 0 ≤ h < hosts.

Lemma switches_ok_app hosts cap sws sw :
  switches_ok hosts cap sws → Z.of_nat (size sw) ≤ cap → (∀ h, h ∈ sw → 0 ≤ h < hosts) →
  switches_ok hosts cap (sws ++ [sw]).
Proof. intros H ? ? s [?| ->%list_elem_of_singleton]%elem_of_app; auto. Qed.

Lemma size_add (x : Z) (s : gset Z) : (size ({[x]} ∪ s) ≤ S (size s))%nat.
Proof. rewrite size_union_alt, size_singleton. pose proof (subseteq_size (s ∖ {[x]}) s). set_solver by lia. Qed.

Lemma size_list_to_set_le (l : list Z) : (size (list_to_set l : gset Z) ≤ length l)%nat.
Proof.
  induction l as [|x l IH]; [by rewrite list_to_set_nil, size_empty|].
  rewrite list_to_set_cons. cbn [length]. pose proof (size_add x (list_to_set l)). lia.
Qed.

Section mesh_proofs.
Context `{RngLaws} (hosts capacity : Z) (Hcap : 2 ≤ capacity).

(** ** The tree loop *)

Definition sum_deg (degrees : list Z) (l : list Z) : Z := foldr (λ h s, deg degrees h + s) 0 l.

Record tree_inv (first : Z) (t : tree) : Prop := {
  ti_sws : switches_ok hosts capacity (switch_hosts t);
  ti_conn : ∀ x, x ∈ connected t → rtc (share (switch_hosts t)) first x;
  ti_range : ∀ x, x ∈ connected t → 0 ≤ x < hosts;
  ti_len : length (degrees t) = Z.to_nat hosts;
  ti_pos : ∀ h, 0 ≤ h < hosts → 0 ≤ deg (degrees t) h;
}.

Lemma deg_dec_eq degrees h : 0 ≤ h < Z.of_nat (length degrees) → deg (dec degrees h) h = deg degrees h - 1.
Proof. intros Hh. unfold deg, dec. rewrite list_lookup_total_insert_eq by lia. done. Qed.

Lemma deg_dec_ne degrees h x : 0 ≤ h → 0 ≤ x → h ≠ x → deg (dec degrees h) x = deg degrees x.
Proof. intros ? ? ?. unfold deg, dec. rewrite list_lookup_total_insert_ne; [done|lia]. Qed.

Lemma length_dec degrees h : length (dec degrees h) = length degrees.
Proof. unfold dec. apply length_insert. Qed.

Lemma choose_switch_Some partner sws i :
  choose_switch capacity partner sws = Some i →
  ∃ hs, sws !! i = Some hs ∧ Z.of_nat (size hs) + 2 ≤ capacity ∧ partner ∈ hs.
Proof.
  unfold choose_switch. intros ([j hs] & (Hj & [? ?] & _)%list_find_Some & ->)%fmap_Some. eauto.
Qed.

(** The switch list after joining [host] to [partner]. *)
Lemma join_switch host partner sws :
  switches_ok hosts capacity sws → 0 ≤ host < hosts → 0 ≤ partner < hosts → host ≠ partner →
  let sws' := match choose_switch capacity partner sws with
    | Some i => <[i := {[host; partner]} ∪ (sws !!! i)]> sws
    | None => sws ++ [{[host; partner]}]
    end in
  switches_ok hosts capacity sws' ∧ grows sws sws' ∧ share sws' partner host.
Proof.
  intros Hok Hh Hp Hne. simpl. destruct (choose_switch capacity partner sws) as [i|] eqn:E.
  - apply choose_switch_Some in E as (hs & Hi & Hsz & Hin). rewrite (list_lookup_total_correct _ _ _ Hi).
    pose proof (lookup_lt_Some _ _ _ Hi) as Hlt. split_and!.
    + intros sw (j & Hj)%list_elem_of_lookup. apply list_lookup_insert_Some in Hj as [(<- & <- & _)|(_ & Hj)].
      * destruct (Hok hs) as [_ Hr]; [by eapply list_elem_of_lookup_2|]. split.
        -- rewrite <- union_assoc_L. pose proof (size_add host ({[partner]} ∪ hs)). pose proof (size_add partner hs). lia.
        -- intros x. rewrite !elem_of_union, !elem_of_singleton. naive_solver.
      * apply Hok. by eapply list_elem_of_lookup_2.
    + intros sw (j & Hj)%list_elem_of_lookup. destruct (decide (i = j)) as [->|Hij].
      * exists ({[host; partner]} ∪ hs). split; [|rewrite Hi in Hj; simplify_eq; set_solver].
        apply list_elem_of_lookup. exists j. by rewrite list_lookup_insert_eq.
      * exists sw. split; [|done]. apply list_elem_of_lookup. exists j. by rewrite list_lookup_insert_ne.
    + exists ({[host; partner]} ∪ hs). split; [|set_solver].
      apply list_elem_of_lookup. exists i. by rewrite list_lookup_insert_eq.
  - split_and!.
    + apply switches_ok_app; [done| |].
      * pose proof (size_add host {[partner]}). rewrite size_singleton in *. lia.
      * intros x. rewrite elem_of_union, !elem_of_singleton. naive_solver.
    + apply grows_app.
    + exists {[host; partner]}. split; [rewrite elem_of_app; right; by left|set_solver].
Qed.

Lemma tree_step_inv first msg t host t' :
  tree_inv first t → 0 ≤ host < hosts → host ∉ connected t →
  tree_step capacity msg t host = Ok t' →
  tree_inv first t' ∧ connected t' = connected t ++ [host] ∧
  (∀ h, 0 ≤ h < hosts → deg (degrees t') h ≤ deg (degrees t) h).
Proof.
  intros [Hsws Hconn Hrange Hlen Hpos] Hh Hnew. unfold tree_step.
  destruct (list_find _ _) as [[k partner]|] eqn:E; [|done].
  apply list_find_Some in E as (Hk & [Hdp Hdh] & _).
  assert (Hp : partner ∈ connected t).
  { apply list_elem_of_lookup_2 in Hk. unfold by_degree in Hk. by rewrite (merge_sort_Permutation _ _) in Hk. }
  pose proof (Hrange _ Hp) as Hpr. assert (Hne : host ≠ partner) by (by intros ->).
  intros [= <-]. simpl.
  destruct (join_switch host partner (switch_hosts t) Hsws Hh Hpr Hne) as (H1 & H2 & H3).
  assert (Hd : ∀ h, 0 ≤ h < hosts → deg (dec (dec (degrees t) host) partner) h =
    deg (degrees t) h - (if decide (h = host ∨ h = partner) then 1 else 0)).
  { intros h Hh'. destruct (decide (h = partner)) as [->|Hnp].
    - rewrite deg_dec_eq by (rewrite length_dec; lia). rewrite deg_dec_ne by lia.
      by rewrite decide_True by tauto.
    - rewrite deg_dec_ne by lia. destruct (decide (h = host)) as [->|Hnh].
      + rewrite deg_dec_eq by lia. by rewrite decide_True by tauto.
      + rewrite deg_dec_ne by lia. rewrite decide_False by tauto. lia. }
  split_and!; [constructor; simpl|done|].
  - done.
  - intros x [Hx| ->%list_elem_of_singleton]%elem_of_app; [by eapply rtc_share_grows, Hconn|].
    eapply rtc_r; [by eapply rtc_share_grows, Hconn|]. done.
  - intros x [Hx| ->%list_elem_of_singleton]%elem_of_app; auto.
  - by rewrite !length_dec.
  - intros h Hh'. rewrite Hd by done. specialize (Hpos h Hh'). case_decide as Hc; [|lia].
    destruct Hc as [-> | ->]; lia.
  - intros h Hh'. rewrite Hd by done. case_decide; lia.
Qed.

Lemma tree_loop_inv first msg remaining t t' :
  tree_inv first t → NoDup (connected t ++ remaining) → (∀ h, h ∈ remaining → 0 ≤ h < hosts) →
  foldM (tree_step capacity msg) t remaining = Ok t' →
  tree_inv first t' ∧ connected t' = connected t ++ remaining ∧
  (∀ h, 0 ≤ h < hosts → deg (degrees t') h ≤ deg (degrees t) h).
Proof.
  revert t. induction remaining as [|h remaining IH]; intros t Hi Hnd Hr; cbn [foldM].
  - intros [= <-]. rewrite app_nil_r. split_and!; [done..|]. intros. lia.
  - intros (t1 & H1 & H2)%res_bind_Ok.
    destruct (tree_step_inv first msg t h t1 Hi) as (Hi1 & Hc1 & Hd1); [apply Hr; by left| |done|].
    { apply NoDup_app in Hnd as (_ & Hno & _). intros Hh. apply (Hno h Hh). by left. }
    destruct (IH t1 Hi1) as (Hi' & Hc' & Hd'); [|by intros; apply Hr; right|done|].
    { rewrite Hc1, <- app_assoc. done. }
    split_and!; [done|by rewrite Hc', Hc1, <- app_assoc|]. intros x Hx.
    specialize (Hd1 x Hx). specialize (Hd' x Hx). lia.
Qed.

Lemma tree_step_total msg t host : tree_step capacity msg t host ≠ NoFuel.
Proof. unfold tree_step. by destruct (list_find _ _) as [[]|]. Qed.

Lemma tree_loop_total msg remaining t : foldM (tree_step capacity msg) t remaining ≠ NoFuel.
Proof.
  revert t. induction remaining as [|h remaining IH]; intros t; cbn [foldM]; [done|].
  pose proof (tree_step_total msg t h). destruct (tree_step capacity msg t h); cbn; auto.
Qed.

Lemma tree_loop_raise msg remaining t e :
  foldM (tree_step capacity msg) t remaining = Raise e → exn_cls e = EValueError.
Proof.
  revert t. induction remaining as [|h remaining IH]; intros t; cbn [foldM]; [done|].
  destruct (tree_step capacity msg t h) as [t'|e'|] eqn:E; cbn [mbind res_bind]; [apply IH| |done].
  intros [= <-]. unfold tree_step in E. case_match; [by case_match|]. by injection E as <-.
Qed.

(** ** Spending the remaining degrees *)

Lemma fill_switch_spec hs degrees cap sw sw' degrees' :
  (∀ h, h ∈ hs → 0 ≤ h < hosts) → length degrees = Z.to_nat hosts → 0 ≤ cap →
  (∀ h, 0 ≤ h < hosts → 0 ≤ deg degrees h) →
  fill_switch hs degrees cap sw = (sw', degrees') →
  sw ⊆ sw' ∧ sw' ⊆ sw ∪ list_to_set hs ∧ Z.of_nat (size sw') ≤ Z.of_nat (size sw) + cap ∧
  length degrees' = Z.to_nat hosts ∧
  (∀ h, 0 ≤ h < hosts → 0 ≤ deg degrees' h ≤ deg degrees h).
Proof.
  revert degrees cap sw. induction hs as [|h hs IH]; intros degrees cap sw Hr Hlen Hcap0 Hpos; simpl.
  { intros [= <- <-]. split_and!; [set_solver..|lia|done|]. intros. split; [auto|lia]. }
  assert (Hh : 0 ≤ h < hosts) by (apply Hr; by left).
  assert (Hr' : ∀ h, h ∈ hs → 0 ≤ h < hosts) by (intros; apply Hr; by right).
  destruct (decide (0 < deg degrees h ∧ 0 < cap)) as [[Hd Hc]|Hno].
  - assert (Hpos' : ∀ x, 0 ≤ x < hosts → 0 ≤ deg (dec degrees h) x ≤ deg degrees x).
    { intros x Hx. destruct (decide (h = x)) as [->|]; [rewrite deg_dec_eq by lia; lia|].
      rewrite deg_dec_ne by lia. specialize (Hpos x Hx). lia. }
    pose proof (size_add h sw) as Hsz. destruct (cap - 1 =? 0) eqn:Ec.
    + intros [= <- <-]. split_and!; [set_solver..|lia|by rewrite length_dec|done].
    + intros E. destruct (IH (dec degrees h) (cap - 1) ({[h]} ∪ sw)) as (H1 & H2 & H3 & H4 & H5);
        [done|by rewrite length_dec|lia| |done|].
      { intros x Hx. by apply Hpos'. }
      split_and!; [set_solver..|lia|done|]. intros x Hx. specialize (H5 x Hx). specialize (Hpos' x Hx). lia.
  - destruct (cap =? 0) eqn:Ec.
    + intros [= <- <-]. split_and!; [set_solver..|lia|done|]. intros x Hx. specialize (Hpos x Hx). lia.
    + intros E. destruct (IH degrees cap sw) as (H1 & H2 & H3 & H4 & H5); [done..|].
      split_and!; [set_solver..|lia|done|done].
Qed.

(** The first host of the round always gets a place. *)
Lemma fill_switch_progress h hs degrees sw' degrees' :
  (∀ x, x ∈ h :: hs → 0 ≤ x < hosts) → length degrees = Z.to_nat hosts →
  (∀ x, 0 ≤ x < hosts → 0 ≤ deg degrees x) → 0 < deg degrees h →
  fill_switch (h :: hs) degrees capacity ∅ = (sw', degrees') →
  h ∈ sw' ∧ deg degrees' h < deg degrees h.
Proof.
  intros Hr Hlen Hpos Hd. cbn [fill_switch]. rewrite decide_True by lia.
  assert (Hh : 0 ≤ h < hosts) by (apply Hr; by left).
  assert (Hpos' : ∀ x, 0 ≤ x < hosts → 0 ≤ deg (dec degrees h) x).
  { intros x Hx. destruct (decide (h = x)) as [->|]; [rewrite deg_dec_eq by lia; lia|].
    rewrite deg_dec_ne by lia. auto. }
  destruct (capacity - 1 =? 0) eqn:Ec; [lia|]. intros E.
  apply fill_switch_spec in E as (H1 & _ & _ & _ & H5); [|by intros; apply Hr; right|by rewrite length_dec|lia|done].
  split; [set_solver|]. specialize (H5 h Hh). rewrite deg_dec_eq in H5 by lia. lia.
Qed.

Lemma sum_deg_perm degrees l l' : l ≡ₚ l' → sum_deg degrees l = sum_deg degrees l'.
Proof. induction 1; simpl; lia. Qed.

Lemma sum_deg_filter_le degrees degrees' l :
  (∀ h, h ∈ l → 0 ≤ deg degrees' h ≤ deg degrees h) →
  sum_deg degrees' (filter (λ h, 0 < deg degrees' h) l) ≤ sum_deg degrees l.
Proof.
  induction l as [|h l IH]; intros Hl; [done|].
  specialize (IH ltac:(intros; apply Hl; by right)). specialize (Hl h ltac:(by left)).
  destruct (decide (0 < deg degrees' h)).
  - rewrite filter_cons_True by done. simpl. lia.
  - rewrite filter_cons_False by done. simpl. lia.
Qed.

Lemma spend_degrees_spec fuel with_deg degrees sws r :
  (∀ h, h ∈ with_deg → 0 ≤ h < hosts ∧ 0 < deg degrees h) → length degrees = Z.to_nat hosts →
  (∀ h, 0 ≤ h < hosts → 0 ≤ deg degrees h) → switches_ok hosts capacity sws →
  sum_deg degrees with_deg < Z.of_nat fuel →
  ∃ sws' r', spend_degrees fuel capacity with_deg degrees sws r = Ok (sws', r') ∧
    switches_ok hosts capacity sws' ∧ grows sws sws'.
Proof.
  revert with_deg degrees sws r. induction fuel as [|fuel IH]; intros with_deg degrees sws r Hw Hlen Hpos Hok Hfuel.
  { destruct with_deg as [|h l]; [simpl; eauto using grows_refl|].
    assert (0 ≤ sum_deg degrees (h :: l)); [|lia].
    clear -Hw. induction (h :: l) as [|x l' IHl]; simpl; [lia|].
    destruct (Hw x) as [_ ?]; [by left|]. assert (0 ≤ sum_deg degrees l'); [|lia].
    apply IHl. intros; apply Hw; by right. }
  destruct with_deg as [|h0 l0] eqn:Ew; [simpl; eauto using grows_refl|]. rewrite <- Ew in *.
  assert (Hne : with_deg ≠ []) by (by subst). clear Ew.
  assert (Hstep : spend_degrees (S fuel) capacity with_deg degrees sws r =
    let '(wd, r) := shuffle with_deg r in
    let '(sw, degrees) := fill_switch wd degrees capacity ∅ in
    spend_degrees fuel capacity (filter (λ h, 0 < deg degrees h) wd) degrees (sws ++ [sw]) r)
    by (by destruct with_deg). rewrite Hstep. clear Hstep.
  pose proof (shuffle_perm with_deg r) as Hperm. destruct (shuffle with_deg r) as [wd r1]. simpl in Hperm.
  assert (Hwd : ∀ h, h ∈ wd → 0 ≤ h < hosts ∧ 0 < deg degrees h) by (intros h; rewrite Hperm; apply Hw).
  rewrite <- (sum_deg_perm degrees wd with_deg Hperm) in Hfuel.
  destruct (fill_switch wd degrees capacity ∅) as [sw d'] eqn:Ef.
  destruct (fill_switch_spec wd degrees capacity ∅ sw d') as (_ & H2 & H3 & H4 & H5); [|done|lia|done|done|].
  { intros h Hh. by apply Hwd. }
  rewrite size_empty in H3.
  assert (Hlt : sum_deg d' (filter (λ h, 0 < deg d' h) wd) < sum_deg degrees wd).
  { destruct wd as [|h wd]; [by apply Permutation_nil in Hperm|].
    destruct (fill_switch_progress h wd degrees sw d') as [_ Hd]; [by intros; apply Hwd|done|done|apply Hwd; by left|done|].
    assert (Hrest : sum_deg d' (filter (λ h, 0 < deg d' h) wd) ≤ sum_deg degrees wd).
    { apply sum_deg_filter_le. intros x Hx. apply H5, Hwd. by right. }
    assert (0 ≤ deg d' h) by (apply H5, Hwd; by left).
    destruct (decide (0 < deg d' h)).
    - rewrite filter_cons_True by done. simpl. lia.
    - rewrite filter_cons_False by done. simpl. lia. }
  destruct (IH (filter (λ h, 0 < deg d' h) wd) d' (sws ++ [sw]) r1) as (sws' & r' & E & Hok' & Hg).
  - intros h [? Hh]%list_elem_of_filter. split; [by apply Hwd|done].
  - done.
  - intros h Hh. by apply H5.
  - apply switches_ok_app; [done|lia|]. intros h Hh. apply Hwd. set_solver.
  - lia.
  - exists sws', r'. split_and!; [done..|]. intros s Hs.
    apply (Hg s). rewrite elem_of_app. by left.
Qed.

(** ** The extra switches *)

Lemma pop_entries_spec fuel cap heap used ps rest :
  0 ≤ cap → pop_entries fuel cap heap used = (ps, rest) →
  (length (omap (λ p : Z * Z * bool, if p.2 then Some p.1.2 else None) ps) ≤ Z.to_nat cap)%nat ∧
  (∀ p, p ∈ ps → p.1.2 ∈ heap.*2) ∧ (∀ e, e ∈ rest → e ∈ heap).
Proof.
  revert cap heap used ps rest. induction fuel as [|fuel IH]; intros cap heap used ps rest Hc.
  { simpl. intros [= <- <-]. split_and!; [simpl; lia|by intros ? ?%elem_of_nil|done]. }
  destruct heap as [|[[d t] h] heap]; simpl.
  { intros [= <- <-]. split_and!; [simpl; lia|by intros ? ?%elem_of_nil|done]. }
  destruct (cap <=? 0) eqn:Ec.
  { intros [= <- <-]. split_and!; [simpl; lia|by intros ? ?%elem_of_nil|done]. }
  destruct (decide (h ∈ used)).
  - destruct (pop_entries fuel cap heap used) as [ps' rest'] eqn:E. intros [= <- <-].
    destruct (IH cap heap used ps' rest' Hc E) as (H1 & H2 & H3). split_and!; [done| |set_solver].
    intros p [->|Hp]%elem_of_cons; simpl; [by left|right; by apply H2].
  - destruct (pop_entries fuel (cap - 1) heap _) as [ps' rest'] eqn:E. intros [= <- <-].
    destruct (IH (cap - 1) heap _ ps' rest' ltac:(lia) E) as (H1 & H2 & H3). split_and!; [|  |set_solver].
    + change (S (length (omap (λ p : Z * Z * bool, if p.2 then Some p.1.2 else None) ps')) ≤ Z.to_nat cap)%nat.
      lia.
    + intros p [->|Hp]%elem_of_cons; simpl; [by left|right; by apply H2].
Qed.

Lemma with_ties_hosts l r : (with_ties l r).1.*2 = l.*2.
Proof.
  revert r. induction l as [|[d h] l IH]; intros r; simpl; [done|].
  destruct (random r) as [t r1]. specialize (IH r1). destruct (with_ties l r1) as [es r2]. simpl in *. by f_equal.
Qed.

Lemma extra_switch_spec heap r sw heap' r' :
  0 ≤ hosts → (∀ h, h ∈ heap.*2 → 0 ≤ h < hosts) → extra_switch capacity hosts heap r = (sw, heap', r') →
  Z.of_nat (size sw) ≤ capacity ∧ (∀ h, h ∈ sw → 0 ≤ h < hosts) ∧ (∀ h, h ∈ heap'.*2 → 0 ≤ h < hosts).
Proof.
  intros Hh Hr. unfold extra_switch.
  destruct (pop_entries _ _ heap ∅) as [ps rest] eqn:E.
  apply pop_entries_spec in E as (H1 & H2 & H3); [|lia].
  pose proof (with_ties_hosts ((λ p : Z * Z * bool, (if (p.2 : bool) then p.1.1 + 1 else p.1.1, p.1.2)) <$> ps) r) as Ht.
  destruct (with_ties _ r) as [back r1]. simpl in Ht. intros [= <- <- <-].
  assert (Hps : ∀ p, p ∈ ps → 0 ≤ p.1.2 < hosts) by (intros p Hp; by apply Hr, H2).
  split_and!.
  - pose proof (size_list_to_set_le (omap (λ p : Z * Z * bool, if p.2 then Some p.1.2 else None) ps)). lia.
  - intros h. rewrite elem_of_list_to_set, list_elem_of_omap. intros ([[d x] b] & Hp & Hx).
    destruct b; simpl in Hx; simplify_eq. by apply (Hps _ Hp).
  - intros h. rewrite list_elem_of_fmap. intros (e & -> & He).
    rewrite (merge_sort_Permutation _ _), elem_of_app in He. destruct He as [He|He].
    + apply Hr, list_elem_of_fmap. exists e. split; [done|by apply H3].
    + assert (Hin : e.2 ∈ back.*2) by (apply list_elem_of_fmap; eauto).
      rewrite Ht, <- list_fmap_compose in Hin. apply list_elem_of_fmap in Hin as (p & -> & Hp).
      simpl. by apply Hps.
Qed.

Lemma extra_loop_spec n heap sws r :
  0 ≤ hosts → (∀ h, h ∈ heap.*2 → 0 ≤ h < hosts) → switches_ok hosts capacity sws →
  let sws' := extra_loop n capacity hosts heap sws r in
  switches_ok hosts capacity sws' ∧ grows sws sws' ∧ (length sws' ≤ n + length sws)%nat.
Proof.
  intros Hh. revert heap sws r. induction n as [|n IH]; intros heap sws r Hr Hok; simpl.
  { split_and!; [done|apply grows_refl|done]. }
  destruct heap as [|e heap]; [split_and!; [done|apply grows_refl|lia]|].
  destruct (extra_switch capacity hosts (e :: heap) r) as [[sw heap'] r'] eqn:E.
  apply extra_switch_spec in E as (H1 & H2 & H3); [|done..].
  destruct (IH heap' (sws ++ [sw]) r' H3) as (G1 & G2 & G3).
  { by apply switches_ok_app. }
  rewrite length_app in G3. simpl in G3. split_and!; [done| |lia].
  intros s Hs. apply G2. rewrite elem_of_app. by left.
Qed.

Lemma extra_switches_spec n sws r :
  0 ≤ hosts → switches_ok hosts capacity sws → Z.of_nat (length sws) < n →
  let sws' := extra_switches capacity hosts n sws r in
  switches_ok hosts capacity sws' ∧ grows sws sws' ∧ Z.of_nat (length sws') ≤ n.
Proof.
  intros Hh Hok Hn. unfold extra_switches.
  pose proof (with_ties_hosts ((λ h, (count_switches sws h, h)) <$> range hosts) r) as Ht.
  destruct (with_ties _ r) as [heap r1]. simpl in Ht.
  destruct (extra_loop_spec (Z.to_nat (n - Z.of_nat (length sws))) (merge_sort entry3_le heap) sws r1 Hh)
    as (H1 & H2 & H3); [|done|].
  - intros h Hin. apply list_elem_of_fmap in Hin as (e & -> & He).
    rewrite (merge_sort_Permutation _ _) in He.
    assert (Hin : e.2 ∈ heap.*2) by (apply list_elem_of_fmap; eauto).
    rewrite Ht, <- list_fmap_compose in Hin. apply list_elem_of_fmap in Hin as (x & -> & Hx%elem_of_range).
    done.
  - simpl. split_and!; [done..|lia].
Qed.
End mesh_proofs.

Section build.
Context `{RngLaws}.

Definition mesh_capacity (node_per_switch hosts : Z) : Z :=
  if 0 <? node_per_switch then node_per_switch else hosts.

Lemma draw_degrees_spec n lo hi r :
  lo ≤ hi → length (draw_degrees n lo hi r).1 = n ∧ Forall (λ d, lo ≤ d) (draw_degrees n lo hi r).1.
Proof.
  intros Hlo. revert r. induction n as [|n IH]; intros r; simpl; [by split|].
  pose proof (randint_range lo hi r Hlo) as Hd. destruct (randint lo hi r) as [d r1]. simpl in Hd.
  specialize (IH r1). destruct (draw_degrees n lo hi r1) as [ds r2]. simpl in *.
  destruct IH as [IH1 IH2]. split; [by f_equal|constructor; [lia|done]].
Qed.

Lemma sum_deg_range degs n :
  length degs = Z.to_nat n → sum_deg degs (range n) = foldr Z.add 0 degs.
Proof.
  intros Hlen. unfold range. destruct (decide (0 ≤ n)) as [Hn|Hn].
  2:{ rewrite seqZ_nil by lia. destruct degs; [done|simpl in Hlen; lia]. }
  assert (Hgen : ∀ pre ds, sum_deg (pre ++ ds) (seqZ (Z.of_nat (length pre)) (Z.of_nat (length ds))) = foldr Z.add 0 ds).
  { intros pre ds. revert pre. induction ds as [|d ds IH]; intros pre; [done|].
    replace (Z.of_nat (length (d :: ds))) with (Z.succ (Z.of_nat (length ds))) by (simpl; lia).
    rewrite seqZ_cons by lia. cbn [foldr sum_deg]. unfold deg at 1. rewrite Nat2Z.id.
    rewrite list_lookup_total_middle by done. f_equal. rewrite Z.pred_succ.
    specialize (IH (pre ++ [d])). rewrite <- app_assoc, length_app in IH. simpl in IH.
    rewrite <- IH. unfold sum_deg. simpl. do 2 f_equal. lia. }
  specialize (Hgen [] degs). simpl in Hgen. rewrite <- Hgen. f_equal. f_equal. lia.
Qed.

(** The switch membership a build ends with. *)
Lemma mesh_switches_spec hosts n nps lo hi use_all r :
  2 ≤ hosts →
  match mesh_switches hosts n nps lo hi use_all r with
  | Ok sws => switches_ok hosts (mesh_capacity nps hosts) sws ∧
      (∀ a b, 0 ≤ a < hosts → 0 ≤ b < hosts → rtc (share sws) a b) ∧
      (n ≠ 0 → Z.of_nat (length sws) ≤ n)
  | Raise e => exn_cls e = EValueError
  | NoFuel => False
  end.
Proof.
  intros Hh. unfold mesh_switches.
  destruct ((lo <? 1) || (hi <? lo)) eqn:E1; [done|].
  destruct (nps =? 1) eqn:E2; [done|]. fold (mesh_capacity nps hosts).
  set (cap := mesh_capacity nps hosts).
  assert (Hcap : 2 ≤ cap) by (unfold cap, mesh_capacity; destruct (0 <? nps) eqn:?; lia).
  destruct (draw_degrees_spec (Z.to_nat hosts) lo hi r) as [Hlen Hlow]; [lia|].
  destruct (draw_degrees (Z.to_nat hosts) lo hi r) as [degs r1]. simpl in Hlen, Hlow.
  destruct (existsb (λ d, d <? 1) degs) eqn:E3; [done|].
  pose proof (shuffle_perm (range hosts) r1) as Hperm. destruct (shuffle (range hosts) r1) as [order r2].
  simpl in Hperm. assert (Hbd : by_degree degs order ≡ₚ range hosts).
  { unfold by_degree. by rewrite (merge_sort_Permutation _ _). }
  destruct (by_degree degs order) as [|first remaining] eqn:Eo.
  { apply Permutation_nil in Hbd. unfold range in Hbd. apply (f_equal length) in Hbd.
    rewrite length_seqZ in Hbd. simpl in Hbd. lia. }
  assert (Hin : ∀ h, h ∈ first :: remaining ↔ 0 ≤ h < hosts) by (intros h; rewrite Hbd; apply elem_of_range).
  assert (Hnd : NoDup (first :: remaining)) by (rewrite Hbd; apply NoDup_range).
  assert (Hpos0 : ∀ h, 0 ≤ h < hosts → 0 ≤ deg degs h).
  { intros h Hh'. unfold deg. destruct (lookup_lt_is_Some_2 degs (Z.to_nat h)) as [d Hd]; [lia|].
    rewrite (list_lookup_total_correct _ _ _ Hd). rewrite Forall_lookup in Hlow. specialize (Hlow _ _ Hd). lia. }
  assert (Hi0 : tree_inv hosts cap first (mkTree degs [] [first])).
  { constructor; simpl.
    - by intros sw ?%elem_of_nil.
    - by intros x ->%list_elem_of_singleton.
    - intros x ->%list_elem_of_singleton. apply Hin. by left.
    - done.
    - done. }
  pose proof (tree_loop_total cap (budget_message (foldr Z.add 0 degs) hosts) remaining (mkTree degs [] [first])) as Htot.
  destruct (foldM (tree_step cap _) _ remaining) as [t|e|] eqn:Et; [| |done].
  2:{ by eapply tree_loop_raise. }
  destruct (tree_loop_inv hosts cap Hcap first (budget_message (foldr Z.add 0 degs) hosts) remaining (mkTree degs [] [first]) t Hi0)
    as ([Tsws Tconn Trange Tlen Tpos] & Tc & Tle); [done|intros; apply Hin; by right|done|].
  simpl in Tc, Tle. cbn [mbind res_bind].
  destruct (spend_degrees_spec hosts cap Hcap (S (Z.to_nat (foldr Z.add 0 degs)))
    (filter (λ h, 0 < deg (degrees t) h) (range hosts)) (degrees t) (switch_hosts t) r2)
    as (sws & r3 & -> & Hok & Hg); [|done|done|done| |].
  { intros h [? ?%elem_of_range]%list_elem_of_filter. done. }
  { assert (Hle : sum_deg (degrees t) (filter (λ h, 0 < deg (degrees t) h) (range hosts)) ≤ sum_deg degs (range hosts)).
    { apply sum_deg_filter_le. intros h Hh'%elem_of_range. split; [by apply Tpos|by apply Tle]. }
    rewrite sum_deg_range in Hle by done. lia. }
  cbn [mbind res_bind].
  assert (Hconn : ∀ a b, 0 ≤ a < hosts → 0 ≤ b < hosts → rtc (share sws) a b).
  { assert (Hfirst : ∀ x, 0 ≤ x < hosts → rtc (share sws) first x).
    { intros x Hx. eapply rtc_share_grows, Tconn; [done|]. rewrite Tc. by apply Hin. }
    intros a b Ha Hb. trans first; [symmetry|]; by apply Hfirst. }
  destruct (negb (n =? 0) && (n <? Z.of_nat (length sws))) eqn:E4; [done|].
  destruct (use_all && negb (n =? 0) && (Z.of_nat (length sws) <? n)) eqn:E5.
  - destruct (extra_switches_spec hosts cap Hcap n sws r3) as (G1 & G2 & G3); [lia|done|lia|].
    split_and!; [done| |done]. intros a b Ha Hb. eapply rtc_share_grows; [done|]. by apply Hconn.
  - split_and!; [done..|]. intros Hn. lia.
Qed.

(** Two hosts are attached to a common link. *)
Definition on_link (links : list raw_link) (a b : Z) : Prop :=
  ∃ l, l ∈ TopologyModel links ∧ a ∈ Topology.hosts l ∧ b ∈ Topology.hosts l.

(** C4: the random mesh. For any generator, a build for two or more hosts ends
    with a topology or a [ValueError]. In the topology every switch holds at
    most its capacity of distinct existing hosts, all hosts are connected, the
    switch limit is kept, and the interface index recorded for a host on a link
    is the port of the [addLink] call that attached it. *)
Theorem mesh_build_correct hosts n nps lo hi use_all r :
  2 ≤ hosts →
  match MeshTopo_build hosts n nps lo hi use_all r with
  | Ok (links, log) =>
      (∀ i l, links !! i = Some l → ∃ hs, link_numbered log (Z.of_nat i) hs l ∧ NoDup hs ∧
         Z.of_nat (length hs) ≤ mesh_capacity nps hosts ∧ ∀ h, h ∈ hs → 0 ≤ h < hosts) ∧
      (∀ a b, 0 ≤ a < hosts → 0 ≤ b < hosts → rtc (on_link links) a b) ∧
      (n ≠ 0 → Z.of_nat (length links) ≤ n)
  | Raise e => exn_cls e = EValueError
  | NoFuel => False
  end.
Proof.
  intros Hh. unfold MeshTopo_build. pose proof (mesh_switches_spec hosts n nps lo hi use_all r Hh) as Hm.
  destruct (mesh_switches hosts n nps lo hi use_all r) as [sws|e|]; [|done..]. cbn [mbind res_bind].
  destruct Hm as (Hok & Hconn & Hlen).
  destruct (emit_links_spec hosts (sorted_set <$> sws)) as (links & ps & -> & Hll & Hl).
  { intros hs (sw & -> & Hsw)%list_elem_of_fmap. split; [apply NoDup_sorted_set|].
    intros h. rewrite elem_of_sorted_set. by apply Hok. }
  cbn [mbind res_bind fst snd]. rewrite length_fmap in Hll. split_and!.
  - intros i l Hi. destruct (lookup_lt_is_Some_2 sws i) as [sw Hsw].
    { rewrite <- Hll. by eapply lookup_lt_Some. }
    destruct (Hl i (sorted_set sw)) as (l' & Hl' & Hn); [by rewrite list_lookup_fmap, Hsw|].
    rewrite Hi in Hl'. simplify_eq. exists (sorted_set sw).
    destruct (Hok sw) as [Hsz Hr]; [by eapply list_elem_of_lookup_2|].
    split_and!; [done|apply NoDup_sorted_set|by rewrite length_sorted_set|].
    intros h. rewrite elem_of_sorted_set. apply Hr.
  - intros a b Ha Hb. eapply rtc_subrel; [|by apply Hconn].
    intros x y (sw & Hsw & Hx & Hy). apply list_elem_of_lookup in Hsw as (i & Hi).
    destruct (Hl i (sorted_set sw)) as (l & Hli & (eth & -> & _)); [by rewrite list_lookup_fmap, Hi|].
    eexists. split; [apply list_elem_of_fmap; eexists; split; [reflexivity|by eapply list_elem_of_lookup_2]|].
    simpl. by rewrite !elem_of_sorted_list, !elem_of_sorted_set.
  - intros. rewrite Hll. auto.
Qed.
End build.

(** A small generator: counts up, draws by remainder and reverses on shuffle. *)
#[export] Instance counter_rng : Rng := {|
  rng := Z;
  randint lo hi r := (lo + r `mod` (hi - lo + 1), r + 1);
  shuffle l r := (reverse l, r + 1);
  random r := (r, r + 1);
|}.

#[export] Instance counter_laws : RngLaws.
Proof.
  constructor; simpl.
  - intros lo hi r Hle. pose proof (Z.mod_pos_bound r (hi - lo + 1)). lia.
  - intros l r. apply reverse_Permutation.
Qed.

Example mesh_run :
  (fst <$> MeshTopo_build 4 5 2 1 2 true (1 : Z)) =
  Ok [ RawMulti (Some "s0") (Some 1) [0; 2] (Some {[0 := 0; 2 := 0]});
       RawMulti (Some "s1") (Some 2) [2; 3] (Some {[2 := 1; 3 := 0]});
       RawMulti (Some "s2") (Some 3) [0; 1] (Some {[0 := 1; 1 := 0]});
       RawMulti (Some "s3") (Some 4) [1; 3] (Some {[1 := 1; 3 := 1]});
       RawMulti (Some "s4") (Some 5) [0; 2] (Some {[0 := 2; 2 := 2]}) ].
Proof. vm_compute. reflexivity. Qed.

Lemma mesh_build_correct_witness :
  match MeshTopo_build 4 5 2 1 2 true (1 : Z) with
  | Ok (links, log) =>
      (∀ i l, links !! i = Some l → ∃ hs, link_numbered log (Z.of_nat i) hs l ∧ NoDup hs ∧
         Z.of_nat (length hs) ≤ mesh_capacity 2 4 ∧ ∀ h, h ∈ hs → 0 ≤ h < 4) ∧
      (∀ a b, 0 ≤ a < 4 → 0 ≤ b < 4 → rtc (on_link links) a b) ∧
      (5 ≠ 0 → Z.of_nat (length links) ≤ 5)
  | Raise e => exn_cls e = EValueError
  | NoFuel => False
  end.
Proof. apply (mesh_build_correct (H:=counter_rng) (H0:=counter_laws) 4 5 2 1 2 true 1). lia. Defined.
