(* ===== verification/Provision.v ===== *)
(** Component: the node directories (src/runtime/template.py,
    provision_node_dirs and cleanup_node_dirs) and the construction of a mesh
    scenario on top of them (src/runtime/scenario_setup.py, build_mesh_scenario),
    in the state monad.  Every file operation may be interrupted by an exception
    and leave its directory in any condition. *)
From S2P Require Import Prelude PyValue PyString PyNum PyText StateMonad Topology Topo Options Validate NodeConf CachePlan.
Local Open Scope Z_scope.

(** * Directories *)

(** A directory hN: whether it carries the stamp, and its files by relative
    path. *)
Record node := mkNode { stamped : bool; contents : gmap string string }.

(** An interruption: the exception, and what it leaves of the directory. *)
Definition fault := option (exn * option node).

(** [faults] are met by the operations in turn, [lost] by the removals whose errors
    are ignored; [generated] is the local list of [provision_node_dirs]. *)
Record world := mkWorld { dirs : gmap Z node; faults : list fault; lost : list fault; generated : list Z }.

Definition set_dirs (d : gmap Z node) (w : world) : world := mkWorld d (faults w) (lost w) (generated w).
Definition set_faults (l : list fault) (w : world) : world := mkWorld (dirs w) l (lost w) (generated w).
Definition set_lost (l : list fault) (w : world) : world := mkWorld (dirs w) (faults w) l (generated w).
Definition set_generated (g : list Z) (w : world) : world := mkWorld (dirs w) (faults w) (lost w) g.

(** A file operation on the directory of a host. *)
Definition file_op (idx : Z) (work : option node → option node) : M world () := λ w,
  match faults w with
  | Some (e, rest_of_dir) :: rest => (set_faults rest (set_dirs (partial_alter (λ _, rest_of_dir) idx (dirs w)) w), inr e)
  | None :: rest => (set_faults rest (set_dirs (partial_alter work idx (dirs w)) w), inl ())
  | [] => (set_dirs (partial_alter work idx (dirs w)) w, inl ())
  end.

(** [shutil.rmtree], and [shutil.rmtree(..., ignore_errors=True)]. *)
Definition rmtree (idx : Z) : M world () := file_op idx (λ _, None).
Definition rmtree_ignoring (idx : Z) : M world () := λ w,
  match lost w with
  | Some (_, rest_of_dir) :: rest => (set_lost rest (set_dirs (partial_alter (λ _, rest_of_dir) idx (dirs w)) w), inl ())
  | None :: rest => (set_lost rest (set_dirs (delete idx (dirs w)) w), inl ())
  | [] => (set_dirs (delete idx (dirs w)) w, inl ())
  end.

(** [shutil.copytree] into a directory that does not exist. *)
Definition copytree (template : gmap string string) (idx : Z) : M world () := file_op idx (λ _, Some (mkNode false template)).
Definition touch_stamp (idx : Z) : M world () := file_op idx (fmap (λ n, mkNode true (contents n))).
Definition edit (f : gmap string string → gmap string string) (idx : Z) : M world () :=
  file_op idx (fmap (λ n, mkNode (stamped n) (f (contents n)))).

(** The configuration of a node: the socket id in both files, the node name, and the
    mirror of cefnetd.conf below .cefore_env. *)
Definition with_sock_id (idx : Z) (name : string) : gmap string string → gmap string string := alter (update_local_sock_id idx) name.
Definition with_node_name (idx : Z) : gmap string string → gmap string string :=
  alter (set_config_value "NODE_NAME" ("h" +s+ str_Z idx)) "cefnetd.conf".
Definition mirror : string := ".cefore_env/cefore/cefnetd.conf".
Definition with_mirror (c : gmap string string) : gmap string string :=
  match c !! "cefnetd.conf" with Some text => <[mirror := text]> c | None => c end.

Definition NodeDirError {A} (msg : string) : M world A := throw (Exn ENodeDirError msg).

(** One iteration of the loop: the guards, the copy of the template with its
    stamp, its registration and its configuration. *)
Definition remove_existing (idx : Z) (existing : option node) : M world () :=
  match existing with
  | None => mret ()
  | Some n =>
      if stamped n then rmtree idx
      else NodeDirError ("h" +s+ str_Z idx +s+ " exists but was not created by ceforeemu (no .ceforeemu-node-dir stamp). "
                         +s+ "Remove it manually before running.")
  end.
Definition lay_out (template : gmap string string) (idx : Z) : M world () :=
  copytree template idx ≫= λ _, touch_stamp idx.
Definition register (idx : Z) : M world () := modify (λ w, set_generated (generated w ++ [idx]) w).
Definition configure (idx : Z) : M world () :=
  edit (with_sock_id idx "cefnetd.conf") idx ≫= λ _,
  edit (with_sock_id idx "csmgrd.conf") idx ≫= λ _,
  edit (with_node_name idx) idx ≫= λ _,
  edit id idx ≫= λ _,
  edit with_mirror idx.

Definition provision_one (templates : gmap string (gmap string string)) (roles : list (Z * NodeRole)) (idx : Z) : M world () :=
  role ← lift (match role_of roles idx with Some role => Ok role | None => raise EKeyError (str_Z idx) end);
  match templates !! r_template role with
  | None => NodeDirError ("missing template directory: " +s+ r_template role)
  | Some template =>
      existing ← get (λ w, dirs w !! idx);
      remove_existing idx existing ≫= λ _,
      lay_out template idx ≫= λ _,
      register idx ≫= λ _,
      configure idx
  end.

(** [provision_node_dirs]: the created directories, or their removal. *)
Definition provision_node_dirs (templates : gmap string (gmap string string)) (roles : list (Z * NodeRole)) : M world (list Z) :=
  modify (set_generated []) ≫= λ _,
  try_except (λ _, true)
    (for_each (provision_one templates roles) (sorted_list (fst <$> roles)) ≫= λ _, get generated)
    (λ e, get generated ≫= λ created, for_each rmtree_ignoring created ≫= λ _, throw e).

(** [cleanup_node_dirs]. *)
Definition cleanup_one (idx : Z) : M world () :=
  existing ← get (λ w, dirs w !! idx);
  match existing with
  | Some n => if stamped n then rmtree idx else mret ()
  | None => mret ()
  end.
Definition cleanup_node_dirs (generated_dirs : list Z) : M world () := for_each cleanup_one generated_dirs.

(** * The construction seam *)

Section build.
Context `{Rng} (choose : ∀ A : Type, A → list A → rng → A * rng).
#[local] Instance rng_choice : Choice := {| chooser := rng; choice := choose |}.

Record MeshBuildSpec := mkSpec {
  b_host_count : Z;
  b_switch_limit : Z;
  b_node_per_switch : Z;
  b_host_degree_min : Z;
  b_host_degree_max : Z;
  b_switch_use_all : bool;
  b_publisher_ids : gset Z;
  b_links : option (list (list Z));
}.

(** The topology, drawn from the generator the roles left. *)
Definition build_topo (spec : MeshBuildSpec) (r : rng) : res (list raw_link * list (Z * string)) :=
  match b_links spec with
  | Some links => ExplicitLinksTopo_build (b_host_count spec) links
  | None => MeshTopo_build (b_host_count spec) (b_switch_limit spec) (b_node_per_switch spec) (b_host_degree_min spec)
              (b_host_degree_max spec) (b_switch_use_all spec) r
  end.

(** [build_mesh_scenario]. *)
Definition build_mesh_scenario (templates : gmap string (gmap string string)) (spec : MeshBuildSpec) (r : rng)
    : M world (list (Z * NodeRole) * list Z * (list raw_link * list (Z * string))) :=
  let '(roles, r) := assign_roles (b_host_count spec) r (b_publisher_ids spec) in
  node_dirs ← provision_node_dirs templates roles;
  topo ← try_except (λ _, true) (lift (build_topo spec r)) (λ e, cleanup_node_dirs node_dirs ≫= λ _, throw e);
  mret (roles, node_dirs, topo).
End build.

(** * Runs of the loop *)

(** No operation is interrupted. *)
Definition calm (w : world) : Prop := Forall (λ f, f = None) (faults w).

(** What an operation does to the directories of the other hosts: nothing. *)
Definition others (idx : Z) (w w' : world) : Prop := ∀ j, j ≠ idx → dirs w' !! j = dirs w !! j.

Lemma file_op_others idx work w : others idx w (file_op idx work w).1.
Proof.
  intros j Hj. unfold file_op. destruct (faults w) as [|[[e x]|] rest]; simpl; by rewrite lookup_partial_alter_ne.
Qed.

Lemma file_op_done idx work w w' : file_op idx work w = (w', inl ()) → dirs w' !! idx = work (dirs w !! idx) ∧ generated w' = generated w ∧ lost w' = lost w.
Proof.
  unfold file_op. destruct (faults w) as [|[[e x]|] rest]; intros [= <-]; simpl; by rewrite lookup_partial_alter_eq.
Qed.

Lemma file_op_kept idx work w : generated (file_op idx work w).1 = generated w ∧ lost (file_op idx work w).1 = lost w.
Proof. unfold file_op. by destruct (faults w) as [|[[e x]|] rest]. Qed.

Lemma file_op_calm idx work w : calm w → ∃ w', file_op idx work w = (w', inl ()) ∧ calm w'.
Proof.
  unfold file_op, calm. destruct (faults w) as [|f rest] eqn:E; [intros _; eexists; split; [done|]; simpl; by rewrite E|].
  intros [-> Hr]%Forall_cons. by eexists.
Qed.

(** The directory of a provisioned host. *)
Definition provisioned (template : gmap string string) (idx : Z) : node :=
  mkNode true (with_mirror (with_node_name idx (with_sock_id idx "csmgrd.conf" (with_sock_id idx "cefnetd.conf" template)))).

(** An operation on one host: it leaves the others and the lists alone, does [f] to
    the directory when it ends, and ends when nothing interrupts it. *)
Record host_op (idx : Z) (m : M world ()) (f : option node → option node) : Prop := {
  ho_frame : ∀ w, others idx w (m w).1 ∧ generated (m w).1 = generated w ∧ lost (m w).1 = lost w;
  ho_effect : ∀ w w', m w = (w', inl ()) → dirs w' !! idx = f (dirs w !! idx);
  ho_calm : ∀ w, calm w → ∃ w', m w = (w', inl ()) ∧ calm w';
}.

Lemma host_op_file idx work : host_op idx (file_op idx work) work.
Proof.
  split.
  - intros w. split; [apply file_op_others|apply file_op_kept].
  - intros w w' Hw. by apply file_op_done.
  - intros w. apply file_op_calm.
Qed.

Lemma host_op_bind idx m m' f g : host_op idx m f → host_op idx m' g → host_op idx (m ≫= λ _, m') (λ n, g (f n)).
Proof.
  intros [F E C] [F' E' C']. split.
  - intros w. unfold mbind, M_bind. pose proof (F w) as (Fo & Fg & Fl). destruct (m w) as [w1 [[]|e]]; simpl in *; [|done].
    destruct (F' w1) as (Fo' & Fg' & Fl'). rewrite Fg', Fl'. split; [|done]. intros j Hj. by rewrite Fo', Fo.
  - intros w w'. unfold mbind, M_bind. destruct (m w) as [w1 [[]|e]] eqn:Ew; [|done]. intros Hw.
    rewrite (E' _ _ Hw). by rewrite (E _ _ Ew).
  - intros w Hw. destruct (C w Hw) as (w1 & E1 & Hw1). unfold mbind, M_bind. rewrite E1. by apply C'.
Qed.

Lemma host_op_lay_out template idx : host_op idx (lay_out template idx) (λ _, Some (mkNode true template)).
Proof.
  exact (host_op_bind idx _ _ _ _ (host_op_file idx (λ _, Some (mkNode false template)))
    (host_op_file idx (fmap (λ n, mkNode true (contents n))))).
Qed.

Lemma host_op_edit f idx : host_op idx (edit f idx) (fmap (λ n, mkNode (stamped n) (f (contents n)))).
Proof. apply host_op_file. Qed.

Lemma host_op_configure idx : host_op idx (configure idx)
  (fmap (λ n, mkNode (stamped n) (with_mirror (with_node_name idx (with_sock_id idx "csmgrd.conf" (with_sock_id idx "cefnetd.conf" (contents n))))))).
Proof.
  pose proof (host_op_bind idx _ _ _ _ (host_op_edit (with_sock_id idx "cefnetd.conf") idx)
    (host_op_bind idx _ _ _ _ (host_op_edit (with_sock_id idx "csmgrd.conf") idx)
      (host_op_bind idx _ _ _ _ (host_op_edit (with_node_name idx) idx)
        (host_op_bind idx _ _ _ _ (host_op_edit id idx) (host_op_edit with_mirror idx))))) as [F E C].
  split; [exact F| |exact C]. intros w w' Hw. rewrite (E w w' Hw). by destruct (dirs w !! idx).
Qed.

(** The guards refuse a host: its template is missing, or a directory that is not
    ours is in the way. *)
Definition refused (templates : gmap string (gmap string string)) (roles : list (Z * NodeRole)) (w : world) (idx : Z) : Prop :=
  (∃ n, dirs w !! idx = Some n ∧ stamped n = false) ∨ (∀ role, role_of roles idx = Some role → templates !! r_template role = None).

Lemma remove_existing_op idx w : (∀ n, dirs w !! idx = Some n → stamped n = true) →
  host_op idx (remove_existing idx (dirs w !! idx)) (λ n, match dirs w !! idx with Some _ => None | None => n end).
Proof.
  intros Hs. unfold remove_existing. destruct (dirs w !! idx) as [n|]; [rewrite (Hs n eq_refl); apply host_op_file|].
  split; [done| |]; [by intros w1 w2 [= <-]|]. intros w1 Hw1. by exists w1.
Qed.

Lemma provision_one_refused templates roles idx w : refused templates roles w idx →
  ∃ e, provision_one templates roles idx w = (w, inr e).
Proof.
  intros Hr. unfold provision_one, mbind, M_bind, lift, get.
  destruct (role_of roles idx) as [role|] eqn:Er; [|by eexists].
  destruct (templates !! r_template role) as [template|] eqn:Et; [|by eexists].
  destruct Hr as [(n & Hn & Hs)|Hr]; [|by specialize (Hr role Er); congruence].
  unfold remove_existing. rewrite Hn, Hs. by eexists.
Qed.

(** The operations of one iteration up to the stamp. *)
Definition make_dir (template : gmap string string) (idx : Z) (existing : option node) : M world () :=
  remove_existing idx existing ≫= λ _, lay_out template idx.

(** How an iteration failed: a guard refused the host and nothing was done; or the
    removal, the copy or the stamp was interrupted, and what that left is there; or
    the directory was made and registered before the failure. *)
Definition stopped (templates : gmap string (gmap string string)) (roles : list (Z * NodeRole)) (idx : Z) (w w' : world) : Prop :=
  refused templates roles w idx ∧ w' = w ∨
  ¬ refused templates roles w idx ∧ ∃ role template, role_of roles idx = Some role ∧ templates !! r_template role = Some template ∧
    match make_dir template idx (dirs w !! idx) w with
    | (_, inl _) => generated w' = generated w ++ [idx]
    | (w1, inr _) => w' = w1 ∧ generated w1 = generated w
    end.

Lemma provision_one_allowed templates roles idx w : ¬ refused templates roles w idx →
  ∃ role template, role_of roles idx = Some role ∧ templates !! r_template role = Some template ∧
  let '(w', out) := provision_one templates roles idx w in
  others idx w w' ∧ lost w' = lost w ∧
  match out with
  | inl _ => dirs w' !! idx = Some (provisioned template idx) ∧ generated w' = generated w ++ [idx]
  | inr _ => stopped templates roles idx w w'
  end ∧ (calm w → out = inl () ∧ calm w').
Proof.
  intros Hr. destruct (role_of roles idx) as [role|] eqn:Er; [|destruct Hr; right; intros ? ?; congruence].
  destruct (templates !! r_template role) as [template|] eqn:Et; [|destruct Hr; right; intros ? ?; congruence].
  exists role, template. split_and!; [done..|]. pose proof Hr as Hnot.
  assert (Hs : ∀ n, dirs w !! idx = Some n → stamped n = true).
  { intros n Hn. destruct (stamped n) eqn:E; [done|]. destruct Hr. left. by exists n. }
  unfold provision_one. rewrite Er. unfold mbind at 1, M_bind at 1. unfold lift. rewrite Et. unfold mbind at 1, M_bind at 1. unfold get at 1.
  destruct (host_op_bind idx _ _ _ _ (remove_existing_op idx w Hs) (host_op_lay_out template idx)) as [F E C].
  destruct (host_op_configure idx) as [F' E' C'].
  assert (Hst : ∀ w', match make_dir template idx (dirs w !! idx) w with
    | (_, inl _) => generated w' = generated w ++ [idx]
    | (w1, inr _) => w' = w1 ∧ generated w1 = generated w end → stopped templates roles idx w w')
    by (intros w' Hw'; right; split; [done|]; by exists role, template).
  unfold make_dir in Hst.
  set (pre := remove_existing idx (dirs w !! idx) ≫= λ _, lay_out template idx) in *.
  assert (Heq : (remove_existing idx (dirs w !! idx) ≫= λ _, lay_out template idx ≫= λ _, register idx ≫= λ _, configure idx) w
    = (pre ≫= λ _, register idx ≫= λ _, configure idx) w).
  { unfold pre, mbind, M_bind. by destruct (remove_existing idx (dirs w !! idx) w) as [w1 [[]|e]]. }
  rewrite Heq. unfold mbind, M_bind. specialize (F w) as (Fo & Fg & Fl). specialize (C w). specialize (E w).
  destruct (pre w) as [w1 [[]|e]]; simpl in Fo, Fg, Fl.
  2:{ split_and!; [done|done|by apply Hst|]. intros Hc. by destruct (C Hc) as (? & [=] & _). }
  unfold register, modify. cbn -[configure]. set (w2 := set_generated _ w1).
  specialize (F' w2) as (Fo' & Fg' & Fl'). specialize (C' w2). specialize (E' w2).
  destruct (configure idx w2) as [w3 [[]|e]]; simpl in Fo', Fg', Fl'; rewrite Fl', Fl.
  - rewrite Fg', Fg. split_and!; [intros j Hj; by rewrite Fo', Fo|done| |done|].
    + rewrite (E' _ eq_refl). unfold w2. simpl. by rewrite (E _ eq_refl).
    + intros Hc. destruct (C Hc) as (? & [= <-] & Hc1). destruct (C' Hc1) as (? & [= <-] & Hc2). done.
  - split_and!; [intros j Hj; by rewrite Fo', Fo|done|apply Hst; rewrite Fg'; simpl; by rewrite Fg|].
    intros Hc. destruct (C Hc) as (? & [= <-] & Hc1). by destruct (C' Hc1) as (? & [=] & Hc2).
Qed.

Lemma refused_same templates roles w w' idx : dirs w' !! idx = dirs w !! idx → refused templates roles w' idx ↔ refused templates roles w idx.
Proof. intros Hd. unfold refused. by rewrite Hd. Qed.

Lemma refused_dec templates roles w idx : refused templates roles w idx ∨ ¬ refused templates roles w idx.
Proof.
  unfold refused. destruct (role_of roles idx) as [role|]; [|left; by right].
  destruct (templates !! r_template role) as [template|] eqn:Et; [|left; right; intros r E; by simplify_eq].
  destruct (dirs w !! idx) as [n|]; [destruct (stamped n) eqn:Es|].
  - right. intros [(n' & E & Hn)|Hr]; [simplify_eq; congruence|by specialize (Hr role eq_refl); congruence].
  - left. left. by exists n.
  - right. intros [(n' & E & Hn)|Hr]; [done|by specialize (Hr role eq_refl); congruence].
Qed.

Definition in_place (templates : gmap string (gmap string string)) (roles : list (Z * NodeRole)) (w : world) (idx : Z) : Prop :=
  ∃ role template, role_of roles idx = Some role ∧ templates !! r_template role = Some template ∧
    dirs w !! idx = Some (provisioned template idx).

(** How the loop ends: every host in place, or stopped at host [k]. *)
Definition loop_end (templates : gmap string (gmap string string)) (roles : list (Z * NodeRole)) (hosts : list Z) (w w' : world) (ok : bool) : Prop :=
  lost w' = lost w ∧
  if ok then
    generated w' = generated w ++ hosts ∧ (∀ idx, idx ∉ hosts → dirs w' !! idx = dirs w !! idx) ∧
    ∀ idx, idx ∈ hosts → ¬ refused templates roles w idx ∧ in_place templates roles w' idx
  else ∃ before k after wk, hosts = before ++ k :: after ∧
    (∀ idx, idx ∉ before → idx ≠ k → dirs w' !! idx = dirs w !! idx) ∧ (∀ idx, idx ∈ before → ¬ refused templates roles w idx) ∧
    for_each (provision_one templates roles) before w = (wk, inl ()) ∧ generated wk = generated w ++ before ∧
    dirs wk !! k = dirs w !! k ∧ stopped templates roles k wk w'.

Definition returned {A} (out : A + exn) : bool := match out with inl _ => true | inr _ => false end.

Lemma provision_loop templates roles hosts w : NoDup hosts →
  let '(w', out) := for_each (provision_one templates roles) hosts w in
  loop_end templates roles hosts w w' (returned out) ∧
  (calm w → (∀ idx, idx ∈ hosts → ¬ refused templates roles w idx) → out = inl () ∧ calm w').
Proof.
  intros Hnd. revert w. induction hosts as [|idx hosts IH]; intros w.
  { simpl. split; [|done]. split; [done|]. simpl. split_and!; [by rewrite app_nil_r|done|]. by intros i ?%elem_of_nil. }
  apply NoDup_cons in Hnd as [Hidx Hnd]. cbn [for_each]. unfold mbind, M_bind.
  destruct (refused_dec templates roles w idx) as [Hr|Hr].
  { destruct (provision_one_refused _ _ _ _ Hr) as [e ->]. split; [|intros _ Hall; destruct (Hall idx); [by left|done]].
    split; [done|]. exists [], idx, hosts, w. split_and!; [done|done|by intros i ?%elem_of_nil|done|by rewrite app_nil_r|done|by left]. }
  destruct (provision_one_allowed _ _ _ _ Hr) as (role & template & Hrole & Ht & Hone).
  destruct (provision_one templates roles idx w) as [w1 [[]|e]] eqn:E1; destruct Hone as (Ho & Hl & Hout & Hc).
  2:{ split; [|intros Hcalm _; by destruct (Hc Hcalm)]. split; [done|]. exists [], idx, hosts, w.
      split_and!; [done|intros i _ Hi; by apply Ho|by intros i ?%elem_of_nil|done|by rewrite app_nil_r|done|done]. }
  destruct Hout as [Hdir Hg]. specialize (IH Hnd w1).
  assert (Hsame : ∀ i, i ∈ hosts → refused templates roles w1 i ↔ refused templates roles w i).
  { intros i Hi. apply refused_same, Ho. by intros ->. }
  destruct (for_each (provision_one templates roles) hosts w1) as [w2 out]. destruct IH as [[Hl2 Hend] Hc2]. split.
  - split; [congruence|]. destruct (returned out).
    + destruct Hend as (Hg2 & Hout2 & Hin). split_and!.
      * rewrite Hg2, Hg. by rewrite <- app_assoc.
      * intros i Hi. apply not_elem_of_cons in Hi as [Hne Hi]. rewrite Hout2 by done. by apply Ho.
      * intros i [->|Hi]%elem_of_cons; [|by rewrite <- Hsame; auto]. split; [done|]. exists role, template. by rewrite Hout2.
    + destruct Hend as (before & k & after & wk & -> & Hout2 & Hb & Hrun & Hgk & Hdk & Hk).
      assert (Hks : k ≠ idx) by (intros ->; set_solver).
      exists (idx :: before), k, after, wk. split_and!; [done| | | | | |done].
      * intros i Hi Hne. apply not_elem_of_cons in Hi as [Hni Hi]. rewrite Hout2 by done. by apply Ho.
      * intros i [->|Hi]%elem_of_cons; [done|]. rewrite <- Hsame by set_solver. by apply Hb.
      * cbn [for_each]. unfold mbind, M_bind. by rewrite E1.
      * rewrite Hgk, Hg. by rewrite <- app_assoc.
      * rewrite Hdk. by apply Ho.
  - intros Hcalm Hall. destruct (Hc Hcalm) as [_ Hcalm1]. apply Hc2; [done|]. intros i Hi. rewrite Hsame by done. apply Hall. by right.
Qed.

(** The rollback. *)
Lemma rollback_loop l w : ∃ w', for_each rmtree_ignoring l w = (w', inl ()) ∧
  (∀ idx, idx ∉ l → dirs w' !! idx = dirs w !! idx) ∧ (lost w = [] → ∀ idx, idx ∈ l → dirs w' !! idx = None).
Proof.
  assert (Hl : ∀ l w, ∃ w', for_each rmtree_ignoring l w = (w', inl ()) ∧ (∀ idx, idx ∉ l → dirs w' !! idx = dirs w !! idx) ∧
    (lost w = [] → ∀ idx, idx ∈ l ∨ dirs w !! idx = None → dirs w' !! idx = None)).
  { clear. induction l as [|i l IH]; intros w; [exists w; split_and!; [done..|]; intros _ idx [?%elem_of_nil|?]; done|].
    simpl. unfold mbind, M_bind.
    assert (H1 : ∃ w1, rmtree_ignoring i w = (w1, inl ()) ∧ others i w w1 ∧ (lost w = [] → lost w1 = [] ∧ dirs w1 !! i = None)).
    { unfold rmtree_ignoring. destruct (lost w) as [|[[e x]|] rest] eqn:El; eexists; (split; [done|]); simpl;
        (split; [intros j Hj; simpl; by rewrite ?lookup_partial_alter_ne, ?lookup_delete_ne|]); try done.
      intros _. by rewrite lookup_delete_eq. }
    destruct H1 as (w1 & -> & Ho & H1). destruct (IH w1) as (w2 & -> & Hout & Hin). exists w2. split_and!; [done| |].
    - intros idx [Hne Hnot]%not_elem_of_cons. rewrite Hout by done. by apply Ho.
    - intros He idx Hidx. destruct (H1 He) as [He1 Hi]. apply Hin; [done|]. destruct (decide (idx = i)) as [->|Hne]; [by right|].
      destruct Hidx as [[?|?]%elem_of_cons|Hd]; [done|by left|]. right. by rewrite Ho. }
  destruct (Hl l w) as (w' & E & H1 & H2). exists w'. split_and!; [done..|]. intros He idx Hi. apply H2; auto.
Qed.

(** What the rollback makes of a host that failed. *)
Lemma stopped_rollback templates roles k wk w1 w2 : stopped templates roles k wk w1 → k ∉ generated wk →
  (∀ idx, idx ∉ generated w1 → dirs w2 !! idx = dirs w1 !! idx) → (lost wk = [] → ∀ idx, idx ∈ generated w1 → dirs w2 !! idx = None) →
  (∀ idx, idx ∈ generated w1 → idx ∈ generated wk ∨ idx = k ∧ ¬ refused templates roles wk k) ∧
  (∀ idx, idx ∈ generated wk → idx ∈ generated w1) ∧
  (refused templates roles wk k → dirs w2 !! k = dirs wk !! k) ∧
  ∀ role template, ¬ refused templates roles wk k → role_of roles k = Some role → templates !! r_template role = Some template →
    match make_dir template k (dirs wk !! k) wk with
    | (_, inl _) => lost wk = [] → dirs w2 !! k = None
    | (w', inr _) => dirs w2 !! k = dirs w' !! k
    end.
Proof.
  intros Hst Hk Hout Hin. destruct Hst as [[Hr ->]|[Hr (role & template & Hrole & Ht & Hst)]].
  - split_and!; [by left|done|by intros _; apply Hout|done].
  - destruct (make_dir template k (dirs wk !! k) wk) as [w' [u|e]] eqn:Em.
    + split_and!; [| |done|].
      * rewrite Hst. intros idx [?|?%list_elem_of_singleton]%elem_of_app; [by left|by right].
      * intros idx Hi. rewrite Hst. apply elem_of_app. by left.
      * intros role' template' _ Er Et. assert (template' = template) as -> by congruence. rewrite Em.
        intros Hlost. apply (Hin Hlost). rewrite Hst. apply elem_of_app. right. by left.
    + destruct Hst as [-> Hg]. rewrite Hg in *. split_and!; [by left|done|done|].
      intros role' template' _ Er Et. assert (template' = template) as -> by congruence. rewrite Em. by apply Hout.
Qed.

(** C18: provisioning rolls back what it made, and never touches a directory it does
    not own. Whatever file operation is interrupted: when [provision_node_dirs]
    returns, it returns the hosts in order, each directory is the stamped and
    configured copy of its role's template, and no other directory changed. When
    it raises, it was stopped at one host [k], with the hosts before it provisioned:
    the hosts after it are untouched; the directories made for the hosts before it
    are removed again, and so is that of [k] itself if it was copied and stamped
    before the failure, wherever in its configuration that was (unless removing
    them fails); if a guard refused [k], its directory is exactly as it was; and
    only if the removal of an old directory, the copy or the stamp of [k] was
    interrupted does what that left stay behind (see [interrupted_copy_remains]). A
    directory without the stamp is in every case exactly as it was. Without an
    interruption it raises only where a guard refuses. *)
Theorem provision_atomic templates roles w : NoDup (fst <$> roles) →
  let hosts := sorted_list (fst <$> roles) in
  let '(w', out) := provision_node_dirs templates roles w in
  (∀ idx n, dirs w !! idx = Some n → stamped n = false → dirs w' !! idx = Some n) ∧
  match out with
  | inl created =>
      created = hosts ∧ (∀ idx, idx ∉ hosts → dirs w' !! idx = dirs w !! idx) ∧
      ∀ idx, idx ∈ hosts → in_place templates roles w' idx
  | inr _ => ∃ before k after wk, hosts = before ++ k :: after ∧
      for_each (provision_one templates roles) before (set_generated [] w) = (wk, inl ()) ∧
      (∀ idx, idx ∈ after ∨ idx ∉ hosts → dirs w' !! idx = dirs w !! idx) ∧
      (lost w = [] → ∀ idx, idx ∈ before → dirs w' !! idx = None) ∧
      (refused templates roles w k → dirs w' !! k = dirs w !! k) ∧
      ∀ role template, ¬ refused templates roles w k → role_of roles k = Some role → templates !! r_template role = Some template →
        match make_dir template k (dirs w !! k) wk with
        | (_, inl _) => lost w = [] → dirs w' !! k = None
        | (w1, inr _) => dirs w' !! k = dirs w1 !! k
        end
  end ∧
  (calm w → (∀ idx, idx ∈ hosts → ¬ refused templates roles w idx) → ∃ created, out = inl created).
Proof.
  intros Hnd hosts. assert (Hh : NoDup hosts) by (unfold hosts; by rewrite sorted_list_Permutation).
  unfold provision_node_dirs. unfold mbind at 1, M_bind at 1, modify. unfold try_except. fold hosts.
  unfold mbind at 1, M_bind at 1. set (w0 := set_generated [] w).
  pose proof (provision_loop templates roles hosts w0 Hh) as Hloop.
  destruct (for_each (provision_one templates roles) hosts w0) as [w1 [[]|e]]; destruct Hloop as [[Hl Hend] Hc]; simpl in Hend.
  { unfold get. simpl. destruct Hend as (Hg & Hout & Hin). split_and!; [|by rewrite Hg|done|intros idx Hi; by apply Hin|by eexists].
    intros idx n Hn Hs. rewrite Hout; [done|]. intros Hi. destruct (Hin idx Hi) as [Hr _]. apply Hr. left. by exists n. }
  destruct Hend as (before & k & after & wk & Eh & Hout & Hb & Hrun & Hgk & Hdk & Hst). simpl in Hgk.
  unfold mbind at 1, M_bind at 1, get. destruct (rollback_loop (generated w1) w1) as (w2 & E2 & Hout2 & Hin2).
  unfold mbind, M_bind. rewrite E2. unfold throw.
  pose proof (provision_loop templates roles before w0 ltac:(rewrite Eh in Hh; by apply NoDup_app in Hh as [? _])) as Hpre.
  rewrite Hrun in Hpre. destruct Hpre as [[Hlk _] _]. simpl in Hlk, Hl.
  assert (Hks : refused templates roles wk k = refused templates roles w k) by (unfold refused; by rewrite Hdk).
  assert (Hnd' : k ∉ before ∧ ∀ i, i ∈ after → i ∉ before ∧ i ≠ k).
  { rewrite Eh in Hh. apply NoDup_app in Hh as (_ & Hd & [Hka _]%NoDup_cons).
    split; [intros Hi; by apply (Hd k Hi); left|]. intros i Hi. split; [intros Hi'; by apply (Hd i Hi'); right|]. by intros ->. }
  destruct Hnd' as [Hkb Hafter].
  destruct (stopped_rollback templates roles k wk w1 w2 Hst) as (Hgen & Hsub & Href & Hmade);
    [by rewrite Hgk|done|rewrite Hlk, <- Hl; exact Hin2|]. rewrite Hgk, Hks in Hgen. rewrite Hgk in Hsub. rewrite Hks, Hdk in Href.
  rewrite Hks, Hdk, Hlk in Hmade.
  assert (Hkeep : ∀ idx, idx ∉ before → idx ≠ k → dirs w2 !! idx = dirs w !! idx).
  { intros idx Hi Hik. rewrite Hout2; [by apply Hout|]. by intros [?|[-> _]]%Hgen. }
  split_and!.
  - intros idx n Hn Hs. assert (Hr : refused templates roles w idx) by (left; by exists n).
    destruct (decide (idx = k)) as [->|Hik]; [by rewrite Href|]. rewrite Hkeep; [done| |done]. intros Hi. by apply (Hb idx Hi).
  - exists before, k, after, wk. split_and!; [done|done| |intros He idx Hi; apply Hin2; [by rewrite Hl|by apply Hsub]|done|exact Hmade].
    intros idx [Hi|Hi]; [by apply Hkeep; apply Hafter|].
    rewrite Eh, elem_of_app, elem_of_cons in Hi. by apply Hkeep; intros ?; apply Hi; auto.
  - intros Hcalm Hall. by destruct (Hc Hcalm Hall).
Qed.

(** * The construction seam *)

Lemma cleanup_loop l w : calm w → (∀ idx, idx ∈ l → ∃ n, dirs w !! idx = Some n ∧ stamped n = true) → NoDup l →
  ∃ w', cleanup_node_dirs l w = (w', inl ()) ∧ ∀ idx, dirs w' !! idx = if decide (idx ∈ l) then None else dirs w !! idx.
Proof.
  unfold cleanup_node_dirs. revert w. induction l as [|i l IH]; intros w Hc Hl Hnd; [by exists w|].
  apply NoDup_cons in Hnd as [Hi Hnd]. simpl. unfold mbind, M_bind. destruct (Hl i ltac:(by left)) as (n & Hn & Hs).
  assert (H1 : ∃ w1, cleanup_one i w = (w1, inl ()) ∧ calm w1 ∧ others i w w1 ∧ dirs w1 !! i = None).
  { unfold cleanup_one, mbind, M_bind, get. rewrite Hn, Hs. destruct (file_op_calm i (λ _, None) w Hc) as (w1 & E & Hc1).
    exists w1. split_and!; [done|done| |by apply (file_op_done _ _ _ _ E)]. pose proof (file_op_others i (λ _, None) w) as Ho. by rewrite E in Ho. }
  destruct H1 as (w1 & -> & Hc1 & Ho & Hd). destruct (IH w1 Hc1) as (w2 & -> & Hw2); [|done|].
  { intros j Hj. rewrite Ho by (by intros ->). apply Hl. by right. }
  exists w2. split; [done|]. intros idx. rewrite Hw2. destruct (decide (idx = i)) as [->|Hne].
  - rewrite (decide_False (P := i ∈ l)), decide_True by (done || by left). done.
  - rewrite Ho by done. destruct (decide (idx ∈ l)); [by rewrite decide_True by (by right)|]. rewrite decide_False; [done|]. set_solver.
Qed.

Lemma Sorted_seqZ m n : Sorted Z.le (seqZ m n).
Proof.
  assert (Hn : ∀ k m n, Z.to_nat n = k → Sorted Z.le (seqZ m n)); [|by eapply Hn].
  clear. induction k as [|k IH]; intros m n Hk; [rewrite seqZ_nil by lia; constructor|].
  rewrite seqZ_cons by lia. constructor; [apply IH; lia|].
  destruct (decide (0 < Z.pred n)); [rewrite seqZ_cons by done; constructor; lia|rewrite seqZ_nil by lia; constructor].
Qed.

Lemma sorted_range n : sorted_list (range n) = range n.
Proof.
  apply (Sorted_unique Z.le); [|apply Sorted_seqZ|apply sorted_list_Permutation]. unfold sorted_list. apply (Sorted_merge_sort Z.le).
Qed.

Section built.
Context `{Rng} (choose : ∀ A : Type, A → list A → rng → A * rng).
#[local] Existing Instance rng_choice.

Notation roles_of spec r := (assign_roles (H := rng_choice choose) (b_host_count spec) r (b_publisher_ids spec)).

(** A mesh scenario is built or leaves nothing behind. When nothing interrupts
    the file operations and no guard refuses a host, [build_mesh_scenario] returns
    exactly when the topology can be built, with that topology and every host's
    directory in place; when it cannot, the error is that of the topology and the
    directories made for it are gone. *)
Lemma mesh_scenario_built templates spec r w :
  let roles := (roles_of spec r).1 in
  let hosts := range (b_host_count spec) in
  calm w → (∀ idx, idx ∈ hosts → ¬ refused templates roles w idx) →
  let '(w', out) := build_mesh_scenario choose templates spec r w in
  (∀ idx, idx ∉ hosts → dirs w' !! idx = dirs w !! idx) ∧
  match build_topo spec (roles_of spec r).2 with
  | Ok topo => out = inl (roles, hosts, topo) ∧ ∀ idx, idx ∈ hosts → in_place templates roles w' idx
  | Raise e => out = inr e ∧ ∀ idx, idx ∈ hosts → dirs w' !! idx = None
  | NoFuel => True
  end.
Proof.
  intros roles hosts Hc Hr. unfold build_mesh_scenario. destruct (roles_of spec r) as [rs r'] eqn:Er. simpl in roles. subst roles.
  assert (Hrs : fst <$> rs = hosts).
  { pose proof (assign_hosts (H := rng_choice choose) (b_host_count spec) (b_publisher_ids spec) (range (b_host_count spec)) r) as Ha.
    unfold assign_roles in Er. by rewrite Er in Ha. }
  assert (Hsort : sorted_list (fst <$> rs) = hosts) by (rewrite Hrs; apply sorted_range).
  unfold provision_node_dirs. rewrite Hsort. unfold mbind at 1, M_bind at 1. unfold mbind at 1, M_bind at 1, modify, try_except at 1.
  unfold mbind at 1, M_bind at 1.
  assert (Hnd : NoDup hosts) by apply NoDup_range. set (w0 := set_generated [] w).
  pose proof (provision_loop templates rs hosts w0 Hnd) as Hloop.
  destruct (for_each (provision_one templates rs) hosts w0) as [w1 out1]. destruct Hloop as [[_ Hend] Hcalm].
  destruct (Hcalm Hc Hr) as [-> Hc1]. simpl in Hend. destruct Hend as (Hg & Hout & Hin).
  unfold get. cbn [fst snd]. rewrite Hg. unfold mbind at 1, M_bind at 1, try_except, lift. simpl.
  destruct (build_topo spec r') as [topo|e|]; simpl.
  - split; [done|]. split; [done|]. intros idx Hi. by apply Hin.
  - unfold mbind, M_bind. destruct (cleanup_loop hosts w1 Hc1) as (w2 & -> & Hw2); [|done|].
    { intros idx Hi. destruct (Hin idx Hi) as (_ & role & template & _ & _ & ->). by eexists. }
    simpl. split; [intros idx Hi; rewrite Hw2, decide_False by done; by apply Hout|]. split; [done|].
    intros idx Hi. by rewrite Hw2, decide_True.
  - unfold mbind, M_bind. destruct (cleanup_loop hosts w1 Hc1) as (w2 & -> & Hw2); [|done|].
    { intros idx Hi. destruct (Hin idx Hi) as (_ & role & template & _ & _ & ->). by eexists. }
    simpl. split; [|done]. intros idx Hi. rewrite Hw2, decide_False by done. by apply Hout.
Qed.
End built.

(** * Examples *)

Definition demo_template (mode : Z) : gmap string string :=
  {["cefnetd.conf" := unlines ["#NODE_NAME=router"; "LOCAL_SOCK_ID=0"; "CS_MODE=" +s+ str_Z mode]; "csmgrd.conf" := unlines ["LOCAL_SOCK_ID=0"]]}.
Definition demo_templates : gmap string (gmap string string) := {["h0" := demo_template 0; "h1" := demo_template 2; "h2" := demo_template 1]}.
Definition demo_roles : list (Z * NodeRole) := [(0, CONSUMER); (1, ROUTER); (2, PUBLISHER)].
Definition foreign : node := mkNode false {["notes.txt" := "mine"]}.
Definition demo_world : world := mkWorld {[1 := foreign]} [] [] [].

(** Host 1's directory belongs to somebody else: it is left alone, and the one made
    for host 0 is removed again. *)
Lemma provision_atomic_witness : ∃ w' e, provision_node_dirs demo_templates demo_roles demo_world = (w', inr e) ∧
  dirs w' !! 1 = Some foreign ∧ dirs w' !! 0 = None.
Proof.
  assert (Hnd : NoDup (fst <$> demo_roles)) by compute_done.
  pose proof (provision_atomic demo_templates demo_roles demo_world Hnd) as Hp.
  assert (Hout : returned (provision_node_dirs demo_templates demo_roles demo_world).2 = false) by (vm_compute; reflexivity).
  assert (H0 : dirs (provision_node_dirs demo_templates demo_roles demo_world).1 !! 0 = None) by (vm_compute; reflexivity).
  destruct (provision_node_dirs demo_templates demo_roles demo_world) as [w' [c|e]]; [discriminate|].
  exists w', e. split; [reflexivity|]. destruct Hp as [Hf _]. split; [apply (Hf 1 foreign); reflexivity|exact H0].
Defined.

(** An interrupted copy is not rolled back: the half-made directory carries no stamp,
    and the next run refuses to start because of it. *)
Definition disk_full : fault := Some (Exn EOSError "No space left on device", Some (mkNode false {["cefnetd.conf" := ""]})).
Example interrupted_copy_remains :
  let w1 := (provision_node_dirs demo_templates demo_roles (mkWorld ∅ [disk_full] [] [])).1 in
  is_Some (dirs w1 !! 0) ∧
  match (provision_node_dirs demo_templates demo_roles w1).2 with inr e => exn_cls e = ENodeDirError | inl _ => False end.
Proof. vm_compute. split; [by eexists|reflexivity]. Qed.

Definition demo_choose (A : Type) (x : A) (l : list A) (r : rng (Rng := counter_rng)) : A * rng (Rng := counter_rng) := (x, r).
Definition demo_spec : MeshBuildSpec := mkSpec 3 0 2 1 2 false ∅ (Some [[0; 1]; [1; 2]]).
Definition empty_world : world := mkWorld ∅ [] [] [].

Definition demo_seed : rng (Rng := counter_rng) := 0.
Example mesh_scenario_built_witness : ∃ w' roles topo,
  build_mesh_scenario demo_choose demo_templates demo_spec demo_seed empty_world = (w', inl (roles, [0; 1; 2], topo)) ∧
  in_place demo_templates roles w' 1.
Proof.
  assert (Hr : ∀ idx, idx ∈ range 3 → ¬ refused demo_templates (assign_roles (H := rng_choice demo_choose) 3 demo_seed ∅).1 empty_world idx).
  { intros idx Hi [(n & E & _)|Hr]; [discriminate E|]. apply elem_of_range in Hi. assert (idx = 0 ∨ idx = 1 ∨ idx = 2) as [-> | [-> | ->]] by lia.
    - specialize (Hr CONSUMER eq_refl). discriminate Hr.
    - specialize (Hr ROUTER eq_refl). discriminate Hr.
    - specialize (Hr PUBLISHER eq_refl). discriminate Hr. }
  pose proof (mesh_scenario_built demo_choose demo_templates demo_spec demo_seed empty_world (Forall_nil_2 _) Hr) as Hb.
  destruct (build_mesh_scenario demo_choose demo_templates demo_spec demo_seed empty_world) as [w' out]. destruct Hb as [_ Hb].
  assert (Ht : returned (match build_topo demo_spec demo_seed with Ok t => inl t | Raise e => inr e | NoFuel => inr (Exn EOther "") end) = true) by (vm_compute; reflexivity).
  change (build_topo demo_spec (assign_roles (H := rng_choice demo_choose) (b_host_count demo_spec) demo_seed (b_publisher_ids demo_spec)).2)
    with (build_topo demo_spec demo_seed) in Hb.
  destruct (build_topo demo_spec demo_seed) as [topo|e|]; [|discriminate Ht..]. destruct Hb as [-> Hin].
  eexists w', _, topo. split; [reflexivity|]. apply Hin. apply elem_of_range. split; [discriminate|reflexivity].
Defined.
