(* ===== verification/DaemonLogs.v ===== *)
(** Component: what the emulator reads from the daemons' configuration files
    (src/runtime/cefore_conf.py) and the daemons' logs below /tmp
    (src/runtime/daemon_logs.py, the socket of src/runtime/cefore.py). *)
From S2P Require Import Prelude PyValue PyString PyNum PyText Artifacts NodeConf Provision.
Local Open Scope Z_scope.

(** * Reading *)

(** [value.strip().split()[0]]. *)
Definition first_word (value : string) : res string :=
  match span not_space (strip value) with
  | (EmptyString, _) => raise EIndexError "list index out of range"
  | (word, _) => Ok word
  end.

(** The loop of the three readers: the first line that is neither blank nor a
    comment and starts with the label. *)
Fixpoint conf_entry (label : string) (lines : list string) : res (option string) :=
  match lines with
  | [] => Ok None
  | line :: lines =>
      let stripped := strip line in
      if bool_decide (stripped = "") || startswith stripped "#" then conf_entry label lines
      else match strip_prefix label stripped with
           | Some value => Some <$> first_word value
           | None => conf_entry label lines
           end
  end.

(** The text of a file of the node directory, when there is one. *)
Definition read_entry (label name : string) (files : gmap string string) : res (option string) :=
  match files !! name with Some text => conf_entry label (readlines text) | None => Ok None end.

Definition read_port (name : string) (fallback : Z) (files : gmap string string) : res Z :=
  value ← read_entry "PORT_NUM=" name files;
  Ok (default fallback (value ≫= int_of_string)).
(** [read_port_num] and [read_csmgr_port_num]. *)
Definition read_port_num : gmap string string → res Z := read_port "cefnetd.conf" 9695.
Definition read_csmgr_port_num : gmap string string → res Z := read_port "csmgrd.conf" 9799.
(** [read_local_sock_id]. *)
Definition read_local_sock_id (files : gmap string string) (name : string) : res string :=
  value ← read_entry "LOCAL_SOCK_ID=" name files;
  Ok (default "0" value).

(** * Paths *)

(** [HostLogScope]; the node directory is its files. *)
Record HostLogScope := mkScope { s_idx : Z; node_files : gmap string string; has_csmgrd : bool }.

Definition log_path (daemon : string) (port : Z) (sockid : string) : string :=
  "/tmp/" +s+ daemon +s+ "_" +s+ str_Z port +s+ "_" +s+ sockid +s+ ".log".
Definition cefnetd_log (files : gmap string string) : res string :=
  port ← read_port_num files;
  sockid ← read_local_sock_id files "cefnetd.conf";
  Ok (log_path "cefnetd" port sockid).
Definition csmgrd_log (files : gmap string string) : res string :=
  port ← read_csmgr_port_num files;
  sockid ← read_local_sock_id files "csmgrd.conf";
  Ok (log_path "csmgrd" port sockid).

(** [tmp_daemon_log_paths]. *)
Definition tmp_daemon_log_paths (scope : HostLogScope) : res (list string) :=
  cef ← cefnetd_log (node_files scope);
  if has_csmgrd scope then csm ← csmgrd_log (node_files scope); Ok [cef; csm] else Ok [cef].

(** * Cleaning up *)

Section files.
(** What cannot be removed: [unlink] and [os.remove] raise OSError there. *)
Context (stuck : string → bool).

(** [_unlink_stale_paths] on the files below /tmp. *)
Definition unlink (tmp : gmap string string) (path : string) : gmap string string := if stuck path then tmp else delete path tmp.
Definition unlink_stale_paths (paths : list string) (tmp : gmap string string) : gmap string string := foldl unlink tmp paths.

Definition cleanup_stale_cefnetd_log (files tmp : gmap string string) : res (gmap string string) :=
  path ← cefnetd_log files;
  Ok (unlink_stale_paths [path] tmp).
Definition cleanup_stale_csmgrd_log (files tmp : gmap string string) : res (gmap string string) :=
  sockid ← read_local_sock_id files "csmgrd.conf";
  port ← read_csmgr_port_num files;
  Ok (unlink_stale_paths [log_path "csmgrd" 9799 sockid; log_path "csmgrd" port sockid] tmp).
Definition cleanup_stale_daemon_logs (scope : HostLogScope) (tmp : gmap string string) : res (gmap string string) :=
  tmp ← cleanup_stale_cefnetd_log (node_files scope) tmp;
  if has_csmgrd scope then cleanup_stale_csmgrd_log (node_files scope) tmp else Ok tmp.

(** [cleanup_cefnetd_socket]. *)
Definition socket_path (port idx : Z) : string := "/tmp/cef_" +s+ str_Z port +s+ "." +s+ str_Z idx.
Definition cleanup_cefnetd_socket (scope : HostLogScope) (tmp : gmap string string) : res (gmap string string) :=
  port ← read_port_num (node_files scope);
  let path := socket_path port (s_idx scope) in
  Ok (match tmp !! path with Some _ => unlink tmp path | None => tmp end).

(** * Collecting *)

Context (resolve : path → path) (path_str : path → string).
(** What checking and copying a source raises. *)
Context (copy_fault : string → option exn).

(** The run directory: the files by path. *)
Definition run_files : Type := path → option string.
Definition store (dest : path) (text : string) (out : run_files) : run_files := λ p, if decide (p = dest) then Some text else out p.

Definition copy_log (run_dir : path) (tmp : gmap string string) (source : string) (out : run_files) : res run_files :=
  match copy_fault source with
  | Some e => Raise e
  | None =>
      match tmp !! source with
      | None => Ok out
      | Some text =>
          dest ← ensure_within_run_dir resolve path_str run_dir (path_join run_dir (mkPath false [path_name source]));
          Ok (store dest text out)
      end
  end.
Definition try_copy (run_dir : path) (tmp : gmap string string) (acc : run_files * list string) (source : string) : run_files * list string :=
  match copy_log run_dir tmp source acc.1 with
  | Ok out => (out, acc.2)
  | Raise e => (acc.1, acc.2 ++ ["failed to collect daemon log " +s+ source +s+ ": " +s+ exn_msg e])
  | NoFuel => acc
  end.
Definition collect_scope (run_dir : path) (tmp : gmap string string) (acc : run_files * list string) (scope : HostLogScope) : run_files * list string :=
  match tmp_daemon_log_paths scope with
  | Ok sources => foldl (try_copy run_dir tmp) acc sources
  | Raise e => (acc.1, acc.2 ++ ["failed to collect daemon log for h" +s+ str_Z (s_idx scope) +s+ ": " +s+ exn_msg e])
  | NoFuel => acc
  end.
(** [collect_daemon_logs]. *)
Definition collect_daemon_logs (run_dir : path) (scopes : list HostLogScope) (tmp : gmap string string) (out : run_files) : run_files * list string :=
  foldl (collect_scope run_dir tmp) (out, []) scopes.
End files.

(** * Examples *)

Definition demo_template : gmap string string :=
  list_to_map [("cefnetd.conf", unlines ["# cefnetd"; "#PORT_NUM=9695"; "PORT_NUM = 1"; "  PORT_NUM=9700 # used"; "CS_MODE=0"]);
               ("csmgrd.conf", unlines ["LOCAL_SOCK_ID=7"; "PORT_NUM=x"])].
Example port_ex : read_port_num demo_template = Ok 9700.
Proof. vm_compute. reflexivity. Qed.
Example sock_id_ex : read_local_sock_id demo_template "csmgrd.conf" = Ok "7".
Proof. vm_compute. reflexivity. Qed.
Example csmgr_port_ex : read_csmgr_port_num demo_template = Ok 9799.
Proof. vm_compute. reflexivity. Qed.
(** An entry without a value raises instead of falling back to the default. *)
Example port_empty : read_port_num {["cefnetd.conf" := "PORT_NUM=" +s+ newline]} = raise EIndexError "list index out of range".
Proof. vm_compute. reflexivity. Qed.

(** * Files that end every line with a line feed *)

(** A text file whose only line ends are line feeds, the last line's included. *)
Definition conf_text (text : string) : Prop := ∃ ls, text = unlines ls ∧ Forall (λ l, no_breaks l = true) ls.

Lemma readlines_line l s : no_breaks l = true → readlines (l +s+ String line_feed s) = (l +s+ newline) :: readlines s.
Proof.
  induction l as [|c l IH]; intros Hl; [reflexivity|]. unfold no_breaks in Hl. simpl in Hl. apply andb_prop in Hl as [Hc Hl].
  change (String c l +s+ ?x) with (String c (l +s+ x)). cbn [readlines]. rewrite bool_decide_eq_false_2 by (intros ->; discriminate Hc).
  by rewrite IH.
Qed.

Lemma readlines_unlines ls : Forall (λ l, no_breaks l = true) ls → readlines (unlines ls) = (λ l, l +s+ newline) <$> ls.
Proof. induction 1 as [|l ls Hl _ IH]; [done|]. simpl unlines. by rewrite readlines_line, IH. Qed.

Lemma lstrip_feed l : lstrip (l +s+ newline) = if bool_decide (lstrip l = "") then "" else lstrip l +s+ newline.
Proof.
  induction l as [|c l IH]; [reflexivity|]. change (String c l +s+ newline) with (String c (l +s+ newline)). simpl.
  by destruct (is_space c).
Qed.

Lemma strip_feed l : strip (l +s+ newline) = strip l.
Proof.
  unfold strip. rewrite lstrip_feed. case_bool_decide as E; [by rewrite E|]. by apply rstrip_app_space.
Qed.

Lemma conf_entry_unlines label ls : conf_entry label ((λ l, l +s+ newline) <$> ls) = conf_entry label ls.
Proof. induction ls as [|l ls IH]; [done|]. rewrite fmap_cons. cbn [conf_entry]. by rewrite strip_feed, IH. Qed.

(** Reading a file that ends its lines. *)
Lemma conf_entry_text label ls : Forall (λ l, no_breaks l = true) ls → conf_entry label (readlines (unlines ls)) = conf_entry label ls.
Proof. intros Hl. by rewrite readlines_unlines, conf_entry_unlines. Qed.

(** * Which lines an entry is read from *)

Lemma startswith_iff s p : startswith s p = true ↔ is_Some (strip_prefix p s).
Proof.
  unfold startswith. revert s. induction p as [|c p IH]; intros [|d s]; simpl; [by split; eauto..| |].
  - split; [done|by intros [? [=]]].
  - destruct (Ascii.ascii_dec c d), (decide (c = d)); try congruence; [apply IH|]. split; [done|by intros [? [=]]].
Qed.

(** A line that is blank or a comment. *)
Definition skipped (line : string) : bool := bool_decide (strip line = "") || startswith (strip line) "#".

Lemma conf_entry_cons label line lines : conf_entry label (line :: lines) =
  if skipped line then conf_entry label lines
  else match strip_prefix label (strip line) with Some value => Some <$> first_word value | None => conf_entry label lines end.
Proof. reflexivity. Qed.

Lemma conf_entry_skip label line lines : strip_prefix label (strip line) = None → conf_entry label (line :: lines) = conf_entry label lines.
Proof. intros E. rewrite conf_entry_cons, E. by destruct (skipped line). Qed.

Lemma rstrip_prefix s : ∃ t, s = rstrip s +s+ t.
Proof.
  induction s as [|c s [t IH]]; [by exists ""|]. simpl. destruct (rstrip s) as [|d r] eqn:E.
  - destruct (is_space c); [by exists (String c s)|]. by exists s.
  - exists t. change (String c ?x +s+ t) with (String c (x +s+ t)). by rewrite <- IH.
Qed.

Lemma strip_prefix_lstrip p line v : strip_prefix p (strip line) = Some v → ∃ v', strip_prefix p (lstrip line) = Some v'.
Proof.
  intros E%strip_prefix_Some. destruct (rstrip_prefix (lstrip line)) as [t Ht]. unfold strip in E. rewrite E in Ht.
  exists (v +s+ t). apply strip_prefix_Some. by rewrite <- string_app_assoc.
Qed.

(** The label of a key. *)
Definition label_of (key : string) : string := key +s+ "=".

(** A line that gives no value to the key is passed over. *)
Lemma conf_entry_other key line lines : key_ok key → after_key key line = None → conf_entry (label_of key) (line :: lines) = conf_entry (label_of key) lines.
Proof.
  intros Hk Ha. apply conf_entry_skip. destruct (strip_prefix (label_of key) (strip line)) as [v|] eqn:E; [|done].
  exfalso. apply strip_prefix_lstrip in E as [v' E]. apply strip_prefix_Some in E. unfold label_of in E. rewrite string_app_assoc in E.
  unfold after_key in Ha. rewrite E, strip_prefix_app in Ha. discriminate Ha.
Qed.

Lemma first_word_spec w : w ≠ "" → all_chars not_space w = true → first_word w = Ok w.
Proof.
  intros Hne Hw. unfold first_word. rewrite strip_nonspace by done.
  assert (Hs : span not_space w = (w, "")).
  { clear Hne. induction w as [|c w IH]; [done|]. simpl in Hw |- *. apply andb_prop in Hw as [-> Hw]. by rewrite IH. }
  rewrite Hs. by destruct w.
Qed.

(** * Rewritten lines *)

(** Does [relabel] rewrite the line? *)
Definition labelled (label line : string) : bool := startswith (lstrip line) label || startswith (lstrip line) ("#" +s+ label).
Definition relabel_line (label entry line : string) : string := if labelled label line then leading line +s+ entry else line.
Definition relabel_lines (label entry : string) (ls : list string) : list string :=
  (relabel_line label entry <$> ls) ++ (if existsb (labelled label) ls then [] else [entry]).

Lemma startswith_feed s p : no_breaks p = true → startswith (s +s+ newline) p = startswith s p.
Proof.
  unfold startswith. revert s. induction p as [|c p IH]; intros [|d s] Hp; [done..| |].
  - unfold no_breaks in Hp. simpl in Hp. apply andb_prop in Hp as [Hc _]. simpl. destruct (Ascii.ascii_dec c line_feed) as [->|]; [discriminate Hc|done].
  - unfold no_breaks in Hp. simpl in Hp. apply andb_prop in Hp as [_ Hp]. change (String d s +s+ newline) with (String d (s +s+ newline)). simpl.
    destruct (Ascii.ascii_dec c d); [by apply IH|done].
Qed.

Lemma startswith_empty p : p ≠ "" → startswith "" p = false.
Proof. by destruct p. Qed.

Lemma labelled_feed label l : label ≠ "" → no_breaks label = true → labelled label (l +s+ newline) = labelled label l.
Proof.
  intros Hne Hb. unfold labelled. rewrite lstrip_feed. case_bool_decide as E; [by rewrite E|].
  by rewrite !startswith_feed.
Qed.

Lemma leading_feed l : lstrip l ≠ "" → leading (l +s+ newline) = leading l.
Proof.
  unfold leading. induction l as [|c l IH]; [done|]. intros Hl. change (String c l +s+ newline) with (String c (l +s+ newline)). simpl in *.
  destruct (is_space c); [|done]. specialize (IH Hl). destruct (span is_space (l +s+ newline)), (span is_space l). simpl in *. by subst.
Qed.

Lemma labelled_nonblank label l : label ≠ "" → labelled label l = true → lstrip l ≠ "".
Proof. intros Hne Hl E. unfold labelled in Hl. rewrite E in Hl. rewrite startswith_empty in Hl by done. discriminate Hl. Qed.

Lemma unlines_app a b : unlines (a ++ b) = unlines a +s+ unlines b.
Proof. induction a as [|l a IH]; [done|]. simpl. rewrite IH. by rewrite string_app_assoc. Qed.

Lemma concat_feed ls : concat_lines ((λ l, l +s+ newline) <$> ls) = unlines ls.
Proof. induction ls as [|l ls IH]; [done|]. rewrite fmap_cons. unfold concat_lines in *. simpl. rewrite IH. by rewrite string_app_assoc. Qed.

(** [relabel] on a file that ends its lines. *)
Lemma relabel_unlines label entry ls : label ≠ "" → no_breaks label = true → Forall (λ l, no_breaks l = true) ls →
  relabel label entry (unlines ls) = unlines (relabel_lines label entry ls).
Proof.
  intros Hne Hb Hl. unfold relabel. cbv zeta. rewrite readlines_unlines by done. unfold relabel_lines. rewrite <- concat_feed, fmap_app. f_equal. f_equal.
  - rewrite <- !list_fmap_compose. apply list_fmap_ext. intros _ l _. unfold relabel_line. simpl. fold (labelled label (l +s+ newline)).
    rewrite labelled_feed by done. destruct (labelled label l) eqn:E; [|done]. rewrite leading_feed by (by eapply labelled_nonblank). by rewrite string_app_assoc.
  - assert (He : existsb (λ line, startswith (lstrip line) label || startswith (lstrip line) ("#" +s+ label)) ((λ l, l +s+ newline) <$> ls) = existsb (labelled label) ls).
    { clear Hl. induction ls as [|l ls IH]; [done|]. rewrite fmap_cons. simpl. rewrite IH. f_equal. by apply labelled_feed. }
    rewrite He. by destruct (existsb (labelled label) ls).
Qed.

Lemma leading_spec l : leading l +s+ lstrip l = l ∧ all_chars is_space (leading l) = true.
Proof.
  unfold leading. induction l as [|c l [IH1 IH2]]; [done|]. simpl. destruct (is_space c) eqn:Hc; [|done].
  destruct (span is_space l) as [a b]. simpl in *. rewrite Hc. split; [|done]. change (String c a +s+ ?x) with (String c (a +s+ x)). by rewrite IH1.
Qed.

Lemma lstrip_spaces a s : all_chars is_space a = true → lstrip (a +s+ s) = lstrip s.
Proof. induction a as [|c a IH]; intros Ha; [done|]. simpl in Ha. apply andb_prop in Ha as [Hc Ha]. change (String c a +s+ s) with (String c (a +s+ s)). simpl. rewrite Hc. by apply IH. Qed.

Lemma strip_indented l s : strip (leading l +s+ s) = strip s.
Proof. unfold strip. by rewrite lstrip_spaces by apply leading_spec. Qed.


(** * The entries of a provisioned node *)

Definition sock_label : string := label_of "LOCAL_SOCK_ID".
Definition sock_entry (idx : Z) : string := sock_label +s+ str_Z idx.

Lemma sock_id_ok : key_ok "LOCAL_SOCK_ID".
Proof. split; [discriminate|reflexivity]. Qed.

Lemma str_Z_word idx : 0 ≤ idx → str_Z idx ≠ "" ∧ all_chars not_space (str_Z idx) = true.
Proof.
  intros Hi. destruct (str_Z_digits idx Hi) as (Hd & _ & Hne). split; [done|]. by apply (all_chars_weaken _ _ _ digit_nonspace).
Qed.

Lemma sock_entry_line l idx : 0 ≤ idx → strip (leading l +s+ sock_entry idx) = sock_entry idx.
Proof.
  intros Hi. rewrite strip_indented. apply strip_nonspace. unfold sock_entry. rewrite all_chars_append. by destruct (str_Z_word idx Hi) as [_ ->].
Qed.

Lemma conf_entry_sock l idx lines : 0 ≤ idx → conf_entry sock_label ((leading l +s+ sock_entry idx) :: lines) = Ok (Some (str_Z idx)).
Proof.
  intros Hi. rewrite conf_entry_cons. unfold skipped. rewrite sock_entry_line by done. unfold sock_entry. rewrite strip_prefix_app.
  destruct (str_Z_word idx Hi) as [Hne Hw]. by rewrite first_word_spec.
Qed.

Lemma unlabelled_skip label l lines : labelled label l = false → conf_entry label (l :: lines) = conf_entry label lines.
Proof.
  intros Hl. apply conf_entry_skip. destruct (strip_prefix label (strip l)) as [v|] eqn:E; [|done]. exfalso.
  apply strip_prefix_lstrip in E. unfold labelled in Hl. apply orb_false_iff in Hl as [Hl _].
  assert (startswith (lstrip l) label = true) by (apply startswith_iff; destruct E as [v' ->]; by eexists). congruence.
Qed.

(** After [update_local_sock_id], the id is read back. *)
Lemma sock_read idx ls : 0 ≤ idx → conf_entry sock_label (relabel_lines sock_label (sock_entry idx) ls) = Ok (Some (str_Z idx)).
Proof.
  intros Hi. unfold relabel_lines. induction ls as [|l ls IH].
  - exact (conf_entry_sock "" idx [] Hi).
  - rewrite fmap_cons. cbn [existsb app]. unfold relabel_line at 1. destruct (labelled sock_label l) eqn:E; [by apply conf_entry_sock|].
    rewrite unlabelled_skip by done. exact IH.
Qed.

Lemma after_key_labelled key l : key_ok key → key ≠ "LOCAL_SOCK_ID" → labelled sock_label l = true → after_key key l = None.
Proof.
  intros Hk Hne Hl. destruct (after_key key l) as [v|] eqn:E; [|done]. exfalso. unfold labelled in Hl.
  apply orb_true_iff in Hl as [Hl|Hl]; apply startswith_iff in Hl as [w Hw]; apply strip_prefix_Some in Hw.
  - apply Hne. apply (same_key _ _ l Hk sock_id_ok); [by eexists|]. unfold after_key. rewrite Hw. unfold sock_label, label_of.
    rewrite string_app_assoc, strip_prefix_app. by eexists.
  - unfold after_key in E. rewrite Hw in E. destruct (key_head key Hk) as (c & t & -> & Hc). simpl in E.
    destruct (decide (c = _)) as [->|]; [discriminate Hc|discriminate E].
Qed.

Lemma after_key_sock key l idx : key_ok key → key ≠ "LOCAL_SOCK_ID" → after_key key (leading l +s+ sock_entry idx) = None.
Proof.
  intros Hk Hne. destruct (after_key key _) as [v|] eqn:E; [|done]. exfalso. apply Hne. apply (same_key _ _ (leading l +s+ sock_entry idx) Hk sock_id_ok); [by eexists|].
  unfold after_key. rewrite lstrip_spaces by apply leading_spec. by eexists.
Qed.

(** The other entries are read as before. *)
Lemma other_read key idx ls : key_ok key → key ≠ "LOCAL_SOCK_ID" →
  conf_entry (label_of key) (relabel_lines sock_label (sock_entry idx) ls) = conf_entry (label_of key) ls.
Proof.
  intros Hk Hne. unfold relabel_lines. induction ls as [|l ls IH].
  - exact (conf_entry_other key (leading "" +s+ sock_entry idx) [] Hk (after_key_sock key "" idx Hk Hne)).
  - rewrite fmap_cons. cbn [existsb app]. unfold relabel_line at 1. destruct (labelled sock_label l) eqn:E.
    + rewrite (conf_entry_other key l) by (try done; by apply after_key_labelled). rewrite (conf_entry_other key _ _ Hk (after_key_sock key l idx Hk Hne)).
      rewrite <- IH. clear IH E. destruct (existsb (labelled sock_label) ls); [done|]. rewrite app_nil_r.
      induction ls as [|l2 ls IH]; [exact (eq_sym (conf_entry_other key (leading "" +s+ sock_entry idx) [] Hk (after_key_sock key "" idx Hk Hne)))|].
      rewrite fmap_cons. cbn [app]. rewrite !conf_entry_cons. by rewrite IH.
    + cbn [orb]. rewrite !conf_entry_cons. by rewrite IH.
Qed.

Lemma set_read key key' value replaced ls : key_ok key → key_ok key' → key' ≠ key →
  conf_entry (label_of key) (replace_lines key' value replaced ls) = conf_entry (label_of key) ls.
Proof.
  intros Hk Hk' Hne. assert (He : ∀ lines, conf_entry (label_of key) (entry_line key' value :: lines) = conf_entry (label_of key) lines).
  { intros lines. apply conf_entry_other; [done|]. by apply entry_other. }
  revert replaced. induction ls as [|l ls IH]; intros replaced; simpl replace_lines.
  - destruct replaced; [done|]. apply He.
  - destruct (keyed key' l) eqn:E; [|rewrite !conf_entry_cons; by rewrite IH].
    rewrite (conf_entry_other key l) by (try done; by apply (keyed_other key')). destruct replaced; cbn [app]; [apply IH|]. rewrite He. apply IH.
Qed.

(** * Paths *)

(** A decimal numeral, with its sign. *)
Definition numeral_char (c : ascii) : bool := is_digit c || bool_decide (c = Ascii.ascii_of_N 45).

Lemma str_Z_numeral z : all_chars numeral_char (str_Z z) = true.
Proof.
  assert (Hd : ∀ z, 0 ≤ z → all_chars numeral_char (str_Z z) = true).
  { intros x Hx. destruct (str_Z_digits x Hx) as [Hd _]. apply (all_chars_weaken is_digit); [|done]. intros c Hc. unfold numeral_char. by rewrite Hc. }
  destruct z as [|p|p]; [by apply Hd..|]. exact (Hd (Z.pos p) ltac:(lia)).
Qed.

Lemma numeral_free (sep : ascii) s : numeral_char sep = false → all_chars numeral_char s = true → all_chars (λ c, negb (bool_decide (c = sep))) s = true.
Proof. intros Hs. apply all_chars_weaken. intros c Hc. case_bool_decide; [congruence|done]. Qed.

Definition log_name (daemon : string) (port idx : Z) : string := daemon +s+ "_" +s+ str_Z port +s+ "_" +s+ str_Z idx +s+ ".log".

Lemma log_name_inj daemon p i daemon' q j : daemon ∈ ["cefnetd"; "csmgrd"] → daemon' ∈ ["cefnetd"; "csmgrd"] →
  log_name daemon p i = log_name daemon' q j → daemon = daemon' ∧ p = q ∧ i = j.
Proof.
  intros Hd Hd' E. assert (Hs : ∀ d, d ∈ ["cefnetd"; "csmgrd"] → all_chars (λ c, negb (bool_decide (c = underscore))) d = true).
  { intros d Hin. rewrite !elem_of_cons, elem_of_nil in Hin. by destruct Hin as [->|[->|[]]]. }
  assert (Hp : ∀ d x y, d ∈ ["cefnetd"; "csmgrd"] → partition underscore (log_name d x y) = (d, Some (str_Z x +s+ "_" +s+ str_Z y +s+ ".log"))).
  { intros d x y Hin. unfold log_name. change ("_" +s+ ?a) with (String underscore a). by rewrite partition_app by by apply Hs. }
  pose proof (f_equal (partition underscore) E) as E1. rewrite !Hp in E1 by done. injection E1 as -> E1. split; [done|].
  apply (f_equal (partition underscore)) in E1. change ("_" +s+ ?a) with (String underscore a) in E1.
  rewrite !partition_app in E1 by (apply numeral_free; [reflexivity|apply str_Z_numeral]). injection E1 as Ep%str_Z_inj E1. split; [done|].
  apply (f_equal (strip_suffix ".log")) in E1. rewrite !strip_suffix_app in E1. injection E1 as E1. by apply str_Z_inj.
Qed.

Lemma log_path_name daemon p i : log_path daemon p (str_Z i) = "/tmp/" +s+ log_name daemon p i.
Proof. reflexivity. Qed.

Lemma tmp_inj a b : "/tmp/" +s+ a = "/tmp/" +s+ b → a = b.
Proof. intros E. by injection E. Qed.

Lemma log_path_inj daemon p i daemon' q j : daemon ∈ ["cefnetd"; "csmgrd"] → daemon' ∈ ["cefnetd"; "csmgrd"] →
  log_path daemon p (str_Z i) = log_path daemon' q (str_Z j) → daemon = daemon' ∧ i = j.
Proof. intros Hd Hd'. rewrite !log_path_name. intros E%tmp_inj. apply log_name_inj in E as (-> & _ & ->); done. Qed.

(** The last component of a log's path. *)
Lemma log_path_last daemon p i : daemon ∈ ["cefnetd"; "csmgrd"] → path_name (log_path daemon p (str_Z i)) = log_name daemon p i.
Proof.
  intros Hd. rewrite log_path_name. unfold path_name.
  assert (Hn : all_chars not_slash (log_name daemon p i) = true).
  { unfold log_name. rewrite !all_chars_append. assert (Hz : ∀ z, all_chars not_slash (str_Z z) = true) by (intros z; apply (numeral_free slash); [reflexivity|apply str_Z_numeral]).
    rewrite !Hz. rewrite !elem_of_cons, elem_of_nil in Hd. by destruct Hd as [->|[->|[]]]. }
  assert (Hs : split slash ("/tmp/" +s+ log_name daemon p i) = ["" ; "tmp"; log_name daemon p i]).
  { assert (H0 : ∀ s, split slash (String slash s) = "" :: split slash s) by (intros s; cbn [split]; by rewrite decide_True by done).
    assert (H1 : ∀ c s w ws, c ≠ slash → split slash s = w :: ws → split slash (String c s) = String c w :: ws).
    { intros c s w ws Hc E. cbn [split]. by rewrite decide_False, E by done. }
    change ("/tmp/" +s+ ?a) with (String slash (String (Ascii.ascii_of_N 116) (String (Ascii.ascii_of_N 109) (String (Ascii.ascii_of_N 112) (String slash a))))). rewrite H0. f_equal.
    apply H1; [discriminate|]. apply H1; [discriminate|]. apply H1; [discriminate|]. rewrite H0. f_equal. by apply split_single. }
  rewrite Hs. rewrite !elem_of_cons, elem_of_nil in Hd. by destruct Hd as [->|[->|[]]].
Qed.

Lemma socket_not_log p i daemon q j : daemon ∈ ["cefnetd"; "csmgrd"] → socket_path p i ≠ log_path daemon q (str_Z j).
Proof. intros Hd. rewrite !elem_of_cons, elem_of_nil in Hd. by destruct Hd as [->|[->|[]]]. Qed.

(** * Provisioned hosts *)

(** A host: its template and the entries that were set since it was provisioned,
    as file, key and value. *)
Record provisioned_host := mkHost { h_idx : Z; h_template : gmap string string; h_edits : list (string * string * string); h_csmgrd : bool }.
Definition apply_edit (files : gmap string string) (e : string * string * string) : gmap string string :=
  alter (set_config_value e.1.2 e.2) e.1.1 files.
Definition files_of (h : provisioned_host) : gmap string string := foldl apply_edit (contents (provisioned (h_template h) (h_idx h))) (h_edits h).
Definition scope_of (h : provisioned_host) : HostLogScope := mkScope (h_idx h) (files_of h) (h_csmgrd h).

Definition edit_ok (e : string * string * string) : Prop :=
  key_ok e.1.2 ∧ e.1.2 ≠ "LOCAL_SOCK_ID" ∧ e.1.2 ≠ "PORT_NUM" ∧ no_breaks e.2 = true.
Definition has_conf (template : gmap string string) (name : string) : Prop := ∃ text, template !! name = Some text ∧ conf_text text.
Record host_ok (h : provisioned_host) : Prop := {
  hk_idx : 0 ≤ h_idx h;
  hk_cefnetd : has_conf (h_template h) "cefnetd.conf";
  hk_csmgrd : h_csmgrd h = true → has_conf (h_template h) "csmgrd.conf";
  hk_edits : Forall edit_ok (h_edits h);
}.

(** A file with its socket id and port entries. *)
Definition reads (name : string) (files : gmap string string) (sock port : res (option string)) : Prop :=
  ∃ ls, files !! name = Some (unlines ls) ∧ Forall (λ l, no_breaks l = true) ls ∧
    conf_entry sock_label ls = sock ∧ conf_entry (label_of "PORT_NUM") ls = port.

Lemma port_num_ok : key_ok "PORT_NUM".
Proof. split; [discriminate|reflexivity]. Qed.

Lemma reads_edit name files sock port e : reads name files sock port → edit_ok e → reads name (apply_edit files e) sock port.
Proof.
  intros (ls & Hf & Hl & Hs & Hp) (Hk & Hne & Hne' & Hv). unfold apply_edit. destruct (decide (e.1.1 = name)) as [->|Hn].
  - exists (replace_lines e.1.2 e.2 false ls). split_and!.
    + rewrite lookup_alter_eq, Hf. simpl. unfold set_config_value. rewrite splitlines_unlines by done. by rewrite join_unlines by apply replace_nonempty.
    + by apply replace_no_breaks.
    + unfold sock_label. by rewrite set_read by (done || apply sock_id_ok).
    + by rewrite set_read by (done || apply port_num_ok).
  - exists ls. by rewrite lookup_alter_ne.
Qed.

Lemma reads_relabel idx name files ls : 0 ≤ idx → files !! name = Some (unlines ls) → Forall (λ l, no_breaks l = true) ls →
  reads name (with_sock_id idx name files) (Ok (Some (str_Z idx))) (conf_entry (label_of "PORT_NUM") ls).
Proof.
  intros Hi Hf Hl. exists (relabel_lines sock_label (sock_entry idx) ls). split_and!.
  - unfold with_sock_id. rewrite lookup_alter_eq, Hf. simpl. unfold update_local_sock_id.
    by rewrite <- (relabel_unlines sock_label (sock_entry idx) ls) by done.
  - assert (He : ∀ l, no_breaks (leading l) = true → no_breaks (leading l +s+ sock_entry idx) = true).
    { intros l E. unfold sock_entry. rewrite !no_breaks_app, E. by destruct (str_Z_plain idx Hi) as [_ ->]. }
    unfold relabel_lines. apply Forall_app. split; [|destruct (existsb _ _); repeat constructor; exact (He "" eq_refl)].
    apply Forall_fmap. eapply Forall_impl; [exact Hl|]. intros l Hb. simpl. unfold relabel_line. destruct (labelled sock_label l); [|done]. apply He.
    rewrite <- (proj1 (leading_spec l)), no_breaks_app in Hb. by apply andb_prop in Hb as [Hb _].
  - by apply sock_read.
  - apply other_read; [apply port_num_ok|done].
Qed.

Lemma reads_frame name files files' sock port : files' !! name = files !! name → reads name files sock port → reads name files' sock port.
Proof. intros E (ls & Hf & H). exists ls. by rewrite E. Qed.

Lemma reads_edits name edits files sock port : Forall edit_ok edits → reads name files sock port → reads name (foldl apply_edit files edits) sock port.
Proof.
  intros He. revert files. induction He as [|e edits He _ IH]; intros files Hr; [done|]. simpl. apply IH. by apply reads_edit.
Qed.

(** What is read in the directory of a provisioned host: its own id, the port of its
    template. *)
Lemma provisioned_reads h name : host_ok h → name ∈ ["cefnetd.conf"; "csmgrd.conf"] → has_conf (h_template h) name →
  reads name (files_of h) (Ok (Some (str_Z (h_idx h)))) (read_entry "PORT_NUM=" name (h_template h)).
Proof.
  intros [Hi _ _ He] Hname (text & Ht & ls & -> & Hl). unfold files_of. apply reads_edits; [done|]. unfold read_entry. rewrite Ht, conf_entry_text by done.
  cbn [contents provisioned]. set (files := with_sock_id (h_idx h) "csmgrd.conf" (with_sock_id (h_idx h) "cefnetd.conf" (h_template h))).
  assert (Hr : reads name files (Ok (Some (str_Z (h_idx h)))) (conf_entry (label_of "PORT_NUM") ls)).
  { rewrite !elem_of_cons, elem_of_nil in Hname. destruct Hname as [->|[->|[]]].
    - apply (reads_frame _ (with_sock_id (h_idx h) "cefnetd.conf" (h_template h))); [by apply lookup_alter_ne|]. by apply reads_relabel.
    - apply reads_relabel; [done| |done]. unfold with_sock_id. by rewrite lookup_alter_ne. }
  assert (Hn : reads name (with_node_name (h_idx h) files) (Ok (Some (str_Z (h_idx h)))) (conf_entry (label_of "PORT_NUM") ls)).
  { apply (reads_edit name files _ _ ("cefnetd.conf", "NODE_NAME", "h" +s+ str_Z (h_idx h))); [done|]. split_and!; [split; [discriminate|reflexivity]|discriminate..|].
    cbn [snd]. rewrite no_breaks_app. by destruct (str_Z_plain (h_idx h) Hi) as [_ ->]. }
  revert Hn. apply reads_frame. unfold with_mirror. destruct (_ !! "cefnetd.conf"); [|done].
  apply lookup_insert_ne. rewrite !elem_of_cons, elem_of_nil in Hname. by destruct Hname as [->|[->|[]]].
Qed.

Lemma provisioned_sock h name : host_ok h → name ∈ ["cefnetd.conf"; "csmgrd.conf"] → has_conf (h_template h) name →
  read_local_sock_id (files_of h) name = Ok (str_Z (h_idx h)).
Proof.
  intros Hh Hn Hc. destruct (provisioned_reads h name Hh Hn Hc) as (ls & Hf & Hl & Hs & _). unfold read_local_sock_id, read_entry. rewrite Hf, conf_entry_text by done.
  change "LOCAL_SOCK_ID=" with sock_label. by rewrite Hs.
Qed.

Lemma provisioned_port h name fallback : host_ok h → name ∈ ["cefnetd.conf"; "csmgrd.conf"] → has_conf (h_template h) name →
  read_port name fallback (files_of h) = read_port name fallback (h_template h).
Proof.
  intros Hh Hn Hc. destruct (provisioned_reads h name Hh Hn Hc) as (ls & Hf & Hl & _ & Hp). unfold read_port. rewrite <- Hp. unfold read_entry at 1.
  rewrite Hf, conf_entry_text by done. done.
Qed.

Lemma name_cef : "cefnetd.conf" ∈ ["cefnetd.conf"; "csmgrd.conf"].
Proof. by left. Qed.
Lemma name_csm : "csmgrd.conf" ∈ ["cefnetd.conf"; "csmgrd.conf"].
Proof. by right; left. Qed.

(** The logs of a host. *)
Definition host_logs (h : provisioned_host) : res (list string) :=
  cef ← read_port_num (h_template h);
  if h_csmgrd h then
    csm ← read_csmgr_port_num (h_template h);
    Ok [log_path "cefnetd" cef (str_Z (h_idx h)); log_path "csmgrd" csm (str_Z (h_idx h))]
  else Ok [log_path "cefnetd" cef (str_Z (h_idx h))].

Lemma host_logs_eq h : host_ok h → tmp_daemon_log_paths (scope_of h) = host_logs h.
Proof.
  intros Hh. pose proof (hk_cefnetd h Hh) as Hc. unfold tmp_daemon_log_paths, host_logs, scope_of, cefnetd_log, csmgrd_log. cbn [node_files has_csmgrd].
  unfold read_port_num, read_csmgr_port_num. rewrite (provisioned_port h "cefnetd.conf"), (provisioned_sock h "cefnetd.conf") by (done || apply name_cef).
  destruct (read_port "cefnetd.conf" 9695 (h_template h)) as [p|e|]; [|done..]. simpl. destruct (h_csmgrd h) eqn:E; [|done].
  pose proof (hk_csmgrd h Hh E) as Hm. rewrite (provisioned_port h "csmgrd.conf"), (provisioned_sock h "csmgrd.conf") by (done || apply name_csm).
  by destruct (read_port "csmgrd.conf" 9799 (h_template h)).
Qed.

Lemma host_logs_elem h paths path : host_logs h = Ok paths → path ∈ paths →
  ∃ daemon port, daemon ∈ ["cefnetd"; "csmgrd"] ∧ path = log_path daemon port (str_Z (h_idx h)).
Proof.
  unfold host_logs. destruct (read_port_num (h_template h)) as [p|e|]; [|done..]. simpl. destruct (h_csmgrd h).
  - destruct (read_csmgr_port_num (h_template h)) as [q|e|]; [|done..]. simpl. intros [= <-]. rewrite !elem_of_cons, elem_of_nil.
    intros [->|[->|[]]]; eexists _, _; (split; [|reflexivity]); set_solver.
  - intros [= <-]. rewrite list_elem_of_singleton. intros ->. eexists _, _. split; [|reflexivity]. set_solver.
Qed.

(** * Cleaning up *)

(** One of the clean-ups of a host. *)
Definition removal (stuck : string → bool) (scope : HostLogScope) (tmp tmp' : gmap string string) : Prop :=
  cleanup_stale_daemon_logs stuck scope tmp = Ok tmp' ∨ cleanup_stale_cefnetd_log stuck (node_files scope) tmp = Ok tmp' ∨
  (has_csmgrd scope = true ∧ cleanup_stale_csmgrd_log stuck (node_files scope) tmp = Ok tmp') ∨ cleanup_cefnetd_socket stuck scope tmp = Ok tmp'.

Lemma unlink_other stuck tmp paths path : path ∉ paths → unlink_stale_paths stuck paths tmp !! path = tmp !! path.
Proof.
  revert tmp. induction paths as [|p paths IH]; intros tmp Hp; [done|]. apply not_elem_of_cons in Hp as [Hne Hp]. unfold unlink_stale_paths in *. simpl. rewrite IH by done.
  unfold unlink. destruct (stuck p); [done|]. by rewrite lookup_delete_ne.
Qed.

(** The path of a log of another host. *)
Definition foreign (idx : Z) (path : string) : Prop := ∃ daemon port j, daemon ∈ ["cefnetd"; "csmgrd"] ∧ j ≠ idx ∧ path = log_path daemon port (str_Z j).

Lemma foreign_log idx path daemon port : foreign idx path → daemon ∈ ["cefnetd"; "csmgrd"] → path ≠ log_path daemon port (str_Z idx).
Proof. intros (d & p & j & Hd & Hj & ->) Hd' E. apply log_path_inj in E as [_ E]; done. Qed.

Lemma cefnetd_cleanup_foreign stuck h tmp tmp' path : host_ok h → foreign (h_idx h) path →
  cleanup_stale_cefnetd_log stuck (files_of h) tmp = Ok tmp' → tmp' !! path = tmp !! path.
Proof.
  intros Hh Hf. unfold cleanup_stale_cefnetd_log, cefnetd_log. rewrite provisioned_sock by (done || apply name_cef || by apply hk_cefnetd).
  destruct (read_port_num (files_of h)) as [p|e|]; [|done..]. simpl. intros [= <-]. apply (unlink_other stuck tmp [_]).
  rewrite list_elem_of_singleton. apply foreign_log; [done|set_solver].
Qed.

Lemma csmgrd_cleanup_foreign stuck h tmp tmp' path : host_ok h → h_csmgrd h = true → foreign (h_idx h) path →
  cleanup_stale_csmgrd_log stuck (files_of h) tmp = Ok tmp' → tmp' !! path = tmp !! path.
Proof.
  intros Hh Hc Hf. unfold cleanup_stale_csmgrd_log. rewrite provisioned_sock by (done || apply name_csm || by apply hk_csmgrd). cbn [mbind res_bind].
  destruct (read_csmgr_port_num (files_of h)) as [p|e|]; [|done..]. cbn [mbind res_bind]. intros [= <-]. apply (unlink_other stuck tmp [_; _]).
  rewrite !elem_of_cons, elem_of_nil. assert (Hp : ∀ q, path ≠ log_path "csmgrd" q (str_Z (h_idx h))) by (intros q; apply foreign_log; [done|set_solver]). naive_solver.
Qed.

Lemma socket_cleanup_foreign stuck h tmp tmp' path : foreign (h_idx h) path → cleanup_cefnetd_socket stuck (scope_of h) tmp = Ok tmp' → tmp' !! path = tmp !! path.
Proof.
  intros (d & q & j & Hd & _ & ->). unfold cleanup_cefnetd_socket. destruct (read_port_num _) as [p|e|]; [|done..]. cbn [mbind res_bind].
  intros [= <-]. destruct (tmp !! socket_path p _); [|done]. apply (unlink_other stuck tmp [_]). rewrite list_elem_of_singleton.
  intros E. by apply (socket_not_log p (h_idx h) d q j).
Qed.

Lemma removal_foreign stuck h tmp tmp' path : host_ok h → foreign (h_idx h) path → removal stuck (scope_of h) tmp tmp' → tmp' !! path = tmp !! path.
Proof.
  intros Hh Hf [H|[H|[[Hc H]|H]]].
  - unfold cleanup_stale_daemon_logs in H. cbn [node_files has_csmgrd scope_of] in H.
    destruct (cleanup_stale_cefnetd_log stuck (files_of h) tmp) as [tmp1|e|] eqn:E; [|done..]. cbn [mbind res_bind] in H.
    rewrite <- (cefnetd_cleanup_foreign stuck h tmp tmp1 path Hh Hf E). destruct (h_csmgrd h) eqn:Hc; [|by simplify_eq].
    by apply (csmgrd_cleanup_foreign stuck h tmp1).
  - by apply (cefnetd_cleanup_foreign stuck h tmp).
  - by apply (csmgrd_cleanup_foreign stuck h tmp).
  - by apply (socket_cleanup_foreign stuck h tmp).
Qed.

(** * Collecting *)

Section collecting.
Context (resolve : path → path) (path_str : path → string) (copy_fault : string → option exn) (run_dir : path) (tmp : gmap string string).

(** Where a log is copied to. *)
Definition dest (source : string) : path := path_join (resolve run_dir) (mkPath false [path_name source]).
(** Nothing in the run directory that has the log's name is a symbolic link: only the
    run directory itself is resolved. *)
Definition no_link (source : string) : Prop := resolve (path_join run_dir (mkPath false [path_name source])) = dest source.

Definition copied (out : run_files) (source : string) : run_files :=
  match copy_fault source, tmp !! source with None, Some text => store (dest source) text out | _, _ => out end.

Lemma copy_log_eq out source : no_link source → copy_log resolve path_str copy_fault run_dir tmp source out =
  match copy_fault source with Some e => Raise e | None => Ok (copied out source) end.
Proof.
  intros Hn. unfold copy_log, copied. destruct (copy_fault source); [done|]. destruct (tmp !! source) as [text|]; [|done].
  rewrite ensure_within_spec, Hn, decide_True; [done|]. split; [done|]. simpl. by exists [path_name source].
Qed.

Lemma try_copies acc sources : (∀ s, s ∈ sources → no_link s) → (foldl (try_copy resolve path_str copy_fault run_dir tmp) acc sources).1 = foldl copied acc.1 sources ∧
  ((∀ source, copy_fault source = None) → (foldl (try_copy resolve path_str copy_fault run_dir tmp) acc sources).2 = acc.2).
Proof.
  revert acc. induction sources as [|s sources IH]; intros acc Hn; [done|]. cbn [foldl].
  destruct (IH (try_copy resolve path_str copy_fault run_dir tmp acc s) ltac:(set_solver)) as [IH1 IH2].
  assert (E : try_copy resolve path_str copy_fault run_dir tmp acc s = (copied acc.1 s, match copy_fault s with Some e => acc.2 ++ ["failed to collect daemon log " +s+ s +s+ ": " +s+ exn_msg e] | None => acc.2 end)).
  { unfold try_copy. rewrite copy_log_eq by (apply Hn; by left). unfold copied. by destruct (copy_fault s). }
  rewrite E in *. rewrite IH1. split; [done|]. intros Hc. rewrite IH2 by done. simpl. by rewrite Hc.
Qed.

Definition sources_of (scope : HostLogScope) : list string := match tmp_daemon_log_paths scope with Ok paths => paths | _ => [] end.

Lemma collected scopes acc : (∀ s, s ∈ scopes ≫= sources_of → no_link s) → (foldl (collect_scope resolve path_str copy_fault run_dir tmp) acc scopes).1 = foldl copied acc.1 (scopes ≫= sources_of) ∧
  ((∀ source, copy_fault source = None) → (∀ scope, scope ∈ scopes → ∃ paths, tmp_daemon_log_paths scope = Ok paths) →
   (foldl (collect_scope resolve path_str copy_fault run_dir tmp) acc scopes).2 = acc.2).
Proof.
  revert acc. induction scopes as [|s scopes IH]; intros acc Hn; [done|]. cbn [foldl]. cbn [mbind list_bind] in Hn.
  assert (Hs : ∀ source, source ∈ sources_of s → no_link source) by (intros source ?; apply Hn, elem_of_app; by left).
  destruct (IH (collect_scope resolve path_str copy_fault run_dir tmp acc s)) as [IH1 IH2]; [intros source ?; apply Hn, elem_of_app; by right|].
  rewrite IH1. cbn [mbind list_bind]. rewrite foldl_app.
  assert (E : (collect_scope resolve path_str copy_fault run_dir tmp acc s).1 = foldl copied acc.1 (sources_of s)).
  { unfold collect_scope, sources_of in *. destruct (tmp_daemon_log_paths s) as [paths|e|]; [|done..]. by apply try_copies. }
  rewrite E. split; [done|]. intros Hc Hok. rewrite IH2; [|done|intros s' Hs'; apply Hok; by right].
  destruct (Hok s ltac:(by left)) as [paths Hp]. unfold collect_scope, sources_of in *. rewrite Hp in *. by apply try_copies.
Qed.

(** A log whose name no other source has is in the run directory at the end. *)
Lemma copied_lookup sources out source : (∀ s, s ∈ sources → dest s = dest source → s = source) →
  foldl copied out sources (dest source) =
    match copy_fault source, tmp !! source with
    | None, Some text => if decide (source ∈ sources) then Some text else out (dest source)
    | _, _ => out (dest source)
    end.
Proof.
  clear path_str. revert out. induction sources as [|s sources IH]; intros out Hd; cbn [foldl].
  - destruct (copy_fault source), (tmp !! source); done.
  - rewrite IH by (intros s' Hs'; apply Hd; by right). assert (Hout : copied out s (dest source) =
      match copy_fault source, tmp !! source with None, Some text => if decide (s = source) then Some text else out (dest source) | _, _ => out (dest source) end).
    { destruct (decide (s = source)) as [->|Hne].
      - unfold copied. destruct (copy_fault source), (tmp !! source); try done; unfold store; by rewrite !decide_True.
      - assert (Hdest : dest source ≠ dest s) by (intros E; by apply Hne, Hd; [left|]).
        unfold copied. destruct (copy_fault s), (tmp !! s), (copy_fault source), (tmp !! source); try done; unfold store; by rewrite decide_False. }
    rewrite Hout. destruct (copy_fault source), (tmp !! source); try done.
    destruct (decide (source ∈ sources)), (decide (s = source)) as [->|], (decide (source ∈ _)); set_solver.
Qed.

(** Whatever is linked where, nothing outside the run directory is written. *)
Lemma collected_inside scopes acc p : ¬ inside (resolve run_dir) p →
  (foldl (collect_scope resolve path_str copy_fault run_dir tmp) acc scopes).1 p = acc.1 p.
Proof.
  intros Hp. assert (Hc : ∀ acc source, (try_copy resolve path_str copy_fault run_dir tmp acc source).1 p = acc.1 p).
  { intros a source. unfold try_copy, copy_log. destruct (copy_fault source); [done|]. destruct (tmp !! source); [|done].
    rewrite ensure_within_spec. case_decide as Hin; [|done]. simpl. unfold store. by rewrite decide_False by (intros ->; done). }
  revert acc. induction scopes as [|s scopes IH]; intros acc; [done|]. cbn [foldl]. rewrite IH. unfold collect_scope.
  destruct (tmp_daemon_log_paths s) as [paths|e|]; [|done..]. clear -Hc. revert acc.
  induction paths as [|q paths IH]; intros acc; [done|]. cbn [foldl]. by rewrite IH.
Qed.
End collecting.

Lemma dest_inj resolve run_dir a b : dest resolve run_dir a = dest resolve run_dir b → path_name a = path_name b.
Proof. unfold dest, path_join. simpl. intros E. injection E as E. apply app_inv_head in E. by injection E. Qed.


Definition demo_hosts : list provisioned_host :=
  [mkHost 0 demo_template [("cefnetd.conf", "CS_MODE", "2"); ("csmgrd.conf", "CACHE_TYPE", "memory")] true; mkHost 1 demo_template [] false].
Definition demo_tmp : gmap string string :=
  list_to_map [("/tmp/cefnetd_9700_0.log", "zero"); ("/tmp/csmgrd_9799_0.log", "cache"); ("/tmp/cefnetd_9700_1.log", "one")].

(** A relative run directory, resolved below the working directory. *)
Definition under_work (p : path) : path := if absolute p then p else mkPath true ("work" :: parts p).
Definition demo_run_dir : path := mkPath false ["logs"; "exp"].

