(* ===== verification/NetConfig.v ===== *)
(** Component: the network configuration commands (src/runtime/net_config.py): the
    addresses of the host interfaces, the FIB entries handed to cefroute, and the
    restoration of a host's entries (src/scenarios/disaster.py). *)
From S2P Require Import Prelude PyValue StateMonad Topology Graph Addressing Fib Events Options Validate ValidateEvents.
Local Open Scope Z_scope.

(** * Commands *)

Record command := mkCommand { node : string; argv : list string }.
(** What was run so far, with the return code ([None]: the command did not end) or
    the exception of the runner. *)
Notation history := (list (command * (option Z + exn))).

Section commands.
Context (reply : history → command → option Z + exn).

Definition run_command (c : command) : M history (option Z) := λ w, (w ++ [(c, reply w c)], reply w c).

Definition host_node (i : Z) : string := "h" +s+ str_Z i.
Definition LINK_NETMASK : string := "255.255.255.0".

(** [apply_ip_addr]. *)
Definition ifconfig (host eth : Z) (ip : string) : command :=
  mkCommand (host_node host) ["ifconfig"; host_node host +s+ "-eth" +s+ str_Z eth; ip; "netmask"; LINK_NETMASK].
Definition subnet_ip (scheme : AddressingScheme) (l : Link) (host : Z) : res string :=
  match subnet l with Some sn => host_ip scheme sn host | None => raise ETypeError "unsupported operand type(s) for +: 'int' and 'NoneType'" end.
Definition assign_address (scheme : AddressingScheme) (l : Link) (host : Z) : M history () :=
  eth ← lift (eth_of l host);
  ip ← lift (subnet_ip scheme l host);
  run_command (ifconfig host eth ip) ≫= λ _, mret ().
Definition apply_ip_addr (mesh : list raw_link) (scheme : option AddressingScheme) : M history () :=
  for_each (λ l, for_each (assign_address (default default_scheme scheme) l) (hosts l)) (TopologyModel mesh).

(** [cefroute_add], [cefroute_del] and [cefroute_enable], in the host's node
    directory. *)
Definition cefroute (verb : string) (host : Z) (prefix : string) (protocol : pv) (next_hop : string) : M history (option Z) :=
  proto ← lift (normalize_route_protocol protocol);
  run_command (mkCommand (host_node host) ["cefroute"; verb; prefix; proto; next_hop; "-d"; "./" +s+ host_node host]).
Definition cefroute_add := cefroute "add".
Definition cefroute_del host prefix protocol next_hop : M history bool :=
  rc ← cefroute "del" host prefix protocol next_hop; mret (bool_decide (rc = Some 0)).
Definition cefroute_enable host prefix protocol next_hop : M history bool :=
  rc ← cefroute "enable" host prefix protocol next_hop; mret (bool_decide (rc = Some 0)).

(** [RouteApplyFailure] and [apply_fib_routes]. *)
Record RouteApplyFailure := mkFailure { fl_source : Z; fl_prefix : string; fl_next_hop_ip : string; fl_returncode : option Z }.
Definition apply_route (r : Route) (failures : list RouteApplyFailure) : M history (list RouteApplyFailure) :=
  rc ← cefroute_add (source r) (prefix r) (PStr "udp") (next_hop_ip r);
  mret (if bool_decide (rc = Some 0) then failures else failures ++ [mkFailure (source r) (prefix r) (next_hop_ip r) rc]).
Definition wanted (only : option Z) (r : Route) : bool := match only with Some s => source r =? s | None => true end.
Fixpoint apply_routes (routes : list Route) (only : option Z) (failures : list RouteApplyFailure) : M history (list RouteApplyFailure) :=
  match routes with
  | [] => mret failures
  | r :: routes =>
      if wanted only r then failures ← apply_route r failures; apply_routes routes only failures
      else apply_routes routes only failures
  end.
Definition apply_fib_routes (routes : list Route) (only : option Z) : M history (list RouteApplyFailure) := apply_routes routes only [].

(** [apply_fib], for a strategy that is registered. *)
Definition apply_fib (mesh : list raw_link) (k : Z) (strategy : RoutingStrategy) (uris : option (list (string * Z)))
    (prefs : option (list (string * Z))) (scheme : option AddressingScheme) : M history (list Route) :=
  routes ← lift (compute_routes strategy mesh k uris scheme prefs);
  apply_fib_routes routes None ≫= λ _, mret routes.

(** [_restore_fib_for_host], once the readiness of cefnetd is known. *)
Definition restore_fib_for_host (routes : list Route) (cefnetd_ready : bool) (host : Z) : M history () :=
  if bool_decide (routes = []) then mret ()
  else if negb cefnetd_ready then mret ()
  else apply_fib_routes routes (Some host) ≫= λ _, mret ().

(** * What is run *)

Definition add_command (r : Route) : command :=
  mkCommand (host_node (source r)) ["cefroute"; "add"; prefix r; "udp"; next_hop_ip r; "-d"; "./" +s+ host_node (source r)].

(** The runner never raises. *)
Definition obliging : Prop := ∀ w c, ∃ rc, reply w c = inl rc.
Context (Hreply : obliging).

(** [m] runs [cs] and returns. *)
Definition runs {A} (m : M history A) (cs : list command) (a : A) : Prop := ∀ w, ∃ w', m w = (w ++ w', inl a) ∧ w'.*1 = cs.

Lemma runs_ret {A} (a : A) : runs (mret a) [] a.
Proof. intros w. exists []. by rewrite app_nil_r. Qed.

Lemma runs_bind {A B} (m : M history A) (f : A → M history B) cs a cs' b : runs m cs a → runs (f a) cs' b → runs (m ≫= f) (cs ++ cs') b.
Proof.
  intros Hm Hf w. destruct (Hm w) as (w1 & E1 & C1). destruct (Hf (w ++ w1)) as (w2 & E2 & C2). exists (w1 ++ w2).
  unfold mbind, M_bind. rewrite E1, E2, fmap_app, C1, C2. by rewrite app_assoc.
Qed.

Lemma runs_lift {A B} (r : res A) (f : A → M history B) a cs b : r = Ok a → runs (f a) cs b → runs (lift r ≫= f) cs b.
Proof. intros -> Hf w. apply Hf. Qed.

Lemma run_command_cases c w : ∃ rc, run_command c w = (w ++ [(c, inl rc)], inl rc) ∧ reply w c = inl rc.
Proof. unfold run_command. destruct (Hreply w c) as [rc ->]. by exists rc. Qed.

Lemma runs_for_each {A} (f : A → M history ()) (g : A → list command) xs : (∀ x, x ∈ xs → runs (f x) (g x) ()) →
  runs (for_each f xs) (xs ≫= g) ().
Proof.
  induction xs as [|x xs IH]; intros Hf; [apply runs_ret|]. simpl. eapply runs_bind; [apply Hf; by left|].
  apply IH. intros y Hy. apply Hf. by right.
Qed.

Lemma runs_for_each_one {A} (f : A → M history ()) (g : A → command) xs : (∀ x, x ∈ xs → runs (f x) [g x] ()) →
  runs (for_each f xs) (g <$> xs) ().
Proof.
  induction xs as [|x xs IH]; intros Hf; [apply runs_ret|]. simpl. apply (runs_bind _ _ [g x] ()); [apply Hf; by left|].
  apply IH. intros y Hy. apply Hf. by right.
Qed.

(** The addresses of a mesh whose interfaces are numbered. *)
Definition numbered_mesh (mesh : list raw_link) : Prop := ∀ l h, l ∈ TopologyModel mesh → h ∈ hosts l → is_Some (host_eth l !! h).
Definition address_command (scheme : AddressingScheme) (l : Link) (h : Z) : command :=
  ifconfig h (default 0 (host_eth l !! h)) (match subnet_ip scheme l h with Ok ip => ip | _ => "" end).
Definition address_commands (mesh : list raw_link) (scheme : AddressingScheme) : list command :=
  TopologyModel mesh ≫= λ l, address_command scheme l <$> hosts l.

Lemma subnet_ip_ok mesh scheme l h : wf_mesh mesh → oct2 scheme = 0 → l ∈ TopologyModel mesh → h ∈ hosts l →
  ∃ sn ip, subnet l = Some sn ∧ host_ip scheme sn h = Ok ip ∧ subnet_ip scheme l h = Ok ip.
Proof.
  intros Hwf Hs Hl Hh. destruct (wl_subnet _ (Hwf l Hl)) as (sn & Hsn & Hr). pose proof (wl_range _ (Hwf l Hl) h Hh) as Hhr.
  unfold MAX_LINK_SUBNET_ID in Hr. eexists sn, _. assert (E : host_ip scheme sn h = Ok _) by (apply host_ip_Ok; split_and!; [lia..|reflexivity]).
  split_and!; [done|exact E|]. unfold subnet_ip. by rewrite Hsn.
Qed.

Lemma apply_ip_addr_runs mesh scheme : wf_mesh mesh → oct2 (default default_scheme scheme) = 0 → numbered_mesh mesh →
  runs (apply_ip_addr mesh scheme) (address_commands mesh (default default_scheme scheme)) ().
Proof.
  intros Hwf Hs Hnum. apply runs_for_each. intros l Hl. apply runs_for_each_one. intros h Hh.
  destruct (subnet_ip_ok mesh _ l h Hwf Hs Hl Hh) as (sn & ip & _ & _ & Eip). destruct (Hnum l h Hl Hh) as [eth Heth].
  unfold assign_address. eapply runs_lift; [unfold eth_of; by rewrite Heth|]. eapply runs_lift; [exact Eip|].
  intros w. unfold mbind, M_bind. destruct (run_command_cases (ifconfig h eth ip) w) as (rc & -> & _). eexists. split; [done|].
  unfold address_command. by rewrite Heth, Eip.
Qed.

Lemma apply_route_eq r failures w : apply_route r failures w = (w ++ [(add_command r, reply w (add_command r))],
  match reply w (add_command r) with
  | inl rc => inl (if bool_decide (rc = Some 0) then failures else failures ++ [mkFailure (source r) (prefix r) (next_hop_ip r) rc])
  | inr e => inr e
  end).
Proof.
  unfold apply_route, cefroute_add, cefroute, mbind, M_bind, lift. assert (normalize_route_protocol (PStr "udp") = Ok "udp") as -> by reflexivity.
  unfold run_command. change (mkCommand (host_node (source r)) ["cefroute"; "add"; prefix r; "udp"; next_hop_ip r; "-d"; "./" +s+ host_node (source r)]) with (add_command r).
  by destruct (reply w (add_command r)).
Qed.

(** The entries of the routes that are wanted, with the failures in order. *)
Lemma apply_routes_runs routes only failures : ∀ w, ∃ w', apply_routes routes only failures w
    = (w ++ w', inl (failures ++ omap (λ rx, match rx.2.2 with
         | inl (Some 0) => None
         | inl rc => Some (mkFailure (source rx.1) (prefix rx.1) (next_hop_ip rx.1) rc)
         | inr _ => None end) (zip (List.filter (wanted only) routes) w'))) ∧
    w'.*1 = add_command <$> List.filter (wanted only) routes.
Proof.
  revert failures. induction routes as [|r routes IH]; intros failures w; simpl; [exists []; by rewrite !app_nil_r|].
  destruct (wanted only r); [|apply IH]. unfold mbind, M_bind. rewrite apply_route_eq. destruct (Hreply w (add_command r)) as [rc ->].
  destruct (IH (if bool_decide (rc = Some 0) then failures else failures ++ [mkFailure (source r) (prefix r) (next_hop_ip r) rc]) (w ++ [(add_command r, inl rc)])) as (w' & E' & C').
  exists ((add_command r, inl rc) :: w'). rewrite E'. split; [|by rewrite fmap_cons, C'].
  rewrite <- app_assoc. simpl. f_equal. f_equal. case_bool_decide as Hrc; [by subst rc|]. rewrite <- app_assoc. simpl.
  destruct rc as [[|p|p]|]; done.
Qed.

(** * Next hops are addresses *)

Lemma ifconfig_inj h eth ip h' eth' ip' : ifconfig h eth ip = ifconfig h' eth' ip' → h = h' ∧ ip = ip'.
Proof.
  unfold ifconfig, host_node. intros [= Hh _ ->]. split; [|done]. by apply str_Z_inj.
Qed.

(** C25: the next hops that are installed are addresses that are assigned. On a mesh
    the addressing scheme covers, with numbered interfaces and a subnet of its own
    per link, and with a runner that does not raise, [apply_ip_addr] and
    [apply_fib] return; one ifconfig per link and host is run and then one cefroute
    add per computed route, on the source's host; and the next-hop address of every
    route is assigned to exactly one interface, one of the next hop on a link it
    shares with the source. Restoring a host afterwards runs exactly its own entries
    again. *)
Theorem next_hops_assigned mesh k strategy uris prefs scheme n w :
  let s := default default_scheme scheme in
  wf_mesh mesh → Topology.host_count (TopologyModel mesh) = Ok n → 0 ≤ k → oct2 s = 0 → publishers_ok n (default [] uris) →
  numbered_mesh mesh → NoDup (subnet <$> TopologyModel mesh) →
  ∃ w1 w2 routes, apply_ip_addr mesh scheme w = (w ++ w1, inl ()) ∧ apply_fib mesh k strategy uris prefs scheme (w ++ w1) = ((w ++ w1) ++ w2, inl routes) ∧
    compute_routes strategy mesh k uris scheme prefs = Ok routes ∧
    w1.*1 = address_commands mesh s ∧ w2.*1 = add_command <$> routes ∧
    (∀ r, r ∈ routes → ∃ l eth, l ∈ TopologyModel mesh ∧ source r ∈ hosts l ∧ next_hop r ∈ hosts l ∧ host_eth l !! next_hop r = Some eth ∧
       ifconfig (next_hop r) eth (next_hop_ip r) ∈ w1.*1 ∧
       ∀ h eth', ifconfig h eth' (next_hop_ip r) ∈ w1.*1 → ifconfig h eth' (next_hop_ip r) = ifconfig (next_hop r) eth (next_hop_ip r)) ∧
    ∀ host w3, ∃ w4, restore_fib_for_host routes true host w3 = (w3 ++ w4, inl ()) ∧
      w4.*1 = add_command <$> List.filter (λ r, source r =? host) routes.
Proof.
  intros s Hwf Hn Hk Hs Hpub Hnum Hnd. subst s. destruct (apply_ip_addr_runs mesh scheme Hwf Hs Hnum w) as (w1 & E1 & C1).
  destruct (compute_routes_spec strategy mesh k uris scheme prefs n Hwf Hn Hk Hs Hpub) as (routes & Er & _ & Hroutes).
  destruct (apply_routes_runs routes None [] (w ++ w1)) as (w2 & E2 & C2).
  assert (Hall : List.filter (wanted None) routes = routes) by (clear; induction routes; simpl; congruence).
  rewrite Hall in C2. exists w1, w2, routes. split_and!; [exact E1| |exact Er|exact C1|exact C2| |].
  - unfold apply_fib, mbind, M_bind, lift, apply_fib_routes. by rewrite Er, E2.
  - intros r (dest & _ & _ & (l & sn & Hlast & Hsn & Hip))%Hroutes. unfold last_link in Hlast.
    apply find_link_Some in Hlast as (i & Hi & Hsrc & Hnh & _).
    assert (Hl : l ∈ TopologyModel mesh) by (apply list_elem_of_lookup_2 in Hi; by rewrite elem_of_reverse in Hi).
    destruct (Hnum l _ Hl Hnh) as [eth Heth]. exists l, eth. split_and!; [exact Hl|exact Hsrc|exact Hnh|exact Heth| |].
    + rewrite C1. unfold address_commands. apply list_elem_of_bind. exists l. split; [|done]. apply list_elem_of_fmap. exists (next_hop r). split; [|done].
      unfold address_command, subnet_ip. by rewrite Heth, Hsn, Hip.
    + intros h eth'. rewrite C1. unfold address_commands. intros (l' & (h' & E & Hh')%list_elem_of_fmap & Hl')%list_elem_of_bind.
      destruct (subnet_ip_ok mesh _ l' h' Hwf Hs Hl' Hh') as (sn' & ip' & Hsn' & Hip' & Es). rewrite E. unfold address_command in E |- *. rewrite Es in E |- *.
      apply ifconfig_inj in E as [-> Eip]. rewrite <- Eip in Hip' |- *. destruct (host_ip_inj _ _ _ _ _ _ Hip Hip') as [<- <-].
      assert (l' = l) as ->; [|by rewrite Heth]. apply list_elem_of_lookup in Hl as [a Ha]. apply list_elem_of_lookup in Hl' as [j Hj].
      assert (a = j) as <-; [|congruence]. apply (NoDup_lookup (subnet <$> TopologyModel mesh) a j (Some sn) Hnd); rewrite list_lookup_fmap, ?Ha, ?Hj; simpl; by rewrite ?Hsn, ?Hsn'.
  - intros host w3. unfold restore_fib_for_host. case_bool_decide as He; [exists []; rewrite He, app_nil_r; done|]. simpl.
    destruct (apply_routes_runs routes (Some host) [] w3) as (w4 & E4 & C4). exists w4. split; [|exact C4].
    unfold apply_fib_routes, mbind, M_bind. by rewrite E4.
Qed.
End commands.

(** * Example *)

Definition agreeing (_ : history) (_ : command) : option Z + exn := inl (Some 0).
Definition demo_mesh : list raw_link :=
  [RawMulti (Some "s0") (Some 1) [0; 1] (Some (<[0:=0]> {[1:=0]})); RawMulti (Some "s1") (Some 2) [1; 2] (Some (<[1:=1]> {[2:=0]}))].

(** A line of three hosts: host 0 reaches the publisher 2 by an address of host 1. *)
Lemma next_hops_assigned_witness : ∃ w1 r, apply_ip_addr agreeing demo_mesh None [] = (w1, inl ()) ∧
  source r = 0 ∧ next_hop r = 1 ∧ ∃ eth, ifconfig 1 eth (next_hop_ip r) ∈ w1.*1.
Proof.
  assert (Ho : obliging agreeing) by (intros w c; by exists (Some 0)).
  destruct (next_hops_assigned agreeing Ho demo_mesh 1 DijkstraStrategy (Some [("ccnx:/a", 2)]) None None 3 [])
    as (w1 & w2 & routes & E1 & _ & Er & _ & _ & Hr & _).
  - apply wf_mesh_sound. vm_compute. reflexivity.
  - vm_compute. reflexivity.
  - lia.
  - reflexivity.
  - repeat constructor; simpl; lia.
  - assert (Hb : forallb (λ l, forallb (λ h, match host_eth l !! h with Some _ => true | None => false end) (hosts l)) (TopologyModel demo_mesh) = true) by (vm_compute; reflexivity).
    intros l h Hl Hh. rewrite List.forallb_forall in Hb. specialize (Hb l (proj1 (list_elem_of_In _ _) Hl)). rewrite List.forallb_forall in Hb.
    specialize (Hb h (proj1 (list_elem_of_In _ _) Hh)). destruct (host_eth l !! h); [by eexists|discriminate Hb].
  - simpl. repeat constructor; set_solver.
  - assert (Hx : match compute_routes DijkstraStrategy demo_mesh 1 (Some [("ccnx:/a", 2)]) None None with
      Ok routes => match routes with r :: _ => source r = 0 ∧ next_hop r = 1 | [] => False end | _ => False end) by (vm_compute; done).
    rewrite Er in Hx. destruct routes as [|r routes]; [done|]. destruct Hx as [Hsrc Hnh]. exists w1, r. simpl in E1. split_and!; [done..|].
    destruct (Hr r ltac:(by left)) as (l & eth & _ & _ & _ & _ & Hin & _). rewrite Hnh in Hin. by exists eth.
Defined.
