(* ===== verification/LinkControl.v ===== *)
(** Component: the state and the bandwidth of links (src/runtime/links.py,
    src/runtime/bandwidth.py) and lists of integers given as text
    (src/core/parsing.py).  The Mininet network is a parameter; what is asked of it
    is a list of calls. *)
From S2P Require Import Prelude PyValue PyString PyNum PyText Topology BridgeArgs.
Local Open Scope Z_scope.

(** * The network *)

(** A link by the names of the nodes of its two interfaces.  [net.get] answers with
    the name of the node (a missing switch is asked for as [None]);
    [net.linksBetween] takes two nodes. *)
Notation net_link := (string * string)%type.
Record net := mkNet { net_get : option string → res string; linksBetween : string → string → list net_link; net_links : list net_link }.

(** * State of links *)

(** [net.configLinkStatus(src, dst, status)]. *)
Record status_call := mkStatus { st_src : string; st_dst : option string; st_status : string }.
Definition node_of (host : Z) : string := "h" +s+ str_Z host.

Definition set_link_state (mesh : list raw_link) (host_a host_b : Z) (state : string) : res (list status_call) :=
  match find_link (TopologyModel mesh) host_a host_b with
  | None => raise ERuntimeError ("link not found between h" +s+ str_Z host_a +s+ " and h" +s+ str_Z host_b)
  | Some link => Ok [mkStatus (node_of host_a) (switch link) state; mkStatus (node_of host_b) (switch link) state]
  end.
Definition link_down mesh host_a host_b := set_link_state mesh host_a host_b "down".
Definition link_up mesh host_a host_b := set_link_state mesh host_a host_b "up".

Definition node_call (node state : string) (l : net_link) : option status_call :=
  if bool_decide (l.1 = node) then Some (mkStatus node (Some l.2) state)
  else if bool_decide (l.2 = node) then Some (mkStatus node (Some l.1) state)
  else None.
Definition set_node_links_state (n : net) (node_name state : string) : res (list status_call) :=
  node ← net_get n (Some node_name);
  Ok (omap (node_call node state) (net_links n)).

(** * Bandwidth *)

(** [link.intf1.config(bw=...); link.intf2.config(bw=...)] of a link of the
    network. *)
Notation bw_calls := (list (net_link * pyfloat)).

Definition set_link_bandwidth (n : net) (node_a node_b : option string) (bandwidth : pyfloat) : res bw_calls :=
  a ← net_get n node_a;
  b ← net_get n node_b;
  Ok ((λ l, (l, bandwidth)) <$> linksBetween n a b).

(** [parse_bw_args]. *)
Definition parse_bw (value : string) : res (string * string * pyfloat) :=
  match fields_of value with
  | [a; b; mbps] => bw ← py_float (PStr mbps); Ok (a, b, bw)
  | _ => raise EValueError "bw format is nodeA,nodeB,mbps"
  end.
Definition parse_bw_args (values : option (list string)) : res (list (string * string * pyfloat)) := mapR parse_bw (default [] values).

(** [set_switch_bandwidth]: the calls and the result. *)
Fixpoint set_hosts_bandwidth (n : net) (hosts : list Z) (switch : option string) (bandwidth : pyfloat) : res bw_calls :=
  match hosts with
  | [] => Ok []
  | host :: hosts =>
      calls ← set_link_bandwidth n (Some (node_of host)) switch bandwidth;
      rest ← set_hosts_bandwidth n hosts switch bandwidth;
      Ok (calls ++ rest)
  end.
Definition set_switch_bandwidth (n : net) (mesh : list raw_link) (host_a host_b : Z) (bandwidth : pyfloat) : res (bw_calls * bool) :=
  match find_link (TopologyModel mesh) host_a host_b with
  | None => Ok ([], false)
  | Some link => calls ← set_hosts_bandwidth n (hosts link) (switch link) bandwidth; Ok (calls, true)
  end.

(** * Lists of integers *)

Section parsing.
Context `{FloatRepr}.

(** The non-blank parts of a text between commas. *)
Definition int_parts (s : string) : list pv := PStr <$> List.filter (λ part, negb (bool_decide (strip part = ""))) (split comma s).
Definition empty_item (item : pv) : bool := match item with PNone => true | PStr s => bool_decide (s = "") | _ => false end.
Definition item_parts (item : pv) : list pv :=
  if empty_item item then [] else match item with PStr s => int_parts s | _ => [item] end.

(** [parse_int_list]; of the containers, configuration data has lists. *)
Definition int_items (value : pv) : list pv :=
  match value with
  | PList items => items ≫= item_parts
  | PStr s => int_parts s
  | _ => [value]
  end.
Definition parse_int_list (value : pv) : res (list Z) :=
  if empty_item value then Ok []
  else match mapR py_int (int_items value) with
       | Raise e =>
           match exn_cls e with
           | ETypeError | EValueError => raise EValueError ("expected list of ints or comma-separated string, got " +s+ repr value)
           | _ => Raise e
           end
       | r => r
       end.
End parsing.

(** * Properties *)

Definition comma_free (s : string) : bool := all_chars (λ c, negb (bool_decide (c = comma))) s.
Lemma split_comma_last w : comma_free w = true → split comma w = [w].
Proof.
  unfold comma_free. induction w as [|c w IH]; [done|]. simpl. intros [Hc Hw]%andb_prop. apply negb_true_iff, bool_decide_eq_false in Hc.
  rewrite decide_False by done. by rewrite IH.
Qed.
Lemma split_comma w s : comma_free w = true → split comma (w +s+ String comma s) = w :: split comma s.
Proof.
  unfold comma_free. induction w as [|c w IH]; intros Hw; [change ("" +s+ String comma s) with (String comma s); cbn [split]; by rewrite decide_True by done|]. simpl in Hw. apply andb_prop in Hw as [Hc Hw].
  apply negb_true_iff, bool_decide_eq_false in Hc. change (String c w +s+ ?x) with (String c (w +s+ x)). cbn [split]. by rewrite decide_False, IH by done.
Qed.

Lemma str_Z_comma_free z : 0 ≤ z → comma_free (str_Z z) = true ∧ strip (str_Z z) ≠ "".
Proof.
  intros Hz. destruct (str_Z_digits z Hz) as (Hd & _ & Hne). split.
  - apply (all_chars_weaken is_digit); [|done]. intros c Hc. case_bool_decide as E; [subst c; discriminate Hc|done].
  - by rewrite strip_nonspace by (by apply (all_chars_weaken _ _ _ digit_nonspace)).
Qed.

(** Non-negative numbers between commas are read back, in order. *)
Lemma parse_joined `{FloatRepr} zs : Forall (λ z, 0 ≤ z) zs → parse_int_list (PStr (join "," (str_Z <$> zs))) = Ok zs.
Proof.
  intros Hz. unfold parse_int_list. destruct zs as [|z zs]; [done|].
  assert (Hs : ∀ z zs, Forall (λ z, 0 ≤ z) (z :: zs) → split comma (join "," (str_Z <$> z :: zs)) = str_Z <$> z :: zs).
  { clear. intros z zs. revert z. induction zs as [|z2 zs IH]; intros z [Hz Hzs]%Forall_cons.
    - apply split_comma_last. by apply str_Z_comma_free.
    - change (join "," (str_Z <$> z :: z2 :: zs)) with (str_Z z +s+ String comma (join "," (str_Z <$> z2 :: zs))).
      rewrite split_comma by by apply str_Z_comma_free. by rewrite IH. }
  assert (Hf : List.filter (λ part, negb (bool_decide (strip part = ""))) (str_Z <$> z :: zs) = str_Z <$> z :: zs).
  { clear Hs. induction Hz as [|y ys Hy _ IH]; [done|]. rewrite fmap_cons. simpl. rewrite bool_decide_eq_false_2 by (by apply str_Z_comma_free). by rewrite IH. }
  assert (Hne : empty_item (PStr (join "," (str_Z <$> z :: zs))) = false).
  { apply bool_decide_eq_false_2. intros E. pose proof (Hs z zs Hz) as Hsp. rewrite E in Hsp. injection Hsp as Hsp _. apply Forall_cons in Hz as [Hz _].
    destruct (str_Z_comma_free z Hz) as [_ Hn]. by rewrite <- Hsp in Hn. }
  rewrite Hne. unfold int_items, int_parts. rewrite Hs, Hf by done.
  assert (Hm : mapR py_int (PStr <$> (str_Z <$> z :: zs)) = Ok (z :: zs)); [|by rewrite Hm].
  apply mapR_Ok. rewrite <- list_fmap_compose. apply Forall2_fmap_l. clear Hs Hf Hne. induction Hz as [|y ys Hy _ IH]; constructor; [|done].
  simpl. by rewrite int_of_str.
Qed.

(** An infinite number is not a ValueError. *)
Lemma parse_infinite `{FloatRepr} neg : ∃ msg, parse_int_list (PList [PFloat (FInf neg)]) = raise EOverflowError msg.
Proof. by eexists. Qed.

Lemma set_link_bandwidth_ok n a b bw calls : set_link_bandwidth n a b bw = Ok calls →
  ∃ a' b', net_get n a = Ok a' ∧ net_get n b = Ok b' ∧ ∀ l v, (l, v) ∈ calls ↔ v = bw ∧ l ∈ linksBetween n a' b'.
Proof.
  intros (a' & Ha & (b' & Hb & [= <-])%res_bind_Ok)%res_bind_Ok. exists a', b'. split_and!; [done..|]. intros l v.
  rewrite list_elem_of_fmap. naive_solver.
Qed.

(** Setting the bandwidth between two hosts configures every link between their
    switch and a host on it, with that value, and no other link. *)
Lemma switch_bandwidth_links n mesh a b bw calls : set_switch_bandwidth n mesh a b bw = Ok (calls, true) →
  ∃ link, find_link (TopologyModel mesh) a b = Some link ∧
  ∀ l v, (l, v) ∈ calls ↔ v = bw ∧ ∃ h node sw, h ∈ hosts link ∧ net_get n (Some (node_of h)) = Ok node ∧ net_get n (switch link) = Ok sw ∧
    l ∈ linksBetween n node sw.
Proof.
  unfold set_switch_bandwidth. destruct (find_link (TopologyModel mesh) a b) as [link|]; [|done]. intros H. exists link. split; [done|].
  apply res_bind_Ok in H as (cs & Hc & [= ->]). revert calls Hc. induction (hosts link) as [|h hs IH]; intros calls Hc; simpl in Hc.
  - injection Hc as <-. intros l v. rewrite elem_of_nil. split; [done|]. by intros (_ & h & node & sw & ?%elem_of_nil & _).
  - apply res_bind_Ok in Hc as (c1 & H1 & (c2 & H2 & [= <-])%res_bind_Ok). apply set_link_bandwidth_ok in H1 as (h' & sw & Hh & Hsw & H1).
    intros l v. rewrite elem_of_app, H1, (IH c2 H2). split.
    + intros [[-> Hl]|(-> & h2 & node & sw2 & Hin & H')]; (split; [done|]); [exists h, h', sw|exists h2, node, sw2]; (split; [set_solver|done]).
    + intros (-> & h2 & node & sw2 & [->|Hin]%elem_of_cons & Hn & Hs & Hl).
      * left. split; [done|]. rewrite Hh in Hn. rewrite Hsw in Hs. by simplify_eq.
      * right. split; [done|]. by exists h2, node, sw2.
Qed.

(** Every link of a node is switched, once per link, with its other end. *)
Lemma node_links_switched n name node state calls : net_get n (Some name) = Ok node → set_node_links_state n name state = Ok calls →
  calls = (λ l, mkStatus node (Some (if bool_decide (l.1 = node) then l.2 else l.1)) state)
    <$> List.filter (λ l, bool_decide (l.1 = node) || bool_decide (l.2 = node)) (net_links n).
Proof.
  intros Hg. unfold set_node_links_state. rewrite Hg. cbn [mbind res_bind]. intros [= <-]. induction (net_links n) as [|l ls IH]; [done|].
  cbn [omap list_omap List.filter]. rewrite IH. unfold node_call at 1.
  destruct (bool_decide (l.1 = node)) eqn:E1; [cbn [orb]; rewrite fmap_cons; by rewrite E1|].
  destruct (bool_decide (l.2 = node)) eqn:E2; cbn [orb]; [rewrite fmap_cons; by rewrite E1|done].
Qed.
