(* ===== verification/LogParse.v ===== *)
(** Component: the content logs of the Cefore tools (src/log/schema.py,
    src/log/parser.py): the schema of each command and the parsers.  The regular
    expressions are written out as the matches they have; text is ASCII. *)
From S2P Require Import Prelude PyValue PyString PyNum PyText Verdict.
Local Open Scope Z_scope.

(** * The schema *)

Inductive FieldKind := TEXT | NUMERIC | MARKER.
Record Field := mkField { name : string; log_label : string; kind : FieldKind }.

Definition transfer_fields : list Field :=
  [mkField "uri" "URI" TEXT; mkField "file" "File" TEXT; mkField "rate_mbps" "Rate" NUMERIC;
   mkField "block_size_bytes" "Block Size" NUMERIC; mkField "cache_time_sec" "Cache Time" NUMERIC; mkField "expiration_sec" "Expiration" NUMERIC].
Definition receive_fields : list Field :=
  [mkField "uri" "URI" TEXT; mkField "rx_frames_all" "Rx Frames (All)" NUMERIC;
   mkField "rx_frames_content" "Rx Frames (ContentObject)" NUMERIC; mkField "rx_bytes_all" "Rx Bytes (All)" NUMERIC;
   mkField "rx_bytes_content" "Rx Bytes (ContentObject)" NUMERIC; mkField "duration_sec" "Duration" NUMERIC;
   mkField "throughput_bps" "Throughput" NUMERIC; mkField "goodput_bps" "Goodput" NUMERIC; mkField "jitter_ave_us" "Jitter (Ave)" NUMERIC;
   mkField "jitter_max_us" "Jitter (Max)" NUMERIC; mkField "jitter_var_us" "Jitter (Var)" NUMERIC].

(** [COMMAND_SCHEMAS]: the fields of each command. *)
Definition COMMAND_SCHEMAS : list (string * list Field) :=
  [("cefputfile", transfer_fields ++
     [mkField "tx_frames" "Tx Frames" NUMERIC; mkField "tx_bytes" "Tx Bytes" NUMERIC; mkField "duration_sec" "Duration" NUMERIC;
      mkField "throughput_bps" "Throughput" NUMERIC]);
   ("cefgetfile", receive_fields);
   ("cefpubfile", transfer_fields ++
     [mkField "trigger_interest_sent" "Send Trigger Interest." MARKER;
      mkField "trigger_data_received" "Receive Trigger Data, finish application." MARKER]);
   ("cefsubfile", receive_fields)].

(** [LogRecordSchema.field_names] and [csv_columns]. *)
Definition field_names (fields : list Field) : list string := name <$> fields.
Definition csv_columns (fields : list Field) : list string := "timestamp" :: field_names fields ++ ["success"].

(** * Matching *)

(** [re.search]: the leftmost match. *)
Fixpoint search {A} (m : string → option A) (s : string) : option A :=
  match m s with
  | Some a => Some a
  | None => match s with String _ s => search m s | EmptyString => None end
  end.

(** [\[command\]\s+label]: what follows. A label starts with no space. *)
Definition spaces1 (s : string) : option string :=
  match s with String c _ => if is_space c then Some (lstrip s) else None | EmptyString => None end.
Definition match_label (command label s : string) : option string :=
  rest ← strip_prefix ("[" +s+ command +s+ "]") s;
  rest ← spaces1 rest;
  strip_prefix label rest.

Definition feed (c : ascii) : bool := bool_decide (c = line_feed).
(** [\s*=\s*(.+)]: the stripped capture and what follows the match. The spaces may
    run over line ends; when nothing but spaces is left, the capture is one of
    them, unless all are line feeds. *)
Definition captured (s : string) : option (string * string) :=
  match lstrip s with
  | EmptyString => if all_chars feed s then None else Some ("", "")
  | t => let '(group, rest) := span (λ c, negb (feed c)) t in Some (strip group, rest)
  end.
Definition match_value (s : string) : option (string * string) :=
  match lstrip s with
  | String c v => if bool_decide (c = Ascii.ascii_of_N 61) then captured v else None
  | EmptyString => None
  end.

(** [re.search(field.pattern(command), text)] for the two kinds of fields. *)
Definition search_marker (command label text : string) : bool := bool_decide (is_Some (search (match_label command label) text)).
Definition search_value (command label text : string) : option string :=
  search (λ s, rest ← match_label command label s; fst <$> match_value rest) text.

(** [_RE_TIMESTAMP.search]: the pattern is anchored at the start of the text. *)
Fixpoint digits (n : nat) (s : string) : option (string * string) :=
  match n, s with
  | O, _ => Some ("", s)
  | S n, String c s => if is_digit c then r ← digits n s; Some (String c r.1, r.2) else None
  | S _, EmptyString => None
  end.
Definition lit (p s : string) : option (string * string) := s ← strip_prefix p s; Some (p, s).
Definition spaces (s : string) : option (string * string) :=
  match span is_space s with (EmptyString, _) => None | r => Some r end.
Definition digits1 (s : string) : option (string * string) := match span is_digit s with (EmptyString, _) => None | r => Some r end.
Fixpoint sequence (ps : list (string → option (string * string))) (s : string) : option (string * string) :=
  match ps with
  | [] => Some ("", s)
  | p :: ps => r ← p s; r' ← sequence ps r.2; Some (r.1 +s+ r'.1, r'.2)
  end.
Definition extract_timestamp (text : string) : option string :=
  r ← sequence [digits 4; lit "-"; digits 2; lit "-"; digits 2; spaces; digits 2; lit ":"; digits 2; lit ":"; digits 2; lit "."; digits1] text;
  rest ← spaces1 r.2;
  _ ← strip_prefix "[cef" rest;
  Some r.1.

(** * Values *)

(** [_parse_numeric]. *)
Definition parse_numeric (raw : string) : res pv :=
  match int_of_string raw with
  | Some z => Ok (PInt z)
  | None => PFloat <$> py_float (PStr raw)
  end.

(** [_strip_unit]: the unit is the last word of the stripped text. *)
Definition UNITS : list string := ["Mbps"; "Bytes"; "bytes"; "sec"; "bps"; "us"].
Definition without_unit (unit raw : string) : option string :=
  t ← strip_suffix unit raw;
  if bool_decide (rstrip t = t) then None else Some (rstrip t).
Fixpoint strip_units (units : list string) (raw : string) : string :=
  match units with
  | [] => raw
  | unit :: units => match without_unit unit raw with Some t => t | None => strip_units units raw end
  end.
Definition strip_unit (raw : string) : string := strip_units UNITS (strip raw).

(** * Parsers *)

Definition opt_str (o : option string) : pv := match o with Some s => PStr s | None => PNone end.
Definition opt_bool (o : option bool) : pv := match o with Some b => PBool b | None => PNone end.

Definition field_value (command text : string) (field : Field) : res pv :=
  match kind field with
  | MARKER => Ok (PBool (search_marker command (log_label field) text))
  | TEXT => Ok (opt_str (search_value command (log_label field) text))
  | NUMERIC => match search_value command (log_label field) text with
               | Some raw => parse_numeric (strip_unit raw)
               | None => Ok PNone
               end
  end.
Definition add_field (command text : string) (record : pydict) (field : Field) : res pydict :=
  v ← field_value command text field;
  Ok (dset record (PStr (name field)) v).

(** [_parse_schema_fields]. *)
Definition schema_of (command : string) : option (list Field) := snd <$> List.find (λ kv, bool_decide (kv.1 = command)) COMMAND_SCHEMAS.
Definition parse_schema_fields (text command : string) : res pydict :=
  match schema_of command with
  | Some fields => foldM (add_field command text) [(PStr "timestamp", opt_str (extract_timestamp text))] fields
  | None => raise EKeyError command
  end.

Definition set_success (record : pydict) (command text : string) (fields_present : option bool) : pydict :=
  dset record (PStr "success") (opt_bool (success (from_log command text fields_present))).

Definition is_none (v : pv) : bool := match v with PNone => true | _ => false end.
Definition any_field (record : pydict) : bool :=
  existsb (λ kv, negb (is_none kv.2) && negb (key_eq kv.1 (PStr "timestamp") || key_eq kv.1 (PStr "success"))) record.
Definition parse_cefputfile (text : string) : res pydict :=
  record ← parse_schema_fields text "cefputfile";
  Ok (set_success record "cefputfile" text (Some (any_field record))).
Definition parse_cefgetfile (text : string) : res pydict :=
  record ← parse_schema_fields text "cefgetfile";
  Ok (set_success record "cefgetfile" text None).

(** The generic pattern: the command, the label and the stripped capture, and what
    follows the match. The label is as short as its second character and the sign
    allow. *)
Definition is_letter (c : ascii) : bool := let n := code c in ((65 <=? n) && (n <=? 90) || (97 <=? n) && (n <=? 122))%N.
Definition label_char (c : ascii) : bool := is_letter c || is_digit c || existsb (λ n, (code c =? n)%N) [32; 40; 41]%N.
Definition match_generic (s : string) : option (string * string * string * string) :=
  rest ← strip_prefix "[cef" s;
  let '(which, rest) := match strip_prefix "pub" rest, strip_prefix "sub" rest with
                        | Some r, _ => (Some "cefpubfile", r) | None, Some r => (Some "cefsubfile", r) | None, None => (None, rest) end in
  command ← which;
  rest ← strip_prefix "file]" rest;
  rest ← spaces1 rest;
  match rest with
  | String c rest =>
      if is_letter c then
        let '(run, rest) := span label_char rest in
        let label := match rstrip run, run with EmptyString, String d _ => Some (String d "") | EmptyString, EmptyString => None | r, _ => Some r end in
        label ← label;
        vr ← match_value rest;
        Some (command, String c label, vr.1, vr.2)
      else None
  | EmptyString => None
  end.

(** [finditer]; a match is not empty, so the length of the text is fuel enough. *)
Fixpoint find_all (fuel : nat) (s : string) : list (string * string * string) :=
  match fuel with
  | O => []
  | S fuel =>
      match match_generic s with
      | Some (command, label, raw, rest) => (command, label, raw) :: find_all fuel rest
      | None => match s with String _ s => find_all fuel s | EmptyString => [] end
      end
  end.
Definition generic_matches (text : string) : list (string * string * string) := find_all (S (String.length text)) text.

(** [_normalise_key]. *)
Fixpoint squeeze (in_space : bool) (s : string) : string :=
  match s with
  | EmptyString => ""
  | String c s => if is_space c then (if in_space then squeeze true s else String (Ascii.ascii_of_N 95) (squeeze true s)) else String c (squeeze false s)
  end.
Definition normalise_key (raw : string) : string := replace (replace (squeeze false (lower (strip raw))) "(" "") ")" "".

Definition add_unknown (command : string) (fields : list Field) (record : pydict) (m : string * string * string) : pydict :=
  let '(cmd, label, raw) := m in
  if negb (bool_decide (cmd = command)) then record
  else if bool_decide (label ∈ log_label <$> fields) then record
  else dset record (PStr (normalise_key label)) (match parse_numeric (strip_unit raw) with Ok v => v | _ => PStr raw end).

(** [_parse_pubsub]. *)
Definition parse_pubsub (text command : string) : res pydict :=
  record ← parse_schema_fields text command;
  let record := foldl (add_unknown command (default [] (schema_of command))) record (generic_matches text) in
  Ok (set_success record command text None).

(** [PARSERS]. *)
Definition parse_log (command text : string) : option (res pydict) :=
  if bool_decide (command = "cefputfile") then Some (parse_cefputfile text)
  else if bool_decide (command = "cefgetfile") then Some (parse_cefgetfile text)
  else if bool_decide (command ∈ ["cefpubfile"; "cefsubfile"]) then Some (parse_pubsub text command)
  else None.

(** * Examples *)

Definition demo_log : string := unlines
  ["2026-07-07 10:00:00.123 [cefputfile] Start"; "2026-07-07 10:00:00.200 [cefputfile] URI         = ccnx:/test";
   "[cefputfile] Rate        = 5.000 Mbps"; "[cefputfile] Tx Frames = 12"; "[cefputfile] Duration = 0.5 sec "].
Example put_ex : (λ r, (get_none r "timestamp", get_none r "uri", get_none r "tx_frames", get_none r "file", get_none r "success"))
    <$> parse_cefputfile demo_log =
  Ok (PStr "2026-07-07 10:00:00.123", PStr "ccnx:/test", PInt 12, PNone, PBool true).
Proof. vm_compute. reflexivity. Qed.
Example unit_ex : strip_unit <$> [" 5.000 Mbps "; "12 Bytes"; "Mbps"; "3us"; "1 sec bps"] = ["5.000"; "12"; "Mbps"; "3us"; "1 sec"].
Proof. vm_compute. reflexivity. Qed.
Example unknown_ex : generic_matches ("[cefsubfile] Foo (X)  = 3 sec" +s+ String line_feed "[cefpubfile] A = b") =
  [("cefsubfile", "Foo (X)", "3 sec"); ("cefpubfile", "A ", "b")].
Proof. vm_compute. reflexivity. Qed.
Example key_ex : normalise_key "Rx  Frames (All)" = "rx_frames_all".
Proof. vm_compute. reflexivity. Qed.
(** A statistics line cut off after its sign ends the parse with ValueError; when
    another line follows, that line is taken for the value. *)
Example cut_off : parse_cefgetfile "[cefgetfile] Duration = " = raise EValueError "could not convert string to float: ''".
Proof. vm_compute. reflexivity. Qed.
Example swallowed : search_value "cefgetfile" "URI" (unlines ["[cefgetfile] URI ="; "[cefgetfile] Duration = 1 sec"]) = Some "[cefgetfile] Duration = 1 sec".
Proof. vm_compute. reflexivity. Qed.

(** * Reading line by line *)

Lemma search_Some {A} (m : string → option A) s a : m s = Some a → search m s = Some a.
Proof. intros E. destruct s; simpl in *; by rewrite E. Qed.

Definition no_feed (s : string) : bool := all_chars (λ c, negb (feed c)) s.

Lemma no_feed_cons c s : no_feed (String c s) = true → c ≠ line_feed ∧ no_feed s = true.
Proof.
  unfold no_feed, feed. simpl. intros [Hc Hs]%andb_prop. split; [|done]. intros ->. by rewrite bool_decide_eq_true_2 in Hc.
Qed.

Lemma strip_prefix_feed p s t : no_feed p = true → strip_prefix p (s +s+ String line_feed t) = (λ u, u +s+ String line_feed t) <$> strip_prefix p s.
Proof.
  revert s. induction p as [|c p IH]; intros [|d s] Hp; [done|done| |].
  - apply no_feed_cons in Hp as [Hc Hp]. change ("" +s+ ?x) with x. simpl. by rewrite decide_False by done.
  - apply no_feed_cons in Hp as [Hc Hp]. change (String d s +s+ ?x) with (String d (s +s+ x)). simpl. destruct (decide (c = d)); [by apply IH|done].
Qed.

Lemma lstrip_line s t : lstrip (s +s+ String line_feed t) = if bool_decide (lstrip s = "") then lstrip t else lstrip s +s+ String line_feed t.
Proof.
  induction s as [|c s IH]; [reflexivity|]. change (String c s +s+ ?x) with (String c (s +s+ x)). simpl. by destruct (is_space c).
Qed.

Lemma spaces1_line s t : lstrip s ≠ "" → spaces1 (s +s+ String line_feed t) = (λ u, u +s+ String line_feed t) <$> spaces1 s.
Proof.
  destruct s as [|c s]; [done|]. intros Hs. change (String c s +s+ ?x) with (String c (s +s+ x)). unfold spaces1. destruct (is_space c) eqn:Hc; [|done].
  change (String c (s +s+ String line_feed t)) with (String c s +s+ String line_feed t). rewrite lstrip_line, bool_decide_eq_false_2 by done. done.
Qed.

(** What a line leaves open: the command, the label or the sign ends it. *)
Definition blank (s : string) : bool := bool_decide (lstrip s = "").
Definition open_value (label s : string) : bool :=
  match strip_prefix label s with
  | Some rest => blank rest || match lstrip rest with String c v => bool_decide (c = Ascii.ascii_of_N 61) && blank v | EmptyString => true end
  | None => false
  end.
Definition open_at (command label s : string) : bool :=
  match strip_prefix ("[" +s+ command +s+ "]") s with
  | Some rest => blank rest || match spaces1 rest with Some rest => open_value label rest | None => false end
  | None => false
  end.
Fixpoint dangling (command label s : string) : bool :=
  open_at command label s || match s with String _ s => dangling command label s | EmptyString => false end.

(** The pattern of a field. *)
Definition match_field (command label s : string) : option string := rest ← match_label command label s; fst <$> match_value rest.

Lemma captured_line s t : no_feed s = true → lstrip s ≠ "" → fst <$> captured (s +s+ String line_feed t) = fst <$> captured s.
Proof.
  intros Hs Hne. unfold captured. rewrite lstrip_line, bool_decide_eq_false_2 by done. assert (Hl : no_feed (lstrip s) = true).
  { clear Hne. induction s as [|c s IH]; [done|]. pose proof Hs as Hs'. apply no_feed_cons in Hs' as [_ Hs']. simpl. destruct (is_space c); [by apply IH|done]. }
  assert (Hspan : ∀ u, no_feed u = true → span (λ c, negb (feed c)) (u +s+ String line_feed t) = (u, String line_feed t) ∧ span (λ c, negb (feed c)) u = (u, "")).
  { clear. intros u. induction u as [|c u IH]; [done|]. intros Hu. unfold no_feed in Hu. simpl in Hu. apply andb_prop in Hu as [Hc Hu].
    change (String c u +s+ ?x) with (String c (u +s+ x)). simpl. destruct (IH Hu) as [E1 E2]. by rewrite Hc, E1, E2. }
  destruct (lstrip s) as [|c u] eqn:E; [done|]. destruct (Hspan (String c u) Hl) as [E1 E2].
  change (String c u +s+ String line_feed t) with (String c (u +s+ String line_feed t)) in E1 |- *. cbv beta iota. by rewrite E1, E2.
Qed.

Lemma no_feed_suffix a b : no_feed (a +s+ b) = true → no_feed b = true.
Proof. unfold no_feed. rewrite all_chars_append. by intros [_ ?]%andb_prop. Qed.

Lemma lstrip_suffix s : ∃ a, s = a +s+ lstrip s.
Proof.
  induction s as [|c s [a IH]]; [by exists ""|]. simpl. destruct (is_space c); [|by exists ""]. exists (String c a).
  change (String c a +s+ ?x) with (String c (a +s+ x)). by rewrite <- IH.
Qed.

Lemma spaces1_suffix s u : spaces1 s = Some u → u = lstrip s.
Proof. destruct s as [|c s]; [done|]. simpl. destruct (is_space c); [|done]. by intros [= <-]. Qed.

Lemma match_field_line command label s t : no_feed command = true → no_feed label = true → no_feed s = true → open_at command label s = false →
  match_field command label (s +s+ String line_feed t) = match_field command label s ∧
  match_label command label (s +s+ String line_feed t) = (λ u, u +s+ String line_feed t) <$> match_label command label s.
Proof.
  intros Hc Hl Hs Ho. unfold match_field, match_label. rewrite strip_prefix_feed by (unfold no_feed in *; by rewrite !all_chars_append, Hc).
  unfold open_at in Ho. destruct (strip_prefix ("[" +s+ command +s+ "]") s) as [rest|] eqn:E; [|done]. simpl. apply orb_false_iff in Ho as [Hb Ho].
  apply bool_decide_eq_false in Hb. rewrite spaces1_line by done. destruct (spaces1 rest) as [u|] eqn:Eu; [|done]. simpl.
  rewrite strip_prefix_feed by done. unfold open_value in Ho. destruct (strip_prefix label u) as [w|] eqn:Ew; [|done]. simpl. split; [|done].
  apply orb_false_iff in Ho as [Hw Ho]. apply bool_decide_eq_false in Hw. unfold match_value. rewrite lstrip_line, bool_decide_eq_false_2 by done.
  destruct (lstrip w) as [|c v] eqn:Ev; [done|]. change (String c v +s+ ?x) with (String c (v +s+ x)). cbv beta iota.
  destruct (bool_decide (c = Ascii.ascii_of_N 61)); [|done]. cbn [andb] in Ho. apply bool_decide_eq_false in Ho. apply captured_line; [|done].
  apply strip_prefix_Some in E. apply spaces1_suffix in Eu. apply strip_prefix_Some in Ew. destruct (lstrip_suffix rest) as [a Ha]. destruct (lstrip_suffix w) as [b Hb2].
  rewrite Ev in Hb2. rewrite E in Hs. apply no_feed_suffix in Hs. rewrite Ha in Hs. apply no_feed_suffix in Hs. rewrite <- Eu, Ew in Hs. apply no_feed_suffix in Hs.
  rewrite Hb2 in Hs. apply no_feed_suffix in Hs. by apply no_feed_cons in Hs as [_ Hs].
Qed.

(** Searching a text is searching its lines in order, when none is left open. *)
Definition first_some {A B} (f : A → option B) (xs : list A) : option B := head (omap f xs).

Lemma first_some_cons {A B} (f : A → option B) x xs : first_some f (x :: xs) = match f x with Some b => Some b | None => first_some f xs end.
Proof. unfold first_some. simpl. by destruct (f x). Qed.

Lemma search_line {A B} (m : string → option A) (f : A → B) l rest : m "" = None →
  (∀ a t, l = a +s+ t → f <$> m (t +s+ String line_feed rest) = f <$> m t) →
  f <$> search m (l +s+ String line_feed rest) = match f <$> search m l with Some b => Some b | None => f <$> search m rest end.
Proof.
  intros H0. induction l as [|c l IH]; intros Hm.
  - change ("" +s+ ?x) with x. pose proof (Hm "" "" eq_refl) as E. change ("" +s+ ?x) with x in E. rewrite H0 in E. simpl in E |- *.
    rewrite H0. simpl. destruct (m (String line_feed rest)); [discriminate E|done].
  - pose proof (Hm "" (String c l) eq_refl) as E. change (String c l +s+ ?x) with (String c (l +s+ x)) in E |- *. simpl.
    destruct (m (String c (l +s+ String line_feed rest))), (m (String c l)); simpl in E; try done.
    apply IH. intros a t ->. by apply (Hm (String c a) t).
Qed.

Lemma open_at_suffix command label l a t : dangling command label l = false → l = a +s+ t → open_at command label t = false.
Proof.
  revert l. induction a as [|c a IH]; intros l Hd ->.
  - change ("" +s+ t) with t in Hd. destruct t; [done|]. cbn [dangling] in Hd. by apply orb_false_iff in Hd as [? _].
  - change (String c a +s+ t) with (String c (a +s+ t)) in Hd. cbn [dangling] in Hd. apply orb_false_iff in Hd as [_ Hd]. by apply (IH (a +s+ t)).
Qed.

Lemma match_field_empty command label : match_field command label "" = None ∧ match_label command label "" = None.
Proof. by split. Qed.

(** The value of a field is read on the first line that has one. *)
Lemma search_value_lines command label ls : no_feed command = true → no_feed label = true →
  Forall (λ l, no_feed l = true ∧ dangling command label l = false) ls →
  search_value command label (unlines ls) = first_some (search (match_field command label)) ls.
Proof.
  intros Hc Hl Hls. unfold search_value. fold (match_field command label). induction Hls as [|l ls [Hf Hd] _ IH]; [done|].
  rewrite first_some_cons, <- IH. simpl unlines. pose proof (search_line (match_field command label) id l (unlines ls)) as Hs.
  rewrite !option_fmap_id in Hs. apply Hs; [by apply match_field_empty|]. intros a t E. rewrite !option_fmap_id.
  apply match_field_line; [done..| |by eapply open_at_suffix]. rewrite E in Hf. by apply no_feed_suffix in Hf.
Qed.

(** For a marker, only the command can be left open. *)
Definition open_head (command s : string) : bool :=
  match strip_prefix ("[" +s+ command +s+ "]") s with Some rest => blank rest | None => false end.
Fixpoint dangling_head (command s : string) : bool :=
  open_head command s || match s with String _ s => dangling_head command s | EmptyString => false end.

Lemma open_head_suffix command l a t : dangling_head command l = false → l = a +s+ t → open_head command t = false.
Proof.
  revert l. induction a as [|c a IH]; intros l Hd ->.
  - change ("" +s+ t) with t in Hd. destruct t; [done|]. cbn [dangling_head] in Hd. by apply orb_false_iff in Hd as [? _].
  - change (String c a +s+ t) with (String c (a +s+ t)) in Hd. cbn [dangling_head] in Hd. apply orb_false_iff in Hd as [_ Hd]. by apply (IH (a +s+ t)).
Qed.

Lemma match_label_line command label s t : no_feed command = true → no_feed label = true → open_head command s = false →
  match_label command label (s +s+ String line_feed t) = (λ u, u +s+ String line_feed t) <$> match_label command label s.
Proof.
  intros Hc Hl Ho. unfold match_label. rewrite strip_prefix_feed by (unfold no_feed in *; by rewrite !all_chars_append, Hc).
  unfold open_head in Ho. destruct (strip_prefix ("[" +s+ command +s+ "]") s) as [rest|] eqn:E; [|done]. simpl. apply bool_decide_eq_false in Ho.
  rewrite spaces1_line by done. destruct (spaces1 rest) as [u|] eqn:Eu; [|done]. simpl. by rewrite strip_prefix_feed.
Qed.

Lemma search_marker_lines command label ls : no_feed command = true → no_feed label = true →
  Forall (λ l, dangling_head command l = false) ls →
  search_marker command label (unlines ls) = existsb (search_marker command label) ls.
Proof.
  intros Hc Hl Hls. induction Hls as [|l ls Hd _ IH]; [done|]. simpl. rewrite <- IH. unfold search_marker.
  pose proof (search_line (match_label command label) (λ _, ()) l (unlines ls)) as Hs.
  assert (Hi : ∀ s, bool_decide (is_Some (search (match_label command label) s)) = bool_decide (is_Some ((λ _, ()) <$> search (match_label command label) s))).
  { intros s. apply bool_decide_ext. by rewrite fmap_is_Some. }
  rewrite !Hi, Hs; [by destruct (search _ l), (search _ (unlines ls))|by apply match_field_empty|].
  intros a t E. rewrite match_label_line by (try done; by eapply open_head_suffix). by destruct (match_label command label t).
Qed.

(** * Printed lines *)

(** A line of a tool: a field with its value, a marker, or anything else; the
    prefix is the time. *)
Inductive item :=
  | Entry (prefix : string) (field : Field) (raw : string)
  | Mark (prefix : string) (field : Field)
  | Noise (line : string).

Definition tag (command : string) : string := "[" +s+ command +s+ "] ".
Definition line_of (command : string) (i : item) : string :=
  match i with
  | Entry prefix f raw => prefix +s+ tag command +s+ log_label f +s+ " = " +s+ raw
  | Mark prefix f => prefix +s+ tag command +s+ log_label f
  | Noise line => line
  end.

(** Text inside a line, without brackets. *)
Definition bracket : ascii := Ascii.ascii_of_N 91.
Definition plain_text (s : string) : bool := all_chars (λ c, negb (feed c) && negb (bool_decide (c = bracket))) s.
(** A line that is not read by any pattern of the command. *)
Definition quiet (command : string) (fields : list Field) (line : string) : Prop :=
  no_feed line = true ∧ dangling_head command line = false ∧
  ∀ f, f ∈ fields → dangling command (log_label f) line = false ∧ search (match_label command (log_label f)) line = None.

Definition item_ok (command : string) (fields : list Field) (i : item) : Prop :=
  match i with
  | Entry prefix f raw => f ∈ fields ∧ kind f ≠ MARKER ∧ plain_text prefix = true ∧ plain_text raw = true ∧ trimmed raw
  | Mark prefix f => f ∈ fields ∧ kind f = MARKER ∧ plain_text prefix = true
  | Noise line => quiet command fields line
  end.

#[export] Instance field_kind_eq_dec : EqDecision FieldKind.
Proof. solve_decision. Defined.
#[export] Instance field_eq_dec : EqDecision Field.
Proof. solve_decision. Defined.

(** Two labels that differ before either ends. *)
Fixpoint apart (a b : string) : bool :=
  match a, b with
  | String c a, String d b => if decide (c = d) then apart a b else true
  | _, _ => false
  end.
Definition good_label (l : string) : bool := plain_text l && bool_decide (lstrip l = l) && negb (bool_decide (l = "")).
Definition good_schema (command : string) (fields : list Field) : bool :=
  plain_text command && forallb (λ f, good_label (log_label f) &&
    forallb (λ g, bool_decide (f = g) || apart (log_label f) (log_label g)) fields) fields.

Lemma apart_prefix a b s : apart a b = true → strip_prefix a (b +s+ s) = None.
Proof.
  revert b. induction a as [|c a IH]; intros [|d b] Ha; [done..|]. simpl in Ha. change (String d b +s+ s) with (String d (b +s+ s)). simpl.
  destruct (decide (c = d)); [by apply IH|done].
Qed.

Lemma plain_cons c s : plain_text (String c s) = true → c ≠ line_feed ∧ c ≠ bracket ∧ plain_text s = true.
Proof.
  unfold plain_text, feed. cbn [all_chars]. intros [[Hf%negb_true_iff Hb%negb_true_iff]%andb_prop Hs]%andb_prop.
  apply bool_decide_eq_false in Hf, Hb. done.
Qed.

Lemma plain_app a b : plain_text (a +s+ b) = plain_text a && plain_text b.
Proof. apply all_chars_append. Qed.

Lemma plain_no_feed s : plain_text s = true → no_feed s = true.
Proof. apply all_chars_weaken. by intros c [? _]%andb_prop. Qed.

(** A pattern that starts with a bracket. *)
Definition bracketed {A} (m : string → option A) : Prop := m "" = None ∧ ∀ c s, c ≠ bracket → m (String c s) = None.

Lemma match_label_bracketed command label : bracketed (match_label command label).
Proof.
  split; [done|]. intros c s Hc. unfold match_label. change ("[" +s+ command +s+ "]") with (String bracket (command +s+ "]")). cbn [strip_prefix].
  rewrite decide_False by done. done.
Qed.
Lemma match_field_bracketed command label : bracketed (match_field command label).
Proof. destruct (match_label_bracketed command label) as [H1 H2]. split; [done|]. intros c s Hc. unfold match_field. by rewrite H2. Qed.
Definition opened (o : bool) : option () := if o then Some () else None.
Lemma open_at_bracketed command label : bracketed (λ s, opened (open_at command label s)).
Proof.
  split; [done|]. intros c s Hc. unfold open_at. change ("[" +s+ command +s+ "]") with (String bracket (command +s+ "]")). cbn [strip_prefix].
  rewrite decide_False by done. done.
Qed.
Lemma open_head_bracketed command : bracketed (λ s, opened (open_head command s)).
Proof.
  split; [done|]. intros c s Hc. unfold open_head. change ("[" +s+ command +s+ "]") with (String bracket (command +s+ "]")). cbn [strip_prefix].
  rewrite decide_False by done. done.
Qed.

Lemma search_plain {A} (m : string → option A) s : bracketed m → plain_text s = true → search m s = None.
Proof.
  intros [H0 Hm]. induction s as [|c s IH]; intros Hs; simpl; [by rewrite H0|]. apply plain_cons in Hs as (_ & Hc & Hs). rewrite Hm by done. by apply IH.
Qed.
Lemma search_prefix {A} (m : string → option A) p s : bracketed m → plain_text p = true → search m (p +s+ s) = search m s.
Proof.
  intros [H0 Hm]. induction p as [|c p IH]; intros Hp; [done|]. apply plain_cons in Hp as (_ & Hc & Hp). change (String c p +s+ s) with (String c (p +s+ s)).
  simpl. rewrite Hm by done. by apply IH.
Qed.

(** The pattern is tried at the tag only. *)
Lemma search_tag {A} (m : string → option A) p command body : bracketed m → plain_text p = true → plain_text command = true → plain_text body = true →
  search m (p +s+ tag command +s+ body) = m (tag command +s+ body).
Proof.
  intros Hm Hp Hc Hb. rewrite search_prefix by done. unfold tag. change (("[" +s+ command +s+ "] ") +s+ body) with (String bracket ((command +s+ "] ") +s+ body)).
  simpl. destruct (m _); [done|]. apply search_plain; [done|]. by rewrite !plain_app, Hc, Hb.
Qed.

Lemma search_dangling command label s : dangling command label s = bool_decide (is_Some (search (λ s, opened (open_at command label s)) s)).
Proof.
  induction s as [|c s IH]; [done|]. cbn [dangling search]. destruct (open_at command label (String c s)); [done|]. simpl. exact IH.
Qed.
Lemma search_dangling_head command s : dangling_head command s = bool_decide (is_Some (search (λ s, opened (open_head command s)) s)).
Proof.
  induction s as [|c s IH]; [done|]. cbn [dangling_head search]. destruct (open_head command (String c s)); [done|]. simpl. exact IH.
Qed.

Lemma tag_eq command body : tag command +s+ body = ("[" +s+ command +s+ "]") +s+ " " +s+ body.
Proof. unfold tag. rewrite !string_app_assoc. done. Qed.

Lemma match_label_tag command label body : lstrip body = body → match_label command label (tag command +s+ body) = strip_prefix label body.
Proof.
  intros Hb. unfold match_label. rewrite tag_eq, strip_prefix_app. cbn [mbind option_bind].
  change (" " +s+ body) with (String (Ascii.ascii_of_N 32) body). unfold spaces1. change (is_space (Ascii.ascii_of_N 32)) with true. cbn [lstrip]. change (is_space (Ascii.ascii_of_N 32)) with true.
  cbv beta iota. by rewrite Hb.
Qed.

Lemma open_tag command label body : lstrip body = body → body ≠ "" →
  open_at command label (tag command +s+ body) = open_value label body ∧ open_head command (tag command +s+ body) = false.
Proof.
  intros Hb Hne. unfold open_at, open_head. rewrite tag_eq, strip_prefix_app. change (" " +s+ body) with (String (Ascii.ascii_of_N 32) body).
  assert (Hl : lstrip (String (Ascii.ascii_of_N 32) body) = body) by (rewrite <- Hb at 2; reflexivity).
  unfold blank. rewrite Hl, bool_decide_eq_false_2 by done. split; [|done]. cbn [orb]. unfold spaces1. change (is_space (Ascii.ascii_of_N 32)) with true. cbv beta iota. by rewrite Hl.
Qed.

(** * What a printed line says *)

Section fields.
Context (command : string) (fields : list Field).
Context (Hgood : good_schema command fields = true).

Lemma good_command : plain_text command = true.
Proof. unfold good_schema in Hgood. by apply andb_prop in Hgood as [? _]. Qed.

Lemma good_fields f : f ∈ fields → plain_text (log_label f) = true ∧ lstrip (log_label f) = log_label f ∧ log_label f ≠ "" ∧
  ∀ g, g ∈ fields → f = g ∨ apart (log_label f) (log_label g) = true.
Proof.
  intros Hf. unfold good_schema in Hgood. apply andb_prop in Hgood as [_ H]. rewrite List.forallb_forall in H.
  specialize (H f (proj1 (list_elem_of_In _ _) Hf)). apply andb_prop in H as [Hl H]. unfold good_label in Hl.
  apply andb_prop in Hl as [[Hp Hs%bool_decide_eq_true]%andb_prop Hn%negb_true_iff%bool_decide_eq_false]. split_and!; [done..|].
  intros g Hg. rewrite List.forallb_forall in H. specialize (H g (proj1 (list_elem_of_In _ _) Hg)). apply orb_prop in H as [H|H]; [left|by right].
  by apply bool_decide_eq_true in H.
Qed.

Lemma label_body f s : f ∈ fields → lstrip (log_label f +s+ s) = log_label f +s+ s ∧ log_label f +s+ s ≠ "".
Proof.
  intros (_ & Hl & Hne & _)%good_fields. destruct (log_label f) as [|c l]; [done|]. change (String c l +s+ s) with (String c (l +s+ s)). split; [|done].
  simpl in Hl |- *. destruct (is_space c); [|done]. exfalso. destruct (lstrip_suffix l) as [a Ha]. rewrite Hl in Ha. apply (f_equal String.length) in Ha.
  rewrite string_length_app in Ha. simpl in Ha. lia.
Qed.

Definition says (f : Field) (i : item) : option string :=
  match i with Entry _ g raw => if decide (f = g) then Some raw else None | _ => None end.
Definition marks (f : Field) (i : item) : bool := match i with Mark _ g => bool_decide (f = g) | _ => false end.

Lemma captured_raw raw : plain_text raw = true → trimmed raw → captured (" " +s+ raw) = Some (raw, "").
Proof.
  intros Hp [Hs Hne]. destruct (rstrip_lstrip raw (conj Hs Hne)) as [Hl _]. unfold captured. change (" " +s+ raw) with (String (Ascii.ascii_of_N 32) raw).
  assert (Hl' : lstrip (String (Ascii.ascii_of_N 32) raw) = raw) by (rewrite <- Hl at 2; reflexivity). rewrite Hl'.
  assert (Hspan : span (λ c, negb (feed c)) raw = (raw, "")).
  { clear - Hp. induction raw as [|c s IH]; [done|]. cbn [span]. pose proof (plain_cons c s Hp) as (Hc & _ & Hps). unfold feed at 1. rewrite bool_decide_eq_false_2 by done.
    cbn [negb]. by rewrite IH. }
  destruct raw as [|c s]; [done|]. cbv beta iota. rewrite Hspan. by rewrite Hs.
Qed.

Lemma match_value_raw raw : plain_text raw = true → trimmed raw → match_value (" = " +s+ raw) = Some (raw, "").
Proof.
  intros Hp Ht. change (" = " +s+ raw) with (String (Ascii.ascii_of_N 32) (String (Ascii.ascii_of_N 61) (" " +s+ raw))). exact (captured_raw raw Hp Ht).
Qed.

Lemma entry_line p g raw f : f ∈ fields → item_ok command fields (Entry p g raw) →
  search (match_label command (log_label f)) (line_of command (Entry p g raw)) = (if decide (f = g) then Some (" = " +s+ raw) else None) ∧
  search (match_field command (log_label f)) (line_of command (Entry p g raw)) = says f (Entry p g raw) ∧
  dangling command (log_label f) (line_of command (Entry p g raw)) = false ∧ dangling_head command (line_of command (Entry p g raw)) = false.
Proof.
  intros Hf (Hg & _ & Hp & Hr & Ht). pose proof good_command as Hc. destruct (label_body g (" = " +s+ raw) Hg) as [Hb Hne].
  destruct (good_fields g Hg) as (Hpl & _). assert (Hpb : plain_text (log_label g +s+ " = " +s+ raw) = true) by (rewrite !plain_app, Hpl, Hr; done).
  assert (Hm : strip_prefix (log_label f) (log_label g +s+ " = " +s+ raw) = if decide (f = g) then Some (" = " +s+ raw) else None).
  { case_decide as E; [subst f; apply strip_prefix_app|]. destruct (good_fields f Hf) as (_ & _ & _ & Ha). destruct (Ha g Hg) as [?|Ha2]; [done|]. by apply apart_prefix. }
  cbn [line_of]. split_and!.
  - rewrite search_tag by (try done; apply match_label_bracketed). rewrite match_label_tag by done. exact Hm.
  - rewrite search_tag by (try done; apply match_field_bracketed). unfold match_field. rewrite match_label_tag, Hm by done. cbn [says]. case_decide; [|done].
    cbn [mbind option_bind]. by rewrite match_value_raw.
  - rewrite search_dangling, search_tag by (try done; apply open_at_bracketed). destruct (open_tag command (log_label f) _ Hb Hne) as [-> _].
    unfold open_value. rewrite Hm. case_decide; [|done]. destruct Ht as [Hs Hn]. destruct (rstrip_lstrip raw (conj Hs Hn)) as [Hl _].
    change (" = " +s+ raw) with (String (Ascii.ascii_of_N 32) (String (Ascii.ascii_of_N 61) (String (Ascii.ascii_of_N 32) raw))).
    assert (Hl' : blank (String (Ascii.ascii_of_N 32) raw) = false).
    { apply bool_decide_eq_false_2. change (lstrip (String (Ascii.ascii_of_N 32) raw)) with (lstrip raw). by rewrite Hl. }
    change (lstrip (String (Ascii.ascii_of_N 32) (String (Ascii.ascii_of_N 61) ?x))) with (String (Ascii.ascii_of_N 61) x). cbv beta iota. rewrite Hl', andb_false_r. done.
  - rewrite search_dangling_head, search_tag by (try done; apply open_head_bracketed). by destruct (open_tag command "" _ Hb Hne) as [_ ->].
Qed.

Lemma mark_line p g f : f ∈ fields → item_ok command fields (Mark p g) →
  search_marker command (log_label f) (line_of command (Mark p g)) = bool_decide (f = g) ∧
  (f ≠ g → search (match_field command (log_label f)) (line_of command (Mark p g)) = None ∧ dangling command (log_label f) (line_of command (Mark p g)) = false) ∧
  dangling_head command (line_of command (Mark p g)) = false.
Proof.
  intros Hf (Hg & _ & Hp). pose proof good_command as Hc. destruct (label_body g "" Hg) as [Hb Hne]. rewrite string_app_nil_r in Hb, Hne.
  destruct (good_fields g Hg) as (Hpl & _).
  assert (Hm : f ≠ g → strip_prefix (log_label f) (log_label g) = None).
  { intros E. destruct (good_fields f Hf) as (_ & _ & _ & Ha). destruct (Ha g Hg) as [?|Ha2]; [done|]. rewrite <- (string_app_nil_r (log_label g)). by apply apart_prefix. }
  cbn [line_of]. split_and!.
  - unfold search_marker. rewrite search_tag by (try done; apply match_label_bracketed). rewrite match_label_tag by done. destruct (decide (f = g)) as [->|E].
    + rewrite !bool_decide_eq_true_2; [done|done|]. rewrite <- (string_app_nil_r (log_label g)) at 2. rewrite strip_prefix_app. by eexists.
    + rewrite Hm by done. rewrite !bool_decide_eq_false_2; [done|done|by intros [? ?]].
  - intros E. split.
    + rewrite search_tag by (try done; apply match_field_bracketed). unfold match_field. by rewrite match_label_tag, Hm by done.
    + rewrite search_dangling, search_tag by (try done; apply open_at_bracketed). destruct (open_tag command (log_label f) _ Hb Hne) as [-> _].
      unfold open_value. by rewrite Hm.
  - rewrite search_dangling_head, search_tag by (try done; apply open_head_bracketed). by destruct (open_tag command "" _ Hb Hne) as [_ ->].
Qed.

Lemma noise_value f line : search (match_label command (log_label f)) line = None → search (match_field command (log_label f)) line = None.
Proof.
  induction line as [|c s IH]; [done|]. cbn [search]. intros H. destruct (match_label command (log_label f) (String c s)) eqn:E; [done|].
  unfold match_field at 1. rewrite E. cbn [mbind option_bind]. by apply IH.
Qed.

Lemma line_no_feed i : item_ok command fields i → no_feed (line_of command i) = true.
Proof.
  pose proof (plain_no_feed _ good_command) as Hc. destruct i as [p g raw|p g|l]; cbn [line_of item_ok].
  - intros (Hg & _ & Hp%plain_no_feed & Hr%plain_no_feed & _). destruct (good_fields g Hg) as (Hl%plain_no_feed & _). unfold tag, no_feed in *. rewrite !all_chars_append, Hc, Hp, Hr, Hl. done.
  - intros (Hg & _ & Hp%plain_no_feed). destruct (good_fields g Hg) as (Hl%plain_no_feed & _). unfold tag, no_feed in *. rewrite !all_chars_append, Hc, Hp, Hl. done.
  - by intros (? & _).
Qed.

(** A field is read as it is printed first; a marker, when it is printed at all. *)
Lemma read_value f items : f ∈ fields → kind f ≠ MARKER → Forall (item_ok command fields) items →
  search_value command (log_label f) (unlines (line_of command <$> items)) = first_some (says f) items.
Proof.
  intros Hf Hk Hi. destruct (good_fields f Hf) as (Hl%plain_no_feed & _). rewrite search_value_lines; [|by apply plain_no_feed, good_command|done|].
  - induction Hi as [|i items Hok _ IH]; [done|]. rewrite fmap_cons, !first_some_cons, IH.
    assert (search (match_field command (log_label f)) (line_of command i) = says f i) as ->; [|done]. destruct i as [p g raw|p g|l].
    + by apply entry_line.
    + apply (mark_line p g f Hf Hok). intros ->. by destruct Hok as (_ & ? & _).
    + destruct Hok as (_ & _ & Hq). by apply noise_value, Hq.
  - apply Forall_fmap. eapply Forall_impl; [exact Hi|]. intros i Hok. split; [by apply line_no_feed|]. destruct i as [p g raw|p g|l].
    + by apply entry_line.
    + apply (mark_line p g f Hf Hok). intros ->. by destruct Hok as (_ & ? & _).
    + destruct Hok as (_ & _ & Hq). by apply Hq.
Qed.

Lemma read_marker f items : f ∈ fields → kind f = MARKER → Forall (item_ok command fields) items →
  search_marker command (log_label f) (unlines (line_of command <$> items)) = existsb (marks f) items.
Proof.
  intros Hf Hk Hi. destruct (good_fields f Hf) as (Hl%plain_no_feed & _). rewrite search_marker_lines; [|by apply plain_no_feed, good_command|done|].
  - induction Hi as [|i items Hok _ IH]; [done|]. rewrite fmap_cons. cbn [existsb]. rewrite IH. f_equal. destruct i as [p g raw|p g|l].
    + unfold search_marker. destruct (entry_line p g raw f Hf Hok) as [-> _]. rewrite decide_False; [done|]. intros ->. by destruct Hok as (_ & ? & _).
    + by apply mark_line.
    + destruct Hok as (_ & _ & Hq). unfold search_marker. cbn [line_of marks]. destruct (Hq f Hf) as [_ ->]. done.
  - apply Forall_fmap. eapply Forall_impl; [exact Hi|]. intros i Hok. destruct i as [p g raw|p g|l].
    + by apply (entry_line p g raw f Hf Hok).
    + by apply (mark_line p g f Hf Hok).
    + by destruct Hok as (_ & ? & _).
Qed.
End fields.

Lemma strip_suffix_none w d s : all_chars not_space w = true → all_chars not_space s = false → strip_suffix w s = None → strip_suffix w (d +s+ s) = None.
Proof.
  intros Hw Hs E. induction d as [|c d IH]; [done|]. change (String c d +s+ s) with (String c (d +s+ s)). cbn [strip_suffix].
  rewrite decide_False; [by rewrite IH|]. intros <-. change (String c (d +s+ s)) with (String c d +s+ s) in Hw. rewrite all_chars_append, Hs, andb_false_r in Hw. done.
Qed.

(** The value of a number printed with its unit or without. *)
Lemma strip_unit_int z unit : 0 ≤ z → unit ∈ "" :: ((λ u, " " +s+ u) <$> UNITS) → strip_unit (str_Z z +s+ unit) = str_Z z.
Proof.
  intros Hz Hu. destruct (str_Z_digits z Hz) as (Hd & _ & Hne). assert (Hw : all_chars not_space (str_Z z) = true) by (by apply (all_chars_weaken _ _ _ digit_nonspace)).
  assert (Ht : trimmed (str_Z z)) by (split; [by apply strip_nonspace|done]). destruct (rstrip_lstrip _ Ht) as [Hl Hr].
  assert (Hu' : unit = "" ∨ ∃ u, u ∈ UNITS ∧ unit = " " +s+ u).
  { apply elem_of_cons in Hu as [->|(u & -> & Hu)%list_elem_of_fmap]; [by left|]. right. by exists u. }
  clear Hu. destruct Hu' as [->|(u & Hu & ->)].
  - rewrite string_app_nil_r. unfold strip_unit. rewrite strip_nonspace by done.
    assert (Hn : ∀ w, w ∈ UNITS → without_unit w (str_Z z) = None).
    { intros w Hin. unfold without_unit. destruct (strip_suffix w (str_Z z)) as [t|] eqn:E; [|done]. exfalso. apply strip_suffix_Some in E. rewrite E, all_chars_append in Hd.
      apply andb_prop in Hd as [_ Hd]. unfold UNITS in Hin. rewrite !elem_of_cons, elem_of_nil in Hin. by destruct_or! Hin; subst w. }
    assert (Hall : ∀ us, (∀ w, w ∈ us → w ∈ UNITS) → strip_units us (str_Z z) = str_Z z); [|by apply Hall].
    induction us as [|w us IH]; intros Hin; [done|]. cbn [strip_units]. rewrite Hn by (apply Hin; by left). apply IH. intros w' Hw'. apply Hin. by right.
  - unfold strip_unit. assert (Hs : strip (str_Z z +s+ " " +s+ u) = str_Z z +s+ " " +s+ u).
    { unfold strip. destruct (str_Z z) as [|c s] eqn:E; [done|]. change (String c s +s+ ?x) with (String c (s +s+ x)). rewrite lstrip_nonspace.
      - change (String c (s +s+ " " +s+ u)) with (String c s +s+ " " +s+ u). rewrite <- string_app_assoc. apply rstrip_trimmed_app.
        unfold UNITS in Hu. rewrite !elem_of_cons, elem_of_nil in Hu. destruct_or! Hu; try done; subst u; by split.
      - simpl in Hd. apply andb_prop in Hd as [Hc _]. by apply digit_not_space. }
    rewrite Hs. assert (Hok : without_unit u (str_Z z +s+ " " +s+ u) = Some (str_Z z)).
    { unfold without_unit. rewrite <- string_app_assoc, strip_suffix_app. cbn [mbind option_bind]. rewrite (rstrip_app_space (str_Z z)) by done. rewrite Hr.
      rewrite bool_decide_eq_false_2; [done|]. intros E. apply (f_equal String.length) in E. rewrite string_length_app in E. simpl in E. lia. }
    assert (Hno : ∀ w, w ∈ UNITS → strip_suffix w (" " +s+ u) = None → without_unit w (str_Z z +s+ " " +s+ u) = None).
    { intros w Hin E. unfold without_unit. rewrite strip_suffix_none; [done| |done|done]. unfold UNITS in Hin. rewrite !elem_of_cons, elem_of_nil in Hin. by destruct_or! Hin; subst w. }
    unfold UNITS in Hu. rewrite !elem_of_cons, elem_of_nil in Hu. destruct_or! Hu; try done; subst u; unfold UNITS; cbn [strip_units];
      repeat first [rewrite Hok; done | rewrite (Hno _) by (first [reflexivity | unfold UNITS; set_solver])].
Qed.

(** * The record of a printed log *)

Definition printed (items : list item) (f : Field) : res pv :=
  match kind f with
  | MARKER => Ok (PBool (existsb (marks f) items))
  | TEXT => Ok (opt_str (first_some (says f) items))
  | NUMERIC => match first_some (says f) items with Some raw => parse_numeric (strip_unit raw) | None => Ok PNone end
  end.

Lemma field_printed command fields items f : good_schema command fields = true → f ∈ fields → Forall (item_ok command fields) items →
  field_value command (unlines (line_of command <$> items)) f = printed items f.
Proof.
  intros Hg Hf Hi. unfold field_value, printed. destruct (kind f) eqn:Hk.
  - by rewrite (read_value command fields) by (done || by rewrite Hk).
  - by rewrite (read_value command fields) by (done || by rewrite Hk).
  - by rewrite (read_marker command fields).
Qed.

(** The schemas: no label starts another, no name is used twice. *)
Lemma schemas_good command fields : schema_of command = Some fields →
  command ∈ ["cefputfile"; "cefgetfile"; "cefpubfile"; "cefsubfile"] ∧ good_schema command fields = true ∧ NoDup (name <$> fields) ∧ "success" ∉ name <$> fields ∧ "timestamp" ∉ name <$> fields.
Proof.
  unfold schema_of, COMMAND_SCHEMAS. cbn [List.find fst]. 
  assert (Hd : ∀ l : list string, bool_decide (NoDup l) && negb (bool_decide ("success" ∈ l)) && negb (bool_decide ("timestamp" ∈ l)) = true →
    NoDup l ∧ "success" ∉ l ∧ "timestamp" ∉ l).
  { intros l [[H1%bool_decide_eq_true H2%negb_true_iff%bool_decide_eq_false]%andb_prop H3%negb_true_iff%bool_decide_eq_false]%andb_prop. done. }
  repeat (case_bool_decide; [subst command; intros [= <-]; split; [set_solver|split; [vm_compute; reflexivity|apply Hd; vm_compute; reflexivity]]|]). intros [=].
Qed.

(** Adding the fields one after the other. *)
Lemma fold_fields command text fields r :
  NoDup (name <$> fields) →
  match foldM (add_field command text) r fields with
  | Ok r' => (∀ f, f ∈ fields → ∃ v, field_value command text f = Ok v ∧ dget r' (name f) = Some v) ∧ (∀ k, k ∉ name <$> fields → dget r' k = dget r k)
  | Raise e => ∃ f, f ∈ fields ∧ field_value command text f = Raise e
  | NoFuel => ∃ f, f ∈ fields ∧ field_value command text f = NoFuel
  end.
Proof.
  revert r. induction fields as [|f fields IH]; intros r Hnd; cbn [foldM].
  - split; [by intros f ?%elem_of_nil|done].
  - rewrite fmap_cons in Hnd. apply NoDup_cons in Hnd as [Hf Hnd]. destruct (field_value command text f) as [v|e|] eqn:Ev.
    all: assert (Ea : add_field command text r f = (v ← field_value command text f; Ok (dset r (PStr (name f)) v))) by done; rewrite Ea, Ev; clear Ea; cbn [mbind res_bind].
    + specialize (IH (dset r (PStr (name f)) v) Hnd). destruct (foldM (add_field command text) (dset r (PStr (name f)) v) fields) as [r'|e|].
      * destruct IH as [H1 H2]. split.
        -- intros g [->|Hg]%elem_of_cons; [|by apply H1]. exists v. split; [done|]. rewrite H2 by done. rewrite dget_dset. by rewrite bool_decide_eq_true_2.
        -- intros k Hk. rewrite fmap_cons in Hk. apply not_elem_of_cons in Hk as [Hne Hk]. rewrite H2 by done. rewrite dget_dset. by rewrite bool_decide_eq_false_2.
      * destruct IH as (g & Hg & E). exists g. split; [by right|done].
      * destruct IH as (g & Hg & E). exists g. split; [by right|done].
    + exists f. split; [by left|done].
    + exists f. split; [by left|done].
Qed.

Lemma dset_fresh d k v : dget d k = None → dset d (PStr k) v = d ++ [(PStr k, v)].
Proof.
  induction d as [|[x y] d IH]; [done|]. cbn [dget dset app]. rewrite key_eq_str. destruct (eq_str x k); [done|]. intros E. by rewrite IH.
Qed.

Lemma dget_app d d' k : dget (d ++ d') k = match dget d k with Some v => Some v | None => dget d' k end.
Proof. induction d as [|[x y] d IH]; [done|]. cbn [dget app]. by destruct (eq_str x k). Qed.

(** The fields in the order of the schema. *)
Lemma fold_shape command text fields r r' : NoDup (name <$> fields) → (∀ f, f ∈ fields → dget r (name f) = None) →
  foldM (add_field command text) r fields = Ok r' →
  ∃ vs, Forall2 (λ f v, field_value command text f = Ok v) fields vs ∧ r' = r ++ zip_with (λ f v, (PStr (name f), v)) fields vs.
Proof.
  revert r. induction fields as [|f fields IH]; intros r Hnd Hr; cbn [foldM].
  - intros [= <-]. exists []. split; [constructor|]. by rewrite app_nil_r.
  - rewrite fmap_cons in Hnd. apply NoDup_cons in Hnd as [Hf Hnd]. intros (r1 & H1 & H2)%res_bind_Ok. unfold add_field in H1. apply res_bind_Ok in H1 as (v & Hv & [= <-]).
    rewrite dset_fresh in H2 by (apply Hr; by left). apply IH in H2 as (vs & Hvs & ->); [|done|].
    + exists (v :: vs). split; [by constructor|]. by rewrite <- app_assoc.
    + intros g Hg. rewrite dget_app, Hr by (by right). cbn [dget]. assert (eq_str (PStr (name f)) (name g) = false) as ->; [|done].
      apply bool_decide_eq_false_2. intros E. apply Hf. rewrite E. by apply list_elem_of_fmap_2.
Qed.

Definition is_entry (i : item) : bool := match i with Entry _ _ _ => true | _ => false end.

Lemma parse_numeric_some raw v : parse_numeric raw = Ok v → is_none v = false.
Proof. unfold parse_numeric. destruct (int_of_string raw); [by intros [= <-]|]. destruct (py_float (PStr raw)); by intros [= <-]. Qed.

Lemma printed_none items f v : kind f ≠ MARKER → printed items f = Ok v → is_none v = bool_decide (first_some (says f) items = None).
Proof.
  unfold printed. destruct (kind f); [| |done]; intros _.
  - intros [= <-]. by destruct (first_some (says f) items).
  - destruct (first_some (says f) items) as [raw|]; [|by intros [= <-]]. by intros ->%parse_numeric_some.
Qed.

Lemma says_nothing f items : first_some (says f) items = None ↔ ∀ p raw, Entry p f raw ∉ items.
Proof.
  induction items as [|i items IH]; [split; [intros _ p raw ?%elem_of_nil; done|done]|]. rewrite first_some_cons. destruct i as [p g raw|p g|l]; cbn [says].
  - case_decide as E; [subst g; split; [done|]; intros H; destruct (H p raw); by left|]. rewrite IH. split.
    + intros H p' raw' [[= -> -> ->]|Hin]%elem_of_cons; [done|by apply (H p' raw')].
    + intros H p' raw' Hin. apply (H p' raw'). by right.
  - rewrite IH. split; [intros H p' raw' [?|Hin]%elem_of_cons; [done|by apply (H p' raw')]|intros H p' raw' Hin; apply (H p' raw'); by right].
  - rewrite IH. split; [intros H p' raw' [?|Hin]%elem_of_cons; [done|by apply (H p' raw')]|intros H p' raw' Hin; apply (H p' raw'); by right].
Qed.

Lemma any_field_entries items fields vs ts : (∀ f, f ∈ fields → kind f ≠ MARKER) → "success" ∉ name <$> fields → "timestamp" ∉ name <$> fields →
  (∀ p f raw, Entry p f raw ∈ items → f ∈ fields) → Forall2 (λ f v, printed items f = Ok v) fields vs →
  any_field ((PStr "timestamp", ts) :: zip_with (λ f v, (PStr (name f), v)) fields vs) = existsb is_entry items.
Proof.
  intros Hk Hs Ht Hin Hvs. apply eq_true_iff_eq. unfold any_field. cbn [existsb]. cbn [key_eq fst]. rewrite bool_decide_eq_true_2 by done. cbn [negb orb andb]. rewrite andb_false_r. cbn [orb].
  rewrite !List.existsb_exists. split.
  - intros ((k & v) & Hkv & Hnn). apply list_elem_of_In, list_elem_of_lookup in Hkv as [i Hi]. apply lookup_zip_with_Some in Hi as (f & w & [= -> ->] & Hf & Hw).
    apply andb_prop in Hnn as [Hnn%negb_true_iff _]. cbn [snd] in Hnn. rewrite Forall2_lookup in Hvs. specialize (Hvs i). rewrite Hf, Hw in Hvs. inversion Hvs as [? ? Hp|]; subst.
    rewrite (printed_none items f w) in Hnn by (try done; apply Hk; by eapply list_elem_of_lookup_2). apply bool_decide_eq_false in Hnn.
    destruct (existsb is_entry items) eqn:E; [by apply List.existsb_exists in E|]. exfalso. apply Hnn, says_nothing. intros p raw Hp2.
    assert (existsb is_entry items = true); [|congruence]. apply List.existsb_exists. exists (Entry p f raw). split; [by apply list_elem_of_In|done].
  - intros (i & Hi%list_elem_of_In & He). destruct i as [p f raw|p g|l]; [|done..]. pose proof (Hin p f raw Hi) as Hf. apply list_elem_of_lookup in Hf as [j Hj].
    rewrite Forall2_lookup in Hvs. specialize (Hvs j). rewrite Hj in Hvs. inversion Hvs as [? v Hp Ex Ey|]; subst. exists (PStr (name f), v). split.
    + apply list_elem_of_In, list_elem_of_lookup. exists j. apply lookup_zip_with_Some. exists f, v. by rewrite Hj.
    + cbn [fst snd key_eq]. rewrite (printed_none items f v) by (try done; apply Hk; by eapply list_elem_of_lookup_2).
      rewrite bool_decide_eq_false_2 by (intros Hn; by apply (proj1 (says_nothing f items) Hn p raw)).
      rewrite !bool_decide_eq_false_2; [done|intros E; apply Hs|intros E; apply Ht]; rewrite <- E; apply list_elem_of_fmap_2; by eapply list_elem_of_lookup_2.
Qed.

(** The unknown fields of a publisher or subscriber. *)
Definition harmless (command : string) (fields : list Field) (m : string * string * string) : Prop :=
  m.1.1 = command → m.1.2 ∈ log_label <$> fields ∨ normalise_key m.1.2 ∉ name <$> fields.

Lemma add_unknowns command fields ms r k : k ∈ name <$> fields → Forall (harmless command fields) ms →
  dget (foldl (add_unknown command fields) r ms) k = dget r k.
Proof.
  intros Hk Hms. revert r. induction Hms as [|[[cmd label] raw] ms Hm _ IH]; intros r; [done|]. cbn [foldl]. rewrite IH. unfold add_unknown.
  destruct (negb _) eqn:E; [done|]. apply negb_false_iff, bool_decide_eq_true in E. case_bool_decide as El; [done|].
  destruct (Hm E) as [?|Hn]; [done|]. cbn [fst snd] in Hn. rewrite dget_dset, bool_decide_eq_false_2; [done|]. intros Eq. apply Hn. by rewrite Eq.
Qed.

Lemma parse_numeric_fuel raw : parse_numeric raw ≠ NoFuel.
Proof. unfold parse_numeric. destruct (int_of_string raw); [done|]. unfold py_float. by destruct (float_of_string raw). Qed.

Lemma dget_success r command text b k : dget (set_success r command text b) k =
  if bool_decide ("success" = k) then Some (opt_bool (success (from_log command text b))) else dget r k.
Proof. apply dget_dset. Qed.

(** Which result fields count for the success of the command. *)
Definition evidence (command : string) (items : list item) : option bool :=
  if bool_decide (command = "cefputfile") then Some (existsb is_entry items) else None.

Lemma put_fields_plain : ∀ fields f, schema_of "cefputfile" = Some fields → f ∈ fields → kind f ≠ MARKER.
Proof.
  intros fields f [= <-] Hf. assert (Hb : forallb (λ f, negb (bool_decide (kind f = MARKER))) (default [] (schema_of "cefputfile")) = true) by (vm_compute; reflexivity).
  rewrite List.forallb_forall in Hb. specialize (Hb f (proj1 (list_elem_of_In _ _) Hf)). by apply negb_true_iff, bool_decide_eq_false in Hb.
Qed.

Lemma parse_log_eq command fields items text : schema_of command = Some fields → Forall (item_ok command fields) items →
  text = unlines (line_of command <$> items) →
  (command ∈ ["cefpubfile"; "cefsubfile"] → Forall (harmless command fields) (generic_matches text)) →
  match parse_schema_fields text command with
  | Ok r => ∃ r', parse_log command text = Some (Ok (set_success r' command text (evidence command items))) ∧ ∀ k, k ∈ name <$> fields → dget r' k = dget r k
  | Raise e => parse_log command text = Some (Raise e)
  | NoFuel => parse_log command text = Some NoFuel
  end.
Proof.
  intros Hs Hi -> Hh. destruct (schemas_good command fields Hs) as (Hc & Hg & Hnd & Hsuc & Hts). set (text := unlines _) in *.
  unfold parse_log, evidence. case_bool_decide as E1.
  { subst command. unfold parse_cefputfile. destruct (parse_schema_fields text "cefputfile") as [r|e|] eqn:Er; [|done..]. cbn [mbind res_bind]. exists r. split; [|done].
    f_equal. f_equal. f_equal. f_equal. unfold parse_schema_fields in Er. rewrite Hs in Er.
    apply fold_shape in Er as (vs & Hvs & ->); [|done|].
    - cbn [app]. apply (any_field_entries items fields vs); [intros f Hf; by apply (put_fields_plain fields)|done..| |].
      + intros p f raw Hin. rewrite Forall_forall in Hi. specialize (Hi _ Hin). by destruct Hi as (? & _).
      + apply Forall2_same_length_lookup. split; [by eapply Forall2_length|]. intros i f v Hf Hv. rewrite Forall2_lookup in Hvs. specialize (Hvs i). rewrite Hf, Hv in Hvs. inversion Hvs; subst. rewrite <- (field_printed "cefputfile" fields items f); [done..|by eapply list_elem_of_lookup_2|done].
    - intros f Hf. cbn [dget]. assert (eq_str (PStr "timestamp") (name f) = false) as ->; [|done]. apply bool_decide_eq_false_2. intros E. apply Hts. rewrite E. by apply list_elem_of_fmap_2. }
  case_bool_decide as E2.
  { subst command. unfold parse_cefgetfile. destruct (parse_schema_fields text "cefgetfile") as [r|e|]; [|done..]. cbn [mbind res_bind]. by exists r. }
  rewrite bool_decide_eq_true_2 by set_solver. unfold parse_pubsub. destruct (parse_schema_fields text command) as [r|e|]; [|done..]. cbn [mbind res_bind]. rewrite Hs. cbn [default].
  eexists. split; [reflexivity|]. intros k Hk. apply add_unknowns; [done|]. apply Hh. set_solver.
Qed.

(** C27: a printed log is read back. Take the log of a command whose lines are fields
    with a value, markers, and lines no pattern of the schema reads, in any order and
    number (and, for publishers and subscribers, no unknown label that normalises to
    a column of the schema). The parser returns a record in which every field of the
    schema has the value of its first line, None when it has none, and a marker is
    whether it was printed; a number printed with or without its unit is read as that
    number; the success is the verdict on the text, with the presence of result
    fields for a put. The parse raises exactly when a numeric field was printed with
    something that is no number, which the optional unknown fields tolerate. *)
Theorem log_roundtrip command fields items : schema_of command = Some fields → Forall (item_ok command fields) items →
  let text := unlines (line_of command <$> items) in
  (command ∈ ["cefpubfile"; "cefsubfile"] → Forall (harmless command fields) (generic_matches text)) →
  match parse_log command text with
  | Some (Ok r) =>
      (∀ f, f ∈ fields → ∃ v, printed items f = Ok v ∧ dget r (name f) = Some v) ∧
      (∀ f z unit, f ∈ fields → kind f = NUMERIC → 0 ≤ z → unit ∈ "" :: ((λ u, " " +s+ u) <$> UNITS) →
         first_some (says f) items = Some (str_Z z +s+ unit) → dget r (name f) = Some (PInt z)) ∧
      dget r "success" = Some (opt_bool (success (from_log command text (evidence command items))))
  | Some (Raise e) => ∃ f, f ∈ fields ∧ kind f = NUMERIC ∧ printed items f = Raise e
  | _ => False
  end.
Proof.
  intros Hs Hi text Hh. destruct (schemas_good command fields Hs) as (Hc & Hg & Hnd & Hsuc & Hts).
  pose proof (parse_log_eq command fields items text Hs Hi eq_refl Hh) as Hp. unfold parse_schema_fields in Hp. rewrite Hs in Hp.
  pose proof (fold_fields command text fields [(PStr "timestamp", opt_str (extract_timestamp text))] Hnd) as Hf.
  destruct (foldM _ _ fields) as [r|e|].
  - destruct Hp as (r' & -> & Hr'). destruct Hf as [Hf _].
    assert (Hv : ∀ f, f ∈ fields → ∃ v, printed items f = Ok v ∧ dget (set_success r' command text (evidence command items)) (name f) = Some v).
    { intros f Hin. destruct (Hf f Hin) as (v & Hv & Hd). unfold text in Hv. rewrite (field_printed command fields) in Hv by done. exists v. split; [done|].
      rewrite dget_success, bool_decide_eq_false_2, Hr' by (by apply list_elem_of_fmap_2 || (intros E; apply Hsuc; rewrite E; by apply list_elem_of_fmap_2)). done. }
    split_and!; [exact Hv| |].
    + intros f z unit Hin Hk Hz Hu Hfirst. destruct (Hv f Hin) as (v & Hpv & ->). unfold printed in Hpv. rewrite Hk, Hfirst, strip_unit_int in Hpv by done.
      unfold parse_numeric in Hpv. rewrite int_of_str in Hpv by done. by simplify_eq.
    + rewrite dget_success. by rewrite bool_decide_eq_true_2.
  - rewrite Hp. destruct Hf as (f & Hin & Hv). unfold text in Hv. rewrite (field_printed command fields) in Hv by done. exists f. split_and!; [done| |done].
    unfold printed in Hv. destruct (kind f); [discriminate Hv|done|discriminate Hv].
  - destruct Hf as (f & Hin & Hv). unfold text in Hv. rewrite (field_printed command fields) in Hv by done. exfalso.
    unfold printed in Hv. destruct (kind f); [discriminate Hv| |discriminate Hv]. destruct (first_some (says f) items); [by apply parse_numeric_fuel in Hv|discriminate Hv].
Qed.

Definition demo_items : list item :=
  [Noise "2026-07-07 10:00:00.100 [cefpubfile] Start"; Entry "2026-07-07 10:00:00.200 " (mkField "uri" "URI" TEXT) "ccnx:/test";
   Entry "" (mkField "rate_mbps" "Rate" NUMERIC) "5 Mbps"; Mark "" (mkField "trigger_interest_sent" "Send Trigger Interest." MARKER)].

(** The log of a publisher. *)
Lemma log_roundtrip_witness : ∃ r, parse_log "cefpubfile" (unlines (line_of "cefpubfile" <$> demo_items)) = Some (Ok r) ∧
  dget r "rate_mbps" = Some (PInt 5) ∧ dget r "trigger_interest_sent" = Some (PBool true).
Proof.
  destruct (schema_of "cefpubfile") as [fields|] eqn:Hs; [|vm_compute in Hs; discriminate Hs].
  assert (Hi : Forall (item_ok "cefpubfile" fields) demo_items).
  { vm_compute in Hs. injection Hs as <-. repeat apply Forall_cons_2; [|..|apply Forall_nil_2].
    - split_and!; [reflexivity..|]. intros f Hf. rewrite !elem_of_cons, elem_of_nil in Hf. destruct_or! Hf; try done; subst f; split; reflexivity.
    - split_and!; [by left|discriminate|reflexivity..|split; [reflexivity|discriminate]].
    - split_and!; [right; right; by left|discriminate|reflexivity..|split; [reflexivity|discriminate]].
    - split_and!; [|reflexivity..]. do 6 right. by left. }
  assert (Hg : generic_matches (unlines (line_of "cefpubfile" <$> demo_items)) = [("cefpubfile", "URI", "ccnx:/test"); ("cefpubfile", "Rate", "5 Mbps")]) by (vm_compute; reflexivity).
  assert (Hh : Forall (harmless "cefpubfile" fields) (generic_matches (unlines (line_of "cefpubfile" <$> demo_items)))).
  { rewrite Hg. vm_compute in Hs. injection Hs as <-. repeat apply Forall_cons_2; [| |apply Forall_nil_2]; intros _; left; cbn; set_solver. }
  pose proof (log_roundtrip "cefpubfile" fields demo_items Hs Hi (λ _, Hh)) as Ht. cbv zeta in Ht.
  assert (Hok : match parse_log "cefpubfile" (unlines (line_of "cefpubfile" <$> demo_items)) with Some (Ok _) => True | _ => False end) by (vm_compute; exact I).
  destruct (parse_log "cefpubfile" (unlines (line_of "cefpubfile" <$> demo_items))) as [[r|e|]|]; try done. exists r. destruct Ht as (Hv & Hn & _).
  split_and!; [done| |].
  - apply (Hn (mkField "rate_mbps" "Rate" NUMERIC) 5 " Mbps"); [|reflexivity|lia| |].
    + vm_compute in Hs. injection Hs as <-. set_solver.
    + right. by left.
    + vm_compute. reflexivity.
  - destruct (Hv (mkField "trigger_interest_sent" "Send Trigger Interest." MARKER)) as (v & Hp & Hd).
    + vm_compute in Hs. injection Hs as <-. set_solver.
    + cbn [name] in Hd. rewrite Hd. vm_compute in Hp. by injection Hp as <-.
Defined.
