(* ===== verification/LogSummary.v ===== *)
(** Component: the summary of experiment directories (src/log/summarizer.py): the
    rows read from content logs, meta.json and results.json, and the CSV tables.
    What the files hold is an argument; so is json.loads. *)
From S2P Require Import Prelude PyValue PyString PyNum PyText Artifacts Verdict LogParse.
Local Open Scope Z_scope.

(** * Directories *)

(** The text of a file that is read, or the exception of reading it. *)
Notation file := (string + exn)%type.
(** A directory by its name; [e_logs] is what [glob] finds. *)
Record experiment := mkExperiment {
  e_name : string;
  e_is_dir : bool;
  e_meta : option file;
  e_results : option file;
  e_logs : list (string * file);
}.

Definition META_KEYS : list string :=
  ["num"; "hosts"; "switches"; "seed"; "k"; "down_interval"; "down_duration"; "down_count"; "down_stagger"; "down_exclude"; "cache_count"; "forwarding_default"].
Definition FILENAME_KEYS : list string := ["filename"; "host_id"; "down_hosts"; "phase"; "label"; "publisher_down"].
(** [COMMAND_COLS]. *)
Definition COMMAND_COLS (command : string) : option (list string) := csv_columns <$> schema_of command.

Section summary.
Context `{JsonLib}.

Definition load_json (f : option file) : res (option pv) :=
  match f with
  | None => Ok None
  | Some (inr e) => if bool_decide (exn_cls e = EOSError) then Ok None else Raise e
  | Some (inl text) => match json_loads text with inl v => Ok (Some v) | inr _ => Ok None end
  end.
(** [_load_meta]. *)
Definition load_meta (d : experiment) : res pv := v ← load_json (e_meta d); Ok (default (PDict []) v).

(** The loop of [_load_results_by_log_name]. *)
Definition add_result (by_name : gmap string pydict) (record : pv) : res (gmap string pydict) :=
  match record with
  | PDict r =>
      if negb (dhas r "op_type") then Ok by_name
      else if negb (truthy (get_none r "log_file")) then Ok by_name
      else match get_none r "log_file" with
           | PStr log_file => Ok (<[path_name log_file := r]> by_name)
           | _ => raise ETypeError "argument should be a str or an os.PathLike object"
           end
  | _ => Ok by_name
  end.
Definition load_results_by_log_name (d : experiment) : res (gmap string pydict) :=
  v ← load_json (e_results d);
  match v with Some (PList raw) => foldM add_result ∅ raw | _ => Ok ∅ end.

(** [_meta_value]. *)
Definition meta_value (meta : pv) (key : string) : res pv :=
  match meta with
  | PDict m =>
      if bool_decide (key = "forwarding_default")
      then Ok (match get_none m "forwarding" with PDict f => get_none f "default" | _ => PNone end)
      else Ok (get_none m key)
  | _ => raise EAttributeError "object has no attribute 'get'"
  end.
(** [meta_row]. *)
Definition meta_row (d : experiment) (meta : pv) : res pydict :=
  values ← mapR (meta_value meta) META_KEYS;
  Ok (zip_with (λ k v, (PStr k, v)) META_KEYS values ++ [(PStr "experiment_dir", PStr (e_name d))]).

Definition set_str (row : pydict) (k : string) (v : pv) : pydict := dset row (PStr k) v.
Definition from_result (result : option pydict) (k : string) : pv := match result with Some r => get_none r k | None => PNone end.
(** The cell of a column the log leaves open. *)
Definition fill (result : option pydict) (row : pydict) (k : string) : pydict :=
  match result, get_none row k with Some r, PNone => set_str row k (get_none r k) | _, _ => row end.

(** The row of a log. *)
Definition filename_row (mrow : pydict) (result : option pydict) (filename : string) (c : ContentLogMeta) : pydict :=
  let row := dmerge [(PStr "experiment_dir", get_none mrow "experiment_dir")] mrow in
  let row := set_str row "filename" (PStr filename) in
  let row := set_str row "host_id" (PInt (Artifacts.host c)) in
  let row := set_str row "down_hosts" (from_result result "down_hosts") in
  let row := set_str row "phase" (PStr (Artifacts.phase c)) in
  let row := set_str row "label" (PStr (Artifacts.label c)) in
  set_str row "publisher_down" (from_result result "publisher_down").
Definition log_row (mrow : pydict) (result : option pydict) (filename : string) (c : ContentLogMeta) (record : pydict) : pydict :=
  fill result (fill result (dmerge (filename_row mrow result filename c) record) "uri") "success".

(** [grouped[command].append(row)]. *)
Notation rows_by_command := (gmap string (list pydict)).
Definition append_row (grouped : rows_by_command) (command : string) (row : pydict) : rows_by_command :=
  <[command := default [] (grouped !! command) ++ [row]]> grouped.

(** One log of the loop. *)
Definition collect_log (mrow : pydict) (results : gmap string pydict) (grouped : rows_by_command) (log : string * file) : res rows_by_command :=
  match parse_content_log_name log.1 with
  | None => Ok grouped
  | Some c =>
      if bool_decide (Artifacts.command c ∉ fst <$> COMMAND_SCHEMAS) then Ok grouped
      else match log.2 with
           | inr e => Raise e
           | inl text =>
               match parse_log (Artifacts.command c) text with
               | Some record => record ← record; Ok (append_row grouped (Artifacts.command c) (log_row mrow (results !! log.1) log.1 c record))
               | None => Ok grouped
               end
           end
  end.

(** [sorted(dirpath.glob("*.log"))], by name. *)
Definition log_le (a b : string * file) : Prop := str_le a.1 b.1.
#[local] Instance log_le_dec : RelDecision log_le.
Proof. intros a b. unfold log_le. apply _. Defined.
Definition sorted_logs (d : experiment) : list (string * file) := merge_sort log_le (e_logs d).

Definition collect_dir (grouped : rows_by_command) (d : experiment) : res rows_by_command :=
  if negb (e_is_dir d) then Ok grouped
  else
    meta ← load_meta d;
    results ← load_results_by_log_name d;
    mrow ← meta_row d meta;
    foldM (collect_log mrow results) grouped (sorted_logs d).
(** [collect_records]. *)
Definition collect_records (directories : list experiment) : res rows_by_command := foldM collect_dir ∅ directories.

(** [_build_fieldnames]. *)
Definition key_str (k : pv) : string := match k with PStr s => s | _ => "" end.
Definition add_new (fields : list string) (k : string) : list string := if bool_decide (k ∈ fields) then fields else fields ++ [k].
Definition fixed_fields (command : string) : list string := "experiment_dir" :: META_KEYS ++ FILENAME_KEYS ++ default [] (COMMAND_COLS command).
Definition build_fieldnames (command : string) (records : list pydict) : list string :=
  foldl add_new (fixed_fields command) (records ≫= λ r, key_str <$> r.*1).

(** [write_csv]: the header and the rows of cells. *)
Definition write_csv (records : list pydict) (command : string) : option (list string * list (list pv)) :=
  if bool_decide (length records = O) then None
  else let fields := build_fieldnames command records in
       Some (fields, (λ r, (λ k, get_or r k (PStr "")) <$> fields) <$> records).

(** [summarize]: the tables by command. *)
Definition summarize (directories : list experiment) : res (list (string * (list string * list (list pv)))) :=
  grouped ← collect_records directories;
  Ok (omap (λ command, (λ t, (command, t)) <$> write_csv (default [] (grouped !! command)) command) (sorted_strs (elements (dom grouped)))).
End summary.

(** * Dicts with string keys *)

(** String keys, each once. *)
Definition str_dict (d : pydict) : Prop := ∃ ks, d.*1 = PStr <$> ks ∧ NoDup ks.

Lemma dget_keys d ks k : d.*1 = PStr <$> ks → is_Some (dget d k) ↔ k ∈ ks.
Proof.
  revert ks. induction d as [|[x v] d IH]; intros [|y ks] E; try done.
  - split; [by intros [? ?]|by intros ?%elem_of_nil].
  - rewrite !fmap_cons in E. injection E as -> E. cbn [dget eq_str]. rewrite elem_of_cons. case_bool_decide as Hk.
    + split; [by left|by eexists].
    + rewrite (IH ks E). naive_solver.
Qed.

Lemma dset_keys d k v : (dset d (PStr k) v).*1 = if bool_decide (is_Some (dget d k)) then d.*1 else d.*1 ++ [PStr k].
Proof.
  induction d as [|[x w] d IH]; [done|]. cbn [dset dget]. rewrite key_eq_str. destruct (eq_str x k) eqn:E; [done|].
  rewrite !fmap_cons, IH. by case_bool_decide.
Qed.

Lemma str_dict_dset d k v : str_dict d → str_dict (dset d (PStr k) v).
Proof.
  intros (ks & E & Hnd). unfold str_dict. rewrite dset_keys. case_bool_decide as Hk; [by exists ks|]. exists (ks ++ [k]). split; [by rewrite fmap_app, E|].
  rewrite (dget_keys d ks k E) in Hk. apply NoDup_app. split_and!; [done| |apply NoDup_singleton]. intros x Hx ->%list_elem_of_singleton. done.
Qed.

Lemma dget_reverse d k : str_dict d → dget (reverse d) k = dget d k.
Proof.
  intros (ks & E & Hnd). revert ks E Hnd. induction d as [|[x v] d IH]; intros [|y ks] E Hnd; try done.
  rewrite !fmap_cons in E. injection E as -> E. apply NoDup_cons in Hnd as [Hy Hnd]. rewrite reverse_cons, dget_app, (IH ks) by done. cbn [dget eq_str].
  case_bool_decide as Hk; [|by destruct (dget d k)]. subst y. destruct (dget d k) eqn:Ed; [|done]. exfalso. apply Hy, (dget_keys d ks k E). by rewrite Ed.
Qed.

Lemma dget_update d d' k : str_dict d' → dget (dmerge d d') k = match dget d' k with Some v => Some v | None => dget d k end.
Proof. intros Hd. by rewrite dget_dmerge, dget_reverse. Qed.

Lemma str_dict_update d d' : str_dict d → str_dict d' → str_dict (dmerge d d').
Proof.
  intros Hd (ks & E & _). unfold dmerge. revert d ks Hd E. induction d' as [|[x v] d' IH]; intros d [|y ks] Hd E; try done.
  rewrite !fmap_cons in E. injection E as -> E. cbn [foldl]. apply (IH _ ks); [by apply str_dict_dset|done].
Qed.

(** * Records *)

Lemma fold_add_dict command text fields r r' : str_dict r → foldM (add_field command text) r fields = Ok r' → str_dict r'.
Proof.
  revert r. induction fields as [|f fields IH]; intros r Hr; cbn [foldM]; [by intros [= <-]|].
  intros (r1 & (v & _ & [= <-])%res_bind_Ok & H2)%res_bind_Ok. apply (IH _ (str_dict_dset _ _ _ Hr) H2).
Qed.

Lemma schema_dict text command r : parse_schema_fields text command = Ok r → str_dict r.
Proof.
  unfold parse_schema_fields. destruct (schema_of command); [|done]. apply fold_add_dict. exists ["timestamp"]. split; [done|apply NoDup_singleton].
Qed.

Lemma unknown_dict command fields ms r : str_dict r → str_dict (foldl (add_unknown command fields) r ms).
Proof.
  revert r. induction ms as [|[[cmd label] raw] ms IH]; intros r Hr; [done|]. cbn [foldl]. apply IH. unfold add_unknown.
  destruct (negb _); [done|]. case_bool_decide; [done|]. by apply str_dict_dset.
Qed.

Lemma parse_log_inv command text record : parse_log command text = Some (Ok record) →
  ∃ r b, parse_schema_fields text command = Ok r ∧
    record = set_success (if bool_decide (command ∈ ["cefpubfile"; "cefsubfile"]) then foldl (add_unknown command (default [] (schema_of command))) r (generic_matches text) else r)
      command text b.
Proof.
  unfold parse_log. case_bool_decide as E1; [|case_bool_decide as E2; [|case_bool_decide as E3; [|done]]]; intros [= Hp].
  - subst command. unfold parse_cefputfile in Hp. apply res_bind_Ok in Hp as (r & Hr & [= <-]). by eexists r, _.
  - subst command. unfold parse_cefgetfile in Hp. apply res_bind_Ok in Hp as (r & Hr & [= <-]). by eexists r, _.
  - unfold parse_pubsub in Hp. apply res_bind_Ok in Hp as (r & Hr & [= <-]). by eexists r, _.
Qed.

Lemma record_dict command text record : parse_log command text = Some (Ok record) → str_dict record.
Proof.
  intros (r & b & Hr%schema_dict & ->)%parse_log_inv. apply str_dict_dset. case_bool_decide; [by apply unknown_dict|done].
Qed.

(** The columns a log says nothing about, unless a publisher or a subscriber prints
    an unknown label of that name. *)
Definition name_columns : list string := "experiment_dir" :: META_KEYS ++ FILENAME_KEYS.
Definition clean (command text : string) : Prop := command ∈ ["cefpubfile"; "cefsubfile"] →
  Forall (λ m, m.1.1 = command → m.1.2 ∈ log_label <$> default [] (schema_of command) ∨ normalise_key m.1.2 ∉ name_columns) (generic_matches text).

Lemma unknowns_keep command fields ms r (keys : list string) k : k ∈ keys →
  Forall (λ m, m.1.1 = command → m.1.2 ∈ log_label <$> fields ∨ normalise_key m.1.2 ∉ keys) ms → dget (foldl (add_unknown command fields) r ms) k = dget r k.
Proof.
  intros Hk Hms. revert r. induction Hms as [|[[cmd label] raw] ms Hm _ IH]; intros r; [done|]. cbn [foldl]. rewrite IH. unfold add_unknown.
  destruct (negb _) eqn:E; [done|]. apply negb_false_iff, bool_decide_eq_true in E. case_bool_decide as El; [done|].
  destruct (Hm E) as [?|Hn]; [done|]. cbn [fst snd] in Hn. rewrite dget_dset, bool_decide_eq_false_2; [done|]. intros Eq. apply Hn. by rewrite Eq.
Qed.

Lemma disjoint_columns fields k command : schema_of command = Some fields → k ∈ name_columns → k ∉ csv_columns fields.
Proof.
  intros Hs Hk. destruct (schemas_good command fields Hs) as (Hc & _).
  assert (Hb : forallb (λ c, match schema_of c with Some fs => forallb (λ k, negb (bool_decide (k ∈ csv_columns fs))) name_columns | None => true end)
    ["cefputfile"; "cefgetfile"; "cefpubfile"; "cefsubfile"] = true) by (vm_compute; reflexivity).
  rewrite List.forallb_forall in Hb. specialize (Hb command (proj1 (list_elem_of_In _ _) Hc)). rewrite Hs in Hb. rewrite List.forallb_forall in Hb.
  specialize (Hb k (proj1 (list_elem_of_In _ _) Hk)). by apply negb_true_iff, bool_decide_eq_false in Hb.
Qed.

Lemma record_keeps_names command text record k : parse_log command text = Some (Ok record) → clean command text → k ∈ name_columns → dget record k = None.
Proof.
  intros (r & b & Hr & ->)%parse_log_inv Hcl Hk. unfold parse_schema_fields in Hr. destruct (schema_of command) as [fields|] eqn:Hs; [|done].
  pose proof (disjoint_columns fields k command Hs Hk) as Hd. destruct (schemas_good command fields Hs) as (_ & _ & Hnd & _). unfold csv_columns, field_names in Hd.
  apply not_elem_of_cons in Hd as [Hts Hd]. apply not_elem_of_app in Hd as [Hn Hsu]. apply not_elem_of_cons in Hsu as [Hsu _].
  rewrite dget_success, bool_decide_eq_false_2 by done.
  assert (Hrk : dget r k = None).
  { pose proof (fold_fields command text fields [(PStr "timestamp", opt_str (extract_timestamp text))] Hnd) as Hf. rewrite Hr in Hf. destruct Hf as [_ Hf].
    rewrite Hf by done. cbn [dget eq_str]. by rewrite bool_decide_eq_false_2. }
  case_bool_decide as Hc; [|done]. change (default [] (Some fields)) with fields. rewrite (unknowns_keep command fields (generic_matches text) r name_columns k Hk); [done|]. specialize (Hcl Hc). by rewrite Hs in Hcl.
Qed.

(** * Rows *)

Lemma meta_row_spec `{JsonLib} d meta mrow : meta_row d meta = Ok mrow →
  dget mrow "experiment_dir" = Some (PStr (e_name d)) ∧ mrow.*1 = PStr <$> META_KEYS ++ ["experiment_dir"].
Proof.
  unfold meta_row. intros (values & Hv & E)%res_bind_Ok.
  assert (mrow = zip_with (λ k v, (PStr k, v)) META_KEYS values ++ [(PStr "experiment_dir", PStr (e_name d))]) as -> by congruence. clear E. apply mapR_Ok in Hv. pose proof (Forall2_length _ _ _ Hv) as Hl. clear Hv.
  assert (Hz : ∀ ks vs, length ks = length vs → (zip_with (λ (k : string) (v : pv), (PStr k, v)) ks vs).*1 = PStr <$> ks).
  { clear. induction ks as [|k ks IH]; intros [|v vs] E; try done. cbn [zip_with]. rewrite !fmap_cons. injection E as E. by rewrite IH. }
  split; [|rewrite fmap_app, Hz by done; done]. rewrite dget_app. destruct (dget (zip_with _ _ _) "experiment_dir") eqn:E; [|done]. exfalso.
  assert (Hin : "experiment_dir" ∈ META_KEYS) by (apply (dget_keys (zip_with (λ (k : string) (v : pv), (PStr k, v)) META_KEYS values) META_KEYS); [by apply Hz|by rewrite E]). unfold META_KEYS in Hin. set_solver.
Qed.

(** A decidable fact about the columns. *)
Ltac decided := apply (bool_decide_unpack _); vm_compute; exact I.

Ltac cells :=
  repeat (rewrite dget_dset; first [rewrite bool_decide_eq_true_2 by done | rewrite bool_decide_eq_false_2 by done]).

Section row.
Context `{JsonLib} (d : experiment) (meta : pv) (mrow : pydict) (result : option pydict) (filename : string) (c : ContentLogMeta).
Context (Hm : meta_row d meta = Ok mrow).

Lemma mrow_dict : str_dict mrow.
Proof.
  destruct (meta_row_spec d meta mrow Hm) as [_ E]. exists (META_KEYS ++ ["experiment_dir"]). split; [done|].
  apply (bool_decide_unpack _). vm_compute. exact I.
Qed.

Lemma start_row k : dget (dmerge [(PStr "experiment_dir", get_none mrow "experiment_dir")] mrow) k = dget mrow k.
Proof.
  rewrite dget_update by apply mrow_dict. destruct (dget mrow k) eqn:E; [done|]. cbn [dget eq_str]. case_bool_decide as Hk; [|done]. subst k.
  destruct (meta_row_spec d meta mrow Hm) as [E' _]. congruence.
Qed.

Lemma filename_row_other k : k ∉ name_columns → dget (filename_row mrow result filename c) k = None.
Proof.
  intros Hk. unfold name_columns, FILENAME_KEYS in Hk. rewrite not_elem_of_cons, not_elem_of_app, !not_elem_of_cons in Hk.
  destruct Hk as (H0 & Hmeta & H1 & H2 & H3 & H4 & H5 & H6 & _). unfold filename_row, set_str. rewrite !dget_dset, start_row. rewrite !bool_decide_eq_false_2 by done.
  destruct (dget mrow k) eqn:E; [|done]. exfalso. destruct (meta_row_spec d meta mrow Hm) as [_ Ek].
  assert (Hin : k ∈ META_KEYS ++ ["experiment_dir"]) by (apply (dget_keys mrow _ k Ek); by rewrite E). apply elem_of_app in Hin as [?|?%list_elem_of_singleton]; done.
Qed.

Lemma get_fill row k k' : get_none (fill result row k) k' =
  if bool_decide (k = k') && is_none (get_none row k) then match result with Some r => get_none r k | None => PNone end else get_none row k'.
Proof.
  unfold fill. destruct result as [r|].
  - destruct (get_none row k) eqn:E; cbn [is_none]; rewrite ?andb_false_r; try done. rewrite andb_true_r. unfold get_none at 1, set_str. rewrite dget_dset. by case_bool_decide.
  - case_bool_decide as Hk; [|done]. subst k'. by destruct (get_none row k).
Qed.

Context (record : pydict) (Hrec : str_dict record).

(** A cell of a column that is read from the log. *)
Lemma log_cell k : k ∉ name_columns → get_none (log_row mrow result filename c record) k =
  if bool_decide (k ∈ ["uri"; "success"]) && is_none (get_none record k) then from_result result k else get_none record k.
Proof.
  intros Hk. unfold log_row. assert (Hbase : ∀ k, k ∉ name_columns → get_none (dmerge (filename_row mrow result filename c) record) k = get_none record k).
  { intros x Hx. unfold get_none. rewrite dget_update by done. destruct (dget record x); [done|]. by rewrite filename_row_other. }
  rewrite !get_fill. rewrite (Hbase "uri") by decided. rewrite (Hbase k) by done. rewrite (Hbase "success") by decided.
  change (bool_decide ("uri" = "success")) with false. cbn [andb]. unfold from_result.
  destruct (decide (k = "success")) as [->|Hs]; [|destruct (decide (k = "uri")) as [->|Hu]].
  - reflexivity.
  - reflexivity.
  - rewrite (bool_decide_eq_false_2 ("success" = k)), (bool_decide_eq_false_2 ("uri" = k)), (bool_decide_eq_false_2 (k ∈ _)) by (congruence || (rewrite !elem_of_cons, elem_of_nil; naive_solver)). done.
Qed.

(** A cell of a column that is read from the name or from results.json. *)
Lemma name_cell k : k ∈ name_columns → dget record k = None → get_none (log_row mrow result filename c record) k = get_none (filename_row mrow result filename c) k.
Proof.
  intros Hk Hr. unfold log_row. rewrite !get_fill. rewrite !(bool_decide_eq_false_2 (_ = k)) by (intros <-; vm_compute in Hk; set_solver). cbn [andb].
  unfold get_none. rewrite dget_update by done. by rewrite Hr.
Qed.

Lemma filename_cells : let row := filename_row mrow result filename c in
  get_none row "experiment_dir" = PStr (e_name d) ∧ get_none row "filename" = PStr filename ∧ get_none row "host_id" = PInt (Artifacts.host c) ∧
  get_none row "phase" = PStr (Artifacts.phase c) ∧ get_none row "label" = PStr (Artifacts.label c) ∧
  get_none row "down_hosts" = from_result result "down_hosts" ∧ get_none row "publisher_down" = from_result result "publisher_down".
Proof.
  destruct (meta_row_spec d meta mrow Hm) as [He _]. cbv zeta. unfold filename_row, set_str, get_none.
  split_and!; cells; try done. rewrite start_row. by rewrite He.
Qed.

Lemma log_row_dict : str_dict (log_row mrow result filename c record).
Proof.
  assert (Hf : ∀ row k, str_dict row → str_dict (fill result row k)).
  { intros row k Hr. unfold fill. destruct result; [|done]. destruct (get_none row k); try done. by apply str_dict_dset. }
  unfold log_row. apply Hf, Hf. apply str_dict_update; [|done]. unfold filename_row, set_str. repeat apply str_dict_dset. apply str_dict_update; [|apply mrow_dict].
  exists ["experiment_dir"]. split; [done|apply NoDup_singleton].
Qed.
End row.

(** * Collecting *)

Section collect.
Context `{JsonLib}.

(** A log of a command: its directory, what its name says, its name and text. *)
Definition content_log : Type := experiment * ContentLogMeta * string * string.
Definition named_log (command : string) (d : experiment) (log : string * file) : option content_log :=
  match parse_content_log_name log.1, log.2 with
  | Some c, inl text => if bool_decide (Artifacts.command c = command) then Some (d, c, log.1, text) else None
  | _, _ => None
  end.
(** The content logs of a directory, in the order in which [glob] finds them. *)
Definition logs_of (command : string) (d : experiment) : list content_log :=
  if e_is_dir d then omap (named_log command d) (e_logs d) else [].
(** The same logs by name. *)
Definition by_name (a b : content_log) : Prop := str_le a.1.2 b.1.2.
Definition in_name_order (logs sorted : list content_log) : Prop := sorted ≡ₚ logs ∧ StronglySorted by_name sorted.
Definition ordered_logs (command : string) (d : experiment) : list content_log :=
  if e_is_dir d then omap (named_log command d) (sorted_logs d) else [].

Lemma str_le_trans a b c : str_le a b → str_le b c → str_le a c.
Proof.
  unfold str_le, String.leb. revert b c. induction a as [|x a IH]; intros [|y b] [|z c]; cbn [String.compare]; try done.
  specialize (IH b c). unfold Ascii.compare. destruct (N.compare_spec (Ascii.N_of_ascii x) (Ascii.N_of_ascii y)) as [Hxy|Hxy|Hxy]; [|intros _|done].
  - rewrite Hxy. by destruct (N.compare_spec (Ascii.N_of_ascii y) (Ascii.N_of_ascii z)).
  - destruct (N.compare_spec (Ascii.N_of_ascii y) (Ascii.N_of_ascii z)) as [Hyz|Hyz|Hyz]; [|intros _|done].
    + intros _. rewrite <- Hyz. by apply N.compare_lt_iff in Hxy as ->.
    + pose proof (N.lt_trans _ _ _ Hxy Hyz) as Hxz. by apply N.compare_lt_iff in Hxz as ->.
Qed.

#[local] Instance log_le_trans : Transitive log_le.
Proof. intros a b c. apply str_le_trans. Qed.
#[local] Instance log_le_total : Total log_le.
Proof. intros a b. unfold log_le, str_le. destruct (String.leb_total a.1 b.1); auto. Qed.

Lemma named_log_inv command d log l : named_log command d log = Some l →
  ∃ c text, l = (d, c, log.1, text) ∧ parse_content_log_name log.1 = Some c ∧ Artifacts.command c = command ∧ log.2 = inl text.
Proof.
  unfold named_log. destruct (parse_content_log_name log.1) as [c|]; [|done]. destruct log.2 as [text|]; [|done]. case_bool_decide; [|done]. intros [= <-]. by exists c, text.
Qed.

Lemma StronglySorted_named command d logs : StronglySorted log_le logs → StronglySorted by_name (omap (named_log command d) logs).
Proof.
  induction 1 as [|log logs _ IH Hle]; cbn [omap list_omap]; [constructor|]. destruct (named_log command d log) as [l|] eqn:E; [|done].
  constructor; [done|]. apply named_log_inv in E as (c & text & -> & _). apply Forall_forall. intros l Hl.
  apply list_elem_of_omap in Hl as (log' & Hin & (c' & text' & -> & _)%named_log_inv).
  rewrite Forall_forall in Hle. exact (Hle log' Hin).
Qed.

(** Sorting the names of a directory loses no log and puts them in order. *)
Lemma ordered_logs_spec command d : in_name_order (logs_of command d) (ordered_logs command d).
Proof.
  unfold in_name_order, logs_of, ordered_logs, sorted_logs. destruct (e_is_dir d); [|split; [done|constructor]]. split.
  - apply omap_Permutation, merge_sort_Permutation.
  - apply StronglySorted_named, StronglySorted_merge_sort; apply _.
Qed.

(** The row of a log. *)
Definition row_of (command : string) (l : content_log) (row : pydict) : Prop :=
  let '(d, c, filename, text) := l in
  ∃ record meta mrow results, parse_log command text = Some (Ok record) ∧ load_meta d = Ok meta ∧ meta_row d meta = Ok mrow ∧
    load_results_by_log_name d = Ok results ∧ row = log_row mrow (results !! filename) filename c record.

Definition rows (grouped : gmap string (list pydict)) (command : string) : list pydict := default [] (grouped !! command).

Lemma rows_append grouped command row k : rows (append_row grouped command row) k = if decide (command = k) then rows grouped k ++ [row] else rows grouped k.
Proof. unfold rows, append_row. case_decide as E; [subst k; by rewrite lookup_insert_eq|by rewrite lookup_insert_ne]. Qed.

Lemma collect_log_rows command d meta mrow results grouped log grouped' : command ∈ fst <$> COMMAND_SCHEMAS →
  load_meta d = Ok meta → meta_row d meta = Ok mrow → load_results_by_log_name d = Ok results →
  collect_log mrow results grouped log = Ok grouped' →
  ∃ new, rows grouped' command = rows grouped command ++ new ∧ Forall2 (row_of command) (option_list (named_log command d log)) new.
Proof.
  intros Hcmd Hmeta Hrow Hres. unfold collect_log, named_log. destruct (parse_content_log_name log.1) as [c|]; [|intros [= <-]; exists []; by rewrite app_nil_r].
  case_bool_decide as Hc.
  { intros [= <-]. exists []. rewrite app_nil_r. split; [done|]. destruct log.2; [|constructor]. rewrite bool_decide_eq_false_2; [constructor|]. by intros <-. }
  destruct log.2 as [text|e]; [|done]. destruct (parse_log (Artifacts.command c) text) as [r|] eqn:Er.
  - intros (record & -> & [= <-])%res_bind_Ok. rewrite rows_append. case_decide as E.
    + subst command. rewrite bool_decide_eq_true_2 by done. eexists. split; [done|]. constructor; [|constructor]. by exists record, meta, mrow, results.
    + rewrite bool_decide_eq_false_2 by done. exists []. by rewrite app_nil_r.
  - exfalso. cbn in Hc. rewrite !elem_of_cons, elem_of_nil in Hc. destruct_or! Hc; try done; rewrite Hc in Er; discriminate Er.
Qed.

Lemma collect_rows command directories grouped grouped' : command ∈ fst <$> COMMAND_SCHEMAS → foldM collect_dir grouped directories = Ok grouped' →
  ∃ new, rows grouped' command = rows grouped command ++ new ∧ Forall2 (row_of command) (directories ≫= ordered_logs command) new.
Proof.
  intros Hcmd. revert grouped. induction directories as [|d ds IH]; intros grouped; cbn [foldM].
  - intros [= <-]. exists []. split; [by rewrite app_nil_r|constructor].
  - intros (g1 & H1 & H2)%res_bind_Ok. destruct (IH g1 H2) as (new2 & E2 & F2). cbn [mbind list_bind].
    assert (Hd : ∃ new1, rows g1 command = rows grouped command ++ new1 ∧ Forall2 (row_of command) (ordered_logs command d) new1).
    { unfold collect_dir in H1. unfold ordered_logs. destruct (e_is_dir d); cbn [negb] in H1; [|injection H1 as <-; exists []; by rewrite app_nil_r].
      apply res_bind_Ok in H1 as (meta & Hm & (results & Hr & (mrow & Hmr & Hf)%res_bind_Ok)%res_bind_Ok). clear IH H2 E2 F2 new2.
      revert grouped Hf. induction (sorted_logs d) as [|log logs IHl]; intros grouped; cbn [foldM]; [intros [= <-]; exists []; by rewrite app_nil_r|].
      intros (g2 & Hg2 & Hf)%res_bind_Ok. destruct (collect_log_rows command d meta mrow results grouped log g2 Hcmd Hm Hmr Hr Hg2) as (n1 & En1 & Fn1).
      destruct (IHl g2 Hf) as (n2 & En2 & Fn2). exists (n1 ++ n2). rewrite En2, En1, app_assoc. split; [done|]. cbn [omap list_omap].
      destruct (named_log command d log); cbn [option_list] in Fn1; [|inversion Fn1; subst; exact Fn2].
      inversion Fn1 as [|? x ? ? Hx Hnil]; subst. inversion Hnil; subst. by constructor. }
    destruct Hd as (new1 & E1 & F1). exists (new1 ++ new2). rewrite E2, E1, app_assoc. split; [done|]. by apply Forall2_app.
Qed.
End collect.

(** * Headers *)

Lemma fixed_fields_eq command fields : schema_of command = Some fields → fixed_fields command = name_columns ++ csv_columns fields ∧ NoDup (fixed_fields command).
Proof.
  intros Hs. unfold fixed_fields, COMMAND_COLS. rewrite Hs. split; [unfold name_columns; cbn [fmap option_fmap option_map default]; by rewrite <- app_comm_cons, app_assoc|].
  destruct (schemas_good command fields Hs) as (Hc & _).
  assert (Hb : forallb (λ c, bool_decide (NoDup (fixed_fields c))) ["cefputfile"; "cefgetfile"; "cefpubfile"; "cefsubfile"] = true) by (vm_compute; reflexivity).
  rewrite List.forallb_forall in Hb. specialize (Hb command (proj1 (list_elem_of_In _ _) Hc)). apply bool_decide_eq_true in Hb.
  unfold fixed_fields, COMMAND_COLS in Hb. by rewrite Hs in Hb.
Qed.

Lemma add_news fields ks : NoDup fields → NoDup (foldl add_new fields ks) ∧ fields `prefix_of` foldl add_new fields ks ∧ ∀ k, k ∈ ks → k ∈ foldl add_new fields ks.
Proof.
  revert fields. induction ks as [|k ks IH]; intros fields Hnd; cbn [foldl]; [split_and!; [done|done|by intros k ?%elem_of_nil]|].
  assert (Ha : NoDup (add_new fields k) ∧ fields `prefix_of` add_new fields k ∧ k ∈ add_new fields k).
  { unfold add_new. case_bool_decide as Hk; [done|]. split_and!; [|by exists [k]|set_solver]. apply NoDup_app. split_and!; [done| |apply NoDup_singleton].
    intros x Hx ->%list_elem_of_singleton. done. }
  destruct Ha as (Ha1 & Ha2 & Ha3). destruct (IH (add_new fields k) Ha1) as (H1 & H2 & H3). split_and!; [done|by etrans|].
  intros x [->|Hx]%elem_of_cons; [|by apply H3]. destruct H2 as [rest E]. rewrite E. apply elem_of_app. by left.
Qed.

(** The cells of a row, by what they are taken from. *)
Definition row_cells `{JsonLib} (command : string) (l : content_log) (row : pydict) : Prop :=
  let '(d, c, filename, text) := l in
  ∃ record results, parse_log command text = Some (Ok record) ∧ load_results_by_log_name d = Ok results ∧
    let result := results !! filename in
    (∀ k, k ∉ name_columns → get_none row k =
       if bool_decide (k ∈ ["uri"; "success"]) && is_none (get_none record k) then from_result result k else get_none record k) ∧
    (clean command text →
       get_none row "experiment_dir" = PStr (e_name d) ∧ get_none row "filename" = PStr filename ∧ get_none row "host_id" = PInt (Artifacts.host c) ∧
       get_none row "phase" = PStr (Artifacts.phase c) ∧ get_none row "label" = PStr (Artifacts.label c) ∧
       get_none row "down_hosts" = from_result result "down_hosts" ∧ get_none row "publisher_down" = from_result result "publisher_down").

Lemma row_of_cells `{JsonLib} command l row : row_of command l row → row_cells command l row ∧ str_dict row.
Proof.
  destruct l as [[[d c] filename] text]. intros (record & meta & mrow & results & Hp & Hm & Hmr & Hr & ->). pose proof (record_dict command text record Hp) as Hd. split.
  - exists record, results. split; [done|]. split; [done|]. cbv zeta. split.
    + intros k Hk. by apply (log_cell d meta).
    + intros Hc. assert (Hn : ∀ k, k ∈ name_columns → get_none (log_row mrow (results !! filename) filename c record) k = get_none (filename_row mrow (results !! filename) filename c) k).
      { intros k Hk. apply (name_cell d meta); try done. by apply (record_keeps_names command text). }
      rewrite !Hn by decided. by apply (filename_cells d meta).
  - by apply (log_row_dict d meta mrow).
Qed.

(** The rows of one directory are among those of all. *)
Lemma ordered_directories command directories :
  Forall2 (λ d, in_name_order (logs_of command d)) directories (ordered_logs command <$> directories) ∧
  directories ≫= ordered_logs command = concat (ordered_logs command <$> directories).
Proof.
  induction directories as [|d ds [IH1 IH2]]; [by split; [constructor|]|]. split.
  - rewrite fmap_cons. constructor; [apply ordered_logs_spec|done].
  - cbn [mbind list_bind]. by rewrite IH2, fmap_cons.
Qed.

(** The headers of the tables. *)
Lemma header_spec `{JsonLib} directories grouped command fields :
  collect_records directories = Ok grouped → schema_of command = Some fields →
  let header := build_fieldnames command (rows grouped command) in
  NoDup header ∧ (name_columns ++ csv_columns fields) `prefix_of` header ∧
  (Forall str_dict (rows grouped command) → ∀ row k, row ∈ rows grouped command → dhas row k = true → k ∈ header).
Proof.
  intros Hg Hs. destruct (fixed_fields_eq command fields Hs) as [Ef Hnd].
  destruct (add_news (fixed_fields command) (rows grouped command ≫= λ r, key_str <$> r.*1) Hnd) as (H1 & H2 & H3).
  split_and!; [exact H1|rewrite <- Ef; exact H2|]. intros Hd row k Hrow Hk. apply H3. apply list_elem_of_bind. exists row. split; [|done].
  rewrite Forall_forall in Hd. destruct (Hd row Hrow) as (ks & Eks & _).
  rewrite Eks. apply dhas_true in Hk as [v Hv]. assert (Hin : k ∈ ks) by (apply (dget_keys row ks k Eks); by rewrite Hv).
  apply list_elem_of_fmap. exists (PStr k). split; [done|]. by apply list_elem_of_fmap_2.
Qed.

(** C28: the summary is complete. When the directories are collected, the rows of a
    command are its content logs, one row each: those of the first directory first,
    and those of one directory all of its logs of that command, none twice, in the
    order of their names. A row has the values the parser read; its URI and its
    success, where the log leaves them open, are those of the result with that log
    file; its experiment, host, phase and label are those of the directory and the
    name of the file, unless a publisher's or a subscriber's log prints an unknown
    label that has the name of one of these columns; and a canonical name gives
    back the host, the phase and the label it was made of. The header has no column
    twice, starts with the fixed columns in order, and has a column for every key of
    every row, so that writing the table drops nothing. *)
Theorem summary_complete `{JsonLib} directories grouped command fields : collect_records directories = Ok grouped → schema_of command = Some fields →
  let header := build_fieldnames command (rows grouped command) in
  (∃ logs, Forall2 (λ d, in_name_order (logs_of command d)) directories logs ∧ Forall2 (row_cells command) (concat logs) (rows grouped command)) ∧
  (∀ d c text ph h uri, (d, c, content_log_name command ph h uri, text) ∈ directories ≫= logs_of command → ph ≠ "" → all_chars is_lower ph = true → 0 ≤ h →
     safe_uri_label uri ≠ "" → all_chars (λ c, negb (bool_decide (c = Artifacts.newline))) (safe_uri_label uri) = true →
     c = mkContentLogMeta command ph h (safe_uri_label uri)) ∧
  NoDup header ∧ (name_columns ++ csv_columns fields) `prefix_of` header ∧ ∀ row k, row ∈ rows grouped command → dhas row k = true → k ∈ header.
Proof.
  intros Hg Hs header. destruct (schemas_good command fields Hs) as (Hc & _).
  assert (Hcmd : command ∈ fst <$> COMMAND_SCHEMAS) by (rewrite !elem_of_cons, elem_of_nil in Hc; cbn; destruct_or! Hc; try done; subst command; set_solver).
  destruct (collect_rows command directories ∅ grouped Hcmd Hg) as (new & E & Hrows). assert (rows ∅ command = []) as E0 by done. rewrite E0 in E. cbn [app] in E. subst new.
  destruct (header_spec directories grouped command fields Hg Hs) as (H1 & H2 & H3). destruct (ordered_directories command directories) as [Hord Econcat]. split_and!.
  - exists (ordered_logs command <$> directories). split; [exact Hord|]. rewrite <- Econcat. eapply Forall2_impl; [exact Hrows|]. intros l row Hr. by apply row_of_cells.
  - intros d c text ph h uri (d' & Hin & Hd)%list_elem_of_bind Hph Hlo Hh Hl Hnl. unfold logs_of in Hin. destruct (e_is_dir d'); [|by apply elem_of_nil in Hin].
    apply list_elem_of_omap in Hin as (log & _ & (c' & text' & [= -> <- E ->] & Hp & _ & _)%named_log_inv). rewrite <- E in Hp.
    rewrite content_log_roundtrip in Hp; [by simplify_eq| |done..].
    rewrite !elem_of_cons, elem_of_nil in Hc. destruct_or! Hc; try done; subst command; decided.
  - exact H1.
  - exact H2.
  - apply H3. apply Forall_forall. intros row Hrow. apply list_elem_of_lookup in Hrow as [i Hi].
    destruct (Forall2_lookup_r _ _ _ _ _ Hrows Hi) as (l & _ & Hr). by destruct (row_of_cells command l row Hr).
Qed.

(** * Example *)

#[local] Instance toy_json : JsonLib := λ text,
  if bool_decide (text = "meta") then inl (PDict [(PStr "num", PInt 3)])
  else inl (PList [PDict [(PStr "op_type", PStr "get"); (PStr "log_file", PStr "/run/cefgetfile_main_h2_a.log"); (PStr "uri", PStr "ccnx:/a"); (PStr "success", PBool false)]]).
Definition demo_dir : experiment :=
  mkExperiment "ex3" true (Some (inl "meta")) (Some (inl "results"))
    [("cefputfile_main_h0_a.log", inl demo_log); ("cefgetfile_main_h2_a.log", inl "connecting"); ("notes.log", inl "");
     ("cefgetfile_main_h1_b.log", inl "connecting")].

(** A log that was cut off after its sign ends the summary of every directory. *)
Example cut_off_summary :
  collect_records [demo_dir; mkExperiment "ex4" true None None [("cefgetfile_main_h1_b.log", inl "[cefgetfile] Duration = ")]] =
    raise EValueError "could not convert string to float: ''".
Proof. vm_compute. reflexivity. Qed.

(** Two gets found in the wrong order, whose logs say nothing: the row of the first
    name comes first, and the URI of the second is that of its result. *)
Lemma summary_complete_witness : ∃ grouped row1 row2, collect_records [demo_dir] = Ok grouped ∧ rows grouped "cefgetfile" = [row1; row2] ∧
  get_none row1 "host_id" = PInt 1 ∧ get_none row2 "host_id" = PInt 2 ∧ get_none row2 "uri" = PStr "ccnx:/a" ∧
  NoDup (build_fieldnames "cefgetfile" [row1; row2]).
Proof.
  assert (Hok : match collect_records [demo_dir] with Ok _ => True | _ => False end) by (vm_compute; exact I).
  destruct (collect_records [demo_dir]) as [grouped|e|] eqn:Hg; [|done..].
  destruct (summary_complete [demo_dir] grouped "cefgetfile" receive_fields Hg eq_refl) as ((logs & Hlogs & Hrows) & _ & Hnd & _). exists grouped.
  inversion Hlogs as [|? ls ? rest [Hperm Hsorted] Hrest]; subst. inversion Hrest; subst. cbn [concat] in Hrows. rewrite app_nil_r in Hrows.
  assert (Hdemo : ∃ c1 c2, logs_of "cefgetfile" demo_dir =
    [(demo_dir, c2, "cefgetfile_main_h2_a.log", "connecting"); (demo_dir, c1, "cefgetfile_main_h1_b.log", "connecting")] ∧
    Artifacts.host c1 = 1 ∧ Artifacts.host c2 = 2) by (do 2 eexists; split; [vm_compute; reflexivity|by split]).
  destruct Hdemo as (c1 & c2 & El & Hh1 & Hh2). rewrite El in Hperm. symmetry in Hperm.
  apply Permutation_length_2_inv in Hperm as [->| ->].
  { inversion Hsorted as [|? ? _ Hle]; subst. inversion Hle as [|? ? Hbad _]; subst. vm_compute in Hbad. discriminate Hbad. }
  inversion Hrows as [|? row1 ? rest1 Hc1 Hr1 E1 E2]; subst. inversion Hr1 as [|? row2 ? rest2 Hc2 Hr2]; subst. inversion Hr2; subst.
  rewrite <- E2 in Hnd. exists row1, row2.
  destruct Hc1 as (? & ? & _ & _ & _ & Hname1), Hc2 as (record & results & Hp & Hr & Hlog & Hname2).
  assert (Hclean : clean "cefgetfile" "connecting") by (intros Hin; rewrite !elem_of_cons, elem_of_nil in Hin; destruct_or! Hin; discriminate Hin || done).
  split_and!; [done|done| | | |exact Hnd].
  - destruct (Hname1 Hclean) as (_ & _ & -> & _). by rewrite Hh1.
  - destruct (Hname2 Hclean) as (_ & _ & -> & _). by rewrite Hh2.
  - rewrite (Hlog "uri") by decided.
    assert (Eu : match parse_log "cefgetfile" "connecting" with Some (Ok r) => get_none r "uri" = PNone | _ => False end) by (vm_compute; reflexivity).
    assert (Er : match load_results_by_log_name demo_dir with Ok m => from_result (m !! "cefgetfile_main_h2_a.log") "uri" = PStr "ccnx:/a" | _ => False end) by (vm_compute; reflexivity).
    rewrite Hp in Eu. rewrite Hr in Er. rewrite Eu. exact Er.
Defined.
