(* ===== verification/Lifecycle.v ===== *)
(** Component: the life of a scenario (src/scenarios/base.py, execute and
    _propagate_failures; src/runtime/scenario_setup.py, setup_scenario and
    teardown_scenario; src/runtime/daemon_fleet.py; src/runtime/cleanup.py).  Each
    operation on the machine is answered by an environment that may let it raise
    anything; the trace keeps operations and answers. *)
From S2P Require Import Prelude.
Local Open Scope Z_scope.

(** * Exceptions and groups of them *)

(** [Group true]: a BaseExceptionGroup that is no ExceptionGroup. *)
Inductive exc := Plain (e : exn) | Group (base : bool) (message : string) (members : list exc).

(** [isinstance(e, Exception)], [isinstance(e, KeyboardInterrupt)]. *)
Definition exc_is_exception (x : exc) : bool := match x with Plain e => is_exception e | Group base _ _ => negb base end.
Definition is_interrupt (x : exc) : bool := match x with Plain e => bool_decide (exn_cls e = EKeyboardInterrupt) | Group _ _ _ => false end.

(** [BaseExceptionGroup(message, members)] is an ExceptionGroup when all members are
    Exceptions. *)
Definition BaseExceptionGroup (message : string) (members : list exc) : exc :=
  Group (negb (forallb exc_is_exception members)) message members.

(** * Operations *)

Inductive op :=
  | Build | Create | NetStart | Setup (stage : string) | Experiment | Main
  | StartCsmgrd (i : Z) | StartCefnetd (i : Z) | WaitCefnetd (i : Z) | StopCefnetd (i : Z) | StopCsmgrd (i : Z)
  | Shutdown | DebugPre | BridgeCleanup | ExternalCleanup | DebugPost | CollectLogs
  | Pkill (host pattern : string) | NetStop | MnCleanup | CleanupDirs | WriteResults.

(** What an operation does: it returns - [WaitCefnetd] whether the daemon is
    ready, [Shutdown] and [WriteResults] the failures they collected - or raises. *)
Notation failures := (list (string * exc)).
Inductive answer := Returned (ready : bool) (fs : failures) | Raised (x : exc).

Record DaemonFleet := mkFleet { node_names : list Z; csmgrd_nodes : gset Z; readiness_policy : string; started_csmgrd : gset Z }.

(** [trace]: what was done so far; [net]: the local of [execute] is set;
    [daemon_fleet]: the attribute of the scenario, set once [setup_scenario]
    returned; [started]: [started_csmgrd] of the fleet being set up. *)
Record world := mkWorld { trace : list (op * answer); net : bool; daemon_fleet : option DaemonFleet; started : gset Z }.

Definition Prog (S A : Type) : Type := S → S * (A + exc).
#[export] Instance Prog_ret {S} : MRet (Prog S) := λ A a w, (w, inl a).
#[export] Instance Prog_fmap {S} : FMap (Prog S) := λ A B f m w, match m w with (w', inl a) => (w', inl (f a)) | (w', inr x) => (w', inr x) end.
#[export] Instance Prog_bind {S} : MBind (Prog S) := λ A B f m w, match m w with (w', inl a) => f a w' | (w', inr x) => (w', inr x) end.
Notation P := (Prog world).

Definition raise_exc {S A} (x : exc) : Prog S A := λ w, (w, inr x).
Definition raise_new {S A} (c : exn_class) (msg : string) : Prog S A := raise_exc (Plain (Exn c msg)).
Definition set_net : P () := λ w, (mkWorld (trace w) true (daemon_fleet w) (started w), inl ()).
Definition set_fleet (f : DaemonFleet) : P () := λ w, (mkWorld (trace w) (net w) (Some f) (started w), inl ()).
Definition set_started (s : gset Z) : P () := λ w, (mkWorld (trace w) (net w) (daemon_fleet w) s, inl ()).
Definition ask {A} (f : world → A) : P A := λ w, (w, inl (f w)).

Fixpoint each {A} (f : A → P ()) (xs : list A) : P () :=
  match xs with [] => mret () | x :: xs => f x ≫= λ _, each f xs end.

(** [try: m except BaseException as exc: failures.append((stage, exc))]. *)
Definition guarded {S} (stage : string) (m : Prog S ()) (fs : failures) : Prog S failures := λ w,
  match m w with (w', inl _) => (w', inl fs) | (w', inr x) => (w', inl (fs ++ [(stage, x)])) end.
Definition extending {S} (stage : string) (m : Prog S failures) (fs : failures) : Prog S failures := λ w,
  match m w with (w', inl more) => (w', inl (fs ++ more)) | (w', inr x) => (w', inl (fs ++ [(stage, x)])) end.
Fixpoint guarded_each {A} (stage : A → string) (f : A → P ()) (xs : list A) (fs : failures) : P failures :=
  match xs with [] => mret fs | x :: xs => guarded (stage x) (f x) fs ≫= guarded_each stage f xs end.

(** [_propagate_failures]. *)
Definition propagate_failures {S} (primary : option exc) (fs : failures) : Prog S () :=
  match fs, primary with
  | [], None => mret ()
  | [], Some x => raise_exc x
  | _, Some x => raise_exc (BaseExceptionGroup "lifecycle failures" (x :: fs.*2))
  | [(_, x)], None => raise_exc x
  | _, None => raise_exc (if forallb exc_is_exception fs.*2 then Group false "cleanup failures" fs.*2 else BaseExceptionGroup "cleanup failures" fs.*2)
  end.

Section lifecycle.
(** The answer to an operation, given all that was done before. *)
Context (reply : list (op * answer) → op → answer).

Definition perform (o : op) : P (bool * failures) := λ w,
  let a := reply (trace w) o in
  let w' := mkWorld (trace w ++ [(o, a)]) (net w) (daemon_fleet w) (started w) in
  match a with Returned ready fs => (w', inl (ready, fs)) | Raised x => (w', inr x) end.
Definition do (o : op) : P () := perform o ≫= λ _, mret ().

(** * DaemonFleet *)

(** [build_fleet] and the constructor's check. *)
Definition build_fleet (host_num : Z) (csmgrd_host_ids : gset Z) (policy : string) : P DaemonFleet :=
  if bool_decide (policy ∈ ["warn"; "raise"]) then mret (mkFleet (range host_num) csmgrd_host_ids policy ∅)
  else raise_new EValueError "readiness_policy must be 'warn' or 'raise'".

Definition start_one_csmgrd (i : Z) : P () := do (StartCsmgrd i) ≫= λ _, ask started ≫= λ s, set_started ({[i]} ∪ s).
Definition start_all (f : DaemonFleet) : P () :=
  each start_one_csmgrd (sorted_set (csmgrd_nodes f)) ≫= λ _, each (λ i, do (StartCefnetd i)) (node_names f).

Fixpoint wait_each (l : list Z) (not_ready : list Z) : P (list Z) :=
  match l with
  | [] => mret not_ready
  | i :: l => perform (WaitCefnetd i) ≫= λ r : bool * failures, wait_each l (if r.1 then not_ready else not_ready ++ [i])
  end.
Definition host_name (i : Z) : string := "h" +s+ str_Z i.
Definition wait_ready (f : DaemonFleet) : P (list Z) :=
  not_ready ← wait_each (node_names f) [];
  if bool_decide (not_ready ≠ [] ∧ readiness_policy f = "raise") then
    raise_new ERuntimeError ("cefnetd not ready on " +s+ String.concat ", " (host_name <$> not_ready) +s+ "; aborting before FIB programming")
  else mret not_ready.

Definition stop_all (f : DaemonFleet) : P failures :=
  fs ← guarded_each (λ i, "stop_cefnetd " +s+ host_name i) (λ i, do (StopCefnetd i)) (node_names f) [];
  guarded_each (λ i, "stop_csmgrd " +s+ host_name i) (λ i, do (StopCsmgrd i)) (sorted_set (started_csmgrd f)) fs.

(** * Setup and teardown *)

(** The scenario: its hosts, what its cache strategy places and its teardown names,
    its readiness policy, whether it has bridges, a bridge manager and external
    bridges, the hosts of the network and the collection of daemon logs. *)
Record scenario := mkScenario {
  host_count : Z; placed : gset Z; teardown_csmgrd : gset Z; policy : string;
  bridge_configs : bool; bridge_manager : bool; external_bridges : bool;
  net_hosts : list string; log_collection : bool;
}.
Context (sc : scenario).

Definition setup_scenario : P DaemonFleet :=
  if bridge_configs sc && negb (bridge_manager sc) then raise_new EValueError "ScenarioSetupSpec.bridge_configs requires bridge_manager"
  else
    do (Setup "apply_ip_addr") ≫= λ _,
    each (λ s, do (Setup s)) (if bridge_configs sc then ["setup_bridges"] else []) ≫= λ _,
    each (λ s, do (Setup s)) ["ifconfig"; "bw_ext"; "render_png"; "place"; "apply_configs"] ≫= λ _,
    fleet ← build_fleet (host_count sc) (placed sc) (policy sc);
    set_started ∅ ≫= λ _,
    start_all fleet ≫= λ _,
    wait_ready fleet ≫= λ _,
    each (λ s, do (Setup s)) ["apply_fib"; "run_cefstatus_all"; "print_mesh_links"] ≫= λ _,
    s ← ask started;
    mret (mkFleet (node_names fleet) (csmgrd_nodes fleet) (readiness_policy fleet) s).
Definition configure : P () := setup_scenario ≫= set_fleet.

Definition teardown_scenario : P failures :=
  known ← ask daemon_fleet;
  fleet ← match known with Some f => mret f | None => build_fleet (host_count sc) (teardown_csmgrd sc) (policy sc) end;
  fs ← stop_all fleet;
  fs ← (if bridge_manager sc then guarded "bridge_manager.cleanup" (do BridgeCleanup) fs else mret fs);
  if external_bridges sc then guarded "cleanup_external_bridges" (do ExternalCleanup) fs else mret fs.
Definition teardown : P () :=
  fs ← teardown_scenario;
  match fs with [] => mret () | _ => propagate_failures None fs end.

(** * Cleanup *)

Definition CEF_PATTERNS : list string :=
  ["cefnetd"; "csmgrd"; "cefsubfile"; "cefpubfile"; "cefputfile"; "cefgetfile"; "cefroute"; "cefstatus"; "conpubd"].
Definition pkill (host pattern : string) : P () := λ w,
  match do (Pkill host pattern) w with
  | (w', inr (Plain (Exn EAssertionError _))) => (w', inl ())
  | r => r
  end.
Definition kill_cef_processes : P () := each (λ h, each (pkill h) CEF_PATTERNS) (net_hosts sc).
Definition cleanup_all : P () := kill_cef_processes ≫= λ _, do NetStop ≫= λ _, do MnCleanup ≫= λ _, do CleanupDirs.

(** * execute *)

Definition main_stages : P () :=
  do Build ≫= λ _, do Create ≫= λ _, set_net ≫= λ _, do NetStart ≫= λ _, configure ≫= λ _, do Experiment ≫= λ _, do Main.

Definition cleanup_stages : P failures :=
  fs ← extending "shutdown_runtime_resources" (snd <$> perform Shutdown) [];
  up ← ask net;
  fs ← (if up : bool then
          fs ← guarded "debug_pre_teardown" (do DebugPre) fs;
          fs ← guarded "teardown" teardown fs;
          fs ← guarded "debug_post_teardown" (do DebugPost) fs;
          fs ← (if log_collection sc then guarded "collect_daemon_logs" (do CollectLogs) fs else mret fs);
          guarded "cleanup_all" cleanup_all fs
        else guarded "cleanup_node_dirs" (do CleanupDirs) fs);
  extending "write_results" (snd <$> perform WriteResults) fs.

(** The exception in flight when the cleanup starts; an interrupt is dropped. *)
Definition primary_of (out : () + exc) : option exc :=
  match out with inr x => if is_interrupt x then None else Some x | inl _ => None end.

Definition execute : P () := λ w,
  let '(w1, out) := main_stages w in
  (cleanup_stages ≫= propagate_failures (primary_of out)) w1.
End lifecycle.

(** * What went wrong *)

(** [x] is [y] or a member, at any depth, of the group [y]. *)
Inductive within (x : exc) : exc → Prop :=
  | within_self : within x x
  | within_group base message members y : y ∈ members → within x y → within x (Group base message members).

(** The exceptions an operation comes with: what it raised - a busy shell at a pkill
    is skipped by design - or the failures it reports. *)
Definition troubles (oa : op * answer) : list exc :=
  match oa.2 with
  | Raised x => match oa.1, x with Pkill _ _, Plain (Exn EAssertionError _) => [] | _, _ => [x] end
  | Returned _ fs => match oa.1 with Shutdown | WriteResults => fs.*2 | _ => [] end
  end.

(** * The sequence of operations *)

Notation ops w := (trace w).*1.

Section sequence.
Context (reply : list (op * answer) → op → answer).

(** [m] does the operations [l] in order, all of them when it returns and an initial
    segment when it raises. *)
Definition attempts {A} (m : P A) (l : list op) : Prop := ∀ w w' out, m w = (w', out) →
  net w' = net w ∧ daemon_fleet w' = daemon_fleet w ∧
  ∃ l', ops w' = ops w ++ l' ∧ l' `prefix_of` l ∧ (∀ a, out = inl a → l' = l).
(** [m] returns and does all of them. *)
Definition performs {A} (m : P A) (l : list op) : Prop := ∀ w, ∃ w' a, m w = (w', inl a) ∧
  net w' = net w ∧ daemon_fleet w' = daemon_fleet w ∧ ops w' = ops w ++ l.

Lemma attempts_ret {A} (a : A) : attempts (mret a) [].
Proof. intros w w' out [= <- <-]. split_and!; [done..|]. exists []. by rewrite app_nil_r. Qed.
Lemma attempts_raise {A} x l : attempts (@raise_exc world A x) l.
Proof. intros w w' out [= <- <-]. split_and!; [done..|]. exists []. rewrite app_nil_r. split_and!; [done|apply prefix_nil|done]. Qed.
Lemma attempts_ask {A} (f : world → A) : attempts (ask f) [].
Proof. intros w w' out [= <- <-]. split_and!; [done..|]. exists []. by rewrite app_nil_r. Qed.
Lemma attempts_set_started s : attempts (set_started s) [].
Proof. intros w w' out [= <- <-]. split_and!; [done..|]. exists []. by rewrite app_nil_r. Qed.

Lemma attempts_bind {A B} (m : P A) (f : A → P B) l k : attempts m l → (∀ a, attempts (f a) k) → attempts (m ≫= f) (l ++ k).
Proof.
  intros Hm Hf w w' out. unfold mbind, Prog_bind. destruct (m w) as [w1 [a|x]] eqn:E.
  - intros E2. destruct (Hm _ _ _ E) as (N1 & F1 & l1 & O1 & _ & L1). destruct (Hf a _ _ _ E2) as (N2 & F2 & l2 & O2 & P2 & L2).
    rewrite (L1 a eq_refl) in O1. split_and!; [congruence..|]. exists (l ++ l2). split_and!.
    + by rewrite O2, O1, app_assoc.
    + by apply prefix_app.
    + intros b Hb. by rewrite (L2 b Hb).
  - intros [= <- <-]. destruct (Hm _ _ _ E) as (N1 & F1 & l1 & O1 & P1 & _). split_and!; [done..|]. exists l1.
    split_and!; [done| |done]. by apply prefix_app_r.
Qed.

Lemma attempts_perform o : attempts (perform reply o) [o].
Proof.
  intros w w' out. unfold perform. destruct (reply (trace w) o); intros [= <- <-]; (split_and!; [done..|]); exists [o];
    simpl; by rewrite fmap_app.
Qed.
Lemma attempts_do o : attempts (do reply o) [o].
Proof. apply (attempts_bind _ _ [o] []); [apply attempts_perform|]. intros a. apply attempts_ret. Qed.

Lemma attempts_each {A} (f : A → P ()) (g : A → op) xs : (∀ x, attempts (f x) [g x]) → attempts (each f xs) (g <$> xs).
Proof.
  intros Hf. induction xs as [|x xs IH]; [apply attempts_ret|]. simpl. apply (attempts_bind _ _ [g x]); [done|]. intros _. exact IH.
Qed.

Lemma performs_ret {A} (a : A) : performs (mret a) [].
Proof. intros w. exists w, a. by rewrite app_nil_r. Qed.

Lemma performs_bind {A B} (m : P A) (f : A → P B) l k : performs m l → (∀ a, performs (f a) k) → performs (m ≫= f) (l ++ k).
Proof.
  intros Hm Hf w. destruct (Hm w) as (w1 & a & E1 & N1 & F1 & O1). destruct (Hf a w1) as (w2 & b & E2 & N2 & F2 & O2).
  exists w2, b. unfold mbind, Prog_bind. rewrite E1. split_and!; [done|congruence..|]. by rewrite O2, O1, app_assoc.
Qed.

Lemma performs_guarded stage m fs l : attempts m l → (∀ w, ops (m w).1 = ops w ++ l) → performs (guarded stage m fs) l.
Proof.
  intros Hm Hl w. unfold guarded. specialize (Hl w). destruct (m w) as [w1 [a|x]] eqn:E; destruct (Hm _ _ _ E) as (N & F & _); by repeat eexists.
Qed.
Lemma ops_do o w : ops (do reply o w).1 = ops w ++ [o].
Proof. unfold do, perform, mbind, Prog_bind. destruct (reply (trace w) o); simpl; by rewrite fmap_app. Qed.
Lemma performs_guarded_do stage o fs : performs (guarded stage (do reply o) fs) [o].
Proof. apply performs_guarded; [apply attempts_do|apply ops_do]. Qed.

Lemma performs_guarded_each {A} (stage : A → string) (f : A → op) xs fs :
  performs (guarded_each stage (λ x, do reply (f x)) xs fs) (f <$> xs).
Proof.
  revert fs. induction xs as [|x xs IH]; intros fs; simpl; [apply performs_ret|].
  apply (performs_bind _ _ [f x]); [apply performs_guarded_do|]. intros a. apply IH.
Qed.

Lemma performs_stop_all f : performs (stop_all reply f) ((StopCefnetd <$> node_names f) ++ (StopCsmgrd <$> sorted_set (started_csmgrd f))).
Proof. apply performs_bind; [apply performs_guarded_each|]. intros fs. apply performs_guarded_each. Qed.

Context (sc : scenario).

(** What [setup_scenario] does. *)
Definition setup_ops : list op :=
  [Setup "apply_ip_addr"] ++ (if bridge_configs sc then [Setup "setup_bridges"] else [])
  ++ (Setup <$> ["ifconfig"; "bw_ext"; "render_png"; "place"; "apply_configs"])
  ++ (StartCsmgrd <$> sorted_set (placed sc)) ++ (StartCefnetd <$> range (host_count sc)) ++ (WaitCefnetd <$> range (host_count sc))
  ++ (Setup <$> ["apply_fib"; "run_cefstatus_all"; "print_mesh_links"]).

Lemma attempts_wait_each l nr : attempts (wait_each reply l nr) (WaitCefnetd <$> l).
Proof.
  revert nr. induction l as [|i l IH]; intros nr; simpl; [apply attempts_ret|].
  apply (attempts_bind _ _ [WaitCefnetd i]); [apply attempts_perform|]. intros r. apply IH.
Qed.

Lemma attempts_starts f : attempts (start_all reply f) ((StartCsmgrd <$> sorted_set (csmgrd_nodes f)) ++ (StartCefnetd <$> node_names f)).
Proof.
  apply attempts_bind; [|intros _]; apply attempts_each; intros i; [|apply attempts_do].
  apply (attempts_bind _ _ [StartCsmgrd i] []); [apply attempts_do|]. intros _.
  apply (attempts_bind _ _ [] []); [apply attempts_ask|]. intros s. apply attempts_set_started.
Qed.

Lemma attempts_setup : attempts (setup_scenario reply sc) setup_ops.
Proof.
  unfold setup_scenario, setup_ops. destruct (bridge_configs sc && negb (bridge_manager sc)); [apply attempts_raise|].
  apply attempts_bind; [apply attempts_do|]. intros _.
  apply attempts_bind; [destruct (bridge_configs sc); [exact (attempts_each _ Setup ["setup_bridges"] (λ s, attempts_do (Setup s)))|apply attempts_ret]|]. intros _.
  apply attempts_bind; [apply attempts_each; intros s; apply attempts_do|]. intros _.
  unfold build_fleet. case_bool_decide; [|apply attempts_raise].
  set (fleet := mkFleet (range (host_count sc)) (placed sc) (policy sc) ∅).
  rewrite (app_assoc (StartCsmgrd <$> _)).
  apply (attempts_bind (set_started ∅) _ [] _); [apply attempts_set_started|]. intros _.
  apply attempts_bind; [exact (attempts_starts fleet)|]. intros _.
  apply attempts_bind.
  { rewrite <- (app_nil_r (WaitCefnetd <$> _)). apply attempts_bind; [apply attempts_wait_each|]. intros nr.
    case_bool_decide; [apply attempts_raise|apply attempts_ret]. }
  intros _. rewrite <- (app_nil_r (Setup <$> _)). apply attempts_bind; [apply attempts_each; intros s; apply attempts_do|]. intros _.
  apply (attempts_bind _ _ [] []); [apply attempts_ask|]. intros s. apply attempts_ret.
Qed.

(** The daemons a fleet that was set up has started. *)
Lemma start_csmgrds_started l w w' : each (start_one_csmgrd reply) l w = (w', inl ()) → started w' = list_to_set l ∪ started w.
Proof.
  revert w. induction l as [|i l IH]; intros w; simpl; [intros [= <-]; set_solver|].
  unfold mbind at 1, Prog_bind at 1. unfold start_one_csmgrd at 1, do, perform, mbind, Prog_bind, ask, set_started. simpl.
  destruct (reply (trace w) (StartCsmgrd i)); simpl; [|done]. intros ->%IH. simpl. set_solver.
Qed.

Definition keeps_started {A} (m : P A) : Prop := ∀ w, started (m w).1 = started w.
Lemma keeps_started_do o : keeps_started (do reply o).
Proof. intros w. unfold do, perform, mbind, Prog_bind. by destruct (reply (trace w) o). Qed.
Lemma keeps_started_each {A} (f : A → P ()) xs : (∀ x, keeps_started (f x)) → keeps_started (each f xs).
Proof.
  intros Hf. induction xs as [|x xs IH]; intros w; simpl; [done|]. unfold mbind, Prog_bind. specialize (Hf x w).
  destruct (f x w) as [w1 [a|e]]; simpl in *; [|done]. by rewrite IH.
Qed.
Lemma keeps_started_wait l nr : keeps_started (wait_each reply l nr).
Proof.
  revert nr. induction l as [|i l IH]; intros nr w; simpl; [done|]. unfold mbind, Prog_bind, perform.
  destruct (reply (trace w) (WaitCefnetd i)); simpl; [by rewrite IH|done].
Qed.

Lemma bind_inl {A B} (m : P A) (f : A → P B) w w' b : (m ≫= f) w = (w', inl b) → ∃ w1 a, m w = (w1, inl a) ∧ f a w1 = (w', inl b).
Proof. unfold mbind, Prog_bind. destruct (m w) as [w1 [a|x]]; [|done]. intros E. by exists w1, a. Qed.

Lemma setup_fleet w w' f : setup_scenario reply sc w = (w', inl f) → f = mkFleet (range (host_count sc)) (placed sc) (policy sc) (placed sc).
Proof.
  unfold setup_scenario. destruct (bridge_configs sc && negb (bridge_manager sc)); [done|].
  intros (w1 & [] & _ & (w2 & [] & _ & (w3 & [] & _ & (w4 & fleet & E4 & E)%bind_inl)%bind_inl)%bind_inl)%bind_inl.
  unfold build_fleet in E4. case_bool_decide; [|done]. injection E4 as <- <-.
  destruct (bind_inl _ _ _ _ _ E) as (w5 & [] & [= <-] & (w6 & [] & E6 & E')%bind_inl). clear E.
  apply bind_inl in E' as (w7 & nr & E7 & (w8 & [] & E8 & (w9 & s & [= <- <-] & [= _ <-])%bind_inl)%bind_inl). simpl.
  f_equal. unfold start_all in E6. apply bind_inl in E6 as (w10 & [] & E10 & E11). simpl in E10, E11.
  apply start_csmgrds_started in E10. simpl in E10.
  pose proof (keeps_started_each (λ i, do reply (StartCefnetd i)) (range (host_count sc)) (λ i, keeps_started_do _) w10) as K11. rewrite E11 in K11.
  pose proof (keeps_started_each (λ s, do reply (Setup s)) ["apply_fib"; "run_cefstatus_all"; "print_mesh_links"] (λ i, keeps_started_do _) w7) as K8. rewrite E8 in K8.
  unfold wait_ready in E7. apply bind_inl in E7 as (w12 & nr' & E12 & E13).
  pose proof (keeps_started_wait (range (host_count sc)) [] w6) as K12. simpl in E12. rewrite E12 in K12.
  assert (w7 = w12) as -> by (case_bool_decide; [done|by injection E13]). simpl in *.
  rewrite K8, K12, K11, E10. apply set_eq. intros x. rewrite elem_of_union, elem_of_list_to_set, elem_of_sorted_set. set_solver.
Qed.

(** ** The main stages *)

Definition before_setup : list op := [Build; Create; NetStart].
Definition main_ops : list op := before_setup ++ setup_ops ++ [Experiment; Main].
Definition full_fleet : DaemonFleet := mkFleet (range (host_count sc)) (placed sc) (policy sc) (placed sc).
Definition empty_world : world := mkWorld [] false None ∅.

Lemma do_cases o w : ∃ w1, net w1 = net w ∧ daemon_fleet w1 = daemon_fleet w ∧ ops w1 = ops w ++ [o] ∧
  (do reply o w = (w1, inl ()) ∨ ∃ x, do reply o w = (w1, inr x)).
Proof.
  unfold do, perform, mbind, Prog_bind. destruct (reply (trace w) o); eexists; (split_and!; [| | |by eauto]); simpl; by rewrite ?fmap_app.
Qed.

(** What was done when the main stages end, and what is known of the network and
    the fleet by then. *)
Record main_done (w : world) (l : list op) : Prop := {
  md_ops : ops w = l;
  md_prefix : l `prefix_of` main_ops;
  md_net : if net w then [Build; Create] `prefix_of` l else l `prefix_of` [Build; Create];
  md_fleet : match daemon_fleet w with
             | Some f => f = full_fleet ∧ net w = true ∧ before_setup ++ setup_ops `prefix_of` l
             | None => l `prefix_of` before_setup ++ setup_ops
             end;
}.

Lemma bind_do {A} o (m : () → P A) w w1 : do reply o w = (w1, inl ()) → (do reply o ≫= m) w = m () w1.
Proof. unfold mbind, Prog_bind. by intros ->. Qed.
Lemma bind_raise {A} o (m : () → P A) w w1 x : do reply o w = (w1, inr x) → (do reply o ≫= m) w = (w1, inr x).
Proof. unfold mbind, Prog_bind. by intros ->. Qed.

Lemma main_stages_done w out : main_stages reply sc empty_world = (w, out) → ∃ l, main_done w l ∧ (out = inl () → l = main_ops).
Proof.
  unfold main_stages. destruct (do_cases Build empty_world) as (w1 & N1 & F1 & O1 & [E1|[x E1]]).
  2:{ rewrite (bind_raise _ _ _ _ _ E1). intros [= <- <-]. exists [Build]. split; [|done]. split; rewrite ?N1, ?F1; simpl; [done|by exists (drop 1 main_ops)|by exists [Create]|by eexists]. }
  rewrite (bind_do _ _ _ _ E1). destruct (do_cases Create w1) as (w2 & N2 & F2 & O2 & [E2|[x E2]]).
  2:{ rewrite (bind_raise _ _ _ _ _ E2). intros [= <- <-]. exists [Build; Create]. split; [|done].
      split; rewrite ?N2, ?F2, ?N1, ?F1, ?O2, ?O1; simpl; [done|by exists (drop 2 main_ops)|done|by eexists]. }
  rewrite (bind_do _ _ _ _ E2). set (w3 := mkWorld (trace w2) true (daemon_fleet w2) (started w2)).
  change ((set_net ≫= λ _, do reply NetStart ≫= λ _, configure reply sc ≫= λ _, do reply Experiment ≫= λ _, do reply Main) w2)
    with ((do reply NetStart ≫= λ _, configure reply sc ≫= λ _, do reply Experiment ≫= λ _, do reply Main) w3).
  assert (O3 : ops w3 = [Build; Create]) by (simpl; by rewrite O2, O1). assert (F3 : daemon_fleet w3 = None) by (simpl; by rewrite F2, F1).
  assert (N3 : net w3 = true) by done. clearbody w3. clear -O3 F3 N3.
  destruct (do_cases NetStart w3) as (w4 & N4 & F4 & O4 & [E4|[x E4]]).
  2:{ rewrite (bind_raise _ _ _ _ _ E4). intros [= <- <-]. exists before_setup. split; [|done].
      split; rewrite ?N4, ?F4, ?O4, ?N3, ?F3, ?O3; [done|by eexists|by exists [NetStart]|by eexists]. }
  rewrite (bind_do _ _ _ _ E4). unfold configure. rewrite N3 in N4. rewrite F3 in F4. rewrite O3 in O4. clear N3 F3 O3 E4.
  unfold mbind at 1, Prog_bind at 1. unfold mbind at 1, Prog_bind at 1. destruct (setup_scenario reply sc w4) as [w5 [f|x]] eqn:E5.
  2:{ intros [= <- <-]. destruct (attempts_setup _ _ _ E5) as (N5 & F5 & l & O5 & Pl & _). exists (before_setup ++ l). split; [|done].
      split; rewrite ?N5, ?F5, ?N4, ?F4; [by rewrite O5, O4|by apply prefix_app, prefix_app_r|by eexists|by apply prefix_app]. }
  pose proof (setup_fleet _ _ _ E5) as ->. destruct (attempts_setup _ _ _ E5) as (N5 & F5 & l & O5 & _ & Hl). rewrite (Hl _ eq_refl) in O5. clear Hl l.
  unfold set_fleet. set (w6 := mkWorld _ _ _ _). rewrite N4 in N5. rewrite O4 in O5.
  assert (H6 : ∀ w l, net w = net w6 → daemon_fleet w = daemon_fleet w6 → ops w = ops w6 ++ l → l `prefix_of` [Experiment; Main] →
    main_done w (before_setup ++ setup_ops ++ l)).
  { intros w' l N O F Pl. split; rewrite ?N, ?F; [..|rewrite O].
    - change (ops w6) with (ops w5). rewrite O5. by rewrite <- !app_assoc.
    - by apply prefix_app, prefix_app.
    - simpl. rewrite N5. by eexists.
    - simpl. split; [done|]. split; [done|]. exists l. exact (app_assoc before_setup setup_ops l). }
  destruct (do_cases Experiment w6) as (w7 & N7 & F7 & O7 & [E7|[x E7]]).
  2:{ rewrite (bind_raise _ _ _ _ _ E7). intros [= <- <-]. exists (before_setup ++ setup_ops ++ [Experiment]). split; [|done]. by apply (H6 w7 [Experiment]); [..|eexists]. }
  rewrite (bind_do _ _ _ _ E7). destruct (do_cases Main w7) as (w8 & N8 & F8 & O8 & E8).
  intros E. exists (before_setup ++ setup_ops ++ [Experiment; Main]). split; [|done].
  assert (w = w8) as -> by (destruct E8 as [E8|[x E8]]; rewrite E8 in E; by injection E).
  apply H6; [congruence..| |done]. by rewrite O8, O7, <- app_assoc.
Qed.

(** ** The cleanup stages *)

Definition tail_ops : list op :=
  ((net_hosts sc) ≫= λ h, Pkill h <$> CEF_PATTERNS) ++ [NetStop; MnCleanup; CleanupDirs].

(** [m] does the operations [l] in order: all of them when it returns, and otherwise
    up to one that raised. *)
Definition sequential {A} (m : P A) (l : list op) : Prop := ∀ w w' out, m w = (w', out) →
  net w' = net w ∧ daemon_fleet w' = daemon_fleet w ∧
  ∃ k, trace w' = trace w ++ k ∧
    match out with
    | inl _ => k.*1 = l
    | inr x => k.*1 `prefix_of` l ∧ ∃ before o, k = before ++ [(o, Raised x)] ∧ troubles (o, Raised x) = [x]
    end.

Lemma sequential_ret {A} (a : A) : sequential (mret a) [].
Proof. intros w w' out [= <- <-]. split_and!; [done..|]. exists []. by rewrite app_nil_r. Qed.

Lemma sequential_bind {A B} (m : P A) (f : A → P B) l k :
  sequential m l → (∀ a, sequential (f a) k) → sequential (m ≫= f) (l ++ k).
Proof.
  intros Hm Hf w w' out. unfold mbind, Prog_bind. destruct (m w) as [w1 [a|x]] eqn:E; destruct (Hm _ _ _ E) as (N1 & F1 & k1 & T1 & H1).
  - intros E2. destruct (Hf a _ _ _ E2) as (N2 & F2 & k2 & T2 & H2). split_and!; [congruence..|]. exists (k1 ++ k2).
    split; [by rewrite T2, T1, app_assoc|]. destruct out as [b|x]; [by rewrite fmap_app, H1, H2|].
    destruct H2 as (Hp & before & o & -> & Ht). split; [rewrite fmap_app, H1; by apply prefix_app|].
    exists (k1 ++ before), o. by rewrite app_assoc.
  - intros [= <- <-]. split_and!; [done..|]. exists k1. split; [done|]. destruct H1 as (Hp & Hl). split; [by apply prefix_app_r|done].
Qed.

Lemma sequential_each {A} (f : A → P ()) (g : A → list op) xs : (∀ x, sequential (f x) (g x)) → sequential (each f xs) (xs ≫= g).
Proof. intros Hf. induction xs as [|x xs IH]; [apply sequential_ret|]. simpl. by apply sequential_bind. Qed.
Lemma sequential_each_op {A} (f : A → P ()) (g : A → op) xs : (∀ x, sequential (f x) [g x]) → sequential (each f xs) (g <$> xs).
Proof. intros Hf. induction xs as [|x xs IH]; [apply sequential_ret|]. simpl. by apply (sequential_bind _ _ [g x]). Qed.

Lemma sequential_do o : (∀ x, troubles (o, Raised x) = [x]) → sequential (do reply o) [o].
Proof.
  intros Ho w w' out. unfold do, perform, mbind, Prog_bind. destruct (reply (trace w) o) as [ready fs|x]; intros [= <- <-];
    (split_and!; [done..|]); eexists; (split; [done|]); simpl; [done|]. split; [done|]. by exists [], o.
Qed.

Lemma sequential_pkill h p : sequential (pkill reply h p) [Pkill h p].
Proof.
  intros w w' out. unfold pkill, do, perform, mbind, Prog_bind. destruct (reply (trace w) (Pkill h p)) as [ready fs|x].
  - intros [= <- <-]. split_and!; [done..|]. by eexists.
  - intros Hout. assert (net w' = net w ∧ daemon_fleet w' = daemon_fleet w ∧ trace w' = trace w ++ [(Pkill h p, Raised x)] ∧
      (out = inr x ∧ troubles (Pkill h p, Raised x) = [x] ∨ out = inl ())) as (N & F & T & Hx).
    { destruct x as [[[] m]|b m l0]; injection Hout as <- <-; auto 10. }
    split_and!; [done..|]. exists [(Pkill h p, Raised x)]. split; [done|]. destruct Hx as [[-> Ht]| ->]; [|done].
    split; [done|]. by exists [], (Pkill h p).
Qed.

Lemma sequential_cleanup_all : sequential (cleanup_all reply sc) tail_ops.
Proof.
  apply sequential_bind.
  { apply sequential_each. intros h. apply sequential_each_op. intros p. apply sequential_pkill. }
  intros _. apply (sequential_bind _ _ [NetStop]); [by apply sequential_do|]. intros _.
  apply (sequential_bind _ _ [MnCleanup]); [by apply sequential_do|]. intros _. by apply sequential_do.
Qed.

(** What was attempted of [l]: everything, or up to an operation that raised. *)
Definition up_to_failure (l : list op) (k : list (op * answer)) : Prop :=
  k.*1 = l ∨ k.*1 `prefix_of` l ∧ ∃ before o x, k = before ++ [(o, Raised x)] ∧ troubles (o, Raised x) = [x].

(** A guarded stage that may stop early. *)
Lemma guarded_sequential stage m fs l : sequential m l → ∀ w, ∃ w' fs' k, guarded stage m fs w = (w', inl fs') ∧
  net w' = net w ∧ daemon_fleet w' = daemon_fleet w ∧ trace w' = trace w ++ k ∧ up_to_failure l k.
Proof.
  intros Hm w. unfold guarded, up_to_failure. destruct (m w) as [w1 [[]|x]] eqn:E; destruct (Hm _ _ _ E) as (N & F & k & T & Hk);
    eexists w1, _, k; split_and!; try done; [by left|right]. destruct Hk as (Hp & before & o & Hk). split; [done|]. by exists before, o, x.
Qed.

Lemma performs_extending stage o fs : performs (extending stage (snd <$> perform reply o) fs) [o].
Proof.
  intros w. unfold extending, fmap, Prog_fmap, perform. destruct (reply (trace w) o); do 2 eexists; (split; [done|]); simpl; by rewrite fmap_app.
Qed.

(** What the teardown of a scenario does. *)
Definition stop_ops (known : option DaemonFleet) : list op :=
  (StopCefnetd <$> range (host_count sc)) ++ (StopCsmgrd <$> sorted_set (match known with Some _ => placed sc | None => ∅ end))
  ++ (if bridge_manager sc then [BridgeCleanup] else []) ++ (if external_bridges sc then [ExternalCleanup] else []).

Context (Hpolicy : policy sc ∈ ["warn"; "raise"]).

Lemma performs_if {A} (b : bool) (m1 : P A) l (a : A) : performs m1 l → performs (if b then m1 else mret a) (if b then l else []).
Proof. destruct b; [done|]. intros _. apply performs_ret. Qed.

Lemma performs_teardown w : daemon_fleet w = None ∨ daemon_fleet w = Some full_fleet → ∃ w' fs, teardown_scenario reply sc w = (w', inl fs) ∧
  net w' = net w ∧ daemon_fleet w' = daemon_fleet w ∧ ops w' = ops w ++ stop_ops (daemon_fleet w).
Proof.
  intros Hf. unfold teardown_scenario.
  assert (Hrest : ∀ f, node_names f = range (host_count sc) → started_csmgrd f = (match daemon_fleet w with Some _ => placed sc | None => ∅ end) →
    performs (fs ← stop_all reply f; fs ← (if bridge_manager sc then guarded "bridge_manager.cleanup" (do reply BridgeCleanup) fs else mret fs);
      if external_bridges sc then guarded "cleanup_external_bridges" (do reply ExternalCleanup) fs else mret fs) (stop_ops (daemon_fleet w))).
  { intros f En Es. unfold stop_ops. rewrite <- En, <- Es, app_assoc. apply performs_bind; [apply performs_stop_all|]. intros fs.
    apply performs_bind; [apply performs_if, performs_guarded_do|]. intros fs'. apply performs_if, performs_guarded_do. }
  unfold mbind at 1, Prog_bind at 1, ask. destruct Hf as [E|E]; rewrite E in *.
  - unfold build_fleet. rewrite bool_decide_eq_true_2 by done. destruct (Hrest (mkFleet (range (host_count sc)) (teardown_csmgrd sc) (policy sc) ∅) eq_refl eq_refl w) as (w' & fs & Ew & N & F & O).
    exists w', fs. split; [exact Ew|]. rewrite E in F. by split_and!.
  - destruct (Hrest full_fleet eq_refl eq_refl w) as (w' & fs & Ew & N & F & O). exists w', fs. split; [exact Ew|]. rewrite E in F. by split_and!.
Qed.

Lemma guarded_teardown w fs : daemon_fleet w = None ∨ daemon_fleet w = Some full_fleet → ∃ w' fs', guarded "teardown" (teardown reply sc) fs w = (w', inl fs') ∧
  net w' = net w ∧ daemon_fleet w' = daemon_fleet w ∧ ops w' = ops w ++ stop_ops (daemon_fleet w).
Proof.
  intros Hf. destruct (performs_teardown w Hf) as (w' & l & E & N & F & O). unfold guarded, teardown. unfold mbind, Prog_bind. rewrite E.
  exists w'. destruct l as [|[s x] l]; [by eexists|]. unfold propagate_failures. destruct l as [|? ?]; by eexists.
Qed.

(** The cleanup of a run whose network was created, and of one without. *)
Definition cleanup_ops (up : bool) (known : option DaemonFleet) (tail : list op) : list op :=
  [Shutdown] ++ (if up then [DebugPre] ++ stop_ops known ++ [DebugPost] ++ (if log_collection sc then [CollectLogs] else []) ++ tail else [CleanupDirs])
  ++ [WriteResults].

Lemma bind_ret {A B} (m : P A) (f : A → P B) w w1 a : m w = (w1, inl a) → (m ≫= f) w = f a w1.
Proof. unfold mbind, Prog_bind. by intros ->. Qed.

(** The last stage writes the results. *)
Lemma performs_results fs w : ∃ w' fs' a, extending "write_results" (snd <$> perform reply WriteResults) fs w = (w', inl fs') ∧
  net w' = net w ∧ daemon_fleet w' = daemon_fleet w ∧ trace w' = trace w ++ [(WriteResults, a)].
Proof.
  unfold extending, fmap, Prog_fmap, perform. destruct (reply (trace w) WriteResults) as [ready more|x]; by do 3 eexists.
Qed.

Lemma cleanup_stages_done w : daemon_fleet w = None ∨ daemon_fleet w = Some full_fleet →
  ∃ w' fs w1 tail a, cleanup_stages reply sc w = (w', inl fs) ∧ net w' = net w ∧ daemon_fleet w' = daemon_fleet w ∧
    (if net w then up_to_failure tail_ops tail else tail = []) ∧
    trace w' = trace w1 ++ tail ++ [(WriteResults, a)] ∧
    ops w1 ++ tail.*1 ++ [WriteResults] = ops w ++ cleanup_ops (net w) (daemon_fleet w) tail.*1.
Proof.
  intros Hf. unfold cleanup_stages. destruct (performs_extending "shutdown_runtime_resources" Shutdown [] w) as (w1 & fs1 & E1 & N1 & F1 & O1).
  rewrite (bind_ret _ _ _ _ _ E1). rewrite (bind_ret (ask net) _ w1 w1 (net w1) eq_refl). rewrite <- F1 in Hf. rewrite <- N1, <- F1. unfold cleanup_ops. destruct (net w1) eqn:Eup.
  - destruct (performs_guarded_do "debug_pre_teardown" DebugPre fs1 w1) as (w2 & fs2 & E2 & N2 & F2 & O2). rewrite <- F2 in Hf.
    destruct (guarded_teardown w2 fs2 Hf) as (w3 & fs3 & E3 & N3 & F3 & O3).
    destruct (performs_guarded_do "debug_post_teardown" DebugPost fs3 w3) as (w4 & fs4 & E4 & N4 & F4 & O4).
    destruct (performs_if (log_collection sc) _ _ fs4 (performs_guarded_do "collect_daemon_logs" CollectLogs fs4) w4) as (w5 & fs5 & E5 & N5 & F5 & O5).
    destruct (guarded_sequential "cleanup_all" _ fs5 _ sequential_cleanup_all w5) as (w6 & fs6 & tail & E6 & N6 & F6 & T6 & Pt).
    destruct (performs_results fs6 w6) as (w7 & fs7 & a & E7 & N7 & F7 & T7).
    exists w7, fs7, w5, tail, a. split_and!; [|congruence|congruence|done|by rewrite T7, T6, <- app_assoc|].
    + unfold mbind, Prog_bind. rewrite E2, E3, E4, E5, E6. exact E7.
    + rewrite O5, O4, O3, O2, O1, F2. by rewrite <- !app_assoc.
  - destruct (performs_guarded_do "cleanup_node_dirs" CleanupDirs fs1 w1) as (w2 & fs2 & E2 & N2 & F2 & O2).
    destruct (performs_results fs2 w2) as (w7 & fs7 & a & E7 & N7 & F7 & T7).
    exists w7, fs7, w2, [], a. split_and!; [|congruence|congruence|done|by rewrite T7|].
    + unfold mbind, Prog_bind. rewrite E2. exact E7.
    + rewrite O2, O1. by rewrite <- !app_assoc.
Qed.

Lemma propagate_state primary fs (w : world) : (propagate_failures primary fs w).1 = w.
Proof. unfold propagate_failures. by destruct fs as [|[s x] [|? ?]], primary. Qed.

End sequence.

(** * Nothing is swallowed *)

Section reporting.
Context (reply : list (op * answer) → op → answer) (sc : scenario).

(** Something went wrong in [l]: an operation was in trouble, a host was not ready
    under the raise policy, or the scenario's parameters are refused. *)
Definition trouble (l : list (op * answer)) : Prop :=
  (∃ oa x, oa ∈ l ∧ x ∈ troubles oa) ∨
  (policy sc = "raise" ∧ ∃ i fs, (WaitCefnetd i, Returned false fs) ∈ l) ∨
  policy sc ∉ ["warn"; "raise"] ∨ bridge_configs sc = true ∧ bridge_manager sc = false.

Lemma trouble_l l k : trouble l → trouble (l ++ k).
Proof.
  intros [(oa & x & H1 & H2)|[(Hp & i & fs & Hi)|?]]; [left; exists oa, x|right; left; split; [done|]; exists i, fs|by right; right];
    rewrite elem_of_app; auto.
Qed.
Lemma trouble_r l k : trouble k → trouble (l ++ k).
Proof.
  intros [(oa & x & H1 & H2)|[(Hp & i & fs & Hi)|?]]; [left; exists oa, x|right; left; split; [done|]; exists i, fs|by right; right];
    rewrite elem_of_app; auto.
Qed.

(** [m] raises what its operations raise, and only when something went wrong. *)
Definition surfaces {A} (m : P A) : Prop := ∀ w w' out, m w = (w', out) → ∃ l, trace w' = trace w ++ l ∧
  (∀ oa x, oa ∈ l → x ∈ troubles oa → ∃ y, out = inr y ∧ within x y) ∧ (∀ y, out = inr y → trouble l).

(** [m] collects them instead. *)
Definition collects (m : failures → P failures) : Prop := ∀ fs w, ∃ w' more l, m fs w = (w', inl (fs ++ more)) ∧ trace w' = trace w ++ l ∧
  (∀ oa x, oa ∈ l → x ∈ troubles oa → ∃ y, y ∈ more.*2 ∧ within x y) ∧ (more ≠ [] → trouble l).

Lemma surfaces_quiet {A} (m : P A) : (∀ w, ∃ a w', m w = (w', inl a) ∧ trace w' = trace w) → surfaces m.
Proof.
  intros Hm w w' out E. destruct (Hm w) as (a & w1 & E1 & T1). rewrite E in E1. injection E1 as <- ->. exists []. rewrite app_nil_r.
  split_and!; [done|by intros ? ? ?%elem_of_nil|done].
Qed.
Lemma surfaces_ret {A} (a : A) : surfaces (mret a).
Proof. apply surfaces_quiet. intros w. by eexists _, _. Qed.
Lemma surfaces_bind {A B} (m : P A) (f : A → P B) : surfaces m → (∀ a, surfaces (f a)) → surfaces (m ≫= f).
Proof.
  intros Hm Hf w w' out. unfold mbind, Prog_bind. destruct (m w) as [w1 [a|x]] eqn:E; destruct (Hm _ _ _ E) as (l & T & B1 & R1).
  - intros E2. destruct (Hf a _ _ _ E2) as (k & T2 & B2 & R2). exists (l ++ k). split_and!.
    + by rewrite T2, T, app_assoc.
    + intros oa y [Hl|Hk]%elem_of_app Hy; [by destruct (B1 oa y Hl Hy) as (? & [=] & _)|by eapply B2].
    + intros y Hy. by eapply trouble_r, R2.
  - intros [= <- <-]. exists l. split_and!; [done| |].
    + intros oa y Hl Hy. destruct (B1 oa y Hl Hy) as (z & [= <-] & Hz). by exists x.
    + intros y _. by eapply R1.
Qed.
Lemma surfaces_each {A} (f : A → P ()) xs : (∀ x, surfaces (f x)) → surfaces (each f xs).
Proof. intros Hf. induction xs as [|x xs IH]; [apply surfaces_ret|]. simpl. by apply surfaces_bind. Qed.

(** The operations whose exceptions are the only trouble they make. *)
Definition plain (o : op) : bool := match o with Shutdown | WriteResults | Pkill _ _ => false | _ => true end.
Lemma troubles_plain o x : plain o = true → troubles (o, Raised x) = [x].
Proof. by destruct o. Qed.

Lemma surfaces_perform o : plain o = true → surfaces (perform reply o).
Proof.
  intros Ho w w' out. unfold perform. destruct (reply (trace w) o) as [ready fs|x] eqn:E; intros [= <- <-]; eexists; (split; [done|]); split.
  - intros oa x ->%list_elem_of_singleton Hx. destruct o; try done; by apply elem_of_nil in Hx.
  - done.
  - intros oa y ->%list_elem_of_singleton Hy. rewrite troubles_plain in Hy by done. apply list_elem_of_singleton in Hy as ->.
    exists x. split; [done|constructor].
  - intros y _. left. exists (o, Raised x), x. rewrite troubles_plain by done. split; by left.
Qed.
Lemma surfaces_do o : plain o = true → surfaces (do reply o).
Proof. intros Ho. apply surfaces_bind; [by apply surfaces_perform|]. intros a. apply surfaces_ret. Qed.

Lemma surfaces_pkill h p : surfaces (pkill reply h p).
Proof.
  intros w w' out. unfold pkill, do, perform, mbind, Prog_bind. destruct (reply (trace w) (Pkill h p)) as [ready fs|x] eqn:E.
  - intros [= <- <-]. eexists. split; [done|]. split; [|done]. intros oa x ->%list_elem_of_singleton Hx. by apply elem_of_nil in Hx.
  - intros Hout. exists [(Pkill h p, Raised x)].
    assert (Hx : (out = inr x ∧ troubles (Pkill h p, Raised x) = [x]) ∨ (out = inl () ∧ troubles (Pkill h p, Raised x) = [])).
    { destruct x as [[[] m]|b m l0]; injection Hout as <- <-; auto. }
    split; [destruct x as [[[] m]|b m l0]; by injection Hout as <- _|]. destruct Hx as [[-> Ht]|[-> Ht]]; split.
    + intros oa y ->%list_elem_of_singleton. rewrite Ht. intros ->%list_elem_of_singleton. exists x. split; [done|constructor].
    + intros y _. left. exists (Pkill h p, Raised x), x. rewrite Ht. split; by left.
    + intros oa y ->%list_elem_of_singleton. rewrite Ht. by intros ?%elem_of_nil.
    + done.
Qed.

Lemma surfaces_build_fleet n ids : surfaces (build_fleet n ids (policy sc)).
Proof.
  unfold build_fleet. case_bool_decide; [apply surfaces_ret|]. intros w w' out [= <- <-]. exists []. rewrite app_nil_r. split_and!; [done| |].
  - by intros ? ? ?%elem_of_nil.
  - intros y _. by right; right; left.
Qed.

(** An exception of our own, raised when [l] was done. *)
Lemma surfaces_wait f : readiness_policy f = policy sc → surfaces (wait_ready reply f).
Proof.
  intros Hf w w' out. unfold wait_ready. unfold mbind at 1, Prog_bind at 1.
  assert (Hw : ∀ l nr, ∀ w w' out, wait_each reply l nr w = (w', out) → ∃ k, trace w' = trace w ++ k ∧
    (∀ oa x, oa ∈ k → x ∈ troubles oa → ∃ y, out = inr y ∧ within x y) ∧ (∀ y, out = inr y → trouble k) ∧
    (∀ nr', out = inl nr' → nr = [] → nr' ≠ [] → ∃ i fs, (WaitCefnetd i, Returned false fs) ∈ k)).
  { clear. induction l as [|i l IH]; intros nr w w' out; simpl.
    - intros [= <- <-]. exists []. rewrite app_nil_r. split_and!; [done|by intros ? ? ?%elem_of_nil|done|]. intros nr' [= ->] -> ?. done.
    - unfold mbind, Prog_bind. destruct (perform reply (WaitCefnetd i) w) as [w1 [r|x]] eqn:E; destruct (surfaces_perform (WaitCefnetd i) eq_refl _ _ _ E) as (k & T & B & R).
      + intros E2. destruct (IH _ _ _ _ E2) as (k2 & T2 & B2 & R2 & S2). exists (k ++ k2). split_and!.
        * by rewrite T2, T, app_assoc.
        * intros oa y [Hl|Hk]%elem_of_app Hy; [by destruct (B oa y Hl Hy) as (? & [=] & _)|by eapply B2].
        * intros y Hy. by eapply trouble_r, R2.
        * intros nr' Hnr -> Hne. destruct r as [[|] fs]; simpl in *.
          -- destruct (S2 nr' Hnr eq_refl Hne) as (j & fs' & Hj). exists j, fs'. rewrite elem_of_app. by right.
          -- exists i, fs. rewrite elem_of_app. left. unfold perform in E. destruct (reply (trace w) (WaitCefnetd i)) as [rd fs'|]; [|done].
             injection E as <- -> ->. simpl in T. apply app_inv_head in T as <-. by left.
      + intros [= <- <-]. exists k. split_and!; [done|..|done].
        * intros oa y Hl Hy. destruct (B oa y Hl Hy) as (z & [= <-] & Hz). by exists x.
        * intros y _. by eapply R. }
  destruct (wait_each reply (node_names f) [] w) as [w1 [nr|x]] eqn:E; destruct (Hw _ _ _ _ _ E) as (k & T & B & R & S).
  - case_bool_decide as Hp; intros [= <- <-]; exists k; split_and!; [done|..].
    + intros oa x Hl Hx. by destruct (B oa x Hl Hx) as (? & [=] & _).
    + intros y _. right. left. destruct Hp as [Hne Hp]. split; [congruence|]. by apply (S nr).
    + done.
    + intros oa x Hl Hx. by destruct (B oa x Hl Hx) as (? & [=] & _).
    + done.
  - intros [= <- <-]. exists k. split_and!; [done| |].
    + intros oa y Hl Hy. destruct (B oa y Hl Hy) as (z & [= <-] & Hz). by exists x.
    + intros y _. by eapply R.
Qed.

Lemma surfaces_ask {A} (f : world → A) : surfaces (ask f).
Proof. apply surfaces_quiet. intros w. by eexists _, _. Qed.

Lemma surfaces_setup : surfaces (setup_scenario reply sc).
Proof.
  unfold setup_scenario. destruct (bridge_configs sc && negb (bridge_manager sc)) eqn:Eb.
  { intros w w' out [= <- <-]. exists []. rewrite app_nil_r. split_and!; [done|by intros ? ? ?%elem_of_nil|].
    intros y _. right. right. right. by apply andb_prop in Eb as [? ?%negb_true_iff]. }
  assert (Hset : ∀ s, surfaces (set_started s)) by (intros s; apply surfaces_quiet; intros w; by eexists _, _).
  assert (Hst : ∀ l, surfaces (each (λ s, do reply (Setup s)) l)) by (intros l; apply surfaces_each; intros s; by apply surfaces_do).
  apply surfaces_bind; [by apply surfaces_do|]. intros _. apply surfaces_bind; [apply Hst|]. intros _. apply surfaces_bind; [apply Hst|]. intros _.
  intros w w' out. unfold build_fleet. case_bool_decide as Hp.
  2:{ intros [= <- <-]. exists []. rewrite app_nil_r. split_and!; [done|by intros ? ? ?%elem_of_nil|]. intros y _. by right; right; left. }
  revert w w' out. set (fleet := mkFleet _ _ _ _). change (surfaces (set_started ∅ ≫= λ _, start_all reply fleet ≫= λ _, wait_ready reply fleet ≫= λ _,
    each (λ s, do reply (Setup s)) ["apply_fib"; "run_cefstatus_all"; "print_mesh_links"] ≫= λ _, ask started ≫= λ s,
    mret (mkFleet (node_names fleet) (csmgrd_nodes fleet) (readiness_policy fleet) s))).
  apply surfaces_bind; [apply Hset|]. intros _. apply surfaces_bind.
  { apply surfaces_bind; [|intros _]; apply surfaces_each; intros i; [|by apply surfaces_do].
    apply surfaces_bind; [by apply surfaces_do|]. intros _. apply surfaces_bind; [apply surfaces_ask|]. intros s. apply Hset. }
  intros _. apply surfaces_bind; [by apply surfaces_wait|]. intros _. apply surfaces_bind; [apply Hst|]. intros _.
  apply surfaces_bind; [apply surfaces_ask|]. intros s. apply surfaces_ret.
Qed.

Lemma surfaces_main : surfaces (main_stages reply sc).
Proof.
  unfold main_stages. apply surfaces_bind; [by apply surfaces_do|]. intros _. apply surfaces_bind; [by apply surfaces_do|]. intros _.
  apply surfaces_bind; [apply surfaces_quiet; intros w; by eexists _, _|]. intros _. apply surfaces_bind; [by apply surfaces_do|]. intros _.
  apply surfaces_bind.
  - apply surfaces_bind; [apply surfaces_setup|]. intros f. apply surfaces_quiet. intros w. by eexists _, _.
  - intros _. apply surfaces_bind; [by apply surfaces_do|]. intros _. by apply surfaces_do.
Qed.

(** ** Collecting stages *)

Lemma collects_ret : collects mret.
Proof. intros fs w. exists w, [], []. rewrite !app_nil_r. split_and!; [done..| |done]. by intros ? ? ?%elem_of_nil. Qed.

Lemma collects_guarded stage m : surfaces m → collects (guarded stage m).
Proof.
  intros Hm fs w. unfold guarded. destruct (m w) as [w1 [[]|x]] eqn:E; destruct (Hm _ _ _ E) as (l & T & B & R).
  - exists w1, [], l. rewrite app_nil_r. split_and!; [done..| |done]. intros oa y Hl Hy. by destruct (B oa y Hl Hy) as (? & [=] & _).
  - exists w1, [(stage, x)], l. split_and!; [done..| |].
    + intros oa y Hl Hy. destruct (B oa y Hl Hy) as (z & [= <-] & Hz). exists x. split; [by left|done].
    + intros _. by eapply R.
Qed.

Lemma collects_bind k1 k2 : collects k1 → collects k2 → collects (λ fs, k1 fs ≫= k2).
Proof.
  intros H1 H2 fs w. destruct (H1 fs w) as (w1 & m1 & l1 & E1 & T1 & B1 & R1). destruct (H2 (fs ++ m1) w1) as (w2 & m2 & l2 & E2 & T2 & B2 & R2).
  exists w2, (m1 ++ m2), (l1 ++ l2). unfold mbind, Prog_bind. rewrite E1, E2, T2, T1. split_and!; [by rewrite app_assoc..| |].
  - intros oa x [Hl|Hl]%elem_of_app Hx; [destruct (B1 oa x Hl Hx) as (y & Hy & Hw)|destruct (B2 oa x Hl Hx) as (y & Hy & Hw)];
      exists y; (split; [|done]); rewrite fmap_app, elem_of_app; auto.
  - intros Hne. destruct m1; [apply trouble_r, R2; by intros ->|by apply trouble_l, R1].
Qed.

Lemma collects_guarded_each {A} (stage : A → string) (f : A → P ()) xs : (∀ x, surfaces (f x)) → collects (guarded_each stage f xs).
Proof.
  intros Hf. induction xs as [|x xs IH]; [apply collects_ret|]. simpl. apply collects_bind; [by apply collects_guarded|exact IH].
Qed.

Lemma collects_if (b : bool) k : collects k → collects (λ fs, if b then k fs else mret fs).
Proof. intros Hk. destruct b; [exact Hk|apply collects_ret]. Qed.

(** An operation that reports its failures. *)
Lemma collects_extending stage o : o = Shutdown ∨ o = WriteResults → collects (extending stage (snd <$> perform reply o)).
Proof.
  intros Ho fs w. unfold extending, fmap, Prog_fmap, perform. destruct (reply (trace w) o) as [ready more|x] eqn:E; simpl.
  - eexists _, more, [_]. split_and!; [done..| |].
    + intros oa x ->%list_elem_of_singleton Hx. assert (x ∈ more.*2) by (by destruct Ho as [-> | ->]). exists x. split; [done|constructor].
    + destruct more as [|[s x] more]; [done|]. intros _. left. exists (o, Returned ready ((s, x) :: more)), x. split; [by left|].
      destruct Ho as [-> | ->]; by left.
  - assert (Ht : troubles (o, Raised x) = [x]) by (by destruct Ho as [-> | ->]). eexists _, [(stage, x)], [_]. split_and!; [done..| |].
    + intros oa y ->%list_elem_of_singleton. rewrite Ht. intros ->%list_elem_of_singleton. exists x. split; [by left|constructor].
    + intros _. left. exists (o, Raised x), x. rewrite Ht. split; by left.
Qed.

(** What is propagated holds every failure. *)
Lemma propagate_within primary fs (w : world) :
  (∀ x, x ∈ fs.*2 ∨ primary = Some x → ∃ y, (propagate_failures primary fs w).2 = inr y ∧ within x y) ∧
  (∀ y, (propagate_failures primary fs w).2 = inr y → fs ≠ [] ∨ is_Some primary).
Proof.
  assert (Hg : ∀ x base message l, x ∈ l → within x (Group base message l)) by (intros x base message l Hx; by eapply within_group; [|constructor]).
  unfold propagate_failures. split.
  - intros x Hx. destruct fs as [|[s a] [|[s' b] fs]], primary as [p|]; simpl in *.
    + exists p. split; [done|]. destruct Hx as [?%elem_of_nil|[= ->]]; [done|constructor].
    + by destruct Hx as [?%elem_of_nil|?].
    + eexists. split; [done|]. apply Hg. destruct Hx as [?|[= ->]]; [by right|by left].
    + exists a. split; [done|]. destruct Hx as [->%list_elem_of_singleton|?]; [constructor|done].
    + eexists. split; [done|]. apply Hg. destruct Hx as [?|[= ->]]; [by right|by left].
    + eexists. split; [done|]. destruct Hx as [Hx|?]; [|done]. destruct (_ && _); by apply Hg.
  - intros y. destruct fs as [|[s a] [|[s' b] fs]], primary; simpl; by eauto.
Qed.

Lemma surfaces_teardown : surfaces (teardown reply sc).
Proof.
  assert (Hbody : ∀ f, collects (λ fs, guarded_each (λ i, "stop_cefnetd " +s+ host_name i) (λ i, do reply (StopCefnetd i)) (node_names f) fs ≫= λ fs,
    guarded_each (λ i, "stop_csmgrd " +s+ host_name i) (λ i, do reply (StopCsmgrd i)) (sorted_set (started_csmgrd f)) fs ≫= λ fs,
    (if bridge_manager sc then guarded "bridge_manager.cleanup" (do reply BridgeCleanup) fs else mret fs) ≫= λ fs,
    if external_bridges sc then guarded "cleanup_external_bridges" (do reply ExternalCleanup) fs else mret fs)).
  { intros f. repeat first [apply collects_bind | apply collects_if | apply collects_guarded | apply collects_guarded_each; intros ?]; by apply surfaces_do. }
  assert (Hf : ∀ f, surfaces (stop_all reply f ≫= λ fs, (if bridge_manager sc then guarded "bridge_manager.cleanup" (do reply BridgeCleanup) fs else mret fs) ≫= λ fs,
    (if external_bridges sc then guarded "cleanup_external_bridges" (do reply ExternalCleanup) fs else mret fs) ≫= λ fs,
    match fs with [] => mret () | _ => propagate_failures None fs end)).
  { intros f w w' out. destruct (Hbody f [] w) as (w1 & fs & l & E & T & B & R). simpl in E.
    assert (Hrest : ∀ k : failures → P (), (stop_all reply f ≫= λ fs, (if bridge_manager sc then guarded "bridge_manager.cleanup" (do reply BridgeCleanup) fs else mret fs) ≫= λ fs,
      (if external_bridges sc then guarded "cleanup_external_bridges" (do reply ExternalCleanup) fs else mret fs) ≫= k) w = k fs w1).
    { intros k. revert E. unfold stop_all, mbind, Prog_bind. intros E. repeat case_match; simplify_eq; try done; congruence. }
    rewrite Hrest. clear E Hrest. intros Eo. destruct (propagate_within None fs w1) as [Hp Hn].
    assert (Hpr : (propagate_failures None fs w1) = (w', out)) by (by destruct fs as [|? ?]).
    pose proof (propagate_state None fs w1) as Hs. rewrite Hpr in Hs, Hp, Hn. simpl in *. subst w'. exists l. split_and!; [done| |].
    - intros oa x Hl Hx. destruct (B oa x Hl Hx) as (y & Hy & Hxy). destruct (Hp y (or_introl Hy)) as (z & -> & Hyz). exists z. split; [done|].
      clear -Hxy Hyz. induction Hyz; [done|by eapply within_group].
    - intros y Hy. destruct (Hn y Hy) as [?|[? [=]]]. by apply R. }
  intros w w' out. unfold teardown, teardown_scenario. intros E.
  assert (Hex : ∀ known, surfaces (match known with Some f => mret f | None => build_fleet (host_count sc) (teardown_csmgrd sc) (policy sc) end ≫= λ f, stop_all reply f ≫= λ fs,
    (if bridge_manager sc then guarded "bridge_manager.cleanup" (do reply BridgeCleanup) fs else mret fs) ≫= λ fs,
    (if external_bridges sc then guarded "cleanup_external_bridges" (do reply ExternalCleanup) fs else mret fs) ≫= λ fs,
    match fs with [] => mret () | _ => propagate_failures None fs end)).
  { intros known. apply surfaces_bind; [|done]. destruct known; [apply surfaces_ret|apply surfaces_build_fleet]. }
  apply (Hex (daemon_fleet w) w w' out). rewrite <- E. unfold mbind, Prog_bind, ask. by repeat case_match; simplify_eq.
Qed.

Lemma surfaces_cleanup_all : surfaces (cleanup_all reply sc).
Proof.
  apply surfaces_bind; [apply surfaces_each; intros h; apply surfaces_each; intros p; apply surfaces_pkill|]. intros _.
  apply surfaces_bind; [by apply surfaces_do|]. intros _. apply surfaces_bind; [by apply surfaces_do|]. intros _. by apply surfaces_do.
Qed.

Lemma collects_cleanup up : collects (λ fs, extending "shutdown_runtime_resources" (snd <$> perform reply Shutdown) fs ≫= λ fs,
  (if up : bool then
     guarded "debug_pre_teardown" (do reply DebugPre) fs ≫= λ fs, guarded "teardown" (teardown reply sc) fs ≫= λ fs,
     guarded "debug_post_teardown" (do reply DebugPost) fs ≫= λ fs,
     (if log_collection sc then guarded "collect_daemon_logs" (do reply CollectLogs) fs else mret fs) ≫= λ fs,
     guarded "cleanup_all" (cleanup_all reply sc) fs
   else guarded "cleanup_node_dirs" (do reply CleanupDirs) fs) ≫= λ fs,
  extending "write_results" (snd <$> perform reply WriteResults) fs).
Proof.
  apply collects_bind; [apply collects_extending; by left|]. apply collects_bind; [|apply collects_extending; by right].
  destruct up; [|apply collects_guarded; by apply surfaces_do].
  repeat first [apply collects_bind | apply collects_if | apply collects_guarded]; try (by apply surfaces_do);
    [apply surfaces_teardown|apply surfaces_cleanup_all].
Qed.

Lemma cleanup_collects w : ∃ w' fs l, cleanup_stages reply sc w = (w', inl fs) ∧ trace w' = trace w ++ l ∧
  (∀ oa x, oa ∈ l → x ∈ troubles oa → ∃ y, y ∈ fs.*2 ∧ within x y) ∧ (fs ≠ [] → trouble l).
Proof.
  destruct (performs_extending reply "shutdown_runtime_resources" Shutdown [] w) as (w1 & fs1 & E1 & N1 & _).
  destruct (collects_cleanup (net w) [] w) as (w' & fs & l & E & Hl). simpl in E. exists w', fs, l. split; [|exact Hl]. rewrite <- E.
  unfold cleanup_stages. rewrite (bind_ret _ _ _ _ _ E1). rewrite (bind_ret (ask net) _ w1 w1 (net w1) eq_refl).
  rewrite (bind_ret _ _ _ _ _ E1). by rewrite N1.
Qed.

(** C19: whatever raises, and wherever, the cleanup of a scenario runs. The operations
    of a run are the main stages - all of them, or an initial segment if one of them
    was in trouble, a host was not ready under the raise policy, or the parameters
    are refused - followed by the cleanup in order: background resources are shut
    down; if the network was created every host's cefnetd is stopped, every cache
    manager if the setup had completed (see [cache_manager_left]), the bridges are
    cleaned up, and the debug and log collections are made, each of them whatever
    the others do; then come the removal of the remaining processes, of the network
    and of the node directories, one stage that is completed unless one of its own
    operations raises, which ends it there (see [directories_left]); and the results
    are written last. Without a network no daemon was started and the directories
    are removed. *)
Theorem execute_cleans_up w out : policy sc ∈ ["warn"; "raise"] → execute reply sc empty_world = (w, out) →
  ∃ main pre tail a, trace w = main ++ pre ++ tail ++ [(WriteResults, a)] ∧
    ops w = main.*1 ++ cleanup_ops sc (net w) (daemon_fleet w) tail.*1 ∧
    main.*1 `prefix_of` main_ops sc ∧ (main.*1 = main_ops sc ∨ trouble main) ∧
    (if net w then up_to_failure (tail_ops sc) tail else tail = []) ∧
    (if net w then [Build; Create] `prefix_of` main.*1 else main.*1 `prefix_of` [Build; Create]) ∧
    (if daemon_fleet w then before_setup ++ setup_ops sc `prefix_of` main.*1 else main.*1 `prefix_of` before_setup ++ setup_ops sc).
Proof.
  intros Hpolicy. unfold execute. destruct (main_stages reply sc empty_world) as [w1 out1] eqn:E1.
  destruct (main_stages_done _ _ _ _ E1) as (l & [O1 P1 N1 F1] & L1). destruct (surfaces_main _ _ _ E1) as (l1 & T1 & _ & R1). simpl in T1.
  assert (Hf : daemon_fleet w1 = None ∨ daemon_fleet w1 = Some (full_fleet sc)) by (destruct (daemon_fleet w1); [right; by destruct F1 as [-> _]|by left]).
  destruct (cleanup_stages_done reply sc Hpolicy w1 Hf) as (w2 & fs & w5 & tail & a & E2 & N2 & F2 & Pt & T2 & O2). rewrite (bind_ret _ _ _ _ _ E2).
  pose proof (propagate_state (primary_of out1) fs w2) as Hs. intros E. rewrite E in Hs. simpl in Hs. subst w2.
  destruct (cleanup_collects w1) as (w3 & fs3 & k & E3 & T3 & _). rewrite E2 in E3. injection E3 as <- <-.
  assert (Hpre : ∃ pre, trace w5 = trace w1 ++ pre).
  { rewrite T3 in T2. destruct (app_eq_inv _ _ _ _ T2) as [(pre & H5 & _)|(pre & H5 & Hk)]; [|by exists pre].
    exists []. rewrite app_nil_r. assert (length (trace w1) ≤ length (trace w5))%nat as Hlen.
    { apply (f_equal length) in O2. unfold cleanup_ops in O2. rewrite !length_app, !length_fmap in O2.
      destruct (net w1); [|subst tail]; rewrite ?length_app, ?length_fmap in O2; simpl in O2; lia. }
    rewrite H5, length_app in Hlen. destruct pre; [by rewrite app_nil_r in H5|simpl in Hlen; lia]. }
  destruct Hpre as [pre Hpre]. exists l1, pre, tail, a. rewrite N2, F2. subst l. rewrite T1 in *. split_and!; try done.
  - by rewrite T2, Hpre, <- app_assoc.
  - rewrite T2, !fmap_app. exact O2.
  - destruct out1 as [[]|x]; [left; by apply L1|right; by eapply R1].
  - destruct (daemon_fleet w1); [by destruct F1 as (_ & _ & ?)|done].
Qed.

(** C20: nothing that went wrong is swallowed. Every exception that an operation of a
    run raises, and every failure the shutdown of resources or the writing of the
    results reports, is the exception [execute] raises or a member, at some depth,
    of the group it raises - except an interrupt of the main stages, which ends the
    experiment without being an error, and a busy shell at a pkill, which is
    skipped. Conversely [execute] raises only if an operation was in trouble, a
    host was not ready under the raise policy, or the parameters are refused. *)
Theorem nothing_swallowed w out : execute reply sc empty_world = (w, out) →
  (∀ o a x, (o, a) ∈ trace w → x ∈ troubles (o, a) →
     (∃ y, out = inr y ∧ within x y) ∨ (is_interrupt x = true ∧ o ∈ main_ops sc)) ∧
  (∀ y, out = inr y → trouble (trace w)).
Proof.
  unfold execute. destruct (main_stages reply sc empty_world) as [w1 out1] eqn:E1. destruct (surfaces_main _ _ _ E1) as (l1 & T1 & B1 & R1).
  destruct (main_stages_done _ _ _ _ E1) as (l & [O1 P1 _ _] & _).
  destruct (cleanup_collects w1) as (w2 & fs & l2 & E2 & T2 & B2 & R2). rewrite (bind_ret _ _ _ _ _ E2). intros E.
  pose proof (propagate_state (primary_of out1) fs w2) as Hs. destruct (propagate_within (primary_of out1) fs w2) as [Hp Hn].
  rewrite E in Hs, Hp, Hn. simpl in Hs, Hp, Hn. subst w2. rewrite T2, T1. simpl. split.
  - intros o a x [Hl|Hl]%elem_of_app Hx.
    + destruct (B1 _ x Hl Hx) as (y & -> & Hxy). unfold primary_of in Hp. destruct (is_interrupt y) eqn:Ei.
      * right. assert (x = y) as -> by (inversion Hxy; by subst). split; [done|].
        assert (Ho : o ∈ l) by (rewrite <- O1, T1; simpl; by apply (list_elem_of_fmap_2 fst _ (o, a))).
        destruct P1 as [k ->]. apply elem_of_app. by left.
      * left. destruct (Hp y (or_intror eq_refl)) as (z & -> & Hz). exists z. split; [done|]. clear -Hxy Hz. induction Hz; [done|by eapply within_group].
    + left. destruct (B2 _ x Hl Hx) as (y & Hy & Hxy). destruct (Hp y (or_introl Hy)) as (z & -> & Hz). exists z. split; [done|].
      clear -Hxy Hz. induction Hz; [done|by eapply within_group].
  - intros y Hy. destruct (Hn y Hy) as [Hne|[p Hpr]]; [by apply trouble_r, R2|]. apply trouble_l.
    unfold primary_of in Hpr. destruct out1 as [|x]; [done|]. by eapply R1.
Qed.
End reporting.

(** * Examples *)

Definition demo_scenario : scenario := mkScenario 2 {[0]} {[0]} "raise" false true true ["h0"; "h1"] true.
Definition only (which : op → bool) (x : exc) (_ : list (op * answer)) (o : op) : answer := if which o then Raised x else Returned true [].
Definition start_fails : list (op * answer) → op → answer :=
  only (λ o, match o with StartCefnetd 1 => true | _ => false end) (Plain (Exn EOSError "fork")).
Definition stop_fails : list (op * answer) → op → answer :=
  only (λ o, match o with StopCefnetd _ | NetStop => true | _ => false end) (Plain (Exn EOSError "busy")).

(** The second cefnetd cannot be started: both hosts' daemons are stopped. *)
Lemma execute_cleans_up_witness : ∃ w x, execute start_fails demo_scenario empty_world = (w, inr x) ∧ StopCefnetd 1 ∈ ops w.
Proof.
  assert (Hp : policy demo_scenario ∈ ["warn"; "raise"]) by (simpl; right; left).
  pose proof (execute_cleans_up start_fails demo_scenario) as Hc.
  assert (Hr : match execute start_fails demo_scenario empty_world with (w, inr _) => net w = true | _ => False end) by (vm_compute; done).
  destruct (execute start_fails demo_scenario empty_world) as [w [[]|x]]; [done|]. exists w, x. split; [reflexivity|].
  destruct (Hc w (inr x) Hp eq_refl) as (main & pre & tail & a & _ & -> & _). rewrite Hr. unfold cleanup_ops, stop_ops.
  apply elem_of_app. right. right. right. apply elem_of_app. left. apply elem_of_app. left. simpl. right. left.
Defined.

(** Two stops and the network's fail: the group that is raised holds them. *)
Lemma nothing_swallowed_witness : ∃ w x, execute stop_fails demo_scenario empty_world = (w, inr x) ∧ within (Plain (Exn EOSError "busy")) x.
Proof.
  pose proof (nothing_swallowed stop_fails demo_scenario) as Hn.
  assert (Hr : match execute stop_fails demo_scenario empty_world with
    (w, _) => List.Exists (λ oa, oa = (NetStop, Raised (Plain (Exn EOSError "busy")))) (trace w) end) by (vm_compute; repeat first [apply List.Exists_cons_hd; reflexivity | apply List.Exists_cons_tl]).
  destruct (execute stop_fails demo_scenario empty_world) as [w out]. exists w. destruct (Hn w out eq_refl) as [Hs _].
  apply Exists_exists in Hr as (oa & Hin & ->). destruct (Hs NetStop _ (Plain (Exn EOSError "busy")) Hin ltac:(by left)) as [(x & -> & Hx)|[Hi _]]; [|discriminate Hi].
  exists x. split; [reflexivity|exact Hx].
Defined.

(** When the setup fails after a cache manager was started, the teardown builds a
    fleet of its own, which knows of no started cache manager: csmgrdstop is never
    called, although the teardown names the host. *)
Example cache_manager_left : teardown_csmgrd demo_scenario = {[0]} ∧
  let starts o := match o with StartCsmgrd 0 => true | _ => false end in
  let stops o := match o with StopCsmgrd _ => true | _ => false end in
  let done_ops := ops (execute start_fails demo_scenario empty_world).1 in
  existsb starts done_ops = true ∧ existsb stops done_ops = false.
Proof. split; [done|]. vm_compute. done. Qed.

(** The cleanup of processes, network and directories is one stage: when the network
    cannot be stopped, the node directories stay. *)
Example directories_left :
  existsb (λ o, match o with CleanupDirs => true | _ => false end) (ops (execute stop_fails demo_scenario empty_world).1) = false.
Proof. vm_compute. done. Qed.
