(* ===== verification/EventBatch.v ===== *)
(** Component: one batch of events (src/runtime/event_batch.py): the construction of
    the content runner and the scheduler, their start, the waits and the stops.
    The environment answers every operation and may let it raise anything. *)
From S2P Require Import Prelude PyValue Events Lifecycle.
Local Open Scope Z_scope.

(** * The operations of a batch *)

Inductive bop :=
  | NewRunner (lifetimes : pydict) | NewScheduler | StartRunner | StartScheduler | WaitScheduler | WaitRunner | StopScheduler | StopRunner.
(** An operation returns - a wait whether it completed - or raises. *)
Inductive banswer := BReturned (completed : bool) | BRaised (x : exc).
Notation batch_world := (list (bop * banswer)).
Notation B := (Prog batch_world).

(** [_pub_lifetime_by_uri]. *)
Definition add_lifetime (lifetimes : pydict) (ev : pydict) : res pydict :=
  if negb (eq_str (get_none ev "type") "pubsub_pub") then Ok lifetimes
  else
    let opts := get_none ev "pub_opts" in
    lifetime ← (if truthy opts then match opts with PDict d => Ok (get_none d "lifetime") | _ => raise EAttributeError "get" end else Ok PNone);
    if is_none lifetime then Ok lifetimes
    else uri ← getitem ev "uri"; if hashable uri then Ok (dset lifetimes uri lifetime) else unhashable uri.
Definition _pub_lifetime_by_uri (events : list pydict) : res pydict := foldM add_lifetime [] events.

(** [any(event.get("type") in content_types for event in events)]. *)
Fixpoint any_content (events : list pydict) : res bool :=
  match events with
  | [] => Ok false
  | ev :: events => c ← in_set (get_none ev "type") content_event_types; if (c : bool) then Ok true else any_content events
  end.

(** [_raise_failures] and [_deadline_message]. *)
Definition _raise_failures (fs : failures) : B () :=
  match fs with
  | [] => mret ()
  | [(_, x)] => raise_exc x
  | _ => raise_exc (if forallb exc_is_exception fs.*2 then Group false "event batch stop failures" fs.*2
                    else BaseExceptionGroup "event batch stop failures" fs.*2)
  end.
Definition _deadline_message (label : string) (timeout : Z) : string := label +s+ " exceeded " +s+ str_Z timeout +s+ "s deadline".

(** The policy of a batch; deadlines are whole seconds, as every caller passes
    them. *)
Record EventBatchSpec := mkBatch {
  events : list pydict; wait_timeout : option Z; deadline_policy : string; scheduler_label : string; runner_label : string;
}.
Record EventBatchResult := mkResult { content_runner : bool; event_scheduler : bool; completed : option bool; stop_failures : failures }.

Section batch.
Context (reply : batch_world → bop → banswer).

Definition operate (o : bop) : B bool := λ w,
  match reply w o with
  | BReturned b => (w ++ [(o, BReturned b)], inl b)
  | BRaised x => (w ++ [(o, BRaised x)], inr x)
  end.
Definition operate_if (b : bool) (o : bop) : B bool := if b then operate o else mret true.
Definition pure_call {A} (r : res A) : B A :=
  match r with Ok a => mret a | Raise e => raise_exc (Plain e) | NoFuel => raise_new EOther "" end.

Context (spec : EventBatchSpec).

Definition has_events : bool := bool_decide (events spec ≠ []).

(** Both collaborators, before anything is started. *)
Definition construct : B bool :=
  content ← pure_call (any_content (events spec));
  (if content : bool then pure_call (_pub_lifetime_by_uri (events spec)) ≫= λ l, operate (NewRunner l) else mret true) ≫= λ _,
  operate_if has_events NewScheduler ≫= λ _, mret content.
Definition start_both (content : bool) : B bool := operate_if content StartRunner ≫= λ _, operate_if has_events StartScheduler.

(** The body of the [try]: [scheduler_completed] and [runner_completed]. *)
Definition start_and_wait (content : bool) : B (bool * bool) :=
  start_both content ≫= λ _,
  scheduler_completed ← operate_if has_events WaitScheduler;
  runner_completed ← operate_if (content && (bool_decide (deadline_policy spec = "warn") || scheduler_completed)) WaitRunner;
  mret (scheduler_completed, runner_completed).
Definition stop_both (content : bool) : B failures :=
  fs ← (if has_events then guarded "scheduler.stop" (operate StopScheduler ≫= λ _, mret ()) [] else mret []);
  if content then guarded "runner.stop" (operate StopRunner ≫= λ _, mret ()) fs else mret fs.

(** What the deadlines decide once everything is stopped. *)
Definition decide_result (content : bool) (done : bool * bool) (timeout : Z) (fs : failures) : B EventBatchResult :=
  let result := mkResult content has_events (Some (done.1 && done.2)) fs in
  if bool_decide (deadline_policy spec = "warn") then mret result
  else if negb done.1 then raise_new ERuntimeError (_deadline_message (scheduler_label spec) timeout)
  else if negb done.2 then raise_new ERuntimeError (_deadline_message (runner_label spec) timeout)
  else _raise_failures fs ≫= λ _, mret result.

(** [try: m finally: (failures of the stops)]. *)
Definition finally {A C} (m : B A) (stops : B failures) (k : A → failures → B C) : B C := λ w,
  let '(w1, out) := m w in
  match stops w1 with
  | (w2, inl fs) => match out with inl a => k a fs w2 | inr x => (w2, inr x) end
  | (w2, inr x) => (w2, inr x)
  end.

Definition run_event_batch : B EventBatchResult :=
  if bool_decide (deadline_policy spec ∉ ["warn"; "raise"]) then raise_new EValueError "deadline_policy must be 'warn' or 'raise'"
  else
    content ← construct;
    match wait_timeout spec with
    | None => start_both content ≫= λ _, mret (mkResult content has_events None [])
    | Some timeout => finally (start_and_wait content) (stop_both content) (λ done fs, decide_result content done timeout fs)
    end.
End batch.

(** * What a batch does *)

Section batch_lemmas.
Context (reply : batch_world → bop → banswer) (spec : EventBatchSpec).

(** [m] does the operations [l], an initial segment when it raises; then the last of
    them raised it. *)
Definition batch_runs {A} (m : B A) (l : list bop) : Prop := ∀ w w' out, m w = (w', out) →
  ∃ k, w' = w ++ k ∧ k.*1 `prefix_of` l ∧
    match out with
    | inl _ => k.*1 = l ∧ ∀ o x, (o, BRaised x) ∉ k
    | inr x => (∃ k' o, k = k' ++ [(o, BRaised x)] ∧ ∀ o x, (o, BRaised x) ∉ k')
    end.

Lemma batch_ret {A} (a : A) : batch_runs (mret a) [].
Proof. intros w w' out [= <- <-]. exists []. rewrite app_nil_r. split_and!; try done. by intros ? ? ?%elem_of_nil. Qed.

Lemma batch_bind {A C} (m : B A) (f : A → B C) l l' : batch_runs m l → (∀ a, batch_runs (f a) l') → batch_runs (m ≫= f) (l ++ l').
Proof.
  intros Hm Hf w w' out. unfold mbind, Prog_bind. destruct (m w) as [w1 [a|x]] eqn:E; destruct (Hm _ _ _ E) as (k & -> & Pk & Hk).
  - intros E2. destruct (Hf a _ _ _ E2) as (k2 & -> & Pk2 & Hk2). destruct Hk as [Ek Hno]. exists (k ++ k2). rewrite fmap_app, Ek, app_assoc. split_and!; [done|by apply prefix_app|].
    destruct out as [c|x].
    + destruct Hk2 as [-> Hno2]. split; [done|]. intros o x [?|?]%elem_of_app; [by eapply Hno|by eapply Hno2].
    + destruct Hk2 as (k' & o & -> & Hno2). exists (k ++ k'), o. split; [by rewrite app_assoc|]. intros o' x' [?|?]%elem_of_app; [by eapply Hno|by eapply Hno2].
  - intros [= <- <-]. exists k. split_and!; [done|by apply prefix_app_r|done].
Qed.

Lemma batch_operate o : batch_runs (operate reply o) [o].
Proof.
  intros w w' out. unfold operate. destruct (reply w o) as [b|x]; intros [= <- <-]; eexists; (split; [done|]); (split; [done|]).
  - split; [done|]. intros o' x [=]%list_elem_of_singleton.
  - exists [], o. split; [done|]. by intros ? ? ?%elem_of_nil.
Qed.
Lemma batch_operate_if b o : batch_runs (operate_if reply b o) (if b then [o] else []).
Proof. destruct b; [apply batch_operate|apply batch_ret]. Qed.

(** The operations a batch with or without content consists of. *)
Definition news (c : bool) (lifetimes : pydict) : list bop := (if c then [NewRunner lifetimes] else []) ++ (if has_events spec then [NewScheduler] else []).
Definition starts (c : bool) : list bop := (if c then [StartRunner] else []) ++ (if has_events spec then [StartScheduler] else []).
Definition stops (c : bool) : list bop := (if has_events spec then [StopScheduler] else []) ++ (if c then [StopRunner] else []).
Definition waits (c scheduler_completed : bool) : list bop :=
  (if has_events spec then [WaitScheduler] else [])
  ++ (if c && (bool_decide (deadline_policy spec = "warn") || scheduler_completed) then [WaitRunner] else []).

(** The scheduler, and the runner, were waited for in time if at all. *)
Definition in_time (which : bop → bool) (k : batch_world) : bool :=
  forallb (λ oa, match oa.2 with BReturned b => negb (which oa.1) || b | BRaised _ => true end) k.
Definition scheduler_in_time : batch_world → bool := in_time (λ o, match o with WaitScheduler => true | _ => false end).
Definition runner_in_time : batch_world → bool := in_time (λ o, match o with WaitRunner => true | _ => false end).
Definition failed_stops (k : batch_world) : failures :=
  omap (λ oa, match oa with
              | (StopScheduler, BRaised x) => Some ("scheduler.stop", x)
              | (StopRunner, BRaised x) => Some ("runner.stop", x)
              | _ => None
              end) k.

Lemma in_time_app which k k' : in_time which (k ++ k') = in_time which k && in_time which k'.
Proof. apply forallb_app. Qed.

Lemma batch_starts c : batch_runs (start_both reply spec c) (starts c).
Proof. apply batch_bind; [apply batch_operate_if|]. intros _. apply batch_operate_if. Qed.

(** One operation, or none. *)
Lemma operate_if_cases b o w :
  (∃ r, operate_if reply b o w = (w ++ (if b then [(o, BReturned r)] else []), inl r) ∧ (b = false → r = true)) ∨
  (b = true ∧ ∃ x, operate_if reply b o w = (w ++ [(o, BRaised x)], inr x)).
Proof.
  unfold operate_if, operate. destruct b; [|left; exists true; by rewrite app_nil_r].
  destruct (reply w o) as [r|x]; [left; by exists r|right; split; [done|by exists x]].
Qed.

Lemma stop_both_spec c w : ∃ k, stop_both reply spec c w = (w ++ k, inl (failed_stops k)) ∧ k.*1 = stops c.
Proof.
  assert (Hg : ∀ stage o fs w, ∃ a, guarded stage (operate reply o ≫= λ _, mret ()) fs w
    = (w ++ [(o, a)], inl (fs ++ match a with BRaised x => [(stage, x)] | BReturned _ => [] end))).
  { intros stage o fs w1. unfold guarded, mbind, Prog_bind, operate. destruct (reply w1 o) as [r|x]; [exists (BReturned r)|exists (BRaised x)]; by rewrite ?app_nil_r. }
  unfold stop_both, stops. unfold mbind at 1, Prog_bind at 1. destruct (has_events spec).
  - destruct (Hg "scheduler.stop" StopScheduler [] w) as [a ->]. destruct c.
    + destruct (Hg "runner.stop" StopRunner ([] ++ match a with BRaised x => [("scheduler.stop", x)] | _ => [] end) (w ++ [(StopScheduler, a)])) as [a' ->].
      exists [(StopScheduler, a); (StopRunner, a')]. rewrite <- app_assoc. by destruct a, a'.
    + exists [(StopScheduler, a)]. by destruct a.
  - destruct c.
    + destruct (Hg "runner.stop" StopRunner [] w) as [a' E]. simpl. rewrite E. exists [(StopRunner, a')]. by destruct a'.
    + exists []. by rewrite app_nil_r.
Qed.

Lemma starts_in_time c k which : k.*1 `prefix_of` starts c → (∀ o, o ∈ [StartRunner; StartScheduler] → which o = false) → in_time which k = true.
Proof.
  intros [k' Hk] Hw. unfold in_time. apply List.forallb_forall. intros [o a] Hin%list_elem_of_In.
  assert (Ho : o ∈ starts c) by (rewrite Hk, elem_of_app; left; by apply (list_elem_of_fmap_2 fst _ (o, a))).
  assert (Hf : which o = false); [|simpl; rewrite Hf; by destruct a]. apply Hw. unfold starts in Ho. destruct c, (has_events spec); set_solver.
Qed.

(** The starts and the waits, with what the waits said. *)
Lemma start_and_wait_spec c w w' out : start_and_wait reply spec c w = (w', out) →
  ∃ k, w' = w ++ k ∧ k.*1 `prefix_of` starts c ++ waits c (scheduler_in_time k) ∧
    match out with
    | inl done => k.*1 = starts c ++ waits c (scheduler_in_time k) ∧ (∀ o x, (o, BRaised x) ∉ k) ∧ done = (scheduler_in_time k, runner_in_time k)
    | inr x => ∃ k' o, k = k' ++ [(o, BRaised x)] ∧ ∀ o x, (o, BRaised x) ∉ k'
    end.
Proof.
  unfold start_and_wait. unfold mbind at 1, Prog_bind at 1. destruct (start_both reply spec c w) as [w1 [b|x]] eqn:E1;
    destruct (batch_starts c _ _ _ E1) as (k1 & -> & Pk1 & Hk1).
  2:{ intros [= <- <-]. exists k1. split_and!; [done| |done]. by apply prefix_app_r. }
  assert (S1 : scheduler_in_time k1 = true) by (apply (starts_in_time c); [done|set_solver]).
  assert (R1 : runner_in_time k1 = true) by (apply (starts_in_time c); [done|set_solver]).
  destruct Hk1 as [Ek1 No1]. unfold waits. unfold mbind at 1, Prog_bind at 1.
  destruct (operate_if_cases (has_events spec) WaitScheduler (w ++ k1)) as [(r1 & -> & H1)|(He & x1 & ->)].
  2:{ intros [= <- <-]. exists (k1 ++ [(WaitScheduler, BRaised x1)]). rewrite <- app_assoc, fmap_app, Ek1, He. split_and!; [done| |by eexists _, _].
      by apply prefix_app, prefix_app_r. }
  set (k2 := if has_events spec then [(WaitScheduler, BReturned r1)] else []).
  assert (S2 : scheduler_in_time k2 = r1) by (unfold k2; destruct (has_events spec); [apply andb_true_r|by rewrite H1]).
  assert (R2 : runner_in_time k2 = true) by (unfold k2; by destruct (has_events spec)).
  assert (No2 : ∀ o x, (o, BRaised x) ∉ k2) by (unfold k2; destruct (has_events spec); set_solver).
  assert (E2 : k2.*1 = if has_events spec then [WaitScheduler] else []) by (unfold k2; by destruct (has_events spec)).
  unfold mbind, Prog_bind. set (wait_runner := c && (bool_decide (deadline_policy spec = "warn") || r1)).
  assert (Hs : ∀ k3, scheduler_in_time k3 = true → scheduler_in_time (k1 ++ k2 ++ k3) = r1).
  { intros k3 S3. unfold scheduler_in_time in *. rewrite !in_time_app, S1, S2, S3. apply andb_true_r. }
  destruct (operate_if_cases wait_runner WaitRunner ((w ++ k1) ++ k2)) as [(r2 & -> & H2)|(Hw & x2 & ->)]; intros [= <- <-].
  - set (k3 := if wait_runner then [(WaitRunner, BReturned r2)] else []). exists (k1 ++ k2 ++ k3).
    assert (S3 : scheduler_in_time k3 = true) by (unfold k3; by destruct wait_runner).
    assert (R3 : runner_in_time k3 = r2) by (unfold k3; destruct wait_runner; [apply andb_true_r|by rewrite H2]).
    rewrite (Hs k3 S3). fold wait_runner. assert (E3 : k3.*1 = if wait_runner then [WaitRunner] else []) by (unfold k3; by destruct wait_runner).
    rewrite !fmap_app, Ek1, E2, E3. split; [by rewrite <- !app_assoc|]. split_and!; [done..| |].
    + intros o x [?|[?|?]%elem_of_app]%elem_of_app; [by eapply No1|by eapply No2|]. unfold k3 in *. destruct wait_runner; set_solver.
    + unfold runner_in_time in *. by rewrite !in_time_app, R1, R2, R3.
  - exists (k1 ++ k2 ++ [(WaitRunner, BRaised x2)]). rewrite (Hs [(WaitRunner, BRaised x2)] eq_refl). fold wait_runner. rewrite Hw, !fmap_app, Ek1, E2.
    split_and!; [by rewrite <- !app_assoc|done|]. exists (k1 ++ k2), WaitRunner. rewrite app_assoc. split; [done|].
    intros o x [?|?]%elem_of_app; [by eapply No1|by eapply No2].
Qed.

Lemma construct_runs c lifetimes : any_content (events spec) = Ok c → (c = true → _pub_lifetime_by_uri (events spec) = Ok lifetimes) →
  batch_runs (construct reply spec) (news c lifetimes) ∧ ∀ w w' b, construct reply spec w = (w', inl b) → b = c.
Proof.
  intros Hc Hl. unfold construct, news. rewrite Hc.
  assert (Heq : ∀ w, (pure_call (Ok c) ≫= λ content : bool,
    (if content then pure_call (_pub_lifetime_by_uri (events spec)) ≫= λ l, operate reply (NewRunner l) else mret true) ≫= λ _,
    operate_if reply (has_events spec) NewScheduler ≫= λ _, mret content) w
    = ((if c then operate reply (NewRunner lifetimes) else mret true) ≫= λ _, operate_if reply (has_events spec) NewScheduler ≫= λ _, mret c) w).
  { intros w. unfold pure_call at 1, mbind at 1, Prog_bind at 1. simpl. destruct c; [by rewrite Hl|done]. }
  split.
  - intros w w' out. rewrite Heq. revert w w' out. change (batch_runs ((if c then operate reply (NewRunner lifetimes) else mret true) ≫= λ _,
      operate_if reply (has_events spec) NewScheduler ≫= λ _, mret c) ((if c then [NewRunner lifetimes] else []) ++ (if has_events spec then [NewScheduler] else []))).
    apply batch_bind; [destruct c; [apply batch_operate|apply batch_ret]|]. intros _.
    rewrite <- (app_nil_r (if has_events spec then _ else _)). apply batch_bind; [apply batch_operate_if|]. intros _. apply batch_ret.
  - intros w w' b. rewrite Heq. unfold mbind, Prog_bind, mret, Prog_ret. repeat case_match; congruence.
Qed.

Lemma decide_state c done timeout fs w : (decide_result spec c done timeout fs w).1 = w.
Proof.
  unfold decide_result. case_bool_decide; [reflexivity|]. destruct (negb done.1); [reflexivity|]. destruct (negb done.2); [reflexivity|].
  unfold mbind, Prog_bind, _raise_failures. by destruct fs as [|[s a] [|? ?]].
Qed.

(** C21: a batch starts nothing it has not built and stops everything it started. Both
    collaborators are constructed before either is started, and an exception of a
    construction is raised with nothing started. Without a deadline both are
    started. With one, however the starts and waits end, the scheduler and then the
    runner are stopped, each whatever the other's stop does; an exception of a
    start or wait is raised; otherwise the warn policy returns whether both completed
    with the failures of the stops, and the raise policy raises a RuntimeError for the
    first of them that did not complete - the runner is not waited for when the
    scheduler did not - and the failures of the stops when both did. *)
Theorem batch_stops_what_it_starts c lifetimes w out :
  deadline_policy spec ∈ ["warn"; "raise"] → any_content (events spec) = Ok c → (c = true → _pub_lifetime_by_uri (events spec) = Ok lifetimes) →
  run_event_batch reply spec [] = (w, out) →
  (∃ x k o, w = k ++ [(o, BRaised x)] ∧ w.*1 `prefix_of` news c lifetimes ∧ out = inr x) ∨
  match wait_timeout spec with
  | None => ∃ k, w.*1 = news c lifetimes ++ k ∧ k `prefix_of` starts c ∧
      match out with inl r => k = starts c ∧ r = mkResult c (has_events spec) None [] | inr x => ∃ k o, w = k ++ [(o, BRaised x)] end
  | Some timeout => ∃ built body stopped, w = built ++ body ++ stopped ∧ built.*1 = news c lifetimes ∧ stopped.*1 = stops c ∧
      let s := scheduler_in_time body in let r := runner_in_time body in let fs := failed_stops stopped in
      body.*1 `prefix_of` starts c ++ waits c s ∧
      ((∃ k o x, body = k ++ [(o, BRaised x)] ∧ out = inr x) ∨
       body.*1 = starts c ++ waits c s ∧
       if bool_decide (deadline_policy spec = "warn") then out = inl (mkResult c (has_events spec) (Some (s && r)) fs)
       else if negb s then out = inr (Plain (Exn ERuntimeError (_deadline_message (scheduler_label spec) timeout)))
       else if negb r then out = inr (Plain (Exn ERuntimeError (_deadline_message (runner_label spec) timeout)))
       else match fs with
            | [] => out = inl (mkResult c (has_events spec) (Some true) [])
            | _ => ∃ y, out = inr y ∧ ∀ x, x ∈ fs.*2 → within x y
            end)
  end.
Proof.
  intros Hp Hc Hl. unfold run_event_batch. rewrite bool_decide_eq_false_2 by (intros ?; done). destruct (construct_runs c lifetimes Hc Hl) as [Hn Hb].
  unfold mbind at 1, Prog_bind at 1. destruct (construct reply spec []) as [w1 [b|x]] eqn:E1; destruct (Hn _ _ _ E1) as (k1 & -> & Pk1 & Hk1).
  2:{ intros [= <- <-]. left. destruct Hk1 as (k & o & -> & _). by exists x, k, o. }
  pose proof (Hb _ _ _ E1) as ->. destruct Hk1 as [Ek1 _]. intros E. right. simpl in E. destruct (wait_timeout spec) as [timeout|].
  - unfold finally in E. destruct (start_and_wait reply spec c k1) as [w2 out2] eqn:E2. destruct (start_and_wait_spec c _ _ _ E2) as (k2 & -> & Pk2 & Hk2).
    destruct (stop_both_spec c (k1 ++ k2)) as (k3 & E3 & Ek3). rewrite E3 in E. exists k1, k2, k3. destruct out2 as [done|x].
    + destruct Hk2 as (Ek2 & _ & ->). assert (w = (k1 ++ k2) ++ k3 ∧ (decide_result spec c (scheduler_in_time k2, runner_in_time k2) timeout (failed_stops k3) ((k1 ++ k2) ++ k3)).2 = out) as [-> Hout].
      { pose proof (decide_state c (scheduler_in_time k2, runner_in_time k2) timeout (failed_stops k3) ((k1 ++ k2) ++ k3)) as Hd.
        rewrite E in Hd |- *. done. }
      rewrite <- app_assoc. split_and!; [done..|]. right. split; [done|]. unfold decide_result in Hout. simpl in Hout.
      case_bool_decide; [done|]. destruct (negb (scheduler_in_time k2)) eqn:Es; [done|]. destruct (negb (runner_in_time k2)) eqn:Er; [done|].
      apply negb_false_iff in Es, Er. rewrite Es, Er in Hout. unfold mbind, Prog_bind, _raise_failures in Hout.
      destruct (failed_stops k3) as [|[s a] [|[s' b] fs]]; simpl in Hout; [done| |]; eexists; (split; [done|]).
      * intros x ->%list_elem_of_singleton. constructor.
      * intros x Hx. simpl. destruct (_ && _); by eapply within_group; [|constructor].
    + injection E as <- <-. rewrite <- app_assoc. split_and!; [done..|]. left. destruct Hk2 as (k & o & -> & _). by exists k, o, x.
  - unfold mbind, Prog_bind in E. destruct (start_both reply spec c k1) as [w2 [b|x]] eqn:E2; injection E as <- <-;
      destruct (batch_starts c _ _ _ E2) as (k2 & -> & Pk2 & Hk2); exists (k2.*1); rewrite fmap_app, Ek1; (split; [done|]); (split; [done|]).
    + by destruct Hk2.
    + destruct Hk2 as (k & o & -> & _). exists (k1 ++ k), o. by rewrite app_assoc.
Qed.
End batch_lemmas.

(** * What a client of a batch relies on *)

Definition is_new (o : bop) : bool := match o with NewRunner _ | NewScheduler => true | _ => false end.
(** The operation returned, and in time when it is a wait. *)
Definition batch_fine (oa : bop * banswer) : Prop :=
  match oa with
  | (_, BRaised _) => False
  | (WaitScheduler, BReturned b) | (WaitRunner, BReturned b) => b = true
  | _ => True
  end.

Section clients.
Context (reply : batch_world → bop → banswer) (spec : EventBatchSpec).

Lemma construct_news w w' out : construct reply spec w = (w', out) →
  ∃ k, w' = w ++ k ∧ (∀ o, o ∈ k.*1 → is_new o = true) ∧ (∀ c, out = inl c → ∀ o x, (o, BRaised x) ∉ k).
Proof.
  assert (Hraise : ∀ (x : exc), (w, inr x) = (w', out) → ∃ k, w' = w ++ k ∧ (∀ o, o ∈ k.*1 → is_new o = true) ∧ (∀ c : bool, out = inl c → ∀ o x, (o, BRaised x) ∉ k)).
  { intros x [= <- <-]. exists []. rewrite app_nil_r. split_and!; [done|by intros ? ?%elem_of_nil|done]. }
  intros E. destruct (any_content (events spec)) as [c|e|] eqn:Ec.
  2-3: unfold construct, mbind at 1, Prog_bind at 1 in E; rewrite Ec in E; exact (Hraise _ E).
  assert (Hl : c = false ∨ (∃ l, _pub_lifetime_by_uri (events spec) = Ok l) ∨ c = true ∧ ∃ x, construct reply spec w = (w, inr x)).
  { destruct c; [right|by left]. unfold construct. rewrite Ec. unfold mbind, Prog_bind. simpl.
    destruct (_pub_lifetime_by_uri (events spec)) as [l|e|]; [left; by exists l|right; split; [done|by eexists]..]. }
  assert (Hrun : ∀ l, (c = true → _pub_lifetime_by_uri (events spec) = Ok l) →
    ∃ k, w' = w ++ k ∧ (∀ o, o ∈ k.*1 → is_new o = true) ∧ (∀ c : bool, out = inl c → ∀ o x, (o, BRaised x) ∉ k)).
  { intros l Hl'. destruct (proj1 (construct_runs reply spec c l Ec Hl') _ _ _ E) as (k & -> & [k' Hk] & Hout). exists k. split_and!; [done| |].
    - intros o Ho. assert (Hin : o ∈ news spec c l) by (rewrite Hk; apply elem_of_app; by left).
      revert Hin. unfold news. rewrite elem_of_app. destruct c, (has_events spec); rewrite ?list_elem_of_singleton, ?elem_of_nil; naive_solver.
    - intros b ->. apply Hout. }
  destruct Hl as [->|[[l Hl]|[-> [x Hx]]]]; [by apply (Hrun [])|by apply (Hrun l)|]. rewrite Hx in E. by eapply Hraise.
Qed.

Lemma not_new o k : is_new o = false → (∀ o, o ∈ k.*1 → is_new o = true) → (∀ a : banswer, (o, a) ∉ k).
Proof. intros Ho Hk a Hin. specialize (Hk o). rewrite Hk in Ho; [done|]. by apply (list_elem_of_fmap_2 fst _ (o, a)). Qed.

(** A batch that is not waited for: what it started, it returns. *)
Lemma batch_unwaited w out : wait_timeout spec = None → deadline_policy spec = "warn" → run_event_batch reply spec [] = (w, out) →
  match out with
  | inl r => (∀ o x, (o, BRaised x) ∉ w) ∧ (StartRunner ∈ w.*1 → content_runner r = true) ∧ (StartScheduler ∈ w.*1 → event_scheduler r = true)
  | inr _ => (∀ b, (StartScheduler, BReturned b) ∉ w) ∧ ∀ b, (StartRunner, BReturned b) ∈ w → ∃ x, (StartScheduler, BRaised x) ∈ w
  end.
Proof.
  intros Ht Hp. unfold run_event_batch. rewrite Hp. case_bool_decide as Hd; [exfalso; apply Hd; by left|]. clear Hd. rewrite Ht.
  unfold mbind at 1, Prog_bind at 1. destruct (construct reply spec []) as [w1 [c|x]] eqn:E1; destruct (construct_news _ _ _ E1) as (k1 & -> & Hnew & Hno).
  2:{ intros [= <- <-]. simpl. split; intros b Hin; exfalso; by eapply not_new in Hin. }
  unfold mbind, Prog_bind. destruct (start_both reply spec c ([] ++ k1)) as [w2 [b|x]] eqn:E2; intros [= <- <-]; simpl in *;
    destruct (batch_starts reply spec c _ _ _ E2) as (k2 & -> & [k' Hk'] & Hk2).
  - destruct Hk2 as [Ek2 No2]. split_and!.
    + intros o x [?|?]%elem_of_app; [by eapply Hno|by eapply No2].
    + rewrite fmap_app, elem_of_app, Ek2. intros [Hin|Hin]; [by apply Hnew in Hin|]. unfold starts in Hin. destruct c; [done|]. destruct (has_events spec); set_solver.
    + rewrite fmap_app, elem_of_app, Ek2. intros [Hin|Hin]; [by apply Hnew in Hin|]. unfold starts in Hin. destruct (has_events spec); [done|]. destruct c; set_solver.
  - destruct Hk2 as (k3 & o & -> & No3). rewrite fmap_app in Hk'. simpl in Hk'. unfold starts in Hk'.
    assert (Hcases : k3 = [] ∨ (∃ a, k3 = [(StartRunner, a)] ∧ o = StartScheduler)).
    { destruct k3 as [|[o1 a1] [|[o2 a2] k3]]; [by left| |]; simpl in Hk'; destruct c, (has_events spec); try discriminate Hk'; injection Hk'; intros; subst; first [by exfalso; destruct k3|right; by exists a1]. }
    split; intros b [Hin|Hin]%elem_of_app; try (exfalso; by eapply not_new in Hin).
    + exfalso. destruct Hcases as [->|(a & -> & ->)]; set_solver.
    + destruct Hcases as [->|(a & -> & ->)]; [exfalso; set_solver|]. exists x. set_solver.
Qed.

(** A batch that is waited for stops what it starts; under the raise policy it
    returns only when everything went well. *)
Lemma batch_waited timeout w out : wait_timeout spec = Some timeout → deadline_policy spec = "raise" → run_event_batch reply spec [] = (w, out) →
  (StartRunner ∈ w.*1 → StopRunner ∈ w.*1) ∧ (StartScheduler ∈ w.*1 → StopScheduler ∈ w.*1) ∧
  (∀ r, out = inl r → ∀ oa, oa ∈ w → batch_fine oa).
Proof.
  intros Ht Hp. unfold run_event_batch. rewrite Hp. case_bool_decide as Hd; [exfalso; apply Hd; right; by left|]. clear Hd. rewrite Ht.
  unfold mbind at 1, Prog_bind at 1. destruct (construct reply spec []) as [w1 [c|x]] eqn:E1; destruct (construct_news _ _ _ E1) as (k1 & -> & Hnew & Hno).
  2:{ intros [= <- <-]. simpl. split_and!; [by intros ?%Hnew|by intros ?%Hnew|done]. }
  unfold finally. simpl. destruct (start_and_wait reply spec c k1) as [w2 out2] eqn:E2. destruct (start_and_wait_spec reply spec c _ _ _ E2) as (k2 & -> & [l Hl] & Hk2).
  destruct (stop_both_spec reply spec c (k1 ++ k2)) as (k3 & E3 & Ek3). rewrite E3.
  assert (Hops : w = k1 ++ k2 ++ k3 → (StartRunner ∈ w.*1 → StopRunner ∈ w.*1) ∧ (StartScheduler ∈ w.*1 → StopScheduler ∈ w.*1)).
  { assert (Hin2 : ∀ o, o ∈ k2.*1 → o ∈ starts spec c ++ waits spec c (scheduler_in_time k2)) by (intros o Ho; rewrite Hl; apply elem_of_app; by left).
    intros ->. rewrite !fmap_app, Ek3, !elem_of_app. split; (intros [Hin|[Hin|Hin]]; [by apply Hnew in Hin| |by unfold stops in Hin; destruct (has_events spec), c; set_solver]);
      apply Hin2 in Hin; right; right; unfold starts, waits, stops in *; destruct (has_events spec), c; simpl in *; case_match; set_solver. }
  destruct out2 as [done|x].
  - destruct Hk2 as (_ & No2 & ->). intros Ed. pose proof (decide_state spec c (scheduler_in_time k2, runner_in_time k2) timeout (failed_stops k3) ((k1 ++ k2) ++ k3)) as Hst.
    rewrite Ed in Hst. simpl in Hst. destruct (Hops ltac:(by rewrite Hst, <-app_assoc)) as [? ?]. split_and!; [done..|]. intros r -> [o a] Hin.
    unfold decide_result in Ed. rewrite Hp in Ed. simpl in Ed. destruct (scheduler_in_time k2) eqn:Es; [|done]. destruct (runner_in_time k2) eqn:Er; [|done].
    simpl in Ed. unfold mbind, Prog_bind, _raise_failures in Ed. destruct (failed_stops k3) as [|[s y] [|[s' y'] fs]] eqn:Ef; [|done|by destruct (forallb _ _)].
    rewrite Hst in Hin. rewrite !elem_of_app in Hin. destruct Hin as [[Hin|Hin]|Hin].
    + destruct a as [b|y]; [|exfalso; by eapply (Hno c eq_refl)]. destruct o; try done; exfalso; by eapply not_new in Hin.
    + destruct a as [b|y]; [|exfalso; by eapply No2]. destruct o; try done; simpl.
      * unfold scheduler_in_time, in_time in Es. rewrite List.forallb_forall in Es. apply list_elem_of_In in Hin. by apply Es in Hin.
      * unfold runner_in_time, in_time in Er. rewrite List.forallb_forall in Er. apply list_elem_of_In in Hin. by apply Er in Hin.
    + assert (Ho : o ∈ stops spec c) by (rewrite <-Ek3; by apply (list_elem_of_fmap_2 fst _ (o, a))).
      assert (Hs : o = StopScheduler ∨ o = StopRunner) by (unfold stops in Ho; destruct (has_events spec), c; set_solver).
      destruct a as [b|y]; [by destruct Hs as [->| ->]|]. exfalso. apply (not_elem_of_nil (match o with StopScheduler => "scheduler.stop" | _ => "runner.stop" end, y)).
      rewrite <-Ef. unfold failed_stops. apply list_elem_of_omap. exists (o, BRaised y). split; [done|]. by destruct Hs as [->| ->].
  - intros [= <- <-]. destruct Hops as [? ?]; [by rewrite <-app_assoc|]. done.
Qed.
End clients.

(** * Example *)

Definition demo_put : pydict := [(PStr "type", PStr "put"); (PStr "uri", PStr "ccnx:/a"); (PStr "at", PInt 0)].
Definition demo_batch : EventBatchSpec := mkBatch [demo_put] (Some 300) "raise" "seed event scheduling" "seed content operations".
Definition slow_scheduler (_ : batch_world) (o : bop) : banswer := match o with WaitScheduler => BReturned false | _ => BReturned true end.

(** The scheduler misses its deadline: the runner is not waited for, both are
    stopped, and the deadline is the error. *)
Lemma batch_stops_what_it_starts_witness : ∃ w y, run_event_batch slow_scheduler demo_batch [] = (w, inr y) ∧
  ∃ k, w.*1 = k ++ [StopScheduler; StopRunner].
Proof.
  assert (Hp : deadline_policy demo_batch ∈ ["warn"; "raise"]) by (right; left).
  pose proof (batch_stops_what_it_starts slow_scheduler demo_batch true [] _ _ Hp eq_refl (λ _, eq_refl) (surjective_pairing _)) as Hb.
  assert (Hr : match run_event_batch slow_scheduler demo_batch [] with (w, inr _) => List.last w.*1 StartRunner = StopRunner | _ => False end) by (vm_compute; done).
  destruct (run_event_batch slow_scheduler demo_batch []) as [w [r|y]]; [done|]. exists w, y. split; [reflexivity|].
  destruct Hb as [(x & k & o & Ew & [l Hl] & _)|(built & body & stopped & Ew & _ & Es & _)].
  - exfalso. simpl in Hr, Hl. clear -Hr Hl. cbn in Hl. destruct (w.*1) as [|o1 [|o2 [|o3 l']]]; simpl in *; congruence.
  - exists (built ++ body).*1. simpl in Ew. rewrite Ew, app_assoc, fmap_app, Es. reflexivity.
Defined.
