(* ===== verification/MeshRouting.v ===== *)
(** From configuration to routes: an accepted explicit topology is built into
    links the addressing scheme covers, and every routing strategy then gives
    every host a route towards every publisher.  Joins the validator, the
    topology build and the route computation. *)
From S2P Require Import Prelude PyValue Topology Graph Addressing Fib Events Options Validate ValidateEvents ValidateConfig Topo.
Local Open Scope Z_scope.

(** The pairs as [ExplicitLinksTopo] receives them. *)
Definition pair_hosts (p : Z * Z) : list Z := [p.1; p.2].

Section explicit.
Context (n : Z) (pairs : list (Z * Z)).
Context (Hn : 2 ≤ n) (Hok : links_ok (Some n) pairs).

Lemma pair_range a b : (a, b) ∈ pairs → a ≠ b ∧ 0 ≤ a < n ∧ 0 ≤ b < n ∧ a ≤ MAX_HOST_INDEX ∧ b ≤ MAX_HOST_INDEX.
Proof.
  intros Hab. destruct (lo_pair _ _ Hok a b Hab) as (? & ? & ? & Hr).
  destruct (Hr n eq_refl). done.
Qed.

Lemma sorted_pair_elem a b h : h ∈ sorted_list (sorted_list [a; b]) ↔ h = a ∨ h = b.
Proof. rewrite !elem_of_sorted_list, elem_of_cons, list_elem_of_singleton. done. Qed.

(** The links of the built topology, one per pair. *)
Lemma explicit_build :
  ∃ mesh log, ExplicitLinksTopo_build n (pair_hosts <$> pairs) = Ok (mesh, log) ∧
    length mesh = length pairs ∧
    ∀ i p, pairs !! i = Some p → ∃ l, mesh !! i = Some l ∧
      link_numbered log (Z.of_nat i) (sorted_list (pair_hosts p)) l.
Proof.
  unfold ExplicitLinksTopo_build.
  destruct (emit_links_spec n (sorted_list <$> (pair_hosts <$> pairs))) as (mesh & ps & -> & Hlen & Hl).
  { intros hs Hhs. rewrite <- list_fmap_compose in Hhs.
    apply list_elem_of_fmap in Hhs as ([a b] & -> & Hab). simpl.
    destruct (pair_range a b Hab) as (Hne & Ha & Hb & _). split.
    - rewrite sorted_list_Permutation. unfold pair_hosts. simpl.
      apply NoDup_cons. split; [|apply NoDup_singleton]. by rewrite list_elem_of_singleton.
    - intros h. rewrite elem_of_sorted_list. unfold pair_hosts. simpl.
      rewrite elem_of_cons, list_elem_of_singleton. by intros [-> | ->]. }
  exists mesh, (add_links ps). split_and!; [done|by rewrite Hlen, !length_fmap|].
  intros i p Hp. apply Hl. by rewrite !list_lookup_fmap, Hp.
Qed.

Section built.
Context (mesh : list raw_link) (log : list (Z * string)).
Context (Hlen : length mesh = length pairs).
Context (Hmesh : ∀ i p, pairs !! i = Some p → ∃ l, mesh !! i = Some l ∧
  link_numbered log (Z.of_nat i) (sorted_list (pair_hosts p)) l).

(** A link of the built model and the pair it comes from. *)
Lemma model_link l :
  l ∈ TopologyModel mesh → ∃ i a b, pairs !! i = Some (a, b) ∧ subnet l = Some (Z.of_nat i + 1) ∧
    TopologyModel mesh !! i = Some l ∧ hosts l = sorted_list (sorted_list [a; b]).
Proof.
  intros (i & Hi)%list_elem_of_lookup. pose proof Hi as Hi'. unfold TopologyModel in Hi.
  rewrite list_lookup_fmap in Hi. apply fmap_Some in Hi as (raw & Hraw & ->).
  destruct (lookup_lt_is_Some_2 pairs i) as [[a b] Hp]; [rewrite <- Hlen; by eapply lookup_lt_Some|].
  destruct (Hmesh i (a, b) Hp) as (raw' & Hraw' & (eth & -> & _)). simplify_eq.
  exists i, a, b. done.
Qed.

Lemma model_pair i a b :
  pairs !! i = Some (a, b) → ∃ l, TopologyModel mesh !! i = Some l ∧ hosts l = sorted_list (sorted_list [a; b]).
Proof.
  intros Hp. destruct (Hmesh i (a, b) Hp) as (raw & Hraw & (eth & -> & _)).
  eexists. unfold TopologyModel. rewrite list_lookup_fmap, Hraw. done.
Qed.

Lemma explicit_wf : wf_mesh mesh.
Proof.
  intros l (i & a & b & Hp & Hsn & _ & Hh)%model_link.
  destruct (pair_range a b) as (Hne & Ha & Hb & Ha' & Hb'); [by eapply list_elem_of_lookup_2|].
  constructor.
  - rewrite Hh. intros E. assert (Hin : a ∈ sorted_list (sorted_list [a; b])) by (apply sorted_pair_elem; by left).
    rewrite E in Hin. by apply elem_of_nil in Hin.
  - rewrite Hh, !sorted_list_Permutation. apply NoDup_cons. split; [|apply NoDup_singleton].
    by rewrite list_elem_of_singleton.
  - rewrite Hh. intros h [-> | ->]%sorted_pair_elem; lia.
  - exists (Z.of_nat i + 1). split; [done|]. pose proof (lookup_lt_Some _ _ _ Hp).
    pose proof (lo_len _ _ Hok). lia.
Qed.

Lemma explicit_linked a b : linked mesh a b ↔ paired pairs a b.
Proof.
  unfold linked, paired. split.
  - intros (Hne & l & (i & x & y & Hp & _ & _ & Hh)%model_link & Ha & Hb).
    rewrite Hh in Ha, Hb. apply sorted_pair_elem in Ha, Hb. apply list_elem_of_lookup_2 in Hp.
    destruct Ha as [-> | ->], Hb as [-> | ->]; try done; auto.
  - intros Hab. assert (Hx : ∃ x y, (x, y) ∈ pairs ∧ (x = a ∧ y = b ∨ x = b ∧ y = a)) by naive_solver.
    destruct Hx as (x & y & Hxy & Hcase). destruct (pair_range x y Hxy) as (Hne & _).
    split; [naive_solver|]. apply list_elem_of_lookup in Hxy as (i & Hi).
    destruct (model_pair i x y Hi) as (l & Hl & Hh). exists l.
    split; [by eapply list_elem_of_lookup_2|]. rewrite Hh, !sorted_pair_elem. naive_solver.
Qed.

Lemma explicit_connected a b : 0 ≤ a < n → 0 ≤ b < n → rtc (linked mesh) a b.
Proof.
  assert (H0 : ∀ x, 0 ≤ x < n → rtc (linked mesh) 0 x).
  { intros x Hx. eapply rtc_subrel; [|apply (lo_conn _ _ Hok n eq_refl ltac:(lia) x Hx)].
    intros u v. apply explicit_linked. }
  intros Ha Hb. trans 0; [symmetry|]; by apply H0.
Qed.

Lemma explicit_host_count : Topology.host_count (TopologyModel mesh) = Ok n.
Proof.
  destruct (host_count_total (TopologyModel mesh)) as [m Hm].
  { intros l Hl. by apply explicit_wf. }
  rewrite Hm. f_equal. destruct (host_count_Ok _ _ Hm) as (Hm0 & Hlt & Hmax).
  assert (Hne : ∃ y, linked mesh (n - 1) y).
  { assert (Hr : rtc (linked mesh) (n - 1) 0) by (apply explicit_connected; lia).
    inversion Hr as [|? y ? Hy]; subst; [lia|eauto]. }
  destruct Hne as (y & _ & l & Hl & Hx & _). specialize (Hlt l (n - 1) Hl Hx).
  destruct Hmax as [->|(l' & Hl' & Hm1)]; [lia|].
  destruct (model_link l' Hl') as (i & a & b & Hp & _ & _ & Hh). rewrite Hh in Hm1.
  apply list_elem_of_lookup_2 in Hp. destruct (pair_range a b Hp) as (_ & ? & ? & _).
  apply sorted_pair_elem in Hm1 as [? | ?]; lia.
Qed.

(** No two links join the same hosts. *)
Lemma explicit_single l l' a b :
  l ∈ TopologyModel mesh → l' ∈ TopologyModel mesh → a ≠ b →
  connects l a b → connects l' a b → l = l'.
Proof.
  intros (i & x & y & Hp & _ & Hi & Hh)%model_link (i' & x' & y' & Hp' & _ & Hi' & Hh')%model_link Hne Hc Hc'.
  unfold connects in Hc, Hc'. rewrite andb_True, !bool_decide_spec in Hc, Hc'.
  rewrite Hh, !sorted_pair_elem in Hc. rewrite Hh', !sorted_pair_elem in Hc'.
  assert (Hf : frozen x y = frozen x' y') by (unfold frozen; f_equal; lia).
  assert (i = i') as ->; [|congruence].
  apply (NoDup_lookup _ i i' (frozen x y) (lo_NoDup _ _ Hok)); rewrite list_lookup_fmap.
  - by rewrite Hp.
  - rewrite Hp'. simpl. by rewrite Hf.
Qed.
End built.
End explicit.

(** C3: an accepted explicit topology routes. For a configuration that validates
    without messages, declares [n] hosts and lists [links], the build succeeds;
    the model has exactly the [n] hosts, all connected, with at most one link
    between two hosts; and under every strategy every host gets a route entry
    towards the publisher of every published prefix. *)
Theorem accepted_links_route `{FloatRepr} `{IpLib} config links n :
  validate_config config = Ok [] → dget config "links" = Some (PList links) →
  dget config "hosts" = Some (PInt n) →
  ∃ pairs mesh log, links = pair_entry <$> pairs ∧
    ExplicitLinksTopo_build n (pair_hosts <$> pairs) = Ok (mesh, log) ∧
    Topology.host_count (TopologyModel mesh) = Ok n ∧
    (∀ a b, 0 ≤ a < n → 0 ≤ b < n → rtc (linked mesh) a b) ∧
    (∀ l l' a b, l ∈ TopologyModel mesh → l' ∈ TopologyModel mesh → a ≠ b →
       connects l a b → connects l' a b → l = l') ∧
    ∀ strategy k uris scheme prefs p pub src,
      1 ≤ k → oct2 (default default_scheme scheme) = 0 → publishers_ok n uris →
      (p, pub) ∈ uris → 0 ≤ src < n → src ≠ pub →
      ∃ routes r, compute_routes strategy mesh k (Some uris) scheme prefs = Ok routes ∧
        r ∈ routes ∧ source r = src ∧ prefix r = p ∧ linked mesh src (next_hop r).
Proof.
  intros Hv Hl Hh. apply accepted_blocks in Hv as (Hflat & Hlinks & _).
  destruct (accepted_hosts config _ Hflat Hh) as (n' & [= <-] & Hn).
  destruct (validate_links_accepted config links Hlinks Hl) as (pairs & -> & Hok).
  unfold get_int in Hok. rewrite Hh in Hok.
  assert (Hn2 : 2 ≤ n) by lia.
  destruct (explicit_build n pairs Hok) as (mesh & log & Hb & Hlen & Hmesh).
  pose proof (explicit_wf n pairs Hok mesh log Hlen Hmesh) as Hwf.
  pose proof (explicit_host_count n pairs Hn2 Hok mesh log Hlen Hmesh) as Hhc.
  pose proof (explicit_connected n pairs Hn2 Hok mesh log Hlen Hmesh) as Hconn.
  exists pairs, mesh, log. split_and!; [done..|by eapply explicit_single|].
  intros strategy k uris scheme prefs p pub src Hk Hs Hpub Hin Hsrc Hne.
  destruct (compute_routes_spec strategy mesh k (Some uris) scheme prefs n) as (routes & E & _ & Hr);
    [done|done|lia|done|done|].
  assert (Hpr : 0 ≤ pub < n).
  { unfold publishers_ok in Hpub. rewrite Forall_forall in Hpub. by apply (Hpub (p, pub)). }
  destruct (connected_hop_dist mesh n src pub) as [d Hd]; [done..|by apply Hconn|].
  destruct (chosen_exists strategy mesh n k src pub d) as [nh Hnh]; [done..|].
  pose proof (chosen_linked _ _ _ _ _ _ Hnh) as Hlk.
  destruct (build_graph_and_subnets_spec mesh Hwf) as (m & g & ls & _ & _ & Hg).
  destruct (hop_ip_spec mesh m g ls (default default_scheme scheme) Hg Hs src nh Hlk) as (ip & _ & Hip).
  exists routes, (mkRoute src p nh ip). split_and!; [done| |done..].
  apply Hr. exists pub. simpl. split_and!; [|done|by apply Hip]. by apply asked_publisher.
Qed.

(** The three-host line of the validation examples, routed with two published
    prefixes. *)
Lemma accepted_links_route_witness :
  ∃ pairs mesh log, [PList [PInt 0; PInt 1]; PList [PInt 2; PInt 1]] = pair_entry <$> pairs ∧
    ExplicitLinksTopo_build 3 (pair_hosts <$> pairs) = Ok (mesh, log) ∧
    ∃ routes r, compute_routes DijkstraStrategy mesh 1 (Some [("ccnx:/a", 2); ("ccnx:/b", 0)]) None None = Ok routes ∧
      r ∈ routes ∧ source r = 0 ∧ prefix r = "ccnx:/a" ∧ linked mesh 0 (next_hop r).
Proof.
  destruct (accepted_links_route (H:=plain_repr) (H0:=any_cidr) line_config
    [PList [PInt 0; PInt 1]; PList [PInt 2; PInt 1]] 3) as (pairs & mesh & log & Hp & Hb & _ & _ & _ & Hr).
  1, 2, 3: vm_compute; reflexivity.
  exists pairs, mesh, log. split; [done|]. split; [done|].
  apply (Hr DijkstraStrategy 1 [("ccnx:/a", 2); ("ccnx:/b", 0)] None None "ccnx:/a" 2 0).
  - lia.
  - vm_compute. reflexivity.
  - unfold publishers_ok. repeat constructor; simpl; lia.
  - by left.
  - lia.
  - lia.
Defined.
