(* ===== verification/Monitor.v ===== *)
(** Component: the monitor (src/runtime/monitoring.py, the status commands of
    src/runtime/cefore.py, [_start_monitoring] of src/scenarios/disaster.py): what
    one probe reports, and the collection thread with its stop, as interleaved
    steps. *)
From S2P Require Import Prelude PyValue PyNum PyString PyText CommandRunner Artifacts CefArgv CcninfoParse Verdict Events Options Validate ValidateEvents ValidateConfig.
Local Open Scope Z_scope.

(** * Outcomes *)

Definition _NEGATIVE_MARKERS : list (string * list string) :=
  [("cefstatus", ["error"; "failed"; "connection refused"; "no such file"]);
   ("csmgrstatus", ["error"; "failed"; "connection refused"; "no such file"; "skipped"; "not found"; "cannot"; "timeout"; "timed out"])].
Definition _POSITIVE_MARKERS : list (string * list string) :=
  [("cefstatus", ["faces"; "fib"]); ("csmgrstatus", ["connect to"; "all connection num"])].
Definition markers (table : list (string * list string)) (target_type : string) : list string :=
  default [] (snd <$> List.find (λ kv, bool_decide (kv.1 = target_type)) table).

(** [derive_monitor_outcome]. *)
Definition derive_monitor_outcome (target_type : string) (r : CommandResult) : string :=
  if timed_out r || cancelled r then "not-ok"
  else if negb (bool_decide (returncode r = Some 0)) then "not-ok"
  else
    let low := lower (stdout r) in
    if existsb (contains low) (markers _NEGATIVE_MARKERS target_type) then "not-ok"
    else if existsb (contains low) (markers _POSITIVE_MARKERS target_type) then "ok"
    else "not-ok".

Definition MONITOR_FIELDS : list string := ["elapsed_sec"; "type"; "host"; "output"; "outcome"].
(** [json.dumps(v, ensure_ascii=False)]; the keys are strings. *)
Definition json_char (c : ascii) : string :=
  let n := code c in
  if bool_decide (String c EmptyString = dquote) || (n =? 92)%N then String backslash (String c EmptyString)
  else if (n =? 8)%N then String backslash "b" else if (n =? 9)%N then String backslash "t"
  else if (n =? 10)%N then String backslash "n" else if (n =? 12)%N then String backslash "f"
  else if (n =? 13)%N then String backslash "r"
  else if (n <? 32)%N then String backslash ("u00" +s+ String (hex_digit (n / 16)) (String (hex_digit (n mod 16)) EmptyString))
  else String c EmptyString.
Definition json_str (s : string) : string := dquote +s+ join "" (json_char <$> String.list_ascii_of_string s) +s+ dquote.
Fixpoint json_dumps `{FloatRepr} (v : pv) : string :=
  match v with
  | PNone => "null"
  | PBool b => if b then "true" else "false"
  | PInt z => str_Z z
  | PFloat FNaN => "NaN"
  | PFloat (FInf neg) => if neg then "-Infinity" else "Infinity"
  | PFloat f => float_repr f
  | PStr s => json_str s
  | PList l => "[" +s+ join ", " (json_dumps <$> l) +s+ "]"
  | PDict d => "{" +s+ join ", " ((λ kv : pv * pv, json_str (match kv.1 with PStr k => k | _ => "" end) +s+ ": " +s+ json_dumps kv.2) <$> d) +s+ "}"
  end.

(** [make_monitor_record]. *)
Definition make_monitor_record (elapsed_sec type_ host output : pv) (outcome : string) : pydict :=
  zip_with (λ k v, (PStr k, v)) MONITOR_FIELDS [elapsed_sec; type_; host; output; PStr outcome].

(** * Configuration *)

(** A constructed [Monitor]; [resolver] is [csmgr_host_resolver]. *)
Record monitor := mkMonitor {
  targets : list pv;
  interval : pv;
  host_count : Z;
  cache_nodes : gset Z;
  command_timeout : pv;
  resolver : option (Z → string + exn);
  has_getter : bool;
  has_callback : bool;
  json_path : option path;
  csv_path : option path;
  background0 : bool;
}.

(** The interval a [Monitor] keeps: [max(1, interval)] of a finite number. *)
Definition monitor_interval (interval : pv) : res pv :=
  let bad := raise EValueError "monitoring interval must be finite" in
  match interval with
  | PBool b => Ok (PInt 1)
  | PInt z => if bool_decide (isfinite interval = Some true) then Ok (PInt (Z.max 1 z)) else bad
  | PFloat f => if is_finite f then Ok (if float_lt (int_f 1) f then interval else PInt 1) else bad
  | _ => raise ETypeError "must be real number"
  end.

Section construction.
Context (resolve : path → path) (path_str : path → string) (to_path : string → path).

(** The path of an output, when one is configured. *)
Definition output_path (output_dir : path) (name : pv) : res (option path) :=
  if truthy name then
    match name with
    | PStr s => Some <$> ensure_within_run_dir resolve path_str output_dir (path_join output_dir (to_path s))
    | _ => raise ETypeError "unsupported operand type(s) for /"
    end
  else Ok None.

(** [Monitor.__init__]. *)
Definition Monitor_init (targets : list pv) (interval : pv) (output_dir : path) (host_count : Z) (cache_nodes : gset Z)
    (output_json output_csv : pv) (resolver : option (Z → string + exn)) (has_getter has_callback background : bool)
    (command_timeout : pv) : res monitor :=
  interval ← monitor_interval interval;
  json ← output_path output_dir output_json;
  csv ← output_path output_dir output_csv;
  Ok (mkMonitor targets interval host_count cache_nodes command_timeout resolver has_getter has_callback json csv background).

(** The monitoring settings with the targets a dashboard adds. *)
Definition default_targets : pv :=
  PList [PDict [(PStr "type", PStr "cefstatus"); (PStr "hosts", PStr "all")];
         PDict [(PStr "type", PStr "csmgrstatus"); (PStr "hosts", PStr "cache")]].
Definition monitoring_settings (dashboard : bool) (monitoring : pydict) : pydict :=
  if dashboard && negb (truthy (get_none monitoring "targets")) then
    let m := dset monitoring (PStr "targets") default_targets in
    if dhas m "interval" then m else dset m (PStr "interval") (PInt 5)
  else monitoring.

(** [_start_monitoring]: the monitor, unless no target is configured. *)
Definition start_monitoring (dashboard use_cli : bool) (monitoring : pydict) (run_dir : path) (hosts : Z) (cache_node_set : gset Z)
    : res (option monitor) :=
  let m := monitoring_settings dashboard monitoring in
  if truthy (get_none m "targets") then
    ts ← py_list (get_none m "targets");
    Some <$> Monitor_init ts (get_or m "interval" (PInt 5)) run_dir hosts cache_node_set
      (get_none m "output_json") (get_none m "output_csv") None true dashboard use_cli (get_or m "command_timeout" (PInt 10))
  else Ok None.
End construction.

(** [_resolve_hosts]. *)
Definition resolve_hosts (spec : pv) (host_count : Z) (cache_nodes : gset Z) : res (list Z) :=
  match spec with
  | PStr s => Ok (if bool_decide (s = "all") then range host_count else if bool_decide (s = "cache") then sorted_list (elements cache_nodes) else [])
  | PList hosts => mapR py_int hosts
  | _ => Ok []
  end.

(** * Probes *)

(** [round(x, 1)]. *)
Definition round1 (x : pyfloat) : pyfloat :=
  match x with FFin m e => double_of_ratio (round_half_even (m * pow_num e * 10) (pow_den e)) 10 | _ => x end.

(** A command on a node; its timeout is a value or [None]. *)
Record request := mkRequest { rq_node : string; rq_argv : list pv; rq_timeout : pv }.

(** [status_output]. *)
Definition status_output (r : CommandResult) : string := if timed_out r then "error: command timeout" else stdout r.

(** What a probe meets: the background flag and the down hosts it reads, the
    answer to its command, and the milliseconds it takes. *)
Record environment := mkEnv {
  e_background : bool;
  e_down : list Z;
  e_run : request → CommandResult + exn;
  e_elapsed_ms : Z;
}.

Section probes.
Context `{FloatRepr} (cwd : string) (c : monitor).

Definition host_node (host : Z) : string := "h" +s+ str_Z host.
Definition probe_timeout (e : environment) : pv := if e_background e then command_timeout c else PNone.

(** [run_cefstatus] and [run_csmgrstatus], without a log. *)
Definition run_cefstatus (e : environment) (host : Z) : CommandResult + exn :=
  e_run e (mkRequest (host_node host) (PStr <$> ["cefstatus"; "-d"; "./" +s+ host_node host]) (probe_timeout e)).
Definition run_csmgrstatus (e : environment) (host : Z) (uri port_num : pv) (addr : string) : CommandResult + exn :=
  e_run e (mkRequest (host_node host)
    (PStr "csmgrstatus" :: (if is_none uri then [] else [uri])
       ++ (if is_none port_num then [] else [PStr "-p"; PStr (py_str port_num)]) ++ [PStr "-h"; PStr addr])
    (probe_timeout e)).

(** [csmgr_host]: an explicit address, the resolver's, or the loopback. *)
Definition csmgr_addr (host : Z) (target : pydict) : string + exn :=
  let fallback := match resolver c with Some f => f host | None => inl "127.0.0.1" end in
  match get_none target "target_host" with
  | PStr explicit => if bool_decide (explicit = "") then fallback else inl explicit
  | _ => fallback
  end.

(** [_collect_ccninfo]: its output and outcome. *)
Definition reply_dict (r : CcninfoReply) : pv :=
  PDict [(PStr "reply_received", PBool (reply_received r)); (PStr "responder", Verdict.opt PStr (responder r));
         (PStr "result", Verdict.opt PStr (result r)); (PStr "rtt_ms", Verdict.opt PFloat (rtt_ms r));
         (PStr "route", PList (hop_dict <$> route r)); (PStr "cache_lines", PList (PStr <$> cache_lines r))].
Definition ccninfo_outcome (reply : CcninfoReply) (r : CommandResult) : string :=
  if reply_received reply && negb (timed_out r) && negb (cancelled r) && bool_decide (returncode r = Some 0) then "ok" else "not-ok".
Definition ccninfo_payload (uri : pv) (reply : CcninfoReply) (r : CommandResult) (elapsed_ms : Z) : pv :=
  PDict [(PStr "uri", uri); (PStr "raw", PStr (stdout r)); (PStr "parsed", reply_dict reply); (PStr "elapsed_ms", PInt elapsed_ms);
         (PStr "timed_out", PBool (timed_out r)); (PStr "returncode", Verdict.opt PInt (returncode r)); (PStr "cancelled", PBool (cancelled r))].

(** The vector of a probe; the content name stands at index 1, whatever its type. *)
Definition ccninfo_argv (host : Z) (uri : pv) (target : pydict) : list pv :=
  (PStr <$> ["env"; "CEFORE_DIR=" +s+ cwd +s+ "/" +s+ host_node host +s+ "/.cefore_env"])
  ++ <[1%nat := uri]> (PStr <$> build_ccninfo_argv "" (host_node host) (get_or target "cache_info" (PBool false))
       (get_or target "owner_only" (PBool false)) (get_none target "hop_count") (get_none target "skip_hop") (get_none target "valid_algo") PNone).
Definition collect_ccninfo (e : environment) (host : Z) (target : pydict) : (pv * string) + exn :=
  match dget target "uri" with
  | None => inr (Exn EKeyError "'uri'")
  | Some uri =>
      match e_run e (mkRequest (host_node host) (ccninfo_argv host uri target) (command_timeout c)) with
      | inr exc => inr exc
      | inl r => let reply := parse_ccninfo (stdout r) in inl (ccninfo_payload uri reply r (e_elapsed_ms e), ccninfo_outcome reply r)
      end
  end.

Definition judged (target_type : string) (r : CommandResult + exn) : (pv * string) + exn :=
  match r with inl r => inl (PStr (status_output r), derive_monitor_outcome target_type r) | inr exc => inr exc end.

(** [_collect_target]. *)
Definition collect_target (e : environment) (target_type : pv) (host : Z) (target : pydict) : (pv * string) + exn :=
  if has_getter c && bool_decide (host ∈ e_down e) then inl (PStr "skipped: host down", "skipped")
  else if eq_str target_type "cefstatus" then judged "cefstatus" (run_cefstatus e host)
  else if eq_str target_type "csmgrstatus" then
    match csmgr_addr host target with
    | inl addr => judged "csmgrstatus" (run_csmgrstatus e host (get_none target "uri") (get_none target "port_num") addr)
    | inr exc => inr exc
    end
  else if eq_str target_type "ccninfo" then collect_ccninfo e host target
  else inl (PStr ("unknown monitor type: " +s+ py_str target_type), "not-ok").

(** The record of a probe; an exception that is no [Exception] escapes. *)
Definition probe (e : environment) (elapsed : pyfloat) (host : Z) (target : pydict) : pydict + exn :=
  let record := make_monitor_record (PFloat (round1 elapsed)) (get_none target "type") (PInt host) in
  match collect_target e (get_none target "type") host target with
  | inl (output, outcome) => inl (record output outcome)
  | inr exc => if is_exception exc then inl (record (PStr ("error: " +s+ exn_msg exc)) "not-ok") else inr exc
  end.

(** The hosts of a target, which has to be a dict. *)
Definition target_dict (v : pv) : res pydict :=
  match v with PDict d => Ok d | _ => raise EAttributeError "object has no attribute 'get'" end.
Definition target_hosts (target : pydict) : res (list Z) :=
  let default_hosts := if eq_str (get_none target "type") "csmgrstatus" then "cache" else "all" in
  resolve_hosts (get_or target "hosts" (PStr default_hosts)) (host_count c) (cache_nodes c).

(** * The collection thread *)

(** Where the thread is: at the head of the loop, at the head of the loop over the
    targets or over the hosts of one, about to run a probe, to append its record,
    to call [on_record], waiting for the interval, or gone. *)
Inductive worker :=
  | WTop
  | WTargets (elapsed : pyfloat) (ts : list pv)
  | WHosts (elapsed : pyfloat) (t : pydict) (hs : list Z) (ts : list pv)
  | WProbe (elapsed : pyfloat) (t : pydict) (h : Z) (hs : list Z) (ts : list pv)
  | WRecord (record : pydict) (elapsed : pyfloat) (t : pydict) (hs : list Z) (ts : list pv)
  | WCallback (record : pydict) (elapsed : pyfloat) (t : pydict) (hs : list Z) (ts : list pv)
  | WWait
  | WDone
  | WDied (exc : exn).

(** Where the caller of [stop] is: elsewhere, in [join], or about to write; it
    writes after the thread has ended or after its budget ([late]). *)
Inductive caller := Elsewhere | Joining | Writing (late : bool).

(** The written files: the budget ran out, and the records the JSON file holds and
    the rows the CSV file holds. *)
Record outputs := mkOutputs { o_late : bool; o_snapshot : list pydict; o_json : option (list pydict); o_csv : option (list pydict) }.

Record collection := mkCollection {
  c_stop : bool;
  c_background : bool;
  c_records : list pydict;
  c_delivered : list pydict;
  c_worker : worker;
  c_caller : caller;
  c_written : option outputs;
}.

Definition set_worker (w : worker) (s : collection) : collection :=
  mkCollection (c_stop s) (c_background s) (c_records s) (c_delivered s) w (c_caller s) (c_written s).
Definition set_caller (k : caller) (s : collection) : collection :=
  mkCollection (c_stop s) (c_background s) (c_records s) (c_delivered s) (c_worker s) k (c_written s).

(** [start]: no thread without targets, which is as good as one that has ended. *)
Definition start_collection : collection :=
  mkCollection false (background0 c) [] [] (match targets c with [] => WDone | _ => WTop end) Elsewhere None.

(** One CSV row: a dict in the output cell is written as JSON. *)
Definition csv_row (record : pydict) : pydict :=
  match get_none record "output" with
  | PDict d => dset record (PStr "output") (PStr (json_dumps (PDict d)))
  | _ => record
  end.
(** [_write_outputs]: a file is written for a configured path and records to write. *)
Definition when_path {A} (p : option path) (l : list A) : option (list A) :=
  match p, l with Some _, _ :: _ => Some l | _, _ => None end.
Definition write_outputs (late : bool) (snapshot : list pydict) : outputs :=
  mkOutputs late snapshot (when_path (json_path c) snapshot) (when_path (csv_path c) (csv_row <$> snapshot)).

Definition gone (w : worker) : bool := match w with WDone | WDied _ => true | _ => false end.

(** The steps: one of the thread, with the clock it may read, the environment a
    probe may meet and whether its wait times out; [enter_background]; and those of
    [stop]: the event set, the join ended or out of budget, the files written. *)
Inductive action := Work (now : pyfloat) (e : environment) | EnterBackground | SetStop | JoinEnds | JoinExpires | Write.

(** One step of the thread; [None] where it is gone. *)
Definition work (now : pyfloat) (e : environment) (s : collection) : option collection :=
  match c_worker s with
  | WTop => Some (set_worker (if c_stop s then WDone else WTargets now (targets c)) s)
  | WTargets elapsed [] => Some (set_worker WWait s)
  | WTargets elapsed (v :: ts) =>
      Some (set_worker (match (t ← target_dict v; hs ← target_hosts t; Ok (t, hs)) with
                        | Ok (t, hs) => WHosts elapsed t hs ts
                        | Raise exc => WDied exc
                        | NoFuel => WDone
                        end) s)
  | WHosts elapsed t [] ts => Some (set_worker (WTargets elapsed ts) s)
  | WHosts elapsed t (h :: hs) ts => Some (set_worker (if c_stop s then WWait else WProbe elapsed t h hs ts) s)
  | WProbe elapsed t h hs ts =>
      let e := mkEnv (c_background s) (e_down e) (e_run e) (e_elapsed_ms e) in
      Some (set_worker (match probe e elapsed h t with inl record => WRecord record elapsed t hs ts | inr exc => WDied exc end) s)
  | WRecord record elapsed t hs ts =>
      Some (mkCollection (c_stop s) (c_background s) (c_records s ++ [record]) (c_delivered s)
              (if has_callback c then WCallback record elapsed t hs ts else WHosts elapsed t hs ts) (c_caller s) (c_written s))
  | WCallback record elapsed t hs ts =>
      Some (mkCollection (c_stop s) (c_background s) (c_records s) (c_delivered s ++ [record]) (WHosts elapsed t hs ts) (c_caller s) (c_written s))
  | WWait => Some (set_worker (if c_stop s then WDone else WTop) s)
  | WDone | WDied _ => None
  end.

(** One step; [None] where it cannot be taken. *)
Definition act (x : action) (s : collection) : option collection :=
  match x, c_caller s with
  | Work now e, _ => work now e s
  | EnterBackground, _ => Some (mkCollection (c_stop s) true (c_records s) (c_delivered s) (c_worker s) (c_caller s) (c_written s))
  | SetStop, Elsewhere =>
      Some (mkCollection true (c_background s) (c_records s) (c_delivered s) (c_worker s) Joining (c_written s))
  | JoinEnds, Joining => if gone (c_worker s) then Some (set_caller (Writing false) s) else None
  | JoinExpires, Joining => if gone (c_worker s) then None else Some (set_caller (Writing true) s)
  | Write, Writing late =>
      Some (mkCollection (c_stop s) (c_background s) (c_records s) (c_delivered s) (c_worker s) Elsewhere
              (Some (write_outputs late (c_records s))))
  | _, _ => None
  end.
Definition step (s s' : collection) : Prop := ∃ x, act x s = Some s'.
Definition reachable (s : collection) : Prop := rtc step start_collection s.
End probes.

(** * One probe *)

Definition outcomes : list string := ["ok"; "not-ok"; "skipped"].
(** The identity of a record: the type of its target and its host. *)
Definition key_of (record : pydict) : pv * pv := (get_none record "type", get_none record "host").
Definition shaped (record : pydict) : Prop :=
  record.*1 = PStr <$> MONITOR_FIELDS ∧ ∃ o, o ∈ outcomes ∧ get_none record "outcome" = PStr o.

Lemma make_record_spec elapsed type_ host output outcome : outcome ∈ outcomes →
  let r := make_monitor_record elapsed type_ host output outcome in shaped r ∧ key_of r = (type_, host).
Proof.
  intros Ho r. split; [|reflexivity]. split; [reflexivity|]. exists outcome. split; [done|reflexivity].
Qed.

Lemma derive_outcomes type_ r : derive_monitor_outcome type_ r ∈ outcomes.
Proof.
  assert (Hok : "ok" ∈ outcomes) by (apply (bool_decide_unpack _); vm_compute; exact I).
  assert (Hnot : "not-ok" ∈ outcomes) by (apply (bool_decide_unpack _); vm_compute; exact I).
  unfold derive_monitor_outcome. by repeat case_match.
Qed.

(** A status probe is "ok" only when its command ended by itself with status 0,
    its text has no negative marker and has a positive one. *)
Lemma derive_ok type_ r : derive_monitor_outcome type_ r = "ok" →
  timed_out r = false ∧ cancelled r = false ∧ returncode r = Some 0 ∧
  existsb (contains (lower (stdout r))) (markers _NEGATIVE_MARKERS type_) = false ∧
  existsb (contains (lower (stdout r))) (markers _POSITIVE_MARKERS type_) = true.
Proof.
  unfold derive_monitor_outcome. destruct (timed_out r), (cancelled r); simpl; try done.
  case_bool_decide; simpl; [|done]. destruct (existsb _ (markers _NEGATIVE_MARKERS _)); [done|].
  destruct (existsb _ (markers _POSITIVE_MARKERS _)); [|done]. done.
Qed.

Section probe_lemmas.
Context `{FloatRepr} (cwd : string) (c : monitor).

Lemma collect_outcomes e type_ host target output outcome :
  collect_target cwd c e type_ host target = inl (output, outcome) → outcome ∈ outcomes.
Proof.
  assert (Hok : "ok" ∈ outcomes) by (apply (bool_decide_unpack _); vm_compute; exact I).
  assert (Hnot : "not-ok" ∈ outcomes) by (apply (bool_decide_unpack _); vm_compute; exact I).
  assert (Hskip : "skipped" ∈ outcomes) by (apply (bool_decide_unpack _); vm_compute; exact I).
  unfold collect_target, judged, collect_ccninfo, ccninfo_outcome. repeat case_match; intros Hc; try discriminate Hc;
    injection Hc as <- <-; try done; apply derive_outcomes.
Qed.

(** A host that is down is not probed, whatever its target. *)
Lemma down_skipped e type_ host target : has_getter c = true → host ∈ e_down e →
  collect_target cwd c e type_ host target = inl (PStr "skipped: host down", "skipped").
Proof. intros Hg Hd. unfold collect_target. by rewrite Hg, bool_decide_true by done. Qed.

Lemma probe_spec e elapsed h t :
  match probe cwd c e elapsed h t with
  | inl r => shaped r ∧ key_of r = (get_none t "type", PInt h)
  | inr exc => is_exception exc = false
  end.
Proof.
  assert (Hnot : "not-ok" ∈ outcomes) by (apply (bool_decide_unpack _); vm_compute; exact I).
  unfold probe. destruct (collect_target _ _ _ _ _ _) as [[output outcome]|exc] eqn:E.
  - apply make_record_spec. by eapply collect_outcomes.
  - destruct (is_exception exc) eqn:Ee; [|done]. by apply make_record_spec.
Qed.

(** * The records follow the targets *)

(** One cycle: every host of every target, in order. *)
Definition host_keys (t : pydict) (hs : list Z) : list (pv * pv) := (λ h, (get_none t "type", PInt h)) <$> hs.
Definition target_keys (v : pv) : res (list (pv * pv)) := t ← target_dict v; hs ← target_hosts c t; Ok (host_keys t hs).
Definition plan_of (ts : list pv) : res (list (pv * pv)) := ks ← mapR target_keys ts; Ok (mjoin (M:=list) ks).
Definition cycles (p : list (pv * pv)) (n : nat) : list (pv * pv) := mjoin (M:=list) (replicate n p).

Lemma plan_cons v ts q : plan_of (v :: ts) = Ok q →
  ∃ t hs q', target_dict v = Ok t ∧ target_hosts c t = Ok hs ∧ plan_of ts = Ok q' ∧ q = host_keys t hs ++ q'.
Proof.
  unfold plan_of. cbn [mapR]. intros (ks & Hk & [= <-])%res_bind_Ok.
  apply res_bind_Ok in Hk as (k & Ek & (ks' & Eks & [= <-])%res_bind_Ok).
  apply res_bind_Ok in Ek as (t & Et & (hs & Ehs & [= <-])%res_bind_Ok).
  exists t, hs, (mjoin ks'). split_and!; [done|done| |reflexivity]. by rewrite Eks.
Qed.

Lemma cycles_end p n : cycles p (S n) = cycles p n ++ p.
Proof. unfold cycles. rewrite replicate_S_end, join_app. simpl. by rewrite app_nil_r. Qed.

(** What the records and the place of the thread say of each other. *)
Definition on_course (p : list (pv * pv)) (stopped : bool) (ks : list (pv * pv)) (w : worker) : Prop :=
  match w with
  | WTop => ∃ n, ks = cycles p n
  | WTargets _ ts => ∃ n q, plan_of ts = Ok q ∧ ks ++ q = cycles p n
  | WHosts _ t hs ts | WCallback _ _ t hs ts => ∃ n q, plan_of ts = Ok q ∧ ks ++ host_keys t hs ++ q = cycles p n
  | WProbe _ t h hs ts => ∃ n q, plan_of ts = Ok q ∧ ks ++ host_keys t (h :: hs) ++ q = cycles p n
  | WRecord r _ t hs ts => shaped r ∧ ∃ n q, plan_of ts = Ok q ∧ (ks ++ [key_of r]) ++ host_keys t hs ++ q = cycles p n
  | WWait => (∃ n, ks = cycles p n) ∨ stopped = true ∧ ∃ n, ks `prefix_of` cycles p n
  | WDone => ∃ n, ks `prefix_of` cycles p n
  | WDied exc => is_exception exc = false ∧ ∃ n, ks `prefix_of` cycles p n
  end.

Lemma on_course_prefix p stopped ks w : on_course p stopped ks w → ∃ n, ks `prefix_of` cycles p n.
Proof.
  assert (Hp : ∀ n l, ks ++ l = cycles p n → ∃ n, ks `prefix_of` cycles p n) by (intros n l Hn; exists n, l; done).
  destruct w; simpl.
  - intros [n ->]. by exists n.
  - intros (n & q & _ & Hn). by eapply Hp.
  - intros (n & q & _ & Hn). by eapply Hp.
  - intros (n & q & _ & Hn). by eapply Hp.
  - intros (_ & n & q & _ & Hn). rewrite <-app_assoc in Hn. by eapply Hp.
  - intros (n & q & _ & Hn). by eapply Hp.
  - intros [[n ->]|[_ Hn]]; [by exists n|done].
  - done.
  - by intros [_ Hn].
Qed.

Lemma on_course_stop p stopped ks w : on_course p stopped ks w → on_course p true ks w.
Proof. destruct w; simpl; try done. intros [?|[_ ?]]; [by left|by right]. Qed.
End probe_lemmas.

(** * The thread and its stop *)

Section monitor_lemmas.
Context `{FloatRepr} (cwd : string) (c : monitor) (p : list (pv * pv)).
Hypothesis Hplan : plan_of c (targets c) = Ok p.

(** A probe under way may still add one record. *)
Definition may_add (w : worker) : nat := match w with WProbe _ _ _ _ _ | WRecord _ _ _ _ _ => 1 | _ => 0 end.

Record minv (s : collection) : Prop := {
  mi_course : on_course c p (c_stop s) (key_of <$> c_records s) (c_worker s);
  mi_shaped : Forall shaped (c_records s);
  mi_delivered : if has_callback c then
      match c_worker s with WCallback r _ _ _ _ => c_records s = c_delivered s ++ [r] | _ => c_records s = c_delivered s end
    else True;
  mi_caller : match c_caller s with
    | Elsewhere => True
    | Joining => c_stop s = true
    | Writing late => c_stop s = true ∧ (late = false → gone (c_worker s) = true)
    end;
  mi_written : ∀ o, c_written s = Some o →
    o = write_outputs c (o_late o) (o_snapshot o) ∧ c_stop s = true ∧ o_snapshot o `prefix_of` c_records s ∧
    (length (c_records s) + may_add (c_worker s) ≤ S (length (o_snapshot o)))%nat ∧
    (o_late o = false → gone (c_worker s) = true ∧ o_snapshot o = c_records s);
}.

Lemma minv_start : minv (start_collection c).
Proof.
  unfold start_collection. destruct (targets c) eqn:Et; split; simpl; try done.
  - exists 0%nat. apply prefix_nil.
  - by destruct (has_callback c).
  - by exists 0%nat.
  - by destruct (has_callback c).
Qed.

(** A step of the thread that adds no record and hands none to the callback. *)
Lemma minv_move s w : minv s → on_course c p (c_stop s) (key_of <$> c_records s) w →
  (match c_worker s with WCallback _ _ _ _ _ => False | _ => True end) → (match w with WCallback _ _ _ _ _ => False | _ => True end) →
  gone (c_worker s) = false → (c_stop s = true → may_add w ≤ may_add (c_worker s))%nat → minv (set_worker w s).
Proof.
  intros Hi Hw Hc Hc' Hg Ha. destruct Hi as [H1 H2 H3 H4 H5]. split; simpl; [done|done| | |].
  - destruct (has_callback c); [|done]. destruct (c_worker s), w; done.
  - destruct (c_caller s); [done..|]. destruct H4 as [? H4]. split; [done|]. intros ->. rewrite H4 in Hg; done.
  - intros o Ho. destruct (H5 o Ho) as (? & Hst & ? & ? & Hl). split_and!; [done..| |].
    + specialize (Ha Hst). lia.
    + intros E. destruct (Hl E) as [Hl' _]. by rewrite Hg in Hl'.
Qed.

Lemma minv_work now e s s' : minv s → work cwd c now e s = Some s' → minv s'.
Proof.
  intros Hi Hw. pose proof (mi_course _ Hi) as Hc. unfold work in Hw.
  destruct (c_worker s) as [|el ts|el t hs ts|el t h hs ts|r el t hs ts|r el t hs ts| | |exc] eqn:Ew.
  - injection Hw as <-. apply minv_move; rewrite ?Ew; simpl; try done; destruct (c_stop s); simpl; try done.
    + destruct Hc as [n ->]. by exists n.
    + destruct Hc as [n ->]. exists (S n), p. split; [done|]. by rewrite cycles_end.
  - destruct ts as [|v ts]; injection Hw as <-.
    + apply minv_move; rewrite ?Ew; simpl; try done. left. destruct Hc as (n & q & [= <-] & Hn). exists n. by rewrite app_nil_r in Hn.
    + destruct Hc as (n & q & Hq & Hn). apply plan_cons in Hq as (t & hs & q' & -> & Hhs & Hq' & ->). cbn [mbind res_bind]. rewrite Hhs. cbn [mbind res_bind].
      apply minv_move; rewrite ?Ew; simpl; try done. by exists n, q'.
  - destruct hs as [|h hs]; injection Hw as <-; [|destruct (c_stop s) eqn:Est]; apply minv_move; rewrite ?Ew, ?Est; simpl; try done.
    right. split; [done|]. destruct Hc as (n & q & _ & Hn). exists n. by exists (host_keys t (h :: hs) ++ q).
  - injection Hw as <-. pose proof (probe_spec cwd c (mkEnv (c_background s) (e_down e) (e_run e) (e_elapsed_ms e)) el h t) as Hp.
    destruct (probe _ _ _ _ _ _) as [r|exc]; apply minv_move; rewrite ?Ew; simpl; try done; try lia.
    + destruct Hp as [Hs Hk]. split; [done|]. destruct Hc as (n & q & Hq & Hn). exists n, q. split; [done|].
      rewrite Hk, <-app_assoc. done.
    + split; [done|]. destruct Hc as (n & q & _ & Hn). exists n. by exists (host_keys t (h :: hs) ++ q).
  - injection Hw as <-. destruct Hi as [H1 H2 H3 H4 H5]. rewrite Ew in *. destruct Hc as [Hs Hc].
    split; simpl.
    + rewrite fmap_app. destruct (has_callback c); exact Hc.
    + apply Forall_app. split; [done|]. by apply Forall_singleton.
    + destruct (has_callback c); [|done]. by rewrite H3.
    + destruct (c_caller s); try done. split; [apply H4|]. intros ->. by destruct H4 as [_ [=]%(λ f, f eq_refl)].
    + intros o Ho. destruct (H5 o Ho) as (? & Hst & Hpre & Hlen & Hl). simpl in Hlen. split_and!; [done|done|by apply prefix_app_r| |].
      * rewrite length_app. simpl. destruct (has_callback c); simpl; lia.
      * intros E. by destruct (Hl E).
  - injection Hw as <-. destruct Hi as [H1 H2 H3 H4 H5]. rewrite Ew in *. split; simpl; [done|done| | |].
    + destruct (has_callback c); [|done]. done.
    + by destruct (c_caller s).
    + intros o Ho. by destruct (H5 o Ho) as (? & Hst & Hpre & Hlen & Hl).
  - injection Hw as <-. destruct (c_stop s) eqn:Est; apply minv_move; rewrite ?Ew, ?Est; simpl; try done.
    + destruct Hc as [[n ->]|[_ Hn]]; [by exists n|done].
    + destruct Hc as [Hc|[? _]]; [done|done].
  - done.
  - done.
Qed.

Lemma minv_step s s' : minv s → step cwd c s s' → minv s'.
Proof.
  intros Hi [x Hx]. destruct x as [now e| | | | |]; simpl in Hx; [by eapply minv_work| | | | |]; destruct Hi as [H1 H2 H3 H4 H5].
  - injection Hx as <-. split; done.
  - destruct (c_caller s) eqn:Ek; [|done..]. injection Hx as <-. split; simpl; try done.
    + by eapply on_course_stop.
    + intros o Ho. by destruct (H5 o Ho) as (? & _ & ?).
  - destruct (c_caller s) eqn:Ek; try done. assert (Eg : gone (c_worker s) = true) by (by destruct (gone _)). rewrite Eg in Hx. injection Hx as <-. split; simpl; try done; by split.
  - destruct (c_caller s) eqn:Ek; try done. assert (Eg : gone (c_worker s) = false) by (by destruct (gone _)). rewrite Eg in Hx. injection Hx as <-. split; simpl; try done; by split.
  - destruct (c_caller s) eqn:Ek; try done. injection Hx as <-. destruct H4 as [Hst Hg]. split; simpl; try done.
    intros o [= <-]. simpl. split_and!; [done..| |].
    + destruct (c_worker s); simpl; lia.
    + intros ->. split; [by apply Hg|done].
Qed.

Lemma minv_reachable s : reachable cwd c s → minv s.
Proof.
  unfold reachable. generalize minv_start. generalize (start_collection c). intros s0 H0 Hr.
  induction Hr; [done|]. eauto using minv_step.
Qed.
End monitor_lemmas.

(** The thread ends within this many of its steps once the event is set. *)
Definition remaining (w : worker) : nat :=
  let hosts (ts : list pv) := (2 * length ts + 3)%nat in
  match w with
  | WTop | WWait => 1
  | WTargets _ ts => (2 * length ts + 2)%nat
  | WHosts _ _ _ ts => hosts ts
  | WCallback _ _ _ _ ts => S (hosts ts)
  | WRecord _ _ _ _ ts => S (S (hosts ts))
  | WProbe _ _ _ _ ts => S (S (S (hosts ts)))
  | WDone | WDied _ => 0
  end.

Section stopping.
Context `{FloatRepr} (cwd : string) (c : monitor).

(** Some steps of the thread alone; none once it is gone. *)
Fixpoint works (es : list (pyfloat * environment)) (s : collection) : collection :=
  match es with
  | [] => s
  | (now, e) :: es => match work cwd c now e s with Some s' => works es s' | None => s end
  end.

Lemma work_decreases now e s s' : c_stop s = true → work cwd c now e s = Some s' →
  c_stop s' = true ∧ (remaining (c_worker s') < remaining (c_worker s))%nat.
Proof.
  intros Hst Hw. unfold work in Hw. rewrite Hst in Hw.
  destruct (c_worker s) as [|el ts|el t hs ts|el t h hs ts|r el t hs ts|r el t hs ts| | |exc]; try discriminate Hw.
  - injection Hw as <-. simpl. split; [done|lia].
  - destruct ts as [|v ts]; injection Hw as <-; simpl; (split; [done|]); [lia|].
    destruct (target_dict v) as [t|x|]; simpl; [|lia..]. destruct (target_hosts c t) as [hs|x|]; simpl; lia.
  - destruct hs; injection Hw as <-; simpl; (split; [done|lia]).
  - injection Hw as <-. simpl. split; [done|]. destruct (probe _ _ _ _ _ _); simpl; lia.
  - injection Hw as <-. simpl. split; [done|]. destruct (has_callback c); simpl; lia.
  - injection Hw as <-. simpl. split; [done|lia].
  - injection Hw as <-. simpl. split; [done|lia].
Qed.

Lemma works_end es s : c_stop s = true → (remaining (c_worker s) ≤ length es)%nat → gone (c_worker (works es s)) = true.
Proof.
  revert s. induction es as [|[now e] es IH]; intros s Hst Hr; simpl in *.
  - destruct (c_worker s); simpl in *; done || lia.
  - destruct (work cwd c now e s) as [s'|] eqn:Ew.
    + destruct (work_decreases _ _ _ _ Hst Ew) as [Hst' Hlt]. apply IH; [done|lia].
    + unfold work in Ew. destruct (c_worker s) as [|? [|]|? ? [|] ?|?|?|?| | |]; done.
Qed.
End stopping.

(** * Accepted settings *)

Lemma accepted_target c v hc idx : validate_target hc idx v = [] → ∃ ks, target_keys c v = Ok ks.
Proof.
  unfold validate_target. destruct v as [| | | | | |t]; try done. rewrite !app_nil. intros (_ & _ & _ & Hh & _).
  unfold target_keys. cbn [target_dict mbind res_bind].
  assert (Ht : ∃ hs, target_hosts c t = Ok hs); [|destruct Ht as [hs ->]; by eexists].
  unfold target_hosts, get_or. unfold validate_target_hosts in Hh. rewrite opt_nil in Hh.
  destruct (dget t "hosts") as [h|]; simpl; [|by eexists]. specialize (Hh h eq_refl).
  destruct h as [| | | |s|l|]; try (by eexists). simpl in Hh. destruct (forallb is_int l) eqn:Hl; [|done].
  apply mapR_total. intros x Hx. rewrite forallb_forall in Hl. specialize (Hl x ltac:(by apply list_elem_of_In)). destruct x; try done. by eexists.
Qed.

Lemma accepted_targets config mon l : validate_monitoring config = [] → get_or config "monitoring" (PDict []) = PDict mon →
  get_none mon "targets" = PList l → ∀ v, v ∈ l → ∃ hc idx, validate_target hc idx v = [].
Proof.
  unfold validate_monitoring, get_or, get_none. rewrite opt_nil. destruct (dget config "monitoring") as [m|]; simpl; [|by intros _ [= <-]].
  intros Hv ->. specialize (Hv _ eq_refl). simpl in Hv. rewrite !app_nil in Hv. destruct Hv as (_ & _ & Hv).
  destruct (dget mon "targets") as [ts|] eqn:Et; simpl; [|done]. intros ->. simpl in Hv.
  intros v Hin. rewrite for_idx_nil in Hv. apply list_elem_of_lookup in Hin as [i Hi]. eauto.
Qed.

(** A finite positive number is an interval. *)
Lemma accepted_interval v : positive_finite v = true → ∃ i, monitor_interval v = Ok i.
Proof.
  unfold positive_finite, finite_number. intros [[Hn Hf]%andb_true_iff _]%andb_true_iff.
  destruct v as [| |z|f| | |]; try done; unfold monitor_interval.
  - rewrite bool_decide_true; [by eexists|]. destruct (isfinite _) as [[]|]; done.
  - destruct f; try done. by eexists.
Qed.

Lemma start_targets resolve path_str to_path dashboard use_cli mon run_dir hosts caches c :
  start_monitoring resolve path_str to_path dashboard use_cli mon run_dir hosts caches = Ok (Some c) →
  ∃ v, py_list v = Ok (targets c) ∧ (v = default_targets ∨ v = get_none mon "targets" ∧ truthy v = true).
Proof.
  unfold start_monitoring. destruct (truthy (get_none (monitoring_settings dashboard mon) "targets")) eqn:Et; [|done].
  intros (ts & Hts & Hc)%res_bind_Ok.
  assert (Ec : targets c = ts).
  { unfold Monitor_init in Hc. destruct (monitor_interval _); [|done..]. cbn [mbind res_bind] in Hc.
    destruct (output_path _ _ _ _ (get_none _ "output_json")); [|done..]. cbn [mbind res_bind] in Hc.
    destruct (output_path _ _ _ _ (get_none _ "output_csv")); [|done..]. by injection Hc as <-. }
  rewrite Ec. eexists. split; [exact Hts|]. clear Hts Hc Ec. revert Et. unfold monitoring_settings, get_none.
  destruct (dashboard && _); [|by right]. left. destruct (dhas _ "interval"); by rewrite !dget_dset.
Qed.

Lemma accepted_plan resolve path_str to_path config mon dashboard use_cli run_dir hosts caches c :
  validate_monitoring config = [] → get_or config "monitoring" (PDict []) = PDict mon →
  start_monitoring resolve path_str to_path dashboard use_cli mon run_dir hosts caches = Ok (Some c) → ∃ p, plan_of c (targets c) = Ok p.
Proof.
  intros Hv Hm (v & Hl & Hcase)%start_targets.
  assert (Hks : ∃ ks, mapR (target_keys c) (targets c) = Ok ks); [|destruct Hks as [ks Hks]; exists (mjoin ks); unfold plan_of; by rewrite Hks].
  apply mapR_total. intros x Hx. destruct Hcase as [->|[-> Ht]].
  - injection Hl as E. rewrite <-E in Hx. rewrite !elem_of_cons in Hx. destruct Hx as [->|[->|[]%elem_of_nil]]; by eexists.
  - assert (He : ∃ l, get_none mon "targets" = PList l).
    { pose proof Hv as Hv'. revert Hv' Hm. unfold validate_monitoring, get_or. rewrite opt_nil. destruct (dget config "monitoring"); simpl.
      - intros Hv' ->. specialize (Hv' _ eq_refl). simpl in Hv'. rewrite !app_nil in Hv'. destruct Hv' as (_ & _ & Hv').
        unfold get_none in Ht |- *. unfold get_or in Hv'. destruct (dget mon "targets") as [v|]; simpl in *; [|done]. destruct v; try done. by eexists.
      - by intros _ [= <-]. }
    destruct He as [l El]. rewrite El in Hl. injection Hl as Hl. rewrite <-Hl in Hx.
    destruct (accepted_targets _ _ _ Hv Hm El x Hx) as (hc & idx & Hacc). by eapply accepted_target.
Qed.

(** * Theorem *)

(** C29: for accepted monitoring settings, however the collection thread, the
    commands it runs, the clock, the switch to background and calls of [stop]
    interleave: every target names its hosts; the records, in order, are whole
    passes over the hosts of the targets and the beginning of one more, each with
    the shared fields and one of the three outcomes; [on_record] receives the same
    records in the same order; a written snapshot is what had been recorded then, at
    most one record is ever missing from it, and none when the thread ended within
    the join budget; the thread dies only of what is no [Exception]; and once
    [stop] has set the event the thread ends within a bounded number of its steps. *)
Theorem monitor_accounted `{FloatRepr} cwd resolve path_str to_path config mon dashboard use_cli run_dir hosts caches c s :
  validate_monitoring config = [] → get_or config "monitoring" (PDict []) = PDict mon →
  start_monitoring resolve path_str to_path dashboard use_cli mon run_dir hosts caches = Ok (Some c) → reachable cwd c s →
  ∃ p, plan_of c (targets c) = Ok p ∧
  (∃ n, (key_of <$> c_records s) `prefix_of` cycles p n) ∧ Forall shaped (c_records s) ∧
  (has_callback c = true → c_delivered s `prefix_of` c_records s ∧ (length (c_records s) ≤ S (length (c_delivered s)))%nat) ∧
  (∀ o, c_written s = Some o → o = write_outputs c (o_late o) (o_snapshot o) ∧ o_snapshot o `prefix_of` c_records s ∧
     (length (c_records s) ≤ S (length (o_snapshot o)))%nat ∧ (o_late o = false → o_snapshot o = c_records s)) ∧
  (∀ exc, c_worker s = WDied exc → is_exception exc = false) ∧
  (c_stop s = true → ∀ es, (remaining (c_worker s) ≤ length es)%nat → gone (c_worker (works cwd c es s)) = true).
Proof.
  intros Hv Hm Hs Hr.
  destruct (accepted_plan _ _ _ _ _ _ _ _ _ _ _ Hv Hm Hs) as [p Hp].
  exists p. split; [done|]. destruct (minv_reachable cwd c p Hp s Hr) as [H1 H2 H3 _ H5]. split_and!.
  - by eapply on_course_prefix.
  - done.
  - intros Hc. rewrite Hc in H3. destruct (c_worker s); rewrite H3; try (split; [done|lia]).
    split; [by eexists|]. rewrite length_app. simpl. lia.
  - intros o Ho. destruct (H5 o Ho) as (Eo & _ & Hpre & Hlen & Hl). split_and!; [done|done|lia|]. intros E. by apply Hl.
  - intros exc E. rewrite E in H1. apply H1.
  - intros Hst es. by apply works_end.
Qed.

(** * Example *)

#[local] Instance toy_repr : FloatRepr := λ _, "0.0".
Definition demo_monitoring : pydict :=
  [(PStr "interval", PInt 2); (PStr "output_json", PStr "monitor.json");
   (PStr "targets", PList [PDict [(PStr "type", PStr "cefstatus"); (PStr "hosts", PList [PInt 0; PInt 1])]])].
Definition demo_env : environment := mkEnv false [1] (λ _, inl (mkCommandResult (Some 0) "Faces : 2" "" false false None)) 0.
Definition demo_work : action := Work (FFin 0 0) demo_env.
(** The stop comes while host 1 is probed, and does not wait for it. *)
Definition demo_actions : list action := repeat demo_work 6 ++ [SetStop; JoinExpires; Write; demo_work; demo_work].
Definition demo_run (c : monitor) : option collection := foldl (λ s x, s ≫= act "/run" c x) (Some (start_collection c)) demo_actions.

Lemma acts_reachable `{FloatRepr} cwd c l : ∀ s0 s, foldl (λ s x, s ≫= act cwd c x) (Some s0) l = Some s → rtc (step cwd c) s0 s.
Proof.
  induction l as [|x l IH]; intros s0 s; simpl; [by intros [= ->]|]. destruct (act cwd c x s0) as [s1|] eqn:Ex.
  - intros Hl. eapply rtc_l; [by exists x|by apply IH].
  - intros Hl. exfalso. clear -Hl. induction l as [|y l IH]; simpl in Hl; [done|auto].
Qed.

Lemma monitor_accounted_witness : ∃ c s o, start_monitoring id (λ _, "") (λ s, mkPath false [s]) false false demo_monitoring (mkPath true ["run"]) 2 ∅ = Ok (Some c) ∧
  demo_run c = Some s ∧ c_written s = Some o ∧ (key_of <$> o_snapshot o) = [(PStr "cefstatus", PInt 0)] ∧
  (key_of <$> c_records s) = [(PStr "cefstatus", PInt 0); (PStr "cefstatus", PInt 1)] ∧
  ((λ r, get_none r "outcome") <$> c_records s) = [PStr "ok"; PStr "skipped"] ∧ (length (c_records s) ≤ S (length (o_snapshot o)))%nat ∧
  gone (c_worker (works "/run" c (repeat (FFin 0 0, demo_env) 3) s)) = true.
Proof.
  destruct (start_monitoring id (λ _, "") (λ s, mkPath false [s]) false false demo_monitoring (mkPath true ["run"]) 2 ∅) as [[c|]| |] eqn:Es; try discriminate Es.
  injection Es as Ec. destruct (demo_run c) as [s|] eqn:Er; [|exfalso; rewrite <-Ec in Er; vm_compute in Er; discriminate].
  destruct (c_written s) as [o|] eqn:Eo; [|exfalso; rewrite <-Ec in Er; vm_compute in Er; injection Er as <-; discriminate].
  destruct (monitor_accounted "/run" id (λ _, "") (λ s, mkPath false [s]) [(PStr "monitoring", PDict demo_monitoring)] demo_monitoring false false
    (mkPath true ["run"]) 2 ∅ c s) as (p & _ & _ & _ & _ & Hw & _ & He); [reflexivity|reflexivity|by rewrite <-Ec|by apply (acts_reachable _ _ demo_actions)|].
  destruct (Hw o Eo) as (_ & _ & Hlen & _). exists c, s, o.
  assert (Hs : c_stop s = true ∧ (remaining (c_worker s) ≤ 3)%nat ∧ (key_of <$> c_records s) = [(PStr "cefstatus", PInt 0); (PStr "cefstatus", PInt 1)] ∧
    ((λ r, get_none r "outcome") <$> c_records s) = [PStr "ok"; PStr "skipped"] ∧ (key_of <$> o_snapshot o) = [(PStr "cefstatus", PInt 0)]).
  { rewrite <-Ec in Er. vm_compute in Er. injection Er as <-. injection Eo as <-. vm_compute. split_and!; done || lia. }
  destruct Hs as (Hst & Hrem & Hk & Ho & Hsn). split_and!; try done. apply He; done.
Defined.
