(* ===== verification/Disaster.v ===== *)
(** Component: the disaster scenario (src/scenarios/disaster.py): the experiment -
    host applications, the seed, warm-up, failure and evaluation phases, the
    monitor - and the release of what it started.  Batches run as [EventBatch]
    models them; the environment answers every operation and may let it raise
    anything. *)
From S2P Require Import Prelude PyValue PyText PyNum Events LinkControl Lifecycle EventBatch Monitor.
Local Open Scope Z_scope.

(** * Operations *)

(** [InBatch phase o]: an operation on the runner or the scheduler of a phase. *)
Inductive dop :=
  | BuildApps | StartApps | InBatch (phase : string) (o : bop) | Submit (operation : pv) | PauseWarmup
  | NewFailureManager | StartFailureManager | StartFlap (exclude : gset Z)
  | NewMonitor (settings : pydict) | StartMonitor | PauseRun (duration : Z) | WaitEvents (phase : string)
  | StopApps | StopMonitor | StopWebui | SetStopEvent | WriteJson.

(** An operation returns - a wait whether it completed, [StopApps] the failures it
    collected - or raises. *)
Inductive danswer := DReturned (completed : bool) (fs : failures) | DRaised (x : exc).

(** The attributes [shutdown_runtime_resources] looks at; the scheduler and the
    runner are named by their phase. *)
Record held := mkHeld { apps : bool; monitor : bool; stop_event : bool; scheduler : option string; runner : option string }.
Definition nothing_held : held := mkHeld false false false None None.

Record dworld := mkDisaster { d_trace : list (dop * danswer); d_held : held }.
Notation D := (Prog dworld).

Definition hold (f : held → held) : D () := λ w, (mkDisaster (d_trace w) (f (d_held w)), inl ()).

(** The arguments and attributes the experiment reads. *)
Record disaster := mkScenario {
  no_cli : bool;
  autotest_mode : bool;
  webui : bool;
  events : list pydict;
  host_apps : bool;
  startup_grace : pv;
  duration : pv;
  warmup_gets : pv;
  warmup_get_interval : pv;
  warmup_only_cache_nodes : pv;
  hosts : Z;
  cache_node_set : gset Z;
  publisher_ids : gset Z;
  failure_scenarios : pv;
  down_interval : pv;
  down_duration : pv;
  down_exclude : pv;
  monitoring : pydict;
  results_path : bool;
}.

(** * Events *)

Definition is_type (t : string) (ev : pydict) : bool := eq_str (get_none ev "type") t.

(** [{ev["uri"] for ev in events if ev.get("type") == t}]; a URI is a string in an
    accepted event. *)
Definition event_uri (ev : pydict) : res string :=
  uri ← getitem ev "uri"; match uri with PStr s => Ok s | _ => raise ETypeError "uri" end.
Definition uris_of (t : string) (events : list pydict) : res (gset string) :=
  list_to_set <$> mapR event_uri (List.filter (is_type t) events).
Definition sorted_uris (s : gset string) : list string := sorted_strs (elements s).

(** [_warn_event_diagnostics]: its messages. *)
Definition event_diagnostics (events : list pydict) : res (list string) :=
  puts ← uris_of "put" events;
  gets ← uris_of "get" events;
  pubs ← uris_of "pubsub_pub" events;
  subs ← uris_of "pubsub_sub" events;
  Ok (((λ uri, "put event for " +s+ uri +s+ " has no matching get event") <$> sorted_uris (puts ∖ gets))
      ++ ((λ uri, "pubsub_pub event for " +s+ uri +s+ " has no matching pubsub_sub event") <$> sorted_uris (pubs ∖ subs))).

Section scenario.
Context `{FloatRepr} (reply : list (dop * danswer) → dop → danswer) (sc : disaster).

Definition run_op (o : dop) : D (bool * failures) := λ w,
  let a := reply (d_trace w) o in
  let w' := mkDisaster (d_trace w ++ [(o, a)]) (d_held w) in
  match a with DReturned b fs => (w', inl (b, fs)) | DRaised x => (w', inr x) end.
Definition do_op (o : dop) : D () := run_op o ≫= λ _, mret ().
Definition compute {A} (r : res A) : D A :=
  match r with Ok a => mret a | Raise e => raise_exc (Plain e) | NoFuel => raise_new EOther "" end.
Definition attributes : D held := λ w, (w, inl (d_held w)).
Fixpoint do_each {A} (f : A → D ()) (xs : list A) : D () :=
  match xs with [] => mret () | x :: xs => f x ≫= λ _, do_each f xs end.

(** [try: m finally: stop]. *)
Definition ensure {A} (m : D A) (stop : D ()) : D A := λ w,
  let '(w1, out) := m w in match stop w1 with (w2, inl _) => (w2, out) | (w2, inr x) => (w2, inr x) end.

(** A batch of a phase, its operations answered like all others. *)
Definition in_batch (phase : string) (oa : bop * banswer) : dop * danswer :=
  (InBatch phase oa.1, match oa.2 with BReturned b => DReturned b [] | BRaised x => DRaised x end).
Definition batch_answer (a : danswer) : banswer := match a with DReturned b _ => BReturned b | DRaised x => BRaised x end.
Definition batch (phase : string) (spec : EventBatchSpec) : D EventBatchResult := λ w,
  let '(k, out) := run_event_batch (λ k o, batch_answer (reply (d_trace w ++ (in_batch phase <$> k)) (InBatch phase o))) spec [] in
  (mkDisaster (d_trace w ++ (in_batch phase <$> k)) (d_held w), out).

(** * Failures *)

(** [_start_failure_manager]. *)
Definition start_failure_manager : D () :=
  if truthy (failure_scenarios sc) then
    do_op NewFailureManager ≫= λ _, do_op StartFailureManager ≫= λ _,
    hold (λ h, mkHeld (apps h) (monitor h) true (scheduler h) (runner h))
  else
    often ← compute (py_lt (PInt 0) (down_interval sc));
    long ← (if often : bool then compute (py_lt (PInt 0) (down_duration sc)) else mret false);
    if long : bool then
      excluded ← compute (parse_int_list (down_exclude sc));
      do_op (StartFlap (list_to_set excluded ∪ publisher_ids sc)) ≫= λ _,
      hold (λ h, mkHeld (apps h) (monitor h) true (scheduler h) (runner h))
    else mret ().

(** * Warm-up *)

(** The operations: those configured, or every put URI at every cache node (or
    every host that publishes nothing). *)
Definition warmup_hosts : list Z :=
  if truthy (warmup_only_cache_nodes sc) then sorted_set (cache_node_set sc)
  else List.filter (λ i, bool_decide (i ∉ publisher_ids sc)) (range (hosts sc)).
Definition warmup_get (host : Z) (uri : string) : pv := PDict [(PStr "host", PInt host); (PStr "uri", PStr uri)].
Definition warmup_ops : res (list pv) :=
  if truthy (warmup_gets sc) then py_list (warmup_gets sc)
  else
    uris ← uris_of "put" (events sc);
    Ok (sorted_uris uris ≫= λ u, (λ h, warmup_get h u) <$> warmup_hosts).

(** [_run_warmup]. *)
Definition run_warmup : D bool :=
  pause ← compute (py_float (warmup_get_interval sc));
  ops ← compute warmup_ops;
  if bool_decide (ops = []) then mret true
  else
    compute (py_float (startup_grace sc)) ≫= λ _,
    lifetimes ← compute (_pub_lifetime_by_uri (events sc));
    do_op (InBatch "warmup" (NewRunner lifetimes)) ≫= λ _,
    do_op (InBatch "warmup" StartRunner) ≫= λ _,
    ensure
      (do_each (λ op, do_op (Submit op) ≫= λ _, if float_lt (int_f 0) pause then do_op PauseWarmup else mret ()) ops ≫= λ _,
       r ← run_op (InBatch "warmup" WaitRunner); mret r.1)
      (do_op (InBatch "warmup" StopRunner)).

(** * The experiment *)

(** The batch of a phase, not waited for: what it started is kept. *)
Definition unwaited (events : list pydict) : EventBatchSpec :=
  mkBatch events None "warn" "event scheduling" "content operations".
Definition run_phase (phase : string) (events : list pydict) : D () :=
  compute (py_float (startup_grace sc)) ≫= λ _,
  r ← batch phase (unwaited events);
  hold (λ h, mkHeld (apps h) (monitor h) (stop_event h) (if event_scheduler r then Some phase else None) (if content_runner r then Some phase else None)).

(** [_run_normal_experiment]. *)
Definition run_normal_experiment : D () := start_failure_manager ≫= λ _, run_phase "event" (events sc).

Definition seed_batch (put_events : list pydict) : EventBatchSpec :=
  mkBatch put_events (Some 300) "raise" "seed event scheduling" "seed content operations".

(** [max(0, int(duration))]. *)
Definition run_seconds : res Z := d ← py_int (duration sc); Ok (Z.max 0 d).

(** [_run_autotest_experiment]. *)
Definition run_autotest_experiment : D () :=
  let put_events := List.filter (is_type "put") (events sc) in
  let eval_events := List.filter (λ ev, negb (is_type "put" ev)) (events sc) in
  if existsb (λ ev, truthy (get_none ev "repeat")) put_events then raise_new EValueError "autotest does not support repeat on put events"
  else
    (if bool_decide (put_events = []) then mret ()
     else compute (py_float (startup_grace sc)) ≫= λ _, batch "seed" (seed_batch put_events) ≫= λ _, mret ()) ≫= λ _,
    warm ← run_warmup;
    if negb warm then raise_new ERuntimeError "warmup content operations did not complete"
    else
      seconds ← compute run_seconds;
      if bool_decide (eval_events = []) && (seconds =? 0) then mret ()
      else start_failure_manager ≫= λ _, run_phase "eval" eval_events.

(** [_start_monitoring]; whether the monitor has targets is [monitoring_settings]. *)
Definition start_monitor : D () :=
  let settings := monitoring_settings (webui sc) (monitoring sc) in
  if truthy (get_none settings "targets") then
    do_op (NewMonitor settings) ≫= λ _,
    hold (λ h, mkHeld (apps h) true (stop_event h) (scheduler h) (runner h)) ≫= λ _,
    do_op StartMonitor
  else mret ().

(** The end of a run without a CLI: its duration, or the scheduler. *)
Definition wait_run : D () :=
  seconds ← compute run_seconds;
  if no_cli sc && (0 <? seconds) then do_op (PauseRun seconds)
  else
    h ← attributes;
    match no_cli sc, scheduler h with true, Some phase => do_op (WaitEvents phase) | _, _ => mret () end.

(** The host applications, kept before they are started. *)
Definition start_apps : D () :=
  if host_apps sc then
    do_op BuildApps ≫= λ _,
    hold (λ h, mkHeld true (monitor h) (stop_event h) (scheduler h) (runner h)) ≫= λ _,
    do_op StartApps
  else mret ().

(** [run_experiment]. *)
Definition run_experiment : D () :=
  start_apps ≫= λ _,
  compute (event_diagnostics (events sc)) ≫= λ _,
  (if autotest_mode sc then run_autotest_experiment else run_normal_experiment) ≫= λ _,
  start_monitor ≫= λ _,
  wait_run.

(** * Release *)

(** [shutdown_runtime_resources]: the failures of its stages; [StopApps] reports its
    own. *)
Definition stop_if (b : bool) (stage : string) (o : dop) (fs : failures) : D failures :=
  if b then guarded stage (do_op o) fs else mret fs.
Definition shutdown_runtime_resources : D failures :=
  h ← attributes;
  fs ← (if apps h then snd <$> run_op StopApps else mret []);
  fs ← stop_if (monitor h) "monitor.stop" StopMonitor fs;
  fs ← stop_if (webui sc) "webui.stop" StopWebui fs;
  fs ← match scheduler h with Some phase => guarded "event_scheduler.stop" (do_op (InBatch phase StopScheduler)) fs | None => mret fs end;
  fs ← match runner h with
       | Some phase =>
           fs ← guarded "content_runner.wait_all" (do_op (InBatch phase WaitRunner)) fs;
           guarded "content_runner.stop" (do_op (InBatch phase StopRunner)) fs
       | None => mret fs
       end;
  stop_if (stop_event h) "stop_event.set" SetStopEvent fs.

(** [write_results]. *)
Definition write_results : D failures :=
  if results_path sc then guarded "results_write" (do_op WriteJson) [] else mret [].
End scenario.

(** * The phases of a run *)

(** The place of an operation in the order of the phases. *)
Definition rank (o : dop) : nat :=
  match o with
  | BuildApps | StartApps => 0
  | InBatch phase _ => if bool_decide (phase = "seed") then 1 else if bool_decide (phase = "warmup") then 2 else 4
  | Submit _ | PauseWarmup => 2
  | NewFailureManager | StartFailureManager | StartFlap _ => 3
  | NewMonitor _ | StartMonitor => 5
  | PauseRun _ | WaitEvents _ => 6
  | _ => 7
  end.
Definition in_order (k : list (dop * danswer)) : Prop := StronglySorted le ((λ oa, rank oa.1) <$> k).
(** The operation returned, and in time when it is a wait. *)
Definition fine (oa : dop * danswer) : Prop :=
  match oa with
  | (_, DRaised _) => False
  | (InBatch _ WaitScheduler, DReturned b _) | (InBatch _ WaitRunner, DReturned b _) => b = true
  | _ => True
  end.

Section phases.
Context `{FloatRepr} (reply : list (dop * danswer) → dop → danswer) (sc : disaster).

(** What [m] does lies between two phases, in their order. *)
Definition between {A} (lo hi : nat) (m : D A) : Prop := ∀ w w' out, m w = (w', out) →
  ∃ k, d_trace w' = d_trace w ++ k ∧ in_order k ∧ ∀ oa, oa ∈ k → (lo ≤ rank oa.1 ≤ hi)%nat.
Lemma in_order_app k k' mid : in_order k → in_order k' → (∀ oa, oa ∈ k → (rank oa.1 ≤ mid)%nat) → (∀ oa, oa ∈ k' → (mid ≤ rank oa.1)%nat) → in_order (k ++ k').
Proof.
  unfold in_order. rewrite fmap_app. intros H1 H2 Hl Hr. induction k as [|oa k IH]; [done|]. simpl in *. inversion H1 as [|? ? Hs Hf]; subst. constructor.
  - apply IH; [done|]. intros x Hx. apply Hl. by right.
  - apply Forall_app. split; [done|]. apply Forall_fmap, Forall_forall. intros x Hx. simpl. specialize (Hl oa ltac:(by left)). specialize (Hr x Hx). lia.
Qed.

Lemma between_ret {A} lo hi (a : A) : between lo hi (mret a).
Proof. intros w w' out [= <- <-]. exists []. rewrite app_nil_r. split_and!; [done|constructor|by intros ? ?%elem_of_nil]. Qed.
Lemma between_raise {A} lo hi x : between lo hi (@raise_exc dworld A x).
Proof. intros w w' out [= <- <-]. exists []. rewrite app_nil_r. split_and!; [done|constructor|by intros ? ?%elem_of_nil]. Qed.
Lemma between_compute {A} lo hi (r : res A) : between lo hi (compute r).
Proof. destruct r; [apply between_ret|apply between_raise..]. Qed.
Lemma between_hold lo hi f : between lo hi (hold f).
Proof. intros w w' out [= <- <-]. exists []. rewrite app_nil_r. split_and!; [done|constructor|by intros ? ?%elem_of_nil]. Qed.
Lemma between_attributes lo hi : between lo hi attributes.
Proof. intros w w' out [= <- <-]. exists []. rewrite app_nil_r. split_and!; [done|constructor|by intros ? ?%elem_of_nil]. Qed.

Lemma between_bind {A C} lo mid hi (m : D A) (f : A → D C) : (lo ≤ mid ≤ hi)%nat → between lo mid m → (∀ a, between mid hi (f a)) → between lo hi (m ≫= f).
Proof.
  intros Hle Hm Hf w w' out. unfold mbind, Prog_bind. destruct (m w) as [w1 [a|x]] eqn:E; destruct (Hm _ _ _ E) as (k & Ek & Ok & Rk).
  - intros E2. destruct (Hf a _ _ _ E2) as (k2 & Ek2 & Ok2 & Rk2). exists (k ++ k2). split_and!.
    + by rewrite Ek2, Ek, app_assoc.
    + apply (in_order_app _ _ mid); [done|done|by intros oa Hoa; apply Rk|by intros oa Hoa; apply Rk2].
    + intros oa [Hoa|Hoa]%elem_of_app; [apply Rk in Hoa|apply Rk2 in Hoa]; lia.
  - intros [= <- <-]. exists k. split_and!; [done|done|]. intros oa Hoa. apply Rk in Hoa. lia.
Qed.
(** Within one phase. *)
Lemma between_seq {A C} n (m : D A) (f : A → D C) : between n n m → (∀ a, between n n (f a)) → between n n (m ≫= f).
Proof. by apply between_bind. Qed.
Lemma between_weaken {A} lo hi lo' hi' (m : D A) : between lo hi m → (lo' ≤ lo)%nat → (hi ≤ hi')%nat → between lo' hi' m.
Proof. intros Hm ? ? w w' out E. destruct (Hm _ _ _ E) as (k & ? & ? & Hk). exists k. split_and!; [done..|]. intros oa Hoa. apply Hk in Hoa. lia. Qed.

Lemma between_op o : between (rank o) (rank o) (run_op reply o).
Proof.
  intros w w' out. unfold run_op. destruct (reply (d_trace w) o); intros [= <- <-]; eexists; (split; [done|]); (split; [repeat constructor|]);
    intros oa ->%list_elem_of_singleton; done.
Qed.
Lemma between_do o : between (rank o) (rank o) (do_op reply o).
Proof. apply between_seq; [apply between_op|]. intros _. apply between_ret. Qed.
Lemma between_each {A} n (f : A → D ()) xs : (∀ x, between n n (f x)) → between n n (do_each f xs).
Proof. intros Hf. induction xs; simpl; [apply between_ret|]. by apply between_seq. Qed.
Lemma between_ensure {A} n (m : D A) stop : between n n m → between n n stop → between n n (ensure m stop).
Proof.
  intros Hm Hs w w' out. unfold ensure. destruct (m w) as [w1 o1] eqn:E1. destruct (stop w1) as [w2 o2] eqn:E2.
  destruct (Hm _ _ _ E1) as (k & Ek & Ok & Rk), (Hs _ _ _ E2) as (k2 & Ek2 & Ok2 & Rk2). intros E.
  assert (w' = w2) as -> by (by destruct o2; injection E as <- <-). exists (k ++ k2). split_and!.
  - by rewrite Ek2, Ek, app_assoc.
  - apply (in_order_app _ _ n); [done|done|by intros oa Hoa; apply Rk|by intros oa Hoa; apply Rk2].
  - intros oa [Hoa|Hoa]%elem_of_app; auto.
Qed.

Lemma between_batch phase spec n : (∀ o, rank (InBatch phase o) = n) → between n n (batch reply phase spec).
Proof.
  intros Hn w w' out. unfold batch. destruct (run_event_batch _ _ _) as [k o]. intros [= <- <-]. exists (in_batch phase <$> k). split; [done|].
  assert (Hk : ∀ oa, oa ∈ in_batch phase <$> k → rank oa.1 = n).
  { intros oa ([o' a] & -> & _)%list_elem_of_fmap. apply Hn. }
  split; [|intros oa Hoa; by rewrite (Hk oa Hoa)]. unfold in_order. revert Hk. generalize (in_batch phase <$> k). intros l Hl.
  induction l as [|x l IH]; simpl; constructor; [apply IH; intros oa Hoa; apply Hl; by right|].
  apply Forall_fmap, Forall_forall. intros y Hy. simpl. rewrite (Hl x), (Hl y); [done|by right|by left].
Qed.
End phases.

Section gates.
Context `{FloatRepr} (reply : list (dop * danswer) → dop → danswer) (sc : disaster).

(** Everything of the first phases went well. *)
Definition early_fine (k : list (dop * danswer)) : Prop := ∀ oa, oa ∈ k → (rank oa.1 ≤ 2)%nat → fine oa.
(** Nothing of the later phases happens, and [m] returns no value of [P], unless
    everything of the first phases went well. *)
Definition gate {A} (P : A → Prop) (m : D A) : Prop := ∀ w w' out, m w = (w', out) →
  ∃ k, d_trace w' = d_trace w ++ k ∧ ((∃ oa, oa ∈ k ∧ (3 ≤ rank oa.1)%nat) → early_fine k) ∧ (∀ a, out = inl a → P a → early_fine k).

Lemma early_fine_app k k' : early_fine k → early_fine k' → early_fine (k ++ k').
Proof. intros H1 H2 oa [?|?]%elem_of_app; auto. Qed.

Lemma gate_ret {A} P (a : A) : gate P (mret a).
Proof. intros w w' out [= <- <-]. exists []. rewrite app_nil_r. split_and!; [done|by intros _ ? ?%elem_of_nil|by intros ? _ _ ? ?%elem_of_nil]. Qed.
Lemma gate_raise {A} P x : gate P (@raise_exc dworld A x).
Proof. intros w w' out [= <- <-]. exists []. rewrite app_nil_r. split_and!; [done|by intros _ ? ?%elem_of_nil|done]. Qed.
Lemma gate_compute {A} P (r : res A) : gate P (compute r).
Proof. destruct r; [apply gate_ret|apply gate_raise..]. Qed.
Lemma gate_hold P f : gate P (hold f).
Proof. intros w w' out [= <- <-]. exists []. rewrite app_nil_r. split_and!; [done|by intros _ ? ?%elem_of_nil|by intros ? _ _ ? ?%elem_of_nil]. Qed.
Lemma gate_late {A} P hi (m : D A) : between 3 hi m → gate P m.
Proof.
  intros Hm w w' out E. destruct (Hm _ _ _ E) as (k & Ek & _ & Hk). exists k. assert (early_fine k) by (intros oa Hoa ?; apply Hk in Hoa; lia). done.
Qed.

Lemma gate_bind_early {A C} (P : A → Prop) (Q : C → Prop) lo (m : D A) (f : A → D C) : between lo 2 m → gate P m →
  (∀ a, P a ∨ ∃ x, f a = raise_exc x) → (∀ a, P a → gate Q (f a)) → gate Q (m ≫= f).
Proof.
  intros Hb Hm Hp Hf w w' out. unfold mbind, Prog_bind. destruct (m w) as [w1 [a|x]] eqn:E; destruct (Hm _ _ _ E) as (k & Ek & Lk & Pk); destruct (Hb _ _ _ E) as (k' & Ek' & _ & Hr).
  all: assert (k' = k) as -> by (rewrite Ek in Ek'; by apply app_inv_head in Ek').
  - destruct (Hp a) as [Ha|[x Hx]].
    + intros E2. destruct (Hf a Ha _ _ _ E2) as (k2 & Ek2 & Lk2 & Pk2). exists (k ++ k2). specialize (Pk a eq_refl Ha). split_and!.
      * by rewrite Ek2, Ek, app_assoc.
      * intros (oa & [Hoa|Hoa]%elem_of_app & Hl); [apply Hr in Hoa; lia|]. apply early_fine_app; [done|]. apply Lk2. by exists oa.
      * intros c Hc Hq. apply early_fine_app; [done|]. by eapply Pk2.
    + rewrite Hx. intros [= <- <-]. exists k. split_and!; [done| |done]. intros (oa & Hoa & Hl). apply Hr in Hoa. lia.
  - intros [= <- <-]. exists k. split_and!; [done|done|done].
Qed.
Lemma gate_seq {A C} (Q : C → Prop) lo (m : D A) (f : A → D C) : between lo 2 m → gate (λ _, True) m → (∀ a, gate Q (f a)) → gate Q (m ≫= f).
Proof. intros Hb Hm Hf. apply (gate_bind_early (λ _, True) _ lo); [done|done|by left|by intros a _]. Qed.
Lemma gate_bind_late {A C} (Q : C → Prop) hi (m : D A) (f : A → D C) : gate (λ _, True) m → (∀ a, between 3 hi (f a)) → gate Q (m ≫= f).
Proof.
  intros Hm Hf w w' out. unfold mbind, Prog_bind. destruct (m w) as [w1 [a|x]] eqn:E; destruct (Hm _ _ _ E) as (k & Ek & Lk & Pk).
  - intros E2. destruct (Hf a _ _ _ E2) as (k2 & Ek2 & _ & Hk2). exists (k ++ k2). specialize (Pk a eq_refl I).
    assert (He : early_fine (k ++ k2)) by (apply early_fine_app; [done|]; intros oa Hoa ?; apply Hk2 in Hoa; lia).
    split_and!; [by rewrite Ek2, Ek, app_assoc|done|done].
  - intros [= <- <-]. exists k. done.
Qed.

Lemma gate_op o : (rank o ≤ 2)%nat → gate (λ r, fine (o, DReturned r.1 r.2)) (run_op reply o).
Proof.
  intros Ho w w' out. unfold run_op. destruct (reply (d_trace w) o) as [b fs|x] eqn:Er; intros [= <- <-]; eexists; (split; [done|]).
  - split; [intros (oa & ->%list_elem_of_singleton & ?); simpl in *; lia|]. by intros a [= <-] Hf oa ->%list_elem_of_singleton _.
  - split; [intros (oa & ->%list_elem_of_singleton & ?); simpl in *; lia|done].
Qed.
Lemma gate_do P o : (rank o ≤ 2)%nat → (∀ b fs, fine (o, DReturned b fs)) → gate P (do_op reply o).
Proof.
  intros Ho Hf. apply (gate_bind_early (λ r, fine (o, DReturned r.1 r.2)) _ 0); [|by apply gate_op|by left|intros _ _; apply gate_ret].
  eapply between_weaken; [apply between_op|lia|done].
Qed.
Lemma gate_each {A} (f : A → D ()) xs : (∀ x, between 0 2 (f x)) → (∀ x, gate (λ _, True) (f x)) → gate (λ _, True) (do_each f xs).
Proof. intros Hb Hf. induction xs; simpl; [apply gate_ret|]. by apply (gate_seq _ 0). Qed.
Lemma gate_ensure {A} (P : A → Prop) n (m : D A) stop : (n ≤ 2)%nat → between n n m → between n n stop → gate P m → gate (λ _, True) stop → gate P (ensure m stop).
Proof.
  intros Hn Hb1 Hb2 Hm Hs w w' out. unfold ensure. destruct (m w) as [w1 o1] eqn:E1. destruct (stop w1) as [w2 o2] eqn:E2.
  destruct (Hm _ _ _ E1) as (k & Ek & _ & Pk), (Hs _ _ _ E2) as (k2 & Ek2 & _ & Pk2), (Hb1 _ _ _ E1) as (k' & Ek' & _ & Hr), (Hb2 _ _ _ E2) as (k2' & Ek2' & _ & Hr2).
  assert (k' = k) as -> by (rewrite Ek in Ek'; by apply app_inv_head in Ek'). assert (k2' = k2) as -> by (rewrite Ek2 in Ek2'; by apply app_inv_head in Ek2').
  intros E. assert (w' = w2) as -> by (by destruct o2; injection E as <- <-). exists (k ++ k2). split_and!.
  - by rewrite Ek2, Ek, app_assoc.
  - intros (oa & [Hoa|Hoa]%elem_of_app & Hl); [apply Hr in Hoa|apply Hr2 in Hoa]; lia.
  - intros a -> Ha. destruct o2 as [u|x]; [|done]. injection E as ->. apply early_fine_app; [by eapply Pk|by eapply Pk2].
Qed.

Lemma gate_seed puts : gate (λ _, True) (batch reply "seed" (seed_batch puts)).
Proof.
  intros w w' out. unfold batch. destruct (run_event_batch _ _ _) as [k o] eqn:E. intros [= <- <-]. exists (in_batch "seed" <$> k). split; [done|].
  destruct (batch_waited _ (seed_batch puts) 300 _ _ eq_refl eq_refl E) as (_ & _ & Hf). split.
  - intros (oa & ([o' a] & -> & _)%list_elem_of_fmap & Hl). simpl in Hl. lia.
  - intros a -> _ oa ([o' a'] & -> & Hin)%list_elem_of_fmap _. specialize (Hf _ eq_refl _ Hin). destruct a'; [|done]. by destruct o'.
Qed.

(** * The experiment *)

Lemma between_failures : between 3 3 (start_failure_manager reply sc).
Proof.
  unfold start_failure_manager. destruct (truthy _).
  - apply between_seq; [apply (between_do _ NewFailureManager)|]. intros _. apply between_seq; [apply (between_do _ StartFailureManager)|]. intros _. apply between_hold.
  - apply between_seq; [apply between_compute|]. intros [].
    + apply between_seq; [apply between_compute|]. intros []; [|apply between_ret]. apply between_seq; [apply between_compute|]. intros l.
      apply between_seq; [apply (between_do _ (StartFlap _))|]. intros _. apply between_hold.
    + apply between_seq; [apply between_ret|]. intros []; [|apply between_ret]. apply between_seq; [apply between_compute|]. intros l.
      apply between_seq; [apply (between_do _ (StartFlap _))|]. intros _. apply between_hold.
Qed.

Lemma between_phase phase evs : phase ≠ "seed" → phase ≠ "warmup" → between 4 4 (run_phase reply sc phase evs).
Proof.
  intros H1 H2. apply between_seq; [apply between_compute|]. intros _. apply between_seq; [|intros r; apply between_hold].
  apply between_batch. intros o. simpl. by rewrite !bool_decide_eq_false_2.
Qed.

Lemma warmup_body_between pause ops : between 2 2 (do_each (λ op, do_op reply (Submit op) ≫= λ _, if float_lt (int_f 0) pause then do_op reply PauseWarmup else mret ()) ops ≫= λ _,
    r ← run_op reply (InBatch "warmup" WaitRunner); mret r.1).
Proof.
  apply between_seq.
  - apply between_each. intros op. apply between_seq; [apply (between_do _ (Submit op))|]. intros _. destruct (float_lt _ _); [apply (between_do _ PauseWarmup)|apply between_ret].
  - intros _. apply between_seq; [apply (between_op _ (InBatch "warmup" WaitRunner))|]. intros r. apply between_ret.
Qed.

Lemma between_warmup : between 2 2 (run_warmup reply sc).
Proof.
  unfold run_warmup. apply between_seq; [apply between_compute|]. intros pause. apply between_seq; [apply between_compute|]. intros ops.
  case_bool_decide; [apply between_ret|]. apply between_seq; [apply between_compute|]. intros _. apply between_seq; [apply between_compute|]. intros lf.
  apply between_seq; [apply (between_do _ (InBatch "warmup" _))|]. intros _. apply between_seq; [apply (between_do _ (InBatch "warmup" _))|]. intros _.
  apply between_ensure; [apply warmup_body_between|apply (between_do _ (InBatch "warmup" _))].
Qed.

Lemma gate_warmup : gate (λ b, b = true) (run_warmup reply sc).
Proof.
  assert (Hc : ∀ A (r : res A), between 0 2 (compute r)) by (intros; apply between_compute).
  assert (Hd : ∀ o, (rank o ≤ 2)%nat → between 0 2 (do_op reply o)) by (intros o Ho; eapply between_weaken; [apply between_do|lia|done]).
  unfold run_warmup. apply (gate_seq _ 0); [apply Hc|apply gate_compute|]. intros pause. apply (gate_seq _ 0); [apply Hc|apply gate_compute|]. intros ops.
  case_bool_decide; [apply gate_ret|]. apply (gate_seq _ 0); [apply Hc|apply gate_compute|]. intros _. apply (gate_seq _ 0); [apply Hc|apply gate_compute|]. intros lf.
  apply (gate_seq _ 0); [apply Hd; simpl; lia|apply gate_do; [simpl; lia|done]|]. intros _. apply (gate_seq _ 0); [apply Hd; simpl; lia|apply gate_do; [simpl; lia|done]|]. intros _.
  apply (gate_ensure _ 2); [done|apply warmup_body_between|apply (between_do _ (InBatch "warmup" _))| |apply gate_do; [simpl; lia|done]].
  assert (Hs : ∀ op, between 0 2 (do_op reply (Submit op) ≫= λ _, if float_lt (int_f 0) pause then do_op reply PauseWarmup else mret ())).
  { intros op. apply (between_bind _ 2); [lia|apply Hd; simpl; lia|]. intros _. destruct (float_lt _ _); [apply (between_do _ PauseWarmup)|apply between_ret]. }
  apply (gate_seq _ 0).
  - eapply between_weaken; [apply (between_each 2)|lia|done]. intros op. apply between_seq; [apply (between_do _ (Submit op))|]. intros _.
    destruct (float_lt _ _); [apply (between_do _ PauseWarmup)|apply between_ret].
  - apply gate_each; [done|]. intros op. apply (gate_seq _ 0); [apply Hd; simpl; lia|apply gate_do; [simpl; lia|done]|]. intros _. destruct (float_lt _ _); [apply gate_do; [simpl; lia|done]|apply gate_ret].
  - intros _. intros w w' out. unfold mbind, Prog_bind. destruct (run_op _ _ w) as [w1 [[b fs]|x]] eqn:E; destruct (gate_op (InBatch "warmup" WaitRunner) ltac:(done) _ _ _ E) as (k & Ek & Lk & Pk).
    + intros [= <- <-]. exists k. split_and!; [done|done|]. intros a [= <-] ->. by eapply Pk.
    + intros [= <- <-]. exists k. done.
Qed.

Lemma between_autotest : between 1 4 (run_autotest_experiment reply sc).
Proof.
  unfold run_autotest_experiment. destruct (existsb _ _); [apply between_raise|]. apply (between_bind _ 1); [lia| |intros _].
  - case_bool_decide; [apply between_ret|]. apply between_seq; [apply between_compute|]. intros _. apply between_seq; [by apply between_batch|]. intros _. apply between_ret.
  - apply (between_bind _ 2); [lia|eapply between_weaken; [apply between_warmup|lia|done]|]. intros []; [|apply between_raise]. simpl.
    apply (between_bind _ 3); [lia|apply between_compute|]. intros s. destruct (_ && _); [apply between_ret|].
    apply (between_bind _ 3); [lia|apply between_failures|]. intros _. eapply between_weaken; [by apply between_phase|lia|lia].
Qed.
Lemma gate_autotest : gate (λ _, True) (run_autotest_experiment reply sc).
Proof.
  unfold run_autotest_experiment. destruct (existsb _ _); [apply gate_raise|]. apply (gate_seq _ 1).
  - case_bool_decide; [apply between_ret|]. apply (between_bind _ 1); [lia|apply between_compute|]. intros _. apply (between_bind _ 1); [lia|by apply between_batch|]. intros _. apply between_ret.
  - case_bool_decide; [apply gate_ret|]. apply (gate_seq _ 1); [apply between_compute|apply gate_compute|]. intros _.
    apply (gate_seq _ 1); [eapply between_weaken; [by apply (between_batch _ _ _ 1)|lia|lia]|apply gate_seed|]. intros _. apply gate_ret.
  - intros _. apply (gate_bind_early (λ b, b = true) _ 2); [apply between_warmup|apply gate_warmup|intros []; [by left|right; by eexists]|].
    intros b ->. simpl. apply (gate_late _ 4). apply (between_bind _ 3); [lia|apply between_compute|]. intros s. destruct (_ && _); [apply between_ret|].
    apply (between_bind _ 3); [lia|apply between_failures|]. intros _. eapply between_weaken; [by apply between_phase|lia|lia].
Qed.

Lemma between_normal : between 1 4 (run_normal_experiment reply sc).
Proof.
  apply (between_bind _ 3); [lia|eapply between_weaken; [apply between_failures|lia|lia]|]. intros _. eapply between_weaken; [by apply between_phase|lia|lia].
Qed.

Lemma between_monitor : between 5 5 (start_monitor reply sc).
Proof.
  unfold start_monitor. destruct (truthy _); [|apply between_ret]. apply between_seq; [apply (between_do _ (NewMonitor _))|]. intros _.
  apply between_seq; [apply between_hold|]. intros _. apply (between_do _ StartMonitor).
Qed.
Lemma between_wait : between 6 6 (wait_run reply sc).
Proof.
  unfold wait_run. apply between_seq; [apply between_compute|]. intros s. destruct (_ && _); [apply (between_do _ (PauseRun s))|].
  apply between_seq; [apply between_attributes|]. intros h. destruct (no_cli sc); [|apply between_ret]. destruct (scheduler h); [apply (between_do _ (WaitEvents _))|apply between_ret].
Qed.
Lemma between_end : between 5 6 (start_monitor reply sc ≫= λ _, wait_run reply sc).
Proof. apply (between_bind _ 5); [lia|apply between_monitor|]. intros _. eapply between_weaken; [apply between_wait|lia|lia]. Qed.

Lemma between_apps : between 0 0 (start_apps reply sc).
Proof.
  unfold start_apps. destruct (host_apps sc); [|apply between_ret]. apply between_seq; [apply (between_do _ BuildApps)|]. intros _.
  apply between_seq; [apply between_hold|]. intros _. apply (between_do _ StartApps).
Qed.
Lemma gate_apps : gate (λ _, True) (start_apps reply sc).
Proof.
  unfold start_apps. destruct (host_apps sc); [|apply gate_ret]. assert (Hd : ∀ o, (rank o ≤ 2)%nat → between 0 2 (do_op reply o)) by (intros o Ho; eapply between_weaken; [apply between_do|lia|done]).
  apply (gate_seq _ 0); [apply Hd; simpl; lia|apply gate_do; [simpl; lia|done]|]. intros _. apply (gate_seq _ 0); [apply between_hold|apply gate_hold|]. intros _. apply gate_do; [simpl; lia|done].
Qed.

Lemma between_experiment : between 0 6 (run_experiment reply sc).
Proof.
  apply (between_bind _ 1); [lia|eapply between_weaken; [apply between_apps|lia|lia]|]. intros _. apply (between_bind _ 1); [lia|apply between_compute|]. intros _.
  apply (between_bind _ 4); [lia| |intros _; eapply between_weaken; [apply between_end|lia|lia]]. destruct (autotest_mode sc); [apply between_autotest|apply between_normal].
Qed.
Lemma gate_experiment : autotest_mode sc = true → gate (λ _, True) (run_experiment reply sc).
Proof.
  intros Ha. apply (gate_seq _ 0); [eapply between_weaken; [apply between_apps|lia|lia]|apply gate_apps|]. intros _.
  apply (gate_seq _ 0); [apply between_compute|apply gate_compute|]. intros _. rewrite Ha.
  apply (gate_bind_late _ 6); [apply gate_autotest|]. intros _. eapply between_weaken; [apply between_end|lia|lia].
Qed.
End gates.

(** * What is started is stopped *)

(** The scheduler of the phase failed to start. *)
Definition abandoned (phase : string) (t : list (dop * danswer)) : Prop := ∃ x, (InBatch phase StartScheduler, DRaised x) ∈ t.
Definition failure_start (o : dop) : bool := match o with StartFailureManager | StartFlap _ => true | _ => false end.

(** Everything started is stopped or held; a runner may have been abandoned. *)
Record kept (w : dworld) : Prop := {
  kp_runner : ∀ phase b fs, (InBatch phase StartRunner, DReturned b fs) ∈ d_trace w →
    InBatch phase StopRunner ∈ (d_trace w).*1 ∨ runner (d_held w) = Some phase ∨ abandoned phase (d_trace w);
  kp_scheduler : ∀ phase b fs, (InBatch phase StartScheduler, DReturned b fs) ∈ d_trace w →
    InBatch phase StopScheduler ∈ (d_trace w).*1 ∨ scheduler (d_held w) = Some phase;
  kp_monitor : StartMonitor ∈ (d_trace w).*1 → monitor (d_held w) = true;
  kp_apps : ∀ b fs, (BuildApps, DReturned b fs) ∈ d_trace w → apps (d_held w) = true;
  kp_failures : ∀ o b fs, (o, DReturned b fs) ∈ d_trace w → failure_start o = true → stop_event (d_held w) = true;
}.
(** The same, with no runner and no scheduler held yet. *)
Definition kept0 (w : dworld) : Prop := kept w ∧ runner (d_held w) = None ∧ scheduler (d_held w) = None.

Section release.
Context `{FloatRepr} (reply : list (dop * danswer) → dop → danswer) (sc : disaster).

(** What [k] starts it stops, but for an abandoned runner; nothing is to be held. *)
Definition settles (k : list (dop * danswer)) : Prop :=
  (∀ phase b fs, (InBatch phase StartRunner, DReturned b fs) ∈ k → InBatch phase StopRunner ∈ k.*1) ∧
  (∀ phase b fs, (InBatch phase StartScheduler, DReturned b fs) ∈ k → InBatch phase StopScheduler ∈ k.*1) ∧
  (∀ o, o ∈ k.*1 → o ≠ StartMonitor ∧ o ≠ BuildApps ∧ failure_start o = false).
Definition settled {A} (m : D A) : Prop := ∀ w w' out, m w = (w', out) → d_held w' = d_held w ∧ ∃ k, d_trace w' = d_trace w ++ k ∧ settles k.

Lemma settles_nil : settles [].
Proof. split_and!; [by intros ? ? ? ?%elem_of_nil|by intros ? ? ? ?%elem_of_nil|by intros ? ?%elem_of_nil]. Qed.
Lemma settles_app k k' : settles k → settles k' → settles (k ++ k').
Proof.
  intros (R & S & N) (R' & S' & N'). split_and!.
  - intros ph b fs [Hin|Hin]%elem_of_app; rewrite fmap_app; apply elem_of_app; [left; by eapply R|right; by eapply R'].
  - intros ph b fs [Hin|Hin]%elem_of_app; rewrite fmap_app; apply elem_of_app; [left; by eapply S|right; by eapply S'].
  - intros o. rewrite fmap_app. intros [Hin|Hin]%elem_of_app; auto.
Qed.
(** An operation that starts nothing. *)
Definition starts_nothing (o : dop) : bool :=
  match o with InBatch _ StartRunner | InBatch _ StartScheduler | StartMonitor | BuildApps | StartFailureManager | StartFlap _ => false | _ => true end.
Lemma settles_one o a : starts_nothing o = true → settles [(o, a)].
Proof.
  intros Ho. split_and!.
  - intros ph b fs E%list_elem_of_singleton. injection E as <- _. done.
  - intros ph b fs E%list_elem_of_singleton. injection E as <- _. done.
  - intros o' ->%list_elem_of_singleton. by destruct o.
Qed.

Lemma settled_ret {A} (a : A) : settled (mret a).
Proof. intros w w' out [= <- <-]. split; [done|]. exists []. split; [by rewrite app_nil_r|apply settles_nil]. Qed.
Lemma settled_raise {A} x : settled (@raise_exc dworld A x).
Proof. intros w w' out [= <- <-]. split; [done|]. exists []. split; [by rewrite app_nil_r|apply settles_nil]. Qed.
Lemma settled_compute {A} (r : res A) : settled (compute r).
Proof. destruct r; [apply settled_ret|apply settled_raise..]. Qed.
Lemma settled_attributes : settled attributes.
Proof. intros w w' out [= <- <-]. split; [done|]. exists []. split; [by rewrite app_nil_r|apply settles_nil]. Qed.
Lemma settled_bind {A C} (m : D A) (f : A → D C) : settled m → (∀ a, settled (f a)) → settled (m ≫= f).
Proof.
  intros Hm Hf w w' out. unfold mbind, Prog_bind. destruct (m w) as [w1 [a|x]] eqn:E; destruct (Hm _ _ _ E) as (Eh & k & Ek & Hk).
  - intros E2. destruct (Hf a _ _ _ E2) as (Eh2 & k2 & Ek2 & Hk2). split; [congruence|]. exists (k ++ k2). split; [by rewrite Ek2, Ek, app_assoc|by apply settles_app].
  - intros [= <- <-]. split; [done|]. by exists k.
Qed.
Lemma settled_op o : starts_nothing o = true → settled (run_op reply o).
Proof.
  intros Ho w w' out. unfold run_op. destruct (reply (d_trace w) o); intros [= <- <-]; (split; [done|]); eexists; (split; [done|by apply settles_one]).
Qed.
Lemma settled_do o : starts_nothing o = true → settled (do_op reply o).
Proof. intros Ho. apply settled_bind; [by apply settled_op|]. intros _. apply settled_ret. Qed.
Lemma settled_each {A} (f : A → D ()) xs : (∀ x, settled (f x)) → settled (do_each f xs).
Proof. intros Hf. induction xs; simpl; [apply settled_ret|]. by apply settled_bind. Qed.

(** One operation: it returns or raises. *)
Lemma do_op_cases o w :
  (∃ b fs, do_op reply o w = (mkDisaster (d_trace w ++ [(o, DReturned b fs)]) (d_held w), inl ())) ∨
  (∃ x, do_op reply o w = (mkDisaster (d_trace w ++ [(o, DRaised x)]) (d_held w), inr x)).
Proof.
  unfold do_op, run_op, mbind, Prog_bind. destruct (reply (d_trace w) o) as [b fs|x]; [left; by exists b, fs|right; by exists x].
Qed.

(** The warm-up's runner: started, then stopped whatever happens in between. *)
Lemma settled_runner {A} phase (m : D A) : settled m →
  settled (do_op reply (InBatch phase StartRunner) ≫= λ _, ensure m (do_op reply (InBatch phase StopRunner))).
Proof.
  intros Hm w w' out. unfold mbind, Prog_bind. destruct (do_op_cases (InBatch phase StartRunner) w) as [(b & fs & ->)|(x & ->)].
  - unfold ensure. match goal with |- context [m ?w0] => destruct (m w0) as [w1 o1] eqn:E1 end. destruct (Hm _ _ _ E1) as (Eh & k & Ek & Hk). simpl in Eh, Ek.
    assert (H2 : ∃ a o2, do_op reply (InBatch phase StopRunner) w1 = (mkDisaster (d_trace w1 ++ [(InBatch phase StopRunner, a)]) (d_held w1), o2)).
    { destruct (do_op_cases (InBatch phase StopRunner) w1) as [(? & ? & ->)|(? & ->)]; by eexists _, _. }
    destruct H2 as (a & o2 & ->). intros E. assert (w' = mkDisaster (d_trace w1 ++ [(InBatch phase StopRunner, a)]) (d_held w1)) as -> by (by destruct o2; injection E as <- <-).
    split; [done|]. exists ([(InBatch phase StartRunner, DReturned b fs)] ++ k ++ [(InBatch phase StopRunner, a)]). split; [simpl; by rewrite Ek, <-!app_assoc|].
    destruct (settles_app _ _ Hk (settles_one (InBatch phase StopRunner) a eq_refl)) as (R & S & N). split_and!.
    + intros ph b' fs' [E'|Hin]%elem_of_cons.
      * injection E' as -> _ _. rewrite !fmap_app. apply elem_of_app. right. apply elem_of_app. right. by left.
      * right. by eapply R.
    + intros ph b' fs' [[=]|Hin]%elem_of_cons. right. by eapply S.
    + intros o [->|Hin]%elem_of_cons; [done|by apply N].
  - intros [= <- <-]. split; [done|]. eexists. split; [done|]. split_and!.
    + intros ph b fs E%list_elem_of_singleton. by injection E.
    + intros ph b fs E%list_elem_of_singleton. by injection E.
    + by intros o ->%list_elem_of_singleton.
Qed.

Lemma in_batch_inv phase o a (k : batch_world) : (o, a) ∈ in_batch phase <$> k → ∃ bo ba, o = InBatch phase bo ∧ (bo, ba) ∈ k ∧ a = (in_batch phase (bo, ba)).2.
Proof. intros ([bo ba] & E & Hin)%list_elem_of_fmap. injection E as -> ->. by exists bo, ba. Qed.
Lemma in_batch_ops phase (k : batch_world) o : o ∈ k.*1 → InBatch phase o ∈ (in_batch phase <$> k).*1.
Proof.
  intros ([o' a] & -> & Hin)%list_elem_of_fmap. apply list_elem_of_fmap. exists (in_batch phase (o', a)). split; [done|]. by apply list_elem_of_fmap_2.
Qed.

Lemma settled_seed puts : settled (batch reply "seed" (seed_batch puts)).
Proof.
  intros w w' out. unfold batch. destruct (run_event_batch _ _ _) as [k o] eqn:E. intros [= <- <-]. split; [done|]. exists (in_batch "seed" <$> k). split; [done|].
  destruct (batch_waited _ (seed_batch puts) 300 _ _ eq_refl eq_refl E) as (R & S & _). split_and!.
  - intros ph b fs (bo & ba & E1 & Hin & _)%in_batch_inv. injection E1 as -> <-. apply in_batch_ops, R. by apply (list_elem_of_fmap_2 fst _ (StartRunner, ba)).
  - intros ph b fs (bo & ba & E1 & Hin & _)%in_batch_inv. injection E1 as -> <-. apply in_batch_ops, S. by apply (list_elem_of_fmap_2 fst _ (StartScheduler, ba)).
  - intros o' ([o2 a2] & -> & (bo & ba & -> & _)%in_batch_inv)%list_elem_of_fmap. done.
Qed.

Lemma settled_warmup : settled (run_warmup reply sc).
Proof.
  unfold run_warmup. apply settled_bind; [apply settled_compute|]. intros pause. apply settled_bind; [apply settled_compute|]. intros ops.
  case_bool_decide; [apply settled_ret|]. apply settled_bind; [apply settled_compute|]. intros _. apply settled_bind; [apply settled_compute|]. intros lf.
  apply settled_bind; [by apply settled_do|]. intros _. apply settled_runner. apply settled_bind.
  - apply settled_each. intros op. apply settled_bind; [by apply settled_do|]. intros _. destruct (float_lt _ _); [by apply settled_do|apply settled_ret].
  - intros _. apply settled_bind; [by apply settled_op|]. intros r. apply settled_ret.
Qed.

(** * The invariant of a run *)

(** [m], started where [P] holds, returns where [Q] holds, and raises where
    everything started is stopped or held. *)
Definition triple {A} (P : dworld → Prop) (m : D A) (Q : dworld → Prop) : Prop :=
  ∀ w w' out, P w → m w = (w', out) → match out with inl _ => Q w' | inr _ => kept w' end.

Lemma triple_bind {A C} P Q R (m : D A) (f : A → D C) : triple P m Q → (∀ a, triple Q (f a) R) → triple P (m ≫= f) R.
Proof.
  intros Hm Hf w w' out Hp. unfold mbind, Prog_bind. destruct (m w) as [w1 [a|x]] eqn:E; pose proof (Hm _ _ _ Hp E) as H1; simpl in H1.
  - intros E2. by eapply (Hf a).
  - by intros [= <- <-].
Qed.
Lemma triple_weaken {A} P (m : D A) : triple P m kept0 → triple P m kept.
Proof. intros Hm w w' out Hp E. pose proof (Hm _ _ _ Hp E). destruct out; [by destruct H0|done]. Qed.

Lemma kept_app t h k : kept (mkDisaster t h) → settles k → kept (mkDisaster (t ++ k) h).
Proof.
  intros [H1 H2 H3 H4 H5] (R & S & N). split; simpl in *.
  - intros ph b fs [Hin|Hin]%elem_of_app.
    + destruct (H1 _ _ _ Hin) as [?|[?|[x ?]]]; [left; rewrite fmap_app; apply elem_of_app; by left|right; by left|right; right; exists x; apply elem_of_app; by left].
    + left. rewrite fmap_app. apply elem_of_app. right. by eapply R.
  - intros ph b fs [Hin|Hin]%elem_of_app.
    + destruct (H2 _ _ _ Hin) as [?|?]; [left; rewrite fmap_app; apply elem_of_app; by left|by right].
    + left. rewrite fmap_app. apply elem_of_app. right. by eapply S.
  - rewrite fmap_app. intros [Hin|Hin]%elem_of_app; [by apply H3|]. by destruct (N _ Hin).
  - intros b fs [Hin|Hin]%elem_of_app; [by eapply H4|]. apply (list_elem_of_fmap_2 fst) in Hin. by destruct (N _ Hin) as (_ & ? & _).
  - intros o b fs [Hin|Hin]%elem_of_app Ho; [by eapply H5|]. apply (list_elem_of_fmap_2 fst) in Hin. destruct (N _ Hin) as (_ & _ & N'). simpl in N'. congruence.
Qed.
Lemma triple_settled {A} (m : D A) : settled m → triple kept m kept ∧ triple kept0 m kept0.
Proof.
  intros Hm. assert (Hk : ∀ w w' out, kept w → m w = (w', out) → kept w').
  { intros [t h] [t' h'] out Hw E. destruct (Hm _ _ _ E) as (Eh & k & Ek & Hk). simpl in *. subst. by apply kept_app. }
  split; intros w w' out Hp E.
  - destruct out; by eapply Hk.
  - destruct Hp as (Hp & Hr & Hs). pose proof (Hk _ _ _ Hp E). destruct (Hm _ _ _ E) as [Eh _]. destruct out; [|done]. by rewrite <-Eh in Hr, Hs.
Qed.
Definition triple0 {A} (m : D A) (Hm : settled m) := proj2 (triple_settled m Hm).
Definition triple1 {A} (m : D A) (Hm : settled m) := proj1 (triple_settled m Hm).
End release.

Section released.
Context `{FloatRepr} (reply : list (dop * danswer) → dop → danswer) (sc : disaster).

(** An operation whose return is recorded in an attribute next. *)
Lemma triple_held o f P Q : (∀ w x, P w → kept (mkDisaster (d_trace w ++ [(o, DRaised x)]) (d_held w))) →
  (∀ w b fs, P w → Q (mkDisaster (d_trace w ++ [(o, DReturned b fs)]) (f (d_held w)))) → triple P (do_op reply o ≫= λ _, hold f) Q.
Proof.
  intros Hx Hr w w' out Hp. unfold mbind, Prog_bind. destruct (do_op_cases reply o w) as [(b & fs & ->)|(x & ->)]; intros [= <- <-]; [by apply Hr|by apply Hx].
Qed.

(** Something more in the trace, and more held. *)
Lemma kept_more t h o a (h' : held) : kept (mkDisaster t h) → runner h' = runner h → scheduler h' = scheduler h →
  (monitor h = true → monitor h' = true) → (apps h = true → apps h' = true) → (stop_event h = true → stop_event h' = true) →
  match o with InBatch _ StartRunner | InBatch _ StartScheduler => False | StartMonitor => monitor h' = true | _ => True end →
  (∀ b fs, a = DReturned b fs → (o = BuildApps → apps h' = true) ∧ (failure_start o = true → stop_event h' = true)) →
  kept (mkDisaster (t ++ [(o, a)]) h').
Proof.
  intros [H1 H2 H3 H4 H5] Er Es Hm Ha Hf Ho Hret. split; simpl in *; rewrite ?Er, ?Es.
  - intros ph b fs [Hin|E%list_elem_of_singleton]%elem_of_app; [|by injection E as <- _].
    destruct (H1 _ _ _ Hin) as [?|[?|[x ?]]]; [left; rewrite fmap_app; apply elem_of_app; by left|right; by left|right; right; exists x; apply elem_of_app; by left].
  - intros ph b fs [Hin|E%list_elem_of_singleton]%elem_of_app; [|by injection E as <- _].
    destruct (H2 _ _ _ Hin) as [?|?]; [left; rewrite fmap_app; apply elem_of_app; by left|by right].
  - rewrite fmap_app. intros [Hin|E%list_elem_of_singleton]%elem_of_app; [by apply Hm, H3|]. simpl in E. by subst o.
  - intros b fs [Hin|E%list_elem_of_singleton]%elem_of_app; [by eapply Ha, H4|]. injection E as <- <-. by destruct (Hret _ _ eq_refl) as [? _]; auto.
  - intros o' b fs [Hin|E%list_elem_of_singleton]%elem_of_app Hs; [by eapply Hf, H5|]. injection E as -> <-. destruct (Hret _ _ eq_refl) as [_ ?]; auto.
Qed.

Lemma triple_apps : triple kept0 (start_apps reply sc) kept0.
Proof.
  unfold start_apps. destruct (host_apps sc); [|apply triple0, settled_ret]. intros w w' out Hp.
  pose proof (triple_bind kept0 kept0 kept0 (do_op reply BuildApps ≫= λ _, hold (λ h, mkHeld true (monitor h) (stop_event h) (scheduler h) (runner h))) (λ _, do_op reply StartApps)) as Ht.
  assert (E : (do_op reply BuildApps ≫= λ _, hold (λ h, mkHeld true (monitor h) (stop_event h) (scheduler h) (runner h)) ≫= λ _, do_op reply StartApps) w
    = ((do_op reply BuildApps ≫= λ _, hold (λ h, mkHeld true (monitor h) (stop_event h) (scheduler h) (runner h))) ≫= λ _, do_op reply StartApps) w).
  { unfold mbind, Prog_bind. by destruct (do_op reply BuildApps w) as [? [?|?]]. }
  rewrite E. apply Ht; [|intros _; by apply triple0, settled_do|done]. apply triple_held.
  - intros [t h] x (Hk & Hr & Hs). by apply (kept_more t h).
  - intros [t h] b fs (Hk & Hr & Hs). split; [|done]. by apply (kept_more t h).
Qed.

Lemma triple_start o : failure_start o = true → triple kept0 (do_op reply o ≫= λ _, hold (λ h, mkHeld (apps h) (monitor h) true (scheduler h) (runner h))) kept0.
Proof.
  intros Ho. apply triple_held.
  - intros [t h] x (Hk & Hr & Hs). apply (kept_more t h); try done. by destruct o.
  - intros [t h] b fs (Hk & Hr & Hs). split; [|done]. apply (kept_more t h); try done; [by destruct o|]. intros ? ? _. split; [|done]. by destruct o.
Qed.
Lemma triple_failures : triple kept0 (start_failure_manager reply sc) kept0.
Proof.
  unfold start_failure_manager. destruct (truthy _).
  - apply (triple_bind _ kept0); [by apply triple0, settled_do|]. intros _. by apply triple_start.
  - apply (triple_bind _ kept0); [apply triple0, settled_compute|]. intros often.
    apply (triple_bind _ kept0); [destruct often; apply triple0; [apply settled_compute|apply settled_ret]|]. intros []; [|apply triple0, settled_ret].
    apply (triple_bind _ kept0); [apply triple0, settled_compute|]. intros l. by apply triple_start.
Qed.

Lemma triple_monitor : triple kept (start_monitor reply sc) kept.
Proof.
  unfold start_monitor. destruct (truthy _); [|apply triple1, settled_ret]. apply (triple_bind _ kept); [by apply triple1, settled_do|]. intros _.
  intros [t h] w' out Hk. unfold mbind, Prog_bind, hold. simpl.
  set (w0 := mkDisaster t _). destruct (do_op_cases reply StartMonitor w0) as [(b & fs & E)|(x & E)]; rewrite E; intros [= <- <-]; by apply (kept_more t h).
Qed.

(** The phase that is not waited for: its runner and scheduler are kept. *)
Lemma triple_phase phase evs : triple kept0 (run_phase reply sc phase evs) kept.
Proof.
  apply (triple_bind _ kept0); [apply triple0, settled_compute|]. intros _ [t h] w' out (Hk & Hr & Hs). simpl in Hr, Hs. unfold mbind, Prog_bind, batch. simpl.
  destruct (run_event_batch _ _ _) as [k o] eqn:E. pose proof (batch_unwaited _ (unwaited evs) _ _ eq_refl eq_refl E) as Hb.
  destruct Hk as [H1 H2 H3 H4 H5]; simpl in *.
  assert (Hin : ∀ o a, (o, a) ∈ t ++ (in_batch phase <$> k) → (o, a) ∈ t ∨ ∃ bo ba, o = InBatch phase bo ∧ (bo, ba) ∈ k ∧ a = (in_batch phase (bo, ba)).2)
    by (intros o' a [?|?%in_batch_inv]%elem_of_app; auto).
  assert (Hop : ∀ o, o ∈ t.*1 → o ∈ (t ++ (in_batch phase <$> k)).*1) by (intros; rewrite fmap_app; apply elem_of_app; by left).
  assert (Hold : ∀ h', apps h' = apps h → monitor h' = monitor h → stop_event h' = stop_event h →
    (∀ b fs, (InBatch phase StartRunner, DReturned b fs) ∈ (in_batch phase <$> k) → runner h' = Some phase ∨ abandoned phase (in_batch phase <$> k)) →
    (∀ b fs, (InBatch phase StartScheduler, DReturned b fs) ∈ (in_batch phase <$> k) → scheduler h' = Some phase) →
    kept (mkDisaster (t ++ (in_batch phase <$> k)) h')).
  { intros h' Ea Em Ef Hrun Hsched. split; simpl.
    - intros ph b fs [Hi|Hi]%elem_of_app.
      + destruct (H1 _ _ _ Hi) as [?|[?|[x ?]]]; [left; by apply Hop|congruence|right; right; exists x; apply elem_of_app; by left].
      + pose proof Hi as (bo & ba & Eq & _)%in_batch_inv. injection Eq as -> _. right. destruct (Hrun _ _ Hi) as [?|[x ?]]; [by left|right; exists x; apply elem_of_app; by right].
    - intros ph b fs [Hi|Hi]%elem_of_app.
      + destruct (H2 _ _ _ Hi) as [?|?]; [left; by apply Hop|congruence].
      + pose proof Hi as (bo & ba & Eq & _)%in_batch_inv. injection Eq as -> _. right. by eapply Hsched.
    - rewrite fmap_app, Em. intros [Hi|([o' a] & Eq & (? & ? & ? & _)%in_batch_inv)%list_elem_of_fmap]%elem_of_app; [by apply H3|simpl in Eq; congruence].
    - rewrite Ea. intros b fs [Hi|(? & ? & ? & _)]%Hin; [by eapply H4|done].
    - rewrite Ef. intros o' b fs [Hi|(? & ? & -> & _)]%Hin Ho; [by eapply H5|done]. }
  destruct o as [r|x]; simpl; intros [= <- <-]; apply Hold; try done.
  - destruct Hb as (_ & Hrun & _). intros b fs (bo & ba & Eq & Hi & _)%in_batch_inv. injection Eq as <-. left. rewrite Hrun; [done|]. by apply (list_elem_of_fmap_2 fst _ (StartRunner, ba)).
  - destruct Hb as (_ & _ & Hsched). intros b fs (bo & ba & Eq & Hi & _)%in_batch_inv. injection Eq as <-. rewrite Hsched; [done|]. by apply (list_elem_of_fmap_2 fst _ (StartScheduler, ba)).
  - destruct Hb as [_ Hrun]. intros b fs (bo & ba & Eq & Hi & Ea)%in_batch_inv. injection Eq as <-. right. destruct ba as [b'|y]; [|done]. destruct (Hrun _ Hi) as [y Hy].
    exists y. apply list_elem_of_fmap. by exists (StartScheduler, BRaised y).
  - destruct Hb as [Hno _]. intros b fs (bo & ba & Eq & Hi & Ea)%in_batch_inv. injection Eq as <-. destruct ba as [b'|y]; [|done]. by apply Hno in Hi.
Qed.

Lemma triple_wait : triple kept (wait_run reply sc) kept.
Proof.
  apply triple1. apply settled_bind; [apply settled_compute|]. intros s. destruct (_ && _); [by apply settled_do|].
  apply settled_bind; [apply settled_attributes|]. intros h. destruct (no_cli sc); [|apply settled_ret]. destruct (scheduler h); [by apply settled_do|apply settled_ret].
Qed.

Lemma triple_autotest : triple kept0 (run_autotest_experiment reply sc) kept.
Proof.
  unfold run_autotest_experiment. destruct (existsb _ _); [apply triple_weaken, triple0, settled_raise|]. apply (triple_bind _ kept0).
  - apply triple0. case_bool_decide; [apply settled_ret|]. apply settled_bind; [apply settled_compute|]. intros _. apply settled_bind; [apply settled_seed|]. intros _. apply settled_ret.
  - intros _. apply (triple_bind _ kept0); [apply triple0, settled_warmup|]. intros []; [|apply triple_weaken, triple0, settled_raise]. simpl.
    apply (triple_bind _ kept0); [apply triple0, settled_compute|]. intros s. destruct (_ && _); [apply triple_weaken, triple0, settled_ret|].
    apply (triple_bind _ kept0); [apply triple_failures|]. intros _. apply triple_phase.
Qed.

Lemma triple_experiment : triple kept0 (run_experiment reply sc) kept.
Proof.
  apply (triple_bind _ kept0); [apply triple_apps|]. intros _. apply (triple_bind _ kept0); [apply triple0, settled_compute|]. intros _.
  apply (triple_bind _ kept).
  - destruct (autotest_mode sc); [apply triple_autotest|]. apply (triple_bind _ kept0); [apply triple_failures|]. intros _. apply triple_phase.
  - intros _. apply (triple_bind _ kept); [apply triple_monitor|]. intros _. apply triple_wait.
Qed.
Lemma kept_start : kept0 (mkDisaster [] nothing_held).
Proof. split; [|done]. split; simpl; try (by intros ? ? ? ?%elem_of_nil); try (by intros ? ? ?%elem_of_nil); by intros ?%elem_of_nil. Qed.

(** * The release *)

Definition shutdown_ops (h : held) : list dop :=
  (if apps h then [StopApps] else []) ++ (if monitor h then [StopMonitor] else []) ++ (if webui sc then [StopWebui] else [])
  ++ (match scheduler h with Some phase => [InBatch phase StopScheduler] | None => [] end)
  ++ (match runner h with Some phase => [InBatch phase WaitRunner; InBatch phase StopRunner] | None => [] end)
  ++ (if stop_event h then [SetStopEvent] else []).
Definition stage (o : dop) : string :=
  match o with
  | StopMonitor => "monitor.stop" | StopWebui => "webui.stop" | InBatch _ StopScheduler => "event_scheduler.stop"
  | InBatch _ WaitRunner => "content_runner.wait_all" | InBatch _ StopRunner => "content_runner.stop" | _ => "stop_event.set"
  end.
(** The failures of a shutdown: those the applications report and those of the
    stages that raised. *)
Definition reported (k : list (dop * danswer)) : failures :=
  k ≫= λ oa, match oa with (StopApps, DReturned _ fs) => fs | (o, DRaised x) => [(stage o, x)] | _ => [] end.

(** [m fs] does [l], whatever is raised, and adds what it reports. *)
Definition stops (l : list dop) (m : failures → D failures) : Prop := ∀ fs w, ∃ k,
  m fs w = (mkDisaster (d_trace w ++ k) (d_held w), inl (fs ++ reported k)) ∧ k.*1 = l.
Lemma stops_none : stops [] (λ fs, mret fs).
Proof. intros fs w. exists []. rewrite !app_nil_r. by destruct w. Qed.
Lemma stops_one o : o ≠ StopApps → stops [o] (λ fs, guarded (stage o) (do_op reply o) fs).
Proof.
  intros Ho fs w. unfold guarded. destruct (do_op_cases reply o w) as [(b & fs' & ->)|(x & ->)].
  - exists [(o, DReturned b fs')]. split; [|done]. assert (reported [(o, DReturned b fs')] = []) as -> by (by destruct o). by rewrite app_nil_r.
  - exists [(o, DRaised x)]. split; [|done]. assert (reported [(o, DRaised x)] = [(stage o, x)]) as -> by (by destruct o). done.
Qed.
Lemma stops_bind l l' m m' : stops l m → stops l' m' → stops (l ++ l') (λ fs, m fs ≫= m').
Proof.
  intros Hm Hm' fs w. destruct (Hm fs w) as (k & Ek & El). unfold mbind, Prog_bind. rewrite Ek.
  destruct (Hm' (fs ++ reported k) (mkDisaster (d_trace w ++ k) (d_held w))) as (k' & Ek' & El'). exists (k ++ k'). simpl in Ek'. rewrite Ek'. split.
  - unfold reported. by rewrite bind_app, !app_assoc.
  - by rewrite fmap_app, El, El'.
Qed.
End released.

Section disaster.
Context `{FloatRepr} (reply : list (dop * danswer) → dop → danswer) (sc : disaster).

Lemma stops_if (b : bool) s o : o ≠ StopApps → s = stage o → stops (if b then [o] else []) (stop_if reply b s o).
Proof. intros Ho ->. destruct b; [by apply stops_one|apply stops_none]. Qed.

Lemma shutdown_spec w w' out : shutdown_runtime_resources reply sc w = (w', out) →
  (apps (d_held w) = true ∧ ∃ x, out = inr x ∧ d_trace w' = d_trace w ++ [(StopApps, DRaised x)]) ∨
  ∃ k, d_trace w' = d_trace w ++ k ∧ k.*1 = shutdown_ops sc (d_held w) ∧ out = inl (reported k).
Proof.
  set (h := d_held w).
  assert (Hrest : stops (drop (if apps h then 1 else 0) (shutdown_ops sc h)) (λ fs, fs ← stop_if reply (monitor h) "monitor.stop" StopMonitor fs;
    fs ← stop_if reply (webui sc) "webui.stop" StopWebui fs;
    fs ← match scheduler h with Some phase => guarded "event_scheduler.stop" (do_op reply (InBatch phase StopScheduler)) fs | None => mret fs end;
    fs ← match runner h with
         | Some phase =>
             fs ← guarded "content_runner.wait_all" (do_op reply (InBatch phase WaitRunner)) fs;
             guarded "content_runner.stop" (do_op reply (InBatch phase StopRunner)) fs
         | None => mret fs
         end;
    stop_if reply (stop_event h) "stop_event.set" SetStopEvent fs)).
  { unfold shutdown_ops. match goal with |- stops (drop _ (_ ++ ?l)) _ => assert (E : drop (if apps h then 1 else 0) ((if apps h then [StopApps] else []) ++ l) = l) by (by destruct (apps h)) end.
    rewrite E. clear E. refine (stops_bind _ _ _ _ _ _); [by apply stops_if|]. refine (stops_bind _ _ _ _ _ _); [by apply stops_if|].
    refine (stops_bind _ _ (λ fs, match scheduler h with Some phase => guarded "event_scheduler.stop" (do_op reply (InBatch phase StopScheduler)) fs | None => mret fs end) _ _ _).
    { destruct (scheduler h) as [ph|]; [by apply (stops_one _ (InBatch ph StopScheduler))|apply stops_none]. }
    refine (stops_bind _ _ (λ fs, match runner h with Some phase => _ | None => mret fs end) _ _ _); [|by apply stops_if].
    destruct (runner h) as [ph|]; [|apply stops_none].
    apply (stops_bind [InBatch ph WaitRunner] [InBatch ph StopRunner]); [by apply (stops_one _ (InBatch ph WaitRunner))|by apply (stops_one _ (InBatch ph StopRunner))]. }
  unfold shutdown_runtime_resources, attributes, mbind at 1, Prog_bind at 1. fold h. destruct (apps h) eqn:Ea.
  - unfold mbind at 1, Prog_bind at 1, fmap, Prog_fmap, run_op. destruct (reply (d_trace w) StopApps) as [b fs|x] eqn:Er.
    + destruct (Hrest fs (mkDisaster (d_trace w ++ [(StopApps, DReturned b fs)]) h)) as (k & Ek & El). simpl in Ek |- *.
      unfold h in *. rewrite Ek. intros [= <- <-]. right. exists ((StopApps, DReturned b fs) :: k). simpl. rewrite <-app_assoc. split_and!; [done| |done].
      change (StopApps :: k.*1 = shutdown_ops sc (d_held w)). rewrite El. unfold shutdown_ops. by rewrite Ea.
    + intros [= <- <-]. left. split; [done|]. by exists x.
  - unfold mbind at 1, Prog_bind at 1. simpl. destruct (Hrest [] w) as (k & Ek & El). simpl in Ek. rewrite Ek. intros [= <- <-]. right. by exists k.
Qed.

(** C30: in a run of the disaster scenario the phases follow one another - host
    applications, seed, warm-up, failures, events, monitor, final wait - whatever the
    operations answer and raise; and in autotest mode neither the failures nor any
    event of the evaluation, nor the monitor, is started unless every operation of the
    first phases returned and every wait of the seed and of the warm-up completed in
    time. *)
Theorem phases_gated w out : run_experiment reply sc (mkDisaster [] nothing_held) = (w, out) →
  in_order (d_trace w) ∧
  (autotest_mode sc = true → (∃ oa, oa ∈ d_trace w ∧ (3 ≤ rank oa.1)%nat) → ∀ oa, oa ∈ d_trace w → (rank oa.1 ≤ 2)%nat → fine oa).
Proof.
  intros E. destruct (between_experiment reply sc _ _ _ E) as (k & Ek & Ho & _). simpl in Ek. rewrite Ek. split; [done|].
  intros Ha Hl. destruct (gate_experiment reply sc Ha _ _ _ E) as (k' & Ek' & Lk & _). simpl in Ek'. assert (k' = k) as -> by congruence. by apply Lk.
Qed.

(** C31: whatever a run of the disaster scenario does and raises, the shutdown that
    follows attempts the stop of every resource it holds, each whatever the others do,
    and returns exactly the failures of those stages; so every monitor, host
    application fleet and failure thread that was started is stopped, and every
    content runner and scheduler, in the run or by the shutdown, but for the runner of
    a batch whose scheduler failed to start.  Only an exception of the applications'
    [stop_all], which promises to raise none, ends the shutdown early. *)
Theorem run_released w out w' res : run_experiment reply sc (mkDisaster [] nothing_held) = (w, out) →
  shutdown_runtime_resources reply sc w = (w', res) →
  (∃ x, res = inr x ∧ d_trace w' = d_trace w ++ [(StopApps, DRaised x)]) ∨
  ∃ k, d_trace w' = d_trace w ++ k ∧ k.*1 = shutdown_ops sc (d_held w) ∧ res = inl (reported k) ∧
    let t := d_trace w' in
    (∀ phase b fs, (InBatch phase StartRunner, DReturned b fs) ∈ t → InBatch phase StopRunner ∈ t.*1 ∨ abandoned phase t) ∧
    (∀ phase b fs, (InBatch phase StartScheduler, DReturned b fs) ∈ t → InBatch phase StopScheduler ∈ t.*1) ∧
    (StartMonitor ∈ t.*1 → StopMonitor ∈ t.*1) ∧
    (∀ b fs, (BuildApps, DReturned b fs) ∈ t → StopApps ∈ t.*1) ∧
    (∀ o b fs, (o, DReturned b fs) ∈ t → failure_start o = true → SetStopEvent ∈ t.*1).
Proof.
  intros E Es. assert (Hk : kept w).
  { pose proof (triple_experiment reply sc _ _ _ kept_start E) as Ht. by destruct out. }
  apply shutdown_spec in Es as [(_ & x & -> & Et)|(k & Et & Eo & ->)]; [left; by exists x|right]. exists k. split_and!; [done..|]. simpl. rewrite Et.
  destruct Hk as [H1 H2 H3 H4 H5].
  assert (Hops : ∀ o, o ∈ shutdown_ops sc (d_held w) → o ∈ (d_trace w ++ k).*1) by (intros o Ho; rewrite fmap_app, Eo; apply elem_of_app; by right).
  assert (Hnew : ∀ o a, (o, a) ∈ k → o ∈ shutdown_ops sc (d_held w)) by (intros o a Hin; rewrite <-Eo; by apply (list_elem_of_fmap_2 fst _ (o, a))).
  assert (Hno : ∀ o, o ∈ shutdown_ops sc (d_held w) → match o with
    | InBatch _ StartRunner | InBatch _ StartScheduler | StartMonitor | BuildApps | StartFailureManager | StartFlap _ => False | _ => True end).
  { intros o. unfold shutdown_ops. destruct (apps _), (monitor _), (webui sc), (scheduler _), (runner _), (stop_event _); simpl;
      rewrite ?elem_of_cons, ?elem_of_nil; intros Hin; repeat destruct Hin as [->|Hin]; done. }
  assert (Hold : ∀ o, o ∈ (d_trace w).*1 → o ∈ (d_trace w ++ k).*1) by (intros; rewrite fmap_app; apply elem_of_app; by left).
  split_and!.
  - intros ph b fs [Hin|Hin%Hnew%Hno]%elem_of_app; [|done]. destruct (H1 _ _ _ Hin) as [?|[Hr|[x ?]]]; [left; by apply Hold| |right; exists x; apply elem_of_app; by left].
    left. apply Hops. unfold shutdown_ops. rewrite Hr, !elem_of_app. do 4 right. left. right. by left.
  - intros ph b fs [Hin|Hin%Hnew%Hno]%elem_of_app; [|done]. destruct (H2 _ _ _ Hin) as [?|Hr]; [by apply Hold|].
    apply Hops. unfold shutdown_ops. rewrite Hr, !elem_of_app. do 3 right. left. by left.
  - rewrite fmap_app at 1. intros [Hin|Hin]%elem_of_app; [|by rewrite Eo in Hin; apply Hno in Hin]. apply Hops. unfold shutdown_ops. rewrite (H3 Hin), !elem_of_app. right. left. by left.
  - intros b fs [Hin|Hin%Hnew%Hno]%elem_of_app; [|done]. apply Hops. unfold shutdown_ops. rewrite (H4 _ _ Hin), !elem_of_app. left. by left.
  - intros o b fs [Hin|Hin%Hnew%Hno]%elem_of_app Ho; [|by destruct o]. apply Hops. unfold shutdown_ops. rewrite (H5 _ _ _ Hin Ho), !elem_of_app. do 5 right. by left.
Qed.
End disaster.

(** * Examples *)

#[local] Instance toy_decimal : FloatRepr := λ _, "0.0".
Definition demo_get : pydict := [(PStr "type", PStr "get"); (PStr "uri", PStr "ccnx:/a"); (PStr "host", PInt 2); (PStr "at", PInt 5)].
Definition demo_disaster : disaster :=
  mkScenario true true false [demo_put; demo_get] true (PInt 1) (PInt 60) PNone (PInt 0) (PBool true) 3 {[1]} {[0]} PNone
    (PInt 10) (PInt 5) (PStr "2") demo_monitoring true.
Definition all_well (_ : list (dop * danswer)) (_ : dop) : danswer := DReturned true [].
Definition no_eval_scheduler (_ : list (dop * danswer)) (o : dop) : danswer :=
  match o with InBatch "eval" StartScheduler => DRaised (Plain (Exn ERuntimeError "can't start new thread")) | _ => DReturned true [] end.

(** The put, the warm-up of host 1, the failures, the get, the monitor and the wait. *)
Example autotest_ops : (d_trace (run_experiment all_well demo_disaster (mkDisaster [] nothing_held)).1).*1 =
  [BuildApps; StartApps;
   InBatch "seed" (NewRunner []); InBatch "seed" NewScheduler; InBatch "seed" StartRunner; InBatch "seed" StartScheduler;
   InBatch "seed" WaitScheduler; InBatch "seed" WaitRunner; InBatch "seed" StopScheduler; InBatch "seed" StopRunner;
   InBatch "warmup" (NewRunner []); InBatch "warmup" StartRunner; Submit (warmup_get 1 "ccnx:/a"); InBatch "warmup" WaitRunner; InBatch "warmup" StopRunner;
   StartFlap {[0; 2]};
   InBatch "eval" (NewRunner []); InBatch "eval" NewScheduler; InBatch "eval" StartRunner; InBatch "eval" StartScheduler;
   NewMonitor demo_monitoring; StartMonitor; PauseRun 60].
Proof. vm_compute. reflexivity. Qed.

Lemma phases_gated_witness : ∃ w, run_experiment all_well demo_disaster (mkDisaster [] nothing_held) = (w, inl ()) ∧ length (d_trace w) = 23%nat ∧
  in_order (d_trace w) ∧ ∀ oa, oa ∈ d_trace w → (rank oa.1 ≤ 2)%nat → fine oa.
Proof.
  destruct (run_experiment all_well demo_disaster (mkDisaster [] nothing_held)) as [w out] eqn:E. destruct (phases_gated all_well demo_disaster w out E) as [Ho Hg].
  assert (Hr : out = inl () ∧ length (d_trace w) = 23%nat ∧ ∃ oa, oa ∈ d_trace w ∧ (3 ≤ rank oa.1)%nat).
  { vm_compute in E. injection E as <- <-. split_and!; [done|done|]. exists (StartMonitor, DReturned true []). split; [|simpl; lia].
    apply list_elem_of_lookup. by exists 21%nat. }
  destruct Hr as (-> & Hlen & Hex). exists w. split_and!; [done|done|done|]. by apply Hg.
Defined.

(** The scheduler of the evaluation does not start: the failures are stopped and the
    applications, the runner is not. *)
Lemma run_released_witness : ∃ w out w' fs, run_experiment no_eval_scheduler demo_disaster (mkDisaster [] nothing_held) = (w, out) ∧
  shutdown_runtime_resources no_eval_scheduler demo_disaster w = (w', inl fs) ∧ StopApps ∈ (d_trace w').*1 ∧ SetStopEvent ∈ (d_trace w').*1 ∧
  (InBatch "eval" StopRunner ∈ (d_trace w').*1 ∨ abandoned "eval" (d_trace w')).
Proof.
  destruct (run_experiment no_eval_scheduler demo_disaster (mkDisaster [] nothing_held)) as [w out] eqn:E.
  destruct (shutdown_runtime_resources no_eval_scheduler demo_disaster w) as [w' res] eqn:Es. pose proof (run_released _ _ w out w' res E Es) as Hr.
  pose proof Es as Es'. vm_compute in E. injection E as Ew Eout. rewrite <-Ew in Es. vm_compute in Es. injection Es as Ew' Eres.
  destruct Hr as [(x & Ex & _)|(k & _ & _ & _ & Hr & _ & _ & Ha & Hf)]; [exfalso; rewrite Ex in Eres; discriminate Eres|]. exists w, out, w', []. split_and!; [reflexivity|rewrite Es', <-Eres; reflexivity| | |].
  - assert (Hl : d_trace w' !! 0%nat = Some (BuildApps, DReturned true [])) by (rewrite <-Ew'; reflexivity). apply list_elem_of_lookup_2 in Hl. exact (Ha true [] Hl).
  - assert (Hl : d_trace w' !! 15%nat = Some (StartFlap (list_to_set [2] ∪ {[0]}), DReturned true [])) by (rewrite <-Ew'; vm_compute; reflexivity).
    apply list_elem_of_lookup_2 in Hl. exact (Hf _ _ _ Hl eq_refl).
  - assert (Hl : d_trace w' !! 18%nat = Some (InBatch "eval" StartRunner, DReturned true [])) by (rewrite <-Ew'; reflexivity).
    apply list_elem_of_lookup_2 in Hl. exact (Hr _ _ _ Hl).
Defined.
