(* ===== verification/Dashboard.v ===== *)
(** Component: the dashboard (src/webui/state.py): what the monitor and the
    experiment record and what a snapshot shows.  Every method runs under one lock,
    so a history of the dashboard is a sequence of them. *)
From S2P Require Import Prelude PyValue PyNum Topology Monitor.
Local Open Scope Z_scope.

(** * State *)

Definition MAX_OPERATIONS : nat := 1000.
Definition MAX_HISTORY : nat := 300.

Record host_view := mkView { last_cefstatus : pv; last_csmgrstatus : pv; cefnetd_outcome : pv; csmgrd_outcome : pv; is_cache : bool }.

Record dashboard := mkDashboard {
  host_count : Z;
  dash_caches : gset Z;
  seed : pv;
  started_at : pyfloat;
  views : gmap Z host_view;
  operations : list pydict;
  topology : pydict;
  success_history : list pydict;
}.

Definition unseen (caches : gset Z) (i : Z) : host_view := mkView (PStr "") (PStr "") PNone PNone (bool_decide (i ∈ caches)).
(** [__init__]. *)
Definition DashboardState (host_count : Z) (cache_nodes : gset Z) (seed : pv) (started_at : pyfloat) : dashboard :=
  mkDashboard host_count cache_nodes seed started_at (list_to_map ((λ i, (i, unseen cache_nodes i)) <$> range host_count)) []
    [(PStr "nodes", PList []); (PStr "edges", PList [])] [].

Definition set_views (v : gmap Z host_view) (d : dashboard) : dashboard :=
  mkDashboard (host_count d) (dash_caches d) (seed d) (started_at d) v (operations d) (topology d) (success_history d).
Definition set_operations (l : list pydict) (d : dashboard) : dashboard :=
  mkDashboard (host_count d) (dash_caches d) (seed d) (started_at d) (views d) l (topology d) (success_history d).
Definition put_topology (t : pydict) (d : dashboard) : dashboard :=
  mkDashboard (host_count d) (dash_caches d) (seed d) (started_at d) (views d) (operations d) t (success_history d).
Definition set_history (l : list pydict) (d : dashboard) : dashboard :=
  mkDashboard (host_count d) (dash_caches d) (seed d) (started_at d) (views d) (operations d) (topology d) l.

(** * Topology *)

(** The pairs of [edges], each the first time it occurs. *)
Fixpoint new_pairs (seen : list (Z * Z)) (es : list (Z * Z)) : list (Z * Z) :=
  match es with
  | [] => []
  | e :: es => if bool_decide (e ∈ seen) then new_pairs seen es else e :: new_pairs (e :: seen) es
  end.
Definition edge_dict (e : Z * Z) : pv := PDict [(PStr "from", PInt e.1); (PStr "to", PInt e.2)].
Definition node_dict (i : Z) : pv := PDict [(PStr "id", PInt i); (PStr "label", PStr ("h" +s+ str_Z i))].
(** [set_topology]. *)
Definition topology_edges (mesh : list raw_link) : list (Z * Z) := new_pairs [] (fst <$> edges (TopologyModel mesh)).
Definition set_topology (mesh : list raw_link) (d : dashboard) : dashboard :=
  put_topology [(PStr "nodes", PList (node_dict <$> range (host_count d))); (PStr "edges", PList (edge_dict <$> topology_edges mesh))] d.

(** * Records *)

(** The host a value names in the dict of hosts. *)
Definition host_key (d : dashboard) (v : pv) : option Z := List.find (λ i, key_eq (PInt i) v) (range (host_count d)).

(** [record_monitor]; a list or dict for the host raises [TypeError]. *)
Definition observe (record : pydict) (v : host_view) : host_view :=
  let output := get_or record "output" (PStr "") in
  let outcome := get_none record "outcome" in
  if eq_str (get_none record "type") "cefstatus" then mkView output (last_csmgrstatus v) outcome (csmgrd_outcome v) (is_cache v)
  else if eq_str (get_none record "type") "csmgrstatus" then mkView (last_cefstatus v) output (cefnetd_outcome v) outcome (is_cache v)
  else v.
Definition record_monitor (record : pydict) (d : dashboard) : res dashboard :=
  let host := get_none record "host" in
  if is_none host then Ok d
  else if negb (hashable host) then raise ETypeError "unhashable type"
  else match host_key d host with
       | Some i => Ok (set_views (alter (observe record) i (views d)) d)
       | None => Ok d
       end.

(** [if len(l) >= bound: del l[0]] and [l.append(x)]. *)
Definition push {A} (bound : nat) (l : list A) (x : A) : list A := (if decide (bound ≤ length l)%nat then drop 1 l else l) ++ [x].

Definition operation_entry (result : pydict) : pydict :=
  [(PStr "ts", get_none result "ts"); (PStr "op_type", get_or result "op_type" (PStr "get")); (PStr "host", get_none result "host");
   (PStr "uri", get_none result "uri"); (PStr "success", get_none result "success"); (PStr "exit_code", get_none result "exit_code");
   (PStr "down_hosts", get_or result "down_hosts" (PList [])); (PStr "phase", get_none result "phase")].
Definition launch_entry (op_type : string) (host : Z) (uri : string) : pydict :=
  [(PStr "ts", PNone); (PStr "op_type", PStr op_type); (PStr "host", PInt host); (PStr "uri", PStr uri); (PStr "success", PNone);
   (PStr "exit_code", PNone); (PStr "down_hosts", PList []); (PStr "phase", PNone)].

(** The retrievals among the kept operations, and those that succeeded. *)
Definition retrieval (o : pydict) : bool := in_strs (get_none o "op_type") ["get"; "sub"].
Definition succeeded (o : pydict) : bool := truthy (get_none o "success").
Definition total (ops : list pydict) : nat := length (List.filter retrieval ops).
Definition successes (ops : list pydict) : nat := length (List.filter succeeded (List.filter retrieval ops)).
Definition rate (ops : list pydict) : pyfloat :=
  if decide (0 < total ops)%nat then round3 (double_of_ratio (Z.of_nat (successes ops)) (Z.of_nat (total ops))) else FFin 0 0.
Definition history_entry (elapsed : pyfloat) (ops : list pydict) : pydict :=
  [(PStr "elapsed", PFloat elapsed); (PStr "total", PInt (Z.of_nat (total ops))); (PStr "success", PInt (Z.of_nat (successes ops))); (PStr "rate", PFloat (rate ops))].

(** [round(time.time() - self.started_at, 1)]. *)
Definition elapsed_at (now : pyfloat) (d : dashboard) : pyfloat := round1 (float_add now (float_neg (started_at d))).

(** [record_operation] and [record_launch]. *)
Definition record_operation (now : pyfloat) (result : pydict) (d : dashboard) : dashboard :=
  let ops := push MAX_OPERATIONS (operations d) (operation_entry result) in
  set_history (push MAX_HISTORY (success_history d) (history_entry (elapsed_at now d) ops)) (set_operations ops d).
Definition record_launch (op_type : string) (host : Z) (uri : string) (d : dashboard) : dashboard :=
  set_operations (push MAX_OPERATIONS (operations d) (launch_entry op_type host uri)) d.

(** * Snapshot *)

(** [l[-n:]]. *)
Definition last_of {A} (n : nat) (l : list A) : list A := drop (length l - n) l.
Definition host_entry (down : gset Z) (i : Z) (v : host_view) : pv * pv :=
  (PStr (str_Z i),
   PDict [(PStr "up", PBool (bool_decide (i ∉ down))); (PStr "is_cache", PBool (is_cache v)); (PStr "cefnetd_ok", PBool (eq_str (cefnetd_outcome v) "ok"));
          (PStr "csmgrd_ok", PBool (eq_str (csmgrd_outcome v) "ok")); (PStr "last_cefstatus", last_cefstatus v); (PStr "last_csmgrstatus", last_csmgrstatus v)]).
Definition hosts_out (down : gset Z) (d : dashboard) : pydict :=
  omap (λ i, host_entry down i <$> views d !! i) (range (host_count d)).
Definition snapshot (now : pyfloat) (down : list Z) (d : dashboard) : pydict :=
  let down_set : gset Z := list_to_set down in
  [(PStr "elapsed_sec", PFloat (elapsed_at now d));
   (PStr "meta", PDict [(PStr "seed", seed d); (PStr "host_count", PInt (host_count d)); (PStr "cache_nodes", PList (PInt <$> sorted_set (dash_caches d)))]);
   (PStr "hosts", PDict (hosts_out down_set d)); (PStr "operations", PList (PDict <$> last_of 200 (operations d))); (PStr "topology", PDict (topology d));
   (PStr "success_history", PList (PDict <$> last_of 300 (success_history d))); (PStr "down_hosts", PList (PInt <$> sorted_set down_set))].

(** * Histories *)

Inductive call := Monitored (record : pydict) | Operated (now : pyfloat) (result : pydict) | Launched (op_type : string) (host : Z) (uri : string) | Meshed (mesh : list raw_link).
(** One call; one that raises leaves the state as it is. *)
Definition handle (d : dashboard) (c : call) : dashboard :=
  match c with
  | Monitored record => match record_monitor record d with Ok d' => d' | _ => d end
  | Operated now result => record_operation now result d
  | Launched op_type host uri => record_launch op_type host uri d
  | Meshed mesh => set_topology mesh d
  end.
Definition handle_all (cs : list call) (d : dashboard) : dashboard := foldl handle d cs.

(** * Specification *)

(** Every operation of a history, and every point of its success rate: the rate of
    the last operations at that time. *)
Definition all_operations (cs : list call) : list pydict :=
  omap (λ c, match c with Operated _ result => Some (operation_entry result) | Launched t h u => Some (launch_entry t h u) | _ => None end) cs.
Definition history_at (d : dashboard) (cs : list call) (i : nat) : option pydict :=
  match cs !! i with
  | Some (Operated now _) => Some (history_entry (elapsed_at now d) (last_of MAX_OPERATIONS (all_operations (take (S i) cs))))
  | _ => None
  end.
Definition all_history (d : dashboard) (cs : list call) : list pydict := omap (history_at d cs) (seq 0 (length cs)).
(** The records of one host and type. *)
Definition seen_by (d : dashboard) (i : Z) (type_ : string) (cs : list call) : list pydict :=
  omap (λ c, match c with
             | Monitored r => if bool_decide (host_key d (get_none r "host") = Some i) && eq_str (get_none r "type") type_ && hashable (get_none r "host")
                              then Some r else None
             | _ => None end) cs.
Definition latest (field : string) (default_ : pv) (rs : list pydict) : pv := match last rs with Some r => get_or r field default_ | None => default_ end.

Lemma push_last {A} bound (l : list A) x : (0 < bound)%nat → push bound (last_of bound l) x = last_of bound (l ++ [x]).
Proof.
  intros Hb. unfold push, last_of. rewrite length_drop, length_app. simpl. case_decide as Hd.
  - rewrite drop_drop, drop_app_le by lia. do 2 f_equal. lia.
  - replace (length l - bound)%nat with 0%nat by lia. replace (length l + 1 - bound)%nat with 0%nat by lia. done.
Qed.
Lemma last_of_length {A} n (l : list A) : (length (last_of n l) ≤ n)%nat.
Proof. unfold last_of. rewrite length_drop. lia. Qed.
Lemma successes_le ops : (successes ops ≤ total ops)%nat.
Proof. unfold successes, total. apply filter_length_le. Qed.

Lemma omap_ext_in {A B} (f g : A → option B) (l : list A) : (∀ x, x ∈ l → f x = g x) → omap f l = omap g l.
Proof.
  induction l as [|x l IH]; intros Hfg; [done|]. csimpl. rewrite (Hfg x) by by left. rewrite IH; [done|]. intros y Hy. apply Hfg. by right.
Qed.

Section dashboard_lemmas.
Context (d0 : dashboard) (Hops : operations d0 = []) (Hhist : success_history d0 = []).

Lemma handle_keeps d c : host_count (handle d c) = host_count d ∧ dash_caches (handle d c) = dash_caches d ∧ started_at (handle d c) = started_at d ∧ seed (handle d c) = seed d.
Proof.
  destruct c; simpl; try done. unfold record_monitor. destruct (is_none _); [done|]. destruct (negb _); [done|]. by destruct (host_key _ _).
Qed.
Lemma handle_all_keeps cs : let d := handle_all cs d0 in host_count d = host_count d0 ∧ dash_caches d = dash_caches d0 ∧ started_at d = started_at d0 ∧ seed d = seed d0.
Proof.
  induction cs as [|c cs IH] using rev_ind; [done|]. unfold handle_all in *. simpl in *. rewrite foldl_snoc. destruct (handle_keeps (foldl handle d0 cs) c) as (-> & -> & -> & ->). done.
Qed.

Lemma handle_monitored d r : operations (handle d (Monitored r)) = operations d ∧ success_history (handle d (Monitored r)) = success_history d.
Proof. simpl. unfold record_monitor. destruct (is_none _); [done|]. destruct (negb _); [done|]. by destruct (host_key _ _). Qed.

Lemma all_operations_snoc cs c : all_operations (cs ++ [c]) = all_operations cs ++ all_operations [c].
Proof. apply omap_app. Qed.

Lemma operations_kept cs : operations (handle_all cs d0) = last_of MAX_OPERATIONS (all_operations cs).
Proof.
  induction cs as [|c cs IH] using rev_ind; [done|]. unfold handle_all in *. rewrite foldl_snoc, all_operations_snoc. destruct c as [r|now result|t h u|mesh].
  - rewrite (proj1 (handle_monitored _ _)), IH. simpl. by rewrite app_nil_r.
  - simpl. rewrite IH. by rewrite push_last by (unfold MAX_OPERATIONS; lia).
  - simpl. rewrite IH. by rewrite push_last by (unfold MAX_OPERATIONS; lia).
  - simpl. by rewrite IH, app_nil_r.
Qed.

Lemma history_prefix cs c i : (i < length cs)%nat → history_at d0 (cs ++ [c]) i = history_at d0 cs i.
Proof. intros Hi. unfold history_at. rewrite lookup_app_l by done. destruct (cs !! i) as [[]|]; try done. by rewrite take_app_le by lia. Qed.
Lemma all_history_snoc cs c : all_history d0 (cs ++ [c]) = all_history d0 cs ++ match history_at d0 (cs ++ [c]) (length cs) with Some e => [e] | None => [] end.
Proof.
  unfold all_history. rewrite length_app. simpl. rewrite seq_app, omap_app. f_equal.
  apply omap_ext_in. intros i Hi%elem_of_seq. apply history_prefix. lia.
Qed.
End dashboard_lemmas.

Section views.
Context (n : Z) (caches : gset Z) (sd : pv) (t0 : pyfloat).
Notation d0 := (DashboardState n caches sd t0).

Lemma history_kept cs : success_history (handle_all cs d0) = last_of MAX_HISTORY (all_history d0 cs).
Proof.
  induction cs as [|c cs IH] using rev_ind; [done|]. rewrite all_history_snoc. unfold history_at. rewrite lookup_app_r, Nat.sub_diag by done. simpl.
  unfold handle_all in *. rewrite foldl_snoc. destruct c as [r|now result|t h u|mesh].
  - rewrite (proj2 (handle_monitored _ _)), IH. by rewrite app_nil_r.
  - simpl. rewrite IH, push_last by (unfold MAX_HISTORY; lia). do 3 f_equal.
    destruct (handle_all_keeps d0 cs) as (_ & _ & Hs & _). unfold handle_all in Hs. f_equal; [unfold elapsed_at; by rewrite Hs|].
    rewrite (operations_kept d0 eq_refl cs : operations (foldl handle d0 cs) = _). rewrite push_last by (unfold MAX_OPERATIONS; lia).
    rewrite firstn_all2 by (rewrite length_app; simpl; lia). by rewrite all_operations_snoc.
  - simpl. by rewrite IH, app_nil_r.
  - simpl. by rewrite IH, app_nil_r.
Qed.

Lemma views_start i : 0 ≤ i < n → views d0 !! i = Some (unseen caches i).
Proof.
  intros Hi. apply elem_of_list_to_map.
  - rewrite <-list_fmap_compose. simpl. rewrite list_fmap_id. apply NoDup_range.
  - apply list_elem_of_fmap. exists i. split; [done|]. by apply elem_of_range.
Qed.

(** What the dashboard shows of a host is what was last recorded for it. *)
Definition shows (cs : list call) (i : Z) (v : host_view) : Prop :=
  last_cefstatus v = latest "output" (PStr "") (seen_by d0 i "cefstatus" cs) ∧ cefnetd_outcome v = latest "outcome" PNone (seen_by d0 i "cefstatus" cs) ∧
  last_csmgrstatus v = latest "output" (PStr "") (seen_by d0 i "csmgrstatus" cs) ∧ csmgrd_outcome v = latest "outcome" PNone (seen_by d0 i "csmgrstatus" cs) ∧
  is_cache v = bool_decide (i ∈ caches).

Lemma seen_by_snoc i t cs c : seen_by d0 i t (cs ++ [c]) = seen_by d0 i t cs ++ seen_by d0 i t [c].
Proof. apply omap_app. Qed.
Lemma seen_one i t r : seen_by d0 i t [Monitored r] =
  if bool_decide (host_key d0 (get_none r "host") = Some i) && eq_str (get_none r "type") t && hashable (get_none r "host") then [r] else [].
Proof. unfold seen_by. csimpl. by destruct (_ && _). Qed.
Lemma latest_snoc field def rs r : latest field def (rs ++ [r]) = get_or r field def.
Proof. unfold latest. by rewrite last_snoc. Qed.

Lemma host_key_none v : is_none v = true → host_key d0 v = None.
Proof.
  destruct v; try done. intros _. unfold host_key. induction (range _) as [|i l IH]; [done|]. simpl. done.
Qed.
Lemma host_key_count d v : host_count d = n → host_key d v = host_key d0 v.
Proof. unfold host_key. by intros ->. Qed.

Lemma views_latest cs i : 0 ≤ i < n → ∃ v, views (handle_all cs d0) !! i = Some v ∧ shows cs i v.
Proof.
  intros Hi. induction cs as [|c cs (v & Hv & Hs)] using rev_ind.
  { exists (unseen caches i). split; [by apply views_start|]. done. }
  pose proof (handle_all_keeps d0 cs) as (Hn & _). unfold handle_all in *. rewrite foldl_snoc. unfold shows. rewrite !seen_by_snoc.
  assert (Hsame : ∀ d', views d' !! i = Some v → (∀ t, seen_by d0 i t [c] = []) → ∃ v, views d' !! i = Some v ∧
    last_cefstatus v = latest "output" (PStr "") (seen_by d0 i "cefstatus" cs ++ seen_by d0 i "cefstatus" [c]) ∧ cefnetd_outcome v = latest "outcome" PNone (seen_by d0 i "cefstatus" cs ++ seen_by d0 i "cefstatus" [c]) ∧
    last_csmgrstatus v = latest "output" (PStr "") (seen_by d0 i "csmgrstatus" cs ++ seen_by d0 i "csmgrstatus" [c]) ∧ csmgrd_outcome v = latest "outcome" PNone (seen_by d0 i "csmgrstatus" cs ++ seen_by d0 i "csmgrstatus" [c]) ∧
    is_cache v = bool_decide (i ∈ caches)).
  { intros d' Hd' Hnil. exists v. split; [done|]. by rewrite !Hnil, !app_nil_r. }
  destruct c as [r|now result|t h u|mesh]; try (by apply Hsame).
  change (handle (foldl handle d0 cs) (Monitored r)) with (match record_monitor r (foldl handle d0 cs) with Ok d' => d' | _ => foldl handle d0 cs end). unfold record_monitor. rewrite (host_key_count _ _ Hn).
  destruct (is_none (get_none r "host")) eqn:En.
  { apply Hsame; [done|]. intros t. by rewrite seen_one, (host_key_none _ En). }
  destruct (hashable (get_none r "host")) eqn:Eh; cbn [negb].
  2:{ apply Hsame; [done|]. intros t. by rewrite seen_one, Eh, andb_false_r. }
  destruct (host_key d0 (get_none r "host")) as [j|] eqn:Ek.
  2:{ apply Hsame; [done|]. intros t. by rewrite seen_one, Ek. }
  destruct (decide (j = i)) as [->|Hne].
  2:{ apply Hsame; [unfold set_views; cbn [views]; by rewrite lookup_alter_ne|]. intros t. by rewrite seen_one, Ek, bool_decide_eq_false_2 by congruence. }
  exists (observe r v). split; [unfold set_views; cbn [views]; by rewrite lookup_alter_eq, Hv|]. rewrite !seen_one, Ek, Eh, bool_decide_eq_true_2 by done. unfold observe.
  destruct Hs as (H1 & H2 & H3 & H4 & H5). destruct (eq_str (get_none r "type") "cefstatus") eqn:E1.
  - assert (eq_str (get_none r "type") "csmgrstatus" = false) as ->. { apply eq_str_true in E1. by rewrite E1. }
    cbn [andb]. rewrite !latest_snoc, !app_nil_r. done.
  - destruct (eq_str (get_none r "type") "csmgrstatus") eqn:E2; cbn [andb]; rewrite ?latest_snoc, ?app_nil_r; done.
Qed.

(** The hosts of a snapshot: all of them, in order. *)
Lemma hosts_out_all cs down : hosts_out down (handle_all cs d0) =
  (λ i, host_entry down i (default (unseen caches i) (views (handle_all cs d0) !! i))) <$> range n.
Proof.
  unfold hosts_out. rewrite (proj1 (handle_all_keeps d0 cs)). simpl.
  assert (Hr : ∀ i, i ∈ range n → 0 ≤ i < n) by (intros i; by rewrite elem_of_range). revert Hr.
  generalize (range n). intros l Hr. induction l as [|i l IH]; [done|]. simpl. destruct (views_latest cs i) as (v & -> & _); [apply Hr; by left|]. simpl.
  f_equal. apply IH. intros j Hj. apply Hr. by right.
Qed.
End views.

(** * Theorem *)

(** The pairs of the topology: those that share a link, each once. *)
Lemma new_pairs_spec seen es : NoDup (new_pairs seen es) ∧ ∀ e, e ∈ new_pairs seen es ↔ e ∈ es ∧ e ∉ seen.
Proof.
  revert seen. induction es as [|e es IH]; intros seen; simpl; [split; [constructor|set_solver]|].
  case_bool_decide as He; [destruct (IH seen) as [Hn Hs]|destruct (IH (e :: seen)) as [Hn Hs]].
  - split; [done|]. intros e'. rewrite Hs, elem_of_cons. naive_solver.
  - split; [constructor; [|done]; rewrite Hs; set_solver|]. intros e'. rewrite elem_of_cons, Hs, not_elem_of_cons, elem_of_cons.
    destruct (decide (e' = e)) as [->|]; naive_solver.
Qed.

(** After any sequence of calls - they run under a lock, so any interleaving of
    the threads is one - the dashboard holds the last 1000 operations in order, and
    of the success rate its last 300 points, each computed over the operations the
    dashboard held when it was recorded; it shows for every host what was last
    recorded for it, "ok" only when that is the last outcome; and a snapshot has every
    host once, in order, up unless it is down, and at most the last 200 operations. *)
Lemma dashboard_recent n caches sd t0 cs :
  let d0 := DashboardState n caches sd t0 in
  let d := handle_all cs d0 in
  operations d = last_of MAX_OPERATIONS (all_operations cs) ∧ success_history d = last_of MAX_HISTORY (all_history d0 cs) ∧
  (∀ i, 0 ≤ i < n → ∃ v, views d !! i = Some v ∧ shows n caches sd t0 cs i v) ∧
  (∀ mesh, NoDup (topology_edges mesh) ∧ ∀ a b, (a, b) ∈ topology_edges mesh ↔ ∃ l, l ∈ TopologyModel mesh ∧ (a, b) ∈ host_pairs (hosts l)) ∧
  (∀ now down, let hosts := hosts_out (list_to_set down) d in
    dget (snapshot now down d) "hosts" = Some (PDict hosts) ∧ hosts.*1 = (PStr ∘ str_Z) <$> range n ∧
    (∀ i, 0 ≤ i < n → ∃ v, views d !! i = Some v ∧ host_entry (list_to_set down) i v ∈ hosts) ∧
    dget (snapshot now down d) "operations" = Some (PList (PDict <$> last_of 200 (all_operations cs)))).
Proof.
  intros d0 d. split_and!.
  - by apply operations_kept.
  - apply history_kept.
  - apply views_latest.
  - intros mesh. destruct (new_pairs_spec [] (fst <$> edges (TopologyModel mesh))) as [Hn Hs]. split; [done|]. intros a b. unfold topology_edges. rewrite Hs, list_elem_of_fmap. split.
    + intros [([[x y] l] & [= -> ->] & He) _]. apply elem_of_edges in He. by exists l.
    + intros (l & Hl & Hp). split; [|by intros ?%elem_of_nil]. exists (a, b, l). split; [done|]. by apply elem_of_edges.
  - intros now down hosts. split_and!; [reflexivity| | |].
    + unfold hosts, d, d0. rewrite hosts_out_all, <-list_fmap_compose. reflexivity.
    + intros i Hi. destruct (views_latest n caches sd t0 cs i Hi) as (v & Hv & _). exists v. split; [done|]. unfold hosts, d, d0. rewrite hosts_out_all.
      apply list_elem_of_fmap. exists i. rewrite Hv. split; [done|]. by apply elem_of_range.
    + assert (Hop : dget (snapshot now down d) "operations" = Some (PList (PDict <$> last_of 200 (operations d)))) by reflexivity.
      rewrite Hop. unfold d. rewrite operations_kept by done. do 3 f_equal. unfold last_of. rewrite drop_drop, length_drop. f_equal. unfold MAX_OPERATIONS. lia.
Qed.

Example demo_dashboard :
  let d := handle_all [Meshed []; Operated (FFin 3 0) [(PStr "op_type", PStr "get"); (PStr "success", PBool true)]; Launched "put" 0 "ccnx:/a";
                       Operated (FFin 4 0) [(PStr "op_type", PStr "sub"); (PStr "success", PBool false)];
                       Monitored [(PStr "type", PStr "cefstatus"); (PStr "host", PInt 1); (PStr "output", PStr "faces"); (PStr "outcome", PStr "ok")]]
             (DashboardState 2 {[1]} PNone (FFin 1 0)) in
  length (operations d) = 3%nat ∧ ((λ e, (get_none e "total", get_none e "success")) <$> success_history d) = [(PInt 1, PInt 1); (PInt 2, PInt 1)] ∧
  (cefnetd_outcome <$> views d !! 1) = Some (PStr "ok") ∧ (cefnetd_outcome <$> views d !! 0) = Some PNone.
Proof. vm_compute. done. Qed.
