(* ===== verification/Scenarios.v ===== *)
(** Component: the small scenarios (src/scenarios/linear.py, mesh.py, connect.py,
    config_driven_mesh.py) with the fixed topologies of src/runtime/topo.py: their
    constructor checks, the line with its addresses and FIB entries, the transfer they
    run, the publications of the connect scenario and the log scopes. *)
From S2P Require Import Prelude PyValue StateMonad Topology Addressing Events Artifacts CefArgv NetConfig Topo CachePlan Lifecycle EventBatch.
Local Open Scope Z_scope.

(** * Fixed topologies *)

(** The hosts, the switches and the links in the order they are added; the k-th link
    of a host is its interface k. *)
Record topology := mkTopology { t_hosts : list Z; t_switches : list Z; t_links : list (Z * Z) }.

(** [LineTopo]: switch [i] between hosts [i] and [i + 1]. *)
Definition LineTopo (hosts : Z) : topology :=
  mkTopology (range hosts) (range (hosts - 1)) (range (hosts - 1) ≫= λ i, [(i, i); (i, i + 1)]).
(** [SimpleLinkTopo]: fewer than three hosts raise [IndexError]. *)
Definition SimpleLinkTopo (n : Z) : res topology :=
  if n <? 3 then raise EIndexError "list index out of range"
  else Ok (mkTopology (range n) [0; 1] [(0, 0); (0, 1); (1, 1); (1, 2)]).

(** The interfaces: host, number and switch. *)
Fixpoint interfaces (ports : gmap Z Z) (links : list (Z * Z)) : list (Z * Z * Z) :=
  match links with
  | [] => []
  | (s, h) :: links => let port := default 0 (ports !! h) in (h, port, s) :: interfaces (<[h := port + 1]> ports) links
  end.

Definition max_possible_links (host_num : Z) : Z := host_num * (host_num - 1) / 2.
Definition min_required_links (host_num : Z) : Z := host_num - 1.
Definition min_required_switches (host_num switch_capacity : Z) : res Z :=
  if switch_capacity <? 2 then raise EValueError "switch_capacity must be at least 2"
  else Ok (Z.max 1 ((host_num + switch_capacity - 1) / switch_capacity)).

(** * Constructors *)

Definition sys_exit {A} (msg : string) : res A := raise ESystemExit msg.
Definition LinearScenario_init (host_num : Z) : res () := if host_num <? 2 then sys_exit "host count must be at least 2" else Ok ().
Definition MeshScenario_init (host_num swhich_num k_paths : Z) : res () :=
  if host_num <? 3 then sys_exit "host count must be at least 3"
  else if k_paths <? 1 then sys_exit "k must be at least 1"
  else if swhich_num <? 2 then sys_exit "link count must be at least 2"
  else if max_possible_links host_num <? swhich_num then sys_exit ("link count must be at most " +s+ str_Z (max_possible_links host_num))
  else if swhich_num <? min_required_links host_num
  then sys_exit ("link count must be at least " +s+ str_Z (min_required_links host_num) +s+ " to cover all hosts")
  else Ok ().

(** [_csmgrd_host_ids]; the scopes of [daemon_log_collection_scope] are the hosts
    whose directory was generated. *)
Definition csmgrd_host_ids (host_num : Z) (roles : list (Z * NodeRole)) : list Z := List.filter (role_caches roles) (range host_num).
Record log_scope := mkLogScope { ls_idx : Z; ls_dir : string; ls_csmgrd : bool }.
Definition daemon_log_collection_scope (host_num : Z) (generated_node_dirs : list string) (runs_csmgrd : Z → bool) : list log_scope :=
  omap (λ i, (λ dir, mkLogScope i dir (runs_csmgrd i)) <$> generated_node_dirs !! Z.to_nat i) (range host_num).

(** * The line *)

Section line.
Context (reply : history → command → option Z + exn).

(** One address, and [_set_ip_addr]: a host's left link, then its right one. *)
Definition set_address (scheme : AddressingScheme) (subnet idx eth : Z) : M history () :=
  ip ← lift (host_ip scheme subnet idx);
  run_command reply (ifconfig idx eth ip) ≫= λ _, mret ().
Definition set_host_addr (scheme : AddressingScheme) (host_num idx : Z) : M history () :=
  (if 0 <? idx then set_address scheme (idx - 1) idx 0 else mret ()) ≫= λ _,
  if idx <? host_num - 1 then set_address scheme idx idx (if 0 <? idx then 1 else 0) else mret ().
Definition set_ip_addr (scheme : AddressingScheme) (host_num : Z) : M history () := for_each (set_host_addr scheme host_num) (range host_num).

(** [_set_fib]: toward the last host. *)
Definition set_host_fib (scheme : AddressingScheme) (idx : Z) : M history () :=
  ip ← lift (host_ip scheme idx (idx + 1));
  cefroute_add reply idx "ccnx:/test" (PStr "udp") ip ≫= λ _, mret ().
Definition set_fib (scheme : AddressingScheme) (host_num : Z) : M history () := for_each (set_host_fib scheme) (range (host_num - 1)).
End line.

(** * Transfers *)

(** A content tool run to its end, with its log; its return code, or the exception of
    the runner. *)
Record transfer := mkTransfer { tr_node : string; tr_argv : list string; tr_log : string }.
Notation transfers := (list (transfer * (option Z + exn))).

Section experiment.
Context `{FloatRepr} (reply : transfers → transfer → option Z + exn) (run_dir : string).

(** [str(self.run_dir / name)] of a normalised directory. *)
Definition under (name : string) : string := if bool_decide (run_dir = ".") then name else run_dir +s+ "/" +s+ name.
Definition run_transfer (t : transfer) : M transfers (option Z) := λ w, (w ++ [(t, reply w t)], reply w t).
(** [exit_code = run(...); if exit_code != 0: sys.exit(1)]. *)
Definition transfer_or_exit (t : transfer) : M transfers () :=
  exit_code ← run_transfer t;
  if bool_decide (exit_code = Some 0) then mret () else throw (Exn ESystemExit "1").

Definition put (host : Z) (uri : string) (expiry cache_time : pv) : transfer :=
  mkTransfer (host_node host) (build_cefputfile_argv uri "./sample-putfile" (host_node host) PNone PNone expiry cache_time PNone PNone)
    (under (content_log_name "cefputfile" "eval" host uri)).
Definition get (host : Z) (uri : string) : transfer :=
  mkTransfer (host_node host) (build_cefgetfile_argv uri (under ("recvfile_at_" +s+ host_node host)) (host_node host) (PBool false) PNone PNone PNone PNone (PBool false))
    (under (content_log_name "cefgetfile" "eval" host uri)).

(** [run_experiment] of the line: the last host publishes, host 0 retrieves. *)
Definition linear_experiment (host_num : Z) : M transfers () :=
  transfer_or_exit (put (host_num - 1) "ccnx:/test" (PInt 3000) (PInt 3000)) ≫= λ _,
  transfer_or_exit (get 0 "ccnx:/test").

(** [run_experiment] of the mesh: a neighbour of the publisher retrieves. *)
Definition mesh_experiment (mesh : list raw_link) (host_num : Z) : M transfers () :=
  let publisher := host_num - 1 in
  let uri := "ccnx:/test/example" +s+ str_Z (publisher + 1) +s+ "/test.py" in
  consumer ← lift (peer_of (TopologyModel mesh) publisher);
  transfer_or_exit (put publisher uri PNone PNone) ≫= λ _,
  transfer_or_exit (get consumer uri).
End experiment.

(** * Connect *)

(** [run_experiment]: the publications, for at most a minute; what is not finished is
    reported, and the failures of the stops are raised. *)
Definition publication_batch (publication_events : list pydict) : EventBatchSpec :=
  mkBatch publication_events (Some 60) "warn" "publication event scheduling" "publication seed operations".
Definition connect_experiment (breply : batch_world → bop → banswer) (publication_events : list pydict) : Prog batch_world () :=
  if bool_decide (publication_events = []) then mret ()
  else
    r ← run_event_batch breply (publication_batch publication_events);
    match stop_failures r with [] => mret () | fs => propagate_failures None fs end.

(** * The line is wired *)

Section line_lemmas.
Context (reply : history → command → option Z + exn) (Hreply : obliging reply).

Definition line_ip (scheme : AddressingScheme) (subnet host : Z) : string := dotted (oct0 scheme) (oct1 scheme) (oct2 scheme + subnet) (host + 1).
(** The scheme has addresses for the whole line. *)
Definition covers (scheme : AddressingScheme) (n : Z) : Prop := 0 ≤ oct2 scheme ∧ oct2 scheme + (n - 2) ≤ 255 ∧ n ≤ MAX_HOST_INDEX + 1.
Definition left_address (scheme : AddressingScheme) (i : Z) : command := ifconfig i 0 (line_ip scheme (i - 1) i).
Definition right_address (scheme : AddressingScheme) (i : Z) : command := ifconfig i (if 0 <? i then 1 else 0) (line_ip scheme i i).
Definition line_route (scheme : AddressingScheme) (i : Z) : command :=
  mkCommand (host_node i) ["cefroute"; "add"; "ccnx:/test"; "udp"; line_ip scheme i (i + 1); "-d"; "./" +s+ host_node i].

Lemma line_ip_ok scheme n sn h : covers scheme n → 0 ≤ sn ≤ n - 2 → 0 ≤ h < n → host_ip scheme sn h = Ok (line_ip scheme sn h).
Proof. intros (? & ? & ?) ? ?. apply host_ip_Ok. unfold line_ip. split_and!; done || lia. Qed.

Lemma seqZ_step j m : seqZ j (Z.of_nat (S m)) = j :: seqZ (j + 1) (Z.of_nat m).
Proof. rewrite seqZ_cons by lia. do 2 f_equal; lia. Qed.

(** The interfaces of a line, left to right. *)
Lemma line_interfaces_from m : ∀ j ports, (∀ k, j < k → ports !! k = None) → default 0 (ports !! j) = (if 0 <? j then 1 else 0) → 0 ≤ j →
  interfaces ports (seqZ j (Z.of_nat m) ≫= λ i, [(i, i); (i, i + 1)]) = seqZ j (Z.of_nat m) ≫= λ i, [(i, (if 0 <? i then 1 else 0), i); (i + 1, 0, i)].
Proof.
  induction m as [|m IH]; intros j ports Hnew Hj Hpos; [done|]. rewrite seqZ_step. rewrite !bind_cons. cbn [app interfaces]. rewrite Hj.
  rewrite lookup_insert_ne by lia. rewrite (Hnew (j + 1)) by lia. cbn [default]. do 2 f_equal. apply IH; [|by rewrite lookup_insert_eq; destruct (Z.ltb_spec 0 (j + 1)); [|lia]|lia].
  intros k Hk. rewrite !lookup_insert_ne by lia. apply Hnew. lia.
Qed.
Lemma line_interfaces n : 1 ≤ n → interfaces ∅ (t_links (LineTopo n)) = range (n - 1) ≫= λ i, [(i, (if 0 <? i then 1 else 0), i); (i + 1, 0, i)].
Proof. intros Hn. unfold LineTopo, range. simpl. rewrite <-(Z2Nat.id (n - 1)) by lia. by apply line_interfaces_from. Qed.

(** The addresses of a host, in the order of [_set_ip_addr]. *)
Definition host_addresses (scheme : AddressingScheme) (n i : Z) : list command :=
  (if 0 <? i then [left_address scheme i] else []) ++ (if i <? n - 1 then [right_address scheme i] else []).
Lemma addresses_by_link scheme m : ∀ j n, 0 ≤ j → n = j + 1 + Z.of_nat m →
  (if j <? n - 1 then [right_address scheme j] else []) ++ (seqZ (j + 1) (Z.of_nat m) ≫= host_addresses scheme n)
  = seqZ j (Z.of_nat m) ≫= λ i, [right_address scheme i; left_address scheme (i + 1)].
Proof.
  induction m as [|m IH]; intros j n Hj Hn; [destruct (Z.ltb_spec j (n - 1)); [lia|done]|]. rewrite !seqZ_step, !bind_cons. destruct (Z.ltb_spec j (n - 1)); [|lia].
  rewrite <-(IH (j + 1) n) by lia. unfold host_addresses at 1. destruct (Z.ltb_spec 0 (j + 1)); [|lia]. done.
Qed.
Lemma line_addresses scheme n : 1 ≤ n → (range n ≫= host_addresses scheme n) = range (n - 1) ≫= λ i, [right_address scheme i; left_address scheme (i + 1)].
Proof.
  intros Hn. unfold range. assert (seqZ 0 n = 0 :: seqZ (0 + 1) (Z.of_nat (Z.to_nat (n - 1)))) as -> by (rewrite <-seqZ_step; f_equal; lia).
  assert (seqZ 0 (n - 1) = seqZ 0 (Z.of_nat (Z.to_nat (n - 1)))) as -> by (f_equal; lia). rewrite bind_cons, <-(addresses_by_link scheme _ 0 n) by lia. done.
Qed.

Lemma set_address_runs scheme n sn h eth : covers scheme n → 0 ≤ sn ≤ n - 2 → 0 ≤ h < n →
  runs (set_address reply scheme sn h eth) [ifconfig h eth (line_ip scheme sn h)] ().
Proof.
  intros Hc Hs Hh. eapply runs_lift; [by eapply line_ip_ok|]. intros w. unfold mbind, M_bind.
  destruct (run_command_cases reply Hreply (ifconfig h eth (line_ip scheme sn h)) w) as (rc & -> & _). by eexists.
Qed.
Lemma set_ip_addr_runs scheme n : covers scheme n → 1 ≤ n → runs (set_ip_addr reply scheme n) (range n ≫= host_addresses scheme n) ().
Proof.
  intros Hc Hn. apply runs_for_each. intros i Hi%elem_of_range. unfold host_addresses. apply (runs_bind _ _ _ ()).
  - destruct (Z.ltb_spec 0 i); [|apply runs_ret]. apply (set_address_runs scheme n (i - 1)); [done|lia..].
  - destruct (Z.ltb_spec i (n - 1)); [|apply runs_ret]. apply (set_address_runs scheme n i); [done|lia..].
Qed.
Lemma set_fib_runs scheme n : covers scheme n → runs (set_fib reply scheme n) (line_route scheme <$> range (n - 1)) ().
Proof.
  intros Hc. apply runs_for_each_one. intros i Hi%elem_of_range. eapply runs_lift; [apply (line_ip_ok scheme n i (i + 1)); [done|lia..]|].
  intros w. unfold cefroute_add, cefroute, mbind, M_bind, lift. assert (ValidateEvents.normalize_route_protocol (PStr "udp") = Ok "udp") as -> by reflexivity.
  destruct (run_command_cases reply Hreply (line_route scheme i) w) as (rc & E & _). unfold line_route in E. rewrite E. by eexists.
Qed.

(** The node a host forwards to: the one whose interface has the next-hop address. *)
Definition next_node (addresses routes : list command) (node_ : string) : option string :=
  c ← List.find (λ c, bool_decide (node c = node_)) routes;
  ip ← argv c !! 4%nat;
  a ← List.find (λ a, bool_decide (argv a !! 2%nat = Some ip)) addresses;
  Some (node a).
Fixpoint follow (addresses routes : list command) (k : nat) (node_ : string) : option string :=
  match k with O => Some node_ | S k => next ← next_node addresses routes node_; follow addresses routes k next end.

Lemma find_unique {A} (f : A → bool) l x : x ∈ l → f x = true → (∀ y, y ∈ l → f y = true → y = x) → List.find f l = Some x.
Proof.
  intros Hin Hx Hu. destruct (List.find f l) as [y|] eqn:E.
  - apply List.find_some in E as [Hy Hf]. f_equal. apply Hu; [by apply list_elem_of_In|done].
  - exfalso. apply list_elem_of_In in Hin. by rewrite (List.find_none _ _ E _ Hin) in Hx.
Qed.

Lemma next_node_line scheme n i : covers scheme n → 0 ≤ i < n - 1 →
  next_node (range (n - 1) ≫= λ i, [right_address scheme i; left_address scheme (i + 1)]) (line_route scheme <$> range (n - 1)) (host_node i) = Some (host_node (i + 1)).
Proof.
  intros Hc Hi. unfold next_node. rewrite (find_unique _ _ (line_route scheme i)).
  - cbn [mbind option_bind argv line_route lookup list_lookup].
    rewrite (find_unique _ _ (left_address scheme (i + 1))); [done| | |].
    + apply list_elem_of_bind. exists i. split; [right; by left|by apply elem_of_range].
    + apply bool_decide_eq_true_2. unfold left_address. cbn. by replace (i + 1 - 1) with i by lia.
    + intros y (j & Hy & Hj%elem_of_range)%list_elem_of_bind He%bool_decide_eq_true. 
      assert (Hinj : ∀ sn h, 0 ≤ sn ≤ n - 2 → 0 ≤ h < n → line_ip scheme sn h = line_ip scheme i (i + 1) → sn = i ∧ h = i + 1).
      { intros sn h Hsn Hh E. apply (host_ip_inj scheme sn h i (i + 1) (line_ip scheme sn h)); [by eapply line_ip_ok|]. rewrite E. eapply line_ip_ok; [done|lia..]. }
      rewrite !elem_of_cons in Hy. destruct Hy as [->|[->|Hy%elem_of_nil]]; [| |done].
      * unfold right_address, ifconfig in He. cbn in He. injection He as He. destruct (Hinj j j ltac:(lia) ltac:(lia) He). lia.
      * unfold left_address, ifconfig in He. cbn in He. injection He as He. replace (j + 1 - 1) with j in He by lia. destruct (Hinj j (j + 1) ltac:(lia) ltac:(lia) He) as [-> _]. done.
  - apply list_elem_of_fmap. exists i. split; [done|by apply elem_of_range].
  - by apply bool_decide_eq_true_2.
  - intros y (j & -> & _)%list_elem_of_fmap He%bool_decide_eq_true. unfold line_route, host_node in He |- *. cbn in He. injection He as He%str_Z_inj. by subst.
Qed.

Lemma follow_line scheme n k : covers scheme n → ∀ i, 0 ≤ i → i + Z.of_nat k ≤ n - 1 →
  follow (range (n - 1) ≫= λ i, [right_address scheme i; left_address scheme (i + 1)]) (line_route scheme <$> range (n - 1)) k (host_node i) = Some (host_node (i + Z.of_nat k)).
Proof.
  intros Hc. induction k as [|k IH]; intros i Hi Hk; [simpl; by rewrite Z.add_0_r|]. cbn [follow]. rewrite next_node_line by (done || lia).
  cbn [mbind option_bind]. rewrite IH by lia. do 2 f_equal. lia.
Qed.

(** Setting the addresses of a line the scheme does not cover raises. *)
Lemma set_ip_addr_raises scheme n w : ¬ covers scheme n → 2 ≤ n → 0 ≤ oct2 scheme → ∃ w' e, set_ip_addr reply scheme n w = (w', inr e).
Proof.
  intros Hc Hn Ho. destruct (set_ip_addr reply scheme n w) as [w' [[]|e]] eqn:E; [|by exists w', e]. exfalso.
  assert (Hall : ∀ xs w w', for_each (set_host_addr reply scheme n) xs w = (w', inl ()) → ∀ x, x ∈ xs → ∃ w1 w2, set_host_addr reply scheme n x w1 = (w2, inl ())).
  { clear. induction xs as [|x xs IH]; intros w w' E y Hy; [by apply elem_of_nil in Hy|]. cbn [for_each] in E. unfold mbind, M_bind in E.
    destruct (set_host_addr reply scheme n x w) as [w1 [[]|e]] eqn:E1; [|done]. apply elem_of_cons in Hy as [->|Hy]; [by exists w, w1|by eapply IH]. }
  destruct (Hall _ _ _ E (n - 1) ltac:(apply elem_of_range; lia)) as (w1 & w2 & E1). unfold set_host_addr, set_address, mbind, M_bind, lift in E1.
  destruct (Z.ltb_spec 0 (n - 1)); [|lia]. destruct (host_ip scheme (n - 1 - 1) (n - 1)) as [ip|x|] eqn:Eip; [|done..].
  apply host_ip_Ok in Eip as (? & ? & _). apply Hc. unfold covers. lia.
Qed.
End line_lemmas.

(** * Transfers *)

Section transfer_lemmas.
Context (reply : transfers → transfer → option Z + exn).

(** What two transfers in a row leave: the second is run only after the first ended
    with status 0, and the scenario returns only when both did. *)
Definition in_turn (first second : transfer) (w : transfers) (out : () + exn) : Prop :=
  (∃ a, w = [(first, a)] ∧ a ≠ inl (Some 0) ∧ out = inr (match a with inr e => e | _ => Exn ESystemExit "1" end)) ∨
  ∃ a, w = [(first, inl (Some 0)); (second, a)] ∧ out = match a with inl (Some 0) => inl () | inl _ => inr (Exn ESystemExit "1") | inr e => inr e end.

Lemma transfer_or_exit_eq t w : transfer_or_exit reply t w = (w ++ [(t, reply w t)],
  match reply w t with inl (Some 0) => inl () | inl _ => inr (Exn ESystemExit "1") | inr e => inr e end).
Proof.
  unfold transfer_or_exit, run_transfer, mbind, M_bind. destruct (reply w t) as [rc|e]; [|done].
  case_bool_decide as Hrc; [by rewrite Hrc|]. by destruct rc as [[| |]|].
Qed.
Lemma transfers_in_turn first second w out : (transfer_or_exit reply first ≫= λ _, transfer_or_exit reply second) [] = (w, out) → in_turn first second w out.
Proof.
  unfold mbind, M_bind. rewrite transfer_or_exit_eq. simpl. destruct (reply [] first) as [[[|p|p]|]|e] eqn:E1; try (intros [= <- <-]; left; by eexists).
  rewrite transfer_or_exit_eq. simpl. intros [= <- <-]. right. by eexists.
Qed.
End transfer_lemmas.

(** C33: the linear scenario on [n] hosts: when the scheme has addresses for the line,
    and the runner raises nothing, every interface of the line gets exactly one
    address, that of its host on the subnet of its switch, and following the installed
    entries from any host reaches the last one, host by host, through addresses of the
    next host; when it has not, configuring raises.  The experiment publishes on the
    last host and retrieves on host 0, in turn. *)
Theorem line_delivers `{FloatRepr} reply scheme n treply run_dir : obliging reply → LinearScenario_init n = Ok () → 0 ≤ oct2 scheme →
  (covers scheme n → ∃ w1 w2, set_ip_addr reply scheme n [] = (w1, inl ()) ∧ set_fib reply scheme n w1 = (w1 ++ w2, inl ()) ∧
    w1.*1 = (λ x, ifconfig x.1.1 x.1.2 (line_ip scheme x.2 x.1.1)) <$> interfaces ∅ (t_links (LineTopo n)) ∧
    (∀ i k, 0 ≤ i → i + Z.of_nat k ≤ n - 1 → follow w1.*1 w2.*1 k (host_node i) = Some (host_node (i + Z.of_nat k)))) ∧
  (¬ covers scheme n → ∃ w e, set_ip_addr reply scheme n [] = (w, inr e)) ∧
  (∀ w out, linear_experiment treply run_dir n [] = (w, out) →
     in_turn (put run_dir (n - 1) "ccnx:/test" (PInt 3000) (PInt 3000)) (get run_dir 0 "ccnx:/test") w out).
Proof.
  intros Hr Hn Ho. unfold LinearScenario_init in Hn. destruct (Z.ltb_spec n 2) as [|Hn2]; [done|]. split_and!.
  - intros Hc. destruct (set_ip_addr_runs reply Hr scheme n Hc ltac:(lia) []) as (w1 & E1 & C1). destruct (set_fib_runs reply Hr scheme n Hc w1) as (w2 & E2 & C2).
    rewrite line_addresses in C1 by lia. exists w1, w2. split_and!; [done|done| |].
    + rewrite C1, line_interfaces by lia. generalize (range (n - 1)). intros l. induction l as [|i l IH]; [done|]. rewrite !bind_cons, fmap_app, <-IH. unfold left_address, right_address. simpl.
      by replace (i + 1 - 1) with i by lia.
    + intros i k Hi Hk. rewrite C1, C2. by apply follow_line.
  - intros Hc. by apply set_ip_addr_raises.
  - intros w out. apply transfers_in_turn.
Qed.

(** The mesh scenario publishes on the last host and retrieves on one that shares a
    link with it, in turn, or finds no such host. *)
Lemma mesh_transfers `{FloatRepr} treply run_dir mesh n w out : mesh_experiment treply run_dir mesh n [] = (w, out) →
  (w = [] ∧ ∃ e, out = inr e) ∨
  ∃ consumer l, consumer ≠ n - 1 ∧ l ∈ TopologyModel mesh ∧ n - 1 ∈ hosts l ∧ consumer ∈ hosts l ∧
    let uri := "ccnx:/test/example" +s+ str_Z n +s+ "/test.py" in
    in_turn (put run_dir (n - 1) uri PNone PNone) (get run_dir consumer uri) w out.
Proof.
  unfold mesh_experiment. unfold mbind at 1, M_bind at 1, lift. destruct (peer_of (TopologyModel mesh) (n - 1)) as [c|e|] eqn:Ep.
  - intros E. right. apply peer_of_Ok in Ep as (Hne & l & Hl & Hp & Hc). exists c, l. split_and!; [done..|]. replace (n - 1 + 1) with n in E by lia. by apply transfers_in_turn in E.
  - intros [= <- <-]. left. split; [done|]. by exists e.
  - intros [= <- <-]. left. split; [done|]. by eexists.
Qed.

(** The accepted link counts of the mesh scenario lie between a spanning tree and the
    complete graph. *)
Lemma mesh_parameters n links k : MeshScenario_init n links k = Ok () ↔ 3 ≤ n ∧ 1 ≤ k ∧ 2 ≤ links ∧ n - 1 ≤ links ≤ n * (n - 1) / 2.
Proof.
  unfold MeshScenario_init, max_possible_links, min_required_links, sys_exit. repeat case_match; rewrite ?Z.ltb_lt, ?Z.ltb_ge in *; split; try done; lia.
Qed.

(** The scopes: one per generated directory of a host, in order. *)
Lemma scopes_spec n dirs csmgrd : 0 ≤ n → daemon_log_collection_scope n dirs csmgrd = imap (λ i dir, mkLogScope (Z.of_nat i) dir (csmgrd (Z.of_nat i))) (take (Z.to_nat n) dirs).
Proof.
  intros Hn. unfold daemon_log_collection_scope, range. rewrite <-(Z2Nat.id n) at 1 by done. generalize (Z.to_nat n). clear n Hn.
  assert (Hg : ∀ m j, omap (λ i, (λ dir, mkLogScope i dir (csmgrd i)) <$> dirs !! Z.to_nat i) (seqZ (Z.of_nat j) (Z.of_nat m))
    = imap (λ i dir, mkLogScope (Z.of_nat (j + i)) dir (csmgrd (Z.of_nat (j + i)))) (take m (drop j dirs))).
  { induction m as [|m IH]; intros j; [done|]. rewrite seqZ_step. replace (Z.of_nat j + 1) with (Z.of_nat (S j)) by lia. csimpl. rewrite IH, Nat2Z.id.
    destruct (dirs !! j) as [d|] eqn:Ed.
    - rewrite (drop_S _ _ _ Ed). csimpl. rewrite Nat.add_0_r. f_equal. apply imap_ext. intros i x _. simpl. by rewrite Nat.add_succ_r.
    - apply lookup_ge_None in Ed. csimpl. rewrite !drop_ge by lia. by rewrite !take_nil. }
  intros m. apply (Hg m 0%nat).
Qed.

(** * Example *)

#[local] Instance toy_number : FloatRepr := λ _, "0.0".
Definition willing (_ : transfers) (_ : transfer) : option Z + exn := inl (Some 0).

(** Four hosts: host 0 reaches host 3 in three hops. *)
Lemma line_delivers_witness : ∃ w1 w2, set_ip_addr agreeing default_scheme 4 [] = (w1, inl ()) ∧ set_fib agreeing default_scheme 4 w1 = (w1 ++ w2, inl ()) ∧
  length w1 = 6%nat ∧ follow w1.*1 w2.*1 3 "h0" = Some "h3" ∧ linear_experiment willing "/run" 4 [] = ((linear_experiment willing "/run" 4 []).1, inl ()).
Proof.
  destruct (line_delivers agreeing default_scheme 4 willing "/run") as (Hc & _ & _); [intros w c; by exists (Some 0)|reflexivity|simpl; lia|].
  destruct Hc as (w1 & w2 & E1 & E2 & Ew & Hf); [unfold covers, MAX_HOST_INDEX; simpl; lia|]. exists w1, w2. split_and!; [exact E1|exact E2| |exact (Hf 0 3%nat ltac:(lia) ltac:(lia))|reflexivity].
  apply (f_equal length) in Ew. rewrite !length_fmap in Ew. rewrite Ew. vm_compute. reflexivity.
Defined.
