(* ===== verification/Daemons.v ===== *)
(** Component: the control of the Cefore daemons and the calls of its tools
    (src/runtime/cefore.py) with the fleet that drives them
    (src/runtime/daemon_fleet.py) and the debug collectors (src/runtime/debug.py).
    Commands, pauses and the files below /tmp are the state; an environment answers
    the commands and tells the time.  Times are integers in milliseconds. *)
From S2P Require Import Prelude PyValue StateMonad CommandRunner CefArgv DaemonLogs.
Local Open Scope Z_scope.

(** * Commands *)

(** A call of the command runner: [run], or [start] without waiting. *)
Record invocation := mkInvocation {
  i_node : string;
  i_argv : list string;
  i_cwd : option string;
  i_log : option string;
  i_timeout : pv;
  i_cancellable : bool;
  i_stderr : bool;
}.
Inductive dmop := RunCommand (i : invocation) | StartCommand (i : invocation) | Pause (ms : Z) | Report (msg : string).
Record daemons := mkDaemons { dm_trace : list (dmop * (CommandResult + exn)); dm_tmp : gmap string string }.
Notation C := (M daemons).

Definition host_node (idx : Z) : string := "h" +s+ str_Z idx.
Definition node_path (idx : Z) : string := "./" +s+ host_node idx.
Definition devnull : string := "/dev/null".
(** A command with its output discarded, in a working directory. *)
Definition silent (idx : Z) (argv : list string) (cwd : option string) : invocation := mkInvocation (host_node idx) argv cwd (Some devnull) PNone false false.
(** A command of [run]'s defaults. *)
Definition plain (idx : Z) (argv : list string) (timeout : pv) : invocation := mkInvocation (host_node idx) argv None None timeout false false.
(** A content tool with its log. *)
Definition logged (idx : Z) (argv : list string) (log_name : string) (timeout : pv) (cancellable : bool) : invocation :=
  mkInvocation (host_node idx) argv None (Some log_name) timeout cancellable false.

(** [cefore_env_prefix]. *)
Definition cefore_env_prefix (env_dir : string) : list string := ["env"; "CEFORE_DIR=" +s+ env_dir].
Definition CCNINFO_GUARD_TIMEOUT : Z := 10.

(** [status_output]. *)
Definition status_output (r : CommandResult) : string := if timed_out r then "error: command timeout" else stdout r.

Section daemons.
(** The answer of the runner and the clock, given what was done before; the node
    directories as they are read, and what cannot be removed below /tmp. *)
Context (reply : list (dmop * (CommandResult + exn)) → invocation → CommandResult + exn).
Context (clock : list (dmop * (CommandResult + exn)) → Z).
Context (node_files : Z → gmap string string) (stuck : string → bool) (abspath : string → string).

Definition quiet_result : CommandResult := mkCommandResult (Some 0) "" "" false false None.
Definition run (i : invocation) : C CommandResult := λ w,
  let a := reply (dm_trace w) i in (mkDaemons (dm_trace w ++ [(RunCommand i, a)]) (dm_tmp w), a).
Definition start (i : invocation) : C CommandResult := λ w,
  let a := reply (dm_trace w) i in (mkDaemons (dm_trace w ++ [(StartCommand i, a)]) (dm_tmp w), a).
Definition pause (ms : Z) : C () := λ w, (mkDaemons (dm_trace w ++ [(Pause ms, inl quiet_result)]) (dm_tmp w), inl ()).
Definition report (msg : string) : C () := λ w, (mkDaemons (dm_trace w ++ [(Report msg, inl quiet_result)]) (dm_tmp w), inl ()).
Definition time : C Z := get (λ w, clock (dm_trace w)).
(** A step on the files below /tmp. *)
Definition on_tmp (f : gmap string string → res (gmap string string)) : C () := λ w,
  match f (dm_tmp w) with
  | Ok tmp => (mkDaemons (dm_trace w) tmp, inl ())
  | Raise e => (w, inr e)
  | NoFuel => (w, inr (Exn EOther ""))
  end.

(** * Readiness *)

(** The loop of the two waits; [None] when the fuel is used up. *)
Fixpoint wait_loop (fuel : nat) (status : invocation) (interval deadline : Z) : C (option bool) :=
  match fuel with
  | O => mret None
  | S fuel =>
      now ← time;
      if now <? deadline then
        result ← run status;
        if bool_decide (returncode result = Some 0) then mret (Some true)
        else pause interval ≫= λ _, wait_loop fuel status interval deadline
      else mret (Some false)
  end.
(** The polls that fit before the deadline, and one more. *)
Definition wait_fuel (timeout interval : Z) : nat := S (S (Z.to_nat (timeout / interval))).
Definition expected_daemon_log_path (idx : Z) (csmgrd : bool) : res string :=
  paths ← tmp_daemon_log_paths (mkScope idx (node_files idx) csmgrd);
  match last paths with Some p => Ok p | None => raise EIndexError "list index out of range" end.
Definition wait_for (daemon : string) (csmgrd : bool) (status : invocation) (idx timeout interval : Z) : C bool :=
  now ← time;
  ready ← wait_loop (wait_fuel timeout interval) status interval (now + timeout);
  match ready with
  | Some true => mret true
  | Some false =>
      log_path ← lift (expected_daemon_log_path idx csmgrd);
      report (host_node idx +s+ " " +s+ daemon +s+ " not ready; check " +s+ log_path) ≫= λ _, mret false
  | None => throw (Exn EOther "fuel")
  end.

Definition cefstatus_poll (idx : Z) : invocation := silent idx ["cefstatus"; "-d"; node_path idx] None.
Definition csmgrstatus_poll (idx : Z) : invocation := silent idx ["csmgrstatus"] None.
(** [wait_for_cefnetd] and [wait_for_csmgrd]. *)
Definition wait_for_cefnetd (idx timeout : Z) : C bool := wait_for "cefnetd" false (cefstatus_poll idx) idx timeout 250.
Definition wait_for_csmgrd (idx timeout : Z) : C bool := wait_for "csmgrd" true (csmgrstatus_poll idx) idx timeout 500.

(** * Start and stop *)

Definition start_argv (command : string) (idx : Z) (log_dir : option string) : list string :=
  [command; "-d"; match log_dir with Some _ => abspath (node_path idx) | None => node_path idx end].
(** [start_csmgrd] and [start_cefnetd]; the status of the start command and the
    readiness of csmgrd are not looked at. *)
Definition start_csmgrd (idx : Z) (log_dir : option string) : C () :=
  on_tmp (cleanup_stale_csmgrd_log stuck (node_files idx)) ≫= λ _,
  run (silent idx (start_argv "csmgrdstart" idx log_dir) log_dir) ≫= λ _,
  wait_for_csmgrd idx 10000 ≫= λ _, mret ().
Definition start_cefnetd (idx : Z) (log_dir : option string) : C () :=
  on_tmp (cleanup_cefnetd_socket stuck (mkScope idx (node_files idx) false)) ≫= λ _,
  on_tmp (cleanup_stale_cefnetd_log stuck (node_files idx)) ≫= λ _,
  run (silent idx (start_argv "cefnetdstart" idx log_dir) log_dir) ≫= λ _,
  pause 1000.
(** [stop_csmgrd] and [stop_cefnetd]. *)
Definition stop_csmgrd (idx : Z) : C () := run (plain idx ["csmgrdstop"; "-d"; node_path idx] PNone) ≫= λ _, mret ().
Definition stop_cefnetd (idx : Z) : C () := run (plain idx ["cefnetdstop"; "-F"; "-d"; node_path idx] PNone) ≫= λ _, mret ().

(** * Status *)

(** [run_cefstatus], [run_cefstatus_all] and [run_csmgrstatus]. *)
Definition run_cefstatus (idx : Z) (timeout : pv) : C CommandResult := run (plain idx ["cefstatus"; "-d"; node_path idx] timeout).
Definition run_cefstatus_all (host_num : Z) : C () := for_each (λ i, run_cefstatus i PNone ≫= λ _, mret ()) (range host_num).
Definition run_csmgrstatus `{FloatRepr} (idx : Z) (uri : option string) (port_num : pv) (host : option string) (log_name : option string) (timeout : pv) : C CommandResult :=
  let argv := ["csmgrstatus"] ++ option_list uri ++ (if is_none port_num then [] else ["-p"; py_str port_num]) ++ (match host with Some h => ["-h"; h] | None => [] end) in
  match log_name with
  | None | Some "" => run (plain idx argv timeout)
  | Some l => run (mkInvocation (host_node idx) argv None (Some l) timeout false true)
  end.

(** * Content tools *)

Section tools.
Context `{FloatRepr}.
(** Each returns the exit status, [run_ccninfo] the whole result; the pub/sub tools
    are started in the background. *)
Definition run_cefputfile (idx : Z) (uri file_path : string) (rate block_size expiry cache_time valid_algo port_num : pv) (log_name : string) (timeout : pv) (cancellable : bool) : C (option Z) :=
  result ← run (logged idx (build_cefputfile_argv uri file_path (host_node idx) rate block_size expiry cache_time valid_algo port_num) log_name timeout cancellable);
  mret (returncode result).
Definition run_cefgetfile (idx : Z) (uri output_path : string) (owner_only chunk pipeline valid_algo port_num sg : pv) (log_name : string) (timeout : pv) (cancellable : bool) : C (option Z) :=
  result ← run (logged idx (build_cefgetfile_argv uri output_path (host_node idx) owner_only chunk pipeline valid_algo port_num sg) log_name timeout cancellable);
  mret (returncode result).
Definition run_ccninfo (idx : Z) (uri log_name : string) (cache_info owner_only hop_count skip_hop valid_algo : pv) (timeout : pv) (cancellable : bool) (cefore_env_dir : option string) : C CommandResult :=
  let argv := build_ccninfo_argv uri (host_node idx) cache_info owner_only hop_count skip_hop valid_algo PNone in
  run (logged idx (match cefore_env_dir with Some d => cefore_env_prefix d ++ argv | None => argv end) log_name timeout cancellable).
Definition start_cefsubfile (idx : Z) (uri : string) (output_path pipeline ri_valid_algo td_valid_algo port_num : pv) (log_name : string) : C CommandResult :=
  start (logged idx (build_cefsubfile_argv uri (host_node idx) output_path pipeline ri_valid_algo td_valid_algo port_num) log_name PNone false).
Definition run_cefpubfile (idx : Z) (uri file_path : string) (rate block_size expiry cache_time lifetime retry_limit target ti_valid_algo rd_valid_algo port_num : pv) (log_name : string) : C CommandResult :=
  start (logged idx (build_cefpubfile_argv uri file_path (host_node idx) rate block_size expiry cache_time lifetime retry_limit target ti_valid_algo rd_valid_algo port_num) log_name PNone false).
End tools.

(** * The fleet *)

(** [start_all] and [wait_ready]; [csmgrd_nodes] in the order of their index. *)
Definition start_all (csmgrd_nodes node_names : list Z) (log_dir : option string) : C () :=
  for_each (λ i, start_csmgrd i log_dir) csmgrd_nodes ≫= λ _, for_each (λ i, start_cefnetd i log_dir) node_names.
Fixpoint wait_each (timeout : Z) (warn : bool) (node_names not_ready : list Z) : C (list Z) :=
  match node_names with
  | [] => mret not_ready
  | i :: node_names =>
      ready ← wait_for_cefnetd i timeout;
      if ready : bool then wait_each timeout warn node_names not_ready
      else (if warn then report ("WARNING: " +s+ host_node i +s+ " cefnetd not ready") else mret ()) ≫= λ _,
           wait_each timeout warn node_names (not_ready ++ [i])
  end.
Definition wait_ready (timeout : Z) (policy : string) (node_names : list Z) : C (list Z) :=
  not_ready ← wait_each timeout (bool_decide (policy = "warn")) node_names [];
  if bool_decide (not_ready ≠ [] ∧ policy = "raise") then
    fail ERuntimeError ("cefnetd not ready on " +s+ String.concat ", " (host_node <$> not_ready) +s+ "; aborting before FIB programming")
  else mret not_ready.
End daemons.

(** * Debug collectors *)

(** A directory is its files; the destination directory maps names to what is there. *)
Definition archive_dir (dirs : gmap string (gmap string string)) (dest : gmap string (gmap string string)) (node_dir : string) : gmap string (gmap string string) :=
  match dirs !! node_dir with Some files => <[node_dir := files]> dest | None => dest end.
(** [archive_node_dirs]: what is no directory is skipped, an older copy replaced. *)
Definition archive_node_dirs (dirs : gmap string (gmap string string)) (generated_dirs : list string) (dest : gmap string (gmap string string)) : gmap string (gmap string string) :=
  foldl (archive_dir dirs) dest generated_dirs.
(** [dump_fib]: the files it writes and what stops it. *)
Fixpoint dump_fib (reply : list (dmop * (CommandResult + exn)) → invocation → CommandResult + exn) (host_ids : list Z) (dest : gmap string string) : C (gmap string string) :=
  match host_ids with
  | [] => mret dest
  | idx :: host_ids =>
      result ← run_cefstatus reply idx PNone;
      dump_fib reply host_ids (<["fib_" +s+ host_node idx +s+ ".txt" := status_output result]> dest)
  end.

(** * Lemmas *)

Section daemon_lemmas.
Context (reply : list (dmop * (CommandResult + exn)) → invocation → CommandResult + exn).
Context (clock : list (dmop * (CommandResult + exn)) → Z).
Context (node_files : Z → gmap string string) (stuck : string → bool) (abspath : string → string).

(** The clock does not go back, and a pause takes its time. *)
Definition ticking : Prop := (∀ t e, clock t ≤ clock (t ++ [e])) ∧ ∀ t ms a, clock t + ms ≤ clock (t ++ [(Pause ms, a)]).

(** Polls that were answered, but not with status 0. *)
Definition failed_polls (status : invocation) (interval : Z) (rs : list CommandResult) : list (dmop * (CommandResult + exn)) :=
  rs ≫= λ r, [(RunCommand status, inl r); (Pause interval, inl quiet_result)].
Definition unready (r : CommandResult) : Prop := returncode r ≠ Some 0.

(** What the waits end with, after failed polls. *)
Definition wait_end (status : invocation) (deadline : Z) (t : list (dmop * (CommandResult + exn))) (end_ : list (dmop * (CommandResult + exn))) (out : option bool + exn) : Prop :=
  (∃ r, end_ = [(RunCommand status, inl r)] ∧ returncode r = Some 0 ∧ clock t < deadline ∧ out = inl (Some true)) ∨
  (end_ = [] ∧ deadline ≤ clock t ∧ out = inl (Some false)) ∨
  (∃ e, end_ = [(RunCommand status, inr e)] ∧ clock t < deadline ∧ out = inr e).

Lemma wait_loop_eq fuel status interval deadline w : wait_loop reply clock (S fuel) status interval deadline w =
  if clock (dm_trace w) <? deadline then
    match reply (dm_trace w) status with
    | inl r =>
        let w1 := mkDaemons (dm_trace w ++ [(RunCommand status, inl r)]) (dm_tmp w) in
        if bool_decide (returncode r = Some 0) then (w1, inl (Some true))
        else wait_loop reply clock fuel status interval deadline (mkDaemons (dm_trace w1 ++ [(Pause interval, inl quiet_result)]) (dm_tmp w))
    | inr e => (mkDaemons (dm_trace w ++ [(RunCommand status, inr e)]) (dm_tmp w), inr e)
    end
  else (w, inl (Some false)).
Proof.
  cbn [wait_loop]. unfold mbind, M_bind, time, get, run. cbn beta iota. destruct (clock (dm_trace w) <? deadline); [|done].
  destruct (reply (dm_trace w) status) as [r|e]; [|done]. by case_bool_decide.
Qed.

Lemma wait_loop_spec fuel status interval deadline w : ticking → 0 < interval → deadline - clock (dm_trace w) ≤ interval * Z.of_nat fuel →
  ∃ rs end_ out, wait_loop reply clock (S fuel) status interval deadline w = (mkDaemons (dm_trace w ++ failed_polls status interval rs ++ end_) (dm_tmp w), out) ∧
    Forall unready rs ∧ wait_end status deadline (dm_trace w ++ failed_polls status interval rs) end_ out ∧ (length rs ≤ fuel)%nat.
Proof.
  intros Hclock Hi. revert w. induction fuel as [|fuel IH]; intros w Hf; rewrite wait_loop_eq;
    destruct (Z.ltb_spec (clock (dm_trace w)) deadline) as [Hlt|Hge].
  - lia.
  - exists [], [], (inl (Some false)). cbn. rewrite app_nil_r. split; [by destruct w|]. split; [constructor|]. split; [right; left; done|lia].
  - destruct (reply (dm_trace w) status) as [r|e].
    2:{ exists [], [(RunCommand status, inr e)], (inr e). split; [done|]. split; [constructor|]. split; [|simpl; lia]. right. right. exists e. simpl. by rewrite app_nil_r. }
    case_bool_decide as Hr.
    { exists [], [(RunCommand status, inl r)], (inl (Some true)). split; [done|]. split; [constructor|]. split; [|simpl; lia]. left. exists r. simpl. by rewrite app_nil_r. }
    cbn [dm_trace dm_tmp].
    set (w1 := mkDaemons ((dm_trace w ++ [(RunCommand status, inl r)]) ++ [(Pause interval, inl quiet_result)]) (dm_tmp w)).
    destruct (IH w1) as (rs & end_ & out & E & Hrs & Hend & Hlen).
    { destruct Hclock as [Hmono Hpause]. unfold w1. cbn [dm_trace]. pose proof (Hmono (dm_trace w) (RunCommand status, inl r)).
      pose proof (Hpause (dm_trace w ++ [(RunCommand status, inl r)]) interval (inl quiet_result)). lia. }
    assert (Hpolls : dm_trace w1 ++ failed_polls status interval rs = dm_trace w ++ failed_polls status interval (r :: rs)) by (unfold w1, failed_polls; cbn; by rewrite <-!app_assoc).
    exists (r :: rs), end_, out. split; [|split; [by constructor|split; [by rewrite <-Hpolls|simpl; lia]]].
    fold w1. rewrite E, !app_assoc, Hpolls. done.
  - exists [], [], (inl (Some false)). cbn. rewrite app_nil_r. split; [by destruct w|]. split; [constructor|]. split; [right; left; done|lia].
Qed.

(** The daemon's files can be read, so its log has a name. *)
Definition readable (idx : Z) (csmgrd : bool) : Prop := is_Some (match expected_daemon_log_path node_files idx csmgrd with Ok p => Some p | _ => None end).

Lemma wait_for_spec daemon csmgrd status idx timeout interval w : ticking → 0 < interval → 0 ≤ timeout → readable idx csmgrd →
  ∃ rs end_ out, wait_for reply clock node_files daemon csmgrd status idx timeout interval w = (mkDaemons (dm_trace w ++ failed_polls status interval rs ++ end_) (dm_tmp w), out) ∧
    Forall unready rs ∧ (length rs ≤ S (Z.to_nat (timeout / interval)))%nat ∧
    ((∃ r, end_ = [(RunCommand status, inl r)] ∧ returncode r = Some 0 ∧ clock (dm_trace w ++ failed_polls status interval rs) < clock (dm_trace w) + timeout ∧ out = inl true) ∨
     (∃ msg, end_ = [(Report msg, inl quiet_result)] ∧ clock (dm_trace w) + timeout ≤ clock (dm_trace w ++ failed_polls status interval rs) ∧ out = inl false) ∨
     (∃ e, end_ = [(RunCommand status, inr e)] ∧ out = inr e)).
Proof.
  intros Hclock Hi Ht Hread. unfold wait_for, mbind, M_bind. unfold time at 1, get at 1.
  destruct (wait_loop_spec (S (Z.to_nat (timeout / interval))) status interval (clock (dm_trace w) + timeout) w) as (rs & end_ & out & E & Hrs & Hend & Hlen); [done|done| |].
  { rewrite Nat2Z.inj_succ, Z2Nat.id by (by apply Z.div_pos). pose proof (Z.mul_succ_div_gt timeout interval). lia. }
  unfold wait_fuel. rewrite E. destruct Hend as [(r & -> & Hr & Hlt & ->)|[(-> & Hge & ->)|(e & -> & Hlt & ->)]].
  - exists rs, [(RunCommand status, inl r)], (inl true). split_and!; [done..|]. left. by exists r.
  - unfold lift. destruct Hread as [p Hp]. destruct (expected_daemon_log_path node_files idx csmgrd) as [p'|e|]; [|done..]. unfold report. cbn [dm_trace dm_tmp].
    eexists rs, [(Report _, _)], (inl false). rewrite app_nil_r, <-app_assoc. split; [done|]. split_and!; [done..|]. right. left. by eexists.
  - exists rs, [(RunCommand status, inr e)], (inr e). split_and!; [done..|]. right. right. by exists e.
Qed.

(** ** The fleet *)

Lemma cefstatus_poll_inj i j : cefstatus_poll i = cefstatus_poll j → i = j.
Proof. unfold cefstatus_poll, silent, host_node. intros [= E _]. by apply str_Z_inj. Qed.

Definition poll_of (i : Z) (a : CommandResult + exn) : dmop * (CommandResult + exn) := (RunCommand (cefstatus_poll i), a).
Lemma poll_of_inj i j a b : poll_of i a = poll_of j b → i = j ∧ a = b.
Proof. intros E. injection E as Ei _ Ea. split; [by apply str_Z_inj|done]. Qed.
Definition never_ready (i : Z) (t : list (dmop * (CommandResult + exn))) : Prop := ∀ r, poll_of i (inl r) ∈ t → unready r.
Lemma failed_polls_elem i rs o : o ∈ failed_polls (cefstatus_poll i) 250 rs ↔ (∃ r, r ∈ rs ∧ o = poll_of i (inl r)) ∨ (o = (Pause 250, inl quiet_result) ∧ rs ≠ []).
Proof.
  unfold failed_polls. rewrite list_elem_of_bind. split.
  - intros (r & Ho & Hr). rewrite !elem_of_cons, elem_of_nil in Ho. destruct Ho as [->|[->|[]]]; [left; by exists r|right; split; [done|by intros ->; apply elem_of_nil in Hr]].
  - intros [(r & Hr & ->)|[-> Hne]]; [exists r; split; [by left|done]|]. destruct rs as [|r rs]; [done|]. exists r. split; [right; by left|by left].
Qed.

(** The most a wait for one host appends to the trace. *)
Definition wait_bound (timeout : Z) : nat := 2 * S (Z.to_nat (timeout / 250)) + 2.
Lemma failed_polls_length status interval rs : length (failed_polls status interval rs) = (2 * length rs)%nat.
Proof. unfold failed_polls. induction rs as [|r rs IH]; [done|]. rewrite bind_cons, length_app, IH. simpl. lia. Qed.

(** One host: what the wait appends, and what it says of the host. *)
Lemma wait_one i timeout w : ticking → 0 ≤ timeout → readable i false →
  ∃ new out, wait_for_cefnetd reply clock node_files i timeout w = (mkDaemons (dm_trace w ++ new) (dm_tmp w), out) ∧ (S (length new) ≤ wait_bound timeout)%nat ∧
    (∀ j a, poll_of j a ∈ new → j = i) ∧
    match out with
    | inl true => ∃ r, poll_of i (inl r) ∈ new ∧ returncode r = Some 0
    | inl false => never_ready i new
    | inr e => poll_of i (inr e) ∈ new
    end.
Proof.
  intros Hclock Ht Hread. destruct (wait_for_spec "cefnetd" false (cefstatus_poll i) i timeout 250 w) as (rs & end_ & out & E & Hrs & Hlen & Hend); [done|lia|done|done|].
  exists (failed_polls (cefstatus_poll i) 250 rs ++ end_), out. split; [exact E|].
  assert (Hof : ∀ j a, poll_of j a ∈ failed_polls (cefstatus_poll i) 250 rs → j = i ∧ ∃ r, r ∈ rs ∧ a = inl r).
  { intros j a [(r & Hr & [-> ->]%poll_of_inj)|[[=] _]]%failed_polls_elem. split; [done|]. by exists r. }
  destruct Hend as [(r & -> & Hr & _ & ->)|[(msg & -> & _ & ->)|(e & -> & ->)]]; rewrite length_app, failed_polls_length; unfold wait_bound; (split; [simpl; lia|]).
  - split; [|exists r; split; [apply elem_of_app; right; by left|done]]. intros j a [Hin|Hin]%elem_of_app; [by apply Hof in Hin as [-> _]|]. apply list_elem_of_singleton in Hin. by apply poll_of_inj in Hin as [-> _].
  - split; [|intros r [Hin|Hin]%elem_of_app]. { intros j a [Hin|Hin]%elem_of_app; [by apply Hof in Hin as [-> _]|]. by apply list_elem_of_singleton in Hin. }
    + apply Hof in Hin as (_ & r' & Hr' & [= <-]). by eapply Forall_forall in Hr'; [|exact Hrs].
    + by apply list_elem_of_singleton in Hin.
  - split; [|apply elem_of_app; right; by left]. intros j a [Hin|Hin]%elem_of_app; [by apply Hof in Hin as [-> _]|]. apply list_elem_of_singleton in Hin. by apply poll_of_inj in Hin as [-> _].
Qed.

(** What the waits for [nodes] say, when they started with [acc] not ready. *)
Definition waited (nodes acc : list Z) (new : list (dmop * (CommandResult + exn))) (out : list Z + exn) : Prop :=
  (∀ j a, poll_of j a ∈ new → j ∈ nodes) ∧
  match out with
  | inl not_ready => ∃ missing, not_ready = acc ++ missing ∧ missing `sublist_of` nodes ∧ ∀ i, i ∈ nodes → (i ∈ missing ↔ never_ready i new)
  | inr e => ∃ i, i ∈ nodes ∧ poll_of i (inr e) ∈ new
  end.
(** The answer of one host: ready, or not. *)
Definition answered (i : Z) (missing : list Z) (t : list (dmop * (CommandResult + exn))) : Prop :=
  (missing = [] ∧ ∃ r, poll_of i (inl r) ∈ t ∧ returncode r = Some 0) ∨ (missing = [i] ∧ never_ready i t).

Lemma waited_cons i nodes acc missing n1 extra n2 out : i ∉ nodes → (∀ j a, poll_of j a ∈ n1 → j = i) → (∀ j a, poll_of j a ∉ extra) → answered i missing n1 →
  waited nodes (acc ++ missing) n2 out → waited (i :: nodes) acc (n1 ++ extra ++ n2) out.
Proof.
  intros Hi H1 Hx Hans [H2 Hout]. split.
  { intros j a Hin. rewrite !elem_of_app in Hin. destruct Hin as [Hin|[Hin|Hin]]; [apply elem_of_cons; left; by eapply H1|by apply Hx in Hin|right; by eapply H2]. }
  assert (Hother : ∀ j, j ∈ nodes → never_ready j (n1 ++ extra ++ n2) ↔ never_ready j n2).
  { intros j Hj. split; intros Hn r Hin; [apply Hn; rewrite !elem_of_app; by right; right|]. rewrite !elem_of_app in Hin.
    destruct Hin as [Hin|[Hin|Hin]]; [apply H1 in Hin as ->; done|by apply Hx in Hin|by apply Hn]. }
  destruct out as [nr|e].
  - destruct Hout as (m2 & -> & Hsub & Hiff). exists (missing ++ m2). rewrite <-app_assoc. split; [done|].
    assert (Him : i ∉ m2) by (intros Hm; apply Hi; by eapply elem_of_sublist).
    destruct Hans as [[-> (r & Hin & Hr)]|[-> Hn]]; (split; [by constructor|]); intros j [->|Hj]%elem_of_cons; rewrite ?Hother by done.
    + split; [done|]. intros Hn. exfalso. apply (Hn r); [|done]. apply elem_of_app. by left.
    + by apply Hiff.
    + split; [|intros _; by left]. intros _ r Hin. rewrite !elem_of_app in Hin. destruct Hin as [Hin|[Hin|Hin]]; [by apply Hn|by apply Hx in Hin|by apply H2 in Hin].
    + assert (j ≠ i) by (by intros ->). rewrite <-Hiff by done. simpl. rewrite elem_of_cons. naive_solver.
  - destruct Hout as (j & Hj & Hin). exists j. split; [by right|]. rewrite !elem_of_app. by right; right.
Qed.

Lemma wait_each_spec timeout warn nodes : ticking → 0 ≤ timeout → NoDup nodes → (∀ i, i ∈ nodes → readable i false) → ∀ acc w,
  ∃ new out, wait_each reply clock node_files timeout warn nodes acc w = (mkDaemons (dm_trace w ++ new) (dm_tmp w), out) ∧
    (length new ≤ length nodes * wait_bound timeout)%nat ∧ waited nodes acc new out.
Proof.
  intros Hclock Ht Hnd. induction Hnd as [|i nodes Hi Hnd IH]; intros Hread acc w.
  { exists [], (inl acc). split; [cbn; rewrite app_nil_r; by destruct w|]. split; [simpl; lia|]. split; [by intros j a ?%elem_of_nil|].
    exists []. rewrite app_nil_r. split; [done|]. split; [done|]. by intros i ?%elem_of_nil. }
  cbn [wait_each]. unfold mbind, M_bind. destruct (wait_one i timeout w Hclock Ht) as (n1 & out1 & -> & Hl1 & Hp1 & Ho1); [apply Hread; by left|].
  assert (Hread' : ∀ j, j ∈ nodes → readable j false) by (intros j Hj; apply Hread; by right). specialize (IH Hread').
  assert (Hrest : ∀ missing extra, answered i missing n1 → (∀ j a, poll_of j a ∉ extra) → (length extra ≤ 1)%nat →
    ∃ new out, wait_each reply clock node_files timeout warn nodes (acc ++ missing) (mkDaemons (dm_trace w ++ n1 ++ extra) (dm_tmp w)) = (mkDaemons (dm_trace w ++ new) (dm_tmp w), out) ∧
      (length new ≤ length (i :: nodes) * wait_bound timeout)%nat ∧ waited (i :: nodes) acc new out).
  { intros missing extra Hans Hx Hle. destruct (IH (acc ++ missing) (mkDaemons (dm_trace w ++ n1 ++ extra) (dm_tmp w))) as (n2 & out2 & -> & Hl2 & Hw). cbn [dm_trace dm_tmp].
    exists (n1 ++ extra ++ n2), out2. split; [by rewrite <-!app_assoc|]. split; [rewrite !length_app; cbn [length]; rewrite Nat.mul_succ_l; lia|by eapply waited_cons]. }
  assert (Hnil : ∀ j a, poll_of j a ∉ []) by (by intros j a ?%elem_of_nil). destruct out1 as [[]|e].
  - specialize (Hrest [] []). rewrite !app_nil_r in Hrest. apply Hrest; [by left|done|simpl; lia].
  - destruct warn.
    + unfold report at 1. cbn [dm_trace dm_tmp]. rewrite <-app_assoc. apply Hrest; [by right|by intros j a ?%list_elem_of_singleton|simpl; lia].
    + specialize (Hrest [i] []). rewrite !app_nil_r in Hrest. apply Hrest; [by right|done|simpl; lia].
  - exists n1, (inr e). split; [done|]. split; [cbn [length]; rewrite Nat.mul_succ_l; lia|]. split; [intros j a Hin; apply elem_of_cons; left; by eapply Hp1|]. exists i. split; [by left|done].
Qed.

(** Starting a daemon: the stale files go before the command, and what the command
    raises is raised. *)
Definition start_command (command : string) (idx : Z) (log_dir : option string) : invocation := silent idx (start_argv abspath command idx log_dir) log_dir.
Lemma start_cefnetd_spec idx log_dir w tmp1 tmp2 : cleanup_cefnetd_socket stuck (mkScope idx (node_files idx) false) (dm_tmp w) = Ok tmp1 → cleanup_stale_cefnetd_log stuck (node_files idx) tmp1 = Ok tmp2 →
  start_cefnetd reply node_files stuck abspath idx log_dir w =
  let a := reply (dm_trace w) (start_command "cefnetdstart" idx log_dir) in
  match a with
  | inl _ => (mkDaemons (dm_trace w ++ [(RunCommand (start_command "cefnetdstart" idx log_dir), a); (Pause 1000, inl quiet_result)]) tmp2, inl ())
  | inr e => (mkDaemons (dm_trace w ++ [(RunCommand (start_command "cefnetdstart" idx log_dir), a)]) tmp2, inr e)
  end.
Proof.
  intros E1 E2. unfold start_cefnetd, mbind, M_bind, on_tmp. rewrite E1. cbn [dm_tmp dm_trace]. rewrite E2. unfold run. cbn [dm_tmp dm_trace].
  fold (start_command "cefnetdstart" idx log_dir). destruct (reply _ _); [|done]. unfold pause. cbn [dm_tmp dm_trace]. by rewrite <-app_assoc.
Qed.
(** A cache manager that never becomes ready is started all the same. *)
Lemma start_csmgrd_spec idx log_dir w tmp1 : ticking → readable idx true → cleanup_stale_csmgrd_log stuck (node_files idx) (dm_tmp w) = Ok tmp1 →
  ∃ new, (start_csmgrd reply clock node_files stuck abspath idx log_dir w).1 = mkDaemons (dm_trace w ++ (RunCommand (start_command "csmgrdstart" idx log_dir), reply (dm_trace w) (start_command "csmgrdstart" idx log_dir)) :: new) tmp1 ∧
    (length new ≤ 43)%nat ∧
    ((start_csmgrd reply clock node_files stuck abspath idx log_dir w).2 = inl () ∨
     ∃ i e, (RunCommand i, inr e) ∈ (start_csmgrd reply clock node_files stuck abspath idx log_dir w).1.(dm_trace) ∧ (start_csmgrd reply clock node_files stuck abspath idx log_dir w).2 = inr e).
Proof.
  intros Hclock Hread E1. unfold start_csmgrd, mbind, M_bind, on_tmp. rewrite E1. unfold run. cbn [dm_tmp dm_trace]. fold (start_command "csmgrdstart" idx log_dir).
  set (w1 := mkDaemons (dm_trace w ++ [(RunCommand (start_command "csmgrdstart" idx log_dir), reply (dm_trace w) (start_command "csmgrdstart" idx log_dir))]) tmp1).
  destruct (reply (dm_trace w) (start_command "csmgrdstart" idx log_dir)) as [r|e] eqn:Er.
  - unfold wait_for_csmgrd. destruct (wait_for_spec "csmgrd" true (csmgrstatus_poll idx) idx 10000 500 w1) as (rs & end_ & out & -> & Hrs & Hlen & Hend); [done|lia|lia|done|].
    exists (failed_polls (csmgrstatus_poll idx) 500 rs ++ end_). assert (Hl : (length (failed_polls (csmgrstatus_poll idx) 500 rs ++ end_) ≤ 43)%nat).
    { rewrite length_app, failed_polls_length. change (S (Z.to_nat (10000 / 500))) with 21%nat in Hlen. destruct Hend as [(? & -> & _)|[(? & -> & _)|(? & -> & _)]]; simpl; lia. }
    destruct Hend as [(r' & -> & _ & _ & ->)|[(msg & -> & _ & ->)|(e & -> & ->)]]; cbn [fst snd dm_trace dm_tmp]; (split; [unfold w1; cbn [dm_trace dm_tmp]; by rewrite <-app_assoc|]); (split; [done|]); [by left|by left|].
    right. eexists _, e. split; [|done]. rewrite !elem_of_app. right. right. by left.
  - exists []. split; [done|]. split; [simpl; lia|]. right. eexists _, e. split; [|done]. unfold w1. cbn [fst dm_trace]. apply elem_of_app. right. by left.
Qed.
End daemon_lemmas.

(** Waiting for a fleet, when the clock advances and the log names can be read: it
    ends after boundedly many polls and pauses; a host is named not ready exactly
    when none of its polls was answered with status 0; with the policy "raise" it
    returns only when every host is ready, and what it raises is an exception of the
    runner or the report of a host that never was. *)
Lemma fleet_ready reply clock node_files timeout policy nodes w : ticking clock → 0 ≤ timeout → NoDup nodes → (∀ i, i ∈ nodes → readable node_files i false) →
  ∃ new out, wait_ready reply clock node_files timeout policy nodes w = (mkDaemons (dm_trace w ++ new) (dm_tmp w), out) ∧
    (length new ≤ length nodes * wait_bound timeout)%nat ∧
    match out with
    | inl not_ready => not_ready `sublist_of` nodes ∧ (∀ i, i ∈ nodes → (i ∈ not_ready ↔ never_ready i new)) ∧ (policy = "raise" → not_ready = [])
    | inr e => (∃ i, i ∈ nodes ∧ poll_of i (inr e) ∈ new) ∨ (policy = "raise" ∧ exn_cls e = ERuntimeError ∧ ∃ i, i ∈ nodes ∧ never_ready i new)
    end.
Proof.
  intros Hclock Ht Hnd Hread. unfold wait_ready, mbind, M_bind.
  destruct (wait_each_spec reply clock node_files timeout (bool_decide (policy = "warn")) nodes Hclock Ht Hnd Hread [] w) as (new & out & -> & Hlen & _ & Hout).
  destruct out as [not_ready|e]; [|by exists new, (inr e); split_and!; [..|left]].
  destruct Hout as (missing & -> & Hsub & Hiff). cbn [app]. case_bool_decide as Hp.
  - destruct Hp as [Hne Hpol]. eexists new, (inr _). split; [done|]. split; [done|]. right. split; [done|]. split; [done|].
    destruct missing as [|i missing]; [done|]. exists i. assert (Hi : i ∈ nodes) by (eapply elem_of_sublist; [|exact Hsub]; by left). split; [done|]. apply Hiff; [done|by left].
  - exists new, (inl missing). split; [done|]. split; [done|]. split; [done|]. split; [done|]. intros Hpol. destruct missing; [done|]. exfalso. by apply Hp.
Qed.

(** An archived directory is a copy of the node directory; nothing else changes. *)
Lemma archive_lookup dirs generated dest name : archive_node_dirs dirs generated dest !! name =
  if bool_decide (name ∈ generated) then match dirs !! name with Some files => Some files | None => dest !! name end else dest !! name.
Proof.
  revert dest. induction generated as [|d generated IH]; intros dest; [by rewrite bool_decide_eq_false_2 by (by intros ?%elem_of_nil)|].
  unfold archive_node_dirs in *. cbn [foldl]. rewrite IH. unfold archive_dir. destruct (decide (name = d)) as [->|Hne].
  - rewrite (bool_decide_eq_true_2 (d ∈ d :: generated)) by (by left). destruct (dirs !! d) as [files|]; [|by case_bool_decide].
    rewrite lookup_insert_eq. by case_bool_decide.
  - rewrite (bool_decide_ext (name ∈ d :: generated) (name ∈ generated)) by (rewrite elem_of_cons; naive_solver).
    assert (match dirs !! d with Some files => <[d:=files]> dest | None => dest end !! name = dest !! name) as ->; [|done].
    destruct (dirs !! d); [|done]. by apply lookup_insert_ne.
Qed.

(** * Examples *)

(** A clock that only pauses move. *)
Definition lazy_clock (t : list (dmop * (CommandResult + exn))) : Z := foldr (λ e n, match e.1 with Pause ms => Z.max 0 ms + n | _ => n end) 0 t.
Lemma lazy_ticking : ticking lazy_clock.
Proof.
  assert (Happ : ∀ t e, lazy_clock (t ++ [e]) = lazy_clock t + lazy_clock [e]).
  { intros t e. induction t as [|a t IH]; [done|]. simpl in *. rewrite IH. destruct a as [[] ?]; simpl; lia. }
  split; intros; rewrite Happ; [destruct e as [[] ?]; simpl; lia|simpl; lia].
Qed.
Definition plain_conf (_ : Z) : gmap string string := ∅.
Definition answering (rc : Z) (_ : list (dmop * (CommandResult + exn))) (_ : invocation) : CommandResult + exn := inl (mkCommandResult (Some rc) "" "" false false None).
(** One host that is never ready within a second: four polls, and the report. *)
Example never_ready_host : let w := wait_for_cefnetd (answering 1) lazy_clock plain_conf 0 1000 (mkDaemons [] ∅) in
  w.2 = inl false ∧ length (dm_trace w.1) = 9%nat ∧ last (dm_trace w.1) = Some (Report "h0 cefnetd not ready; check /tmp/cefnetd_9695_0.log", inl quiet_result).
Proof. vm_compute. done. Qed.
(** The deadline is looked at between polls only: a status command that takes an hour
    keeps the wait for an hour, and then counts. *)
Definition hour_clock (t : list (dmop * (CommandResult + exn))) : Z := match t with [] => 0 | _ => 3600000 end.
Example slow_poll : let w := wait_for_cefnetd (answering 0) hour_clock plain_conf 0 1000 (mkDaemons [] ∅) in w.2 = inl true ∧ hour_clock (dm_trace w.1) = 3600000.
Proof. vm_compute. done. Qed.
