(* ===== verification/Bootstrap.v ===== *)
(** Component: starting a scenario from the command line (src/cli/bootstrap.py,
    src/cli/args.py, [load_config] of src/core/config/loader.py, [resolve_run_dir]
    of src/core/paths.py, src/core/debug.py, src/core/tee.py): the configuration is
    read, merged and checked, the run directory and its files are made, and the
    scenario runs with its output copied to a log.  What the file system, the
    parsers and the scenario do is answered by the environment. *)
From S2P Require Import Prelude PyValue PyString StateMonad Artifacts Options Validate ValidateEvents ValidateConfig CachePlan.
Local Open Scope Z_scope.

(** * Argument blocks *)

(** The blocks of a command-line option and its place in them; the other options
    have no flag.  A flag is the key with its underscores as dashes, so the key is
    the attribute argparse stores. *)
Definition cli_blocks : list (string * (list string * Z)) :=
  [ ("hosts", (["common"; "linear"; "connect"], 10)); ("switches", (["mesh"; "connect"], 10)); ("seed", (["common"; "connect"], 20));
    ("topo_png", (["common"; "connect"], 30)); ("topo_layout", (["common"; "connect"], 40)); ("k", (["mesh"; "connect"], 60));
    ("host_degree_min", (["mesh"; "connect"], 30)); ("host_degree_max", (["mesh"; "connect"], 40)); ("node_per_switch", (["mesh"; "connect"], 20));
    ("switch_use_all", (["mesh"; "connect"], 50)); ("num", (["common"; "linear"; "connect"], 50)); ("output_dir", (["common"; "linear"; "connect"], 60));
    ("results_json", (["disaster"], 150)); ("timestamp", (["common"; "linear"; "connect"], 70)); ("no_cli", (["disaster"; "connect"], 120));
    ("no_script_log", (["disaster"; "connect"], 110)); ("duration", (["disaster"], 130)); ("cache_default_rct_ms", (["disaster"], 160));
    ("publisher_host", (["disaster"], 170)); ("pubsub_sub_startup_grace", (["disaster"], 180)); ("warmup_get_interval", (["disaster"], 190));
    ("warmup_only_cache_nodes", (["disaster"], 200)); ("down_interval", (["disaster"; "connect"], 10)); ("down_duration", (["disaster"; "connect"], 20));
    ("down_exclude", (["disaster"; "connect"], 30)); ("down_count", (["disaster"; "connect"], 40)); ("down_stagger", (["disaster"; "connect"], 50));
    ("cache_count", (["disaster"; "connect"], 60)); ("bw", (["disaster"; "connect"], 70)); ("ext", (["disaster"; "connect"], 80));
    ("bridge", (["disaster"; "connect"], 90)); ("forwarding_config", (["disaster"; "connect"], 0)); ("webui_port", (["disaster"], 210));
    ("script_log", (["disaster"; "connect"], 100)); ("debug", (["debug"], 10)); ("debug_artifact", (["debug"], 20)); ("config", (["disaster"; "connect"], 95)) ].
Definition block_of (key : string) : list string * Z := default ([], 0) (snd <$> List.find (λ kb, bool_decide (kb.1 = key)) cli_blocks).

(** [_add_args_for_block]: the options of a block in [cli_order]. *)
Definition by_order (a b : OptionSpec) : Prop := (block_of (o_key a)).2 ≤ (block_of (o_key b)).2.
#[export] Instance by_order_dec a b : Decision (by_order a b).
Proof. unfold by_order. apply _. Defined.
Definition add_args_for_block (block : string) : list OptionSpec :=
  merge_sort by_order (List.filter (λ s, o_cli_allowed s && bool_decide (block ∈ (block_of (o_key s)).1)) OPTION_SPECS).

(** [vars(parser.parse_args([]))] of [_build_cli_precedence_parser]: an unknown block
    raises, and argparse refuses a flag that is added twice. *)
Definition ARG_BUILDERS : list string := ["common"; "mesh"; "disaster"; "connect"; "linear"; "debug"].
Definition cli_defaults (blocks : list string) : res namespace :=
  if negb (forallb (λ b, bool_decide (b ∈ ARG_BUILDERS)) blocks) then raise EKeyError "block"
  else let specs := blocks ≫= add_args_for_block in
       if decide (NoDup (o_key <$> specs)) then Ok (list_to_map ((λ s, (o_key s, o_default s)) <$> specs)) else raise EOther "conflicting option string".

(** * Loading *)

(** What a parser answers: a value, a syntax error, or another exception. *)
Inductive parsed := Parsed (v : pv) | BadSyntax (msg : string) | ParserRaised (e : exn).

(** [Path(s)] and [path.suffix]. *)
Definition pure_path (s : string) : path := mkPath (startswith s "/") (List.filter (λ w, negb (bool_decide (w = "") || bool_decide (w = "."))) (split slash s)).
Definition dot : ascii := Ascii.ascii_of_N 46.
Definition suffix (name : string) : string :=
  let comps := split dot name in
  match last comps with
  | Some ext => if bool_decide (ext = "") || bool_decide (comps = [""; ext]) || bool_decide (comps = [ext]) then "" else "." +s+ ext
  | None => ""
  end.

(** ** Debug settings *)

Record DebugConfig := mkDebug { node_dirs : bool; fib_dump : bool; output_subdir : string }.
Definition DEBUG_ARTIFACT_CHOICES : list pv := [PStr "node_dirs"; PStr "fib_dump"].
Definition enabled (c : DebugConfig) : bool := node_dirs c || fib_dump c.
(** What the [debug] block of a configuration turns on. *)
Definition raw_artifacts (raw_debug : pv) : list pv :=
  match raw_debug with
  | PBool b => if b then DEBUG_ARTIFACT_CHOICES else []
  | PDict d => match get_or d "artifacts" (PList []) with PList l => List.filter is_str l | _ => [] end
  | _ => []
  end.
Definition raw_subdir (raw_debug : pv) : string :=
  match raw_debug with
  | PDict d => match get_none d "output_subdir" with PStr s => if bool_decide (s = "") then "debug" else s | _ => "debug" end
  | _ => "debug"
  end.
(** [build_debug_config]. *)
Definition build_debug_config (args : namespace) (raw_debug : pv) : res DebugConfig :=
  let master := if truthy (default (PBool false) (args !! "debug")) then DEBUG_ARTIFACT_CHOICES else [] in
  let listed := getattr_none args "debug_artifact" in
  chosen ← (if truthy listed then py_list listed else Ok []);
  if negb (forallb hashable chosen) then raise ETypeError "unhashable type" else
  let active := master ++ chosen ++ raw_artifacts raw_debug in
  Ok (mkDebug (existsb (λ a, eq_str a "node_dirs") active) (existsb (λ a, eq_str a "fib_dump") active) (raw_subdir raw_debug)).

(** * Effects *)

(** Where output goes: a stream of the interpreter, or a [Tee] of one and the log. *)
Inductive stream := Std (name : string) | Tee (base : stream) (log : path).
Record streams := mkStreams { stdout : stream; stderr : stream }.
Record log_context := mkContext { original : streams; teed : streams }.

Inductive bsop :=
  | Print (msg : string)
  | MakeDirs (p : path)
  | WriteMeta (p : path) (meta : pydict)
  | OpenLog (p : path)
  | SetLogLevel
  | RunScenario (args : namespace) (run_dir : path) (ctx : option log_context) (debug : DebugConfig)
  | CloseLog.
Inductive bsanswer := Returned | Raised (e : exn).

Record boot := mkBoot { b_trace : list (bsop * bsanswer); b_streams : streams }.
Notation B := (M boot).

Section bootstrap.
Context `{FloatRepr} `{IpLib}.
(** The file system and the parsers; YAML may not be installed. *)
Context (exists_file : path → bool) (read_text : path → string + exn) (yaml : option (string → parsed)) (json_loads : string → parsed).
Context (resolve : path → path) (path_str : path → string) (now : string).
(** What an operation answers, and the streams the scenario leaves. *)
Context (reply : list (bsop * bsanswer) → bsop → bsanswer) (leaves : streams → streams).

(** [load_config]. *)
Definition load_config (path_ : pv) : res pv :=
  if negb (truthy path_) then Ok (PDict []) else
  match path_ with
  | PStr s =>
      let config_path := pure_path s in
      if negb (exists_file config_path) then raise ESystemExit ("config file not found: " +s+ path_str config_path) else
      match read_text config_path with
      | inr e => Raise e
      | inl content =>
          if bool_decide (lower (suffix (default "" (last (parts config_path)))) ∈ [".yaml"; ".yml"]) then
            match yaml with
            | None => raise ESystemExit "YAML config requires pyyaml: pip install pyyaml"
            | Some safe_load =>
                match safe_load content with
                | Parsed v => Ok (if truthy v then v else PDict [])
                | BadSyntax msg => raise ESystemExit ("failed to parse YAML config: " +s+ msg)
                | ParserRaised e => Raise e
                end
            end
          else match json_loads content with
               | Parsed v => Ok v
               | BadSyntax msg => raise ESystemExit ("failed to parse JSON config: " +s+ msg)
               | ParserRaised e => Raise e
               end
      end
  | _ => raise ETypeError "argument should be a str or an os.PathLike object"
  end.

Definition perform (o : bsop) : B () := λ w,
  let a := reply (b_trace w) o in
  (mkBoot (b_trace w ++ [(o, a)]) (b_streams w), match a with Returned => inl () | Raised e => inr e end).
Definition say (msg : string) : B () := λ w, (mkBoot (b_trace w ++ [(Print msg, Returned)]) (b_streams w), inl ()).
Definition set_streams (s : streams) : B () := λ w, (mkBoot (b_trace w) s, inl ()).
Definition run_scenario (args : namespace) (run_dir : path) (ctx : option log_context) (debug : DebugConfig) : B () := λ w,
  let o := RunScenario args run_dir ctx debug in
  let a := reply (b_trace w) o in
  (mkBoot (b_trace w ++ [(o, a)]) (leaves (b_streams w)), match a with Returned => inl () | Raised e => inr e end).

(** [args.k]. *)
Definition getattr (args : namespace) (k : string) : res pv :=
  match args !! k with Some v => Ok v | None => raise EAttributeError ("'Namespace' object has no attribute '" +s+ k +s+ "'") end.

(** ** Warnings *)

(** [set(config)] of any value. *)
Definition config_keys (config : pv) : res (list pv) :=
  match config with
  | PDict d => Ok d.*1
  | PList l => if forallb hashable l then Ok l else raise ETypeError "unhashable type"
  | PStr s => Ok (str_chars s)
  | _ => raise ETypeError "object is not iterable"
  end.
Definition interval_warning (interval : pv) : string :=
  "[warning] monitoring.interval (" +s+ py_str interval +s+ ") is below ~5s but a ccninfo target takes ~5s per probe (REPLY_TIMEOUT+1) even on success, and monitoring.interval is a fixed post-cycle delay, not a minimum spacing between probes -- expect ccninfo collection to fall behind schedule.".
(** Both warnings: their messages, and the dict they leave the configuration as. *)
Definition legacy_warnings (config : pv) : res (list string) :=
  keys ← config_keys config; Ok (warn_ignored_legacy_content_keys ((λ k, (k, PNone)) <$> keys)).2.
Definition as_dict (config : pv) : res pydict :=
  match config with PDict d => Ok d | _ => raise EAttributeError "object has no attribute 'get'" end.
Definition interval_warnings (config : pydict) : list string := option_list (interval_warning <$> warn_ccninfo_monitor_interval config).

(** ** Checking *)

Definition unsupported (key : string) : string :=
  key +s+ " is not supported by the connect scenario (ceforeemu-connect); it is scoped to the disaster scenario only".
Definition connect_errors (blocks : list string) (config : pydict) (key : string) : list string :=
  when (bool_decide ("connect" ∈ blocks) && negb (is_none (get_none config key))) (unsupported key).
(** The blocks the merge does not check. *)
Definition raw_keys (config : pydict) : list string := List.filter (dhas config) (o_key <$> List.filter o_special_config_merge OPTION_SPECS).
Definition raw_errors (config : pydict) (key : string) : res (list string) :=
  match dget config key with Some v => validate_config [(PStr key, v)] | None => Ok [] end.
(** Every error of a merged configuration, in order. *)
Definition config_errors (blocks : list string) (config : pydict) (args : namespace) : res (list string) :=
  errors ← validate_merged_args args;
  raw ← mapR (raw_errors config) (raw_keys config);
  Ok (errors ++ connect_errors blocks config "links" ++ connect_errors blocks config "prefix_routes" ++ List.concat raw).

(** ** Names *)

(** [experiment_dir_name] and [topo_png_default_name] of attributes. *)
Definition dir_name (num seed : pv) (timestamp : bool) : string :=
  let seed_label := if is_none seed then "none" else py_str seed in
  let name := if is_none num then "seed" +s+ seed_label else "ex" +s+ py_str num +s+ "_seed" +s+ seed_label in
  if timestamp then name +s+ "_" +s+ now else name.
Definition png_name (num seed hosts : pv) : string := dir_name num seed false +s+ "_h" +s+ py_str hosts +s+ ".png".

(** [resolve_run_dir]: [None] is the current directory, which is not made. *)
Definition run_dir_of (args : namespace) : res (option path) :=
  let num := getattr_none args "num" in
  let output_dir := getattr_none args "output_dir" in
  if is_none num && negb (truthy output_dir) then Ok None else
  base ← (match output_dir with
          | PStr s => Ok (if bool_decide (s = "") then "logs" else s)
          | v => if truthy v then raise ETypeError "argument should be a str or an os.PathLike object" else Ok "logs"
          end);
  Ok (Some (path_join (pure_path base) (pure_path (dir_name num (getattr_none args "seed") (truthy (default (PBool false) (args !! "timestamp"))))))).
Definition here : path := mkPath false [].
Definition resolve_run_dir (args : namespace) : B path :=
  d ← lift (run_dir_of args);
  match d with None => mret here | Some d => perform (MakeDirs d) ≫= λ _, mret d end.

(** ** Metadata *)

(** [resolve_forwarding_config] as the dict it returns. *)
Definition forwarding_meta (config : pv) : res pv :=
  c ← (match config with PNone => Ok None | PDict d => Ok (Some d) | _ => raise EAttributeError "object has no attribute 'get'" end);
  let '(default_, nodes) := resolve_forwarding_config c in
  Ok (PDict ((PStr "default", default_) :: (if truthy nodes then [(PStr "nodes", nodes)] else []))).
Definition META_KEYS : list string := ["hosts"; "switches"; "seed"; "k"; "down_interval"; "down_duration"; "down_count"; "down_stagger"; "down_exclude"; "cache_count"].
Definition meta_data (args : namespace) : res pydict :=
  fields ← mapR (λ k, v ← getattr args k; Ok (PStr k, v)) META_KEYS;
  forwarding ← forwarding_meta (getattr_none args "forwarding_config");
  Ok ((PStr "num", getattr_none args "num") :: fields ++ [(PStr "forwarding", forwarding)]).

(** ** The sequence *)

(** [config_data] and the merged arguments; the errors are printed before exit. *)
Definition prepare (args : namespace) (blocks : list string) : B (pydict * namespace) :=
  file ← lift (getattr args "config");
  config_data ← lift (load_config file);
  legacy ← lift (legacy_warnings config_data);
  for_each say legacy ≫= λ _,
  config ← lift (as_dict config_data);
  for_each say (interval_warnings config) ≫= λ _,
  defaults ← lift (cli_defaults blocks);
  merged ← lift (merge_cli_and_config args config defaults);
  errors ← lift (config_errors blocks config merged);
  match errors with
  | [] => mret (config, merged)
  | _ => for_each (λ e, say ("config error: " +s+ e)) errors ≫= λ _, throw (Exn ESystemExit "1")
  end.

(** [if args.topo_png is None: args.topo_png = ...]. *)
Definition with_png (args : namespace) : res namespace :=
  png ← getattr args "topo_png";
  if is_none png then
    seed ← getattr args "seed"; hosts ← getattr args "hosts";
    Ok (<["topo_png" := PStr (png_name (getattr_none args "num") seed hosts)]> args)
  else Ok args.

(** [meta.json], which is written to a run directory only. *)
Definition write_meta (args : namespace) (run_dir : path) : B () :=
  if bool_decide (run_dir = here) then mret ()
  else meta ← lift (meta_data args); perform (WriteMeta (path_join run_dir (pure_path "meta.json")) meta).
(** The run directory, the default name of the picture and the metadata. *)
Definition make_run (merged : namespace) : B (namespace * path) :=
  run_dir ← resolve_run_dir merged;
  args ← lift (with_png merged);
  write_meta args run_dir ≫= λ _, mret (args, run_dir).

(** [log_path.parent]. *)
Definition parent (p : path) : path := mkPath (absolute p) (removelast (parts p)).
Definition script_log (args : namespace) (run_dir : path) : B path :=
  name ← lift (getattr args "script_log");
  name ← lift (if truthy name then match name with PStr s => Ok s | _ => raise ETypeError "argument should be a str or an os.PathLike object" end else Ok "script.log");
  log ← lift (resolve_run_path resolve path_str run_dir (Some (pure_path name)) (Some (pure_path "script.log")));
  perform (MakeDirs (parent log)) ≫= λ _, perform (OpenLog log) ≫= λ _, mret log.
Definition tee (s : streams) (log : path) : streams := mkStreams (Tee (stdout s) log) (Tee (stderr s) log).
Definition start_log (args : namespace) (run_dir : path) : B (option log_context) :=
  off ← lift (getattr args "no_script_log");
  if truthy off then mret None
  else
    log ← script_log args run_dir;
    s ← get b_streams;
    set_streams (tee s log) ≫= λ _, mret (Some (mkContext s (tee s log))).

(** [try: m finally: h]. *)
Definition finally {A} (m : B A) (h : B ()) : B A := λ w,
  let '(w1, out) := m w in match h w1 with (w2, inl _) => (w2, out) | (w2, inr e) => (w2, inr e) end.
Definition end_log (ctx : option log_context) : B () :=
  match ctx with Some c => set_streams (original c) ≫= λ _, perform CloseLog | None => mret () end.

(** [bootstrap_scenario]. *)
Definition bootstrap_scenario (args : namespace) (blocks : list string) : B () :=
  '(config, merged) ← prepare args blocks;
  '(args, run_dir) ← make_run merged;
  ctx ← start_log args run_dir;
  debug ← lift (build_debug_config args (get_none config "debug"));
  finally (perform SetLogLevel ≫= λ _, run_scenario args run_dir ctx debug) (end_log ctx).
End bootstrap.

(** * Specification *)

Section spec.
Context `{FloatRepr} `{IpLib}.
Context (exists_file : path → bool) (read_text : path → string + exn) (yaml : option (string → parsed)) (json_loads : string → parsed).
Context (resolve : path → path) (path_str : path → string) (now : string).
Context (reply : list (bsop * bsanswer) → bsop → bsanswer) (leaves : streams → streams).
Notation load := (load_config exists_file read_text yaml json_loads path_str).
Notation prep := (prepare exists_file read_text yaml json_loads path_str).
Notation boot_ := (bootstrap_scenario exists_file read_text yaml json_loads resolve path_str now reply leaves).

(** The file holds the dict [config], which the arguments merge into [merged], and
    checking finds [errors]. *)
Definition checked (args : namespace) (blocks : list string) (config : pydict) (merged : namespace) (errors : list string) : Prop :=
  ∃ file defaults, getattr args "config" = Ok file ∧ load file = Ok (PDict config) ∧ cli_defaults blocks = Ok defaults ∧
    merge_cli_and_config args config defaults = Ok merged ∧ config_errors blocks config merged = Ok errors.
Definition accepted args blocks config merged : Prop := checked args blocks config merged [].

Definition warnings (config : pydict) : list string :=
  (warn_ignored_legacy_content_keys ((λ k, (k, PNone)) <$> config.*1)).2 ++ interval_warnings config.
Definition prints (msgs : list string) : list (bsop * bsanswer) := (λ m, (Print m, Returned)) <$> msgs.
Definition config_error (e : string) : string := "config error: " +s+ e.
(** The operations that make the run directory and its files. *)
Definition is_file (o : bsop) : bool := match o with MakeDirs _ | WriteMeta _ _ => true | _ => false end.
Definition opened (t : list (bsop * bsanswer)) (log : path) : Prop := (OpenLog log, Returned) ∈ t.
Definition scenario_ran (t : list (bsop * bsanswer)) : Prop := ∃ args d ctx debug a, (RunScenario args d ctx debug, a) ∈ t.

Lemma says msgs w : for_each say msgs w = (mkBoot (b_trace w ++ prints msgs) (b_streams w), inl ()).
Proof.
  revert w. induction msgs as [|m msgs IH]; intros w; [unfold prints; simpl; rewrite app_nil_r; by destruct w|].
  simpl. unfold mbind, M_bind, say. rewrite IH. simpl. by rewrite <-app_assoc.
Qed.

Lemma checked_inj args blocks c1 m1 e1 c2 m2 e2 : checked args blocks c1 m1 e1 → checked args blocks c2 m2 e2 → c1 = c2 ∧ m1 = m2 ∧ e1 = e2.
Proof.
  intros (f1 & d1 & F1 & L1 & D1 & M1 & E1) (f2 & d2 & F2 & L2 & D2 & M2 & E2).
  rewrite F1 in F2. injection F2 as <-. rewrite L1 in L2. injection L2 as <-. rewrite D1 in D2. injection D2 as <-.
  rewrite M1 in M2. injection M2 as <-. rewrite E1 in E2. by injection E2 as <-.
Qed.

(** What preparing returns after printing [msgs]. *)
Definition prepare_result args blocks (msgs : list string) (out : pydict * namespace + exn) : Prop :=
  match out with
  | inl (config, merged) => accepted args blocks config merged ∧ msgs = warnings config
  | inr e => (∀ config merged, ¬ accepted args blocks config merged) ∧
      ∀ config merged errors, checked args blocks config merged errors → e = Exn ESystemExit "1" ∧ msgs = warnings config ++ (config_error <$> errors)
  end.
Lemma prepare_stops args blocks msgs e : (∀ config merged errors, ¬ checked args blocks config merged errors) → prepare_result args blocks msgs (inr e).
Proof. intros Hno. split; [intros c m Ha; by eapply Hno|]. intros c m es Hc. exfalso. by eapply Hno. Qed.

Ltac stop msgs := exists msgs; eexists; split; [done|]; apply prepare_stops;
  intros ?config ?merged ?errors (?file & ?defaults & ?E1 & ?E2 & ?E3 & ?E4 & ?E5);
  repeat match goal with A : ?x = Ok _, B : ?x = _ |- _ => rewrite A in B; first [discriminate B | injection B as ?; subst | clear B] end; try done.

(** Preparing prints, and ends with an accepted configuration or raises. *)
Lemma prepare_spec args blocks w : ∃ msgs out, prep args blocks w = (mkBoot (b_trace w ++ prints msgs) (b_streams w), out) ∧ prepare_result args blocks msgs out.
Proof.
  assert (Hw : w = mkBoot (b_trace w ++ prints []) (b_streams w)) by (destruct w; unfold prints; simpl; by rewrite app_nil_r).
  replace (prep args blocks w) with (prep args blocks (mkBoot (b_trace w ++ prints []) (b_streams w))) by (f_equal; done). unfold prepare, mbind, M_bind.
  unfold lift at 1. destruct (getattr args "config") as [file|e|] eqn:Ef; [|stop (@nil string)..].
  unfold lift at 1. destruct (load file) as [v|e|] eqn:Ev; [|stop (@nil string)..].
  unfold lift at 1. destruct (legacy_warnings v) as [legacy|e|] eqn:El; [|stop (@nil string)..].
  rewrite says. unfold lift at 1. cbn [b_trace b_streams]. rewrite <-app_assoc. assert (prints [] ++ prints legacy = prints legacy) as -> by done.
  destruct (as_dict v) as [config|e|] eqn:Ed; [|stop legacy..].
  assert (v = PDict config) as -> by (destruct v; simplify_eq/=; done). injection El as El. rewrite says. cbn [b_trace b_streams].
  assert (Hm : prints legacy ++ prints (interval_warnings config) = prints (warnings config)) by (unfold warnings, prints; by rewrite fmap_app, <-El).
  rewrite <-app_assoc, Hm.
  unfold lift at 1. destruct (cli_defaults blocks) as [defaults|e|] eqn:Edef; [|stop (warnings config)..].
  unfold lift at 1. destruct (merge_cli_and_config args config defaults) as [merged|e|] eqn:Em; [|stop (warnings config)..].
  unfold lift at 1. destruct (config_errors blocks config merged) as [errors|e|] eqn:Ee; [|stop (warnings config)..].
  assert (Hc : checked args blocks config merged errors) by (exists file, defaults; done).
  destruct errors as [|e0 errors]; [exists (warnings config), (inl (config, merged)); done|].
  change (λ e, say ("config error: " +s+ e)) with (λ e, say (config_error e)).
  assert (Hfor : ∀ es w, for_each (λ e, say (config_error e)) es w = for_each say (config_error <$> es) w).
  { induction es as [|x es IH]; intros w'; [done|]. simpl. unfold mbind, M_bind. destruct (say (config_error x) w') as [? [[]|]]; [apply IH|done]. }
  rewrite Hfor, says. unfold throw. cbn [b_trace b_streams]. exists (warnings config ++ (config_error <$> e0 :: errors)), (inr (Exn ESystemExit "1")).
  split; [unfold prints; by rewrite fmap_app, app_assoc|]. split.
  - intros c m Ha. by destruct (checked_inj _ _ _ _ _ _ _ _ Hc Ha) as (_ & _ & ?).
  - intros c m es Hc'. by destruct (checked_inj _ _ _ _ _ _ _ _ Hc Hc') as (-> & -> & ->).
Qed.

(** Operations on files, and all but opening a log. *)
Definition file_ops (t : list (bsop * bsanswer)) : Prop := Forall (λ oa, is_file oa.1 = true) t.
Definition no_log (oa : bsop * bsanswer) : bool := is_file oa.1 || match oa with (OpenLog _, Raised _) => true | _ => false end.

Lemma no_trace w : w = mkBoot (b_trace w ++ []) (b_streams w).
Proof. destruct w. simpl. by rewrite app_nil_r. Qed.
(** A step that raises before it does anything. *)
Ltac nothing := eexists [], (inr _); rewrite <-no_trace; split; [done|by repeat constructor].

Lemma resolve_run_dir_spec merged w : ∃ files out, resolve_run_dir now reply merged w = (mkBoot (b_trace w ++ files) (b_streams w), out) ∧ file_ops files ∧
  match out with inl d => ∃ r, run_dir_of now merged = Ok r ∧ d = default here r | inr _ => True end.
Proof.
  unfold resolve_run_dir, mbind, M_bind. unfold lift at 1. destruct (run_dir_of now merged) as [r|e|] eqn:Er; [|nothing..]. destruct r as [dir|].
  - unfold perform. destruct (reply _ _) as [|e]; [eexists _, (inl dir)|eexists _, (inr e)]; (split; [done|]); (split; [by repeat constructor|]); [|done]. by exists (Some dir).
  - eexists [], (inl here). rewrite <-no_trace. split; [done|]. split; [constructor|]. by exists None.
Qed.
Lemma write_meta_spec args d w : ∃ files out, write_meta reply args d w = (mkBoot (b_trace w ++ files) (b_streams w), out) ∧ file_ops files.
Proof.
  unfold write_meta, mbind, M_bind. case_bool_decide; [eexists [], (inl ()); rewrite <-no_trace; split; [done|constructor]|].
  unfold lift. destruct (meta_data args) as [m|e|]; [|nothing..].
  unfold perform. eexists _, _. split; [done|]. by repeat constructor.
Qed.
Lemma make_run_spec merged w : ∃ files out, make_run now reply merged w = (mkBoot (b_trace w ++ files) (b_streams w), out) ∧ file_ops files ∧
  match out with inl (a, d) => with_png now merged = Ok a ∧ ∃ r, run_dir_of now merged = Ok r ∧ d = default here r | inr _ => True end.
Proof.
  unfold make_run, mbind, M_bind. destruct (resolve_run_dir_spec merged w) as (f1 & out1 & -> & Hf1 & Ho1). destruct out1 as [d|e]; [|by exists f1, (inr e)].
  unfold lift. destruct (with_png now merged) as [a|e|] eqn:Ea; [|by eexists f1, (inr _)..].
  destruct (write_meta_spec a d (mkBoot (b_trace w ++ f1) (b_streams w))) as (f2 & out2 & -> & Hf2). cbn [b_trace b_streams]. rewrite <-app_assoc.
  assert (file_ops (f1 ++ f2)) by (by apply Forall_app). destruct out2 as [[]|e]; [by exists (f1 ++ f2), (inl (a, d))|by exists (f1 ++ f2), (inr e)].
Qed.

Lemma script_log_spec args d w : ∃ files out, script_log resolve path_str reply args d w = (mkBoot (b_trace w ++ files) (b_streams w), out) ∧
  match out with
  | inl log => ∃ name, files = [(MakeDirs (parent log), Returned); (OpenLog log, Returned)] ∧ resolve_run_path resolve path_str d (Some (pure_path name)) (Some (pure_path "script.log")) = Ok log
  | inr _ => Forall (λ oa, no_log oa = true) files
  end.
Proof.
  unfold script_log, mbind, M_bind. unfold lift at 1. destruct (getattr args "script_log") as [v|e|]; [|nothing..].
  unfold lift at 1. destruct (if truthy v then _ else _) as [name|e|]; [|nothing..].
  unfold lift at 1. destruct (resolve_run_path _ _ _ _ _) as [log|e|] eqn:Er; [|nothing..].
  unfold perform at 1. destruct (reply (b_trace w) (MakeDirs (parent log))) as [|e] eqn:E1.
  - unfold perform. cbn [b_trace b_streams]. rewrite <-app_assoc. destruct (reply _ (OpenLog log)) as [|e]; eexists _; [exists (inl log)|exists (inr e)]; (split; [done|]).
    + by exists name.
    + by repeat constructor.
  - eexists _, (inr e). split; [done|]. by repeat constructor.
Qed.

Lemma start_log_spec args d w : ∃ files s out, start_log resolve path_str reply args d w = (mkBoot (b_trace w ++ files) s, out) ∧
  match out with
  | inl None => files = [] ∧ s = b_streams w
  | inl (Some c) => ∃ log name, files = [(MakeDirs (parent log), Returned); (OpenLog log, Returned)] ∧ c = mkContext (b_streams w) (tee (b_streams w) log) ∧ s = tee (b_streams w) log ∧
      resolve_run_path resolve path_str d (Some (pure_path name)) (Some (pure_path "script.log")) = Ok log
  | inr _ => Forall (λ oa, no_log oa = true) files ∧ s = b_streams w
  end.
Proof.
  unfold start_log, mbind, M_bind. unfold lift at 1. destruct (getattr args "no_script_log") as [v|e|]; [|eexists [], _, (inr _); rewrite <-no_trace; split; [done|by repeat constructor]..].
  destruct (truthy v); [eexists [], _, (inl None); rewrite <-no_trace; done|].
  destruct (script_log_spec args d w) as (files & out & -> & Ho). destruct out as [log|e]; [|by eexists files, _, (inr e)].
  destruct Ho as (name & -> & Hr). eexists _, _, (inl (Some _)). split; [done|]. by exists log, name.
Qed.

(** ** The arguments stay a parsed command line *)

(** argparse stores a list of strings for [--debug-artifact]. *)
Definition from_argparse (args : namespace) : Prop := ∀ v, args !! "debug_artifact" = Some v → v = PNone ∨ ∃ l, v = PList (PStr <$> l).

Lemma wrap_str_other k k' args args' : wrap_str k args = Ok args' → k' ≠ k → args' !! k' = args !! k'.
Proof.
  unfold wrap_str. destruct (args !! k) as [[]|] eqn:Ek; try done; intros [= <-]; try done. case_bool_decide; [done|]. intros. by apply lookup_insert_ne.
Qed.
Lemma merged_artifacts args config defaults merged : merge_cli_and_config args config defaults = Ok merged → merged !! "debug_artifact" = args !! "debug_artifact".
Proof.
  unfold merge_cli_and_config. intros E. pose proof (merge_lookup args config defaults "debug_artifact") as Hl. set (args2 := foldl (merge_special config) _ _) in *. clearbody args2.
  destruct (wrap_str "bw" args2) as [args3|e|] eqn:E3; [|done..]. cbn [mbind res_bind] in E.
  rewrite (wrap_str_other _ _ _ _ E) by done. by rewrite (wrap_str_other _ _ _ _ E3).
Qed.
Lemma with_png_artifacts args a : with_png now args = Ok a → a !! "debug_artifact" = args !! "debug_artifact".
Proof.
  unfold with_png. destruct (getattr args "topo_png") as [png|e|]; [|done..]. cbn [mbind res_bind]. destruct (is_none png); [|by intros [= <-]].
  destruct (getattr args "seed") as [s|e|]; [|done..]. cbn [mbind res_bind]. destruct (getattr args "hosts") as [h|e|]; [|done..]. cbn [mbind res_bind].
  intros [= <-]. by apply lookup_insert_ne.
Qed.
Lemma debug_config_ok args raw : from_argparse args → ∃ d, build_debug_config args raw = Ok d.
Proof.
  intros Ha. unfold build_debug_config, getattr_none. destruct (args !! "debug_artifact") as [v|] eqn:E; [|eexists; reflexivity].
  destruct (Ha v E) as [->|[l ->]]; [eexists; reflexivity|]. cbn [default from_option id]. destruct (truthy (PList _)); [|eexists; reflexivity]. cbn [py_list mbind res_bind].
  assert (forallb hashable (PStr <$> l) = true) as ->; [|eexists; reflexivity]. apply forallb_forall. by intros v' (s & -> & _)%list_elem_of_In%list_elem_of_fmap.
Qed.

(** ** The whole sequence *)

Definition answer_of (a : bsanswer) : () + exn := match a with Returned => inl () | Raised e => inr e end.
(** The scenario, or the exception of the log level, and what is made of it when the
    log is closed. *)
Definition run_ops (args : namespace) (d : path) (ctx : option log_context) (debug : DebugConfig) (t : list (bsop * bsanswer)) (ran : bool) (out : () + exn) : Prop :=
  if ran then ∃ a, t = [(SetLogLevel, Returned); (RunScenario args d ctx debug, a)] ∧ out = answer_of a
  else ∃ e, t = [(SetLogLevel, Raised e)] ∧ out = inr e.

Lemma run_ops_spec args d ctx debug w : ∃ t ran s out,
  (perform reply SetLogLevel ≫= λ _, run_scenario reply leaves args d ctx debug) w = (mkBoot (b_trace w ++ t) s, out) ∧
  run_ops args d ctx debug t ran out ∧ (ran = false → s = b_streams w).
Proof.
  unfold mbind, M_bind, perform, run_scenario. destruct (reply (b_trace w) SetLogLevel) as [|e] eqn:E1.
  - cbn [b_trace b_streams]. eexists _, true, _, _. rewrite <-app_assoc. split; [done|]. split; [|done]. eexists. split; [done|]. by destruct (reply _ _).
  - eexists _, false, _, _. split; [done|]. split; [|done]. by exists e.
Qed.

(** The sequence after an accepted configuration: files, then nothing but failed
    steps, or the scenario between the opening and the closing of the log. *)
Definition continued (s : streams) (config : pydict) (merged : namespace) (rest : list (bsop * bsanswer)) (s' : streams) (out : () + exn) : Prop :=
  (Forall (λ oa, no_log oa = true) rest ∧ s' = s ∧ ∃ e, out = inr e) ∨
  ∃ a d r debug files body ran out1, with_png now merged = Ok a ∧ run_dir_of now merged = Ok r ∧ d = default here r ∧ build_debug_config a (get_none config "debug") = Ok debug ∧ file_ops files ∧
    ((rest = files ++ body ∧ run_ops a d None debug body ran out1 ∧ out = out1 ∧ (ran = false → s' = s)) ∨
     ∃ log name c, let ctx := Some (mkContext s (tee s log)) in
       rest = files ++ [(MakeDirs (parent log), Returned); (OpenLog log, Returned)] ++ body ++ [(CloseLog, c)] ∧ run_ops a d ctx debug body ran out1 ∧
       resolve_run_path resolve path_str d (Some (pure_path name)) (Some (pure_path "script.log")) = Ok log ∧
       out = match c with Returned => out1 | Raised e => inr e end ∧ s' = s).

Lemma boot_spec args blocks s : from_argparse args → ∃ msgs rest s' out, boot_ args blocks (mkBoot [] s) = (mkBoot (prints msgs ++ rest) s', out) ∧
  ((∃ e, rest = [] ∧ s' = s ∧ out = inr e ∧ prepare_result args blocks msgs (inr e)) ∨
   ∃ config merged, accepted args blocks config merged ∧ msgs = warnings config ∧ continued s config merged rest s' out).
Proof.
  intros Ha. unfold bootstrap_scenario. unfold mbind at 1, M_bind at 1. destruct (prepare_spec args blocks (mkBoot [] s)) as (msgs & out1 & -> & Hp). cbn [b_trace b_streams app].
  destruct out1 as [[config merged]|e]; [|exists msgs, [], s, (inr e); rewrite app_nil_r; split; [done|]; left; by exists e]. destruct Hp as [Hacc Hmsgs].
  assert (Hart : ∀ a, with_png now merged = Ok a → from_argparse a).
  { destruct Hacc as (f & df & _ & _ & _ & Em & _). intros a Ea v Hv. apply Ha. by rewrite <-(merged_artifacts _ _ _ _ Em), <-(with_png_artifacts _ _ Ea). }
  assert (Hwrap : ∀ rest s' out, continued s config merged rest s' out →
    ∃ msgs0 rest0 s'0 out0, (mkBoot (prints msgs ++ rest) s', out) = (mkBoot (prints msgs0 ++ rest0) s'0, out0) ∧
    ((∃ e, rest0 = [] ∧ s'0 = s ∧ out0 = inr e ∧ prepare_result args blocks msgs0 (inr e)) ∨
     ∃ config merged, accepted args blocks config merged ∧ msgs0 = warnings config ∧ continued s config merged rest0 s'0 out0)).
  { intros rest s' out Hc. exists msgs, rest, s', out. split; [done|]. right. by exists config, merged. }
  unfold mbind at 1, M_bind at 1. destruct (make_run_spec merged (mkBoot (prints msgs) s)) as (files & out2 & -> & Hf & Ho2). cbn [b_trace b_streams].
  assert (Hquiet : Forall (λ oa, no_log oa = true) files) by (eapply Forall_impl; [exact Hf|]; intros oa; unfold no_log; by intros ->).
  destruct out2 as [[a d]|e]; [|apply Hwrap; left; by eauto]. destruct Ho2 as (Epng & r & Er & Ed).
  unfold mbind at 1, M_bind at 1. destruct (start_log_spec a d (mkBoot (prints msgs ++ files) s)) as (logs & s2 & out3 & -> & Ho3). cbn [b_trace b_streams] in Ho3 |- *.
  destruct out3 as [ctx|e].
  2:{ destruct Ho3 as [Hl ->]. rewrite <-app_assoc. apply Hwrap. left. split; [by apply Forall_app|]. by eauto. }
  unfold mbind at 1, M_bind at 1. unfold lift at 1. destruct (debug_config_ok a (get_none config "debug") (Hart a Epng)) as [debug Edebug]. rewrite Edebug.
  unfold finally. destruct (run_ops_spec a d ctx debug (mkBoot ((prints msgs ++ files) ++ logs) s2)) as (body & ran & s3 & out4 & -> & Hrun & Hs3). cbn [b_trace b_streams] in Hs3 |- *.
  destruct ctx as [c|].
  - destruct Ho3 as (log & name & -> & -> & -> & Elog). unfold end_log, mbind, M_bind, set_streams, perform. cbn [b_trace b_streams original].
    assert (∀ x, (((((prints msgs ++ files) ++ [(MakeDirs (parent log), Returned); (OpenLog log, Returned)]) ++ body) ++ [(CloseLog, x)]) : list (bsop * bsanswer))
      = prints msgs ++ (files ++ [(MakeDirs (parent log), Returned); (OpenLog log, Returned)] ++ body ++ [(CloseLog, x)])) as Hassoc by (intros x; by rewrite <-!app_assoc).
    rewrite Hassoc. destruct (reply _ CloseLog) as [|e]; apply Hwrap; right; exists a, d, r, debug, files, body, ran, out4; (split_and!; [done..|]); right;
      eexists log, name, _; (split_and!; [done..|]); done.
  - destruct Ho3 as [-> ->]. rewrite app_nil_r, <-app_assoc. apply Hwrap. right. exists a, d, r, debug, files, body, ran, out4. split_and!; [done..|]. left. done.
Qed.
End spec.

(** * Theorem *)

(** Neither the scenario nor the opening of a log. *)
Definition quiet (oa : bsop * bsanswer) : bool := match oa with (RunScenario _ _ _ _, _) | (OpenLog _, Returned) => false | _ => true end.
Notation all_quiet t := (Forall (λ oa, quiet oa = true) t).

Lemma prints_quiet msgs : all_quiet (prints msgs).
Proof. apply Forall_fmap, Forall_true. done. Qed.
Lemma files_quiet t : file_ops t → all_quiet t.
Proof. intros Ht. eapply Forall_impl; [exact Ht|]. intros [[] []]; done. Qed.
Lemma no_log_quiet t : Forall (λ oa, no_log oa = true) t → all_quiet t.
Proof. intros Ht. eapply Forall_impl; [exact Ht|]. intros [[] []]; done. Qed.
Lemma quiet_not_ran t : all_quiet t → ¬ scenario_ran t.
Proof. intros Ht (a & d & c & g & x & Hin). by eapply Forall_forall in Hin; [|exact Ht]. Qed.
Lemma quiet_not_opened t log : all_quiet t → ¬ opened t log.
Proof. intros Ht Hin. by eapply Forall_forall in Hin; [|exact Ht]. Qed.

Lemma not_ran_app (t t' : list (bsop * bsanswer)) : ¬ scenario_ran t → ¬ scenario_ran t' → ¬ scenario_ran (t ++ t').
Proof. intros H1 H2 (a & d & c & g & x & [Hin|Hin]%elem_of_app); [apply H1|apply H2]; by eexists _, _, _, _, _. Qed.
Definition opening (log : path) : list (bsop * bsanswer) := [(MakeDirs (parent log), Returned); (OpenLog log, Returned)].
Lemma opening_not_ran log : ¬ scenario_ran (opening log).
Proof. intros (a & d & c & g & x & Hin). unfold opening in Hin. rewrite !elem_of_cons, elem_of_nil in Hin. naive_solver. Qed.

(** The only scenario of a trace is the one between quiet operations. *)
Lemma ran_middle (before after : list (bsop * bsanswer)) a d ctx debug x a' d' ctx' debug' x' : ¬ scenario_ran before → ¬ scenario_ran after →
  (RunScenario a' d' ctx' debug', x') ∈ before ++ (RunScenario a d ctx debug, x) :: after → (RunScenario a' d' ctx' debug', x') = (RunScenario a d ctx debug, x).
Proof.
  intros Hb Ha [Hin|Hin]%elem_of_app; [exfalso; apply Hb; by eexists _, _, _, _, _|]. apply elem_of_cons in Hin as [?|Hin]; [done|]. exfalso. apply Ha. by eexists _, _, _, _, _.
Qed.

Section gate.
Context `{FloatRepr} `{IpLib}.
Context (exists_file : path → bool) (read_text : path → string + exn) (yaml : option (string → parsed)) (json_loads : string → parsed).
Context (resolve : path → path) (path_str : path → string) (now : string).
Context (reply : list (bsop * bsanswer) → bsop → bsanswer) (leaves : streams → streams).
Notation accepts args blocks := (accepted exists_file read_text yaml json_loads path_str args blocks).

(** How a scenario is run by an accepted configuration. *)
Definition run_as args blocks (s : streams) (t : list (bsop * bsanswer)) (out : () + exn) (a : namespace) (d : path) (ctx : option log_context) (debug : DebugConfig) (x : bsanswer) : Prop :=
  ∃ config merged r before after, accepts args blocks config merged ∧ with_png now merged = Ok a ∧ run_dir_of now merged = Ok r ∧ d = default here r ∧
    build_debug_config a (get_none config "debug") = Ok debug ∧ t = before ++ (RunScenario a d ctx debug, x) :: after ∧ ¬ scenario_ran (before ++ after) ∧
    match ctx with
    | None => after = [] ∧ out = answer_of x
    | Some c => ∃ log y name, opened before log ∧ resolve_run_path resolve path_str d (Some (pure_path name)) (Some (pure_path "script.log")) = Ok log ∧
        c = mkContext s (tee s log) ∧ after = [(CloseLog, y)] ∧ out = match y with Returned => answer_of x | Raised e => inr e end
    end.
(** What a start leaves. *)
Definition start_ok args blocks (s : streams) (t : list (bsop * bsanswer)) (s' : streams) (out : () + exn) : Prop :=
  (∀ a d ctx debug x, (RunScenario a d ctx debug, x) ∈ t → run_as args blocks s t out a d ctx debug x) ∧
  (∀ log, opened t log → s' = s ∧ ∃ t' x, t = t' ++ [(CloseLog, x)]) ∧ (¬ scenario_ran t → s' = s).

Lemma start_quiet args blocks s t out : all_quiet t → start_ok args blocks s t s out.
Proof.
  intros Ht. split; [|split; [|done]].
  - intros a d ctx debug x Hin. exfalso. apply (quiet_not_ran t Ht). by eexists _, _, _, _, _.
  - intros log Ho. by apply quiet_not_opened in Ho.
Qed.

Lemma continued_ok args blocks s config merged rest s' out : accepts args blocks config merged →
  continued resolve path_str now s config merged rest s' out → start_ok args blocks s (prints (warnings config) ++ rest) s' out.
Proof.
  intros Ha [(Hn & -> & _)|(a & d & r & debug & files & body & ran & out1 & Ea & Er & Ed & Edebug & Hf & Hc)].
  { apply start_quiet, Forall_app. split; [apply prints_quiet|by apply no_log_quiet]. }
  assert (Hpre : all_quiet (prints (warnings config) ++ files)) by (apply Forall_app; split; [apply prints_quiet|by apply files_quiet]).
  destruct Hc as [(-> & Hrun & -> & Hs)|(log & name & c & -> & Hrun & Elog & -> & ->)]; destruct ran.
  - destruct Hrun as (x & -> & ->). assert (Hb : all_quiet ((prints (warnings config) ++ files) ++ [(SetLogLevel, Returned)])) by (apply Forall_app; split; [done|by repeat constructor]).
    assert (∀ o : bsop * bsanswer, prints (warnings config) ++ files ++ [(SetLogLevel, Returned); o] = ((prints (warnings config) ++ files) ++ [(SetLogLevel, Returned)]) ++ [o]) as -> by (intros; by rewrite <-!app_assoc).
    split; [|split].
    + intros a' d' ctx' debug' x' Hin. apply ran_middle in Hin; [|by apply quiet_not_ran|by apply quiet_not_ran]. simplify_eq. exists config, merged, r. eexists _, []. split_and!; try done. rewrite app_nil_r. by apply quiet_not_ran.
    + intros log [Ho|Ho]%elem_of_app; [by apply quiet_not_opened in Ho|]. apply list_elem_of_singleton in Ho. done.
    + intros Hno. exfalso. apply Hno. eexists _, _, _, _, _. apply elem_of_app. right. by left.
  - destruct Hrun as (e & -> & ->). rewrite (Hs eq_refl). apply start_quiet. rewrite app_assoc. apply Forall_app. split; [done|by repeat constructor].
  - destruct Hrun as (x & -> & ->). fold (opening log).
    assert (Hb : ¬ scenario_ran (((prints (warnings config) ++ files) ++ opening log) ++ [(SetLogLevel, Returned)])).
    { apply not_ran_app; [apply not_ran_app; [by apply quiet_not_ran|apply opening_not_ran]|apply quiet_not_ran; by repeat constructor]. }
    assert (Hl : ∀ x0, ¬ scenario_ran [(CloseLog, x0)]) by (intros x0; apply quiet_not_ran; by repeat constructor).
    assert (∀ o c : bsop * bsanswer, prints (warnings config) ++ files ++ opening log ++ [(SetLogLevel, Returned); o] ++ [c] = (((prints (warnings config) ++ files) ++ opening log) ++ [(SetLogLevel, Returned)]) ++ o :: [c]) as -> by (intros; by rewrite <-!app_assoc).
    split; [|split; [|done]].
    + intros a' d' ctx' debug' x' Hin. apply ran_middle in Hin; [|done|done]. simplify_eq. exists config, merged, r. eexists _, _. split_and!; try done; [by apply not_ran_app|].
      exists log, c, name. split_and!; try done. apply elem_of_app. left. apply elem_of_app. right. right. by left.
    + intros log' _. split; [done|]. eexists _, c. exact (app_assoc _ [_] [_]).
  - destruct Hrun as (e & -> & ->). fold (opening log).
    assert (Hb : ¬ scenario_ran (prints (warnings config) ++ files ++ opening log ++ [(SetLogLevel, Raised e)] ++ [(CloseLog, c)])).
    { rewrite app_assoc. apply not_ran_app; [by apply quiet_not_ran|]. apply not_ran_app; [apply opening_not_ran|apply quiet_not_ran; by repeat constructor]. }
    split; [|split; [|done]].
    + intros a' d' ctx' debug' x' Hin. exfalso. apply Hb. by eexists _, _, _, _, _.
    + intros log' _. split; [done|]. exists (prints (warnings config) ++ files ++ opening log ++ [(SetLogLevel, Raised e)]), c. by rewrite <-!app_assoc.
Qed.
End gate.

(** C32: starting a scenario: nothing but warnings and messages happens unless the
    configuration was read, merged and accepted; a rejected one is reported error by
    error and ends with status 1, no directory or file made; the scenario is run at
    most once, with the accepted arguments, their run directory and debug settings,
    and its exception is what the start raises; and once a script log was opened, its
    closing is the last operation and the output streams are those before the start,
    whatever the scenario and the files do. *)
Theorem bootstrap_gated `{FloatRepr} `{IpLib} exists_file read_text yaml json_loads resolve path_str now reply leaves args blocks s : from_argparse args →
  let '(w, out) := bootstrap_scenario exists_file read_text yaml json_loads resolve path_str now reply leaves args blocks (mkBoot [] s) in
  (∀ o x, (o, x) ∈ b_trace w → (∃ m, o = Print m) ∨ ∃ config merged, accepted exists_file read_text yaml json_loads path_str args blocks config merged) ∧
  (∀ config merged errors, checked exists_file read_text yaml json_loads path_str args blocks config merged errors → errors ≠ [] →
     out = inr (Exn ESystemExit "1") ∧ b_trace w = prints (warnings config ++ (config_error <$> errors)) ∧ b_streams w = s) ∧
  (∀ a d ctx debug x, (RunScenario a d ctx debug, x) ∈ b_trace w →
     run_as exists_file read_text yaml json_loads resolve path_str now args blocks s (b_trace w) out a d ctx debug x) ∧
  (∀ log, opened (b_trace w) log → b_streams w = s ∧ ∃ t x, b_trace w = t ++ [(CloseLog, x)]) ∧
  (¬ scenario_ran (b_trace w) → b_streams w = s).
Proof.
  intros Hargs. destruct (boot_spec exists_file read_text yaml json_loads resolve path_str now reply leaves args blocks s Hargs) as (msgs & rest & s' & out & -> & Hcase).
  cbn [b_trace b_streams]. destruct Hcase as [(e & -> & -> & -> & Hno & Hrej)|(config & merged & Hacc & -> & Hcont)].
  - rewrite app_nil_r. split_and!.
    + intros o x (m & [= -> ->] & _)%list_elem_of_fmap. left. by exists m.
    + intros config merged errors Hc _. by destruct (Hrej _ _ _ Hc) as [-> ->].
    + apply (start_quiet _ _ _ _ _ _ _ _ _ _ _ (inr e)), prints_quiet.
    + intros log Ho. exfalso. by eapply quiet_not_opened in Ho; [|apply prints_quiet].
    + done.
  - split; [|split; [|by eapply continued_ok]].
    + intros o x _. right. by exists config, merged.
    + intros config' merged' errors Hc He. exfalso. apply He. by destruct (checked_inj _ _ _ _ _ _ _ _ _ _ _ _ _ Hacc Hc) as (_ & _ & <-).
Qed.

(** * Examples *)

(** Both entry points give the parser each option once. *)
Example parsers_built : is_Some (match cli_defaults ["common"; "mesh"; "disaster"], cli_defaults ["connect"] with Ok a, Ok b => Some (size a, size b) | _, _ => None end).
Proof. vm_compute. by eexists. Qed.
(** A flag that is spelled out with its default value is overridden by the
    configuration: the merge cannot tell it from one that was not given. *)
Example explicit_default_overridden :
  match cli_defaults ["common"; "mesh"; "disaster"] with
  | Ok defaults =>
      match merge_cli_and_config (<["hosts" := PInt 5]> defaults) [(PStr "hosts", PInt 9)] defaults with
      | Ok merged => getattr_none defaults "hosts" = PInt 5 ∧ merged !! "hosts" = Some (PInt 9)
      | _ => False
      end
  | _ => False
  end.
Proof. vm_compute. done. Qed.
(** A configuration that is a list is no dict: the warnings, which promise never to
    raise on any shape, raise on it. *)
Example top_level_list : (keys ← legacy_warnings (PList [PStr "hosts"]); as_dict (PList [PStr "hosts"])) = raise EAttributeError "object has no attribute 'get'".
Proof. reflexivity. Qed.

#[local] Instance toy_text : FloatRepr := λ _, "0.0".
#[local] Instance toy_network : IpLib := {| ip_interface_ok := λ _, true; ip_network_prefixlen := λ _, Some 16 |}.
Definition demo_args : namespace :=
  <["config" := PStr "exp.json"]> (match cli_defaults ["common"; "mesh"; "disaster"] with Ok d => d | _ => ∅ end).
Definition demo_resolve (p : path) : path := if absolute p then p else mkPath true ("work" :: parts p).
Definition boom : exn := Exn EOther "boom".
(** A run whose scenario leaves other streams behind and raises. *)
Definition demo_start : boot * (() + exn) :=
  bootstrap_scenario (λ _, true) (λ _, inl "text") None (λ _, Parsed (PDict [(PStr "hosts", PInt 6)])) demo_resolve (λ _, "") "now"
    (λ _ o, match o with RunScenario _ _ _ _ => Raised boom | _ => Returned end) (λ _, mkStreams (Std "cli") (Std "cli"))
    demo_args ["common"; "mesh"; "disaster"] (mkBoot [] (mkStreams (Std "out") (Std "err"))).
Definition demo_log : path := mkPath true ["work"; "logs"; "seednone"; "script.log"].
Lemma bootstrap_gated_witness : demo_start.2 = inr boom ∧ b_streams demo_start.1 = mkStreams (Std "out") (Std "err") ∧
  ((λ o, match o.1 with RunScenario a _ _ _ => a !! "hosts" | _ => None end) <$> b_trace demo_start.1) !! 5%nat = Some (Some (PInt 6)) ∧
  ∃ t x, b_trace demo_start.1 = t ++ [(CloseLog, x)].
Proof.
  assert (Hargs : from_argparse demo_args) by (intros v Hv; vm_compute in Hv; discriminate).
  pose proof (bootstrap_gated (λ _, true) (λ _, inl "text") None (λ _, Parsed (PDict [(PStr "hosts", PInt 6)])) demo_resolve (λ _, "") "now"
    (λ _ o, match o with RunScenario _ _ _ _ => Raised boom | _ => Returned end) (λ _, mkStreams (Std "cli") (Std "cli"))
    demo_args ["common"; "mesh"; "disaster"] (mkStreams (Std "out") (Std "err")) Hargs) as T. fold demo_start in T.
  assert (Hlog : opened (b_trace demo_start.1) demo_log) by (apply (list_elem_of_lookup_2 _ 3%nat); vm_compute; reflexivity).
  split; [vm_compute; reflexivity|]. rewrite (surjective_pairing demo_start) in T. destruct T as (_ & _ & _ & Hopen & _).
  destruct (Hopen demo_log Hlog) as [Hs Ht]. split; [exact Hs|]. split; [vm_compute; reflexivity|exact Ht].
Defined.
(** The same file for the connect scenario, with [links]: refused, nothing made. *)
Example links_refused : let w := bootstrap_scenario (λ _, true) (λ _, inl "text") None (λ _, Parsed (PDict [(PStr "links", PList [PList [PInt 0; PInt 1]; PList [PInt 1; PInt 2]]); (PStr "hosts", PInt 3)]))
    demo_resolve (λ _, "") "now" (λ _ _, Returned) id (<["config" := PStr "exp.json"]> (match cli_defaults ["connect"] with Ok d => d | _ => ∅ end)) ["connect"] (mkBoot [] (mkStreams (Std "out") (Std "err"))) in
  w.2 = inr (Exn ESystemExit "1") ∧ (b_trace w.1).*1 = [Print (config_error (unsupported "links"))].
Proof. vm_compute. done. Qed.
