(* ===== verification/Campaign.v ===== *)
(** Component: unattended campaigns (tools/workshop/campaign.py): a manifest of jobs
    run one after the other, each in a subprocess with a deadline and one retry, its
    attempts recorded in a journal that a later invocation resumes from.  The
    environment answers the subprocesses, the memory and the writes, and may end an
    invocation at any of them. *)
From S2P Require Import Prelude PyValue PyString PyText PyNum StateMonad Events Artifacts Bootstrap.
Local Open Scope Z_scope.

(** * The manifest *)

Definition required_keys (kind : pv) : option (list string) :=
  if eq_str kind "disaster" then Some ["config"; "seed"; "num"; "duration"; "timeout"]
  else if eq_str kind "linear" then Some ["hosts"; "timeout"] else None.
(** [_validate_job]: the message it exits with, if any. *)
Definition validate_job `{FloatRepr} (job : pydict) (index : nat) : res () :=
  let at_ := "manifest job[" +s+ str_Z (Z.of_nat index) +s+ "]" in
  match dget job "id" with
  | None => raise ESystemExit (at_ +s+ " missing required key 'id'")
  | Some id =>
      let kind := get_none job "kind" in
      match required_keys kind with
      | None => raise ESystemExit (at_ +s+ " (" +s+ repr id +s+ "): unknown kind " +s+ repr kind +s+ " (expected 'disaster' or 'linear')")
      | Some required =>
          match List.filter (λ k, negb (dhas job k)) required with
          | [] => Ok ()
          | missing => raise ESystemExit (at_ +s+ " (" +s+ repr id +s+ ", kind=" +s+ py_str kind +s+ "): missing required key(s) " +s+ repr (PList (PStr <$> missing)))
          end
      end
  end.
(** An entry of the file: only a dict has a [get]. *)
Definition validate_entry `{FloatRepr} (v : pv) (index : nat) : res pydict :=
  let no_id := raise ESystemExit ("manifest job[" +s+ str_Z (Z.of_nat index) +s+ "] missing required key 'id'") in
  let no_get := raise EAttributeError "object has no attribute 'get'" in
  match v with
  | PDict job => validate_job job index ≫= λ _, Ok job
  | PList l => if existsb (pv_eqb (PStr "id")) l then no_get else no_id
  | PStr s => if contains s "id" then no_get else no_id
  | _ => raise ETypeError "argument is not iterable"
  end.
Fixpoint validate_jobs `{FloatRepr} (entries : list pv) (index : nat) : res (list pydict) :=
  match entries with
  | [] => Ok []
  | v :: entries => job ← validate_entry v index; jobs ← validate_jobs entries (S index); Ok (job :: jobs)
  end.
(** [_load_manifest] of the parsed file. *)
Definition load_manifest `{FloatRepr} (manifest_path : string) (data : pydict) : res (list pydict) :=
  match get_none data "jobs" with
  | PList (v :: entries) => validate_jobs (v :: entries) 0
  | _ => raise ESystemExit ("manifest " +s+ manifest_path +s+ ": 'jobs' must be a non-empty list")
  end.

(** * Commands *)

(** [shlex.quote] of an ASCII string. *)
Definition shell_safe (c : ascii) : bool :=
  let n := code c in
  ((48 <=? n) && (n <=? 57) || (65 <=? n) && (n <=? 90) || (97 <=? n) && (n <=? 122))%N || existsb (λ k, (n =? k)%N) [95; 64; 37; 43; 61; 58; 44; 46; 47; 45]%N.
Definition squote : string := String (Ascii.ascii_of_N 39) EmptyString.
Definition shell_quote (s : string) : string :=
  if bool_decide (s = "") then squote +s+ squote
  else if all_chars shell_safe s then s
  else squote +s+ replace s squote (squote +s+ dquote +s+ squote +s+ dquote +s+ squote) +s+ squote.

(** A command is an argument vector, or a line for the shell. *)
Inductive job_command := Argv (argv : list string) | Shell (line : string).
(** [_format_cmd_for_display]. *)
Definition format_cmd_for_display (c : job_command) : string :=
  match c with Shell line => line | Argv argv => join " " (shell_quote <$> argv) end.

Definition OUTER_TIMEOUT_GRACE_SEC : Z := 30.

Section commands.
Context `{FloatRepr} (path_str : path → string) (root : path) (py : string).

(** [_disaster_cmd] and [_linear_cmd]; [_disaster_run_dir] and [_linear_run_dir]. *)
Definition disaster_cmd (job : pydict) (job_out : path) : res job_command :=
  config ← getitem job "config"; seed ← getitem job "seed"; num ← getitem job "num"; duration ← getitem job "duration";
  Ok (Argv [py; path_str (path_join root (pure_path "tools/autotest/run.py")); "--base-config"; py_str config; "--runs"; "1";
            "--seed-base"; py_str seed; "--start-num"; py_str num; "--duration"; py_str duration; "--out"; path_str job_out]).
Definition linear_cmd (job : pydict) (job_out : path) : res job_command :=
  timeout ← (v ← getitem job "timeout"; py_int v);
  hosts ← (v ← getitem job "hosts"; py_int v);
  Ok (Shell ("printf 'exit\n' | timeout " +s+ str_Z timeout +s+ " " +s+ shell_quote py +s+ " -m src linear --hosts " +s+ str_Z hosts +s+ " --output-dir " +s+ shell_quote (path_str job_out))).
Definition disaster_run_dir (job : pydict) (job_out : path) : res path :=
  num ← getitem job "num"; seed ← getitem job "seed";
  Ok (path_join (path_join (path_join job_out (pure_path "run_0001")) (pure_path "logs")) (pure_path (dir_name "" num seed false))).
Definition linear_run_dir (job_out : path) : path := path_join job_out (pure_path (dir_name "" PNone PNone false)).
(** [_build_job_command]: the command, the deadline and the run directory. *)
Definition build_job_command (job : pydict) (job_out : path) : res (job_command * Z * path) :=
  kind ← getitem job "kind";
  if eq_str kind "disaster" then
    cmd ← disaster_cmd job job_out;
    timeout ← (v ← getitem job "timeout"; py_int v);
    run_dir ← disaster_run_dir job job_out;
    Ok (cmd, timeout, run_dir)
  else if eq_str kind "linear" then
    cmd ← linear_cmd job job_out;
    timeout ← (v ← getitem job "timeout"; py_int v);
    Ok (cmd, timeout + OUTER_TIMEOUT_GRACE_SEC, linear_run_dir job_out)
  else raise EAssertionError "unreachable: unknown kind".
End commands.

(** * Memory *)

Definition colon : ascii := Ascii.ascii_of_N 58.
(** [_read_meminfo]: the fields of [/proc/meminfo] in kB. *)
Definition meminfo_line (info : gmap string Z) (line : string) : res (gmap string Z) :=
  let '(key, rest) := partition colon line in
  match span not_space (strip (default "" rest)) with
  | (EmptyString, _) => Ok info
  | (word, _) => match int_of_string word with Some n => Ok (<[key := n]> info) | None => raise EValueError "invalid literal for int() with base 10" end
  end.
Definition read_meminfo (lines : list string) : res (gmap string Z) := foldM meminfo_line ∅ lines.
Definition mem_field (info : gmap string Z) (k : string) : res Z := match info !! k with Some n => Ok n | None => raise EKeyError k end.
Definition mem_available_fraction (info : gmap string Z) : res pyfloat :=
  available ← mem_field info "MemAvailable"; total ← mem_field info "MemTotal";
  if total =? 0 then raise EOther "division by zero" else Ok (double_of_ratio (Z.sgn total * available) (Z.abs total)).
Definition mem_used_kb (info : gmap string Z) : res Z :=
  total ← mem_field info "MemTotal"; available ← mem_field info "MemAvailable"; Ok (total - available).
Definition MEM_AVAILABLE_MIN_FRACTION : pyfloat := double_of_ratio 1 5.

(** * The journal *)

Inductive job_status := SOk | SFailed | STimeout | SSkippedMemory.
#[export] Instance job_status_eq_dec : EqDecision job_status.
Proof. solve_decision. Defined.
(** A record without its times. *)
Record entry := mkEntry { e_job : string; e_attempt : Z; e_status : job_status; e_exit : option Z; e_peak : Z; e_run_dir : path }.
(** A line of the journal: a whole record, or what is no JSON. *)
Inductive line := Whole (e : entry) | Torn.
#[export] Instance entry_eq_dec : EqDecision entry.
Proof. solve_decision. Defined.
#[export] Instance line_eq_dec : EqDecision line.
Proof. solve_decision. Defined.
(** The file: its lines, and what follows the last line end, if anything. *)
Record journal_file := mkFile { f_lines : list line; f_open : option line }.
Definition lines_of (f : journal_file) : list line := f_lines f ++ option_list (f_open f).

(** How much of the line of a record has reached the file: nothing, a part of the
    record, the record without its line end, or the line. *)
Inductive amount := ANone | APart | AUnended | AAll.
#[export] Instance amount_eq_dec : EqDecision amount.
Proof. solve_decision. Defined.
Definition rank (a : amount) : nat := match a with ANone => 0 | APart => 1 | AUnended => 2 | AAll => 3 end.
Definition most (a b : amount) : amount := if (rank a <=? rank b)%nat then b else a.
(** A record lands on the line that is open, and is no JSON together with it. *)
Definition next_line (f : journal_file) (e : entry) : line := match f_open f with None => Whole e | Some _ => Torn end.
Definition put (f : journal_file) (e : entry) (a : amount) : journal_file :=
  match a with
  | ANone => f
  | APart => mkFile (f_lines f) (Some Torn)
  | AUnended => mkFile (f_lines f) (Some (next_line f e))
  | AAll => mkFile (f_lines f ++ [next_line f e]) None
  end.

(** [_load_completed_job_ids]. *)
Fixpoint load_completed_job_ids (journal : list line) : res (gset string) :=
  match journal with
  | [] => Ok ∅
  | Whole e :: journal => ids ← load_completed_job_ids journal; Ok (if decide (e_status e = SOk) then {[e_job e]} ∪ ids else ids)
  | Torn :: _ => raise EValueError "Expecting value"
  end.

(** * Running *)

(** How a subprocess ended: in time, or killed with its whole process group and
    reaped if it could be. *)
Inductive job_end := InTime (rc : Z) | Late (reaped : option Z).
Inductive cop := ReadMem | Launch (id : string) (cmd : job_command) (timeout : Z) | KillGroup (id : string) | MnClean | Write (e : entry) | Flush | Fsync | Close.

(** What the machine answers; an exception ends the invocation, and one that is
    killed is an exception after which closing the journal writes nothing. A [write]
    that raises may have filled the buffer; a [flush] or a [close] that raises has
    written some of it. *)
Record machine := mkMachine {
  meminfo : list cop → list string + exn;
  ends : list cop → string → (job_end * Z) + exn;
  mn_clean : list cop → option exn;
  write_fault : list cop → entry → option (exn * bool);
  flush_fault : list cop → entry → option (exn * amount);
  fsync_fault : list cop → option exn;
  close_fault : list cop → option (exn * amount);
}.
(** The journal without the line that is being written; that line, in the buffer of
    the open file, with how much of it has reached the file; and what was done. *)
Record campaign := mkCampaign { c_file : journal_file; c_buffer : option (entry * amount); c_trace : list cop }.
Notation K := (M campaign).

Definition note (o : cop) : K () := λ w, (mkCampaign (c_file w) (c_buffer w) (c_trace w ++ [o]), inl ()).
Definition asked {A} (f : list cop → A + exn) : K A := λ w, (w, f (c_trace w)).
(** [try: m finally: f]. *)
Definition finally {A} (m : K A) (f : K ()) : K A := λ w,
  let '(w, r) := m w in
  let '(w, r') := f w in
  (w, match r' with inl _ => r | inr e => inr e end).

Section run.
Context `{FloatRepr} (path_str : path → string) (root : path) (py : string) (out_root : path) (clean_between : bool) (mc : machine).

Definition read_memory : K (gmap string Z) :=
  lines ← asked (meminfo mc); note ReadMem ≫= λ _, lift (read_meminfo lines).
(** [_run_cleanup]. *)
Definition run_cleanup : K () :=
  note MnClean ≫= λ _, asked (λ t, match mn_clean mc t with Some e => inr e | None => inl () end).
(** [state_fp.write], [state_fp.flush] and [os.fsync]. *)
Definition write_line (e : entry) : K () := λ w,
  match write_fault mc (c_trace w) e with
  | Some (x, buffered) => (mkCampaign (c_file w) (if buffered : bool then Some (e, ANone) else c_buffer w) (c_trace w ++ [Write e]), inr x)
  | None => (mkCampaign (c_file w) (Some (e, ANone)) (c_trace w ++ [Write e]), inl ())
  end.
Definition flush : K () := λ w,
  match c_buffer w with
  | None => note Flush w
  | Some (e, a) =>
      match flush_fault mc (c_trace w) e with
      | Some (x, a') => (mkCampaign (c_file w) (Some (e, most a a')) (c_trace w ++ [Flush]), inr x)
      | None => (mkCampaign (put (c_file w) e AAll) None (c_trace w ++ [Flush]), inl ())
      end
  end.
Definition fsync : K () := note Fsync ≫= λ _, asked (λ t, match fsync_fault mc t with Some e => inr e | None => inl () end).
(** [_append_state]. *)
Definition append_state (e : entry) : K () := write_line e ≫= λ _, flush ≫= λ _, fsync.
(** [state_fp.close]: what is left in the buffer is written. *)
Definition close_journal : K () := λ w,
  let '(out, a') := match close_fault mc (c_trace w) with Some (x, a') => (inr x, a') | None => (inl (), AAll) end in
  (mkCampaign (match c_buffer w with Some (e, a) => put (c_file w) e (most a a') | None => c_file w end) None (c_trace w ++ [Close]), out).
(** [_run_job_subprocess] under the memory sampler: status and peak. *)
Definition run_job_subprocess (id : string) (cmd : job_command) (timeout : Z) : K (option Z * bool * Z) :=
  note (Launch id cmd timeout) ≫= λ _,
  r ← asked (λ t, ends mc t id);
  match r with
  | (InTime rc, peak) => mret (Some rc, false, peak)
  | (Late reaped, peak) => note (KillGroup id) ≫= λ _, mret (reaped, true, peak)
  end.
Definition status_of (returncode : option Z) (timed_out : bool) : job_status :=
  if timed_out then STimeout else if bool_decide (returncode = Some 0) then SOk else SFailed.

(** [_run_job_attempts]. *)
Fixpoint run_job_attempts (id : string) (cmd : job_command) (timeout : Z) (run_dir : path) (attempts : list Z) : K () :=
  match attempts with
  | [] => mret ()
  | attempt :: attempts =>
      info ← read_memory;
      available ← lift (mem_available_fraction info);
      if float_lt available MEM_AVAILABLE_MIN_FRACTION then
        used_info ← read_memory;
        used ← lift (mem_used_kb used_info);
        append_state (mkEntry id attempt SSkippedMemory None used run_dir)
      else
        r ← run_job_subprocess id cmd timeout;
        let '(returncode, timed_out, peak) := r in
        let status := status_of returncode timed_out in
        append_state (mkEntry id attempt status returncode peak run_dir) ≫= λ _,
        if decide (status = SOk) then (if clean_between then run_cleanup else mret ())
        else if attempt =? 1 then run_cleanup ≫= λ _, run_job_attempts id cmd timeout run_dir attempts
        else run_job_attempts id cmd timeout run_dir attempts
  end.

(** One job of [_run_manifest]: skipped when it is done. *)
Definition job_id (job : pydict) : res string :=
  id ← getitem job "id"; match id with PStr s => Ok s | _ => raise ETypeError "unsupported operand type(s) for /" end.
Definition run_job (completed : gset string) (job : pydict) : K () :=
  id ← lift (job_id job);
  if decide (id ∈ completed) then mret ()
  else
    let job_out := path_join out_root (pure_path id) in
    built ← lift (build_job_command path_str root py job job_out);
    let '(cmd, timeout, run_dir) := built in
    run_job_attempts id cmd timeout run_dir [1; 2].
(** [_run_manifest], not as a dry run. *)
Definition run_manifest (jobs : list pydict) : K () :=
  journal ← get (lines_of ∘ c_file);
  completed ← lift (load_completed_job_ids journal);
  finally (for_each (run_job completed) jobs) close_journal.
(** What a dry run shows of the jobs that are left. *)
Definition dry_run (completed : gset string) (job : pydict) : res (list (string * Z * path)) :=
  id ← job_id job;
  if decide (id ∈ completed) then Ok []
  else '(cmd, timeout, run_dir) ← build_job_command path_str root py job (path_join out_root (pure_path id)); Ok [(format_cmd_for_display cmd, timeout, run_dir)].
End run.

(** * Attempts of a job *)

Definition retryable (e : entry) : Prop := e_status e = SFailed ∨ e_status e = STimeout.
(** The records of one job in one invocation: two at most, the second after a first
    that failed. *)
Definition attempts_of (id : string) (es : list entry) : Prop :=
  Forall (λ e, e_job e = id) es ∧
  (es = [] ∨ (∃ e1, es = [e1] ∧ e_attempt e1 = 1) ∨ ∃ e1 e2, es = [e1; e2] ∧ e_attempt e1 = 1 ∧ e_attempt e2 = 2 ∧ retryable e1).
(** Nothing more is to be done for the job. *)
Definition settled (es : list entry) : Prop := ∃ e, last es = Some e ∧ (e_status e = SOk ∨ e_status e = SSkippedMemory ∨ (e_attempt e = 2 ∧ retryable e)).

(** [ops] start [n] subprocesses, all of them for the job [id]. *)
Definition is_launch (o : cop) : bool := match o with Launch _ _ _ => true | _ => false end.
Definition launches (ops : list cop) : nat := length (List.filter is_launch ops).
Definition starts (id : string) (n : nat) (ops : list cop) : Prop := launches ops = n ∧ ∀ i cmd t, Launch i cmd t ∈ ops → i = id.
(** The recorded attempts that started one. *)
Definition ran (e : entry) : bool := negb (bool_decide (e_status e = SSkippedMemory)).
Definition recorded (es : list entry) : nat := length (List.filter ran es).

Lemma launches_app a b : launches (a ++ b) = (launches a + launches b)%nat.
Proof. unfold launches. by rewrite List.filter_app, length_app. Qed.
Lemma recorded_app a b : recorded (a ++ b) = (recorded a + recorded b)%nat.
Proof. unfold recorded. by rewrite List.filter_app, length_app. Qed.
Lemma starts_app id n m a b : starts id n a → starts id m b → starts id (n + m) (a ++ b).
Proof.
  intros [Ha1 Ha2] [Hb1 Hb2]. split; [rewrite launches_app; congruence|]. intros i c t [Hin|Hin]%elem_of_app; [by eapply Ha2|by eapply Hb2].
Qed.
Lemma starts_nil id : starts id 0 [].
Proof. split; [done|]. by intros i c t ?%elem_of_nil. Qed.
Lemma starts_one id o : is_launch o = false → starts id 0 [o].
Proof. intros Ho. split; [unfold launches; simpl; by rewrite Ho|]. intros i c t ?%list_elem_of_singleton. by subst. Qed.

Notation st := mkCampaign.

Section attempts.
Context `{FloatRepr} (path_str : path → string) (root : path) (py : string) (out_root : path) (clean_between : bool) (mc : machine).

(** A read of the memory leaves the journal alone and starts nothing. *)
Lemma read_memory_spec id f t : ∃ ops out, read_memory mc (st f None t) = (st f None (t ++ ops), out) ∧ starts id 0 ops.
Proof.
  unfold read_memory, mbind, M_bind, asked, note, lift. cbn [c_trace]. destruct (meminfo mc t) as [lines|e].
  - destruct (read_meminfo lines); eexists [ReadMem], _; (split; [done|by apply starts_one]).
  - eexists [], _. rewrite app_nil_r. split; [done|apply starts_nil].
Qed.
Lemma run_cleanup_spec f t : ∃ out, run_cleanup mc (st f None t) = (st f None (t ++ [MnClean]), out).
Proof. unfold run_cleanup, mbind, M_bind, note, asked. cbn. destruct (mn_clean _ _); by eexists. Qed.
Lemma subprocess_spec id cmd timeout f t : ∃ ops out, run_job_subprocess mc id cmd timeout (st f None t) = (st f None (t ++ ops), out) ∧ starts id 1 ops.
Proof.
  unfold run_job_subprocess, mbind, M_bind, note, asked. cbn [c_file c_buffer c_trace].
  assert (Hl : starts id 1 [Launch id cmd timeout]) by (split; [done|]; by intros i c t' [= ->]%list_elem_of_singleton).
  destruct (ends mc _ id) as [[[rc|reaped] peak]|e]; [by eexists [_], _| |by eexists [_], _].
  cbn. rewrite <-app_assoc. eexists ([_] ++ [_]), _. split; [done|]. apply (starts_app id 1 0); [done|by apply starts_one].
Qed.

(** The record is not in the buffer, it is and appending it raised, or its line is
    in the file. *)
Lemma append_spec id e f t : ∃ ops, starts id 0 ops ∧
  ((∃ x, append_state mc e (st f None t) = (st f None (t ++ ops), inr x)) ∨
   (∃ a x, append_state mc e (st f None t) = (st f (Some (e, a)) (t ++ ops), inr x)) ∨
   ∃ out, append_state mc e (st f None t) = (st (put f e AAll) None (t ++ ops), out)).
Proof.
  unfold append_state, mbind, M_bind, write_line, flush, fsync, mbind, M_bind, note, asked. cbn [c_file c_buffer c_trace].
  assert (Hs : ∀ o1 o2 o3, is_launch o1 = false → is_launch o2 = false → is_launch o3 = false → starts id 0 ([o1] ++ [o2] ++ [o3])).
  { intros. apply (starts_app id 0 0); [by apply starts_one|]. apply (starts_app id 0 0); by apply starts_one. }
  destruct (write_fault mc _ e) as [[x [|]]|]; cbn [c_file c_buffer c_trace].
  - exists [Write e]. split; [by apply starts_one|]. right. left. by exists ANone, x.
  - exists [Write e]. split; [by apply starts_one|]. left. by exists x.
  - destruct (flush_fault mc _ e) as [[x a]|]; cbn [c_file c_buffer c_trace].
    + exists ([Write e] ++ [Flush]). split; [apply (starts_app id 0 0); by apply starts_one|]. right. left. eexists _, x. by rewrite app_assoc.
    + exists ([Write e] ++ [Flush] ++ [Fsync]). split; [by apply Hs|]. right. right. eexists. by rewrite !app_assoc.
Qed.

(** The ways of one attempt: nothing is recorded; the record stays in the buffer; it
    is in the file and the invocation ends; and the same after an attempt that
    settles the job, or one that is to be repeated. *)
Definition attempt_case (id : string) (attempt : Z) (f : journal_file) (t : list cop) (rest : campaign → campaign * (() + exn)) (r : campaign * (() + exn)) : Prop :=
  ∃ ops n, starts id n ops ∧
  ((∃ e, r = (st f None (t ++ ops), inr e) ∧ (n ≤ 1)%nat) ∨
   ∃ x, e_job x = id ∧ e_attempt x = attempt ∧ n = recorded [x] ∧
     ((∃ a e, r = (st f (Some (x, a)) (t ++ ops), inr e)) ∨
      (∃ e, r = (st (put f x AAll) None (t ++ ops), inr e)) ∨
      ((e_status x = SOk ∨ e_status x = SSkippedMemory) ∧ r = (st (put f x AAll) None (t ++ ops), inl ())) ∨
      (retryable x ∧ r = rest (st (put f x AAll) None (t ++ ops))))).

(** What follows the record of an attempt. *)
Lemma attempt_follow id attempt f t rest x (k : () → K ()) ops :
  starts id (recorded [x]) ops → e_job x = id → e_attempt x = attempt →
  (∀ t', ∃ ops', starts id 0 ops' ∧ let f' := put f x AAll in
     ((∃ e, k () (st f' None t') = (st f' None (t' ++ ops'), inr e)) ∨
      ((e_status x = SOk ∨ e_status x = SSkippedMemory) ∧ k () (st f' None t') = (st f' None (t' ++ ops'), inl ())) ∨
      (retryable x ∧ k () (st f' None t') = rest (st f' None (t' ++ ops'))))) →
  attempt_case id attempt f t rest ((append_state mc x ≫= k) (st f None (t ++ ops))).
Proof.
  intros Hs Hj Ha Hk. unfold mbind at 1, M_bind at 1.
  assert (Happ : ∀ ops', starts id 0 ops' → starts id (recorded [x]) (ops ++ ops')).
  { intros ops' H'. replace (recorded [x]) with (recorded [x] + 0)%nat by lia. by apply starts_app. }
  assert (Hrec : (recorded [x] ≤ 1)%nat) by (unfold recorded; cbn; destruct (ran x); cbn; lia).
  destruct (append_spec id x f (t ++ ops)) as (o & Ho & [[e ->]|[(a & e & ->)|[[[]|e] ->]]]).
  - exists (ops ++ o), (recorded [x]). split; [by apply Happ|]. left. exists e. by rewrite app_assoc.
  - exists (ops ++ o), (recorded [x]). split; [by apply Happ|]. right. exists x. split_and!; [done..|]. left. exists a, e. by rewrite app_assoc.
  - destruct (Hk ((t ++ ops) ++ o)) as (o' & Ho' & Hcase). exists (ops ++ (o ++ o')), (recorded [x]).
    split; [apply Happ, (starts_app id 0 0); done|]. right. exists x. split_and!; [done..|]. right.
    assert (E : t ++ ops ++ o ++ o' = ((t ++ ops) ++ o) ++ o') by (by rewrite !app_assoc). rewrite E. exact Hcase.
  - exists (ops ++ o), (recorded [x]). split; [by apply Happ|]. right. exists x. split_and!; [done..|]. right. left. exists e. by rewrite app_assoc.
Qed.

Lemma recorded_skip x : e_status x = SSkippedMemory → recorded [x] = 0%nat.
Proof. intros Hx. unfold recorded, ran. cbn [List.filter]. by rewrite Hx. Qed.
Lemma recorded_run x : e_status x ≠ SSkippedMemory → recorded [x] = 1%nat.
Proof. intros Hx. unfold recorded, ran. cbn [List.filter]. by rewrite bool_decide_eq_false_2. Qed.
Lemma recorded_le x : (recorded [x] ≤ 1)%nat.
Proof. unfold recorded. cbn. destruct (ran x); cbn; lia. Qed.
Lemma status_ran returncode timed_out : status_of returncode timed_out ≠ SSkippedMemory.
Proof. unfold status_of. destruct timed_out; [done|]. by case_bool_decide. Qed.
Lemma status_bad x returncode timed_out : e_status x = status_of returncode timed_out → e_status x ≠ SOk → retryable x.
Proof. unfold retryable, status_of. destruct timed_out; [by right|]. case_bool_decide; [done|by left]. Qed.

Lemma attempt_step id cmd timeout run_dir attempt attempts f t :
  attempt_case id attempt f t (run_job_attempts clean_between mc id cmd timeout run_dir attempts) (run_job_attempts clean_between mc id cmd timeout run_dir (attempt :: attempts) (st f None t)).
Proof.
  cbn [run_job_attempts]. unfold mbind at 1, M_bind at 1. destruct (read_memory_spec id f t) as (o1 & out1 & -> & H1).
  destruct out1 as [info|e]; [|exists o1, 0%nat; split; [done|left; exists e; split; [done|lia]]].
  unfold mbind at 1, M_bind at 1. unfold lift at 1. destruct (mem_available_fraction info) as [available|e|]; [|exists o1, 0%nat; split; [done|left; eexists; split; [done|lia]]..].
  destruct (float_lt available MEM_AVAILABLE_MIN_FRACTION).
  - unfold mbind at 1, M_bind at 1. destruct (read_memory_spec id f (t ++ o1)) as (o2 & out2 & -> & H2). rewrite <-app_assoc.
    pose proof (starts_app _ _ _ _ _ H1 H2) as H12.
    destruct out2 as [info2|e]; [|exists (o1 ++ o2), 0%nat; split; [done|left; exists e; split; [done|lia]]].
    unfold mbind at 1, M_bind at 1. unfold lift at 1. destruct (mem_used_kb info2) as [used|e|]; [|exists (o1 ++ o2), 0%nat; split; [done|left; eexists; split; [done|lia]]..].
    set (x := mkEntry id attempt SSkippedMemory None used run_dir).
    assert (Er : ∀ w, append_state mc x w = (append_state mc x ≫= λ u, mret u) w) by (intros w; unfold mbind, M_bind; by destruct (append_state mc x w) as [w' [[]|e']]).
    rewrite Er. apply attempt_follow; [by rewrite recorded_skip|done..|]. intros t'. exists []. split; [apply starts_nil|]. right. left. rewrite app_nil_r. split; [by right|done].
  - unfold mbind at 1, M_bind at 1. destruct (subprocess_spec id cmd timeout f (t ++ o1)) as (o2 & out2 & -> & H2). rewrite <-app_assoc.
    pose proof (starts_app _ _ _ _ _ H1 H2) as H12. cbn [Nat.add] in H12.
    destruct out2 as [[[returncode timed_out] peak]|e]; [|exists (o1 ++ o2), 1%nat; split; [done|left; exists e; split; [done|lia]]].
    set (x := mkEntry id attempt (status_of returncode timed_out) returncode peak run_dir).
    apply attempt_follow; [rewrite recorded_run; [done|apply status_ran]|done..|]. intros t'.
    destruct (run_cleanup_spec (put f x AAll) t') as [cout Ec].
    assert (Hnil : ∀ f', st f' None t' = st f' None (t' ++ [])) by (intros; by rewrite app_nil_r).
    cbv beta zeta. case_decide as Hok; [destruct clean_between|destruct (attempt =? 1)].
    + exists [MnClean]. split; [by apply starts_one|]. rewrite Ec. destruct cout as [[]|e]; [right; left; split; [by left|done]|left; by exists e].
    + exists []. split; [apply starts_nil|]. right. left. rewrite app_nil_r. split; [by left|done].
    + exists [MnClean]. split; [by apply starts_one|]. unfold mbind, M_bind. rewrite Ec. destruct cout as [[]|e]; [|left; by exists e].
      right. right. split; [by eapply status_bad|done].
    + exists []. split; [apply starts_nil|]. right. right. rewrite app_nil_r. split; [by eapply status_bad|done].
Qed.
End attempts.

(** ** A job in one invocation *)

Definition buffered (buf : option (entry * amount)) : list entry := match buf with Some (e, _) => [e] | None => [] end.
Definition put_all (f : journal_file) (es : list entry) : journal_file := foldl (λ f e, put f e AAll) f es.
(** The records that were to be written are [es], of which those of [es0] are lines
    of the file and the last may be in the buffer; the state is [w], and [n]
    subprocesses were started. *)
Definition wrote (f : journal_file) (t : list cop) (es : list entry) (ops : list cop) (n : nat) (w : campaign) (returns : bool) : Prop :=
  ∃ es0 buf, es = es0 ++ buffered buf ∧ w = st (put_all f es0) buf (t ++ ops) ∧ (recorded es ≤ n ≤ S (recorded es0))%nat ∧
    (returns = true → buf = None ∧ n = recorded es).
Definition succeeded {A} (r : A + exn) : bool := match r with inl _ => true | inr _ => false end.

Definition job_done (id : string) (f : journal_file) (t : list cop) (es : list entry) (r : campaign * (() + exn)) : Prop :=
  ∃ ops n, starts id n ops ∧ wrote f t es ops n r.1 (succeeded r.2) ∧ (r.2 = inl () → settled es).

(** One attempt, and what follows a failed one. *)
Lemma attempt_done id attempt f t rest r : attempt_case id attempt f t rest r →
  (∃ es, job_done id f t es r ∧ (es = [] ∨ ∃ x, es = [x] ∧ e_job x = id ∧ e_attempt x = attempt)) ∨
  ∃ x ops, e_job x = id ∧ e_attempt x = attempt ∧ retryable x ∧ starts id (recorded [x]) ops ∧ r = rest (st (put f x AAll) None (t ++ ops)).
Proof.
  intros (ops & n & Hs & [(e & -> & Hn)|(x & Hj & Ha & -> & Hcase)]).
  - left. exists []. split; [|by left]. exists ops, n. split; [done|]. split; [|done]. exists [], None. split; [done|]. split; [done|]. split; [cbn; lia|done].
  - pose proof (recorded_le x) as Hle. destruct Hcase as [(a & e & ->)|[[e ->]|[[Hx ->]|[Hx ->]]]]; [| | |right; by exists x, ops].
    all: left; exists [x]; (split; [|by right; exists x]); exists ops, (recorded [x]); (split; [done|]).
    + split; [|done]. exists [], (Some (x, a)). split; [done|]. split; [done|]. split; [|done]. cbn [app buffered]. change (recorded []) with 0%nat. lia.
    + split; [|done]. exists [x], None. split; [done|]. split; [done|]. split; [cbn [app buffered]; lia|done].
    + split; [|intros _; exists x; naive_solver]. exists [x], None. split; [done|]. split; [done|]. split; [cbn [app buffered]; lia|done].
Qed.

Lemma put_all_app f es1 es2 : put_all f (es1 ++ es2) = put_all (put_all f es1) es2.
Proof. apply foldl_app. Qed.
(** What is written after complete lines. *)
Lemma wrote_app f t es1 ops1 es2 ops2 n2 w returns : wrote (put_all f es1) (t ++ ops1) es2 ops2 n2 w returns →
  wrote f t (es1 ++ es2) (ops1 ++ ops2) (recorded es1 + n2) w returns.
Proof.
  intros (es0 & buf & -> & -> & Hn & Hr). exists (es1 ++ es0), buf. split; [by rewrite app_assoc|]. split; [by rewrite put_all_app, app_assoc|].
  rewrite !recorded_app in *. split; [lia|]. intros H. destruct (Hr H) as [-> ->]. split; [done|lia].
Qed.
Lemma job_done_cons id f t x ops es r : starts id (recorded [x]) ops → job_done id (put f x AAll) (t ++ ops) es r → job_done id f t (x :: es) r.
Proof.
  intros Hs (ops2 & n & Hs2 & Hw & Hset). exists (ops ++ ops2), (recorded [x] + n)%nat. split; [by apply starts_app|].
  split; [by apply (wrote_app f t [x])|]. intros Hr. destruct (Hset Hr) as (e & He & Hcase). exists e. split; [|done].
  change (x :: es) with ([x] ++ es). by rewrite last_app, He.
Qed.

Section jobs.
Context `{FloatRepr} (path_str : path → string) (root : path) (py : string) (out_root : path) (clean_between : bool) (mc : machine).

Lemma attempts_spec id cmd timeout run_dir f t : ∃ es, job_done id f t es (run_job_attempts clean_between mc id cmd timeout run_dir [1; 2] (st f None t)) ∧ attempts_of id es.
Proof.
  destruct (attempt_done _ _ _ _ _ _ (attempt_step clean_between mc id cmd timeout run_dir 1 [2] f t)) as [(es & Hd & Hes)|(x & ops & Hj & Ha & Hre & Hs & ->)].
  { exists es. split; [done|]. destruct Hes as [->|(x & -> & Hj & Ha)]; [split; [constructor|by left]|]. split; [by constructor|]. right. left. by exists x. }
  destruct (attempt_done _ _ _ _ _ _ (attempt_step clean_between mc id cmd timeout run_dir 2 [] (put f x AAll) (t ++ ops))) as [(es & Hd & Hes)|(x2 & ops2 & Hj2 & Ha2 & Hre2 & Hs2 & ->)].
  - exists (x :: es). split; [by apply (job_done_cons _ _ _ _ ops)|].
    destruct Hes as [->|(x2 & -> & Hj2 & Ha2)]; (split; [by repeat constructor|]); right; [left; by exists x|right; by exists x, x2].
  - exists [x; x2]. split; [|split; [by repeat constructor|right; right; by exists x, x2]]. apply (job_done_cons _ _ _ _ ops); [done|].
    exists ops2, (recorded [x2]). split; [done|]. split; [|intros _; exists x2; split; [done|right; by right]].
    exists [x2], None. split; [done|]. split; [done|]. pose proof (recorded_le x2). split; [cbn [app buffered]; lia|done].
Qed.

(** A job in one invocation: left alone when it is done. *)
Definition job_ran (completed : gset string) (id : string) (f : journal_file) (t : list cop) (es : list entry) (r : campaign * (() + exn)) : Prop :=
  ∃ ops n, starts id n ops ∧ wrote f t es ops n r.1 (succeeded r.2) ∧
    attempts_of id es ∧ (id ∈ completed → es = [] ∧ ops = []) ∧ (r.2 = inl () → id ∈ completed ∨ settled es).
Lemma run_job_spec completed job id f t : job_id job = Ok id → ∃ es, job_ran completed id f t es (run_job path_str root py out_root clean_between mc completed job (st f None t)).
Proof.
  intros Hid. unfold run_job. unfold mbind at 1, M_bind at 1. unfold lift at 1. rewrite Hid.
  assert (Hempty : attempts_of id []) by (split; [constructor|by left]).
  assert (Hnone : ∀ returns, wrote f t [] [] 0 (st f None t) returns).
  { intros returns. exists [], None. split; [done|]. split; [by rewrite app_nil_r|]. split; [cbn; lia|done]. }
  destruct (decide (id ∈ completed)) as [Hin|Hout].
  { exists [], [], 0%nat. split; [apply starts_nil|]. split; [apply Hnone|]. split; [done|]. split; [done|]. by left. }
  assert (Hraise : ∀ e : exn, ∃ es, job_ran completed id f t es (st f None t, inr e)).
  { intros e. exists [], [], 0%nat. split; [apply starts_nil|]. split; [apply Hnone|]. done. }
  unfold mbind at 1, M_bind at 1. unfold lift at 1. destruct (build_job_command _ _ _ _ _) as [[[cmd timeout] run_dir]|e|]; [|apply Hraise..].
  destruct (attempts_spec id cmd timeout run_dir f t) as (es & (ops & n & Hs & Hw & Hset) & Ha). exists es, ops, n. split_and!; try done.
  intros Hr. right. by apply Hset.
Qed.
End jobs.

(** ** The manifest in one invocation *)

Definition of_job (id : string) (es : list entry) : list entry := List.filter (λ e, bool_decide (e_job e = id)) es.
Lemma of_job_app id a b : of_job id (a ++ b) = of_job id a ++ of_job id b.
Proof. apply List.filter_app. Qed.
Lemma of_job_same id es : Forall (λ e, e_job e = id) es → of_job id es = es.
Proof. induction 1 as [|e es He _ IH]; [done|]. unfold of_job in *. cbn [List.filter]. by rewrite bool_decide_eq_true_2, IH. Qed.
Lemma of_job_other id id' es : Forall (λ e, e_job e = id') es → id ≠ id' → of_job id es = [].
Proof. intros Hes Hne. induction Hes as [|e es He _ IH]; [done|]. unfold of_job in *. cbn [List.filter]. rewrite bool_decide_eq_false_2 by congruence. done. Qed.
Lemma of_job_absent id es : (∀ e, e ∈ es → e_job e ≠ id) → of_job id es = [].
Proof.
  induction es as [|e es IH]; intros Hne; [done|]. unfold of_job in *. cbn [List.filter]. rewrite bool_decide_eq_false_2 by (apply Hne; by left). apply IH. intros e' He'. apply Hne. by right.
Qed.
Lemma of_job_elem id es e : e ∈ of_job id es ↔ e ∈ es ∧ e_job e = id.
Proof. unfold of_job. by rewrite list_elem_of_In, List.filter_In, <-list_elem_of_In, bool_decide_eq_true. Qed.

(** The records of an invocation that was asked to run the jobs [ids]. *)
Record ran_jobs (completed : gset string) (ids : list string) (es : list entry) (ops : list cop) (finished : bool) : Prop := {
  rj_order : es = ids ≫= λ id, of_job id es;
  rj_attempts : ∀ id, id ∈ ids → attempts_of id (of_job id es);
  rj_completed : ∀ id, id ∈ completed → of_job id es = [];
  rj_launches : ∀ id cmd t, Launch id cmd t ∈ ops → id ∈ ids ∧ id ∉ completed;
  rj_counts : (recorded es ≤ launches ops ≤ S (recorded es))%nat;
  rj_finished : finished = true → launches ops = recorded es ∧ ∀ id, id ∈ ids → id ∈ completed ∨ settled (of_job id es);
}.

Lemma ran_jobs_elem completed ids es ops finished e : ran_jobs completed ids es ops finished → e ∈ es → e_job e ∈ ids.
Proof. intros R He. rewrite (rj_order _ _ _ _ _ R) in He. apply list_elem_of_bind in He as (id & [_ <-]%of_job_elem & Hid). done. Qed.

Lemma bind_of_job_app ids es1 es2 id : id ∉ ids → Forall (λ e, e_job e = id) es1 → (ids ≫= λ i, of_job i (es1 ++ es2)) = ids ≫= λ i, of_job i es2.
Proof.
  intros Hid H1. induction ids as [|i ids IH]; [done|]. apply not_elem_of_cons in Hid as [Hne Hid]. rewrite !bind_cons, IH by done. by rewrite of_job_app, (of_job_other i id es1) by done.
Qed.

(** One job before the others. *)
Lemma ran_jobs_cons completed id ids es1 ops1 n es2 ops2 finished : id ∉ ids → starts id n ops1 → (recorded es1 = n) → attempts_of id es1 →
  (id ∈ completed → es1 = [] ∧ ops1 = []) → id ∈ completed ∨ settled es1 → ran_jobs completed ids es2 ops2 finished → ran_jobs completed (id :: ids) (es1 ++ es2) (ops1 ++ ops2) finished.
Proof.
  intros Hid [Hn1 Hs1] Hr Ha Hc Hdone R. assert (Hj : Forall (λ e, e_job e = id) es1) by apply Ha.
  assert (H2 : of_job id es2 = []). { apply of_job_absent. intros e He <-. apply Hid. by eapply ran_jobs_elem. }
  assert (Hself : of_job id (es1 ++ es2) = es1) by (by rewrite of_job_app, H2, app_nil_r, of_job_same).
  assert (Hother : ∀ i, i ≠ id → of_job i (es1 ++ es2) = of_job i es2) by (intros i Hne; by rewrite of_job_app, (of_job_other i id es1)).
  split.
  - rewrite bind_cons, Hself, (bind_of_job_app ids es1 es2 id) by done. f_equal. apply (rj_order _ _ _ _ _ R).
  - intros i [->|Hi]%elem_of_cons; [by rewrite Hself|]. rewrite Hother by (by intros ->). by apply (rj_attempts _ _ _ _ _ R).
  - intros i Hi. destruct (decide (i = id)) as [->|Hne]; [rewrite Hself; by apply Hc|]. rewrite Hother by done. by apply (rj_completed _ _ _ _ _ R).
  - intros i c t [Hin|Hin]%elem_of_app.
    + assert (i = id) as -> by (by eapply Hs1). split; [by left|]. intros Hcomp. destruct (Hc Hcomp) as [_ ->]. by apply elem_of_nil in Hin.
    + destruct (rj_launches _ _ _ _ _ R i c t Hin) as [? ?]. split; [by right|done].
  - rewrite launches_app, recorded_app. pose proof (rj_counts _ _ _ _ _ R). lia.
  - intros Hf. destruct (rj_finished _ _ _ _ _ R Hf) as [Hl Hset]. split; [rewrite launches_app, recorded_app; lia|].
    intros i [->|Hi]%elem_of_cons; [rewrite Hself; done|]. rewrite Hother by (by intros ->). by apply Hset.
Qed.
(** One job that ends the invocation. *)
Lemma ran_jobs_stop completed id ids es ops n : id ∉ ids → starts id n ops → (recorded es ≤ n ≤ S (recorded es))%nat → attempts_of id es → (id ∈ completed → es = [] ∧ ops = []) →
  ran_jobs completed (id :: ids) es ops false.
Proof.
  intros Hid [Hn Hs] Hr Ha Hc. assert (Hj : Forall (λ e, e_job e = id) es) by apply Ha.
  assert (Hself : of_job id es = es) by (by apply of_job_same). assert (Hother : ∀ i, i ≠ id → of_job i es = []) by (intros i Hne; by eapply of_job_other).
  split; [| | | |lia|done].
  - rewrite bind_cons, Hself. assert ((ids ≫= λ i, of_job i es) = []) as ->; [|by rewrite app_nil_r].
    clear -Hid Hother. induction ids as [|i ids IH]; [done|]. apply not_elem_of_cons in Hid as [Hne Hid]. by rewrite bind_cons, Hother, IH.
  - intros i [->|Hi]%elem_of_cons; [by rewrite Hself|]. rewrite Hother by (by intros ->). split; [constructor|by left].
  - intros i Hi. destruct (decide (i = id)) as [->|Hne]; [rewrite Hself; by apply Hc|by apply Hother].
  - intros i c t Hin. assert (i = id) as -> by (by eapply Hs). split; [by left|]. intros Hcomp. destruct (Hc Hcomp) as [_ ->]. by apply elem_of_nil in Hin.
Qed.

Section manifest.
Context `{FloatRepr} (path_str : path → string) (root : path) (py : string) (out_root : path) (clean_between : bool) (mc : machine).
Notation run_jobs completed := (for_each (run_job path_str root py out_root clean_between mc completed)).

Lemma run_jobs_spec completed jobs ids : Forall2 (λ job id, job_id job = Ok id) jobs ids → NoDup ids → ∀ f t, let r := run_jobs completed jobs (st f None t) in
  ∃ es ops, wrote f t es ops (launches ops) r.1 (succeeded r.2) ∧ ran_jobs completed ids es ops (succeeded r.2).
Proof.
  induction 1 as [|job id jobs ids Hjob _ IH]; intros Hnd f t.
  { exists [], []. split; [exists [], None; cbn; rewrite app_nil_r; split_and!; try done; lia|].
    split; [done|by intros ? ?%elem_of_nil|done|by intros ? ? ? ?%elem_of_nil|cbn; lia|]. intros _. split; [done|]. by intros ? ?%elem_of_nil. }
  apply NoDup_cons in Hnd as [Hid Hnd]. cbn [for_each]. unfold mbind, M_bind.
  destruct (run_job_spec path_str root py out_root clean_between mc completed job id f t Hjob) as (es1 & ops1 & n & Hs & Hw & Ha & Hc & Hset).
  destruct (run_job path_str root py out_root clean_between mc completed job (st f None t)) as [w1 [[]|e]]; cbn [fst snd succeeded] in Hw, Hset.
  - destruct Hw as (es0 & buf & -> & -> & Hn & Hok). destruct (Hok eq_refl) as [-> ->]. cbn [buffered] in *. rewrite app_nil_r in *.
    destruct (IH Hnd (put_all f es0) (t ++ ops1)) as (es2 & ops2 & Hw2 & R). exists (es0 ++ es2), (ops1 ++ ops2). split.
    + rewrite launches_app, (proj1 Hs). by apply wrote_app.
    + eapply ran_jobs_cons; eauto.
  - exists es1, ops1. rewrite (proj1 Hs). split; [done|]. destruct Hw as (es0 & buf & -> & -> & Hn & _). eapply ran_jobs_stop; try done.
    rewrite recorded_app in *. lia.
Qed.
End manifest.

(** * Campaigns *)

(** An invocation that finds every job done. *)
Lemma ran_jobs_done completed ids es ops finished : ran_jobs completed ids es ops finished → Forall (λ id, id ∈ completed) ids → es = [] ∧ launches ops = 0%nat.
Proof.
  rewrite Forall_forall. intros R Hall. split.
  - destruct es as [|e es]; [done|]. exfalso. assert (He : e ∈ e :: es) by (by left). pose proof (ran_jobs_elem _ _ _ _ _ _ R He) as Hid.
    assert (e ∈ of_job (e_job e) (e :: es)) as Hc by (by apply of_job_elem). rewrite (rj_completed _ _ _ _ _ R _ (Hall _ Hid)) in Hc. by apply elem_of_nil in Hc.
  - unfold launches. destruct (List.filter is_launch ops) as [|o l] eqn:El; [done|]. exfalso. assert (Ho : In o (List.filter is_launch ops)) by (rewrite El; by left).
    apply List.filter_In in Ho as [Ho%list_elem_of_In Hl]. destruct o as [|id cmd t| | | | | |]; try done. destruct (rj_launches _ _ _ _ _ R _ _ _ Ho) as [Hin Hout]. by apply Hout, Hall.
Qed.

Definition is_ok (e : entry) : bool := bool_decide (e_status e = SOk).
Definition ok_jobs (h : list entry) : gset string := list_to_set (e_job <$> List.filter is_ok h).
Lemma ok_jobs_elem h id : id ∈ ok_jobs h ↔ ∃ e, e ∈ h ∧ e_status e = SOk ∧ e_job e = id.
Proof.
  unfold ok_jobs. rewrite elem_of_list_to_set, list_elem_of_fmap. split.
  - intros (e & -> & He). apply list_elem_of_In, List.filter_In in He as [He%list_elem_of_In Hok]. apply bool_decide_eq_true in Hok. by exists e.
  - intros (e & He & Hok & <-). exists e. split; [done|]. apply list_elem_of_In, List.filter_In. split; [by apply list_elem_of_In|by apply bool_decide_eq_true].
Qed.
Lemma load_whole h : load_completed_job_ids (Whole <$> h) = Ok (ok_jobs h).
Proof.
  induction h as [|e h IH]; [done|]. cbn [fmap list_fmap load_completed_job_ids]. change (list_fmap entry line Whole h) with (Whole <$> h). rewrite IH. cbn [mbind res_bind]. f_equal.
  unfold ok_jobs. cbn [List.filter]. destruct (decide (e_status e = SOk)) as [Hs|Hs]; [rewrite (bool_decide_eq_true_2 _ Hs : is_ok e = true)|rewrite (bool_decide_eq_false_2 _ Hs : is_ok e = false)]; done.
Qed.

(** No record of a job follows one that ended well. *)
Definition ok_is_last (h : list entry) : Prop := ∀ h1 e h2, h = h1 ++ e :: h2 → e_status e = SOk → ∀ e', e' ∈ h2 → e_job e' ≠ e_job e.

Lemma attempts_ok_last id es a e b : attempts_of id es → es = a ++ e :: b → e_status e = SOk → b = [].
Proof.
  intros [_ Hshape] E Hok. destruct Hshape as [->|[(e1 & -> & _)|(e1 & e2 & -> & _ & _ & Hre)]].
  - by destruct a.
  - destruct a as [|x [|y a]]; [by injection E as _ <-|discriminate E..].
  - destruct a as [|x [|y [|z a]]]; [|by injection E as _ _ <-|discriminate E..]. exfalso. injection E as -> _. destruct Hre as [Hre|Hre]; congruence.
Qed.
Lemma ok_is_last_app h es ids ops finished : ok_is_last h → ran_jobs (ok_jobs h) ids es ops finished → ok_is_last (h ++ es).
Proof.
  intros Hh R h1 e h2 E Hok e' He' Hsame. apply app_eq_app in E as [l [[E1 E2]|[E1 E2]]].
  - destruct l as [|x l].
    + rewrite app_nil_r in E1. cbn in E2. subst h. assert (of_job (e_job e) es = e :: of_job (e_job e) h2) as Hof by (rewrite <-E2; unfold of_job; cbn [List.filter]; by rewrite bool_decide_eq_true_2).
      assert (Hin : e_job e ∈ ids) by (eapply ran_jobs_elem; [exact R|rewrite <-E2; by left]).
      pose proof (attempts_ok_last _ _ [] e (of_job (e_job e) h2) (rj_attempts _ _ _ _ _ R _ Hin) Hof Hok) as Hnil.
      assert (e' ∈ of_job (e_job e) h2) as Hc by (by apply of_job_elem). rewrite Hnil in Hc. by apply elem_of_nil in Hc.
    + cbn in E2. injection E2 as <- E2. subst h2. apply elem_of_app in He' as [He'|He'].
      * by eapply (Hh h1 e l).
      * assert (Hc : e_job e ∈ ok_jobs h) by (apply ok_jobs_elem; exists e; split; [rewrite E1; apply elem_of_app; right; by left|done]).
        assert (He : e' ∈ of_job (e_job e) es) by (by apply of_job_elem). rewrite (rj_completed _ _ _ _ _ R _ Hc) in He. by apply elem_of_nil in He.
  - subst h1. assert (Hin : e_job e ∈ ids) by (eapply ran_jobs_elem; [exact R|]; rewrite E2; apply elem_of_app; right; by left).
    assert (Hof : of_job (e_job e) es = of_job (e_job e) l ++ e :: of_job (e_job e) h2) by (rewrite E2, of_job_app; unfold of_job; cbn [List.filter]; by rewrite bool_decide_eq_true_2).
    pose proof (attempts_ok_last _ _ _ _ _ (rj_attempts _ _ _ _ _ R _ Hin) Hof Hok) as Hnil.
    assert (e' ∈ of_job (e_job e) h2) as Hc by (by apply of_job_elem). rewrite Hnil in Hc. by apply elem_of_nil in Hc.
Qed.

Lemma ok_is_last_prefix a b : ok_is_last (a ++ b) → ok_is_last a.
Proof. intros H h1 e h2 -> Hok e' He'. apply (H h1 e (h2 ++ b)); [by rewrite <-app_assoc|done|]. apply elem_of_app. by left. Qed.

(** ** The file *)

(** Every line is a record and ends; the last line does not end. *)
Definition clean (h : list entry) : journal_file := mkFile (Whole <$> h) None.
Definition unended (h : list entry) (e : entry) : journal_file := mkFile (Whole <$> h) (Some (Whole e)).
Definition readable (f : journal_file) (h : list entry) : Prop := f = clean h ∨ ∃ h0 e, h = h0 ++ [e] ∧ f = unended h0 e.
Definition torn (f : journal_file) : Prop := Torn ∈ lines_of f.
(** The file when the lines of [es] were written, and then some of the line of one
    more record. *)
Definition written (f : journal_file) (es : list entry) (last : option (entry * amount)) : journal_file :=
  match last with Some (e, a) => put (put_all f es) e a | None => put_all f es end.
(** No write of the machine is cut short: what an interrupted one leaves is nothing
    or the line. *)
Definition whole (a : amount) : Prop := a = ANone ∨ a = AAll.
Definition whole_writes (mc : machine) : Prop :=
  (∀ t e x a, flush_fault mc t e = Some (x, a) → whole a) ∧ ∀ t x a, close_fault mc t = Some (x, a) → whole a.

Lemma readable_lines f h : readable f h → lines_of f = Whole <$> h.
Proof. intros [->|(h0 & e & -> & ->)]; unfold lines_of; cbn; [by rewrite app_nil_r|by rewrite fmap_app]. Qed.
Lemma whole_inj (a b : list entry) : Whole <$> a = Whole <$> b → a = b.
Proof. revert b. induction a as [|x a IH]; intros [|y b]; [done..|]. cbn. intros [= -> E]. f_equal. by apply IH. Qed.
Lemma load_torn l : Torn ∈ l → load_completed_job_ids l = raise EValueError "Expecting value".
Proof.
  induction l as [|[e|] l IH]; [by intros ?%elem_of_nil| |done]. intros [[=]|Hl]%elem_of_cons. cbn. by rewrite IH.
Qed.
Lemma put_clean h e : put (clean h) e AAll = clean (h ++ [e]).
Proof. unfold clean. by rewrite fmap_app. Qed.
Lemma put_all_clean h es : put_all (clean h) es = clean (h ++ es).
Proof. revert h. induction es as [|e es IH]; intros h; cbn [put_all foldl]; [by rewrite app_nil_r|]. unfold put_all in IH. by rewrite put_clean, IH, <-app_assoc. Qed.
Lemma torn_put f e a : torn f → torn (put f e a).
Proof.
  unfold torn, lines_of. rewrite elem_of_app. unfold next_line. destruct f as [l [o|]], a; cbn; unfold lines_of, next_line; cbn; rewrite ?elem_of_app, ?elem_of_cons, ?elem_of_nil; naive_solver.
Qed.
Lemma torn_put_all f es : torn f → torn (put_all f es).
Proof. revert f. induction es as [|e es IH]; intros f Hf; [done|]. by apply IH, torn_put. Qed.
Lemma put_unended h e0 e a : a ≠ ANone → torn (put (unended h e0) e a).
Proof. unfold torn, lines_of. destruct a; [done|..]; intros _; apply elem_of_app; [right|right|left]; cbn; [by left|by left|]. apply elem_of_app. right. by left. Qed.
Lemma most_none a : most ANone a = a.
Proof. done. Qed.
Lemma most_whole a b : whole a → whole b → whole (most a b).
Proof. intros [->| ->] [->| ->]; [by left|by right|by right|by right]. Qed.

(** What a readable file becomes. *)
Lemma written_clean h es last : written (clean h) es last = written (clean (h ++ es)) [] last.
Proof. unfold written. rewrite put_all_clean. by destruct last as [[e a]|]. Qed.
Lemma written_whole h es last : (∀ e a, last = Some (e, a) → whole a) →
  ∃ es', written (clean h) es last = clean (h ++ es') ∧ (es' = es ∨ es' = es ++ buffered last).
Proof.
  intros Hw. unfold written. rewrite put_all_clean. destruct last as [[e a]|]; [|by exists es; split; [|left]].
  destruct (Hw e a eq_refl) as [->| ->]; [by exists es; split; [|left]|]. exists (es ++ [e]). split; [|by right]. by rewrite put_clean, app_assoc.
Qed.
Lemma written_readable f h es last : readable f h →
  (∃ es', readable (written f es last) (h ++ es') ∧ es' `prefix_of` es ++ buffered last) ∨ torn (written f es last).
Proof.
  intros [->|(h0 & e0 & -> & ->)].
  - rewrite written_clean. assert (Hes : es `prefix_of` es ++ buffered last) by (by exists (buffered last)).
    destruct last as [[e []]|]; cbn [written put_all foldl put].
    + left. exists es. split; [by left|done].
    + right. unfold torn, lines_of. apply elem_of_app. right. by left.
    + left. exists (es ++ [e]). split; [|done]. right. exists (h ++ es), e. by rewrite app_assoc.
    + left. exists (es ++ [e]). split; [|done]. left. change (mkFile _ None) with (put (clean (h ++ es)) e AAll). by rewrite put_clean, app_assoc.
    + left. exists es. split; [by left|done].
  - destruct es as [|x es].
    + destruct last as [[e a]|]; cbn [written put_all foldl].
      * destruct (decide (a = ANone)) as [->|Ha]; [|right; by apply put_unended]. left. exists []. rewrite app_nil_r. split; [right; by exists h0, e0|apply prefix_nil].
      * left. exists []. rewrite app_nil_r. split; [right; by exists h0, e0|apply prefix_nil].
    + right. assert (Ht : torn (put_all (unended h0 e0) (x :: es))) by exact (torn_put_all (put (unended h0 e0) x AAll) es (put_unended h0 e0 x AAll ltac:(done))).
      destruct last as [[e a]|]; [by apply torn_put|done].
Qed.

(** ** The amount that is in the file when writes are not cut short *)

Definition buffer_whole (w : campaign) : Prop := match c_buffer w with Some (_, a) => whole a | None => True end.
Section whole_buffer.
Context `{FloatRepr} (path_str : path → string) (root : path) (py : string) (out_root : path) (clean_between : bool) (mc : machine) (Hmc : whole_writes mc).

Lemma keeps_note o : keeps buffer_whole (note o).
Proof. by intros w Hw. Qed.
Lemma keeps_asked {A} (f : list cop → A + exn) : keeps buffer_whole (asked f).
Proof. by intros w Hw. Qed.
Hint Resolve keeps_note keeps_asked keeps_ret keeps_lift : core.
Lemma keeps_memory : keeps buffer_whole (read_memory mc).
Proof. apply keeps_bind; [auto|]. intros. apply keeps_bind; auto. Qed.
Lemma keeps_cleanup : keeps buffer_whole (run_cleanup mc).
Proof. apply keeps_bind; auto. Qed.
Lemma keeps_subprocess id cmd timeout : keeps buffer_whole (run_job_subprocess mc id cmd timeout).
Proof. apply keeps_bind; [auto|]. intros. apply keeps_bind; [auto|]. intros [[] ?]; [auto|]. apply keeps_bind; auto. Qed.
Lemma keeps_append e : keeps buffer_whole (append_state mc e).
Proof.
  apply keeps_bind; [|intros; apply keeps_bind; [|intros; apply keeps_bind; auto]].
  - intros w Hw. unfold write_line. destruct (write_fault _ _ _) as [[x []]|]; cbn; [by left|done|by left].
  - intros w Hw. unfold flush. unfold buffer_whole in Hw. destruct (c_buffer w) as [[e1 a1]|] eqn:E; [|cbn; unfold buffer_whole; cbn; by rewrite E].
    destruct (flush_fault _ _ _) as [[x a']|] eqn:Ef; [|done]. cbn. apply most_whole; [done|]. by eapply (proj1 Hmc).
Qed.
Hint Resolve keeps_memory keeps_cleanup keeps_subprocess keeps_append : core.
Lemma keeps_attempts id cmd timeout run_dir attempts : keeps buffer_whole (run_job_attempts clean_between mc id cmd timeout run_dir attempts).
Proof.
  induction attempts as [|attempt attempts IH]; [apply keeps_ret|]. cbn [run_job_attempts]. apply keeps_bind; [auto|]. intros info.
  apply keeps_bind; [auto|]. intros available. destruct (float_lt _ _).
  - apply keeps_bind; [auto|]. intros. apply keeps_bind; auto.
  - apply keeps_bind; [auto|]. intros [[rc late] peak]. apply keeps_bind; [auto|]. intros [].
    case_decide; [destruct clean_between; auto|]. destruct (attempt =? 1); [|done]. apply keeps_bind; auto.
Qed.
Lemma keeps_jobs completed jobs : keeps buffer_whole (for_each (run_job path_str root py out_root clean_between mc completed) jobs).
Proof.
  apply keeps_for. intros job _. apply keeps_bind; [auto|]. intros id. case_decide; [auto|]. apply keeps_bind; [auto|].
  intros [[cmd timeout] run_dir]. apply keeps_attempts.
Qed.
End whole_buffer.

Section campaigns.
Context `{FloatRepr} (path_str : path → string) (root : path) (py : string) (out_root : path) (clean_between : bool).

(** An invocation on a journal, and the journal after several, each with a machine
    of its own. *)
Definition invocation (jobs : list pydict) (f : journal_file) (mc : machine) : campaign * (() + exn) :=
  run_manifest path_str root py out_root clean_between mc jobs (st f None []).
Definition journal_after (jobs : list pydict) (mcs : list machine) : journal_file := foldl (λ f mc, c_file (invocation jobs f mc).1) (mkFile [] None) mcs.

Lemma ran_jobs_close completed ids es ops finished finished' : (finished' = true → finished = true) →
  ran_jobs completed ids es ops finished → ran_jobs completed ids es (ops ++ [Close]) finished'.
Proof.
  intros Hf R. assert (El : launches (ops ++ [Close]) = launches ops) by (rewrite launches_app; cbn; lia). split; try apply R.
  - intros id cmd t [Hin|[=]%list_elem_of_singleton]%elem_of_app. by eapply rj_launches.
  - rewrite El. apply R.
  - rewrite El. intros H'. apply R. auto.
Qed.

Lemma invocation_spec jobs ids f h mc : Forall2 (λ job id, job_id job = Ok id) jobs ids → NoDup ids → readable f h → let r := invocation jobs f mc in
  ∃ es last, ran_jobs (ok_jobs h) ids (es ++ buffered last) (c_trace r.1) (succeeded r.2) ∧ c_file r.1 = written f es last ∧
    (launches (c_trace r.1) ≤ S (recorded es))%nat ∧ (succeeded r.2 = true → last = None) ∧
    (whole_writes mc → ∀ e a, last = Some (e, a) → whole a).
Proof.
  intros Hids Hnd Hf. unfold invocation, run_manifest. unfold mbind, M_bind, get, lift. cbn [c_file compose]. rewrite (readable_lines f h Hf), load_whole.
  unfold finally. pose proof (λ Hmc, keeps_jobs path_str root py out_root clean_between mc Hmc (ok_jobs h) jobs (st f None []) I) as Hkeep.
  destruct (run_jobs_spec path_str root py out_root clean_between mc (ok_jobs h) jobs ids Hids Hnd f []) as (es & ops & (es0 & buf & -> & Ew & Hn & Hok) & R).
  destruct (for_each _ jobs _) as [w r]. cbn [fst snd] in *. subst w. cbn [app] in *. unfold close_journal. cbn [c_file c_buffer c_trace].
  destruct (match close_fault mc ops with Some (x, a') => _ | None => _ end) as [out a'] eqn:Ec. cbn [fst snd c_file c_trace].
  set (r' := match out with inl _ => r | inr e => inr e end).
  assert (Hr' : succeeded r' = true → succeeded r = true) by (unfold r'; by destruct out).
  assert (El : launches (ops ++ [Close]) = launches ops) by (rewrite launches_app; cbn; lia).
  exists es0, (match buf with Some (e, a) => Some (e, most a a') | None => None end). split_and!.
  - assert (buffered (match buf with Some (e, a) => Some (e, most a a') | None => None end) = buffered buf) as -> by (by destruct buf as [[]|]).
    by apply (ran_jobs_close _ _ _ _ (succeeded r)).
  - by destruct buf as [[]|].
  - rewrite El. lia.
  - intros H'. destruct (Hok (Hr' H')) as [-> _]. done.
  - intros Hmc e a Ha. specialize (Hkeep Hmc). unfold buffer_whole in Hkeep. cbn in Hkeep. destruct buf as [[e1 a1]|]; [|done].
    injection Ha as <- <-. apply most_whole; [done|]. destruct (close_fault mc ops) as [[x a2]|] eqn:Ef; injection Ec as _ <-; [by eapply (proj2 Hmc)|by right].
Qed.
Lemma invocation_torn jobs f mc : torn f → invocation jobs f mc = (st f None [], inr (Exn EValueError "Expecting value")).
Proof. intros Hf. unfold invocation, run_manifest, mbind, M_bind, get, lift. cbn [c_file compose]. by rewrite load_torn. Qed.

(** The journal after any invocations. *)
Lemma journal_after_spec jobs ids mcs : Forall2 (λ job id, job_id job = Ok id) jobs ids → NoDup ids → let f := journal_after jobs mcs in
  (∃ h, readable f h ∧ ok_is_last h ∧ (∀ e, e ∈ h → e_job e ∈ ids) ∧ (Forall whole_writes mcs → f = clean h)) ∨
  (torn f ∧ ¬ Forall whole_writes mcs).
Proof.
  intros Hids Hnd. induction mcs as [|mc mcs IH] using rev_ind.
  { left. exists []. split_and!; [by left|by intros [|] ? ? ?|by intros e ?%elem_of_nil|done]. }
  unfold journal_after in *. rewrite foldl_snoc. cbn zeta in *. set (f := foldl _ _ mcs) in *.
  assert (Hall : Forall whole_writes (mcs ++ [mc]) → Forall whole_writes mcs ∧ whole_writes mc) by (intros [? Hm]%Forall_app; split; [done|by inversion Hm]).
  destruct IH as [(h & Hf & Hlast & Hin & Hclean)|[Hf Hw]]; [|right; rewrite invocation_torn by done; split; [done|intros [? _]%Hall; done]].
  destruct (invocation_spec jobs ids f h mc Hids Hnd Hf) as (es & last & R & Ef & _ & _ & Hwhole). rewrite Ef.
  pose proof (ok_is_last_app _ _ _ _ _ Hlast R) as Hlast'.
  assert (Hsub : ∀ es', es' `prefix_of` es ++ buffered last → ok_is_last (h ++ es') ∧ ∀ e, e ∈ h ++ es' → e_job e ∈ ids).
  { intros es' [k Ek]. rewrite Ek in Hlast', R. split; [by apply (ok_is_last_prefix _ k); rewrite <-app_assoc|].
    intros e [He|He]%elem_of_app; [by apply Hin|]. eapply ran_jobs_elem; [exact R|]. apply elem_of_app. by left. }
  assert (Hgood : Forall whole_writes (mcs ++ [mc]) → ∃ es', written f es last = clean (h ++ es') ∧ es' `prefix_of` es ++ buffered last).
  { intros [H1 H2]%Hall. rewrite (Hclean H1). destruct (written_whole h es last (Hwhole H2)) as (es' & E & [->| ->]); [exists es|exists (es ++ buffered last)]; (split; [done|]).
    - by exists (buffered last).
    - done. }
  destruct (decide (Torn ∈ lines_of (written f es last))) as [Ht|Hnt].
  - right. split; [done|]. intros (es' & E & _)%Hgood. rewrite E in Ht. unfold lines_of, clean in Ht. cbn in Ht. rewrite app_nil_r in Ht. by apply list_elem_of_fmap in Ht as (? & [=] & _).
  - left. destruct (written_readable f h es last Hf) as [(es' & Hr & Hpre)|Ht]; [|done]. exists (h ++ es'). destruct (Hsub es' Hpre) as [H1 H2]. split_and!; [done..|].
    intros (es2 & E & _)%Hgood. rewrite E in Hr |- *. apply readable_lines in Hr. unfold lines_of, clean in Hr. cbn in Hr. rewrite app_nil_r in Hr. f_equal.
    by apply whole_inj.
Qed.
End campaigns.

(** C34: a campaign whose jobs have distinct ids can be resumed, unless a write of the
    journal was cut short. However invocations end, the journal is either readable,
    its lines the records [h] (of the last one the line end may be missing), with no
    record of a job after a successful one; or torn, and then every later invocation
    ends with JSONDecodeError before its first job and changes nothing. It is not
    torn, and grows by whole lines, when no write is cut short. An invocation on a
    readable journal writes its records in the order of the manifest, at most two of
    a job, the second after a first that failed, all of them as lines but for the
    last, of which an interrupted write or close may leave a part; a job with a
    successful record is neither started nor recorded again; at most one started
    subprocess has no line, and none when the invocation returns, which it does only
    when every job is done, was refused for want of memory, or failed twice. *)
Theorem campaign_resumes `{FloatRepr} path_str root py out_root clean_between jobs ids mcs : Forall2 (λ job id, job_id job = Ok id) jobs ids → NoDup ids →
  let run := invocation path_str root py out_root clean_between jobs in
  let f := journal_after path_str root py out_root clean_between jobs mcs in
  (Forall whole_writes mcs → ∃ h, f = clean h) ∧
  ((∃ h, readable f h ∧ ok_is_last h ∧ ∀ mc, ∃ es last,
      ran_jobs (ok_jobs h) ids (es ++ buffered last) (c_trace (run f mc).1) (succeeded (run f mc).2) ∧
      c_file (run f mc).1 = written f es last ∧
      (f = clean h → whole_writes mc → ∃ es', c_file (run f mc).1 = clean (h ++ es') ∧ (es' = es ∨ es' = es ++ buffered last)) ∧
      (launches (c_trace (run f mc).1) ≤ S (recorded es))%nat ∧ (succeeded (run f mc).2 = true → last = None) ∧
      (Forall (λ id, id ∈ ok_jobs h) ids → c_file (run f mc).1 = f ∧ launches (c_trace (run f mc).1) = 0%nat)) ∨
   (torn f ∧ ∀ mc, run f mc = (mkCampaign f None [], inr (Exn EValueError "Expecting value")))).
Proof.
  intros Hids Hnd run f. destruct (journal_after_spec path_str root py out_root clean_between jobs ids mcs Hids Hnd) as [(h & Hf & Hlast & _ & Hclean)|[Hf Hw]].
  2: { split; [done|]. right. split; [done|]. intros mc. by apply invocation_torn. }
  split; [intros Hw; exists h; by apply Hclean|]. left. exists h. split; [done|]. split; [done|]. intros mc.
  destruct (invocation_spec path_str root py out_root clean_between jobs ids f h mc Hids Hnd Hf) as (es & last & R & Ef & Hn & Hlast' & Hwhole).
  exists es, last. split; [exact R|]. split; [exact Ef|]. split_and!; [|done..|].
  - intros E Hmc. fold run in Ef. rewrite Ef, E. by apply written_whole, Hwhole.
  - intros Hall. destruct (ran_jobs_done _ _ _ _ _ R Hall) as [Hnil Hl]. split; [|done]. apply app_nil in Hnil as [-> Hb]. fold run in Ef. rewrite Ef. by destruct last as [[]|].
Qed.

(** * Examples *)

#[local] Instance toy_digits : FloatRepr := λ _, "0.0".
Definition demo_jobs : list pydict :=
  [[(PStr "id", PStr "a"); (PStr "kind", PStr "linear"); (PStr "hosts", PInt 3); (PStr "timeout", PInt 60)];
   [(PStr "id", PStr "b"); (PStr "kind", PStr "disaster"); (PStr "config", PStr "x.yaml"); (PStr "seed", PInt 1); (PStr "num", PInt 2); (PStr "duration", PInt 5); (PStr "timeout", PInt 90)]].
(** A machine on which [b] fails, and one that is killed while [b] runs: closing the
    journal writes nothing then. *)
Definition kill : exn := Exn EKeyboardInterrupt "".
Definition half_ok : machine :=
  mkMachine (λ _, inl ["MemTotal: 1000 kB"; "MemAvailable:  900 kB"]) (λ _ id, inl (InTime (if bool_decide (id = "a") then 0 else 1), 700))
    (λ _, None) (λ _ _, None) (λ _ _, None) (λ _, None) (λ _, None).
Definition killed_in_b : machine :=
  mkMachine (meminfo half_ok) (λ _ id, if bool_decide (id = "a") then inl (InTime 0, 700) else inr kill)
    (λ _, None) (λ _ _, None) (λ _ _, None) (λ _, None) (λ _, Some (kill, ANone)).
(** The flush of the first record is interrupted when the amount [a] is written;
    closing then writes the rest, or is not reached. *)
Definition interrupted (a : amount) (closes : bool) : machine :=
  mkMachine (meminfo half_ok) (ends half_ok) (λ _, None) (λ _ _, None) (λ _ _, Some (kill, a)) (λ _, None) (λ _, if closes then None else Some (kill, ANone)).
Definition demo_str (p : path) : string := (if absolute p then "/" else "") +s+ join "/" (parts p).
Notation demo_run := (invocation demo_str (pure_path "/repo") "py" (pure_path "/out") false).
Notation demo_after := (journal_after demo_str (pure_path "/repo") "py" (pure_path "/out") false).
Definition show (l : line) : option (string * Z * job_status) := match l with Whole e => Some (e_job e, e_attempt e, e_status e) | Torn => None end.

(** The first invocation is killed in [b]; the second does not start [a] again. *)
Lemma campaign_resumes_witness : ∃ h, demo_after demo_jobs [killed_in_b; half_ok] = clean h ∧
  (λ e, (e_job e, e_attempt e, e_status e)) <$> h = [("a", 1, SOk); ("b", 1, SFailed); ("b", 2, SFailed)].
Proof.
  assert (Hids : Forall2 (λ job id, job_id job = Ok id) demo_jobs ["a"; "b"]) by (repeat constructor).
  assert (Hnd : NoDup ["a"; "b"]) by (apply (bool_decide_unpack _); vm_compute; exact I).
  assert (Hw : Forall whole_writes [killed_in_b; half_ok]).
  { apply Forall_cons. split; [|apply Forall_singleton]; (split; intros *; cbn; [done|]); [|done]. intros [= _ <-]. by left. }
  destruct (campaign_resumes demo_str (pure_path "/repo") "py" (pure_path "/out") false demo_jobs ["a"; "b"] [killed_in_b; half_ok] Hids Hnd) as [Hclean _].
  destruct (Hclean Hw) as [h Eh]. exists h. split; [exact Eh|].
  assert (Hmap : show <$> f_lines (demo_after demo_jobs [killed_in_b; half_ok]) = [Some ("a", 1, SOk); Some ("b", 1, SFailed); Some ("b", 2, SFailed)]) by (vm_compute; reflexivity).
  rewrite Eh in Hmap. cbn [f_lines clean] in Hmap. rewrite <-list_fmap_compose in Hmap. clear -Hmap.
  destruct h as [|e1 [|e2 [|e3 [|]]]]; try discriminate Hmap. cbn in Hmap |- *. congruence.
Defined.
(** A line that was cut short keeps every later invocation from starting. *)
Example torn_line_stops : let f := demo_after demo_jobs [interrupted APart false] in
  torn f ∧ (demo_run demo_jobs f half_ok).2 = inr (Exn EValueError "Expecting value").
Proof. split; [apply elem_of_app; right; by left|vm_compute; done]. Qed.
(** An interrupted flush is completed by the close. *)
Example closed_after_interrupt : show <$> lines_of (demo_after demo_jobs [interrupted APart true]) = [Some ("a", 1, SOk)].
Proof. vm_compute. done. Qed.
(** A record without its line end is read, but the record that the next invocation
    appends lands on its line: both are lost, and the invocation after that stops. *)
Example unended_line_lost : let f := demo_after demo_jobs [interrupted AUnended false] in
  show <$> lines_of f = [Some ("a", 1, SOk)] ∧ show <$> lines_of (demo_after demo_jobs [interrupted AUnended false; half_ok]) = [None; Some ("b", 2, SFailed)] ∧
  (demo_run demo_jobs (demo_after demo_jobs [interrupted AUnended false; half_ok]) half_ok).2 = inr (Exn EValueError "Expecting value").
Proof. vm_compute. done. Qed.
(** Nothing compares the ids of a manifest: a job listed twice is run again in the
    invocation that recorded its success. *)
Example repeated_id_runs_again : show <$> lines_of (demo_after (take 1 demo_jobs ++ take 1 demo_jobs) [half_ok]) = [Some ("a", 1, SOk); Some ("a", 1, SOk)].
Proof. vm_compute. done. Qed.
Example quoted : format_cmd_for_display (Argv ["py"; "a b"; ""]) = "py 'a b' ''".
Proof. vm_compute. done. Qed.
