(* ===== verification/Autotest.v ===== *)
(** Component: repeated runs and their summary (tools/autotest/run.py and
    tools/autotest/analyze.py): the configuration of each run, the runs in order up
    to the first that fails, and the success rates and failure reasons per URI of the
    records they leave. *)
From S2P Require Import Prelude PyValue PyString PyText PyNum StateMonad Events Artifacts Verdict Bootstrap Campaign.
Local Open Scope Z_scope.

(** * Runs *)

Record run_args := mkRunArgs { runs : Z; duration : Z; start_num : Z; seed_base : option Z }.
(** [_resolve_seed]; a bool counts as an int. *)
Definition resolve_seed (base_config : pydict) (seed_base : option Z) (index : Z) : Z :=
  match seed_base with
  | Some s => s + index
  | None => match get_or base_config "seed" (PInt 42) with PInt s => s | PBool b => Z.b2z b | _ => 42 end + index
  end.
(** [_ensure_autotest_safe]. *)
Definition ensure_autotest_safe (base_config : pydict) : res () :=
  if truthy (get_none base_config "bridge") || truthy (get_none base_config "bridges") then raise ESystemExit "base-config must not include bridge/bridges for autotest"
  else if truthy (get_none base_config "ext") then raise ESystemExit "base-config must not include ext for autotest"
  else Ok ().

Section runs.
Context `{FloatRepr} (path_str : path → string).

(** The configuration of a run. *)
Definition run_config (base_config : pydict) (args : run_args) (run_root : path) (num seed : Z) : pydict :=
  foldl (λ d kv, dset d (PStr kv.1) kv.2) base_config
    [("num", PInt num); ("seed", PInt seed); ("no_cli", PBool true); ("duration", PInt (duration args)); ("results_json", PStr "results.json");
     ("output_dir", PStr (path_str (path_join run_root (pure_path "logs")))); ("timestamp", PBool false)].
Definition run_cmd (py : string) (args : run_args) (config_path : path) : list string :=
  [py; "-m"; "src"; "disaster"; "--config"; path_str config_path; "--no-cli"; "--duration"; str_Z (duration args); "--results-json"; "results.json"].
(** Where a run leaves its records. *)
Definition experiment_dir (run_root : path) (num seed : Z) : path := path_join (path_join run_root (pure_path "logs")) (pure_path (dir_name "" (PInt num) (PInt seed) false)).

(** [run_{run_id:04d}]. *)
Fixpoint zeros (n : nat) : string := match n with O => "" | S n => "0" +s+ zeros n end.
Definition pad4 (z : Z) : string := zeros (4 - String.length (str_Z z)) +s+ str_Z z.
Definition run_root (out_root : path) (run_id : Z) : path := path_join out_root (pure_path ("run_" +s+ pad4 run_id)).

(** What a run leaves: the status of its process, whether the experiment directory is
    there, the first directory its name begins, and whether a directory holds the
    records. *)
Record run_world := mkRunWorld { run_status : Z → option Z; has_dir : path → bool; first_candidate : path → option path; has_results : path → bool }.
(** [_run_one]: the path of the records. *)
Definition run_one (w : run_world) (out_root : path) (start : Z) (run_id num seed : Z) : res path :=
  let root := run_root out_root run_id in
  if negb (bool_decide (run_status w run_id = Some 0)) then raise ESystemExit ("run " +s+ str_Z run_id +s+ " failed. see " +s+ path_str (path_join root (pure_path "run.log")))
  else
    let exp_dir := experiment_dir root num seed in
    dir ← (if has_dir w exp_dir then Ok exp_dir
           else match first_candidate w exp_dir with
                | Some d => Ok d
                | None => raise ESystemExit ("run " +s+ str_Z run_id +s+ ": experiment directory not found under " +s+ path_str (path_join root (pure_path "logs")))
                end);
    let result_path := path_join dir (pure_path "results.json") in
    if has_results w result_path then Ok result_path else raise ESystemExit ("run " +s+ str_Z run_id +s+ ": results.json not found: " +s+ path_str result_path).
(** The runs of [main], in order: what each was given, up to the first that fails. *)
Definition run_all (w : run_world) (base_config : pydict) (args : run_args) (out_root : path) : res (list path) :=
  if runs args <? 1 then raise ESystemExit "--runs must be >= 1"
  else if duration args <? 0 then raise ESystemExit "--duration must be >= 0"
  else ensure_autotest_safe base_config ≫= λ _,
    mapR (λ i, run_one w out_root i (i + 1) (start_num args + i) (resolve_seed base_config (seed_base args) i)) (range (runs args)).
End runs.

(** * Records *)

Definition EVAL_OP_TYPES : list string := ["get"; "sub"].
(** [classify]: success, and the failure reasons of a record that failed. *)
Definition classify (record : pydict) : bool * list (string * bool) :=
  let verdict := from_record record in
  let success := bool_decide (success verdict = Some true) in
  (success, (λ kb, (kb.1, negb success && kb.2)) <$> failure_reasons verdict).

Record row := mkRow { total : Z; ok : Z; pd_total : Z; pd_ok : Z; exit_nonzero : Z; missing_log : Z; missing_output : Z }.
Definition empty_row : row := mkRow 0 0 0 0 0 0 0.

(** Was the publisher down? *)
Definition publisher_down (record : pydict) : res bool :=
  match get_none record "publisher_down" with
  | PNone =>
      let ph := get_none record "publisher_host" in
      if is_none ph then Ok false
      else match (let dh := get_or record "down_hosts" (PList []) in if truthy dh then dh else PList []) with
           | PList dh => Ok (existsb (pv_eqb ph) dh)
           | PDict dh => Ok (existsb (pv_eqb ph) dh.*1)
           | PStr dh => match ph with PStr ph => Ok (contains dh ph) | _ => raise ETypeError "requires string as left operand" end
           | _ => raise ETypeError "argument is not iterable"
           end
  | v => Ok (truthy v)
  end.
(** The URI of a record that counts; a list or a dict cannot be the key of a row. A
    URI is text in a record of the program; a number is left out of the model. *)
Definition uri_text (record : pydict) : Prop :=
  match get_or record "uri" (PStr "") with PInt _ | PFloat _ | PBool _ => truthy (get_or record "uri" (PStr "")) = false | _ => True end.
Definition counted_uri (record : pydict) : res (option string) :=
  match get_or record "uri" (PStr "") with
  | PStr "" => Ok None
  | PStr uri => Ok (if in_strs (if truthy (get_none record "op_type") then get_none record "op_type" else PStr "get") EVAL_OP_TYPES then Some uri else None)
  | v => if truthy v then raise ETypeError "uri" else Ok None
  end.
Definition reason (k : string) (reasons : list (string * bool)) : Z := Z.b2z (existsb (λ kb, bool_decide (kb.1 = k) && kb.2) reasons).
(** One record. *)
Definition count_record (record : pydict) (r : row) : res row :=
  if eq_str (get_or record "phase" (PStr "eval")) "warmup" then Ok r
  else
    let '(success, reasons) := classify record in
    down ← publisher_down record;
    Ok (mkRow (total r + 1) (ok r + Z.b2z success) (pd_total r + Z.b2z down) (pd_ok r + Z.b2z (down && success))
          (exit_nonzero r + reason "exit_code_nonzero" reasons) (missing_log r + reason "missing_completed_log" reasons) (missing_output r + reason "missing_output_file" reasons)).
Definition add_record (rows : gmap string row) (record : pydict) : res (gmap string row) :=
  uri ← counted_uri record;
  match uri with
  | None => Ok rows
  | Some uri => r ← count_record record (default empty_row (rows !! uri)); Ok (<[uri := r]> rows)
  end.
(** [summarize]: the rows by URI. *)
Definition rate_of (n d : Z) : option pyfloat := if d =? 0 then None else Some (double_of_ratio n d).
Definition rate (r : row) : option pyfloat := rate_of (ok r) (total r).
Definition rate_when_publisher_down (r : row) : option pyfloat := rate_of (pd_ok r) (pd_total r).
Definition summarize (records : list pydict) : res (list (string * row)) :=
  rows ← foldM add_record ∅ records;
  Ok (omap (λ uri, (λ r, (uri, r)) <$> rows !! uri) (sorted_strs (elements (dom rows)))).

(** ** Inputs and tables *)

(** An input path: a file, or a directory with the records below it. *)
Inductive input := InputFile (p : path) | InputDir (results : list path) | InputNone.
Definition found_results (i : input) : list path :=
  match i with
  | InputFile p => if bool_decide (last (parts p) = Some "results.json") then [p] else []
  | InputDir l => l
  | InputNone => []
  end.
(** [discover_results]: each file once. *)
Fixpoint unique_paths (resolve : path → path) (seen ps : list path) : list path :=
  match ps with
  | [] => []
  | p :: ps => let rp := resolve p in if decide (rp ∈ seen) then unique_paths resolve seen ps else rp :: unique_paths resolve (rp :: seen) ps
  end.
Definition discover_results (resolve : path → path) (inputs : list input) : list path := unique_paths resolve [] (inputs ≫= found_results).
(** The records of parsed files: lists only. *)
Definition all_records (files : list pv) : list pv := files ≫= λ v, match v with PList l => l | _ => [] end.

(** [f"{v:.3f}"] of a number that is not negative. *)
Definition fixed3 (m e : Z) : string :=
  let n := round_half_even (m * pow_num e * 1000) (pow_den e) in
  str_Z (n / 1000) +s+ "." +s+ zeros (3 - String.length (str_Z (n mod 1000))) +s+ str_Z (n mod 1000).
Definition fmt_rate (v : option pyfloat) : string := match v with Some (FFin m e) => fixed3 m e | Some _ => "nan" | None => "N/A" end.
(** The lines of [write_md]. *)
Definition md_lines (rows : list (string * row)) (input_files : nat) : list string :=
  ["# Autotest Summary"; ""; "- input_files: " +s+ str_Z (Z.of_nat input_files); "- uris: " +s+ str_Z (Z.of_nat (length rows)); "";
   "| uri | eval_success_rate | eval_success_rate_when_publisher_down |"; "|---|---:|---:|"]
  ++ ((λ ur, "| " +s+ ur.1 +s+ " | " +s+ fmt_rate (rate ur.2) +s+ " | " +s+ fmt_rate (rate_when_publisher_down ur.2) +s+ " |") <$> rows)
  ++ [""; "## Failure Reasons (Eval)"; ""; "| uri | exit_code_nonzero | missing_completed_log | missing_output_file |"; "|---|---:|---:|---:|"]
  ++ ((λ ur, "| " +s+ ur.1 +s+ " | " +s+ str_Z (exit_nonzero ur.2) +s+ " | " +s+ str_Z (missing_log ur.2) +s+ " | " +s+ str_Z (missing_output ur.2) +s+ " |") <$> rows).

(** * Summary *)

(** The records a row counts, and those of its URI. *)
Definition of_uri (uri : string) (record : pydict) : bool := match counted_uri record with Ok (Some u) => bool_decide (u = uri) | _ => false end.
Definition evaluated (uri : string) (record : pydict) : bool := of_uri uri record && negb (eq_str (get_or record "phase" (PStr "eval")) "warmup").
Definition succeeded (record : pydict) : bool := (classify record).1.
Definition was_down (record : pydict) : bool := match publisher_down record with Ok b => b | _ => false end.
Definition has_reason (k : string) (record : pydict) : bool := existsb (λ kb, bool_decide (kb.1 = k) && kb.2) (classify record).2.
Definition count (f : pydict → bool) (records : list pydict) : Z := Z.of_nat (length (List.filter f records)).
(** The row of a URI, counted. *)
Definition row_of (uri : string) (records : list pydict) : row :=
  let e := List.filter (evaluated uri) records in
  mkRow (count (λ _, true) e) (count succeeded e) (count was_down e) (count (λ r, was_down r && succeeded r) e)
    (count (has_reason "exit_code_nonzero") e) (count (has_reason "missing_completed_log") e) (count (has_reason "missing_output_file") e).

Lemma count_snoc f l x : count f (l ++ [x]) = count f l + Z.b2z (f x).
Proof. unfold count. rewrite List.filter_app, length_app. cbn [List.filter]. destruct (f x); cbn [length Z.b2z]; lia. Qed.
Lemma count_le f l : 0 ≤ count f l ≤ count (λ _, true) l.
Proof. unfold count. assert (List.filter (λ _, true) l = l) as -> by (induction l; simpl; congruence). pose proof (filter_length_le f l). lia. Qed.

(** A record can be counted. *)
Definition countable (record : pydict) : Prop :=
  ∃ u, counted_uri record = Ok u ∧ (is_Some u → eq_str (get_or record "phase" (PStr "eval")) "warmup" = false → ∃ b, publisher_down record = Ok b).

Lemma evaluated_of uri record : of_uri uri record = true → evaluated uri record = negb (eq_str (get_or record "phase" (PStr "eval")) "warmup").
Proof. intros Hu. unfold evaluated. by rewrite Hu. Qed.
Lemma evaluated_other uri record : of_uri uri record = false → evaluated uri record = false.
Proof. intros Hu. unfold evaluated. by rewrite Hu. Qed.

Lemma count_record_spec uri records record : of_uri uri record = true → (eq_str (get_or record "phase" (PStr "eval")) "warmup" = false → ∃ b, publisher_down record = Ok b) →
  count_record record (row_of uri records) = Ok (row_of uri (records ++ [record])).
Proof.
  intros Hu Hd. unfold count_record, row_of. rewrite List.filter_app. cbn [List.filter]. rewrite (evaluated_of _ _ Hu).
  destruct (eq_str (get_or record "phase" (PStr "eval")) "warmup"); cbn [negb]; [by rewrite app_nil_r|]. destruct (Hd eq_refl) as [b Eb].
  destruct (classify record) as [s reasons] eqn:Ec. rewrite Eb. cbn [mbind res_bind]. rewrite !count_snoc. unfold succeeded, was_down, has_reason, reason. by rewrite Eb, Ec.
Qed.
Lemma row_of_other uri records record : of_uri uri record = false → row_of uri (records ++ [record]) = row_of uri records.
Proof. intros Hu. unfold row_of. rewrite List.filter_app. cbn [List.filter]. rewrite (evaluated_other _ _ Hu). by rewrite app_nil_r. Qed.
Lemma row_of_absent uri records : existsb (of_uri uri) records = false → row_of uri records = empty_row.
Proof.
  intros Hno. assert (List.filter (evaluated uri) records = []) as E; [|unfold row_of; by rewrite E].
  induction records as [|r records IH]; [done|]. cbn [existsb] in Hno. apply orb_false_iff in Hno as [Hr Hno]. cbn [List.filter]. rewrite (evaluated_other _ _ Hr). by apply IH.
Qed.

(** The rows after some records. *)
Definition rows_of (records : list pydict) (rows : gmap string row) : Prop :=
  ∀ uri, rows !! uri = if existsb (of_uri uri) records then Some (row_of uri records) else None.
Lemma add_record_spec records rows record : rows_of records rows → countable record → ∃ rows', add_record rows record = Ok rows' ∧ rows_of (records ++ [record]) rows'.
Proof.
  intros Hrows (u & Eu & Hd). unfold add_record. rewrite Eu. cbn [mbind res_bind]. destruct u as [uri|].
  - assert (Hu : of_uri uri record = true) by (unfold of_uri; rewrite Eu; by apply bool_decide_eq_true).
    assert (default empty_row (rows !! uri) = row_of uri records) as ->.
    { rewrite Hrows. destruct (existsb (of_uri uri) records) eqn:Ex; [done|]. by rewrite row_of_absent. }
    rewrite (count_record_spec uri records record Hu) by (apply Hd; by eexists). cbn [mbind res_bind]. eexists. split; [done|]. intros uri'. rewrite existsb_app. cbn [existsb]. rewrite orb_false_r.
    destruct (decide (uri' = uri)) as [->|Hne]; [rewrite lookup_insert_eq, Hu, orb_true_r; done|]. rewrite lookup_insert_ne by done.
    assert (Hu' : of_uri uri' record = false) by (unfold of_uri; rewrite Eu; by apply bool_decide_eq_false). rewrite Hu', orb_false_r, row_of_other by done. apply Hrows.
  - exists rows. split; [done|]. intros uri'. rewrite existsb_app. cbn [existsb]. assert (Hu' : of_uri uri' record = false) by (unfold of_uri; by rewrite Eu). rewrite Hu', !orb_false_r, row_of_other by done. apply Hrows.
Qed.
Lemma publisher_down_defined record : publisher_down record ≠ NoFuel.
Proof.
  unfold publisher_down. destruct (get_none record "publisher_down"); try done. generalize (get_none record "publisher_host"). intros ph. destruct (is_none ph); [done|].
  generalize (if truthy (get_or record "down_hosts" (PList [])) then get_or record "down_hosts" (PList []) else PList []). intros dh. destruct dh; try done. by destruct ph.
Qed.
Lemma counted_uri_defined record : counted_uri record ≠ NoFuel.
Proof. unfold counted_uri. destruct (get_or record "uri" (PStr "")) as [| | | |s| |]; try (by destruct (truthy _)). destruct s; [done|]. by destruct (in_strs _ _). Qed.
Lemma add_record_defined rows record : add_record rows record ≠ NoFuel.
Proof.
  unfold add_record. pose proof (counted_uri_defined record). destruct (counted_uri record) as [[uri|]| |]; cbn [mbind res_bind]; try done. unfold count_record. destruct (eq_str _ _); [done|].
  destruct (classify record). pose proof (publisher_down_defined record). by destruct (publisher_down record).
Qed.
Lemma add_record_countable rows record rows' : add_record rows record = Ok rows' → countable record.
Proof.
  unfold add_record. intros (u & Eu & Hr)%res_bind_Ok. exists u. split; [done|]. intros [uri ->] Hw. apply res_bind_Ok in Hr as (r & Hc & _). unfold count_record in Hc. rewrite Hw in Hc.
  destruct (classify record). apply res_bind_Ok in Hc as (d & Ed & _). by exists d.
Qed.

(** All records. *)
Lemma add_records_spec records rows0 before : rows_of before rows0 → Forall countable records →
  ∃ rows, foldM add_record rows0 records = Ok rows ∧ rows_of (before ++ records) rows.
Proof.
  revert rows0 before. induction records as [|record records IH]; intros rows0 before Hrows Hall; [exists rows0; by rewrite app_nil_r|].
  apply Forall_cons in Hall as [Hr Hall]. destruct (add_record_spec before rows0 record Hrows Hr) as (rows1 & E1 & Hrows1). cbn [foldM]. rewrite E1. cbn [mbind res_bind].
  destruct (IH rows1 (before ++ [record]) Hrows1 Hall) as (rows & E & Hf). exists rows. split; [done|]. by rewrite <-app_assoc in Hf.
Qed.
Lemma add_records_raise records rows0 : ¬ Forall countable records → ∃ e, foldM add_record rows0 records = Raise e.
Proof.
  revert rows0. induction records as [|record records IH]; intros rows0 Hno; [exfalso; by apply Hno|]. cbn [foldM].
  destruct (add_record rows0 record) as [rows1|e|] eqn:E1; cbn [mbind res_bind]; [|by exists e|].
  - apply IH. intros Hall. apply Hno. constructor; [|done]. by eapply add_record_countable.
  - exfalso. by eapply add_record_defined.
Qed.
Lemma rows_of_nil : rows_of [] ∅.
Proof. intros uri. apply lookup_empty. Qed.

#[local] Instance str_le_total : Total str_le.
Proof. intros a b. unfold str_le. destruct (String.leb_total a b); auto. Qed.
Lemma listed_rows (rows : gmap string row) us : (∀ u, u ∈ us → is_Some (rows !! u)) → (omap (λ uri, (λ r, (uri, r)) <$> rows !! uri) us).*1 = us.
Proof.
  induction us as [|u us IH]; intros Hin; [done|]. cbn. destruct (Hin u ltac:(by left)) as [r Er]. rewrite Er. cbn. f_equal. apply IH. intros v Hv. apply Hin. by right.
Qed.

(** What a row promises. *)
Record row_sound (r : row) : Prop := {
  ok_bound : 0 ≤ ok r ≤ total r;
  pd_bound : 0 ≤ pd_ok r ≤ pd_total r ∧ pd_total r ≤ total r ∧ pd_ok r ≤ ok r;
  reasons_failed : exit_nonzero r ≤ total r - ok r ∧ missing_log r ≤ total r - ok r ∧ missing_output r ≤ total r - ok r;
}.
Lemma count_mono f g l : (∀ x, f x = true → g x = true) → 0 ≤ count f l ≤ count g l.
Proof.
  intros Hfg. unfold count. split; [lia|]. induction l as [|x l IH]; [done|]. cbn [List.filter]. specialize (Hfg x). destruct (f x); [rewrite Hfg by done; cbn [length]; lia|]. destruct (g x); cbn [length]; lia.
Qed.
Lemma count_compl f l : count (λ x, negb (f x)) l = count (λ _, true) l - count f l.
Proof. unfold count. induction l as [|x l IH]; [done|]. cbn [List.filter]. destruct (f x); cbn [negb length]; lia. Qed.
Lemma has_reason_failed k record : has_reason k record = true → negb (succeeded record) = true.
Proof.
  unfold has_reason, succeeded. unfold classify at 1 2. cbn [fst snd]. intros ([k' b] & Hin & Hb)%existsb_exists. apply list_elem_of_In, list_elem_of_fmap in Hin as ([k2 b2] & [= -> ->] & _).
  cbn in Hb. apply andb_prop in Hb as [_ Hb]. by apply andb_prop in Hb as [Hb _].
Qed.
Lemma row_of_sound uri records : row_sound (row_of uri records).
Proof.
  pose proof (λ k l, proj2 (count_mono _ _ l (has_reason_failed k))) as Hr. setoid_rewrite count_compl in Hr.
  unfold row_of. constructor; cbn [ok total pd_ok pd_total exit_nonzero missing_log missing_output]; [by apply count_mono| |by split_and!].
  split; [|split]; [by apply count_mono; intros x [? _]%andb_prop|by apply count_mono|by apply count_mono; intros x [_ ?]%andb_prop].
Qed.

(** The summary of the records of any number of runs has one row for each URI that
    a [get] or a [sub] was recorded for, in order; a row is the count over the
    evaluation records of its URI; its success counts
    do not pass its totals and no failure reason is counted for a record that
    succeeded.  There is a summary exactly when every record can be counted. *)
Lemma summarize_spec (records : list pydict) : Forall uri_text records →
  (Forall countable records → ∃ rows, summarize records = Ok rows ∧ Sorted str_le rows.*1 ∧ NoDup rows.*1 ∧
    (∀ uri, uri ∈ rows.*1 ↔ ∃ record, record ∈ records ∧ of_uri uri record = true) ∧
    ∀ uri r, (uri, r) ∈ rows → r = row_of uri records ∧ row_sound r) ∧
  (¬ Forall countable records → ∃ e, summarize records = Raise e).
Proof.
  intros _. unfold summarize. split.
  - intros Hall. destruct (add_records_spec records ∅ [] rows_of_nil Hall) as (rows & -> & Hrows). cbn [mbind res_bind app] in *. eexists. split; [done|].
    assert (Hus : ∀ u, u ∈ sorted_strs (elements (dom rows)) ↔ is_Some (rows !! u)) by (intros u; unfold sorted_strs; by rewrite merge_sort_Permutation, elem_of_elements, elem_of_dom).
    rewrite listed_rows by (intros u; apply Hus). split_and!.
    + unfold sorted_strs. apply (Sorted_merge_sort str_le).
    + unfold sorted_strs. rewrite merge_sort_Permutation. apply NoDup_elements.
    + intros uri. rewrite Hus, Hrows. destruct (existsb (of_uri uri) records) eqn:Ex.
      * split; [intros _|by intros _; eexists]. apply existsb_exists in Ex as (record & Hin & Ho). exists record. split; [by apply list_elem_of_In|done].
      * split; [by intros [? ?]|]. intros (record & Hin & Ho). assert (existsb (of_uri uri) records = true); [|congruence]. apply existsb_exists. exists record. split; [by apply list_elem_of_In|done].
    + intros uri r (u & Hin & Er)%list_elem_of_omap. destruct (rows !! u) as [r'|] eqn:Eu; [|done]. cbn in Er. injection Er as -> ->. rewrite Hrows in Eu. destruct (existsb _ records); [|done]. injection Eu as <-. split; [done|apply row_of_sound].
  - intros Hno. destruct (add_records_raise records ∅ Hno) as [e ->]. by exists e.
Qed.

(** * Runs of a campaign *)

Section of_campaign.
Context `{FloatRepr} (path_str : path → string).

(** The one run a campaign's job asks for leaves its records where the journal says. *)
Lemma campaign_finds_run base_config w job job_out n s d paths :
  dget job "num" = Some (PInt n) → dget job "seed" = Some (PInt s) →
  (∀ p, has_dir w p = true) → run_all path_str w base_config (mkRunArgs 1 d n (Some s)) job_out = Ok paths →
  ∃ run_dir, disaster_run_dir job job_out = Ok run_dir ∧ paths = [path_join run_dir (pure_path "results.json")] ∧ run_status w 1 = Some 0.
Proof.
  intros Hn Hs Hdir Hrun. unfold disaster_run_dir, getitem. rewrite Hn, Hs. cbn [mbind res_bind]. eexists. split; [done|].
  unfold run_all in Hrun. cbn [runs duration start_num seed_base] in Hrun. destruct (1 <? 1) eqn:E1; [lia|]. destruct (d <? 0); [done|].
  apply res_bind_Ok in Hrun as ([] & _ & Hrun). change (range 1) with [0] in Hrun. cbn [mapR] in Hrun. apply res_bind_Ok in Hrun as (p & Hp & (ps & [= <-] & [= <-])%res_bind_Ok).
  unfold resolve_seed, run_one in Hp. rewrite Hdir in Hp. rewrite !Z.add_0_r in Hp. change (0 + 1) with 1 in Hp.
  destruct (bool_decide (run_status w 1 = Some 0)) eqn:Est; [|done]. apply bool_decide_eq_true in Est. cbn [negb mbind res_bind] in Hp.
  destruct (has_results _ _); [|done]. injection Hp as <-. split; [done|done].
Qed.
(** The paths of the runs, when every one succeeds: one each, in order. *)
Lemma run_all_ok base_config w args out_root paths : run_all path_str w base_config args out_root = Ok paths →
  length paths = Z.to_nat (runs args) ∧ ∀ i, 0 ≤ i < runs args → run_status w (i + 1) = Some 0 ∧ ∃ p, paths !! Z.to_nat i = Some p ∧ has_results w p = true.
Proof.
  unfold run_all. destruct (runs args <? 1); [done|]. destruct (duration args <? 0); [done|]. intros ([] & _ & Hrun)%res_bind_Ok. apply mapR_Ok in Hrun.
  split; [apply Forall2_length in Hrun; unfold range in Hrun; by rewrite length_seqZ in Hrun|]. intros i Hi.
  assert (Hr : range (runs args) !! Z.to_nat i = Some i) by (unfold range; rewrite lookup_seqZ_lt by lia; f_equal; lia).
  destruct (Forall2_lookup_l _ _ _ _ _ Hrun Hr) as (p & Ep & E). unfold run_one in E. destruct (bool_decide (run_status w (i + 1) = Some 0)) eqn:Est; [|done]. apply bool_decide_eq_true in Est.
  cbn [negb] in E. apply res_bind_Ok in E as (dir & _ & E). destruct (has_results w _) eqn:Eh; [|done]. injection E as <-. split; [done|]. by eexists.
Qed.
End of_campaign.

(** Each file is read once. *)
Lemma unique_paths_spec resolve seen ps : NoDup (unique_paths resolve seen ps) ∧ ∀ p, p ∈ unique_paths resolve seen ps ↔ p ∈ resolve <$> ps ∧ p ∉ seen.
Proof.
  revert seen. induction ps as [|q ps IH]; intros seen; cbn [unique_paths fmap list_fmap]; [split; [constructor|intros p; rewrite elem_of_nil; naive_solver]|].
  destruct (decide (resolve q ∈ seen)) as [Hs|Hs].
  - destruct (IH seen) as [Hn Hm]. split; [done|]. intros p. rewrite Hm, elem_of_cons. naive_solver.
  - destruct (IH (resolve q :: seen)) as [Hn Hm]. split; [constructor; [rewrite Hm; intros [_ Hno]; apply Hno; by left|done]|].
    intros p. rewrite !elem_of_cons, Hm, elem_of_cons. destruct (decide (p = resolve q)); naive_solver.
Qed.

(** * Examples *)

#[local] Instance toy_digits : FloatRepr := λ _, "0.0".
Definition demo_record (host : string) (succeeded : bool) : pydict :=
  [(PStr "uri", PStr "ccnx:/a"); (PStr "op_type", PStr "get"); (PStr "publisher_host", PStr "h1"); (PStr "down_hosts", PList [PStr host]);
   (PStr "success", PBool succeeded); (PStr "exit_code", PInt 0); (PStr "has_completed_log", PBool succeeded); (PStr "has_output_file", PBool true)].
Example two_records : match summarize [demo_record "h1" true; demo_record "h2" false; [(PStr "uri", PStr "ccnx:/b"); (PStr "op_type", PStr "put")]] with
  | Ok rows => md_lines rows 1 !! 7%nat = Some "| ccnx:/a | 0.500 | 1.000 |" ∧ rows = [("ccnx:/a", mkRow 2 1 1 1 0 1 0)] | _ => False end.
Proof. vm_compute. split; reflexivity. Qed.
Example fourth_run : parts (run_root (pure_path "/o") 4) = ["o"; "run_0004"].
Proof. vm_compute. reflexivity. Qed.
