(* ===== verification/Viz.v ===== *)
(** Component: the printed topology (src/runtime/viz.py): the host graph the cache
    placement reads, the breadth-first tree of every host and the adjacency matrix.
    The PNG is left to networkx and matplotlib. *)
From S2P Require Import Prelude PyValue PyString PyNum Topology Graph KCenters.
Local Open Scope Z_scope.

(** * The host graph *)

Abbreviation switches := (gmap (Z * Z) (option string)).

(** [graph.setdefault(a, set()).add(b)]. *)
Definition setdefault_add (g : graph) (a b : Z) : graph := <[a := {[b]} ∪ default ∅ (g !! a)]> g.
Definition add_both (gs : graph * switches) (e : Z * Z * Link) : graph * switches :=
  let '(a, b, l) := e in (setdefault_add (setdefault_add gs.1 a b) b a, <[(a, b) := switch l]> gs.2).
(** [build_host_graph]. *)
Definition build_host_graph (mesh : list raw_link) : graph * switches := foldl add_both (∅, ∅) (edges (TopologyModel mesh)).

(** * The tree of a host *)

(** [parent] and the part of [queue] the loop has not reached. *)
Record spanning := mkSpanning { t_parent : gmap Z (option Z); t_queue : list Z }.
Definition tree_visit (node : Z) (st : spanning) (neighbor : Z) : spanning :=
  match t_parent st !! neighbor with
  | Some _ => st
  | None => mkSpanning (<[neighbor := Some node]> (t_parent st)) (t_queue st ++ [neighbor])
  end.
(** [for node in queue], the queue growing at its end; the nodes in the order they
    were reached, which is the order of the keys of [parent]. *)
Fixpoint tree_loop (fuel : nat) (g : graph) (order : list Z) (st : spanning) : res (gmap Z (option Z) * list Z) :=
  match fuel with
  | O => NoFuel
  | S fuel =>
      match t_queue st with
      | [] => Ok (t_parent st, order)
      | node :: queue => tree_loop fuel g (order ++ [node]) (foldl (tree_visit node) (mkSpanning (t_parent st) queue) (sorted_set (default ∅ (g !! node))))
      end
  end.

(** [for node, ancestor in parent.items()]. *)
Definition add_child (parent : gmap Z (option Z)) (children : gmap Z (list Z)) (node : Z) : res (gmap Z (list Z)) :=
  match default None (parent !! node) with
  | None => Ok children
  | Some ancestor =>
      match children !! ancestor with
      | Some kids => Ok (<[ancestor := kids ++ [node]]> children)
      | None => raise EKeyError (str_Z ancestor)
      end
  end.
Definition no_children (order : list Z) : gmap Z (list Z) := list_to_map ((λ n, (n, [])) <$> order).
(** [build_tree]. *)
Definition build_tree (g : graph) (root : Z) : res (gmap Z (list Z)) :=
  '(parent, order) ← tree_loop (search_fuel g) g [] (mkSpanning {[root := None]} [root]);
  children ← foldM (add_child parent) (no_children order) order;
  Ok (fmap (M := gmap Z) sorted_list children).

(** * The printed view *)

(** A line of [walk]: the child, its parent, the prefix, and whether it is the last. *)
Record entry := mkEntry { v_node : Z; v_parent : Z; v_prefix : string; v_last : bool }.
Section walk.
Context (children : gmap Z (list Z)).
(** [for idx, child in enumerate(kids)] around a recursive call [walk]. *)
Fixpoint walk_kids (walk : Z → string → res (list entry)) (node : Z) (prefix : string) (kids : list Z) : res (list entry) :=
  match kids with
  | [] => Ok []
  | child :: kids =>
      let is_last := bool_decide (kids = []) in
      below ← walk child (prefix +s+ if is_last then "    " else "|   ");
      after ← walk_kids walk node prefix kids;
      Ok (mkEntry child node prefix is_last :: below ++ after)
  end.
Fixpoint walk (fuel : nat) (node : Z) (prefix : string) : res (list entry) :=
  match fuel with
  | O => NoFuel
  | S fuel => walk_kids (walk fuel) node prefix (default [] (children !! node))
  end.
End walk.

Definition ordered_pair (a b : Z) : Z * Z := (Z.min a b, Z.max a b).
(** A label that is [None] prints as [None]. *)
Definition shown (o : option string) : string := default "None" o.
Definition entry_line (sw : switches) (e : entry) : string :=
  v_prefix e +s+ (if v_last e then "`-- " else "|-- ") +s+ "h" +s+ str_Z (v_node e) +s+ " (via "
  +s+ match sw !! ordered_pair (v_node e) (v_parent e) with Some s => shown s | None => "?" end +s+ ")".
(** The view of one root, and of every host. *)
Definition tree_view (g : graph) (root : Z) : res (list entry) :=
  children ← build_tree g root;
  walk children (S (size children)) root "".
Definition print_trees (gs : graph * switches) : res (list string) :=
  views ← mapR (λ root, es ← tree_view gs.1 root; Ok (("h" +s+ str_Z root) :: (entry_line gs.2 <$> es) ++ [""])) (sorted_set (dom gs.1));
  Ok (concat views).

(** ** The matrix *)

(** [s.ljust(n)], and [max((len(x) for x in l), default=2)]. *)
Fixpoint spaces (n : nat) : string := match n with O => "" | S n => " " +s+ spaces n end.
Definition ljust (s : string) (n : nat) : string := s +s+ spaces (n - String.length s).
Definition longest (l : list string) : nat := match l with [] => 2 | _ => foldr (λ s n, String.length s `max` n)%nat 0%nat l end.
(** [len(label)] of a label that is [None] raises. *)
Definition label_of (o : option string) : res string := match o with Some s => Ok s | None => raise ETypeError "object of type 'NoneType' has no len()" end.
Definition matrix_cell (sw : switches) (width : nat) (a b : Z) : string :=
  ljust (if a =? b then "." else match sw !! ordered_pair a b with Some s => shown s | None => "." end) width.
Definition print_matrix (gs : graph * switches) : res (list string) :=
  let nodes := sorted_set (dom gs.1) in
  let host_labels := (λ n, "h" +s+ str_Z n) <$> nodes in
  switch_labels ← mapR label_of (map_to_list gs.2).*2;
  let cell_width := (2 `max` longest host_labels `max` longest switch_labels)%nat in
  Ok ((spaces (cell_width + 1) +s+ join " " ((λ l, ljust l cell_width) <$> host_labels))
      :: ((λ n, join " " (ljust ("h" +s+ str_Z n) cell_width :: (matrix_cell gs.2 cell_width n <$> nodes))) <$> nodes)).
(** [print_mesh_links]: both, with the headings around them. *)
Definition print_mesh_links (mesh : list raw_link) : res (list string) :=
  let gs := build_host_graph mesh in
  trees ← print_trees gs;
  matrix ← print_matrix gs;
  Ok (["" ; "Mesh topology (per-host tree view):"] ++ trees ++ ["> - Topology view as a single figure (adjacency matrix)"; "Mesh topology (adjacency matrix; cell = switch):"] ++ matrix ++ [""]).

Example square_view : print_mesh_links [RawMulti (Some "s1") (Some 1) [0; 1; 2] None; RawMulti (Some "s2") (Some 2) [2; 3] None] ≫= (λ ls, Ok (take 6 ls))
  = Ok [""; "Mesh topology (per-host tree view):"; "h0"; "|-- h1 (via s1)"; "`-- h2 (via s1)"; "    `-- h3 (via s2)"].
Proof. vm_compute. reflexivity. Qed.

(** * The graph has the edges of the mesh *)

Lemma setdefault_adjacent g a b u v : adjacent (setdefault_add g a b) u v ↔ adjacent g u v ∨ (u = a ∧ v = b).
Proof. rewrite !adjacent_alt. unfold setdefault_add. rewrite lookup_insert. case_decide as Ha; [subst; cbn; set_solver|naive_solver]. Qed.
Lemma setdefault_dom g a b u : is_Some (setdefault_add g a b !! u) ↔ is_Some (g !! u) ∨ u = a.
Proof. unfold setdefault_add. rewrite lookup_insert_is_Some. destruct (decide (a = u)); naive_solver. Qed.

(** [a] and [b] are the ends of an edge of [es], in either order. *)
Definition joined (es : list (Z * Z * Link)) (a b : Z) : Prop := ∃ l, (a, b, l) ∈ es ∨ (b, a, l) ∈ es.
Lemma build_host_graph_spec mesh : let gs := build_host_graph mesh in
  (∀ a b, adjacent gs.1 a b ↔ joined (edges (TopologyModel mesh)) a b) ∧
  (∀ a, is_Some (gs.1 !! a) ↔ ∃ b, joined (edges (TopologyModel mesh)) a b) ∧
  ∀ a b, (∃ l, (a, b, l) ∈ edges (TopologyModel mesh)) → ∃ l, gs.2 !! (a, b) = Some (switch l) ∧ (a, b, l) ∈ edges (TopologyModel mesh).
Proof.
  unfold build_host_graph. generalize (edges (TopologyModel mesh)) as es. intros es. induction es as [|[[x y] l] es (Ha & Hd & Hs)] using rev_ind.
  { cbn. split_and!.
    - intros a b. rewrite adjacent_alt, lookup_empty. cbn. unfold joined. setoid_rewrite elem_of_nil. set_solver.
    - intros a. rewrite lookup_empty. unfold joined. setoid_rewrite elem_of_nil. split; [by intros [? ?]|naive_solver].
    - intros a b [l Hl]. by apply elem_of_nil in Hl. }
  rewrite foldl_app. cbn [foldl]. set (gs := foldl add_both (∅, ∅) es) in *. cbn [add_both fst snd].
  assert (Hj : ∀ a b, joined (es ++ [(x, y, l)]) a b ↔ joined es a b ∨ (a = x ∧ b = y) ∨ (a = y ∧ b = x)).
  { intros a b. unfold joined. setoid_rewrite elem_of_app. setoid_rewrite list_elem_of_singleton. naive_solver. }
  split_and!.
  - intros a b. rewrite !setdefault_adjacent, Ha, Hj. tauto.
  - intros a. rewrite !setdefault_dom, Hd. setoid_rewrite Hj. naive_solver.
  - intros a b [l' Hl']. rewrite lookup_insert. case_decide as He; [injection He as -> ->; exists l; split; [done|]; apply elem_of_app; right; by left|].
    apply elem_of_app in Hl' as [Hl'|Hl']; [|apply list_elem_of_singleton in Hl' as [= -> -> ->]; done].
    destruct (Hs a b) as (l2 & E & Hin); [by exists l'|]. exists l2. split; [done|]. apply elem_of_app. by left.
Qed.
Lemma build_host_graph_sym mesh a b : adjacent (build_host_graph mesh).1 a b → adjacent (build_host_graph mesh).1 b a.
Proof. destruct (build_host_graph_spec mesh) as (Ha & _). rewrite !Ha. unfold joined. naive_solver. Qed.
Lemma edges_ordered mesh a b l : (a, b, l) ∈ edges (TopologyModel mesh) → a ≤ b.
Proof.
  intros (Hl & Hp)%elem_of_edges. apply list_elem_of_fmap in Hl as (raw & -> & _). pose proof (hosts_normalize_sorted raw) as Hs.
  apply elem_of_host_pairs in Hp as (i & j & Hij & Hi & Hj). rewrite <-(take_drop j (hosts _)) in Hs.
  apply (StronglySorted_app_1_elem_of Z.le _ _ a b) in Hs; [done| |].
  - apply list_elem_of_lookup_2 with i. by rewrite lookup_take_lt.
  - apply list_elem_of_lookup_2 with 0%nat. by rewrite lookup_drop, Nat.add_0_r.
Qed.

(** * The tree is a breadth-first tree *)

Section tree.
Context (g : graph) (root : Z).

(** The tree of a search: the loop follows [compute_distances] step by step. *)
Record tinv (st : spanning) (b : bfs) : Prop := {
  ti_queue : t_queue st = b_queue b;
  ti_dom v : is_Some (t_parent st !! v) ↔ is_Some (b_dist b !! v);
  ti_root : t_parent st !! root = Some None;
  ti_parent v p : v ≠ root → t_parent st !! v = Some p → ∃ u d, p = Some u ∧ adjacent g u v ∧ b_dist b !! u = Some d ∧ b_dist b !! v = Some (d + 1);
}.
Lemma tinv_visit n m st b v b' : tinv st b → b_dist b !! n = Some m → adjacent g n v → bfs_visit n b v = Ok b' → tinv (tree_visit n st v) b'.
Proof.
  intros [Hq Hd Hr Hp] Hn Hadj Hv. unfold bfs_visit in Hv. unfold tree_visit. destruct (b_dist b !! v) as [dv|] eqn:Edv.
  - injection Hv as <-. destruct (t_parent st !! v) eqn:Ep; [by constructor|]. destruct (proj2 (Hd v)) as [? ?]; [by eexists|congruence].
  - rewrite Hn in Hv. injection Hv as <-. destruct (t_parent st !! v) eqn:Ep; [destruct (proj1 (Hd v)) as [? ?]; [by eexists|congruence]|].
    assert (Hvr : v ≠ root) by congruence. constructor; cbn [t_queue t_parent b_queue b_dist].
    + by rewrite Hq.
    + intros w. rewrite !lookup_insert_is_Some, Hd. done.
    + by rewrite lookup_insert_ne.
    + intros w p Hw. rewrite lookup_insert. case_decide as Hvw.
      * intros [= <-]. subst w. exists n, m. split_and!; [done..| |]; [rewrite lookup_insert_ne by congruence; done|by rewrite lookup_insert_eq].
      * intros E. destruct (Hp w p Hw E) as (u & d & -> & Ha & Hu & Hw'). exists u, d. split_and!; [done..| |]; rewrite lookup_insert_ne; congruence.
Qed.
Lemma tinv_visit_all n m ns : ∀ st b b', tinv st b → b_dist b !! n = Some m → (∀ v, v ∈ ns → adjacent g n v) → foldM (bfs_visit n) b ns = Ok b' → tinv (foldl (tree_visit n) st ns) b'.
Proof.
  induction ns as [|v ns IH]; intros st b b' Ht Hn Hns Hf; [by injection Hf as <-|]. cbn [foldM foldl] in *. apply res_bind_Ok in Hf as (b1 & E1 & Hf).
  eapply (IH _ b1); [by eapply tinv_visit; [..|apply Hns; left|done]| |by intros; apply Hns; right|done].
  unfold bfs_visit in E1. destruct (b_dist b !! v) eqn:Ev; [by injection E1 as <-|]. rewrite Hn in E1. injection E1 as <-. cbn. rewrite lookup_insert_ne by congruence. done.
Qed.

(** The loop ends with the tree of all reached nodes, listed once each. *)
Lemma tree_loop_spec fuel : ∀ F m st b, tinv st b → binv g root F m (λ _ _, True) b → NoDup F → (length (b_queue b) + degree_left g F < fuel)%nat →
  ∃ F' m' parent b', tree_loop fuel g (reverse F) st = Ok (parent, reverse F') ∧ binv g root F' m' (λ _ _, True) b' ∧ b_queue b' = [] ∧ tinv (mkSpanning parent []) b' ∧ NoDup F'.
Proof.
  induction fuel as [|fuel IH]; intros F m st b Ht Hi HF Hfuel; [lia|]. cbn [tree_loop]. rewrite (ti_queue _ _ Ht). destruct (b_queue b) as [|n q] eqn:Hq.
  { exists F, m, (t_parent st), b. split_and!; [done..| |done]. destruct Ht; constructor; cbn in *; try done. }
  destruct (binv_pop g root F m b n q Hi Hq) as (d & Hd & HnF & Hi').
  destruct (binv_visit_all g root (n :: F) d (sorted_set (default ∅ (g !! n))) _ _ n Hi') as (b2 & E2 & Hi2 & Hl2); [by left|done|by intros v Hv%elem_of_sorted_set; apply adjacent_alt|].
  assert (Ht2 : tinv (foldl (tree_visit n) (mkSpanning (t_parent st) q) (sorted_set (default ∅ (g !! n)))) b2).
  { eapply (tinv_visit_all n d _ _ (mkBfs (b_dist b) q)); [|exact Hd| |exact E2]; [destruct Ht; constructor; cbn; done|by intros v Hv%elem_of_sorted_set; apply adjacent_alt]. }
  replace (reverse F ++ [n]) with (reverse (n :: F)) by (by rewrite reverse_cons). apply (IH (n :: F) d _ b2 Ht2); [|by constructor|].
  - destruct Hi2. constructor; eauto. intros x y Hx Hxy _. apply bi_closed; [done..|]. destruct (decide (x = n)) as [->|]; [right|by left]. split; [done|]. apply elem_of_sorted_set. by apply adjacent_alt.
  - rewrite length_sorted_set in Hl2. pose proof (degree_left_get g F n HnF). cbn [b_queue length] in *. lia.
Qed.

(** The finished tree: its nodes in order, their parents and their distances. *)
Record spans (parent : gmap Z (option Z)) (order : list Z) (dist : gmap Z Z) : Prop := {
  sp_order : NoDup order;
  sp_dom v : v ∈ order ↔ is_Some (dist !! v);
  sp_parent_dom v : is_Some (parent !! v) ↔ is_Some (dist !! v);
  sp_root : parent !! root = Some None ∧ dist !! root = Some 0;
  sp_parent v p : v ≠ root → parent !! v = Some p → ∃ u d, p = Some u ∧ adjacent g u v ∧ dist !! u = Some d ∧ dist !! v = Some (d + 1);
  sp_dist v d : dist !! v = Some d ↔ shortest_cost (adjacent g) unit_weight root v d;
}.
Lemma tree_loop_spans : ∃ parent order dist, tree_loop (search_fuel g) g [] (mkSpanning {[root := None]} [root]) = Ok (parent, order) ∧ spans parent order dist.
Proof.
  destruct (tree_loop_spec (search_fuel g) [] 0 (mkSpanning {[root := None]} [root]) (mkBfs {[root := 0]} [root])) as (F & m & parent & b & E & Hi & Hq & Ht & HF).
  - constructor; cbn; [done| |by rewrite lookup_singleton_eq|].
    + intros v. by rewrite !lookup_singleton_is_Some.
    + intros v p Hv [-> _]%lookup_singleton_Some. done.
  - apply binv_init.
  - constructor.
  - unfold search_fuel, degree_left. cbn. lia.
  - exists parent, (reverse F), (b_dist b). split; [exact E|].
    assert (HFd : ∀ v, v ∈ F ↔ is_Some (b_dist b !! v)).
    { intros v. split; [intros Hv; destruct (bi_F _ _ _ _ _ _ Hi v Hv) as (d & ? & _); by exists d|]. intros Hv. destruct (decide (v ∈ F)) as [|Hno]; [done|].
      assert (v ∈ b_queue b) as Hin by (apply (bi_queue _ _ _ _ _ _ Hi); done). rewrite Hq in Hin. by apply elem_of_nil in Hin. }
    constructor.
    + by rewrite reverse_Permutation.
    + intros v. by rewrite elem_of_reverse.
    + apply (ti_dom _ _ Ht).
    + split; [apply (ti_root _ _ Ht)|apply (bi_source _ _ _ _ _ _ Hi)].
    + apply (ti_parent _ _ Ht).
    + apply (binv_done g root F m). rewrite <-Hq. destruct b; exact Hi.
Qed.
End tree.

(** * The children of a node *)

Section children.
Context (g : graph) (root : Z) (parent : gmap Z (option Z)) (order : list Z) (dist : gmap Z Z) (Hs : spans g root parent order dist).

Definition child_of (u v : Z) : Prop := parent !! v = Some (Some u).
#[local] Instance child_of_dec u v : Decision (child_of u v).
Proof. unfold child_of. apply _. Defined.

Lemma child_spec u v : child_of u v → v ≠ root ∧ adjacent g u v ∧ ∃ d, dist !! u = Some d ∧ dist !! v = Some (d + 1).
Proof.
  intros Hc. assert (v ≠ root) as Hv by (intros ->; destruct (sp_root _ _ _ _ _ Hs) as [E _]; unfold child_of in Hc; congruence). split; [done|].
  destruct (sp_parent _ _ _ _ _ Hs v (Some u) Hv Hc) as (u' & d & [= <-] & Ha & Hu & Hd). split; [done|]. by exists d.
Qed.
Lemma dist_nonneg v d : dist !! v = Some d → 0 ≤ d.
Proof. intros Hd. apply (sp_dist _ _ _ _ _ Hs) in Hd as [(p & Hp & <-) _]. eapply walk_nonneg; [|by apply path_walk]. done. Qed.
Lemma parent_of v : is_Some (dist !! v) → v ≠ root → ∃ u, child_of u v.
Proof.
  intros Hd Hv. apply (sp_parent_dom _ _ _ _ _ Hs) in Hd as [p Hp]. destruct (sp_parent _ _ _ _ _ Hs v p Hv Hp) as (u & d & -> & _). by exists u.
Qed.

Lemma add_children_spec l : ∀ c0 : gmap Z (list Z), (∀ n u, n ∈ l → child_of u n → is_Some (c0 !! u)) →
  ∃ c, foldM (add_child parent) c0 l = Ok c ∧ ∀ u, c !! u = (λ ks, ks ++ filter (child_of u) l) <$> c0 !! u.
Proof.
  induction l as [|n l IH]; intros c0 Hin; [exists c0; split; [done|]; intros u; rewrite filter_nil; destruct (c0 !! u); cbn; [by rewrite app_nil_r|done]|].
  cbn [foldM]. destruct (default None (parent !! n)) as [a|] eqn:Ep.
  - assert (Hc : child_of a n) by (unfold child_of; destruct (parent !! n) as [[]|]; cbn in Ep; congruence). destruct (Hin n a ltac:(by left) Hc) as [ks Eks].
    assert (add_child parent c0 n = Ok (<[a := ks ++ [n]]> c0)) as -> by (unfold add_child; by rewrite Ep, Eks). cbn [mbind res_bind].
    destruct (IH (<[a := ks ++ [n]]> c0)) as (c & E & Hl). { intros m u Hm Hu. apply lookup_insert_is_Some. destruct (decide (a = u)); [by left|right; split; [done|]]. by eapply Hin; [right|]. }
    exists c. split; [done|]. intros u. rewrite Hl, filter_cons, lookup_insert. case_decide as Hau.
    + subst u. rewrite decide_True by done. rewrite Eks. cbn. by rewrite <-app_assoc.
    + rewrite decide_False by (unfold child_of in *; congruence). done.
  - assert (add_child parent c0 n = Ok c0) as -> by (unfold add_child; by rewrite Ep). cbn [mbind res_bind].
    destruct (IH c0) as (c & E & Hl); [intros; eapply Hin; [by right|done]|]. exists c. split; [done|]. intros u. rewrite Hl, filter_cons.
    rewrite decide_False by (unfold child_of; intros E'; rewrite E' in Ep; done). done.
Qed.
Definition kids (u : Z) : list Z := sorted_list (filter (child_of u) order).
Lemma elem_of_kids u v : v ∈ kids u ↔ child_of u v.
Proof.
  unfold kids. rewrite elem_of_sorted_list, list_elem_of_filter. split; [tauto|]. intros Hc. split; [done|]. apply (sp_dom _ _ _ _ _ Hs). destruct (child_spec u v Hc) as (_ & _ & d & _ & Hd). by eexists.
Qed.
Lemma NoDup_kids u : NoDup (kids u).
Proof. unfold kids. unfold sorted_list. rewrite merge_sort_Permutation. apply NoDup_filter, (sp_order _ _ _ _ _ Hs). Qed.
Lemma children_spec : ∃ c, foldM (add_child parent) (no_children order) order = Ok c ∧ ∀ u, fmap (M := gmap Z) sorted_list c !! u = if decide (u ∈ order) then Some (kids u) else None.
Proof.
  assert (Hn : ∀ u, no_children order !! u = if decide (u ∈ order) then Some [] else None).
  { intros u. unfold no_children. case_decide as Hu.
    - apply elem_of_list_to_map_1; [rewrite <-list_fmap_compose; cbn; rewrite list_fmap_id; apply (sp_order _ _ _ _ _ Hs)|]. apply list_elem_of_fmap. by exists u.
    - apply not_elem_of_list_to_map_1. rewrite <-list_fmap_compose. cbn. by rewrite list_fmap_id. }
  destruct (add_children_spec order (no_children order)) as (c & E & Hl).
  { intros n u _ Hc. rewrite Hn. rewrite decide_True; [by eexists|]. apply (sp_dom _ _ _ _ _ Hs). destruct (child_spec u n Hc) as (_ & _ & d & Hd & _). by eexists. }
  exists c. split; [done|]. intros u. rewrite lookup_fmap, Hl, Hn. by case_decide.
Qed.

(** ** Ancestors *)

Inductive above (u : Z) : Z → Prop :=
  | above_child v : child_of u v → above u v
  | above_step w v : above u w → child_of w v → above u v.
Lemma above_dist u v : above u v → ∃ du dv, dist !! u = Some du ∧ dist !! v = Some dv ∧ du < dv.
Proof.
  induction 1 as [v Hc|w v Hw IH Hc]; destruct (child_spec _ _ Hc) as (_ & _ & d & Hd & Hv); [exists d, (d + 1); split_and!; done || lia|].
  destruct IH as (du & dw & Hu & Hdw & Hlt). assert (dw = d) as -> by congruence. exists du, (d + 1). split_and!; done || lia.
Qed.
Lemma above_irrefl u : ¬ above u u.
Proof. intros (du & dv & ? & ? & ?)%above_dist. simplify_eq. lia. Qed.
Lemma above_not_root u v : above u v → v ≠ root.
Proof. intros Ha. destruct Ha as [v Hc|w v _ Hc]; by apply child_spec in Hc as (? & _). Qed.
(** Below [u] is what is a child of [u] or below one. *)
Lemma above_cases u v : above u v ↔ ∃ c, child_of u c ∧ (v = c ∨ above c v).
Proof.
  split.
  - induction 1 as [v Hc|w v Hw (c & Hc & [->|IH]) Hwv]; [exists v; auto|exists c; split; [done|]; right; by constructor|]. exists c. split; [done|]. right. by eapply above_step.
  - intros (c & Hc & [->|Ha]); [by constructor|]. induction Ha as [v Hv|w v Hw IH Hv]; [eapply above_step; [by constructor|done]|by eapply above_step].
Qed.
(** A node is below one child of a node only. *)
Lemma above_unique c1 c2 d v : dist !! c1 = Some d → dist !! c2 = Some d → (v = c1 ∨ above c1 v) → (v = c2 ∨ above c2 v) → c1 = c2.
Proof.
  intros H1 H2 [->|Ha1]; [intros [->|Ha2]; [done|]; exfalso; apply above_dist in Ha2 as (? & ? & ? & ? & ?); simplify_eq; lia|].
  induction Ha1 as [v Hc|w v Hw IH Hc].
  - intros [->|Ha2]; [exfalso; apply child_spec in Hc as (_ & _ & d' & ? & ?); simplify_eq; lia|].
    destruct Ha2 as [v Hc2|w2 v Hw2 Hc2]; [unfold child_of in *; congruence|]. assert (w2 = c1) as -> by (unfold child_of in *; congruence).
    exfalso. apply above_dist in Hw2 as (? & ? & ? & ? & ?). simplify_eq. lia.
  - intros [->|Ha2].
    + exfalso. apply above_dist in Hw as (? & dw & ? & ? & ?). apply child_spec in Hc as (_ & _ & d' & ? & ?). simplify_eq. lia.
    + destruct Ha2 as [v Hc2|w2 v Hw2 Hc2].
      * assert (w = c2) as -> by (unfold child_of in *; congruence). apply IH. by left.
      * assert (w2 = w) as -> by (unfold child_of in *; congruence). apply IH. by right.
Qed.
Lemma above_root v : above root v ↔ v ≠ root ∧ is_Some (dist !! v).
Proof.
  split; [intros Ha; split; [by eapply above_not_root|]; apply above_dist in Ha as (? & ? & _ & ? & _); by eexists|]. intros [Hv [d Hd]].
  assert (Hd0 : 0 ≤ d) by (by eapply dist_nonneg).
  revert v Hv Hd. pattern d. apply Zlt_0_ind; [|done]. clear d Hd0. intros d IH _ v Hv Hd. destruct (parent_of v ltac:(by eexists) Hv) as [u Hu].
  destruct (child_spec u v Hu) as (_ & _ & du & Hdu & Hdv). rewrite Hd in Hdv. injection Hdv as ->. destruct (decide (u = root)) as [->|Hne]; [by constructor|].
  eapply above_step; [|exact Hu]. apply (IH du); [|done|done]. assert (0 ≤ du); [|lia]. by eapply dist_nonneg.
Qed.
(** A node has as many nodes of the tree at or above it as its distance says. *)
Lemma dist_bound v d : dist !! v = Some d → (Z.to_nat d < length order)%nat.
Proof.
  intros Hd. assert (Hd0 : 0 ≤ d) by (by eapply dist_nonneg).
  enough (∃ l, NoDup l ∧ length l = S (Z.to_nat d) ∧ ∀ x, x ∈ l → ∃ dx, dist !! x = Some dx ∧ dx ≤ d) as (l & Hl & Hlen & Hin).
  { assert (l ⊆+ order) as Hsub by (apply NoDup_submseteq; [done|]; intros x Hx; apply (sp_dom _ _ _ _ _ Hs); destruct (Hin x Hx) as (dx & ? & _); by eexists). apply submseteq_length in Hsub. lia. }
  revert v Hd. pattern d. apply Zlt_0_ind; [|done]. clear d Hd0. intros d IH Hd0 v Hd. destruct (decide (v = root)) as [->|Hv].
  { destruct (sp_root _ _ _ _ _ Hs) as [_ E]. rewrite Hd in E. injection E as ->. exists [root]. split_and!; [apply NoDup_singleton|done|]. intros x ->%list_elem_of_singleton. exists 0. done. }
  destruct (parent_of v ltac:(by eexists) Hv) as [u Hu]. destruct (child_spec u v Hu) as (_ & _ & du & Hdu & Hdv). rewrite Hd in Hdv. injection Hdv as ->.
  assert (0 ≤ du) by (by eapply dist_nonneg).
  destruct (IH du ltac:(lia) u Hdu) as (l & Hl & Hlen & Hin). exists (v :: l). split_and!.
  - constructor; [|done]. intros Hx. destruct (Hin v Hx) as (? & ? & ?). simplify_eq. lia.
  - cbn. rewrite Hlen. lia.
  - intros x [->|Hx]%elem_of_cons; [exists (du + 1); split; [done|lia]|]. destruct (Hin x Hx) as (dx & ? & ?). exists dx. split; [done|lia].
Qed.
End children.

(** * The lines of the view *)

Section views.
Context (g : graph) (root : Z) (parent : gmap Z (option Z)) (order : list Z) (dist : gmap Z Z) (Hs : spans g root parent order dist).
Context (children : gmap Z (list Z)) (Hc : ∀ u, children !! u = if decide (u ∈ order) then Some (kids parent order u) else None).

Abbreviation below := (above parent).

(** A line below [u], whose prefix is that of [u]'s lines and four columns for each
    level in between. *)
Definition line_below (u du : Z) (prefix : string) (e : entry) : Prop :=
  child_of parent (v_parent e) (v_node e) ∧ ∃ dv, dist !! v_node e = Some dv ∧ Z.of_nat (String.length (v_prefix e)) = Z.of_nat (String.length prefix) + 4 * (dv - du - 1).
(** The lines of everything below [u], or below some of its children. *)
Definition view_of (P : Z → Prop) (u du : Z) (prefix : string) (es : list entry) : Prop :=
  NoDup (v_node <$> es) ∧ (∀ v, v ∈ v_node <$> es ↔ P v) ∧ Forall (line_below u du prefix) es.
Definition under (ks : list Z) (v : Z) : Prop := ∃ c, c ∈ ks ∧ (v = c ∨ below c v).

Lemma walk_kids_spec rec u du prefix : dist !! u = Some du → (∀ c p, child_of parent u c → ∃ es, rec c p = Ok es ∧ view_of (below c) c (du + 1) p es) →
  ∀ ks, NoDup ks → (∀ c, c ∈ ks → child_of parent u c) → ∃ es, walk_kids rec u prefix ks = Ok es ∧ view_of (under ks) u du prefix es.
Proof.
  intros Hu Hrec ks. induction ks as [|c ks IH]; intros Hnd Hks; cbn [walk_kids].
  { exists []. split; [done|]. split_and!; [constructor| |constructor]. intros v. unfold under. setoid_rewrite elem_of_nil. naive_solver. }
  apply NoDup_cons in Hnd as [Hck Hnd]. assert (Hcu : child_of parent u c) by (apply Hks; by left).
  set (p := prefix +s+ if bool_decide (ks = []) then "    " else "|   ").
  destruct (Hrec c p Hcu) as (bs & -> & Hbn & Hbe & Hbl). destruct (IH Hnd ltac:(intros; apply Hks; by right)) as (es & -> & Hen & Hee & Hel). cbn [mbind res_bind].
  destruct (child_spec _ _ _ _ _ Hs u c Hcu) as (_ & _ & d & Ed & Edc). rewrite Hu in Ed. injection Ed as <-.
  eexists. split; [done|]. split_and!.
  - rewrite fmap_cons, fmap_app. cbn [v_node]. apply NoDup_cons. split.
    + rewrite elem_of_app, Hbe, Hee. intros [Ha|(c2 & Hc2 & Ha)]; [by eapply above_irrefl|].
      destruct (child_spec _ _ _ _ _ Hs u c2 ltac:(apply Hks; by right)) as (_ & _ & d2 & Ed2 & Edc2). rewrite Hu in Ed2. injection Ed2 as <-.
      assert (c = c2) as ->; [|done]. by eapply (above_unique _ _ _ _ _ Hs c c2 (du + 1) c); [..|left|].
    + apply NoDup_app. split_and!; [done| |done]. intros v Hv%Hbe (c2 & Hc2 & Ha)%Hee.
      destruct (child_spec _ _ _ _ _ Hs u c2 ltac:(apply Hks; by right)) as (_ & _ & d2 & Ed2 & Edc2). rewrite Hu in Ed2. injection Ed2 as <-.
      assert (c = c2) as ->; [|done]. by eapply (above_unique _ _ _ _ _ Hs c c2 (du + 1) v); [..|right|].
  - intros v. rewrite fmap_cons, fmap_app. cbn [v_node]. rewrite elem_of_cons, elem_of_app, Hbe, Hee. unfold under. setoid_rewrite elem_of_cons. naive_solver.
  - constructor; [|apply Forall_app; split; [|done]].
    + split; [done|]. exists (du + 1). split; [done|]. cbn [v_prefix]. lia.
    + eapply Forall_impl; [exact Hbl|]. intros e [He (dv & Ev & El)]. split; [done|]. exists dv. split; [done|]. rewrite El. unfold p. rewrite string_length_app. destruct (bool_decide (ks = [])); cbn [String.length]; lia.
Qed.
Lemma walk_spec fuel : ∀ u du prefix, dist !! u = Some du → Z.of_nat (length order) < Z.of_nat fuel + du → ∃ es, walk children fuel u prefix = Ok es ∧ view_of (below u) u du prefix es.
Proof.
  induction fuel as [|fuel IH]; intros u du prefix Hu Hf.
  { pose proof (dist_bound _ _ _ _ _ Hs u du Hu). lia. }
  cbn [walk]. rewrite Hc, decide_True by (apply (sp_dom _ _ _ _ _ Hs); by eexists). cbn [default].
  destruct (walk_kids_spec (walk children fuel) u du prefix Hu) with (ks := kids parent order u) as (es & E & Hn & He & Hl).
  - intros c p Hcu. destruct (child_spec _ _ _ _ _ Hs u c Hcu) as (_ & _ & d & Ed & Edc). rewrite Hu in Ed. injection Ed as <-. apply IH; [done|lia].
  - by eapply NoDup_kids.
  - intros c. by apply (elem_of_kids _ _ _ _ _ Hs).
  - exists es. split; [done|]. split_and!; [done| |done]. intros v. rewrite He, (above_cases parent). unfold under. setoid_rewrite (elem_of_kids _ _ _ _ _ Hs). done.
Qed.
End views.

(** What the view of [root] shows of a graph. *)
Record view_correct (g : graph) (root : Z) (es : list entry) : Prop := {
  vc_once : NoDup (v_node <$> es);
  vc_all v : v ∈ v_node <$> es ↔ v ≠ root ∧ ∃ d, shortest_cost (adjacent g) unit_weight root v d;
  vc_depth e : e ∈ es → adjacent g (v_parent e) (v_node e) ∧ ∃ d, shortest_cost (adjacent g) unit_weight root (v_parent e) d ∧
    shortest_cost (adjacent g) unit_weight root (v_node e) (d + 1) ∧ Z.of_nat (String.length (v_prefix e)) = 4 * d;
}.
Lemma tree_view_correct g root : ∃ es, tree_view g root = Ok es ∧ view_correct g root es.
Proof.
  destruct (tree_loop_spans g root) as (parent & order & dist & E & Hs). unfold tree_view, build_tree. rewrite E. cbn [mbind res_bind].
  destruct (children_spec _ _ _ _ _ Hs) as (c & -> & Hc). cbn [mbind res_bind]. set (children := fmap sorted_list c) in *.
  assert (Hsize : size children = length order).
  { rewrite <-size_dom. assert (dom children = list_to_set order) as ->; [|apply size_list_to_set, (sp_order _ _ _ _ _ Hs)]. apply set_eq. intros u. rewrite elem_of_dom, Hc, elem_of_list_to_set. case_decide as Hu; split; try done; by intros [? ?]. }
  destruct (sp_root _ _ _ _ _ Hs) as [_ H0]. destruct (walk_spec _ _ _ _ _ Hs children Hc (S (size children)) root 0 "" H0) as (es & -> & Hn & He & Hl); [rewrite Hsize; lia|].
  exists es. split; [done|]. constructor; [done| |].
  - intros v. rewrite He, (above_root _ _ _ _ _ Hs). f_equiv. split; [intros [d Hd]; exists d; by apply (sp_dist _ _ _ _ _ Hs)|intros [d Hd]; exists d; by apply (sp_dist _ _ _ _ _ Hs)].
  - intros e Hin. rewrite Forall_forall in Hl. destruct (Hl e Hin) as [Hp (dv & Hv & Hlen)]. destruct (child_spec _ _ _ _ _ Hs _ _ Hp) as (_ & Ha & d & Hd & Hd1). split; [done|]. exists d.
    rewrite Hv in Hd1. injection Hd1 as ->. split_and!; [by apply (sp_dist _ _ _ _ _ Hs)..|]. rewrite Hlen. cbn [String.length]. lia.
Qed.

(** The printed view of a host lists every host it can reach exactly once, below
    a neighbour that is one hop nearer and indented by its hop distance, whatever the
    mesh; the view of every host is printed, and the link of every line has a name. *)
Lemma trees_printed mesh : let gs := build_host_graph mesh in
  ∃ views, mapR (tree_view gs.1) (sorted_set (dom gs.1)) = Ok views ∧
    Forall2 (view_correct gs.1) (sorted_set (dom gs.1)) views ∧
    ∀ es e, es ∈ views → e ∈ es → ∃ l, l ∈ TopologyModel mesh ∧ v_node e ∈ hosts l ∧ v_parent e ∈ hosts l ∧ gs.2 !! ordered_pair (v_node e) (v_parent e) = Some (switch l).
Proof.
  intros gs. destruct (build_host_graph_spec mesh) as (Ha & _ & Hsw). destruct (mapR_total (tree_view gs.1) (sorted_set (dom gs.1))) as [views Ev]; [intros root _; destruct (tree_view_correct gs.1 root) as (es & E & _); by exists es|].
  exists views. split; [done|]. apply mapR_Ok in Ev. assert (Hv : Forall2 (view_correct gs.1) (sorted_set (dom gs.1)) views).
  { eapply Forall2_impl; [exact Ev|]. intros root es E. destruct (tree_view_correct gs.1 root) as (es' & E' & Hc). congruence. }
  split; [done|]. intros es e Hes He. apply list_elem_of_lookup in Hes as [i Hi]. destruct (Forall2_lookup_r _ _ _ _ _ Hv Hi) as (root & _ & Hc).
  destruct (vc_depth _ _ _ Hc e He) as [Hadj _]. apply Ha in Hadj as [l Hl].
  assert (∃ l, (Z.min (v_node e) (v_parent e), Z.max (v_node e) (v_parent e), l) ∈ edges (TopologyModel mesh)) as Hmm.
  { exists l. destruct Hl as [Hl|Hl]; pose proof (edges_ordered _ _ _ _ Hl); [rewrite Z.min_r, Z.max_l by lia|rewrite Z.min_l, Z.max_r by lia]; done. }
  destruct (Hsw _ _ Hmm) as (l2 & E2 & Hin). exists l2. apply elem_of_edges in Hin as [Hm Hp]. apply elem_of_host_pairs in Hp as (a & b & _ & Hpa & Hpb).
  split; [done|]. split_and!; [| |exact E2].
  - destruct (Z.min_spec (v_node e) (v_parent e)) as [[_ Em]|[_ Em]]; rewrite Em in *; [by eapply list_elem_of_lookup_2|]. destruct (Z.max_spec (v_node e) (v_parent e)) as [[? Ex]|[_ Ex]]; rewrite Ex in *; [lia|by eapply list_elem_of_lookup_2].
  - destruct (Z.min_spec (v_node e) (v_parent e)) as [[? Em]|[_ Em]]; rewrite Em in *; [|by eapply list_elem_of_lookup_2]. destruct (Z.max_spec (v_node e) (v_parent e)) as [[_ Ex]|[? Ex]]; rewrite Ex in *; [by eapply list_elem_of_lookup_2|lia].
Qed.
