(* ===== verification/Casting.v ===== *)
(** Component: the offline reproduction of a scenario's topology and roles
    (tools/workshop/topo_fingerprint.py) and the choice of the hosts of a timeline
    measurement from it (tools/workshop/gen_m5e_config.py): the cache nodes, all
    shortest paths to the publisher, and which hosts have a cache node on theirs. *)
From S2P Require Import Prelude PyValue PyString PyNum StateMonad Topology Graph KCenters Topo Events Options NodeConf CachePlan Provision Viz.
Local Open Scope Z_scope.

(** * The fingerprint *)

(** [sorted] of the triples (switch, subnet, hosts). *)
Definition fp_link : Type := string * Z * list Z.
Fixpoint zlist_lt (a b : list Z) : bool :=
  match a, b with
  | [], _ :: _ => true
  | x :: a, y :: b => (x <? y) || ((x =? y) && zlist_lt a b)
  | _, [] => false
  end.
Definition fp_ltb (a b : fp_link) : bool :=
  match String.compare a.1.1 b.1.1 with
  | Lt => true
  | Gt => false
  | Eq => (a.1.2 <? b.1.2) || ((a.1.2 =? b.1.2) && zlist_lt a.2 b.2)
  end.
Definition fp_le (a b : fp_link) : Prop := fp_ltb b a = false.
#[export] Instance fp_le_dec : RelDecision fp_le.
Proof. intros a b. unfold fp_le. apply _. Defined.
Definition sorted_links (l : list fp_link) : list fp_link := merge_sort fp_le l.

(** An entry of [mesh_links]; MeshTopo writes all three fields. *)
Definition fp_entry (raw : raw_link) : fp_link :=
  let l := normalize raw in (default "" (switch l), default 0 (subnet l), sorted_list (hosts l)).

Record payload := mkPayload { pl_hosts : Z; pl_switches_configured : Z; pl_switches_realized : nat; pl_links : list fp_link; pl_roles : list (Z * string) }.

(** [resolve_topology_inputs], of the merged arguments. *)
Record topology_inputs := mkInputs { ti_host_count : Z; ti_switch_limit : Z; ti_node_per_switch : Z; ti_host_degree_min : Z; ti_host_degree_max : Z; ti_switch_use_all : bool; ti_publisher_ids : gset Z }.

Section fingerprint.
Context `{Rng} (choose : ∀ A : Type, A → list A → rng → A * rng).
#[local] Existing Instance rng_choice.

(** [sorted(roles.items())]: the roles by index. *)
Definition role_names (roles : list (Z * NodeRole)) : list (Z * string) := omap (λ i, (λ r, (i, r_name r)) <$> role_of roles i) (sorted_list roles.*1).
(** [build_fingerprint] up to the digest. *)
Definition build_payload (inputs : topology_inputs) (r : rng) : res payload :=
  let '(roles, r) := assign_roles (H := rng_choice choose) (ti_host_count inputs) r (ti_publisher_ids inputs) in
  topo ← MeshTopo_build (ti_host_count inputs) (ti_switch_limit inputs) (ti_node_per_switch inputs) (ti_host_degree_min inputs) (ti_host_degree_max inputs) (ti_switch_use_all inputs) r;
  Ok (mkPayload (ti_host_count inputs) (ti_switch_limit inputs) (size (list_to_set ((λ raw, switch (normalize raw)) <$> topo.1) : gset (option string)))
        (sorted_links (fp_entry <$> topo.1)) (role_names roles)).
End fingerprint.

(** [_compare]: do the files agree? *)
Definition compare (fingerprints : list (option string)) : bool := bool_decide (size (list_to_set fingerprints : gset (option string)) ≤ 1)%nat.

(** * Shortest paths *)

(** [dist], [parents] and [q]. *)
Record search_state := mkSearchState { s_dist : gmap Z Z; s_parents : gmap Z (list Z); s_queue : list Z }.
Definition path_visit (n : Z) (st : search_state) (m : Z) : res search_state :=
  match s_dist st !! n with
  | None => raise EKeyError (str_Z n)
  | Some dn =>
      match s_dist st !! m with
      | None => Ok (mkSearchState (<[m := dn + 1]> (s_dist st)) (<[m := [n]]> (s_parents st)) (s_queue st ++ [m]))
      | Some dm =>
          if dm =? dn + 1 then
            match s_parents st !! m with
            | Some us => Ok (mkSearchState (s_dist st) (<[m := us ++ [n]]> (s_parents st)) (s_queue st))
            | None => raise EKeyError (str_Z m)
            end
          else Ok st
      end
  end.
Fixpoint path_loop (fuel : nat) (g : graph) (st : search_state) : res search_state :=
  match fuel with
  | O => NoFuel
  | S fuel =>
      match s_queue st with
      | [] => Ok st
      | n :: q => st ← foldM (path_visit n) (mkSearchState (s_dist st) (s_parents st) q) (sorted_set (default ∅ (g !! n))); path_loop fuel g st
      end
  end.
(** [walk]: the paths in the order they are appended. *)
Fixpoint walk_back (fuel : nat) (parents : gmap Z (list Z)) (src node : Z) (acc : list Z) : res (list (list Z)) :=
  match fuel with
  | O => NoFuel
  | S fuel =>
      if node =? src then Ok [src :: reverse acc]
      else pss ← mapR (λ pp, walk_back fuel parents src pp (acc ++ [node])) (default [] (parents !! node)); Ok (concat pss)
  end.
(** [_all_shortest_paths]; the neighbours of a node are listed in order. *)
Definition all_shortest_paths (g : graph) (src dst : Z) : res (list (list Z)) :=
  st ← path_loop (search_fuel g) g (mkSearchState {[src := 0]} ∅ [src]);
  match s_dist st !! dst with
  | Some d => walk_back (S (Z.to_nat d)) (s_parents st) src dst []
  | None => Ok []
  end.

(** * Roles *)

Definition CACHE_COUNT : Z := 5.
Definition PUBLISHER : Z := 0.

(** The adjacency of [topo_for]. *)
Definition join_hosts (hs : list Z) (g : graph) : graph := foldl (λ g a, foldl (λ g b, if a =? b then g else setdefault_add g a b) g hs) g hs.
Definition fp_graph (links : list fp_link) : graph := foldl (λ g l, join_hosts l.2 g) ∅ links.
(** [topo_for]: the graph and the cache nodes. *)
Definition topo_for (p : payload) : res (graph * list Z) :=
  let g := fp_graph (pl_links p) in
  centers ← select_k_centers g CACHE_COUNT None {[PUBLISHER]};
  Ok (g, sorted_list centers).

(** [set(p[1:-1]) & cache_set]. *)
Definition cached_on (cache_set : gset Z) (p : list Z) : gset Z := list_to_set (removelast (tail p)) ∩ cache_set.
Definition nonempty (s : gset Z) : bool := bool_decide (s ≠ ∅).
Definition big_inter (s : gset Z) (l : list (gset Z)) : gset Z := foldl (∩) s l.
Definition big_union (s : gset Z) (l : list (gset Z)) : gset Z := foldl (∪) s l.

(** [covered] and [uncovered] after one more host. *)
Definition judge (g : graph) (cache_set : gset Z) (st : list (Z * gset Z) * list Z) (h : Z) : res (list (Z * gset Z) * list Z) :=
  if bool_decide (h ∈ cache_set) || (h =? PUBLISHER) then Ok st else
  paths ← all_shortest_paths g h PUBLISHER;
  match cached_on cache_set <$> paths with
  | [] => Ok st
  | p :: per_path =>
      if forallb nonempty (p :: per_path) then
        let common := big_inter p per_path in
        Ok (st.1 ++ [(h, if nonempty common then common else big_union p per_path)], st.2)
      else if negb (existsb nonempty (p :: per_path)) then Ok (st.1, st.2 ++ [h])
      else Ok st
  end.

Record cast := mkCast { protagonist : Z; newcomer : Z; control : Z; unlucky : Z }.
(** The first pair, in the order of the comprehension. *)
Definition pairs (covered : list (Z * gset Z)) : list (Z * Z) :=
  covered ≫= λ a, covered ≫= λ b, if (a.1 <? b.1) && nonempty (a.2 ∩ b.2) then [(a.1, b.1)] else [].
(** [pick_roles]. *)
Definition pick_roles (g : graph) (cache_nodes : list Z) (host_count : Z) : res (option cast) :=
  '(covered, uncovered) ← foldM (judge g (list_to_set cache_nodes)) ([], []) (seqZ 1 (host_count - 1));
  match pairs covered, uncovered with
  | (a, b) :: _, u :: _ =>
      let pool := List.filter (λ h, negb (h =? a) && negb (h =? b)) covered.*1 in
      Ok (Some (mkCast a b (default b (head pool)) u))
  | _, _ => Ok None
  end.

(** The diamond has two shortest paths; with a cache node on one of them only, nobody
    is cast. *)
Example diamond_paths : all_shortest_paths {[0 := {[1; 2]}; 1 := {[0; 3]}; 2 := {[0; 3]}; 3 := {[1; 2]}]} 3 0 = Ok [[3; 1; 0]; [3; 2; 0]].
Proof. vm_compute. reflexivity. Qed.
Definition star : graph := {[0 := {[1; 5]}; 1 := {[0; 2; 3; 4]}; 2 := {[1]}; 3 := {[1]}; 4 := {[1]}; 5 := {[0]}]}.
Example star_cast : pick_roles star [1] 6 = Ok (Some (mkCast 2 3 4 5)).
Proof. vm_compute. reflexivity. Qed.
(** With two covered hosts the control is the newcomer once more. *)
Example control_is_newcomer : pick_roles {[0 := {[1; 4]}; 1 := {[0; 2; 3]}; 2 := {[1]}; 3 := {[1]}; 4 := {[0]}]} [1] 5 = Ok (Some (mkCast 2 3 3 4)).
Proof. vm_compute. reflexivity. Qed.

(** * The paths are the shortest ones *)

Section paths.
Context (g : graph) (src : Z).

Abbreviation to_bfs st := (mkBfs (s_dist st) (s_queue st)).

(** The parents of a node are its expanded predecessors, one level up. *)
Record pinv (F : list Z) (C : Z → Z → Prop) (st : search_state) : Prop := {
  pi_known v us : s_parents st !! v = Some us → is_Some (s_dist st !! v);
  pi_parents v d : s_dist st !! v = Some d → v ≠ src → ∃ us, s_parents st !! v = Some us ∧ NoDup us ∧
    ∀ u, u ∈ us ↔ u ∈ F ∧ adjacent g u v ∧ C u v ∧ s_dist st !! u = Some (d - 1);
}.

Lemma path_visit_spec F C st n m v : binv g src F m C (to_bfs st) → pinv F C st → n ∈ F → s_dist st !! n = Some m → adjacent g n v → ¬ C n v →
  ∃ st', path_visit n st v = Ok st' ∧ bfs_visit n (to_bfs st) v = Ok (to_bfs st') ∧ s_dist st' !! n = Some m ∧ pinv F (λ a b, C a b ∨ (a = n ∧ b = v)) st'.
Proof.
  intros Hi [Hk Hp] Hn Hm Hadj HC. unfold path_visit, bfs_visit. cbn [b_dist b_queue]. rewrite Hm. destruct (s_dist st !! v) as [dv|] eqn:Ev.
  - destruct (dv =? m + 1) eqn:Edv.
    + apply Z.eqb_eq in Edv as ->.
      assert (Hvs : v ≠ src). { intros ->. pose proof (bi_source _ _ _ _ _ _ Hi) as E0. cbn in E0. assert (0 ≤ m); [|rewrite E0 in Ev; injection Ev as Ev; lia]. pose proof (bi_sound _ _ _ _ _ _ Hi n m Hm) as Hw. by eapply walk_nonneg in Hw. }
      destruct (Hp v (m + 1) Ev Hvs) as (us & -> & Hnd & Hus). eexists. split; [done|]. split; [by destruct st|]. split; [done|]. constructor; cbn.
      * intros w ws. rewrite lookup_insert. case_decide as Hvw; [intros _; subst w; by eexists|apply Hk].
      * intros w d Hw Hws. rewrite lookup_insert. case_decide as Hvw.
        -- subst w. rewrite Ev in Hw. injection Hw as <-. eexists. split; [done|]. split.
           ++ apply NoDup_app. split_and!; [done| |apply NoDup_singleton]. intros x Hx ->%list_elem_of_singleton. apply Hus in Hx as (_ & _ & Hx & _). done.
           ++ intros u. rewrite elem_of_app, list_elem_of_singleton, Hus. split; [intros [(? & ? & ? & ?)| ->]; split_and!; auto; by replace (m + 1 - 1) with m by lia|].
              intros (? & ? & [?|[-> _]] & ?); [by left|by right].
        -- destruct (Hp w d Hw Hws) as (ws & Ew & Hnd' & Hws'). exists ws. split_and!; [done..|]. intros u. rewrite Hws'. naive_solver.
    + apply Z.eqb_neq in Edv. exists st. split; [done|]. split; [by destruct st|]. split; [done|]. constructor; [done|]. intros w d Hw Hws. destruct (Hp w d Hw Hws) as (ws & Ew & Hnd & Hws').
      exists ws. split_and!; [done..|]. intros u. rewrite Hws'. split; [naive_solver|]. intros (? & ? & [?|[-> ->]] & Eu); [done|]. exfalso. rewrite Hm in Eu. rewrite Ev in Hw. injection Eu as Eu. injection Hw as Hw. lia.
  - eexists. split; [done|]. split; [done|]. cbn. assert (Hvn : v ≠ n) by congruence. split; [by rewrite lookup_insert_ne|]. constructor; cbn.
    + intros w ws. rewrite !lookup_insert. case_decide as Hvw; [by eexists|apply Hk].
    + intros w d. rewrite !lookup_insert. case_decide as Hvw.
      * intros [= <-] _. subst w. exists [n]. split_and!; [done|apply NoDup_singleton|]. intros u. rewrite list_elem_of_singleton. replace (m + 1 - 1) with m by lia. split.
        -- intros ->. split_and!; [done..|by right|]. by rewrite lookup_insert_ne.
        -- intros (Hu & Ha & [Hc|[-> _]] & _); [|done]. exfalso. destruct (bi_closed _ _ _ _ _ _ Hi u v Hu Ha Hc) as (du & dv & _ & E & _). cbn in E. congruence.
      * intros Hw Hws. destruct (Hp w d Hw Hws) as (ws & Ew & Hnd & Hws'). exists ws. split_and!; [done..|]. intros u. rewrite Hws', lookup_insert. case_decide as Hvu; [|naive_solver].
        subst u. split; [naive_solver|]. intros (Hu & _). exfalso. destruct (bi_F _ _ _ _ _ _ Hi v Hu) as (d' & E & _). cbn in E. congruence.
Qed.
Lemma path_visit_all F m ns : ∀ C st n, binv g src F m C (to_bfs st) → pinv F C st → n ∈ F → s_dist st !! n = Some m → (∀ v, v ∈ ns → adjacent g n v) → NoDup ns → (∀ v, v ∈ ns → ¬ C n v) →
  ∃ st', foldM (path_visit n) st ns = Ok st' ∧ binv g src F m (λ a b, C a b ∨ (a = n ∧ b ∈ ns)) (to_bfs st') ∧ pinv F (λ a b, C a b ∨ (a = n ∧ b ∈ ns)) st' ∧
    (length (s_queue st') ≤ length ns + length (s_queue st))%nat.
Proof.
  induction ns as [|v ns IH]; intros C st n Hi Hp Hn Hm Hns Hnd HC.
  { exists st. split_and!; [done| | |cbn; lia]; [destruct Hi; constructor; eauto; intros a b ? ? [?|[_ []%elem_of_nil]]; eauto|]. destruct Hp as [Hk Hp]. constructor; [done|].
    intros w d Hw Hws. destruct (Hp w d Hw Hws) as (ws & ? & ? & Hx). exists ws. split_and!; [done..|]. intros u. rewrite Hx. setoid_rewrite elem_of_nil. naive_solver. }
  apply NoDup_cons in Hnd as [Hv Hnd]. destruct (path_visit_spec F C st n m v Hi Hp Hn Hm) as (st1 & E1 & Eb & Hm1 & Hp1); [apply Hns; by left|apply HC; by left|].
  destruct (binv_visit g src F m C (to_bfs st) n v Hi Hn Hm) as (b1 & Eb1 & Hi1 & _ & Hl1); [apply Hns; by left|]. rewrite Eb in Eb1. injection Eb1 as <-.
  destruct (IH _ st1 n Hi1 Hp1 Hn Hm1) as (st2 & E2 & Hi2 & Hp2 & Hl2); [intros; apply Hns; by right|done|intros w Hw [Hc|[_ ->]]; [by eapply HC; [right|]|done]|].
  exists st2. cbn [foldM]. rewrite E1. cbn [mbind res_bind]. split_and!; [done| | |cbn in *; lia].
  - destruct Hi2; constructor; eauto. intros a b Ha Hab Hc. apply bi_closed; [done..|]. destruct Hc as [Hc|[-> Hc]]; [by left; left|]. apply elem_of_cons in Hc as [->|Hc]; [left; by right|by right].
  - destruct Hp2 as [Hk2 Hp2]. constructor; [done|]. intros w d Hw Hws. destruct (Hp2 w d Hw Hws) as (ws & ? & ? & Hx). exists ws. split_and!; [done..|]. intros u. rewrite Hx. setoid_rewrite elem_of_cons. naive_solver.
Qed.
Lemma path_loop_spec fuel : ∀ F m st, binv g src F m (λ _ _, True) (to_bfs st) → pinv F (λ _ _, True) st → (length (s_queue st) + degree_left g F < fuel)%nat →
  ∃ F' m' st', path_loop fuel g st = Ok st' ∧ binv g src F' m' (λ _ _, True) (mkBfs (s_dist st') []) ∧ pinv F' (λ _ _, True) st'.
Proof.
  induction fuel as [|fuel IH]; intros F m st Hi Hp Hfuel; [lia|]. cbn [path_loop]. destruct (s_queue st) as [|n q] eqn:Hq; [by exists F, m, st|].
  destruct (binv_pop g src F m (mkBfs (s_dist st) (n :: q)) n q Hi eq_refl) as (d & Hd & HnF & Hi'). cbn [b_dist] in *.
  destruct (path_visit_all (n :: F) d (sorted_set (default ∅ (g !! n))) _ (mkSearchState (s_dist st) (s_parents st) q) n Hi') as (st2 & E2 & Hi2 & Hp2 & Hl2).
  - destruct Hp as [Hk Hp]. constructor; [done|]. cbn. intros w dw Hw Hws. destruct (Hp w dw Hw Hws) as (ws & Ew & Hnd & Hx). exists ws. split_and!; [done..|]. intros u. rewrite Hx, elem_of_cons.
    split; [intros (? & ? & _ & ?); split_and!; try done; [by right|by intros ->]|]. intros ([->|?] & ? & ? & ?); done.
  - by left.
  - done.
  - by intros v Hv%elem_of_sorted_set; apply adjacent_alt.
  - apply NoDup_sorted_set.
  - intros v _ Hc. by apply Hc.
  - rewrite E2. cbn [mbind res_bind]. assert (Hall : ∀ a b, adjacent g a b → (a ≠ n ∨ a = n ∧ b ∈ sorted_set (default ∅ (g !! n)))).
    { intros a b Hab. destruct (decide (a = n)) as [->|]; [right|by left]. split; [done|]. apply elem_of_sorted_set. by apply adjacent_alt. }
    apply (IH (n :: F) d).
    + destruct Hi2. constructor; eauto.
    + destruct Hp2 as [Hk2 Hp2]. constructor; [done|]. intros w dw Hw Hws. destruct (Hp2 w dw Hw Hws) as (ws & ? & ? & Hx). exists ws. split_and!; [done..|]. intros u. rewrite Hx. naive_solver.
    + rewrite length_sorted_set in Hl2. pose proof (degree_left_get g F n HnF). cbn [s_queue length] in *. lia.
Qed.

(** The distances and parents of a finished search. *)
Record searched (dist : gmap Z Z) (parents : gmap Z (list Z)) : Prop := {
  se_dist v d : dist !! v = Some d ↔ shortest_cost (adjacent g) unit_weight src v d;
  se_src : dist !! src = Some 0;
  se_walk v c : Graph.walk (adjacent g) unit_weight src v c → ∃ x, dist !! v = Some x ∧ x ≤ c;
  se_parents v d : dist !! v = Some d → v ≠ src → ∃ us, parents !! v = Some us ∧ NoDup us ∧ ∀ u, u ∈ us ↔ adjacent g u v ∧ dist !! u = Some (d - 1);
}.
Lemma path_loop_searched : ∃ st, path_loop (search_fuel g) g (mkSearchState {[src := 0]} ∅ [src]) = Ok st ∧ searched (s_dist st) (s_parents st).
Proof.
  destruct (path_loop_spec (search_fuel g) [] 0 (mkSearchState {[src := 0]} ∅ [src])) as (F & m & st & E & Hi & [_ Hp]).
  - apply binv_init.
  - constructor; cbn; [intros v us; by rewrite lookup_empty|]. intros v d [-> _]%lookup_singleton_Some. done.
  - unfold search_fuel, degree_left. cbn. lia.
  - exists st. split; [done|]. destruct (binv_done g src F m _ Hi) as [Hw Hd]. constructor; [done|apply (bi_source _ _ _ _ _ _ Hi)|done|].
    intros v d Hv Hvs. destruct (Hp v d Hv Hvs) as (us & ? & ? & Hus). exists us. split_and!; [done..|]. intros u. rewrite Hus. split; [tauto|]. intros [? Hu]. split_and!; try done.
    destruct (decide (u ∈ F)) as [|Hno]; [done|]. assert (u ∈ @nil Z) as Hin by (apply (bi_queue _ _ _ _ _ _ Hi); split; [by eexists|done]). by apply elem_of_nil in Hin.
Qed.

(** ** Paths to a node *)

Lemma unit_cost p : p ≠ [] → path_cost p unit_weight = Z.of_nat (length p) - 1.
Proof.
  induction p as [|a [|b p] IH]; [done|done|]. intros _. change (path_cost (a :: b :: p) unit_weight) with (1 + path_cost (b :: p) unit_weight). rewrite IH by done. cbn [length]. lia.
Qed.
Lemma is_path_nonempty (E : Z → Z → Prop) s t p : is_path E s t p → p ≠ [].
Proof. by intros (? & _ & _) ->. Qed.

Context (dist : gmap Z Z) (parents : gmap Z (list Z)) (Hse : searched dist parents).

(** [q] is a shortest path to [v]. *)
Definition shortest_to (v : Z) (q : list Z) : Prop := is_path (adjacent g) src v q ∧ dist !! v = Some (path_cost q unit_weight).

Lemma shortest_src q : shortest_to src q ↔ q = [src].
Proof.
  split; [|intros ->; split; [by split_and!|apply (se_src _ _ Hse)]]. intros [Hp Hc]. rewrite (se_src _ _ Hse) in Hc. injection Hc as Hc. rewrite unit_cost in Hc by (by eapply is_path_nonempty).
  destruct Hp as (Hh & _). destruct q as [|a [|b q]]; [done| |cbn [length] in Hc; lia]. by injection Hh as ->.
Qed.
Lemma shortest_snoc v d q : dist !! v = Some d → v ≠ src → shortest_to v q ↔ ∃ u q', q = q' ++ [v] ∧ shortest_to u q' ∧ adjacent g u v ∧ dist !! u = Some (d - 1).
Proof.
  intros Hd Hv. split.
  - intros [(Hh & Hl & Hch) Hc]. rewrite Hd in Hc. injection Hc as Hc. destruct q as [|x q' _] using rev_ind; [done|]. rewrite last_snoc in Hl. injection Hl as ->.
    destruct (last q') as [u|] eqn:Eu; [|apply last_None in Eu as ->; cbn in Hh; congruence]. destruct (proj1 (chain_snoc _ q' u v Eu) Hch) as [Hch' Ha].
    assert (Hp' : is_path (adjacent g) src u q') by (split_and!; [by destruct q'|done|done]). rewrite (path_cost_snoc unit_weight q' u v Eu) in Hc. change (unit_weight u v) with 1 in Hc.
    destruct (se_walk _ _ Hse u _ (path_walk _ unit_weight _ _ _ Hp')) as (x & Ex & Hx).
    assert (Hdx : d ≤ x + 1). { apply (se_dist _ _ Hse) in Ex as [(p & Hp & <-) _]. pose proof Hd as Hd2. apply (se_dist _ _ Hse) in Hd2 as [_ Hmin]. specialize (Hmin (p ++ [v]) ltac:(by eapply is_path_snoc)).
      rewrite (path_cost_snoc unit_weight p u v) in Hmin by apply Hp. exact Hmin. }
    exists u, q'. assert (x = d - 1) as -> by lia. split_and!; [done| |done|done]. split; [done|]. rewrite Ex. f_equal. lia.
  - intros (u & q' & -> & [Hp Hc] & Ha & Hu). split; [by eapply is_path_snoc|]. rewrite (path_cost_snoc unit_weight q' u v) by apply Hp. rewrite Hd. rewrite Hu in Hc. injection Hc as Hc. unfold unit_weight at 2. f_equal. lia.
Qed.

(** Disjoint lists of paths, one for each parent. *)
Lemma concat_paths (f : Z → res (list (list Z))) (P : Z → list Z → Prop) us : NoDup us → (∀ u, u ∈ us → ∃ ps, f u = Ok ps ∧ NoDup ps ∧ ∀ p, p ∈ ps ↔ P u p) →
  (∀ u1 u2 p, P u1 p → P u2 p → u1 = u2) → ∃ pss, mapR f us = Ok pss ∧ NoDup (concat pss) ∧ ∀ p, p ∈ concat pss ↔ ∃ u, u ∈ us ∧ P u p.
Proof.
  intros Hnd Hf Hdis. induction us as [|u us IH]; [exists []; split_and!; [done|constructor|intros p; cbn; setoid_rewrite elem_of_nil; naive_solver]|].
  apply NoDup_cons in Hnd as [Hu Hnd]. destruct (Hf u ltac:(by left)) as (ps & E & Hps & Hp). destruct (IH Hnd ltac:(intros; apply Hf; by right)) as (pss & Es & Hc & Hq).
  exists (ps :: pss). cbn [mapR]. rewrite E. cbn [mbind res_bind]. rewrite Es. cbn [mbind res_bind concat]. split_and!; [done| |].
  - apply NoDup_app. split_and!; [done| |done]. intros p Hp1%Hp (u2 & Hu2 & Hp2)%Hq. assert (u = u2) as -> by (by eapply Hdis). done.
  - intros p. rewrite elem_of_app, Hp, Hq. setoid_rewrite elem_of_cons. naive_solver.
Qed.
Lemma walk_back_S fuel v acc : walk_back (S fuel) parents src v acc =
  if v =? src then Ok [src :: reverse acc] else pss ← mapR (λ pp, walk_back fuel parents src pp (acc ++ [v])) (default [] (parents !! v)); Ok (concat pss).
Proof. done. Qed.
Lemma walk_back_spec fuel : ∀ v d acc, dist !! v = Some d → d < Z.of_nat fuel →
  ∃ ps, walk_back fuel parents src v acc = Ok ps ∧ NoDup ps ∧ ∀ p, p ∈ ps ↔ ∃ q, shortest_to v q ∧ p = q ++ reverse acc.
Proof.
  induction fuel as [|fuel IH]; intros v d acc Hd Hf.
  { pose proof Hd as Hw. apply (se_dist _ _ Hse) in Hw as [(p & Hp & Hc) _]. rewrite unit_cost in Hc by (by eapply is_path_nonempty). destruct p; [by destruct Hp|cbn [length] in Hc; lia]. }
  rewrite walk_back_S. destruct (v =? src) eqn:Evs.
  { apply Z.eqb_eq in Evs as ->. exists [src :: reverse acc]. split_and!; [done|apply NoDup_singleton|]. intros p. rewrite list_elem_of_singleton. setoid_rewrite shortest_src. naive_solver. }
  apply Z.eqb_neq in Evs. destruct (se_parents _ _ Hse v d Hd Evs) as (us & -> & Hnd & Hus). change (default [] (Some us)) with us.
  destruct (concat_paths (λ pp, walk_back fuel parents src pp (acc ++ [v])) (λ u p, ∃ q, shortest_to u q ∧ p = q ++ reverse (acc ++ [v])) us Hnd) as (pss & -> & Hc & Hm).
  - intros u Hu. apply Hus in Hu as [_ Hdu]. apply (IH u (d - 1)); [done|lia].
  - intros u1 u2 p (q1 & [(_ & Hl1 & _) _] & ->) (q2 & [(_ & Hl2 & _) _] & E). apply app_inv_tail in E as ->. congruence.
  - eexists. split; [done|]. split; [done|]. intros p. rewrite Hm. split.
    + intros (u & Hu & q' & Hq' & ->). apply Hus in Hu as [Ha Hdu]. exists (q' ++ [v]). split; [by eapply shortest_snoc; eauto 10|]. by rewrite reverse_snoc, <-app_assoc.
    + intros (q & Hq & ->). apply (shortest_snoc v d q Hd Evs) in Hq as (u & q' & -> & Hq' & Ha & Hdu). exists u. split; [by apply Hus|]. exists q'. split; [done|]. by rewrite reverse_snoc, <-app_assoc.
Qed.
End paths.

(** The search lists all shortest paths between two nodes of any graph, each
    once and nothing else, and ends; there is none exactly when the second node cannot
    be reached. *)
Lemma all_shortest_paths_spec (g : graph) (src dst : Z) : ∃ ps, all_shortest_paths g src dst = Ok ps ∧ NoDup ps ∧
  ∀ p, p ∈ ps ↔ is_path (adjacent g) src dst p ∧ ∀ q, is_path (adjacent g) src dst q → (length p ≤ length q)%nat.
Proof.
  destruct (path_loop_searched g src) as (st & E & Hse). unfold all_shortest_paths. rewrite E. cbn [mbind res_bind].
  destruct (s_dist st !! dst) as [d|] eqn:Ed.
  - pose proof Ed as Hd. apply (se_dist _ _ _ _ Hse) in Hd as [(p0 & Hp0 & Hc0) Hmin].
    assert (0 ≤ d) by (rewrite <-Hc0; rewrite unit_cost by (by eapply is_path_nonempty); destruct p0; [by destruct Hp0|cbn [length]; lia]).
    destruct (walk_back_spec g src _ _ Hse (S (Z.to_nat d)) dst d [] Ed) as (ps & -> & Hnd & Hm); [lia|]. exists ps. split_and!; [done..|]. intros p. rewrite Hm. split.
    + intros (q & [Hq Hc] & ->). rewrite Ed in Hc. injection Hc as Hc. cbn. rewrite app_nil_r. split; [done|]. intros q2 Hq2. specialize (Hmin q2 Hq2). rewrite Hc in Hmin. rewrite !unit_cost in Hmin by (by eapply is_path_nonempty). lia.
    + intros [Hp Hle]. exists p. cbn. rewrite app_nil_r. split; [|done]. split; [done|]. rewrite Ed. f_equal. specialize (Hle p0 Hp0). pose proof (Hmin p Hp). rewrite <-Hc0 in *. rewrite !unit_cost in * by (by eapply is_path_nonempty). lia.
  - exists []. split_and!; [done|constructor|]. intros p. rewrite elem_of_nil. split; [done|]. intros [Hp _]. destruct (se_walk _ _ _ _ Hse dst _ (path_walk _ unit_weight _ _ _ Hp)) as (x & Ex & _). congruence.
Qed.

(** * Who can play which role *)

Section casting.
Context (g : graph) (cache_set : gset Z).

(** A shortest path of [h] to the publisher, and the hosts that can be cast. *)
Definition shortest (h : Z) (p : list Z) : Prop := is_path (adjacent g) h PUBLISHER p ∧ ∀ q, is_path (adjacent g) h PUBLISHER q → (length p ≤ length q)%nat.
Definition candidate (host_count h : Z) : Prop := 1 ≤ h < host_count ∧ h ∉ cache_set ∧ h ≠ PUBLISHER ∧ ∃ p, shortest h p.
(** A cache node inside every path; on none of them. *)
Definition crosses (h : Z) : Prop := ∀ p, shortest h p → cached_on cache_set p ≠ ∅.
Definition avoids (h : Z) : Prop := ∀ p, shortest h p → cached_on cache_set p = ∅.
(** A fetch of [h] can leave a replica in [x]: a cache node on all of its paths, or on
    some when no cache node is on all. *)
Definition always_on (h x : Z) : Prop := ∀ p, shortest h p → x ∈ cached_on cache_set p.
Definition plants (h x : Z) : Prop := always_on h x ∨ (¬ ∃ y, always_on h y) ∧ ∃ p, shortest h p ∧ x ∈ cached_on cache_set p.

Lemma elem_of_big_inter x s l : x ∈ big_inter s l ↔ ∀ t, t ∈ s :: l → x ∈ t.
Proof.
  unfold big_inter. revert s. induction l as [|t l IH]; intros s; cbn [foldl]; [setoid_rewrite list_elem_of_singleton; naive_solver|]. rewrite IH. split.
  - intros Hall u Hu. pose proof (Hall (s ∩ t) ltac:(by left)) as [? ?]%elem_of_intersection. apply elem_of_cons in Hu as [->|[->|Hu]%elem_of_cons]; [done..|]. apply Hall. by right.
  - intros Hall u [->|Hu]%elem_of_cons; [apply elem_of_intersection; split; apply Hall; [by left|right; by left]|]. apply Hall. by do 2 right.
Qed.
Lemma elem_of_big_union x s l : x ∈ big_union s l ↔ ∃ t, t ∈ s :: l ∧ x ∈ t.
Proof.
  unfold big_union. revert s. induction l as [|t l IH]; intros s; cbn [foldl]; [setoid_rewrite list_elem_of_singleton; naive_solver|]. rewrite IH. split.
  - intros (u & [->|Hu]%elem_of_cons & Hx); [|exists u; split; [by do 2 right|done]]. apply elem_of_union in Hx as [Hx|Hx]; [exists s; split; [by left|done]|exists t; split; [right; by left|done]].
  - intros (u & [->|[->|Hu]%elem_of_cons]%elem_of_cons & Hx); [exists (s ∪ t); split; [by left|set_solver]..|]. exists u. split; [by right|done].
Qed.
Lemma nonempty_spec s : nonempty s = true ↔ ∃ x, x ∈ s.
Proof. unfold nonempty. rewrite bool_decide_eq_true. split; [by intros ?%set_choose_L|set_solver]. Qed.
Lemma nonempty_false s : nonempty s = false ↔ s = ∅.
Proof. unfold nonempty. rewrite bool_decide_eq_false. destruct (decide (s = ∅)); naive_solver. Qed.

(** What a host adds to the lists. *)
Definition may_cover (h : Z) (s : gset Z) : Prop := (∃ p, shortest h p) ∧ crosses h ∧ ∀ x, x ∈ s ↔ plants h x.
Lemma judge_spec st h : ∃ st', judge g cache_set st h = Ok st' ∧
  ((h ∈ cache_set ∨ h = PUBLISHER ∨ ¬ ∃ p, shortest h p) ∧ st' = st ∨
   h ∉ cache_set ∧ h ≠ PUBLISHER ∧ (∃ p, shortest h p) ∧
     ((∃ s, st' = (st.1 ++ [(h, s)], st.2) ∧ may_cover h s) ∨ (st' = (st.1, st.2 ++ [h]) ∧ avoids h) ∨ (st' = st ∧ ¬ crosses h ∧ ¬ avoids h))).
Proof.
  unfold judge. case_bool_decide as Hc; [exists st; cbn [orb]; split; [done|]; tauto|]. destruct (h =? PUBLISHER) eqn:Eh; [apply Z.eqb_eq in Eh; exists st; cbn [orb]; split; [done|]; tauto|]. apply Z.eqb_neq in Eh. cbn [orb].
  destruct (all_shortest_paths_spec g h PUBLISHER) as (ps & -> & _ & Hps). cbn [mbind res_bind].
  assert (Hin : ∀ s, s ∈ cached_on cache_set <$> ps ↔ ∃ p, shortest h p ∧ s = cached_on cache_set p) by (intros s; rewrite list_elem_of_fmap; setoid_rewrite Hps; unfold shortest; naive_solver).
  destruct (cached_on cache_set <$> ps) as [|s0 l] eqn:El.
  { exists st. split; [done|]. left. split; [|done]. right; right. intros [p Hp]. assert (cached_on cache_set p ∈ @nil (gset Z)) as Hn by (apply Hin; by exists p). by apply elem_of_nil in Hn. }
  assert (Hreach : ∃ p, shortest h p) by (destruct (proj1 (Hin s0) ltac:(by left)) as (p & Hp & _); by exists p).
  assert (Hcr : crosses h ↔ ∀ s, s ∈ s0 :: l → s ≠ ∅) by (unfold crosses; setoid_rewrite Hin; naive_solver).
  assert (Hav : avoids h ↔ ∀ s, s ∈ s0 :: l → s = ∅) by (unfold avoids; setoid_rewrite Hin; naive_solver).
  destruct (forallb nonempty (s0 :: l)) eqn:Ef.
  - rewrite forallb_forall in Ef. assert (crosses h) as Hcross by (apply Hcr; intros s Hs%list_elem_of_In; apply Ef, nonempty_spec in Hs as [x Hx]; set_solver).
    assert (Hao : ∀ x, x ∈ big_inter s0 l ↔ always_on h x) by (intros x; rewrite elem_of_big_inter; unfold always_on; setoid_rewrite Hin; naive_solver).
    eexists. split; [done|]. right. split_and!; [done..|]. left. eexists. split; [done|]. split_and!; [done..|]. intros x. unfold plants. destruct (nonempty (big_inter s0 l)) eqn:En.
    + rewrite Hao. split; [by left|]. intros [|[Hno _]]; [done|]. exfalso. apply Hno. apply nonempty_spec in En as [y Hy]. exists y. by apply Hao.
    + apply nonempty_false in En. rewrite elem_of_big_union. setoid_rewrite Hin. split.
      * intros (s & (p & Hp & ->) & Hx). right. split; [|by exists p]. intros [y Hy%Hao]. rewrite En in Hy. by apply elem_of_empty in Hy.
      * intros [Hx%Hao|[_ (p & Hp & Hx)]]; [rewrite En in Hx; by apply elem_of_empty in Hx|]. eauto.
  - destruct (existsb nonempty (s0 :: l)) eqn:Ee; cbn [negb]; (eexists; split; [done|]; right; split_and!; [done..|]; right).
    + right. split; [done|]. split.
      * intros Hcross. pose proof (proj1 Hcr Hcross) as Hne. assert (forallb nonempty (s0 :: l) = true); [|congruence]. apply forallb_forall. intros s Hs%list_elem_of_In. apply Hne in Hs. destruct (nonempty s) eqn:E; [done|]. by apply nonempty_false in E.
      * intros Havoid. apply existsb_exists in Ee as (s & Hs & [x Hx]%nonempty_spec). apply list_elem_of_In in Hs. apply (proj1 Hav Havoid) in Hs. set_solver.
    + left. split; [done|]. apply Hav. intros s Hs. destruct (nonempty s) eqn:E; [|by apply nonempty_false in E]. assert (existsb nonempty (s0 :: l) = true); [|congruence]. apply existsb_exists. exists s. split; [by apply list_elem_of_In|done].
Qed.

(** The lists after some hosts: who is on them, and why. *)
Record judged (hs : list Z) (st : list (Z * gset Z) * list Z) : Prop := {
  jd_covered h s : (h, s) ∈ st.1 → h ∈ hs ∧ h ∉ cache_set ∧ h ≠ PUBLISHER ∧ may_cover h s;
  jd_uncovered h : h ∈ st.2 ↔ h ∈ hs ∧ h ∉ cache_set ∧ h ≠ PUBLISHER ∧ (∃ p, shortest h p) ∧ avoids h;
  jd_crosses h : h ∈ hs → h ∉ cache_set → h ≠ PUBLISHER → (∃ p, shortest h p) → crosses h → ∃ s, (h, s) ∈ st.1;
}.
Lemma judge_all hs : ∃ st, foldM (judge g cache_set) ([], []) hs = Ok st ∧ judged hs st.
Proof.
  induction hs as [|h hs (st & E & [Hc Hu Hx])] using rev_ind.
  { exists ([], []). split; [done|]. constructor; cbn; intros *; rewrite ?elem_of_nil; naive_solver. }
  destruct (judge_spec st h) as (st' & E' & Hst). exists st'. rewrite foldM_app, E. cbn [mbind res_bind foldM]. rewrite E'. split; [done|].
  assert (Hin : ∀ k, k ∈ hs ++ [h] ↔ k ∈ hs ∨ k = h) by (intros k; by rewrite elem_of_app, list_elem_of_singleton).
  destruct Hst as [[Hno ->]|(Hcs & Hp & Hreach & [(s & -> & Hm)|[[-> Ha]|(-> & Hncr & Hnav)]])]; constructor; cbn [fst snd]; intros k *; rewrite ?Hin; try rewrite elem_of_app, list_elem_of_singleton.
  - intros Hk%Hc. naive_solver.
  - rewrite Hu. naive_solver.
  - intros [Hk| ->]; [by apply Hx|naive_solver].
  - intros [Hk%Hc|[= -> ->]]; [naive_solver|]. naive_solver.
  - rewrite Hu. split; [naive_solver|]. intros ([?| ->] & ? & ? & (p & Hp') & Hav); [naive_solver|]. exfalso. destruct Hm as (_ & Hcr & _). by apply (Hcr p Hp'), Hav.
  - intros [Hk| ->]; [intros; destruct (Hx k) as [s' Hs']; try done; exists s'; rewrite elem_of_app; by left|]. intros _ _ _ _. exists s. rewrite elem_of_app. right. by left.
  - intros Hk%Hc. naive_solver.
  - rewrite Hu. naive_solver.
  - intros [Hk| ->]; [by apply Hx|]. intros _ _ (p & Hp') Hcr. exfalso. by apply (Hcr p Hp'), Ha.
  - intros Hk%Hc. naive_solver.
  - rewrite Hu. naive_solver.
  - intros [Hk| ->]; [by apply Hx|naive_solver].
Qed.
Lemma elem_of_pairs covered a b : (a, b) ∈ pairs covered ↔ ∃ sa sb x, (a, sa) ∈ covered ∧ (b, sb) ∈ covered ∧ a < b ∧ x ∈ sa ∧ x ∈ sb.
Proof.
  unfold pairs. rewrite list_elem_of_bind. split.
  - intros ([a' sa] & Hin & Ha). apply list_elem_of_bind in Hin as ([b' sb] & Hin & Hb). cbn in Hin. destruct ((a' <? b') && nonempty (sa ∩ sb)) eqn:E; [|by apply elem_of_nil in Hin].
    apply list_elem_of_singleton in Hin as [= -> ->]. apply andb_prop in E as [Hlt%Z.ltb_lt [x [? ?]%elem_of_intersection]%nonempty_spec]. by exists sa, sb, x.
  - intros (sa & sb & x & Ha & Hb & Hlt & Hxa & Hxb). exists (a, sa). split; [|done]. apply list_elem_of_bind. exists (b, sb). split; [|done]. cbn.
    rewrite (proj2 (Z.ltb_lt a b) Hlt), (proj2 (nonempty_spec (sa ∩ sb))) by (exists x; set_solver). cbn. by left.
Qed.
End casting.

(** What a cast promises: four hosts that are neither the publisher nor cache nodes and
    reach the publisher.  The first three have a cache node inside every shortest path,
    the last one on none, and the protagonist's fetch can leave a replica in a cache
    node that serves the newcomer. *)
Record cast_ok (g : graph) (cache_set : gset Z) (host_count : Z) (c : cast) : Prop := {
  ca_candidates : Forall (candidate g cache_set host_count) [protagonist c; newcomer c; control c; unlucky c];
  ca_crosses : Forall (crosses g cache_set) [protagonist c; newcomer c; control c];
  ca_avoids : avoids g cache_set (unlucky c);
  ca_distinct : protagonist c < newcomer c ∧ control c ≠ protagonist c ∧ unlucky c ∉ [protagonist c; newcomer c; control c];
  ca_shared : ∃ x, plants g cache_set (protagonist c) x ∧ plants g cache_set (newcomer c) x;
}.
(** The hosts of a graph that could play the roles. *)
Definition castable (g : graph) (cache_set : gset Z) (host_count : Z) : Prop :=
  ∃ a b u x, candidate g cache_set host_count a ∧ candidate g cache_set host_count b ∧ candidate g cache_set host_count u ∧ a < b ∧
    crosses g cache_set a ∧ crosses g cache_set b ∧ avoids g cache_set u ∧ plants g cache_set a x ∧ plants g cache_set b x.

(** The cast of a timeline: on any graph and for any cache nodes [pick_roles]
    returns; it returns four hosts exactly when the graph has hosts for the roles, and
    the hosts it returns have the cache coverage their roles need. *)
Lemma pick_roles_correct (g : graph) (cache_nodes : list Z) (host_count : Z) :
  (∃ c, pick_roles g cache_nodes host_count = Ok (Some c) ∧ cast_ok g (list_to_set cache_nodes) host_count c ∧ castable g (list_to_set cache_nodes) host_count) ∨
  (pick_roles g cache_nodes host_count = Ok None ∧ ¬ castable g (list_to_set cache_nodes) host_count).
Proof.
  unfold pick_roles. set (cs := list_to_set cache_nodes : gset Z). destruct (judge_all g cs (seqZ 1 (host_count - 1))) as ([covered uncovered] & -> & [Hc Hu Hx]). cbn [mbind res_bind fst snd] in *.
  assert (Hr : ∀ h, h ∈ seqZ 1 (host_count - 1) ↔ 1 ≤ h < host_count) by (intros h; rewrite elem_of_seqZ; lia).
  assert (Hcov : ∀ h s, (h, s) ∈ covered → candidate g cs host_count h ∧ crosses g cs h ∧ ∀ x, x ∈ s ↔ plants g cs h x).
  { intros h s Hin. destruct (Hc h s Hin) as (Hh & ? & ? & ? & ? & ?). rewrite Hr in Hh. done. }
  assert (Hunc : ∀ h, h ∈ uncovered ↔ candidate g cs host_count h ∧ avoids g cs h) by (intros h; rewrite Hu, Hr; unfold candidate; tauto).
  assert (Hpair : ∀ a b, (a, b) ∈ pairs covered ↔ candidate g cs host_count a ∧ candidate g cs host_count b ∧ a < b ∧ crosses g cs a ∧ crosses g cs b ∧ ∃ x, plants g cs a x ∧ plants g cs b x).
  { intros a b. rewrite elem_of_pairs. split.
    - intros (sa & sb & x & Ha & Hb & Hlt & Hxa & Hxb). destruct (Hcov a sa Ha) as (? & ? & Hsa), (Hcov b sb Hb) as (? & ? & Hsb). split_and!; try done. exists x. by rewrite <-Hsa, <-Hsb.
    - intros ((Ha & Hac & Hap & Har) & (Hb & Hbc & Hbp & Hbr) & Hlt & Hca & Hcb & x & Hxa & Hxb).
      destruct (Hx a) as [sa Hsa]; [by apply Hr|done..|]. destruct (Hx b) as [sb Hsb]; [by apply Hr|done..|]. exists sa, sb, x. split_and!; [done..| |]; by eapply Hcov. }
  destruct (pairs covered) as [|[a b] ps] eqn:Ep.
  { right. split; [done|]. intros (a & b & u & x & Ha & Hb & Hu' & Hlt & Hca & Hcb & Hau & Hxa & Hxb). assert ((a, b) ∈ @nil (Z * Z)) as Hn by (apply Hpair; split_and!; eauto). by apply elem_of_nil in Hn. }
  destruct uncovered as [|u us] eqn:Eu.
  { right. split; [done|]. intros (a' & b' & u & x & Ha & Hb & Hu' & _ & _ & _ & Hau & _). assert (u ∈ @nil Z) as Hn by (by apply Hunc). by apply elem_of_nil in Hn. }
  left. eexists. split; [done|]. destruct (proj1 (Hpair a b)) as (Ha & Hb & Hlt & Hca & Hcb & x & Hxa & Hxb); [by left|]. destruct (proj1 (Hunc u)) as [Hcu Hau]; [by left|].
  split; [|by exists a, b, u, x; split_and!].
  set (ctl := default b (head _)). assert (Hctl : candidate g cs host_count ctl ∧ crosses g cs ctl ∧ ctl ≠ a).
  { unfold ctl. destruct (List.filter _ covered.*1) as [|h l] eqn:El; cbn; [split_and!; [done..|lia]|]. assert (Hh : In h (h :: l)) by (by left). rewrite <-El in Hh. apply List.filter_In in Hh as [Hh Hne].
    apply list_elem_of_In, list_elem_of_fmap in Hh as ([h' s] & -> & Hh). destruct (Hcov h' s Hh) as (? & ? & _). cbn in *. split_and!; [done..|]. apply andb_prop in Hne as [Hne _]. apply negb_true_iff, Z.eqb_neq in Hne. done. }
  destruct Hctl as (Hctl & Hcc & Hne). assert (Hnu : ∀ h, crosses g cs h → u ≠ h). { intros h Hch ->. destruct Hcu as (_ & _ & _ & p & Hp). by apply (Hch p Hp), Hau. }
  constructor; cbn [protagonist newcomer control unlucky].
  - do 4 (apply Forall_cons; split; [done|]). done.
  - do 3 (apply Forall_cons; split; [done|]). done.
  - done.
  - split_and!; [done|done|]. rewrite !not_elem_of_cons. split_and!; try by apply Hnu. apply not_elem_of_nil.
  - by exists x.
Qed.

(** * The offline topology is the scenario's *)

(** The graph of a fingerprint is the one the cache placement of a run reads. *)
Lemma join_inner_adjacent hs a g u v : adjacent (foldl (λ g b, if a =? b then g else setdefault_add g a b) g hs) u v ↔ adjacent g u v ∨ (u = a ∧ v ∈ hs ∧ a ≠ v).
Proof.
  revert g. induction hs as [|b hs IH]; intros g; cbn [foldl]; [rewrite elem_of_nil; tauto|]. rewrite IH, elem_of_cons. destruct (a =? b) eqn:E; [apply Z.eqb_eq in E as ->; naive_solver|]. apply Z.eqb_neq in E. rewrite setdefault_adjacent. naive_solver.
Qed.
Lemma join_hosts_adjacent hs g u v : adjacent (join_hosts hs g) u v ↔ adjacent g u v ∨ (u ∈ hs ∧ v ∈ hs ∧ u ≠ v).
Proof.
  unfold join_hosts. enough (∀ l, adjacent (foldl (λ g a, foldl (λ g b, if a =? b then g else setdefault_add g a b) g hs) g l) u v ↔ adjacent g u v ∨ (u ∈ l ∧ v ∈ hs ∧ u ≠ v)) as He by apply He.
  intros l. revert g. induction l as [|a l IH]; intros g; cbn [foldl]; [rewrite elem_of_nil; tauto|]. rewrite IH, join_inner_adjacent, elem_of_cons. naive_solver.
Qed.
Lemma fp_graph_adjacent links u v : adjacent (fp_graph links) u v ↔ ∃ l, l ∈ links ∧ u ∈ l.2 ∧ v ∈ l.2 ∧ u ≠ v.
Proof.
  unfold fp_graph. induction links as [|l links IH] using rev_ind; [cbn; rewrite adjacent_alt, lookup_empty; split; [by intros ?%elem_of_empty|by intros (l & ?%elem_of_nil & _)]|].
  rewrite foldl_snoc, join_hosts_adjacent, IH. setoid_rewrite elem_of_app. setoid_rewrite list_elem_of_singleton. split.
  - intros [(k & ? & ?)|?]; [exists k; tauto|exists l; tauto].
  - intros (k & [?| ->] & ?); [left; by exists k|by right].
Qed.
(** A graph without empty rows is its adjacency. *)
Definition no_empty (g : graph) : Prop := ∀ a ns, g !! a = Some ns → ns ≠ ∅.
Lemma graph_ext (g1 g2 : graph) : no_empty g1 → no_empty g2 → (∀ u v, adjacent g1 u v ↔ adjacent g2 u v) → g1 = g2.
Proof.
  intros H1 H2 Hadj. apply map_eq. intros a. assert (Hd : default ∅ (g1 !! a) = default ∅ (g2 !! a)) by (apply set_eq; intros v; by rewrite <-!adjacent_alt).
  destruct (g1 !! a) as [s1|] eqn:E1, (g2 !! a) as [s2|] eqn:E2; cbn in Hd; [by subst| | |done]; exfalso; [by eapply H1|]. symmetry in Hd. by eapply H2.
Qed.
Lemma setdefault_no_empty g a b : no_empty g → no_empty (setdefault_add g a b).
Proof. intros Hg x ns. unfold setdefault_add. rewrite lookup_insert. case_decide; [intros [= <-]; set_solver|apply Hg]. Qed.
Lemma foldl_no_empty {A} (f : graph → A → graph) l g : (∀ g x, no_empty g → no_empty (f g x)) → no_empty g → no_empty (foldl f g l).
Proof. intros Hf. revert g. induction l as [|x l IH]; intros g Hg; [done|]. cbn. auto. Qed.
Lemma fp_graph_no_empty links : no_empty (fp_graph links).
Proof.
  apply foldl_no_empty; [|by intros a ns; rewrite lookup_empty]. intros g l Hg. apply foldl_no_empty; [|done]. clear. intros g a Hg. apply foldl_no_empty; [|done]. clear. intros g b Hg. destruct (a =? b); [done|]. by apply setdefault_no_empty.
Qed.
Lemma build_host_graph_no_empty mesh : no_empty (build_host_graph mesh).1.
Proof.
  unfold build_host_graph. generalize (edges (TopologyModel mesh)) as es. intros es. induction es as [|[[a b] l] es IH] using rev_ind; [by intros a ns; cbn; rewrite lookup_empty|].
  rewrite foldl_snoc. cbn. by do 2 apply setdefault_no_empty.
Qed.
Lemma sorted_links_elem links l : l ∈ sorted_links links ↔ l ∈ links.
Proof. unfold sorted_links. by rewrite merge_sort_Permutation. Qed.
Lemma fp_graph_runtime mesh : (∀ l, l ∈ TopologyModel mesh → NoDup (hosts l)) → fp_graph (sorted_links (fp_entry <$> mesh)) = (build_host_graph mesh).1.
Proof.
  intros Hnd. apply graph_ext; [apply fp_graph_no_empty|apply build_host_graph_no_empty|]. intros u v. rewrite fp_graph_adjacent. setoid_rewrite sorted_links_elem. destruct (build_host_graph_spec mesh) as (Ha & _). rewrite Ha. unfold joined. split.
  - intros (l & (raw & -> & Hraw)%list_elem_of_fmap & Hu & Hv & Hne). cbn in Hu, Hv. rewrite elem_of_sorted_list in Hu, Hv. assert (Hl : normalize raw ∈ TopologyModel mesh) by (by apply list_elem_of_fmap_2). exists (normalize raw).
    destruct (decide (u < v)); [left|right]; apply edges_spec; try done; split_and!; try done; lia.
  - intros (l & Hl). assert (∃ l, l ∈ TopologyModel mesh ∧ u ∈ hosts l ∧ v ∈ hosts l ∧ u ≠ v) as (l' & Hin & Hu & Hv & Hne).
    { exists l. destruct Hl as [Hl|Hl]; apply edges_spec in Hl as (? & ? & ? & ?); try done; split_and!; try done; lia. }
    apply list_elem_of_fmap in Hin as (raw & -> & Hraw). exists (fp_entry raw). split; [by apply list_elem_of_fmap_2|]. cbn. by rewrite !elem_of_sorted_list.
Qed.

Lemma emit_links_hosts n sws st : emit_links n sws = Ok st → ∀ raw, raw ∈ st.1 → ∃ sw sn hs eth, raw = RawMulti (Some sw) (Some sn) hs (Some eth) ∧ hs ∈ sws.
Proof.
  unfold emit_links. intros Hf raw Hin.
  enough (∀ ihs (st0 st : list raw_link * ports), (∀ ih, ih ∈ ihs → ih.2 ∈ sws) → foldM (λ st ih, emit_link (Z.of_nat ih.1) ih.2 st) st0 ihs = Ok st → ∀ raw, raw ∈ st.1 → raw ∈ st0.1 ∨ ∃ sw sn hs eth, raw = RawMulti (Some sw) (Some sn) hs (Some eth) ∧ hs ∈ sws) as He.
  { destruct (He (imap pair sws) ([], mkPorts (replicate (Z.to_nat n) 0) ∅ []) st) with (raw := raw) as [Hn|?]; [|done..| |done].
    - intros ih (i & x & -> & Hx)%elem_of_lookup_imap_1. cbn. by apply list_elem_of_lookup_2 with i.
    - by apply elem_of_nil in Hn. }
  clear. intros ihs. induction ihs as [|ih ihs IH]; intros st0 st Hs Hf raw Hin; [injection Hf as <-; by left|]. cbn [foldM] in Hf. apply res_bind_Ok in Hf as (st1 & E1 & Hf).
  destruct (IH st1 st ltac:(intros; apply Hs; by right) Hf raw Hin) as [Hr|?]; [|by right]. destruct st0 as [links ps]. cbn [emit_link] in E1. apply res_bind_Ok in E1 as (ps1 & _ & [= <-]). cbn in Hr.
  apply elem_of_app in Hr as [?|Hr]; [by left|]. apply list_elem_of_singleton in Hr as ->. right. do 4 eexists. split; [done|]. apply Hs. by left.
Qed.

Section reproduction.
Context `{Rng} (choose : ∀ A : Type, A → list A → rng → A * rng).
#[local] Existing Instance rng_choice.

Lemma mesh_links_NoDup hosts_ n nps lo hi use_all r topo : MeshTopo_build hosts_ n nps lo hi use_all r = Ok topo → ∀ l, l ∈ TopologyModel topo.1 → NoDup (hosts l).
Proof.
  unfold MeshTopo_build. intros (sws & _ & Hb)%res_bind_Ok l (raw & -> & Hraw)%list_elem_of_fmap. apply res_bind_Ok in Hb as (st & Est & [= <-]).
  destruct (emit_links_hosts _ _ _ Est raw Hraw) as (sw & sn & hs & eth & -> & (s & -> & _)%list_elem_of_fmap). cbn. unfold sorted_list. rewrite merge_sort_Permutation. apply NoDup_sorted_set.
Qed.

Definition inputs_of (spec : MeshBuildSpec) : topology_inputs :=
  mkInputs (b_host_count spec) (b_switch_limit spec) (b_node_per_switch spec) (b_host_degree_min spec) (b_host_degree_max spec) (b_switch_use_all spec) (b_publisher_ids spec).

(** What the tools compute offline is what a run builds: for a scenario with a random
    mesh the fingerprint lists the roles and the links of the run, and the cache nodes
    a timeline is cast with are those the k-centers placement selects in the run. *)
Lemma fingerprint_reproduces templates spec r w w' roles dirs topo centers :
  b_links spec = None → build_mesh_scenario choose templates spec r w = (w', inl (roles, dirs, topo)) → select_k_centers (build_host_graph topo.1).1 CACHE_COUNT None {[PUBLISHER]} = Ok centers →
  ∃ p, build_payload choose (inputs_of spec) r = Ok p ∧ pl_hosts p = b_host_count spec ∧ pl_roles p = role_names roles ∧ pl_links p = sorted_links (fp_entry <$> topo.1) ∧
    topo_for p = Ok ((build_host_graph topo.1).1, sorted_list centers).
Proof.
  intros Hl Hb Hk. unfold build_mesh_scenario in Hb. unfold build_payload. cbn [inputs_of ti_host_count ti_publisher_ids ti_switch_limit ti_node_per_switch ti_host_degree_min ti_host_degree_max ti_switch_use_all].
  destruct (assign_roles (H := rng_choice choose) (b_host_count spec) r (b_publisher_ids spec)) as [roles' r'] eqn:Er.
  unfold build_topo in Hb. rewrite Hl in Hb. unfold mbind, M_bind, try_except, lift in Hb. destruct (provision_node_dirs templates roles' w) as [w1 [dirs'|e]]; [|done].
  destruct (MeshTopo_build _ _ _ _ _ _ r') as [topo'|e|] eqn:Et.
  - injection Hb as <- <- <- <-. eexists. split; [done|]. cbn [pl_hosts pl_roles pl_links]. split_and!; [done..|]. unfold topo_for. cbn [pl_links].
    rewrite fp_graph_runtime by (by eapply mesh_links_NoDup). rewrite Hk. done.
  - destruct (cleanup_node_dirs dirs' w1) as [w2 [[]|e2]]; done.
  - destruct (cleanup_node_dirs dirs' w1) as [w2 [[]|e2]]; done.
Qed.
End reproduction.
