(* ===== verification/Figures.v ===== *)
(** Component: what the figures and the report of a campaign are computed from
    (tools/workshop/plots.py and tools/workshop/report.py): the jobs found on disk with
    the last attempt the journal has for each, the groups of jobs, and the rates,
    agreements, medians and outage windows of their records.  The drawing itself, and
    the means and deviations of the statistics module, are left out. *)
From S2P Require Import Prelude PyValue PyString PyNum PyText Events Verdict StateMonad Artifacts Bootstrap Campaign.
Local Open Scope Z_scope.

(** * The journal *)

(** A line of a JSON-lines file; one that does not parse is passed over. *)
Inductive text_line := BlankLine | BadLine | JsonLine (v : pv).
(** [_read_jsonl]. *)
Definition read_jsonl (ls : list text_line) : list pv := omap (λ l, match l with JsonLine v => Some v | _ => None end) ls.

(** [_final_attempt_by_job]: the last row of every job wins. *)
Definition last_attempt (last : pydict) (row : pv) : res pydict :=
  match row with
  | PDict d =>
      let job_id := get_none d "job_id" in
      if is_none job_id then Ok last else if hashable job_id then Ok (dset last job_id row) else unhashable job_id
  | _ => raise EAttributeError "object has no attribute 'get'"
  end.
Definition final_attempt_by_job (rows : list pv) : res pydict := foldM last_attempt [] rows.

(** [_campaign_stats]. *)
Record stats := mkStats { n_jobs : Z; n_ok : Z; n_failed : Z; n_skipped : Z; total_wall : pv; failed_or_skipped : list pv }.
Definition row_get (row : pv) (k : string) : pv := match row with PDict d => get_none d k | _ => PNone end.
Definition ok_row (row : pv) : bool := eq_str (row_get row "status") "ok".
Definition skipped_row (row : pv) : bool := eq_str (row_get row "status") "skipped_memory".
Definition wall_or_zero (row : pv) : pv := if truthy (row_get row "wall_seconds") then row_get row "wall_seconds" else PFloat (FFin 0 0).
Definition counted (f : pv → bool) (rows : list pv) : Z := Z.of_nat (length (List.filter f rows)).
Definition campaign_stats (rows : list pv) : res stats :=
  last ← final_attempt_by_job rows;
  wall ← foldM (λ s row, py_add s (wall_or_zero row)) (PInt 0) rows;
  Ok (mkStats (Z.of_nat (length last)) (counted ok_row last.*2) (counted (λ r, negb (ok_row r) && negb (skipped_row r)) last.*2) (counted (λ r, negb (ok_row r) && skipped_row r) last.*2)
        wall (List.filter (λ r, negb (ok_row r)) last.*2)).

(** * Jobs on disk *)

(** [_load_manifest_index] of the candidates that exist and parse. *)
Definition index_entry (index : pydict) (j : pv) : res pydict :=
  let no_index := raise ETypeError "indices must be integers" in
  match j with
  | PDict d => match dget d "id" with Some id => if hashable id then Ok (dset index id j) else unhashable id | None => Ok index end
  | PList l => if existsb (pv_eqb (PStr "id")) l then no_index else Ok index
  | PStr s => if contains s "id" then no_index else Ok index
  | _ => raise ETypeError "argument is not iterable"
  end.
Definition load_manifest_index (candidates : list (option pv)) : res pydict :=
  match omap id candidates with
  | [] => Ok []
  | PDict data :: _ =>
      match get_or data "jobs" (PList []) with
      | PList l => foldM index_entry [] l
      | PDict d => foldM index_entry [] d.*1
      | PStr _ => Ok []
      | _ => raise ETypeError "object is not iterable"
      end
  | _ :: _ => raise EAttributeError "object has no attribute 'get'"
  end.

Record job := mkJob { j_id : string; j_status : pv; j_run_dir : option string; j_wall_seconds : pv; j_peak_mem_used_kb : pv; j_manifest : pydict; j_config : pydict; j_results : list pydict }.
(** The campaign directory: its journal, the manifests next to it, its directories in
    order, which run directories exist, and what the files of a job hold; a file that
    is missing or does not parse is an empty one. *)
Record disk := mkDisk { journal : list text_line; manifests : list (option pv); job_dirs : list string; run_exists : string → bool; config_used : string → pydict; results_of : string → list pydict }.

Definition existing_run_dir (d : disk) (attempt : pydict) : res (option string) :=
  let v := get_none attempt "run_dir" in
  if negb (truthy v) then Ok None
  else match v with
       | PStr s => Ok (if run_exists d s then Some s else None)
       | _ => raise ETypeError "argument should be a str or an os.PathLike object"
       end.
Definition as_record (v : option pv) : pydict := match v with Some (PDict d) => d | _ => [] end.
Definition discover_job (d : disk) (last index : pydict) (name : string) : res job :=
  let attempt := as_record (dget last name) in
  run_dir ← existing_run_dir d attempt;
  Ok (mkJob name (get_none attempt "status") run_dir (get_none attempt "wall_seconds") (get_none attempt "peak_mem_used_kb") (as_record (dget index name))
        (config_used d name) (match run_dir with Some r => results_of d r | None => [] end)).
(** [discover_jobs]. *)
Definition discover_jobs (d : disk) : res (list job) :=
  last ← final_attempt_by_job (read_jsonl (journal d));
  index ← load_manifest_index (manifests d);
  mapR (discover_job d last index) (job_dirs d).

(** [_match] of a family: a fixed beginning and a number; [_contains_token]: a word of
    the name. *)
Definition numbered (prefix s : string) : bool :=
  match strip_prefix prefix s with Some rest => negb (bool_decide (rest = "")) && all_chars is_digit rest | None => false end.
Definition match_family (prefix : string) (jobs : list job) : list job := List.filter (λ j, numbered prefix (j_id j)) jobs.
Definition underscore : ascii := Ascii.ascii_of_N 95.
Definition contains_token (token : string) (jobs : list job) : list job := List.filter (λ j, bool_decide (token ∈ split underscore (j_id j))) jobs.
Definition eval_success (record : pydict) : bool := bool_decide (success (from_record record) = Some true).

(** * Reproducibility *)

(** [_m1_jobs_by_seed]: the jobs of each seed, in the order the seeds appear. *)
Fixpoint append_job (seed : Z) (j : job) (groups : list (Z * list job)) : list (Z * list job) :=
  match groups with
  | [] => [(seed, [j])]
  | (s, js) :: groups => if s =? seed then (s, js ++ [j]) :: groups else (s, js) :: append_job seed j groups
  end.
Definition observed_seed (j : job) : pv := let s := get_none (j_config j) "seed" in if is_none s then get_none (j_manifest j) "seed" else s.
Definition add_seeded (groups : list (Z * list job)) (j : job) : res (list (Z * list job)) :=
  let s := observed_seed j in
  if is_none s then Ok groups else seed ← py_int s; Ok (append_job seed j groups).
Definition m1_jobs_by_seed (jobs : list job) : res (list (Z * list job)) := foldM add_seeded [] (contains_token "m1" jobs).
(** The first of the largest groups. *)
Definition largest (g : Z * list job) (groups : list (Z * list job)) : Z * list job := foldl (λ best x, if (length best.2 <? length x.2)%nat then x else best) g groups.
(** [_m1_groups]. *)
Definition m1_groups (jobs : list job) : res (list job * list job) :=
  by_seed ← m1_jobs_by_seed jobs;
  match by_seed with
  | [] => Ok ([], [])
  | g :: groups => let same := largest g groups in Ok (same.2, List.filter (λ x, negb (x.1 =? same.1)) (g :: groups) ≫= snd)
  end.

(** The agreement of the runs on each operation ([fig_m1_verdict_agreement]): how many
    runs agree with the majority, of how many. *)
Definition content_ops (j : job) : list pydict := List.filter (λ r, in_strs (get_none r "op_type") ["put"; "get"; "pub"; "sub"]) (j_results j).
Definition run_sequences (same : list job) : list (list pydict) := List.filter (λ s, negb (bool_decide (s = []))) (content_ops <$> same).
Definition min_len (seqs : list (list pydict)) : nat := match seqs with [] => 0%nat | s :: seqs => foldl (λ n x, n `min` length x)%nat (length s) seqs end.
Definition count_true (l : list bool) : Z := Z.of_nat (length (List.filter id l)).
Definition agreement_at (seqs : list (list pydict)) (i : nat) : Z * Z :=
  let successes := (λ s, match s !! i with Some r => eval_success r | None => false end) <$> seqs in
  let n := Z.of_nat (length successes) in
  let majority := n <=? 2 * count_true successes in
  (count_true ((λ s, eqb s majority) <$> successes), n).
Definition agreement (seqs : list (list pydict)) : list (Z * Z) := agreement_at seqs <$> seq 0 (min_len seqs).

(** * Rates *)

Definition not_warmup (r : pydict) : bool := negb (eq_str (get_none r "phase") "warmup").
Definition eval_ops (ops : list string) (r : pydict) : bool := in_strs (get_none r "op_type") ops && not_warmup r.
(** Successes and records. *)
Definition tally (rs : list pydict) : Z * Z := (count_true (eval_success <$> rs), Z.of_nat (length rs)).
Definition success_rate (t : Z * Z) : option pyfloat := if t.2 =? 0 then None else Some (double_of_ratio t.1 t.2).

(** [fig_m5a_pubdown]: the evaluated gets of a bucket and a publisher state. *)
Definition with_cache (j : job) : bool := truthy (get_none (j_config j) "cache_config").
Definition m5a_cell (jobs : list job) (cache down : bool) : Z * Z :=
  tally (List.filter (λ j, eqb (with_cache j) cache) jobs ≫= λ j, List.filter (λ r, eval_ops ["get"] r && eqb (truthy (get_none r "publisher_down")) down) (j_results j)).
(** [_rate] of [fig_m2_matrix], and the rates of the seeds of a sweep
    ([fig_m5c_intensity], [fig_m5d_strategies]): a job without such records has none. *)
Definition family_tally (ops : list string) (jobs : list job) : Z * Z := tally (jobs ≫= λ j, List.filter (eval_ops ops) (j_results j)).
Definition seed_rates (jobs : list job) : list pyfloat := omap (λ j, success_rate (tally (List.filter (eval_ops ["get"; "sub"]) (j_results j)))) jobs.
Inductive m2_cell := Note | Rate (t : Z * Z).
Definition m2_matrix (jobs : list job) (topo col : string) : m2_cell :=
  if bool_decide (topo = "linear") && bool_decide (col = "pubsub") then Note
  else
    let family := if bool_decide (topo = "linear") then "m2_linear_r" else if bool_decide (topo = "mesh") then (if bool_decide (col = "pubsub") then "m2_pubsub_s" else "m2_putget_s") else "m2_disaster_s" in
    if bool_decide (topo = "disaster") && bool_decide (col = "pubsub") then Rate (tally [])
    else Rate (family_tally (if bool_decide (col = "pubsub") then ["pub"; "sub"] else ["put"; "get"]) (match_family family jobs)).

(** * Outage windows *)

(** [fig_m5e_timeline]: a host event is a time and whether the host goes down; the
    windows and the one that is still open. *)
Section outages.
Context {T : Type}.
Definition window_step (st : list (T * T) * option T) (e : T * bool) : list (T * T) * option T :=
  match e.2, st.2 with
  | true, None => (st.1, Some e.1)
  | false, Some open_t => (st.1 ++ [(open_t, e.1)], None)
  | _, _ => st
  end.
Definition windows (last_get : T) (events : list (T * bool)) : list (T * T) :=
  let st := foldl window_step ([], None) events in
  match st.2 with Some open_t => st.1 ++ [(open_t, last_get)] | None => st.1 end.
End outages.
(** The host events of a run that took place. *)
Definition host_event (r : pydict) : option bool :=
  if eq_str (get_none r "op_type") "event" && negb (match get_none r "success" with PBool false => true | _ => false end) then
    if eq_str (get_none r "event_type") "host_down" then Some true else if eq_str (get_none r "event_type") "host_up" then Some false else None
  else None.

(** * The statistics of a campaign's journal *)

(** The jobs of a journal, first things first, and the last record of each. *)
Definition job_ids (h : list entry) : list string := foldl (λ ids e, if decide (e_job e ∈ ids) then ids else ids ++ [e_job e]) [] h.
Definition last_of (id : string) (h : list entry) : option entry := last (List.filter (λ e, bool_decide (e_job e = id)) h).
Lemma job_ids_snoc h e : job_ids (h ++ [e]) = if decide (e_job e ∈ job_ids h) then job_ids h else job_ids h ++ [e_job e].
Proof. unfold job_ids. by rewrite foldl_snoc. Qed.
Lemma job_ids_spec h : NoDup (job_ids h) ∧ ∀ id, id ∈ job_ids h ↔ ∃ e, e ∈ h ∧ e_job e = id.
Proof.
  induction h as [|e h [Hn Hi]] using rev_ind; [split; [constructor|intros id; cbn; setoid_rewrite elem_of_nil; naive_solver]|]. rewrite job_ids_snoc. case_decide as He.
  - split; [done|]. intros id. rewrite Hi. setoid_rewrite elem_of_app. setoid_rewrite list_elem_of_singleton. apply Hi in He as (e' & ? & ?). split; [naive_solver|]. intros (x & [?| ->] & <-); [by exists x|by exists e'].
  - split; [apply NoDup_app; split_and!; [done| |apply NoDup_singleton]; intros x Hx ->%list_elem_of_singleton; done|].
    intros id. rewrite elem_of_app, list_elem_of_singleton, Hi. setoid_rewrite elem_of_app. setoid_rewrite list_elem_of_singleton. naive_solver.
Qed.
Lemma last_of_snoc id h e : last_of id (h ++ [e]) = if decide (e_job e = id) then Some e else last_of id h.
Proof.
  unfold last_of. rewrite List.filter_app. cbn [List.filter]. case_decide as He; [rewrite bool_decide_eq_true_2 by done; by rewrite last_snoc|]. rewrite bool_decide_eq_false_2 by done. by rewrite app_nil_r.
Qed.
Lemma last_of_some id h : id ∈ job_ids h → is_Some (last_of id h).
Proof.
  induction h as [|e h IH] using rev_ind; [by intros ?%elem_of_nil|]. rewrite last_of_snoc, job_ids_snoc. case_decide as Hin; intros Hid; [case_decide; [by eexists|by apply IH]|].
  apply elem_of_app in Hid as [Hid|Hid]; [case_decide; [by eexists|by apply IH]|]. apply list_elem_of_singleton in Hid as ->. rewrite decide_True by done. by eexists.
Qed.
Lemma last_of_in id h e : last_of id h = Some e → e ∈ h ∧ e_job e = id.
Proof.
  intros Hl. apply last_Some in Hl as [l Hl]. assert (In e (List.filter (λ e, bool_decide (e_job e = id)) h)) as [Hin Hid]%List.filter_In by (rewrite Hl; apply in_app_iff; right; by left).
  split; [by apply list_elem_of_In|by apply bool_decide_eq_true in Hid].
Qed.

(** The last records of a journal in which a success ends a job: the successes are the
    completed jobs. *)
Lemma last_ok h id e : ok_is_last h → last_of id h = Some e → is_ok e = bool_decide (id ∈ ok_jobs h).
Proof.
  intros Hh Hl. destruct (last_of_in _ _ _ Hl) as [Hin Hid]. apply eq_true_iff_eq. unfold is_ok. rewrite !bool_decide_eq_true, ok_jobs_elem. split; [intros Hok; by exists e|]. intros (e' & Hin' & Hok & Hid').
  apply list_elem_of_split in Hin' as (h1 & h2 & ->). assert (e = e') as ->; [|done].
  assert (Hno : ∀ x, x ∈ h2 → e_job x ≠ id) by (rewrite <-Hid'; by eapply Hh).
  unfold last_of in Hl. rewrite List.filter_app in Hl. cbn [List.filter] in Hl. rewrite bool_decide_eq_true_2 in Hl by done.
  assert (List.filter (λ e, bool_decide (e_job e = id)) h2 = []) as E2.
  { clear Hl Hh Hin. induction h2 as [|x h2 IH]; [done|]. cbn. rewrite bool_decide_eq_false_2 by (apply Hno; by left). apply IH. intros; apply Hno. by right. }
  rewrite E2, last_snoc in Hl. congruence.
Qed.
Definition count_ids (f : entry → bool) (h : list entry) : Z := Z.of_nat (length (List.filter (λ id, match last_of id h with Some e => f e | None => false end) (job_ids h))).

Section of_campaign.
Context (path_str : path → string) (wall : entry → pyfloat).

Definition status_name (s : job_status) : string := match s with SOk => "ok" | SFailed => "failed" | STimeout => "timeout" | SSkippedMemory => "skipped_memory" end.
(** The row a record of Campaign is written as, without its times. *)
Definition row_of_entry (e : entry) : pv :=
  PDict [(PStr "job_id", PStr (e_job e)); (PStr "attempt", PInt (e_attempt e)); (PStr "status", PStr (status_name (e_status e)));
         (PStr "exit_code", match e_exit e with Some z => PInt z | None => PNone end); (PStr "wall_seconds", PFloat (wall e)); (PStr "peak_mem_used_kb", PInt (e_peak e)); (PStr "run_dir", PStr (path_str (e_run_dir e)))].
Lemma row_job e : row_get (row_of_entry e) "job_id" = PStr (e_job e).
Proof. done. Qed.
Lemma row_ok e : ok_row (row_of_entry e) = is_ok e.
Proof. unfold ok_row, is_ok. cbn. by destruct (e_status e). Qed.

Definition last_rows (h : list entry) : pydict := omap (λ id, (λ e, (PStr id, row_of_entry e)) <$> last_of id h) (job_ids h).

(** A dict of rows by job. *)
Lemma dset_absent d k v : k ∉ d.*1 → Forall (λ x, ∃ s, x = PStr s) d.*1 → (∃ s, k = PStr s) → dset d k v = d ++ [(k, v)].
Proof.
  induction d as [|[x y] d IH]; intros Hk Hd [s ->]; [done|]. cbn in Hk, Hd. apply not_elem_of_cons in Hk as [Hx Hk]. apply Forall_cons in Hd as [[s' ->] Hd]. cbn [dset].
  assert (key_eq (PStr s') (PStr s) = false) as ->; [|rewrite IH; [done|done|done|by eexists]]. cbn. apply bool_decide_eq_false. congruence.
Qed.
Lemma dset_rows ids (f g : string → option entry) id e : NoDup ids → id ∈ ids → (∀ i, i ∈ ids → is_Some (f i)) → (∀ i, g i = if decide (i = id) then Some e else f i) →
  dset (omap (λ i, (λ e, (PStr i, row_of_entry e)) <$> f i) ids) (PStr id) (row_of_entry e) = omap (λ i, (λ e, (PStr i, row_of_entry e)) <$> g i) ids.
Proof.
  intros Hnd Hin Hf Hg. induction ids as [|i ids IH]; [by apply elem_of_nil in Hin|]. apply NoDup_cons in Hnd as [Hi Hnd]. destruct (Hf i ltac:(by left)) as [e0 E0]. cbn. rewrite E0, Hg. cbn.
  destruct (decide (i = id)) as [->|Hne].
  - rewrite bool_decide_eq_true_2 by done. cbn. f_equal. apply list_omap_ext. apply Forall2_same_length_lookup_2; [done|]. intros k x y Hx Hy. assert (x = y) as -> by congruence.
    rewrite Hg. rewrite decide_False; [done|]. intros ->. by apply list_elem_of_lookup_2 in Hx.
  - rewrite bool_decide_eq_false_2 by congruence. rewrite E0. cbn. f_equal. apply IH; [done| |intros; apply Hf; by right]. apply elem_of_cons in Hin as [|]; [congruence|done].
Qed.
Lemma last_rows_keys h : (last_rows h).*1 = PStr <$> job_ids h.
Proof.
  unfold last_rows. assert (Hs : ∀ i, i ∈ job_ids h → is_Some (last_of i h)) by (intros; by apply last_of_some). revert Hs. generalize (job_ids h) as ids. intros ids Hs.
  induction ids as [|i ids IH]; [done|]. destruct (Hs i ltac:(by left)) as [e E]. cbn. rewrite E. cbn. f_equal. apply IH. intros; apply Hs. by right.
Qed.
Lemma final_attempt_spec h : final_attempt_by_job (row_of_entry <$> h) = Ok (last_rows h).
Proof.
  unfold final_attempt_by_job. induction h as [|e h IH] using rev_ind; [done|]. rewrite fmap_app, foldM_app, IH. cbn [mbind res_bind fmap list_fmap foldM last_attempt].
  change (Ok (dset (last_rows h) (PStr (e_job e)) (row_of_entry e)) = Ok (last_rows (h ++ [e]))). f_equal. unfold last_rows at 2. rewrite job_ids_snoc. destruct (job_ids_spec h) as [Hnd _].
  assert (Hl : ∀ i, last_of i (h ++ [e]) = if decide (i = e_job e) then Some e else last_of i h) by (intros i; rewrite last_of_snoc; repeat case_decide; congruence).
  case_decide as He.
  - apply (dset_rows (job_ids h) (λ i, last_of i h) (λ i, last_of i (h ++ [e]))); [done..| |done]. intros i Hi. by apply last_of_some.
  - rewrite dset_absent; [| | |by eexists].
    + rewrite omap_app. cbn. rewrite Hl, decide_True by done. cbn. f_equal. apply list_omap_ext, Forall2_same_length_lookup_2; [done|]. intros k x y Hx Hy. assert (x = y) as -> by congruence. rewrite Hl, decide_False; [done|]. intros ->. by apply list_elem_of_lookup_2 in Hx.
    + rewrite last_rows_keys. intros (i & [= <-] & Hi)%list_elem_of_fmap. done.
    + rewrite last_rows_keys. apply Forall_forall. intros x (i & -> & _)%list_elem_of_fmap. by exists i.
Qed.
Lemma walls_add h s : (∃ f, s = PFloat f) ∨ s = PInt 0 → ∃ v, foldM (λ s row, py_add s (wall_or_zero row)) s (row_of_entry <$> h) = Ok v.
Proof.
  revert s. induction h as [|e h IH]; intros s Hs; [by exists s|]. cbn [fmap list_fmap foldM]. assert (∃ f, wall_or_zero (row_of_entry e) = PFloat f) as [f ->].
  { unfold wall_or_zero. change (row_get (row_of_entry e) "wall_seconds") with (PFloat (wall e)). destruct (truthy _); by eexists. }
  assert (∃ g, py_add s (PFloat f) = Ok (PFloat g)) as [g ->]; [|cbn [mbind res_bind]; apply IH; left; by eexists].
  destruct Hs as [[f' ->]| ->]; cbn; by eexists.
Qed.

Lemma counted_last (P : pv → bool) (f : entry → bool) h : (∀ e, P (row_of_entry e) = f e) → counted P (last_rows h).*2 = count_ids f h.
Proof.
  intros HP. unfold counted, count_ids, last_rows. f_equal. assert (Hs : ∀ i, i ∈ job_ids h → is_Some (last_of i h)) by (intros; by apply last_of_some). revert Hs. generalize (job_ids h) as ids. intros ids Hs.
  induction ids as [|i ids IH]; [done|]. destruct (Hs i ltac:(by left)) as [e E]. cbn. rewrite E. cbn. rewrite HP. specialize (IH ltac:(intros; apply Hs; by right)). destruct (f e); cbn; [by f_equal|done].
Qed.
End of_campaign.

(** The report counts the jobs of a campaign: each once, under its last record; the
    jobs counted as done are those a later invocation would not run again. *)
Lemma stats_of_campaign path_str wall h : ok_is_last h → ∃ st, campaign_stats (row_of_entry path_str wall <$> h) = Ok st ∧
  n_jobs st = Z.of_nat (size (list_to_set (e_job <$> h) : gset string)) ∧ n_ok st = Z.of_nat (size (ok_jobs h)) ∧ n_jobs st = n_ok st + n_failed st + n_skipped st ∧
  Z.of_nat (length (failed_or_skipped st)) = n_jobs st - n_ok st.
Proof.
  intros Hh. unfold campaign_stats. rewrite final_attempt_spec. cbn [mbind res_bind]. destruct (walls_add path_str wall h (PInt 0)) as [v ->]; [by right|]. cbn [mbind res_bind].
  set (rows := last_rows path_str wall h). destruct (job_ids_spec h) as [Hnd Hids]. eexists. split; [done|]. cbn [n_jobs n_ok n_failed n_skipped failed_or_skipped].
  assert (Hlen : length rows = length (job_ids h)) by (unfold rows; rewrite <-(length_fmap fst), last_rows_keys; apply length_fmap).
  assert (Hrest : ∀ (l : list pv), length (List.filter (λ r, negb (ok_row r)) l) = (length (List.filter (λ r, negb (ok_row r) && negb (skipped_row r)) l) + length (List.filter (λ r, negb (ok_row r) && skipped_row r) l))%nat).
  { induction l as [|r l IH]; [done|]. cbn. destruct (ok_row r), (skipped_row r); cbn; lia. }
  assert (Hsplit : ∀ (l : list pv), length l = (length (List.filter ok_row l) + length (List.filter (λ r, negb (ok_row r)) l))%nat) by (induction l as [|r l IH]; [done|]; cbn; destruct (ok_row r); cbn; lia).
  pose proof (Hsplit rows.*2) as Hs. rewrite length_fmap in Hs. pose proof (Hrest rows.*2) as Hr.
  split_and!; [| |unfold counted; lia|unfold counted; lia].
  - rewrite Hlen. f_equal. rewrite <-(size_list_to_set (C := gset string) (job_ids h)) by done. f_equal. apply set_eq. intros id. rewrite !elem_of_list_to_set, Hids, list_elem_of_fmap. naive_solver.
  - unfold rows. rewrite (counted_last _ _ ok_row is_ok) by apply row_ok. unfold count_ids. f_equal.
    assert (List.filter (λ id, match last_of id h with Some e => is_ok e | None => false end) (job_ids h) = List.filter (λ id, bool_decide (id ∈ ok_jobs h)) (job_ids h)) as ->.
    { apply filter_ext_in. intros id Hid%list_elem_of_In. destruct (last_of_some id h Hid) as [e E]. rewrite E. by apply last_ok. }
    rewrite <-(size_list_to_set (C := gset string)) by (apply NoDup_ListNoDup, List.NoDup_filter, NoDup_ListNoDup; done). f_equal. apply set_eq. intros id. rewrite elem_of_list_to_set, list_elem_of_In, List.filter_In, <-list_elem_of_In, bool_decide_eq_true, Hids, ok_jobs_elem. naive_solver.
Qed.

(** * The groups of the reproducibility figures *)

(** The jobs of the groups whose seed satisfies [P]. *)
Definition jobs_where (P : Z → bool) (groups : list (Z * list job)) : list job := List.filter (λ g, P g.1) groups ≫= snd.
Lemma jobs_where_append P seed j groups : jobs_where P (append_job seed j groups) ≡ₚ jobs_where P groups ++ (if P seed then [j] else []).
Proof.
  unfold jobs_where. induction groups as [|[s js] groups IH]; [cbn; by destruct (P seed)|]. cbn [append_job]. destruct (s =? seed) eqn:E.
  - apply Z.eqb_eq in E as ->. cbn. destruct (P seed); cbn; [|by rewrite app_nil_r]. rewrite <-!app_assoc. f_equiv. apply Permutation_app_comm.
  - cbn. destruct (P s); cbn; [rewrite <-app_assoc; by f_equiv|done].
Qed.
Lemma append_job_seeds seed j groups : NoDup groups.*1 → NoDup (append_job seed j groups).*1 ∧ ∀ s, s ∈ (append_job seed j groups).*1 ↔ s ∈ groups.*1 ∨ s = seed.
Proof.
  induction groups as [|[s js] groups IH]; intros Hnd; [cbn; split; [apply NoDup_singleton|]; intros s; rewrite list_elem_of_singleton, elem_of_nil; naive_solver|].
  rewrite fmap_cons in Hnd. apply NoDup_cons in Hnd as [Hs Hnd]. destruct (IH Hnd) as [IH1 IH2]. cbn [append_job]. destruct (s =? seed) eqn:E; rewrite fmap_cons; cbn [fst].
  - apply Z.eqb_eq in E as ->. split; [by apply NoDup_cons|]. intros x. rewrite fmap_cons, !elem_of_cons. cbn [fst]. naive_solver.
  - apply Z.eqb_neq in E. split; [apply NoDup_cons; split; [|done]; rewrite IH2; naive_solver|]. intros x. rewrite fmap_cons, !elem_of_cons, IH2. naive_solver.
Qed.
Lemma jobs_where_eq groups s js : NoDup groups.*1 → (s, js) ∈ groups → jobs_where (Z.eqb s) groups = js.
Proof.
  unfold jobs_where. induction groups as [|[s' js'] groups IH]; intros Hnd Hin; [by apply elem_of_nil in Hin|]. rewrite fmap_cons in Hnd. apply NoDup_cons in Hnd as [Hs Hnd]. cbn [List.filter fst]. destruct (s =? s') eqn:E.
  - apply Z.eqb_eq in E as ->. assert (js = js') as ->. { apply elem_of_cons in Hin as [[= ->]|Hin]; [done|]. exfalso. apply Hs. apply list_elem_of_fmap. by exists (s', js). }
    cbn. assert (List.filter (λ g, s' =? g.1) groups = []) as ->; [|by rewrite app_nil_r]. clear IH Hin Hnd. induction groups as [|[x y] groups IH]; [done|]. cbn in *. apply not_elem_of_cons in Hs as [Hx Hs]. apply Z.eqb_neq in Hx as ->. by apply IH.
  - apply Z.eqb_neq in E. apply elem_of_cons in Hin as [[= -> ->]|Hin]; [done|]. by apply IH.
Qed.

(** The jobs of the family with the seeds they ran with. *)
Definition seeded (jobs : list job) (ps : list (Z * job)) : Prop :=
  m1_jobs_by_seed jobs = Ok (foldl (λ gs p, append_job p.1 p.2 gs) [] ps) ∧
  ps.*2 = List.filter (λ j, negb (is_none (observed_seed j))) (contains_token "m1" jobs) ∧ Forall (λ p, py_int (observed_seed p.2) = Ok p.1) ps.
Lemma m1_seeded jobs groups : m1_jobs_by_seed jobs = Ok groups → ∃ ps, seeded jobs ps.
Proof.
  unfold seeded, m1_jobs_by_seed. intros E. rewrite E. revert E. generalize (contains_token "m1" jobs) as l. intros l. change (@nil (Z * list job)) with (foldl (λ gs (p : Z * job), append_job p.1 p.2 gs) [] []) at 1.
  enough (∀ l ps0 groups, foldM add_seeded (foldl (λ gs p, append_job p.1 p.2 gs) [] ps0) l = Ok groups → ∃ ps, groups = foldl (λ gs p, append_job p.1 p.2 gs) [] (ps0 ++ ps) ∧ ps.*2 = List.filter (λ j, negb (is_none (observed_seed j))) l ∧ Forall (λ p, py_int (observed_seed p.2) = Ok p.1) ps) as Hl.
  { intros E. destruct (Hl l [] groups E) as (ps & -> & ? & ?). exists ps. done. }
  clear. intros l. induction l as [|j l IH]; intros ps0 groups; cbn [foldM List.filter]; [intros [= <-]; exists []; rewrite app_nil_r; split_and!; [done|done|constructor]|]. set (gs := foldl _ _ ps0).
  assert (add_seeded gs j = if is_none (observed_seed j) then Ok gs else seed ← py_int (observed_seed j); Ok (append_job seed j gs)) as -> by done.
  destruct (is_none (observed_seed j)) eqn:En; cbn [negb mbind res_bind]; [apply IH|].
  destruct (py_int (observed_seed j)) as [z|e|] eqn:Ez; cbn [mbind res_bind]; [|done..]. intros E. destruct (IH (ps0 ++ [(z, j)]) groups) as (ps & -> & H1 & H2); [by rewrite foldl_snoc|].
  exists ((z, j) :: ps). rewrite <-app_assoc. cbn [app]. split; [done|]. split; [cbn; by rewrite H1|by constructor].
Qed.
Lemma largest_spec groups : ∀ g, largest g groups ∈ g :: groups ∧ ∀ x, x ∈ g :: groups → (length x.2 ≤ length (largest g groups).2)%nat.
Proof.
  unfold largest. induction groups as [|y groups IH]; intros g; [cbn; split; [by left|]; by intros x ->%list_elem_of_singleton|]. cbn [foldl]. set (b := if (length g.2 <? length y.2)%nat then y else g).
  destruct (IH b) as [Hin Hmax]. assert (Hb : (b = y ∨ b = g) ∧ (length g.2 ≤ length b.2)%nat ∧ (length y.2 ≤ length b.2)%nat) by (unfold b; destruct (length g.2 <? length y.2)%nat eqn:E; [apply Nat.ltb_lt in E|apply Nat.ltb_ge in E]; split_and!; auto; lia).
  destruct Hb as (Hb & Hg & Hy). pose proof (Hmax b ltac:(by left)) as Hmb. split.
  - apply elem_of_cons in Hin as [->|Hin]; [destruct Hb as [-> | ->]; [right; by left|by left]|by do 2 right].
  - intros x [->|[->|Hx]%elem_of_cons]%elem_of_cons; [lia|lia|]. apply Hmax. by right.
Qed.

(** The two groups of the figures: the jobs of one seed that no other seed outnumbers,
    and all jobs of the other seeds. *)
Lemma m1_groups_spec jobs ps : seeded jobs ps → ∃ same distinct, m1_groups jobs = Ok (same, distinct) ∧
  (ps = [] → same = [] ∧ distinct = []) ∧
  (ps ≠ [] → ∃ s, same ≡ₚ (List.filter (λ p, s =? p.1) ps).*2 ∧ same ≠ [] ∧ distinct ≡ₚ (List.filter (λ p, negb (s =? p.1)) ps).*2 ∧
    ∀ s', (length (List.filter (λ p, Z.eqb s' p.1) ps) ≤ length same)%nat).
Proof.
  intros (E & _ & _). unfold m1_groups. rewrite E. cbn [mbind res_bind]. set (groups := foldl _ [] ps).
  assert (Hg : NoDup groups.*1 ∧ (∀ s, s ∈ groups.*1 ↔ s ∈ ps.*1) ∧ ∀ P, jobs_where P groups ≡ₚ (List.filter (λ p, P p.1) ps).*2).
  { unfold groups. clear. induction ps as [|p ps (H1 & H2 & H3)] using rev_ind; [split_and!; [constructor|done|done]|]. rewrite foldl_snoc. destruct (append_job_seeds p.1 p.2 _ H1) as [H4 H5]. split_and!; [done| |].
    - intros s. rewrite H5, H2, fmap_app, elem_of_app. cbn. by rewrite list_elem_of_singleton.
    - intros P. rewrite jobs_where_append, H3, List.filter_app, fmap_app. cbn. by destruct (P p.1). }
  destruct Hg as (Hnd & Hseeds & Hw). destruct groups as [|g gs] eqn:Eg.
  { exists [], []. split; [done|]. split; [done|]. intros Hne. exfalso. destruct ps as [|p ps]; [done|]. assert (p.1 ∈ @nil Z) as Hn by (apply Hseeds; by left). by apply elem_of_nil in Hn. }
  destruct (largest_spec gs g) as [Hin Hmax]. set (same := largest g gs) in *. exists same.2, (List.filter (λ x, negb (x.1 =? same.1)) (g :: gs) ≫= snd). split; [done|]. split.
  { intros ->. exfalso. assert (g.1 ∈ @nil Z) as Hn by (apply Hseeds; by left). by apply elem_of_nil in Hn. }
  intros _. exists same.1. assert (Hs : same.2 ≡ₚ (List.filter (λ p, same.1 =? p.1) ps).*2) by (rewrite <-(Hw (Z.eqb same.1)), (jobs_where_eq _ same.1 same.2 Hnd) by (by destruct same); done).
  split_and!; [done| | |].
  - intros Hnil. rewrite Hnil in Hs. assert (same.1 ∈ ps.*1) as (p & Ep & Hp)%list_elem_of_fmap by (apply Hseeds, list_elem_of_fmap; by exists same).
    apply Permutation_nil_l in Hs. symmetry in Hs. apply fmap_nil_inv in Hs. assert (In p (List.filter (λ p, same.1 =? p.1) ps)) as Hf; [|by rewrite Hs in Hf]. apply List.filter_In. split; [by apply list_elem_of_In|]. apply Z.eqb_eq. done.
  - rewrite <-(Hw (λ s, negb (same.1 =? s))). unfold jobs_where. assert (List.filter (λ x, negb (x.1 =? same.1)) (g :: gs) = List.filter (λ x, negb (same.1 =? x.1)) (g :: gs)) as ->; [|done]. apply filter_ext. intros x. by rewrite Z.eqb_sym.
  - intros s'. destruct (decide (s' ∈ ps.*1)) as [Hs'|Hs'].
    + apply Hseeds, list_elem_of_fmap in Hs' as ([s js] & -> & Hx). cbn [fst]. rewrite <-(length_fmap snd), <-(Hw (Z.eqb s)), (jobs_where_eq _ s js Hnd Hx). apply (Hmax (s, js) Hx).
    + assert (List.filter (λ p, s' =? p.1) ps = []) as ->; [|cbn; lia]. clear -Hs'. induction ps as [|p ps IH]; [done|]. cbn in *. apply not_elem_of_cons in Hs' as [Hp Hs']. apply Z.eqb_neq in Hp as ->. by apply IH.
Qed.

(** * Agreements, rates and windows *)

Lemma count_true_cons b l : count_true (b :: l) = Z.b2z b + count_true l.
Proof. unfold count_true. cbn [List.filter id]. destruct b; cbn [length Z.b2z]; lia. Qed.
Lemma count_true_bounds l : 0 ≤ count_true l ≤ Z.of_nat (length l).
Proof. induction l as [|b l IH]; [done|]. rewrite count_true_cons. cbn [length]. destruct b; cbn [Z.b2z]; lia. Qed.
Lemma count_eqb l m : count_true ((λ s, eqb s m) <$> l) = if m then count_true l else Z.of_nat (length l) - count_true l.
Proof.
  induction l as [|b l IH]; [by destruct m|]. rewrite fmap_cons, !count_true_cons, IH. cbn [length]. destruct b, m; cbn; lia.
Qed.
Lemma count_true_all l : count_true l = Z.of_nat (length l) ↔ Forall (λ b, b = true) l.
Proof.
  induction l as [|b l IH]; [done|]. rewrite count_true_cons, Forall_cons, <-IH. cbn [length]. pose proof (count_true_bounds l). destruct b; cbn [Z.b2z]; split; [intros; split; [done|lia]|intros [_ ?]; lia|intros; lia|by intros [? _]].
Qed.
(** The agreement on an operation is that of the larger side: at least half of the
    runs, and all of them exactly when the runs are unanimous. *)
Lemma agreement_spec seqs i k n : agreement seqs !! i = Some (k, n) → n = Z.of_nat (length seqs) ∧
  ∃ ok, ok = count_true ((λ s : list pydict, match s !! i with Some r => eval_success r | None => false end) <$> seqs) ∧
    0 ≤ ok ≤ n ∧ k = Z.max ok (n - ok) ∧ n ≤ 2 * k ∧ (k = n ↔ ok = 0 ∨ ok = n).
Proof.
  unfold agreement. rewrite list_lookup_fmap. intros (j & Hi & E)%fmap_Some. apply lookup_seq in Hi as [-> _]. unfold agreement_at in E. cbn [Nat.add] in E. set (l := (λ s : list pydict, _) <$> seqs) in *.
  injection E as Ek En. rewrite count_eqb in Ek. pose proof (count_true_bounds l). assert (Hl : length l = length seqs) by apply length_fmap. split; [by rewrite En, Hl|]. exists (count_true l). split; [done|].
  rewrite <-En in *. destruct (n <=? 2 * count_true l) eqn:E2; [apply Z.leb_le in E2|apply Z.leb_gt in E2]; subst k; split_and!; lia.
Qed.

(** The evaluated gets of a family fall into one cell each. *)
Lemma tally_app a b : tally (a ++ b) = ((tally a).1 + (tally b).1, (tally a).2 + (tally b).2).
Proof. unfold tally. rewrite fmap_app, length_app. cbn. f_equal; [|lia]. unfold count_true. rewrite List.filter_app, length_app. lia. Qed.
Lemma tally_bounds rs : 0 ≤ (tally rs).1 ≤ (tally rs).2.
Proof. unfold tally. cbn. pose proof (count_true_bounds (eval_success <$> rs)) as H. rewrite length_fmap in H. done. Qed.
Definition plus2 (a b : Z * Z) : Z * Z := (a.1 + b.1, a.2 + b.2).
Lemma tally_split (P : pydict → bool) rs : tally rs = plus2 (tally (List.filter P rs)) (tally (List.filter (λ r, negb (P r)) rs)).
Proof.
  induction rs as [|r rs IH]; [done|]. rewrite (tally_app [r] rs : tally (r :: rs) = _), IH. unfold plus2. cbn [List.filter]. destruct (P r); cbn [negb]; rewrite (tally_app [r] (List.filter _ rs) : tally (r :: _) = _); cbn; f_equal; lia.
Qed.
Lemma filter_filter_andb {A} (P Q : A → bool) l : List.filter P (List.filter Q l) = List.filter (λ x, Q x && P x) l.
Proof. induction l as [|x l IH]; [done|]. cbn. destruct (Q x); cbn; [destruct (P x); by rewrite IH|done]. Qed.
Lemma m5a_cells jobs : family_tally ["get"] jobs =
  plus2 (plus2 (m5a_cell jobs true true) (m5a_cell jobs true false)) (plus2 (m5a_cell jobs false true) (m5a_cell jobs false false)).
Proof.
  unfold family_tally, m5a_cell. induction jobs as [|j jobs IH]; [done|]. cbn [mbind list_bind List.filter]. rewrite tally_app. set (all := tally (jobs ≫= _)) in *. rewrite IH. clear all IH.
  assert (Hj : tally (List.filter (eval_ops ["get"]) (j_results j)) = plus2 (tally (List.filter (λ r, eval_ops ["get"] r && eqb (truthy (get_none r "publisher_down")) true) (j_results j))) (tally (List.filter (λ r, eval_ops ["get"] r && eqb (truthy (get_none r "publisher_down")) false) (j_results j)))).
  { rewrite (tally_split (λ r, truthy (get_none r "publisher_down"))), !filter_filter_andb. f_equal; f_equal; apply filter_ext; intros r; f_equal; by destruct (truthy _). }
  rewrite Hj. clear Hj. destruct (with_cache j); cbn [eqb List.filter mbind list_bind]; rewrite !tally_app; unfold plus2; cbn [fst snd]; f_equal; lia.
Qed.

(** An outage is open exactly when the last host event was a host going down; the
    windows are built from the times of the events, in their order. *)
Section outages.
Context {T : Type}.
Lemma open_spec (events : list (T * bool)) : is_Some (foldl window_step ([], None) events).2 ↔ ∃ t, last events = Some (t, true).
Proof.
  induction events as [|[t d] events IH] using rev_ind; [split; [by intros [? ?]|by intros (? & ?)]|]. rewrite foldl_snoc, last_snoc. set (st := foldl _ _ events) in *. unfold window_step. cbn [fst snd].
  destruct d, (st.2) as [o|] eqn:Es; cbn [snd]; rewrite ?Es; (split; [intros [? ?]|intros (? & ?)]); simplify_eq; eauto.
Qed.
Definition flat (ws : list (T * T)) : list T := ws ≫= λ w, [w.1; w.2].
Lemma windows_sublist last_get (events : list (T * bool)) : ∃ ws, windows last_get events = ws ++ (match (foldl window_step ([], None) events).2 with Some o => [(o, last_get)] | None => [] end) ∧
  flat ws ++ option_list (foldl window_step ([], None) events).2 `sublist_of` events.*1.
Proof.
  unfold windows. exists (foldl window_step ([], None) events).1. split; [destruct (foldl window_step ([], None) events) as [ws [o|]]; cbn; [done|by rewrite app_nil_r]|].
  induction events as [|[t d] events IH] using rev_ind; [done|]. rewrite foldl_snoc, fmap_app. set (st := foldl _ _ events) in *. unfold window_step. cbn [fst snd fmap list_fmap].
  destruct d, st as [ws [o|]]; cbn [fst snd option_list] in *.
  - by apply sublist_inserts_r.
  - apply sublist_app; [|done]. by rewrite app_nil_r in IH.
  - unfold flat. rewrite bind_app. cbn. rewrite app_nil_r. change [o; t] with ([o] ++ [t]). rewrite app_assoc. by apply sublist_app.
  - by apply sublist_inserts_r.
Qed.
End outages.

Example two_outages : windows 9 [(1, true); (2, true); (4, false); (5, false); (7, true)] = [(1, 4); (7, 9)].
Proof. reflexivity. Qed.
Example families : numbered "m2_linear_r" "m2_linear_r12" = true ∧ numbered "m2_linear_r" "m2_linear_r" = false ∧ bool_decide ("m1" ∈ split underscore "smoke_m1") = true ∧ bool_decide ("m1" ∈ split underscore "m10_x") = false.
Proof. vm_compute. done. Qed.

(** * The jobs of a campaign on disk *)

Section on_disk.
Context (path_str : path → string) (wall : entry → pyfloat).

Lemma dget_last_rows id h : dget (last_rows path_str wall h) id = row_of_entry path_str wall <$> last_of id h.
Proof.
  unfold last_rows. destruct (job_ids_spec h) as [Hnd Hids]. assert (Hno : id ∉ job_ids h → last_of id h = None).
  { intros Hn. destruct (last_of id h) as [e|] eqn:E; [|done]. exfalso. apply Hn, Hids. destruct (last_of_in _ _ _ E). by exists e. }
  assert (Hs : ∀ i, i ∈ job_ids h → is_Some (last_of i h)) by (intros; by apply last_of_some). revert Hno Hs. clear Hnd Hids. generalize (job_ids h) as ids. intros ids Hno Hs.
  induction ids as [|i ids IH]; [rewrite Hno; [done|by intros ?%elem_of_nil]|]. destruct (Hs i ltac:(by left)) as [e E]. cbn. rewrite E. cbn. destruct (decide (i = id)) as [->|Hne].
  - rewrite bool_decide_eq_true_2 by done. by rewrite E.
  - rewrite bool_decide_eq_false_2 by congruence. apply IH; [|intros; apply Hs; by right]. intros Hn. apply Hno. by rewrite not_elem_of_cons.
Qed.
(** The figures call a job done exactly when a later invocation of the campaign would
    skip it. *)
Lemma discover_done d h jobs : ok_is_last h → journal d = (JsonLine ∘ row_of_entry path_str wall) <$> h → discover_jobs d = Ok jobs →
  j_id <$> jobs = job_dirs d ∧ ∀ j, j ∈ jobs → (j_status j = PStr "ok" ↔ j_id j ∈ ok_jobs h).
Proof.
  intros Hh Hj Hd. unfold discover_jobs in Hd. assert (Er : read_jsonl (journal d) = row_of_entry path_str wall <$> h).
  { rewrite Hj. unfold read_jsonl. clear. induction h as [|e h IH]; [done|]. cbn. by f_equal. }
  rewrite Er, final_attempt_spec in Hd. cbn [mbind res_bind] in Hd. apply res_bind_Ok in Hd as (index & _ & Hd). apply mapR_Ok in Hd. split.
  - clear -Hd. induction Hd as [|name j names jobs Hj _ IH]; [done|]. cbn. rewrite IH. f_equal. unfold discover_job in Hj. by apply res_bind_Ok in Hj as (? & _ & [= <-]).
  - intros j Hin. apply list_elem_of_lookup in Hin as [i Hi]. destruct (Forall2_lookup_r _ _ _ _ _ Hd Hi) as (name & _ & E). unfold discover_job in E. apply res_bind_Ok in E as (rd & _ & [= <-]). cbn [j_status j_id].
    rewrite dget_last_rows. destruct (last_of name h) as [e|] eqn:El.
    + pose proof (last_ok h name e Hh El) as Hok. change (get_none (as_record (row_of_entry path_str wall <$> Some e)) "status") with (PStr (status_name (e_status e))).
      unfold is_ok in Hok. destruct (decide (name ∈ ok_jobs h)) as [Hin|Hin]; [rewrite (bool_decide_eq_true_2 _ Hin) in Hok; apply bool_decide_eq_true in Hok; rewrite Hok; done|].
      rewrite (bool_decide_eq_false_2 _ Hin) in Hok. apply bool_decide_eq_false in Hok. split; [|done]. intros [= Hn]. exfalso. apply Hok. by destruct (e_status e).
    + split; [done|]. intros (e & He & _ & Hid)%ok_jobs_elem. exfalso. destruct (last_of_some name h) as [e' E']; [|congruence]. apply job_ids_spec. by exists e.
Qed.
End on_disk.

(** After any invocations of a campaign that left no torn line, the report counts
    every job that was attempted once, and as done those that a next invocation
    skips. *)
Lemma report_of_campaign `{FloatRepr} path_str wall root py out_root clean_between jobs ids mcs : Forall2 (λ job id, job_id job = Ok id) jobs ids → NoDup ids →
  let f := journal_after path_str root py out_root clean_between jobs mcs in ¬ torn f →
  ∃ h st, lines_of f = Whole <$> h ∧ load_completed_job_ids (Whole <$> h) = Ok (ok_jobs h) ∧
    campaign_stats (row_of_entry path_str wall <$> h) = Ok st ∧ n_ok st = Z.of_nat (size (ok_jobs h)) ∧ n_jobs st = n_ok st + n_failed st + n_skipped st ∧ n_jobs st ≤ Z.of_nat (length ids).
Proof.
  intros Hids Hnd f Hf. destruct (journal_after_spec path_str root py out_root clean_between jobs ids mcs Hids Hnd) as [(h & Hr & Hh & Hin & _)|[? _]]; [|done].
  pose proof (readable_lines _ _ Hr) as E. destruct (stats_of_campaign path_str wall h Hh) as (st & Est & Hn & Hok & Hsum & _).
  exists h, st. split_and!; [done|apply load_whole|done..|]. rewrite Hn. rewrite <-(size_list_to_set (C := gset string) ids Hnd). apply inj_le, subseteq_size. intros id. rewrite !elem_of_list_to_set, list_elem_of_fmap. intros (e & -> & He). by apply Hin.
Qed.
