(* ===== verification/ScenarioSpecs.v ===== *)
(** Component: what the scenarios pass to the shared recipes (src/scenarios/*.py, the
    constructors, configure and teardown; src/scenarios/base.py, the stages around
    them; src/runtime/scenario_setup.py, the specs): which placement, readiness policy,
    routes and bridges a scenario asks for, the streams while its CLI is open, where
    its debug artifacts go, and the locks of its hosts. *)
From S2P Require Import Prelude PyValue PyText PyNum StateMonad Topology Addressing Artifacts BridgeArgs LinkControl Topo CachePlan Scenarios Provision ContentOps CommandRunner Daemons Monitor Dashboard Lifecycle Bootstrap.
Local Open Scope Z_scope.

(** * Arguments *)

(** The attributes of the merged namespace a scenario reads, as the option table types
    them; one that may be missing is an option, a missing or empty dict is empty. *)
Record run_args := mkArgs {
  a_hosts : Z; a_switches : Z; a_node_per_switch : Z; a_host_degree_min : Z; a_host_degree_max : Z; a_switch_use_all : bool;
  a_k : Z; a_seed : option Z; a_num : option Z; a_cache_count : Z; a_down_count : Z;
  a_bw : option (list string); a_ext : option (list string); a_bridges : list pydict; a_bridge : option (list string);
  a_topo_png : option path; a_topo_layout : string; a_no_cli : bool; a_results_json : option path;
  a_cefnetd_timeout : option Z; a_routing : pydict; a_cache_config : pydict; a_rct_ms : pv;
  a_links : option (list (list Z)); a_prefix_routes : pydict; a_forwarding : option pydict; a_webui_port : option Z;
  a_sub_startup_grace : pyfloat;
}.

(** [x or None] of a dict, and [x or default] of a number. *)
Definition or_none (d : pydict) : option pydict := match d with [] => None | _ => Some d end.
Definition or_default (z : option Z) (default_ : Z) : Z := match z with Some z => if z =? 0 then default_ else z | None => default_ end.
Definition cefnetd_timeout (a : run_args) : Z := or_default (a_cefnetd_timeout a) 10.

(** * Specs *)

Record ScenarioSetupSpec := mkSetup {
  sp_host_count : Z; sp_publisher_ids : gset Z; sp_cache_strategy : CacheStrategy; sp_run_dir : path; sp_fib_k : pv;
  sp_bridge_manager : bool; sp_bridge_configs : list pydict; sp_bw_args : option (list string); sp_ext_args : option (list string);
  sp_png : option path; sp_topo_seed : option Z; sp_topo_layout : string;
  sp_cefnetd_timeout : Z; sp_readiness : string; sp_fib_strategy : pv;
  sp_uri_publishers : option pydict; sp_prefix_routes : option pydict; sp_forwarding : option pydict;
}.
Record TeardownSpec := mkTeardown {
  td_host_count : Z; td_csmgrd : gset Z; td_run_dir : path; td_cefnetd_timeout : Z; td_readiness : string;
  td_bridge_manager : bool; td_external_bridges : bool;
}.

(** What [ConfigDrivenMeshScenario] keeps: its attributes after the constructor and,
    the last one, after [configure]. *)
Record mesh_state := mkMesh { m_run_dir : path; m_collect_logs : bool; m_bridges : list pydict; m_publishers : gset Z; m_uri_publishers : pydict; m_cache_nodes : gset Z }.

Section specs.
Context (resolve : path → path) (path_str : path → string).

(** [ConfigDrivenMeshScenario.__init__]; the directory is created before the bridges
    are parsed. *)
Definition collects_logs (run_dir : option path) : bool := match run_dir with Some d => negb (bool_decide (d = here)) | None => false end.
Definition mesh_run_dir (run_dir : option path) : path := resolve (default (pure_path "logs") run_dir).
Definition mesh_bridges (a : run_args) : res (list pydict) := match a_bridges a with [] => parse_bridge_args (a_bridge a) | l => Ok l end.
Definition ConfigDrivenMeshScenario_init (a : run_args) (run_dir : option path) : path * res mesh_state :=
  let d := mesh_run_dir run_dir in
  (d, bridges ← mesh_bridges a; Ok (mkMesh d (collects_logs run_dir) bridges ∅ [] ∅)).

(** [build_topology]. *)
Definition mesh_build_spec (a : run_args) (publishers : gset Z) : MeshBuildSpec :=
  mkSpec (a_hosts a) (a_switches a) (a_node_per_switch a) (a_host_degree_min a) (a_host_degree_max a) (a_switch_use_all a) publishers (a_links a).

(** [MeshScenario.build_topology] and [LinearScenario.build_topology]; their run
    directory is the current one unless given. *)
Definition plain_run_dir (run_dir : option path) : path := default here run_dir.
Definition plain_build_spec (host_num switches node_per_switch host_degree_min host_degree_max : Z) (switch_use_all : bool) : MeshBuildSpec :=
  mkSpec host_num switches node_per_switch host_degree_min host_degree_max switch_use_all ∅ None.
Definition linear_build `{Rng} (choose : ∀ A : Type, A → list A → rng → A * rng) (templates : gmap string (gmap string string)) (host_num : Z) (r : rng) : M Provision.world (list (Z * NodeRole) * list Z * Scenarios.topology) :=
  let '(roles, _) := assign_roles (H := rng_choice choose) host_num r ∅ in
  node_dirs ← provision_node_dirs templates roles;
  mret (roles, node_dirs, Scenarios.LineTopo host_num).

(** [_artifact_path] of the picture, and [_resolve_results_path]. *)
Definition topo_png_path (a : run_args) (run_dir : path) : res path :=
  resolve_run_path resolve path_str run_dir (a_topo_png a) (Some (pure_path (topo_png_default_name (a_num a) (str_Z <$> a_seed a) (a_hosts a)))).
Definition resolve_results_path (a : run_args) (run_dir : path) : res (option path) :=
  match a_results_json a with
  | None => Ok None
  | Some raw => p ← resolve_run_path resolve path_str run_dir (Some raw) (Some (pure_path "results.json")); Ok (Some p)
  end.

(** [ConnectScenario.__init__]: the events it publishes and what it warns of. *)
Definition int_set (vs : list pv) : gset Z := list_to_set (omap (λ v, match v with PInt z => Some z | _ => None end) vs).
Definition with_publishers (include_conditional : bool) (events : list pydict) (m : mesh_state) : res (list pydict * mesh_state) :=
  '(publications, uri_publishers, ids) ← Events.extract_publications events include_conditional;
  Ok (publications, mkMesh (m_run_dir m) (m_collect_logs m) (m_bridges m) (int_set ids) uri_publishers (m_cache_nodes m)).
Definition ignored_warning (events : list pydict) : list string :=
  if existsb (λ ev, in_strs (get_none ev "type") ["get"; "pubsub_sub"; "ccninfo"]) events
  then ["[warning] ceforeemu-connect does not execute get/pubsub_sub/ccninfo events; use disaster or interactive commands for retrieval"] else [].
Definition ConnectScenario_init (a : run_args) (run_dir : option path) (events : list pydict) : path * res (mesh_state * list pydict * list string) :=
  let '(d, m) := ConfigDrivenMeshScenario_init a run_dir in
  (d, m ← m; '(publications, m) ← with_publishers false events m; Ok (m, publications, ignored_warning events)).
(** [DisasterScenario.__init__]: the results path and whether this is an automatic
    test, which has no bridges and no external interfaces. *)
Definition DisasterScenario_init (a : run_args) (run_dir : option path) (events : list pydict) : path * res (mesh_state * option path * bool) :=
  let '(d, m) := ConfigDrivenMeshScenario_init a run_dir in
  (d, m ← m;
      results ← resolve_results_path a (m_run_dir m);
      let autotest := a_no_cli a && bool_decide (is_Some results) in
      if autotest && (bool_decide (default [] (a_ext a) ≠ []) || bool_decide (m_bridges m ≠ [])) then raise ESystemExit "autotest mode forbids ext/bridge configuration"
      else '(_, m) ← with_publishers true events m; Ok (m, results, autotest)).

(** [_build_cache_strategy]. *)
Definition build_cache_strategy (a : run_args) : CacheStrategy :=
  if eq_str (get_or (a_cache_config a) "strategy" (PStr "k_centers")) "random" then RandomCSModeStrategy
  else KCentersStrategy (a_cache_config a) (a_cache_count a) (a_down_count a) true (a_rct_ms a).

(** The specs of [configure]: the disaster scenario, the connect scenario and the mesh
    scenario, which has only a role for each host. *)
Definition disaster_spec (a : run_args) (m : mesh_state) : res ScenarioSetupSpec :=
  png ← topo_png_path a (m_run_dir m);
  Ok (mkSetup (a_hosts a) (m_publishers m) (build_cache_strategy a) (m_run_dir m) (get_or (a_routing a) "k" (PInt (a_k a)))
        true (m_bridges m) (a_bw a) (a_ext a) (Some png) (a_seed a) (a_topo_layout a)
        (cefnetd_timeout a) "raise" (get_or (a_routing a) "strategy" (PStr "dijkstra"))
        (or_none (m_uri_publishers m)) (or_none (a_prefix_routes a)) (a_forwarding a)).
Definition connect_spec (a : run_args) (m : mesh_state) : res ScenarioSetupSpec :=
  png ← topo_png_path a (m_run_dir m);
  Ok (mkSetup (a_hosts a) (m_publishers m) (KCentersStrategy [] (a_cache_count a) (a_down_count a) false PNone) (m_run_dir m) (PInt (a_k a))
        true (m_bridges m) (a_bw a) (a_ext a) (Some png) (a_seed a) (a_topo_layout a)
        10 "warn" (PStr "dijkstra") (or_none (m_uri_publishers m)) None (a_forwarding a)).
Definition mesh_spec (host_num k_paths : Z) (seed : option Z) (run_dir : path) (topo_png : option path) (layout : string) (roles : list (Z * NodeRole)) : ScenarioSetupSpec :=
  mkSetup host_num ∅ (RolesCacheStrategy roles) run_dir (PInt k_paths) false [] None None
    ((λ p, path_join run_dir (mkPath false (option_list (last (parts p))))) <$> topo_png) seed layout 10 "warn" (PStr "dijkstra") None None None.

(** The specs of [teardown]. *)
Definition disaster_teardown (a : run_args) (m : mesh_state) : TeardownSpec :=
  mkTeardown (a_hosts a) (m_cache_nodes m) (m_run_dir m) (cefnetd_timeout a) "raise" true true.
Definition connect_teardown (a : run_args) (m : mesh_state) : TeardownSpec :=
  mkTeardown (a_hosts a) (m_cache_nodes m) (m_run_dir m) 10 "warn" true false.
(** [MeshScenario.teardown], and [LinearScenario.teardown]. *)
Definition plain_teardown (host_num : Z) (csmgrd : gset Z) (run_dir : path) : TeardownSpec := mkTeardown host_num csmgrd run_dir 10 "warn" false false.
End specs.

(** * The recipes' view of a spec *)

(** The scenario the recipes of [Lifecycle] are run with: what the strategy places is
    known after [place]. *)
Definition life (s : ScenarioSetupSpec) (t : TeardownSpec) (placed : gset Z) (hosts : list string) (collect_logs : bool) : scenario :=
  mkScenario (sp_host_count s) placed (td_csmgrd t) (sp_readiness s)
    (match sp_bridge_configs s with [] => false | _ => true end) (sp_bridge_manager s) (td_external_bridges t) hosts collect_logs.

(** ** Bandwidth and external interfaces *)

(** [_apply_bw_ext]: the calls made before the first failure. *)
Inductive tune := Bandwidth (calls : list (net_link * pyfloat)) | Attach (e : ext_entry).
Fixpoint apply_bws (n : LinkControl.net) (l : list (string * string * pyfloat)) : list tune * option exn :=
  match l with
  | [] => ([], None)
  | (a, b, bw) :: l =>
      match set_link_bandwidth n (Some a) (Some b) bw with
      | Ok calls => let '(ts, e) := apply_bws n l in (Bandwidth calls :: ts, e)
      | Raise e => ([], Some e)
      | NoFuel => ([], Some (Exn EOther ""))
      end
  end.
Fixpoint attach_all (attach : ext_entry → option exn) (l : list ext_entry) : list tune * option exn :=
  match l with
  | [] => ([], None)
  | x :: l => match attach x with Some e => ([Attach x], Some e) | None => let '(ts, e) := attach_all attach l in (Attach x :: ts, e) end
  end.
Definition failed {A} (r : res A) : option exn := match r with Ok _ => None | Raise e => Some e | NoFuel => Some (Exn EOther "") end.
Definition apply_bw_ext (n : LinkControl.net) (attach : ext_entry → option exn) (s : ScenarioSetupSpec) : list tune * option exn :=
  match parse_bw_args (sp_bw_args s) with
  | Ok bws =>
      match apply_bws n bws with
      | (ts, Some e) => (ts, Some e)
      | (ts, None) =>
          match parse_ext_args (sp_ext_args s) with
          | Ok exts => let '(ts', e) := attach_all attach exts in (ts ++ ts', e)
          | r => (ts, failed r)
          end
      end
  | r => ([], failed r)
  end.

(** ** The line *)

Section linear.
Context (reply : list (op * answer) → op → answer) (host_num : Z) (csmgrd : gset Z).

(** [LinearScenario.configure]: unlike the recipe it keeps the fleet before starting
    it; and [teardown], which finds that fleet with what it has started. *)
Definition linear_configure : Prog world () :=
  do reply (Setup "set_ip_addr") ≫= λ _,
  do reply (Setup "ifconfig") ≫= λ _,
  fleet ← Lifecycle.build_fleet host_num csmgrd "warn";
  set_fleet fleet ≫= λ _,
  Lifecycle.start_all reply fleet ≫= λ _,
  Lifecycle.wait_ready reply fleet ≫= λ _,
  do reply (Setup "set_fib").
Definition kept_fleet (f : DaemonFleet) (started : gset Z) : DaemonFleet := mkFleet (node_names f) (csmgrd_nodes f) (readiness_policy f) started.
Definition linear_teardown : Prog world () :=
  known ← ask daemon_fleet;
  s ← ask started;
  fleet ← match known with Some f => mret (kept_fleet f s) | None => Lifecycle.build_fleet host_num csmgrd "warn" end;
  fs ← Lifecycle.stop_all reply fleet;
  match fs with [] => mret () | _ => propagate_failures None fs end.
End linear.

(** [_log_ifconfig]: what is printed. *)
Definition log_ifconfig (run_ifconfig : Z → CommandResult) (host_count : Z) : list string := (λ i, CommandRunner.stdout (run_ifconfig i)) <$> range host_count.

(** ** The foreground stage *)

(** What a CLI session sees: where output goes and whether the monitor is quiet. *)
Record foreground := mkForeground { f_streams : streams; f_background : bool; f_sessions : list (streams * bool) }.
Notation F := (M foreground).
Definition set_f_streams (s : streams) : F () := λ w, (mkForeground s (f_background w) (f_sessions w), inl ()).
Definition enter_background (monitor : bool) : F () := λ w, (mkForeground (f_streams w) (monitor || f_background w) (f_sessions w), inl ()).
Definition before_cli (ctx : option log_context) : F () := match ctx with Some c => set_f_streams (original c) | None => mret () end.
Definition after_cli (ctx : option log_context) : F () := match ctx with Some c => set_f_streams (teed c) | None => mret () end.
Definition run_cli (cli : option exn) : F () := λ w,
  (mkForeground (f_streams w) (f_background w) (f_sessions w ++ [(f_streams w, f_background w)]), match cli with Some e => inr e | None => inl () end).
Definition disaster_before_cli (ctx : option log_context) (monitor : bool) : F () := enter_background monitor ≫= λ _, before_cli ctx.
(** [run_main] with [should_run_cli] and the hooks of a scenario. *)
Definition should_run_cli (a : run_args) : bool := negb (a_no_cli a).
Definition run_main (should : bool) (before after : F ()) (cli : option exn) : F () :=
  if should then before ≫= λ _, run_cli cli ≫= λ _, after else mret ().

(** ** Debug artifacts *)

Section debug.
Context (resolve : path → path) (path_str : path → string).
Definition debug_dest (run_dir : path) (c : DebugConfig) (name : string) : res path :=
  let dest := path_join (path_join run_dir (pure_path (output_subdir c))) (pure_path name) in
  _ ← ensure_within_run_dir resolve path_str run_dir dest; Ok dest.
(** [collect_debug_pre_teardown] and [collect_debug_post_teardown]: the directory and
    what is put there. *)
Definition collect_debug_pre_teardown (reply : list (dmop * (CommandResult + exn)) → invocation → CommandResult + exn) (debug : option DebugConfig) (host_count : option Z) (run_dir : path) : C (option (path * gmap string string)) :=
  match debug, host_count with
  | Some c, Some n =>
      if fib_dump c then
        dest ← lift (debug_dest run_dir c "fib");
        files ← dump_fib reply (range n) ∅;
        mret (Some (dest, files))
      else mret None
  | _, _ => mret None
  end.
Definition collect_debug_post_teardown (dirs : gmap string (gmap string string)) (debug : option DebugConfig) (generated : list string) (run_dir : path) : res (option (path * gmap string (gmap string string))) :=
  match debug with
  | Some c =>
      if node_dirs c then
        match generated with
        | [] => Ok None
        | _ => dest ← debug_dest run_dir c "node_dirs"; Ok (Some (dest, archive_node_dirs dirs generated ∅))
        end
      else Ok None
  | None => Ok None
  end.
End debug.

(** ** The dashboard of a disaster run *)

(** The statuses [configure] records before the run, one host after another. *)
Definition status_record (kind : string) (i : Z) (r : CommandResult) : pydict :=
  make_monitor_record (PFloat (FFin 0 0)) (PStr kind) (PInt i) (PStr (Monitor.status_output r)) (derive_monitor_outcome kind r).
Fixpoint seed_statuses (kind : string) (ask_host : Z → C CommandResult) (hosts : list Z) (d : dashboard) : C dashboard :=
  match hosts with
  | [] => mret d
  | i :: hosts =>
      r ← ask_host i;
      d ← lift (record_monitor (status_record kind i r) d);
      seed_statuses kind ask_host hosts d
  end.
Section webui.
Context `{FloatRepr} (reply : list (dmop * (CommandResult + exn)) → invocation → CommandResult + exn).
Definition start_dashboard (a : run_args) (caches : gset Z) (started_at : pyfloat) (mesh : list raw_link) : C (option dashboard) :=
  if or_default (a_webui_port a) 0 =? 0 then mret None
  else
    let d := set_topology mesh (DashboardState (a_hosts a) caches (match a_seed a with Some z => PInt z | None => PNone end) started_at) in
    d ← seed_statuses "cefstatus" (λ i, Daemons.run_cefstatus reply i PNone) (range (a_hosts a)) d;
    d ← seed_statuses "csmgrstatus" (λ i, Daemons.run_csmgrstatus reply i None PNone (Some "127.0.0.1") None PNone) (sorted_set caches) d;
    mret (Some d).
End webui.

(** ** The runner of content operations *)

(** [_make_content_runner]: the lifetimes of the publishers by URI. *)
Definition add_lifetime (d : pydict) (ev : pydict) : res pydict :=
  if eq_str (get_none ev "type") "pubsub_pub" then
    pub_opts ← options ev "pub_opts";
    match get_none pub_opts "lifetime" with
    | PNone => Ok d
    | lifetime => uri ← Events.getitem ev "uri"; if hashable uri then Ok (dset d uri lifetime) else raise ETypeError "unhashable type"
    end
  else Ok d.
Definition pub_lifetimes (events : list pydict) : res pydict := foldM add_lifetime [] events.
Definition make_content_runner (a : run_args) (m : mesh_state) (path_str : path → string) (cwd phase : string) (events : list pydict) : res ContentOps.config :=
  lifetimes ← pub_lifetimes events;
  Ok (ContentOps.mkConfig phase (path_str (m_run_dir m)) (m_uri_publishers m) (float_lt (FFin 0 0) (a_sub_startup_grace a)) lifetimes cwd).

(** ** Locks of the hosts *)

(** [_host_lock]: the lock of a host, made when it is first asked for; a lock is named
    by the number of locks made before it. *)
Definition host_lock (host_idx : Z) (locks : gmap Z nat) : gmap Z nat * nat :=
  match locks !! host_idx with Some l => (locks, l) | None => (<[host_idx := size locks]> locks, size locks) end.
Definition host_locks (hosts : list Z) : gmap Z nat * list nat :=
  foldl (λ w i, let '(locks, l) := host_lock i w.1 in (locks, w.2 ++ [l])) (∅, []) hosts.

(** * Lemmas *)

(** Inside the CLI output goes where it went before the log was opened and the monitor
    is quiet; afterwards it goes to the log again, unless the CLI raised. *)
Lemma run_main_streams a c monitor cli w :
  let before := disaster_before_cli (Some c) monitor in
  run_main (should_run_cli a) before (after_cli (Some c)) cli w =
    if a_no_cli a then (w, inl ())
    else (mkForeground (if cli then original c else teed c) (monitor || f_background w) (f_sessions w ++ [(original c, monitor || f_background w)]),
          match cli with Some e => inr e | None => inl () end).
Proof. unfold run_main, should_run_cli. destruct (a_no_cli a); [done|]. by destruct cli. Qed.

(** A scenario without a log keeps its streams. *)
Lemma run_main_plain should cli w : f_streams (run_main should (before_cli None) (after_cli None) cli w).1 = f_streams w.
Proof. by destruct should, cli. Qed.

Section confined.
Context (resolve : path → path) (path_str : path → string).
Lemma debug_dest_inside run_dir c name dest : debug_dest resolve path_str run_dir c name = Ok dest → inside (resolve run_dir) (resolve dest).
Proof. unfold debug_dest. rewrite ensure_within_spec. case_decide; [|done]. by intros [= <-]. Qed.

Lemma dump_fib_keys reply l dest w w' files : dump_fib reply l dest w = (w', inl files) →
  ∀ k, is_Some (files !! k) ↔ is_Some (dest !! k) ∨ ∃ i, i ∈ l ∧ k = "fib_" +s+ host_node i +s+ ".txt".
Proof.
  revert dest w. induction l as [|i l IH]; intros dest w; cbn; [intros [= _ <-] k; split; [by left|]; intros [?|(? & []%elem_of_nil & _)]; done|].
  unfold mbind, M_bind. destruct (Daemons.run_cefstatus reply i PNone w) as [w1 [r|e]]; [|done]. intros E k. rewrite (IH _ _ E k).
  rewrite lookup_insert_is_Some'. split.
  - intros [[<-|Hk]|(j & Hj & ->)]; [right; exists i; split; [by left|done]|by left|right; exists j; split; [by right|done]].
  - intros [Hk|(j & [->|Hj]%elem_of_cons & ->)]; [left; by right|left; by left|right; by exists j].
Qed.

(** The debug artifacts go below the run directory: a table of routes for every host
    while the daemons run, and the directories afterwards. *)
Lemma debug_confined reply debug host_count run_dir w w' dest files :
  collect_debug_pre_teardown resolve path_str reply debug host_count run_dir w = (w', inl (Some (dest, files))) →
  inside (resolve run_dir) (resolve dest) ∧
  ∃ n, host_count = Some n ∧ ∀ k, is_Some (files !! k) ↔ ∃ i, i ∈ range n ∧ k = "fib_" +s+ host_node i +s+ ".txt".
Proof.
  unfold collect_debug_pre_teardown. destruct debug as [c|], host_count as [n|]; [|done..]. destruct (fib_dump c); [|done].
  unfold mbind, M_bind. unfold lift at 1. destruct (debug_dest resolve path_str run_dir c "fib") as [d|e|] eqn:Ed; [|done..].
  destruct (dump_fib reply (range n) ∅ w) as [w1 [fs|e]] eqn:Ef; [|done]. intros [= _ <- <-]. split; [by eapply debug_dest_inside|].
  exists n. split; [done|]. intros k. rewrite (dump_fib_keys _ _ _ _ _ _ Ef k), lookup_empty. split; [intros [[? [=]]|?]; done|by right].
Qed.
Lemma archive_confined dirs debug generated run_dir dest files :
  collect_debug_post_teardown resolve path_str dirs debug generated run_dir = Ok (Some (dest, files)) → inside (resolve run_dir) (resolve dest).
Proof.
  unfold collect_debug_post_teardown. destruct debug as [c|]; [|done]. destruct (node_dirs c); [|done]. destruct generated; [done|].
  destruct (debug_dest resolve path_str run_dir c "node_dirs") as [d|e|] eqn:Ed; [|done..]. intros [= <- _]. by eapply debug_dest_inside.
Qed.
End confined.

(** ** Lifetimes *)

(** The lifetime an event gives its URI. *)
Definition lifetime_of (ev : pydict) : option (pv * pv) :=
  if eq_str (get_none ev "type") "pubsub_pub" then
    match options ev "pub_opts" with
    | Ok o => match get_none o "lifetime" with PNone => None | l => match Events.getitem ev "uri" with Ok u => Some (u, l) | _ => None end end
    | _ => None
    end
  else None.
Definition lifetimes_for (uri : string) (events : list pydict) : list pv := omap (λ ev, p ← lifetime_of ev; if eq_str p.1 uri then Some p.2 else None) events.

Lemma add_lifetime_ok d ev d' : add_lifetime d ev = Ok d' → d' = match lifetime_of ev with Some (u, l) => dset d u l | None => d end.
Proof.
  unfold add_lifetime, lifetime_of. destruct (eq_str _ _); [|by intros [= ->]]. destruct (options ev "pub_opts") as [o|e|]; cbn; [|done..].
  destruct (get_none o "lifetime"), (Events.getitem ev "uri") as [u|e|]; cbn; try done; try (by intros [= ->]); destruct (hashable u); try done; by intros [= ->].
Qed.

Lemma key_eq_other a b uri : is_str b = false → key_eq a b = true → eq_str a uri = false.
Proof. by destruct a, b. Qed.
Lemma dget_dset_any d u v uri : dget (dset d u v) uri = if eq_str u uri then Some v else dget d uri.
Proof.
  destruct (is_str u) eqn:Eu; [destruct u; try done; rewrite dget_dset; done|].
  assert (Eq : eq_str u uri = false) by by destruct u. rewrite Eq. induction d as [|[x y] d IH]; cbn; [by rewrite Eq|].
  destruct (key_eq x u) eqn:Ex; cbn; [by rewrite (key_eq_other x u uri) by done|by rewrite IH].
Qed.

(** The runner waits for a publisher's lifetime: that of the last event that publishes
    the URI and gives one. *)
Lemma pub_lifetimes_last events d uri : pub_lifetimes events = Ok d → dget d uri = last (lifetimes_for uri events).
Proof.
  revert d. unfold pub_lifetimes. induction events as [|ev events IH] using rev_ind; intros d; [by intros [= <-]|].
  rewrite foldM_app. destruct (foldM add_lifetime [] events) as [d0|e|]; cbn; [|done..]. destruct (add_lifetime d0 ev) as [d1|e|] eqn:E; cbn; [|done..]. intros [= <-].
  apply add_lifetime_ok in E as ->. specialize (IH d0 eq_refl). unfold lifetimes_for in *. rewrite omap_app. cbn. destruct (lifetime_of ev) as [[u l]|]; cbn; [|by rewrite app_nil_r].
  destruct (eq_str u uri) eqn:Ek; [rewrite last_snoc|rewrite app_nil_r].
  - by rewrite dget_dset_any, Ek.
  - by rewrite dget_dset_any, Ek.
Qed.

(** ** Locks *)

(** Every host has one lock, and no two hosts share one. *)
Lemma host_locks_spec hosts : let '(locks, ls) := host_locks hosts in
  (∀ i l, locks !! i = Some l → (l < size locks)%nat) ∧ (∀ i j l, locks !! i = Some l → locks !! j = Some l → i = j) ∧
  Forall2 (λ i l, locks !! i = Some l) hosts ls.
Proof.
  unfold host_locks. induction hosts as [|i hosts IH] using rev_ind; [by split_and!; intros; try done; constructor|].
  rewrite foldl_snoc. destruct (foldl _ _ hosts) as [locks ls]. destruct IH as (Hs & Hi & Hl). cbn. unfold host_lock.
  destruct (locks !! i) as [l|] eqn:E; cbn.
  - split_and!; [done..|]. apply Forall2_app; [done|]. by repeat constructor.
  - assert (Hsize : size (<[i:=size locks]> locks) = S (size locks)) by by apply map_size_insert_None.
    rewrite Hsize. split_and!.
    + intros j l. destruct (decide (j = i)) as [->|Hj]; [rewrite lookup_insert_eq; intros [= <-]; lia|rewrite lookup_insert_ne by done; intros H%Hs; lia].
    + intros j j' l. destruct (decide (j = i)) as [->|Hj], (decide (j' = i)) as [->|Hj']; rewrite ?lookup_insert_eq, ?lookup_insert_ne by done; [done|intros [= <-] H%Hs; lia|intros H%Hs [= <-]; lia|apply Hi].
    + apply Forall2_app; [|constructor; [by rewrite lookup_insert_eq|constructor]]. eapply Forall2_impl; [exact Hl|]. intros j l Hj. cbn in *. rewrite lookup_insert_ne; [done|]. intros ->. congruence.
Qed.

(** ** Dashboard *)

(** The statuses the dashboard starts with are those of the hosts: it is in the state
    after its mesh and one record for each status taken. *)
Lemma seed_statuses_calls kind ask_host hosts d w w' d' : seed_statuses kind ask_host hosts d w = (w', inl d') →
  ∃ rs, length rs = length hosts ∧ d' = handle_all (zip_with (λ i r, Monitored (status_record kind i r)) hosts rs) d.
Proof.
  revert d w. induction hosts as [|i hosts IH]; intros d w; [cbn; intros [= _ <-]; by exists []|].
  cbn [seed_statuses]. unfold mbind, M_bind. destruct (ask_host i w) as [w1 [r|e]]; [|done]. set (rec := status_record kind i r). unfold lift.
  destruct (record_monitor rec d) as [d1|e|] eqn:E; try done.
  intros H. apply IH in H as (rs & Hl & ->). exists (r :: rs). split; [cbn; by f_equal|]. cbn [zip_with handle_all foldl handle]. fold rec. by rewrite E.
Qed.
Lemma dashboard_started `{FloatRepr} reply a caches t0 mesh w w' d : start_dashboard reply a caches t0 mesh w = (w', inl (Some d)) →
  ∃ rs cs, length rs = length (range (a_hosts a)) ∧ length cs = length (sorted_set caches) ∧
  d = handle_all (Meshed mesh :: zip_with (λ i r, Monitored (status_record "cefstatus" i r)) (range (a_hosts a)) rs ++
                  zip_with (λ i r, Monitored (status_record "csmgrstatus" i r)) (sorted_set caches) cs)
        (DashboardState (a_hosts a) caches (match a_seed a with Some z => PInt z | None => PNone end) t0).
Proof.
  unfold start_dashboard. destruct (or_default _ _ =? 0); [done|]. unfold mbind, M_bind.
  destruct (seed_statuses "cefstatus" _ _ _ w) as [w1 [d1|e]] eqn:E1; [|done]. destruct (seed_statuses "csmgrstatus" _ _ _ w1) as [w2 [d2|e]] eqn:E2; [|done].
  intros [= _ <-]. apply seed_statuses_calls in E1 as (rs & Hr & ->), E2 as (cs & Hc & ->). exists rs, cs. split_and!; [done..|].
  cbn [handle_all foldl handle]. unfold handle_all. by rewrite foldl_app.
Qed.

(** ** Specs *)

(** The picture and the results file of a run lie in its directory. *)
Lemma artifacts_confined resolve path_str a run_dir p : (∀ q, resolve (resolve q) = resolve q) →
  topo_png_path resolve path_str a run_dir = Ok p ∨ resolve_results_path resolve path_str a run_dir = Ok (Some p) → inside (resolve run_dir) p.
Proof.
  intros Hr. assert (Hin : ∀ raw d q, resolve_run_path resolve path_str run_dir raw d = Ok q → inside (resolve run_dir) q).
  { intros raw d q. unfold resolve_run_path. destruct (match raw with Some rel => Ok rel | None => _ end) as [rel|e|]; cbn; [|done..].
    destruct (absolute rel); rewrite ensure_within_spec; case_decide as H; try done; intros [= <-]; by rewrite Hr in H. }
  intros [H|H]; [by eapply Hin|]. unfold resolve_results_path in H. destruct (a_results_json a); [|done]. destruct (resolve_run_path _ _ _ _ _) eqn:E; [|done..]. injection H as <-. by eapply Hin.
Qed.

(** ** Readiness *)

Section readiness.
Context (reply : list (op * answer) → op → answer).
Implicit Types w : world.

Definition ready_in (t : list (op * answer)) (i : Z) : Prop := ∃ fs, (WaitCefnetd i, Lifecycle.Returned true fs) ∈ t.

Lemma surfaces_extends {A} sc (m : Prog world A) w w' out : surfaces sc m → m w = (w', out) → ∃ k, trace w' = trace w ++ k.
Proof. intros Hm E. destruct (Hm _ _ _ E) as (k & Hk & _). by exists k. Qed.

Lemma wait_each_ready l nr w w' nr' : Lifecycle.wait_each reply l nr w = (w', inl nr') →
  ∃ k more, trace w' = trace w ++ k ∧ nr' = nr ++ more ∧ ∀ i, i ∈ l → i ∈ more ∨ ready_in k i.
Proof.
  revert nr w. induction l as [|i l IH]; intros nr w; cbn; [intros [= <- <-]; exists [], []; rewrite !app_nil_r; split_and!; try done; by intros i ?%elem_of_nil|].
  intros H. apply bind_inl in H as (w1 & [ready fs] & Hp & H). unfold Lifecycle.perform in Hp. destruct (reply (trace w) (WaitCefnetd i)) as [rd fs0|x] eqn:E; [|done]. injection Hp as <- <- <-.
  apply IH in H as (k & more & Ht & Hn & Hr). cbn in Ht. exists ((WaitCefnetd i, Lifecycle.Returned rd fs0) :: k), ((if rd then [] else [i]) ++ more). split_and!.
  - by rewrite Ht, <-app_assoc.
  - rewrite Hn. destruct rd; cbn; [done|]. by rewrite <-app_assoc.
  - intros j [->|Hj]%elem_of_cons; [destruct rd; cbn; [right; exists fs0; by left|left; by left]|].
    destruct (Hr j Hj) as [Hm|(fs1 & Hk)]; [left; apply elem_of_app; by right|right; exists fs1; by right].
Qed.

Lemma wait_ready_raise f w w' nr : readiness_policy f = "raise" → Lifecycle.wait_ready reply f w = (w', inl nr) →
  ∃ k, trace w' = trace w ++ k ∧ ∀ i, i ∈ node_names f → ready_in k i.
Proof.
  intros Hp H. unfold Lifecycle.wait_ready in H. apply bind_inl in H as (w1 & nr1 & Hw & H). apply wait_each_ready in Hw as (k & more & Ht & -> & Hr).
  case_bool_decide as Hn; [done|]. injection H as <- _. exists k. split; [done|]. intros i Hi. destruct (Hr i Hi) as [Hm|]; [|done].
  destruct more; [by apply elem_of_nil in Hm|]. by destruct Hn.
Qed.

(** With the policy of the disaster scenario the recipe returns only when the daemon of
    every host was ready: no route is programmed on a host that is not. *)
Lemma raise_waits sc w w' f : policy sc = "raise" → Lifecycle.setup_scenario reply sc w = (w', inl f) → ∀ i, i ∈ range (host_count sc) → ready_in (trace w') i.
Proof.
  intros Hp H i Hi. unfold Lifecycle.setup_scenario in H. destruct (_ && _); [done|].
  do 3 (apply bind_inl in H as (? & ? & _ & H)). apply bind_inl in H as (w1 & fl & Hb & H).
  assert (Hf : node_names fl = range (host_count sc) ∧ readiness_policy fl = "raise").
  { unfold Lifecycle.build_fleet in Hb. rewrite Hp in Hb. cbn in Hb. by injection Hb as _ <-. }
  destruct Hf as [Hn Hr]. do 2 (apply bind_inl in H as (? & ? & _ & H)). apply bind_inl in H as (w2 & nr & Hw & H).
  apply wait_ready_raise in Hw as (k & Ht & Hk); [|done].
  assert (∃ l, trace w' = trace w2 ++ l) as [l Hl].
  { eapply (surfaces_extends sc), H. apply surfaces_bind; [apply surfaces_each; intros s; by apply surfaces_do|]. intros _. apply surfaces_bind; [apply surfaces_ask|]. intros s. apply surfaces_ret. }
  rewrite Hl, Ht. destruct (Hk i ltac:(by rewrite Hn)) as (fs & Hin). exists fs. set_solver.
Qed.
End readiness.

(** The disaster scenario insists on its daemons, the others warn. *)
Lemma disaster_waits resolve path_str a m s placed hosts logs reply w w' f :
  disaster_spec resolve path_str a m = Ok s → Lifecycle.setup_scenario reply (life s (disaster_teardown a m) placed hosts logs) w = (w', inl f) →
  ∀ i, i ∈ range (a_hosts a) → ready_in (trace w') i.
Proof.
  unfold disaster_spec. destruct (topo_png_path _ _ _ _) as [png|e|]; [|done..]. cbn. intros [= <-] H i Hi. refine (raise_waits reply _ w w' f _ H i Hi). done.
Qed.

(** Setup never fails for want of a bridge manager, in any scenario. *)
Lemma bridges_managed resolve path_str a m s : disaster_spec resolve path_str a m = Ok s ∨ connect_spec resolve path_str a m = Ok s → sp_bridge_manager s = true ∧ sp_bridge_configs s = m_bridges m.
Proof. unfold disaster_spec, connect_spec. destruct (topo_png_path _ _ _ _) as [png|e|]; cbn; intros [H|H]; try done; by injection H as <-. Qed.

(** ** Cache managers of a line *)

Section managers.
Context (reply : list (op * answer) → op → answer) (host_num : Z) (csmgrd : gset Z).
Implicit Types w : world.

(** A cache manager that was started is in the fleet the scenario keeps. *)
Definition tracked w : Prop := ∀ i r fs, (StartCsmgrd i, Lifecycle.Returned r fs) ∈ trace w → i ∈ started w ∧ is_Some (daemon_fleet w).
Definition tracks {A} (m : Prog world A) : Prop := ∀ w w' out, m w = (w', out) → tracked w → tracked w' ∧ daemon_fleet w' = daemon_fleet w.

Lemma tracks_bind {A B} (m : Prog world A) (f : A → Prog world B) : tracks m → (∀ a, tracks (f a)) → tracks (m ≫= f).
Proof.
  intros Hm Hf w w' out. unfold mbind, Prog_bind. destruct (m w) as [w1 [a|x]] eqn:E; intros H Hw; destruct (Hm _ _ _ E Hw) as [H1 E1].
  - destruct (Hf a _ _ _ H H1) as [H2 E2]. split; [done|congruence].
  - by injection H as <- _.
Qed.
Lemma tracks_ret {A} (a : A) : tracks (mret a).
Proof. by intros w w' out [= <- _]. Qed.
Lemma tracks_raise {A} x : tracks (@raise_exc world A x).
Proof. by intros w w' out [= <- _]. Qed.
Lemma tracks_perform o : (∀ i, o ≠ StartCsmgrd i) → tracks (Lifecycle.perform reply o).
Proof.
  intros Ho w w' out H Hw. unfold Lifecycle.perform in H.
  assert (w' = mkWorld (trace w ++ [(o, reply (trace w) o)]) (net w) (daemon_fleet w) (started w)) as -> by (by destruct (reply (trace w) o); injection H as <- _).
  split; [|done]. intros i r fs [Hin|Hin]%elem_of_app; [by eapply Hw|]. apply list_elem_of_singleton in Hin as [= <- _]. by destruct (Ho i).
Qed.
Lemma tracks_do o : (∀ i, o ≠ StartCsmgrd i) → tracks (do reply o).
Proof. intros Ho. apply tracks_bind; [by apply tracks_perform|]. intros _. apply tracks_ret. Qed.
Lemma tracks_each {A} (f : A → Prog world ()) xs : (∀ x, tracks (f x)) → tracks (each f xs).
Proof. intros Hf. induction xs as [|x xs IH]; [apply tracks_ret|]. cbn. by apply tracks_bind. Qed.
Lemma tracks_wait f : tracks (Lifecycle.wait_ready reply f).
Proof.
  apply tracks_bind; [|intros nr; destruct (bool_decide _); [apply tracks_raise|apply tracks_ret]].
  generalize (@nil Z) as nr. induction (node_names f) as [|i l IH]; intros nr; [apply tracks_ret|]. cbn. apply tracks_bind; [by apply tracks_perform|]. intros a. apply IH.
Qed.

(** [m] keeps the book while the scenario has its fleet. *)
Definition books {A} (m : Prog world A) : Prop := ∀ w w' out, m w = (w', out) → tracked w → is_Some (daemon_fleet w) → tracked w' ∧ is_Some (daemon_fleet w').
Lemma books_keeps {A} (m : Prog world A) : tracks m → books m.
Proof. intros Hm w w' out E Hw Hf. destruct (Hm _ _ _ E Hw) as [H1 H2]. by rewrite H2. Qed.
Lemma books_bind {A B} (m : Prog world A) (f : A → Prog world B) : books m → (∀ a, books (f a)) → books (m ≫= f).
Proof.
  intros Hm Hf w w' out. unfold mbind, Prog_bind. destruct (m w) as [w1 [a|x]] eqn:E; intros H Hw Hd; destruct (Hm _ _ _ E Hw Hd) as [H1 H2]; [by eapply Hf|by injection H as <- _].
Qed.
Lemma books_each {A} (f : A → Prog world ()) xs : (∀ x, books (f x)) → books (each f xs).
Proof. intros Hf. induction xs as [|x xs IH]; [apply books_keeps, tracks_ret|]. cbn. by apply books_bind. Qed.
Lemma books_start i : books (start_one_csmgrd reply i).
Proof.
  intros w w' out H Hw Hf. unfold start_one_csmgrd, do, Lifecycle.perform, mbind, Prog_bind, ask, set_started in H.
  destruct (reply (trace w) (StartCsmgrd i)) as [r fs|x] eqn:E; cbn in H; injection H as <- _; (split; [|done]); intros j r' fs' [Hin|Hin]%elem_of_app; cbn.
  - destruct (Hw _ _ _ Hin). split; [set_solver|done].
  - apply list_elem_of_singleton in Hin as [= -> _ _]. split; [set_solver|done].
  - by eapply Hw.
  - by apply list_elem_of_singleton in Hin as [=].
Qed.

Lemma linear_tracked w out : linear_configure reply host_num csmgrd empty_world = (w, out) → tracked w.
Proof.
  assert (H0 : tracked empty_world) by (intros i r fs []%elem_of_nil).
  unfold linear_configure, Lifecycle.build_fleet. cbn [bool_decide]. intros H. set (f := mkFleet (range host_num) csmgrd "warn" ∅).
  assert (Hrest : books (Lifecycle.start_all reply f ≫= λ _, Lifecycle.wait_ready reply f ≫= λ _, do reply (Setup "set_fib"))).
  { apply books_bind; [apply books_bind; [apply books_each; intros i; apply books_start|intros _; apply books_keeps, tracks_each; intros i; by apply tracks_do]|].
    intros _. apply books_bind; [apply books_keeps, tracks_wait|]. intros _. by apply books_keeps, tracks_do. }
  revert H. unfold mbind at 1, Prog_bind at 1. destruct (do reply (Setup "set_ip_addr") empty_world) as [w1 [[]|x]] eqn:E1; destruct (tracks_do (Setup "set_ip_addr") ltac:(done) _ _ _ E1 H0) as [H1 _]; [|by intros [= <- _]].
  unfold mbind at 1, Prog_bind at 1. destruct (do reply (Setup "ifconfig") w1) as [w2 [[]|x]] eqn:E2; destruct (tracks_do (Setup "ifconfig") ltac:(done) _ _ _ E2 H1) as [H2 _]; [|by intros [= <- _]].
  intros H. change ((Lifecycle.start_all reply f ≫= λ _, Lifecycle.wait_ready reply f ≫= λ _, do reply (Setup "set_fib")) (mkWorld (trace w2) (net w2) (Some f) (started w2)) = (w, out)) in H.
  eapply Hrest; [exact H| |done]. intros i r fs Hin. destruct (H2 i r fs Hin). done.
Qed.

(** However far the setup of a line got, its teardown stops every cache manager that
    was started. *)
Lemma linear_stops_managers w out w' out' i r fs : linear_configure reply host_num csmgrd empty_world = (w, out) →
  (StartCsmgrd i, Lifecycle.Returned r fs) ∈ trace w → linear_teardown reply host_num csmgrd w = (w', out') → StopCsmgrd i ∈ (trace w').*1.
Proof.
  intros Hc Hin Ht. destruct (linear_tracked _ _ Hc i r fs Hin) as [Hs [f Hf]]. revert Ht. unfold linear_teardown, mbind at 1 2, Prog_bind at 1 2, ask. rewrite Hf. cbn [fst].
  intros Ht. change ((Lifecycle.stop_all reply (kept_fleet f (started w)) ≫= λ fs, match fs with [] => mret () | _ => propagate_failures None fs end) w = (w', out')) in Ht.
  destruct (performs_stop_all reply (kept_fleet f (started w)) w) as (w1 & fs1 & Es & _ & _ & Ho). unfold mbind, Prog_bind in Ht. rewrite Es in Ht.
  assert (w' = w1) as -> by (destruct fs1; [by injection Ht as <- _|]; apply (f_equal fst) in Ht; by rewrite propagate_state in Ht).
  rewrite Ho. apply elem_of_app. right. apply elem_of_app. right. apply list_elem_of_fmap_2, elem_of_sorted_set. done.
Qed.
End managers.

(** ** Automatic tests *)

(** An automatic test is one machine: whatever is placed on it, setup attaches no
    interface and builds no bridge. *)
Lemma autotest_isolated resolve path_str a run_dir events d m results s n attach :
  DisasterScenario_init resolve path_str a run_dir events = (d, Ok (m, results, true)) → disaster_spec resolve path_str a m = Ok s →
  sp_bridge_configs s = [] ∧ ∀ ts e x, apply_bw_ext n attach s = (ts, e) → Attach x ∉ ts.
Proof.
  intros Hi Hs. assert (default [] (a_ext a) = [] ∧ m_bridges m = []) as [He Hb].
  { unfold DisasterScenario_init in Hi. destruct (ConfigDrivenMeshScenario_init resolve a run_dir) as [d0 [m0|e|]]; [|done..]. cbn in Hi. injection Hi as _ Hi.
    destruct (resolve_results_path _ _ _ _) as [r|e|]; [|done..]. cbn in Hi. destruct (a_no_cli a && bool_decide (is_Some r)) eqn:Ea; cbn in Hi.
    - destruct (bool_decide (default [] (a_ext a) ≠ []) || bool_decide (m_bridges m0 ≠ [])) eqn:Eb; [done|]. apply orb_false_iff in Eb as [E1%bool_decide_eq_false E2%bool_decide_eq_false].
      apply dec_stable in E1, E2. split; [done|]. unfold with_publishers in Hi. destruct (Events.extract_publications _ _) as [[[ps us] ids]|e|]; [|done..]. cbn in Hi. by injection Hi as <- _.
    - unfold with_publishers in Hi. destruct (Events.extract_publications _ _) as [[[ps us] ids]|e|]; done. }
  unfold disaster_spec in Hs. destruct (topo_png_path _ _ _ _) as [png|e|]; [|done..]. cbn in Hs. injection Hs as <-. split; [done|].
  assert (Hnone : ∀ l ts e x, apply_bws n l = (ts, e) → Attach x ∉ ts).
  { induction l as [|[[p q] bw] l IH]; intros ts e x; cbn; [intros [= <- _]; apply not_elem_of_nil|].
    destruct (set_link_bandwidth _ _ _ _); [|intros [= <- _]; apply not_elem_of_nil..]. destruct (apply_bws n l) as [ts' e']. intros [= <- _]. rewrite elem_of_cons. intros [[=]|Hin]. by eapply IH. }
  intros ts e x. unfold apply_bw_ext. cbn [sp_bw_args sp_ext_args]. destruct (parse_bw_args _) as [bws|e0|]; [|intros [= <- _]; apply not_elem_of_nil..].
  destruct (apply_bws n bws) as [ts0 [e0|]] eqn:Eb; [intros [= <- _]; by eapply Hnone|]. unfold parse_ext_args. rewrite He. cbn. intros [= <- _]. rewrite app_nil_r. by eapply Hnone.
Qed.
